(* ===== verification/_CoqProject ===== *)
-Q . S2P
Prelude.v
PyFloat.v
FloatBounds.v
OrderedDict.v
Request.v
FreeQueue.v
BlockHash.v
BlockPool.v
KVCacheSpec.v
CacheSizes.v
SingleType.v
CacheHit.v
ManagerSpec.v
Coordinator.v
CoordinatorSpec.v
HybridHit.v
CacheConfig.v
CacheFit.v
CacheGroups.v
CacheLayout.v
CachePages.v
CacheConfigSpec.v
KVCacheManager.v
CacheRuns.v
KVCacheManagerSpec.v
HeapQ.v
RequestQueue.v
SchedUtils.v
EncoderCache.v
EncoderSched.v
KVContract.v
SchedState.v
Scheduler.v
SchedQueues.v
SchedInv.v
SchedStep.v
SchedRunning.v
SchedWaiting.v
SchedulerSpec.v
KVContractUnitary.v
SchedFinish.v
SchedOutput.v
Engine.v
EngineMemory.v
SchedFindings.v
TaperPlus.v
TailBlend.v
TaperPlanner.v
BonTaper.v
Controllers.v
ControllerLaws.v
PlannerSpec.v
ControllersSpec.v
ControllerChoice.v
ControllerRuns.v
OffloadPolicy.v
OffloadManager.v
OffloadSpec.v
OffloadReuse.v
NumPy.v
Ngram.v
BlockTable.v
BlockTableSpec.v
BlockSlots.v
Detokenizer.v
ParallelSampling.v
OutputProcessor.v
OutputSpec.v
OutputStream.v
