(* ===== verification/Prelude.v ===== *)
(** * Verification of the scheduling core of vLLM v1 (TailBlend fork)

    ** The program

    The engine core of vLLM ([vllm/v1/engine/core.py]) runs a loop: it schedules the
    tokens of a step, lets the workers execute the model, and hands the sampled tokens
    back.  The scheduler ([vllm/v1/core/sched/]) keeps the requests in a running list and
    two waiting queues, and asks the KV cache manager ([vllm/v1/core/]) for the memory of
    their keys and values.  The manager passes each call to a coordinator, which owns one
    block pool and one manager per group of layers; the managers keep a table of blocks
    per request.  The pool keeps the free blocks in a doubly linked list that is also the
    order of eviction, and full blocks in a cache indexed by chained hashes of their
    tokens, from which later requests with the same prefix take them.

    The fork adds controllers for best-of-n sampling, where several requests are branches
    of one parent: TAPER plans which decoding branches run in a step, TailBlend chooses
    whom to preempt and whom to defer, the BoN taper limits the number of active parents
    and predicts output lengths.  The offloading manager ([vllm/v1/kv_offload/]) keeps a
    second cache of blocks in CPU memory, evicted in LRU or ARC order.

    Around the core: before the engine starts, the layers are put into groups and the
    memory of the workers is divided into tensors and blocks
    ([vllm/v1/core/kv_cache_utils.py]).  The workers keep the block ids of the running
    requests in tables and compute from them the slot of every token
    ([vllm/v1/worker/block_table.py]); an n-gram proposer drafts tokens from the context
    ([vllm/v1/spec_decode/ngram_proposer.py]).  The front end ([vllm/v1/engine/]) adds
    requests, fans them out into samples, turns tokens into text, stops at stop strings
    and hands outputs to the client.

    This library models these parts from the Python source and proves what makes them
    correct.  Tensor code, processes, sockets and configuration parsing are outside.

    ** How the code is modelled

    - A call that can raise returns [res]; [do]-style binds thread the state explicitly.
      Python integers are [Z], bytes are lists of bytes, floats are the binary64 numbers
      of the specification ([PyFloat.v]).
    - Objects that the code shares by reference are shared in the model: blocks are
      references into the pool, the pool is one value that every operation passes on,
      and a request is identified by its id in [sc_requests].
    - A [defaultdict] that is read gets an entry; dictionaries whose order matters are
      association lists; the order of iteration over a set is a parameter
      [set_order] of which only [set_order l ≡ₚ l] is used.
    - NumPy arrays are lists with checked indices; arrays of 32-bit integers refuse or wrap
      what does not fit, as NumPy does.  A parallel loop or a grid of kernel programs runs
      its bodies in an order that is a parameter, of which only that it is a permutation
      is used.  Text is a list of code points.
    - Time, hash functions, the model executor, the sizes of torch types (class
      [TorchLib]), what a tokenizer makes of a token ([decode_next]) and the functions of
      libm the controllers use (class [PyLib]) are parameters.  What is assumed of them is named where it is
      used: collision freedom of the hash ([prefix_hash_sound], [KVContractUnitary.v]), the
      shape of the workers' answer ([runner_ok]), that a page has a positive size
      ([sized]); nothing is assumed of the clock, of [decode_next] and of [PyLib].
      Instances that satisfy the assumptions are given ([sample_hash], the engine of
      [EngineMemory.v], the types of [CacheRuns.v]).
    - The scheduler calls its controllers through the class [Plugins]; its theorems are
      proved from the laws [PluginLaws].  [no_plugins_laws] discharges them for the stock
      scheduler, [controllers_laws] for the controllers of the fork in every configuration
      in [admissible] (no virtual reservation, a preemption mode other than [full_slo], a
      block size, less than [2 ^ 52] running requests).

    ** Files

    - [Prelude.v]: exceptions and the monad, slices, automation, lemmas on lists, maps
      and integers.  [PyFloat.v]: floats; [FloatBounds.v]: bounds on rounding.
      [OrderedDict.v]: [collections.OrderedDict].
    - [Request.v]: [vllm/v1/request.py].  Status machine, token updates, order.
    - [FreeQueue.v]: [KVCacheBlock] and [FreeKVCacheBlockQueue] at the level of links,
      refined to lists.
    - [BlockHash.v]: packing of hashes, extra keys, [get_request_block_hasher].
    - [BlockPool.v]: [block_pool.py], the cache map and the events.
    - [KVCacheSpec.v], [SingleType.v], [CacheHit.v]: the attention kinds, the managers of
      [single_type_kv_cache_manager.py] and their prefix lookup; [ManagerSpec.v]: their
      invariant, the cost of an allocation and the admission bounds.
    - [Coordinator.v], [CoordinatorSpec.v], [HybridHit.v]: [kv_cache_coordinator.py], its
      invariant, construction and the fixed point of the hybrid lookup.
    - [KVCacheManager.v], [KVCacheManagerSpec.v]: [kv_cache_manager.py], [allocate_slots]
      and the reachable states of the manager.
    - [HeapQ.v], [RequestQueue.v]: [heapq] and [request_queue.py], refined to sorted lists.
    - [SchedUtils.v]: [sched/utils.py].  [EncoderCache.v], [EncoderSched.v]: the encoder
      cache managers and the scheduling of encoder inputs.
    - [SchedState.v], [Scheduler.v]: [scheduler.py] and [async_scheduler.py], one
      definition per method, the long ones split along their loops.
    - [KVContract.v]: what the KV cache manager promises to the scheduler, as a class;
      [KVContractUnitary.v]: the manager of the code keeps it.
    - [SchedQueues.v], [SchedInv.v], [SchedStep.v], [SchedRunning.v], [SchedWaiting.v],
      [SchedulerSpec.v]: the invariant of the scheduler, the step under construction, the
      loop over the running requests with preemption, the loop over the waiting requests,
      the end of the step.
    - [SchedFinish.v], [SchedOutput.v]: adding, finishing and freeing requests; the output
      of the model.
    - [Engine.v], [EngineMemory.v]: [EngineCore], its runs, and the theorems about them,
      for any KV cache that keeps the contract and for the code's own.
    - [SchedFindings.v]: concrete runs that show defects.
    - [TaperPlus.v], [TailBlend.v], [TaperPlanner.v], [BonTaper.v]: the controllers
      ([tail_blend_controller.py], [bon_taper_controller.py], [bon_taper_len_predictor.py]
      and the TAPER methods of [scheduler.py]); [Controllers.v]: the points where the
      scheduler calls them, as an instance of [Plugins].
    - [ControllerLaws.v]: a logic for controllers that only change their own state, with
      the totality of each; [PlannerSpec.v]: what a plan of the planners guarantees;
      [ControllersSpec.v]: the laws and the engine with its controllers;
      [ControllerChoice.v]: whom they choose, the predicted lengths, the latency model;
      [ControllerRuns.v]: concrete runs and defects.
    - [OffloadPolicy.v], [OffloadManager.v]: the LRU and ARC policies and the manager of
      CPU blocks ([vllm/v1/kv_offload/cpu/]); [OffloadSpec.v]: their invariants and the
      runs of the manager; [OffloadReuse.v]: the filter that stores only reused blocks.
    - [CacheSizes.v], [CacheConfig.v]: the sizes of the specifications and
      [kv_cache_utils.py] from [_check_enough_kv_cache_memory] on; [CacheFit.v]: the
      memory checks and the automatic fit; [CacheGroups.v], [CachePages.v]: the grouping
      of layers and the unification of pages; [CacheLayout.v], [CacheConfigSpec.v]: the
      tensors of a worker and the whole configuration; [CacheRuns.v]: runs and defects.
    - [NumPy.v]: stores into arrays and slices.  [Ngram.v]: the proposer, its reference
      and the proof that they agree.
    - [BlockTable.v]: [block_table.py] with the slot mapping kernel; [BlockTableSpec.v]:
      the tables as lists of blocks; [BlockSlots.v]: the slots.
    - [Detokenizer.v]: [detokenizer.py]; [ParallelSampling.v]: [parallel_sampling.py];
      [OutputProcessor.v]: [output_processor.py], the merge of outputs ([outputs.py]) and
      the fan-out of [LLMEngine.add_request]; [OutputSpec.v]: the invariant of the front
      end; [OutputStream.v]: streamed answers, the collector, and defects.

    ** What the theorems show

    - Memory: reference counts are the entries of the tables, the free queue holds the
      blocks no table points to ([pool_safe], [kv_cache_safe]); an allocation that is
      admitted succeeds and covers the tokens ([admission_sound],
      [allocate_slots_correct]); the scheduled tokens have blocks
      ([scheduled_tokens_have_blocks]).
    - Prefix caching: equal hashes of new requests come from equal prefixes
      ([prefix_hash_sound]), the hashes of a text request follow its output, hits are
      cached, aligned and as long as they should be; the lookup over several groups is
      proved for one full attention specification and no EAGLE on Mamba groups, that of
      chunked local attention for chunks of whole blocks.
    - Scheduling: for text requests without sessions and adapters ([op_allowed]), no
      operation of the engine raises and every request is accounted for ([engine_safe],
      with any KV cache that keeps [KVContract]: the code's own with one group or
      without prefix caching); a step stays within its limits ([schedule_within_limits]); the
      queues serve in the order of their policy; [check_stop] stops when it should.
    - Encoder inputs: slots are accounted for and outputs are there when they are read.
    - Controllers: the engine keeps its guarantees whatever the controllers choose
      ([controlled_engine_safe]); a plan starves no parent and is as wide as the budget
      or the number of parents, unless nothing presses ([plans_protect_parents]); the
      victim is a maximum of its key ([victim_maximal]); predictions, percentiles and the
      coefficients of the latency model stay in range.
    - Offloading: block ids are given to at most one key, a store evicts neither a block in
      use nor a key of its own ([offload_transfers_isolated]), a policy returns what it
      was asked for or changes nothing.
    - Configuration: groups partition the layers ([groups_partition]), every layer has
      its place in exactly one tensor and all of it fits ([cache_configs_ok]), the
      automatic fit finds the largest length ([auto_fit_longest]), pages are unified or
      refused ([unify_page_sizes]).  Sliding window layers over latent attention are
      covered only with other MLA layers, and not by [cache_configs_ok]; padded pages not
      by [unify_page_sizes].
    - Workers: a block table is the list of blocks of each row ([block_table_refines]),
      every token gets the slot of its position ([slot_mapping_correct]) and no other
      token's ([slots_isolated]) when the interleave size of context parallelism divides
      the kernel's block size; the linear n-gram search is the naive one
      ([ngram_proposer_correct]).
    - Front end: nothing raises, ids and parents are kept exactly while their requests run
      and the engine is told which of them to abort ([output_processor_safe]); what is streamed is the answer
      ([delta_outputs_complete], [detok_stream_complete], [collector_keeps_outputs]);
      looking for stop strings in new text only is enough ([stop_search_complete]); every
      sample is returned once ([parallel_sampling_complete]).
    - Defects of the code are stated as theorems about concrete or general inputs and are
      listed in the manifest.

    ** Bounds and fuel

    Recursion that is not structural runs on fuel: the walk of the free queue (number of
    blocks), the hasher (number of tokens), the hybrid lookup (its length bound), the
    loops of the scheduler (length of the running list, of the queues), heap sifting (its
    size), the binary search for the model length (the logarithm of its range), the n-gram
    search (twice the number of tokens) and the recursion of an abort (its depth).  Each is proved not to run out; [OutOfFuel] marks exhaustion and no theorem
    assumes it away.

    ** Not modelled

    The KV connector and encoder connector paths of the scheduler (the model is the code
    with no connector configured), statistics and logging, LoRA limits in the theorems on
    the engine (the limit can be exceeded, see [SchedFindings.v]), streaming sessions in
    the same theorems, the queue of batches of the engine, the latency profile and the
    log lines of the controllers and the ranking helpers of TailBlend that nothing calls,
    the scheduler of the offloading connector and its transfer handlers (its state is
    spread over tensors and worker processes), the manager of structured outputs (a client
    of grammar libraries), tokenizers and input processing, the contents of log
    probabilities, metrics and tracing, data parallel coordination and the asyncio tasks of
    [AsyncLLM].  The theorems on the front end are about the synchronous [LLMEngine]
    without aborts and streamed input, both of which are modelled; an abort by external id
    breaks the invariant ([abort_leaks_parent]).  Models, layers and kernels are tensor
    programs, and the rest of the repository is configuration, entry points and glue. *)

From stdpp Require Export ssreflect.
From stdpp Require Export base tactics decidable countable gmap list strings numbers sorting.
From Stdlib Require Export ZArith Lia.
#[global] Open Scope Z_scope.
#[export] Set Warnings "-rewrite-rw,-clear-no-such-hyp".

(** ** Python exceptions and fallible computations *)

(** The exception classes the modelled code raises.  [StopIteration] is what
    [next(iter(...))] raises on an empty iterable.  [OutOfFuel] is no exception of
    Python: a loop of the model that runs on fuel ends with it when the fuel is
    used up, and the theorems show that it is not reached. *)
Inductive exn : Set :=
  | AssertionError
  | ValueError
  | RuntimeError
  | KeyError
  | IndexError
  | OverflowError
  | NotImplementedError
  | StopIteration
  | ZeroDivisionError
  | AttributeError
  | OutOfFuel.

(** A call that returns or raises.  The state reached at the point of a
    [raise] is not observed by any caller of the modelled code, so it is not
    part of [Raise]. *)
Inductive res (A : Type) : Type :=
  | Ok (a : A)
  | Raise (e : exn).
Arguments Ok {_} _.
Arguments Raise {_} _.

#[export] Instance exn_eq_dec : EqDecision exn.
Proof. solve_decision. Defined.

#[export] Instance res_ret : MRet res := λ A a, Ok a.
#[export] Instance res_bind : MBind res := λ A B f m,
  match m with Ok a => f a | Raise e => Raise e end.

(** [assert b] of Python. *)
Definition py_assert (b : bool) : res unit :=
  if b then Ok tt else Raise AssertionError.

(** A loop over an iterable that threads a state and may raise. *)
Fixpoint foldM {A S} (f : S → A → res S) (s : S) (l : list A) : res S :=
  match l with
  | [] => Ok s
  | x :: l => s' ← f s x; foldM f s' l
  end.

(** A comprehension that threads a state. *)
Fixpoint mapM_st {A B S} (f : S → A → res (S * B)) (s : S) (l : list A)
    : res (S * list B) :=
  match l with
  | [] => Ok (s, [])
  | x :: l =>
      '(s1, y) ← f s x;
      '(s2, ys) ← mapM_st f s1 l;
      Ok (s2, y :: ys)
  end.

(** A comprehension whose body may raise. *)
Fixpoint mapM_res {A B} (f : A → res B) (l : list A) : res (list B) :=
  match l with
  | [] => Ok []
  | x :: l => y ← f x; ys ← mapM_res f l; Ok (y :: ys)
  end.

(** ** Python sequences *)

(** [range(a, b)] and [range(a, b, -1)]. *)
Definition zrange (a b : Z) : list Z := seqZ a (b - a).
Definition zrange_down (a b : Z) : list Z := reverse (seqZ (b + 1) (a - b)).

(** [len l]. *)
Definition zlen {A} (l : list A) : Z := Z.of_nat (length l).

(** A slice bound clamped the way Python clamps it. *)
Definition clamp_index (n i : Z) : Z :=
  if bool_decide (i < 0) then Z.max 0 (i + n) else Z.min i n.

(** [l[a:b]], [l[a:]] and [l[:b]]. *)
Definition py_slice {A} (l : list A) (a b : Z) : list A :=
  let a' := clamp_index (zlen l) a in
  let b' := clamp_index (zlen l) b in
  take (Z.to_nat (b' - a')) (drop (Z.to_nat a') l).
Definition py_slice_from {A} (l : list A) (a : Z) : list A :=
  drop (Z.to_nat (clamp_index (zlen l) a)) l.
Definition py_slice_to {A} (l : list A) (b : Z) : list A :=
  take (Z.to_nat (clamp_index (zlen l) b)) l.

(** [l[i]], with Python's negative indices. *)
Definition py_nth {A} (l : list A) (i : Z) : res A :=
  let j := if bool_decide (i < 0) then i + zlen l else i in
  if bool_decide (j < 0) then Raise IndexError
  else match l !! Z.to_nat j with Some x => Ok x | None => Raise IndexError end.

(** [[x] * n] (empty for a negative [n]). *)
Definition py_repeat {A} (x : A) (n : Z) : list A := replicate (Z.to_nat n) x.

(** [l.pop()] on a list known to be non-empty drops the last element. *)
Definition py_init {A} (l : list A) : list A := take (length l - 1) l.

(** [x is not None] and [not l] for a list. *)
Definition is_some {A} (x : option A) : bool :=
  match x with Some _ => true | None => false end.
Definition is_nil {A} (l : list A) : bool :=
  match l with [] => true | _ => false end.

(** [sum(l)]. *)
Definition zsum (l : list Z) : Z := foldr Z.add 0 l.

(** ** [vllm/utils/math_utils.py] *)

Definition cdiv (a b : Z) : Z := - (a / - b).

Definition round_up (x y : Z) : Z := ((x + y - 1) / y) * y.

Definition round_down (x y : Z) : Z := (x / y) * y.

(** ** Bytes *)

Abbreviation bytes := (list Byte.byte).

#[export] Instance byte_eq_dec : EqDecision Byte.byte := Byte.byte_eq_dec.

#[export] Program Instance byte_countable : Countable Byte.byte :=
  inj_countable Byte.to_N Byte.of_N _.
Next Obligation. intros b. apply Byte.of_to_N. Qed.

(** The byte of an integer, modulo 256. *)
Definition byte_of_Z (z : Z) : Byte.byte :=
  default Byte.x00 (Byte.of_N (Z.to_N (z mod 256))).

Definition Z_of_byte (b : Byte.byte) : Z := Z.of_N (Byte.to_N b).

(** [int.from_bytes(bs, 'big')]. *)
Definition int_from_bytes (bs : bytes) : Z :=
  foldl (λ acc b, acc * 256 + Z_of_byte b) 0 bs.

(** The [n] big-endian bytes of [z]. *)
Fixpoint be_bytes (n : nat) (z : Z) : bytes :=
  match n with
  | O => []
  | S n => be_bytes n (z / 256) ++ [byte_of_Z z]
  end.

(** [z.to_bytes(n, 'big', signed=False)]. *)
Definition int_to_bytes (n : nat) (z : Z) : res bytes :=
  if bool_decide (0 ≤ z < 256 ^ Z.of_nat n) then Ok (be_bytes n z)
  else Raise OverflowError.

(** ** Tactics *)

(** Case analysis on a [decide] of the goal. *)
Ltac goal_decide :=
  match goal with |- context [decide ?P] => destruct (decide P) end.

(** Case analysis on a [bool_decide] of the goal. *)
Tactic Notation "goal_bool" "as" ident(H) :=
  match goal with |- context [bool_decide ?P] =>
    destruct (decide P) as [H|H];
    [rewrite (bool_decide_true P H)|rewrite (bool_decide_false P H)] end.

(** ** Lists *)

Lemma filter_all {A} (P : A → Prop) `{∀ x, Decision (P x)} (l : list A) :
  (∀ x, x ∈ l → P x) → filter P l = l.
Proof.
  induction l as [|x l IH]; intros HP; [done|].
  rewrite filter_cons_True; [|apply HP; left]. f_equal. apply IH. intros y ?. apply HP. by right.
Qed.

Lemma filter_none {A} (P : A → Prop) `{∀ x, Decision (P x)} (l : list A) :
  (∀ x, x ∈ l → ¬ P x) → filter P l = [].
Proof.
  induction l as [|x l IH]; intros HP; [done|].
  rewrite filter_cons_False; [|apply HP; left]. apply IH. intros y ?. apply HP. by right.
Qed.

Lemma list_filter_iff_elem {A} (P Q : A → Prop)
    `{∀ x, Decision (P x), ∀ x, Decision (Q x)} (l : list A) :
  (∀ x, x ∈ l → P x ↔ Q x) → filter P l = filter Q l.
Proof.
  induction l as [|x l IH]; intros HPQ; [done|]. rewrite !filter_cons.
  assert (P x ↔ Q x) as Hx by (apply HPQ; left).
  rewrite IH; [|intros y ?; apply HPQ; by right].
  destruct (decide (P x)), (decide (Q x)); tauto || done.
Qed.

Lemma filter_and_sublist {A} (P Q : A → Prop)
    `{∀ x, Decision (P x), ∀ x, Decision (Q x)} (l : list A) :
  filter (λ x, P x ∧ Q x) l `sublist_of` filter Q l.
Proof.
  induction l as [|x l IH]; [done|]. rewrite !filter_cons.
  destruct (decide (P x ∧ Q x)), (decide (Q x)); try tauto; by constructor.
Qed.

Lemma filter_Permutation_split {A} (P : A → Prop) `{∀ x, Decision (P x)} (l : list A) :
  filter P l ++ filter (λ x, ¬ P x) l ≡ₚ l.
Proof.
  induction l as [|x l IH]; [done|]. rewrite !filter_cons.
  destruct (decide (P x)), (decide (¬ P x)); try tauto; rewrite -?Permutation_middle ?IH //.
  cbn [app]. by rewrite IH.
Qed.

Lemma filter_remove_one {A} `{EqDecision A} (l1 l2 : list A) x :
  NoDup (l1 ++ x :: l2) → filter (λ y, y ≠ x) (l1 ++ x :: l2) = l1 ++ l2.
Proof.
  intros Hnd. apply NoDup_app in Hnd as (_ & H1 & H2). apply NoDup_cons in H2 as [H2 _].
  rewrite filter_app filter_cons_False; [|tauto].
  f_equal; apply filter_all; intros y Hy ->; [|done]. apply (H1 _ Hy). left.
Qed.

(** The number of occurrences of [x] in [l]. *)
Definition zcount {A} `{EqDecision A} (x : A) (l : list A) : Z :=
  zlen (filter (λ y, y = x) l).

Section zcount.
Context {A : Type} `{EqDecision A}.
Implicit Types (x y : A) (l : list A).

Lemma zcount_nil x : zcount x [] = 0.
Proof. done. Qed.
Lemma zcount_cons x y l : zcount x (y :: l) = (if decide (y = x) then 1 else 0) + zcount x l.
Proof. unfold zcount, zlen. rewrite filter_cons. goal_decide; cbn [length]; lia. Qed.
Lemma zcount_app x l1 l2 : zcount x (l1 ++ l2) = zcount x l1 + zcount x l2.
Proof. unfold zcount, zlen. rewrite filter_app length_app. lia. Qed.
Lemma zcount_nonneg x l : 0 ≤ zcount x l.
Proof. unfold zcount, zlen. lia. Qed.
Lemma zcount_0 x l : zcount x l = 0 ↔ x ∉ l.
Proof.
  induction l as [|y l IH]; [by split; [set_solver|]|].
  pose proof (zcount_nonneg x l). rewrite zcount_cons. goal_decide.
  - subst. split; [lia|set_solver].
  - rewrite Z.add_0_l IH. set_solver.
Qed.
Lemma zcount_pos x l : 0 < zcount x l ↔ x ∈ l.
Proof.
  pose proof (zcount_nonneg x l). destruct (decide (x ∈ l)) as [Hx|Hx].
  - split; [done|]. intros _. destruct (decide (zcount x l = 0)) as [E|]; [|lia].
    by apply zcount_0 in E.
  - apply zcount_0 in Hx as E. rewrite E. split; [lia|done].
Qed.
Lemma zcount_NoDup x l : NoDup l → zcount x l = if decide (x ∈ l) then 1 else 0.
Proof.
  induction 1 as [|y l Hy Hl IH]; [done|]. rewrite zcount_cons IH.
  repeat goal_decide; set_solver by lia.
Qed.
Lemma NoDup_zcount l : NoDup l ↔ ∀ x, zcount x l ≤ 1.
Proof.
  split.
  - intros Hnd x. rewrite zcount_NoDup //. case_decide; lia.
  - induction l as [|y l IH]; intros Hl; constructor.
    + specialize (Hl y). rewrite zcount_cons in Hl. intros Hy%zcount_pos. case_decide; [lia|done].
    + apply IH. intros x. specialize (Hl x). rewrite zcount_cons in Hl. case_decide; lia.
Qed.
Lemma zcount_Permutation x l1 l2 : l1 ≡ₚ l2 → zcount x l1 = zcount x l2.
Proof. intros H. unfold zcount, zlen. by rewrite H. Qed.
#[global] Instance zcount_proper x : Proper (Permutation ==> eq) (zcount x).
Proof. intros l1 l2. apply zcount_Permutation. Qed.
Lemma zcount_reverse x l : zcount x (reverse l) = zcount x l.
Proof. apply zcount_Permutation, reverse_Permutation. Qed.
Lemma zcount_filter (P : A → Prop) `{∀ x, Decision (P x)} x l :
  zcount x (filter P l) = if decide (P x) then zcount x l else 0.
Proof.
  induction l as [|y l IH]; [by goal_decide|]. rewrite filter_cons zcount_cons.
  destruct (decide (P y)), (decide (y = x)) as [->|]; rewrite ?zcount_cons IH;
    repeat goal_decide; done || lia.
Qed.
End zcount.

(** [foldM] over an append. *)
Lemma foldM_app {A S} (f : S → A → res S) s l1 l2 :
  foldM f s (l1 ++ l2) = (s' ← foldM f s l1; foldM f s' l2).
Proof.
  revert s. induction l1 as [|x l1 IH]; intros s; [done|].
  cbn. destruct (f s x); [apply IH|done].
Qed.

(** [mapM_res] returns when its body does, and then pointwise. *)
Lemma mapM_res_ok {A B} (f : A → res B) (l : list A) :
  (∀ x, x ∈ l → ∃ y, f x = Ok y) → ∃ ys, mapM_res f l = Ok ys.
Proof.
  induction l as [|x l IH]; intros Hf; [by exists []|]. destruct (Hf x) as [y Hy]; [left|].
  destruct IH as [ys Hys]; [intros z Hz; apply Hf; by right|]. exists (y :: ys). cbn. by rewrite Hy Hys.
Qed.

Lemma mapM_res_Forall2 {A B} (f : A → res B) (l : list A) (ys : list B) :
  mapM_res f l = Ok ys ↔ Forall2 (λ x y, f x = Ok y) l ys.
Proof.
  revert ys. induction l as [|x l IH]; intros ys; cbn [mapM_res].
  { split; [by intros [= <-]|by inversion 1]. }
  destruct (f x) as [y|e] eqn:E; cbn [mbind res_bind].
  - destruct (mapM_res f l) as [ys'|e'] eqn:El; cbn [mbind res_bind].
    + split; [intros [= <-]; constructor; [done|by apply IH]|].
      inversion 1 as [|??? ys0 Hy Hys]; subst. apply IH in Hys. congruence.
    + split; [done|]. inversion 1 as [|??? ys0 Hy Hys]; subst. by apply IH in Hys.
  - split; [done|]. inversion 1; congruence.
Qed.

(** ** Sums *)

Lemma zsum_cons x l : zsum (x :: l) = x + zsum l.
Proof. done. Qed.

Lemma zsum_app l1 l2 : zsum (l1 ++ l2) = zsum l1 + zsum l2.
Proof. induction l1 as [|x l1 IH]; [done|]. cbn [app]. rewrite !zsum_cons. lia. Qed.

Lemma zsum_nonneg l : Forall (λ n, 0 ≤ n) l → 0 ≤ zsum l.
Proof. induction 1; [done|]. rewrite zsum_cons. lia. Qed.

Lemma elem_of_zrange a b x : x ∈ zrange a b ↔ a ≤ x < b.
Proof. unfold zrange. rewrite elem_of_seqZ. lia. Qed.

(** ** Properties of [cdiv] *)

(** [cdiv a b] is the least [k] with [a ≤ k * b]. *)
Lemma cdiv_spec a b : 0 < b → a ≤ cdiv a b * b < a + b.
Proof.
  intros Hb. unfold cdiv. rewrite -Z.div_opp_opp; [|lia]. rewrite Z.opp_involutive.
  pose proof (Z.div_mod (- a) b ltac:(lia)). pose proof (Z.mod_pos_bound (- a) b Hb). nia.
Qed.
Lemma cdiv_le a b k : 0 < b → a ≤ k * b → cdiv a b ≤ k.
Proof. intros Hb H. pose proof (cdiv_spec a b Hb). nia. Qed.
Lemma cdiv_mono a a' b : 0 < b → a ≤ a' → cdiv a b ≤ cdiv a' b.
Proof. intros Hb H. apply cdiv_le; [done|]. pose proof (cdiv_spec a' b Hb). lia. Qed.
Lemma cdiv_nonneg a b : 0 < b → 0 ≤ a → 0 ≤ cdiv a b.
Proof. intros Hb H. pose proof (cdiv_spec a b Hb). nia. Qed.
Lemma div_le_cdiv a b : 0 < b → a / b ≤ cdiv a b.
Proof.
  intros Hb. pose proof (cdiv_spec a b Hb). pose proof (Z.mul_div_le a b Hb). nia.
Qed.

(** ** Python sequence operations in range *)

Lemma py_nth_ok {A} (l : list A) i x :
  0 ≤ i → l !! Z.to_nat i = Some x → py_nth l i = Ok x.
Proof.
  intros Hi E. unfold py_nth. rewrite (bool_decide_false (i < 0)); [|lia].
  rewrite bool_decide_false; [|lia]. by rewrite E.
Qed.

Lemma py_nth_middle {A} (pre suf : list A) x : py_nth (pre ++ x :: suf) (zlen pre) = Ok x.
Proof.
  apply py_nth_ok; unfold zlen; [lia|]. by rewrite Nat2Z.id list_lookup_middle.
Qed.

Lemma zlen_lookup {A} (l : list A) i :
  0 ≤ i < zlen l → ∃ x, l !! Z.to_nat i = Some x.
Proof. intros Hi. apply lookup_lt_is_Some_2. unfold zlen in Hi. lia. Qed.

Lemma zlen_nonneg {A} (l : list A) : 0 ≤ zlen l.
Proof. unfold zlen. lia. Qed.
#[export] Instance zlen_proper {A} : Proper (Permutation ==> eq) (@zlen A).
Proof. intros l1 l2 HP. unfold zlen. by rewrite HP. Qed.

Lemma zlen_cons {A} (x : A) (l : list A) : zlen (x :: l) = 1 + zlen l.
Proof. unfold zlen. cbn [length]. lia. Qed.
Lemma zlen_app {A} (l1 l2 : list A) : zlen (l1 ++ l2) = zlen l1 + zlen l2.
Proof. unfold zlen. rewrite length_app. lia. Qed.
Lemma zlen_fmap {A B} (f : A → B) (l : list A) : zlen (f <$> l) = zlen l.
Proof. unfold zlen. by rewrite length_fmap. Qed.
Lemma zlen_reverse {A} (l : list A) : zlen (reverse l) = zlen l.
Proof. unfold zlen. by rewrite length_reverse. Qed.
Lemma zlen_take {A} (l : list A) n : 0 ≤ n → zlen (take (Z.to_nat n) l) = Z.min n (zlen l).
Proof. intros ?. unfold zlen. rewrite length_take. lia. Qed.
Lemma zlen_drop {A} (l : list A) n : 0 ≤ n → zlen (drop (Z.to_nat n) l) = Z.max 0 (zlen l - n).
Proof. intros ?. unfold zlen. rewrite length_drop. lia. Qed.
Lemma zlen_repeat {A} (x : A) n : zlen (py_repeat x n) = Z.max 0 n.
Proof. unfold zlen, py_repeat. rewrite length_replicate. lia. Qed.

Lemma py_slice_from_drop {A} (l : list A) a :
  0 ≤ a → py_slice_from l a = drop (Z.to_nat a) l.
Proof.
  intros Ha. unfold py_slice_from, clamp_index. rewrite bool_decide_false; [|lia].
  destruct (Z.min_spec a (zlen l)) as [[? ->]|[? ->]]; [done|].
  rewrite !drop_ge //; unfold zlen in *; lia.
Qed.
Lemma py_slice_to_take {A} (l : list A) a :
  0 ≤ a → py_slice_to l a = take (Z.to_nat a) l.
Proof.
  intros Ha. unfold py_slice_to, clamp_index. rewrite bool_decide_false; [|lia].
  destruct (Z.min_spec a (zlen l)) as [[? ->]|[? ->]]; [done|].
  rewrite !take_ge //; unfold zlen in *; lia.
Qed.
Lemma py_slice_take_drop {A} (l : list A) a b :
  0 ≤ a → a ≤ b → b ≤ zlen l →
  py_slice l a b = take (Z.to_nat (b - a)) (drop (Z.to_nat a) l).
Proof.
  intros Ha Hab Hb. unfold py_slice, clamp_index.
  rewrite !bool_decide_false; [|lia..]. by rewrite !Z.min_l; [|lia..].
Qed.

Lemma zlen_seqZ m n : zlen (seqZ m n) = Z.max 0 n.
Proof. unfold zlen. rewrite length_seqZ. lia. Qed.
Lemma drop_seqZ m n i : 0 ≤ i → drop (Z.to_nat i) (seqZ m n) = seqZ (m + i) (n - i).
Proof.
  intros Hi. apply list_eq. intros j. rewrite lookup_drop.
  destruct (decide (Z.of_nat j < n - i)).
  - rewrite !lookup_seqZ_lt; [f_equal; lia|lia..].
  - rewrite !lookup_seqZ_ge //; lia.
Qed.
