(* ===== verification/PyFloat.v ===== *)
(** * Python floats

    A Python [float] is an IEEE 754 binary64 number.  The standard library's
    [SpecFloat] gives its arithmetic as executable functions (rounding to
    nearest even); this file fixes the precision and adds the comparisons,
    [max]/[min] and conversions with Python's conventions. *)

From Corelib Require Import SpecFloat.
From S2P Require Import Prelude.

Abbreviation float64 := spec_float.

Definition prec : Z := 53.
Definition emax : Z := 1024.

Definition fadd (x y : float64) : float64 := SFadd prec emax x y.
Definition fsub (x y : float64) : float64 := SFsub prec emax x y.
Definition fmul (x y : float64) : float64 := SFmul prec emax x y.
Definition fdiv (x y : float64) : float64 := SFdiv prec emax x y.
Definition fopp (x : float64) : float64 := SFopp x.

Definition fltb (x y : float64) : bool := SFltb x y.
Definition fleb (x y : float64) : bool := SFleb x y.
Definition feqb (x y : float64) : bool := SFeqb x y.

(** [float(z)]. *)
Definition float_of_Z (z : Z) : float64 := binary_normalize prec emax z 0 false.

(** The literal [n / d] for a decimal literal such as [0.05 = 5 / 100]: the
    division is correctly rounded, so it is the nearest double. *)
Definition dec (n d : Z) : float64 := fdiv (float_of_Z n) (float_of_Z d).

(** [a / b] on integers below [2 ^ 53]. *)
Definition int_truediv (a b : Z) : float64 := fdiv (float_of_Z a) (float_of_Z b).

(** [max(x, y)] and [min(x, y)] return the first argument unless the second is
    strictly better. *)
Definition fmax (x y : float64) : float64 := if fltb x y then y else x.
Definition fmin (x y : float64) : float64 := if fltb y x then y else x.

(** [math.ceil(x)] on a finite float. *)
Definition fceil (x : float64) : Z :=
  match x with
  | S754_finite s m e =>
      let v := if s then - Z.pos m else Z.pos m in
      if bool_decide (0 ≤ e) then v * 2 ^ e else - ((- v) / 2 ^ (- e))
  | _ => 0
  end.

#[export] Instance float64_eq_dec : EqDecision float64.
Proof. solve_decision. Defined.

(** [int(x)] on a finite float: truncation towards zero. *)
Definition ftrunc (x : float64) : Z :=
  match x with
  | S754_finite s m e =>
      let v := if bool_decide (0 ≤ e) then Z.pos m * 2 ^ e else Z.pos m / 2 ^ (- e) in
      if s then - v else v
  | _ => 0
  end.
