(* ===== verification/FloatBounds.v ===== *)
(** * Bounds on float arithmetic

    Rounding a number that is at most an integer below [2 ^ 53] does not exceed the
    integer.  With it, an index computed as [int(q * (n - 1))] with [q] in [0, 1] is a
    position of a list with [n] elements. *)

From Corelib Require Import SpecFloat.
From S2P Require Import Prelude PyFloat.

(** ** Rounding *)

(** [x] is not negative and at most [N], with an exponent that is not positive; values
    that [int] does not accept are left out. *)
Definition bounded_by (N : Z) (x : float64) : Prop :=
  match x with
  | S754_finite b m e => b = false ∧ e ≤ 0 ∧ Z.pos m ≤ N * 2 ^ (- e)
  | _ => True
  end.

Lemma iter_pos_inv {A} (f : A → A) (P : Z → A → Prop) :
  (∀ k x, 0 ≤ k → P k x → P (k + 1) (f x)) →
  ∀ p k x, 0 ≤ k → P k x → P (k + Z.pos p) (SpecFloat.iter_pos f p x).
Proof.
  intros Hf. induction p as [p IH|p IH|]; intros k x Hk Hx; cbn [SpecFloat.iter_pos].
  - replace (k + Z.pos p~1) with (k + 1 + Z.pos p + Z.pos p) by lia. apply IH; [lia|]. apply IH; [lia|]. by apply Hf.
  - replace (k + Z.pos p~0) with (k + Z.pos p + Z.pos p) by lia. apply IH; [lia|]. by apply IH.
  - by apply Hf.
Qed.

(** [r] is what is left of [m] after [k] shifts. *)
Definition shifted (m k : Z) (r : shr_record) : Prop :=
  0 ≤ shr_m r ∧ shr_m r * 2 ^ k + Z.b2z (shr_r r || shr_s r) ≤ m.

Lemma shr_1_shifted m k r : 0 ≤ k → shifted m k r → shifted m (k + 1) (shr_1 r).
Proof.
  intros Hk [H0 H]. assert (0 < 2 ^ k) by lia. unfold shifted. rewrite Z.pow_add_r; [|lia|lia].
  destruct r as [[|[p|p|]|p] rr ss]; cbn in *; try lia; destruct rr, ss; cbn in *; nia.
Qed.

Lemma shr_shifted m e n : 0 ≤ m →
  ∃ k, 0 ≤ k ∧ (shr (shr_record_of_loc m loc_Exact) e n).2 = e + k ∧ k = Z.max 0 n ∧
    shifted m k (shr (shr_record_of_loc m loc_Exact) e n).1.
Proof.
  intros Hm. destruct n as [|p|p]; cbn [shr fst snd].
  - exists 0. split_and!; [lia..|]. split; cbn; lia.
  - exists (Z.pos p). split_and!; [lia..|]. apply (iter_pos_inv shr_1 (shifted m)) with (k := 0); [apply shr_1_shifted|lia|].
    split; cbn; lia.
  - exists 0. split_and!; [lia..|]. split; cbn; lia.
Qed.

Lemma digits2_upper p : Z.pos p < 2 ^ Z.pos (digits2_pos p).
Proof.
  induction p as [p IH|p IH|]; cbn [digits2_pos]; [..|lia].
  all: rewrite Pos2Z.inj_succ Z.pow_succ_r; lia.
Qed.

Lemma digits2_lower p : 2 ^ (Z.pos (digits2_pos p) - 1) ≤ Z.pos p.
Proof.
  induction p as [p IH|p IH|]; cbn [digits2_pos]; [..|cbn; lia].
  all: rewrite Pos2Z.inj_succ; replace (Z.succ _ - 1) with (Z.succ (Z.pos (digits2_pos p) - 1)) by lia.
  all: rewrite Z.pow_succ_r; lia.
Qed.

Lemma Zdigits2_bound m N e :
  0 ≤ m → 0 < N < 2 ^ prec → e ≤ 0 → m ≤ N * 2 ^ (- e) → Zdigits2 m + e ≤ prec.
Proof.
  intros Hm HN He Hle. unfold prec in *. destruct m as [|p|p]; cbn [Zdigits2]; [lia| |lia].
  destruct (decide (Z.pos (digits2_pos p) + e ≤ 53)) as [|Hgt]; [done|exfalso].
  pose proof (digits2_lower p) as Hl.
  assert (2 ^ (53 + (- e)) ≤ 2 ^ (Z.pos (digits2_pos p) - 1)) as Hp by (apply Z.pow_le_mono_r; lia).
  rewrite Z.pow_add_r in Hp; [|lia|lia]. assert (0 < 2 ^ (- e)) by (apply Z.pow_pos_nonneg; lia). nia.
Qed.

(** Rounding up only happens between representable numbers. *)
Lemma nearest_even_le m k N r :
  0 ≤ k → shifted m k r → m ≤ N * 2 ^ k →
  0 ≤ round_nearest_even (shr_m r) (loc_of_shr_record r) ≤ N.
Proof.
  intros Hk [H0 H] HN. assert (0 < 2 ^ k) as Hp by lia.
  assert (shr_m r ≤ N ∧ (shr_r r || shr_s r = true → shr_m r < N)) as [Hle Hlt].
  { split; [destruct (shr_r r || shr_s r); cbn in H; nia|]. intros E. rewrite E in H. cbn in H. nia. }
  destruct r as [mr [] []]; cbn in *; try (pose proof (Hlt eq_refl)); try destruct (Z.even mr); lia.
Qed.

Lemma round_bounded N m e :
  0 ≤ m → 0 < N < 2 ^ prec → e ≤ 0 → m ≤ N * 2 ^ (- e) →
  bounded_by N (binary_round_aux prec emax false m e loc_Exact).
Proof.
  intros Hm HN He Hle. unfold binary_round_aux, shr_fexp.
  destruct (shr_shifted m e (fexp prec emax (Zdigits2 m + e) - e) Hm) as (k & Hk & Ee & Ek & Hs).
  assert (e + k ≤ 0) as Hek.
  { pose proof (Zdigits2_bound m N e Hm HN He Hle). rewrite Ek. unfold fexp, emin, prec, emax in *. lia. }
  destruct (shr _ e _) as [r1 e1]. cbn [fst snd] in Ee, Hs. subst e1.
  destruct (nearest_even_le m k (N * 2 ^ (- (e + k))) r1 Hk Hs) as [Hr0 Hr].
  { rewrite -Z.mul_assoc -Z.pow_add_r; [|lia|lia]. by replace (- (e + k) + k) with (- e) by lia. }
  set (m1 := round_nearest_even _ _) in *.
  destruct (shr_shifted m1 (e + k) (fexp prec emax (Zdigits2 m1 + (e + k)) - (e + k)) Hr0) as (k2 & Hk2 & Ee2 & Ek2 & Hs2).
  assert (e + k + k2 ≤ 0) as Hek2.
  { pose proof (Zdigits2_bound m1 N (e + k) Hr0 HN Hek Hr). rewrite Ek2. unfold fexp, emin, prec, emax in *. lia. }
  destruct (shr _ (e + k) _) as [r2 e2]. cbn [fst snd] in Ee2, Hs2. subst e2. destruct Hs2 as [H0 H2].
  destruct (shr_m r2) as [|p|p]; cbn; [done| |done]. destruct (_ <=? _); cbn; [|done].
  split_and!; [done|done|]. assert (0 < 2 ^ k2) by lia.
  replace (- (e + k)) with (- (e + k + k2) + k2) in Hr by lia. rewrite Z.pow_add_r in Hr; [|lia|lia].
  destruct (shr_r r2 || shr_s r2); cbn in H2; nia.
Qed.

(** ** Conversion, product and truncation *)

Lemma shl_align_value m e e' :
  let '(m', e2) := shl_align m e e' in e2 ≤ e ∧ Z.pos m' = Z.pos m * 2 ^ (e - e2).
Proof.
  unfold shl_align. destruct (e' - e) as [|p|p] eqn:E; [split; [lia|]; by rewrite Z.sub_diag Z.mul_1_r..|].
  split; [lia|]. replace (e - e') with (Z.pos p) by lia.
  assert (∀ n, Z.pos (Nat.iter n xO m) = Z.pos m * 2 ^ Z.of_nat n) as H.
  { induction n as [|n IH]; [cbn; lia|]. rewrite Nat2Z.inj_succ Z.pow_succ_r; [|lia].
    change (Nat.iter (S n) xO m) with (xO (Nat.iter n xO m)). lia. }
  rewrite Pos2Nat.inj_iter H positive_nat_Z. done.
Qed.

Lemma float_of_Z_bounded n : 0 ≤ n < 2 ^ prec → bounded_by n (float_of_Z n).
Proof.
  intros Hn. unfold float_of_Z, binary_normalize. destruct n as [|p|p]; [done| |lia]. unfold binary_round.
  pose proof (shl_align_value p 0 (fexp prec emax (Z.pos (digits2_pos p) + 0))) as H.
  destruct (shl_align _ _ _) as [m e]. destruct H as [He Hm].
  apply round_bounded; [lia|lia|done|]. rewrite Hm. by replace (0 - e) with (- e) by lia.
Qed.

Lemma fmul_bounded M N x y :
  0 < M * N < 2 ^ prec → 0 ≤ M → 0 ≤ N → bounded_by M x → bounded_by N y → bounded_by (M * N) (fmul x y).
Proof.
  intros HMN HM HN Hx Hy. destruct x as [| | |b m e], y as [| | |b' m' e']; cbn; try done.
  destruct Hx as (-> & He & Hm), Hy as (-> & He' & Hm'). cbn [xorb].
  apply round_bounded; [lia|done|lia|]. rewrite Pos2Z.inj_mul.
  replace (- (e + e')) with (- e + - e') by lia. rewrite Z.pow_add_r; [|lia|lia]. nia.
Qed.

Lemma ftrunc_bounded N x : 0 ≤ N → bounded_by N x → 0 ≤ ftrunc x ≤ N.
Proof.
  intros HN. destruct x as [| | |b m e]; cbn; try lia. intros (-> & He & Hm). goal_bool as E.
  - assert (e = 0) as -> by lia. cbn in *. lia.
  - assert (0 < 2 ^ (- e)) by (apply Z.pow_pos_nonneg; lia). split; [apply Z.div_pos; lia|].
    apply Z.div_le_upper_bound; lia.
Qed.

Lemma fmul_zero_trunc b y : ftrunc (fmul (S754_zero b) y) = 0.
Proof. by destruct y. Qed.

(** [max(0.0, min(1.0, q))] of a float. *)
Definition unit_clamp (q : float64) : float64 := fmax (float_of_Z 0) (fmin (float_of_Z 1) q).

Lemma compare_cont_lt m p : Pos.compare_cont Eq m p = Lt → Z.pos m < Z.pos p.
Proof. intros E. apply Pos2Z.pos_lt_pos. exact E. Qed.

Lemma unit_clamp_bounded q : valid_binary prec emax q = true → bounded_by 1 (unit_clamp q).
Proof.
  intros Hv. unfold unit_clamp, fmin, fmax, fltb.
  assert (float_of_Z 1 = S754_finite false 4503599627370496 (-52)) as -> by (by vm_compute).
  change (float_of_Z 0) with (S754_zero false).
  assert (bounded_by 1 (S754_finite false 4503599627370496 (-52))) as H1 by (by vm_compute).
  destruct q as [b|b| |b m e]; [by destruct b|destruct b; [exact I|exact H1]|exact H1|]. destruct b; [exact I|].
  destruct (SFltb (S754_finite false m e) _) eqn:E; [|exact H1].
  cbn. assert (e ≤ -52 ∧ (e = -52 → Z.pos m < 4503599627370496)) as [He Hm].
  { unfold SFltb, SFcompare in E. destruct (Z.compare_spec e (-52)) as [->|Hlt|Hgt]; [|lia|done].
    split; [lia|]. intros _. apply compare_cont_lt. by destruct (Pos.compare_cont _ _ _). }
  split_and!; [done|lia|]. destruct (decide (e = -52)) as [->|Hne]; [specialize (Hm eq_refl); lia|].
  cbn in Hv. unfold bounded in Hv. apply andb_prop in Hv as [Hc _].
  unfold canonical_mantissa, fexp in Hc. apply Z.eqb_eq in Hc. unfold prec in Hc.
  pose proof (digits2_upper m) as Hu.
  assert (2 ^ Z.pos (digits2_pos m) ≤ 2 ^ (- e)) by (apply Z.pow_le_mono_r; lia). lia.
Qed.

(** [int(q * n)] for a clamped [q]. *)
Lemma clamped_index q n :
  valid_binary prec emax q = true → 0 ≤ n < 2 ^ prec → 0 ≤ ftrunc (fmul (unit_clamp q) (float_of_Z n)) ≤ n.
Proof.
  intros Hq Hn. destruct (decide (n = 0)) as [->|Hne].
  { change (float_of_Z 0) with (S754_zero false). by destruct (unit_clamp q). }
  apply ftrunc_bounded; [lia|]. rewrite -{1}(Z.mul_1_l n).
  apply fmul_bounded; [lia..|by apply unit_clamp_bounded|by apply float_of_Z_bounded; lia].
Qed.

(** ** Signs *)

Definition nonneg (x : float64) : Prop := match x with S754_finite b _ _ => b = false | _ => True end.

Lemma round_nonneg m e l : nonneg (binary_round_aux prec emax false m e l).
Proof.
  unfold binary_round_aux. destruct (shr_fexp _ _ m e l) as [r e1]. destruct (shr_fexp _ _ _ e1 _) as [r2 e2].
  destruct (shr_m r2); cbn; [done| |done]. by destruct (_ <=? _).
Qed.

Lemma float_of_Z_nonneg n : 0 ≤ n → nonneg (float_of_Z n).
Proof.
  intros Hn. unfold float_of_Z, binary_normalize. destruct n; [done| |lia]. unfold binary_round.
  destruct (shl_align _ _ _). apply round_nonneg.
Qed.

Lemma fmul_nonneg x y : nonneg x → nonneg y → nonneg (fmul x y).
Proof. destruct x, y; cbn; try done. intros -> ->. apply round_nonneg. Qed.

Lemma fceil_nonneg x : nonneg x → 0 ≤ fceil x.
Proof.
  destruct x as [| | |b m e]; cbn; try lia. intros ->. goal_bool as E; [lia|].
  assert (0 < 2 ^ (- e)) by (apply Z.pow_pos_nonneg; lia).
  assert (- Z.pos m / 2 ^ (- e) ≤ 0); [|lia]. apply Z.div_le_upper_bound; lia.
Qed.
