(* ===== verification/OrderedDict.v ===== *)
(** * Ordered dictionaries

    Python's [dict] and [collections.OrderedDict] iterate in insertion order.  They
    are association lists here, oldest key first, with the operations the modelled
    code uses: lookup, assignment (an existing key keeps its place), deletion,
    [move_to_end] and [popitem(last=False)].  A dictionary has no key twice, which is
    the hypothesis [NoDup d.*1] of the lemmas; two dictionaries with the same items
    are permutations of each other, and lookup respects that. *)

From S2P Require Import Prelude.

Section OrderedDict.
Context {K V : Type} `{EqDecision K}.
Implicit Types (d : list (K * V)) (k : K) (v : V).

(** [d[k] = v]: an existing key keeps its place. *)
Fixpoint od_set d k v : list (K * V) :=
  match d with
  | [] => [(k, v)]
  | (k', v') :: d => if bool_decide (k' = k) then (k, v) :: d else (k', v') :: od_set d k v
  end.

(** [d.pop(k)]. *)
Fixpoint od_pop d k : res (V * list (K * V)) :=
  match d with
  | [] => Raise KeyError
  | (k', v') :: d =>
      if bool_decide (k' = k) then Ok (v', d)
      else '(v, d) ← od_pop d k; Ok (v, (k', v') :: d)
  end.

(** [d.pop(k, None)]. *)
Definition od_pop_default d k : option V * list (K * V) :=
  match od_pop d k with Ok (v, d) => (Some v, d) | Raise _ => (None, d) end.

(** [d.get(k)]. *)
Definition od_get d k : option V := snd <$> head (filter (λ kv : K * V, kv.1 = k) d).

(** [d[k]]. *)
Definition od_lookup d k : res V :=
  match od_get d k with Some v => Ok v | None => Raise KeyError end.

(** [k in d]. *)
Definition od_mem d k : bool := is_some (od_get d k).

(** [del d[k]]. *)
Definition od_del d k : res (list (K * V)) := '(_, d) ← od_pop d k; Ok d.

(** [d.move_to_end(k)]. *)
Definition od_move_to_end d k : res (list (K * V)) := '(v, d) ← od_pop d k; Ok (d ++ [(k, v)]).

(** [d.popitem(last=False)]. *)
Definition od_popitem_first d : res ((K * V) * list (K * V)) :=
  match d with [] => Raise KeyError | kv :: d => Ok (kv, d) end.

Lemma od_get_cons d k k' v : od_get ((k', v) :: d) k = if decide (k' = k) then Some v else od_get d k.
Proof. unfold od_get. rewrite filter_cons. cbn. by case_decide. Qed.

Lemma od_get_set d k k' v : od_get (od_set d k v) k' = if decide (k = k') then Some v else od_get d k'.
Proof.
  induction d as [|[k1 v1] d IH]; cbn [od_set]; [by rewrite od_get_cons|].
  goal_bool as E; rewrite !od_get_cons ?IH; repeat case_decide; congruence.
Qed.

Lemma od_get_Some d k v : od_get d k = Some v → (k, v) ∈ d.
Proof.
  induction d as [|[k1 v1] d IH]; [done|]. rewrite od_get_cons. case_decide as E; [intros [= ->]; subst; left|right; auto].
Qed.

Lemma od_get_is_Some d k : k ∈ d.*1 → is_Some (od_get d k).
Proof.
  induction d as [|[k1 v1] d IH]; cbn; [by intros ?%not_elem_of_nil|]. rewrite od_get_cons elem_of_cons.
  case_decide; [by eexists|]. intros [->|?]; [done|auto].
Qed.

Lemma od_get_elem d k v : NoDup d.*1 → (k, v) ∈ d → od_get d k = Some v.
Proof.
  induction d as [|[k1 v1] d IH]; [by intros _ ?%not_elem_of_nil|]. intros [Hni Hnd]%NoDup_cons.
  rewrite od_get_cons elem_of_cons. intros [[= -> ->]|Hin]; [by rewrite decide_True|].
  rewrite decide_False; [by apply IH|]. intros ->. apply Hni, list_elem_of_fmap. by exists (k, v).
Qed.

Lemma od_lookup_ok d k : k ∈ d.*1 → ∃ v, od_lookup d k = Ok v ∧ (k, v) ∈ d.
Proof.
  intros [v Hv]%od_get_is_Some. exists v. unfold od_lookup. rewrite Hv. split; [done|by apply od_get_Some].
Qed.

Lemma od_pop_spec d k : k ∈ d.*1 →
  ∃ v d', od_pop d k = Ok (v, d') ∧ d ≡ₚ (k, v) :: d' ∧ ∀ k', k' ≠ k → od_get d' k' = od_get d k'.
Proof.
  induction d as [|[k1 v1] d IH]; cbn [fmap list_fmap od_pop]; [by intros ?%not_elem_of_nil|].
  rewrite elem_of_cons. cbn. goal_bool as E.
  - intros _. subst k1. exists v1, d. split_and!; [done..|]. intros k' Hk. rewrite od_get_cons. case_decide; congruence.
  - intros [?|Hk]; [congruence|]. destruct (IH Hk) as (v & d' & -> & HP & Hg). cbn [mbind res_bind].
    exists v, ((k1, v1) :: d'). split_and!; [done|rewrite HP; apply Permutation_swap|].
    intros k' Hk'. rewrite !od_get_cons Hg //.
Qed.

Lemma od_pop_default_cases d k :
  ((k ∉ d.*1) ∧ od_pop_default d k = (None, d)) ∨
  ∃ v d', od_pop_default d k = (Some v, d') ∧ d ≡ₚ (k, v) :: d' ∧ ∀ k', k' ≠ k → od_get d' k' = od_get d k'.
Proof.
  unfold od_pop_default. destruct (decide (k ∈ d.*1)) as [Hin|Hin].
  - right. destruct (od_pop_spec d k Hin) as (v & d' & -> & HP & Hg). by exists v, d'.
  - left. split; [done|]. destruct (od_pop d k) as [[v d']|] eqn:E; [|done]. exfalso. apply Hin. clear -E. revert v d' E.
    induction d as [|[k1 v1] d IH]; cbn; [done|]. goal_bool as Ek; [intros; subst; left|].
    intros v d'. destruct (od_pop d k) as [[??]|]; [|done]. intros _. right. by eapply IH.
Qed.

Lemma od_pop_default_get d k k' : k' ≠ k → od_get (od_pop_default d k).2 k' = od_get d k'.
Proof. intros Hk. destruct (od_pop_default_cases d k) as [[_ ->]|(v & d' & -> & _ & Hg)]; [done|by apply Hg]. Qed.

Lemma od_pop_default_keys d k :
  NoDup d.*1 → NoDup (od_pop_default d k).2.*1 ∧ ∀ k', k' ∈ (od_pop_default d k).2.*1 → k' ∈ d.*1 ∧ k' ≠ k.
Proof.
  intros Hnd. destruct (od_pop_default_cases d k) as [[Hni ->]|(v & d' & -> & HP & _)]; cbn [snd].
  - split; [done|]. intros k' Hk'. split; [done|]. by intros ->.
  - rewrite HP in Hnd. apply NoDup_cons in Hnd as [Hni Hnd]. split; [done|]. intros k' Hk'.
    rewrite HP. split; [by right|]. by intros ->.
Qed.
Lemma od_set_elem d k v kv : kv ∈ od_set d k v → kv = (k, v) ∨ kv ∈ d.
Proof.
  induction d as [|[k' v'] d IH]; cbn; [intros ->%list_elem_of_singleton; by left|].
  case_decide; rewrite !elem_of_cons; naive_solver.
Qed.

Lemma od_set_fresh d k v : k ∉ d.*1 → od_set d k v = d ++ [(k, v)].
Proof.
  induction d as [|[k' v'] d IH]; intros Hk; [done|]. cbn in *. goal_bool as E.
  - subst. destruct Hk. left.
  - f_equal. apply IH. set_solver.
Qed.

Lemma od_pop_Some d k v :
  NoDup d.*1 → (k, v) ∈ d →
  ∃ d1 d2, d = d1 ++ (k, v) :: d2 ∧ od_pop d k = Ok (v, d1 ++ d2).
Proof.
  induction d as [|[k' v'] d IH]; intros Hnd Hin; [set_solver|].
  apply NoDup_cons in Hnd as [Hk' Hnd]. cbn. goal_bool as E.
  - subst k'. exists [], d. split; [|apply elem_of_cons in Hin as [[= ->]|Hin]]; [|done|].
    + apply elem_of_cons in Hin as [->|Hin]; [done|].
      destruct Hk'. apply list_elem_of_fmap. by exists (k, v).
    + destruct Hk'. apply list_elem_of_fmap. by exists (k, v).
  - apply elem_of_cons in Hin as [[= ->]|Hin]; [done|].
    destruct (IH Hnd Hin) as (d1 & d2 & -> & E'). exists ((k', v') :: d1), d2. split; [done|].
    by rewrite E'.
Qed.
End OrderedDict.

(** ** Dictionaries up to the order of their items *)

Section Items.
Context {K V : Type} `{EqDecision K}.
Implicit Types (d : list (K * V)) (k : K) (v : V).

Lemma od_get_None d k : od_get d k = None ↔ k ∉ d.*1.
Proof.
  split; [by intros E [v Hv]%od_get_is_Some; rewrite E in Hv|].
  intros Hk. destruct (od_get d k) as [v|] eqn:E; [|done]. destruct Hk.
  apply list_elem_of_fmap. exists (k, v). split; [done|by apply od_get_Some].
Qed.

Lemma od_get_app d1 d2 k : od_get (d1 ++ d2) k = match od_get d1 k with Some v => Some v | None => od_get d2 k end.
Proof. induction d1 as [|[k' v'] d1 IH]; [done|]. cbn [app]. rewrite !od_get_cons IH. by case_decide. Qed.

Lemma od_get_perm d1 d2 k : NoDup d1.*1 → d1 ≡ₚ d2 → od_get d1 k = od_get d2 k.
Proof.
  intros Hnd HP. assert (NoDup d2.*1) as Hnd2 by by rewrite -HP.
  destruct (od_get d1 k) as [v|] eqn:E.
  - symmetry. apply od_get_elem; [done|]. rewrite -HP. by apply od_get_Some.
  - symmetry. apply od_get_None. rewrite -HP. by apply od_get_None.
Qed.

(** An item of a dictionary is taken out by its key. *)
Lemma od_get_split d k v : NoDup d.*1 → od_get d k = Some v → ∃ d', d ≡ₚ (k, v) :: d' ∧ k ∉ d'.*1.
Proof.
  intros Hnd Hg. apply od_get_Some, elem_of_Permutation in Hg as [d' HP]. exists d'. split; [done|].
  rewrite HP in Hnd. by apply NoDup_cons in Hnd as [? _].
Qed.

Lemma od_pop_get d k v d' : od_pop d k = Ok (v, d') → od_get d k = Some v ∧ d ≡ₚ (k, v) :: d'.
Proof.
  revert d'. induction d as [|[k1 v1] d IH]; intros d'; cbn [od_pop]; [done|]. rewrite od_get_cons. goal_bool as E.
  - intros [= -> ->]. by subst.
  - destruct (od_pop d k) as [[v2 d2]|] eqn:E2; [|done]. cbn. intros [= <- <-]. destruct (IH d2 eq_refl) as [Hg HP].
    split; [done|]. rewrite HP. apply Permutation_swap.
Qed.

Lemma od_pop_None d k : k ∉ d.*1 → od_pop d k = Raise KeyError.
Proof.
  induction d as [|[k1 v1] d IH]; cbn [od_pop]; [done|]. rewrite fmap_cons not_elem_of_cons. intros [Hk Hd].
  rewrite bool_decide_false; [|naive_solver]. by rewrite IH.
Qed.

Lemma od_set_perm d d' k v v' : NoDup d.*1 → d ≡ₚ (k, v) :: d' → od_set d k v' ≡ₚ (k, v') :: d'.
Proof.
  revert d'. induction d as [|[k1 v1] d IH]; intros d' Hnd HP.
  { by apply Permutation_nil_cons in HP. }
  apply NoDup_cons in Hnd as [Hk1 Hnd]. cbn [od_set]. goal_bool as E.
  - subst k1. constructor. assert ((k, v1) ∈ (k, v) :: d') as Hin by (rewrite -HP; left).
    assert (k ∉ d'.*1) as Hk.
    { assert (NoDup ((k, v) :: d').*1) as H by (rewrite -HP; by constructor). by apply NoDup_cons in H as [? _]. }
    apply elem_of_cons in Hin as [[= ->]|Hin].
    + by apply Permutation_cons_inv in HP.
    + destruct Hk. apply list_elem_of_fmap. by exists (k, v1).
  - assert ((k1, v1) ∈ (k, v) :: d') as Hin by (rewrite -HP; left).
    apply elem_of_cons in Hin as [[= ? ?]|Hin]; [done|]. apply elem_of_Permutation in Hin as [d2 HP2].
    rewrite HP2 Permutation_swap in HP. apply Permutation_cons_inv in HP.
    rewrite (IH d2 Hnd HP) HP2. apply Permutation_swap.
Qed.

Lemma od_mem_true d k : od_mem d k = true ↔ k ∈ d.*1.
Proof.
  unfold od_mem. destruct (od_get d k) as [v|] eqn:E; cbn.
  - split; [|done]. intros _. apply list_elem_of_fmap. exists (k, v). split; [done|by apply od_get_Some].
  - apply od_get_None in E. by split.
Qed.

Lemma od_move_to_end_perm d k : k ∈ d.*1 → ∃ d', od_move_to_end d k = Ok d' ∧ d' ≡ₚ d.
Proof.
  intros (v & d' & E & HP & _)%od_pop_spec. unfold od_move_to_end. rewrite E. cbn. eexists. split; [done|].
  rewrite HP. symmetry. apply Permutation_cons_append.
Qed.

Lemma od_del_perm d k v d0 : NoDup d.*1 → d ≡ₚ (k, v) :: d0 → ∃ d', od_del d k = Ok d' ∧ d' ≡ₚ d0.
Proof.
  intros Hnd HP. assert (k ∈ d.*1) as (v' & d' & E & HP' & _)%od_pop_spec by (rewrite HP; left).
  unfold od_del. rewrite E. cbn. exists d'. split; [done|].
  assert (v' = v) as ->.
  { assert (od_get d k = Some v') as H1 by (apply od_get_elem; [done|rewrite HP'; left]).
    assert (od_get d k = Some v) as H2 by (apply od_get_elem; [done|rewrite HP; left]). congruence. }
  rewrite HP in HP'. by apply Permutation_cons_inv in HP'.
Qed.

(** Deleting the keys of some items leaves the other items. *)
Lemma od_del_all d ev d0 : NoDup d.*1 → d ≡ₚ ev ++ d0 →
  ∃ d', foldM (λ d (kv : K * V), od_del d kv.1) d ev = Ok d' ∧ d' ≡ₚ d0.
Proof.
  revert d. induction ev as [|[k v] ev IH]; intros d Hnd HP; [by exists d|]. cbn [foldM app] in *.
  destruct (od_del_perm d k v _ Hnd HP) as (d1 & E & HP1). cbn [fst]. rewrite E. cbn. apply IH; [|done].
  rewrite HP1. rewrite HP in Hnd. by apply NoDup_cons in Hnd as [_ ?].
Qed.

(** Deletion keeps the order of the other items. *)
Lemma od_pop_filter d k v d' : NoDup d.*1 → od_pop d k = Ok (v, d') → d' = filter (λ kv : K * V, kv.1 ≠ k) d.
Proof.
  revert d'. induction d as [|[k1 v1] d IH]; intros d' Hnd; cbn [od_pop]; [done|]. apply NoDup_cons in Hnd as [Hk Hnd].
  goal_bool as E.
  - intros [= -> ->]. subst k1. rewrite filter_cons_False; [|cbn; tauto]. symmetry. apply filter_all.
    intros kv Hkv Ek. apply Hk, list_elem_of_fmap. by exists kv.
  - destruct (od_pop d k) as [[v2 d2]|] eqn:E2; [|done]. cbn [mbind res_bind]. intros [= <- <-].
    rewrite filter_cons_True; [|done]. f_equal. by apply IH.
Qed.

Lemma od_del_filter d k : NoDup d.*1 → k ∈ d.*1 → od_del d k = Ok (filter (λ kv : K * V, kv.1 ≠ k) d).
Proof.
  intros Hnd (v & d' & E & _)%od_pop_spec. unfold od_del. rewrite E. cbn. by rewrite -(od_pop_filter _ _ _ _ Hnd E).
Qed.

Lemma od_move_to_end_filter d k v : NoDup d.*1 → od_get d k = Some v →
  od_move_to_end d k = Ok (filter (λ kv : K * V, kv.1 ≠ k) d ++ [(k, v)]).
Proof.
  intros Hnd Hg. assert (k ∈ d.*1) as (v' & d' & E & HP & _)%od_pop_spec.
  { apply od_mem_true. unfold od_mem. by rewrite Hg. }
  unfold od_move_to_end. rewrite E. cbn. rewrite -(od_pop_filter _ _ _ _ Hnd E).
  apply od_pop_get in E as [Hg' _]. congruence.
Qed.

Lemma NoDup_filter_keys (P : K * V → Prop) `{∀ x, Decision (P x)} d : NoDup d.*1 → NoDup (filter P d).*1.
Proof. intros Hnd. eapply sublist_NoDup; [exact Hnd|]. apply fmap_sublist, sublist_filter. Qed.

Lemma od_get_filter_ne d k k' : k' ≠ k → od_get (filter (λ kv : K * V, kv.1 ≠ k) d) k' = od_get d k'.
Proof.
  intros Hne. induction d as [|[k1 v1] d IH]; [done|]. rewrite filter_cons od_get_cons. cbn [fst].
  destruct (decide (k1 ≠ k)) as [H|H]; [by rewrite od_get_cons IH|]. rewrite IH. case_decide; [|done].
  destruct H. congruence.
Qed.

Lemma zlen_move_to_end d k d' : od_move_to_end d k = Ok d' → zlen d' = zlen d.
Proof.
  unfold od_move_to_end. destruct (od_pop d k) as [[v d1]|] eqn:E; [|done]. cbn. intros [= <-].
  apply od_pop_get in E as [_ HP]. rewrite (zlen_proper _ _ HP) zlen_app !zlen_cons. unfold zlen. cbn [length]. lia.
Qed.

Lemma zlen_pop_default d k : zlen (od_pop_default d k).2 ≤ zlen d.
Proof.
  destruct (od_pop_default_cases d k) as [[_ ->]|(v & d' & -> & HP & _)]; cbn [snd]; [done|].
  rewrite HP zlen_cons. lia.
Qed.

Lemma zcount_pop_default d k k' :
  zcount k' (od_pop_default d k).2.*1 ≤ zcount k' d.*1 ∧
  (k' = k → zcount k' d.*1 ≤ 1 → zcount k' (od_pop_default d k).2.*1 = 0).
Proof.
  destruct (od_pop_default_cases d k) as [[Hk ->]|(v & d' & -> & HP & _)]; cbn [snd].
  - split; [done|]. intros -> _. by apply zcount_0.
  - rewrite HP fmap_cons zcount_cons. pose proof (zcount_nonneg k' d'.*1). cbn.
    split; [case_decide; lia|]. intros ->. rewrite decide_True //. lia.
Qed.
End Items.

#[global] Arguments od_del : simpl never.
#[global] Arguments od_move_to_end : simpl never.
