(* ===== verification/Request.v ===== *)
(** * Requests: [vllm/v1/request.py] and the data a request carries

    The request record with the fields the scheduler core reads, its status
    machine, its constructor and the operations that append output tokens.
    Modelled as parameters: the block hasher installed on a request (its
    definition is in [BlockHash]) and the wall clock.  Not modelled: event
    records, trace headers, prefill statistics and NaN counters, which the
    core only forwards. *)

From S2P Require Import Prelude PyFloat.

(** ** Data *)

(** [PlaceholderRange] of [vllm/multimodal/inputs.py]. *)
Record PlaceholderRange := mkPlaceholder {
  offset : Z;
  length_ : Z;
  is_embed : option (list bool)
}.

(** [embeds_cumsum]: the running number of embedding positions. *)
Fixpoint cumsum_from (acc : Z) (l : list bool) : list Z :=
  match l with
  | [] => []
  | b :: l => let acc' := acc + (if b then 1 else 0) in acc' :: cumsum_from acc' l
  end.

Definition embeds_cumsum (p : PlaceholderRange) : option (list Z) :=
  cumsum_from 0 <$> is_embed p.

Definition get_num_embeds (p : PlaceholderRange) : Z :=
  match embeds_cumsum p with
  | None => length_ p
  | Some c => default 0 (last c)
  end.

Definition get_embeds_indices_in_range (p : PlaceholderRange) (start_idx end_idx : Z)
    : res (Z * Z) :=
  match embeds_cumsum p with
  | None => Ok (start_idx, end_idx)
  | Some c =>
      s ← (if bool_decide (0 < start_idx) then py_nth c (start_idx - 1) else Ok 0);
      e ← (if bool_decide (0 < end_idx) then py_nth c (end_idx - 1) else Ok 0);
      Ok (s, e)
  end.

(** The fields of [MultiModalFeatureSpec] the core reads. *)
Record MultiModalFeatureSpec := mkMMFeature {
  identifier : string;
  mm_position : PlaceholderRange
}.

(** The fields of [LoRARequest] the core reads. *)
Record LoRARequest := mkLoRA {
  lora_name : string;
  lora_int_id : Z
}.

Record RepetitionDetectionParams := mkRepetition {
  max_pattern_size : Z;
  min_pattern_size : Z;
  min_count : Z
}.

(** The fields of [SamplingParams] the core reads.  [all_stop_token_ids] is a
    Python set, used for membership only. *)
Record SamplingParams := mkSampling {
  sp_max_tokens : option Z;
  min_tokens : Z;
  eos_token_id : option Z;
  stop_token_ids : list Z;
  all_stop_token_ids : list Z;
  sp_skip_reading_prefix_cache : option bool;
  repetition_detection : option RepetitionDetectionParams
}.

Record PoolingParams := mkPooling {
  pp_skip_reading_prefix_cache : option bool
}.

(** [RequestStatus], in the order of the [IntEnum]. *)
Inductive RequestStatus : Set :=
  | WAITING
  | WAITING_FOR_STRUCTURED_OUTPUT_GRAMMAR
  | WAITING_FOR_REMOTE_KVS
  | WAITING_FOR_STREAMING_REQ
  | RUNNING
  | PREEMPTED
  | FINISHED_STOPPED
  | FINISHED_LENGTH_CAPPED
  | FINISHED_ABORTED
  | FINISHED_IGNORED
  | FINISHED_ERROR
  | FINISHED_REPETITION.

#[export] Instance request_status_eq_dec : EqDecision RequestStatus.
Proof. solve_decision. Defined.

(** The value [enum.auto()] gives each status. *)
Definition status_value (s : RequestStatus) : Z :=
  match s with
  | WAITING => 1
  | WAITING_FOR_STRUCTURED_OUTPUT_GRAMMAR => 2
  | WAITING_FOR_REMOTE_KVS => 3
  | WAITING_FOR_STREAMING_REQ => 4
  | RUNNING => 5
  | PREEMPTED => 6
  | FINISHED_STOPPED => 7
  | FINISHED_LENGTH_CAPPED => 8
  | FINISHED_ABORTED => 9
  | FINISHED_IGNORED => 10
  | FINISHED_ERROR => 11
  | FINISHED_REPETITION => 12
  end.

Definition is_finished_status (s : RequestStatus) : bool :=
  bool_decide (status_value PREEMPTED < status_value s).

Inductive FinishReason : Set := STOP | LENGTH | ABORT | ERROR | REPETITION.

#[export] Instance finish_reason_eq_dec : EqDecision FinishReason.
Proof. solve_decision. Defined.

(** [_FINISHED_REASON_MAP.get]. *)
Definition finished_reason (s : RequestStatus) : option FinishReason :=
  match s with
  | FINISHED_STOPPED => Some STOP
  | FINISHED_LENGTH_CAPPED => Some LENGTH
  | FINISHED_ABORTED => Some ABORT
  | FINISHED_IGNORED => Some LENGTH
  | FINISHED_ERROR => Some ERROR
  | WAITING_FOR_STREAMING_REQ => Some STOP
  | FINISHED_REPETITION => Some REPETITION
  | _ => None
  end.

(** [stop_reason: int | str | None]. *)
Inductive StopReason : Set :=
  | StopToken (t : Z)
  | StopString (s : string).

(** ** The request *)

Record Request := mkRequest {
  request_id : string;
  external_req_id : option string;
  client_index : Z;
  priority : Z;
  sampling_params : option SamplingParams;
  pooling_params : option PoolingParams;
  lora_request : option LoRARequest;
  use_structured_output : bool;
  arrival_time : float64;
  status : RequestStatus;
  stop_reason : option StopReason;
  max_tokens : Z;
  prompt_token_ids : option (list Z);
  prompt_embeds : option (list bytes);
  num_prompt_tokens : Z;
  output_token_ids : list Z;
  all_token_ids : list Z;
  num_output_placeholders : Z;
  discard_latest_async_tokens : bool;
  spec_token_ids : list Z;
  num_computed_tokens : Z;
  cache_salt : option string;
  mm_features : list MultiModalFeatureSpec;
  is_prefill_chunk : bool;
  num_preemptions : Z;
  prob_short : float64;
  taper_last_token_time : float64;
  block_hashes : list bytes;
  skip_reading_prefix_cache : bool;
  resumable : bool
}.

Definition set_arrival_time (r : Request) (v : float64) : Request :=
  mkRequest (request_id r) (external_req_id r) (client_index r) (priority r)
    (sampling_params r) (pooling_params r) (lora_request r)
    (use_structured_output r) v (status r) (stop_reason r) (max_tokens r)
    (prompt_token_ids r) (prompt_embeds r) (num_prompt_tokens r)
    (output_token_ids r) (all_token_ids r) (num_output_placeholders r)
    (discard_latest_async_tokens r) (spec_token_ids r) (num_computed_tokens r)
    (cache_salt r) (mm_features r) (is_prefill_chunk r) (num_preemptions r)
    (prob_short r) (taper_last_token_time r) (block_hashes r)
    (skip_reading_prefix_cache r) (resumable r).

Definition set_sampling_params (r : Request) (v : option SamplingParams) : Request :=
  mkRequest (request_id r) (external_req_id r) (client_index r) (priority r) v
    (pooling_params r) (lora_request r) (use_structured_output r)
    (arrival_time r) (status r) (stop_reason r) (max_tokens r)
    (prompt_token_ids r) (prompt_embeds r) (num_prompt_tokens r)
    (output_token_ids r) (all_token_ids r) (num_output_placeholders r)
    (discard_latest_async_tokens r) (spec_token_ids r) (num_computed_tokens r)
    (cache_salt r) (mm_features r) (is_prefill_chunk r) (num_preemptions r)
    (prob_short r) (taper_last_token_time r) (block_hashes r)
    (skip_reading_prefix_cache r) (resumable r).

Definition set_status (r : Request) (v : RequestStatus) : Request :=
  mkRequest (request_id r) (external_req_id r) (client_index r) (priority r)
    (sampling_params r) (pooling_params r) (lora_request r)
    (use_structured_output r) (arrival_time r) v (stop_reason r) (max_tokens
    r) (prompt_token_ids r) (prompt_embeds r) (num_prompt_tokens r)
    (output_token_ids r) (all_token_ids r) (num_output_placeholders r)
    (discard_latest_async_tokens r) (spec_token_ids r) (num_computed_tokens r)
    (cache_salt r) (mm_features r) (is_prefill_chunk r) (num_preemptions r)
    (prob_short r) (taper_last_token_time r) (block_hashes r)
    (skip_reading_prefix_cache r) (resumable r).

Definition set_stop_reason (r : Request) (v : option StopReason) : Request :=
  mkRequest (request_id r) (external_req_id r) (client_index r) (priority r)
    (sampling_params r) (pooling_params r) (lora_request r)
    (use_structured_output r) (arrival_time r) (status r) v (max_tokens r)
    (prompt_token_ids r) (prompt_embeds r) (num_prompt_tokens r)
    (output_token_ids r) (all_token_ids r) (num_output_placeholders r)
    (discard_latest_async_tokens r) (spec_token_ids r) (num_computed_tokens r)
    (cache_salt r) (mm_features r) (is_prefill_chunk r) (num_preemptions r)
    (prob_short r) (taper_last_token_time r) (block_hashes r)
    (skip_reading_prefix_cache r) (resumable r).

Definition set_prompt_token_ids (r : Request) (v : option (list Z)) : Request :=
  mkRequest (request_id r) (external_req_id r) (client_index r) (priority r)
    (sampling_params r) (pooling_params r) (lora_request r)
    (use_structured_output r) (arrival_time r) (status r) (stop_reason r)
    (max_tokens r) v (prompt_embeds r) (num_prompt_tokens r) (output_token_ids
    r) (all_token_ids r) (num_output_placeholders r)
    (discard_latest_async_tokens r) (spec_token_ids r) (num_computed_tokens r)
    (cache_salt r) (mm_features r) (is_prefill_chunk r) (num_preemptions r)
    (prob_short r) (taper_last_token_time r) (block_hashes r)
    (skip_reading_prefix_cache r) (resumable r).

Definition set_num_prompt_tokens (r : Request) (v : Z) : Request :=
  mkRequest (request_id r) (external_req_id r) (client_index r) (priority r)
    (sampling_params r) (pooling_params r) (lora_request r)
    (use_structured_output r) (arrival_time r) (status r) (stop_reason r)
    (max_tokens r) (prompt_token_ids r) (prompt_embeds r) v (output_token_ids
    r) (all_token_ids r) (num_output_placeholders r)
    (discard_latest_async_tokens r) (spec_token_ids r) (num_computed_tokens r)
    (cache_salt r) (mm_features r) (is_prefill_chunk r) (num_preemptions r)
    (prob_short r) (taper_last_token_time r) (block_hashes r)
    (skip_reading_prefix_cache r) (resumable r).

Definition set_output_token_ids (r : Request) (v : list Z) : Request :=
  mkRequest (request_id r) (external_req_id r) (client_index r) (priority r)
    (sampling_params r) (pooling_params r) (lora_request r)
    (use_structured_output r) (arrival_time r) (status r) (stop_reason r)
    (max_tokens r) (prompt_token_ids r) (prompt_embeds r) (num_prompt_tokens
    r) v (all_token_ids r) (num_output_placeholders r)
    (discard_latest_async_tokens r) (spec_token_ids r) (num_computed_tokens r)
    (cache_salt r) (mm_features r) (is_prefill_chunk r) (num_preemptions r)
    (prob_short r) (taper_last_token_time r) (block_hashes r)
    (skip_reading_prefix_cache r) (resumable r).

Definition set_all_token_ids (r : Request) (v : list Z) : Request :=
  mkRequest (request_id r) (external_req_id r) (client_index r) (priority r)
    (sampling_params r) (pooling_params r) (lora_request r)
    (use_structured_output r) (arrival_time r) (status r) (stop_reason r)
    (max_tokens r) (prompt_token_ids r) (prompt_embeds r) (num_prompt_tokens
    r) (output_token_ids r) v (num_output_placeholders r)
    (discard_latest_async_tokens r) (spec_token_ids r) (num_computed_tokens r)
    (cache_salt r) (mm_features r) (is_prefill_chunk r) (num_preemptions r)
    (prob_short r) (taper_last_token_time r) (block_hashes r)
    (skip_reading_prefix_cache r) (resumable r).

Definition set_num_output_placeholders (r : Request) (v : Z) : Request :=
  mkRequest (request_id r) (external_req_id r) (client_index r) (priority r)
    (sampling_params r) (pooling_params r) (lora_request r)
    (use_structured_output r) (arrival_time r) (status r) (stop_reason r)
    (max_tokens r) (prompt_token_ids r) (prompt_embeds r) (num_prompt_tokens
    r) (output_token_ids r) (all_token_ids r) v (discard_latest_async_tokens
    r) (spec_token_ids r) (num_computed_tokens r) (cache_salt r) (mm_features
    r) (is_prefill_chunk r) (num_preemptions r) (prob_short r)
    (taper_last_token_time r) (block_hashes r) (skip_reading_prefix_cache r)
    (resumable r).

Definition set_spec_token_ids (r : Request) (v : list Z) : Request :=
  mkRequest (request_id r) (external_req_id r) (client_index r) (priority r)
    (sampling_params r) (pooling_params r) (lora_request r)
    (use_structured_output r) (arrival_time r) (status r) (stop_reason r)
    (max_tokens r) (prompt_token_ids r) (prompt_embeds r) (num_prompt_tokens
    r) (output_token_ids r) (all_token_ids r) (num_output_placeholders r)
    (discard_latest_async_tokens r) v (num_computed_tokens r) (cache_salt r)
    (mm_features r) (is_prefill_chunk r) (num_preemptions r) (prob_short r)
    (taper_last_token_time r) (block_hashes r) (skip_reading_prefix_cache r)
    (resumable r).

Definition set_num_computed_tokens (r : Request) (v : Z) : Request :=
  mkRequest (request_id r) (external_req_id r) (client_index r) (priority r)
    (sampling_params r) (pooling_params r) (lora_request r)
    (use_structured_output r) (arrival_time r) (status r) (stop_reason r)
    (max_tokens r) (prompt_token_ids r) (prompt_embeds r) (num_prompt_tokens
    r) (output_token_ids r) (all_token_ids r) (num_output_placeholders r)
    (discard_latest_async_tokens r) (spec_token_ids r) v (cache_salt r)
    (mm_features r) (is_prefill_chunk r) (num_preemptions r) (prob_short r)
    (taper_last_token_time r) (block_hashes r) (skip_reading_prefix_cache r)
    (resumable r).

Definition set_mm_features (r : Request) (v : list MultiModalFeatureSpec) : Request :=
  mkRequest (request_id r) (external_req_id r) (client_index r) (priority r)
    (sampling_params r) (pooling_params r) (lora_request r)
    (use_structured_output r) (arrival_time r) (status r) (stop_reason r)
    (max_tokens r) (prompt_token_ids r) (prompt_embeds r) (num_prompt_tokens
    r) (output_token_ids r) (all_token_ids r) (num_output_placeholders r)
    (discard_latest_async_tokens r) (spec_token_ids r) (num_computed_tokens r)
    (cache_salt r) v (is_prefill_chunk r) (num_preemptions r) (prob_short r)
    (taper_last_token_time r) (block_hashes r) (skip_reading_prefix_cache r)
    (resumable r).

Definition set_is_prefill_chunk (r : Request) (v : bool) : Request :=
  mkRequest (request_id r) (external_req_id r) (client_index r) (priority r)
    (sampling_params r) (pooling_params r) (lora_request r)
    (use_structured_output r) (arrival_time r) (status r) (stop_reason r)
    (max_tokens r) (prompt_token_ids r) (prompt_embeds r) (num_prompt_tokens
    r) (output_token_ids r) (all_token_ids r) (num_output_placeholders r)
    (discard_latest_async_tokens r) (spec_token_ids r) (num_computed_tokens r)
    (cache_salt r) (mm_features r) v (num_preemptions r) (prob_short r)
    (taper_last_token_time r) (block_hashes r) (skip_reading_prefix_cache r)
    (resumable r).

Definition set_num_preemptions (r : Request) (v : Z) : Request :=
  mkRequest (request_id r) (external_req_id r) (client_index r) (priority r)
    (sampling_params r) (pooling_params r) (lora_request r)
    (use_structured_output r) (arrival_time r) (status r) (stop_reason r)
    (max_tokens r) (prompt_token_ids r) (prompt_embeds r) (num_prompt_tokens
    r) (output_token_ids r) (all_token_ids r) (num_output_placeholders r)
    (discard_latest_async_tokens r) (spec_token_ids r) (num_computed_tokens r)
    (cache_salt r) (mm_features r) (is_prefill_chunk r) v (prob_short r)
    (taper_last_token_time r) (block_hashes r) (skip_reading_prefix_cache r)
    (resumable r).

Definition set_prob_short (r : Request) (v : float64) : Request :=
  mkRequest (request_id r) (external_req_id r) (client_index r) (priority r)
    (sampling_params r) (pooling_params r) (lora_request r)
    (use_structured_output r) (arrival_time r) (status r) (stop_reason r)
    (max_tokens r) (prompt_token_ids r) (prompt_embeds r) (num_prompt_tokens
    r) (output_token_ids r) (all_token_ids r) (num_output_placeholders r)
    (discard_latest_async_tokens r) (spec_token_ids r) (num_computed_tokens r)
    (cache_salt r) (mm_features r) (is_prefill_chunk r) (num_preemptions r) v
    (taper_last_token_time r) (block_hashes r) (skip_reading_prefix_cache r)
    (resumable r).

Definition set_taper_last_token_time (r : Request) (v : float64) : Request :=
  mkRequest (request_id r) (external_req_id r) (client_index r) (priority r)
    (sampling_params r) (pooling_params r) (lora_request r)
    (use_structured_output r) (arrival_time r) (status r) (stop_reason r)
    (max_tokens r) (prompt_token_ids r) (prompt_embeds r) (num_prompt_tokens
    r) (output_token_ids r) (all_token_ids r) (num_output_placeholders r)
    (discard_latest_async_tokens r) (spec_token_ids r) (num_computed_tokens r)
    (cache_salt r) (mm_features r) (is_prefill_chunk r) (num_preemptions r)
    (prob_short r) v (block_hashes r) (skip_reading_prefix_cache r) (resumable
    r).

Definition set_block_hashes (r : Request) (v : list bytes) : Request :=
  mkRequest (request_id r) (external_req_id r) (client_index r) (priority r)
    (sampling_params r) (pooling_params r) (lora_request r)
    (use_structured_output r) (arrival_time r) (status r) (stop_reason r)
    (max_tokens r) (prompt_token_ids r) (prompt_embeds r) (num_prompt_tokens
    r) (output_token_ids r) (all_token_ids r) (num_output_placeholders r)
    (discard_latest_async_tokens r) (spec_token_ids r) (num_computed_tokens r)
    (cache_salt r) (mm_features r) (is_prefill_chunk r) (num_preemptions r)
    (prob_short r) (taper_last_token_time r) v (skip_reading_prefix_cache r)
    (resumable r).

Definition set_discard_latest_async_tokens (r : Request) (v : bool) : Request :=
  mkRequest (request_id r) (external_req_id r) (client_index r) (priority r)
    (sampling_params r) (pooling_params r) (lora_request r) (use_structured_output r)
    (arrival_time r) (status r) (stop_reason r) (max_tokens r) (prompt_token_ids r)
    (prompt_embeds r) (num_prompt_tokens r) (output_token_ids r) (all_token_ids r)
    (num_output_placeholders r) v (spec_token_ids r) (num_computed_tokens r) (cache_salt
    r) (mm_features r) (is_prefill_chunk r) (num_preemptions r) (prob_short r)
    (taper_last_token_time r) (block_hashes r) (skip_reading_prefix_cache r) (resumable r).
Definition set_resumable (r : Request) (v : bool) : Request :=
  mkRequest (request_id r) (external_req_id r) (client_index r) (priority r)
    (sampling_params r) (pooling_params r) (lora_request r) (use_structured_output r)
    (arrival_time r) (status r) (stop_reason r) (max_tokens r) (prompt_token_ids r)
    (prompt_embeds r) (num_prompt_tokens r) (output_token_ids r) (all_token_ids r)
    (num_output_placeholders r) (discard_latest_async_tokens r) (spec_token_ids r)
    (num_computed_tokens r) (cache_salt r) (mm_features r) (is_prefill_chunk r)
    (num_preemptions r) (prob_short r) (taper_last_token_time r) (block_hashes r)
    (skip_reading_prefix_cache r) v.
Definition set_max_tokens (r : Request) (v : Z) : Request :=
  mkRequest (request_id r) (external_req_id r) (client_index r) (priority r)
    (sampling_params r) (pooling_params r) (lora_request r) (use_structured_output r)
    (arrival_time r) (status r) (stop_reason r) v (prompt_token_ids r) (prompt_embeds r)
    (num_prompt_tokens r) (output_token_ids r) (all_token_ids r) (num_output_placeholders
    r) (discard_latest_async_tokens r) (spec_token_ids r) (num_computed_tokens r)
    (cache_salt r) (mm_features r) (is_prefill_chunk r) (num_preemptions r) (prob_short r)
    (taper_last_token_time r) (block_hashes r) (skip_reading_prefix_cache r) (resumable r).

(** ** Properties and predicates *)

Definition num_tokens (r : Request) : Z := zlen (all_token_ids r).

Definition num_tokens_with_spec (r : Request) : Z :=
  zlen (all_token_ids r) + zlen (spec_token_ids r).

Definition num_output_tokens (r : Request) : Z := zlen (output_token_ids r).

Definition num_encoder_inputs (r : Request) : Z := zlen (mm_features r).

Definition has_encoder_inputs (r : Request) : bool :=
  bool_decide (0 < num_encoder_inputs r).

Definition get_skip_reading_prefix_cache (sp : option SamplingParams)
    (pp : option PoolingParams) : bool :=
  match sp ≫= sp_skip_reading_prefix_cache with
  | Some b => b
  | None =>
      match pp ≫= pp_skip_reading_prefix_cache with
      | Some b => b
      | None => false
      end
  end.

Definition is_finished (r : Request) : bool := is_finished_status (status r).

Definition get_finished_reason (r : Request) : option FinishReason :=
  finished_reason (status r).

Definition get_num_encoder_embeds (r : Request) (input_id : Z) : res Z :=
  py_assert (bool_decide (input_id < zlen (mm_features r)));;
  f ← py_nth (mm_features r) input_id;
  Ok (get_num_embeds (mm_position f)).

(** [length_from_prompt_token_ids_or_embeds]. *)
Definition length_from_prompt (toks : option (list Z)) (embeds : option (list bytes))
    : res Z :=
  match toks, embeds with
  | None, None => Raise ValueError
  | None, Some e => Ok (zlen e)
  | Some t, Some e =>
      if bool_decide (zlen e ≠ zlen t) then Raise ValueError else Ok (zlen t)
  | Some t, None => Ok (zlen t)
  end.

(** ** Operations *)

Section Request_ops.
(** The hasher passed as [block_hasher]: the hashes of the new full blocks of
    the request.  [None] when the engine installs none. *)
Context (block_hasher : option (Request → res (list bytes))).

Definition update_block_hashes (r : Request) : res Request :=
  match block_hasher with
  | None => Ok r
  | Some h => hs ← h r; Ok (set_block_hashes r (block_hashes r ++ hs))
  end.

(** [Request.__init__].  [arrival] is [arrival_time] or [time.time()];
    [structured] says whether the sampling parameters ask for structured
    output. *)
Definition Request_init (request_id : string) (prompt_token_ids : option (list Z))
    (sampling_params : option SamplingParams) (pooling_params : option PoolingParams)
    (client_index : Z) (arrival : float64) (prompt_embeds : option (list bytes))
    (mm_features : list MultiModalFeatureSpec) (lora_request : option LoRARequest)
    (cache_salt : option string) (priority : Z) (external_req_id : option string)
    (resumable structured : bool) : res Request :=
  '(max_tokens, status) ←
    match pooling_params, sampling_params with
    | Some _, _ => Ok (1, WAITING)
    | None, Some sp =>
        match sp_max_tokens sp with
        | None => Raise AssertionError
        | Some m =>
            Ok (m, if structured then WAITING_FOR_STRUCTURED_OUTPUT_GRAMMAR else WAITING)
        end
    | None, None => Raise ValueError
    end;
  num_prompt_tokens ← length_from_prompt prompt_token_ids prompt_embeds;
  let all_token_ids :=
    match prompt_token_ids with
    | Some t => t
    | None => py_repeat 0 num_prompt_tokens
    end in
  update_block_hashes
    (mkRequest request_id external_req_id client_index priority sampling_params
       pooling_params lora_request structured arrival status None max_tokens
       prompt_token_ids prompt_embeds num_prompt_tokens [] all_token_ids 0 false []
       0 cache_salt mm_features false 0 (float_of_Z 0) arrival []
       (get_skip_reading_prefix_cache sampling_params pooling_params) resumable).

(** [update_prob_short(last_token_id=...)]; no caller passes [eos_logprob]. *)
Definition update_prob_short (r : Request) (last_token_id : option Z) : Request :=
  let stops :=
    match sampling_params r, last_token_id with
    | Some sp, Some t => bool_decide (t ∈ all_stop_token_ids sp)
    | _, _ => false
    end in
  if stops then set_prob_short r (float_of_Z 1)
  else
    let max_tokens := Z.max 1 (max_tokens r) in
    let length_progress :=
      fmin (float_of_Z 1) (int_truediv (num_output_tokens r) max_tokens) in
    let next_prob := fmax length_progress (float_of_Z 0) in
    set_prob_short r (fmax (prob_short r) next_prob).

Definition is_short_lived (r : Request) : bool := fltb (dec 5 10) (prob_short r).

(** [append_output_token_ids] with an [int] argument, at time [now]. *)
Definition append_output_token_id (now : float64) (r : Request) (t : Z) : res Request :=
  let r1 := set_output_token_ids r (output_token_ids r ++ [t]) in
  let r2 := set_all_token_ids r1 (all_token_ids r1 ++ [t]) in
  let r3 := update_prob_short r2 (Some t) in
  update_block_hashes (set_taper_last_token_time r3 now).

(** [append_output_token_ids] with a list argument. *)
Definition append_output_token_ids (now : float64) (r : Request) (ts : list Z)
    : res Request :=
  let r1 := set_output_token_ids r (output_token_ids r ++ ts) in
  let r2 := set_all_token_ids r1 (all_token_ids r1 ++ ts) in
  let r3 := update_prob_short r2 (last ts) in
  update_block_hashes (set_taper_last_token_time r3 now).
End Request_ops.

(** String order of Python ([str.__lt__]) on the byte strings used as ids. *)
Fixpoint string_ltb (s t : string) : bool :=
  match s, t with
  | _, EmptyString => false
  | EmptyString, String _ _ => true
  | String a s, String b t =>
      let x := Ascii.N_of_ascii a in
      let y := Ascii.N_of_ascii b in
      if (x <? y)%N then true else if (y <? x)%N then false else string_ltb s t
  end.

(** [Request.__lt__].  The last resort is the comparison of the objects' addresses
    [id1] and [id2]. *)
Definition request_ltb (id1 : Z) (r1 : Request) (id2 : Z) (r2 : Request) : bool :=
  if bool_decide (priority r1 ≠ priority r2) then bool_decide (priority r1 < priority r2)
  else if negb (feqb (arrival_time r1) (arrival_time r2))
  then fltb (arrival_time r1) (arrival_time r2)
  else if bool_decide (request_id r1 ≠ request_id r2)
  then string_ltb (request_id r1) (request_id r2)
  else bool_decide (id1 < id2).
