(* ===== verification/FreeQueue.v ===== *)
(** * The free block queue of [vllm/v1/core/kv_cache_utils.py]

    [KVCacheBlock] objects and [FreeKVCacheBlockQueue], the intrusive doubly
    linked list that holds the evictable blocks, at the level of the links.
    The theorems show that the pointer code implements a plain list of block
    references: [popleft]/[popleft_n] take from the front, [append]/[append_n]
    add at the back and [remove] deletes from the middle, the counter is the
    length of the list, and nothing but the links and the counter changes. *)

From S2P Require Import Prelude.

(** ** Block objects *)

(** A reference to a [KVCacheBlock] object: the object at an index of the
    pool's list [blocks], or one of the two fake blocks of the queue.  Python's
    [==] on blocks compares the fields in order starting with [block_id], which
    is unique, so it coincides with equality of references. *)
Inductive block_ref : Set :=
  | Blk (i : nat)
  | FakeHead
  | FakeTail.

#[export] Instance block_ref_eq_dec : EqDecision block_ref.
Proof. solve_decision. Defined.

Record KVCacheBlock := mkBlock {
  block_id : Z;
  ref_cnt : Z;
  block_hash : option bytes;
  prev_free_block : option block_ref;
  next_free_block : option block_ref;
  is_null : bool
}.

(** [KVCacheBlock(block_id=i)]. *)
Definition new_block (i : Z) : KVCacheBlock := mkBlock i 0 None None None false.

Definition with_prev (b : KVCacheBlock) (v : option block_ref) : KVCacheBlock :=
  mkBlock (block_id b) (ref_cnt b) (block_hash b) v (next_free_block b) (is_null b).
Definition with_next (b : KVCacheBlock) (v : option block_ref) : KVCacheBlock :=
  mkBlock (block_id b) (ref_cnt b) (block_hash b) (prev_free_block b) v (is_null b).

(** ** The queue *)

(** The queue object together with the block objects it links. *)
Record FreeQ := mkFreeQ {
  fq_blocks : list KVCacheBlock;
  num_free_blocks : Z;
  fake_free_list_head : KVCacheBlock;
  fake_free_list_tail : KVCacheBlock
}.

Definition deref (q : FreeQ) (r : block_ref) : option KVCacheBlock :=
  match r with
  | Blk i => fq_blocks q !! i
  | FakeHead => Some (fake_free_list_head q)
  | FakeTail => Some (fake_free_list_tail q)
  end.

(** An assignment to an attribute of the object [r]. *)
Definition modify (q : FreeQ) (r : block_ref) (f : KVCacheBlock → KVCacheBlock)
    : FreeQ :=
  match r with
  | Blk i => mkFreeQ (alter f i (fq_blocks q)) (num_free_blocks q)
               (fake_free_list_head q) (fake_free_list_tail q)
  | FakeHead => mkFreeQ (fq_blocks q) (num_free_blocks q)
                  (f (fake_free_list_head q)) (fake_free_list_tail q)
  | FakeTail => mkFreeQ (fq_blocks q) (num_free_blocks q)
                  (fake_free_list_head q) (f (fake_free_list_tail q))
  end.

Definition set_prev (q : FreeQ) (r : block_ref) (v : option block_ref) : FreeQ :=
  modify q r (λ b, with_prev b v).
Definition set_next (q : FreeQ) (r : block_ref) (v : option block_ref) : FreeQ :=
  modify q r (λ b, with_next b v).
Definition set_num_free (q : FreeQ) (n : Z) : FreeQ :=
  mkFreeQ (fq_blocks q) n (fake_free_list_head q) (fake_free_list_tail q).

Arguments set_prev : simpl never.
Arguments set_next : simpl never.
Arguments set_num_free : simpl never.

Definition prev_of (q : FreeQ) (r : block_ref) : option block_ref :=
  deref q r ≫= prev_free_block.
Definition next_of (q : FreeQ) (r : block_ref) : option block_ref :=
  deref q r ≫= next_free_block.

(** [FreeKVCacheBlockQueue.__init__]. *)
Definition init_link (n : nat) (q : FreeQ) (i : nat) : FreeQ :=
  let q1 := if bool_decide (0 < i)%nat
            then set_prev q (Blk i) (Some (Blk (i - 1))) else q in
  if bool_decide (i < n - 1)%nat
  then set_next q1 (Blk i) (Some (Blk (i + 1))) else q1.

Definition init_links (q : FreeQ) (n : nat) : FreeQ :=
  foldl (init_link n) q (seq 0 n).

Definition FreeKVCacheBlockQueue_init (blocks : list KVCacheBlock) : FreeQ :=
  let n := length blocks in
  let q0 := init_links
              (mkFreeQ blocks (Z.of_nat n) (new_block (-1)) (new_block (-1))) n in
  if bool_decide (0 < n)%nat then
    let q1 := set_next q0 FakeHead (Some (Blk 0)) in
    let q2 := set_prev q1 (Blk 0) (Some FakeHead) in
    let q3 := set_prev q2 FakeTail (Some (Blk (n - 1))) in
    set_next q3 (Blk (n - 1)) (Some FakeTail)
  else
    let q1 := set_next q0 FakeHead (Some FakeTail) in
    set_prev q1 FakeTail (Some FakeHead).

Definition popleft (q : FreeQ) : res (FreeQ * block_ref) :=
  match next_of q FakeHead with
  | None | Some FakeTail =>
      if bool_decide (num_free_blocks q = 0) then Raise ValueError
      else Raise AssertionError
  | Some first_block =>
      match next_of q first_block with
      | None => Raise RuntimeError
      | Some second =>
          let q1 := set_next q FakeHead (Some second) in
          let q2 := set_prev q1 second (Some FakeHead) in
          let q3 := set_next (set_prev q2 first_block None) first_block None in
          Ok (set_num_free q3 (num_free_blocks q3 - 1), first_block)
      end
  end.

Fixpoint popleft_n_loop (q : FreeQ) (curr_block : option block_ref) (n : nat)
    : res (FreeQ * option block_ref * list block_ref) :=
  match n with
  | O => Ok (q, curr_block, [])
  | S n =>
      match curr_block with
      | None => Raise AssertionError
      | Some last_block =>
          let curr_block := next_of q last_block in
          let q1 := set_next (set_prev q last_block None) last_block None in
          '(q2, c, ret) ← popleft_n_loop q1 curr_block n;
          Ok (q2, c, last_block :: ret)
      end
  end.

Definition popleft_n (q : FreeQ) (n : Z) : res (FreeQ * list block_ref) :=
  if bool_decide (n = 0) then Ok (q, [])
  else
    py_assert (bool_decide (n ≤ num_free_blocks q));;
    let q0 := set_num_free q (num_free_blocks q - n) in
    '(q1, curr_block, ret) ←
      popleft_n_loop q0 (next_of q0 FakeHead) (Z.to_nat n);
    match curr_block with
    | Some c =>
        Ok (set_prev (set_next q1 FakeHead (Some c)) c (Some FakeHead), ret)
    | None => Ok (q1, ret)
    end.

Definition remove (q : FreeQ) (block : block_ref) : res FreeQ :=
  match prev_of q block, next_of q block with
  | Some p, Some n =>
      let q1 := set_next q p (Some n) in
      let q2 := set_prev q1 n (Some p) in
      let q3 := set_next (set_prev q2 block None) block None in
      Ok (set_num_free q3 (num_free_blocks q3 - 1))
  | _, _ => Raise RuntimeError
  end.

Definition append (q : FreeQ) (block : block_ref) : res FreeQ :=
  match prev_of q FakeTail with
  | None => Raise RuntimeError
  | Some last_block =>
      let q1 := set_next q last_block (Some block) in
      let q2 := set_prev q1 block (Some last_block) in
      let q3 := set_next q2 block (Some FakeTail) in
      let q4 := set_prev q3 FakeTail (Some block) in
      Ok (set_num_free q4 (num_free_blocks q4 + 1))
  end.

(** The loop of [append_n]; returns the last block linked. *)
Fixpoint append_n_loop (q : FreeQ) (last_block : block_ref)
    (blocks : list block_ref) : FreeQ * block_ref :=
  match blocks with
  | [] => (q, last_block)
  | block :: blocks =>
      let q1 := set_prev q block (Some last_block) in
      let q2 := set_next q1 last_block (Some block) in
      append_n_loop q2 block blocks
  end.

Definition append_n (q : FreeQ) (blocks : list block_ref) : res FreeQ :=
  if bool_decide (blocks = []) then Ok q
  else
    match prev_of q FakeTail with
    | None => Raise AssertionError
    | Some last_block =>
        let '(q1, last_block) := append_n_loop q last_block blocks in
        let q2 := set_next q1 last_block (Some FakeTail) in
        let q3 := set_prev q2 FakeTail (Some last_block) in
        Ok (set_num_free q3 (num_free_blocks q3 + zlen blocks))
    end.

(** [get_all_free_blocks]: the [while] loop runs on fuel, and [None] means
    that the fuel ran out. *)
Fixpoint all_free_loop (fuel : nat) (q : FreeQ) (curr_block : block_ref)
    : option (list block_ref) :=
  match next_of q curr_block with
  | None => Some []
  | Some n =>
      match fuel with
      | O => None
      | S fuel => cons curr_block <$> all_free_loop fuel q n
      end
  end.

Definition get_all_free_blocks (fuel : nat) (q : FreeQ)
    : res (option (list block_ref)) :=
  match next_of q FakeHead with
  | None => Raise RuntimeError
  | Some curr_block => Ok (all_free_loop fuel q curr_block)
  end.

(** ** The abstract queue: a list of references *)

(** [a] is linked to [b]. *)
Definition link (q : FreeQ) (a b : block_ref) : Prop :=
  next_of q a = Some b ∧ prev_of q b = Some a.

(** Consecutive references of the list are linked. *)
Fixpoint chain (q : FreeQ) (rs : list block_ref) : Prop :=
  match rs with
  | a :: (b :: _) as rs' => link q a b ∧ chain q rs'
  | _ => True
  end.

(** The reference denotes a block of the pool. *)
Definition pool_block (q : FreeQ) (r : block_ref) : Prop :=
  ∃ i, r = Blk i ∧ (i < length (fq_blocks q))%nat.

(** The queue represents the list [l] of free blocks. *)
Record FreeQ_repr (q : FreeQ) (l : list block_ref) : Prop := {
  repr_chain : chain q (FakeHead :: l ++ [FakeTail]);
  repr_nodup : NoDup l;
  repr_pool : Forall (pool_block q) l;
  repr_num : num_free_blocks q = zlen l;
  repr_tail_end : next_of q FakeTail = None;
  repr_unlinked : ∀ r, pool_block q r → r ∉ l → prev_of q r = None ∧ next_of q r = None
}.

(** The block without its links: what the queue operations do not touch. *)
Definition meta (b : KVCacheBlock) : KVCacheBlock :=
  mkBlock (block_id b) (ref_cnt b) (block_hash b) None None (is_null b).

Definition same_meta (q q' : FreeQ) : Prop :=
  meta <$> fq_blocks q' = meta <$> fq_blocks q.

(** ** Reading after writing *)

Lemma deref_modify q r f r' :
  deref (modify q r f) r' = if decide (r = r') then f <$> deref q r' else deref q r'.
Proof.
  destruct r, r'; simpl; try (case_decide; congruence || done); try done.
  case_decide; simplify_eq.
  - by rewrite list_lookup_alter_eq.
  - rewrite list_lookup_alter_ne //; congruence.
Qed.

Definition valid (q : FreeQ) (r : block_ref) : Prop := is_Some (deref q r).

Lemma pool_block_valid q r : pool_block q r → valid q r.
Proof. intros (i & -> & Hi). by apply lookup_lt_is_Some_2. Qed.

Lemma fake_valid q : valid q FakeHead ∧ valid q FakeTail.
Proof. by split; eexists. Qed.

Lemma valid_modify q r f r' : valid (modify q r f) r' ↔ valid q r'.
Proof. rewrite /valid deref_modify. case_decide; [by rewrite fmap_is_Some|done]. Qed.

Lemma length_modify q r f : length (fq_blocks (modify q r f)) = length (fq_blocks q).
Proof. destruct r; simpl; by rewrite ?length_alter. Qed.

Lemma pool_block_modify q r f r' : pool_block (modify q r f) r' ↔ pool_block q r'.
Proof. rewrite /pool_block. by setoid_rewrite length_modify. Qed.

Section read_write.
Context (q : FreeQ) (r r' : block_ref) (v : option block_ref) (n : Z).

Lemma next_set_next_eq : valid q r → next_of (set_next q r v) r = v.
Proof.
  intros [b Hb]. rewrite /next_of /set_next deref_modify decide_True //.
  by rewrite Hb.
Qed.
Lemma next_set_next_ne : r ≠ r' → next_of (set_next q r v) r' = next_of q r'.
Proof. intros. by rewrite /next_of /set_next deref_modify decide_False. Qed.
Lemma prev_set_prev_eq : valid q r → prev_of (set_prev q r v) r = v.
Proof.
  intros [b Hb]. rewrite /prev_of /set_prev deref_modify decide_True //.
  by rewrite Hb.
Qed.
Lemma prev_set_prev_ne : r ≠ r' → prev_of (set_prev q r v) r' = prev_of q r'.
Proof. intros. by rewrite /prev_of /set_prev deref_modify decide_False. Qed.
Lemma next_set_prev : next_of (set_prev q r v) r' = next_of q r'.
Proof.
  rewrite /next_of /set_prev deref_modify. case_decide; [|done].
  by destruct (deref q r').
Qed.
Lemma prev_set_next : prev_of (set_next q r v) r' = prev_of q r'.
Proof.
  rewrite /prev_of /set_next deref_modify. case_decide; [|done].
  by destruct (deref q r').
Qed.
Lemma next_set_num : next_of (set_num_free q n) r = next_of q r.
Proof. by destruct r. Qed.
Lemma prev_set_num : prev_of (set_num_free q n) r = prev_of q r.
Proof. by destruct r. Qed.
Lemma valid_set_next : valid (set_next q r v) r' ↔ valid q r'.
Proof. apply valid_modify. Qed.
Lemma valid_set_prev : valid (set_prev q r v) r' ↔ valid q r'.
Proof. apply valid_modify. Qed.
Lemma valid_set_num : valid (set_num_free q n) r ↔ valid q r.
Proof. by destruct r. Qed.
Lemma pool_set_next : pool_block (set_next q r v) r' ↔ pool_block q r'.
Proof. apply pool_block_modify. Qed.
Lemma pool_set_prev : pool_block (set_prev q r v) r' ↔ pool_block q r'.
Proof. apply pool_block_modify. Qed.
Lemma pool_set_num : pool_block (set_num_free q n) r ↔ pool_block q r.
Proof. done. Qed.
Lemma num_set_next : num_free_blocks (set_next q r v) = num_free_blocks q.
Proof. by destruct r. Qed.
Lemma num_set_prev : num_free_blocks (set_prev q r v) = num_free_blocks q.
Proof. by destruct r. Qed.
Lemma num_set_num : num_free_blocks (set_num_free q n) = n.
Proof. done. Qed.
End read_write.

(** The assignments keep every reference valid. *)
Ltac solve_valid :=
  repeat first
    [ assumption
    | apply valid_set_num
    | apply valid_set_next
    | apply valid_set_prev ].

Create HintDb fq discriminated.
Create Rewrite HintDb fq.
#[export] Hint Rewrite next_set_prev prev_set_next next_set_num prev_set_num
  num_set_next num_set_prev num_set_num : fq.
#[export] Hint Rewrite next_set_next_ne prev_set_prev_ne using congruence : fq.
#[export] Hint Rewrite next_set_next_eq prev_set_prev_eq
  using solve_valid : fq.

(** ** Only the links change *)

Lemma same_meta_refl q : same_meta q q.
Proof. done. Qed.
Lemma same_meta_trans q1 q2 q3 : same_meta q1 q2 → same_meta q2 q3 → same_meta q1 q3.
Proof. rewrite /same_meta. congruence. Qed.
Lemma same_meta_modify q r f :
  (∀ b, meta (f b) = meta b) → same_meta q (modify q r f).
Proof.
  intros Hf. destruct r as [i| |]; rewrite /same_meta //=.
  apply list_eq; intros j. rewrite !list_lookup_fmap.
  destruct (decide (i = j)) as [->|].
  - rewrite list_lookup_alter_eq. destruct (fq_blocks q !! j); simpl; by rewrite ?Hf.
  - by rewrite list_lookup_alter_ne.
Qed.
Lemma same_meta_set_next q r v : same_meta q (set_next q r v).
Proof. by apply same_meta_modify. Qed.
Lemma same_meta_set_prev q r v : same_meta q (set_prev q r v).
Proof. by apply same_meta_modify. Qed.
Lemma same_meta_set_num q n : same_meta q (set_num_free q n).
Proof. done. Qed.
#[export] Hint Resolve same_meta_refl : fq.

(** Solves [same_meta q q'] for a [q'] built from [q] by link assignments. *)
Ltac solve_meta :=
  repeat first
    [ assumption
    | apply same_meta_refl
    | eapply same_meta_trans; [|apply same_meta_set_num]
    | eapply same_meta_trans; [|apply same_meta_set_next]
    | eapply same_meta_trans; [|apply same_meta_set_prev] ].

(** ** Chains *)

Lemma chain_cons q a b l : chain q (a :: b :: l) ↔ link q a b ∧ chain q (b :: l).
Proof. done. Qed.

Lemma chain_app q l1 x l2 :
  chain q (l1 ++ x :: l2) ↔ chain q (l1 ++ [x]) ∧ chain q (x :: l2).
Proof.
  induction l1 as [|a l1 IH]; [simpl; tauto|].
  destruct l1 as [|b l1]; [simpl; tauto|].
  cbn [app chain] in *. rewrite IH. tauto.
Qed.

Lemma chain_frame q q' l z :
  (∀ r, r ∈ l → next_of q' r = next_of q r) →
  (∀ r, r ∈ tail (l ++ [z]) → prev_of q' r = prev_of q r) →
  chain q (l ++ [z]) → chain q' (l ++ [z]).
Proof.
  induction l as [|a l IH]; [done|]. intros Hn Hp.
  destruct l as [|b l]; cbn [app chain] in *.
  - intros [[H1 H2] _]. split; [split|done].
    + rewrite Hn //. set_solver.
    + rewrite Hp //. set_solver.
  - intros [[H1 H2] Hc]. split; [split|].
    + rewrite Hn //. set_solver.
    + rewrite Hp //. set_solver.
    + apply IH; [set_solver| |done]. intros r Hr. apply Hp. simpl in *. set_solver.
Qed.

Lemma repr_all_nodup q l : FreeQ_repr q l → NoDup (FakeHead :: l ++ [FakeTail]).
Proof.
  intros H. assert (∀ r, r ∈ l → r ≠ FakeHead ∧ r ≠ FakeTail) as Hne.
  { intros r Hr. destruct (proj1 (Forall_forall _ _) (repr_pool _ _ H) r Hr)
      as (i & -> & _). done. }
  apply NoDup_cons. split; [set_solver|].
  apply NoDup_app. split; [apply H|]. split; [set_solver|]. apply NoDup_singleton.
Qed.

Lemma repr_valid q l r : FreeQ_repr q l → r ∈ FakeHead :: l ++ [FakeTail] → valid q r.
Proof.
  intros H. rewrite elem_of_cons elem_of_app list_elem_of_singleton.
  intros [->|[Hr| ->]]; try apply fake_valid.
  apply pool_block_valid. by eapply Forall_forall; [apply H|].
Qed.

(** A list of references of the pool is disjoint from the fakes. *)
Lemma pool_block_not_fake q r : pool_block q r → r ≠ FakeHead ∧ r ≠ FakeTail.
Proof. by intros (i & -> & _). Qed.

(** ** Unlinking a block: [popleft] and [remove] *)

(** The assignments [popleft] and [remove] make to take [x] out between its
    neighbours [p] and [n]. *)
Definition unlink (q : FreeQ) (p x n : block_ref) : FreeQ :=
  let q1 := set_next q p (Some n) in
  let q2 := set_prev q1 n (Some p) in
  let q3 := set_next (set_prev q2 x None) x None in
  set_num_free q3 (num_free_blocks q3 - 1).

Lemma pool_unlink q p x n r : pool_block (unlink q p x n) r ↔ pool_block q r.
Proof. by rewrite /unlink pool_set_num pool_set_next !pool_set_prev pool_set_next. Qed.

(** The neighbours of a block of the queue. *)
Lemma repr_neighbours q l1 x l2 :
  FreeQ_repr q (l1 ++ x :: l2) →
  ∃ l0 p n m, FakeHead :: l1 = l0 ++ [p] ∧ l2 ++ [FakeTail] = n :: m ∧
    link q p x ∧ link q x n ∧ chain q (l0 ++ [p]) ∧ chain q (n :: m) ∧
    NoDup (l0 ++ p :: x :: n :: m).
Proof.
  intros H. pose proof (repr_all_nodup _ _ H) as Hnd.
  pose proof (repr_chain _ _ H) as Hc.
  destruct (l2 ++ [FakeTail]) as [|n m] eqn:E2; [by destruct l2|].
  destruct (exists_last (l := FakeHead :: l1) ltac:(done)) as (l0 & p & E1).
  exists l0, p, n, m.
  assert (FakeHead :: (l1 ++ x :: l2) ++ [FakeTail] = l0 ++ p :: x :: n :: m) as E.
  { rewrite -app_assoc. cbn [app]. by rewrite E2 app_comm_cons E1 -app_assoc. }
  rewrite E in Hc Hnd.
  apply chain_app in Hc as [Hc1 Hc2]. cbn [chain] in Hc2. tauto.
Qed.

Lemma unlink_spec q l1 x l2 p n :
  FreeQ_repr q (l1 ++ x :: l2) → prev_of q x = Some p → next_of q x = Some n →
  FreeQ_repr (unlink q p x n) (l1 ++ l2) ∧ same_meta q (unlink q p x n).
Proof.
  intros H Hp Hn.
  destruct (repr_neighbours _ _ _ _ H)
    as (l0 & p' & n' & m & E1 & E2 & [Hpx Hxp] & [Hxn Hnx] & Hc1 & Hc2 & Hnd).
  rewrite Hxp in Hp. rewrite Hxn in Hn. injection Hp as ->. injection Hn as ->.
  assert (∀ r, r ∈ l0 ++ p :: x :: n :: m → valid q r) as V.
  { intros r Hr. apply (repr_valid _ _ _ H).
    rewrite -app_assoc. cbn [app]. by rewrite E2 app_comm_cons E1 -app_assoc. }
  pose proof (V p ltac:(set_solver)) as Vp. pose proof (V x ltac:(set_solver)) as Vx.
  pose proof (V n ltac:(set_solver)) as Vn.
  apply NoDup_app in Hnd as (Hd0 & Hd1 & Hd2).
  rewrite !NoDup_cons in Hd2. destruct Hd2 as (Hdp & Hdx & Hdn & Hdm).
  assert (p ≠ n ∧ x ≠ n ∧ x ≠ p) as (? & ? & ?) by set_solver.
  pose proof (repr_pool _ _ H) as HP. rewrite Forall_app Forall_cons in HP.
  destruct HP as (HP1 & Px & HP2). destruct (pool_block_not_fake _ _ Px) as [Hxh Hxt].
  split; [|unfold unlink; solve_meta].
  split.
  - rewrite -app_assoc E2 app_comm_cons E1 -app_assoc. apply chain_app. split.
    + apply (chain_frame q); [| |done].
      * intros r Hr. unfold unlink. assert (p ≠ r ∧ x ≠ r) as [??] by set_solver.
        by autorewrite with fq.
      * intros r Hr%list_elem_of_In. rewrite -E1 /= in Hr.
        apply list_elem_of_In in Hr. unfold unlink.
        assert (r ∈ FakeHead :: l1) as Hr' by set_solver. rewrite E1 in Hr'.
        assert (n ≠ r ∧ x ≠ r) as [??] by set_solver.
        by autorewrite with fq.
    + cbn [chain]. split; [unfold unlink; split; by autorewrite with fq|].
      destruct m as [|z m _] using rev_ind; [done|].
      apply (chain_frame q _ (n :: m) z); [| |done]; unfold unlink.
      * intros r Hr. assert (p ≠ r ∧ x ≠ r) as [??] by set_solver.
        by autorewrite with fq.
      * cbn [app tail]. intros r Hr. assert (n ≠ r ∧ x ≠ r) as [??] by set_solver.
        by autorewrite with fq.
  - pose proof (repr_nodup _ _ H) as Hl. rewrite -Permutation_middle NoDup_cons in Hl.
    apply Hl.
  - apply Forall_app; split; (eapply Forall_impl; [eassumption|]);
      intros r Hr; by apply pool_unlink.
  - unfold unlink. autorewrite with fq. rewrite (repr_num _ _ H) /zlen !length_app /=. lia.
  - unfold unlink. assert (x ≠ FakeTail ∧ p ≠ FakeTail) as [??]; [|autorewrite with fq; apply H].
    split; [done|]. intros ->.
    assert (FakeTail ∈ n :: m) by (rewrite -E2; set_solver). set_solver.
  - intros r Hr Hrl. apply pool_unlink in Hr. unfold unlink.
    destruct (decide (r = x)) as [->|Hne]; [by autorewrite with fq|].
    destruct (pool_block_not_fake _ _ Hr).
    assert (p ≠ r). { intros ->. assert (r ∈ FakeHead :: l1) by (rewrite E1; set_solver). set_solver. }
    assert (n ≠ r). { intros ->. assert (r ∈ l2 ++ [FakeTail]) by (rewrite E2; set_solver). set_solver. }
    autorewrite with fq. apply H; [done|set_solver].
Qed.

Lemma popleft_spec q x l :
  FreeQ_repr q (x :: l) →
  ∃ q', popleft q = Ok (q', x) ∧ FreeQ_repr q' l ∧ same_meta q q'.
Proof.
  intros H.
  destruct (repr_neighbours q [] x l H)
    as (l0 & p & n & m & E1 & E2 & [Hpx Hxp] & [Hxn Hnx] & _).
  destruct l0 as [|? l0]; [injection E1 as <-|by destruct l0].
  destruct (unlink_spec q [] x l FakeHead n H Hxp Hxn) as [H1 H2].
  exists (unlink q FakeHead x n). split; [|done].
  unfold popleft. rewrite Hpx Hxn.
  pose proof (repr_pool _ _ H) as [(i & -> & _) _]%Forall_cons. done.
Qed.

Lemma popleft_empty q : FreeQ_repr q [] → popleft q = Raise ValueError.
Proof.
  intros H. destruct (repr_chain _ _ H) as [[Hn _] _].
  unfold popleft. rewrite Hn (repr_num _ _ H). done.
Qed.

Lemma remove_spec q l1 x l2 :
  FreeQ_repr q (l1 ++ x :: l2) →
  ∃ q', remove q x = Ok q' ∧ FreeQ_repr q' (l1 ++ l2) ∧ same_meta q q'.
Proof.
  intros H.
  destruct (repr_neighbours _ _ _ _ H)
    as (l0 & p & n & m & E1 & E2 & [Hpx Hxp] & [Hxn Hnx] & _).
  destruct (unlink_spec _ _ _ _ p n H Hxp Hxn) as [H1 H2].
  exists (unlink q p x n). split; [|done]. unfold remove. by rewrite Hxp Hxn.
Qed.

(** Removing a block that is not in the queue raises. *)
Lemma remove_absent q l r :
  FreeQ_repr q l → pool_block q r → r ∉ l → remove q r = Raise RuntimeError.
Proof. intros H Hr Hn. unfold remove. by destruct (repr_unlinked _ _ H r Hr Hn) as [-> _]. Qed.

(** ** [popleft_n] *)

Lemma same_meta_length q q' : same_meta q q' → length (fq_blocks q') = length (fq_blocks q).
Proof. intros H. by rewrite -(length_fmap meta) H length_fmap. Qed.

Lemma same_meta_pool q q' r : same_meta q q' → pool_block q' r ↔ pool_block q r.
Proof. intros H. rewrite /pool_block. by rewrite (same_meta_length _ _ H). Qed.

Lemma same_meta_valid q q' r : same_meta q q' → valid q' r ↔ valid q r.
Proof.
  intros H. destruct r as [i| |]; rewrite /valid /=; [|by split; eexists..].
  by rewrite -!not_eq_None_Some !lookup_ge_None (same_meta_length _ _ H).
Qed.

Lemma popleft_n_loop_spec l1 : ∀ q n m,
  chain q (l1 ++ n :: m) → NoDup (l1 ++ n :: m) → (∀ r, r ∈ l1 → valid q r) →
  ∃ q', popleft_n_loop q (head (l1 ++ [n])) (length l1) = Ok (q', Some n, l1) ∧
    (∀ r, r ∉ l1 → next_of q' r = next_of q r ∧ prev_of q' r = prev_of q r) ∧
    (∀ r, r ∈ l1 → next_of q' r = None ∧ prev_of q' r = None) ∧
    num_free_blocks q' = num_free_blocks q ∧ same_meta q q'.
Proof.
  induction l1 as [|x l1 IH]; intros q n m Hc Hnd V.
  { exists q. repeat split; try done; set_solver. }
  cbn [app] in *. apply NoDup_cons in Hnd as [Hx Hnd].
  pose proof (V x ltac:(set_solver)) as Vx.
  set (q1 := set_next (set_prev q x None) x None).
  assert (next_of q x = head (l1 ++ [n])) as Hnx.
  { destruct l1; cbn [app chain] in Hc; destruct Hc as [[-> _] _]; done. }
  assert (chain q1 (l1 ++ n :: m)) as Hc1.
  { assert (chain q (l1 ++ n :: m)) as Hc' by (destruct l1; apply Hc).
    destruct (exists_last (l := l1 ++ n :: m)) as (l0 & z & E).
    { by destruct l1. }
    rewrite E in Hc' Hx |- *. apply (chain_frame q); [| |done].
    - intros r Hr. unfold q1. assert (x ≠ r) by set_solver. by autorewrite with fq.
    - intros r Hr. assert (r ∈ l0 ++ [z]) by (destruct l0; set_solver).
      unfold q1. assert (x ≠ r) by set_solver. by autorewrite with fq. }
  destruct (IH q1 n m Hc1 Hnd) as (q' & E & Ho & Hi & Hnum & Hm).
  { intros r Hr. unfold q1. apply valid_set_next, valid_set_prev. set_solver. }
  exists q'. cbn [length head popleft_n_loop app]. fold q1. rewrite Hnx E /=.
  split; [done|]. split; [|split; [|split]].
  - intros r Hr. destruct (Ho r ltac:(set_solver)) as [-> ->]. unfold q1.
    assert (x ≠ r) by set_solver. by autorewrite with fq.
  - intros r [->|Hr]%elem_of_cons; [|by apply Hi].
    destruct (Ho x ltac:(set_solver)) as [-> ->]. unfold q1. by autorewrite with fq.
  - rewrite Hnum. unfold q1. by autorewrite with fq.
  - eapply same_meta_trans; [|exact Hm]. unfold q1. solve_meta.
Qed.

(** The chain behind the blocks that are taken, with the head linked to it. *)
Lemma popleft_n_chain q q1 l1 n m :
  chain q (l1 ++ n :: m) → NoDup (FakeHead :: l1 ++ n :: m) → valid q1 FakeHead → valid q1 n →
  (∀ r, r ∉ l1 → next_of q1 r = next_of q r ∧ prev_of q1 r = prev_of q r) →
  chain (set_prev (set_next q1 FakeHead (Some n)) n (Some FakeHead)) (FakeHead :: n :: m).
Proof.
  intros Hc Hnd Vh Vn Ho. apply NoDup_cons in Hnd as [Hdh Hnd]. apply NoDup_app in Hnd as (Hd1 & Hd12 & Hd2).
  apply NoDup_cons in Hd2 as [Hdn Hdm]. assert (FakeHead ≠ n) by set_solver.
  cbn [chain]. split; [split; by autorewrite with fq|].
  destruct m as [|z m _] using rev_ind; [done|]. apply chain_app in Hc as [_ Hc].
  apply (chain_frame q _ (n :: m) z); [| |done].
  - intros r Hr. assert (FakeHead ≠ r) by set_solver. autorewrite with fq.
    destruct (Ho r) as [-> _]; [set_solver|]. done.
  - cbn [app tail]. intros r Hr. assert (n ≠ r) by set_solver. autorewrite with fq.
    destruct (Ho r) as [_ ->]; [set_solver|]. done.
Qed.

Lemma popleft_n_spec q l1 l2 :
  FreeQ_repr q (l1 ++ l2) →
  ∃ q', popleft_n q (zlen l1) = Ok (q', l1) ∧ FreeQ_repr q' l2 ∧ same_meta q q'.
Proof.
  intros H. unfold popleft_n.
  destruct l1 as [|x l1]; [by exists q; rewrite bool_decide_true|].
  rewrite bool_decide_false; [|done]. rewrite bool_decide_true /=; last first.
  { rewrite (repr_num _ _ H) /zlen length_app. lia. }
  pose proof (repr_all_nodup _ _ H) as Hnd. pose proof (repr_chain _ _ H) as Hc.
  destruct (l2 ++ [FakeTail]) as [|n m] eqn:E2; [by destruct l2|].
  rewrite -app_assoc E2 in Hc, Hnd. cbn [app chain] in Hc. destruct Hc as [[Hhx _] Hc].
  set (q0 := set_num_free q (num_free_blocks q - zlen (x :: l1))).
  assert (∀ r, r ∈ FakeHead :: (x :: l1) ++ n :: m → valid q r) as V.
  { intros r Hr. apply (repr_valid _ _ _ H). by rewrite -app_assoc E2. }
  destruct (popleft_n_loop_spec (x :: l1) q0 n m) as (q1 & E & Ho & Hi & Hnum & Hm).
  { destruct (exists_last (l := (x :: l1) ++ n :: m)) as (l0 & z & E); [done|].
    rewrite E. apply (chain_frame q); [..|by rewrite -E];
      intros r Hr; unfold q0; by autorewrite with fq. }
  { by apply NoDup_cons in Hnd as [_ Hnd]. }
  { intros r Hr. apply valid_set_num, V. set_solver. }
  replace (Z.to_nat (zlen (x :: l1))) with (length (x :: l1)) by (rewrite /zlen; lia).
  assert (next_of q0 FakeHead = head ((x :: l1) ++ [n])) as -> by
    (unfold q0; by autorewrite with fq).
  rewrite E /=. eexists; split; [reflexivity|].
  pose proof (V n ltac:(set_solver)) as Vn. pose proof (V FakeHead ltac:(set_solver)) as Vh.
  rewrite -(same_meta_valid q q1) in Vn; [|done]. rewrite -(same_meta_valid q q1) in Vh; [|done].
  assert (FakeHead ≠ n) by (apply NoDup_cons in Hnd as [Hdh _]; set_solver).
  pose proof (repr_pool _ _ H) as [HP1 HP2]%Forall_app.
  assert (same_meta q (set_prev (set_next q1 FakeHead (Some n)) n (Some FakeHead)))
    as Hmm by solve_meta.
  split; [|done]. split.
  - rewrite E2. apply (popleft_n_chain q q1 (x :: l1) n m); done.
  - pose proof (repr_nodup _ _ H) as Hl. by apply NoDup_app in Hl as (_ & _ & ?).
  - eapply Forall_impl; [exact HP2|]. intros r Hr. by apply (same_meta_pool q).
  - autorewrite with fq. rewrite Hnum. unfold q0. autorewrite with fq.
    rewrite (repr_num _ _ H) /zlen length_app. lia.
  - autorewrite with fq. destruct (Ho FakeTail) as [-> _]; [|apply H].
    intros Hin. eapply Forall_forall in HP1; [|exact Hin]. by destruct HP1 as (? & ? & _).
  - intros r Hr Hrl. apply (same_meta_pool q) in Hr; [|done].
    destruct (pool_block_not_fake _ _ Hr).
    assert (n ≠ r). { intros ->. assert (r ∈ l2 ++ [FakeTail]) by (rewrite E2; set_solver). set_solver. }
    autorewrite with fq.
    destruct (decide (r ∈ x :: l1)) as [Hin|Hin].
    + destruct (Hi r Hin) as [-> ->]. done.
    + destruct (Ho r Hin) as [-> ->]. unfold q0. autorewrite with fq.
      apply H; [done|set_solver].
Qed.

(** ** [append] and [append_n] *)

Lemma set_next_set_prev_comm q r v r' v' :
  set_next (set_prev q r v) r' v' = set_prev (set_next q r' v') r v.
Proof.
  unfold set_next, set_prev. destruct r as [i| |], r' as [j| |]; try done.
  unfold modify; simpl. f_equal. apply list_eq; intros k.
  destruct (decide (i = k)) as [->|], (decide (j = k)) as [->|];
    rewrite ?(list_lookup_alter_eq, list_lookup_alter_ne) //; try congruence.
  by destruct (fq_blocks q !! k).
Qed.

(** [append] is [append_n] on a one-element list. *)
Lemma append_append_n q b :
  prev_of q FakeTail ≠ None → append q b = append_n q [b].
Proof.
  intros H. unfold append, append_n. destruct (prev_of q FakeTail); [|done].
  rewrite bool_decide_false //. cbn [append_n_loop].
  by rewrite (set_next_set_prev_comm q b).
Qed.

Lemma append_n_loop_spec bs : ∀ q pre last q' z,
  append_n_loop q last bs = (q', z) →
  chain q (pre ++ [last]) → NoDup (pre ++ last :: bs) →
  (∀ r, r ∈ last :: bs → valid q r) →
  (∃ pre', pre ++ last :: bs = pre' ++ [z] ∧ chain q' (pre' ++ [z])) ∧
  (∀ r, r ∉ bs → prev_of q' r = prev_of q r) ∧
  (∀ r, r ∉ last :: bs → next_of q' r = next_of q r) ∧
  num_free_blocks q' = num_free_blocks q ∧ same_meta q q'.
Proof.
  induction bs as [|b bs IH]; intros q pre last q' z E Hc Hnd V; cbn [append_n_loop] in E.
  { injection E as <- <-. split; [by exists pre|]. repeat split; done. }
  pose proof (V last ltac:(set_solver)) as Vl. pose proof (V b ltac:(set_solver)) as Vb.
  set (q2 := set_next (set_prev q b (Some last)) last (Some b)) in *.
  assert (NoDup ((pre ++ [last]) ++ b :: bs)) as Hnd' by (by rewrite -app_assoc).
  assert ((last ∉ pre) ∧ (b ∉ (pre ++ [last])) ∧ (b ∉ bs)) as (Hlp & Hbp & Hbb).
  { apply NoDup_app in Hnd as (H1 & H2 & H3). apply NoDup_cons in H3 as [H3 H4].
    apply NoDup_cons in H4 as [H4 _]. set_solver. }
  destruct (IH q2 (pre ++ [last]) b q' z E) as ((pre' & Ep & Hc') & Hp & Hn & Hnum & Hm).
  { rewrite -app_assoc. apply chain_app. split.
    - apply (chain_frame q); [| |done].
      + intros r Hr. assert (last ≠ r) by set_solver. unfold q2. by autorewrite with fq.
      + intros r Hr. assert (r ∈ pre ++ [last]) by (destruct pre; set_solver).
        assert (b ≠ r) by set_solver. unfold q2. by autorewrite with fq.
    - cbn [chain app]. split; [|done]. assert (last ≠ b) by set_solver.
      unfold q2. split; by autorewrite with fq. }
  { done. }
  { intros r Hr. unfold q2. apply valid_set_next, valid_set_prev, V. set_solver. }
  split; [exists pre'; split; [|done]; by rewrite -Ep -app_assoc|].
  split; [|split; [|split]].
  - intros r Hr. rewrite Hp; [|set_solver]. unfold q2. assert (b ≠ r) by set_solver.
    by autorewrite with fq.
  - intros r Hr. rewrite Hn; [|set_solver]. unfold q2. assert (last ≠ r) by set_solver.
    by autorewrite with fq.
  - rewrite Hnum. unfold q2. by autorewrite with fq.
  - eapply same_meta_trans; [|exact Hm]. unfold q2. solve_meta.
Qed.

Lemma repr_prev_tail q l :
  FreeQ_repr q l → ∃ pre last, FakeHead :: l = pre ++ [last] ∧ prev_of q FakeTail = Some last ∧
    chain q (pre ++ [last]).
Proof.
  intros H. destruct (exists_last (l := FakeHead :: l) ltac:(done)) as (pre & last & E).
  exists pre, last. split; [done|]. pose proof (repr_chain _ _ H) as Hc.
  rewrite app_comm_cons E -app_assoc in Hc. apply chain_app in Hc as [Hc1 Hc2].
  cbn [app chain] in Hc2. unfold link in Hc2. tauto.
Qed.

(** New blocks may follow those of the queue. *)
Lemma append_n_ready q l bs :
  FreeQ_repr q l → Forall (pool_block q) bs → NoDup bs → (∀ r, r ∈ bs → r ∉ l) →
  NoDup ((FakeHead :: l) ++ bs ++ [FakeTail]) ∧ (∀ r, r ∈ (FakeHead :: l) ++ bs ++ [FakeTail] → valid q r).
Proof.
  intros H HPb Hndb Hdisj. pose proof (repr_all_nodup _ _ H) as Hnd.
  assert (∀ r, r ∈ bs → r ≠ FakeHead ∧ r ≠ FakeTail) as Hbf.
  { intros r Hr. eapply pool_block_not_fake. by eapply Forall_forall in HPb. }
  split.
  - rewrite app_comm_cons in Hnd. apply NoDup_app in Hnd as (Hn1 & Hn2 & Hn3).
    apply NoDup_app. split; [done|]. split; [set_solver|].
    apply NoDup_app. split; [done|]. split; [set_solver|done].
  - intros r Hr. destruct (decide (r ∈ bs)) as [Hb|].
    + apply pool_block_valid. by eapply Forall_forall in HPb.
    + apply (repr_valid _ _ _ H). set_solver.
Qed.

Lemma append_n_spec q l bs :
  FreeQ_repr q l → Forall (pool_block q) bs → NoDup bs → (∀ r, r ∈ bs → r ∉ l) →
  ∃ q', append_n q bs = Ok q' ∧ FreeQ_repr q' (l ++ bs) ∧ same_meta q q'.
Proof.
  intros H HPb Hndb Hdisj. unfold append_n. case_bool_decide as Hbs.
  { exists q. subst. by rewrite app_nil_r. }
  destruct (repr_prev_tail _ _ H) as (pre & last & E1 & -> & Hc1).
  destruct (append_n_loop q last bs) as [q1 z] eqn:E.
  destruct (append_n_ready q l bs H HPb Hndb Hdisj) as [Hnd' V].
  rewrite E1 -app_assoc in Hnd'. cbn [app] in Hnd', V.
  destruct (append_n_loop_spec bs q pre last q1 z E Hc1) as ((pre' & Ep & Hc') & Hp & Hn & Hnum & Hm).
  { rewrite app_comm_cons app_assoc in Hnd'. by apply NoDup_app in Hnd' as (? & _ & _). }
  { intros r Hr. apply V. assert (last ∈ FakeHead :: l) by (rewrite E1; set_solver). set_solver. }
  eexists; split; [reflexivity|].
  assert (same_meta q (set_num_free (set_prev (set_next q1 z (Some FakeTail)) FakeTail (Some z))
     (num_free_blocks (set_prev (set_next q1 z (Some FakeTail)) FakeTail (Some z)) + zlen bs)))
    as Hmm by solve_meta.
  split; [|done].
  assert (FakeHead :: l ++ bs = pre' ++ [z]) as Ez by (by rewrite -Ep app_comm_cons E1 -app_assoc).
  assert (NoDup (pre' ++ z :: [FakeTail])) as Hnd2.
  { rewrite app_comm_cons app_assoc Ep -app_assoc in Hnd'. done. }
  assert (valid q1 z) as Vz.
  { apply (same_meta_valid q); [done|]. apply V.
    assert (z ∈ FakeHead :: l ++ bs) by (rewrite Ez; set_solver). set_solver. }
  assert (valid q1 FakeTail) as Vt by apply fake_valid.
  apply NoDup_app in Hnd2 as (Hn1 & Hn2 & Hn3). apply NoDup_cons in Hn3 as [Hn3 _].
  assert (z ≠ FakeTail) as Hzt by set_solver.
  split.
  - rewrite app_comm_cons Ez -app_assoc. apply chain_app. split.
    + apply (chain_frame q1); [| |done].
      * intros r Hr. assert (z ≠ r) by set_solver. by autorewrite with fq.
      * intros r Hr. assert (r ∈ pre' ++ [z]) by (destruct pre'; set_solver).
        assert (FakeTail ≠ r) by set_solver. by autorewrite with fq.
    + cbn [chain app]. split; [split; by autorewrite with fq|done].
  - apply NoDup_app. split; [apply H|]. split; [set_solver|done].
  - apply Forall_app. split.
    + eapply Forall_impl; [apply H|]. intros r Hr. by apply (same_meta_pool q).
    + eapply Forall_impl; [exact HPb|]. intros r Hr. by apply (same_meta_pool q).
  - autorewrite with fq. rewrite Hnum (repr_num _ _ H) /zlen length_app. lia.
  - autorewrite with fq. rewrite Hn; [apply H|]. intros Hin.
    assert (FakeTail ∈ FakeHead :: l ++ bs); [|rewrite Ez in H0; set_solver].
    rewrite app_comm_cons E1. set_solver.
  - intros r Hr Hrl. apply (same_meta_pool q) in Hr; [|done].
    destruct (pool_block_not_fake _ _ Hr).
    assert (r ∉ FakeHead :: l ++ bs) as Hrz by set_solver. rewrite Ez in Hrz.
    assert (r ∉ last :: bs). { intros Hin. apply Hrz. rewrite -Ep. set_solver. }
    assert (z ≠ r) by set_solver. autorewrite with fq.
    rewrite Hn //. rewrite Hp; [|set_solver]. apply H; [done|set_solver].
Qed.

Lemma append_spec q l b :
  FreeQ_repr q l → pool_block q b → b ∉ l →
  ∃ q', append q b = Ok q' ∧ FreeQ_repr q' (l ++ [b]) ∧ same_meta q q'.
Proof.
  intros H Hb Hn. rewrite append_append_n.
  - apply append_n_spec; [done|by constructor|apply NoDup_singleton|set_solver].
  - destruct (repr_prev_tail _ _ H) as (? & ? & _ & -> & _). done.
Qed.

(** ** [get_all_free_blocks] *)

Lemma all_free_loop_spec l : ∀ q fuel,
  chain q (l ++ [FakeTail]) → next_of q FakeTail = None → (length l ≤ fuel)%nat →
  all_free_loop fuel q (default FakeTail (head l)) = Some l.
Proof.
  induction l as [|x l IH]; intros q fuel Hc Ht Hf.
  { destruct fuel; simpl; by rewrite Ht. }
  destruct fuel as [|fuel]; [simpl in Hf; lia|].
  change (default FakeTail (head (x :: l))) with x. cbn [all_free_loop].
  assert (next_of q x = Some (default FakeTail (head l)) ∧ chain q (l ++ [FakeTail]))
    as [-> Hc'].
  { destruct l; cbn [app chain] in Hc; destruct Hc as [[-> _] ?]; done. }
  rewrite IH //. simpl in Hf. lia.
Qed.

Lemma get_all_free_blocks_spec q l fuel :
  FreeQ_repr q l → (length l ≤ fuel)%nat → get_all_free_blocks fuel q = Ok (Some l).
Proof.
  intros H Hf. unfold get_all_free_blocks.
  pose proof (repr_chain _ _ H) as Hc.
  assert (next_of q FakeHead = Some (default FakeTail (head l)) ∧ chain q (l ++ [FakeTail]))
    as [-> Hc'].
  { destruct l; cbn [app chain] in Hc; destruct Hc as [[-> _] ?]; done. }
  by rewrite all_free_loop_spec //; apply H.
Qed.

(** ** [__init__] *)

(** The links after the first [k] iterations of the constructor's loop. *)
Lemma init_links_upto q n k :
  n = length (fq_blocks q) → (k ≤ n)%nat →
  let q' := foldl (init_link n) q (seq 0 k) in
  same_meta q q' ∧ num_free_blocks q' = num_free_blocks q ∧
  (∀ r, pool_block q r ∨ r = FakeTail → next_of q' r =
     match r with Blk i => if decide (i < k ∧ i < n - 1)%nat then Some (Blk (i + 1)) else next_of q r
     | _ => next_of q r end) ∧
  (∀ r, pool_block q r → prev_of q' r =
     match r with Blk i => if decide (0 < i ∧ i < k)%nat then Some (Blk (i - 1)) else prev_of q r
     | _ => prev_of q r end).
Proof.
  intros Hn. induction k as [|k IH]; intros Hk.
  { change (foldl (init_link n) q (seq 0 0)) with q. split; [done|]. split; [done|]. split.
    - intros [i| |] _; cbv iota; [|done..]. goal_decide; [lia|done].
    - intros [i| |] _; cbv iota; [|done..]. goal_decide; [lia|done]. }
  rewrite seq_S foldl_app /=. destruct IH as (Hm & Hnum & Hnx & Hpv); [lia|].
  set (q1 := foldl (init_link n) q (seq 0 k)) in *.
  assert (valid q1 (Blk k)) as Vk.
  { apply (same_meta_valid q); [done|]. apply pool_block_valid. exists k. split; [done|lia]. }
  unfold init_link. split; [repeat case_bool_decide; solve_meta|].
  split; [repeat case_bool_decide; by autorewrite with fq|]. split.
  - intros r Hr. specialize (Hnx r Hr). destruct r as [i| |]; cbv iota in *; [|by destruct Hr as [(? & ? & _)|?]|].
    + destruct (decide (i = k)) as [->|Hne].
      * destruct (decide (k < n - 1)%nat).
        -- rewrite (bool_decide_true (k < n - 1)%nat) // next_set_next_eq.
           ++ goal_decide; [done|lia].
           ++ case_bool_decide; [by apply valid_set_prev|done].
        -- rewrite (bool_decide_false (k < n - 1)%nat) //.
           goal_decide; [lia|]. revert Hnx. goal_decide; [lia|]. intros <-. by case_bool_decide; autorewrite with fq.
      * assert (Blk k ≠ Blk i) by congruence.
        transitivity (next_of q1 (Blk i)); [by repeat case_bool_decide; autorewrite with fq|].
        rewrite Hnx. repeat goal_decide; try done; lia.
    + assert (Blk k ≠ FakeTail) by done.
      rewrite -Hnx. by repeat case_bool_decide; autorewrite with fq.
  - intros r Hr. specialize (Hpv r Hr). destruct Hr as (i & -> & Hi). cbv iota in *.
    destruct (decide (i = k)) as [->|Hne].
    + transitivity (prev_of (if bool_decide (0 < k)%nat
        then set_prev q1 (Blk k) (Some (Blk (k - 1))) else q1) (Blk k)).
      { case_bool_decide; case_bool_decide; by autorewrite with fq. }
      case_bool_decide; autorewrite with fq.
      * goal_decide; [done|lia].
      * rewrite Hpv. by repeat goal_decide; try lia.
    + assert (Blk k ≠ Blk i) by congruence.
      transitivity (prev_of q1 (Blk i)); [by repeat case_bool_decide; autorewrite with fq|].
      rewrite Hpv. repeat goal_decide; try done; lia.
Qed.

Lemma chain_seq q n :
  (∀ i, (i < n - 1)%nat → link q (Blk i) (Blk (i + 1))) →
  (∀ i, i = (n - 1)%nat → link q (Blk i) FakeTail) →
  ∀ m k, (k + m = n)%nat → chain q ((Blk <$> seq k m) ++ [FakeTail]).
Proof.
  intros H1 H2. induction m as [|m IH]; intros k Hk; [done|].
  specialize (IH (S k) ltac:(lia)).
  destruct m as [|m]; cbn [seq fmap list_fmap app chain] in *.
  - split; [|done]. apply H2. lia.
  - split; [|done]. replace (S k) with (k + 1)%nat by lia. apply H1. lia.
Qed.

(** The constructor links the blocks in the order of their list. *)
Lemma FreeKVCacheBlockQueue_init_spec blocks :
  Forall (λ b, prev_free_block b = None ∧ next_free_block b = None) blocks →
  FreeQ_repr (FreeKVCacheBlockQueue_init blocks) (Blk <$> seq 0 (length blocks)) ∧
  meta <$> fq_blocks (FreeKVCacheBlockQueue_init blocks) = meta <$> blocks.
Proof.
  intros Hnone. destruct (decide (blocks = [])) as [->|Hne].
  { split; [|done]. change (Blk <$> seq 0 (length [])) with ([] : list block_ref).
    split; try done; [constructor|]. intros r (i & _ & Hi). simpl in Hi. lia. }
  unfold FreeKVCacheBlockQueue_init.
  set (qi := mkFreeQ blocks (Z.of_nat (length blocks)) (new_block (-1)) (new_block (-1))).
  set (n := length blocks).
  destruct (init_links_upto qi n n eq_refl ltac:(done)) as (Hm & Hnum & Hnx & Hpv).
  fold (init_links qi n) in *. set (q0 := init_links qi n) in *.
  assert (∀ r, pool_block qi r → next_of qi r = None ∧ prev_of qi r = None) as Hi.
  { intros r (i & -> & Hi). destruct (lookup_lt_is_Some_2 _ _ Hi) as [b Hb].
    rewrite /next_of /prev_of /= Hb /=.
    by destruct (Forall_lookup_1 _ _ _ _ Hnone Hb) as [-> ->]. }
  case_bool_decide as Hn0; last first.
  { destruct blocks; [done|simpl in *; lia]. }
  assert (∀ i, (i < n)%nat → pool_block qi (Blk i)) as HP by (intros i ?; by exists i).
  assert (∀ i, (i < n)%nat → valid q0 (Blk i)) as V.
  { intros i Hin. apply (same_meta_valid qi); [done|]. by apply pool_block_valid, HP. }
  pose proof (V 0%nat ltac:(lia)) as V0. pose proof (V (n - 1)%nat ltac:(lia)) as Vn.
  destruct (fake_valid q0) as [Vh Vt].
  assert (Blk 0 ≠ FakeTail ∧ Blk (n - 1) ≠ FakeTail) as [??] by done.
  match goal with |- FreeQ_repr ?q _ ∧ _ => assert (same_meta qi q) as Hmm by solve_meta end.
  split; [|by rewrite Hmm].
  split.
  - assert (∀ i, (0 < i)%nat → Blk 0 ≠ Blk i) by (intros i ? [=]; lia).
    cbn [seq fmap list_fmap]. destruct n as [|n'] eqn:En; [lia|].
    change (Blk <$> seq 0 (S n')) with (Blk 0 :: (Blk <$> seq 1 n')).
    apply chain_cons. split; [split; by autorewrite with fq|].
    apply (chain_seq _ (S n')) with (k := 0%nat) (m := S n'); [| |done].
    + intros i Hi'. assert (Blk (S n' - 1) ≠ Blk i) by (intros [=]; lia).
      assert (Blk 0 ≠ Blk (i + 1)) by (intros [=]; lia).
      split; autorewrite with fq.
      * rewrite Hnx; [|left; apply HP; lia]. goal_decide; [done|lia].
      * rewrite Hpv; [|apply HP; lia]. goal_decide; [|lia]. by replace (i + 1 - 1)%nat with i by lia.
    + intros i ->. split; by autorewrite with fq.
  - apply NoDup_fmap_2; [by intros ?? [=]|apply NoDup_seq].
  - apply Forall_fmap, Forall_seq. intros i Hi'. apply (same_meta_pool qi); [done|].
    apply HP. simpl in *. lia.
  - autorewrite with fq. rewrite Hnum /zlen length_fmap length_seq //.
  - autorewrite with fq. rewrite Hnx; [done|by right].
  - intros r Hr Hrl. destruct Hr as (i & -> & Hi'). exfalso. apply Hrl.
    apply list_elem_of_fmap. exists i. split; [done|]. apply elem_of_seq.
    rewrite (same_meta_length _ _ Hmm) in Hi'. simpl in *. lia.
Qed.

(** ** Refinement to a list *)

(** A call of one of the methods that change the queue. *)
Inductive qop :=
  | PopLeft
  | PopLeftN (n : Z)
  | Remove (block : block_ref)
  | Append (block : block_ref)
  | AppendN (blocks : list block_ref).

(** The call on the linked queue; the second component is the blocks it
    returns. *)
Definition run_qop (q : FreeQ) (o : qop) : res (FreeQ * list block_ref) :=
  match o with
  | PopLeft => '(q, b) ← popleft q; Ok (q, [b])
  | PopLeftN n => popleft_n q n
  | Remove b => q ← remove q b; Ok (q, [])
  | Append b => q ← append q b; Ok (q, [])
  | AppendN bs => q ← append_n q bs; Ok (q, [])
  end.

(** The call on the list of free blocks. *)
Definition spec_qop (l : list block_ref) (o : qop)
    : res (list block_ref * list block_ref) :=
  match o with
  | PopLeft =>
      match l with [] => Raise ValueError | b :: l => Ok (l, [b]) end
  | PopLeftN n =>
      if bool_decide (n ≤ zlen l) then Ok (drop (Z.to_nat n) l, take (Z.to_nat n) l)
      else Raise AssertionError
  | Remove b =>
      if bool_decide (b ∈ l) then Ok (filter (λ x, x ≠ b) l, []) else Raise RuntimeError
  | Append b => Ok (l ++ [b], [])
  | AppendN bs => Ok (l ++ bs, [])
  end.

(** What a caller has to respect: it passes blocks of the pool, and appends
    only blocks that are not in the queue, each once. *)
Definition qop_pre (q : FreeQ) (l : list block_ref) (o : qop) : Prop :=
  match o with
  | PopLeft => True
  | PopLeftN n => 0 ≤ n
  | Remove b => pool_block q b
  | Append b => pool_block q b ∧ b ∉ l
  | AppendN bs => Forall (pool_block q) bs ∧ NoDup bs ∧ (∀ b, b ∈ bs → b ∉ l)
  end.

#[export] Instance pool_block_dec q r : Decision (pool_block q r).
Proof.
  refine (match r with
          | Blk i => cast_if (decide (i < length (fq_blocks q))%nat)
          | _ => right _ end); [by exists i|by intros (? & [= ->] & ?)|by intros (? & ? & _)..].
Defined.

(** Every call does on the links what it does on the list. *)
Lemma run_qop_spec q l o :
  FreeQ_repr q l → qop_pre q l o →
  match spec_qop l o with
  | Ok (l', out) => ∃ q', run_qop q o = Ok (q', out) ∧ FreeQ_repr q' l' ∧ same_meta q q'
  | Raise e => run_qop q o = Raise e
  end.
Proof.
  intros H Hpre. destruct o as [|n|b|b|bs]; cbn [run_qop spec_qop qop_pre] in *.
  - destruct l as [|b l]; [by rewrite popleft_empty|].
    destruct (popleft_spec _ _ _ H) as (q' & -> & ? & ?). by exists q'.
  - case_bool_decide as Hn.
    + destruct (popleft_n_spec q (take (Z.to_nat n) l) (drop (Z.to_nat n) l))
        as (q' & E & ? & ?); [by rewrite take_drop|].
      exists q'. rewrite -E. split; [|done]. f_equal. unfold zlen in *.
      rewrite length_take. lia.
    + unfold popleft_n. rewrite bool_decide_false; [|unfold zlen in *; lia].
      rewrite bool_decide_false //. by rewrite (repr_num _ _ H).
  - case_bool_decide as Hb; [|by rewrite (remove_absent q l b)].
    apply list_elem_of_split in Hb as (l1 & l2 & ->).
    destruct (remove_spec _ _ _ _ H) as (q' & -> & Hq & ?). exists q'.
    rewrite filter_remove_one //. apply (repr_nodup _ _ H).
  - destruct Hpre as [??]. destruct (append_spec q l b) as (q' & -> & ? & ?); [done..|].
    by exists q'.
  - destruct Hpre as (? & ? & ?).
    destruct (append_n_spec q l bs) as (q' & -> & ? & ?); [done..|]. by exists q'.
Qed.

Definition run_qops (q : FreeQ) (os : list qop) : res (FreeQ * list (list block_ref)) :=
  mapM_st run_qop q os.
Definition spec_qops (l : list block_ref) (os : list qop)
    : res (list block_ref * list (list block_ref)) :=
  mapM_st spec_qop l os.

Fixpoint qops_pre (q : FreeQ) (l : list block_ref) (os : list qop) : Prop :=
  match os with
  | [] => True
  | o :: os =>
      qop_pre q l o ∧
      match spec_qop l o with Ok (l', _) => qops_pre q l' os | Raise _ => True end
  end.

Lemma qops_pre_meta q q' os : ∀ l, same_meta q q' → qops_pre q l os → qops_pre q' l os.
Proof.
  induction os as [|o os IH]; intros l Hm; [done|]. intros [Ho Hos]. split.
  - destruct o; cbn in *; rewrite ?(same_meta_pool _ _ _ Hm) //.
    destruct Ho as (Ho & ? & ?). split; [|done]. eapply Forall_impl; [done|].
    intros x Hx. by rewrite (same_meta_pool _ _ _ Hm).
  - destruct (spec_qop l o) as [[l' out]|e]; [by apply IH|done].
Qed.

Lemma run_qops_spec os : ∀ q l,
  FreeQ_repr q l → qops_pre q l os →
  match spec_qops l os with
  | Ok (l', outs) => ∃ q', run_qops q os = Ok (q', outs) ∧ FreeQ_repr q' l' ∧ same_meta q q'
  | Raise e => run_qops q os = Raise e
  end.
Proof.
  induction os as [|o os IH]; intros q l H; [by exists q|]. intros [Ho Hos].
  pose proof (run_qop_spec q l o H Ho) as Hrun. unfold spec_qops, run_qops in *.
  cbn [mapM_st]. destruct (spec_qop l o) as [[l1 out]|e]; [|by rewrite Hrun].
  destruct Hrun as (q1 & -> & H1 & Hm1). cbn.
  specialize (IH q1 l1 H1 (qops_pre_meta _ _ _ _ Hm1 Hos)).
  destruct (mapM_st spec_qop l1 os) as [[l2 outs]|e]; cbn; [|by rewrite IH].
  destruct IH as (q2 & -> & ? & ?). exists q2. cbn. split; [done|]. split; [done|].
  by eapply same_meta_trans.
Qed.

(** C13: the doubly linked free queue implements a list.  On a queue built
    from any list of unlinked blocks, a sequence of calls of [popleft],
    [popleft_n], [remove], [append] and [append_n] returns the blocks, or
    raises the exception, that the same calls give on the plain list of block
    references; afterwards the walk over the links returns that list, the
    counter is its length, and the ids, reference counts, hashes and null flags
    of the blocks are unchanged. *)
Theorem free_queue_refines_list (blocks : list KVCacheBlock) (os : list qop) :
  Forall (λ b, prev_free_block b = None ∧ next_free_block b = None) blocks →
  let q := FreeKVCacheBlockQueue_init blocks in
  let l := Blk <$> seq 0 (length blocks) in
  qops_pre q l os →
  match spec_qops l os with
  | Ok (l', outs) =>
      ∃ q', run_qops q os = Ok (q', outs) ∧
        get_all_free_blocks (length l') q' = Ok (Some l') ∧
        num_free_blocks q' = zlen l' ∧ NoDup l' ∧
        meta <$> fq_blocks q' = meta <$> blocks
  | Raise e => run_qops q os = Raise e
  end.
Proof.
  intros Hb q l Hpre. destruct (FreeKVCacheBlockQueue_init_spec _ Hb) as [H Hm].
  pose proof (run_qops_spec os q l H Hpre) as Hrun.
  destruct (spec_qops l os) as [[l' outs]|e]; [|done].
  destruct Hrun as (q' & E & Hq & Hm'). exists q'. split; [done|].
  rewrite (get_all_free_blocks_spec _ l') //. split; [done|].
  split; [apply Hq|]. split; [apply Hq|]. by rewrite Hm'.
Qed.

Lemma free_queue_refines_list_witness :
  ∃ q', run_qops (FreeKVCacheBlockQueue_init (new_block <$> [0; 1; 2; 3]))
          [PopLeftN 2; Remove (Blk 3); PopLeft; AppendN [Blk 1; Blk 0]; Append (Blk 2)]
        = Ok (q', [[Blk 0; Blk 1]; []; [Blk 2]; []; []]) ∧
    get_all_free_blocks 3 q' = Ok (Some [Blk 1; Blk 0; Blk 2]) ∧
    num_free_blocks q' = 3 ∧ NoDup [Blk 1; Blk 0; Blk 2] ∧
    meta <$> fq_blocks q' = meta <$> (new_block <$> [0; 1; 2; 3]).
Proof.
  refine (free_queue_refines_list (new_block <$> [0; 1; 2; 3])
    [PopLeftN 2; Remove (Blk 3); PopLeft; AppendN [Blk 1; Blk 0]; Append (Blk 2)] _ _).
  - repeat constructor.
  - set (q := FreeKVCacheBlockQueue_init _).
    assert (∀ i, (i < 4)%nat → pool_block q (Blk i)) as HP by (intros i ?; by exists i).
    repeat split; cbn; try (apply HP; lia); try lia; try set_solver.
    + repeat constructor; apply HP; lia.
    + repeat constructor; set_solver.
Defined.
