(* ===== verification/BlockHash.v ===== *)
(** * Block hashes: the hashing half of [vllm/v1/core/kv_cache_utils.py]

    Packing of a block hash with its group id, the extra keys of a block, the
    chained hash of the full blocks of a request and the regrouping of hashes
    for larger block sizes.  The cryptographic hash functions and [NONE_HASH]
    are parameters. *)

From S2P Require Import Prelude PyFloat Request.

(** ** Packing *)

Definition make_block_hash_with_group_id (block_hash : bytes) (group_id : Z) : res bytes :=
  g ← int_to_bytes 4 group_id;
  Ok (block_hash ++ g).

Definition get_block_hash (key : bytes) : bytes := py_slice_to key (-4).

Definition get_group_id (key : bytes) : Z := int_from_bytes (py_slice_from key (-4)).

Inductive ExternalBlockHash : Set :=
  | EBytes (b : bytes)
  | EInt (z : Z).

(** [use_int] is [VLLM_KV_EVENTS_USE_INT_BLOCK_HASHES]. *)
Definition maybe_convert_block_hash (use_int : bool) (hash_bytes : bytes)
    : ExternalBlockHash :=
  if negb use_int then EBytes hash_bytes
  else EInt (Z.land (int_from_bytes hash_bytes) (Z.shiftl 1 64 - 1)).

(** ** Extra keys *)

(** One entry of the tuple of extra keys: a LoRA name or a cache salt (both
    Python strings), a multi-modal identifier with its offset in the block, or
    the digest of a slice of prompt embeddings. *)
Inductive extra_key : Set :=
  | KStr (s : string)
  | KMM (identifier : string) (rel_offset : Z)
  | KBytes (b : bytes).

#[export] Instance extra_key_eq_dec : EqDecision extra_key.
Proof. solve_decision. Defined.

Definition need_extra_keys (r : Request) : bool :=
  negb (is_nil (mm_features r)) || is_some (lora_request r) || is_some (cache_salt r).

(** The [while] loop of [_gen_mm_extra_hash_keys], on the features from index
    [curr_mm_idx] on. *)
Fixpoint mm_keys_loop (fs : list MultiModalFeatureSpec)
    (start_token_idx end_token_idx curr_mm_idx : Z) : list extra_key * Z :=
  match fs with
  | [] => ([], curr_mm_idx)
  | f :: fs =>
      let off := offset (mm_position f) in
      let len := length_ (mm_position f) in
      if bool_decide (off < end_token_idx) then
        if bool_decide (off + len ≤ start_token_idx) then
          mm_keys_loop fs start_token_idx end_token_idx (curr_mm_idx + 1)
        else
          let key := KMM (identifier f) (off - start_token_idx) in
          if bool_decide (off + len ≤ end_token_idx) then
            let '(keys, i) :=
              mm_keys_loop fs start_token_idx end_token_idx (curr_mm_idx + 1) in
            (key :: keys, i)
          else ([key], curr_mm_idx)
      else ([], curr_mm_idx)
  end.

Definition _gen_mm_extra_hash_keys (r : Request)
    (start_token_idx end_token_idx start_mm_idx : Z) : res (list extra_key * Z) :=
  match last (mm_features r) with
  | None => Ok ([], start_mm_idx)
  | Some f =>
      if bool_decide (offset (mm_position f) + length_ (mm_position f) ≤ start_token_idx)
      then Ok ([], start_mm_idx)
      else
        start_mm_idx ←
          (if bool_decide (start_mm_idx < 0) then
             py_assert (bool_decide (- start_mm_idx ≤ zlen (mm_features r)));;
             Ok (zlen (mm_features r) + start_mm_idx)
           else Ok start_mm_idx);
        Ok (mm_keys_loop (drop (Z.to_nat start_mm_idx) (mm_features r))
              start_token_idx end_token_idx start_mm_idx)
  end.

Definition _gen_lora_extra_hash_keys (r : Request) : list extra_key :=
  match lora_request r with
  | None => []
  | Some l => [KStr (lora_name l)]
  end.

(** A non-empty salt is used for the first block only. *)
Definition cache_salt_keys (r : Request) (start_token_idx : Z) : list extra_key :=
  match cache_salt r with
  | Some s => if bool_decide (start_token_idx = 0 ∧ s ≠ "") then [KStr s] else []
  | None => []
  end.

Section Hashing.
(** [caching_hash_fn] on the tuple [(parent, token_ids, extra_keys)], the
    global [NONE_HASH], and [hashlib.sha256(...).digest()]. *)
Context (hash_function : bytes * list Z * option (list extra_key) → bytes)
        (NONE_HASH : bytes)
        (sha256 : bytes → bytes).

(** The digest is memoised per block range on the request, which never
    changes its embeddings; the model computes it. *)
Definition _gen_prompt_embeds_extra_hash_keys (r : Request)
    (start_token_idx end_token_idx : Z) : list extra_key :=
  match prompt_embeds r with
  | None => []
  | Some e => [KBytes (sha256 (concat (py_slice e start_token_idx end_token_idx)))]
  end.

Definition generate_block_hash_extra_keys (r : Request)
    (start_token_idx end_token_idx start_mm_idx : Z)
    : res (option (list extra_key) * Z) :=
  '(mm_extra_keys, new_start_mm_idx) ←
    _gen_mm_extra_hash_keys r start_token_idx end_token_idx start_mm_idx;
  let extra_keys :=
    _gen_lora_extra_hash_keys r ++ mm_extra_keys ++
    cache_salt_keys r start_token_idx ++
    _gen_prompt_embeds_extra_hash_keys r start_token_idx end_token_idx in
  Ok (match extra_keys with [] => None | _ => Some extra_keys end, new_start_mm_idx).

Definition hash_block_tokens (parent_block_hash : option bytes)
    (curr_block_token_ids : list Z) (extra_keys : option (list extra_key)) : bytes :=
  let parent :=
    match parent_block_hash with
    | None | Some [] => NONE_HASH
    | Some h => h
    end in
  hash_function (parent, curr_block_token_ids, extra_keys).

(** The [while True] loop of [request_block_hasher]; the fuel counts blocks,
    and running out of it is [None]. *)
Fixpoint hasher_loop (fuel : nat) (block_size : Z) (r : Request)
    (start_token_idx curr_mm_idx : Z) (prev : option bytes)
    : option (res (list bytes)) :=
  let end_token_idx := start_token_idx + block_size in
  if bool_decide (num_tokens r < end_token_idx) then Some (Ok [])
  else
    match fuel with
    | O => None
    | S fuel =>
        match generate_block_hash_extra_keys r start_token_idx end_token_idx curr_mm_idx with
        | Raise e => Some (Raise e)
        | Ok (extra_keys, curr_mm_idx) =>
            let block_tokens := py_slice (all_token_ids r) start_token_idx end_token_idx in
            let block_hash := hash_block_tokens prev block_tokens extra_keys in
            rest ← hasher_loop fuel block_size r (start_token_idx + block_size)
                     curr_mm_idx (Some block_hash);
            Some (hs ← rest; Ok (block_hash :: hs))
        end
    end.

(** [get_request_block_hasher(block_size, hash_fn)(request)].  Every iteration
    consumes a block of at least one token, so the number of tokens is enough
    fuel ([request_block_hasher_total]). *)
Definition request_block_hasher (block_size : Z) (r : Request) : option (res (list bytes)) :=
  let start_token_idx := zlen (block_hashes r) * block_size in
  if bool_decide (num_tokens r < start_token_idx + block_size) then Some (Ok [])
  else
    let curr_mm_idx := if bool_decide (0 < start_token_idx) then -1 else 0 in
    hasher_loop (length (all_token_ids r)) block_size r start_token_idx curr_mm_idx
      (last (block_hashes r)).

(** The closure installed on requests; the [None] case does not arise
    ([request_block_hasher_total]). *)
Definition get_request_block_hasher (block_size : Z) (r : Request) : res (list bytes) :=
  default (Raise RuntimeError) (request_block_hasher block_size r).
End Hashing.

(** ** Regrouping hashes: [BlockHashListWithBlockSize] *)

(** [BlockHashList]: the plain list or the regrouping view of it. *)
Inductive BlockHashList : Set :=
  | PlainHashes (block_hashes : list bytes)
  | ScaledHashes (block_hashes : list bytes) (scale_factor : Z).

Definition BlockHashListWithBlockSize_init (block_hashes : list bytes)
    (hash_block_size target_block_size : Z) : res BlockHashList :=
  py_assert (bool_decide (target_block_size `mod` hash_block_size = 0));;
  Ok (ScaledHashes block_hashes (target_block_size / hash_block_size)).

Definition bhl_len (l : BlockHashList) : Z :=
  match l with
  | PlainHashes hs => zlen hs
  | ScaledHashes hs k => zlen hs / k
  end.

Definition _get_value_at (hs : list bytes) (scale_factor idx : Z) : bytes :=
  let base := idx * scale_factor in
  let end_ := base + scale_factor in
  concat (py_slice hs base end_).

(** [block_hashes[idx]]. *)
Definition bhl_get (l : BlockHashList) (idx : Z) : res bytes :=
  match l with
  | PlainHashes hs => py_nth hs idx
  | ScaledHashes hs k => Ok (_get_value_at hs k idx)
  end.

(** The elements in order ([__iter__]). *)
Definition bhl_iter (l : BlockHashList) : list bytes :=
  match l with
  | PlainHashes hs => hs
  | ScaledHashes hs k => _get_value_at hs k <$> zrange 0 (bhl_len l)
  end.

(** [block_hashes[start:]]. *)
Definition bhl_slice_from (l : BlockHashList) (start : Z) : list bytes :=
  match l with
  | PlainHashes hs => py_slice_from hs start
  | ScaledHashes hs k =>
      _get_value_at hs k <$> zrange (clamp_index (bhl_len l) start) (bhl_len l)
  end.

(** ** Properties of the packing *)

Lemma Z_of_byte_of_Z z : Z_of_byte (byte_of_Z z) = z `mod` 256.
Proof.
  unfold Z_of_byte, byte_of_Z. pose proof (Z.mod_pos_bound z 256 ltac:(lia)).
  destruct (Byte.of_N (Z.to_N (z `mod` 256))) as [b|] eqn:E; cbn [default].
  - apply Byte.to_of_N in E. rewrite E. lia.
  - apply Byte.of_N_None_iff in E. lia.
Qed.

Lemma length_be_bytes n z : length (be_bytes n z) = n.
Proof. revert z. induction n as [|n IH]; intros z; [done|]. rewrite /= length_app IH /=. lia. Qed.

Lemma int_from_be_bytes n z :
  0 ≤ z < 256 ^ Z.of_nat n → int_from_bytes (be_bytes n z) = z.
Proof.
  revert z. induction n as [|n IH]; intros z Hz.
  { simpl in *. unfold int_from_bytes. simpl. lia. }
  rewrite Nat2Z.inj_succ Z.pow_succ_r in Hz; [|lia].
  cbn [be_bytes]. unfold int_from_bytes. rewrite foldl_app. cbn [foldl].
  fold (int_from_bytes (be_bytes n (z / 256))).
  rewrite IH; [|split; [apply Z.div_pos; lia|apply Z.div_lt_upper_bound; lia]].
  rewrite Z_of_byte_of_Z. pose proof (Z.div_mod z 256). lia.
Qed.

Lemma slice_last {A} (l1 l2 : list A) k :
  zlen l2 = k → 0 < k →
  py_slice_to (l1 ++ l2) (- k) = l1 ∧ py_slice_from (l1 ++ l2) (- k) = l2.
Proof.
  intros Hk Hpos. unfold py_slice_to, py_slice_from, clamp_index, zlen in *.
  rewrite length_app bool_decide_true; [|lia].
  replace (Z.to_nat (Z.max 0 (- k + Z.of_nat (length l1 + length l2)))) with (length l1) by lia.
  by rewrite take_app_length drop_app_length.
Qed.

Definition valid_group_id (g : Z) : Prop := 0 ≤ g < 2 ^ 32.

Lemma make_block_hash_ok h g :
  valid_group_id g → make_block_hash_with_group_id h g = Ok (h ++ be_bytes 4 g).
Proof.
  intros Hg. unfold make_block_hash_with_group_id, int_to_bytes.
  by rewrite bool_decide_true.
Qed.

Lemma unpack_block_hash h g :
  valid_group_id g →
  get_block_hash (h ++ be_bytes 4 g) = h ∧ get_group_id (h ++ be_bytes 4 g) = g.
Proof.
  intros Hg. unfold get_block_hash, get_group_id.
  destruct (slice_last h (be_bytes 4 g) 4) as [H1 H2]; [by rewrite /zlen length_be_bytes|lia|].
  split; [exact H1|]. etrans; [exact (f_equal int_from_bytes H2)|]. by apply int_from_be_bytes.
Qed.

(** The packed key of a block; injective on valid group ids. *)
Definition block_key (h : bytes) (g : Z) : bytes := h ++ be_bytes 4 g.

Lemma block_key_inj h1 g1 h2 g2 :
  valid_group_id g1 → valid_group_id g2 →
  block_key h1 g1 = block_key h2 g2 → h1 = h2 ∧ g1 = g2.
Proof.
  intros H1 H2 E. destruct (unpack_block_hash h1 g1 H1) as [A1 B1].
  destruct (unpack_block_hash h2 g2 H2) as [A2 B2].
  unfold block_key in E. rewrite -E in A2 B2. split; congruence.
Qed.

(** ** The chained hash as a reference function *)

(** Prefix hashes of a list of blocks, each given by its tokens and extra keys. *)
Fixpoint chain_hashes (hash_function : bytes * list Z * option (list extra_key) → bytes)
    (NONE_HASH : bytes) (parent : option bytes)
    (blocks : list (list Z * option (list extra_key))) : list bytes :=
  match blocks with
  | [] => []
  | (toks, keys) :: blocks =>
      let h := hash_block_tokens hash_function NONE_HASH parent toks keys in
      h :: chain_hashes hash_function NONE_HASH (Some h) blocks
  end.

Section chain.
Context (hash_function : bytes * list Z * option (list extra_key) → bytes)
        (NONE_HASH : bytes).
#[local] Abbreviation chainh := (chain_hashes hash_function NONE_HASH).

Lemma length_chain_hashes p bs : length (chainh p bs) = length bs.
Proof. revert p. induction bs as [|[t k] bs IH]; intros p; [done|]. cbn. by rewrite IH. Qed.

Lemma chain_hashes_app p bs1 bs2 :
  chainh p (bs1 ++ bs2) =
  chainh p bs1 ++ chainh (match last (chainh p bs1) with Some h => Some h | None => p end) bs2.
Proof.
  revert p. induction bs1 as [|[t k] bs1 IH]; intros p; [done|].
  cbn [chain_hashes app]. rewrite IH last_cons.
  by destruct (last (chainh _ bs1)).
Qed.

(** Collision freedom of the hash function: what prefix caching relies on. *)
Context (hash_inj : ∀ x y, hash_function x = hash_function y → x = y)
        (hash_not_none : ∀ x, hash_function x ≠ NONE_HASH)
        (hash_nonempty : ∀ x, hash_function x ≠ []).

Lemma chain_last_some bs t k p :
  ∃ q, last (chainh p (bs ++ [(t, k)])) = Some (hash_function (q, t, k)) ∧
    q = match last (chainh p bs) with
        | Some h => h
        | None => match p with None | Some [] => NONE_HASH | Some h => h end
        end.
Proof.
  rewrite chain_hashes_app last_app. cbn. eexists; split; [reflexivity|].
  destruct (last (chainh p bs)) as [h|] eqn:E; [|done].
  assert (h ≠ []); [|by destruct h].
  destruct bs as [|[t' k'] bs _] using rev_ind; [done|].
  rewrite chain_hashes_app last_app in E. cbn in E.
  injection E as <-. apply hash_nonempty.
Qed.

(** Equal prefix hashes come from equal prefixes. *)
Lemma chain_hash_inj bs1 : ∀ bs2 h,
  last (chainh None bs1) = Some h → last (chainh None bs2) = Some h → bs1 = bs2.
Proof.
  induction bs1 as [|[t1 k1] bs1 IH] using rev_ind; intros bs2 h H1 H2; [done|].
  destruct bs2 as [|[t2 k2] bs2 _] using rev_ind; [done|].
  destruct (chain_last_some bs1 t1 k1 None) as (q1 & E1 & Q1).
  destruct (chain_last_some bs2 t2 k2 None) as (q2 & E2 & Q2).
  rewrite E1 in H1. rewrite E2 -H1 in H2. injection H2 as H2.
  apply hash_inj in H2. injection H2 as Hq -> ->. rewrite Q1 Q2 in Hq. clear E1 E2 Q1 Q2 H1.
  destruct (last (chainh None bs1)) as [h1|] eqn:L1, (last (chainh None bs2)) as [h2|] eqn:L2.
  - subst h2. by rewrite (IH bs2 h1).
  - exfalso. destruct bs1 as [|[t' k'] bs1 _] using rev_ind; [done|].
    destruct (chain_last_some bs1 t' k' None) as (q & E & _). rewrite E in L1.
    injection L1 as <-. by apply eq_sym, hash_not_none in Hq.
  - exfalso. destruct bs2 as [|[t' k'] bs2 _] using rev_ind; [done|].
    destruct (chain_last_some bs2 t' k' None) as (q & E & _). rewrite E in L2.
    injection L2 as <-. by apply hash_not_none in Hq.
  - assert (∀ bs, last (chainh None bs) = None → bs = []) as Hnil.
    { intros bs Hl. destruct bs; [done|]. apply last_None in Hl. by destruct p. }
    by rewrite (Hnil bs1 L1) (Hnil bs2 L2).
Qed.
End chain.

(** ** What the hasher computes *)

Section hasher.
Context (hash_function : bytes * list Z * option (list extra_key) → bytes)
        (NONE_HASH : bytes) (sha256 : bytes → bytes).
#[local] Abbreviation chainh := (chain_hashes hash_function NONE_HASH).
#[local] Abbreviation gen_keys := (generate_block_hash_extra_keys sha256).

(** The content (tokens, extra keys) of [n] blocks from token [start] on. *)
Fixpoint block_list (n : nat) (bs : Z) (r : Request) (start idx : Z)
    : list (list Z * option (list extra_key)) :=
  match n with
  | O => []
  | S n =>
      match gen_keys r start (start + bs) idx with
      | Ok (ks, idx') =>
          (py_slice (all_token_ids r) start (start + bs), ks)
            :: block_list n bs r (start + bs) idx'
      | Raise _ => []
      end
  end.

Lemma mm_keys_loop_idx fs a b i : i ≤ (mm_keys_loop fs a b i).2.
Proof.
  revert i. induction fs as [|f fs IH]; intros i; cbn; [lia|].
  case_bool_decide; [|cbn; lia]. case_bool_decide; [specialize (IH (i + 1)); lia|].
  case_bool_decide; [|cbn; lia].
  specialize (IH (i + 1)). destruct (mm_keys_loop fs a b (i + 1)). cbn in *. lia.
Qed.

(** The key generator never raises on the indices the hasher passes. *)
Lemma gen_keys_ok r a b i :
  -1 ≤ i → ∃ ks j, gen_keys r a b i = Ok (ks, j) ∧ -1 ≤ j.
Proof.
  intros Hi. unfold generate_block_hash_extra_keys, _gen_mm_extra_hash_keys.
  destruct (last (mm_features r)) as [f|] eqn:El; [|cbn; eauto].
  case_bool_decide; [cbn; eauto|].
  assert (1 ≤ zlen (mm_features r)).
  { destruct (mm_features r); [done|]. rewrite /zlen /=. lia. }
  case_bool_decide as Hneg.
  - rewrite bool_decide_true; [|lia]. cbn -[mm_keys_loop].
    pose proof (mm_keys_loop_idx (drop (Z.to_nat (zlen (mm_features r) + i)) (mm_features r))
      a b (zlen (mm_features r) + i)) as Hl.
    destruct (mm_keys_loop _ _ _ _) as [ks j]. cbn in *. eexists _, _. split; [done|lia].
  - cbn -[mm_keys_loop].
    pose proof (mm_keys_loop_idx (drop (Z.to_nat i) (mm_features r)) a b i) as Hl.
    destruct (mm_keys_loop _ _ _ _) as [ks j]. cbn in *. eexists _, _. split; [done|lia].
Qed.

Lemma hasher_loop_blocks n : ∀ fuel bs r start idx prev,
  0 < bs → -1 ≤ idx → (n ≤ fuel)%nat →
  start + Z.of_nat n * bs ≤ num_tokens r < start + Z.of_nat n * bs + bs →
  hasher_loop hash_function NONE_HASH sha256 fuel bs r start idx prev =
    Some (Ok (chainh prev (block_list n bs r start idx))) ∧
  length (block_list n bs r start idx) = n.
Proof.
  induction n as [|n IH]; intros fuel bs r start idx prev Hbs Hidx Hf Hn.
  { destruct fuel; cbn; rewrite bool_decide_true //; lia. }
  destruct fuel as [|fuel]; [lia|]. cbn [hasher_loop block_list].
  rewrite bool_decide_false; [|nia].
  destruct (gen_keys_ok r start (start + bs) idx Hidx) as (ks & j & -> & Hj).
  destruct (IH fuel bs r (start + bs) j
    (Some (hash_block_tokens hash_function NONE_HASH prev
      (py_slice (all_token_ids r) start (start + bs)) ks))) as [-> HL]; [done..|lia|lia|].
  cbn. by rewrite HL.
Qed.

Lemma block_list_tokens n : ∀ bs r start idx,
  -1 ≤ idx →
  (block_list n bs r start idx).*1 =
  (λ j : nat, py_slice (all_token_ids r) (start + Z.of_nat j * bs)
            (start + Z.of_nat j * bs + bs)) <$> seq 0 n.
Proof.
  induction n as [|n IH]; intros bs r start idx Hidx; [done|].
  cbn [block_list]. destruct (gen_keys_ok r start (start + bs) idx Hidx) as (ks & j & -> & Hj).
  rewrite fmap_cons IH //. rewrite -cons_seq fmap_cons. f_equal.
  { cbn. f_equal; lia. }
  rewrite -fmap_S_seq -list_fmap_compose. apply list_fmap_ext. intros ? i _. cbn.
  f_equal; lia.
Qed.

(** Enough fuel, and no exception: the hasher returns one hash per new full block. *)
Lemma request_block_hasher_total bs r :
  0 < bs → zlen (block_hashes r) * bs ≤ num_tokens r →
  ∃ hs, request_block_hasher hash_function NONE_HASH sha256 bs r = Some (Ok hs) ∧
    zlen (block_hashes r) + zlen hs = num_tokens r / bs.
Proof.
  intros Hbs Hle. unfold request_block_hasher.
  pose proof (Z.div_mod (num_tokens r) bs ltac:(lia)).
  pose proof (Z.mod_pos_bound (num_tokens r) bs Hbs).
  assert (0 ≤ zlen (block_hashes r)) by (rewrite /zlen; lia).
  case_bool_decide as Hc.
  { exists []. split; [done|]. rewrite {2}/zlen /= Z.add_0_r.
    apply Z.div_unique with (r := num_tokens r - zlen (block_hashes r) * bs); lia. }
  assert (zlen (block_hashes r) ≤ num_tokens r / bs) by (apply Z.div_le_lower_bound; lia).
  set (n := Z.to_nat (num_tokens r / bs - zlen (block_hashes r))).
  assert (zlen (block_hashes r) * bs + Z.of_nat n * bs = num_tokens r / bs * bs) as Hn.
  { unfold n. rewrite Z2Nat.id; [|lia]. ring. }
  destruct (hasher_loop_blocks n (length (all_token_ids r)) bs r
    (zlen (block_hashes r) * bs) (if bool_decide (0 < zlen (block_hashes r) * bs) then -1 else 0)
    (last (block_hashes r))) as [-> HL]; [done|case_bool_decide; lia| |lia|].
  { assert (Z.of_nat n ≤ Z.of_nat (length (all_token_ids r))); [|lia].
    unfold num_tokens, zlen in *. nia. }
  eexists; split; [done|]. rewrite {2}/zlen length_chain_hashes HL /n. lia.
Qed.

Lemma py_slice_in {A} (l : list A) (a b : Z) :
  0 ≤ a ≤ b → b ≤ zlen l → py_slice l a b = take (Z.to_nat (b - a)) (drop (Z.to_nat a) l).
Proof.
  intros Hab Hl. unfold py_slice, clamp_index. rewrite !bool_decide_false; [|lia..].
  by rewrite !Z.min_l; [|lia..].
Qed.

Lemma concat_slices (l : list Z) bs n :
  0 < bs → Z.of_nat n * bs ≤ zlen l →
  concat ((λ j : nat, py_slice l (0 + Z.of_nat j * bs) (0 + Z.of_nat j * bs + bs)) <$> seq 0 n) =
  take (Z.to_nat (Z.of_nat n * bs)) l.
Proof.
  intros Hbs. induction n as [|n IH]; intros Hn; [done|].
  rewrite seq_S fmap_app concat_app IH; [|lia]. cbn [fmap list_fmap concat].
  rewrite app_nil_r (py_slice_in l); [|lia..].
  replace (0 + Z.of_nat (0 + n) * bs + bs - (0 + Z.of_nat (0 + n) * bs)) with bs by lia.
  replace (0 + Z.of_nat (0 + n) * bs) with (Z.of_nat n * bs) by lia.
  rewrite take_take_drop. f_equal. lia.
Qed.

Lemma block_list_take m n bs r start idx :
  (m ≤ n)%nat → take m (block_list n bs r start idx) = block_list m bs r start idx.
Proof.
  revert n start idx. induction m as [|m IH]; intros n start idx Hm; [done|].
  destruct n as [|n]; [lia|]. cbn [block_list].
  destruct (gen_keys r start (start + bs) idx) as [[ks j]|e]; [|done].
  cbn [take]. rewrite IH //. lia.
Qed.

Lemma chain_hashes_lookup p bl i h :
  chainh p bl !! i = Some h → last (chainh p (take (S i) bl)) = Some h.
Proof.
  intros Hi. pose proof (lookup_lt_Some _ _ _ Hi) as Hlt. rewrite length_chain_hashes in Hlt.
  rewrite -(take_drop (S i) bl) chain_hashes_app lookup_app_l in Hi; last first.
  { rewrite length_chain_hashes length_take. lia. }
  rewrite last_lookup length_chain_hashes length_take.
  by replace (Nat.pred (S i `min` length bl)) with i by lia.
Qed.

(** The first [i + 1] blocks of a freshly created request. *)
Definition prefix_blocks (bs : Z) (r : Request) (i : nat) := block_list (S i) bs r 0 0.

Lemma fresh_hasher_lookup bs r hs i h :
  0 < bs → block_hashes r = [] →
  request_block_hasher hash_function NONE_HASH sha256 bs r = Some (Ok hs) →
  hs !! i = Some h →
  last (chainh None (prefix_blocks bs r i)) = Some h ∧ Z.of_nat (S i) * bs ≤ num_tokens r.
Proof.
  intros Hbs Hbh Hr Hi. unfold request_block_hasher in Hr. rewrite Hbh in Hr.
  replace (zlen [] * bs) with 0 in Hr by done. rewrite (bool_decide_false (0 < 0)) in Hr; [|lia].
  destruct (decide (num_tokens r < 0 + bs)) as [Hlt|Hge].
  { rewrite bool_decide_true in Hr; [|done]. by simplify_eq. }
  rewrite bool_decide_false in Hr; [|done].
  set (n := Z.to_nat (num_tokens r / bs)).
  pose proof (Z.div_mod (num_tokens r) bs ltac:(lia)).
  pose proof (Z.mod_pos_bound (num_tokens r) bs Hbs).
  assert (0 ≤ num_tokens r / bs) by (apply Z.div_pos; rewrite /num_tokens /zlen; lia).
  assert (Z.of_nat n = num_tokens r / bs) as Hn by (unfold n; lia).
  destruct (hasher_loop_blocks n (length (all_token_ids r)) bs r 0 0 None) as [E HL]; [lia..| |nia|].
  { assert (Z.of_nat n ≤ Z.of_nat (length (all_token_ids r))); [|lia].
    unfold num_tokens, zlen in *. nia. }
  rewrite E in Hr. injection Hr as <-.
  pose proof (lookup_lt_Some _ _ _ Hi) as Hin. rewrite length_chain_hashes HL in Hin.
  apply chain_hashes_lookup in Hi. rewrite block_list_take in Hi; [|lia].
  split; [done|]. nia.
Qed.

Lemma prefix_blocks_tokens bs r i :
  0 < bs → Z.of_nat (S i) * bs ≤ num_tokens r →
  concat (prefix_blocks bs r i).*1 = take (Z.to_nat (Z.of_nat (S i) * bs)) (all_token_ids r).
Proof.
  intros Hbs Hn. unfold prefix_blocks. rewrite block_list_tokens; [|lia].
  by apply concat_slices.
Qed.

(** *** Requests without multi-modal inputs *)

(** The extra keys of a block of such a request depend on its range only. *)
Definition text_keys (r : Request) (a b : Z) : option (list extra_key) :=
  match _gen_lora_extra_hash_keys r ++ cache_salt_keys r a ++
        _gen_prompt_embeds_extra_hash_keys sha256 r a b with
  | [] => None
  | ks => Some ks
  end.

Lemma gen_keys_text r a b i :
  mm_features r = [] → gen_keys r a b i = Ok (text_keys r a b, i).
Proof.
  intros E. unfold generate_block_hash_extra_keys, _gen_mm_extra_hash_keys, text_keys.
  rewrite E. cbn. by destruct (_ ++ _).
Qed.

Lemma block_list_text_app n m bs r start idx :
  mm_features r = [] →
  block_list (n + m) bs r start idx =
  block_list n bs r start idx ++ block_list m bs r (start + Z.of_nat n * bs) idx.
Proof.
  intros E. revert start. induction n as [|n IH]; intros start.
  { cbn [block_list app Nat.add]. f_equal. lia. }
  cbn [block_list app Nat.add]. rewrite gen_keys_text //= IH. do 3 f_equal. lia.
Qed.

Lemma block_list_text_idx n bs r start i j :
  mm_features r = [] → block_list n bs r start i = block_list n bs r start j.
Proof.
  intros E. revert start. induction n as [|n IH]; intros start; [done|].
  cbn [block_list]. rewrite !gen_keys_text //. by rewrite IH.
Qed.

(** Two requests that agree on everything the hash of a text block reads,
    the second with more tokens. *)
Definition extends (r r' : Request) : Prop :=
  lora_request r' = lora_request r ∧ cache_salt r' = cache_salt r ∧
  prompt_embeds r' = prompt_embeds r ∧ mm_features r' = mm_features r ∧
  ∃ ts, all_token_ids r' = all_token_ids r ++ ts.

Lemma block_list_extends n bs r r' idx : ∀ start,
  0 < bs → 0 ≤ start → mm_features r = [] → extends r r' →
  start + Z.of_nat n * bs ≤ num_tokens r →
  block_list n bs r' start idx = block_list n bs r start idx.
Proof.
  induction n as [|n IH]; intros start Hbs Hs Hmm He Hn; [done|].
  pose proof He as (E1 & E2 & E3 & E4 & ts & E5).
  cbn [block_list]. rewrite !gen_keys_text; [|congruence..].
  rewrite IH //; [|lia|lia]. do 2 f_equal.
  - rewrite !py_slice_in; [|unfold num_tokens in *; lia..|];
      [|rewrite E5 /zlen length_app; unfold num_tokens, zlen in *; lia].
    rewrite E5 drop_app_le; [|unfold num_tokens, zlen in *; lia].
    rewrite take_app_le //. rewrite length_drop. unfold num_tokens, zlen in *. lia.
  - unfold text_keys, _gen_lora_extra_hash_keys, cache_salt_keys,
      _gen_prompt_embeds_extra_hash_keys. by rewrite E1 E2 E3.
Qed.

(** The hashes of the request are those of its full blocks. *)
Definition hashed (bs : Z) (r : Request) : Prop :=
  block_hashes r = chainh None (block_list (Z.to_nat (num_tokens r / bs)) bs r 0 0).

Lemma update_block_hashes_spec bs r k :
  0 < bs → mm_features r = [] → Z.of_nat k * bs ≤ num_tokens r →
  block_hashes r = chainh None (block_list k bs r 0 0) →
  ∃ hs, get_request_block_hasher hash_function NONE_HASH sha256 bs r = Ok hs ∧
    block_hashes r ++ hs =
    chainh None (block_list (Z.to_nat (num_tokens r / bs)) bs r 0 0).
Proof.
  intros Hbs Hmm Hk Hh.
  pose proof (Z.div_mod (num_tokens r) bs ltac:(lia)).
  pose proof (Z.mod_pos_bound (num_tokens r) bs Hbs).
  assert (Z.of_nat k ≤ num_tokens r / bs) by (apply Z.div_le_lower_bound; lia).
  set (n := (Z.to_nat (num_tokens r / bs) - k)%nat).
  assert (Z.to_nat (num_tokens r / bs) = k + n)%nat as Hkn by (unfold n; lia).
  assert (Z.of_nat k * bs + Z.of_nat n * bs = num_tokens r / bs * bs) as Hkb.
  { unfold n. rewrite Nat2Z.inj_sub; [|lia]. rewrite Z2Nat.id; [|lia]. ring. }
  assert (length (block_list k bs r 0 0) = k) as HL.
  { rewrite -(length_fmap fst) block_list_tokens; [|lia]. by rewrite length_fmap length_seq. }
  assert (zlen (block_hashes r) = Z.of_nat k) as Hz.
  { by rewrite Hh /zlen length_chain_hashes HL. }
  unfold get_request_block_hasher, request_block_hasher. rewrite Hz.
  case_bool_decide as Hc.
  { assert (n = 0%nat) as Hn0 by nia. exists []. split; [done|].
    by rewrite app_nil_r Hkn Hn0 Nat.add_0_r. }
  destruct (hasher_loop_blocks n (length (all_token_ids r)) bs r (Z.of_nat k * bs)
    (if bool_decide (0 < Z.of_nat k * bs) then -1 else 0) (last (block_hashes r)))
    as [-> _]; [done|case_bool_decide; lia| |lia|].
  { assert (Z.of_nat n ≤ Z.of_nat (length (all_token_ids r))); [|lia].
    unfold num_tokens, zlen in *. nia. }
  eexists; split; [done|]. rewrite Hkn block_list_text_app // chain_hashes_app -Hh.
  f_equal. f_equal; [by destruct (last (block_hashes r))|].
  by apply block_list_text_idx.
Qed.

Lemma hashed_append bs now r ts :
  0 < bs → mm_features r = [] → hashed bs r →
  ∃ r', append_output_token_ids
          (Some (get_request_block_hasher hash_function NONE_HASH sha256 bs)) now r ts = Ok r' ∧
    hashed bs r' ∧ all_token_ids r' = all_token_ids r ++ ts ∧
    output_token_ids r' = output_token_ids r ++ ts.
Proof.
  intros Hbs Hmm Hh. unfold append_output_token_ids.
  set (r3 := set_taper_last_token_time _ now).
  assert (extends r r3 ∧ block_hashes r3 = block_hashes r ∧
          all_token_ids r3 = all_token_ids r ++ ts ∧
          output_token_ids r3 = output_token_ids r ++ ts) as (He & Hb & Ha & Ho).
  { unfold r3, update_prob_short. case_match; repeat split; eauto. }
  clearbody r3.
  assert (0 ≤ num_tokens r / bs) by (apply Z.div_pos; rewrite /num_tokens /zlen; lia).
  pose proof (Z.div_mod (num_tokens r) bs ltac:(lia)).
  pose proof (Z.mod_pos_bound (num_tokens r) bs Hbs).
  assert (num_tokens r ≤ num_tokens r3).
  { rewrite /num_tokens Ha /zlen length_app. lia. }
  destruct (update_block_hashes_spec bs r3 (Z.to_nat (num_tokens r / bs)))
    as (hs & E & Heq); [done| |nia| |].
  { destruct He as (_ & _ & _ & -> & _). done. }
  { rewrite Hb Hh. symmetry. f_equal. apply block_list_extends; [done..|nia]. }
  cbn [update_block_hashes]. rewrite E. eexists; split; [done|].
  split; [|by split]. unfold hashed. cbn [block_hashes set_block_hashes].
  rewrite Heq. f_equal. symmetry. apply block_list_extends; [done|done| | |].
  - by destruct He as (_ & _ & _ & -> & _).
  - repeat split. exists []. by rewrite app_nil_r.
  - cbn. assert (0 ≤ num_tokens r3) by (rewrite /num_tokens /zlen; lia).
    pose proof (Z.mul_div_le (num_tokens r3) bs Hbs).
    rewrite Z2Nat.id; [lia|apply Z.div_pos; lia].
Qed.
End hasher.

(** ** Main properties *)

(** C8: the block hashes of new requests identify their prefixes.  If the hash function
    has no collisions and never produces the seed [NONE_HASH] or the empty string, then
    two freshly created requests (all hashes computed at once) whose [i]-th block hashes
    are equal agree on all tokens up to the end of block [i] and on the extra keys of
    every block up to it.  What the extra keys tell apart is not part of this, nor are
    the hashes that a session update adds ([lora_name_and_salt_collide],
    [session_update_ignores_earlier_mm_input]). *)
Theorem prefix_hash_sound
    (hash_function : bytes * list Z * option (list extra_key) → bytes)
    (NONE_HASH : bytes) (sha256 : bytes → bytes)
    (bs : Z) (r1 r2 : Request) (hs1 hs2 : list bytes) (i : nat) (h : bytes) :
  (∀ x y, hash_function x = hash_function y → x = y) →
  (∀ x, hash_function x ≠ NONE_HASH) → (∀ x, hash_function x ≠ []) →
  0 < bs → block_hashes r1 = [] → block_hashes r2 = [] →
  request_block_hasher hash_function NONE_HASH sha256 bs r1 = Some (Ok hs1) →
  request_block_hasher hash_function NONE_HASH sha256 bs r2 = Some (Ok hs2) →
  hs1 !! i = Some h → hs2 !! i = Some h →
  take (Z.to_nat (Z.of_nat (S i) * bs)) (all_token_ids r1) =
    take (Z.to_nat (Z.of_nat (S i) * bs)) (all_token_ids r2) ∧
  prefix_blocks sha256 bs r1 i = prefix_blocks sha256 bs r2 i.
Proof.
  intros Hinj Hnone Hne Hbs B1 B2 H1 H2 I1 I2.
  destruct (fresh_hasher_lookup _ _ _ _ _ _ _ _ Hbs B1 H1 I1) as [L1 N1].
  destruct (fresh_hasher_lookup _ _ _ _ _ _ _ _ Hbs B2 H2 I2) as [L2 N2].
  assert (prefix_blocks sha256 bs r1 i = prefix_blocks sha256 bs r2 i) as E.
  { exact (chain_hash_inj hash_function NONE_HASH Hinj Hnone Hne _ _ h L1 L2). }
  split; [|done]. rewrite -!(prefix_blocks_tokens sha256) //. by rewrite E.
Qed.

(** [get_block_hash] and [get_group_id] recover what
    [make_block_hash_with_group_id] packed, for every group id of four bytes;
    a larger or negative group id raises. *)
Theorem block_hash_pack_roundtrip (h : bytes) (g : Z) :
  match make_block_hash_with_group_id h g with
  | Ok key => valid_group_id g ∧ get_block_hash key = h ∧ get_group_id key = g
  | Raise e => ¬ valid_group_id g ∧ e = OverflowError
  end.
Proof.
  destruct (decide (0 ≤ g < 2 ^ 32)) as [Hg|Hg].
  - rewrite make_block_hash_ok //. split; [done|]. by apply unpack_block_hash.
  - unfold make_block_hash_with_group_id, int_to_bytes.
    rewrite bool_decide_false; [done|]. done.
Qed.

(** C14: for a request without multi-modal inputs, appending output tokens
    keeps [block_hashes] equal to the chained hashes of all full blocks
    computed from scratch; the update returns and appends exactly the tokens. *)
Theorem append_keeps_block_hashes
    (hash_function : bytes * list Z * option (list extra_key) → bytes)
    (NONE_HASH : bytes) (sha256 : bytes → bytes) (bs : Z) now (r : Request) (ts : list Z) :
  0 < bs → mm_features r = [] → hashed hash_function NONE_HASH sha256 bs r →
  ∃ r', append_output_token_ids
          (Some (get_request_block_hasher hash_function NONE_HASH sha256 bs)) now r ts = Ok r' ∧
    hashed hash_function NONE_HASH sha256 bs r' ∧
    all_token_ids r' = all_token_ids r ++ ts ∧
    output_token_ids r' = output_token_ids r ++ ts.
Proof. apply hashed_append. Qed.

(** ** Concrete instances *)

Definition sample_request (lora : option LoRARequest) (salt : option string)
    (mm : list MultiModalFeatureSpec) (toks : list Z) (hs : list bytes) : Request :=
  mkRequest "r" None 0 0 None None lora false (float_of_Z 0) WAITING None 16 (Some toks) None
    (zlen toks) [] toks 0 false [] 0 salt mm false 0 (float_of_Z 0) (float_of_Z 0) hs false false.

#[export] Program Instance extra_key_countable : Countable extra_key :=
  inj_countable'
    (λ k, match k with
          | KStr s => inl s | KMM s z => inr (inl (s, z)) | KBytes b => inr (inr b) end)
    (λ k, match k with
          | inl s => KStr s | inr (inl (s, z)) => KMM s z | inr (inr b) => KBytes b end) _.
Next Obligation. by intros []. Qed.

Fixpoint pos_bytes (p : positive) : bytes :=
  match p with
  | xH => [Byte.x01]
  | xO p => Byte.x00 :: pos_bytes p
  | xI p => Byte.x01 :: pos_bytes p
  end.

Lemma pos_bytes_inj p q : pos_bytes p = pos_bytes q → p = q.
Proof.
  assert (∀ p, pos_bytes p ≠ []) as Hne by (by intros []).
  revert q. induction p as [p IH|p IH|]; intros [q|q|] E; cbn in E; simplify_eq.
  - by rewrite (IH q).
  - by destruct (Hne p).
  - by rewrite (IH q).
  - by destruct (Hne q).
  - done.
Qed.

(** A collision-free hash function, for the witnesses. *)
Definition sample_hash (x : bytes * list Z * option (list extra_key)) : bytes :=
  Byte.x02 :: pos_bytes (encode x).
Definition sample_none : bytes := [Byte.x03].
Definition sample_sha (b : bytes) : bytes := b.

Lemma sample_hash_inj x y : sample_hash x = sample_hash y → x = y.
Proof. intros [= E%pos_bytes_inj]. by apply (inj encode). Qed.

Lemma prefix_hash_sound_witness :
  let r1 := sample_request None None [] [1; 2; 3; 4; 5; 6] [] in
  let r2 := sample_request None None [] [1; 2; 3; 4; 7] [] in
  take 4 (all_token_ids r1) = take 4 (all_token_ids r2) ∧
  prefix_blocks sample_sha 2 r1 1 = prefix_blocks sample_sha 2 r2 1.
Proof.
  refine (prefix_hash_sound sample_hash sample_none sample_sha 2
    (sample_request None None [] [1; 2; 3; 4; 5; 6] [])
    (sample_request None None [] [1; 2; 3; 4; 7] []) _ _ 1 _
    sample_hash_inj _ _ _ _ _ _ _ _ _); [..|vm_compute; reflexivity|vm_compute; reflexivity|
    vm_compute; reflexivity|vm_compute; reflexivity]; [done|done|lia|done|done].
Defined.

Lemma append_keeps_block_hashes_witness :
  ∃ r', append_output_token_ids
          (Some (get_request_block_hasher sample_hash sample_none sample_sha 2)) (float_of_Z 1)
          (sample_request None None [] [1; 2; 3] [sample_hash (sample_none, [1; 2], None)])
          [4; 5] = Ok r' ∧
    hashed sample_hash sample_none sample_sha 2 r' ∧
    all_token_ids r' = [1; 2; 3; 4; 5] ∧ output_token_ids r' = [4; 5].
Proof.
  apply (append_keeps_block_hashes sample_hash sample_none sample_sha 2 (float_of_Z 1)
    (sample_request None None [] [1; 2; 3] [sample_hash (sample_none, [1; 2], None)]) [4; 5]);
    [lia|done|vm_compute; reflexivity].
Defined.

(** A LoRA name and a cache salt are both plain strings in the tuple of
    extra keys, so the first block of a request for the base model with salt
    [s] has the same extra keys, hence the same hash, as the first block of a
    request for the LoRA adapter named [s] with the same tokens. *)
Theorem lora_name_and_salt_collide
    (hash_function : bytes * list Z * option (list extra_key) → bytes)
    (NONE_HASH : bytes) (sha256 : bytes → bytes) (s : string) (lora_id t1 t2 : Z) :
  let base := sample_request None (Some s) [] [t1; t2] [] in
  let lora := sample_request (Some (mkLoRA s lora_id)) None [] [t1; t2] [] in
  s ≠ "" →
  request_block_hasher hash_function NONE_HASH sha256 2 base =
  request_block_hasher hash_function NONE_HASH sha256 2 lora ∧
  lora_request base ≠ lora_request lora.
Proof.
  intros base lora Hs. split; [|done].
  destruct s as [|c s]; [done|]. reflexivity.
Qed.

Lemma lora_name_and_salt_collide_witness :
  request_block_hasher sample_hash sample_none sample_sha 2
    (sample_request None (Some "sql-adapter") [] [1; 2] []) =
  request_block_hasher sample_hash sample_none sample_sha 2
    (sample_request (Some (mkLoRA "sql-adapter" 1)) None [] [1; 2] []) ∧
  None ≠ Some (mkLoRA "sql-adapter" 1).
Proof.
  apply (lora_name_and_salt_collide sample_hash sample_none sample_sha "sql-adapter" 1 1 2).
  done.
Defined.

(** When a request that already has block hashes gains several
    multi-modal inputs at once (a streaming session update), the hasher starts
    at the last input only: the hash of a block covering an earlier new input
    does not depend on that input's identifier. *)
Theorem session_update_ignores_earlier_mm_input
    (hash_function : bytes * list Z * option (list extra_key) → bytes)
    (NONE_HASH : bytes) (sha256 : bytes → bytes) (a a' b : string) (h0 : bytes) (toks : list Z) :
  let session x := sample_request None None
    [mkMMFeature x (mkPlaceholder 2 2 None); mkMMFeature b (mkPlaceholder 4 2 None)]
    toks [h0] in
  length toks = 6%nat →
  request_block_hasher hash_function NONE_HASH sha256 2 (session a) =
  request_block_hasher hash_function NONE_HASH sha256 2 (session a').
Proof.
  intros session Hl. do 6 (destruct toks as [|? toks]; [done|]). destruct toks; [|done].
  reflexivity.
Qed.

Lemma session_update_ignores_earlier_mm_input_witness :
  let session x := sample_request None None
    [mkMMFeature x (mkPlaceholder 2 2 None); mkMMFeature "img-b" (mkPlaceholder 4 2 None)]
    [1; 2; 9; 9; 9; 9] [[Byte.x00]] in
  request_block_hasher sample_hash sample_none sample_sha 2 (session "cat") =
  request_block_hasher sample_hash sample_none sample_sha 2 (session "dog").
Proof.
  apply (session_update_ignores_earlier_mm_input sample_hash sample_none sample_sha
    "cat" "dog" "img-b" [Byte.x00] [1; 2; 9; 9; 9; 9]).
  reflexivity.
Defined.
