(* ===== verification/BlockPool.v ===== *)
(** * The block pool of [vllm/v1/core/block_pool.py]

    [BlockHashToBlockMap] and [BlockPool]: allocation, reference counts, prefix
    cache entries and eviction of the KV cache blocks.  The pool owns the block
    objects, which live in its free queue's record ([FreeQueue.FreeQ]).  The
    theorems establish the pool invariant [PoolInv] (the free queue holds
    exactly the blocks with reference count zero except the null block, and the
    cache maps a key to a block exactly when the block carries that key) and
    the effect of each operation on counts, hashes and the free list.  The
    optional metrics collector is absent ([metrics_collector = None]). *)

From S2P Require Import Prelude PyFloat Request FreeQueue BlockHash.

(** What the pool takes from its environment: [hashlib.sha256] and the
    setting [VLLM_KV_EVENTS_USE_INT_BLOCK_HASHES]. *)
Class KVEnv := {
  env_sha256 : bytes → bytes;
  env_use_int_hashes : bool
}.

(** ** [BlockHashToBlockMap] *)

(** The value of a key: one block, or a dict from block id to block in
    insertion order. *)
Inductive cache_entry :=
  | Single (block : block_ref)
  | Multi (blocks : list (Z * block_ref)).

Abbreviation BlockHashToBlockMap := (gmap bytes cache_entry).

(** [d[k] = v] on a dict kept in insertion order. *)
Fixpoint dict_set {V} (d : list (Z * V)) (k : Z) (v : V) : list (Z * V) :=
  match d with
  | [] => [(k, v)]
  | (k', v') :: d =>
      if bool_decide (k' = k) then (k', v) :: d else (k', v') :: dict_set d k v
  end.

(** [d.get(k)] and [del d[k]]. *)
Fixpoint dict_get {V} (d : list (Z * V)) (k : Z) : option V :=
  match d with
  | [] => None
  | (k', v) :: d => if bool_decide (k' = k) then Some v else dict_get d k
  end.
Definition dict_del {V} (d : list (Z * V)) (k : Z) : list (Z * V) :=
  filter (λ kv, kv.1 ≠ k) d.

Definition get_one_block (c : BlockHashToBlockMap) (key : bytes)
    : res (option block_ref) :=
  match c !! key with
  | None => Ok None
  | Some (Single b) => Ok (Some b)
  | Some (Multi d) =>
      match d with [] => Raise StopIteration | (_, b) :: _ => Ok (Some b) end
  end.

(** [insert(key, block)]; the ids are those of the old and the new block. *)
Definition cache_insert (id_of : block_ref → Z) (c : BlockHashToBlockMap) (key : bytes)
    (block : block_ref) : BlockHashToBlockMap :=
  match c !! key with
  | None => <[key := Single block]> c
  | Some (Single b) =>
      <[key := Multi (dict_set [(id_of b, b)] (id_of block) block)]> c
  | Some (Multi d) => <[key := Multi (dict_set d (id_of block) block)]> c
  end.

Definition cache_pop (id_of : block_ref → Z) (c : BlockHashToBlockMap) (key : bytes)
    (bid : Z) : BlockHashToBlockMap * option block_ref :=
  match c !! key with
  | None => (c, None)
  | Some (Single b) =>
      if bool_decide (id_of b = bid) then (delete key c, Some b) else (c, None)
  | Some (Multi d) =>
      let block := dict_get d bid in
      let d' := dict_del d bid in
      (match d' with [] => delete key c | _ => <[key := Multi d']> c end, block)
  end.

(** ** [KVCacheEvent] *)

Inductive KVCacheEvent :=
  | BlockStored (block_hashes : list ExternalBlockHash)
      (parent_block_hash : option ExternalBlockHash) (token_ids : list Z)
      (block_size : Z) (lora_id : option Z) (lora_name : option string)
      (extra_keys : option (list (option (list extra_key)))) (group_idx : Z)
  | BlockRemoved (block_hashes : list ExternalBlockHash) (group_idx : Z)
  | AllBlocksCleared.

(** ** [BlockPool] *)

Record BlockPool := mkPool {
  num_gpu_blocks : Z;
  enable_caching : bool;
  hash_block_size : Z;
  free_block_queue : FreeQ;
  cached_block_hash_to_block : BlockHashToBlockMap;
  null_block : block_ref;
  enable_kv_cache_events : bool;
  kv_event_queue : list KVCacheEvent
}.

Definition set_queue (p : BlockPool) (q : FreeQ) : BlockPool :=
  mkPool (num_gpu_blocks p) (enable_caching p) (hash_block_size p) q
    (cached_block_hash_to_block p) (null_block p) (enable_kv_cache_events p)
    (kv_event_queue p).
Definition set_cache (p : BlockPool) (c : BlockHashToBlockMap) : BlockPool :=
  mkPool (num_gpu_blocks p) (enable_caching p) (hash_block_size p) (free_block_queue p)
    c (null_block p) (enable_kv_cache_events p) (kv_event_queue p).
Definition set_events (p : BlockPool) (e : list KVCacheEvent) : BlockPool :=
  mkPool (num_gpu_blocks p) (enable_caching p) (hash_block_size p) (free_block_queue p)
    (cached_block_hash_to_block p) (null_block p) (enable_kv_cache_events p) e.

(** The object a reference denotes.  Every reference in the program denotes an
    object of the pool; the default is never used. *)
Definition blk (p : BlockPool) (r : block_ref) : KVCacheBlock :=
  default (new_block (-1)) (deref (free_block_queue p) r).

(** [self.blocks[i]]. *)
Definition block_at (p : BlockPool) (i : Z) : res block_ref :=
  j ← py_nth (seq 0 (length (fq_blocks (free_block_queue p)))) i; Ok (Blk j).

(** Assignments to the attributes of a block. *)
Definition with_ref (b : KVCacheBlock) (v : Z) : KVCacheBlock :=
  mkBlock (block_id b) v (block_hash b) (prev_free_block b) (next_free_block b) (is_null b).
Definition with_hash (b : KVCacheBlock) (v : option bytes) : KVCacheBlock :=
  mkBlock (block_id b) (ref_cnt b) v (prev_free_block b) (next_free_block b) (is_null b).
Definition with_null (b : KVCacheBlock) (v : bool) : KVCacheBlock :=
  mkBlock (block_id b) (ref_cnt b) (block_hash b) (prev_free_block b) (next_free_block b) v.

Definition modify_block (p : BlockPool) (r : block_ref) (f : KVCacheBlock → KVCacheBlock)
    : BlockPool := set_queue p (modify (free_block_queue p) r f).

Definition add_ref (p : BlockPool) (r : block_ref) (d : Z) : BlockPool :=
  modify_block p r (λ b, with_ref b (ref_cnt b + d)).

(** The setter [block.block_hash = h], which asserts that there is no hash yet,
    and [reset_hash]. *)
Definition set_block_hash (p : BlockPool) (r : block_ref) (h : bytes) : res BlockPool :=
  py_assert (negb (is_some (block_hash (blk p r))));;
  Ok (modify_block p r (λ b, with_hash b (Some h))).
Definition reset_hash (p : BlockPool) (r : block_ref) : BlockPool :=
  modify_block p r (λ b, with_hash b None).

Definition id_of (p : BlockPool) (r : block_ref) : Z := block_id (blk p r).

Definition BlockPool_init (num_gpu_blocks : Z) (enable_caching : bool)
    (hash_block_size : Z) (enable_kv_cache_events : bool) : res BlockPool :=
  py_assert (bool_decide (0 < num_gpu_blocks));;
  let blocks := new_block <$> zrange 0 num_gpu_blocks in
  '(q, null_block) ← popleft (FreeKVCacheBlockQueue_init blocks);
  let p := mkPool num_gpu_blocks enable_caching hash_block_size q ∅ null_block
             enable_kv_cache_events [] in
  Ok (modify_block p null_block (λ b, with_null b true)).

(** [get_cached_block]: the loop returns [None] at the first miss. *)
Fixpoint get_cached_block (p : BlockPool) (block_hash : bytes)
    (kv_cache_group_ids : list Z) : res (option (list block_ref)) :=
  match kv_cache_group_ids with
  | [] => Ok (Some [])
  | group_id :: rest =>
      key ← make_block_hash_with_group_id block_hash group_id;
      block ← get_one_block (cached_block_hash_to_block p) key;
      match block with
      | None => Ok None
      | Some b =>
          cached ← get_cached_block p block_hash rest;
          Ok (option_map (cons b) cached)
      end
  end.

Section Pool.
Context {env : KVEnv}.

(** The first loop of [cache_full_blocks]. *)
Fixpoint cache_blocks_loop (p : BlockPool) (i : Z) (new_full_blocks : list block_ref)
    (new_block_hashes : list bytes) (group_id : Z) (new_hashes : list ExternalBlockHash)
    : res (BlockPool * list ExternalBlockHash) :=
  match new_full_blocks with
  | [] => Ok (p, new_hashes)
  | b :: rest =>
      if is_null (blk p b) then
        cache_blocks_loop p (i + 1) rest new_block_hashes group_id new_hashes
      else
        py_assert (negb (is_some (block_hash (blk p b))));;
        h ← py_nth new_block_hashes i;
        key ← make_block_hash_with_group_id h group_id;
        p1 ← set_block_hash p b key;
        let p2 := set_cache p1
          (cache_insert (id_of p1) (cached_block_hash_to_block p1) key b) in
        let new_hashes := if enable_kv_cache_events p
          then new_hashes ++ [maybe_convert_block_hash env_use_int_hashes h]
          else new_hashes in
        cache_blocks_loop p2 (i + 1) rest new_block_hashes group_id new_hashes
  end.

(** The loop collecting the extra keys of a [BlockStored] event. *)
Fixpoint extra_keys_loop (p : BlockPool) (r : Request) (blocks : list block_ref)
    (block_size curr_mm_idx : Z) (idxs : list Z) : res (list (option (list extra_key))) :=
  match idxs with
  | [] => Ok []
  | i :: idxs =>
      b ← py_nth blocks i;
      if is_null (blk p b) then extra_keys_loop p r blocks block_size curr_mm_idx idxs
      else
        '(keys, curr_mm_idx) ←
          generate_block_hash_extra_keys env_sha256 r (i * block_size)
            (i * block_size + block_size) curr_mm_idx;
        rest ← extra_keys_loop p r blocks block_size curr_mm_idx idxs;
        Ok (keys :: rest)
  end.

(** [request.block_hashes] at the granularity of [block_size]. *)
Definition block_hashes_for (p : BlockPool) (r : Request) (block_size : Z)
    : res BlockHashList :=
  if bool_decide (block_size = hash_block_size p) then Ok (PlainHashes (block_hashes r))
  else
    py_assert (bool_decide (block_size `mod` hash_block_size p = 0));;
    BlockHashListWithBlockSize_init (block_hashes r) (hash_block_size p) block_size.

Definition stored_event (p : BlockPool) (r : Request) (blocks : list block_ref)
    (hashes : BlockHashList) (new_hashes : list ExternalBlockHash)
    (num_cached_blocks num_full_blocks block_size group_id : Z) : res KVCacheEvent :=
  parent ← (if bool_decide (num_cached_blocks = 0) then Ok None
            else h ← bhl_get hashes (num_cached_blocks - 1);
                 Ok (Some (maybe_convert_block_hash env_use_int_hashes h)));
  extra_keys_list ← extra_keys_loop p r blocks block_size 0
                      (zrange num_cached_blocks num_full_blocks);
  Ok (BlockStored new_hashes parent
        (py_slice (all_token_ids r) (num_cached_blocks * block_size)
           (num_full_blocks * block_size))
        block_size (lora_int_id <$> lora_request r) (lora_name <$> lora_request r)
        (match extra_keys_list with [] => None | _ => Some extra_keys_list end) group_id).

Definition cache_full_blocks (p : BlockPool) (r : Request) (blocks : list block_ref)
    (num_cached_blocks num_full_blocks block_size kv_cache_group_id : Z) : res BlockPool :=
  if bool_decide (num_full_blocks ≤ num_cached_blocks) then Ok p
  else
    let new_full_blocks := py_slice blocks num_cached_blocks num_full_blocks in
    py_assert (bool_decide (num_full_blocks ≤ zlen (block_hashes r)));;
    hashes ← block_hashes_for p r block_size;
    let new_block_hashes := bhl_slice_from hashes num_cached_blocks in
    '(p1, new_hashes) ←
      cache_blocks_loop p 0 new_full_blocks new_block_hashes kv_cache_group_id [];
    if enable_kv_cache_events p then
      e ← stored_event p1 r blocks hashes new_hashes num_cached_blocks num_full_blocks
            block_size kv_cache_group_id;
      Ok (set_events p1 (kv_event_queue p1 ++ [e]))
    else Ok p1.

Definition _maybe_evict_cached_block (p : BlockPool) (b : block_ref) : BlockPool * bool :=
  match block_hash (blk p b) with
  | None => (p, false)
  | Some h =>
      let '(c, popped) := cache_pop (id_of p) (cached_block_hash_to_block p) h (id_of p b) in
      let p1 := set_cache p c in
      match popped with
      | None => (p1, false)
      | Some _ =>
          let p2 := reset_hash p1 b in
          (if enable_kv_cache_events p2 then
             set_events p2 (kv_event_queue p2 ++
               [BlockRemoved [maybe_convert_block_hash env_use_int_hashes (get_block_hash h)]
                  (get_group_id h)])
           else p2, true)
      end
  end.

Definition get_num_free_blocks (p : BlockPool) : Z := num_free_blocks (free_block_queue p).

(** The body of the loops of [get_new_blocks], with or without caching. *)
Definition take_block (p : BlockPool) (b : block_ref) : res BlockPool :=
  let p1 := if enable_caching p then (_maybe_evict_cached_block p b).1 else p in
  py_assert (bool_decide (ref_cnt (blk p1 b) = 0));;
  Ok (add_ref p1 b 1).

Definition get_new_blocks (p : BlockPool) (num_blocks : Z)
    : res (BlockPool * list block_ref) :=
  if bool_decide (get_num_free_blocks p < num_blocks) then Raise ValueError
  else
    '(q, ret) ← popleft_n (free_block_queue p) num_blocks;
    p1 ← foldM take_block (set_queue p q) ret;
    Ok (p1, ret).

Definition touch_one (p : BlockPool) (b : block_ref) : res BlockPool :=
  p1 ← (if bool_decide (ref_cnt (blk p b) = 0) && negb (is_null (blk p b))
        then q ← remove (free_block_queue p) b; Ok (set_queue p q)
        else Ok p);
  Ok (add_ref p1 b 1).

Definition touch (p : BlockPool) (blocks : list block_ref) : res BlockPool :=
  foldM touch_one p blocks.

Definition free_blocks (p : BlockPool) (ordered_blocks : list block_ref) : res BlockPool :=
  let p1 := foldl (λ p b, add_ref p b (-1)) p ordered_blocks in
  q ← append_n (free_block_queue p1)
        (filter (λ b, ref_cnt (blk p1 b) = 0 ∧ is_null (blk p1 b) = false) ordered_blocks);
  Ok (set_queue p1 q).

(** [block_ids] is a Python set, given here in its iteration order. *)
Definition evict_blocks (p : BlockPool) (block_ids : list Z) : res BlockPool :=
  foldM (λ p i,
    py_assert (bool_decide (i < zlen (fq_blocks (free_block_queue p))));;
    b ← block_at p i;
    Ok (_maybe_evict_cached_block p b).1) p block_ids.

Definition reset_prefix_cache (p : BlockPool) : BlockPool * bool :=
  let num_used_blocks := num_gpu_blocks p - get_num_free_blocks p in
  if bool_decide (num_used_blocks ≠ 1) then (p, false)
  else
    let p1 := set_cache p ∅ in
    let p2 := foldl (λ p i, reset_hash p (Blk i)) p1
                (seq 0 (length (fq_blocks (free_block_queue p1)))) in
    (if enable_kv_cache_events p2
     then set_events p2 (kv_event_queue p2 ++ [AllBlocksCleared]) else p2, true).

Definition get_usage (p : BlockPool) : float64 :=
  let total_gpu_blocks := num_gpu_blocks p - 1 in
  if bool_decide (total_gpu_blocks = 0) then float_of_Z 0
  else fsub (float_of_Z 1) (int_truediv (get_num_free_blocks p) total_gpu_blocks).

Definition take_events (p : BlockPool) : BlockPool * list KVCacheEvent :=
  if negb (enable_kv_cache_events p) then (p, [])
  else (set_events p [], kv_event_queue p).
End Pool.

(** ** The invariant *)

(** The attributes of the block a reference denotes. *)
Definition refs (p : BlockPool) (r : block_ref) : Z := ref_cnt (blk p r).
Definition hsh (p : BlockPool) (r : block_ref) : option bytes := block_hash (blk p r).
Definition nullb (p : BlockPool) (r : block_ref) : bool := is_null (blk p r).

Definition pool_ref (p : BlockPool) (r : block_ref) : Prop :=
  pool_block (free_block_queue p) r.

(** Block [i] has id [i], and block 0 is the null block. *)
Record static (p : BlockPool) : Prop := {
  st_size : 0 < num_gpu_blocks p;
  st_length : zlen (fq_blocks (free_block_queue p)) = num_gpu_blocks p;
  st_null : null_block p = Blk 0;
  st_ids : ∀ i, pool_ref p (Blk i) →
    id_of p (Blk i) = Z.of_nat i ∧ nullb p (Blk i) = bool_decide (Blk i = null_block p)
}.

Definition entry_blocks (e : option cache_entry) : list block_ref :=
  match e with
  | None => []
  | Some (Single b) => [b]
  | Some (Multi d) => d.*2
  end.

(** A dict entry is not empty, its keys are distinct and are the block ids. *)
Definition entry_wf (e : cache_entry) : Prop :=
  match e with
  | Single b => True
  | Multi d => d ≠ [] ∧ NoDup d.*1 ∧ Forall (λ kv, 0 ≤ kv.1 ∧ kv.2 = Blk (Z.to_nat kv.1)) d
  end.

(** The cache maps a key to a block exactly when the block carries the key. *)
Record CacheInv (p : BlockPool) : Prop := {
  ci_hash : ∀ key r, r ∈ entry_blocks (cached_block_hash_to_block p !! key) ↔
    pool_ref p r ∧ hsh p r = Some key;
  ci_wf : map_Forall (λ _ e, entry_wf e) (cached_block_hash_to_block p);
  ci_null : hsh p (null_block p) = None;
  ci_off : enable_caching p = false → cached_block_hash_to_block p = ∅
}.

(** The free queue, which represents [l], holds exactly the blocks that nobody
    references, apart from the null block. *)
Record PoolInv (p : BlockPool) (l : list block_ref) : Prop := {
  pi_queue : FreeQ_repr (free_block_queue p) l;
  pi_static : static p;
  pi_refs : ∀ r, pool_ref p r → r ≠ null_block p → 0 ≤ refs p r ∧ (r ∈ l ↔ refs p r = 0);
  pi_null_free : null_block p ∉ l;
  pi_cache : CacheInv p
}.

(** What no operation changes. *)
Record pool_frame (p p' : BlockPool) : Prop := {
  pf_num : num_gpu_blocks p' = num_gpu_blocks p;
  pf_caching : enable_caching p' = enable_caching p;
  pf_hbs : hash_block_size p' = hash_block_size p;
  pf_null : null_block p' = null_block p;
  pf_events : enable_kv_cache_events p' = enable_kv_cache_events p;
  pf_length : length (fq_blocks (free_block_queue p')) = length (fq_blocks (free_block_queue p));
  pf_blocks : ∀ i, id_of p' (Blk i) = id_of p (Blk i) ∧ nullb p' (Blk i) = nullb p (Blk i)
}.

Lemma pool_frame_refl p : pool_frame p p.
Proof. by split. Qed.
Lemma pool_frame_trans p1 p2 p3 : pool_frame p1 p2 → pool_frame p2 p3 → pool_frame p1 p3.
Proof.
  intros [] []. split; try congruence. intros i. split.
  - etrans; [by apply pf_blocks1|by apply pf_blocks0].
  - etrans; [by apply pf_blocks1|by apply pf_blocks0].
Qed.
#[export] Instance pool_frame_preorder : PreOrder pool_frame.
Proof. split; [exact pool_frame_refl|exact pool_frame_trans]. Qed.

Lemma pool_frame_ref p p' r : pool_frame p p' → pool_ref p' r ↔ pool_ref p r.
Proof. intros H. unfold pool_ref, pool_block. by rewrite (pf_length _ _ H). Qed.

Lemma pool_frame_static p p' : pool_frame p p' → static p → static p'.
Proof.
  intros F [S1 S2 S3 S4]. split.
  - by rewrite (pf_num _ _ F).
  - by rewrite /zlen (pf_length _ _ F) (pf_num _ _ F).
  - by rewrite (pf_null _ _ F).
  - intros i Hi. destruct (pf_blocks _ _ F i) as [-> ->]. rewrite (pf_null _ _ F).
    apply S4. by rewrite -(pool_frame_ref _ _ _ F).
Qed.

(** ** Effects of the assignments *)

Lemma blk_modify p r f r' :
  pool_ref p r → blk (modify_block p r f) r' = if decide (r = r') then f (blk p r') else blk p r'.
Proof.
  intros Hr. unfold blk, modify_block. cbn. rewrite deref_modify. goal_decide; [|done].
  subst. destruct (pool_block_valid _ _ Hr) as [b ->]. done.
Qed.

Lemma blk_modify_field {A} (g : KVCacheBlock → A) p r f r' :
  (∀ b, g (f b) = g b) → g (blk (modify_block p r f) r') = g (blk p r').
Proof.
  intros Hg. unfold blk, modify_block. cbn. rewrite deref_modify. goal_decide; [|done].
  destruct (deref _ r'); cbn; [apply Hg|done].
Qed.

Lemma pool_frame_modify p r f :
  (∀ b, block_id (f b) = block_id b ∧ is_null (f b) = is_null b) →
  pool_frame p (modify_block p r f).
Proof.
  intros Hf. split; try done; [apply length_modify|].
  intros i. split; apply blk_modify_field; intros b; apply Hf.
Qed.

Lemma repr_modify q l r f :
  (∀ b, prev_free_block (f b) = prev_free_block b ∧ next_free_block (f b) = next_free_block b) →
  FreeQ_repr q l → FreeQ_repr (modify q r f) l.
Proof.
  intros Hf H.
  assert (∀ r', next_of (modify q r f) r' = next_of q r' ∧
                prev_of (modify q r f) r' = prev_of q r') as Hl.
  { intros r'. unfold next_of, prev_of. rewrite deref_modify. goal_decide; [|done].
    destruct (deref q r') as [b|]; [|done]. cbn. by destruct (Hf b). }
  assert (∀ rs, chain (modify q r f) rs ↔ chain q rs) as Hc.
  { induction rs as [|a [|b rs] IH]; [done..|]. rewrite !chain_cons IH /link.
    destruct (Hl a) as [-> _], (Hl b) as [_ ->]. done. }
  split.
  - apply Hc, H.
  - apply H.
  - eapply Forall_impl; [apply H|]. intros x ?. by apply pool_block_modify.
  - rewrite -(repr_num _ _ H). by destruct r.
  - rewrite (proj1 (Hl _)). apply H.
  - intros r' Hr' Hn. destruct (Hl r') as [-> ->].
    apply (repr_unlinked _ _ H); [|done]. by apply pool_block_modify in Hr'.
Qed.

Lemma set_queue_blk p q i :
  same_meta (free_block_queue p) q → meta (blk (set_queue p q) (Blk i)) = meta (blk p (Blk i)).
Proof.
  intros Hm. unfold blk, same_meta in *. cbn.
  assert (meta <$> fq_blocks q !! i = meta <$> fq_blocks (free_block_queue p) !! i) as E.
  { by rewrite -!list_lookup_fmap Hm. }
  destruct (fq_blocks q !! i), (fq_blocks (free_block_queue p) !! i); cbn in *; congruence.
Qed.

Lemma set_queue_field {A} (g : KVCacheBlock → A) p q r :
  (∀ b, g b = g (meta b)) → same_meta (free_block_queue p) q → pool_ref p r →
  g (blk (set_queue p q) r) = g (blk p r).
Proof. intros Hg Hm (i & -> & _). by rewrite Hg set_queue_blk // -Hg. Qed.

Lemma pool_frame_set_queue p q :
  same_meta (free_block_queue p) q → pool_frame p (set_queue p q).
Proof.
  intros Hm. split; try done; [by apply same_meta_length|].
  intros i. unfold id_of, nullb. pose proof (set_queue_blk p q i Hm) as E.
  split; [apply (f_equal block_id E)|apply (f_equal is_null E)].
Qed.

Lemma pool_frame_set_cache p c : pool_frame p (set_cache p c).
Proof. by split. Qed.
Lemma pool_frame_set_events p e : pool_frame p (set_events p e).
Proof. by split. Qed.
Lemma pool_frame_add_ref p r d : pool_frame p (add_ref p r d).
Proof. by apply pool_frame_modify. Qed.
Lemma pool_frame_reset_hash p r : pool_frame p (reset_hash p r).
Proof. by apply pool_frame_modify. Qed.
Create HintDb pool.
#[export] Hint Resolve pool_frame_refl pool_frame_set_queue pool_frame_set_cache
  pool_frame_set_events pool_frame_add_ref pool_frame_reset_hash : pool.

Lemma refs_add_ref p r d r' :
  pool_ref p r → refs (add_ref p r d) r' = refs p r' + (if decide (r = r') then d else 0).
Proof.
  intros Hr. unfold refs, add_ref. rewrite blk_modify //. goal_decide; cbn; lia.
Qed.
Lemma hsh_add_ref p r d r' : hsh (add_ref p r d) r' = hsh p r'.
Proof. by apply (blk_modify_field block_hash). Qed.
Lemma refs_reset_hash p r r' : refs (reset_hash p r) r' = refs p r'.
Proof. by apply (blk_modify_field ref_cnt). Qed.
Lemma hsh_reset_hash p r r' :
  pool_ref p r → hsh (reset_hash p r) r' = if decide (r = r') then None else hsh p r'.
Proof. intros Hr. unfold hsh, reset_hash. rewrite blk_modify //. by goal_decide. Qed.

(** ** The cache map *)

Lemma dict_get_Some {V} (d : list (Z * V)) k v :
  NoDup d.*1 → (k, v) ∈ d → dict_get d k = Some v.
Proof.
  induction d as [|[k' v'] d IH]; cbn; intros Hnd Hin; [set_solver|].
  apply NoDup_cons in Hnd as [Hk Hnd]. apply elem_of_cons in Hin as [[= <- <-]|Hin].
  - by rewrite bool_decide_true.
  - rewrite bool_decide_false; [by apply IH|]. intros ->. apply Hk.
    apply list_elem_of_fmap. by exists (k, v).
Qed.

Lemma dict_set_fresh {V} (d : list (Z * V)) k v :
  k ∉ d.*1 → dict_set d k v = d ++ [(k, v)].
Proof.
  induction d as [|[k' v'] d IH]; cbn; intros Hk; [done|].
  rewrite bool_decide_false; [|set_solver]. f_equal. apply IH. set_solver.
Qed.

(** The entries of a dict of blocks whose ids are their positions. *)
Lemma entry_ids (d : list (Z * block_ref)) i :
  Forall (λ kv, 0 ≤ kv.1 ∧ kv.2 = Blk (Z.to_nat kv.1)) d →
  (Blk i ∈ d.*2 ↔ (Z.of_nat i, Blk i) ∈ d) ∧ (Blk i ∈ d.*2 ↔ Z.of_nat i ∈ d.*1).
Proof.
  intros Hd. rewrite Forall_forall in Hd.
  assert (∀ k r, (k, r) ∈ d → 0 ≤ k ∧ r = Blk (Z.to_nat k)) as Hd' by (intros k r; apply Hd).
  assert (Blk i ∈ d.*2 → (Z.of_nat i, Blk i) ∈ d) as H1.
  { intros ([k r] & E & Hin)%list_elem_of_fmap. cbn in E. subst r.
    destruct (Hd' _ _ Hin) as [? [= ->]]. by rewrite Z2Nat.id. }
  assert (Z.of_nat i ∈ d.*1 → (Z.of_nat i, Blk i) ∈ d) as H2.
  { intros ([k r] & E & Hin)%list_elem_of_fmap. cbn in E. subst k.
    destruct (Hd' _ _ Hin) as [? ->]. by rewrite Nat2Z.id in Hin. }
  assert ((Z.of_nat i, Blk i) ∈ d → Blk i ∈ d.*2 ∧ Z.of_nat i ∈ d.*1) as H3.
  { intros Hin. split; apply list_elem_of_fmap; by exists (Z.of_nat i, Blk i). }
  naive_solver.
Qed.

Lemma dict_del_blocks (d : list (Z * block_ref)) i r :
  Forall (λ kv, 0 ≤ kv.1 ∧ kv.2 = Blk (Z.to_nat kv.1)) d →
  r ∈ (dict_del d (Z.of_nat i)).*2 ↔ r ∈ d.*2 ∧ r ≠ Blk i.
Proof.
  intros Hd. rewrite Forall_forall in Hd. unfold dict_del. rewrite !list_elem_of_fmap.
  split.
  - intros ([k r'] & -> & [Hk Hin]%list_elem_of_filter). cbn in *.
    destruct (Hd _ Hin) as [? E]; cbn in *. split; [by exists (k, r')|].
    rewrite E. intros [=]. lia.
  - intros [([k r'] & -> & Hin) Hne]. exists (k, r'). split; [done|].
    apply list_elem_of_filter. split; [|done]. cbn in *. intros ->.
    destruct (Hd _ Hin) as [? E]; cbn in *. by rewrite E Nat2Z.id in Hne.
Qed.

Lemma entry_wf_del d i : entry_wf (Multi d) → dict_del d i ≠ [] → entry_wf (Multi (dict_del d i)).
Proof.
  intros (_ & Hnd & Hf) Hne. split; [done|]. unfold dict_del. split.
  - eapply sublist_NoDup; [done|]. apply fmap_sublist, sublist_filter.
  - rewrite Forall_forall in Hf. apply Forall_forall. intros x Hx. apply Hf.
    by apply list_elem_of_filter in Hx as [_ ?].
Qed.

(** Popping a block from the entry that holds it. *)
Lemma cache_pop_spec (ids : block_ref → Z) (c : BlockHashToBlockMap) key i :
  map_Forall (λ _ e, entry_wf e) c → ids (Blk i) = Z.of_nat i →
  Blk i ∈ entry_blocks (c !! key) →
  ∃ c', cache_pop ids c key (Z.of_nat i) = (c', Some (Blk i)) ∧
    map_Forall (λ _ e, entry_wf e) c' ∧
    ∀ key' r, r ∈ entry_blocks (c' !! key') ↔
      r ∈ entry_blocks (c !! key') ∧ ¬ (key' = key ∧ r = Blk i).
Proof.
  intros Hwf Hid Hin. unfold cache_pop.
  destruct (c !! key) as [[b|d]|] eqn:Hc; cbn [entry_blocks] in Hin; [| |set_solver].
  - apply list_elem_of_singleton in Hin as <-. rewrite bool_decide_true //.
    eexists; split; [done|]. split; [by apply map_Forall_delete|].
    intros key' r. destruct (decide (key' = key)) as [->|Hk].
    + rewrite lookup_delete_eq Hc /= list_elem_of_singleton. set_solver.
    + rewrite lookup_delete_ne //. naive_solver.
  - pose proof (Hwf _ _ Hc) as (Hne & Hnd & Hf).
    rewrite (dict_get_Some d _ (Blk i)) //; [|by apply entry_ids].
    eexists; split; [done|].
    assert (∀ key' r, r ∈ entry_blocks
      (match dict_del d (Z.of_nat i) with
       | [] => delete key c
       | _ => <[key := Multi (dict_del d (Z.of_nat i))]> c end !! key') ↔
      r ∈ (if decide (key' = key) then (dict_del d (Z.of_nat i)).*2
           else entry_blocks (c !! key'))) as E.
    { intros key' r. destruct (dict_del d (Z.of_nat i)) as [|x d'], (decide (key' = key)) as [->|];
        rewrite ?(lookup_delete_eq, lookup_delete_ne, lookup_insert_eq, lookup_insert_ne) //. }
    split.
    + destruct (dict_del d (Z.of_nat i)) as [|x d'] eqn:Ed; [by apply map_Forall_delete|].
      apply map_Forall_insert_2; [|done]. rewrite -Ed. apply entry_wf_del; [done|by rewrite Ed].
    + intros key' r. rewrite E. destruct (decide (key' = key)) as [->|]; [|naive_solver].
      rewrite dict_del_blocks // Hc /=. naive_solver.
Qed.

(** Inserting a block that the key does not hold yet. *)
Lemma cache_insert_spec (ids : block_ref → Z) (c : BlockHashToBlockMap) key i :
  map_Forall (λ _ e, entry_wf e) c → ids (Blk i) = Z.of_nat i →
  (∀ r, r ∈ entry_blocks (c !! key) → ∃ j, r = Blk j ∧ ids r = Z.of_nat j) →
  Blk i ∉ entry_blocks (c !! key) →
  map_Forall (λ _ e, entry_wf e) (cache_insert ids c key (Blk i)) ∧
  ∀ key' r, r ∈ entry_blocks (cache_insert ids c key (Blk i) !! key') ↔
    r ∈ entry_blocks (c !! key') ∨ (key' = key ∧ r = Blk i).
Proof.
  intros Hwf Hid Hids Hin. unfold cache_insert.
  assert (∃ e, match c !! key with
    | None => <[key := Single (Blk i)]> c
    | Some (Single b) => <[key := Multi (dict_set [(ids b, b)] (ids (Blk i)) (Blk i))]> c
    | Some (Multi d) => <[key := Multi (dict_set d (ids (Blk i)) (Blk i))]> c
    end = <[key := e]> c ∧ entry_wf e ∧
    ∀ r, r ∈ entry_blocks (Some e) ↔ r ∈ entry_blocks (c !! key) ∨ r = Blk i)
    as (e & -> & He & Hr).
  { destruct (c !! key) as [[b|d]|] eqn:Hc; cbn [entry_blocks] in Hin, Hids.
    - destruct (Hids b ltac:(set_solver)) as (j & -> & Hj).
      assert (i ≠ j) by set_solver.
      rewrite Hid Hj. rewrite dict_set_fresh; [|set_solver by lia].
      eexists; split; [done|]. split; [|set_solver].
      split; [done|]. cbn. split.
      + repeat constructor; set_solver by lia.
      + repeat constructor; cbn; rewrite ?Nat2Z.id; lia || done.
    - pose proof (Hwf _ _ Hc) as (Hne & Hnd & Hf). rewrite Hid.
      assert (Z.of_nat i ∉ d.*1) as Hi by (intros ?; by apply Hin, entry_ids).
      rewrite dict_set_fresh //. eexists; split; [done|]. split.
      + split; [by destruct d|]. rewrite fmap_app. split.
        * apply NoDup_app. split; [done|]. split; [set_solver|apply NoDup_singleton].
        * apply Forall_app. split; [done|]. repeat constructor; cbn; rewrite ?Nat2Z.id; lia || done.
      + intros r. cbn. rewrite fmap_app. set_solver.
    - eexists; split; [done|]. split; [done|set_solver]. }
  split; [by apply map_Forall_insert_2|].
  intros key' r. destruct (decide (key' = key)) as [->|].
  - rewrite lookup_insert_eq Hr. naive_solver.
  - rewrite lookup_insert_ne //. naive_solver.
Qed.

(** ** Effects of the operations *)

Section PoolProofs.
Context {env : KVEnv}.

(** The operation keeps the linked queue as it represents the free list. *)
Definition keeps_queue (p p' : BlockPool) : Prop :=
  ∀ l, FreeQ_repr (free_block_queue p) l → FreeQ_repr (free_block_queue p') l.

#[export] Instance keeps_queue_preorder : PreOrder keeps_queue.
Proof. split; [by intros p l|]. intros p1 p2 p3 H1 H2 l Hl. by apply H2, H1. Qed.

Lemma keeps_queue_modify p r f :
  (∀ b, prev_free_block (f b) = prev_free_block b ∧ next_free_block (f b) = next_free_block b) →
  keeps_queue p (modify_block p r f).
Proof. intros Hf l. by apply repr_modify. Qed.

Lemma static_id p r : static p → pool_ref p r →
  ∃ i, r = Blk i ∧ id_of p r = Z.of_nat i ∧ nullb p r = bool_decide (r = null_block p).
Proof. intros H Hr. destruct Hr as (i & -> & Hi). exists i. split; [done|]. by apply H; exists i. Qed.

Lemma evict_spec p b :
  CacheInv p → static p → pool_ref p b →
  let p' := (_maybe_evict_cached_block p b).1 in
  CacheInv p' ∧ pool_frame p p' ∧ keeps_queue p p' ∧
  (∀ r, refs p' r = refs p r) ∧
  (∀ r, hsh p' r = if decide (b = r) then None else hsh p r) ∧
  (_maybe_evict_cached_block p b).2 = is_some (hsh p b).
Proof.
  intros HC HS Hb. destruct (static_id _ _ HS Hb) as (i & -> & Hid & _).
  unfold _maybe_evict_cached_block. fold (hsh p (Blk i)).
  destruct (hsh p (Blk i)) as [h|] eqn:Hh; cbn [fst snd].
  2:{ split_and!; try done. intros r. goal_decide; by subst. }
  assert (Blk i ∈ entry_blocks (cached_block_hash_to_block p !! h)) as Hin by by apply HC.
  rewrite Hid.
  destruct (cache_pop_spec (id_of p) _ _ _ (ci_wf _ HC) Hid Hin) as (c' & -> & Hwf & Hc').
  set (p2 := reset_hash (set_cache p c') (Blk i)).
  assert (pool_frame p p2) as F2.
  { etrans; [apply pool_frame_set_cache|apply pool_frame_reset_hash]. }
  assert (∀ r, hsh p2 r = if decide (Blk i = r) then None else hsh p r) as Hh2.
  { intros r. unfold p2. by rewrite hsh_reset_hash. }
  assert (CacheInv p2) as HC2.
  { split; cbn.
    - intros key r. rewrite Hc' Hh2 (ci_hash _ HC) (pool_frame_ref _ _ _ F2).
      goal_decide; [subst|naive_solver]. split; [|naive_solver].
      intros ((? & Hk) & Hn). rewrite Hh in Hk. naive_solver.
    - done.
    - rewrite Hh2. goal_decide; [done|apply HC].
    - intros Hoff. pose proof (ci_off _ HC Hoff) as E. rewrite E in Hin.
      rewrite lookup_empty in Hin. set_solver. }
  assert (keeps_queue p p2) as HQ by exact (keeps_queue_modify (set_cache p c') (Blk i) (λ b, with_hash b None) ltac:(done)).
  assert (∀ r, refs p2 r = refs p r) as HR by (intros r; unfold p2; by rewrite refs_reset_hash).
  fold p2. destruct (enable_kv_cache_events p2); cbn [fst snd]; [|done].
  split; [by destruct HC2|]. split; [|done]. etrans; [done|apply pool_frame_set_events].
Qed.

Lemma CacheInv_same p p' :
  pool_frame p p' → (∀ r, pool_ref p r → hsh p' r = hsh p r) →
  cached_block_hash_to_block p' = cached_block_hash_to_block p →
  static p → CacheInv p → CacheInv p'.
Proof.
  intros F Hh Hc HS HC. split.
  - intros key r. rewrite Hc (ci_hash _ HC) (pool_frame_ref _ _ _ F).
    split; intros [Hr ?]; (split; [done|]); by rewrite ?Hh // -?Hh.
  - rewrite Hc. apply HC.
  - rewrite (pf_null _ _ F) Hh; [apply HC|]. destruct HS as [S1 S2 S3 S4]. rewrite S3.
    exists 0%nat. split; [done|]. unfold zlen in S2. lia.
  - rewrite Hc (pf_caching _ _ F). apply HC.
Qed.

Lemma null_ref p : static p → pool_ref p (null_block p).
Proof.
  intros [S1 S2 S3 S4]. rewrite S3. exists 0%nat. split; [done|]. unfold zlen in S2. lia.
Qed.

Lemma pool_ref_off p r : CacheInv p → enable_caching p = false → pool_ref p r → hsh p r = None.
Proof.
  intros HC Hoff Hr. destruct (hsh p r) as [h|] eqn:E; [|done]. exfalso.
  assert (r ∈ entry_blocks (cached_block_hash_to_block p !! h)) as Hin by by apply HC.
  rewrite (ci_off _ HC Hoff) lookup_empty in Hin. set_solver.
Qed.

Lemma take_block_spec p b :
  CacheInv p → static p → pool_ref p b → refs p b = 0 →
  ∃ p', take_block p b = Ok p' ∧ CacheInv p' ∧ pool_frame p p' ∧ keeps_queue p p' ∧
    (∀ r, refs p' r = refs p r + if decide (b = r) then 1 else 0) ∧
    (∀ r, hsh p' r = if decide (b = r) then None else hsh p r).
Proof.
  intros HC HS Hb H0. unfold take_block.
  set (p1 := if enable_caching p then (_maybe_evict_cached_block p b).1 else p).
  assert (CacheInv p1 ∧ pool_frame p p1 ∧ keeps_queue p p1 ∧ (∀ r, refs p1 r = refs p r) ∧
    (∀ r, hsh p1 r = if decide (b = r) then None else hsh p r)) as (C1 & F1 & Q1 & R1 & H1).
  { unfold p1. destruct (enable_caching p) eqn:Ec.
    - destruct (evict_spec p b HC HS Hb) as (? & ? & ? & ? & ? & _). done.
    - split_and!; try done. intros r. goal_decide; [subst|done].
      by apply pool_ref_off. }
  rewrite bool_decide_true; [|by rewrite -H0 -R1]. cbn. clearbody p1.
  assert (pool_ref p1 b) as Hb1 by by rewrite (pool_frame_ref _ _ _ F1).
  eexists; split; [done|]. split.
  { apply (CacheInv_same p1); [apply pool_frame_add_ref| |done| |done].
    - intros r _. apply hsh_add_ref.
    - by eapply pool_frame_static. }
  split; [by etrans; [|apply pool_frame_add_ref]|]. split.
  { intros l Hl. apply keeps_queue_modify; [done|by apply Q1]. }
  split; intros r.
  - rewrite refs_add_ref // R1. done.
  - by rewrite hsh_add_ref H1.
Qed.

Lemma take_blocks_spec bs : ∀ p,
  CacheInv p → static p → Forall (pool_ref p) bs → NoDup bs → (∀ b, b ∈ bs → refs p b = 0) →
  ∃ p', foldM take_block p bs = Ok p' ∧ CacheInv p' ∧ pool_frame p p' ∧ keeps_queue p p' ∧
    (∀ r, refs p' r = refs p r + if decide (r ∈ bs) then 1 else 0) ∧
    (∀ r, hsh p' r = if decide (r ∈ bs) then None else hsh p r).
Proof.
  induction bs as [|b bs IH]; intros p HC HS Hp Hnd H0.
  { exists p. split_and!; try done. intros r. goal_decide; [set_solver|lia]. }
  apply Forall_cons in Hp as [Hb Hp]. apply NoDup_cons in Hnd as [Hnb Hnd].
  destruct (take_block_spec p b HC HS Hb) as (p1 & E & C1 & F1 & Q1 & R1 & H1); [set_solver|].
  destruct (IH p1) as (p' & E' & C' & F' & Q' & R' & H'); [done|by eapply pool_frame_static|..].
  - eapply Forall_impl; [done|]. intros x ?. by rewrite (pool_frame_ref _ _ _ F1).
  - done.
  - intros x Hx. rewrite R1. goal_decide; [set_solver|]. rewrite H0; [lia|set_solver].
  - exists p'. cbn. rewrite E. cbn. split; [done|]. split; [done|]. split; [by etrans|].
    split; [by intros l Hl; apply Q', Q1|]. split; intros r; rewrite ?R' ?R1 ?H' ?H1;
      repeat goal_decide; set_solver by lia.
Qed.

Lemma set_queue_same p q r :
  same_meta (free_block_queue p) q → pool_ref p r →
  refs (set_queue p q) r = refs p r ∧ hsh (set_queue p q) r = hsh p r.
Proof. intros Hm Hr. split; by apply set_queue_field. Qed.

Lemma PoolInv_free_ref p l r : PoolInv p l → r ∈ l → pool_ref p r ∧ r ≠ null_block p ∧ refs p r = 0.
Proof.
  intros H Hr. assert (pool_ref p r) as Hp.
  { by eapply Forall_forall; [apply (repr_pool _ _ (pi_queue _ _ H))|]. }
  assert (r ≠ null_block p) as Hn by (intros ->; by apply (pi_null_free _ _ H)).
  split; [done|]. split; [done|]. by apply (pi_refs _ _ H).
Qed.

Lemma PoolInv_num_free p l : PoolInv p l → get_num_free_blocks p = zlen l.
Proof. intros H. apply (repr_num _ _ (pi_queue _ _ H)). Qed.

(** [get_new_blocks] takes the blocks at the front of the free queue, evicts
    them from the cache and gives each one reference. *)
Lemma get_new_blocks_spec p l n :
  PoolInv p l → 0 ≤ n ≤ zlen l →
  let bs := take (Z.to_nat n) l in
  ∃ p', get_new_blocks p n = Ok (p', bs) ∧ PoolInv p' (drop (Z.to_nat n) l) ∧ pool_frame p p' ∧
    (∀ r, pool_ref p r → refs p' r = refs p r + if decide (r ∈ bs) then 1 else 0) ∧
    (∀ r, pool_ref p r → hsh p' r = if decide (r ∈ bs) then None else hsh p r).
Proof.
  intros H Hn bs. unfold get_new_blocks.
  rewrite bool_decide_false; [|rewrite (PoolInv_num_free _ _ H); lia].
  destruct (popleft_n_spec (free_block_queue p) bs (drop (Z.to_nat n) l))
    as (q & E & Hq & Hm); [rewrite take_drop; apply H|].
  replace (zlen bs) with n in E; [|unfold bs, zlen in *; rewrite length_take; lia].
  rewrite E. cbn.
  assert (∀ b, b ∈ bs → b ∈ l) as Hsub.
  { intros b ?. rewrite -(take_drop (Z.to_nat n) l). apply elem_of_app. by left. }
  pose proof (repr_nodup _ _ (pi_queue _ _ H)) as Hnd.
  pose proof (pool_frame_set_queue p q Hm) as F1.
  assert (static (set_queue p q)) as S1 by (eapply pool_frame_static; [done|apply H]).
  destruct (take_blocks_spec bs (set_queue p q)) as (p' & -> & C' & F' & Q' & R' & H').
  - apply (CacheInv_same p); [done| |done|apply H..].
    intros r Hr. by apply set_queue_same.
  - done.
  - apply Forall_forall. intros b Hb. rewrite (pool_frame_ref _ _ _ F1).
    by apply (PoolInv_free_ref _ _ _ H), Hsub.
  - rewrite -(take_drop (Z.to_nat n) l) in Hnd. by apply NoDup_app in Hnd as [? _].
  - intros b Hb. destruct (PoolInv_free_ref _ _ b H (Hsub _ Hb)) as (? & _ & <-).
    by apply set_queue_same.
  - exists p'. cbn. split; [done|]. assert (pool_frame p p') as F by by etrans.
    assert (∀ r, pool_ref p r → refs p' r = refs p r + if decide (r ∈ bs) then 1 else 0) as R.
    { intros r Hr. rewrite R'. by destruct (set_queue_same p q r Hm Hr) as [-> _]. }
    split_and!; [|done|done|].
    2:{ intros r Hr. rewrite H'. by destruct (set_queue_same p q r Hm Hr) as [_ ->]. }
    split.
    + by apply Q'.
    + eapply pool_frame_static; [exact F|apply H].
    + intros r Hr Hne. apply (pool_frame_ref _ _ _ F) in Hr.
      rewrite (pf_null _ _ F) in Hne. rewrite R //.
      destruct (pi_refs _ _ H r Hr Hne) as [Hpos Hiff].
      rewrite -(take_drop (Z.to_nat n) l) in Hnd, Hiff. fold bs in Hnd, Hiff.
      apply NoDup_app in Hnd as (_ & Hdisj & _). rewrite elem_of_app in Hiff.
      goal_decide; naive_solver lia.
    + rewrite (pf_null _ _ F). intros Hin. apply (pi_null_free _ _ H).
      rewrite -(take_drop (Z.to_nat n) l). set_solver.
    + done.
Qed.

Lemma get_new_blocks_fail p l n :
  PoolInv p l → zlen l < n → get_new_blocks p n = Raise ValueError.
Proof.
  intros H Hn. unfold get_new_blocks. by rewrite (PoolInv_num_free _ _ H) bool_decide_true.
Qed.

(** A block gains references. *)
Lemma PoolInv_add_ref p l b d :
  PoolInv p l → pool_ref p b → (b ≠ null_block p → 0 < refs p b ∧ 0 < refs p b + d) →
  PoolInv (add_ref p b d) l.
Proof.
  intros H Hb Hpos. pose proof (pool_frame_add_ref p b d) as F. split.
  - apply keeps_queue_modify; [done|apply H].
  - eapply pool_frame_static; [done|apply H].
  - intros r Hr Hne. rewrite refs_add_ref //.
    destruct (pi_refs _ _ H r ltac:(by rewrite -(pool_frame_ref _ _ _ F)) Hne) as [H1 H2].
    destruct (decide (b = r)) as [->|]; [|rewrite Z.add_0_r; done].
    destruct (Hpos Hne). split; [lia|]. split; [|lia]. intros ?%H2. lia.
  - apply H.
  - apply (CacheInv_same p); [done|by intros; apply hsh_add_ref|done|apply H..].
Qed.

Lemma touch_one_spec p l b :
  PoolInv p l → pool_ref p b →
  ∃ p', touch_one p b = Ok p' ∧ PoolInv p' (filter (λ x, x ≠ b) l) ∧ pool_frame p p' ∧
    (∀ r, pool_ref p r → refs p' r = refs p r + if decide (b = r) then 1 else 0) ∧
    (∀ r, pool_ref p r → hsh p' r = hsh p r).
Proof.
  intros H Hb. unfold touch_one. fold (refs p b) (nullb p b).
  destruct (static_id _ _ (pi_static _ _ H) Hb) as (i & Hi & _ & ->).
  destruct (decide (b = null_block p)) as [Hnull|Hnn]; [|destruct (decide (refs p b = 0)) as [H0|H0]].
  - rewrite (bool_decide_true (b = null_block p)) // andb_false_r. cbn.
    rewrite filter_all; [|intros x Hx ->; apply (pi_null_free _ _ H); congruence].
    eexists; split; [done|]. split_and!.
    + by apply PoolInv_add_ref.
    + apply pool_frame_add_ref.
    + intros r Hr. by apply refs_add_ref.
    + intros r Hr. apply hsh_add_ref.
  - rewrite (bool_decide_true (refs p b = 0)) // bool_decide_false //. cbn.
    assert (b ∈ l) as Hbl by by apply (pi_refs _ _ H).
    apply list_elem_of_split in Hbl as (l1 & l2 & ->).
    pose proof (repr_nodup _ _ (pi_queue _ _ H)) as Hnd.
    destruct (remove_spec _ _ _ _ (pi_queue _ _ H)) as (q & -> & Hq & Hm). cbn.
    rewrite filter_remove_one //.
    pose proof (pool_frame_set_queue p q Hm) as F1.
    assert (pool_ref (set_queue p q) b) as Hb1 by by rewrite (pool_frame_ref _ _ _ F1).
    pose proof (pool_frame_add_ref (set_queue p q) b 1) as F2.
    assert (pool_frame p (add_ref (set_queue p q) b 1)) as F by by etrans.
    assert (∀ r, pool_ref p r → refs (add_ref (set_queue p q) b 1) r =
      refs p r + if decide (b = r) then 1 else 0) as R.
    { intros r Hr. rewrite refs_add_ref //. by destruct (set_queue_same p q r Hm Hr) as [-> _]. }
    assert (∀ r, pool_ref p r → hsh (add_ref (set_queue p q) b 1) r = hsh p r) as HH.
    { intros r Hr. rewrite hsh_add_ref. by apply set_queue_same. }
    eexists; split; [done|]. split_and!; [|done..]. split.
    + by apply keeps_queue_modify.
    + eapply pool_frame_static; [exact F|apply H].
    + intros r Hr Hne. apply (pool_frame_ref _ _ _ F) in Hr. rewrite R //.
      destruct (pi_refs _ _ H r Hr Hne) as [Hpos Hiff].
      apply NoDup_app in Hnd as (_ & Hd1 & Hd2). apply NoDup_cons in Hd2 as [Hd2 _].
      rewrite elem_of_app elem_of_cons in Hiff. rewrite elem_of_app.
      destruct (decide (b = r)) as [->|].
      * split; [lia|]. split; [|lia]. set_solver.
      * rewrite Z.add_0_r -Hiff. split; [done|]. set_solver.
    + intros Hin. apply (pi_null_free _ _ H). set_solver.
    + apply (CacheInv_same p); [done..|apply H|apply H].
  - rewrite (bool_decide_false (refs p b = 0)) //. cbn.
    destruct (pi_refs _ _ H b Hb Hnn) as [Hpos Hiff].
    rewrite filter_all; [|intros x Hx ->; tauto].
    eexists; split; [done|]. split_and!.
    + apply PoolInv_add_ref; [done..|lia].
    + apply pool_frame_add_ref.
    + intros r Hr. by apply refs_add_ref.
    + intros r Hr. apply hsh_add_ref.
Qed.

(** [touch] adds a reference per occurrence and takes the blocks out of the
    free queue. *)
Lemma touch_spec bs : ∀ p l,
  PoolInv p l → Forall (pool_ref p) bs →
  ∃ p', touch p bs = Ok p' ∧ PoolInv p' (filter (λ x, x ∉ bs) l) ∧ pool_frame p p' ∧
    (∀ r, pool_ref p r → refs p' r = refs p r + zcount r bs) ∧
    (∀ r, pool_ref p r → hsh p' r = hsh p r).
Proof.
  induction bs as [|b bs IH]; intros p l H Hp.
  { exists p. rewrite filter_all; [|set_solver]. split_and!; try done.
    intros r _. rewrite zcount_nil. lia. }
  apply Forall_cons in Hp as [Hb Hp].
  destruct (touch_one_spec p l b H Hb) as (p1 & E1 & I1 & F1 & R1 & H1).
  destruct (IH p1 _ I1) as (p2 & E2 & I2 & F2 & R2 & H2).
  { eapply Forall_impl; [done|]. intros x. by rewrite (pool_frame_ref _ _ _ F1). }
  exists p2. unfold touch in *. cbn. rewrite E1. cbn. split_and!; [done| |by etrans| |].
  - rewrite list_filter_filter in I2.
    rewrite (list_filter_iff _ (λ x, (x ∉ bs) ∧ x ≠ b)) //. intros x. set_solver.
  - intros r Hr. rewrite R2 ?R1 ?zcount_cons //; [lia|]. by rewrite (pool_frame_ref _ _ _ F1).
  - intros r Hr. rewrite H2 ?H1 //. by rewrite (pool_frame_ref _ _ _ F1).
Qed.

(** Dropping references in the first loop of [free_blocks]. *)
Lemma drop_refs_spec bs : ∀ p,
  Forall (pool_ref p) bs →
  let p' := foldl (λ p b, add_ref p b (-1)) p bs in
  pool_frame p p' ∧ keeps_queue p p' ∧
  cached_block_hash_to_block p' = cached_block_hash_to_block p ∧
  (∀ r, refs p' r = refs p r - zcount r bs) ∧ (∀ r, hsh p' r = hsh p r).
Proof.
  induction bs as [|b bs IH]; intros p Hp; cbn.
  { split_and!; try done. intros r. rewrite zcount_nil. lia. }
  apply Forall_cons in Hp as [Hb Hp]. pose proof (pool_frame_add_ref p b (-1)) as F1.
  destruct (IH (add_ref p b (-1))) as (F & Q & C & R & HH).
  { eapply Forall_impl; [done|]. intros x. by rewrite (pool_frame_ref _ _ _ F1). }
  split_and!.
  - by etrans.
  - etrans; [|done]. by apply keeps_queue_modify.
  - by rewrite C.
  - intros r. rewrite R refs_add_ref // zcount_cons. goal_decide; lia.
  - intros r. by rewrite HH hsh_add_ref.
Qed.

(** [free_blocks] drops a reference per block and appends the blocks that
    lost their last one to the free queue, in the order given. *)
Lemma free_blocks_spec p l bs :
  PoolInv p l → Forall (pool_ref p) bs → NoDup (filter (λ b, b ≠ null_block p) bs) →
  (∀ b, b ∈ bs → b ≠ null_block p → 0 < refs p b) →
  ∃ p', free_blocks p bs = Ok p' ∧
    PoolInv p' (l ++ filter (λ b, refs p b = 1 ∧ b ≠ null_block p) bs) ∧ pool_frame p p' ∧
    (∀ r, pool_ref p r → refs p' r = refs p r - zcount r bs) ∧
    (∀ r, pool_ref p r → hsh p' r = hsh p r).
Proof.
  intros H Hp Hnd Hpos. destruct (drop_refs_spec bs p Hp) as (F & Q & C & R & HH).
  unfold free_blocks. set (p1 := foldl _ p bs) in *.
  assert (∀ b, b ∈ bs → b ≠ null_block p → zcount b bs = 1) as Hone.
  { intros b Hb Hne. pose proof (zcount_NoDup b _ Hnd) as E.
    rewrite zcount_filter decide_True // in E. rewrite E decide_True //.
    by apply list_elem_of_filter. }
  assert (filter (λ b, ref_cnt (blk p1 b) = 0 ∧ is_null (blk p1 b) = false) bs =
          filter (λ b, refs p b = 1 ∧ b ≠ null_block p) bs) as ->.
  { apply list_filter_iff_elem. intros b Hb. fold (refs p1 b) (nullb p1 b). rewrite R.
    destruct (static_id p b (pi_static _ _ H)) as (i & -> & _ & Hn).
    { by eapply Forall_forall in Hp. }
    destruct (pf_blocks _ _ F i) as [_ ->]. rewrite Hn bool_decide_eq_false.
    split; intros [? Hne]; pose proof (Hone _ Hb Hne); (split; [lia|done]). }
  set (fr := filter _ bs).
  assert (∀ b, b ∈ fr → b ∈ bs ∧ refs p b = 1 ∧ b ≠ null_block p) as Hfr.
  { intros b. unfold fr. rewrite list_elem_of_filter. tauto. }
  rewrite Forall_forall in Hp.
  destruct (append_n_spec (free_block_queue p1) l fr) as (q & -> & Hq & Hm).
  - apply Q, H.
  - apply Forall_forall. intros b Hb%Hfr. rewrite -/(pool_ref p1 b) (pool_frame_ref _ _ _ F).
    apply Hp, Hb.
  - unfold fr. eapply sublist_NoDup; [exact Hnd|].
    apply filter_and_sublist.
  - intros b Hb%Hfr Hbl. apply (PoolInv_free_ref _ _ _ H) in Hbl. lia.
  - pose proof (pool_frame_set_queue p1 q Hm) as F2.
    assert (pool_frame p (set_queue p1 q)) as F' by by etrans.
    assert (∀ r, pool_ref p r → refs (set_queue p1 q) r = refs p r - zcount r bs) as R'.
    { intros r Hr. rewrite -R. apply set_queue_same; [done|]. by rewrite (pool_frame_ref _ _ _ F). }
    assert (∀ r, pool_ref p r → hsh (set_queue p1 q) r = hsh p r) as H'.
    { intros r Hr. rewrite -HH. apply set_queue_same; [done|]. by rewrite (pool_frame_ref _ _ _ F). }
    exists (set_queue p1 q). cbn. split; [done|]. split_and!; [|done..]. split.
    + done.
    + eapply pool_frame_static; [exact F'|apply H].
    + intros r Hr Hne. apply (pool_frame_ref _ _ _ F') in Hr. rewrite (pf_null _ _ F') in Hne.
      rewrite R' //. destruct (pi_refs _ _ H r Hr Hne) as [Hr0 Hiff].
      rewrite elem_of_app Hiff. unfold fr. rewrite list_elem_of_filter.
      destruct (decide (r ∈ bs)) as [Hin|Hin].
      * rewrite Hone //. specialize (Hpos r Hin Hne). split; [lia|]. split; [|right; split_and!; [lia|done..]].
        intros [?|[[??]?]]; lia.
      * rewrite (proj2 (zcount_0 r bs) Hin). split; [lia|]. rewrite Z.sub_0_r. tauto.
    + rewrite (pf_null _ _ F') elem_of_app. intros [Hin|Hin%Hfr]; [|tauto].
      by apply (pi_null_free _ _ H).
    + apply (CacheInv_same p); [done|done|by cbn; rewrite C|apply H..].
Qed.

Lemma PoolInv_evict p l b :
  PoolInv p l → pool_ref p b →
  let p' := (_maybe_evict_cached_block p b).1 in
  PoolInv p' l ∧ pool_frame p p' ∧ (∀ r, refs p' r = refs p r) ∧
  (∀ r, hsh p' r = if decide (b = r) then None else hsh p r).
Proof.
  intros H Hb p'. destruct (evict_spec p b (pi_cache _ _ H) (pi_static _ _ H) Hb)
    as (C & F & Q & R & HH & _). fold p' in C, F, Q, R, HH.
  split_and!; [|done..]. split.
  - apply Q, H.
  - eapply pool_frame_static; [done|apply H].
  - intros r Hr Hne. rewrite (pf_null _ _ F) in Hne. rewrite R.
    apply (pi_refs _ _ H); [|done]. by rewrite -(pool_frame_ref _ _ _ F).
  - rewrite (pf_null _ _ F). apply H.
  - done.
Qed.

Lemma block_at_ok p i :
  0 ≤ i < zlen (fq_blocks (free_block_queue p)) →
  block_at p i = Ok (Blk (Z.to_nat i)) ∧ pool_ref p (Blk (Z.to_nat i)).
Proof.
  intros Hi. unfold block_at, py_nth, zlen in *.
  rewrite (bool_decide_false (i < 0)); [|lia]. rewrite bool_decide_false; [|lia].
  rewrite lookup_seq_lt; [|lia]. split; [done|]. eexists; split; [done|lia].
Qed.

(** [evict_blocks] only takes the blocks out of the prefix cache. *)
Lemma evict_blocks_spec ids : ∀ p l,
  PoolInv p l → Forall (λ i, 0 ≤ i < num_gpu_blocks p) ids →
  ∃ p', evict_blocks p ids = Ok p' ∧ PoolInv p' l ∧ pool_frame p p' ∧
    (∀ r, refs p' r = refs p r) ∧
    (∀ r, hsh p' r = if decide (r ∈ Blk ∘ Z.to_nat <$> ids) then None else hsh p r).
Proof.
  induction ids as [|i ids IH]; intros p l H Hids.
  { exists p. split_and!; try done. }
  apply Forall_cons in Hids as [Hi Hids].
  rewrite -(st_length _ (pi_static _ _ H)) in Hi. destruct (block_at_ok p i Hi) as [E Hb].
  destruct (PoolInv_evict p l _ H Hb) as (I1 & F1 & R1 & H1).
  set (p1 := (_maybe_evict_cached_block p (Blk (Z.to_nat i))).1) in *.
  destruct (IH p1 l I1) as (p2 & E2 & I2 & F2 & R2 & H2).
  { by rewrite (pf_num _ _ F1). }
  exists p2. unfold evict_blocks in *. cbn [foldM]. rewrite bool_decide_true; [|lia].
  cbn [py_assert mbind res_bind]. rewrite E. cbn [mbind res_bind]. fold p1.
  split_and!; [done|done|by etrans| |].
  - intros r. by rewrite R2 R1.
  - intros r. rewrite H2 H1. repeat goal_decide; set_solver.
Qed.

Lemma PoolInv_set_events p l e : PoolInv p l → PoolInv (set_events p e) l.
Proof. intros [Q [] R N []]. split; [done|by split|done|done|by split]. Qed.

Lemma reset_hashes_spec is_ : ∀ p,
  Forall (λ i, pool_ref p (Blk i)) is_ →
  let p' := foldl (λ p i, reset_hash p (Blk i)) p is_ in
  pool_frame p p' ∧ keeps_queue p p' ∧
  cached_block_hash_to_block p' = cached_block_hash_to_block p ∧
  (∀ r, refs p' r = refs p r) ∧
  (∀ r, hsh p' r = if decide (r ∈ Blk <$> is_) then None else hsh p r).
Proof.
  induction is_ as [|i is_ IH]; intros p Hp; cbn [foldl]; [split_and!; try done|].
  apply Forall_cons in Hp as [Hi Hp]. pose proof (pool_frame_reset_hash p (Blk i)) as F1.
  destruct (IH (reset_hash p (Blk i))) as (F & Q & C & R & HH).
  { eapply Forall_impl; [done|]. intros x. by rewrite (pool_frame_ref _ _ _ F1). }
  split_and!.
  - by etrans.
  - etrans; [|done]. by apply keeps_queue_modify.
  - by rewrite C.
  - intros r. by rewrite R refs_reset_hash.
  - intros r. rewrite HH hsh_reset_hash //. repeat goal_decide; set_solver.
Qed.

(** [reset_prefix_cache] succeeds exactly when every block is free, and then
    no block is cached. *)
Lemma reset_prefix_cache_spec p l :
  PoolInv p l →
  let '(p', ok) := reset_prefix_cache p in
  PoolInv p' l ∧ pool_frame p p' ∧ (∀ r, refs p' r = refs p r) ∧
  ok = bool_decide (zlen l = num_gpu_blocks p - 1) ∧
  (if ok then cached_block_hash_to_block p' = ∅ ∧ ∀ r, pool_ref p r → hsh p' r = None
   else p' = p).
Proof.
  intros H. unfold reset_prefix_cache. rewrite (PoolInv_num_free _ _ H).
  case_bool_decide as Hu; [split_and!; try done; by rewrite bool_decide_false; [|lia]|].
  cbn [free_block_queue set_cache].
  destruct (reset_hashes_spec (seq 0 (length (fq_blocks (free_block_queue p)))) (set_cache p ∅))
    as (F & Q & C & R & HH).
  { apply Forall_seq. intros j Hj. exists j. split; [done|]. cbn. lia. }
  set (p2 := foldl _ _ _) in *.
  assert (pool_frame p p2) as F' by (etrans; [apply pool_frame_set_cache|exact F]).
  assert (∀ r, pool_ref p r → hsh p2 r = None) as Hn.
  { intros r (i & -> & Hi). rewrite HH decide_True //. apply list_elem_of_fmap. exists i.
    split; [done|]. apply elem_of_seq. lia. }
  assert (PoolInv p2 l) as I2.
  { split.
    - apply Q, H.
    - eapply pool_frame_static; [done|apply H].
    - intros r Hr Hne. rewrite (pf_null _ _ F') in Hne. rewrite R.
      apply (pi_refs _ _ H); [|done]. by rewrite -(pool_frame_ref _ _ _ F').
    - rewrite (pf_null _ _ F'). apply H.
    - split.
      + intros key r. rewrite C lookup_empty (pool_frame_ref _ _ _ F').
        split; [set_solver|]. intros [Hr Hk]. by rewrite Hn in Hk.
      + rewrite C. apply map_Forall_empty.
      + rewrite (pf_null _ _ F'). apply Hn, null_ref, H.
      + done. }
  destruct (enable_kv_cache_events p2); cbn [fst snd].
  - split_and!; [by apply PoolInv_set_events|by etrans; [|apply pool_frame_set_events]|done| |by rewrite /= C|done].
    rewrite bool_decide_true //. lia.
  - split_and!; try done. rewrite bool_decide_true //. lia.
Qed.

(** The pool just created: every block but the null block is free, none is
    cached. *)
Lemma BlockPool_init_spec n caching hbs events :
  0 < n →
  ∃ p, BlockPool_init n caching hbs events = Ok p ∧
    PoolInv p (Blk <$> seq 1 (Z.to_nat n - 1)) ∧
    num_gpu_blocks p = n ∧ enable_caching p = caching ∧ hash_block_size p = hbs ∧
    enable_kv_cache_events p = events ∧ kv_event_queue p = [] ∧
    (∀ r, pool_ref p r → refs p r = 0 ∧ hsh p r = None).
Proof.
  intros Hn. unfold BlockPool_init. rewrite bool_decide_true //. cbn [py_assert mbind res_bind].
  set (bs := new_block <$> zrange 0 n).
  assert (length bs = Z.to_nat n) as Hlen.
  { unfold bs, zrange. rewrite length_fmap length_seqZ. lia. }
  destruct (FreeKVCacheBlockQueue_init_spec bs) as [Hq Hm].
  { unfold bs. apply Forall_fmap, Forall_forall. done. }
  rewrite Hlen in Hq. destruct (Z.to_nat n) as [|m] eqn:Em; [lia|].
  change (Blk <$> seq 0 (S m)) with (Blk 0 :: (Blk <$> seq 1 m)) in Hq.
  destruct (popleft_spec _ _ _ Hq) as (q & -> & Hq' & Hm'). cbn [mbind res_bind].
  set (p0 := mkPool n caching hbs q ∅ (Blk 0) events []).
  set (p := modify_block p0 (Blk 0) (λ b, with_null b true)).
  assert (length (fq_blocks q) = S m) as Hlq.
  { rewrite (same_meta_length _ _ Hm') -(length_fmap meta) Hm length_fmap Hlen. done. }
  assert (∀ i, (i < S m)%nat → meta (blk p0 (Blk i)) = new_block (Z.of_nat i)) as Hb0.
  { intros i Hi. unfold blk. cbn [p0 free_block_queue deref].
    assert (meta <$> fq_blocks q !! i = Some (new_block (Z.of_nat i))) as E.
    { unfold same_meta in Hm'. rewrite -list_lookup_fmap Hm' Hm list_lookup_fmap. unfold bs, zrange.
      rewrite list_lookup_fmap lookup_seqZ_lt; [|lia]. done. }
    destruct (fq_blocks q !! i); cbn in *; congruence. }
  assert (∀ i, pool_ref p (Blk i) → (i < S m)%nat) as Hpr.
  { intros i (j & [= ->] & Hj). unfold p in Hj. cbn in Hj. rewrite length_alter in Hj. lia. }
  assert (∀ r, pool_ref p r → refs p r = 0 ∧ hsh p r = None) as Hrh.
  { intros r Hr. destruct Hr as (i & -> & Hi). pose proof (Hpr i ltac:(by exists i)) as Hi'.
    specialize (Hb0 i Hi'). unfold refs, hsh, p.
    rewrite (blk_modify_field ref_cnt) // (blk_modify_field block_hash) //.
    split; [apply (f_equal ref_cnt Hb0)|apply (f_equal block_hash Hb0)]. }
  exists p. replace (S m - 1)%nat with m by lia. split_and!; try done. split.
  - by apply repr_modify.
  - split; [done| |done|].
    + unfold p, zlen. cbn. rewrite length_alter. lia.
    + intros i Hi%Hpr. specialize (Hb0 i Hi). unfold id_of, nullb, p. split.
      * rewrite (blk_modify_field block_id) //. apply (f_equal block_id Hb0).
      * rewrite blk_modify; [|exists 0%nat; split; [done|cbn; lia]].
        destruct (decide (Blk 0 = Blk i)) as [E|]; cbn [null_block modify_block set_queue p0].
        -- injection E as <-. done.
        -- rewrite bool_decide_false; [|done]. apply (f_equal is_null Hb0).
  - intros r Hr Hne. destruct (Hrh r Hr) as [-> _]. split; [done|].
    split; [done|]. intros _. destruct Hr as (i & -> & Hi).
    apply list_elem_of_fmap. exists i. split; [done|]. apply elem_of_seq.
    pose proof (Hpr i ltac:(by exists i)). cbn in Hne. destruct i; [done|lia].
  - cbn. intros (i & [= <-] & Hi%elem_of_seq)%list_elem_of_fmap. lia.
  - split.
    + intros key r. cbn. rewrite lookup_empty. split; [set_solver|].
      intros [Hr Hk]. destruct (Hrh r Hr). congruence.
    + apply map_Forall_empty.
    + apply Hrh. exists 0%nat. split; [done|]. cbn. rewrite length_alter. lia.
    + done.
Qed.

(** A hit is a block that carries the key of its group; a miss means that no
    block carries the key of some group. *)
Lemma get_cached_block_spec p h gs :
  CacheInv p → Forall valid_group_id gs →
  ∃ o, get_cached_block p h gs = Ok o ∧
    match o with
    | Some bs => Forall2 (λ g b, pool_ref p b ∧ hsh p b = Some (block_key h g)) gs bs
    | None => ∃ g, g ∈ gs ∧ ∀ b, pool_ref p b → hsh p b ≠ Some (block_key h g)
    end.
Proof.
  intros HC. induction gs as [|g gs IH]; intros Hg; [by exists (Some [])|].
  apply Forall_cons in Hg as [Hg Hgs]. destruct (IH Hgs) as (o & E & Ho).
  cbn [get_cached_block]. rewrite make_block_hash_ok //. cbn [mbind res_bind]. fold (block_key h g).
  pose proof (λ b, ci_hash _ HC (block_key h g) b) as Hk.
  assert (∃ x, get_one_block (cached_block_hash_to_block p) (block_key h g) = Ok x ∧
    match x with
    | Some b => pool_ref p b ∧ hsh p b = Some (block_key h g)
    | None => ∀ b, pool_ref p b → hsh p b ≠ Some (block_key h g)
    end) as (x & -> & Hx).
  { unfold get_one_block.
    destruct (cached_block_hash_to_block p !! block_key h g) as [[b|d]|] eqn:El.
    - exists (Some b). split; [done|]. apply Hk. set_solver.
    - pose proof (ci_wf _ HC _ _ El) as (Hd & _). destruct d as [|[k b] d]; [done|].
      exists (Some b). split; [done|]. apply Hk. set_solver.
    - exists None. split; [done|]. intros b Hb E'. by apply (not_elem_of_nil b), Hk. }
  cbn [mbind res_bind]. destruct x as [b|].
  - rewrite E. cbn. eexists; split; [done|]. destruct o as [bs|]; cbn.
    + by constructor.
    + destruct Ho as (g' & ? & ?). exists g'. split; [by right|done].
  - eexists; split; [done|]. exists g. split; [by left|done].
Qed.

(** Caching one full block: the iteration of [cache_full_blocks] on a block
    that is not the null block. *)
Definition cache_one (p : BlockPool) (b : block_ref) (key : bytes) : BlockPool :=
  let p1 := modify_block p b (λ x, with_hash x (Some key)) in
  set_cache p1 (cache_insert (id_of p1) (cached_block_hash_to_block p1) key b).

Lemma cache_one_spec p l b key :
  PoolInv p l → enable_caching p = true → pool_ref p b → b ≠ null_block p → hsh p b = None →
  let p' := cache_one p b key in
  PoolInv p' l ∧ pool_frame p p' ∧ (∀ r, refs p' r = refs p r) ∧
  (∀ r, hsh p' r = if decide (b = r) then Some key else hsh p r).
Proof.
  intros H Hc Hb Hne Hh. unfold cache_one.
  set (p1 := modify_block p b (λ x, with_hash x (Some key))). cbn zeta.
  assert (pool_frame p p1) as F1 by by apply pool_frame_modify.
  assert (∀ r, hsh p1 r = if decide (b = r) then Some key else hsh p r) as H1.
  { intros r. unfold hsh, p1. rewrite blk_modify //. by goal_decide. }
  assert (∀ r, refs p1 r = refs p r) as R1 by (intros r; by apply (blk_modify_field ref_cnt)).
  set (p2 := set_cache p1 _). assert (pool_frame p p2) as F by by etrans; [|apply pool_frame_set_cache].
  split_and!; [|done..]. pose proof (pool_frame_static _ _ F1 (pi_static _ _ H)) as S1.
  pose proof (pi_cache _ _ H) as HC.
  destruct (static_id p1 b S1) as (i & -> & Hid & _); [by rewrite (pool_frame_ref _ _ _ F1)|].
  destruct (cache_insert_spec (id_of p1) (cached_block_hash_to_block p) key i) as [Hwf Hin].
  { apply HC. } { done. }
  { intros r [Hr _]%(ci_hash _ HC). destruct (static_id p1 r S1) as (j & ? & ? & _); [|eauto].
    by rewrite (pool_frame_ref _ _ _ F1). }
  { intros [_ E]%(ci_hash _ HC). congruence. }
  split.
  - apply keeps_queue_modify; [done|apply H].
  - eapply pool_frame_static; [done|apply H].
  - intros r Hr Hn. change (refs p2 r) with (refs p1 r). rewrite R1. apply (pi_refs _ _ H); [|done].
    by rewrite -(pool_frame_ref _ _ _ F).
  - apply H.
  - split.
    + intros key' r. cbn. rewrite Hin (ci_hash _ HC) (pool_frame_ref _ _ _ F).
      change (hsh p2 r) with (hsh p1 r). rewrite H1. goal_decide; [subst|naive_solver].
      rewrite Hh. naive_solver.
    + done.
    + change (hsh p2 (null_block p2)) with (hsh p1 (null_block p)). rewrite H1.
      goal_decide; [done|apply HC].
    + intros Hoff. cbn in Hoff. congruence.
Qed.

Lemma cache_blocks_loop_spec g hs bs : ∀ p l i news,
  PoolInv p l → enable_caching p = true → valid_group_id g → 0 ≤ i →
  i + zlen bs ≤ zlen hs → Forall (pool_ref p) bs →
  NoDup (filter (λ b, b ≠ null_block p) bs) →
  (∀ b, b ∈ bs → b ≠ null_block p → hsh p b = None) →
  ∃ p' news', cache_blocks_loop p i bs hs g news = Ok (p', news') ∧ PoolInv p' l ∧
    pool_frame p p' ∧ (∀ r, refs p' r = refs p r) ∧
    (∀ j b h, bs !! j = Some b → b ≠ null_block p → hs !! (Z.to_nat i + j)%nat = Some h →
      hsh p' b = Some (block_key h g)) ∧
    (∀ b, b ∉ bs ∨ b = null_block p → hsh p' b = hsh p b).
Proof.
  induction bs as [|b bs IH]; intros p l i news H Hc Hg Hi Hlen Hp Hnd Hh.
  { exists p, news. split_and!; try done. }
  apply Forall_cons in Hp as [Hb Hp]. cbn [cache_blocks_loop].
  assert (zlen (b :: bs) = 1 + zlen bs) as El by (unfold zlen; cbn [length]; lia).
  fold (nullb p b). destruct (static_id _ _ (pi_static _ _ H) Hb) as (ib & _ & _ & ->).
  destruct (decide (b = null_block p)) as [->|Hne].
  - rewrite bool_decide_true //. rewrite filter_cons_False in Hnd; [|tauto].
    destruct (IH p l (i + 1) news) as (p' & n' & E & I & F & R & H1 & H2);
      [done|done|done|lia|lia|done|done|set_solver|].
    exists p', n'. split_and!; try done.
    + intros [|j] b h Hj Hb' Hhj; [by injection Hj as <-|]. eapply (H1 j); [done..|].
      by replace (Z.to_nat (i + 1) + j)%nat with (Z.to_nat i + S j)%nat by lia.
    + intros b [Hn|Hn]; apply H2; set_solver.
  - rewrite bool_decide_false //. fold (hsh p b). rewrite (Hh b); [|by left|done].
    cbn [is_some negb py_assert mbind res_bind].
    unfold py_nth. rewrite (bool_decide_false (i < 0)); [|lia]. rewrite bool_decide_false; [|lia].
    destruct (hs !! Z.to_nat i) as [h|] eqn:Eh.
    2:{ apply lookup_ge_None in Eh. unfold zlen in *. lia. }
    cbn [mbind res_bind]. rewrite make_block_hash_ok //. cbn [mbind res_bind].
    unfold set_block_hash at 1. fold (hsh p b). rewrite (Hh b); [|by left|done].
    cbn [is_some negb py_assert mbind res_bind]. fold (block_key h g).
    fold (cache_one p b (block_key h g)).
    rewrite filter_cons_True // in Hnd. apply NoDup_cons in Hnd as [Hnb Hnd].
    assert (b ∉ bs) as Hbn by (intros ?; apply Hnb; by apply list_elem_of_filter).
    destruct (cache_one_spec p l b (block_key h g) H Hc Hb Hne) as (I1 & F1 & R1 & H1);
      [apply Hh; [by left|done]|].
    set (p1 := cache_one p b (block_key h g)) in *. 
    match goal with |- context [cache_blocks_loop _ (i + 1) bs hs g ?n] => set (news1 := n) end.
    destruct (IH p1 l (i + 1) news1) as (p' & n' & E & I & F & R & H3 & H4);
      [done|by rewrite (pf_caching _ _ F1)|done|lia|lia| |by rewrite (pf_null _ _ F1)| |].
    { eapply Forall_impl; [done|]. intros x. by rewrite (pool_frame_ref _ _ _ F1). }
    { intros x Hx Hn. rewrite (pf_null _ _ F1) in Hn. rewrite H1. goal_decide; [by subst|].
      apply Hh; [by right|done]. }
    rewrite (pf_null _ _ F1) in H3, H4.
    exists p', n'. split_and!; [done|done|by etrans|by intros; rewrite R R1| |].
    + intros [|j] x hx Hj Hx Hhj.
      * injection Hj as <-. rewrite Nat.add_0_r Eh in Hhj. injection Hhj as <-.
        rewrite H4; [|by left]. rewrite H1. by goal_decide.
      * eapply (H3 j); [done..|].
        by replace (Z.to_nat (i + 1) + j)%nat with (Z.to_nat i + S j)%nat by lia.
    + intros x Hx. rewrite H4; [|set_solver]. rewrite H1. goal_decide; [|done]. set_solver.
Qed.

(** The hashes of a request at the granularity of [bs], as a plain list. *)
Definition hashes_at (hbs bs : Z) (r : Request) : list bytes :=
  if bool_decide (bs = hbs) then block_hashes r
  else bhl_iter (ScaledHashes (block_hashes r) (bs / hbs)).

Lemma block_hashes_for_spec p r bs :
  0 < hash_block_size p → 0 < bs → bs `mod` hash_block_size p = 0 →
  zlen (hashes_at (hash_block_size p) bs r) ≤ zlen (block_hashes r) ∧
  ∃ hl, block_hashes_for p r bs = Ok hl ∧ bhl_iter hl = hashes_at (hash_block_size p) bs r ∧
    (∀ i, 0 ≤ i ≤ zlen (bhl_iter hl) → bhl_slice_from hl i = drop (Z.to_nat i) (bhl_iter hl)) ∧
    (∀ i, 0 ≤ i < zlen (bhl_iter hl) → ∃ h, bhl_get hl i = Ok h ∧ bhl_iter hl !! Z.to_nat i = Some h).
Proof.
  intros Hh Hb Hm. unfold hashes_at, block_hashes_for.
  case_bool_decide as E.
  { split; [done|]. eexists; split; [done|]. split; [done|]. cbn. split.
    - intros i Hi. apply py_slice_from_drop; lia.
    - intros i Hi. destruct (zlen_lookup _ _ Hi) as [h Eh]. exists h. split; [|done].
      apply py_nth_ok; [lia|done]. }
  assert (0 < bs / hash_block_size p) as Hk.
  { pose proof (Z.div_mod bs (hash_block_size p)). nia. }
  set (k := bs / hash_block_size p) in *.
  assert (0 ≤ zlen (block_hashes r)) as Hl by (unfold zlen; lia).
  assert (0 ≤ zlen (block_hashes r) / k) as Hlk by (apply Z.div_pos; lia).
  assert (zlen (bhl_iter (ScaledHashes (block_hashes r) k)) = zlen (block_hashes r) / k) as El.
  { cbn. unfold zrange. rewrite /zlen length_fmap length_seqZ. unfold zlen in *. lia. }
  split.
  { rewrite El. apply Z.div_le_upper_bound; nia. }
  rewrite bool_decide_true //. cbn [py_assert mbind res_bind].
  unfold BlockHashListWithBlockSize_init. rewrite bool_decide_true //. cbn [py_assert mbind res_bind].
  eexists; split; [done|]. fold k. split; [done|]. rewrite El. split.
  - intros i Hi. cbn. rewrite skipn_map. unfold zrange, clamp_index.
    rewrite bool_decide_false; [|lia]. rewrite Z.min_l; [|lia]. f_equal.
    rewrite drop_seqZ; [|lia]. f_equal; lia.
  - intros i Hi. eexists; split; [done|]. cbn. rewrite list_lookup_fmap. unfold zrange.
    rewrite lookup_seqZ_lt; [|lia]. cbn. do 2 f_equal. lia.
Qed.

Lemma extra_keys_loop_ok p r blocks bs idxs : ∀ mm,
  -1 ≤ mm → Forall (λ i, 0 ≤ i < zlen blocks) idxs →
  ∃ ks, extra_keys_loop p r blocks bs mm idxs = Ok ks.
Proof.
  induction idxs as [|i idxs IH]; intros mm Hmm Hi; [by eexists|].
  apply Forall_cons in Hi as [Hi His]. cbn [extra_keys_loop].
  destruct (zlen_lookup _ _ Hi) as [b Eb]. rewrite (py_nth_ok _ _ b) //; [|lia].
  cbn [mbind res_bind]. case_match; [by apply IH|].
  destruct (gen_keys_ok env_sha256 r (i * bs) (i * bs + bs) mm Hmm) as (ks & j & -> & Hj).
  cbn [mbind res_bind]. destruct (IH j Hj His) as [ks' ->]. by eexists.
Qed.

(** [cache_full_blocks] gives the full blocks that are not the null block the
    keys of their hashes and enters them into the cache. *)
Lemma cache_full_blocks_spec p l r blocks nc nf bs g :
  PoolInv p l → enable_caching p = true → valid_group_id g →
  0 < hash_block_size p → 0 < bs → bs `mod` hash_block_size p = 0 →
  0 ≤ nc → nf ≤ zlen blocks → nf ≤ zlen (hashes_at (hash_block_size p) bs r) →
  Forall (pool_ref p) blocks →
  let new := take (Z.to_nat (nf - nc)) (drop (Z.to_nat nc) blocks) in
  NoDup (filter (λ b, b ≠ null_block p) new) →
  (∀ b, b ∈ new → b ≠ null_block p → hsh p b = None) →
  ∃ p', cache_full_blocks p r blocks nc nf bs g = Ok p' ∧ PoolInv p' l ∧ pool_frame p p' ∧
    (∀ x, refs p' x = refs p x) ∧
    (∀ j b h, nc ≤ Z.of_nat j < nf → blocks !! j = Some b → b ≠ null_block p →
      hashes_at (hash_block_size p) bs r !! j = Some h → hsh p' b = Some (block_key h g)) ∧
    (∀ b, b ∉ new ∨ b = null_block p → hsh p' b = hsh p b).
Proof.
  intros H Hc Hg Hhbs Hbs Hmod Hnc Hnf Hnh Hp new Hnd Hh. unfold cache_full_blocks.
  case_bool_decide as Hle.
  { exists p. split_and!; try done. intros j b h Hj. lia. }
  destruct (block_hashes_for_spec p r bs Hhbs Hbs Hmod) as (Hll & hl & E & Ei & Hs & Hget).
  rewrite -Ei in Hnh. rewrite bool_decide_true; [|rewrite -Ei in Hll; lia].
  cbn [py_assert mbind res_bind]. rewrite E. cbn [mbind res_bind].
  rewrite py_slice_take_drop; [|lia..]. fold new. rewrite Hs; [|lia].
  assert (zlen new = nf - nc) as Hln.
  { unfold new. rewrite zlen_take ?zlen_drop; lia. }
  destruct (cache_blocks_loop_spec g (drop (Z.to_nat nc) (bhl_iter hl)) new p l 0 [])
    as (p' & news & -> & I & F & R & H1 & H2); [done|done|done|lia| | |done|done|].
  { rewrite zlen_drop; lia. }
  { rewrite Forall_forall in Hp. apply Forall_forall. intros x Hx. apply Hp.
    unfold new in Hx. apply elem_of_take in Hx as (j & Hx & _).
    rewrite lookup_drop in Hx. by apply list_elem_of_lookup_2 in Hx. }
  cbn [mbind res_bind].
  assert (∀ j b h, nc ≤ Z.of_nat j < nf → blocks !! j = Some b → b ≠ null_block p →
    hashes_at (hash_block_size p) bs r !! j = Some h → hsh p' b = Some (block_key h g)) as H1'.
  { intros j b h Hj Hb Hne Hhj. apply (H1 (j - Z.to_nat nc)%nat); [|done|].
    - unfold new. rewrite lookup_take_lt; [|lia]. rewrite lookup_drop -Hb. f_equal. lia.
    - rewrite lookup_drop Ei -Hhj. f_equal. lia. }
  destruct (enable_kv_cache_events p); [|by exists p'].
  assert (∃ e, stored_event p' r blocks hl news nc nf bs g = Ok e) as [e ->].
  { unfold stored_event.
    destruct (extra_keys_loop_ok p' r blocks bs (zrange nc nf) 0) as [ks ->]; [lia| |].
    { apply Forall_forall. intros i Hi%elem_of_seqZ. lia. }
    case_bool_decide; [by eexists|]. destruct (Hget (nc - 1)) as (h & -> & _); [lia|].
    by eexists. }
  eexists; split; [done|]. split_and!; [by apply PoolInv_set_events| |done..].
  by etrans; [|apply pool_frame_set_events].
Qed.
End PoolProofs.

(** ** The pool as a state machine *)

(** A call of a method that changes the pool. *)
Inductive pool_op :=
  | OpNew (num_blocks : Z)
  | OpTouch (blocks : list block_ref)
  | OpFree (ordered_blocks : list block_ref)
  | OpCache (request : Request) (blocks : list block_ref)
      (num_cached_blocks num_full_blocks block_size kv_cache_group_id : Z)
  | OpEvict (block_ids : list Z)
  | OpReset
  | OpTakeEvents.

Definition run_pool_op `{KVEnv} (p : BlockPool) (o : pool_op) : res BlockPool :=
  match o with
  | OpNew n => '(p, _) ← get_new_blocks p n; Ok p
  | OpTouch bs => touch p bs
  | OpFree bs => free_blocks p bs
  | OpCache r blocks nc nf bs g => cache_full_blocks p r blocks nc nf bs g
  | OpEvict ids => evict_blocks p ids
  | OpReset => Ok (reset_prefix_cache p).1
  | OpTakeEvents => Ok (take_events p).1
  end.

(** What the callers of the pool respect: no more blocks are requested than
    are free, only referenced blocks are freed, each once, and only blocks
    without a hash are entered into the cache, with a hash for each. *)
Definition pool_pre (p : BlockPool) (o : pool_op) : Prop :=
  match o with
  | OpNew n => 0 ≤ n ≤ get_num_free_blocks p
  | OpTouch bs => Forall (pool_ref p) bs
  | OpFree bs =>
      Forall (pool_ref p) bs ∧ NoDup (filter (λ b, b ≠ null_block p) bs) ∧
      (∀ b, b ∈ bs → b ≠ null_block p → 0 < refs p b)
  | OpCache r blocks nc nf bs g =>
      let new := take (Z.to_nat (nf - nc)) (drop (Z.to_nat nc) blocks) in
      enable_caching p = true ∧ valid_group_id g ∧
      0 < hash_block_size p ∧ 0 < bs ∧ bs `mod` hash_block_size p = 0 ∧
      0 ≤ nc ∧ nf ≤ zlen blocks ∧ nf ≤ zlen (hashes_at (hash_block_size p) bs r) ∧
      Forall (pool_ref p) blocks ∧ NoDup (filter (λ b, b ≠ null_block p) new) ∧
      (∀ b, b ∈ new → b ≠ null_block p → hsh p b = None)
  | OpEvict ids => Forall (λ i, 0 ≤ i < num_gpu_blocks p) ids
  | OpReset | OpTakeEvents => True
  end.

Inductive pool_reach `{KVEnv} : BlockPool → Prop :=
  | reach_init n caching hbs events p :
      BlockPool_init n caching hbs events = Ok p → pool_reach p
  | reach_step p o p' :
      pool_reach p → pool_pre p o → run_pool_op p o = Ok p' → pool_reach p'.

Section Reach.
Context {env : KVEnv}.

(** Every allowed call returns and keeps the invariant. *)
Lemma run_pool_op_spec p l o :
  PoolInv p l → pool_pre p o → ∃ p' l', run_pool_op p o = Ok p' ∧ PoolInv p' l'.
Proof.
  intros H Hpre. destruct o as [n|bs|bs|r blocks nc nf bs g|ids| |]; cbn in *.
  - rewrite (PoolInv_num_free _ _ H) in Hpre.
    destruct (get_new_blocks_spec p l n H Hpre) as (p' & -> & ? & _). cbn. eauto.
  - destruct (touch_spec bs p l H Hpre) as (p' & -> & ? & _). eauto.
  - destruct Hpre as (? & ? & ?).
    destruct (free_blocks_spec p l bs) as (p' & -> & ? & _); eauto.
  - destruct Hpre as (? & ? & ? & ? & ? & ? & ? & ? & ? & ? & ?).
    destruct (cache_full_blocks_spec p l r blocks nc nf bs g) as (p' & -> & ? & _); eauto.
  - destruct (evict_blocks_spec ids p l H Hpre) as (p' & -> & ? & _). eauto.
  - pose proof (reset_prefix_cache_spec p l H) as Hr. destruct (reset_prefix_cache p) as [p' ok].
    destruct Hr as (? & _). eauto.
  - unfold take_events. destruct (negb _); cbn; [eauto|].
    eexists _, l. split; [done|]. by apply PoolInv_set_events.
Qed.

Lemma pool_reach_inv p : pool_reach p → ∃ l, PoolInv p l.
Proof.
  induction 1 as [n c hbs e p E|p o p' _ [l IH] Hpre E].
  - assert (0 < n) as Hn.
    { unfold BlockPool_init in E. case_bool_decide; [done|]. by cbn in E. }
    destruct (BlockPool_init_spec n c hbs e Hn) as (p0 & E0 & ? & _).
    rewrite E0 in E. injection E as <-. eauto.
  - destruct (run_pool_op_spec p l o IH Hpre) as (p1 & l' & E1 & ?).
    rewrite E1 in E. injection E as <-. eauto.
Qed.

Lemma PoolInv_walk p l :
  PoolInv p l →
  get_all_free_blocks (Z.to_nat (num_gpu_blocks p)) (free_block_queue p) = Ok (Some l).
Proof.
  intros H. apply get_all_free_blocks_spec; [apply H|].
  rewrite -(st_length _ (pi_static _ _ H)). unfold zlen. rewrite Nat2Z.id.
  pose proof (pi_queue _ _ H) as Q.
  rewrite -(length_seq (length (fq_blocks (free_block_queue p))) 0) -(length_fmap Blk).
  apply submseteq_length, NoDup_submseteq; [apply Q|]. intros r Hr.
  pose proof (repr_pool _ _ Q) as Hp. rewrite Forall_forall in Hp.
  destruct (Hp r Hr) as (i & -> & Hi). apply list_elem_of_fmap. exists i. split; [done|].
  apply elem_of_seq. lia.
Qed.
End Reach.

(** ** Main properties *)

(** C7: the pool is safe.  From a freshly created pool, every sequence of
    calls that respects [pool_pre] returns without raising, and at every point
    the walk over the free queue lists, without repetition and without the null
    block, exactly the blocks whose reference count is zero; no count is
    negative and the free counter is the length of the walk. *)
Theorem pool_safe `{KVEnv} (p : BlockPool) (o : pool_op) :
  pool_reach p → pool_pre p o →
  ∃ p' l, run_pool_op p o = Ok p' ∧ pool_reach p' ∧
    get_all_free_blocks (Z.to_nat (num_gpu_blocks p')) (free_block_queue p') = Ok (Some l) ∧
    get_num_free_blocks p' = zlen l ∧ NoDup l ∧ (null_block p' ∉ l) ∧
    ∀ b, pool_ref p' b → b ≠ null_block p' → 0 ≤ refs p' b ∧ (b ∈ l ↔ refs p' b = 0).
Proof.
  intros Hr Hpre. destruct (pool_reach_inv p Hr) as [l I].
  destruct (run_pool_op_spec p l o I Hpre) as (p' & l' & E & I').
  exists p', l'. split; [done|]. split; [by eapply reach_step|].
  rewrite (PoolInv_walk _ _ I') (PoolInv_num_free _ _ I').
  split_and!; [done|done|apply (repr_nodup _ _ (pi_queue _ _ I'))|apply I'|apply I'].
Qed.

(** C40: [get_new_blocks].  On a reachable pool, asking for more blocks than
    are free raises [ValueError]; otherwise the call returns the requested
    number of blocks from the front of the free queue.  They are distinct, not
    the null block, unreferenced before and referenced once after the call, and
    no longer cached; every other block keeps its count and its hash. *)
Theorem get_new_blocks_correct `{KVEnv} (p : BlockPool) (n : Z) :
  pool_reach p → 0 ≤ n →
  if bool_decide (get_num_free_blocks p < n) then get_new_blocks p n = Raise ValueError
  else ∃ p' bs l,
    get_new_blocks p n = Ok (p', bs) ∧ zlen bs = n ∧ NoDup bs ∧
    get_all_free_blocks (Z.to_nat (num_gpu_blocks p)) (free_block_queue p) = Ok (Some (bs ++ l)) ∧
    get_all_free_blocks (Z.to_nat (num_gpu_blocks p)) (free_block_queue p') = Ok (Some l) ∧
    (∀ b, b ∈ bs → b ≠ null_block p ∧ refs p b = 0 ∧ refs p' b = 1 ∧ hsh p' b = None) ∧
    (∀ b, pool_ref p b → b ∉ bs → refs p' b = refs p b ∧ hsh p' b = hsh p b).
Proof.
  intros Hr Hn. destruct (pool_reach_inv p Hr) as [l I].
  rewrite (PoolInv_num_free _ _ I). case_bool_decide; [by eapply get_new_blocks_fail|].
  destruct (get_new_blocks_spec p l n I) as (p' & E & I' & F & R & HH); [lia|].
  pose proof (repr_nodup _ _ (pi_queue _ _ I)) as Hnd.
  pose proof (PoolInv_walk _ _ I') as W'. rewrite (pf_num _ _ F) in W'.
  exists p', (take (Z.to_nat n) l), (drop (Z.to_nat n) l). rewrite take_drop.
  split_and!; [done| | |by apply PoolInv_walk|done| |].
  - rewrite zlen_take; lia.
  - rewrite -(take_drop (Z.to_nat n) l) in Hnd. by apply NoDup_app in Hnd as [? _].
  - intros b Hb. destruct (PoolInv_free_ref p l b I) as (Hp & ? & Hz).
    { rewrite -(take_drop (Z.to_nat n) l). set_solver. }
    rewrite R // HH // Hz. by rewrite !decide_True.
  - intros b Hp Hb. rewrite R // HH // !decide_False // Z.add_0_r. done.
Qed.

(** [free_blocks] and the eviction order.  Freeing referenced blocks of a
    reachable pool drops one reference of each; the blocks that lost their last
    reference are put at the back of the free queue in the order given, so that
    blocks freed earlier are handed out first; hashes are kept, so a freed block
    can still be hit until it is handed out. *)
Theorem free_blocks_order `{KVEnv} (p : BlockPool) (bs : list block_ref) :
  pool_reach p → pool_pre p (OpFree bs) →
  ∃ p' l, free_blocks p bs = Ok p' ∧
    get_all_free_blocks (Z.to_nat (num_gpu_blocks p)) (free_block_queue p) = Ok (Some l) ∧
    get_all_free_blocks (Z.to_nat (num_gpu_blocks p)) (free_block_queue p') =
      Ok (Some (l ++ filter (λ b, refs p b = 1 ∧ b ≠ null_block p) bs)) ∧
    ∀ b, pool_ref p b → refs p' b = refs p b - zcount b bs ∧ hsh p' b = hsh p b.
Proof.
  intros Hr (Hp & Hnd & Hpos). destruct (pool_reach_inv p Hr) as [l I].
  destruct (free_blocks_spec p l bs I Hp Hnd Hpos) as (p' & E & I' & F & R & HH).
  pose proof (PoolInv_walk _ _ I') as W'. rewrite (pf_num _ _ F) in W'.
  exists p', l. split_and!; [done|by apply PoolInv_walk|done|]. intros b Hb. split; auto.
Qed.

(** C12: what is cached is found.  After [cache_full_blocks] on a reachable
    pool, looking up the hash of any of the blocks just cached hits, and every
    hit of a lookup in a reachable pool is a block of the pool that carries
    exactly the requested hash and group. *)
Theorem cached_block_is_found `{KVEnv} (p : BlockPool) r blocks nc nf bs g j b h :
  pool_reach p → pool_pre p (OpCache r blocks nc nf bs g) →
  nc ≤ Z.of_nat j < nf → blocks !! j = Some b → b ≠ null_block p →
  hashes_at (hash_block_size p) bs r !! j = Some h →
  ∃ p' b', cache_full_blocks p r blocks nc nf bs g = Ok p' ∧
    hsh p' b = Some (block_key h g) ∧
    get_cached_block p' h [g] = Ok (Some [b']) ∧
    pool_ref p' b' ∧ hsh p' b' = Some (block_key h g).
Proof.
  intros Hr Hpre Hj Hb Hne Hh. destruct (pool_reach_inv p Hr) as [l I].
  destruct Hpre as (? & Hg & ? & ? & ? & ? & ? & ? & Hp & ? & ?).
  destruct (cache_full_blocks_spec p l r blocks nc nf bs g)
    as (p' & E & I' & F & _ & Hcached & _); [done..|].
  assert (hsh p' b = Some (block_key h g)) as Hk by by eapply Hcached.
  assert (pool_ref p' b) as Hb'.
  { rewrite (pool_frame_ref _ _ _ F). rewrite Forall_forall in Hp. apply Hp.
    by apply list_elem_of_lookup_2 in Hb. }
  destruct (get_cached_block_spec p' h [g] (pi_cache _ _ I')) as (o & Eo & Ho); [by constructor|].
  destruct o as [bs'|].
  - apply Forall2_cons_inv_l in Ho as (b' & ? & [??] & ->%Forall2_nil_inv_l & ->). by exists p', b'.
  - destruct Ho as (g' & ->%list_elem_of_singleton & Hn). by destruct (Hn b Hb').
Qed.

(** ** Concrete pools *)

#[export] Instance sample_env : KVEnv := {| env_sha256 := λ b, b; env_use_int_hashes := false |}.

(** The state after a sequence of calls on a new pool. *)
Definition pool_after (n : Z) (os : list pool_op) : res BlockPool :=
  p ← BlockPool_init n true 2 true; foldM run_pool_op p os.

Fixpoint pool_pres (p : BlockPool) (os : list pool_op) : Prop :=
  match os with
  | [] => True
  | o :: os => pool_pre p o ∧ match run_pool_op p o with Ok p' => pool_pres p' os | _ => True end
  end.

Lemma pool_pres_reach os : ∀ p p',
  pool_reach p → pool_pres p os → foldM run_pool_op p os = Ok p' → pool_reach p'.
Proof.
  induction os as [|o os IH]; intros p p' Hr; cbn; [by intros _ [= <-]|].
  intros [Hpre Hos]. destruct (run_pool_op p o) as [p1|e] eqn:E; cbn; [|done].
  intros E'. eapply IH; [|done..]. by eapply reach_step.
Qed.

Definition the_pool (r : res BlockPool) : BlockPool :=
  match r with
  | Ok p => p
  | Raise _ => mkPool 0 false 0 (FreeKVCacheBlockQueue_init []) ∅ FakeHead false []
  end.

(** Five blocks, of which three are allocated. *)
Definition sample_pool : BlockPool := Eval vm_compute in the_pool (pool_after 5 [OpNew 3]).
Definition sample_cached_request : Request :=
  sample_request None None [] [1; 2; 3; 4; 5; 6] [[Byte.x0a]; [Byte.x0b]; [Byte.x0c]].

Lemma sample_pool_reach : pool_reach sample_pool.
Proof.
  eapply (pool_pres_reach [OpNew 3]); [by eapply (reach_init 5 true 2 true)|by vm_compute|].
  vm_compute. reflexivity.
Qed.

Lemma pool_safe_witness :
  ∃ p' l, run_pool_op sample_pool (OpFree [Blk 3; Blk 1]) = Ok p' ∧ pool_reach p' ∧
    get_all_free_blocks (Z.to_nat (num_gpu_blocks p')) (free_block_queue p') = Ok (Some l) ∧
    get_num_free_blocks p' = zlen l ∧ NoDup l ∧ (null_block p' ∉ l) ∧
    ∀ b, pool_ref p' b → b ≠ null_block p' → 0 ≤ refs p' b ∧ (b ∈ l ↔ refs p' b = 0).
Proof.
  apply (pool_safe sample_pool (OpFree [Blk 3; Blk 1])); [exact sample_pool_reach|].
  split_and!.
  - repeat constructor; eexists; (split; [done|cbn; lia]).
  - vm_compute. repeat constructor; set_solver.
  - intros b [->|[->|[]%not_elem_of_nil]%elem_of_cons]%elem_of_cons _; done.
Defined.

Lemma get_new_blocks_correct_witness :
  ∃ p' bs l,
    get_new_blocks sample_pool 1 = Ok (p', bs) ∧ zlen bs = 1 ∧ NoDup bs ∧
    get_all_free_blocks 5 (free_block_queue sample_pool) = Ok (Some (bs ++ l)) ∧
    get_all_free_blocks 5 (free_block_queue p') = Ok (Some l) ∧
    (∀ b, b ∈ bs → b ≠ null_block sample_pool ∧ refs sample_pool b = 0 ∧ refs p' b = 1 ∧
                    hsh p' b = None) ∧
    (∀ b, pool_ref sample_pool b → b ∉ bs →
       refs p' b = refs sample_pool b ∧ hsh p' b = hsh sample_pool b).
Proof.
  apply (get_new_blocks_correct sample_pool 1); [exact sample_pool_reach|lia].
Defined.

Lemma free_blocks_order_witness :
  ∃ p' l, free_blocks sample_pool [Blk 3; Blk 1] = Ok p' ∧
    get_all_free_blocks 5 (free_block_queue sample_pool) = Ok (Some l) ∧
    get_all_free_blocks 5 (free_block_queue p') =
      Ok (Some (l ++ filter (λ b, refs sample_pool b = 1 ∧ b ≠ null_block sample_pool)
                  [Blk 3; Blk 1])) ∧
    ∀ b, pool_ref sample_pool b →
      refs p' b = refs sample_pool b - zcount b [Blk 3; Blk 1] ∧ hsh p' b = hsh sample_pool b.
Proof.
  apply (free_blocks_order sample_pool [Blk 3; Blk 1]); [exact sample_pool_reach|].
  split_and!.
  - repeat constructor; eexists; (split; [done|cbn; lia]).
  - vm_compute. repeat constructor; set_solver.
  - intros b [->|[->|[]%not_elem_of_nil]%elem_of_cons]%elem_of_cons _; done.
Defined.

Lemma cached_block_is_found_witness :
  ∃ p' b', cache_full_blocks sample_pool sample_cached_request [Blk 1; Blk 2; Blk 3] 0 3 2 0 = Ok p' ∧
    hsh p' (Blk 2) = Some (block_key [Byte.x0b] 0) ∧
    get_cached_block p' [Byte.x0b] [0] = Ok (Some [b']) ∧
    pool_ref p' b' ∧ hsh p' b' = Some (block_key [Byte.x0b] 0).
Proof.
  apply (cached_block_is_found sample_pool sample_cached_request
    [Blk 1; Blk 2; Blk 3] 0 3 2 0 1 (Blk 2) [Byte.x0b]).
  - exact sample_pool_reach.
  - split_and!; try done; try lia.
    + repeat constructor; eexists; (split; [done|cbn; lia]).
    + vm_compute. repeat constructor; set_solver.
    + intros b Hb _. cbn in Hb.
      repeat (apply elem_of_cons in Hb as [->|Hb]; [done|]). by apply not_elem_of_nil in Hb.
  - lia.
  - done.
  - done.
  - vm_compute. reflexivity.
Defined.
