(* ===== verification/KVCacheSpec.v ===== *)
(** * Cache specifications: [vllm/v1/kv_cache_interface.py]

    The classes that describe the KV cache of a layer, as one inductive type
    with a constructor per class, the block sizes and the recycling-aware
    admission caps.  [torch.dtype] values are represented by their names. *)

From S2P Require Import Prelude.

Inductive KVQuantMode : Set :=
  | NONE
  | FP8_PER_TENSOR
  | INT8_PER_TOKEN_HEAD
  | FP8_PER_TOKEN_HEAD
  | NVFP4.
#[export] Instance KVQuantMode_eq_dec : EqDecision KVQuantMode.
Proof. solve_decision. Defined.

(** The fields of [AttentionSpec]. *)
Record AttentionFields := mkAttn {
  num_kv_heads : Z;
  head_size : Z;
  dtype : string;
  kv_quant_mode : KVQuantMode;
  page_size_padded : option Z
}.
#[export] Instance AttentionFields_eq_dec : EqDecision AttentionFields.
Proof. solve_decision. Defined.

(** The fields [FullAttentionSpec] adds. *)
Record FullFields := mkFull {
  head_size_v : Z;
  full_sliding_window : option Z;
  full_attention_chunk_size : option Z
}.
#[export] Instance FullFields_eq_dec : EqDecision FullFields.
Proof. solve_decision. Defined.

(** The fields the two MLA classes add. *)
Record MLAFields := mkMLA {
  cache_dtype_str : option string;
  alignment : option Z;
  compress_ratio : Z;
  model_version : option string
}.
#[export] Instance MLAFields_eq_dec : EqDecision MLAFields.
Proof. solve_decision. Defined.

Record MambaFields := mkMamba {
  shapes : list (list Z);
  dtypes : list string;
  mamba_page_size_padded : option Z;
  mamba_type : string;
  mamba_cache_mode : string;
  num_speculative_blocks : Z
}.
#[export] Instance MambaFields_eq_dec : EqDecision MambaFields.
Proof. solve_decision. Defined.

Inductive KVCacheSpec :=
  | FullAttentionSpec (block_size : Z) (a : AttentionFields) (f : FullFields)
  | TQFullAttentionSpec (block_size : Z) (a : AttentionFields) (f : FullFields) (tq_slot_size : Z)
  | MLAAttentionSpec (block_size : Z) (a : AttentionFields) (f : FullFields) (m : MLAFields)
  | SinkFullAttentionSpec (block_size : Z) (a : AttentionFields) (f : FullFields)
      (sink_len : option Z)
  | ChunkedLocalAttentionSpec (block_size : Z) (a : AttentionFields) (attention_chunk_size : Z)
  | SlidingWindowSpec (block_size : Z) (a : AttentionFields) (sw_head_size_v sliding_window : Z)
  | SlidingWindowMLASpec (block_size : Z) (a : AttentionFields) (mla_head_size_v : option Z)
      (sliding_window : Z) (m : MLAFields)
  | MambaSpec (block_size : Z) (b : MambaFields)
  | CrossAttentionSpec (block_size : Z) (a : AttentionFields).

#[export] Instance KVCacheSpec_eq_dec : EqDecision KVCacheSpec.
Proof. solve_decision. Defined.

(** [spec.block_size]. *)
Definition spec_block_size (s : KVCacheSpec) : Z :=
  match s with
  | FullAttentionSpec bs _ _ | TQFullAttentionSpec bs _ _ _ | MLAAttentionSpec bs _ _ _
  | SinkFullAttentionSpec bs _ _ _ | ChunkedLocalAttentionSpec bs _ _
  | SlidingWindowSpec bs _ _ _ | SlidingWindowMLASpec bs _ _ _ _
  | MambaSpec bs _ | CrossAttentionSpec bs _ => bs
  end.

(** [isinstance(spec, FullAttentionSpec)] and so on. *)
Definition is_full_attention (s : KVCacheSpec) : bool :=
  match s with
  | FullAttentionSpec _ _ _ | TQFullAttentionSpec _ _ _ _ | MLAAttentionSpec _ _ _ _
  | SinkFullAttentionSpec _ _ _ _ => true
  | _ => false
  end.
Definition is_sliding_window (s : KVCacheSpec) : bool :=
  match s with
  | SlidingWindowSpec _ _ _ _ | SlidingWindowMLASpec _ _ _ _ _ => true
  | _ => false
  end.
Definition is_mamba (s : KVCacheSpec) : bool :=
  match s with MambaSpec _ _ => true | _ => false end.

(** [type(spec) in (FullAttentionSpec, TQFullAttentionSpec)]: the exact
    classes. *)
Definition records_new_block_ids (s : KVCacheSpec) : bool :=
  match s with
  | FullAttentionSpec _ _ _ | TQFullAttentionSpec _ _ _ _ => true
  | _ => false
  end.

(** [max_admission_blocks_per_request] of the two window classes. *)
Definition chunked_max_admission (block_size attention_chunk_size : Z)
    (max_num_batched_tokens max_model_len : Z) : Z :=
  let num_tokens := Z.min (attention_chunk_size + max_num_batched_tokens) max_model_len in
  cdiv num_tokens block_size.
Definition sliding_max_admission (block_size sliding_window : Z)
    (max_num_batched_tokens max_model_len : Z) : Z :=
  let num_tokens := Z.min (sliding_window - 1 + max_num_batched_tokens) max_model_len in
  cdiv num_tokens block_size + 1.

(** What [get_manager_for_kv_cache_spec] passes as the cap. *)
Definition max_admission_blocks_per_request (s : KVCacheSpec)
    (max_num_batched_tokens max_model_len : Z) : option Z :=
  match s with
  | SlidingWindowSpec bs _ _ w | SlidingWindowMLASpec bs _ _ w _ =>
      Some (sliding_max_admission bs w max_num_batched_tokens max_model_len)
  | ChunkedLocalAttentionSpec bs _ c =>
      Some (chunked_max_admission bs c max_num_batched_tokens max_model_len)
  | _ => None
  end.

