(* ===== verification/CacheSizes.v ===== *)
(** * Sizes of the KV cache: [vllm/v1/kv_cache_interface.py]

    The bytes of a page of each attention kind, the memory a request can need, merging
    the specifications of the layers of a group, and the specification of layers of one
    type with different sizes ([UniformTypeKVCacheSpecs]).

    The size of a [torch.dtype] is torch's; it is the parameter [get_dtype_size].  Every
    layer has a specification object of its own, so an assignment through a frozen object
    ([object.__setattr__]) is an update of the value of that layer. *)

From S2P Require Import Prelude OrderedDict KVCacheSpec.

(** [get_dtype_size] of [vllm/utils/torch_utils.py]: the bytes of an element. *)
Class TorchLib := { get_dtype_size : string → Z }.

(** ** Python arithmetic that can fail *)

(** [a // b], [a % b], [cdiv(a, b)] and [round_up(a, b)]. *)
Definition py_floordiv (a b : Z) : res Z := if bool_decide (b = 0) then Raise ZeroDivisionError else Ok (a / b).
Definition py_mod (a b : Z) : res Z := if bool_decide (b = 0) then Raise ZeroDivisionError else Ok (a `mod` b).
Definition py_cdiv (a b : Z) : res Z := if bool_decide (b = 0) then Raise ZeroDivisionError else Ok (cdiv a b).
Definition py_round_up (a b : Z) : res Z := if bool_decide (b = 0) then Raise ZeroDivisionError else Ok (round_up a b).

(** The check of the division inside [max_admission_blocks_per_request]. *)
Definition py_divisor (b : Z) : res unit := if bool_decide (b = 0) then Raise ZeroDivisionError else Ok tt.

(** [max(l)] and [min(l)]. *)
Definition py_max (l : list Z) : res Z := match l with [] => Raise ValueError | x :: l => Ok (foldl Z.max x l) end.
Definition py_min (l : list Z) : res Z := match l with [] => Raise ValueError | x :: l => Ok (foldl Z.min x l) end.

(** ** What is read of the configuration *)

Record VllmConfig := mkVllm {
  vc_max_model_len : Z;
  vc_original_max_model_len : Z;
  vc_max_num_batched_tokens : Z;
  vc_max_num_encoder_input_tokens : Z;
  vc_disable_hybrid_kv_cache_manager : bool;
  vc_decode_context_parallel_size : Z;
  vc_prefill_context_parallel_size : Z;
  vc_mamba_cache_mode : string;
  vc_num_gpu_blocks_override : option Z;
  vc_use_eagle : bool
}.

(** [vllm_config.model_config.max_model_len = n]. *)
Definition set_vc_max_model_len (vc : VllmConfig) (n : Z) : VllmConfig :=
  mkVllm n (vc_original_max_model_len vc) (vc_max_num_batched_tokens vc) (vc_max_num_encoder_input_tokens vc)
    (vc_disable_hybrid_kv_cache_manager vc) (vc_decode_context_parallel_size vc)
    (vc_prefill_context_parallel_size vc) (vc_mamba_cache_mode vc) (vc_num_gpu_blocks_override vc)
    (vc_use_eagle vc).

(** ** Fields of the classes *)

Definition is_per_token_head (m : KVQuantMode) : bool :=
  match m with INT8_PER_TOKEN_HEAD | FP8_PER_TOKEN_HEAD => true | _ => false end.
Definition is_nvfp4 (m : KVQuantMode) : bool := match m with NVFP4 => true | _ => false end.

(** [get_kv_quant_mode]: the mode of a [kv_cache_dtype]. *)
Definition get_kv_quant_mode (kv_cache_dtype : string) : KVQuantMode :=
  if bool_decide (kv_cache_dtype = "int8_per_token_head") then INT8_PER_TOKEN_HEAD
  else if bool_decide (kv_cache_dtype = "fp8_per_token_head") then FP8_PER_TOKEN_HEAD
  else if bool_decide (kv_cache_dtype = "nvfp4") then NVFP4
  else if String.prefix "fp8" kv_cache_dtype then FP8_PER_TENSOR
  else NONE.

Definition is_quantized_kv_cache (kv_cache_dtype : string) : bool :=
  negb (bool_decide (get_kv_quant_mode kv_cache_dtype = NONE)).

Definition kv_cache_uses_per_token_head_scales (kv_cache_dtype : string) : bool :=
  is_per_token_head (get_kv_quant_mode kv_cache_dtype).

(** The attributes of [AttentionSpec]; [MambaSpec] has none of them. *)
Definition spec_attn (s : KVCacheSpec) : option AttentionFields :=
  match s with
  | FullAttentionSpec _ a _ | TQFullAttentionSpec _ a _ _ | MLAAttentionSpec _ a _ _
  | SinkFullAttentionSpec _ a _ _ | ChunkedLocalAttentionSpec _ a _ | SlidingWindowSpec _ a _ _
  | SlidingWindowMLASpec _ a _ _ _ | CrossAttentionSpec _ a => Some a
  | MambaSpec _ _ => None
  end.

(** The attributes of [FullAttentionSpec], for its instances. *)
Definition spec_full (s : KVCacheSpec) : option FullFields :=
  match s with
  | FullAttentionSpec _ _ f | TQFullAttentionSpec _ _ f _ | MLAAttentionSpec _ _ f _
  | SinkFullAttentionSpec _ _ f _ => Some f
  | _ => None
  end.

(** The attributes the two MLA classes share. *)
Definition spec_mla (s : KVCacheSpec) : option MLAFields :=
  match s with MLAAttentionSpec _ _ _ m | SlidingWindowMLASpec _ _ _ _ m => Some m | _ => None end.

Definition is_mla (s : KVCacheSpec) : bool := match s with MLAAttentionSpec _ _ _ _ => true | _ => false end.
Definition is_sliding_window_mla (s : KVCacheSpec) : bool :=
  match s with SlidingWindowMLASpec _ _ _ _ _ => true | _ => false end.
Definition is_chunked (s : KVCacheSpec) : bool :=
  match s with ChunkedLocalAttentionSpec _ _ _ => true | _ => false end.
Definition is_cross_spec (s : KVCacheSpec) : bool := match s with CrossAttentionSpec _ _ => true | _ => false end.

(** [spec.page_size_padded]. *)
Definition spec_page_size_padded (s : KVCacheSpec) : option Z :=
  match s with
  | MambaSpec _ b => mamba_page_size_padded b
  | _ => a ← spec_attn s; page_size_padded a
  end.

Definition set_attn_padded (a : AttentionFields) (n : option Z) : AttentionFields :=
  mkAttn (num_kv_heads a) (head_size a) (dtype a) (kv_quant_mode a) n.

(** [object.__setattr__(spec, 'page_size_padded', n)]. *)
Definition set_page_size_padded (s : KVCacheSpec) (n : Z) : KVCacheSpec :=
  match s with
  | FullAttentionSpec bs a f => FullAttentionSpec bs (set_attn_padded a (Some n)) f
  | TQFullAttentionSpec bs a f q => TQFullAttentionSpec bs (set_attn_padded a (Some n)) f q
  | MLAAttentionSpec bs a f m => MLAAttentionSpec bs (set_attn_padded a (Some n)) f m
  | SinkFullAttentionSpec bs a f l => SinkFullAttentionSpec bs (set_attn_padded a (Some n)) f l
  | ChunkedLocalAttentionSpec bs a c => ChunkedLocalAttentionSpec bs (set_attn_padded a (Some n)) c
  | SlidingWindowSpec bs a v w => SlidingWindowSpec bs (set_attn_padded a (Some n)) v w
  | SlidingWindowMLASpec bs a v w m => SlidingWindowMLASpec bs (set_attn_padded a (Some n)) v w m
  | CrossAttentionSpec bs a => CrossAttentionSpec bs (set_attn_padded a (Some n))
  | MambaSpec bs b =>
      MambaSpec bs (mkMamba (shapes b) (dtypes b) (Some n) (mamba_type b) (mamba_cache_mode b) (num_speculative_blocks b))
  end.

(** The field [block_size] replaced, before [__post_init__]. *)
Definition set_block_size (s : KVCacheSpec) (bs : Z) : KVCacheSpec :=
  match s with
  | FullAttentionSpec _ a f => FullAttentionSpec bs a f
  | TQFullAttentionSpec _ a f q => TQFullAttentionSpec bs a f q
  | MLAAttentionSpec _ a f m => MLAAttentionSpec bs a f m
  | SinkFullAttentionSpec _ a f l => SinkFullAttentionSpec bs a f l
  | ChunkedLocalAttentionSpec _ a c => ChunkedLocalAttentionSpec bs a c
  | SlidingWindowSpec _ a v w => SlidingWindowSpec bs a v w
  | SlidingWindowMLASpec _ a v w m => SlidingWindowMLASpec bs a v w m
  | CrossAttentionSpec _ a => CrossAttentionSpec bs a
  | MambaSpec _ b => MambaSpec bs b
  end.

(** ** Page sizes *)

(** [nvfp4_kv_cache_full_dim]. *)
Definition nvfp4_kv_cache_full_dim (head_size : Z) : Z := head_size / 2 + head_size / 16.

(** [math.prod]. *)
Definition zprod (l : list Z) : Z := foldl Z.mul 1 l.

Section Sizes.
Context {torch : TorchLib}.
Implicit Types (s : KVCacheSpec) (vc : VllmConfig).

(** [storage_block_size]. *)
Definition storage_block_size s : res Z :=
  match spec_mla s with
  | Some m => py_floordiv (spec_block_size s) (compress_ratio m)
  | None => Ok (spec_block_size s)
  end.

(** [AttentionSpec.real_page_size_bytes], for the classes that inherit it. *)
Definition attn_real_page_size (bs : Z) (a : AttentionFields) : Z :=
  if is_nvfp4 (kv_quant_mode a)
  then 2 * bs * num_kv_heads a * nvfp4_kv_cache_full_dim (head_size a) * get_dtype_size (dtype a)
  else 2 * bs * num_kv_heads a * head_size a * get_dtype_size (dtype a).

(** The same of [FullAttentionSpec] and [SlidingWindowSpec]. *)
Definition full_real_page_size (bs : Z) (a : AttentionFields) (head_size_v : Z) : Z :=
  if is_nvfp4 (kv_quant_mode a)
  then bs * num_kv_heads a * (nvfp4_kv_cache_full_dim (head_size a) + nvfp4_kv_cache_full_dim head_size_v)
       * get_dtype_size (dtype a)
  else bs * num_kv_heads a * (head_size a + head_size_v) * get_dtype_size (dtype a).

(** The part the two MLA classes share. *)
Definition mla_real_page_size s (a : AttentionFields) : res Z :=
  sbs ← storage_block_size s;
  Ok (sbs * num_kv_heads a * head_size a * get_dtype_size (dtype a)).

(** The same of [TQFullAttentionSpec], [MLAAttentionSpec] and [SlidingWindowMLASpec]. *)
Definition tq_real_page_size (bs : Z) (a : AttentionFields) (f : FullFields) (tq_slot_size : Z) : Z :=
  if bool_decide (0 < tq_slot_size) then bs * num_kv_heads a * tq_slot_size
  else full_real_page_size bs a (head_size_v f).

Definition latent_real_page_size s (bs : Z) (a : AttentionFields) (m : MLAFields) : res Z :=
  if bool_decide (cache_dtype_str m = Some "fp8_ds_mla") then
    if bool_decide (model_version m = Some "deepseek_v4")
    then sbs ← storage_block_size s; Ok (sbs * 584)
    else Ok (bs * 656)
  else mla_real_page_size s a.

Definition window_latent_real_page_size s (a : AttentionFields) (m : MLAFields) : res Z :=
  if bool_decide (model_version m = Some "deepseek_v4")
  then sbs ← storage_block_size s; Ok (sbs * 584)
  else (py_assert (negb (is_some (model_version m)));; mla_real_page_size s a).

(** The [page_size] of [MambaSpec] before padding. *)
Definition mamba_page_size (b : MambaFields) : Z :=
  zsum (zip_with (λ shape d, zprod shape * get_dtype_size d) (shapes b) (dtypes b)).

(** [spec.real_page_size_bytes], by the class of [spec]. *)
Definition real_page_size_bytes s : res Z :=
  match s with
  | FullAttentionSpec bs a f | SinkFullAttentionSpec bs a f _ => Ok (full_real_page_size bs a (head_size_v f))
  | TQFullAttentionSpec bs a f tq_slot_size => Ok (tq_real_page_size bs a f tq_slot_size)
  | MLAAttentionSpec bs a f m => latent_real_page_size s bs a m
  | ChunkedLocalAttentionSpec bs a _ | CrossAttentionSpec bs a => Ok (attn_real_page_size bs a)
  | SlidingWindowSpec bs a head_size_v _ => Ok (full_real_page_size bs a head_size_v)
  | SlidingWindowMLASpec _ a _ _ m => window_latent_real_page_size s a m
  | MambaSpec _ b => Ok (mamba_page_size b)
  end.

(** The memory of the scales of per-token-head quantization. *)
Definition scale_bytes s : Z :=
  match spec_attn s with
  | Some a => if is_per_token_head (kv_quant_mode a)
              then 2 * spec_block_size s * num_kv_heads a * get_dtype_size "float32" else 0
  | None => 0
  end.

(** [page_size_bytes] of a layer. *)
Definition page_size_bytes s : res Z :=
  real ← real_page_size_bytes s;
  let real_page_size := real + scale_bytes s in
  match spec_page_size_padded s with
  | Some padded => py_assert (bool_decide (real_page_size ≤ padded));; Ok padded
  | None => Ok real_page_size
  end.

(** ** Construction *)

(** [_apply_alignment_padding], the [__post_init__] of the MLA classes. *)
Definition _apply_alignment_padding s : res KVCacheSpec :=
  match m ← spec_mla s; alignment m with
  | None => Ok s
  | Some align =>
      actual_page_size ← real_page_size_bytes s;
      padded_page_size ← py_round_up actual_page_size align;
      Ok (if bool_decide (padded_page_size = actual_page_size) then s else set_page_size_padded s padded_page_size)
  end.

(** [replace(spec, block_size=bs)] and [copy_with_new_block_size]. *)
Definition replace_block_size s (bs : Z) : res KVCacheSpec := _apply_alignment_padding (set_block_size s bs).

(** [MLAAttentionSpec(...)] with [head_size_v] and the windows left out. *)
Definition new_MLAAttentionSpec (bs : Z) (a : AttentionFields) (m : MLAFields) : res KVCacheSpec :=
  _apply_alignment_padding (MLAAttentionSpec bs a (mkFull (head_size a) None None) m).

(** ** Memory of a request *)

(** [max_memory_usage_bytes] of the classes. *)
Definition full_max_memory_usage vc s (bs : Z) : res Z :=
  let max_model_len := vc_max_model_len vc in
  let dcp := vc_decode_context_parallel_size vc in
  let pcp := vc_prefill_context_parallel_size vc in
  let max_model_len := if bool_decide (1 < dcp * pcp) then cdiv max_model_len (dcp * pcp) else max_model_len in
  n ← py_cdiv max_model_len bs; page ← page_size_bytes s; Ok (n * page).

Definition chunked_max_memory_usage vc s (bs chunk : Z) : res Z :=
  py_divisor bs;;
  let max_blocks := chunked_max_admission bs chunk (vc_max_num_batched_tokens vc) (vc_max_model_len vc) in
  page ← page_size_bytes s; Ok (max_blocks * page).

Definition sliding_max_memory_usage vc s (bs window : Z) : res Z :=
  py_assert (bool_decide (vc_decode_context_parallel_size vc = 1));;
  py_divisor bs;;
  let max_blocks := sliding_max_admission bs window (vc_max_num_batched_tokens vc) (vc_max_model_len vc) in
  page ← page_size_bytes s; Ok (max_blocks * page).

Definition mamba_max_memory_usage vc s (bs : Z) (b : MambaFields) : res Z :=
  if bool_decide (vc_mamba_cache_mode vc = "all")
  then n ← py_cdiv (vc_max_model_len vc) bs; page ← page_size_bytes s; Ok (n * page)
  else if bool_decide (vc_mamba_cache_mode vc = "align")
  then page ← page_size_bytes s; Ok (page * (2 + num_speculative_blocks b))
  else page ← page_size_bytes s; Ok (page * (1 + num_speculative_blocks b)).

Definition cross_max_memory_usage vc s (bs : Z) : res Z :=
  n ← py_cdiv (vc_max_num_encoder_input_tokens vc) bs; page ← page_size_bytes s; Ok (n * page).

(** [spec.max_memory_usage_bytes(vllm_config)], by the class of [spec]. *)
Definition spec_max_memory_usage_bytes vc s : res Z :=
  match s with
  | FullAttentionSpec bs _ _ | TQFullAttentionSpec bs _ _ _ | MLAAttentionSpec bs _ _ _
  | SinkFullAttentionSpec bs _ _ _ => full_max_memory_usage vc s bs
  | ChunkedLocalAttentionSpec bs _ chunk => chunked_max_memory_usage vc s bs chunk
  | SlidingWindowSpec bs _ _ window | SlidingWindowMLASpec bs _ _ window _ => sliding_max_memory_usage vc s bs window
  | MambaSpec bs b => mamba_max_memory_usage vc s bs b
  | CrossAttentionSpec bs _ => cross_max_memory_usage vc s bs
  end.

(** ** Merging the layers of a group *)

(** [len(set(l)) == 1]. *)
Definition one_value {A} `{EqDecision A} (l : list A) : bool := bool_decide (length (remove_dups l) = 1%nat).

(** [KVCacheSpec.merge]: all equal. *)
Definition base_merge (s0 : KVCacheSpec) (specs : list KVCacheSpec) : res KVCacheSpec :=
  py_assert (forallb (λ s, bool_decide (s = s0)) specs);; Ok s0.

(** [merge_window_sizes] of the values that are not [None]. *)
Definition merge_window_sizes (window_sizes : list Z) : res (option Z) :=
  match remove_dups window_sizes with
  | [] => Ok None
  | [w] => Ok (Some w)
  | _ => Raise ValueError
  end.

(** The loop over [fields(AttentionSpec)]. *)
Definition same_attention (s merged : KVCacheSpec) : bool :=
  bool_decide (spec_block_size s = spec_block_size merged) && bool_decide (spec_attn s = spec_attn merged).

(** [FullAttentionSpec.merge], up to the class of the result: the merged fields. *)
Definition full_merge (bs : Z) (a : AttentionFields) (v : Z) (specs : list KVCacheSpec) : res FullFields :=
  py_assert (forallb is_full_attention specs);;
  let fulls := omap spec_full specs in
  py_assert (negb (existsb is_mla specs));;
  sliding_window ← merge_window_sizes (omap full_sliding_window fulls);
  attention_chunk_size ← merge_window_sizes (omap full_attention_chunk_size fulls);
  let merged := mkFull v sliding_window attention_chunk_size in
  py_assert (forallb (λ s, same_attention s (FullAttentionSpec bs a merged)) specs);;
  py_assert (negb (is_some sliding_window && is_some attention_chunk_size));;
  Ok merged.

(** [s.tq_slot_size == n], where only [TQFullAttentionSpec] has the attribute. *)
Definition same_tq_slot (n : Z) (s : KVCacheSpec) : res bool :=
  match s with TQFullAttentionSpec _ _ _ q => Ok (bool_decide (q = n)) | _ => Raise AttributeError end.

(** [all(...)] over a predicate that can raise stops at the first failure. *)
Fixpoint py_all {A} (f : A → res bool) (l : list A) : res bool :=
  match l with
  | [] => Ok true
  | x :: l => b ← f x; if b : bool then py_all f l else Ok false
  end.

(** The checks of the two MLA classes. *)
Definition mla_uniform (ms : list MLAFields) : bool :=
  one_value (cache_dtype_str <$> ms) && one_value (compress_ratio <$> ms) && one_value (model_version <$> ms).

(** [alignment] is left out of the merged object. *)
Definition unaligned (m : MLAFields) : MLAFields := mkMLA (cache_dtype_str m) None (compress_ratio m) (model_version m).

(** [sliding_window] of the window classes. *)
Definition spec_sliding_window s : option Z :=
  match s with SlidingWindowSpec _ _ _ w | SlidingWindowMLASpec _ _ _ w _ => Some w | _ => None end.

(** [merge] of [TQFullAttentionSpec] and the MLA classes. *)
Definition tq_merge (bs : Z) (a : AttentionFields) (f : FullFields) (q : Z) (specs : list KVCacheSpec) : res KVCacheSpec :=
  f' ← full_merge bs a (head_size_v f) specs;
  same ← py_all (same_tq_slot q) specs;
  py_assert same;; Ok (TQFullAttentionSpec bs a f' q).

Definition mla_merge (bs : Z) (a : AttentionFields) (m : MLAFields) (specs : list KVCacheSpec) : res KVCacheSpec :=
  py_assert (forallb is_mla specs);;
  py_assert (mla_uniform (omap spec_mla specs));;
  new_MLAAttentionSpec bs a (unaligned m).

Definition swa_mla_merge (bs : Z) (a : AttentionFields) (w : Z) (m : MLAFields) (specs : list KVCacheSpec) : res KVCacheSpec :=
  py_assert (forallb is_sliding_window_mla specs);;
  py_assert (mla_uniform (omap spec_mla specs) && one_value (omap spec_sliding_window specs));;
  _apply_alignment_padding
    (SlidingWindowMLASpec bs (mkAttn (num_kv_heads a) (head_size a) (dtype a) NONE (page_size_padded a))
       None w (unaligned m)).

(** [specs[0].merge(specs)], the class method of the first specification. *)
Definition spec_merge (s0 : KVCacheSpec) (specs : list KVCacheSpec) : res KVCacheSpec :=
  match s0 with
  | FullAttentionSpec bs a f =>
      f' ← full_merge bs a (head_size_v f) specs; Ok (FullAttentionSpec bs a f')
  | SinkFullAttentionSpec bs a f sink_len =>
      f' ← full_merge bs a (head_size_v f) specs; Ok (SinkFullAttentionSpec bs a f' sink_len)
  | TQFullAttentionSpec bs a f q => tq_merge bs a f q specs
  | MLAAttentionSpec bs a f m => mla_merge bs a m specs
  | SlidingWindowMLASpec bs a v w m => swa_mla_merge bs a w m specs
  | _ => base_merge s0 specs
  end.

(** ** [UniformTypeKVCacheSpecs] *)

(** The specification of a group: that of one layer, or of several by name. *)
Inductive GroupSpec :=
  | LayerSpec (s : KVCacheSpec)
  | UniformTypeKVCacheSpecs (block_size : Z) (kv_cache_specs : list (string * KVCacheSpec)).

Definition is_uniform_specs (g : GroupSpec) : bool :=
  match g with UniformTypeKVCacheSpecs _ _ => true | _ => false end.

(** [is_uniform_type]: whether all layers need the same number of slots. *)
Definition is_uniform_type (kv_cache_specs : list (string * KVCacheSpec)) : res bool :=
  let values := kv_cache_specs.*2 in
  if bool_decide (1 < length (remove_dups (spec_block_size <$> values)))%nat then Ok false
  else match values with
  | [] => Raise StopIteration
  | one_spec :: _ =>
      Ok match one_spec with
         | SlidingWindowMLASpec _ _ _ w _ =>
             forallb (λ s, is_sliding_window_mla s && bool_decide (spec_sliding_window s = Some w)) values
         | FullAttentionSpec _ _ _ | TQFullAttentionSpec _ _ _ _ | MLAAttentionSpec _ _ _ _
         | SinkFullAttentionSpec _ _ _ _ => forallb is_full_attention values
         | CrossAttentionSpec _ _ => forallb is_cross_spec values
         | SlidingWindowSpec _ _ _ w => forallb (λ s, bool_decide (spec_sliding_window s = Some w)) values
         | ChunkedLocalAttentionSpec _ _ c =>
             forallb (λ s, match s with ChunkedLocalAttentionSpec _ _ c' => bool_decide (c' = c) | _ => false end) values
         | MambaSpec _ b =>
             forallb (λ s, match s with
                           | MambaSpec _ b' => bool_decide (num_speculative_blocks b' = num_speculative_blocks b)
                           | _ => false end) values
         end
  end.

(** [from_specs]. *)
Definition from_specs (kv_cache_specs : list (string * KVCacheSpec)) : res (option GroupSpec) :=
  uniform ← is_uniform_type kv_cache_specs;
  match uniform, kv_cache_specs with
  | true, (_, s) :: _ => Ok (Some (UniformTypeKVCacheSpecs (spec_block_size s) kv_cache_specs))
  | _, _ => Ok None
  end.

(** The page sizes of the layers, [max_memory_usage_pages], [get_page_sizes] (a set:
    only its members are used) and [get_num_layer_tuples] (the largest count of a
    [Counter]). *)
Definition layer_page_sizes (specs : list (string * KVCacheSpec)) : res (list Z) :=
  mapM_res page_size_bytes specs.*2.

Definition spec_pages vc s : res Z :=
  bytes ← spec_max_memory_usage_bytes vc s; page ← page_size_bytes s; py_cdiv bytes page.

Definition max_memory_usage_pages vc (specs : list (string * KVCacheSpec)) : res Z :=
  pages ← mapM_res (spec_pages vc) specs.*2; py_max pages.

Definition get_page_sizes (specs : list (string * KVCacheSpec)) : res (list Z) :=
  sizes ← layer_page_sizes specs; Ok (remove_dups sizes).

Definition get_num_layer_tuples (specs : list (string * KVCacheSpec)) : res Z :=
  sizes ← layer_page_sizes specs;
  match sizes with
  | [] => Raise IndexError
  | _ => py_max ((λ p, zlen (filter (λ q, q = p) sizes)) <$> sizes)
  end.

(** [page_size_bytes] and [max_memory_usage_bytes] of a group. *)
Definition group_page_size (g : GroupSpec) : res Z :=
  match g with
  | LayerSpec s => page_size_bytes s
  | UniformTypeKVCacheSpecs _ specs => sizes ← layer_page_sizes specs; Ok (zsum sizes)
  end.

Definition group_max_memory_usage_bytes vc (g : GroupSpec) : res Z :=
  match g with
  | LayerSpec s => spec_max_memory_usage_bytes vc s
  | UniformTypeKVCacheSpecs _ specs =>
      max_num_pages ← max_memory_usage_pages vc specs; page ← group_page_size g; Ok (max_num_pages * page)
  end.
End Sizes.
