(* ===== verification/SingleType.v ===== *)
(** * Managers of one attention type: [vllm/v1/core/single_type_kv_cache_manager.py]

    The state of a [SingleTypeKVCacheManager] and of its subclasses as one
    record, the methods of the base class ([base_...]), the overriding methods
    of the subclasses ([mamba_...], [sw_...] and so on) and the dispatch on the
    specification.  The block pool, which the managers share, is passed in and
    out explicitly. *)

From S2P Require Import Prelude PyFloat Request FreeQueue BlockHash BlockPool KVCacheSpec.

(** ** State *)

Record Manager := mkManager {
  kv_cache_spec : KVCacheSpec;
  block_size : Z;
  m_enable_caching : bool;
  _max_admission_blocks_per_request : option Z;
  new_block_ids : list Z;
  req_to_blocks : gmap string (list block_ref);
  num_cached_block : gmap string Z;
  kv_cache_group_id : Z;
  _null_block : block_ref;
  (* MambaManager *)
  cached_blocks_this_step : gset bytes;
  last_state_block_idx : gmap string Z;
  _allocated_block_reqs : gset string;
  (* SinkFullAttentionManager *)
  sink_blocks : list block_ref
}.

Definition set_new_block_ids (m : Manager) (v : list Z) : Manager :=
  mkManager (kv_cache_spec m) (block_size m) (m_enable_caching m)
    (_max_admission_blocks_per_request m) v (req_to_blocks m) (num_cached_block m)
    (kv_cache_group_id m) (_null_block m) (cached_blocks_this_step m)
    (last_state_block_idx m) (_allocated_block_reqs m) (sink_blocks m).
Definition set_req_to_blocks (m : Manager) (v : gmap string (list block_ref)) : Manager :=
  mkManager (kv_cache_spec m) (block_size m) (m_enable_caching m)
    (_max_admission_blocks_per_request m) (new_block_ids m) v (num_cached_block m)
    (kv_cache_group_id m) (_null_block m) (cached_blocks_this_step m)
    (last_state_block_idx m) (_allocated_block_reqs m) (sink_blocks m).
Definition set_num_cached_block (m : Manager) (v : gmap string Z) : Manager :=
  mkManager (kv_cache_spec m) (block_size m) (m_enable_caching m)
    (_max_admission_blocks_per_request m) (new_block_ids m) (req_to_blocks m) v
    (kv_cache_group_id m) (_null_block m) (cached_blocks_this_step m)
    (last_state_block_idx m) (_allocated_block_reqs m) (sink_blocks m).
Definition set_cached_this_step (m : Manager) (v : gset bytes) : Manager :=
  mkManager (kv_cache_spec m) (block_size m) (m_enable_caching m)
    (_max_admission_blocks_per_request m) (new_block_ids m) (req_to_blocks m)
    (num_cached_block m) (kv_cache_group_id m) (_null_block m) v
    (last_state_block_idx m) (_allocated_block_reqs m) (sink_blocks m).
Definition set_last_state (m : Manager) (v : gmap string Z) : Manager :=
  mkManager (kv_cache_spec m) (block_size m) (m_enable_caching m)
    (_max_admission_blocks_per_request m) (new_block_ids m) (req_to_blocks m)
    (num_cached_block m) (kv_cache_group_id m) (_null_block m) (cached_blocks_this_step m)
    v (_allocated_block_reqs m) (sink_blocks m).
Definition set_allocated (m : Manager) (v : gset string) : Manager :=
  mkManager (kv_cache_spec m) (block_size m) (m_enable_caching m)
    (_max_admission_blocks_per_request m) (new_block_ids m) (req_to_blocks m)
    (num_cached_block m) (kv_cache_group_id m) (_null_block m) (cached_blocks_this_step m)
    (last_state_block_idx m) v (sink_blocks m).

(** [self.req_to_blocks.get(request_id, ())]. *)
Definition blocks_of (m : Manager) (request_id : string) : list block_ref :=
  default [] (req_to_blocks m !! request_id).

(** [self.req_to_blocks[request_id]]: the table is a [defaultdict(list)], so
    the access enters an empty list for an unknown request. *)
Definition access (m : Manager) (request_id : string) : Manager * list block_ref :=
  match req_to_blocks m !! request_id with
  | Some bs => (m, bs)
  | None => (set_req_to_blocks m (<[request_id := []]> (req_to_blocks m)), [])
  end.

(** The list of the request after it was extended or updated in place. *)
Definition put_blocks (m : Manager) (request_id : string) (bs : list block_ref) : Manager :=
  set_req_to_blocks m (<[request_id := bs]> (req_to_blocks m)).

(** [request_id in self.num_cached_block]. *)
Definition has_cached (m : Manager) (request_id : string) : bool :=
  is_some (num_cached_block m !! request_id).

(** ** Construction *)

Definition Manager_init (p : BlockPool) (spec : KVCacheSpec) (enable_caching : bool)
    (group_id dcp_world_size pcp_world_size : Z) (cap : option Z) : Manager :=
  let bs := spec_block_size spec in
  let block_size := if bool_decide (1 < dcp_world_size * pcp_world_size)
    then bs * (dcp_world_size * pcp_world_size) else bs in
  mkManager spec block_size enable_caching cap [] ∅ ∅ group_id (null_block p) ∅ ∅ ∅ [].

(** [SinkFullAttentionManager.__init__]: takes the sink blocks out of the free
    queue without referencing them. *)
Definition Sink_init (p : BlockPool) (m : Manager) (sink_len : option Z)
    : res (BlockPool * Manager) :=
  match sink_len with
  | None => Raise AssertionError
  | Some sink_len =>
      py_assert (bool_decide (0 < sink_len ∧ sink_len `mod` block_size m = 0));;
      '(q, bs) ← popleft_n (free_block_queue p) (sink_len / block_size m);
      Ok (set_queue p q,
          mkManager (kv_cache_spec m) (block_size m) (m_enable_caching m)
            (_max_admission_blocks_per_request m) (new_block_ids m) (req_to_blocks m)
            (num_cached_block m) (kv_cache_group_id m) (_null_block m)
            (cached_blocks_this_step m) (last_state_block_idx m)
            (_allocated_block_reqs m) bs)
  end.

Definition get_manager_for_kv_cache_spec (p : BlockPool) (spec : KVCacheSpec)
    (max_num_batched_tokens max_model_len : Z) (enable_caching : bool)
    (group_id dcp_world_size pcp_world_size : Z) : res (BlockPool * Manager) :=
  let cap := max_admission_blocks_per_request spec max_num_batched_tokens max_model_len in
  let m := Manager_init p spec enable_caching group_id dcp_world_size pcp_world_size cap in
  match spec with
  | SinkFullAttentionSpec _ _ _ sink_len => Sink_init p m sink_len
  | _ => Ok (p, m)
  end.

(** ** Skipped tokens *)

(** [SlidingWindowManager]: the next token attends to the last [w] tokens. *)
Definition sw_get_num_skipped_tokens (sliding_window num_computed_tokens : Z) : Z :=
  Z.max 0 (num_computed_tokens - sliding_window + 1).

(** [ChunkedLocalAttentionManager]: whole chunks before the current one. *)
Definition chunked_get_num_skipped_tokens (attention_chunk_size num_computed_tokens : Z) : Z :=
  (num_computed_tokens / attention_chunk_size) * attention_chunk_size.

(** [MambaManager]: everything but the last state. *)
Definition mamba_get_num_skipped_tokens (num_computed_tokens : Z) : Z := num_computed_tokens - 1.

Definition get_num_skipped_tokens (spec : KVCacheSpec) (num_computed_tokens : Z) : Z :=
  match spec with
  | SlidingWindowSpec _ _ _ w | SlidingWindowMLASpec _ _ _ w _ =>
      sw_get_num_skipped_tokens w num_computed_tokens
  | ChunkedLocalAttentionSpec _ _ c => chunked_get_num_skipped_tokens c num_computed_tokens
  | MambaSpec _ _ => mamba_get_num_skipped_tokens num_computed_tokens
  | _ => 0
  end.

Ltac unfold_skipped :=
  unfold sw_get_num_skipped_tokens, chunked_get_num_skipped_tokens,
    mamba_get_num_skipped_tokens in *.

(** ** How many blocks an allocation needs *)

Definition _get_num_evictable_blocks (p : BlockPool) (blocks : list block_ref) : Z :=
  zlen (filter (λ b, ref_cnt (blk p b) = 0 ∧ is_null (blk p b) = false) blocks).

Definition base_get_num_blocks_to_allocate (p : BlockPool) (m : Manager)
    (request_id : string) (num_tokens : Z) (new_computed_blocks : list block_ref)
    (total_computed_tokens : Z) (apply_admission_cap : bool) : res Z :=
  let num_required_blocks := cdiv num_tokens (block_size m) in
  let num_required_blocks :=
    match apply_admission_cap, _max_admission_blocks_per_request m with
    | true, Some cap => Z.min num_required_blocks cap
    | _, _ => num_required_blocks
    end in
  let num_req_blocks := zlen (blocks_of m request_id) in
  if has_cached m request_id then
    py_assert (bool_decide (zlen new_computed_blocks = 0));;
    Ok (Z.max (num_required_blocks - num_req_blocks) 0)
  else
    let num_skipped_tokens := get_num_skipped_tokens (kv_cache_spec m) total_computed_tokens in
    let num_local_computed_blocks := zlen new_computed_blocks + num_req_blocks in
    let num_skipped_blocks := num_skipped_tokens / block_size m in
    let num_new_blocks :=
      Z.max (num_required_blocks - Z.max num_skipped_blocks num_local_computed_blocks) 0 in
    let num_skipped_new_computed_blocks := Z.max 0 (num_skipped_blocks - num_req_blocks) in
    let num_evictable_blocks :=
      _get_num_evictable_blocks p
        (py_slice_from new_computed_blocks num_skipped_new_computed_blocks) in
    Ok (num_new_blocks + num_evictable_blocks).

(** [new_computed_blocks[-1].block_hash in self.cached_blocks_this_step]. *)
Definition cached_in_this_step (p : BlockPool) (m : Manager)
    (new_computed_blocks : list block_ref) : bool :=
  match last new_computed_blocks with
  | None => false
  | Some b =>
      match block_hash (blk p b) with
      | None => false
      | Some h => bool_decide (h ∈ cached_blocks_this_step m)
      end
  end.

Definition mamba_get_num_blocks_to_allocate (p : BlockPool) (m : Manager) (b : MambaFields)
    (request_id : string) (num_tokens : Z) (new_computed_blocks : list block_ref)
    (total_computed_tokens num_tokens_main_model : Z) (apply_admission_cap : bool)
    : res (Manager * Z) :=
  if cached_in_this_step p m new_computed_blocks then Ok (m, num_gpu_blocks p + 1)
  else if bool_decide (mamba_cache_mode b ≠ "align") then
    let num_tokens := if bool_decide (0 < num_speculative_blocks b)
      then num_tokens + spec_block_size (kv_cache_spec m) * num_speculative_blocks b
      else num_tokens in
    n ← base_get_num_blocks_to_allocate p m request_id num_tokens new_computed_blocks
          total_computed_tokens apply_admission_cap;
    Ok (m, n)
  else
    let num_tokens := num_tokens_main_model in
    let num_required_blocks := cdiv num_tokens (block_size m) + num_speculative_blocks b in
    let '(m, req_blocks) := access m request_id in
    let num_new_blocks :=
      num_required_blocks - zlen new_computed_blocks - zlen req_blocks in
    let num_new_blocks :=
      if bool_decide (0 < num_new_blocks) then
        if bool_decide (request_id ∈ _allocated_block_reqs m) then 1
        else 1 + num_speculative_blocks b
      else num_new_blocks in
    Ok (m, num_new_blocks + _get_num_evictable_blocks p new_computed_blocks).

Definition get_num_blocks_to_allocate (p : BlockPool) (m : Manager)
    (request_id : string) (num_tokens : Z) (new_computed_blocks : list block_ref)
    (total_computed_tokens num_tokens_main_model : Z) (apply_admission_cap : bool)
    : res (Manager * Z) :=
  match kv_cache_spec m with
  | MambaSpec _ b =>
      mamba_get_num_blocks_to_allocate p m b request_id num_tokens new_computed_blocks
        total_computed_tokens num_tokens_main_model apply_admission_cap
  | _ =>
      n ← base_get_num_blocks_to_allocate p m request_id num_tokens new_computed_blocks
            total_computed_tokens apply_admission_cap;
      Ok (m, n)
  end.

(** ** Allocation *)

Section Managers.
Context {env : KVEnv}.

(** [self.new_block_ids.extend(b.block_id for b in blocks)], for the plain
    full attention classes. *)
Definition record_new_ids (p : BlockPool) (m : Manager) (bs : list block_ref) : Manager :=
  if records_new_block_ids (kv_cache_spec m)
  then set_new_block_ids m (new_block_ids m ++ (id_of p <$> bs)) else m.

Definition base_allocate_new_computed_blocks (p : BlockPool) (m : Manager)
    (request_id : string) (new_computed_blocks : list block_ref)
    (num_local_computed_tokens num_external_computed_tokens : Z)
    : res (BlockPool * Manager) :=
  if has_cached m request_id then
    py_assert (bool_decide (zlen new_computed_blocks = 0));;
    Ok (p, m)
  else
    let '(m, req_blocks) := access m request_id in
    py_assert (bool_decide (zlen req_blocks = 0));;
    let num_total_computed_tokens :=
      num_local_computed_tokens + num_external_computed_tokens in
    let num_skipped_tokens :=
      get_num_skipped_tokens (kv_cache_spec m) num_total_computed_tokens in
    let num_skipped_blocks := num_skipped_tokens / block_size m in
    let '(new_computed_blocks, num_external_computed_tokens) :=
      if bool_decide (0 < num_skipped_blocks) then
        (py_slice_from new_computed_blocks num_skipped_blocks,
         Z.min (num_total_computed_tokens - num_skipped_tokens) num_external_computed_tokens)
      else (new_computed_blocks, num_external_computed_tokens) in
    p ← (if m_enable_caching m then touch p new_computed_blocks
         else py_assert (is_nil new_computed_blocks);; Ok p);
    let req_blocks :=
      req_blocks ++ py_repeat (_null_block m) num_skipped_blocks ++ new_computed_blocks in
    let m := put_blocks m request_id req_blocks in
    let m := set_num_cached_block m
               (<[request_id := zlen req_blocks]> (num_cached_block m)) in
    if bool_decide (0 < num_external_computed_tokens) then
      '(p, allocated_blocks) ←
        get_new_blocks p (cdiv num_total_computed_tokens (block_size m) - zlen req_blocks);
      let m := put_blocks m request_id (req_blocks ++ allocated_blocks) in
      Ok (p, record_new_ids p m allocated_blocks)
    else Ok (p, m).

Definition allocate_new_computed_blocks (p : BlockPool) (m : Manager)
    (request_id : string) (new_computed_blocks : list block_ref)
    (num_local_computed_tokens num_external_computed_tokens : Z)
    : res (BlockPool * Manager) :=
  match kv_cache_spec m with
  | CrossAttentionSpec _ _ =>
      py_assert (bool_decide (zlen new_computed_blocks = 0));; Ok (p, m)
  | _ =>
      base_allocate_new_computed_blocks p m request_id new_computed_blocks
        num_local_computed_tokens num_external_computed_tokens
  end.

Definition base_allocate_new_blocks (p : BlockPool) (m : Manager) (request_id : string)
    (num_tokens : Z) : res (BlockPool * Manager * list block_ref) :=
  let '(m, req_blocks) := access m request_id in
  let num_required_blocks := cdiv num_tokens (block_size m) in
  let num_new_blocks := num_required_blocks - zlen req_blocks in
  if bool_decide (num_new_blocks ≤ 0) then Ok (p, m, [])
  else
    '(p, new_blocks) ← get_new_blocks p num_new_blocks;
    let m := put_blocks m request_id (req_blocks ++ new_blocks) in
    Ok (p, record_new_ids p m new_blocks, new_blocks).

(** The loop of [MambaManager.allocate_new_blocks] that moves the speculative
    blocks of the previous step to the end of the list. *)
Fixpoint reuse_speculative (req_blocks : list block_ref) (null : block_ref)
    (num_skipped_blocks : Z) (idxs : list Z) : res (list block_ref) :=
  match idxs with
  | [] => Ok req_blocks
  | block_idx :: idxs =>
      if bool_decide (block_idx < num_skipped_blocks) then
        b ← py_nth req_blocks block_idx;
        let req_blocks := req_blocks ++ [b] in
        let j := if bool_decide (block_idx < 0) then block_idx + zlen req_blocks else block_idx in
        reuse_speculative (<[Z.to_nat j := null]> req_blocks) null num_skipped_blocks idxs
      else Ok req_blocks
  end.

Definition mamba_align_allocate (p : BlockPool) (m : Manager) (b : MambaFields)
    (request_id : string) (num_tokens : Z) : res (BlockPool * Manager * list block_ref) :=
  let '(m, req_blocks) := access m request_id in
  let num_required_blocks := cdiv num_tokens (block_size m) + num_speculative_blocks b in
  if bool_decide (num_required_blocks = zlen req_blocks) then Ok (p, m, [])
  else
    py_assert (bool_decide (zlen req_blocks < num_required_blocks));;
    let prev_block_len := zlen req_blocks in
    let blocks_allocated := bool_decide (request_id ∈ _allocated_block_reqs m) in
    let m :=
      if blocks_allocated then
        set_last_state m (<[request_id := prev_block_len - 1 - num_speculative_blocks b]>
                            (last_state_block_idx m))
      else if bool_decide (0 < prev_block_len) then
        set_last_state m (<[request_id := prev_block_len - 1]> (last_state_block_idx m))
      else m in
    let num_skipped_blocks := num_required_blocks - num_speculative_blocks b - 1 in
    let req_blocks := if bool_decide (prev_block_len < num_skipped_blocks)
      then req_blocks ++ py_repeat (_null_block m) (num_skipped_blocks - prev_block_len)
      else req_blocks in
    req_blocks ←
      (if blocks_allocated then
         reuse_speculative req_blocks (_null_block m) num_skipped_blocks
           (zrange (prev_block_len - num_speculative_blocks b) prev_block_len)
       else Ok req_blocks);
    let num_new_blocks := num_required_blocks - zlen req_blocks in
    py_assert (if blocks_allocated then bool_decide (num_new_blocks ≤ 1)
               else bool_decide (num_new_blocks ≤ num_speculative_blocks b + 1));;
    '(p, new_blocks) ← get_new_blocks p num_new_blocks;
    let req_blocks := req_blocks ++ new_blocks in
    let m := put_blocks m request_id req_blocks in
    let m := set_allocated m ({[request_id]} ∪ _allocated_block_reqs m) in
    Ok (p, m, py_slice_from req_blocks prev_block_len).

Definition allocate_new_blocks (p : BlockPool) (m : Manager) (request_id : string)
    (num_tokens num_tokens_main_model : Z) : res (BlockPool * Manager * list block_ref) :=
  match kv_cache_spec m with
  | MambaSpec _ b =>
      if bool_decide (mamba_cache_mode b ≠ "align") then
        let num_tokens := if bool_decide (0 < num_speculative_blocks b)
          then num_tokens + block_size m * num_speculative_blocks b else num_tokens in
        base_allocate_new_blocks p m request_id num_tokens
      else mamba_align_allocate p m b request_id num_tokens_main_model
  | _ => base_allocate_new_blocks p m request_id num_tokens
  end.

Definition take_new_block_ids (m : Manager) : Manager * list Z :=
  (set_new_block_ids m [], new_block_ids m).

(** ** Caching and freeing *)

Definition base_cache_blocks (p : BlockPool) (m : Manager) (request : Request)
    (num_tokens : Z) : res (BlockPool * Manager) :=
  let num_cached_blocks := default 0 (num_cached_block m !! request_id request) in
  let num_full_blocks := num_tokens / block_size m in
  if bool_decide (num_full_blocks ≤ num_cached_blocks) then Ok (p, m)
  else
    let '(m, blocks) := access m (request_id request) in
    p ← cache_full_blocks p request blocks num_cached_blocks num_full_blocks
          (block_size m) (kv_cache_group_id m);
    Ok (p, set_num_cached_block m
             (<[request_id request := num_full_blocks]> (num_cached_block m))).

Definition mamba_cache_blocks (p : BlockPool) (m : Manager) (request : Request)
    (num_tokens : Z) : res (BlockPool * Manager) :=
  let before := default 0 (num_cached_block m !! request_id request) in
  '(p, m) ← base_cache_blocks p m request num_tokens;
  let after := default 0 (num_cached_block m !! request_id request) in
  if bool_decide (before < after) then
    let '(m, blocks) := access m (request_id request) in
    m ← foldM (λ m b,
          if is_null (blk p b) then Ok m
          else match block_hash (blk p b) with
               | None => Raise AssertionError
               | Some h => Ok (set_cached_this_step m ({[h]} ∪ cached_blocks_this_step m))
               end) m (py_slice blocks before after);
    Ok (p, m)
  else Ok (p, m).

Definition cache_blocks (p : BlockPool) (m : Manager) (request : Request)
    (num_tokens : Z) : res (BlockPool * Manager) :=
  match kv_cache_spec m with
  | MambaSpec _ _ => mamba_cache_blocks p m request num_tokens
  | CrossAttentionSpec _ _ => Raise ValueError
  | _ => base_cache_blocks p m request num_tokens
  end.

Definition base_free (p : BlockPool) (m : Manager) (request_id : string)
    : res (BlockPool * Manager) :=
  let req_blocks := blocks_of m request_id in
  let m := set_req_to_blocks m (delete request_id (req_to_blocks m)) in
  p ← free_blocks p (reverse req_blocks);
  Ok (p, set_num_cached_block m (delete request_id (num_cached_block m))).

Definition free (p : BlockPool) (m : Manager) (request_id : string)
    : res (BlockPool * Manager) :=
  match kv_cache_spec m with
  | MambaSpec _ b =>
      let m := if bool_decide (mamba_cache_mode b = "align")
        then set_last_state (set_allocated m (_allocated_block_reqs m ∖ {[request_id]}))
               (delete request_id (last_state_block_idx m))
        else m in
      base_free p m request_id
  | _ => base_free p m request_id
  end.

(** The [for i in range(num_skipped_blocks - 1, -1, -1)] loop of
    [remove_skipped_blocks]; [n] is [i + 1].  Returns the updated list and the
    removed blocks in the order of removal. *)
Fixpoint remove_loop (null : block_ref) (n : nat) (blocks : list block_ref)
    : res (list block_ref * list block_ref) :=
  match n with
  | O => Ok (blocks, [])
  | S i =>
      b ← py_nth blocks (Z.of_nat i);
      if bool_decide (b = null) then Ok (blocks, [])
      else
        '(blocks', removed) ← remove_loop null i (<[i := null]> blocks);
        Ok (blocks', b :: removed)
  end.

Definition base_remove_skipped_blocks (p : BlockPool) (m : Manager) (request_id : string)
    (total_computed_tokens : Z) : res (BlockPool * Manager) :=
  let num_skipped_tokens := get_num_skipped_tokens (kv_cache_spec m) total_computed_tokens in
  if bool_decide (num_skipped_tokens ≤ 0) then Ok (p, m)
  else
    let '(m, blocks) := access m request_id in
    let num_skipped_blocks := Z.min (num_skipped_tokens / block_size m) (zlen blocks) in
    '(blocks, removed_blocks) ←
      remove_loop (_null_block m) (Z.to_nat num_skipped_blocks) blocks;
    let m := put_blocks m request_id blocks in
    p ← free_blocks p removed_blocks;
    Ok (p, m).

Definition mamba_remove_skipped_blocks (p : BlockPool) (m : Manager) (b : MambaFields)
    (request_id : string) (num_computed_tokens : Z) : res (BlockPool * Manager) :=
  let num_computed_tokens := Z.max 0 (num_computed_tokens - num_speculative_blocks b) in
  '(p, m) ← base_remove_skipped_blocks p m request_id num_computed_tokens;
  if bool_decide (mamba_cache_mode b = "align") then
    match last_state_block_idx m !! request_id with
    | Some idx =>
        if bool_decide (idx < cdiv num_computed_tokens (block_size m) - 1) then
          let '(m, blocks) := access m request_id in
          x ← py_nth blocks idx;
          if bool_decide (x ≠ _null_block m) then
            p ← free_blocks p [x];
            let j := if bool_decide (idx < 0) then idx + zlen blocks else idx in
            Ok (p, put_blocks m request_id (<[Z.to_nat j := _null_block m]> blocks))
          else Ok (p, m)
        else Ok (p, m)
    | None => Ok (p, m)
    end
  else Ok (p, m).

Definition remove_skipped_blocks (p : BlockPool) (m : Manager) (request_id : string)
    (total_computed_tokens : Z) : res (BlockPool * Manager) :=
  match kv_cache_spec m with
  | MambaSpec _ b => mamba_remove_skipped_blocks p m b request_id total_computed_tokens
  | _ => base_remove_skipped_blocks p m request_id total_computed_tokens
  end.

(** ** Queries *)

Fixpoint common_prefix_loop (p : BlockPool) (n : Z) (blocks : list block_ref) : Z :=
  match blocks with
  | [] => 0
  | b :: blocks =>
      if bool_decide (ref_cnt (blk p b) = n) then 1 + common_prefix_loop p n blocks else 0
  end.

Definition get_num_common_prefix_blocks (p : BlockPool) (m : Manager)
    (running_request_id : string) : Manager * Z :=
  if is_full_attention (kv_cache_spec m) then
    let '(m, blocks) := access m running_request_id in
    (m, common_prefix_loop p (Z.of_nat (size (req_to_blocks m))) blocks)
  else (m, 0).

Definition new_step_starts (m : Manager) : Manager :=
  match kv_cache_spec m with
  | MambaSpec _ _ => set_cached_this_step m ∅
  | _ => m
  end.
End Managers.

(** ** Sink blocks *)

(** At most all blocks but the null block are free. *)
Lemma free_le_pool p l : PoolInv p l → zlen l ≤ num_gpu_blocks p - 1.
Proof.
  intros I. pose proof (pi_static _ _ I) as [S1 S2 S3 S4]. pose proof (pi_queue _ _ I) as Q.
  set (n := length (fq_blocks (free_block_queue p))) in *.
  assert (length l ≤ length (Blk <$> seq 1 (n - 1)))%nat as Hl.
  { apply submseteq_length, NoDup_submseteq; [apply Q|]. intros r Hr.
    pose proof (repr_pool _ _ Q) as Hp. rewrite Forall_forall in Hp.
    destruct (Hp r Hr) as (i & -> & Hi). apply list_elem_of_fmap. exists i. split; [done|].
    apply elem_of_seq. destruct i as [|i]; [|lia]. exfalso.
    apply (pi_null_free _ _ I). by rewrite S3. }
  rewrite length_fmap length_seq in Hl. unfold zlen in *. lia.
Qed.

(** The sink blocks of [SinkFullAttentionManager] prevent every reset of
    the prefix cache.  They are taken out of the free queue for good without
    being counted as used, so even when no request holds any block,
    [reset_prefix_cache] sees more than the one used block it allows, does
    nothing and returns [False]. *)
Theorem sink_blocks_prevent_reset `{KVEnv} (p : BlockPool) (m : Manager) sink_len p' m' :
  pool_reach p → 0 < block_size m → Sink_init p m sink_len = Ok (p', m') →
  reset_prefix_cache p' = (p', false).
Proof.
  intros Hr Hbs E. destruct (pool_reach_inv p Hr) as [l I].
  destruct sink_len as [sl|]; [|done]. cbn [Sink_init] in E.
  destruct (decide (0 < sl ∧ sl `mod` block_size m = 0)) as [Ha|Ha];
    [rewrite bool_decide_true // in E|by rewrite bool_decide_false in E].
  cbn [py_assert mbind res_bind] in E. destruct Ha as [Hpos Hmod].
  set (k := sl / block_size m) in *.
  assert (0 < k) as Hk by (apply Z.div_exact in Hmod; [|lia]; unfold k; nia).
  destruct (decide (k ≤ zlen l)) as [Hle|Hgt]; last first.
  { unfold popleft_n in E. rewrite (bool_decide_false (k = 0)) in E; [|lia].
    rewrite (repr_num _ _ (pi_queue _ _ I)) bool_decide_false // in E. }
  destruct (popleft_n_spec (free_block_queue p) (take (Z.to_nat k) l) (drop (Z.to_nat k) l))
    as (q & Eq & Hq & _); [rewrite take_drop; apply I|].
  rewrite zlen_take in Eq; [|lia]. rewrite Z.min_l in Eq; [|lia]. rewrite Eq in E.
  cbn [mbind res_bind] in E. injection E as <- <-. unfold reset_prefix_cache.
  rewrite bool_decide_true //. unfold get_num_free_blocks. cbn [num_gpu_blocks free_block_queue set_queue].
  rewrite (repr_num _ _ Hq) zlen_drop; [|lia]. pose proof (free_le_pool p l I). lia.
Qed.

Definition sample_empty_pool : BlockPool := Eval vm_compute in the_pool (pool_after 8 []).
Definition sample_sink_spec : KVCacheSpec :=
  SinkFullAttentionSpec 2 (mkAttn 1 64 "bfloat16" NONE None) (mkFull 64 None None) (Some 4).

Definition sample_sink : BlockPool * Manager := Eval vm_compute in
  match Sink_init sample_empty_pool (Manager_init sample_empty_pool sample_sink_spec true 0 1 1 None) (Some 4) with
  | Ok r => r
  | Raise _ => (sample_empty_pool, Manager_init sample_empty_pool sample_sink_spec true 0 1 1 None)
  end.

Lemma sink_blocks_prevent_reset_witness :
  Sink_init sample_empty_pool (Manager_init sample_empty_pool sample_sink_spec true 0 1 1 None) (Some 4) =
    Ok sample_sink ∧ reset_prefix_cache sample_sink.1 = (sample_sink.1, false).
Proof.
  split; [vm_compute; reflexivity|].
  apply (sink_blocks_prevent_reset sample_empty_pool
    (Manager_init sample_empty_pool sample_sink_spec true 0 1 1 None) (Some 4) _ sample_sink.2);
    [|done|vm_compute; reflexivity].
  apply (reach_init 8 true 2 true). vm_compute. reflexivity.
Defined.
