(* ===== verification/CacheHit.v ===== *)
(** * Prefix cache lookups: the [find_longest_cache_hit] class methods of
      [vllm/v1/core/single_type_kv_cache_manager.py]

    Each manager class looks up the longest cached prefix of a request in its
    own way.  The main theorem states what all of them promise: the returned
    lists have the same length, which is at most [max_length] tokens and
    aligned, and every block the attention of the next token can read (the
    blocks that [get_num_skipped_tokens] does not skip) is a cached block that
    carries the hash of its position and group. *)

From S2P Require Import Prelude PyFloat Request FreeQueue BlockHash BlockPool KVCacheSpec SingleType.

(** ** Lists of blocks per group *)

(** [for computed, cached in zip(computed_blocks, cached_block): ...append]. *)
Fixpoint append_each (computed : list (list block_ref)) (cached : list block_ref)
    : list (list block_ref) :=
  match computed, cached with
  | c :: computed, b :: cached => (c ++ [b]) :: append_each computed cached
  | _, _ => computed
  end.

(** [for computed, cached in zip(...): computed[i] = cached]. *)
Fixpoint assign_each (i : nat) (computed : list (list block_ref)) (cached : list block_ref)
    : list (list block_ref) :=
  match computed, cached with
  | c :: computed, b :: cached => <[i := b]> c :: assign_each i computed cached
  | _, _ => computed
  end.

(** [for computed in computed_blocks: computed.pop()]. *)
Definition pop_each (computed : list (list block_ref)) : res (list (list block_ref)) :=
  mapM_res (λ c, if is_nil c then Raise IndexError else Ok (py_init c)) computed.

(** [while block_size != alignment_tokens and
     len(computed_blocks[0]) * block_size % alignment_tokens != 0: pop all];
    [n] is [len(computed_blocks[0])], and the condition is false at length 0. *)
Fixpoint align_loop (n : nat) (block_size alignment_tokens : Z)
    (computed : list (list block_ref)) : res (list (list block_ref)) :=
  match n with
  | O => Ok computed
  | S n' =>
      if bool_decide (block_size ≠ alignment_tokens) &&
         bool_decide ((Z.of_nat n * block_size) `mod` alignment_tokens ≠ 0)
      then computed ← pop_each computed; align_loop n' block_size alignment_tokens computed
      else Ok computed
  end.

Definition align_hit (block_size alignment_tokens : Z) (computed : list (list block_ref))
    : res (list (list block_ref)) :=
  c0 ← py_nth computed 0;
  align_loop (length c0) block_size alignment_tokens computed.

(** [if cached_block := block_pool.get_cached_block(...)]: an empty list of
    blocks is false. *)
Definition lookup_hit (p : BlockPool) (block_hash : bytes) (group_ids : list Z)
    : res (option (list block_ref)) :=
  o ← get_cached_block p block_hash group_ids;
  Ok (match o with Some [] => None | _ => o end).

(** ** [FullAttentionManager] *)

Fixpoint full_loop (p : BlockPool) (group_ids : list Z) (hashes : list bytes)
    (computed : list (list block_ref)) : res (list (list block_ref)) :=
  match hashes with
  | [] => Ok computed
  | h :: hashes =>
      o ← lookup_hit p h group_ids;
      match o with
      | Some cached => full_loop p group_ids hashes (append_each computed cached)
      | None => Ok computed
      end
  end.

Definition full_find_longest_cache_hit (block_hashes : BlockHashList) (max_length : Z)
    (group_ids : list Z) (p : BlockPool) (spec : KVCacheSpec) (use_eagle : bool)
    (alignment_tokens dcp_world_size pcp_world_size : Z) : res (list (list block_ref)) :=
  py_assert (is_full_attention spec ||
             match spec with ChunkedLocalAttentionSpec _ _ _ => true | _ => false end);;
  let computed := (λ _, []) <$> group_ids in
  let block_size := if bool_decide (1 < dcp_world_size * pcp_world_size)
    then spec_block_size spec * (dcp_world_size * pcp_world_size)
    else spec_block_size spec in
  let max_num_blocks := max_length / block_size in
  if bool_decide (max_num_blocks < 0) then Raise ValueError
  else
    computed ← full_loop p group_ids
                 (take (Z.to_nat max_num_blocks) (bhl_iter block_hashes)) computed;
    computed ← (if use_eagle then
                  c0 ← py_nth computed 0;
                  if is_nil c0 then Ok computed else pop_each computed
                else Ok computed);
    if bool_decide (block_size ≠ alignment_tokens)
    then align_hit block_size alignment_tokens computed else Ok computed.

(** ** [SlidingWindowManager] *)

(** The search from right to left; [n] is [i + 1].  Returns whether a match
    was found, the blocks and [num_contiguous_blocks]. *)
Fixpoint sw_search (p : BlockPool) (group_ids : list Z) (hashes : BlockHashList)
    (block_size alignment_tokens needed : Z) (use_eagle : bool)
    (n : nat) (computed : list (list block_ref)) (contiguous : Z)
    : res (bool * list (list block_ref) * Z) :=
  match n with
  | O => Ok (false, computed, contiguous)
  | S i =>
      h ← bhl_get hashes (Z.of_nat i);
      o ← lookup_hit p h group_ids;
      match o with
      | Some cached =>
          let post_pop_blocks := if use_eagle then Z.of_nat i else Z.of_nat i + 1 in
          if bool_decide (contiguous = 0) && bool_decide (block_size ≠ alignment_tokens) &&
             bool_decide ((post_pop_blocks * block_size) `mod` alignment_tokens ≠ 0)
          then sw_search p group_ids hashes block_size alignment_tokens needed use_eagle
                 i computed contiguous
          else
            let computed := assign_each i computed cached in
            let contiguous := contiguous + 1 in
            if bool_decide (needed ≤ contiguous)
            then Ok (true, (λ c, py_slice_to c (Z.of_nat i + contiguous)) <$> computed, contiguous)
            else sw_search p group_ids hashes block_size alignment_tokens needed use_eagle
                   i computed contiguous
      | None =>
          sw_search p group_ids hashes block_size alignment_tokens needed use_eagle i computed 0
      end
  end.

Definition sw_find_longest_cache_hit (block_hashes : BlockHashList) (max_length : Z)
    (group_ids : list Z) (p : BlockPool) (spec : KVCacheSpec) (use_eagle : bool)
    (alignment_tokens dcp_world_size pcp_world_size : Z) : res (list (list block_ref)) :=
  match spec with
  | SlidingWindowSpec bs _ _ w | SlidingWindowMLASpec bs _ _ w _ =>
      py_assert (bool_decide (dcp_world_size = 1));;
      py_assert (bool_decide (pcp_world_size = 1));;
      let needed := cdiv (w - 1) bs + (if use_eagle then 1 else 0) in
      let max_num_blocks := max_length / bs in
      let computed := (λ _, py_repeat (null_block p) max_num_blocks) <$> group_ids in
      '(found, computed, contiguous) ←
        sw_search p group_ids block_hashes bs alignment_tokens needed use_eagle
          (Z.to_nat max_num_blocks) computed 0;
      computed ←
        (if (found : bool) then Ok computed
         else
           let computed := (λ c, py_slice_to c contiguous) <$> computed in
           if bool_decide (bs ≠ alignment_tokens)
           then align_hit bs alignment_tokens computed else Ok computed);
      if use_eagle then
        c0 ← py_nth computed 0;
        if is_nil c0 then Ok computed
        else
          computed ← pop_each computed;
          if bool_decide (bs ≠ alignment_tokens)
          then align_hit bs alignment_tokens computed else Ok computed
      else Ok computed
  | _ => Raise AssertionError
  end.

(** ** [ChunkedLocalAttentionManager] *)

Fixpoint chunked_loop (p : BlockPool) (group_ids : list Z) (hashes : BlockHashList)
    (idxs : list Z) (computed : list (list block_ref)) : res (list (list block_ref)) :=
  match idxs with
  | [] => Ok computed
  | i :: idxs =>
      h ← bhl_get hashes i;
      o ← lookup_hit p h group_ids;
      match o with
      | Some cached => chunked_loop p group_ids hashes idxs (append_each computed cached)
      | None => Ok computed
      end
  end.

Definition chunked_find_longest_cache_hit (block_hashes : BlockHashList) (max_length : Z)
    (group_ids : list Z) (p : BlockPool) (spec : KVCacheSpec) (use_eagle : bool)
    (alignment_tokens dcp_world_size pcp_world_size : Z) : res (list (list block_ref)) :=
  match spec with
  | ChunkedLocalAttentionSpec bs _ c =>
      py_assert (negb use_eagle);;
      py_assert (bool_decide (dcp_world_size = 1));;
      py_assert (bool_decide (pcp_world_size = 1));;
      py_assert (bool_decide (bs = alignment_tokens));;
      let max_num_blocks := max_length / bs in
      let local_attention_start_idx :=
        if bool_decide (0 < max_length) then max_length / c * c else 0 in
      let local_attention_start_block_idx := local_attention_start_idx / bs in
      let computed :=
        (λ _, py_repeat (null_block p) local_attention_start_block_idx) <$> group_ids in
      chunked_loop p group_ids block_hashes
        (zrange local_attention_start_block_idx max_num_blocks) computed
  | _ => Raise AssertionError
  end.

(** ** [MambaManager] *)

(** [computed.extend([null] * i); computed.append(cached)]. *)
Fixpoint mamba_fill (null : block_ref) (i : Z) (computed : list (list block_ref))
    (cached : list block_ref) : list (list block_ref) :=
  match computed, cached with
  | c :: computed, b :: cached =>
      (c ++ py_repeat null i ++ [b]) :: mamba_fill null i computed cached
  | _, _ => computed
  end.

Fixpoint mamba_search (p : BlockPool) (group_ids : list Z) (hashes : BlockHashList)
    (block_size alignment_tokens : Z) (n : nat) (computed : list (list block_ref))
    : res (list (list block_ref)) :=
  match n with
  | O => Ok computed
  | S i =>
      h ← bhl_get hashes (Z.of_nat i);
      o ← lookup_hit p h group_ids;
      match o with
      | Some cached =>
          if bool_decide (block_size ≠ alignment_tokens) &&
             bool_decide (((Z.of_nat i + 1) * block_size) `mod` alignment_tokens ≠ 0)
          then mamba_search p group_ids hashes block_size alignment_tokens i computed
          else Ok (mamba_fill (null_block p) (Z.of_nat i) computed cached)
      | None => mamba_search p group_ids hashes block_size alignment_tokens i computed
      end
  end.

Definition mamba_find_longest_cache_hit (block_hashes : BlockHashList) (max_length : Z)
    (group_ids : list Z) (p : BlockPool) (spec : KVCacheSpec) (use_eagle : bool)
    (alignment_tokens dcp_world_size pcp_world_size : Z) : res (list (list block_ref)) :=
  match spec with
  | MambaSpec bs _ =>
      py_assert (bool_decide (dcp_world_size = 1));;
      py_assert (bool_decide (pcp_world_size = 1));;
      let computed := (λ _, []) <$> group_ids in
      mamba_search p group_ids block_hashes bs alignment_tokens
        (Z.to_nat (max_length / bs)) computed
  | _ => Raise AssertionError
  end.

(** ** Dispatch *)

(** [spec_manager_map[type(spec)].find_longest_cache_hit(...)]. *)
Definition find_longest_cache_hit (block_hashes : BlockHashList) (max_length : Z)
    (group_ids : list Z) (p : BlockPool) (spec : KVCacheSpec) (use_eagle : bool)
    (alignment_tokens dcp_world_size pcp_world_size : Z) : res (list (list block_ref)) :=
  match spec with
  | FullAttentionSpec _ _ _ | TQFullAttentionSpec _ _ _ _ | MLAAttentionSpec _ _ _ _
  | SinkFullAttentionSpec _ _ _ _ =>
      full_find_longest_cache_hit block_hashes max_length group_ids p spec use_eagle
        alignment_tokens dcp_world_size pcp_world_size
  | SlidingWindowSpec _ _ _ _ | SlidingWindowMLASpec _ _ _ _ _ =>
      sw_find_longest_cache_hit block_hashes max_length group_ids p spec use_eagle
        alignment_tokens dcp_world_size pcp_world_size
  | ChunkedLocalAttentionSpec _ _ _ =>
      chunked_find_longest_cache_hit block_hashes max_length group_ids p spec use_eagle
        alignment_tokens dcp_world_size pcp_world_size
  | MambaSpec _ _ =>
      mamba_find_longest_cache_hit block_hashes max_length group_ids p spec use_eagle
        alignment_tokens dcp_world_size pcp_world_size
  | CrossAttentionSpec _ _ => Raise NotImplementedError
  end.

(** ** Columns

    [Cols k D gs computed]: one list per group, all of length [k], whose
    [j]-th block satisfies [D group j]. *)
Definition Cols (k : nat) (D : Z → nat → block_ref → Prop) (gs : list Z)
    (computed : list (list block_ref)) : Prop :=
  Forall2 (λ g c, length c = k ∧ ∀ j b, c !! j = Some b → D g j b) gs computed.

Section Cols.
Context (gs : list Z).
Implicit Types (computed : list (list block_ref)) (D : Z → nat → block_ref → Prop).

Lemma Cols_impl k D D' computed :
  (∀ g j b, (j < k)%nat → D g j b → D' g j b) → Cols k D gs computed → Cols k D' gs computed.
Proof.
  intros HD H. eapply Forall2_impl; [exact H|]. intros g c [Hl Hc]. split; [done|].
  intros j b Hj. apply HD; [|by apply Hc]. apply lookup_lt_Some in Hj. lia.
Qed.

Lemma Cols_nil D : Cols 0 D gs ((λ _, []) <$> gs).
Proof. apply Forall2_fmap_r, Forall_Forall2_diag, Forall_forall. intros g _. by split. Qed.

Lemma Cols_repeat D x n : (∀ g j, (j < Z.to_nat n)%nat → D g j x) →
  Cols (Z.to_nat n) D gs ((λ _, py_repeat x n) <$> gs).
Proof.
  intros HD. apply Forall2_fmap_r, Forall_Forall2_diag, Forall_forall. intros g _.
  split; [apply length_replicate|]. intros j b [-> ?]%lookup_replicate. by apply HD.
Qed.

Lemma Cols_take k n D computed :
  (n ≤ k)%nat → Cols k D gs computed → Cols n D gs (take n <$> computed).
Proof.
  intros Hn H. apply Forall2_fmap_r. eapply Forall2_impl; [exact H|].
  intros g c [Hl Hc]. split; [rewrite length_take; lia|].
  intros j b [Hj _]%lookup_take_Some. by apply Hc.
Qed.

Lemma Cols_append k D computed cached :
  Cols k D gs computed → Forall2 (λ g b, D g k b) gs cached →
  Cols (S k) D gs (append_each computed cached).
Proof.
  unfold Cols. intros H. revert cached.
  induction H as [|g c gs' computed [Hl Hc] H IH]; intros cached Hb.
  { apply Forall2_nil_inv_l in Hb as ->. constructor. }
  apply Forall2_cons_inv_l in Hb as (b & cached' & Hb & Hbs & ->).
  constructor; [|by apply IH]. split; [rewrite length_app /=; lia|].
  intros j x Hj. apply lookup_app_Some in Hj as [Hj|[Hj1 Hj2]]; [by apply Hc|].
  apply list_lookup_singleton_Some in Hj2 as [Hj2 ->]. by replace j with k by lia.
Qed.

Lemma Cols_fill D null i computed cached :
  0 ≤ i → Cols 0 (λ _ _ _, False) gs computed →
  (∀ g j, (j < Z.to_nat i)%nat → D g j null) → Forall2 (λ g b, D g (Z.to_nat i) b) gs cached →
  Cols (S (Z.to_nat i)) D gs (mamba_fill null i computed cached).
Proof.
  unfold Cols. intros Hi H HD. revert cached.
  induction H as [|g c gs' computed [Hl _] H IH]; intros cached Hb.
  { apply Forall2_nil_inv_l in Hb as ->. constructor. }
  apply Forall2_cons_inv_l in Hb as (b & cached' & Hb & Hbs & ->).
  constructor; [|by apply IH]. destruct c; [|done]. cbn.
  split; [rewrite length_app length_replicate /=; lia|].
  intros j x Hj. apply lookup_app_Some in Hj as [[-> Hj]%lookup_replicate|[Hj1 Hj2]]; [by apply HD|].
  rewrite length_replicate in Hj1, Hj2. apply list_lookup_singleton_Some in Hj2 as [Hj2 ->].
  by replace j with (Z.to_nat i) by lia.
Qed.

Lemma Cols_assign k D D' i computed cached :
  Cols k D gs computed → Forall2 (λ g b, D' g i b) gs cached →
  (∀ g j b, j ≠ i → D g j b → D' g j b) →
  Cols k D' gs (assign_each i computed cached).
Proof.
  unfold Cols. intros H Hb HD. revert cached Hb.
  induction H as [|g c gs' computed [Hl Hc] H IH]; intros cached Hb.
  { apply Forall2_nil_inv_l in Hb as ->. constructor. }
  apply Forall2_cons_inv_l in Hb as (b & cached' & Hb & Hbs & ->).
  constructor; [|by apply IH]. split; [by rewrite length_insert|].
  intros j x Hj. destruct (decide (i = j)) as [->|Hne].
  - destruct (decide (j < length c)%nat) as [Hlt|Hge].
    + rewrite list_lookup_insert_eq // in Hj. by injection Hj as <-.
    + rewrite list_insert_ge in Hj; [|lia]. apply lookup_lt_Some in Hj. lia.
  - rewrite list_lookup_insert_ne // in Hj. apply HD; [done|by apply Hc].
Qed.

Lemma Cols_pop k D computed :
  Cols (S k) D gs computed → ∃ computed', pop_each computed = Ok computed' ∧ Cols k D gs computed'.
Proof.
  intros H. assert (pop_each computed = Ok (take k <$> computed)) as ->.
  { unfold Cols in H. unfold pop_each. induction H as [|g c gs' computed [Hl _] H IH]; [done|].
    cbn [mapM_res]. destruct c as [|x c]; [done|]. cbn [is_nil mbind res_bind]. rewrite IH. cbn [mbind res_bind].
    rewrite fmap_cons. do 2 f_equal. unfold py_init. f_equal. lia. }
  eexists; split; [done|]. apply (Cols_take (S k)); [lia|done].
Qed.

Lemma Cols_head k D computed :
  gs ≠ [] → Cols k D gs computed → ∃ c0, py_nth computed 0 = Ok c0 ∧ length c0 = k.
Proof.
  intros Hg H. destruct H as [|g c gs' computed' [Hl _] _]; [done|]. by exists c.
Qed.

(** Aligning drops blocks from the end until the length is aligned, and none
    if it already is. *)
Lemma Cols_align k D bs al computed :
  gs ≠ [] → bs ≠ al → Cols k D gs computed →
  ∃ k' computed', align_hit bs al computed = Ok computed' ∧ Cols k' D gs computed' ∧
    (k' ≤ k)%nat ∧ (Z.of_nat k' * bs) `mod` al = 0 ∧
    ((Z.of_nat k * bs) `mod` al = 0 → k' = k).
Proof.
  intros Hg Hne H. unfold align_hit. destruct (Cols_head k D computed Hg H) as (c0 & -> & Hc0).
  cbn [mbind res_bind]. rewrite Hc0. clear c0 Hc0. revert computed H.
  induction k as [|k IH]; intros computed H; cbn [align_loop].
  { exists 0%nat, computed. split; [done|]. split; [done|]. split; [lia|].
    rewrite Z.mul_0_l Zmod_0_l. done. }
  rewrite (bool_decide_true (bs ≠ al)) //. cbn [andb].
  destruct (decide ((Z.of_nat (S k) * bs) `mod` al = 0)) as [E|E].
  - rewrite bool_decide_false; [|tauto]. exists (S k), computed. by split_and!.
  - rewrite bool_decide_true //. destruct (Cols_pop _ _ _ H) as (computed1 & -> & H1).
    cbn [mbind res_bind]. destruct (IH _ H1) as (k' & computed' & -> & H' & Hk & Ha & _).
    exists k', computed'. split_and!; try done; lia.
Qed.
End Cols.

(** ** Soundness of the searches *)

(** The block carries the hash of its position for the group. *)
Definition carries (p : BlockPool) (hs : list bytes) (g : Z) (j : nat) (b : block_ref) : Prop :=
  pool_ref p b ∧ ∃ h, hs !! j = Some h ∧ hsh p b = Some (block_key h g).

(** Reading the hash list agrees with the plain list of hashes. *)
Definition hashes_ok (hl : BlockHashList) : Prop :=
  ∀ i, 0 ≤ i < zlen (bhl_iter hl) →
    ∃ h, bhl_get hl i = Ok h ∧ bhl_iter hl !! Z.to_nat i = Some h.

Section Searches.
Context (p : BlockPool) (gs : list Z) (hl : BlockHashList).
Context (HC : CacheInv p) (Hgs : gs ≠ []) (Hvalid : Forall valid_group_id gs).
Context (Hhl : hashes_ok hl).
Local Abbreviation hs := (bhl_iter hl).

(** A lookup hits iff every group has a block with the hash. *)
Lemma lookup_hit_spec h :
  ∃ o, lookup_hit p h gs = Ok o ∧
    match o with
    | Some bs => Forall2 (λ g b, pool_ref p b ∧ hsh p b = Some (block_key h g)) gs bs
    | None => ∃ g, g ∈ gs ∧ ∀ b, pool_ref p b → hsh p b ≠ Some (block_key h g)
    end.
Proof.
  destruct (get_cached_block_spec p h gs HC Hvalid) as (o & E & Ho).
  unfold lookup_hit. rewrite E. cbn [mbind res_bind]. eexists; split; [done|].
  destruct o as [[|b bs]|]; [|done|done]. apply Forall2_nil_inv_r in Ho. done.
Qed.

Lemma lookup_hit_carries h j o :
  hs !! j = Some h → lookup_hit p h gs = Ok (Some o) → Forall2 (λ g b, carries p hs g j b) gs o.
Proof.
  intros Hj E. destruct (lookup_hit_spec h) as (o' & E' & Ho). rewrite E in E'.
  injection E' as <-. eapply Forall2_impl; [exact Ho|]. intros g b [??]. split; [done|]. eauto.
Qed.

Lemma full_loop_spec tl : ∀ k computed,
  (∀ j, (j < length tl)%nat → tl !! j = hs !! (k + j)%nat) →
  Cols k (carries p hs) gs computed →
  ∃ n computed', full_loop p gs tl computed = Ok computed' ∧ Cols (k + n) (carries p hs) gs computed' ∧
    (n ≤ length tl)%nat ∧
    (∀ h, tl !! n = Some h → ∃ g, g ∈ gs ∧ ∀ b, pool_ref p b → hsh p b ≠ Some (block_key h g)).
Proof.
  induction tl as [|h tl IH]; intros k computed Htl H.
  { exists 0%nat, computed. rewrite Nat.add_0_r. split_and!; try done; lia. }
  cbn [full_loop]. destruct (lookup_hit_spec h) as (o & E & Ho). rewrite E. cbn [mbind res_bind].
  destruct o as [cached|].
  - destruct (IH (S k) (append_each computed cached)) as (n & computed' & E' & H' & Hn & Hmiss).
    + intros j Hj. specialize (Htl (S j)). cbn in Htl. rewrite Htl; [|lia]. f_equal. lia.
    + apply Cols_append; [done|]. apply (lookup_hit_carries h); [|done].
      specialize (Htl 0%nat). rewrite Nat.add_0_r in Htl. rewrite -Htl /=; [done|lia].
    + exists (S n), computed'. rewrite -Nat.add_succ_comm. split_and!; try done. cbn. lia.
  - exists 0%nat, computed. rewrite Nat.add_0_r. split_and!; [done|done|lia|].
    intros h' [= <-]. done.
Qed.

(** The hash at a position of the list. *)
Lemma bhl_get_at i : (i < length hs)%nat → ∃ h, bhl_get hl (Z.of_nat i) = Ok h ∧ hs !! i = Some h.
Proof.
  intros Hi. destruct (Hhl (Z.of_nat i)) as (h & E & Eh); [unfold zlen; lia|].
  exists h. by rewrite Nat2Z.id in Eh.
Qed.

(** The block is null or carries its hash, and carries it inside [lo, hi). *)
Definition window (lo hi : nat) (g : Z) (j : nat) (b : block_ref) : Prop :=
  (b = null_block p ∨ carries p hs g j b) ∧ ((lo ≤ j < hi)%nat → carries p hs g j b).

Lemma sw_search_spec bs al needed (eagle : bool) max n : ∀ c computed,
  (n + c ≤ max)%nat → (max ≤ length hs)%nat →
  Cols max (window n (n + c)) gs computed →
  (bs ≠ al → (0 < c)%nat → ((Z.of_nat (n + c) - (if eagle then 1 else 0)) * bs) `mod` al = 0) →
  ∃ (found : bool) computed' c', sw_search p gs hl bs al needed eagle n computed (Z.of_nat c) =
      Ok (found, computed', Z.of_nat c') ∧
    if found then
      ∃ lo, (0 < c')%nat ∧ (lo + c' ≤ max)%nat ∧ needed ≤ Z.of_nat c' ∧
        Cols (lo + c') (window lo (lo + c')) gs computed' ∧
        (bs ≠ al → ((Z.of_nat (lo + c') - (if eagle then 1 else 0)) * bs) `mod` al = 0)
    else (c' ≤ max)%nat ∧ Cols max (window 0 c') gs computed'.
Proof.
  induction n as [|i IH]; intros c computed Hle Hmax H Hal.
  { exists false, computed, c. by split_and!. }
  cbn [sw_search]. destruct (bhl_get_at i) as (h & -> & Eh); [lia|]. cbn [mbind res_bind].
  destruct (lookup_hit_spec h) as (o & E & Ho). rewrite E. cbn [mbind res_bind].
  assert (Cols max (window i (i + 0)) gs computed) as H0.
  { eapply Cols_impl; [|exact H]. intros g j b _ [Hb _]. split; [done|lia]. }
  destruct o as [cached|]; [|apply (IH 0%nat); [lia|done|done|lia]].
  match goal with |- context [if ?b then sw_search _ _ _ _ _ _ _ _ _ _ else _] =>
    destruct b eqn:Hskip end.
  { apply andb_true_iff in Hskip as [[Hc%bool_decide_eq_true _]%andb_true_iff _].
    replace c with 0%nat in * by lia. apply (IH 0%nat); [lia|done|done|lia]. }
  assert (bs ≠ al → ((Z.of_nat (i + S c) - (if eagle then 1 else 0)) * bs) `mod` al = 0) as Hal'.
  { intros Hne. destruct (decide (c = 0%nat)) as [->|Hc].
    - rewrite (bool_decide_true (Z.of_nat 0 = 0)) // in Hskip.
      rewrite (bool_decide_true (bs ≠ al)) // in Hskip. cbn [andb] in Hskip.
      apply bool_decide_eq_false, dec_stable in Hskip. rewrite -Hskip. f_equal. f_equal.
      destruct eagle; lia.
    - replace (i + S c)%nat with (S i + c)%nat by lia. apply Hal; [done|lia]. }
  assert (Cols max (window i (i + S c)) gs (assign_each i computed cached)) as H'.
  { eapply Cols_assign; [exact H| |].
    - pose proof (lookup_hit_carries h i cached Eh E) as Hcar. eapply Forall2_impl; [exact Hcar|].
      intros g b Hb. by split; [right|].
    - intros g j b Hne [Hb Hw]. split; [done|]. intros Hj. apply Hw. lia. }
  replace (Z.of_nat c + 1) with (Z.of_nat (S c)) by lia.
  clear Hskip. case_bool_decide as Hneed.
  - eexists true, _, (S c). split; [reflexivity|]. exists i. split_and!; [lia|lia|done| |done].
    replace ((λ c0, py_slice_to c0 (Z.of_nat i + Z.of_nat (S c))) <$> assign_each i computed cached)
      with (take (i + S c) <$> assign_each i computed cached).
    + eapply Cols_take; [|exact H']. lia.
    + apply list_fmap_ext. intros _ x _. rewrite py_slice_to_take; [|lia]. f_equal. lia.
  - apply IH; [lia|done|done|]. intros Hne _. by apply Hal'.
Qed.

Lemma chunked_loop_spec n : ∀ k computed lo,
  (k + n ≤ length hs)%nat → Cols k (window lo k) gs computed → (lo ≤ k)%nat →
  ∃ k' computed', chunked_loop p gs hl (seqZ (Z.of_nat k) (Z.of_nat n)) computed = Ok computed' ∧
    (k ≤ k' ≤ k + n)%nat ∧ Cols k' (window lo k') gs computed'.
Proof.
  induction n as [|n IH]; intros k computed lo Hk H Hlo.
  { exists k, computed. split_and!; try done; lia. }
  rewrite seqZ_cons; [|lia]. cbn [chunked_loop].
  destruct (bhl_get_at k) as (h & -> & Eh); [lia|]. cbn [mbind res_bind].
  destruct (lookup_hit_spec h) as (o & E & Ho). rewrite E. cbn [mbind res_bind].
  destruct o as [cached|].
  - replace (Z.succ (Z.of_nat k)) with (Z.of_nat (S k)) by lia.
    replace (Z.pred (Z.of_nat (S n))) with (Z.of_nat n) by lia.
    destruct (IH (S k) (append_each computed cached) lo) as (k' & computed' & E' & Hk' & H');
      [lia| |lia|].
    + apply Cols_append.
      * eapply Cols_impl; [|exact H]. intros g j b Hj [Hb Hw]. split; [done|].
        intros ?. apply Hw. lia.
      * pose proof (lookup_hit_carries h k cached Eh E) as Hcar. eapply Forall2_impl; [exact Hcar|].
        intros g b Hb. by split; [right|].
    + exists k', computed'. split_and!; try done; lia.
  - exists k, computed. split_and!; try done; lia.
Qed.

Lemma mamba_search_spec bs al n :
  (n ≤ length hs)%nat →
  ∃ k computed', mamba_search p gs hl bs al n ((λ _, []) <$> gs) = Ok computed' ∧ (k ≤ n)%nat ∧
    Cols k (window (k - 1) k) gs computed' ∧ (k = 0%nat ∨ bs = al ∨ (Z.of_nat k * bs) `mod` al = 0).
Proof.
  intros Hn. induction n as [|i IH].
  { exists 0%nat, ((λ _, []) <$> gs). split_and!; [done|lia|apply Cols_nil|by left]. }
  cbn [mamba_search]. destruct (bhl_get_at i) as (h & -> & Eh); [lia|]. cbn [mbind res_bind].
  destruct (lookup_hit_spec h) as (o & E & Ho). rewrite E. cbn [mbind res_bind].
  destruct IH as (k & computed' & E' & Hk & H' & Hal); [lia|].
  destruct o as [cached|]; [|by exists k, computed'; split_and!; try done; lia].
  match goal with |- context [if ?b then _ else _] => destruct b eqn:Hskip end.
  { exists k, computed'. split_and!; try done; lia. }
  eexists (S i), _. split; [reflexivity|]. split; [lia|]. split.
  - rewrite -{1}(Nat2Z.id i). apply Cols_fill; [lia|apply Cols_nil| |].
    + intros g j Hj. split; [by left|lia].
    + rewrite Nat2Z.id. pose proof (lookup_hit_carries h i cached Eh E) as Hcar.
      eapply Forall2_impl; [exact Hcar|]. intros g b Hb. by split; [right|].
  - right. apply andb_false_iff in Hskip as [Hs|Hs]; apply bool_decide_eq_false, dec_stable in Hs;
      [by left|right]. by replace (Z.of_nat (S i)) with (Z.of_nat i + 1) by lia.
Qed.

(** ** The promise of all managers *)

(** The longest hit: with EAGLE the last matching block is dropped, except by
    [MambaManager], which does not look at the flag. *)
Definition max_hit_blocks (spec : KVCacheSpec) (eagle : bool) (bs max_length : Z) : nat :=
  (Z.to_nat (max_length / bs) - (if eagle && negb (is_mamba spec) then 1 else 0))%nat.

(** [k] blocks per group; those the next token can attend to are cached. *)
Definition hit_ok (spec : KVCacheSpec) (eagle : bool) (bs max_length al : Z)
    (computed : list (list block_ref)) : Prop :=
  ∃ k : nat, (k ≤ max_hit_blocks spec eagle bs max_length)%nat ∧ (Z.of_nat k * bs) `mod` al = 0 ∧
    Cols k (λ g j b,
      (b = null_block p ∨ carries p hs g j b) ∧
      (get_num_skipped_tokens spec (Z.of_nat k * bs) < (Z.of_nat j + 1) * bs →
       carries p hs g j b)) gs computed.

Lemma le_div_mul max_length bs k :
  0 < bs → 0 ≤ max_length → (k ≤ Z.to_nat (max_length / bs))%nat → Z.of_nat k * bs ≤ max_length.
Proof.
  intros Hb Hm Hk. pose proof (Z.mul_div_le max_length bs Hb).
  assert (0 ≤ max_length / bs) by (apply Z.div_pos; lia). nia.
Qed.

Lemma max_hit_le spec eagle bs max_length k :
  0 < bs → 0 ≤ max_length → (k ≤ max_hit_blocks spec eagle bs max_length)%nat →
  Z.of_nat k * bs ≤ max_length.
Proof. intros Hb Hm Hk. apply le_div_mul; [done..|]. unfold max_hit_blocks in Hk. lia. Qed.

Lemma full_hit_ok spec max_length eagle al dcp pcp bs :
  is_full_attention spec = true →
  bs = (if bool_decide (1 < dcp * pcp) then spec_block_size spec * (dcp * pcp)
        else spec_block_size spec) →
  0 < bs → 0 < al → 0 ≤ max_length → max_length / bs ≤ zlen hs →
  ∃ computed, full_find_longest_cache_hit hl max_length gs p spec eagle al dcp pcp = Ok computed ∧
    hit_ok spec eagle bs max_length al computed.
Proof.
  intros Hspec Ebs Hbs Hal Hmax Hlen. unfold full_find_longest_cache_hit. rewrite Hspec.
  cbn [orb py_assert mbind res_bind]. rewrite -Ebs.
  assert (0 ≤ max_length / bs) by (apply Z.div_pos; lia).
  rewrite bool_decide_false; [|lia]. set (tl := take _ hs).
  assert (length tl = Z.to_nat (max_length / bs)) as Hltl.
  { unfold tl. rewrite length_take. unfold zlen in Hlen. lia. }
  destruct (full_loop_spec tl 0 ((λ _, []) <$> gs)) as (n & computed & -> & HCn & Hn & _).
  { intros j Hj. unfold tl. rewrite lookup_take_lt; [done|lia]. }
  { apply Cols_nil. }
  cbn [mbind res_bind]. rewrite Nat.add_0_l in HCn.
  assert (∃ k computed1, (if eagle then c0 ← py_nth computed 0;
      if is_nil c0 then Ok computed else pop_each computed else Ok computed) = Ok computed1 ∧
      Cols k (carries p hs) gs computed1 ∧ (k ≤ n - (if eagle then 1 else 0))%nat) as (k & computed1 & -> & HCk & Hk).
  { destruct eagle; [|exists n, computed; split_and!; [done..|lia]].
    destruct (Cols_head gs n _ computed Hgs HCn) as (c0 & -> & Hc0). cbn [mbind res_bind].
    destruct c0 as [|x c0]; [exists n, computed; cbn in Hc0; split_and!; [done..|lia]|].
    cbn [is_nil]. destruct n as [|n]; [done|].
    destruct (Cols_pop gs n _ computed HCn) as (computed1 & -> & H1). exists n, computed1.
    split_and!; try done; lia. }
  cbn [mbind res_bind].
  assert (∀ k, (k ≤ n - (if eagle then 1 else 0))%nat → ∀ computed, Cols k (carries p hs) gs computed →
    (Z.of_nat k * bs) `mod` al = 0 → hit_ok spec eagle bs max_length al computed) as Hfin.
  { intros k1 Hk1 c1 H1 Ha. exists k1. split; [|split; [done|]].
    - unfold max_hit_blocks. destruct eagle, (is_mamba spec); cbn; lia.
    - eapply Cols_impl; [|exact H1]. intros g j b _ Hb. by split; [right|]. }
  goal_bool as Hne.
  - destruct (Cols_align gs k _ bs al computed1 Hgs Hne HCk) as (k' & c' & -> & H' & Hk' & Ha & _).
    eexists; split; [done|]. apply (Hfin k'); [lia|done..].
  - apply dec_stable in Hne. subst al. eexists; split; [done|]. apply (Hfin k); [lia|done|].
    apply Z_mod_mult.
Qed.

(** The last [cdiv (w - 1) bs] blocks of a hit are those a window of [w]
    tokens can read. *)
Lemma window_blocks bs w k j :
  0 < bs → 0 < w → Z.max 0 (Z.of_nat k * bs - w + 1) < (Z.of_nat j + 1) * bs →
  Z.of_nat k - cdiv (w - 1) bs ≤ Z.of_nat j.
Proof. intros Hb Hw Hj. pose proof (cdiv_spec (w - 1) bs Hb). nia. Qed.

(** The hit before the EAGLE drop: [k] blocks of which those from [lo] on are
    cached; either all of them are, or they cover the window. *)
Definition sw_candidate (needed bs al : Z) (eagle : bool) (mx k lo : nat)
    (computed : list (list block_ref)) : Prop :=
  (k ≤ mx)%nat ∧ Cols k (window lo k) gs computed ∧
  (lo = 0%nat ∨ (Z.of_nat lo ≤ Z.of_nat k - needed ∧ (0 < k)%nat ∧
    (bs ≠ al → ((Z.of_nat k - (if eagle then 1 else 0)) * bs) `mod` al = 0))) ∧
  (lo = 0%nat → eagle = false → bs ≠ al → (Z.of_nat k * bs) `mod` al = 0).

(** Restricting the window of cached blocks with the list. *)
Lemma Cols_window_shrink lo k k' computed :
  (k' ≤ k)%nat → Cols k' (window lo k) gs computed → Cols k' (window lo k') gs computed.
Proof.
  intros Hk. apply Cols_impl. intros g j b Hj [Hb Hw]. split; [done|]. intros ?. apply Hw. lia.
Qed.

Lemma sw_trim bs al needed (eagle : bool) mx (found : bool) (c1 : list (list block_ref)) c' :
  (if found : bool
   then ∃ lo, (0 < c')%nat ∧ (lo + c' ≤ mx)%nat ∧ needed ≤ Z.of_nat c' ∧
          Cols (lo + c') (window lo (lo + c')) gs c1 ∧
          (bs ≠ al → ((Z.of_nat (lo + c') - (if eagle then 1 else 0)) * bs) `mod` al = 0)
   else (c' ≤ mx)%nat ∧ Cols mx (window 0 c') gs c1) →
  ∃ k lo c2, (if found then Ok c1 else
      if bool_decide (bs ≠ al) then align_hit bs al ((λ c, py_slice_to c (Z.of_nat c')) <$> c1)
      else Ok ((λ c, py_slice_to c (Z.of_nat c')) <$> c1)) = Ok c2 ∧
    sw_candidate needed bs al eagle mx k lo c2.
Proof.
  intros Hres. destruct found.
  - destruct Hres as (lo & Hc0 & Hle & Hneed & HCs & Ha). exists (lo + c')%nat, lo, c1.
    split; [done|]. split_and!; [done|done|right; split_and!; [lia|lia|done]|].
    intros -> -> Hne. specialize (Ha Hne). by rewrite Z.sub_0_r in Ha.
  - destruct Hres as [Hle HCs].
    assert (Cols c' (window 0 c') gs ((λ c, py_slice_to c (Z.of_nat c')) <$> c1)) as H1.
    { rewrite (list_fmap_ext _ (take c')); [by eapply Cols_take|].
      intros _ x _. rewrite py_slice_to_take; [|lia]. by rewrite Nat2Z.id. }
    goal_bool as Hne.
    + destruct (Cols_align gs c' _ bs al _ Hgs Hne H1) as (k' & c2 & -> & H2 & Hk' & Ha & _).
      exists k', 0%nat, c2. split; [done|]. split_and!; [lia| |by left|done].
      by eapply Cols_window_shrink.
    + eexists c', 0%nat, _. split; [reflexivity|]. split_and!; [lia|done|by left|done].
Qed.

(** The hit after the EAGLE drop. *)
Lemma sw_drop bs al w (eagle : bool) mx k lo c2 :
  let needed := cdiv (w - 1) bs + (if eagle then 1 else 0) in
  sw_candidate needed bs al eagle mx k lo c2 →
  ∃ k' lo' c3, (if eagle then
        c0 ← py_nth c2 0;
        if is_nil c0 then Ok c2
        else
          computed ← pop_each c2;
          if bool_decide (bs ≠ al) then align_hit bs al computed else Ok computed
      else Ok c2) = Ok c3 ∧
    (k' ≤ mx - (if eagle then 1 else 0))%nat ∧ Cols k' (window lo' k') gs c3 ∧
    (Z.of_nat lo' ≤ Z.of_nat k' - cdiv (w - 1) bs ∨ lo' = 0%nat) ∧
    (bs ≠ al → (Z.of_nat k' * bs) `mod` al = 0).
Proof.
  intros needed (Hk & H2 & Hlo & Hal0). unfold needed in *. destruct eagle.
  - destruct (Cols_head gs k _ c2 Hgs H2) as (c0 & -> & Hc0). cbn [mbind res_bind].
    destruct c0 as [|x c0]; cbn [is_nil].
    { exists 0%nat, 0%nat, c2. cbn in Hc0. subst k. split_and!; [done|lia| |by right|done].
      eapply Cols_impl; [|exact H2]. lia. }
    destruct k as [|k]; [done|]. destruct (Cols_pop gs k _ c2 H2) as (c3 & -> & H3).
    cbn [mbind res_bind]. apply Cols_window_shrink in H3; [|lia].
    goal_bool as Hne.
    + destruct (Cols_align gs k _ bs al c3 Hgs Hne H3) as (k' & c4 & -> & H4 & Hk' & Ha & Hsame).
      apply Cols_window_shrink in H4; [|done].
      exists k', lo, c4. split_and!; [done|lia|done| |done]. destruct Hlo as [->|(Hlo & _ & Hpost)]; [by right|].
      left. assert (k' = k) as ->; [|lia]. apply Hsame. rewrite -(Hpost Hne). f_equal. lia.
    + exists k, lo, c3. split_and!; [done|lia|done| |done].
      destruct Hlo as [->|(Hlo & _)]; [by right|left; lia].
  - exists k, lo, c2. split_and!; [done|lia|done| |].
    + destruct Hlo as [->|(Hlo & _)]; [by right|left; lia].
    + intros Hne. destruct (decide (lo = 0%nat)) as [Hz|Hz]; [by apply Hal0|].
      destruct Hlo as [?|(_ & _ & Hpost)]; [done|]. specialize (Hpost Hne).
      by rewrite Z.sub_0_r in Hpost.
Qed.

Lemma sw_hit_ok spec bs w max_length eagle al :
  spec_block_size spec = bs →
  (∀ n, get_num_skipped_tokens spec n = Z.max 0 (n - w + 1)) →
  (∃ a v, spec = SlidingWindowSpec bs a v w) ∨ (∃ a v m, spec = SlidingWindowMLASpec bs a v w m) →
  0 < bs → 0 < al → 0 < w → 0 ≤ max_length → max_length / bs ≤ zlen hs →
  ∃ computed, sw_find_longest_cache_hit hl max_length gs p spec eagle al 1 1 = Ok computed ∧
    hit_ok spec eagle bs max_length al computed.
Proof.
  intros Ebs Hskip Hspec Hbs Hal Hw Hmax Hlen.
  set (needed := cdiv (w - 1) bs + (if eagle then 1 else 0)).
  assert (0 ≤ max_length / bs) as Hm0 by (apply Z.div_pos; lia).
  set (mx := Z.to_nat (max_length / bs)).
  destruct (sw_search_spec bs al needed eagle mx mx 0
    ((λ _, py_repeat (null_block p) (max_length / bs)) <$> gs)) as (found & c1 & c' & E & Hres).
  { lia. } { unfold mx, zlen in *. lia. }
  { apply Cols_repeat. intros g j _. split; [by left|lia]. } { lia. }
  destruct (sw_trim bs al needed eagle mx found c1 c' Hres) as (k & lo & c2 & E2 & Hc2).
  destruct (sw_drop bs al w eagle mx k lo c2 Hc2) as (k' & lo' & c3 & E3 & Hk' & H3 & Hlo & Ha).
  exists c3. split.
  { change (Z.of_nat 0) with 0 in E.
    destruct Hspec as [(a & v & ->)|(a & v & m & ->)]; cbn;
      fold needed; fold mx; rewrite E; cbn [mbind res_bind]; rewrite E2; cbn [mbind res_bind]; exact E3. }
  assert (is_mamba spec = false) as Hm by by destruct Hspec as [(a & v & ->)|(a & v & m & ->)].
  exists k'. split; [unfold max_hit_blocks; rewrite Hm; by destruct eagle|]. split.
  - destruct (decide (bs = al)) as [<-|]; [apply Z_mod_mult|by apply Ha].
  - eapply Cols_impl; [|exact H3]. intros g j b Hj [Hb Hwin]. split; [done|].
    rewrite Hskip. intros Hs. apply Hwin. apply window_blocks in Hs; [|done..]. lia.
Qed.

Lemma chunked_hit_ok bs a c max_length :
  0 < bs → 0 < c → c `mod` bs = 0 → 0 ≤ max_length → max_length / bs ≤ zlen hs →
  let spec := ChunkedLocalAttentionSpec bs a c in
  ∃ computed, chunked_find_longest_cache_hit hl max_length gs p spec false bs 1 1 = Ok computed ∧
    hit_ok spec false bs max_length bs computed.
Proof.
  intros Hbs Hc Hdiv Hmax Hlen spec. unfold chunked_find_longest_cache_hit, spec.
  rewrite !(bool_decide_true (1 = 1)) // (bool_decide_true (bs = bs)) //.
  cbn [negb py_assert mbind res_bind].
  assert ((if bool_decide (0 < max_length) then max_length / c * c else 0) = max_length / c * c) as ->.
  { goal_bool as Hp; [done|]. replace max_length with 0 by lia. done. }
  apply Z.div_exact in Hdiv; [|lia]. set (q := c / bs) in *.
  assert (0 ≤ max_length / c) as Hq0 by (apply Z.div_pos; lia).
  assert (0 < q) as Hq by nia.
  set (start := max_length / c * q).
  assert (start * bs = max_length / c * c) as Est.
  { unfold start. by rewrite -Z.mul_assoc (Z.mul_comm q bs) -Hdiv. }
  rewrite -Est Z.div_mul; [|lia].
  pose proof (Z.mul_div_le max_length c Hc) as Hml.
  pose proof (Z.mod_pos_bound max_length c Hc) as Hmp. pose proof (Z.div_mod max_length c ltac:(lia)) as Hdm.
  assert (start ≤ max_length / bs) as Hsm by (apply Z.div_le_lower_bound; lia).
  assert (0 ≤ start) as Hs0 by (unfold start; nia).
  unfold zrange. set (n := max_length / bs - start).
  destruct (chunked_loop_spec (Z.to_nat n) (Z.to_nat start)
    ((λ _, py_repeat (null_block p) start) <$> gs) (Z.to_nat start)) as (k & computed & E & Hk & HCk).
  { unfold zlen in Hlen. lia. }
  { apply Cols_repeat. intros g j _. split; [by left|lia]. }
  { lia. }
  rewrite !Z2Nat.id in E; [|lia..]. exists computed. split; [exact E|].
  assert (Z.of_nat k * bs ≤ max_length) as Hkb by (apply le_div_mul; [done..|lia]).
  exists k. split; [unfold max_hit_blocks; cbn; lia|]. split; [apply Z_mod_mult|].
  eapply Cols_impl; [|exact HCk]. intros g j b Hj [Hb Hw]. split; [done|]. cbn.
  intros Hs. apply Hw. split; [|done].
  assert (Z.of_nat k * bs / c = max_length / c) as Ek.
  { symmetry. apply (Z.div_unique_pos _ _ _ (Z.of_nat k * bs - max_length / c * c)); [|lia].
    assert (start * bs ≤ Z.of_nat k * bs) by (apply Z.mul_le_mono_nonneg_r; lia). lia. }
  unfold_skipped. rewrite Ek in Hs. nia.
Qed.

Lemma mamba_hit_ok bs b max_length eagle al :
  0 < bs → 0 < al → 0 ≤ max_length → max_length / bs ≤ zlen hs →
  let spec := MambaSpec bs b in
  ∃ computed, mamba_find_longest_cache_hit hl max_length gs p spec eagle al 1 1 = Ok computed ∧
    hit_ok spec eagle bs max_length al computed.
Proof.
  intros Hbs Hal Hmax Hlen spec. unfold mamba_find_longest_cache_hit, spec.
  rewrite !(bool_decide_true (1 = 1)) //. cbn [py_assert mbind res_bind].
  assert (0 ≤ max_length / bs) by (apply Z.div_pos; lia).
  destruct (mamba_search_spec bs al (Z.to_nat (max_length / bs)))
    as (k & computed & -> & Hk & HCk & Ha); [unfold zlen in Hlen; lia|].
  exists computed. split; [done|]. exists k.
  split; [unfold max_hit_blocks; rewrite andb_false_r; cbn; lia|]. split.
  - destruct Ha as [->|[->|Ha]]; [done|apply Z_mod_mult|done].
  - eapply Cols_impl; [|exact HCk]. intros g j x Hj [Hb Hw]. split; [done|]. cbn.
    intros Hs. apply Hw. unfold_skipped. nia.
Qed.
End Searches.

(** The block size a group's hits are counted in. *)
Definition hit_block_size (spec : KVCacheSpec) (dcp_world_size pcp_world_size : Z) : Z :=
  if bool_decide (1 < dcp_world_size * pcp_world_size)
  then spec_block_size spec * (dcp_world_size * pcp_world_size) else spec_block_size spec.

(** The combinations [find_longest_cache_hit] accepts: context parallelism for
    full attention only, no EAGLE and no foreign alignment for chunked local
    attention, whose chunks are made of whole blocks. *)
Definition hit_supported (spec : KVCacheSpec) (use_eagle : bool) (al dcp pcp : Z) : Prop :=
  match spec with
  | FullAttentionSpec _ _ _ | TQFullAttentionSpec _ _ _ _ | MLAAttentionSpec _ _ _ _
  | SinkFullAttentionSpec _ _ _ _ => True
  | SlidingWindowSpec _ _ _ w | SlidingWindowMLASpec _ _ _ w _ => dcp = 1 ∧ pcp = 1 ∧ 0 < w
  | ChunkedLocalAttentionSpec bs _ c =>
      dcp = 1 ∧ pcp = 1 ∧ use_eagle = false ∧ al = bs ∧ 0 < c ∧ c `mod` bs = 0
  | MambaSpec _ _ => dcp = 1 ∧ pcp = 1
  | CrossAttentionSpec _ _ => False
  end.

Lemma find_longest_cache_hit_ok p hl max_length gs spec eagle al dcp pcp :
  CacheInv p → gs ≠ [] → Forall valid_group_id gs → hashes_ok hl →
  hit_supported spec eagle al dcp pcp →
  let bs := hit_block_size spec dcp pcp in
  0 < bs → 0 < al → 0 ≤ max_length → max_length / bs ≤ zlen (bhl_iter hl) →
  ∃ computed, find_longest_cache_hit hl max_length gs p spec eagle al dcp pcp = Ok computed ∧
    hit_ok p gs hl spec eagle bs max_length al computed.
Proof.
  intros HC Hgs Hv Hhl Hs bs Hbs Hal Hmax Hlen. unfold bs, hit_block_size in *.
  destruct spec as [b a f|b a f t|b a f m|b a f sl|b a c|b a v w|b a v w m|b f|b a]; cbn in Hs;
    cbn [find_longest_cache_hit].
  1-4: by apply full_hit_ok.
  - destruct Hs as (-> & -> & -> & -> & ? & ?). by apply chunked_hit_ok.
  - destruct Hs as (-> & -> & ?). apply (sw_hit_ok p gs hl HC Hgs Hv Hhl _ b w); eauto.
  - destruct Hs as (-> & -> & ?). apply (sw_hit_ok p gs hl HC Hgs Hv Hhl _ b w); eauto 6.
  - destruct Hs as (-> & ->). by apply mamba_hit_ok.
  - done.
Qed.

(** The hash lists the pool makes for a request can be read. *)
Lemma block_hashes_for_ok p r bs :
  0 < hash_block_size p → 0 < bs → bs `mod` hash_block_size p = 0 →
  ∃ hl, block_hashes_for p r bs = Ok hl ∧ hashes_ok hl ∧
    bhl_iter hl = hashes_at (hash_block_size p) bs r.
Proof.
  intros Hh Hb Hm. destruct (block_hashes_for_spec p r bs Hh Hb Hm) as (_ & hl & E & Ei & _ & Hg).
  by exists hl.
Qed.

(** ** Main properties *)

(** C9: prefix cache hits are usable, for every attention type that has a lookup, in the
    combinations of [hit_supported]: not cross attention; context parallelism for full
    attention only; chunked local attention with chunks of whole blocks, without EAGLE
    and at its own alignment.  For a reachable pool and a request with enough hashes,
    [find_longest_cache_hit] returns one list per group, all of the same length [k]; the
    hit is at most [max_length] tokens and aligned; every block is the null block or
    carries the hash of its position for its group, and every block that the attention
    of the next token can read ([get_num_skipped_tokens] does not skip all of it) does
    carry it. *)
Theorem cache_hit_sound `{KVEnv} (p : BlockPool) (r : Request) (spec : KVCacheSpec)
    (gs : list Z) (max_length al dcp pcp : Z) (eagle : bool) :
  let bs := hit_block_size spec dcp pcp in
  let hs := hashes_at (hash_block_size p) bs r in
  pool_reach p → gs ≠ [] → Forall valid_group_id gs → hit_supported spec eagle al dcp pcp →
  0 < bs → 0 < al → 0 < hash_block_size p → bs `mod` hash_block_size p = 0 →
  0 ≤ max_length → max_length / bs ≤ zlen hs →
  ∃ hl computed k,
    block_hashes_for p r bs = Ok hl ∧
    find_longest_cache_hit hl max_length gs p spec eagle al dcp pcp = Ok computed ∧
    length computed = length gs ∧
    Z.of_nat k * bs ≤ max_length ∧ (Z.of_nat k * bs) `mod` al = 0 ∧
    ∀ i g c, gs !! i = Some g → computed !! i = Some c → length c = k ∧
      ∀ j b, c !! j = Some b →
        (b = null_block p ∨ carries p hs g j b) ∧
        (get_num_skipped_tokens spec (Z.of_nat k * bs) < (Z.of_nat j + 1) * bs →
         carries p hs g j b).
Proof.
  intros bs hs Hr Hgs Hv Hs Hbs Hal Hh Hm Hmax Hlen.
  destruct (pool_reach_inv p Hr) as [l I].
  destruct (block_hashes_for_ok p r bs Hh Hbs Hm) as (hl & E & Hok & Ehl).
  destruct (find_longest_cache_hit_ok p hl max_length gs spec eagle al dcp pcp)
    as (computed & Ec & k & Hk & Ha & HCk); [apply I|done..|by rewrite Ehl|].
  exists hl, computed, k. apply max_hit_le in Hk; [|done..]. split_and!; try done.
  - by symmetry; eapply Forall2_length.
  - intros i g c Hg Hc. fold bs in HCk. rewrite Ehl in HCk.
    exact (Forall2_lookup_lr _ _ _ _ _ _ HCk Hg Hc).
Qed.

(** The lookup of full attention is maximal.  Without EAGLE and at the
    group's own block size, the hit of a full attention group ends either at
    [max_length] or at the first block whose hash some group has not cached. *)
Theorem full_hit_is_longest `{KVEnv} (p : BlockPool) (hl : BlockHashList) (spec : KVCacheSpec)
    (gs : list Z) (max_length : Z) :
  let bs := spec_block_size spec in
  pool_reach p → gs ≠ [] → Forall valid_group_id gs → is_full_attention spec = true →
  0 < bs → 0 ≤ max_length →
  ∃ computed k,
    find_longest_cache_hit hl max_length gs p spec false bs 1 1 = Ok computed ∧
    Forall (λ c, length c = k) computed ∧
    ((k = Z.to_nat (max_length / bs) ∨ k = length (bhl_iter hl)) ∨
     ∃ h g, bhl_iter hl !! k = Some h ∧ g ∈ gs ∧
       ∀ b, pool_ref p b → hsh p b ≠ Some (block_key h g)).
Proof.
  intros bs Hr Hgs Hv Hspec Hbs Hmax. destruct (pool_reach_inv p Hr) as [l I].
  assert (find_longest_cache_hit hl max_length gs p spec false bs 1 1 =
          full_find_longest_cache_hit hl max_length gs p spec false bs 1 1) as ->
    by by destruct spec.
  unfold full_find_longest_cache_hit. rewrite Hspec. cbn [orb py_assert mbind res_bind].
  rewrite (bool_decide_false (1 < 1 * 1)); [|lia]. fold bs.
  assert (0 ≤ max_length / bs) by (apply Z.div_pos; lia).
  rewrite bool_decide_false; [|lia]. set (tl := take _ (bhl_iter hl)).
  destruct (full_loop_spec p gs hl (pi_cache _ _ I) Hgs Hv tl 0 ((λ _, []) <$> gs))
    as (n & computed & -> & HCn & Hn & Hmiss).
  { intros j Hj. unfold tl in *. rewrite length_take in Hj. rewrite lookup_take_lt; [done|lia]. }
  { apply Cols_nil. }
  cbn [mbind res_bind]. rewrite bool_decide_false; [|tauto]. exists computed, n. split; [done|].
  split. { eapply Forall2_Forall_r; [exact HCn|]. apply Forall_forall. by intros x _ c [? _]. }
  unfold tl in *. rewrite length_take in Hn.
  destruct (bhl_iter hl !! n) as [h|] eqn:Eh.
  2:{ left. right. apply lookup_ge_None in Eh. lia. }
  destruct (decide (n = Z.to_nat (max_length / bs))) as [->|Hne]; [by left; left|].
  right. destruct (Hmiss h) as (g & Hg & Hnone); [|by exists h, g].
  rewrite lookup_take_lt; [done|lia].
Qed.

(** Chunked local attention with chunks that are not whole blocks.  With
    blocks of 4 tokens and chunks of 6, a lookup of at most 7 tokens reports one
    computed block, 4 tokens, although nothing is cached: the block is null, but
    the next token (position 4) is in the first chunk and attends to tokens 0 to
    3, none of which [get_num_skipped_tokens] skips. *)
Theorem misaligned_chunk_hit (p : BlockPool) (hl : BlockHashList) (g : Z) a :
  let spec := ChunkedLocalAttentionSpec 4 a 6 in
  find_longest_cache_hit hl 7 [g] p spec false 4 1 1 = Ok [[null_block p]] ∧
  get_num_skipped_tokens spec 4 = 0.
Proof. by split. Qed.

(** ** Concrete lookups *)

Definition sample_attn : AttentionFields := mkAttn 1 64 "bfloat16" NONE None.

(** Blocks 1 and 2 hold the first two blocks of a request and are cached in
    group 0. *)
Definition sample_hit_pool : BlockPool := Eval vm_compute in the_pool
  (pool_after 8 [OpNew 3; OpCache sample_cached_request [Blk 1; Blk 2] 0 2 2 0]).

Definition sample_fresh_pool : BlockPool := Eval vm_compute in the_pool (pool_after 8 []).
Definition sample_new_pool : BlockPool := Eval vm_compute in the_pool (pool_after 8 [OpNew 3]).

Lemma sample_new_pool_reach : pool_reach sample_new_pool.
Proof.
  apply (reach_step sample_fresh_pool (OpNew 3)); [|done|vm_compute; reflexivity].
  apply (reach_init 8 true 2 true). vm_compute. reflexivity.
Qed.

Lemma sample_hit_pool_reach : pool_reach sample_hit_pool.
Proof.
  apply (reach_step sample_new_pool (OpCache sample_cached_request [Blk 1; Blk 2] 0 2 2 0));
    [exact sample_new_pool_reach| |vm_compute; reflexivity].
  split_and!; try done.
  - repeat constructor; eexists; (split; [done|cbn; lia]).
  - vm_compute. repeat constructor; set_solver.
  - intros b Hb _. cbn in Hb.
    repeat (apply elem_of_cons in Hb as [->|Hb]; [done|]). by apply not_elem_of_nil in Hb.
Qed.

Lemma cache_hit_sound_witness :
  let spec := SlidingWindowSpec 2 sample_attn 64 3 in
  let p := sample_hit_pool in
  let hs := hashes_at (hash_block_size p) 2 sample_cached_request in
  ∃ hl computed k,
    block_hashes_for p sample_cached_request 2 = Ok hl ∧
    find_longest_cache_hit hl 5 [0] p spec false 2 1 1 = Ok computed ∧
    length computed = 1%nat ∧
    Z.of_nat k * 2 ≤ 5 ∧ (Z.of_nat k * 2) `mod` 2 = 0 ∧
    ∀ i g c, [0] !! i = Some g → computed !! i = Some c → length c = k ∧
      ∀ j b, c !! j = Some b →
        (b = null_block p ∨ carries p hs g j b) ∧
        (get_num_skipped_tokens spec (Z.of_nat k * 2) < (Z.of_nat j + 1) * 2 →
         carries p hs g j b).
Proof.
  apply (cache_hit_sound sample_hit_pool sample_cached_request
    (SlidingWindowSpec 2 sample_attn 64 3) [0] 5 2 1 1 false);
    [exact sample_hit_pool_reach|done|by repeat constructor|done|done|done|done|done|done|].
  by vm_compute.
Defined.

Lemma full_hit_is_longest_witness :
  let spec := FullAttentionSpec 2 sample_attn (mkFull 64 None None) in
  let hl := PlainHashes (block_hashes sample_cached_request) in
  ∃ computed k,
    find_longest_cache_hit hl 6 [0] sample_hit_pool spec false 2 1 1 = Ok computed ∧
    Forall (λ c, length c = k) computed ∧
    ((k = 3%nat ∨ k = length (bhl_iter hl)) ∨
     ∃ h g, bhl_iter hl !! k = Some h ∧ g ∈ [0] ∧
       ∀ b, pool_ref sample_hit_pool b → hsh sample_hit_pool b ≠ Some (block_key h g)).
Proof.
  apply (full_hit_is_longest sample_hit_pool (PlainHashes (block_hashes sample_cached_request))
    (FullAttentionSpec 2 sample_attn (mkFull 64 None None)) [0] 6);
    [exact sample_hit_pool_reach|done|by repeat constructor|done|done|done].
Defined.

(** The lookup on this pool: full attention hits two blocks, a window of three
    tokens needs only the last of them. *)
Example sample_hits :
  let hl := PlainHashes (block_hashes sample_cached_request) in
  find_longest_cache_hit hl 5 [0] sample_hit_pool
    (FullAttentionSpec 2 sample_attn (mkFull 64 None None)) false 2 1 1 = Ok [[Blk 1; Blk 2]] ∧
  find_longest_cache_hit hl 5 [0] sample_hit_pool
    (SlidingWindowSpec 2 sample_attn 64 3) false 2 1 1 = Ok [[Blk 0; Blk 2]] ∧
  find_longest_cache_hit hl 5 [0] sample_hit_pool
    (MambaSpec 2 (mkMamba [] [] None "mamba2" "all" 0)) false 2 1 1 = Ok [[Blk 0; Blk 2]].
Proof. by vm_compute. Qed.
