(* ===== verification/ManagerSpec.v ===== *)
(** * Ownership of blocks by a manager

    What a [SingleTypeKVCacheManager] promises about the pool it shares with
    other managers.  [held m b] counts the entries of the manager's tables that
    refer to [b]; the operations keep [refs p b = held m b + ext b], where [ext]
    stands for the references of everybody else, and they return instead of
    raising as soon as the pool has the blocks that
    [get_num_blocks_to_allocate] asked for. *)

From S2P Require Import Prelude PyFloat Request FreeQueue BlockHash BlockPool KVCacheSpec SingleType.

(** ** Counting references *)

(** The number of entries of all tables that refer to [b]. *)
Definition held (m : Manager) (b : block_ref) : Z :=
  map_fold (λ _ bs acc, zcount b bs + acc) 0 (req_to_blocks m).

Lemma held_delete_eq (t : gmap string (list block_ref)) id bs b :
  t !! id = Some bs →
  map_fold (λ _ bs acc, zcount b bs + acc) 0 t =
  zcount b bs + map_fold (λ _ bs acc, zcount b bs + acc) 0 (delete id t).
Proof.
  intros H. rewrite (map_fold_delete_L _ _ id bs) //. intros. lia.
Qed.

Lemma held_put m id bs b :
  held (put_blocks m id bs) b = held m b - zcount b (blocks_of m id) + zcount b bs.
Proof.
  unfold held, blocks_of. cbn [req_to_blocks put_blocks set_req_to_blocks].
  rewrite (held_delete_eq (<[id := bs]> (req_to_blocks m)) id bs); [|by rewrite lookup_insert_eq].
  rewrite delete_insert_eq. destruct (req_to_blocks m !! id) as [bs0|] eqn:E; cbn [default Datatypes.id].
  - rewrite (held_delete_eq (req_to_blocks m) id bs0) //. lia.
  - rewrite delete_id // zcount_nil. lia.
Qed.

Lemma held_delete m id b :
  held (set_req_to_blocks m (delete id (req_to_blocks m))) b =
  held m b - zcount b (blocks_of m id).
Proof.
  unfold held, blocks_of. cbn [req_to_blocks set_req_to_blocks].
  destruct (req_to_blocks m !! id) as [bs0|] eqn:E; cbn [default Datatypes.id].
  - rewrite (held_delete_eq (req_to_blocks m) id bs0) //. lia.
  - rewrite delete_id // zcount_nil. lia.
Qed.

Lemma held_nonneg m b : 0 ≤ held m b.
Proof.
  unfold held. apply (map_fold_weak_ind (λ r _, 0 ≤ r)); [lia|].
  intros id bs t r _ Hr. pose proof (zcount_nonneg b bs). lia.
Qed.

Lemma held_ge m id b : zcount b (blocks_of m id) ≤ held m b.
Proof.
  pose proof (held_delete m id b) as E.
  pose proof (held_nonneg (set_req_to_blocks m (delete id (req_to_blocks m))) b). lia.
Qed.

(** ** Invariants *)

(** The null blocks of a table come first. *)
Definition null_prefix (null : block_ref) (bs : list block_ref) : Prop :=
  ∃ k tl, bs = replicate k null ++ tl ∧ (null ∉ tl).

(** The number of blocks of the request that are already in the cache. *)
Definition ncached (m : Manager) (id : string) : Z := default 0 (num_cached_block m !! id).

(** A table of blocks of which the first [nc] were entered into the cache.
    The others are held by this table only and carry no hash. *)
Record table_ok (p : BlockPool) (bs : list block_ref) (nc : Z) : Prop := {
  to_pool : Forall (pool_ref p) bs;
  to_nodup : NoDup (filter (λ b, b ≠ null_block p) bs);
  to_prefix : null_prefix (null_block p) bs;
  to_cached : 0 ≤ nc ≤ zlen bs;
  to_tail : ∀ j b, bs !! j = Some b → nc ≤ Z.of_nat j → b ≠ null_block p →
    hsh p b = None ∧ refs p b = 1
}.

Record MgrLocal (p : BlockPool) (m : Manager) : Prop := {
  ml_null : _null_block m = null_block p;
  ml_size : 0 < block_size m;
  ml_caching : m_enable_caching m = enable_caching p;
  ml_group : valid_group_id (kv_cache_group_id m);
  ml_hash : enable_caching p = true →
    0 < hash_block_size p ∧ block_size m `mod` hash_block_size p = 0;
  ml_tables : ∀ id bs, req_to_blocks m !! id = Some bs → table_ok p bs (ncached m id);
  ml_cached : ∀ id, is_Some (num_cached_block m !! id) → is_Some (req_to_blocks m !! id)
}.

(** The manager and the pool, where [ext] counts the references that are not
    the manager's. *)
Record MgrInv (p : BlockPool) (l : list block_ref) (m : Manager) (ext : block_ref → Z)
    : Prop := {
  mi_pool : PoolInv p l;
  mi_local : MgrLocal p m;
  mi_ext : ∀ b, 0 ≤ ext b;
  mi_refs : ∀ b, pool_ref p b → b ≠ null_block p → refs p b = held m b + ext b
}.

(** What an operation leaves alone: a referenced block without a hash that the
    manager does not hold keeps its references and gets no hash. *)
Definition protects (m : Manager) (p p' : BlockPool) : Prop :=
  ∀ b, pool_ref p b → b ≠ null_block p → held m b = 0 → hsh p b = None → 0 < refs p b →
    hsh p' b = None ∧ refs p' b = refs p b.

(** What an operation keeps of the manager: all but its tables. *)
Record mgr_frame (m m' : Manager) : Prop := {
  mf_spec : kv_cache_spec m' = kv_cache_spec m;
  mf_size : block_size m' = block_size m;
  mf_caching : m_enable_caching m' = m_enable_caching m;
  mf_cap : _max_admission_blocks_per_request m' = _max_admission_blocks_per_request m;
  mf_group : kv_cache_group_id m' = kv_cache_group_id m;
  mf_null : _null_block m' = _null_block m
}.
#[export] Instance mgr_frame_preorder : PreOrder mgr_frame.
Proof. split; [by split|]. intros ??? [] []. split; congruence. Qed.

(** An operation on request [id] keeps what the manager has for the others. *)
Definition keeps_others (id : string) (m m' : Manager) : Prop :=
  ∀ id', id' ≠ id → blocks_of m' id' = blocks_of m id' ∧
                    num_cached_block m' !! id' = num_cached_block m !! id'.

Lemma keeps_others_refl id m : keeps_others id m m.
Proof. by intros id' _. Qed.

Lemma keeps_others_trans id m1 m2 m3 :
  keeps_others id m1 m2 → keeps_others id m2 m3 → keeps_others id m1 m3.
Proof.
  intros H1 H2 id' Hne. destruct (H1 id' Hne) as [<- <-]. by apply H2.
Qed.

(** Together: the step of an operation on the manager and the pool. *)
Record MgrStep (p : BlockPool) (m : Manager) (ext : block_ref → Z)
    (p' : BlockPool) (l' : list block_ref) (m' : Manager) : Prop := {
  ms_inv : MgrInv p' l' m' ext;
  ms_pool : pool_frame p p';
  ms_frame : mgr_frame m m';
  ms_protects : protects m p p'
}.

Lemma blocks_of_access m id : (access m id).2 = blocks_of m id.
Proof. unfold access, blocks_of. by destruct (req_to_blocks m !! id). Qed.

Lemma blocks_of_put m id bs id' :
  blocks_of (put_blocks m id bs) id' = if decide (id = id') then bs else blocks_of m id'.
Proof.
  unfold blocks_of, put_blocks. cbn. goal_decide; subst.
  - by rewrite lookup_insert_eq.
  - by rewrite lookup_insert_ne.
Qed.

(** The table a request has once it was accessed. *)
Lemma access_put m id : put_blocks (access m id).1 id (blocks_of m id) = put_blocks m id (blocks_of m id).
Proof.
  unfold access, blocks_of, put_blocks. destruct (req_to_blocks m !! id) as [bs|] eqn:E; [done|].
  cbn. unfold set_req_to_blocks. cbn. by rewrite insert_insert_eq.
Qed.

Lemma put_access m id bs : put_blocks (access m id).1 id bs = put_blocks m id bs.
Proof.
  unfold access, put_blocks. destruct (req_to_blocks m !! id) as [bs0|] eqn:E; [done|].
  unfold set_req_to_blocks. cbn. by rewrite insert_insert_eq.
Qed.

Lemma access_spec m id :
  let m' := (access m id).1 in
  mgr_frame m m' ∧ num_cached_block m' = num_cached_block m ∧
  req_to_blocks m' !! id = Some (blocks_of m id) ∧
  (∀ b, held m' b = held m b) ∧ (∀ id', blocks_of m' id' = blocks_of m id').
Proof.
  unfold access, blocks_of. destruct (req_to_blocks m !! id) as [bs|] eqn:E; cbn.
  { split_and!; try done. }
  split_and!; try done.
  - by rewrite lookup_insert_eq.
  - intros b. change (set_req_to_blocks m (<[id:=[]]> (req_to_blocks m))) with (put_blocks m id []).
    rewrite held_put /blocks_of E /= zcount_nil. lia.
  - intros id'. destruct (decide (id = id')) as [->|].
    + by rewrite lookup_insert_eq E.
    + by rewrite lookup_insert_ne.
Qed.

(** ** Tables under a change of the pool *)

Lemma table_ok_nil p : table_ok p [] 0.
Proof. split; try done; [constructor|exists 0%nat, []; set_solver]. Qed.

(** A table survives a change of the pool that keeps the unhashed blocks held
    by it alone. *)
Lemma table_ok_frame p p' bs nc :
  pool_frame p p' →
  (∀ b, b ∈ bs → b ≠ null_block p → hsh p b = None → refs p b = 1 →
     hsh p' b = None ∧ refs p' b = 1) →
  table_ok p bs nc → table_ok p' bs nc.
Proof.
  intros F Hb [T1 T2 T3 T4 T5]. split.
  - eapply Forall_impl; [exact T1|]. intros x. by rewrite (pool_frame_ref _ _ _ F).
  - by rewrite (pf_null _ _ F).
  - by rewrite (pf_null _ _ F).
  - done.
  - intros j b Hj Hn Hne. rewrite (pf_null _ _ F) in Hne. destruct (T5 j b Hj Hn Hne) as [??].
    apply Hb; try done. by apply list_elem_of_lookup_2 in Hj.
Qed.

Lemma ml_table p m id : MgrLocal p m → table_ok p (blocks_of m id) (ncached m id).
Proof.
  intros H. unfold blocks_of. destruct (req_to_blocks m !! id) as [bs|] eqn:E; cbn.
  - by apply (ml_tables _ _ H).
  - unfold ncached. destruct (num_cached_block m !! id) as [n|] eqn:En; cbn.
    + destruct (ml_cached _ _ H id) as [? ?]; [by rewrite En|congruence].
    + apply table_ok_nil.
Qed.

Lemma MgrLocal_access p m id : MgrLocal p m → MgrLocal p (access m id).1.
Proof.
  intros H. destruct (access_spec m id) as (F & Hn & Hid & _ & Hb).
  split.
  - rewrite (mf_null _ _ F). apply H.
  - rewrite (mf_size _ _ F). apply H.
  - rewrite (mf_caching _ _ F). apply H.
  - rewrite (mf_group _ _ F). apply H.
  - rewrite (mf_size _ _ F). apply H.
  - intros id' bs E. assert (bs = blocks_of m id') as ->.
    { rewrite -Hb /blocks_of E. done. }
    unfold ncached. rewrite Hn. by apply ml_table.
  - intros id' Hs. rewrite Hn in Hs. apply (ml_cached _ _ H) in Hs as [bs Hbs].
    unfold access. destruct (req_to_blocks m !! id) as [?|] eqn:E; [by rewrite Hbs|].
    cbn. rewrite lookup_insert_is_Some. by destruct (decide (id = id')); [left|right].
Qed.

(** Entering an empty list for a request changes nothing that matters. *)
Lemma MgrInv_access p l m ext id : MgrInv p l m ext → MgrInv p l (access m id).1 ext.
Proof.
  intros H. destruct (access_spec m id) as (F & Hn & Hid & Hh & Hb). split.
  - apply H.
  - apply MgrLocal_access, H.
  - apply H.
  - intros b Hp Hne. rewrite Hh. by apply (mi_refs _ _ _ _ H).
Qed.

(** ** One table changes *)

Lemma held_ge2 m id id' b :
  id ≠ id' → zcount b (blocks_of m id) + zcount b (blocks_of m id') ≤ held m b.
Proof.
  intros Hne. pose proof (held_delete m id b) as E.
  pose proof (held_ge (set_req_to_blocks m (delete id (req_to_blocks m))) id' b) as H.
  unfold blocks_of in H at 1. cbn in H. rewrite lookup_delete_ne // in H.
  fold (blocks_of m id') in H. lia.
Qed.

(** A block that only one table holds is in no other table. *)
Lemma sole_holder p l m ext id id' b :
  MgrInv p l m ext → id ≠ id' → pool_ref p b → b ≠ null_block p → refs p b = 1 →
  b ∈ blocks_of m id' → b ∉ blocks_of m id.
Proof.
  intros H Hne Hp Hn H1 Hin Hin'. pose proof (mi_refs _ _ _ _ H b Hp Hn).
  pose proof (mi_ext _ _ _ _ H b). pose proof (held_ge2 m id id' b Hne).
  apply zcount_pos in Hin, Hin'. lia.
Qed.

(** The step of an operation that replaces the table of [id] by [bs']. *)
Lemma MgrStep_update p l m ext id p' l' m' bs' :
  MgrInv p l m ext → PoolInv p' l' → pool_frame p p' → mgr_frame m m' →
  (∀ id', id' ≠ id → req_to_blocks m' !! id' = req_to_blocks m !! id' ∧
                      num_cached_block m' !! id' = num_cached_block m !! id') →
  blocks_of m' id = bs' →
  (is_Some (num_cached_block m' !! id) → is_Some (req_to_blocks m' !! id)) →
  (∀ b, held m' b = held m b - zcount b (blocks_of m id) + zcount b bs') →
  table_ok p' bs' (ncached m' id) →
  (∀ b, pool_ref p b → b ≠ null_block p →
     refs p' b = refs p b - zcount b (blocks_of m id) + zcount b bs') →
  (∀ b, pool_ref p b → b ≠ null_block p → b ∉ blocks_of m id → hsh p b = None → 0 < refs p b →
     hsh p' b = None ∧ (b ∉ bs')) →
  MgrStep p m ext p' l' m'.
Proof.
  intros H I' F FM Hother Hbs Hcs Hheld Htab Hrefs Hprot.
  assert (∀ b, pool_ref p b → b ≠ null_block p → b ∉ blocks_of m id → hsh p b = None →
    0 < refs p b → hsh p' b = None ∧ refs p' b = refs p b) as Hprot'.
  { intros b Hp Hn Hni Hh Hr. destruct (Hprot b Hp Hn Hni Hh Hr) as [? Hni']. split; [done|].
    rewrite Hrefs //. apply zcount_0 in Hni, Hni'. lia. }
  pose proof (mi_local _ _ _ _ H) as HL.
  split; [|done|done|].
  - split; [done| |apply H|].
    + split.
      * rewrite (mf_null _ _ FM) (pf_null _ _ F). apply HL.
      * rewrite (mf_size _ _ FM). apply HL.
      * rewrite (mf_caching _ _ FM) (pf_caching _ _ F). apply HL.
      * rewrite (mf_group _ _ FM). apply HL.
      * rewrite (mf_size _ _ FM) (pf_caching _ _ F) (pf_hbs _ _ F). apply HL.
      * intros id' bs E. destruct (decide (id' = id)) as [->|Hne].
        { unfold blocks_of in Hbs. rewrite E in Hbs. cbn in Hbs. by subst bs'. }
        destruct (Hother id' Hne) as [Hreq Hnc]. unfold ncached. rewrite Hnc.
        rewrite Hreq in E. pose proof (ml_tables _ _ HL _ _ E) as T.
        eapply table_ok_frame; [exact F| |exact T].
        intros b Hb Hn Hh H1. pose proof (to_pool _ _ _ T) as Hp. rewrite Forall_forall in Hp.
        destruct (Hprot' b) as [? ->]; try done; [by apply Hp| |lia].
        eapply (sole_holder p l m ext id id'); try done; [by apply Hp|].
        by rewrite /blocks_of E.
      * intros id' Hs. destruct (decide (id' = id)) as [->|Hne]; [by apply Hcs|].
        destruct (Hother id' Hne) as [-> Hnc]. rewrite Hnc in Hs. by apply (ml_cached _ _ HL).
    + intros b Hp Hn. apply (pool_frame_ref _ _ _ F) in Hp. rewrite (pf_null _ _ F) in Hn.
      rewrite Hrefs // Hheld (mi_refs _ _ _ _ H) //. lia.
  - intros b Hp Hn H0 Hh Hr. apply Hprot'; try done.
    apply zcount_0. pose proof (held_ge m id b). pose proof (zcount_nonneg b (blocks_of m id)). lia.
Qed.

(** The step of an operation that replaces the table in place. *)
Lemma MgrStep_put p l m ext id p' l' m' bs' :
  MgrInv p l m ext → PoolInv p' l' → pool_frame p p' → mgr_frame m m' →
  req_to_blocks m' = <[id := bs']> (req_to_blocks m) →
  (∀ id', id' ≠ id → num_cached_block m' !! id' = num_cached_block m !! id') →
  table_ok p' bs' (ncached m' id) →
  (∀ b, pool_ref p b → b ≠ null_block p →
     refs p' b = refs p b - zcount b (blocks_of m id) + zcount b bs') →
  (∀ b, pool_ref p b → b ≠ null_block p → b ∉ blocks_of m id → hsh p b = None → 0 < refs p b →
     hsh p' b = None ∧ (b ∉ bs')) →
  MgrStep p m ext p' l' m'.
Proof.
  intros H I' F FM Hreq Hnc Htab Hrefs Hprot.
  apply (MgrStep_update p l m ext id p' l' m' bs'); try done.
  - intros id' Hne. rewrite Hreq lookup_insert_ne //. by split; [|apply Hnc].
  - by rewrite /blocks_of Hreq lookup_insert_eq.
  - intros _. by rewrite Hreq lookup_insert_eq.
  - intros b. rewrite -held_put. unfold held. cbn. by rewrite Hreq.
Qed.

(** ** [free] *)

Section Ops.
Context {env : KVEnv}.

(** Blocks in a table of the manager are referenced. *)
Lemma held_refs p l m ext id b :
  MgrInv p l m ext → b ∈ blocks_of m id → b ≠ null_block p → pool_ref p b ∧ 0 < refs p b.
Proof.
  intros H Hb Hn. pose proof (to_pool _ _ _ (ml_table p m id (mi_local _ _ _ _ H))) as Hp.
  rewrite Forall_forall in Hp. split; [by apply Hp|].
  rewrite (mi_refs _ _ _ _ H); [|by apply Hp|done].
  apply zcount_pos in Hb. pose proof (held_ge m id b). pose proof (mi_ext _ _ _ _ H b). lia.
Qed.

(** Freeing a request gives its references back and forgets its table. *)
Lemma base_free_spec p l m ext id :
  MgrInv p l m ext →
  ∃ p' m', base_free p m id = Ok (p', m') ∧
    MgrStep p m ext p'
      (l ++ filter (λ b, refs p b = 1 ∧ b ≠ null_block p) (reverse (blocks_of m id))) m' ∧
    req_to_blocks m' = delete id (req_to_blocks m) ∧
    num_cached_block m' = delete id (num_cached_block m).
Proof.
  intros H. pose proof (ml_table p m id (mi_local _ _ _ _ H)) as T.
  destruct (free_blocks_spec p l (reverse (blocks_of m id))) as (p' & E & I' & F & R & HH).
  - apply H.
  - apply Forall_reverse, T.
  - rewrite filter_reverse reverse_Permutation. apply T.
  - intros b Hb Hn. rewrite elem_of_reverse in Hb. by apply (held_refs _ _ _ _ id _ H).
  - unfold base_free. rewrite E. cbn [mbind res_bind]. eexists _, _. split; [done|]. split; [|done].
    apply (MgrStep_update p l m ext id _ _ _ []); try done.
    + intros id' Hne. cbn. by rewrite !lookup_delete_ne.
    + by rewrite /blocks_of /= lookup_delete_eq.
    + cbn. rewrite lookup_delete_eq. by intros [? ?].
    + intros b. rewrite zcount_nil Z.add_0_r -held_delete. done.
    + unfold ncached. cbn. rewrite lookup_delete_eq. apply table_ok_nil.
    + intros b Hp Hn. rewrite R // zcount_reverse zcount_nil. lia.
    + intros b Hp Hn Hni Hh Hr. rewrite HH //. by split; [|apply not_elem_of_nil].
Qed.

(** ** [allocate_new_blocks] *)

Lemma null_prefix_app null bs new :
  null_prefix null bs → null ∉ new → null_prefix null (bs ++ new).
Proof.
  intros (k & tl & -> & Ht) Hn. exists k, (tl ++ new). rewrite app_assoc. split; [done|set_solver].
Qed.

Lemma table_ok_extend p p' bs new nc :
  pool_frame p p' → table_ok p bs nc → Forall (pool_ref p) new → NoDup new →
  (∀ b, b ∈ new → b ≠ null_block p ∧ (b ∉ bs) ∧ hsh p' b = None ∧ refs p' b = 1) →
  (∀ b, b ∈ bs → b ≠ null_block p → hsh p b = None → refs p b = 1 →
     hsh p' b = None ∧ refs p' b = 1) →
  table_ok p' (bs ++ new) nc.
Proof.
  intros F T Hp Hnd Hnew Hold. apply (table_ok_frame _ _ _ _ F Hold) in T as [T1 T2 T3 T4 T5].
  pose proof (pf_null _ _ F) as En. split.
  - apply Forall_app. split; [done|]. eapply Forall_impl; [exact Hp|].
    intros x. by rewrite (pool_frame_ref _ _ _ F).
  - rewrite filter_app. rewrite (filter_all _ new); [|intros b Hb; rewrite En; by apply Hnew].
    apply NoDup_app. split; [done|]. split; [|done].
    intros b [_ Hb]%list_elem_of_filter Hb'. by destruct (Hnew b Hb') as (_ & ? & _).
  - apply null_prefix_app; [done|]. rewrite En. intros Hb. by destruct (Hnew _ Hb).
  - rewrite zlen_app. pose proof (zlen_nonneg new). lia.
  - intros j b Hj Hn Hne. apply lookup_app_Some in Hj as [Hj|[Hge Hj]]; [by eapply T5|].
    apply list_elem_of_lookup_2 in Hj. by apply Hnew.
Qed.

(** Extending the table of [id] with blocks just taken from the pool. *)
Lemma MgrStep_take p l m ext id n p' m' :
  MgrInv p l m ext → 0 ≤ n ≤ zlen l →
  let new := take (Z.to_nat n) l in
  PoolInv p' (drop (Z.to_nat n) l) → pool_frame p p' → mgr_frame m m' →
  (∀ b, pool_ref p b → refs p' b = refs p b + if decide (b ∈ new) then 1 else 0) →
  (∀ b, pool_ref p b → hsh p' b = if decide (b ∈ new) then None else hsh p b) →
  req_to_blocks m' = <[id := blocks_of m id ++ new]> (req_to_blocks m) →
  num_cached_block m' = num_cached_block m →
  MgrStep p m ext p' (drop (Z.to_nat n) l) m'.
Proof.
  intros H Hn new I' F FM R HH Hreq Hnc.
  assert (∀ b, b ∈ new → b ∈ l) as Hsub.
  { intros b Hb. rewrite -(take_drop (Z.to_nat n) l). apply elem_of_app. by left. }
  assert (∀ b, b ∈ new → pool_ref p b ∧ b ≠ null_block p ∧ refs p b = 0) as Hfree.
  { intros b Hb. apply (PoolInv_free_ref _ _ _ (mi_pool _ _ _ _ H)), Hsub, Hb. }
  assert (NoDup new) as Hnd.
  { pose proof (repr_nodup _ _ (pi_queue _ _ (mi_pool _ _ _ _ H))) as Hl.
    rewrite -(take_drop (Z.to_nat n) l) in Hl. by apply NoDup_app in Hl as [? _]. }
  assert (∀ b, b ≠ null_block p → b ∈ blocks_of m id → b ∉ new) as Hdisj.
  { intros b Hne Hb Hb'. destruct (held_refs _ _ _ _ _ _ H Hb Hne). destruct (Hfree b Hb'). lia. }
  apply (MgrStep_put p l m ext id p' _ m' (blocks_of m id ++ new)); try done.
  - intros id' _. by rewrite Hnc.
  - unfold ncached. rewrite Hnc. apply (table_ok_extend p p'); [done| | |done| |].
    + apply ml_table, H.
    + apply Forall_forall. intros b Hb. by apply Hfree.
    + intros b Hb. destruct (Hfree b Hb) as (? & ? & Hz). rewrite HH // R // !decide_True // Hz.
      split_and!; try done. intros Hb'. by apply (Hdisj b).
    + intros b Hb Hne Hh H1. destruct (held_refs _ _ _ _ _ _ H Hb Hne) as [Hp _].
      rewrite HH // R // !decide_False; [|by apply Hdisj..]. by rewrite Z.add_0_r.
  - intros b Hp Hne. rewrite R // zcount_app (zcount_NoDup b new) //. lia.
  - intros b Hp Hne Hni Hh Hr. rewrite HH //.
    assert (b ∉ new) as Hnn by (intros Hb; destruct (Hfree b Hb); lia).
    rewrite decide_False //. split; [done|set_solver].
Qed.

Lemma mgr_frame_record p m bs : mgr_frame m (record_new_ids p m bs) ∧
  req_to_blocks (record_new_ids p m bs) = req_to_blocks m ∧
  num_cached_block (record_new_ids p m bs) = num_cached_block m.
Proof. unfold record_new_ids. by destruct (records_new_block_ids _). Qed.

(** With enough free blocks the table grows to [cdiv num_tokens block_size]
    blocks, taken from the front of the free queue. *)
Lemma base_allocate_new_blocks_spec p l m ext id num_tokens :
  MgrInv p l m ext →
  let n := cdiv num_tokens (block_size m) - zlen (blocks_of m id) in
  n ≤ zlen l →
  ∃ p' m', base_allocate_new_blocks p m id num_tokens = Ok (p', m', take (Z.to_nat n) l) ∧
    MgrStep p m ext p' (drop (Z.to_nat n) l) m' ∧
    req_to_blocks m' = <[id := blocks_of m id ++ take (Z.to_nat n) l]> (req_to_blocks m) ∧
    num_cached_block m' = num_cached_block m.
Proof.
  intros H n Hn. unfold base_allocate_new_blocks.
  destruct (access m id) as [m1 bs] eqn:Ea.
  pose proof (blocks_of_access m id) as Hbs. rewrite Ea in Hbs. cbn in Hbs. subst bs.
  pose proof (access_spec m id) as (F1 & Hn1 & Hid1 & Hh1 & Hb1). rewrite Ea in F1, Hn1, Hid1, Hh1, Hb1.
  cbn [fst] in *. rewrite (mf_size _ _ F1). fold n.
  assert (req_to_blocks m1 = <[id := blocks_of m id]> (req_to_blocks m)) as Hr1.
  { replace m1 with (access m id).1 by by rewrite Ea. unfold access, blocks_of.
    destruct (req_to_blocks m !! id) eqn:E; cbn; [|done]. by rewrite insert_id. }
  goal_bool as Hle.
  - replace (Z.to_nat n) with 0%nat by lia. rewrite take_0 drop_0 app_nil_r.
    exists p, m1. split; [done|]. split; [|done]. split.
    + replace m1 with (access m id).1 by by rewrite Ea. by apply MgrInv_access.
    + done.
    + done.
    + by intros b.
  - destruct (get_new_blocks_spec p l n (mi_pool _ _ _ _ H)) as (p' & E & I' & F & R & HH); [lia|].
    rewrite E. cbn [mbind res_bind].
    assert (put_blocks m1 id (blocks_of m id ++ take (Z.to_nat n) l) =
            put_blocks m id (blocks_of m id ++ take (Z.to_nat n) l)) as Hput.
    { replace m1 with (access m id).1 by by rewrite Ea. apply put_access. }
    rewrite Hput. set (m2 := put_blocks m id _).
    destruct (mgr_frame_record p' m2 (take (Z.to_nat n) l)) as (F2 & Hreq2 & Hnc2).
    eexists _, _. split; [done|]. split; [|by rewrite Hreq2 Hnc2].
    apply (MgrStep_take p l m ext id n); try done.
    + lia.
    + etrans; [|exact F2]. by split.
Qed.

Lemma MgrStep_refl p l m ext : MgrInv p l m ext → MgrStep p m ext p l m.
Proof. intros H. split; try done. Qed.

(** ** [remove_skipped_blocks] *)

Lemma remove_loop_app (null : block_ref) k tl : ∀ suf,
  null ∉ tl →
  remove_loop null (k + length tl) ((replicate k null ++ tl) ++ suf) =
    Ok (replicate (k + length tl) null ++ suf, reverse tl).
Proof.
  induction tl as [|b tl IH] using rev_ind; intros suf Hn.
  { rewrite Nat.add_0_r app_nil_r reverse_nil. destruct k as [|k]; [done|]. cbn [remove_loop].
    rewrite (py_nth_ok _ _ null); [|lia|].
    - cbn [mbind res_bind]. by rewrite bool_decide_true.
    - rewrite Nat2Z.id lookup_app_l; [|rewrite length_replicate; lia].
      apply lookup_replicate_2. lia. }
  rewrite length_app Nat.add_1_r Nat.add_succ_r. cbn [remove_loop].
  rewrite app_assoc -(app_assoc _ [b]).
  assert (length (replicate k null ++ tl) = k + length tl)%nat as Hl by
    (rewrite length_app length_replicate; lia).
  rewrite (py_nth_ok _ _ b); [|lia|].
  2:{ rewrite Nat2Z.id -Hl. by apply list_lookup_middle. }
  cbn [mbind res_bind]. rewrite bool_decide_false; [|set_solver].
  rewrite insert_app_r_alt; [|lia]. rewrite Hl Nat.sub_diag. cbn [app insert list_insert].
  rewrite IH; [|set_solver]. cbn [mbind res_bind]. rewrite reverse_app. do 2 f_equal.
  by rewrite replicate_S_end -app_assoc.
Qed.

Lemma remove_loop_spec null bs s :
  null_prefix null bs → (s ≤ length bs)%nat →
  remove_loop null s bs =
    Ok (replicate s null ++ drop s bs, reverse (filter (λ b, b ≠ null) (take s bs))).
Proof.
  intros (k & tl & -> & Hn) Hs.
  set (k' := (k `min` s)%nat). set (tl' := take (s - k) tl).
  assert (take s (replicate k null ++ tl) = replicate k' null ++ tl') as Ht.
  { rewrite take_app take_replicate length_replicate. unfold k'. by rewrite Nat.min_comm. }
  rewrite length_app length_replicate in Hs.
  assert (length tl' = s - k)%nat as Hl' by (unfold tl'; rewrite length_take; lia).
  assert (null ∉ tl') as Hn' by (unfold tl'; intros Hi; apply elem_of_take in Hi as (j & Hj & _);
    by apply list_elem_of_lookup_2 in Hj).
  assert (filter (λ b, b ≠ null) (take s (replicate k null ++ tl)) = tl') as Hf.
  { rewrite Ht filter_app filter_none; [|intros x Hx%elem_of_replicate; tauto].
    apply filter_all. set_solver. }
  rewrite Hf -{1}(take_drop s (replicate k null ++ tl)) Ht.
  replace s with (k' + length tl')%nat at 1 4 by (unfold k'; lia).
  rewrite remove_loop_app //. by replace (k' + length tl')%nat with s by (unfold k'; lia).
Qed.

(** The blocks that are wholly skipped, as far as the table has them. *)
Definition num_skipped (m : Manager) (id : string) (total_computed_tokens : Z) : nat :=
  Z.to_nat (Z.min (get_num_skipped_tokens (kv_cache_spec m) total_computed_tokens / block_size m)
                  (zlen (blocks_of m id))).

Lemma zcount_skip (b null : block_ref) bs s :
  b ≠ null → zcount b (replicate s null ++ drop s bs) = zcount b bs - zcount b (take s bs).
Proof.
  intros Hne. rewrite -{2}(take_drop s bs) !zcount_app.
  assert (zcount b (replicate s null) = 0) as -> by (apply zcount_0; rewrite elem_of_replicate; tauto).
  lia.
Qed.

Lemma null_prefix_skip null bs s : null_prefix null bs → (s ≤ length bs)%nat →
  null_prefix null (replicate s null ++ drop s bs).
Proof.
  intros (k & tl & -> & Hn) Hs. rewrite length_app length_replicate in Hs.
  destruct (decide (s ≤ k)%nat) as [Hle|Hgt].
  - exists k, tl. rewrite drop_app_le; [|rewrite length_replicate; lia].
    rewrite drop_replicate app_assoc -replicate_add. split; [|done]. do 2 f_equal. lia.
  - exists s, (drop (s - k) tl). rewrite drop_app_ge; [|rewrite length_replicate; lia].
    rewrite length_replicate. split; [done|]. intros Hi.
    apply Hn. rewrite -(take_drop (s - k) tl). set_solver.
Qed.

Lemma table_ok_skip p p' bs nc s :
  static p → (s ≤ length bs)%nat → pool_frame p p' → table_ok p bs nc →
  (∀ b, pool_ref p b → hsh p' b = hsh p b) →
  (∀ b, pool_ref p b → b ≠ null_block p → refs p' b = refs p b - zcount b (take s bs)) →
  table_ok p' (replicate s (null_block p) ++ drop s bs) nc.
Proof.
  intros HS Hs F [T1 T2 T3 T4 T5] HH HR.
  assert (∀ j b, (replicate s (null_block p) ++ drop s bs) !! j = Some b → b ≠ null_block p →
    (s ≤ j)%nat ∧ bs !! j = Some b) as Hj.
  { intros j b Hjb Hne. apply lookup_app_Some in Hjb as [[-> _]%lookup_replicate|[Hge Hjb]]; [done|].
    rewrite length_replicate in Hge, Hjb. rewrite lookup_drop in Hjb. split; [done|].
    by replace (s + (j - s))%nat with j in Hjb by lia. }
  rewrite Forall_forall in T1. split; rewrite ?(pf_null _ _ F).
  - apply Forall_app. split; apply Forall_forall; intros x Hx; rewrite (pool_frame_ref _ _ _ F).
    + apply elem_of_replicate in Hx as [-> _]. by apply null_ref.
    + apply T1. rewrite -(take_drop s bs). set_solver.
  - rewrite filter_app filter_none; [|intros x Hx%elem_of_replicate; tauto].
    eapply sublist_NoDup; [exact T2|]. rewrite -{2}(take_drop s bs) filter_app.
    by apply sublist_inserts_l.
  - by apply null_prefix_skip.
  - rewrite zlen_app. unfold zlen in *. rewrite length_replicate length_drop. lia.
  - intros j b Hjb Hn Hne. destruct (Hj j b Hjb Hne) as [Hsj Hb].
    destruct (T5 j b Hb Hn Hne) as [Hh H1].
    assert (pool_ref p b) as Hp by (apply T1; by apply list_elem_of_lookup_2 in Hb).
    rewrite HH // HR // H1. split; [done|].
    assert (zcount b (take s bs) = 0) as ->; [|done]. apply zcount_0. intros Hin.
    rewrite -(take_drop s bs) filter_app in T2. apply NoDup_app in T2 as (_ & Hd & _).
    apply (Hd b); [by apply list_elem_of_filter|]. apply list_elem_of_filter. split; [done|].
    apply list_elem_of_lookup. exists (j - s)%nat. rewrite lookup_drop -Hb. f_equal. lia.
Qed.

(** The skipped blocks of the table become null blocks; their references are
    given back, the last skipped block first. *)
Lemma base_remove_skipped_blocks_spec p l m ext id n :
  MgrInv p l m ext →
  let bs := blocks_of m id in
  let s := num_skipped m id n in
  ∃ p' m', base_remove_skipped_blocks p m id n = Ok (p', m') ∧
    MgrStep p m ext p'
      (l ++ filter (λ b, refs p b = 1 ∧ b ≠ null_block p)
              (reverse (filter (λ b, b ≠ null_block p) (take s bs)))) m' ∧
    blocks_of m' id = replicate s (null_block p) ++ drop s bs ∧
    (∀ id', id' ≠ id → req_to_blocks m' !! id' = req_to_blocks m !! id') ∧
    num_cached_block m' = num_cached_block m ∧ (∀ b, pool_ref p b → hsh p' b = hsh p b).
Proof.
  intros H bs s. pose proof (mi_local _ _ _ _ H) as HL.
  pose proof (ml_table p m id HL) as T. fold bs in T. unfold base_remove_skipped_blocks.
  goal_bool as Hskip.
  { assert (s = 0%nat) as ->.
    { unfold s, num_skipped. assert (get_num_skipped_tokens (kv_cache_spec m) n / block_size m ≤ 0); [|lia].
      pose proof (ml_size _ _ HL). apply Z.div_le_upper_bound; lia. }
    exists p, m. rewrite app_nil_r drop_0. split_and!; try done. }
  pose proof (ml_size _ _ HL) as Hsz.
  destruct (access m id) as [m1 bs1] eqn:Ea.
  pose proof (blocks_of_access m id) as Hbs. rewrite Ea in Hbs. cbn in Hbs. subst bs1. fold bs.
  pose proof (access_spec m id) as (F1 & Hn1 & _). rewrite Ea in F1, Hn1. cbn [fst] in F1, Hn1.
  rewrite (mf_size _ _ F1) (mf_null _ _ F1) (ml_null _ _ HL).
  change (Z.to_nat (Z.min (get_num_skipped_tokens (kv_cache_spec m) n / block_size m) (zlen bs)))
    with s.
  assert (s ≤ length bs)%nat as Hsl.
  { unfold s, num_skipped, bs, zlen. lia. }
  assert (0 ≤ get_num_skipped_tokens (kv_cache_spec m) n / block_size m) by (apply Z.div_pos; lia).
  rewrite remove_loop_spec; [|apply T|done]. cbn [mbind res_bind].
  assert (put_blocks m1 id (replicate s (null_block p) ++ drop s bs) =
          put_blocks m id (replicate s (null_block p) ++ drop s bs)) as ->.
  { replace m1 with (access m id).1 by by rewrite Ea. apply put_access. }
  set (rem := reverse (filter (λ b, b ≠ null_block p) (take s bs))).
  assert (∀ b, b ∈ rem → b ∈ bs ∧ b ≠ null_block p) as Hrem.
  { intros b Hb. unfold rem in Hb. rewrite elem_of_reverse in Hb.
    apply list_elem_of_filter in Hb as [? Hb]. split; [|done].
    rewrite -(take_drop s bs). set_solver. }
  assert (NoDup rem) as Hndr.
  { unfold rem. rewrite reverse_Permutation. pose proof (to_nodup _ _ _ T) as Hnd.
    rewrite -(take_drop s bs) filter_app in Hnd. by apply NoDup_app in Hnd as [? _]. }
  destruct (free_blocks_spec p l rem (mi_pool _ _ _ _ H)) as (p' & E & I' & F & R & HH).
  - apply Forall_forall. intros b Hb%Hrem. by destruct Hb; apply (held_refs _ _ _ _ id _ H).
  - rewrite filter_all //. intros b Hb%Hrem. tauto.
  - intros b Hb%Hrem Hne. by destruct Hb; apply (held_refs _ _ _ _ id _ H).
  - rewrite E. cbn [mbind res_bind]. eexists _, _. split; [done|].
    assert (∀ b, b ≠ null_block p → zcount b rem = zcount b (take s bs)) as Hz.
    { intros b Hne. unfold rem. rewrite zcount_reverse zcount_filter. by goal_decide. }
    split_and!; [| |by intros id' Hne; cbn; rewrite lookup_insert_ne|done|done].
    + eapply (MgrStep_put p l m ext id); try done.
      * apply table_ok_skip; try done; [apply H|].
        intros b Hp Hne. rewrite R // Hz //.
      * intros b Hp Hne. rewrite R // Hz // zcount_skip //. fold bs. lia.
      * intros b Hp Hne Hni Hh Hr. rewrite HH //. split; [done|]. intros Hin.
        apply elem_of_app in Hin as [[-> _]%elem_of_replicate|Hin]; [done|].
        apply Hni. fold bs. rewrite -(take_drop s bs). set_solver.
    + rewrite blocks_of_put. by goal_decide.
Qed.

(** ** [allocate_new_computed_blocks] *)

Lemma MgrStep_trans p l m ext p1 l1 m1 p2 l2 m2 :
  MgrInv p l m ext → MgrStep p m ext p1 l1 m1 → MgrStep p1 m1 ext p2 l2 m2 →
  MgrStep p m ext p2 l2 m2.
Proof.
  intros H [I1 F1 M1 P1] [I2 F2 M2 P2]. split; [done|by etrans|by etrans|].
  intros b Hp Hn H0 Hh Hr. destruct (P1 b Hp Hn H0 Hh Hr) as [Hh1 Hr1].
  assert (pool_ref p1 b) as Hp1 by by rewrite (pool_frame_ref _ _ _ F1).
  assert (b ≠ null_block p1) as Hn1 by by rewrite (pf_null _ _ F1).
  destruct (P2 b Hp1 Hn1) as [Hh2 Hr2].
  - pose proof (mi_refs _ _ _ _ H b Hp Hn). pose proof (mi_refs _ _ _ _ I1 b Hp1 Hn1). lia.
  - done.
  - lia.
  - split; [done|lia].
Qed.

(** What the cache hits of a new request have to look like: each block once,
    null blocks first, and all others cached. *)
Record hits_ok (p : BlockPool) (kept : list block_ref) : Prop := {
  ho_pool : Forall (pool_ref p) kept;
  ho_nodup : NoDup (filter (λ b, b ≠ null_block p) kept);
  ho_prefix : null_prefix (null_block p) kept;
  ho_hash : ∀ b, b ∈ kept → b ≠ null_block p → is_Some (hsh p b)
}.

Lemma MgrStep_touch p l m ext id (s : nat) kept m1 :
  MgrInv p l m ext → blocks_of m id = [] → hits_ok p kept → mgr_frame m m1 →
  let bs' := replicate s (null_block p) ++ kept in
  req_to_blocks m1 = <[id := bs']> (req_to_blocks m) →
  num_cached_block m1 = <[id := zlen bs']> (num_cached_block m) →
  ∃ p1, touch p kept = Ok p1 ∧
    MgrStep p m ext p1 (filter (λ b, b ∉ kept) l) m1 ∧
    (∀ b, pool_ref p b → hsh p1 b = hsh p b ∧ refs p b ≤ refs p1 b).
Proof.
  intros H Hempty [K1 K2 K3 K4] FM bs' Hreq Hnc.
  destruct (touch_spec kept p l (mi_pool _ _ _ _ H) K1) as (p1 & E & I1 & F & R & HH).
  exists p1. split; [done|]. split; last first.
  { intros b Hb. rewrite HH // R //. pose proof (zcount_nonneg b kept). split; [done|lia]. }
  apply (MgrStep_put p l m ext id p1 _ m1 bs'); try done.
  - intros id' Hne. by rewrite Hnc lookup_insert_ne.
  - unfold ncached. rewrite Hnc lookup_insert_eq. cbn. split; rewrite ?(pf_null _ _ F).
    + apply Forall_app. split; apply Forall_forall; intros x Hx; rewrite (pool_frame_ref _ _ _ F).
      * apply elem_of_replicate in Hx as [-> _]. apply null_ref, H.
      * by eapply Forall_forall in K1.
    + unfold bs'. rewrite filter_app filter_none //. intros x Hx%elem_of_replicate. tauto.
    + destruct K3 as (k & tl & -> & Hn). exists (s + k)%nat, tl. unfold bs'.
      by rewrite app_assoc replicate_add.
    + pose proof (zlen_nonneg bs'). lia.
    + intros j b Hj Hn. apply lookup_lt_Some in Hj. unfold zlen in Hn. lia.
  - intros b Hp Hne. rewrite R // Hempty zcount_nil. unfold bs'. rewrite zcount_app.
    assert (zcount b (replicate s (null_block p)) = 0) as ->; [|lia].
    apply zcount_0. rewrite elem_of_replicate. tauto.
  - intros b Hp Hne _ Hh Hr. rewrite HH //. split; [done|]. unfold bs'.
    rewrite elem_of_app elem_of_replicate. intros [[-> _]|Hb]; [done|].
    destruct (K4 b Hb Hne). congruence.
Qed.

(** The table of a new request: null blocks for what is skipped, the hits, and
    new blocks for the tokens computed elsewhere. *)
Definition skip_blocks (m : Manager) (total : Z) : Z :=
  Z.max 0 (get_num_skipped_tokens (kv_cache_spec m) total / block_size m).

Definition external_tokens (m : Manager) (local external : Z) : Z :=
  if bool_decide (0 < skip_blocks m (local + external))
  then Z.min (local + external - get_num_skipped_tokens (kv_cache_spec m) (local + external)) external
  else external.

(** Taking new blocks for a request. *)
Lemma manager_take_spec p l m ext id n :
  MgrInv p l m ext → 0 ≤ n ≤ zlen l →
  ∃ p', get_new_blocks p n = Ok (p', take (Z.to_nat n) l) ∧
    let m' := record_new_ids p' (put_blocks m id (blocks_of m id ++ take (Z.to_nat n) l)) (take (Z.to_nat n) l) in
    MgrStep p m ext p' (drop (Z.to_nat n) l) m' ∧
    req_to_blocks m' = <[id := blocks_of m id ++ take (Z.to_nat n) l]> (req_to_blocks m) ∧
    num_cached_block m' = num_cached_block m ∧
    ∀ b, pool_ref p b → b ∉ take (Z.to_nat n) l → hsh p' b = hsh p b ∧ refs p' b = refs p b.
Proof.
  intros I Hn. destruct (get_new_blocks_spec p l n (mi_pool _ _ _ _ I)) as (p2 & E2 & I2 & F2 & R2 & HH2); [done|].
  exists p2. split; [exact E2|]. cbn zeta. set (m2 := put_blocks m id _).
  destruct (mgr_frame_record p2 m2 (take (Z.to_nat n) l)) as (F3 & Hreq3 & Hnc3). split_and!.
  - apply (MgrStep_take p l m ext id n); try done. etrans; [|exact F3]. by split.
  - by rewrite Hreq3.
  - by rewrite Hnc3.
  - intros b Hp Hni. rewrite HH2 ?R2 //. rewrite !decide_False // Z.add_0_r. done.
Qed.

Lemma base_allocate_new_computed_blocks_spec p l m ext id new_computed local external :
  MgrInv p l m ext → has_cached m id = false → blocks_of m id = [] →
  let total := local + external in
  let s := skip_blocks m total in
  let kept := drop (Z.to_nat s) new_computed in
  hits_ok p kept → (m_enable_caching m = false → kept = []) →
  let l1 := filter (λ b, b ∉ kept) l in
  let n := if bool_decide (0 < external_tokens m local external)
           then cdiv total (block_size m) - (s + zlen kept) else 0 in
  0 ≤ n ≤ zlen l1 →
  ∃ p' m', base_allocate_new_computed_blocks p m id new_computed local external = Ok (p', m') ∧
    MgrStep p m ext p' (drop (Z.to_nat n) l1) m' ∧
    req_to_blocks m' = <[id := replicate (Z.to_nat s) (null_block p) ++ kept ++ take (Z.to_nat n) l1]>
                         (req_to_blocks m) ∧
    num_cached_block m' = <[id := s + zlen kept]> (num_cached_block m) ∧
    (∀ b, pool_ref p b → b ∉ take (Z.to_nat n) l1 → hsh p' b = hsh p b ∧ refs p b ≤ refs p' b).
Proof.
  intros H Hc Hempty total s kept Hk Hoff l1 n Hn. pose proof (mi_local _ _ _ _ H) as HL.
  unfold base_allocate_new_computed_blocks. rewrite Hc.
  destruct (access m id) as [ma bs] eqn:Ea.
  pose proof (blocks_of_access m id) as Hbs. rewrite Ea Hempty in Hbs. cbn in Hbs. subst bs.
  pose proof (access_spec m id) as (Fa & Hna & _ & _ & Hba). rewrite Ea in Fa, Hna, Hba. cbn [fst] in *.
  cbn [zlen length Z.of_nat]. rewrite (bool_decide_true (zlen (@nil block_ref) = 0)) //.
  cbn [py_assert mbind res_bind]. rewrite (mf_spec _ _ Fa) (mf_size _ _ Fa) (mf_null _ _ Fa) (mf_caching _ _ Fa).
  fold total. set (sk := get_num_skipped_tokens (kv_cache_spec m) total / block_size m).
  assert (s = Z.max 0 sk) as Es by done.
  match goal with |- context [if bool_decide (0 < sk) then ?a else ?b] =>
    assert ((if bool_decide (0 < sk) then a else b) = (kept, external_tokens m local external)) as -> end.
  { unfold external_tokens. fold total s. goal_bool as Hs.
    - rewrite (bool_decide_true (0 < s)); [|lia]. rewrite py_slice_from_drop; [|lia].
      unfold kept. by replace s with sk by lia.
    - rewrite (bool_decide_false (0 < s)); [|lia]. unfold kept. by replace s with 0 by lia. }
  rewrite (ml_null _ _ HL).
  replace (py_repeat (null_block p) sk) with (replicate (Z.to_nat s) (null_block p)).
  2:{ unfold py_repeat. f_equal. lia. }
  cbn [app]. set (bs1 := replicate (Z.to_nat s) (null_block p) ++ kept).
  assert (zlen bs1 = s + zlen kept) as Hl1.
  { unfold bs1. rewrite zlen_app /zlen length_replicate. lia. }
  set (m1 := set_num_cached_block (put_blocks ma id bs1) _).
  assert (put_blocks ma id bs1 = put_blocks m id bs1) as Hput.
  { replace ma with (access m id).1 by by rewrite Ea. apply put_access. }
  assert (req_to_blocks m1 = <[id:=bs1]> (req_to_blocks m)) as Hreq1.
  { change (req_to_blocks m1) with (req_to_blocks (put_blocks ma id bs1)). by rewrite Hput. }
  destruct (MgrStep_touch p l m ext id (Z.to_nat s) kept m1) as (p1 & E1 & S1 & Hmono); try done.
  { etrans; [exact Fa|]. by split. }
  { unfold m1. cbn. by rewrite Hna. }
  assert ((if m_enable_caching m then touch p kept else py_assert (is_nil kept);; Ok p) = Ok p1) as ->.
  { destruct (m_enable_caching m) eqn:Em; [done|]. rewrite Hoff // in E1. rewrite Hoff //. }
  cbn [mbind res_bind].
  assert (num_cached_block m1 = <[id:=s + zlen kept]> (num_cached_block m)) as Hnc1.
  { unfold m1. cbn. by rewrite Hna Hl1. }
  fold l1 in S1. unfold n in *. clear n. goal_bool as Hext; last first.
  { exists p1, m1. rewrite take_0 drop_0 app_nil_r. split_and!; try done. intros b Hb _. by apply Hmono. }
  rewrite bool_decide_true // in Hn.
  set (n := cdiv total (block_size m) - (s + zlen kept)) in *.
  pose proof (ms_frame _ _ _ _ _ _ S1) as M1. pose proof (ms_inv _ _ _ _ _ _ S1) as I1.
  replace (block_size m1) with (block_size m) by by rewrite (mf_size _ _ M1).
  rewrite Hl1. fold n.
  assert (blocks_of m1 id = bs1) as Hb1 by by rewrite /blocks_of Hreq1 lookup_insert_eq.
  destruct (manager_take_spec p1 l1 m1 ext id n I1 Hn) as (p2 & E2 & S2 & Hreq2 & Hnc2 & Hsame). rewrite Hb1 in S2, Hreq2, Hnc2.
  rewrite E2. cbn [mbind res_bind]. eexists _, _. split; [done|]. split; [by eapply MgrStep_trans|].
  rewrite Hreq2 Hnc2. split_and!; [|exact Hnc1|].
  - rewrite Hreq1 insert_insert_eq. unfold bs1. by rewrite -app_assoc.
  - intros b Hp Hni. destruct (Hmono b Hp) as [Hh Hr]. pose proof (ms_pool _ _ _ _ _ _ S1) as F1.
    destruct (Hsame b) as [-> ->]; [by rewrite (pool_frame_ref _ _ _ F1)|done|done].
Qed.

(** ** [cache_blocks] *)

Lemma table_index_unique p bs nc i j b :
  table_ok p bs nc → bs !! i = Some b → bs !! j = Some b → b ≠ null_block p → i = j.
Proof.
  intros [_ Hnd _ _ _] Hi Hj Hne. destruct (decide (i = j)) as [|Hij]; [done|]. exfalso.
  assert (∀ i j, (i < j)%nat → bs !! i = Some b → bs !! j = Some b → False) as Hcontra.
  { clear -Hnd Hne. intros i j Hlt Hi Hj.
    rewrite -(take_drop j bs) filter_app in Hnd. apply NoDup_app in Hnd as (_ & Hd & _).
    apply (Hd b); apply list_elem_of_filter; (split; [done|]); apply list_elem_of_lookup.
    - exists i. by rewrite lookup_take_lt.
    - exists 0%nat. by rewrite lookup_drop Nat.add_0_r. }
  destruct (decide (i < j)%nat); [by apply (Hcontra i j)|apply (Hcontra j i); try done; lia].
Qed.

(** Caching the full blocks of a request marks them with their keys; it needs
    a hash and a block for each. *)
Lemma base_cache_blocks_spec p l m ext r num_tokens :
  MgrInv p l m ext → enable_caching p = true → 0 ≤ num_tokens →
  let id := request_id r in
  let nf := num_tokens / block_size m in
  nf ≤ zlen (blocks_of m id) → nf ≤ zlen (hashes_at (hash_block_size p) (block_size m) r) →
  ∃ p' m', base_cache_blocks p m r num_tokens = Ok (p', m') ∧ MgrStep p m ext p' l m' ∧
    blocks_of m' id = blocks_of m id ∧ ncached m' id = Z.max (ncached m id) nf ∧
    keeps_others id m m' ∧
    (∀ j b h, ncached m id ≤ Z.of_nat j < nf → blocks_of m id !! j = Some b → b ≠ null_block p →
       hashes_at (hash_block_size p) (block_size m) r !! j = Some h →
       hsh p' b = Some (block_key h (kv_cache_group_id m))).
Proof.
  intros H Hc Hnt id nf Hnb Hnh. pose proof (mi_local _ _ _ _ H) as HL.
  pose proof (ml_table p m id HL) as T. unfold base_cache_blocks. fold id nf. fold (ncached m id).
  goal_bool as Hle.
  { exists p, m. split_and!; try done; [lia|]. intros j b h Hj. lia. }
  destruct (access m id) as [m1 bs] eqn:Ea.
  pose proof (blocks_of_access m id) as Hbs. rewrite Ea in Hbs. cbn in Hbs. subst bs.
  pose proof (access_spec m id) as (F1 & Hn1 & _ & _ & Hb1). rewrite Ea in F1, Hn1, Hb1. cbn [fst] in *.
  assert (req_to_blocks m1 = <[id := blocks_of m id]> (req_to_blocks m)) as Hr1.
  { replace m1 with (access m id).1 by by rewrite Ea. unfold access, blocks_of.
    destruct (req_to_blocks m !! id) eqn:E; cbn; [|done]. by rewrite insert_id. }
  rewrite (mf_size _ _ F1) (mf_group _ _ F1).
  destruct (ml_hash _ _ HL Hc) as [Hh0 Hmod]. pose proof (to_cached _ _ _ T) as Hnc.
  set (new := take (Z.to_nat (nf - ncached m id)) (drop (Z.to_nat (ncached m id)) (blocks_of m id))).
  assert (∀ b, b ∈ new → ∃ j, blocks_of m id !! j = Some b ∧ ncached m id ≤ Z.of_nat j < nf) as Hnew.
  { intros b (j & Hj & Hlt)%elem_of_take. rewrite lookup_drop in Hj. eexists; split; [exact Hj|]. lia. }
  destruct (cache_full_blocks_spec p l r (blocks_of m id) (ncached m id) nf (block_size m)
    (kv_cache_group_id m)) as (p' & E & I' & F & R & H1 & H2).
  { apply H. } { done. } { apply HL. } { done. } { apply HL. } { done. } { apply Hnc. }
  { done. } { done. } { apply T. }
  { pose proof (to_nodup _ _ _ T) as Hnd. eapply sublist_NoDup; [exact Hnd|].
    fold new. rewrite -(take_drop (Z.to_nat (ncached m id)) (blocks_of m id)) filter_app.
    apply sublist_inserts_l.
    rewrite -(take_drop (Z.to_nat (nf - ncached m id)) (drop _ (blocks_of m id))) filter_app.
    by apply sublist_inserts_r. }
  { intros b Hb Hne. destruct (Hnew b Hb) as (j & Hj & ?). by apply (to_tail _ _ _ T j b); try lia. }
  fold new in H2. rewrite E. cbn [mbind res_bind]. eexists _, _. split; [done|].
  split_and!; [| | | |done].
  - apply (MgrStep_put p l m ext id p' l _ (blocks_of m id)); try done.
    + etrans; [exact F1|]. by split.
    + intros id' Hne. cbn. by rewrite lookup_insert_ne // Hn1.
    + unfold ncached at 1. cbn. rewrite lookup_insert_eq. cbn.
      assert (table_ok p' (blocks_of m id) nf) as T'; [|exact T'].
      destruct T as [T1 T2 T3 T4 T5] eqn:ET. split; rewrite ?(pf_null _ _ F); try done.
      * eapply Forall_impl; [exact T1|]. intros x. by rewrite (pool_frame_ref _ _ _ F).
      * pose proof (Z.div_pos num_tokens (block_size m) Hnt (ml_size _ _ HL)). lia.
      * intros j b Hj Hn Hne. rewrite R. destruct (T5 j b Hj ltac:(lia) Hne) as [Hh Hr].
        rewrite H2; [done|]. left. intros Hin. destruct (Hnew b Hin) as (j' & Hj' & ?).
        pose proof (table_index_unique p _ _ j j' b T Hj Hj' Hne). lia.
    + intros b Hp Hne. rewrite R. lia.
    + intros b Hp Hne Hni Hh Hr. split; [|done]. rewrite H2 //. left. intros Hin.
      destruct (Hnew b Hin) as (j & Hj & _). apply Hni. by apply list_elem_of_lookup_2 in Hj.
  - by rewrite -(Hb1 id).
  - unfold ncached at 1. cbn. rewrite lookup_insert_eq. cbn. lia.
  - intros id' Hne. split; [by rewrite -(Hb1 id')|]. cbn. by rewrite lookup_insert_ne // Hn1.
Qed.
End Ops.

(** ** The contract of a manager

    What the coordinator relies on, as a class over the kinds of attention.
    The counts are the ones of the base class, for the number of tokens and of
    computed tokens that the manager makes of its arguments. *)

(** The number of tokens a table has to cover: a Mamba group adds its
    speculative blocks. *)
Definition slot_tokens (m : Manager) (num_tokens : Z) : Z :=
  match kv_cache_spec m with
  | MambaSpec _ b => num_tokens + block_size m * Z.max 0 (num_speculative_blocks b)
  | _ => num_tokens
  end.

(** The number of computed tokens that decides what is skipped. *)
Definition settled_tokens (m : Manager) (num_computed_tokens : Z) : Z :=
  match kv_cache_spec m with
  | MambaSpec _ b => Z.max 0 (num_computed_tokens - num_speculative_blocks b)
  | _ => num_computed_tokens
  end.

(** The blocks [get_num_blocks_to_allocate] asks for. *)
Definition blocks_needed (p : BlockPool) (m : Manager) (id : string) (num_tokens : Z)
    (new_computed : list block_ref) (total : Z) : Z :=
  let required := cdiv (slot_tokens m num_tokens) (block_size m) in
  let len := zlen (blocks_of m id) in
  if has_cached m id then Z.max (required - len) 0
  else
    let s := get_num_skipped_tokens (kv_cache_spec m) total / block_size m in
    Z.max (required - Z.max s (zlen new_computed + len)) 0 +
    _get_num_evictable_blocks p (py_slice_from new_computed (Z.max 0 (s - len))).

Class ManagerContract (P : KVCacheSpec → Prop) : Prop := {
  mc_need `{KVEnv} p m id num_tokens new_computed total main cap :
    P (kv_cache_spec m) →
    (is_mamba (kv_cache_spec m) = true → spec_block_size (kv_cache_spec m) = block_size m) →
    (has_cached m id = true → new_computed = []) →
    ∃ n, get_num_blocks_to_allocate p m id num_tokens new_computed total main cap = Ok (m, n) ∧
      (cap = false →
         n = blocks_needed p m id num_tokens new_computed total ∨ num_gpu_blocks p < n);
  mc_computed `{KVEnv} p l m ext id new_computed local external :
    P (kv_cache_spec m) → MgrInv p l m ext → has_cached m id = false → blocks_of m id = [] →
    let total := local + external in
    let s := skip_blocks m total in
    let kept := drop (Z.to_nat s) new_computed in
    hits_ok p kept → (m_enable_caching m = false → kept = []) →
    let l1 := filter (λ b, b ∉ kept) l in
    let n := if bool_decide (0 < external_tokens m local external)
             then cdiv total (block_size m) - (s + zlen kept) else 0 in
    0 ≤ n ≤ zlen l1 →
    ∃ p' m', allocate_new_computed_blocks p m id new_computed local external = Ok (p', m') ∧
      MgrStep p m ext p' (drop (Z.to_nat n) l1) m' ∧
      req_to_blocks m' =
        <[id := replicate (Z.to_nat s) (null_block p) ++ kept ++ take (Z.to_nat n) l1]>
          (req_to_blocks m) ∧
      num_cached_block m' = <[id := s + zlen kept]> (num_cached_block m) ∧
      (∀ b, pool_ref p b → b ∉ take (Z.to_nat n) l1 → hsh p' b = hsh p b ∧ refs p b ≤ refs p' b);
  mc_alloc `{KVEnv} p l m ext id num_tokens main :
    P (kv_cache_spec m) → MgrInv p l m ext →
    let n := cdiv (slot_tokens m num_tokens) (block_size m) - zlen (blocks_of m id) in
    n ≤ zlen l →
    ∃ p' m', allocate_new_blocks p m id num_tokens main = Ok (p', m', take (Z.to_nat n) l) ∧
      MgrStep p m ext p' (drop (Z.to_nat n) l) m' ∧
      req_to_blocks m' = <[id := blocks_of m id ++ take (Z.to_nat n) l]> (req_to_blocks m) ∧
      num_cached_block m' = num_cached_block m;
  mc_remove `{KVEnv} p l m ext id total :
    P (kv_cache_spec m) → MgrInv p l m ext →
    let bs := blocks_of m id in
    let s := num_skipped m id (settled_tokens m total) in
    ∃ p' m', remove_skipped_blocks p m id total = Ok (p', m') ∧
      MgrStep p m ext p'
        (l ++ filter (λ b, refs p b = 1 ∧ b ≠ null_block p)
                (reverse (filter (λ b, b ≠ null_block p) (take s bs)))) m' ∧
      blocks_of m' id = replicate s (null_block p) ++ drop s bs ∧
      (∀ id', id' ≠ id → req_to_blocks m' !! id' = req_to_blocks m !! id') ∧
      num_cached_block m' = num_cached_block m ∧ (∀ b, pool_ref p b → hsh p' b = hsh p b);
  mc_cache `{KVEnv} p l m ext r num_tokens :
    P (kv_cache_spec m) → MgrInv p l m ext → enable_caching p = true → 0 ≤ num_tokens →
    let id := request_id r in
    let nf := num_tokens / block_size m in
    nf ≤ zlen (blocks_of m id) → nf ≤ zlen (hashes_at (hash_block_size p) (block_size m) r) →
    ∃ p' m', cache_blocks p m r num_tokens = Ok (p', m') ∧ MgrStep p m ext p' l m' ∧
      blocks_of m' id = blocks_of m id ∧ ncached m' id = Z.max (ncached m id) nf ∧
      keeps_others id m m';
  mc_free `{KVEnv} p l m ext id :
    P (kv_cache_spec m) → MgrInv p l m ext →
    ∃ p' m', free p m id = Ok (p', m') ∧
      MgrStep p m ext p'
        (l ++ filter (λ b, refs p b = 1 ∧ b ≠ null_block p) (reverse (blocks_of m id))) m' ∧
      req_to_blocks m' = delete id (req_to_blocks m) ∧
      num_cached_block m' = delete id (num_cached_block m)
}.

(** The attention types that use the methods of the base class. *)
Definition attention_spec (s : KVCacheSpec) : Prop :=
  match s with MambaSpec _ _ | CrossAttentionSpec _ _ => False | _ => True end.

Lemma base_need p m id num_tokens nt new_computed total cap :
  slot_tokens m num_tokens = nt → (has_cached m id = true → new_computed = []) →
  ∃ n, base_get_num_blocks_to_allocate p m id nt new_computed total cap = Ok n ∧
    (cap = false → n = blocks_needed p m id num_tokens new_computed total).
Proof.
  intros Hs Hc. unfold base_get_num_blocks_to_allocate, blocks_needed. rewrite Hs.
  destruct (has_cached m id); [rewrite Hc //|];
    eexists; split; [reflexivity| |reflexivity|]; intros ->; done.
Qed.

#[export] Instance attention_contract : ManagerContract attention_spec.
Proof.
  split.
  - intros env p m id nt nc total main cap HP _ Hc.
    destruct (base_need p m id nt nt nc total cap) as (n & E & Hn); [|done|].
    { unfold slot_tokens. by destruct (kv_cache_spec m). }
    exists n. split; [|by intros; left; apply Hn].
    rewrite /get_num_blocks_to_allocate E. by destruct (kv_cache_spec m).
  - intros env p l m ext id nc loc ex HP H Hcs He total s kept Hk Hoff l1 n Hn.
    replace (allocate_new_computed_blocks p m id nc loc ex)
      with (base_allocate_new_computed_blocks p m id nc loc ex); [by apply base_allocate_new_computed_blocks_spec|].
    unfold allocate_new_computed_blocks. by destruct (kv_cache_spec m).
  - intros env p l m ext id nt main HP H n Hn.
    assert (slot_tokens m nt = nt) as Es by (unfold slot_tokens; by destruct (kv_cache_spec m)).
    replace (allocate_new_blocks p m id nt main) with (base_allocate_new_blocks p m id nt).
    + unfold n in *. rewrite Es in Hn |- *. by apply base_allocate_new_blocks_spec.
    + unfold allocate_new_blocks. by destruct (kv_cache_spec m).
  - intros env p l m ext id total HP H bs s.
    assert (settled_tokens m total = total) as Es by (unfold settled_tokens; by destruct (kv_cache_spec m)).
    replace (remove_skipped_blocks p m id total) with (base_remove_skipped_blocks p m id total).
    + unfold s. rewrite Es. by apply base_remove_skipped_blocks_spec.
    + unfold remove_skipped_blocks. by destruct (kv_cache_spec m).
  - intros env p l m ext r nt HP H Hc Hnt id nf Hb Hh.
    replace (cache_blocks p m r nt) with (base_cache_blocks p m r nt).
    + destruct (base_cache_blocks_spec p l m ext r nt H Hc Hnt Hb Hh) as (p' & m' & ? & ? & ? & ? & ? & _).
      by exists p', m'.
    + unfold cache_blocks. by destruct (kv_cache_spec m).
  - intros env p l m ext id HP H.
    replace (free p m id) with (base_free p m id); [by apply base_free_spec|].
    unfold free. by destruct (kv_cache_spec m).
Qed.

(** Mamba groups that do not align their blocks also follow the base class,
    with room for the speculative blocks. *)
Definition mamba_plain_spec (s : KVCacheSpec) : Prop :=
  match s with MambaSpec _ b => mamba_cache_mode b ≠ "align" | _ => False end.

(** The invariant does not read the bookkeeping of Mamba groups. *)
Lemma MgrInv_same p l m m' ext :
  mgr_frame m m' → req_to_blocks m' = req_to_blocks m → num_cached_block m' = num_cached_block m →
  MgrInv p l m ext → MgrInv p l m' ext.
Proof.
  intros F Hr Hn [I HL He HR]. split; [done| |done|].
  - split.
    + rewrite (mf_null _ _ F). apply HL.
    + rewrite (mf_size _ _ F). apply HL.
    + rewrite (mf_caching _ _ F). apply HL.
    + rewrite (mf_group _ _ F). apply HL.
    + rewrite (mf_size _ _ F). apply HL.
    + unfold ncached. rewrite Hr Hn. apply HL.
    + rewrite Hr Hn. apply HL.
  - unfold held. by rewrite Hr.
Qed.

Lemma MgrStep_same p m ext p' l' m1 m2 :
  mgr_frame m1 m2 → req_to_blocks m2 = req_to_blocks m1 →
  num_cached_block m2 = num_cached_block m1 →
  MgrStep p m ext p' l' m1 → MgrStep p m ext p' l' m2.
Proof.
  intros F Hr Hn [I FP FM P]. split; [|done|by etrans|done]. by eapply MgrInv_same.
Qed.

(** The loop that remembers the keys cached in this step. *)
Lemma remember_keys_ok p bs : ∀ m,
  (∀ b, b ∈ bs → is_null (blk p b) = false → is_Some (block_hash (blk p b))) →
  ∃ m', foldM (λ m b,
      if is_null (blk p b) then Ok m
      else match block_hash (blk p b) with
           | None => Raise AssertionError
           | Some h => Ok (set_cached_this_step m ({[h]} ∪ cached_blocks_this_step m))
           end) m bs = Ok m' ∧
    mgr_frame m m' ∧ req_to_blocks m' = req_to_blocks m ∧ num_cached_block m' = num_cached_block m.
Proof.
  induction bs as [|b bs IH]; intros m Hb; [by exists m|]. cbn [foldM].
  destruct (is_null (blk p b)) eqn:En; cbn [mbind res_bind].
  { apply IH. intros x Hx. apply Hb. by right. }
  destruct (Hb b ltac:(by left) En) as [h Eh]. rewrite Eh. cbn [mbind res_bind].
  destruct (IH (set_cached_this_step m ({[h]} ∪ cached_blocks_this_step m)))
    as (m' & -> & F & Hr & Hn).
  { intros x Hx. apply Hb. by right. }
  exists m'. split_and!; [done| |done|done]. etrans; [|exact F]. by split.
Qed.

Lemma mamba_cache_blocks_spec `{KVEnv} p l m ext r num_tokens :
  MgrInv p l m ext → enable_caching p = true → 0 ≤ num_tokens →
  let id := request_id r in
  let nf := num_tokens / block_size m in
  nf ≤ zlen (blocks_of m id) → nf ≤ zlen (hashes_at (hash_block_size p) (block_size m) r) →
  ∃ p' m', mamba_cache_blocks p m r num_tokens = Ok (p', m') ∧ MgrStep p m ext p' l m' ∧
    blocks_of m' id = blocks_of m id ∧ ncached m' id = Z.max (ncached m id) nf ∧
    keeps_others id m m'.
Proof.
  intros Hinv Hc Hnt id nf Hb Hh. unfold mamba_cache_blocks. fold id. fold (ncached m id).
  destruct (base_cache_blocks_spec p l m ext r num_tokens Hinv Hc Hnt Hb Hh)
    as (p' & m' & E & S' & Hb' & Hn' & Ho' & Hkey). rewrite E. cbn [mbind res_bind].
  fold (ncached m' id). fold id in Hb', Hn', Hkey. fold nf in Hn', Hkey. rewrite Hn'.
  goal_bool as Hlt; [|by exists p', m'; rewrite -Hn'].
  destruct (access m' id) as [m1 bs] eqn:Ea.
  pose proof (blocks_of_access m' id) as Hbs. rewrite Ea in Hbs. cbn in Hbs. subst bs.
  pose proof (access_spec m' id) as (F1 & Hn1 & _ & _ & Hb1). rewrite Ea in F1, Hn1, Hb1. cbn [fst] in *.
  pose proof (ml_table p m id (mi_local _ _ _ _ Hinv)) as T. pose proof (to_cached _ _ _ T).
  rewrite Hb'. rewrite py_slice_take_drop; [|lia..].
  destruct (remember_keys_ok p' (take (Z.to_nat (ncached m id `max` nf - ncached m id))
    (drop (Z.to_nat (ncached m id)) (blocks_of m id))) m1) as (m2 & -> & F2 & Hr2 & Hn2).
  { intros b (j & Hj & Hlt')%elem_of_take Hnull. rewrite lookup_drop in Hj.
    pose proof (ms_pool _ _ _ _ _ _ S') as F. pose proof (mi_pool _ _ _ _ Hinv) as I.
    pose proof (to_pool _ _ _ T) as Hp. rewrite Forall_forall in Hp.
    assert (pool_ref p b) as Hpb by (apply Hp; by apply list_elem_of_lookup_2 in Hj).
    destruct (static_id p b (pi_static _ _ I) Hpb) as (i & -> & _ & Hnb).
    destruct (pf_blocks _ _ F i) as [_ Hnb']. unfold nullb in Hnb'. rewrite Hnb' in Hnull.
    change (is_null (blk p (Blk i))) with (nullb p (Blk i)) in Hnull. rewrite Hnb in Hnull.
    apply bool_decide_eq_false in Hnull.
    destruct (zlen_lookup (hashes_at (hash_block_size p) (block_size m) r)
      (Z.of_nat (Z.to_nat (ncached m id) + j))) as [h Hhj]; [lia|]. rewrite Nat2Z.id in Hhj.
    exists (block_key h (kv_cache_group_id m)). apply (Hkey (Z.to_nat (ncached m id) + j)%nat); try done. lia. }
  cbn [mbind res_bind]. exists p', m2. split; [done|].
  assert (MgrStep p m ext p' l m1) as S1.
  { replace m1 with (access m' id).1 by by rewrite Ea. destruct S' as [I' FP FM PP].
    split; [by apply MgrInv_access|done| |done]. etrans; [exact FM|apply access_spec]. }
  split; [by eapply MgrStep_same|]. unfold blocks_of, ncached. rewrite Hr2 Hn2.
  fold (blocks_of m1 id). rewrite Hb1 Hb' Hn1. split_and!; [done..|].
  intros id' Hne. destruct (Ho' id' Hne) as [<- <-]. by rewrite -Hb1 /blocks_of Hr2 Hn2 Hn1.
Qed.

#[export] Instance mamba_contract : ManagerContract mamba_plain_spec.
Proof.
  assert (∀ m, mamba_plain_spec (kv_cache_spec m) →
    ∃ bs b, kv_cache_spec m = MambaSpec bs b ∧ mamba_cache_mode b ≠ "align") as Hm.
  { intros m Hm. destruct (kv_cache_spec m) as [| | | | | | |bs b|]; try done. by exists bs, b. }
  assert (∀ m bs b nt, kv_cache_spec m = MambaSpec bs b → slot_tokens m nt =
    if bool_decide (0 < num_speculative_blocks b) then nt + block_size m * num_speculative_blocks b
    else nt) as Hslot.
  { intros m bs b nt E. unfold slot_tokens. rewrite E. goal_bool as Hs.
    - by rewrite Z.max_r; [|lia].
    - rewrite Z.max_l; [|lia]. lia. }
  split.
  - intros env p m id nt nc total main cap (bs & b & E & Hmode)%Hm Hbs Hc.
    unfold get_num_blocks_to_allocate. rewrite E.
    unfold mamba_get_num_blocks_to_allocate. rewrite bool_decide_true // E. cbn [spec_block_size].
    rewrite E in Hbs. cbn in Hbs. rewrite Hbs // -(Hslot m bs b nt E).
    destruct (cached_in_this_step p m nc).
    { exists (num_gpu_blocks p + 1). split; [done|]. intros _. right. lia. }
    destruct (base_need p m id nt _ nc total cap eq_refl Hc) as (n & -> & Hn).
    exists n. split; [done|]. by left; apply Hn.
  - intros env p l m ext id nc loc ex (bs & b & E & Hmode)%Hm H Hcs He total s kept Hk Hoff l1 n Hn.
    unfold allocate_new_computed_blocks. rewrite E. by apply base_allocate_new_computed_blocks_spec.
  - intros env p l m ext id nt main (bs & b & E & Hmode)%Hm H n Hn.
    unfold allocate_new_blocks. rewrite E bool_decide_true // -(Hslot m bs b nt E).
    by apply base_allocate_new_blocks_spec.
  - intros env p l m ext id total (bs & b & E & Hmode)%Hm H tb s.
    unfold remove_skipped_blocks. rewrite E. unfold mamba_remove_skipped_blocks.
    assert (settled_tokens m total = Z.max 0 (total - num_speculative_blocks b)) as Es.
    { unfold settled_tokens. by rewrite E. }
    rewrite -Es.
    destruct (base_remove_skipped_blocks_spec p l m ext id (settled_tokens m total) H)
      as (p' & m' & -> & Hrest). cbn [mbind res_bind]. rewrite bool_decide_false //. by exists p', m'.
  - intros env p l m ext r nt (bs & b & E & Hmode)%Hm H Hc Hnt id nf Hb Hh.
    unfold cache_blocks. rewrite E. by apply mamba_cache_blocks_spec.
  - intros env p l m ext id (bs & b & E & Hmode)%Hm H. unfold free. rewrite E.
    rewrite bool_decide_false //. by apply base_free_spec.
Qed.

(** A contract for two families of attention. *)
Lemma contract_or P Q :
  ManagerContract P → ManagerContract Q → ManagerContract (λ s, P s ∨ Q s).
Proof.
  intros [P1 P2 P3 P4 P5 P6] [Q1 Q2 Q3 Q4 Q5 Q6].
  split; intros; (match goal with H : _ ∨ _ |- _ => destruct H end); eauto.
Qed.

(** The attention types the coordinator theorems cover. *)
Definition supported_spec (s : KVCacheSpec) : Prop := attention_spec s ∨ mamba_plain_spec s.
#[export] Instance supported_contract : ManagerContract supported_spec.
Proof. apply contract_or; apply _. Qed.

(** ** A new manager *)

Lemma Manager_init_inv p l spec group_id dcp pcp cap :
  PoolInv p l → (∀ b, pool_ref p b → b ≠ null_block p → refs p b = 0) →
  valid_group_id group_id → 0 < spec_block_size spec → 0 < dcp → 0 < pcp →
  let m := Manager_init p spec (enable_caching p) group_id dcp pcp cap in
  (enable_caching p = true → 0 < hash_block_size p ∧ block_size m `mod` hash_block_size p = 0) →
  MgrInv p l m (λ _, 0).
Proof.
  intros I H0 Hg Hbs Hd Hp m Hh. split; [done| |done|].
  - split; try done.
    + unfold m, Manager_init. cbn. goal_bool as Hw; nia.
    + intros id [? Hs]. cbn in Hs. by rewrite lookup_empty in Hs.
  - intros b Hpb Hn. rewrite H0 //.
Qed.

(** ** Counting free blocks *)

(** Touching the hits takes exactly the evictable ones off the free list. *)
Lemma evictable_count p l kept :
  PoolInv p l → Forall (pool_ref p) kept → NoDup (filter (λ b, b ≠ null_block p) kept) →
  zlen (filter (λ b, b ∉ kept) l) = zlen l - _get_num_evictable_blocks p kept.
Proof.
  intros I Hp Hnd. rewrite Forall_forall in Hp.
  assert (filter (λ b, b ∈ kept) l ≡ₚ
          filter (λ b, ref_cnt (blk p b) = 0 ∧ is_null (blk p b) = false) kept) as HP.
  { apply NoDup_Permutation.
    - apply NoDup_filter, (repr_nodup _ _ (pi_queue _ _ I)).
    - eapply sublist_NoDup; [exact Hnd|].
      rewrite (list_filter_iff_elem _ (λ b, ref_cnt (blk p b) = 0 ∧ b ≠ null_block p)).
      + apply filter_and_sublist.
      + intros b Hb. destruct (static_id p b (pi_static _ _ I) (Hp b Hb)) as (i & _ & _ & Hn).
        unfold nullb in Hn. rewrite Hn bool_decide_eq_false. done.
    - intros b. rewrite !list_elem_of_filter. split.
      + intros [Hb Hl]. destruct (PoolInv_free_ref _ _ _ I Hl) as (Hpb & Hne & Hr).
        destruct (static_id p b (pi_static _ _ I) Hpb) as (i & _ & _ & Hn).
        unfold nullb in Hn. rewrite Hn bool_decide_eq_false. done.
      + intros [[Hr Hn] Hb]. split; [done|].
        destruct (static_id p b (pi_static _ _ I) (Hp b Hb)) as (i & _ & _ & Hn').
        unfold nullb in Hn'. rewrite Hn' bool_decide_eq_false in Hn.
        by apply (pi_refs _ _ I); [apply Hp| |]. }
  unfold _get_num_evictable_blocks. rewrite /zlen -(Permutation_length HP).
  assert (∀ l : list block_ref, length l =
    (length (filter (λ b, b ∈ kept) l) + length (filter (λ b, b ∉ kept) l))%nat) as Hsplit.
  { clear. induction l as [|x l IH]; [done|]. rewrite !filter_cons.
    destruct (decide (x ∈ kept)), (decide (x ∉ kept)); cbn; try done; lia. }
  rewrite (Hsplit l). lia.
Qed.

(** At most as many blocks are skipped as there are computed tokens. *)
Lemma skipped_le spec n :
  0 ≤ n →
  match spec with
  | SlidingWindowSpec _ _ _ w | SlidingWindowMLASpec _ _ _ w _ => 0 < w
  | ChunkedLocalAttentionSpec _ _ c => 0 < c
  | _ => True
  end → get_num_skipped_tokens spec n ≤ n.
Proof.
  intros Hn Hs. destruct spec; cbn in *; unfold_skipped; try lia.
  rewrite Z.mul_comm. by apply Z.mul_div_le.
Qed.

(** ** Main properties *)

(** The parameters of the window are positive. *)
Definition window_positive (spec : KVCacheSpec) : Prop :=
  match spec with
  | SlidingWindowSpec _ _ _ w | SlidingWindowMLASpec _ _ _ w _ => 0 < w
  | ChunkedLocalAttentionSpec _ _ c => 0 < c
  | _ => True
  end.

(** What the configuration of a group guarantees. *)
Record mgr_wf (m : Manager) : Prop := {
  wf_supported : supported_spec (kv_cache_spec m);
  wf_window : window_positive (kv_cache_spec m);
  wf_mamba : is_mamba (kv_cache_spec m) = true → spec_block_size (kv_cache_spec m) = block_size m
}.

Lemma mgr_wf_frame m m' : mgr_frame m m' → mgr_wf m → mgr_wf m'.
Proof. intros F [W1 W2 W3]. split; rewrite !(mf_spec _ _ F) ?(mf_size _ _ F) //. Qed.

(** The blocks that [allocate_new_blocks] will take. *)
Definition alloc_need (m : Manager) (id : string) (num_tokens : Z) : Z :=
  Z.max 0 (cdiv (slot_tokens m num_tokens) (block_size m) - zlen (blocks_of m id)).

Lemma slot_tokens_frame m m' n : mgr_frame m m' → slot_tokens m' n = slot_tokens m n.
Proof. intros F. unfold slot_tokens. by rewrite (mf_spec _ _ F) (mf_size _ _ F). Qed.

Lemma slot_tokens_ge m n : 0 < block_size m → n ≤ slot_tokens m n.
Proof. intros Hbs. unfold slot_tokens. destruct (kv_cache_spec m); nia. Qed.

(** [allocate_new_blocks] takes exactly the missing blocks from the front of
    the free queue, after which the table covers the tokens. *)
Lemma alloc_phase `{KVEnv} p l m ext id num_tokens main :
  supported_spec (kv_cache_spec m) → MgrInv p l m ext → alloc_need m id num_tokens ≤ zlen l →
  ∃ p' l' m' new, allocate_new_blocks p m id num_tokens main = Ok (p', m', new) ∧
    MgrStep p m ext p' l' m' ∧ zlen l' = zlen l - alloc_need m id num_tokens ∧
    blocks_of m' id = blocks_of m id ++ new ∧ zlen new = alloc_need m id num_tokens ∧
    keeps_others id m m' ∧
    num_tokens ≤ zlen (blocks_of m' id) * block_size m.
Proof.
  intros HP Hinv Hn. pose proof (ml_size _ _ (mi_local _ _ _ _ Hinv)) as Hbs. unfold alloc_need in *.
  set (n := cdiv (slot_tokens m num_tokens) (block_size m) - zlen (blocks_of m id)) in *.
  destruct (mc_alloc p l m ext id num_tokens main HP Hinv) as (p' & m' & E & S' & Hreq & Hnc); [lia|].
  fold n in E, S', Hreq. pose proof (zlen_nonneg l).
  assert (blocks_of m' id = blocks_of m id ++ take (Z.to_nat n) l) as Hb.
  { by rewrite {1}/blocks_of Hreq lookup_insert_eq. }
  assert (zlen (take (Z.to_nat n) l) = Z.max 0 n) as Ht.
  { unfold zlen in *. rewrite length_take. lia. }
  eexists p', _, m', _. split_and!; [exact E|exact S'| |exact Hb|exact Ht| |].
  - unfold zlen in *. rewrite length_drop. lia.
  - intros id' Hne. by rewrite /blocks_of Hreq lookup_insert_ne // Hnc.
  - rewrite Hb zlen_app Ht. pose proof (slot_tokens_ge m num_tokens Hbs).
    pose proof (cdiv_spec (slot_tokens m num_tokens) (block_size m) Hbs). nia.
Qed.

(** What a new request brings: hits that fit its computed tokens. *)
Record new_request (p : BlockPool) (m : Manager) (id : string) (new_computed : list block_ref)
    (local external num_tokens : Z) : Prop := {
  nr_fresh : has_cached m id = false;
  nr_empty : blocks_of m id = [];
  nr_hits : hits_ok p (drop (Z.to_nat (skip_blocks m (local + external))) new_computed);
  nr_off : m_enable_caching m = false → new_computed = [];
  nr_local : zlen new_computed * block_size m ≤ local;
  nr_external : 0 ≤ external;
  nr_total : local + external ≤ num_tokens
}.

(** The blocks the computed phase takes for the tokens of the connector. *)
Definition external_need (m : Manager) (new_computed : list block_ref) (local external : Z) : Z :=
  if bool_decide (0 < external_tokens m local external)
  then cdiv (local + external) (block_size m) -
       Z.max (skip_blocks m (local + external)) (zlen new_computed)
  else 0.

(** Skipped blocks and hits lie within the computed tokens. *)
Lemma computed_in_total m (new_computed : list block_ref) local external :
  0 < block_size m → window_positive (kv_cache_spec m) →
  zlen new_computed * block_size m ≤ local → 0 ≤ external →
  let total := local + external in
  skip_blocks m total ≤ cdiv total (block_size m) ∧ zlen new_computed ≤ cdiv total (block_size m).
Proof.
  intros Hbs Hw Hl He total. pose proof (zlen_nonneg new_computed).
  assert (0 ≤ total) as Ht by (unfold total; nia).
  pose proof (skipped_le (kv_cache_spec m) total Ht Hw) as Hs.
  pose proof (cdiv_nonneg total (block_size m) Hbs Ht).
  pose proof (div_le_cdiv total (block_size m) Hbs).
  assert (get_num_skipped_tokens (kv_cache_spec m) total / block_size m ≤ total / block_size m)
    by (apply Z.div_le_mono; lia).
  unfold skip_blocks. split; [lia|].
  pose proof (cdiv_spec total (block_size m) Hbs). unfold total in *. nia.
Qed.

(** [allocate_new_computed_blocks] takes its part of the blocks that
    [get_num_blocks_to_allocate] announced and leaves the rest to
    [allocate_new_blocks]. *)
Lemma computed_phase `{KVEnv} p l m ext id new_computed local external num_tokens :
  mgr_wf m → MgrInv p l m ext → new_request p m id new_computed local external num_tokens →
  blocks_needed p m id num_tokens new_computed (local + external) ≤ zlen l →
  ∃ p' l' m', allocate_new_computed_blocks p m id new_computed local external = Ok (p', m') ∧
    MgrStep p m ext p' l' m' ∧
    alloc_need m' id num_tokens + (zlen l - zlen l') =
      blocks_needed p m id num_tokens new_computed (local + external) ∧
    keeps_others id m m' ∧
    (external_need m new_computed local external = 0 →
     ∀ b, pool_ref p b → hsh p' b = hsh p b ∧ refs p b ≤ refs p' b).
Proof.
  intros [HP Hw _] Hinv [Hc Hempty Hk Hoff Hloc Hex Htot] Hn.
  pose proof (ml_size _ _ (mi_local _ _ _ _ Hinv)) as Hbs.
  destruct (computed_in_total m new_computed local external Hbs Hw Hloc Hex) as [Hsc Hncc].
  unfold blocks_needed in *. rewrite Hc Hempty in Hn |- *. change (zlen (@nil block_ref)) with 0 in *.
  set (total := local + external) in *. set (s := skip_blocks m total) in *.
  set (kept := drop (Z.to_nat s) new_computed) in *. pose proof (zlen_nonneg new_computed) as Hl0.
  set (sk := get_num_skipped_tokens (kv_cache_spec m) total / block_size m) in *.
  assert (s = Z.max 0 sk) as Es by done.
  rewrite Z.sub_0_r -Es py_slice_from_drop in Hn |- *; [|lia..]. fold kept in Hn |- *.
  assert (s + zlen kept = Z.max s (zlen new_computed)) as Hlen by (unfold kept; rewrite zlen_drop; lia).
  pose proof (evictable_count p l kept (mi_pool _ _ _ _ Hinv) (ho_pool _ _ Hk) (ho_nodup _ _ Hk)) as Hev.
  pose proof (slot_tokens_ge m num_tokens Hbs) as Hslot.
  pose proof (cdiv_mono total (slot_tokens m num_tokens) (block_size m) Hbs ltac:(lia)) as Hmono.
  set (l1 := filter (λ b, b ∉ kept) l) in *. set (n := external_need m new_computed local external).
  assert (n = if bool_decide (0 < external_tokens m local external)
              then cdiv total (block_size m) - (s + zlen kept) else 0) as En.
  { unfold n, external_need. fold total s. by rewrite Hlen. }
  assert (0 ≤ n ≤ zlen l1 ∧ n ≤ Z.max 0 (cdiv total (block_size m) - (s + zlen kept))) as Hn1.
  { rewrite En. pose proof (zlen_nonneg l1). goal_bool as Hx; lia. }
  destruct (mc_computed p l m ext id new_computed local external HP Hinv Hc Hempty Hk) as
    (p1 & m1 & E1 & S1 & Hreq1 & Hnc1 & Hfr).
  { intros Hcf. fold total s kept. by rewrite /kept Hoff // drop_nil. }
  { fold total s kept l1. rewrite -En. apply Hn1. }
  fold total s kept l1 in S1, Hreq1, Hfr. rewrite -En in S1, Hreq1, Hfr.
  pose proof (ms_frame _ _ _ _ _ _ S1) as M1.
  assert (zlen (blocks_of m1 id) = s + zlen kept + n) as Hlb1.
  { rewrite /blocks_of Hreq1 lookup_insert_eq /= !zlen_app zlen_take; [|lia].
    change (zlen (replicate (Z.to_nat s) (null_block p))) with (zlen (py_repeat (null_block p) s)).
    rewrite zlen_repeat. lia. }
  exists p1, (drop (Z.to_nat n) l1), m1. split_and!; [done|done| | |].
  - unfold alloc_need. rewrite (slot_tokens_frame _ _ _ M1) (mf_size _ _ M1) Hlb1 zlen_drop; lia.
  - intros id' Hne. by rewrite /blocks_of Hreq1 Hnc1 !lookup_insert_ne.
  - intros Hn0 b Hb. apply Hfr; [done|]. rewrite Hn0. apply not_elem_of_nil.
Qed.

(** The tokens of a request that already has blocks need only new ones. *)
Lemma running_need p m id num_tokens total :
  0 < block_size m → window_positive (kv_cache_spec m) → 0 ≤ total →
  total ≤ zlen (blocks_of m id) * block_size m →
  blocks_needed p m id num_tokens [] total = alloc_need m id num_tokens.
Proof.
  intros Hbs Hw Ht Hcov. unfold blocks_needed, alloc_need. destruct (has_cached m id); [lia|].
  rewrite /py_slice_from. change (zlen (@nil block_ref)) with 0.
  assert (get_num_skipped_tokens (kv_cache_spec m) total / block_size m ≤ zlen (blocks_of m id)).
  { apply Z.div_le_upper_bound; [done|]. pose proof (skipped_le _ _ Ht Hw). lia. }
  rewrite drop_nil. change (_get_num_evictable_blocks p []) with 0. lia.
Qed.

(** C10: admission is sound.  For a new request of a full attention, sliding
    window, chunked local or (not block-aligned) Mamba group, if the number
    returned by [get_num_blocks_to_allocate] is at most the number of free
    blocks, then [allocate_new_computed_blocks] followed by
    [allocate_new_blocks] returns, the table covers [num_tokens] slots, and the
    references of the pool still equal the entries of the tables. *)
Theorem admission_sound `{KVEnv} p l m ext id num_tokens new_computed local external :
  mgr_wf m → MgrInv p l m ext → new_request p m id new_computed local external num_tokens →
  ∃ n, get_num_blocks_to_allocate p m id num_tokens new_computed (local + external) num_tokens false
         = Ok (m, n) ∧
    (n ≤ get_num_free_blocks p →
     ∃ p1 m1 p2 m2 new l2,
       allocate_new_computed_blocks p m id new_computed local external = Ok (p1, m1) ∧
       allocate_new_blocks p1 m1 id num_tokens num_tokens = Ok (p2, m2, new) ∧
       num_tokens ≤ zlen (blocks_of m2 id) * block_size m ∧
       MgrInv p2 l2 m2 ext).
Proof.
  intros Hwf Hinv HR. pose proof (mi_pool _ _ _ _ Hinv) as I.
  destruct (mc_need p m id num_tokens new_computed (local + external) num_tokens false)
    as (n & E & Hn); [apply Hwf..|by rewrite (nr_fresh _ _ _ _ _ _ _ HR)|].
  exists n. split; [done|]. rewrite (PoolInv_num_free _ _ I). intros Hle.
  pose proof (free_le_pool p l I). destruct (Hn eq_refl) as [->|]; [|lia].
  destruct (computed_phase p l m ext id new_computed local external num_tokens)
    as (p1 & l1 & m1 & E1 & S1 & Hneed & _); [done..|].
  pose proof (ms_frame _ _ _ _ _ _ S1) as M1.
  destruct (alloc_phase p1 l1 m1 ext id num_tokens num_tokens)
    as (p2 & l2 & m2 & new & E2 & S2 & _ & _ & _ & _ & Hcov).
  { rewrite (mf_spec _ _ M1). apply Hwf. } { apply S1. } { lia. }
  exists p1, m1, p2, m2, new, l2. split_and!; [done..| |apply S2]. by rewrite -(mf_size _ _ M1).
Qed.





(** The scheduling steps of one request: each removes the skipped blocks for
    [n] computed tokens and allocates slots for [num_tokens]. *)
Definition run_steps `{KVEnv} (pm : BlockPool * Manager) (id : string) (steps : list (Z * Z))
    : res (BlockPool * Manager) :=
  foldM (λ pm step,
    '(p, m) ← remove_skipped_blocks pm.1 pm.2 id step.1;
    '(p, m, _) ← allocate_new_blocks p m id step.2 step.2;
    Ok (p, m)) pm steps.

(** The cap of chunked local attention is too small when the chunks are
    not made of whole blocks.  With blocks of 3 tokens, chunks of 4 and steps of
    at most 2 tokens the cap is 2 blocks, but after 13 tokens the request holds
    3 real blocks. *)
Theorem chunked_cap_exceeded `{KVEnv} (a : AttentionFields) :
  ∃ p0 p m0 m,
    BlockPool_init 8 false 3 false = Ok p0 ∧
    get_manager_for_kv_cache_spec p0 (ChunkedLocalAttentionSpec 3 a 4) 2 100 false 0 1 1 =
      Ok (p0, m0) ∧
    run_steps (p0, m0) "r" [(0, 1); (1, 3); (3, 5); (5, 7); (7, 9); (9, 11); (11, 13)] = Ok (p, m) ∧
    _max_admission_blocks_per_request m = Some 2 ∧
    zlen (filter (λ b, b ≠ null_block p) (blocks_of m "r")) = 3.
Proof.
  eexists _, _, _, _. split; [vm_compute; reflexivity|]. split; [vm_compute; reflexivity|].
  split; [vm_compute; reflexivity|]. by vm_compute.
Qed.

(** ** Concrete managers *)

Definition sample_p0 : BlockPool := Eval vm_compute in the_pool (pool_after 8 []).
Definition sample_sw_manager : Manager := Eval vm_compute in
  Manager_init sample_p0 (SlidingWindowSpec 2 (mkAttn 1 64 "bfloat16" NONE None) 64 3) true 0 1 1
    (Some 5).
Definition sample_free : list block_ref := Eval vm_compute in Blk <$> seq 1 7.

Lemma sample_sw_inv : MgrInv sample_p0 sample_free sample_sw_manager (λ _, 0).
Proof.
  destruct (BlockPool_init_spec 8 true 2 true) as (p & E & I & _ & Hc & Hh & _ & _ & H0); [lia|].
  assert (p = sample_p0) as ->.
  { assert (BlockPool_init 8 true 2 true = Ok sample_p0) as E' by (vm_compute; reflexivity). congruence. }
  refine (Manager_init_inv sample_p0 sample_free
    (SlidingWindowSpec 2 (mkAttn 1 64 "bfloat16" NONE None) 64 3) 0 1 1 (Some 5) I _ _ _ _ _ _); try done.
  intros b Hb _. by apply H0.
Qed.

Lemma admission_sound_witness :
  ∃ n, get_num_blocks_to_allocate sample_p0 sample_sw_manager "r" 5 [] 0 5 false =
         Ok (sample_sw_manager, n) ∧
    (n ≤ get_num_free_blocks sample_p0 →
     ∃ p1 m1 p2 m2 new l2,
       allocate_new_computed_blocks sample_p0 sample_sw_manager "r" [] 0 0 = Ok (p1, m1) ∧
       allocate_new_blocks p1 m1 "r" 5 5 = Ok (p2, m2, new) ∧
       5 ≤ zlen (blocks_of m2 "r") * 2 ∧ MgrInv p2 l2 m2 (λ _, 0)).
Proof.
  apply (admission_sound sample_p0 sample_free sample_sw_manager (λ _, 0) "r" 5 [] 0 0).
  - split; [by left|done..].
  - exact sample_sw_inv.
  - split; try done. split; [constructor|constructor|by exists 0%nat, []; split; [|apply not_elem_of_nil]|].
    intros b []%not_elem_of_nil.
Defined.


