(* ===== verification/Coordinator.v ===== *)
(** * The KV cache coordinator: [vllm/v1/core/kv_cache_coordinator.py]

    The coordinator owns the block pool and one manager per KV cache group, and
    broadcasts the operations on a request to all of them.  Its three
    subclasses differ in how they look up the longest prefix cache hit: not at
    all, for a single group, or for several groups by a fixed-point iteration. *)

From S2P Require Import Prelude PyFloat Request FreeQueue BlockHash BlockPool KVCacheSpec SingleType CacheHit.

(** ** Data *)

(** [KVCacheGroupSpec]; the layer names play no role here. *)
Record KVCacheGroupSpec := mkGroup {
  group_spec : KVCacheSpec;
  is_eagle_group : bool
}.

(** [KVCacheConfig]: the number of blocks and the groups. *)
Record KVCacheConfig := mkConfig {
  num_blocks : Z;
  kv_cache_groups : list KVCacheGroupSpec
}.

(** The state of the subclasses: [UnitaryKVCacheCoordinator] and
    [HybridKVCacheCoordinator], whose [attention_groups] are the distinct
    specifications with the ids of their groups (the manager class is the one
    of the specification). *)
Inductive coord_kind :=
  | NoPrefixCache
  | Unitary (u_spec : KVCacheSpec) (u_block_size dcp_world_size pcp_world_size : Z)
  | Hybrid (h_hash_block_size : Z) (attention_groups : list (KVCacheSpec * list Z))
      (lcm_block_size : Z) (eagle_attn_group_indices : list nat).

Record Coordinator := mkCoord {
  config : KVCacheConfig;
  c_max_model_len : Z;
  c_enable_caching : bool;
  block_pool : BlockPool;
  eagle_group_ids : list Z;
  single_type_managers : list Manager;
  kind : coord_kind
}.

Definition set_managers (c : Coordinator) (p : BlockPool) (ms : list Manager) : Coordinator :=
  mkCoord (config c) (c_max_model_len c) (c_enable_caching c) p (eagle_group_ids c) ms (kind c).

(** ** Loops over the managers *)

(** [for i, manager in enumerate(self.single_type_managers): ...], where the
    body changes the manager and the shared pool and yields a value. *)
Fixpoint each_manager {A} (f : Z → BlockPool → Manager → res (BlockPool * Manager * A))
    (i : Z) (p : BlockPool) (ms : list Manager) : res (BlockPool * list Manager * list A) :=
  match ms with
  | [] => Ok (p, [], [])
  | m :: ms =>
      '(p, m, a) ← f i p m;
      '(p, ms, rest) ← each_manager f (i + 1) p ms;
      Ok (p, m :: ms, a :: rest)
  end.

(** The same for a body without a result. *)
Definition for_managers (f : Z → BlockPool → Manager → res (BlockPool * Manager))
    (c : Coordinator) : res Coordinator :=
  '(p, ms, _) ← each_manager (λ i p m, '(p, m) ← f i p m; Ok (p, m, tt)) 0
                  (block_pool c) (single_type_managers c);
  Ok (set_managers c p ms).

(** ** Construction *)

Fixpoint init_managers (p : BlockPool) (i : Z) (gs : list KVCacheGroupSpec)
    (max_num_batched_tokens max_model_len : Z) (enable_caching : bool) (dcp pcp : Z)
    : res (BlockPool * list Manager) :=
  match gs with
  | [] => Ok (p, [])
  | g :: gs =>
      '(p, m) ← get_manager_for_kv_cache_spec p (group_spec g) max_num_batched_tokens
                  max_model_len enable_caching i dcp pcp;
      '(p, ms) ← init_managers p (i + 1) gs max_num_batched_tokens max_model_len
                   enable_caching dcp pcp;
      Ok (p, m :: ms)
  end.

Definition init_eagle_group_ids (gs : list KVCacheGroupSpec) (use_eagle : bool) : list Z :=
  let ids := (λ ig : nat * KVCacheGroupSpec, Z.of_nat ig.1) <$>
               filter (λ ig, is_eagle_group ig.2 = true) (imap pair gs) in
  if use_eagle && is_nil ids then Z.of_nat <$> seq 0 (length gs) else ids.

(** The loop of [verify_and_split_kv_cache_groups]. *)
Fixpoint add_attention_group (groups : list (KVCacheSpec * list Z)) (spec : KVCacheSpec) (i : Z)
    : list (KVCacheSpec * list Z) :=
  match groups with
  | [] => [(spec, [i])]
  | (spec', ids) :: groups =>
      if bool_decide (spec' = spec) then (spec', ids ++ [i]) :: groups
      else (spec', ids) :: add_attention_group groups spec i
  end.

Definition verify_and_split_kv_cache_groups (gs : list KVCacheGroupSpec) (eagle_ids : list Z)
    : res (list (KVCacheSpec * list Z) * Z * list nat) :=
  let groups := foldl (λ groups ig, add_attention_group groups (group_spec ig.2) (Z.of_nat ig.1))
                  [] (imap pair gs) in
  py_assert (bool_decide (1 < length groups)%nat);;
  let attention_groups :=
    filter (λ g, is_full_attention g.1 = true) groups ++
    filter (λ g, is_full_attention g.1 = false) groups in
  let lcm_block_size := foldl Z.lcm 1 ((λ g, spec_block_size g.1) <$> groups) in
  let eagle_attn_group_indices :=
    (λ ig : nat * (KVCacheSpec * list Z), ig.1) <$>
      filter (λ ig, existsb (λ gid, bool_decide (gid ∈ eagle_ids)) ig.2.2 = true)
        (imap pair attention_groups) in
  Ok (attention_groups, lcm_block_size, eagle_attn_group_indices).

Definition init_kind (cfg : KVCacheConfig) (enable_caching : bool) (eagle_ids : list Z)
    (dcp pcp hash_block_size : Z) : res coord_kind :=
  if negb enable_caching then Ok NoPrefixCache
  else if bool_decide (length (kv_cache_groups cfg) = 1%nat) then
    g ← py_nth (kv_cache_groups cfg) 0;
    let bs := spec_block_size (group_spec g) in
    let bs := if bool_decide (1 < dcp) then bs * dcp else bs in
    let bs := if bool_decide (1 < pcp) then bs * pcp else bs in
    py_assert (bool_decide (hash_block_size = bs));;
    Ok (Unitary (group_spec g) bs dcp pcp)
  else
    py_assert (forallb (λ g, bool_decide (spec_block_size (group_spec g) `mod` hash_block_size = 0))
                 (kv_cache_groups cfg));;
    py_assert (bool_decide (dcp = 1));;
    py_assert (bool_decide (pcp = 1));;
    '(groups, l, eagle) ← verify_and_split_kv_cache_groups (kv_cache_groups cfg) eagle_ids;
    Ok (Hybrid hash_block_size groups l eagle).

Definition get_kv_cache_coordinator (cfg : KVCacheConfig)
    (max_model_len max_num_batched_tokens : Z)
    (use_eagle enable_caching enable_kv_cache_events : bool)
    (dcp pcp hash_block_size : Z) : res Coordinator :=
  p ← BlockPool_init (num_blocks cfg) enable_caching hash_block_size enable_kv_cache_events;
  let eagle_ids := init_eagle_group_ids (kv_cache_groups cfg) use_eagle in
  '(p, ms) ← init_managers p 0 (kv_cache_groups cfg) max_num_batched_tokens max_model_len
               enable_caching dcp pcp;
  k ← init_kind cfg enable_caching eagle_ids dcp pcp hash_block_size;
  Ok (mkCoord cfg max_model_len enable_caching p eagle_ids ms k).

(** ** Operations on a request *)

Definition is_cross (m : Manager) : bool :=
  match kv_cache_spec m with CrossAttentionSpec _ _ => true | _ => false end.

Section Coord.
Context {env : KVEnv}.

(** The body of the loop of [get_num_blocks_to_allocate]. *)
Definition manager_need (request_id : string) (num_tokens : Z)
    (new_computed_blocks : list (list block_ref))
    (num_encoder_tokens total_computed_tokens num_tokens_main_model : Z)
    (apply_admission_cap : bool) (i : Z) (p : BlockPool) (m : Manager)
    : res (BlockPool * Manager * Z) :=
  if is_cross m then
    '(m, n) ← get_num_blocks_to_allocate p m request_id num_encoder_tokens [] 0
                num_encoder_tokens apply_admission_cap;
    Ok (p, m, n)
  else
    bs ← py_nth new_computed_blocks i;
    '(m, n) ← get_num_blocks_to_allocate p m request_id num_tokens bs
                total_computed_tokens num_tokens_main_model apply_admission_cap;
    Ok (p, m, n).

Definition coord_get_num_blocks_to_allocate (c : Coordinator) (request_id : string)
    (num_tokens : Z) (new_computed_blocks : list (list block_ref))
    (num_encoder_tokens total_computed_tokens num_tokens_main_model : Z)
    (apply_admission_cap : bool) : res (Coordinator * Z) :=
  '(p, ms, ns) ←
    each_manager (manager_need request_id num_tokens new_computed_blocks num_encoder_tokens
                    total_computed_tokens num_tokens_main_model apply_admission_cap)
      0 (block_pool c) (single_type_managers c);
  Ok (set_managers c p ms, foldl Z.add 0 ns).

Definition coord_allocate_new_computed_blocks (c : Coordinator) (request_id : string)
    (new_computed_blocks : list (list block_ref))
    (num_local_computed_tokens num_external_computed_tokens : Z) : res Coordinator :=
  for_managers (λ i p m,
    bs ← py_nth new_computed_blocks i;
    allocate_new_computed_blocks p m request_id bs num_local_computed_tokens
      num_external_computed_tokens) c.

Definition coord_allocate_new_blocks (c : Coordinator) (request_id : string)
    (num_tokens num_tokens_main_model num_encoder_tokens : Z)
    : res (Coordinator * list (list block_ref)) :=
  '(p, ms, bs) ←
    each_manager (λ i p m,
      allocate_new_blocks p m request_id
        (if is_cross m then num_encoder_tokens else num_tokens) num_tokens_main_model)
      0 (block_pool c) (single_type_managers c);
  Ok (set_managers c p ms, bs).

Definition coord_cache_blocks (c : Coordinator) (request : Request) (num_computed_tokens : Z)
    : res Coordinator :=
  for_managers (λ _ p m, cache_blocks p m request num_computed_tokens) c.

Definition coord_free (c : Coordinator) (request_id : string) : res Coordinator :=
  for_managers (λ _ p m, free p m request_id) c.

Definition coord_get_num_common_prefix_blocks (c : Coordinator) (running_request_id : string)
    : res (Coordinator * list Z) :=
  match kind c with
  | NoPrefixCache => Ok (c, py_repeat 0 (zlen (single_type_managers c)))
  | _ =>
      '(p, ms, ns) ←
        each_manager (λ _ p m,
          let '(m, n) := get_num_common_prefix_blocks p m running_request_id in Ok (p, m, n))
          0 (block_pool c) (single_type_managers c);
      Ok (set_managers c p ms, ns)
  end.

Definition coord_remove_skipped_blocks (c : Coordinator) (request_id : string)
    (total_computed_tokens : Z) : res Coordinator :=
  for_managers (λ _ p m, remove_skipped_blocks p m request_id total_computed_tokens) c.

Definition get_blocks (c : Coordinator) (request_id : string) : list (list block_ref) :=
  (λ m, blocks_of m request_id) <$> single_type_managers c.

Definition coord_new_step_starts (c : Coordinator) : Coordinator :=
  set_managers c (block_pool c) (new_step_starts <$> single_type_managers c).
End Coord.

(** ** The longest cache hit *)

(** [_get_block_hashes]. *)
Definition group_hashes (block_hashes : list bytes) (hash_block_size : Z) (spec : KVCacheSpec)
    : res BlockHashList :=
  if bool_decide (spec_block_size spec = hash_block_size) then Ok (PlainHashes block_hashes)
  else BlockHashListWithBlockSize_init block_hashes hash_block_size (spec_block_size spec).

(** [for group_id, blocks in zip(group_ids, hit_blocks):
     hit_blocks_by_group[group_id] = blocks]. *)
Fixpoint assign_groups (by_group : list (option (list block_ref))) (ids : list Z)
    (hit_blocks : list (list block_ref)) : res (list (option (list block_ref))) :=
  match ids, hit_blocks with
  | i :: ids, bs :: hit_blocks =>
      if bool_decide (0 ≤ i < zlen by_group)
      then assign_groups (<[Z.to_nat i := Some bs]> by_group) ids hit_blocks
      else Raise IndexError
  | _, _ => Ok by_group
  end.

Record hit_state := mkHit {
  curr_hit_length : Z;
  hit_blocks_by_group : list (option (list block_ref));
  eagle_verified : list nat
}.

Section Hybrid.
Context (p : BlockPool) (block_hashes : list bytes) (hash_block_size max_cache_hit_length : Z)
        (lcm_block_size : Z) (eagle_idx : list nat).

(** The body of the [for] loop over the attention groups. *)
Definition hybrid_group (st : hit_state) (ig : nat * (KVCacheSpec * list Z)) : res hit_state :=
  let '(idx, (spec, group_ids)) := ig in
  g0 ← py_nth group_ids 0;
  cached_blocks ← py_nth (hit_blocks_by_group st) g0;
  if is_full_attention spec && is_some cached_blocks then
    Ok (mkHit (curr_hit_length st / spec_block_size spec * spec_block_size spec)
          (hit_blocks_by_group st) (eagle_verified st))
  else
    let use_eagle := bool_decide (idx ∈ eagle_idx) && negb (bool_decide (idx ∈ eagle_verified st)) in
    let _max_length := if use_eagle
      then Z.min (curr_hit_length st + spec_block_size spec) max_cache_hit_length
      else curr_hit_length st in
    hl ← group_hashes block_hashes hash_block_size spec;
    hit_blocks ← find_longest_cache_hit hl _max_length group_ids p spec use_eagle
                   lcm_block_size 1 1;
    b0 ← py_nth hit_blocks 0;
    let _new_hit_length := zlen b0 * spec_block_size spec in
    let verified :=
      if use_eagle then idx :: eagle_verified st
      else if bool_decide (_new_hit_length < curr_hit_length st) then []
      else eagle_verified st in
    by_group ← assign_groups (hit_blocks_by_group st) group_ids hit_blocks;
    Ok (mkHit _new_hit_length by_group verified).

(** The [while True] loop; [None] means that the fuel ran out. *)
Fixpoint hybrid_loop (fuel : nat) (groups : list (KVCacheSpec * list Z)) (simple : bool)
    (hit_length : Z) (by_group : list (option (list block_ref))) (verified : list nat)
    : option (res (list (option (list block_ref)) * Z)) :=
  match fuel with
  | O => None
  | S fuel =>
      match foldM hybrid_group (mkHit hit_length by_group verified) (imap pair groups) with
      | Raise e => Some (Raise e)
      | Ok st =>
          if bool_decide (hit_length ≤ curr_hit_length st)
          then Some (Ok (hit_blocks_by_group st, hit_length))
          else if simple then Some (Ok (hit_blocks_by_group st, curr_hit_length st))
          else hybrid_loop fuel groups simple (curr_hit_length st)
                 (hit_blocks_by_group st) (eagle_verified st)
      end
  end.
End Hybrid.

(** The truncation of the first attention group after the loop. *)
Definition truncate_full (groups : list (KVCacheSpec * list Z)) (hit_length : Z)
    (by_group : list (option (list block_ref))) : list (option (list block_ref)) :=
  match groups with
  | (spec, ids) :: _ =>
      if is_full_attention spec then
        foldl (λ by_group i, alter (fmap (λ bs, py_slice_to bs (hit_length / spec_block_size spec)))
                               (Z.to_nat i) by_group) by_group ids
      else by_group
  | [] => by_group
  end.

(** [find_longest_cache_hit] of the three classes.  The length strictly
    decreases with every iteration, so [max_cache_hit_length + 1] iterations are
    enough ([hybrid_hit_total]). *)
Definition coord_find_longest_cache_hit (c : Coordinator) (block_hashes : list bytes)
    (max_cache_hit_length : Z) : option (res (list (list block_ref) * Z)) :=
  match kind c with
  | NoPrefixCache => Some (Ok ((λ _, []) <$> single_type_managers c, 0))
  | Unitary spec bs dcp pcp => Some (
      hit_blocks ← find_longest_cache_hit (PlainHashes block_hashes) max_cache_hit_length [0]
                     (block_pool c) spec (bool_decide (0 ∈ eagle_group_ids c)) bs dcp pcp;
      b0 ← py_nth hit_blocks 0;
      Ok (hit_blocks, zlen b0 * bs))
  | Hybrid hbs groups l eagle =>
      let by_group := replicate (length (kv_cache_groups (config c))) None in
      let simple := bool_decide (length groups = 2%nat) &&
        match groups with (spec, _) :: _ => is_full_attention spec | [] => false end in
      r ← hybrid_loop (block_pool c) block_hashes hbs max_cache_hit_length l eagle
            (S (Z.to_nat max_cache_hit_length)) groups simple max_cache_hit_length by_group [];
      Some ('(by_group, hit_length) ← r;
            Ok ((λ o, default [] o) <$> truncate_full groups hit_length by_group, hit_length))
  end.
