(* ===== verification/CoordinatorSpec.v ===== *)
(** * Correctness of the coordinator

    The managers of all groups share one pool.  [CoordInv] says that the
    references of the pool are exactly the entries of all their tables; a loop
    over the managers keeps it because every step of one manager leaves the
    blocks of the others alone ([MgrStep]). *)

From S2P Require Import Prelude PyFloat Request FreeQueue BlockHash BlockPool KVCacheSpec SingleType CacheHit ManagerSpec Coordinator.

(** ** Sums *)

Lemma foldl_add_zsum l : ∀ a, foldl Z.add a l = a + zsum l.
Proof. induction l as [|x l IH]; intros a; cbn [foldl]; [cbn; lia|]. rewrite IH zsum_cons. lia. Qed.

(** A sum of numbers that are as expected or beyond a bound. *)
Lemma zsum_or G ns need :
  0 ≤ G → Forall2 (λ n n', 0 ≤ n' ∧ (n = n' ∨ G < n)) ns need →
  0 ≤ zsum ns ∧ (zsum ns = zsum need ∨ G < zsum ns).
Proof.
  intros HG. induction 1 as [|n n' ns need [Hn Hor] _ [IH0 IH]]; [by split; [|left]|].
  rewrite !zsum_cons. lia.
Qed.

Lemma zsum_le l1 l2 : Forall2 Z.le l1 l2 → zsum l1 ≤ zsum l2.
Proof. induction 1; [done|]. rewrite !zsum_cons. lia. Qed.

(** ** The invariant *)

Definition total_held (ms : list Manager) (b : block_ref) : Z :=
  foldr (λ m acc, held m b + acc) 0 ms.

Record CoordInv (p : BlockPool) (l : list block_ref) (ms : list Manager) : Prop := {
  ci_pool : PoolInv p l;
  ci_local : Forall (MgrLocal p) ms;
  ci_refs : ∀ b, pool_ref p b → b ≠ null_block p → refs p b = total_held ms b
}.

Lemma total_held_cons m ms b : total_held (m :: ms) b = held m b + total_held ms b.
Proof. done. Qed.

Lemma total_held_app ms1 ms2 b : total_held (ms1 ++ ms2) b = total_held ms1 b + total_held ms2 b.
Proof.
  induction ms1 as [|m ms1 IH]; [done|]. cbn [app]. rewrite !total_held_cons. lia.
Qed.

Lemma total_held_nonneg ms b : 0 ≤ total_held ms b.
Proof.
  induction ms as [|m ms IH]; [done|]. rewrite total_held_cons. pose proof (held_nonneg m b). lia.
Qed.

Lemma total_held_ge ms m b : m ∈ ms → held m b ≤ total_held ms b.
Proof.
  intros (l1 & l2 & ->)%list_elem_of_split. rewrite total_held_app total_held_cons.
  pose proof (total_held_nonneg l1 b). pose proof (total_held_nonneg l2 b). lia.
Qed.

Lemma held_zero m b : held m b = 0 ↔ ∀ id, b ∉ blocks_of m id.
Proof.
  split.
  - intros Hz id Hin%zcount_pos. pose proof (held_ge m id b). lia.
  - unfold held, blocks_of. generalize (req_to_blocks m). intros t.
    induction t as [|i bs t Hi Hf IH] using map_first_key_ind; intros Hall; [done|].
    rewrite map_fold_insert_L //; [|intros; lia].
    rewrite IH.
    + specialize (Hall i). rewrite lookup_insert_eq in Hall. cbn in Hall. apply zcount_0 in Hall. lia.
    + intros id. specialize (Hall id). destruct (decide (id = i)) as [->|Hne].
      * rewrite Hi. apply not_elem_of_nil.
      * by rewrite lookup_insert_ne in Hall.
Qed.

(** A block that no table points to is held by nobody. *)
Lemma total_held_zero ms b :
  total_held ms b = 0 ↔ ∀ m id, m ∈ ms → b ∉ blocks_of m id.
Proof.
  induction ms as [|m ms IH]; [set_solver|]. rewrite total_held_cons.
  pose proof (held_nonneg m b). pose proof (total_held_nonneg ms b). split.
  - intros Hz m' id [->|Hin]%elem_of_cons; [apply held_zero; lia|]. apply IH; [lia|done].
  - intros Hall. assert (held m b = 0) by (apply held_zero; set_solver).
    assert (total_held ms b = 0) by (apply IH; set_solver). lia.
Qed.

(** The state seen by one manager, the others being its surroundings. *)
Lemma CoordInv_mgr p l ms1 m ms2 :
  CoordInv p l (ms1 ++ m :: ms2) → MgrInv p l m (total_held (ms1 ++ ms2)).
Proof.
  intros [I HL HR]. apply Forall_app in HL as [_ HL]. apply Forall_cons in HL as [Hm _].
  split; [done|done|apply total_held_nonneg|]. intros b Hp Hn.
  rewrite HR // !total_held_app total_held_cons. lia.
Qed.

(** A manager that takes no part in a step keeps its local invariant. *)
Lemma MgrLocal_frame p p' m :
  pool_frame p p' →
  (∀ b, b ≠ null_block p → pool_ref p b → 0 < held m b → hsh p b = None → refs p b = 1 →
     hsh p' b = None ∧ refs p' b = 1) →
  MgrLocal p m → MgrLocal p' m.
Proof.
  intros F Hb [L1 L2 L3 L4 L5 L6 L7].
  split; rewrite ?(pf_null _ _ F) ?(pf_caching _ _ F) ?(pf_hbs _ _ F) //.
  intros id bs E. eapply table_ok_frame; [exact F| |by apply L6].
  intros b Hin Hn Hh H1. apply Hb; try done.
  - pose proof (to_pool _ _ _ (L6 _ _ E)) as Hp. rewrite Forall_forall in Hp. by apply Hp.
  - pose proof (held_ge m id b) as Hg. rewrite /blocks_of E in Hg. cbn in Hg.
    apply zcount_pos in Hin. lia.
Qed.

(** The step of one manager is a step of the coordinator. *)
Lemma CoordInv_step p l ms1 m ms2 p' l' m' :
  CoordInv p l (ms1 ++ m :: ms2) → MgrStep p m (total_held (ms1 ++ ms2)) p' l' m' →
  CoordInv p' l' (ms1 ++ m' :: ms2).
Proof.
  intros C [[I' HL' _ HR'] F FM HP]. pose proof (ci_local _ _ _ C) as HL.
  assert (∀ m2, m2 ∈ ms1 ++ ms2 → MgrLocal p m2 → MgrLocal p' m2) as Hothers.
  { intros m2 Hin. apply MgrLocal_frame; [done|]. intros b Hn Hp Hh Hnone H1.
    pose proof (total_held_ge _ _ b Hin). pose proof (held_nonneg m b).
    pose proof (ci_refs _ _ _ C b Hp Hn) as Hr.
    rewrite total_held_app total_held_cons in Hr. rewrite total_held_app in H.
    destruct (HP b) as [? ->]; try done; lia. }
  apply Forall_app in HL as [HL1 HL2]. apply Forall_cons in HL2 as [Hm HL2].
  split; [done| |].
  - apply Forall_app. split; [|constructor; [done|]]; apply Forall_forall; intros m2 Hin;
      (apply Hothers; [set_solver|]); by eapply Forall_forall in Hin; [|done].
  - intros b Hp Hn. rewrite HR' // !total_held_app total_held_cons. lia.
Qed.

(** ** Loops over the managers *)

Section Loop.
Context {env : KVEnv} {A : Type}.
Context (f : Z → BlockPool → Manager → res (BlockPool * Manager * A)).
(** [K i p l dn rest] is what holds before manager [i] is called, after the
    managers [dn] were; [Q i m m' a] is what the call of manager [i] does. *)
Context (K : Z → BlockPool → list block_ref → list Manager → list Manager → Prop).
Context (Q : Z → Manager → Manager → A → Prop).
Context (step : ∀ i p l dn m rest,
  CoordInv p l (dn ++ m :: rest) → K i p l dn (m :: rest) →
  ∃ p' l' m' a, f i p m = Ok (p', m', a) ∧ MgrStep p m (total_held (dn ++ rest)) p' l' m' ∧
    Q i m m' a ∧ K (i + 1) p' l' (dn ++ [m']) rest).

Lemma each_manager_spec ms : ∀ i p l dn,
  CoordInv p l (dn ++ ms) → K i p l dn ms →
  ∃ p' l' ms' rs, each_manager f i p ms = Ok (p', ms', rs) ∧ CoordInv p' l' (dn ++ ms') ∧
    pool_frame p p' ∧ Forall2 mgr_frame ms ms' ∧ K (i + zlen ms) p' l' (dn ++ ms') [] ∧
    (∀ j m m' a, ms !! j = Some m → ms' !! j = Some m' → rs !! j = Some a →
       Q (i + Z.of_nat j) m m' a) ∧
    length rs = length ms.
Proof.
  induction ms as [|m ms IH]; intros i p l dn C HK.
  { exists p, l, [], []. rewrite app_nil_r in C |- *. rewrite Z.add_0_r. by split_and!. }
  destruct (step i p l dn m ms C HK) as (p1 & l1 & m1 & a & E & S1 & HQ & HK1).
  pose proof (CoordInv_step _ _ _ _ _ _ _ _ C S1) as C1.
  destruct (IH (i + 1) p1 l1 (dn ++ [m1])) as (p2 & l2 & ms2 & rs & E2 & C2 & F2 & M2 & HK2 & HQ2 & Hlen).
  { by rewrite -app_assoc. } { done. }
  exists p2, l2, (m1 :: ms2), (a :: rs). rewrite -app_assoc in C2, HK2. cbn in C2, HK2. split_and!.
  - cbn [each_manager]. rewrite E. cbn [mbind res_bind]. by rewrite E2.
  - done.
  - etrans; [apply S1|done].
  - constructor; [apply S1|done].
  - by rewrite zlen_cons Z.add_assoc.
  - intros [|j] m0 m' a' H0 H1 H2; cbn in H0, H1, H2.
    + simplify_eq. by rewrite Z.add_0_r.
    + replace (i + Z.of_nat (S j)) with (i + 1 + Z.of_nat j) by lia. by eapply HQ2.
  - cbn. by rewrite Hlen.
Qed.
End Loop.

(** The pairs of managers before and after a loop with results. *)
Lemma rows_Forall2 {A} (Q : Manager → Manager → Prop) (ms ms' : list Manager) (rs : list A) :
  length ms = length ms' → length rs = length ms →
  (∀ j m m' a, ms !! j = Some m → ms' !! j = Some m' → rs !! j = Some a → Q m m') →
  Forall2 Q ms ms'.
Proof.
  intros Hl Hr HQ. apply Forall2_same_length_lookup. split; [done|].
  intros j m m' H1 H2. destruct (lookup_lt_is_Some_2 rs j) as [a Ha]; [|by eapply HQ].
  rewrite Hr. by apply lookup_lt_Some in H1.
Qed.

(** The loops without a result: every manager makes a step that satisfies [Q]. *)
Lemma for_managers_spec `{KVEnv} f (R : BlockPool → BlockPool → Prop) `{!PreOrder R}
    (Q : Manager → Manager → Prop) c l :
  (∀ i p l m ext, mgr_wf m → MgrInv p l m ext →
     m ∈ single_type_managers c → static p → pool_frame (block_pool c) p →
     ∃ p' l' m', f i p m = Ok (p', m') ∧ MgrStep p m ext p' l' m' ∧ zlen l ≤ zlen l' ∧ R p p' ∧
       Q m m') →
  CoordInv (block_pool c) l (single_type_managers c) → Forall mgr_wf (single_type_managers c) →
  ∃ c' l', for_managers f c = Ok c' ∧ CoordInv (block_pool c') l' (single_type_managers c') ∧
    pool_frame (block_pool c) (block_pool c') ∧ zlen l ≤ zlen l' ∧
    R (block_pool c) (block_pool c') ∧ Forall2 mgr_frame (single_type_managers c) (single_type_managers c') ∧
    Forall2 Q (single_type_managers c) (single_type_managers c') ∧
    c' = set_managers c (block_pool c') (single_type_managers c').
Proof.
  intros Hf C Hwf. set (p0 := block_pool c) in *.
  destruct (each_manager_spec (λ i p m, '(p, m) ← f i p m; Ok (p, m, tt))
    (λ _ p l' dn rest, pool_frame p0 p ∧ R p0 p ∧ zlen l ≤ zlen l' ∧
       Forall (λ m, mgr_wf m ∧ m ∈ single_type_managers c) rest)
    (λ _ m m' _, Q m m') ) with (ms := single_type_managers c) (i := 0) (p := p0) (l := l)
    (dn := @nil Manager) as (p' & l' & ms' & rs & E & C' & F & M & (_ & HR & Hl & _) & HQ & Hlen).
  - intros i p l1 dn m rest C1 (F1 & HR1 & Hl1 & Hr). apply Forall_cons in Hr as [[Hm Hin] Hr].
    pose proof (CoordInv_mgr _ _ _ _ _ C1) as Hinv.
    destruct (Hf i p l1 m _ Hm Hinv Hin) as (p' & l' & m' & E & S' & Hl' & HR' & HQ);
      [apply (pi_static _ _ (ci_pool _ _ _ C1))|done|].
    exists p', l', m', tt. rewrite E. split_and!; [done..| | |lia|done].
    + etrans; [exact F1|apply S'].
    + by etrans.
  - done.
  - split_and!; [reflexivity|reflexivity|done|]. apply Forall_forall. intros m Hin. split; [|done].
    by eapply Forall_forall in Hwf.
  - exists (set_managers c p' ms'), l'. unfold for_managers. fold p0. rewrite E.
    split_and!; try done. by apply (rows_Forall2 _ _ _ rs (Forall2_length _ _ _ M) Hlen).
Qed.

(** ** Operations *)

Record CoordOk (c : Coordinator) (l : list block_ref) : Prop := {
  co_inv : CoordInv (block_pool c) l (single_type_managers c);
  co_wf : Forall mgr_wf (single_type_managers c)
}.

(** What an operation keeps of the coordinator. *)
Record coord_frame (c c' : Coordinator) : Prop := {
  cf_pool : pool_frame (block_pool c) (block_pool c');
  cf_managers : Forall2 mgr_frame (single_type_managers c) (single_type_managers c');
  cf_set : c' = set_managers c (block_pool c') (single_type_managers c')
}.
#[export] Instance coord_frame_preorder : PreOrder coord_frame.
Proof.
  split.
  - intros c. split; [done|reflexivity|by destruct c].
  - intros c1 c2 c3 [F1 M1 E1] [F2 M2 E2]. split; [by etrans|by etrans|by rewrite E2 E1].
Qed.

Lemma Forall_wf_frame ms ms' : Forall2 mgr_frame ms ms' → Forall mgr_wf ms → Forall mgr_wf ms'.
Proof. induction 1; inversion 1; subst; constructor; [by eapply mgr_wf_frame|auto]. Qed.

(** An operation that leaves the hashes of the blocks alone. *)
Definition same_hashes (p p' : BlockPool) : Prop :=
  (∀ b, pool_ref p b ↔ pool_ref p' b) ∧ ∀ b, pool_ref p b → hsh p' b = hsh p b.
#[export] Instance same_hashes_preorder : PreOrder same_hashes.
Proof.
  split; [done|]. intros p1 p2 p3 [P1 H1] [P2 H2]. split; intros b; [by rewrite P1 P2|].
  intros Hb. rewrite H2; [by apply H1|by apply P1].
Qed.

Definition any_pool (p p' : BlockPool) : Prop := True.
#[export] Instance any_pool_preorder : PreOrder any_pool.
Proof. done. Qed.

(** The managers of two coordinators side by side. *)
Definition each (Q : Manager → Manager → Prop) (c c' : Coordinator) : Prop :=
  Forall2 Q (single_type_managers c) (single_type_managers c').

Lemma wf_not_cross m : mgr_wf m → is_cross m = false.
Proof.
  intros [[HP|HP] _ _]; revert HP; unfold is_cross; by destruct (kv_cache_spec m).
Qed.

Section CoordOps.
Context `{KVEnv}.

Lemma coord_for f (R : BlockPool → BlockPool → Prop) `{!PreOrder R} (Q : Manager → Manager → Prop) c l :
  (∀ i p l m ext, mgr_wf m → MgrInv p l m ext → m ∈ single_type_managers c →
     static p → pool_frame (block_pool c) p →
     ∃ p' l' m', f i p m = Ok (p', m') ∧ MgrStep p m ext p' l' m' ∧ zlen l ≤ zlen l' ∧ R p p' ∧
       Q m m') →
  CoordOk c l →
  ∃ c' l', for_managers f c = Ok c' ∧ CoordOk c' l' ∧ coord_frame c c' ∧ zlen l ≤ zlen l' ∧
    R (block_pool c) (block_pool c') ∧ each Q c c'.
Proof.
  intros Hf [C W]. destruct (for_managers_spec f R Q c l Hf C W) as (c' & l' & E & C' & F & Hl & HR & M & HQ & Ec).
  exists c', l'. split_and!; try done. split; [done|by eapply Forall_wf_frame].
Qed.

Lemma coord_free_spec c l id :
  CoordOk c l →
  ∃ c' l', coord_free c id = Ok c' ∧ CoordOk c' l' ∧ coord_frame c c' ∧ zlen l ≤ zlen l' ∧
    any_pool (block_pool c) (block_pool c') ∧
    each (λ m m', blocks_of m' id = [] ∧ has_cached m' id = false ∧ keeps_others id m m') c c'.
Proof.
  apply (coord_for _ any_pool). intros i p l1 m ext W Hinv _ _ _.
  destruct (mc_free p l1 m ext id (wf_supported _ W) Hinv) as (p' & m' & E & S' & Hr & Hn).
  eexists p', _, m'. split_and!; [done|exact S'| |done| | |].
  - rewrite zlen_app. pose proof (zlen_nonneg (filter (λ b, refs p b = 1 ∧ b ≠ null_block p)
      (reverse (blocks_of m id)))). lia.
  - by rewrite /blocks_of Hr lookup_delete_eq.
  - by rewrite /has_cached Hn lookup_delete_eq.
  - intros id' Hne. by rewrite /blocks_of Hr Hn !lookup_delete_ne.
Qed.

Lemma coord_remove_skipped_blocks_spec c l id total :
  CoordOk c l →
  ∃ c' l', coord_remove_skipped_blocks c id total = Ok c' ∧ CoordOk c' l' ∧ coord_frame c c' ∧
    zlen l ≤ zlen l' ∧ same_hashes (block_pool c) (block_pool c') ∧
    each (λ m m', zlen (blocks_of m' id) = zlen (blocks_of m id) ∧
                  num_cached_block m' = num_cached_block m ∧ keeps_others id m m') c c'.
Proof.
  apply (coord_for _ same_hashes). intros i p l1 m ext W Hinv _ _ _.
  destruct (mc_remove p l1 m ext id total (wf_supported _ W) Hinv) as (p' & m' & E & S' & Hb & Ho & Hn & Hh).
  eexists p', _, m'. split_and!; [done|exact S'| | | |done|].
  - rewrite zlen_app. match goal with |- _ ≤ _ + zlen ?x => pose proof (zlen_nonneg x) end. lia.
  - split; [|done]. intros b. symmetry. apply pool_frame_ref, S'.
  - rewrite Hb zlen_app /zlen length_replicate length_drop /num_skipped /zlen. lia.
  - intros id' Hne. by rewrite /blocks_of Ho // Hn.
Qed.

Lemma coord_cache_blocks_spec c l r num_tokens :
  CoordOk c l → enable_caching (block_pool c) = true → 0 ≤ num_tokens →
  (∀ m, m ∈ single_type_managers c →
     num_tokens / block_size m ≤ zlen (blocks_of m (request_id r)) ∧
     num_tokens / block_size m ≤ zlen (hashes_at (hash_block_size (block_pool c)) (block_size m) r)) →
  ∃ c' l', coord_cache_blocks c r num_tokens = Ok c' ∧ CoordOk c' l' ∧ coord_frame c c' ∧
    zlen l ≤ zlen l' ∧ any_pool (block_pool c) (block_pool c') ∧
    each (λ m m', blocks_of m' (request_id r) = blocks_of m (request_id r) ∧
                  keeps_others (request_id r) m m') c c'.
Proof.
  intros Ok0 Hc Hn Hm. revert Ok0. apply (coord_for _ any_pool). intros i p l1 m ext W Hinv Hin _ F.
  destruct (Hm m Hin) as [Hb Hh].
  destruct (mc_cache p l1 m ext r num_tokens (wf_supported _ W) Hinv) as (p' & m' & E & S' & Hb' & _ & Ho).
  { by rewrite (pf_caching _ _ F). } { done. } { done. } { by rewrite (pf_hbs _ _ F). }
  exists p', l1, m'. by split_and!.
Qed.

(** *** Admission *)

Lemma blocks_needed_nonneg p m id num_tokens bs total :
  0 ≤ blocks_needed p m id num_tokens bs total.
Proof.
  unfold blocks_needed, _get_num_evictable_blocks, zlen. destruct (has_cached m id); lia.
Qed.

(** The loop of [get_num_blocks_to_allocate] changes nothing. *)
Lemma manager_need_loop p id num_tokens enc total main cap ms : ∀ pre bss,
  Forall2 (λ m bs, mgr_wf m ∧ (has_cached m id = true → bs = [])) ms bss →
  ∃ ns, each_manager (manager_need id num_tokens (pre ++ bss) enc total main cap) (zlen pre) p ms
          = Ok (p, ms, ns) ∧
    (cap = false →
       Forall2 (λ n n', 0 ≤ n' ∧ (n = n' ∨ num_gpu_blocks p < n)) ns
         (zip_with (λ m bs, blocks_needed p m id num_tokens bs total) ms bss)).
Proof.
  induction ms as [|m ms IH]; intros pre bss Hall; inversion Hall as [|? bs ? bss' [Wm Hc] Hall']; subst.
  { exists []. by split. }
  pose proof (wf_not_cross _ Wm) as Hcr.
  destruct (mc_need p m id num_tokens bs total main cap) as (n & E & Hn); [apply Wm..|done|].
  destruct (IH (pre ++ [bs]) bss' Hall') as (ns & Ens & Hns).
  exists (n :: ns). split; [|intros Hf; constructor; [split; [apply blocks_needed_nonneg|]|]; auto].
  assert (manager_need id num_tokens (pre ++ bs :: bss') enc total main cap (zlen pre) p m
          = Ok (p, m, n)) as Em.
  { unfold manager_need. rewrite Hcr py_nth_middle. cbn [mbind res_bind]. by rewrite E. }
  cbn [each_manager]. rewrite Em. cbn [mbind res_bind].
  rewrite zlen_app -app_assoc in Ens. cbn [app] in Ens. change (zlen [bs]) with 1 in Ens. by rewrite Ens.
Qed.

(** The number of blocks a request asks for in all groups. *)
Definition total_needed (c : Coordinator) (id : string) (num_tokens : Z)
    (new_computed : list (list block_ref)) (total : Z) : Z :=
  zsum (zip_with (λ m bs, blocks_needed (block_pool c) m id num_tokens bs total)
          (single_type_managers c) new_computed).

Lemma coord_need_spec c id num_tokens new_computed enc total main cap :
  Forall2 (λ m bs, mgr_wf m ∧ (has_cached m id = true → bs = [])) (single_type_managers c) new_computed →
  0 ≤ num_gpu_blocks (block_pool c) →
  ∃ n, coord_get_num_blocks_to_allocate c id num_tokens new_computed enc total main cap = Ok (c, n) ∧
    (cap = false →
       n = total_needed c id num_tokens new_computed total ∨ num_gpu_blocks (block_pool c) < n).
Proof.
  intros Hall Hg. unfold coord_get_num_blocks_to_allocate.
  destruct (manager_need_loop (block_pool c) id num_tokens enc total main cap _ [] _ Hall) as (ns & E & Hns).
  change (zlen (@nil (list block_ref))) with 0 in E. cbn [app] in E. rewrite E. cbn [mbind res_bind].
  exists (zsum ns). rewrite foldl_add_zsum. split; [by destruct c|]. intros Hf. specialize (Hns Hf).
  by apply zsum_or.
Qed.

(** *** The hits of the groups that are still to come *)

(** A change of the pool that keeps hashes and only adds references. *)
Definition grows (p p' : BlockPool) : Prop :=
  static p ∧ pool_frame p p' ∧
  ∀ b, pool_ref p b → hsh p' b = hsh p b ∧ (b ≠ null_block p → 0 ≤ refs p b ≤ refs p' b).

Lemma evictable_grows p p' kept :
  grows p p' → Forall (pool_ref p) kept →
  _get_num_evictable_blocks p' kept ≤ _get_num_evictable_blocks p kept.
Proof.
  intros (St & F & Hb) Hp. unfold _get_num_evictable_blocks, zlen.
  induction Hp as [|b kept Hpb _ IH]; [done|].
  destruct (Hb b Hpb) as [_ Hr]. unfold refs in Hr. rewrite !filter_cons.
  destruct (static_id p b St Hpb) as (i & -> & _ & Hn). unfold nullb in Hn.
  replace (is_null (blk p' (Blk i))) with (is_null (blk p (Blk i))) by (symmetry; apply (pf_blocks _ _ F i)).
  destruct (decide (Blk i = null_block p)) as [He|He].
  { rewrite Hn bool_decide_true // !decide_False; [done|by intros []..]. }
  specialize (Hr He). do 2 goal_decide; cbn [length]; try lia.
  exfalso. match goal with H : ¬ _ |- _ => apply H end. split; [lia|tauto].
Qed.

Lemma new_request_grows p p' m id bs local external num_tokens :
  grows p p' → new_request p m id bs local external num_tokens →
  new_request p' m id bs local external num_tokens.
Proof.
  intros (_ & F & Hb) [R1 R2 [K1 K2 K3 K4] R4 R5 R6 R7]. split; try done. rewrite Forall_forall in K1.
  split; rewrite ?(pf_null _ _ F) //.
  - apply Forall_forall. intros x Hx. rewrite (pool_frame_ref _ _ _ F). by apply K1.
  - intros b Hin Hn. destruct (Hb b (K1 b Hin)) as [-> _]. by apply K4.
Qed.

Lemma blocks_needed_grows p p' m id bs local external num_tokens :
  grows p p' → new_request p m id bs local external num_tokens →
  blocks_needed p' m id num_tokens bs (local + external) ≤
  blocks_needed p m id num_tokens bs (local + external).
Proof.
  intros G [R1 R2 [K1 _ _ _] _ _ _ _]. unfold blocks_needed. rewrite R1 R2.
  change (zlen (@nil block_ref)) with 0. rewrite Z.sub_0_r py_slice_from_drop; [|lia].
  pose proof (evictable_grows p p' _ G K1). unfold skip_blocks in *. lia.
Qed.

(** *** The two phases of an allocation *)

Definition sum_alloc (ms : list Manager) (id : string) (num_tokens : Z) : Z :=
  zsum ((λ m, alloc_need m id num_tokens) <$> ms).

Lemma sum_alloc_cons m ms id n : sum_alloc (m :: ms) id n = alloc_need m id n + sum_alloc ms id n.
Proof. done. Qed.

Lemma sum_alloc_nonneg ms id n : 0 ≤ sum_alloc ms id n.
Proof. apply zsum_nonneg, Forall_fmap, Forall_true. intros m. cbn. unfold alloc_need. lia. Qed.

Lemma sum_needed_nonneg p id n total ms bss :
  0 ≤ zsum (zip_with (λ m bs, blocks_needed p m id n bs total) ms bss).
Proof.
  apply zsum_nonneg. revert bss. induction ms as [|m ms IH]; intros [|bs bss]; cbn; constructor; [|done].
  apply blocks_needed_nonneg.
Qed.

(** A request that is new in every group.  With tokens of a connector there
    may be only one group: otherwise the blocks for them could be taken from
    the hits of a later group. *)
Record coord_new_request (c : Coordinator) (id : string) (new_computed : list (list block_ref))
    (local external num_tokens : Z) : Prop := {
  cn_groups : Forall2 (λ m bs, new_request (block_pool c) m id bs local external num_tokens)
    (single_type_managers c) new_computed;
  cn_external : (1 < length (single_type_managers c))%nat → external = 0
}.

(** The state of the loop of [allocate_new_computed_blocks]. *)
Definition computed_state (id : string) (new_computed : list (list block_ref))
    (local external num_tokens : Z) (i : Z) (p : BlockPool) (l : list block_ref)
    (dn rest : list Manager) : Prop :=
  ∃ pre bss, new_computed = pre ++ bss ∧ i = zlen pre ∧
    Forall2 (λ m bs, mgr_wf m ∧ new_request p m id bs local external num_tokens) rest bss ∧
    ((1 < length rest)%nat → external = 0) ∧
    sum_alloc dn id num_tokens +
    zsum (zip_with (λ m bs, blocks_needed p m id num_tokens bs (local + external)) rest bss) ≤ zlen l.

Lemma external_need_0 m bs local : external_need m bs local 0 = 0.
Proof.
  unfold external_need, external_tokens. rewrite bool_decide_false //.
  goal_bool as Hs; lia.
Qed.

(** Moving the loop past one manager. *)
Lemma computed_state_step id pre bs bss local external num_tokens p l dn m rest p' l' m' :
  CoordInv p l (dn ++ m :: rest) → pool_frame p p' →
  Forall2 (λ m bs, mgr_wf m ∧ new_request p m id bs local external num_tokens) rest bss →
  ((1 < length (m :: rest))%nat → external = 0) →
  (external_need m bs local external = 0 →
     ∀ b, pool_ref p b → hsh p' b = hsh p b ∧ refs p b ≤ refs p' b) →
  alloc_need m' id num_tokens + (zlen l - zlen l') =
    blocks_needed p m id num_tokens bs (local + external) →
  sum_alloc dn id num_tokens + zsum (zip_with (λ m bs, blocks_needed p m id num_tokens bs (local + external))
    (m :: rest) (bs :: bss)) ≤ zlen l →
  computed_state id (pre ++ bs :: bss) local external num_tokens (zlen pre + 1) p' l' (dn ++ [m']) rest.
Proof.
  intros C F Hall Hext Hsame Hneed Hsum. exists (pre ++ [bs]), bss.
  rewrite -app_assoc zlen_app. cbn [app]. split; [done|]. split; [done|].
  cbn [zip_with] in Hsum. rewrite zsum_cons in Hsum.
  unfold sum_alloc in *. rewrite fmap_app zsum_app. cbn [fmap list_fmap]. rewrite zsum_cons.
  change (zsum []) with 0.
  destruct rest as [|m2 rest].
  { inversion Hall; subst. cbn in *. split_and!; [constructor|lia|lia]. }
  assert (external = 0) as -> by (apply Hext; cbn; lia).
  assert (grows p p') as G.
  { split; [apply (pi_static _ _ (ci_pool _ _ _ C))|]. split; [done|]. intros b Hb.
    destruct (Hsame (external_need_0 m bs local) b Hb) as [Hh Hr]. split; [done|]. intros Hn.
    rewrite (ci_refs _ _ _ C b Hb Hn) in Hr |- *.
    pose proof (total_held_nonneg (dn ++ m :: m2 :: rest) b). lia. }
  split_and!; [|done|].
  - eapply Forall2_impl; [exact Hall|]. intros m3 bs3 [W3 R3]. split; [done|].
    by eapply new_request_grows.
  - assert (zsum (zip_with (λ m bs, blocks_needed p' m id num_tokens bs (local + 0)) (m2 :: rest) bss) ≤
            zsum (zip_with (λ m bs, blocks_needed p m id num_tokens bs (local + 0)) (m2 :: rest) bss)).
    { apply zsum_le. clear -G Hall. revert Hall. generalize (m2 :: rest). intros ms Hall.
      induction Hall as [|m3 bs3 ms bss [_ R3] _ IH]; cbn; constructor; [|done].
      by eapply blocks_needed_grows. }
    lia.
Qed.

Lemma coord_computed_spec c l id new_computed local external num_tokens :
  CoordOk c l → coord_new_request c id new_computed local external num_tokens →
  total_needed c id num_tokens new_computed (local + external) ≤ zlen l →
  ∃ c' l', coord_allocate_new_computed_blocks c id new_computed local external = Ok c' ∧
    CoordOk c' l' ∧ coord_frame c c' ∧ sum_alloc (single_type_managers c') id num_tokens ≤ zlen l' ∧
    each (keeps_others id) c c'.
Proof.
  intros [C W] [Hgr Hext] Hneed. unfold coord_allocate_new_computed_blocks, for_managers.
  destruct (each_manager_spec (λ i p m,
      '(p, m) ← (bs ← py_nth new_computed i;
                 allocate_new_computed_blocks p m id bs local external); Ok (p, m, tt))
    (computed_state id new_computed local external num_tokens) (λ _ m m' _, keeps_others id m m'))
    with (ms := single_type_managers c) (i := 0) (p := block_pool c) (l := l) (dn := @nil Manager)
    as (p' & l' & ms' & rs & E & C' & F & M & HK & HQ & Hlen).
  - intros i p l1 dn m rest C1 (pre & bss & -> & -> & Hall & He & Hsum).
    inversion Hall as [|? bs ? bss' [Wm Rm] Hall']; subst.
    rewrite py_nth_middle. cbn [mbind res_bind].
    destruct (computed_phase p l1 m (total_held (dn ++ rest)) id bs local external num_tokens)
      as (p' & l' & m' & E & S' & Hn & Ho & Hs); [done|by apply CoordInv_mgr|done| |].
    { cbn [zip_with] in Hsum. rewrite zsum_cons in Hsum. pose proof (sum_alloc_nonneg dn id num_tokens).
      pose proof (sum_needed_nonneg p id num_tokens (local + external) rest bss'). lia. }
    exists p', l', m', tt. rewrite E. split_and!; [done..|].
    eapply computed_state_step; [exact C1|apply S'|done..].
  - done.
  - exists [], new_computed. split_and!; [done..| |done|].
    + clear -Hgr W. induction Hgr; inversion W; subst; constructor; auto.
    + unfold total_needed in Hneed. cbn. lia.
  - rewrite E. cbn [mbind res_bind]. exists (set_managers c p' ms'), l'.
    destruct HK as (pre & bss & _ & _ & _ & _ & Hsum). split_and!; [done|..].
    + split; [done|]. by eapply Forall_wf_frame.
    + by split.
    + cbn [app zip_with] in Hsum. change (zsum []) with 0 in Hsum. cbn [single_type_managers set_managers]. lia.
    + by apply (rows_Forall2 _ _ _ rs (Forall2_length _ _ _ M) Hlen).
Qed.

Lemma coord_alloc_spec c l id num_tokens main enc :
  CoordOk c l → sum_alloc (single_type_managers c) id num_tokens ≤ zlen l →
  ∃ c' l' bss, coord_allocate_new_blocks c id num_tokens main enc = Ok (c', bss) ∧
    CoordOk c' l' ∧ coord_frame c c' ∧
    zlen l' = zlen l - sum_alloc (single_type_managers c) id num_tokens ∧
    Forall2 (λ m bs, bs `suffix_of` blocks_of m id) (single_type_managers c') bss ∧
    each (λ m m', keeps_others id m m' ∧ num_tokens ≤ zlen (blocks_of m' id) * block_size m ∧
                  blocks_of m id `prefix_of` blocks_of m' id) c c'.
Proof.
  intros [C W] Hneed. unfold coord_allocate_new_blocks.
  destruct (each_manager_spec (λ i p m, allocate_new_blocks p m id
      (if is_cross m then enc else num_tokens) main)
    (λ _ _ l' dn rest, Forall mgr_wf rest ∧ sum_alloc rest id num_tokens ≤ zlen l' ∧
       zlen l' - sum_alloc rest id num_tokens =
       zlen l - sum_alloc (single_type_managers c) id num_tokens)
    (λ _ m m' new, keeps_others id m m' ∧ num_tokens ≤ zlen (blocks_of m' id) * block_size m ∧
       blocks_of m' id = blocks_of m id ++ new))
    with (ms := single_type_managers c) (i := 0) (p := block_pool c) (l := l) (dn := @nil Manager)
    as (p' & l' & ms' & rs & E & C' & F & M & (_ & _ & Hl) & HQ & Hlen).
  - intros i p l1 dn m rest C1 (HW & Hsum & Heq). apply Forall_cons in HW as [Wm HW].
    rewrite sum_alloc_cons in Hsum, Heq. pose proof (sum_alloc_nonneg rest id num_tokens).
    rewrite (wf_not_cross _ Wm).
    destruct (alloc_phase p l1 m (total_held (dn ++ rest)) id num_tokens main)
      as (p' & l' & m' & new & E & S' & Hl' & Hb & Hn & Ho & Hcov); [apply Wm|by apply CoordInv_mgr|lia|].
    exists p', l', m', new. split_and!; [done..|lia|lia].
  - done.
  - done.
  - rewrite E. cbn [mbind res_bind]. exists (set_managers c p' ms'), l', rs. split_and!; [done|..].
    + split; [done|]. by eapply Forall_wf_frame.
    + by split.
    + change (sum_alloc [] id num_tokens) with 0 in Hl. lia.
    + pose proof (Forall2_length _ _ _ M) as HlM. apply Forall2_same_length_lookup.
      cbn. split; [lia|]. intros j m' new Hm' Hnew.
      destruct (lookup_lt_is_Some_2 (single_type_managers c) j) as [m Hm].
      { apply lookup_lt_Some in Hm'. lia. }
      destruct (HQ j m m' new Hm Hm' Hnew) as (_ & _ & ->). by eexists.
    + apply (rows_Forall2 _ _ _ rs (Forall2_length _ _ _ M) Hlen). intros j m m' new H1 H2 H3.
      destruct (HQ j m m' new H1 H2 H3) as (? & ? & E'). split_and!; [done..|]. rewrite E'. by eexists.
Qed.
End CoordOps.

(** ** Construction *)

(** A group that does not take blocks for itself when it is set up. *)
Definition plain_spec (spec : KVCacheSpec) : Prop :=
  supported_spec spec ∧ window_positive spec ∧ 0 < spec_block_size spec ∧
  match spec with SinkFullAttentionSpec _ _ _ _ => False | _ => True end.

(** The conditions under which the constructors do not raise. *)
Record config_ok (cfg : KVCacheConfig) (caching : bool) (dcp pcp hbs : Z) : Prop := {
  cfg_blocks : 0 < num_blocks cfg;
  cfg_groups : Forall (λ g, plain_spec (group_spec g)) (kv_cache_groups cfg);
  cfg_ids : zlen (kv_cache_groups cfg) ≤ 2 ^ 32;
  cfg_world : 0 < dcp ∧ 0 < pcp;
  cfg_mamba : ∀ g, g ∈ kv_cache_groups cfg → is_mamba (group_spec g) = true → dcp * pcp = 1;
  cfg_hash : caching = true → 0 < hbs ∧
    ((∃ g, kv_cache_groups cfg = [g] ∧ hbs = spec_block_size (group_spec g) * (dcp * pcp)) ∨
     ((∃ g g', g ∈ kv_cache_groups cfg ∧ g' ∈ kv_cache_groups cfg ∧ group_spec g ≠ group_spec g') ∧
      (∀ g, g ∈ kv_cache_groups cfg → spec_block_size (group_spec g) `mod` hbs = 0) ∧
      dcp = 1 ∧ pcp = 1))
}.

Lemma init_managers_ok p B L caching dcp pcp gs : ∀ i,
  Forall (λ g, plain_spec (group_spec g)) gs →
  ∃ ms, init_managers p i gs B L caching dcp pcp = Ok (p, ms) ∧
    length ms = length gs ∧
    ∀ j m, ms !! j = Some m → ∃ g, gs !! j = Some g ∧
      m = Manager_init p (group_spec g) caching (i + Z.of_nat j) dcp pcp
            (max_admission_blocks_per_request (group_spec g) B L).
Proof.
  induction gs as [|g gs IH]; intros i Hgs; [by exists []|].
  apply Forall_cons in Hgs as [(_ & _ & _ & Hg) Hgs].
  destruct (IH (i + 1) Hgs) as (ms & E & Hlen & Hms).
  exists (Manager_init p (group_spec g) caching i dcp pcp
            (max_admission_blocks_per_request (group_spec g) B L) :: ms). split; [|split].
  - cbn [init_managers]. unfold get_manager_for_kv_cache_spec.
    destruct (group_spec g); try done; cbn [mbind res_bind]; by rewrite E.
  - cbn. by rewrite Hlen.
  - intros [|j] m Hj; cbn in Hj.
    + injection Hj as <-. exists g. split; [done|]. f_equal. lia.
    + destruct (Hms j m Hj) as (g' & Hg' & ->). exists g'. split; [done|]. f_equal. lia.
Qed.

Lemma total_held_new ms b : (∀ m, m ∈ ms → req_to_blocks m = ∅) → total_held ms b = 0.
Proof.
  induction ms as [|m ms IH]; intros Hms; [done|]. rewrite total_held_cons IH; [|set_solver].
  unfold held. rewrite Hms; [|set_solver]. done.
Qed.

(** Distinct specifications end up in distinct attention groups. *)
Lemma add_attention_group_specs groups spec i s :
  s ∈ (add_attention_group groups spec i).*1 ↔ s = spec ∨ s ∈ groups.*1.
Proof.
  induction groups as [|[s' ids] groups IH]; cbn; [set_solver|].
  goal_bool as Hs; cbn; set_solver.
Qed.

Lemma attention_groups_specs (gs : list KVCacheGroupSpec) : ∀ k groups s,
  s ∈ (foldl (λ groups (ig : nat * KVCacheGroupSpec),
          add_attention_group groups (group_spec ig.2) (Z.of_nat ig.1))
         groups (imap (λ j g, ((k + j)%nat, g)) gs)).*1
  ↔ s ∈ groups.*1 ∨ ∃ g, g ∈ gs ∧ group_spec g = s.
Proof.
  induction gs as [|g gs IH]; intros k groups s; cbn; [set_solver|].
  replace (imap ((λ j g, ((k + j)%nat, g)) ∘ S) gs) with (imap (λ j g, ((S k + j)%nat, g)) gs)
    by (apply imap_ext; intros; cbn; f_equal; lia).
  rewrite IH add_attention_group_specs. set_solver.
Qed.

Lemma two_in_list {A} (l : list A) x y : x ∈ l → y ∈ l → x ≠ y → (1 < length l)%nat.
Proof.
  destruct l as [|a [|b l]]; cbn; [set_solver| |lia]. rewrite !list_elem_of_singleton. congruence.
Qed.

Lemma init_kind_ok cfg caching eagle dcp pcp hbs :
  config_ok cfg caching dcp pcp hbs → ∃ k, init_kind cfg caching eagle dcp pcp hbs = Ok k.
Proof.
  intros [_ _ _ [Hd Hp] _ Hh]. unfold init_kind. destruct caching; cbn [negb]; [|by eexists].
  destruct (Hh eq_refl) as [_ [(g & -> & ->)|((g & g' & Hg & Hg' & Hne) & Hmod & -> & ->)]].
  - cbn. rewrite (bool_decide_true (1%nat = 1%nat)) //. rewrite (py_nth_ok _ 0 g) //. cbn [mbind res_bind].
    rewrite (bool_decide_true (_ * _ = _)); [by eexists|].
    goal_bool as H1; goal_bool as H2; try (assert (dcp = 1) as -> by lia);
      try (assert (pcp = 1) as -> by lia); ring.
  - pose proof (two_in_list _ g g' Hg Hg' ltac:(congruence)) as Hlen.
    rewrite (bool_decide_false (length _ = _)); [|lia].
    replace (forallb _ _) with true; last first.
    { symmetry. apply Is_true_true, forallb_True, Forall_forall. intros x Hx.
      apply bool_decide_pack. by apply Hmod. }
    cbn [py_assert mbind res_bind]. unfold verify_and_split_kv_cache_groups.
    rewrite (bool_decide_true (1 < _)%nat); [by eexists|].
    rewrite -(length_fmap fst). apply (two_in_list _ (group_spec g) (group_spec g')); [..|done];
      apply (attention_groups_specs _ 0); right; eexists; (split; [|reflexivity]); done.
Qed.

Lemma get_kv_cache_coordinator_ok cfg L B eagle caching events dcp pcp hbs :
  config_ok cfg caching dcp pcp hbs →
  ∃ c l, get_kv_cache_coordinator cfg L B eagle caching events dcp pcp hbs = Ok c ∧
    CoordOk c l ∧ zlen l = num_blocks cfg - 1 ∧
    length (single_type_managers c) = length (kv_cache_groups cfg) ∧
    enable_caching (block_pool c) = caching ∧
    (∀ id, Forall (λ bs, bs = []) (get_blocks c id)).
Proof.
  intros HC. pose proof HC as [Hn Hgs Hids [Hd Hp] Hmamba Hh]. unfold get_kv_cache_coordinator.
  destruct (BlockPool_init_spec (num_blocks cfg) caching hbs events Hn)
    as (p & -> & I & Hnum & Hc & Hhb & _ & _ & H0). cbn [mbind res_bind].
  destruct (init_managers_ok p B L caching dcp pcp _ 0 Hgs) as (ms & -> & Hlen & Hms).
  cbn [mbind res_bind].
  destruct (init_kind_ok cfg caching (init_eagle_group_ids (kv_cache_groups cfg) eagle) dcp pcp hbs HC)
    as [k ->]. cbn [mbind res_bind].
  assert (∀ m, m ∈ ms → req_to_blocks m = ∅) as Hempty.
  { intros m (j & Hj)%list_elem_of_lookup. by destruct (Hms j m Hj) as (g & _ & ->). }
  eexists _, _. split; [done|]. split_and!; [split; [split|]| |done|done|]; cbn [block_pool single_type_managers].
  - exact I.
  - apply Forall_lookup. intros j m Hj. destruct (Hms j m Hj) as (g & Hg & ->).
    pose proof (Forall_lookup_1 _ _ _ _ Hgs Hg) as (HS & HW & Hbs & _).
    rewrite -Hc. eapply mi_local, Manager_init_inv; try done.
    + intros b Hb _. by apply H0.
    + apply lookup_lt_Some in Hg. unfold valid_group_id, zlen in *. lia.
    + rewrite Hc Hhb. intros Hct. destruct (Hh Hct) as [Hh0 Hor]. split; [done|]. cbn.
      destruct Hor as [(g' & Eg & ->)|(_ & Hmod & -> & ->)].
      * rewrite Eg in Hg. destruct j as [|j]; [|done]. injection Hg as ->.
        goal_bool as Hw; [by apply Z_mod_same_full|].
        assert (dcp * pcp = 1) as -> by nia. rewrite Z.mul_1_r. by apply Z_mod_same_full.
      * apply Hmod. by eapply list_elem_of_lookup_2.
  - intros b Hb Hne. rewrite total_held_new //. by apply H0.
  - apply Forall_lookup. intros j m Hj. destruct (Hms j m Hj) as (g & Hg & ->).
    pose proof (Forall_lookup_1 _ _ _ _ Hgs Hg) as (HS & HW & Hbs & _). split; [done|done|].
    intros Hmb. cbn in *. rewrite (Hmamba g) //. by eapply list_elem_of_lookup_2.
  - unfold zlen. rewrite length_fmap length_seq. lia.
  - intros id. unfold get_blocks. apply Forall_fmap, Forall_forall. intros m Hm.
    cbn. by rewrite /blocks_of Hempty.
Qed.

(** A new coordinator satisfies the invariant.  For a configuration whose
    groups are set up consistently, [get_kv_cache_coordinator] returns a
    coordinator with one manager per group in which no request holds a block
    and all blocks but the null block are free. *)
Theorem coordinator_starts_ok cfg L B eagle caching events dcp pcp hbs :
  config_ok cfg caching dcp pcp hbs →
  ∃ c l, get_kv_cache_coordinator cfg L B eagle caching events dcp pcp hbs = Ok c ∧
    CoordOk c l ∧ zlen l = num_blocks cfg - 1 ∧
    length (single_type_managers c) = length (kv_cache_groups cfg) ∧
    (∀ id, Forall (λ bs, bs = []) (get_blocks c id)).
Proof.
  intros HC. destruct (get_kv_cache_coordinator_ok cfg L B eagle caching events dcp pcp hbs HC)
    as (c & l & ? & ? & ? & ? & _ & ?). by exists c, l.
Qed.

(** ** Concrete runs *)

Definition two_groups : KVCacheConfig :=
  mkConfig 9 [mkGroup (FullAttentionSpec 2 sample_attn (mkFull 64 None None)) false;
              mkGroup (SlidingWindowSpec 2 sample_attn 64 8) false].

(** Two requests run and finish: ["r"], whose block of two tokens is cached in
    both groups, before ["s"].  Then a request ["t"] with the same first block
    is admitted with two tokens from the cache and two from a connector.  The
    result is the number of blocks it asks for, the number of free blocks, and
    its tables. *)
Definition admit_with_connector : res (Z * Z * list (list block_ref)) :=
  c ← get_kv_cache_coordinator two_groups 64 64 false true false 1 1 2;
  '(c, _) ← coord_allocate_new_blocks c "r" 2 2 0;
  c ← coord_cache_blocks c sample_cached_request 2;
  '(c, _) ← coord_allocate_new_blocks c "s" 6 6 0;
  c ← coord_free c "r";
  c ← coord_free c "s";
  match coord_find_longest_cache_hit c (block_hashes sample_cached_request) 3 with
  | Some (Ok (hits, n)) =>
      let free := get_num_free_blocks (block_pool c) in
      '(c, need) ← coord_get_num_blocks_to_allocate c "t" 4 hits 0 (n + 2) 4 false;
      c ← coord_allocate_new_computed_blocks c "t" hits n 2;
      Ok (need, free, get_blocks c "t")
  | _ => Raise AssertionError
  end.

(** Tokens of a connector can overwrite the hits of a later group.  The
    groups are served one after the other, and the first one takes new blocks
    for the connector's tokens before the hits of the second are touched.  Here
    the request needs 4 of 8 free blocks, yet block 2, the hit of the sliding
    window group, is given to the full attention group as a new block, so that
    the two groups share it. *)
Theorem connector_blocks_take_hits :
  admit_with_connector = Ok (4, 8, [[Blk 1; Blk 2]; [Blk 2; Blk 5]]).
Proof. vm_compute. reflexivity. Qed.

Lemma two_groups_ok : config_ok two_groups true 1 1 2.
Proof.
  split; try done.
  - repeat constructor; by left.
  - intros _. split; [done|]. right. split; [|split; [|done]].
    + eexists _, _. cbn. split; [by left|]. split; [by right; left|done].
    + intros g Hg. cbn in Hg.
      by repeat (apply elem_of_cons in Hg as [->|Hg]; [done|]); apply not_elem_of_nil in Hg.
Qed.

Lemma coordinator_starts_ok_witness :
  ∃ c l, get_kv_cache_coordinator two_groups 64 64 false true false 1 1 2 = Ok c ∧
    CoordOk c l ∧ zlen l = 8 ∧ length (single_type_managers c) = 2%nat ∧
    (∀ id, Forall (λ bs, bs = []) (get_blocks c id)).
Proof. apply (coordinator_starts_ok two_groups 64 64 false true false 1 1 2). exact two_groups_ok. Defined.
