(* ===== verification/HybridHit.v ===== *)
(** * The cache hit of several groups

    [HybridKVCacheCoordinator.find_longest_cache_hit] shrinks a candidate length
    until every attention group accepts it.  The iteration ends, and when at
    most one attention group is full attention (it comes first), every group
    ends up with exactly the blocks of the common hit. *)

From S2P Require Import Prelude PyFloat Request FreeQueue BlockHash BlockPool KVCacheSpec SingleType CacheHit Coordinator.

(** ** Rows of the table of hits *)

(** The lists of the groups [ids], in order. *)
Definition row (by_group : list (option (list block_ref))) (ids : list Z)
    (cols : list (list block_ref)) : Prop :=
  Forall2 (λ i c, by_group !! Z.to_nat i = Some (Some c)) ids cols.

(** No list was found for the groups [ids] yet. *)
Definition row_none (by_group : list (option (list block_ref))) (ids : list Z) : Prop :=
  Forall (λ i, by_group !! Z.to_nat i = Some None) ids.

Lemma assign_groups_spec ids : ∀ by_group cols,
  Forall (λ i, 0 ≤ i < zlen by_group) ids → NoDup ids → length ids = length cols →
  ∃ by', assign_groups by_group ids cols = Ok by' ∧ length by' = length by_group ∧
    row by' ids cols ∧
    (∀ n, (∀ i, i ∈ ids → Z.to_nat i ≠ n) → by' !! n = by_group !! n).
Proof.
  induction ids as [|i ids IH]; intros by_group [|c cols] Hin Hnd Hlen; try done.
  { exists by_group. split_and!; try done. constructor. }
  apply Forall_cons in Hin as [Hi Hin]. apply NoDup_cons in Hnd as [Hni Hnd].
  cbn [assign_groups]. rewrite bool_decide_true //.
  destruct (IH (<[Z.to_nat i := Some c]> by_group) cols) as (by' & E & Hl & Hr & Ho).
  { unfold zlen in *. by rewrite length_insert. } { done. } { by injection Hlen. }
  exists by'. rewrite E. rewrite length_insert in Hl. split_and!; [done|done| |].
  - constructor; [|done]. rewrite Ho.
    + rewrite list_lookup_insert_eq //. unfold zlen in Hi. lia.
    + intros i' Hi'. rewrite Forall_forall in Hin. specialize (Hin i' Hi'). cbn in Hin.
      destruct (decide (i' = i)) as [->|]; [done|]. lia.
  - intros n Hn. rewrite Ho; [|intros; apply Hn; by right].
    rewrite list_lookup_insert_ne //. apply Hn. by left.
Qed.

(** A row survives the assignment of other groups. *)
Lemma row_other by_group by' ids cols :
  (∀ i, i ∈ ids → by' !! Z.to_nat i = by_group !! Z.to_nat i) →
  row by_group ids cols → row by' ids cols.
Proof.
  intros Ho Hr. apply Forall2_same_length_lookup. apply Forall2_same_length_lookup in Hr as [Hl Hr].
  split; [done|]. intros j i c Hi Hc. rewrite Ho; [by eapply Hr|]. by eapply list_elem_of_lookup_2.
Qed.

Lemma row_none_other by_group by' ids :
  (∀ i, i ∈ ids → by' !! Z.to_nat i = by_group !! Z.to_nat i) →
  row_none by_group ids → row_none by' ids.
Proof.
  unfold row_none. rewrite !Forall_forall. intros Ho Hr i Hi. rewrite Ho //. by apply Hr.
Qed.

(** ** One attention group *)

Section Hybrid.
Context (p : BlockPool) (r : Request) (M al : Z) (eagle_idx : list nat) (N : nat).
Context (groups : list (KVCacheSpec * list Z)).
#[local] Abbreviation hbs := (hash_block_size p).

(** The hashes of the request in blocks of the group. *)
Definition group_hs (spec : KVCacheSpec) : list bytes := hashes_at hbs (spec_block_size spec) r.

(** What the lookup relies on for the attention group [idx]. *)
Record group_wf (idx : nat) (spec : KVCacheSpec) (ids : list Z) : Prop := {
  gw_ids : ids ≠ [];
  gw_valid : Forall valid_group_id ids;
  gw_range : Forall (λ i, 0 ≤ i < Z.of_nat N) ids;
  gw_nodup : NoDup ids;
  gw_size : 0 < spec_block_size spec;
  gw_hash : spec_block_size spec `mod` hbs = 0;
  gw_align : al `mod` spec_block_size spec = 0;
  gw_enough : M / spec_block_size spec ≤ zlen (group_hs spec);
  gw_supported : ∀ eagle, (eagle = true → idx ∈ eagle_idx) → hit_supported spec eagle al 1 1;
  gw_mamba : idx ∈ eagle_idx → is_mamba spec = false
}.

Context (HC : CacheInv p) (Hhbs : 0 < hbs) (Hal : 0 < al) (HM : 0 ≤ M).
Context (Hwf : ∀ idx spec ids, groups !! idx = Some (spec, ids) → group_wf idx spec ids).
Context (Hdisj : ∀ idx idx' spec spec' ids ids' i,
  groups !! idx = Some (spec, ids) → groups !! idx' = Some (spec', ids') →
  i ∈ ids → i ∈ ids' → idx = idx').

(** The blocks of a hit of [k] blocks. *)
Definition hit_block (spec : KVCacheSpec) (k : nat) (g : Z) (j : nat) (b : block_ref) : Prop :=
  (b = null_block p ∨ carries p (group_hs spec) g j b) ∧
  (get_num_skipped_tokens spec (Z.of_nat k * spec_block_size spec) <
     (Z.of_nat j + 1) * spec_block_size spec →
   carries p (group_hs spec) g j b).

(** The group has a hit of [k] blocks. *)
Definition has_hit (by_group : list (option (list block_ref))) (spec : KVCacheSpec) (ids : list Z)
    (k : nat) : Prop :=
  ∃ cols, row by_group ids cols ∧ Cols k (hit_block spec k) ids cols.

Lemma group_hashes_ok spec :
  0 < spec_block_size spec → spec_block_size spec `mod` hbs = 0 →
  ∃ hl, group_hashes (block_hashes r) hbs spec = Ok hl ∧ hashes_ok hl ∧ bhl_iter hl = group_hs spec.
Proof.
  intros Hb Hm. destruct (block_hashes_for_ok p r _ Hhbs Hb Hm) as (hl & E & Hok & Ei).
  exists hl. split; [|done]. rewrite -E. unfold group_hashes, block_hashes_for.
  goal_bool as Hs; [done|]. by rewrite bool_decide_true.
Qed.

#[local] Abbreviation step := (hybrid_group p (block_hashes r) hbs M al eagle_idx).

(** The lookup of the group for at most [ml] tokens. *)
Lemma group_lookup idx spec ids ml (eagle : bool) :
  groups !! idx = Some (spec, ids) → 0 ≤ ml ≤ M → (eagle = true → idx ∈ eagle_idx) →
  ∃ hl cols k, group_hashes (block_hashes r) hbs spec = Ok hl ∧
    find_longest_cache_hit hl ml ids p spec eagle al 1 1 = Ok cols ∧
    Cols k (hit_block spec k) ids cols ∧
    Z.of_nat k * spec_block_size spec ≤
      Z.max 0 (ml - (if eagle then spec_block_size spec else 0)) ∧
    (Z.of_nat k * spec_block_size spec) `mod` al = 0.
Proof.
  intros Hg Hml He. destruct (Hwf _ _ _ Hg) as [W1 W2 W3 W4 W5 W6 W7 W8 W9 W10].
  destruct (group_hashes_ok spec W5 W6) as (hl & Ehl & Hok & Ei).
  assert (hit_block_size spec 1 1 = spec_block_size spec) as Ebs by done.
  destruct (find_longest_cache_hit_ok p hl ml ids spec eagle al 1 1)
    as (cols & Ec & k & Hk & Ha & HCk); try done.
  { by apply W9. } { lia. }
  { rewrite Ebs Ei. etrans; [|exact W8]. apply Z.div_le_mono; lia. }
  rewrite Ebs in Hk, Ha, HCk. rewrite Ei in HCk. exists hl, cols, k. split_and!; try done.
  unfold max_hit_blocks in Hk. pose proof (Z.mul_div_le ml (spec_block_size spec) W5).
  assert (0 ≤ ml / spec_block_size spec) by (apply Z.div_pos; lia).
  destruct eagle; [rewrite W10 in Hk; [|by apply He]|]; cbn in Hk; nia.
Qed.

(** One round of the [for] loop: the candidate does not grow, and afterwards
    the group has a hit of exactly the candidate length, unless it is a full
    attention group that was looked up before. *)
Lemma group_step idx spec ids st :
  groups !! idx = Some (spec, ids) → length (hit_blocks_by_group st) = N →
  0 ≤ curr_hit_length st ≤ M →
  row_none (hit_blocks_by_group st) ids ∨ (∃ k, has_hit (hit_blocks_by_group st) spec ids k) →
  ∃ st', step st (idx, (spec, ids)) = Ok st' ∧ length (hit_blocks_by_group st') = N ∧
    0 ≤ curr_hit_length st' ≤ curr_hit_length st ∧
    (∀ n, (∀ i, i ∈ ids → Z.to_nat i ≠ n) →
       hit_blocks_by_group st' !! n = hit_blocks_by_group st !! n) ∧
    ((∃ k, has_hit (hit_blocks_by_group st') spec ids k ∧
           curr_hit_length st' = Z.of_nat k * spec_block_size spec ∧
           curr_hit_length st' `mod` al = 0) ∨
     (is_full_attention spec = true ∧ hit_blocks_by_group st' = hit_blocks_by_group st ∧
      curr_hit_length st' = curr_hit_length st / spec_block_size spec * spec_block_size spec ∧
      ∃ k, has_hit (hit_blocks_by_group st) spec ids k)).
Proof.
  intros Hg HN Hc Hrow. destruct (Hwf _ _ _ Hg) as [W1 W2 W3 W4 W5 W6 W7 W8 W9 W10].
  destruct ids as [|i0 ids0] eqn:Eids; [done|]. rewrite -Eids in Hg, Hrow, W1, W2, W3, W4, W9 |- *.
  assert (∃ o, hit_blocks_by_group st !! Z.to_nat i0 = Some o ∧
    (is_Some o → ∃ k, has_hit (hit_blocks_by_group st) spec ids k)) as (o & Eo & Ho).
  { destruct Hrow as [Hn|[k Hk]].
    - exists None. split; [|by intros []]. rewrite Eids in Hn. by apply Forall_cons in Hn as [? _].
    - destruct Hk as (cols & Hr & HCs). pose proof Hr as Hr'. rewrite Eids in Hr'.
      apply Forall2_cons_inv_l in Hr' as (c & cols' & Hc' & _ & _). exists (Some c).
      split; [done|]. intros _. by exists k, cols. }
  assert (py_nth ids 0 = Ok i0) as Ei0 by by rewrite Eids.
  unfold hybrid_group. rewrite Ei0.
  assert (0 ≤ i0 < Z.of_nat N) as Hi0 by (rewrite Eids in W3; by apply Forall_cons in W3 as [? _]).
  cbn [mbind res_bind]. rewrite (py_nth_ok _ _ o); [|lia|done]. cbn [mbind res_bind].
  destruct (is_full_attention spec && is_some o) eqn:Efull.
  { apply andb_true_iff in Efull as [Hf Hs]. eexists; split; [done|]. cbn.
    pose proof (Z.mul_div_le (curr_hit_length st) (spec_block_size spec) W5).
    assert (0 ≤ curr_hit_length st / spec_block_size spec) by (apply Z.div_pos; lia).
    split_and!; [done|nia|lia|done|]. right. split_and!; try done. apply Ho. by destruct o. }
  set (e := bool_decide (idx ∈ eagle_idx) && _).
  assert (e = true → idx ∈ eagle_idx) as He.
  { intros [He _]%andb_true_iff. by apply bool_decide_eq_true in He. }
  set (ml := if e then _ else _).
  assert (0 ≤ ml ≤ M ∧ Z.max 0 (ml - (if e then spec_block_size spec else 0)) ≤ curr_hit_length st)
    as [Hml Hle] by (unfold ml; destruct e; lia).
  destruct (group_lookup idx spec ids ml e Hg Hml He) as (hl & cols & k & -> & Ec & HCk & Hk & Ha).
  cbn [mbind res_bind]. rewrite Ec. cbn [mbind res_bind].
  destruct (Cols_head ids k _ cols W1 HCk) as (c0 & -> & Hc0). cbn [mbind res_bind].
  destruct (assign_groups_spec ids (hit_blocks_by_group st) cols) as (by' & -> & Hl & Hr & Hoth).
  { eapply Forall_impl; [exact W3|]. intros x. unfold zlen. by rewrite HN. }
  { done. } { by eapply Forall2_length. }
  cbn [mbind res_bind]. eexists; split; [done|]. cbn. rewrite /zlen Hc0.
  split_and!; [by rewrite Hl|nia|lia|done|]. left. exists k. split_and!; try done. by exists cols.
Qed.

(** ** One pass over the groups *)

(** What the group [idx] has after [n] groups of a pass that started with the
    candidate [h]. *)
Definition group_status (h : Z) (n : nat) (st : hit_state) (idx : nat) (spec : KVCacheSpec)
    (ids : list Z) : Prop :=
  let bs := spec_block_size spec in
  (row_none (hit_blocks_by_group st) ids ∨
   ∃ k, has_hit (hit_blocks_by_group st) spec ids k ∧ curr_hit_length st ≤ Z.of_nat k * bs) ∧
  ((idx < n)%nat → ∃ k, has_hit (hit_blocks_by_group st) spec ids k ∧
     curr_hit_length st ≤ Z.of_nat k * bs ∧
     (is_full_attention spec = false → Z.of_nat k * bs ≤ h)) ∧
  (n = S idx → is_full_attention spec = false →
   ∃ k, has_hit (hit_blocks_by_group st) spec ids k ∧ curr_hit_length st = Z.of_nat k * bs).

Record PassInv (h : Z) (n : nat) (st : hit_state) : Prop := {
  pv_length : length (hit_blocks_by_group st) = N;
  pv_bounds : 0 ≤ curr_hit_length st ≤ h ∧ h ≤ M;
  pv_status : ∀ idx spec ids, groups !! idx = Some (spec, ids) → group_status h n st idx spec ids;
  pv_align : curr_hit_length st `mod` al = 0 ∨
    ∀ idx spec ids, groups !! idx = Some (spec, ids) → row_none (hit_blocks_by_group st) ids
}.

Lemma has_hit_other by_group by' spec ids k :
  (∀ i, i ∈ ids → by' !! Z.to_nat i = by_group !! Z.to_nat i) →
  has_hit by_group spec ids k → has_hit by' spec ids k.
Proof. intros Ho (cols & Hr & HCs). exists cols. split; [|done]. by eapply row_other. Qed.

Lemma has_hit_not_none by_group spec ids k :
  ids ≠ [] → has_hit by_group spec ids k → ¬ row_none by_group ids.
Proof.
  intros Hne (cols & Hr & _) Hn. destruct ids as [|i ids]; [done|].
  apply Forall2_cons_inv_l in Hr as (c & cols' & Hc & _ & _). apply Forall_cons in Hn as [Hn _].
  congruence.
Qed.

(** The groups that are not looked up keep their status. *)
Lemma group_status_other h n st st' idx spec ids spec' ids' :
  groups !! n = Some (spec, ids) → groups !! idx = Some (spec', ids') → idx ≠ n →
  curr_hit_length st' ≤ curr_hit_length st →
  (∀ m, (∀ i, i ∈ ids → Z.to_nat i ≠ m) → hit_blocks_by_group st' !! m = hit_blocks_by_group st !! m) →
  group_status h n st idx spec' ids' → group_status h (S n) st' idx spec' ids'.
Proof.
  intros Hg Hg' Hne Hle Ho (H1 & H2 & _).
  assert (∀ i, i ∈ ids' → hit_blocks_by_group st' !! Z.to_nat i = hit_blocks_by_group st !! Z.to_nat i)
    as Hsame.
  { intros i Hi. apply Ho. intros i' Hi' Heq.
    pose proof (gw_range _ _ _ (Hwf _ _ _ Hg)) as R. pose proof (gw_range _ _ _ (Hwf _ _ _ Hg')) as R'.
    rewrite Forall_forall in R. rewrite Forall_forall in R'. specialize (R i' Hi'). specialize (R' i Hi).
    assert (i' = i) as -> by (cbn in *; lia). apply Hne. symmetry. by eapply Hdisj. }
  split_and!.
  - destruct H1 as [H1|(k & Hk & Hc)]; [left; by eapply row_none_other|right].
    exists k. split; [by eapply has_hit_other|lia].
  - intros Hlt. destruct H2 as (k & Hk & Hc & Hf); [lia|]. exists k.
    split_and!; [by eapply has_hit_other|lia|done].
  - intros [=]. congruence.
Qed.

Lemma pass_step h n st spec ids :
  groups !! n = Some (spec, ids) → PassInv h n st →
  ∃ st', step st (n, (spec, ids)) = Ok st' ∧ PassInv h (S n) st'.
Proof.
  intros Hg [P1 P2 P3 P4]. pose proof (Hwf _ _ _ Hg) as W.
  destruct (P3 _ _ _ Hg) as (Hrow & _ & _).
  destruct (group_step n spec ids st Hg P1) as (st' & E & Hl & Hc & Ho & Hcase); [lia| |].
  { destruct Hrow as [?|(k & ? & _)]; [by left|right; by exists k]. }
  exists st'. split; [done|].
  assert (curr_hit_length st' `mod` al = 0 ∧ group_status h (S n) st' n spec ids) as [Ha Hst].
  { destruct Hcase as [(k & Hk & Ek & Ha)|(Hfull & Eby & Ec & k0 & Hk0)].
    - split; [done|]. split_and!; [right|intros _|intros _ _]; exists k; split_and!; try done; lia.
    - destruct Hrow as [Hn|(k & Hk & Hck)]; [by apply has_hit_not_none in Hk0; [|apply W]|].
      assert (curr_hit_length st `mod` al = 0) as Ha.
      { destruct P4 as [?|P4]; [done|]. apply has_hit_not_none in Hk0; [|apply W].
        by destruct Hk0; apply (P4 _ _ _ Hg). }
      assert (curr_hit_length st' = curr_hit_length st) as Ec'.
      { rewrite Ec. pose proof (gw_size _ _ _ W). pose proof (gw_align _ _ _ W) as Hd.
        apply Z.mod_divide in Ha; [|lia]. apply Z.mod_divide in Hd; [|lia].
        destruct (Z.divide_trans _ _ _ Hd Ha) as [q ->]. rewrite Z.div_mul; [done|lia]. }
      rewrite Ec' . split; [done|].
      split_and!; [right|intros _|by rewrite Hfull]; exists k; rewrite Ec' Eby; split_and!; try done.
      by rewrite Hfull. }
  split; [done|lia| |by left]. intros idx spec' ids' Hg'.
  destruct (decide (idx = n)) as [->|Hne]; [by simplify_eq|].
  apply (group_status_other h n st st' idx spec ids); [done|done|done|lia|done|by apply P3].
Qed.

Lemma pass_spec h st rest : ∀ n,
  rest = drop n groups → PassInv h n st →
  ∃ st', foldM step st (imap (λ j g, ((n + j)%nat, g)) rest) = Ok st' ∧
    PassInv h (n + length rest) st'.
Proof.
  revert st. induction rest as [|[spec ids] rest IH]; intros st n Er HP.
  { exists st. by rewrite Nat.add_0_r. }
  assert (groups !! n = Some (spec, ids)) as Hg.
  { rewrite -(Nat.add_0_r n) -lookup_drop -Er. done. }
  cbn [imap foldM]. rewrite Nat.add_0_r. destruct (pass_step h n st spec ids Hg HP) as (st1 & -> & H1).
  cbn [mbind res_bind].
  destruct (IH st1 (S n)) as (st2 & E2 & H2); [|done|].
  { change rest with (drop 1 ((spec, ids) :: rest)). rewrite Er drop_drop. f_equal. lia. }
  exists st2. split; [|by rewrite Nat.add_succ_r]. rewrite -E2. f_equal.
  apply imap_ext. intros; cbn; f_equal; lia.
Qed.

(** ** The fixed point *)

Context (Hne : groups ≠ []).
Context (Hone : ∀ idx spec ids,
  groups !! idx = Some (spec, ids) → is_full_attention spec = true → idx = 0%nat).

(** The result: a hit of exactly [hit] tokens for the groups that are not full
    attention, and of at least as many for the one that is. *)
Definition loop_result (hit : Z) (by_group : list (option (list block_ref))) : Prop :=
  length by_group = N ∧ hit `mod` al = 0 ∧
  ∀ idx spec ids, groups !! idx = Some (spec, ids) →
    ∃ k, has_hit by_group spec ids k ∧ hit ≤ Z.of_nat k * spec_block_size spec ∧
      (is_full_attention spec = false → Z.of_nat k * spec_block_size spec = hit).

(** A complete pass ends aligned. *)
Lemma pass_aligned h st : PassInv h (length groups) st → curr_hit_length st `mod` al = 0.
Proof.
  intros [P1 P2 P3 [P4|P4]]; [done|]. destruct groups as [|[spec ids] gs'] eqn:Eg; [done|].
  destruct (P3 0%nat spec ids eq_refl) as (_ & (k & Hk & _) & _); [cbn; lia|].
  apply has_hit_not_none in Hk; [|by eapply (gw_ids 0%nat), Hwf].
  destruct Hk. by eapply (P4 0%nat).
Qed.

Lemma hybrid_loop_spec fuel : ∀ simple h by_group ver,
  (simple = true → length groups = 2%nat ∧ ∃ spec ids, groups !! 0%nat = Some (spec, ids) ∧
     is_full_attention spec = true) →
  (Z.to_nat h < fuel)%nat → PassInv h 0 (mkHit h by_group ver) →
  ∃ by' hit, hybrid_loop p (block_hashes r) hbs M al eagle_idx fuel groups simple h by_group ver =
      Some (Ok (by', hit)) ∧ 0 ≤ hit ≤ h ∧ loop_result hit by'.
Proof.
  induction fuel as [|fuel IH]; intros simple h by_group ver Hs Hf HP; [lia|].
  cbn [hybrid_loop].
  destruct (pass_spec h _ groups 0 eq_refl HP) as (st & E & HP').
  replace (imap (λ j g, ((0 + j)%nat, g)) groups) with (imap pair groups) in E by done.
  rewrite E. rewrite Nat.add_0_l in HP'. pose proof (pass_aligned _ _ HP') as Ha.
  destruct HP' as [Q1 Q2 Q3 Q4].
  goal_bool as Hge.
  { exists (hit_blocks_by_group st), h. split_and!; [done|lia|lia|].
    split_and!; [done|by replace h with (curr_hit_length st) by lia|].
    intros idx spec ids Hg. destruct (Q3 _ _ _ Hg) as (_ & Hv & _).
    destruct Hv as (k & Hk & Hc & Hx); [by apply lookup_lt_Some in Hg|].
    exists k. split_and!; [done|lia|]. intros Hnf. specialize (Hx Hnf). lia. }
  destruct simple.
  { destruct (Hs eq_refl) as (Hlen & spec0 & ids0 & Hg0 & Hf0).
    exists (hit_blocks_by_group st), (curr_hit_length st). split_and!; [done|lia|lia|].
    split_and!; [done|done|]. intros idx spec ids Hg. destruct (Q3 _ _ _ Hg) as (_ & Hv & Hx).
    pose proof (lookup_lt_Some _ _ _ Hg) as Hlt.
    destruct (is_full_attention spec) eqn:Efull.
    - destruct (Hv Hlt) as (k & Hk & Hc & _). exists k. by split_and!.
    - assert (idx ≠ 0%nat) by (intros ->; congruence).
      destruct Hx as (k & Hk & ->); [lia|done|]. exists k. split_and!; [done|lia|done]. }
  destruct (IH false (curr_hit_length st) (hit_blocks_by_group st) (eagle_verified st))
    as (by' & hit & E' & Hh & Hr); [done|lia| |by exists by', hit; split_and!; [..|lia| |]; try lia].
  split; cbn; [done|lia| |by left].
  intros idx spec ids Hg. destruct (Q3 _ _ _ Hg) as (Hrow & _ & _).
  split_and!; [exact Hrow|lia|lia].
Qed.

(** ** The truncation of the full attention group *)

Lemma truncate_rows (f : list block_ref → list block_ref) ids : ∀ by_group cols,
  NoDup ids → Forall (λ i, 0 ≤ i) ids → row by_group ids cols →
  let by' := foldl (λ by_group i, alter (fmap f) (Z.to_nat i) by_group) by_group ids in
  row by' ids (f <$> cols) ∧
  (∀ n, (∀ i, i ∈ ids → Z.to_nat i ≠ n) → by' !! n = by_group !! n).
Proof.
  induction ids as [|i ids IH]; intros by_group cols Hnd Hpos Hr; cbn.
  { apply Forall2_nil_inv_l in Hr as ->. split; [constructor|done]. }
  apply NoDup_cons in Hnd as [Hni Hnd]. apply Forall_cons in Hpos as [Hi Hpos].
  apply Forall2_cons_inv_l in Hr as (c & cols' & Hc & Hr & ->).
  assert (∀ i', i' ∈ ids → Z.to_nat i' ≠ Z.to_nat i) as Hdiff.
  { intros i' Hi' Heq. rewrite Forall_forall in Hpos. specialize (Hpos i' Hi'). cbn in Hpos.
    by replace i' with i in Hi' by lia. }
  destruct (IH (alter (fmap f) (Z.to_nat i) by_group) cols' Hnd Hpos) as [IH1 IH2].
  { eapply row_other; [|exact Hr]. intros i' Hi'.
    rewrite list_lookup_alter_ne //. intros Heq. by apply (Hdiff i' Hi'). }
  split.
  - constructor; [|done]. rewrite IH2 //. by rewrite list_lookup_alter_eq Hc.
  - intros n Hn. rewrite IH2; [|intros; apply Hn; by right].
    rewrite list_lookup_alter_ne //. apply Hn. by left.
Qed.
End Hybrid.

(** ** Main properties *)

(** What the constructor and the request provide for a lookup of at most [M]
    tokens. *)
Record hybrid_wf (p : BlockPool) (r : Request) (M al : Z) (eagle_idx : list nat) (N : nat)
    (groups : list (KVCacheSpec * list Z)) : Prop := {
  hw_hash : 0 < hash_block_size p;
  hw_align : 0 < al;
  hw_max : 0 ≤ M;
  hw_groups : ∀ idx spec ids, groups !! idx = Some (spec, ids) →
    group_wf p r M al eagle_idx N idx spec ids;
  hw_disjoint : ∀ idx idx' spec spec' ids ids' i,
    groups !! idx = Some (spec, ids) → groups !! idx' = Some (spec', ids') →
    i ∈ ids → i ∈ ids' → idx = idx';
  hw_some : groups ≠ [];
  hw_one : ∀ idx spec ids,
    groups !! idx = Some (spec, ids) → is_full_attention spec = true → idx = 0%nat
}.

Lemma full_skips_none spec n : is_full_attention spec = true → get_num_skipped_tokens spec n = 0.
Proof. by destruct spec. Qed.

(** A prefix of a full attention hit is a hit. *)
Lemma full_hit_take p r spec k n ids cols :
  is_full_attention spec = true → 0 < spec_block_size spec → (n ≤ k)%nat →
  Cols k (hit_block p r spec k) ids cols → Cols n (hit_block p r spec n) ids (take n <$> cols).
Proof.
  intros Hf Hb Hn H. eapply Cols_impl; [|by eapply (Cols_take _ k n)].
  intros g j b Hj [H1 H2]. split; [done|]. intros _. apply H2.
  rewrite (full_skips_none _ _ Hf). nia.
Qed.

(** The lists after the truncation. *)
Lemma truncate_full_spec p r M al eagle_idx N groups hit by_group :
  hybrid_wf p r M al eagle_idx N groups → 0 ≤ hit →
  loop_result p r al N groups hit by_group →
  ∀ idx spec ids, groups !! idx = Some (spec, ids) →
    ∃ k, has_hit p r (truncate_full groups hit by_group) spec ids k ∧
      Z.of_nat k * spec_block_size spec = hit.
Proof.
  intros W Hh (HN & Ha & Hres) idx spec ids Hg. destruct (Hres _ _ _ Hg) as (k & Hk & Hle & Hx).
  pose proof (hw_groups _ _ _ _ _ _ _ W _ _ _ Hg) as G. pose proof (gw_size _ _ _ _ _ _ _ _ _ G) as Hbs.
  destruct groups as [|[spec0 ids0] gs'] eqn:Egs; [done|]. cbn [truncate_full].
  pose proof (hw_groups _ _ _ _ _ _ _ W 0%nat _ _ eq_refl) as G0.
  destruct (is_full_attention spec0) eqn:Ef0; last first.
  { destruct (is_full_attention spec) eqn:Ef; [|by exists k; split; [|apply Hx]].
    pose proof (hw_one _ _ _ _ _ _ _ W _ _ _ Hg Ef) as ->. cbn in Hg. congruence. }
  destruct (Hres 0%nat _ _ eq_refl) as (k0 & (cols0 & Hr0 & HC0) & Hle0 & _).
  destruct (truncate_rows (λ bs, py_slice_to bs (hit / spec_block_size spec0)) ids0 by_group cols0)
    as [T1 T2]; [exact (gw_nodup _ _ _ _ _ _ _ _ _ G0)| |done|].
  { eapply Forall_impl; [exact (gw_range _ _ _ _ _ _ _ _ _ G0)|]. intros x. cbn. lia. }
  destruct (decide (idx = 0%nat)) as [->|Hne].
  - cbn in Hg. simplify_eq. set (n := Z.to_nat (hit / spec_block_size spec)).
    assert (0 ≤ hit / spec_block_size spec) as Hq by (apply Z.div_pos; lia).
    assert (hit / spec_block_size spec * spec_block_size spec = hit) as Hqe.
    { pose proof (gw_align _ _ _ _ _ _ _ _ _ G) as Hd. pose proof (hw_align _ _ _ _ _ _ _ W).
      apply Z.mod_divide in Ha; [|lia]. apply Z.mod_divide in Hd; [|lia].
      destruct (Z.divide_trans _ _ _ Hd Ha) as [q ->]. by rewrite Z.div_mul; [|lia]. }
    exists n. split; [|unfold n; lia]. exists (take n <$> cols0).
    rewrite (list_fmap_ext _ (take n)) in T1; [|by intros; apply py_slice_to_take].
    split; [done|]. eapply full_hit_take; [done..| |exact HC0]. unfold n. nia.
  - exists k. split; [|apply Hx].
    + destruct Hk as (cols & Hr & HCs). exists cols. split; [|done].
      eapply row_other; [|exact Hr]. intros i Hi. apply T2. intros i' Hi' Heq. apply Hne.
      pose proof (gw_range _ _ _ _ _ _ _ _ _ G) as R. pose proof (gw_range _ _ _ _ _ _ _ _ _ G0) as R0.
      rewrite Forall_forall in R. rewrite Forall_forall in R0. specialize (R i Hi). specialize (R0 i' Hi').
      assert (i' = i) as -> by (cbn in *; lia).
      by apply (hw_disjoint _ _ _ _ _ _ _ W idx 0%nat spec spec0 ids ids0 i).
    + destruct (is_full_attention spec) eqn:Ef; [|done].
      by pose proof (hw_one _ _ _ _ _ _ _ W _ _ _ Hg Ef).
Qed.

Lemma initial_pass p r M al eagle_idx N groups :
  hybrid_wf p r M al eagle_idx N groups →
  PassInv p r M al N groups M 0 (mkHit M (replicate N None) []).
Proof.
  intros W. assert (∀ idx spec ids, groups !! idx = Some (spec, ids) →
    row_none (replicate N None) ids) as Hnone.
  { intros idx spec ids Hg. pose proof (hw_groups _ _ _ _ _ _ _ W _ _ _ Hg) as G.
    eapply Forall_impl; [exact (gw_range _ _ _ _ _ _ _ _ _ G)|]. intros i Hi.
    rewrite lookup_replicate_2 //. cbn in Hi. lia. }
  pose proof (hw_max _ _ _ _ _ _ _ W). split; cbn; [by rewrite length_replicate|lia| |by right].
  intros idx spec ids Hg. split_and!; [left; by eapply Hnone|lia|lia].
Qed.

(** C6: the hybrid cache lookup terminates and is sound.  Scope ([hybrid_wf]): at most one
    full attention specification, which is the first group, no EAGLE flag on Mamba groups,
    and chunked local attention only with chunks of whole blocks, without EAGLE and with
    the alignment of its own block.  Then the fixed-point iteration of
    [find_longest_cache_hit] ends within [max_cache_hit_length + 1] passes; its result is
    an aligned length of at most [max_cache_hit_length], for which every group gets
    exactly the blocks of that many tokens, and every block that the next token can
    attend to carries the hash of its position. *)
Theorem hybrid_hit_correct (c : Coordinator) (r : Request) (M al : Z) eagle_idx groups :
  let p := block_pool c in
  kind c = Hybrid (hash_block_size p) groups al eagle_idx → CacheInv p →
  hybrid_wf p r M al eagle_idx (length (kv_cache_groups (config c))) groups →
  ∃ blocks hit, coord_find_longest_cache_hit c (block_hashes r) M = Some (Ok (blocks, hit)) ∧
    0 ≤ hit ≤ M ∧ hit `mod` al = 0 ∧
    ∀ idx spec ids i, groups !! idx = Some (spec, ids) → i ∈ ids →
      ∃ bs, blocks !! Z.to_nat i = Some bs ∧ zlen bs * spec_block_size spec = hit ∧
        ∀ j b, bs !! j = Some b → hit_block p r spec (length bs) i j b.
Proof.
  intros p Hk HC W. unfold coord_find_longest_cache_hit. rewrite Hk. fold p.
  set (N := length (kv_cache_groups (config c))) in *. set (simple := _ && _).
  assert (simple = true → length groups = 2%nat ∧ ∃ spec ids, groups !! 0%nat = Some (spec, ids) ∧
     is_full_attention spec = true) as Hs.
  { intros [Hl Hf]%andb_true_iff. apply bool_decide_eq_true in Hl. split; [done|].
    destruct groups as [|[spec ids] gs']; [done|]. by exists spec, ids. }
  destruct (hybrid_loop_spec p r M al eagle_idx N groups HC (hw_hash _ _ _ _ _ _ _ W)
    (hw_align _ _ _ _ _ _ _ W) (hw_max _ _ _ _ _ _ _ W) (hw_groups _ _ _ _ _ _ _ W)
    (hw_disjoint _ _ _ _ _ _ _ W) (hw_some _ _ _ _ _ _ _ W) (hw_one _ _ _ _ _ _ _ W)
    (S (Z.to_nat M)) simple M (replicate N None) [] Hs)
    as (by' & hit & E & Hh & Hr); [lia|by eapply initial_pass|].
  rewrite E. cbn [mbind option_bind res_bind]. eexists _, hit. split; [done|].
  split; [done|]. split; [apply Hr|]. intros idx spec ids i Hg Hi.
  destruct (truncate_full_spec p r M al eagle_idx N groups hit by' W ltac:(lia) Hr _ _ _ Hg)
    as (k & (cols & Hrow & HCs) & Hlk).
  apply list_elem_of_lookup in Hi as [x Hi].
  destruct (Forall2_lookup_l _ _ _ _ _ Hrow Hi) as (bs & Hc & Hbs).
  destruct (Forall2_lookup_lr _ _ _ _ _ _ HCs Hi Hc) as [Hlen Hblocks].
  exists bs. rewrite list_lookup_fmap Hbs. split; [done|]. rewrite /zlen Hlen. by split.
Qed.

(** ** Concrete lookups *)

Definition sample_full : KVCacheSpec := FullAttentionSpec 2 sample_attn (mkFull 64 None None).
Definition sample_wide_full : KVCacheSpec := FullAttentionSpec 2 sample_attn (mkFull 128 None None).
Definition sample_window : KVCacheSpec := SlidingWindowSpec 2 sample_attn 64 3.
Definition sample_align_mamba : KVCacheSpec := MambaSpec 2 (mkMamba [] [] None "mamba2" "align" 0).

(** A new coordinator computes and caches the three blocks of
    [sample_cached_request] in every group; then the given blocks are evicted,
    and a request with the same hashes looks up at most [max_length] tokens. *)
Definition cache_then_lookup (specs : list KVCacheSpec) (use_eagle : bool) (evicted : list Z)
    (max_length : Z) : res (option (res (list (list block_ref) * Z))) :=
  let cfg := mkConfig 12 ((λ s, mkGroup s false) <$> specs) in
  c ← get_kv_cache_coordinator cfg 64 64 use_eagle true false 1 1 2;
  '(c, _) ← coord_allocate_new_blocks c "r" 6 6 0;
  c ← coord_cache_blocks c sample_cached_request 6;
  p ← evict_blocks (block_pool c) evicted;
  Ok (coord_find_longest_cache_hit (set_managers c p (single_type_managers c))
        (block_hashes sample_cached_request) max_length).

(** With EAGLE, a Mamba group may report more tokens than the full attention
    group has blocks for.  When no group is flagged, the coordinator flags all of
    them; the full attention lookup drops its last block, but the Mamba lookup
    gets one more block and drops none.  Here three blocks of two tokens are
    cached in both groups: the hit has length 6 although the full attention
    group has only two blocks.  Without EAGLE it has three. *)
Theorem mamba_eagle_hit_too_long :
  cache_then_lookup [sample_full; sample_align_mamba] true [] 7 =
    Ok (Some (Ok ([[Blk 1; Blk 2]; [Blk 0; Blk 0; Blk 4]], 6))) ∧
  cache_then_lookup [sample_full; sample_align_mamba] false [] 7 =
    Ok (Some (Ok ([[Blk 1; Blk 2; Blk 3]; [Blk 0; Blk 0; Blk 4]], 6))).
Proof. split; vm_compute; reflexivity. Qed.

(** Only the first full attention group is cut to the final hit length.
    With two full attention specifications and a sliding window whose last
    block was evicted, the hit is 4 tokens, but the second full attention group
    returns three blocks of two tokens. *)
Theorem second_full_group_not_truncated :
  cache_then_lookup [sample_full; sample_wide_full; sample_window] false [9] 7 =
    Ok (Some (Ok ([[Blk 1; Blk 2]; [Blk 4; Blk 5; Blk 6]; [Blk 0; Blk 8]], 4))).
Proof. vm_compute. reflexivity. Qed.

(** A coordinator with a full attention and a sliding window group whose pool
    holds two cached blocks of each. *)
Definition hybrid_pool0 : BlockPool := Eval vm_compute in the_pool (pool_after 8 []).
Definition hybrid_pool1 : BlockPool := Eval vm_compute in the_pool (pool_after 8 [OpNew 4]).
Definition hybrid_pool2 : BlockPool := Eval vm_compute in the_pool
  (pool_after 8 [OpNew 4; OpCache sample_cached_request [Blk 1; Blk 2] 0 2 2 0]).
Definition hybrid_pool : BlockPool := Eval vm_compute in the_pool
  (pool_after 8 [OpNew 4; OpCache sample_cached_request [Blk 1; Blk 2] 0 2 2 0;
                 OpCache sample_cached_request [Blk 3; Blk 4] 0 2 2 1]).
Definition hybrid_coord : Coordinator :=
  mkCoord (mkConfig 8 [mkGroup sample_full false; mkGroup sample_window false]) 64 true hybrid_pool
    [] [] (Hybrid 2 [(sample_full, [0]); (sample_window, [1])] 2 []).

Lemma hybrid_pool_reach : pool_reach hybrid_pool.
Proof.
  assert (∀ b1 b2 x : block_ref, x ∈ [b1; b2] → x = b1 ∨ x = b2) as Hcases by set_solver.
  apply (reach_step hybrid_pool2 (OpCache sample_cached_request [Blk 3; Blk 4] 0 2 2 1));
    [|split_and!; try done|vm_compute; reflexivity].
  - apply (reach_step hybrid_pool1 (OpCache sample_cached_request [Blk 1; Blk 2] 0 2 2 0));
      [|split_and!; try done|vm_compute; reflexivity].
    + apply (reach_step hybrid_pool0 (OpNew 4)); [|done|vm_compute; reflexivity].
      apply (reach_init 8 true 2 true). vm_compute. reflexivity.
    + repeat constructor; eexists; (split; [done|cbn; lia]).
    + vm_compute. repeat constructor; set_solver.
    + intros b Hb _. cbn in Hb. by destruct (Hcases _ _ _ Hb) as [->| ->].
  - repeat constructor; eexists; (split; [done|cbn; lia]).
  - vm_compute. repeat constructor; set_solver.
  - intros b Hb _. cbn in Hb. by destruct (Hcases _ _ _ Hb) as [->| ->].
Qed.

Lemma hybrid_sample_wf :
  hybrid_wf hybrid_pool sample_cached_request 5 2 [] 2 [(sample_full, [0]); (sample_window, [1])].
Proof.
  split; try done.
  - intros [|[|idx]] spec ids Hg; cbn in Hg; simplify_eq; (split; try done);
      try (repeat constructor; set_solver); try (by repeat constructor);
      try by (intros []; [set_solver|]); intros ? [].
  - intros [|[|idx]] [|[|idx']] ????? Hg Hg' Hi Hi'; cbn in *; simplify_eq; try done; set_solver.
  - intros [|[|idx]] spec ids Hg Hf; cbn in *; by simplify_eq.
Qed.

Lemma hybrid_hit_correct_witness :
  ∃ blocks hit,
    coord_find_longest_cache_hit hybrid_coord (block_hashes sample_cached_request) 5 =
      Some (Ok (blocks, hit)) ∧
    0 ≤ hit ≤ 5 ∧ hit `mod` 2 = 0 ∧
    ∀ idx spec ids i, [(sample_full, [0]); (sample_window, [1])] !! idx = Some (spec, ids) → i ∈ ids →
      ∃ bs, blocks !! Z.to_nat i = Some bs ∧ zlen bs * spec_block_size spec = hit ∧
        ∀ j b, bs !! j = Some b → hit_block hybrid_pool sample_cached_request spec (length bs) i j b.
Proof.
  apply (hybrid_hit_correct hybrid_coord sample_cached_request 5 2 [] [(sample_full, [0]); (sample_window, [1])]).
  - reflexivity.
  - destruct (pool_reach_inv _ hybrid_pool_reach) as [l I]. apply I.
  - exact hybrid_sample_wf.
Defined.
