(* ===== verification/CacheConfig.v ===== *)
(** * Configuration of the KV cache: [vllm/v1/core/kv_cache_utils.py]

    Before the engine starts, the layers of the model are put into groups that share a
    block table, the memory of the workers is divided into blocks, and each worker is
    told which tensors to allocate and which layers share them.  This file models the
    functions from [_check_enough_kv_cache_memory] to [get_kv_cache_configs].

    A [dict] of specifications is an association list in insertion order.  The two
    binary searches set [max_model_len] of the configuration and restore it in a
    [finally]; here a modified copy is passed, so nothing is left to restore. *)

From Corelib Require Import SpecFloat.
From S2P Require Import Prelude PyFloat OrderedDict KVCacheSpec CacheSizes.
From S2P Require Import BlockHash BlockPool SingleType Coordinator.

(** ** Data *)

Abbreviation specs_dict := (list (string * KVCacheSpec)).

(** [KVCacheTensor]. *)
Record KVCacheTensor := mkTensor {
  tensor_size : Z;
  shared_by : list string
}.

(** [KVCacheGroupSpec], with the names of its layers. *)
Record LayerGroup := mkLayerGroup {
  layer_names : list string;
  lg_spec : GroupSpec;
  lg_is_eagle_group : bool
}.

(** [KVCacheConfig] of a worker. *)
Record WorkerConfig := mkWorkerConfig {
  wc_num_blocks : Z;
  kv_cache_tensors : list KVCacheTensor;
  wc_groups : list LayerGroup
}.

(** [layers[i::n]]. *)
Definition py_stride {A} (l : list A) (i n : Z) : list A :=
  snd <$> filter (λ p : nat * A, i ≤ Z.of_nat p.1 ∧ (Z.of_nat p.1 - i) `mod` n = 0) (imap pair l).

(** [d[k].append(x)] on a [defaultdict(list)]. *)
Definition dict_append {K A} `{EqDecision K} (d : list (K * list A)) (k : K) (x : A) : list (K * list A) :=
  od_set d k (default [] (od_get d k) ++ [x]).

Section CacheConfig.
Context {torch : TorchLib}.
Implicit Types (vc : VllmConfig) (specs : specs_dict).

(** ** Memory checks *)

(** [max_memory_usage_bytes]. *)
Definition max_memory_usage_bytes vc (l : list GroupSpec) : res Z :=
  sizes ← mapM_res (group_max_memory_usage_bytes vc) l; Ok (zsum sizes).

(** The loop of the binary searches over [max_model_len]. *)
Fixpoint search_model_len (fits : Z → res bool) (fuel : nat) (left right result : Z) : res Z :=
  if bool_decide (left ≤ right) then
    match fuel with
    | O => Raise OutOfFuel
    | S fuel =>
        let mid := (left + right) / 2 in
        ok ← fits mid;
        if ok : bool then search_model_len fits fuel (mid + 1) right mid
        else search_model_len fits fuel left (mid - 1) result
    end
  else Ok result.

(** Their body; the search halves the interval, so [log2] rounds are enough. *)
Definition largest_model_len (fits : Z → res bool) (original_max : Z) : res Z :=
  ok ← fits 1;
  if ok : bool then search_model_len fits (Z.to_nat (Z.log2 original_max + 1)) 1 original_max 1 else Ok 0.

(** [estimate_max_model_len]. *)
Definition estimate_max_model_len vc specs (available_memory : Z) : res Z :=
  let fits_in_memory model_len :=
    memory_needed ← max_memory_usage_bytes (set_vc_max_model_len vc model_len) (LayerSpec <$> specs.*2);
    Ok (bool_decide (memory_needed ≤ available_memory)) in
  largest_model_len fits_in_memory (vc_max_model_len vc).

(** [_check_enough_kv_cache_memory]; the estimate is part of the error message. *)
Definition _check_enough_kv_cache_memory (available_memory : Z) (get_needed_memory : unit → res Z)
    (estimate : Z → res Z) : res unit :=
  if bool_decide (available_memory ≤ 0) then Raise ValueError
  else
    needed_memory ← get_needed_memory tt;
    if bool_decide (available_memory < needed_memory) then
      _ ← estimate available_memory;
      Raise ValueError
    else Ok tt.

(** [check_enough_kv_cache_memory]. *)
Definition check_enough_kv_cache_memory vc specs (available_memory : Z) : res unit :=
  if is_nil specs then Ok tt
  else _check_enough_kv_cache_memory available_memory
         (λ _, max_memory_usage_bytes vc (LayerSpec <$> specs.*2)) (estimate_max_model_len vc specs).

(** ** Groups *)

(** [create_kv_cache_group_specs]. *)
Definition create_group specs (names : list string) : res LayerGroup :=
  layer_specs ← mapM_res (od_lookup specs) names;
  s0 ← py_nth layer_specs 0;
  merged ← spec_merge s0 layer_specs;
  Ok (mkLayerGroup names (LayerSpec merged) false).
Definition create_kv_cache_group_specs specs (grouped_layer_names : list (list string)) : res (list LayerGroup) :=
  mapM_res (create_group specs) grouped_layer_names.

(** [is_kv_cache_spec_uniform]: only an [AssertionError] of the merge is caught. *)
Definition is_kv_cache_spec_uniform specs : res bool :=
  match specs with
  | [] => Ok true
  | (_, s0) :: _ =>
      match spec_merge s0 specs.*2 with
      | Ok _ => Ok true
      | Raise AssertionError => Ok false
      | Raise e => Raise e
      end
  end.

(** [may_override_num_blocks] and [get_num_blocks]. *)
Definition may_override_num_blocks vc (num_blocks : Z) : Z := default num_blocks (vc_num_gpu_blocks_override vc).

Definition get_num_blocks vc (num_layers available_memory page_size : Z) : res Z :=
  q ← py_floordiv available_memory page_size;
  q ← py_floordiv q num_layers;
  Ok (may_override_num_blocks vc (Z.max q 0)).

(** [get_uniform_page_size]. *)
Definition get_uniform_page_size (l : list GroupSpec) : res Z :=
  sizes ← mapM_res group_page_size l;
  match remove_dups sizes with [page_size] => Ok page_size | _ => Raise AssertionError end.

(** [max(len(group.layer_names) for group in groups)]. *)
Definition max_group_len (groups : list LayerGroup) : res Z := py_max ((λ g, zlen (layer_names g)) <$> groups).

(** The specifications of the groups of a layout with [UniformTypeKVCacheSpecs] only. *)
Definition uniform_specs (g : LayerGroup) : specs_dict :=
  match lg_spec g with UniformTypeKVCacheSpecs _ specs => specs | LayerSpec _ => [] end.

Definition all_uniform_specs (groups : list LayerGroup) : bool := forallb (λ g, is_uniform_specs (lg_spec g)) groups.

(** [max(g.kv_cache_spec.get_num_layer_tuples() for g in groups)]. *)
Definition max_layer_tuples (groups : list LayerGroup) : res Z :=
  tuples ← mapM_res (λ g, get_num_layer_tuples (uniform_specs g)) groups; py_max tuples.

(** [_pool_bytes_per_block]. *)
Definition _pool_bytes_per_block (groups : list LayerGroup) : res Z :=
  match groups with
  | [mkLayerGroup _ (UniformTypeKVCacheSpecs _ _ as g) _] => group_page_size g
  | _ =>
      if all_uniform_specs groups then
        g0 ← py_nth groups 0;
        page_sizes ← get_page_sizes (uniform_specs g0);
        num_layer_tuples ← max_layer_tuples groups;
        Ok (zsum page_sizes * num_layer_tuples)
      else
        group_size ← max_group_len groups;
        page_size ← get_uniform_page_size (lg_spec <$> groups);
        Ok (page_size * group_size)
  end.

(** [_get_kv_cache_groups_uniform_spec] and [_get_kv_cache_groups_uniform_type]. *)
Definition _get_kv_cache_groups_uniform_spec specs : res (list LayerGroup) :=
  create_kv_cache_group_specs specs [specs.*1].

Definition _get_kv_cache_groups_uniform_type (bs : Z) specs : list LayerGroup :=
  [mkLayerGroup specs.*1 (UniformTypeKVCacheSpecs bs specs) false].

(** [is_kv_cache_page_size_uniform]. *)
Definition is_kv_cache_page_size_uniform specs : res bool :=
  sizes ← layer_page_sizes specs; Ok (one_value sizes).

(** [unify_kv_cache_spec_page_size], the body of its loop first. *)
Definition unify_layer (max_page_size : Z) (layer : string * KVCacheSpec) : res (string * KVCacheSpec) :=
  let '(layer_name, layer_spec) := layer in
  layer_page_size ← page_size_bytes layer_spec;
  if bool_decide (layer_page_size = max_page_size) then Ok (layer_name, layer_spec)
  else
    rest ← py_mod max_page_size layer_page_size;
    if bool_decide (rest ≠ 0) then Raise NotImplementedError
    else
      let ratio := max_page_size / layer_page_size in
      let new_block_size := spec_block_size layer_spec * ratio in
      new_spec ← replace_block_size layer_spec new_block_size;
      new_page_size ← page_size_bytes new_spec;
      py_assert (bool_decide (new_page_size = max_page_size));;
      Ok (layer_name, new_spec).

Definition unify_kv_cache_spec_page_size specs : res specs_dict :=
  sizes ← layer_page_sizes specs;
  if bool_decide (length (remove_dups sizes) ≤ 1)%nat then Ok specs
  else max_page_size ← py_max sizes; mapM_res (unify_layer max_page_size) specs.

(** [_get_kv_cache_groups_uniform_page_size]: the layers by specification, the number of
    layers of a group, and the groups.  [max < min * 1.5] is compared over the integers,
    which is exact below [2 ^ 52] layers. *)
Definition same_type_layers specs : list (KVCacheSpec * list string) :=
  foldl (λ d (l : string * KVCacheSpec), dict_append d l.2 l.1) [] specs.

Definition layer_group_size (same_type : list (KVCacheSpec * list string)) : res Z :=
  let lens := (λ p : KVCacheSpec * list string, zlen p.2) <$> same_type in
  min_num_layers ← py_min lens;
  max_num_layers ← py_max lens;
  Ok (if bool_decide (2 * max_num_layers < 3 * min_num_layers) then max_num_layers else min_num_layers).

Definition split_layers (group_size : Z) (layers : list string) : list (list string) :=
  let num_groups := cdiv (zlen layers) group_size in
  (λ i, py_stride layers i num_groups) <$> zrange 0 num_groups.

Definition _get_kv_cache_groups_uniform_page_size specs : res (list LayerGroup) :=
  let same_type := same_type_layers specs in
  group_size ← layer_group_size same_type;
  create_kv_cache_group_specs specs (same_type ≫= λ p, split_layers group_size p.2).

(** [unify_hybrid_kv_cache_specs]: the specification a layer is converted to. *)
Definition convert_to_full (uniform_block_size : option Z) (s : KVCacheSpec) : res KVCacheSpec :=
  match s with
  | SlidingWindowMLASpec bs a _ _ m =>
      new_MLAAttentionSpec (default bs uniform_block_size)
        (mkAttn (num_kv_heads a) (head_size a) (dtype a) NONE (page_size_padded a)) m
  | SlidingWindowSpec bs a v w => Ok (FullAttentionSpec bs a (mkFull v (Some w) None))
  | ChunkedLocalAttentionSpec bs a c =>
      Ok (FullAttentionSpec bs (mkAttn (num_kv_heads a) (head_size a) (dtype a) NONE (page_size_padded a))
            (mkFull (head_size a) None (Some c)))
  | _ => Ok s
  end.

(** [is_kv_cache_spec_uniform(...) or UniformTypeKVCacheSpecs.is_uniform_type(...)]. *)
Definition one_type specs : res bool :=
  uniform ← is_kv_cache_spec_uniform specs;
  if uniform : bool then Ok true else is_uniform_type specs.

Definition unify_hybrid_kv_cache_specs specs : res specs_dict :=
  uniform ← one_type specs;
  if uniform : bool then Ok specs
  else
    let values := specs.*2 in
    let has_full_attention := existsb is_full_attention values in
    uniform_block_size ←
      (if existsb is_sliding_window_mla values then
         py_assert has_full_attention;;
         any_full_spec ← py_nth (filter (λ s, is_full_attention s) values) 0;
         Ok (Some (spec_block_size any_full_spec))
       else Ok None);
    specs' ←
      (if has_full_attention && (existsb is_sliding_window values || existsb is_chunked values)
       then mapM_res (λ l : string * KVCacheSpec, s ← convert_to_full uniform_block_size l.2; Ok (l.1, s)) specs
       else Ok specs);
    unified ← one_type specs';
    if unified : bool then Ok specs' else Raise ValueError.

(** [group_and_unify_kv_cache_specs]: the MLA layers, and the sliding window MLA layers
    by block size and window. *)
Definition swa_key (s : KVCacheSpec) : option (Z * Z) :=
  match s with SlidingWindowMLASpec bs _ _ w _ => Some (bs, w) | _ => None end.

Definition group_mla_layer (st : specs_dict * list ((Z * Z) * specs_dict)) (l : string * KVCacheSpec) :=
  let '(mla_specs, grouped) := st in
  match swa_key l.2 with
  | Some key => (mla_specs, dict_append grouped key l)
  | None => if is_mla l.2 then (mla_specs ++ [l], grouped) else (mla_specs, grouped)
  end.

(** [from_specs] followed by the assertion that it is not [None]; the block size and the
    layers of a [UniformTypeKVCacheSpecs]. *)
Definition uniform_group specs : res (Z * specs_dict) :=
  g ← from_specs specs;
  match g with Some (UniformTypeKVCacheSpecs bs specs) => Ok (bs, specs) | _ => Raise AssertionError end.

Definition group_and_unify_kv_cache_specs specs : res (option (list (Z * specs_dict))) :=
  if negb (existsb is_sliding_window_mla specs.*2) then Ok None
  else
    let '(mla_specs, grouped) := foldl group_mla_layer ([], []) specs in
    py_assert (negb (is_nil mla_specs));;
    mla_uniform_spec ← uniform_group mla_specs;
    swa_uniform_specs ← mapM_res (λ p : (Z * Z) * specs_dict, uniform_group p.2) grouped;
    Ok (Some (mla_uniform_spec :: swa_uniform_specs)).

(** [_approximate_gcd]: the padding of a chunk size, a round of the loop, the search. *)
Definition gcd_pad (values : list Z) (d : Z) : Z := zsum ((λ x, (d - x `mod` d) `mod` d) <$> values).

Definition gcd_round (values : list Z) (best : Z * option Z) (d : Z) : Z * option Z :=
  let '(best_d, best_pad) := best in
  let pad := gcd_pad values d in
  match best_pad with
  | None => (d, Some pad)
  | Some b => if bool_decide (pad < b) || (bool_decide (pad = b) && bool_decide (best_d < d)) then (d, Some pad) else best
  end.

Definition _approximate_gcd (values : list Z) (lower_bound : option Z) : res Z :=
  if is_nil values then Raise ValueError
  else if existsb (λ x, bool_decide (x ≤ 0)) values then Raise ValueError
  else
    let min_d := Z.max 1 (default 1 lower_bound) in
    max_d ← py_max values;
    if bool_decide (max_d < min_d) then Ok min_d
    else Ok (foldl (gcd_round values) (min_d, None) (zrange min_d (max_d + 1))).1.

(** [_get_kv_cache_groups_uniform_groups].  The page of a sliding window layer is padded
    to the nearest size of the full layers. *)
Definition pad_swa_layer (all_page_sizes : list Z) (l : string * KVCacheSpec) : res (Z * (string * KVCacheSpec)) :=
  let '(layer_name, layer_spec) := l in
  current_size ← page_size_bytes layer_spec;
  candidate ← py_min (filter (λ x, current_size ≤ x) all_page_sizes);
  Ok (candidate, (layer_name, if bool_decide (current_size < candidate)
                              then set_page_size_padded layer_spec candidate else layer_spec)).

(** [list(zip( *columns))] of columns with [n] entries. *)
Definition zip_columns {A} (n : nat) (columns : list (list A)) : list (list A) :=
  (λ i, omap (lookup i) columns) <$> seq 0 n.

(** One group of layer tuples. *)
Definition swa_group specs (names : list string) : res LayerGroup :=
  group_layer_specs ← mapM_res (λ name, s ← od_lookup specs name; Ok (name, s)) names;
  '(bs, sub) ← uniform_group group_layer_specs;
  Ok (mkLayerGroup names (UniformTypeKVCacheSpecs bs sub) false).

Definition split_swa_specs (num_layer_tuples : Z) (all_page_sizes : list Z) (sm : Z * specs_dict)
    : res (list LayerGroup) :=
  sm_page_sizes ← get_page_sizes sm.2;
  m ← py_max sm_page_sizes;
  m' ← py_max all_page_sizes;
  py_assert (bool_decide (m ≤ m'));;
  padded ← mapM_res (pad_swa_layer all_page_sizes) sm.2;
  let layers_per_size := foldl (λ d (c : Z * (string * KVCacheSpec)), dict_append d c.1 c.2.1) [] padded in
  py_assert (one_value ((λ p : Z * list string, length p.2) <$> layers_per_size));;
  first ← py_nth layers_per_size 0;
  let num_tuple_groups := cdiv (zlen first.2) num_layer_tuples in
  let layer_tuples := zip_columns (length first.2) layers_per_size.*2 in
  mapM_res (λ i, swa_group padded.*2 (concat (py_stride layer_tuples i num_tuple_groups))) (zrange 0 num_tuple_groups).

Definition _get_kv_cache_groups_uniform_groups (grouped_specs : list (Z * specs_dict)) : res (list LayerGroup) :=
  match grouped_specs with
  | [] => Raise AssertionError
  | (bs, full_mla_spec) :: swa_mla_specs =>
      py_assert (forallb is_mla full_mla_spec.*2);;
      let full_mla_group := mkLayerGroup full_mla_spec.*1 (UniformTypeKVCacheSpecs bs full_mla_spec) false in
      num_layer_tuples_per_group ← mapM_res (λ g : Z * specs_dict, get_num_layer_tuples g.2) grouped_specs;
      lower_bound ← py_nth num_layer_tuples_per_group 0;
      num_layer_tuples ← _approximate_gcd num_layer_tuples_per_group (Some lower_bound);
      py_assert (forallb (λ g : Z * specs_dict, forallb is_sliding_window_mla g.2.*2) swa_mla_specs);;
      all_page_sizes ← get_page_sizes full_mla_spec;
      swa_mla_groups ← mapM_res (split_swa_specs num_layer_tuples all_page_sizes) swa_mla_specs;
      Ok (full_mla_group :: concat swa_mla_groups)
  end.

(** [_annotate_eagle_groups_deepseek_v4]: the first group that has the last layer. *)
Fixpoint flag_eagle_group (last_layer : string) (groups : list LayerGroup) : list LayerGroup :=
  match groups with
  | [] => []
  | g :: groups =>
      if bool_decide (last_layer ∈ layer_names g) then mkLayerGroup (layer_names g) (lg_spec g) true :: groups
      else g :: flag_eagle_group last_layer groups
  end.

Definition _annotate_eagle_groups_deepseek_v4 vc specs (groups : list LayerGroup) : list LayerGroup :=
  if negb (vc_use_eagle vc) then groups
  else if negb (existsb (λ s, bool_decide ((spec_mla s ≫= model_version) = Some "deepseek_v4")) specs.*2) then groups
  else match last specs with Some (last_layer, _) => flag_eagle_group last_layer groups | None => groups end.

(** [get_kv_cache_groups]. *)
Definition get_kv_cache_groups vc specs : res (list LayerGroup) :=
  specs ← (if vc_disable_hybrid_kv_cache_manager vc then unify_hybrid_kv_cache_specs specs else Ok specs);
  if is_nil specs then Ok []
  else
    uniform ← is_kv_cache_spec_uniform specs;
    if uniform : bool then _get_kv_cache_groups_uniform_spec specs
    else
      uniform_spec ← from_specs specs;
      match uniform_spec with
      | Some (UniformTypeKVCacheSpecs bs specs) => Ok (_get_kv_cache_groups_uniform_type bs specs)
      | _ =>
          grouped_specs ← group_and_unify_kv_cache_specs specs;
          match grouped_specs with
          | Some grouped_specs =>
              groups ← _get_kv_cache_groups_uniform_groups grouped_specs;
              Ok (_annotate_eagle_groups_deepseek_v4 vc specs groups)
          | None =>
              specs ← unify_kv_cache_spec_page_size specs;
              _get_kv_cache_groups_uniform_page_size specs
          end
      end.

(** ** Tensors *)

(** [_get_kv_cache_config_deepseek_v4]: the layers of a group by page size, then one
    tensor for each position in the buckets and each page size. *)
Definition bucket_group (g : LayerGroup) : res (list (Z * list string)) :=
  py_assert (is_uniform_specs (lg_spec g));;
  foldM (λ b name, s ← od_lookup (uniform_specs g) name; page ← page_size_bytes s; Ok (dict_append b page name))
    [] (layer_names g).

Definition bucket_slot (tuple_idx ps : Z) (b : list (Z * list string)) : option string :=
  bucket ← od_get b ps; bucket !! Z.to_nat tuple_idx.

Definition _get_kv_cache_config_deepseek_v4 vc (groups : list LayerGroup) (available_memory : Z)
    : res (Z * list KVCacheTensor) :=
  g0 ← py_nth groups 0;
  py_assert (is_uniform_specs (lg_spec g0));;
  page_sizes ← get_page_sizes (uniform_specs g0);
  let page_sizes := merge_sort Z.le page_sizes in
  let layer_tuple_page_bytes := zsum page_sizes in
  bucketed ← mapM_res bucket_group groups;
  num_layer_tuples ← py_max (zlen <$> (bucketed ≫= λ b, b.*2));
  num_blocks ← py_floordiv available_memory (layer_tuple_page_bytes * num_layer_tuples);
  let num_blocks := may_override_num_blocks vc num_blocks in
  let tensors := tuple_idx ← zrange 0 num_layer_tuples; ps ← page_sizes;
                 [mkTensor (ps * num_blocks) (omap (bucket_slot tuple_idx ps) bucketed)] in
  Ok (num_blocks, tensors).

(** [get_kv_cache_config_from_groups]. *)
Definition layer_tensor specs (num_blocks : Z) (layer_name : string) : res KVCacheTensor :=
  s ← od_lookup specs layer_name; page ← page_size_bytes s; Ok (mkTensor (page * num_blocks) [layer_name]).

(** The layers that share the [i]-th tensor, one of each group that is long enough. *)
Definition shared_layers (groups : list LayerGroup) (i : Z) : list string :=
  omap (λ g, layer_names g !! Z.to_nat i) groups.

Definition get_kv_cache_config_from_groups vc (groups : list LayerGroup) (available_memory : Z) : res WorkerConfig :=
  match groups with
  | [] => Ok (mkWorkerConfig 1 [] [])
  | [mkLayerGroup names (UniformTypeKVCacheSpecs _ per_layer_specs as g) _] =>
      page ← group_page_size g;
      num_blocks ← py_floordiv available_memory page;
      let num_blocks := may_override_num_blocks vc num_blocks in
      tensors ← mapM_res (layer_tensor per_layer_specs num_blocks) names;
      Ok (mkWorkerConfig num_blocks tensors groups)
  | _ =>
      if all_uniform_specs groups then
        '(num_blocks, tensors) ← _get_kv_cache_config_deepseek_v4 vc groups available_memory;
        Ok (mkWorkerConfig num_blocks tensors groups)
      else
        group_size ← max_group_len groups;
        page_size ← get_uniform_page_size (lg_spec <$> groups);
        py_assert (bool_decide (0 < group_size));;
        num_blocks ← get_num_blocks vc group_size available_memory page_size;
        let tensors := (λ i, mkTensor (page_size * num_blocks) (shared_layers groups i)) <$> zrange 0 group_size in
        Ok (mkWorkerConfig num_blocks tensors groups)
  end.

(** [generate_scheduler_kv_cache_config]; the scheduler has no use for the layer names. *)
Definition scheduler_group (g : LayerGroup) : res KVCacheGroupSpec :=
  match lg_spec g with
  | LayerSpec s => Ok (mkGroup s (lg_is_eagle_group g))
  | UniformTypeKVCacheSpecs _ ((_, s) :: _) => Ok (mkGroup s (lg_is_eagle_group g))
  | UniformTypeKVCacheSpecs _ [] => Raise StopIteration
  end.

Definition generate_scheduler_kv_cache_config (configs : list WorkerConfig) : res KVCacheConfig :=
  match configs with
  | [] => Raise IndexError
  | cfg :: _ =>
      py_assert (forallb (λ c, bool_decide (wc_num_blocks c = wc_num_blocks cfg)) configs);;
      groups ← mapM_res scheduler_group (wc_groups cfg);
      Ok (mkConfig (wc_num_blocks cfg) groups)
  end.

(** [get_max_concurrency_for_kv_cache_config] and [_report_kv_cache_config], which logs
    the number of tokens. *)
Definition get_max_concurrency_for_kv_cache_config vc (c : WorkerConfig) : res float64 :=
  num_layer_per_group ← max_group_len (wc_groups c);
  usage ← max_memory_usage_bytes vc (lg_spec <$> wc_groups c);
  let max_memory_usage_per_request := num_layer_per_group * usage in
  g0 ← py_nth (wc_groups c) 0;
  page ← group_page_size (lg_spec g0);
  num_block_per_request ← py_cdiv max_memory_usage_per_request (page * num_layer_per_group);
  py_divisor num_block_per_request;;
  Ok (int_truediv (wc_num_blocks c) num_block_per_request).

Definition _report_kv_cache_config vc (c : WorkerConfig) : res Z :=
  max_concurrency ← get_max_concurrency_for_kv_cache_config vc c;
  Ok (ftrunc (fmul max_concurrency (float_of_Z (vc_max_model_len vc)))).

(** ** The length that fits *)

(** [_max_memory_usage_bytes_from_groups]. *)
Definition uniform_group_bytes vc (num_layer_tuples layer_tuple_bytes : Z) (g : LayerGroup) : res Z :=
  pages ← max_memory_usage_pages vc (uniform_specs g); Ok (num_layer_tuples * pages * layer_tuple_bytes).

Definition group_blocks vc (page_size : Z) (g : LayerGroup) : res Z :=
  bytes ← group_max_memory_usage_bytes vc (lg_spec g); py_cdiv bytes page_size.

Definition _max_memory_usage_bytes_from_groups vc (groups : list LayerGroup) : res Z :=
  match groups with
  | [] => Ok 0
  | [mkLayerGroup _ (UniformTypeKVCacheSpecs _ per_layer_specs) _] =>
      sizes ← mapM_res (spec_max_memory_usage_bytes vc) per_layer_specs.*2; Ok (zsum sizes)
  | _ =>
      if all_uniform_specs groups then
        g0 ← py_nth groups 0;
        page_sizes ← get_page_sizes (uniform_specs g0);
        num_layer_tuples ← max_layer_tuples groups;
        sizes ← mapM_res (uniform_group_bytes vc num_layer_tuples (zsum page_sizes)) groups;
        Ok (zsum sizes)
      else
        group_size ← max_group_len groups;
        page_size ← get_uniform_page_size (lg_spec <$> groups);
        blocks ← mapM_res (group_blocks vc page_size) groups;
        Ok (group_size * page_size * zsum blocks)
  end.

(** [_estimate_max_model_len_from_groups]. *)
Definition groups_fit vc (groups : list LayerGroup) (available_memory model_len : Z) : res bool :=
  needed ← _max_memory_usage_bytes_from_groups (set_vc_max_model_len vc model_len) groups;
  Ok (bool_decide (needed ≤ available_memory)).

Definition _estimate_max_model_len_from_groups vc (groups : list LayerGroup) (available_memory : Z) : res Z :=
  largest_model_len (groups_fit vc groups available_memory) (vc_max_model_len vc).

(** [_auto_fit_max_model_len]: the configuration with the length that fits. *)
Definition _auto_fit_max_model_len vc (projected_groups_per_worker : list (list LayerGroup))
    (available_memory : list Z) : res VllmConfig :=
  let original_max := vc_max_model_len vc in
  if forallb is_nil projected_groups_per_worker then Ok vc
  else
    _ ← py_nth available_memory 0;
    auto_fit_max ← foldM (λ acc (w : list LayerGroup * Z),
        if is_nil w.1 then Ok acc
        else worker_max ← _estimate_max_model_len_from_groups vc w.1 w.2; Ok (Z.min acc worker_max))
      original_max (zip projected_groups_per_worker available_memory);
    if bool_decide (auto_fit_max ≤ 0) then Raise ValueError
    else if bool_decide (original_max ≤ auto_fit_max) then Ok vc
    else Ok (set_vc_max_model_len vc auto_fit_max).

(** ** The configurations of the workers *)

(** [_project_kv_cache_groups_to_worker]. *)
Definition project_group (worker_spec : specs_dict) (g : LayerGroup) : res LayerGroup :=
  let worker_layer_names := filter (λ name, od_mem worker_spec name) (layer_names g) in
  group_spec ←
    match lg_spec g with
    | UniformTypeKVCacheSpecs bs specs =>
        if is_nil worker_layer_names then Ok (lg_spec g)
        else specs' ← mapM_res (λ name, s ← od_lookup specs name; Ok (name, s)) worker_layer_names;
             Ok (UniformTypeKVCacheSpecs bs specs')
    | LayerSpec _ => Ok (lg_spec g)
    end;
  Ok (mkLayerGroup worker_layer_names group_spec (lg_is_eagle_group g && negb (is_nil worker_layer_names))).

Definition _project_kv_cache_groups_to_worker (groups : list LayerGroup) (worker_spec : specs_dict)
    : res (list LayerGroup) := mapM_res (project_group worker_spec) groups.

(** [get_kv_cache_configs], piece by piece: merging the specifications of the workers; *)
Definition merge_worker_layer (merged : specs_dict) (l : string * KVCacheSpec) : res specs_dict :=
  match od_get merged l.1 with
  | None => Ok (od_set merged l.1 l.2)
  | Some s => py_assert (bool_decide (s = l.2));; Ok merged
  end.
Definition merge_worker_specs (kv_cache_specs : list specs_dict) : res specs_dict :=
  foldM (λ merged worker, foldM merge_worker_layer merged worker) [] kv_cache_specs.

(** the memory when the number of blocks is overridden; *)
Definition adjust_memory vc (projected : list (list LayerGroup)) (available_memory : list Z) : res (list Z) :=
  match vc_num_gpu_blocks_override vc with
  | None => Ok available_memory
  | Some override =>
      mapM_res (λ w : list LayerGroup * Z,
        if is_nil w.1 then Ok w.2
        else bytes_per_block ← _pool_bytes_per_block w.1;
             _ ← py_floordiv w.2 bytes_per_block;
             Ok (override * bytes_per_block)) (zip projected available_memory)
  end.

(** the check of a worker, the configuration of a worker; *)
Definition check_worker vc (w : list LayerGroup * Z) : res unit :=
  if is_nil w.1 then Ok tt
  else _check_enough_kv_cache_memory w.2 (λ _, _max_memory_usage_bytes_from_groups vc w.1)
         (_estimate_max_model_len_from_groups vc w.1).

Definition worker_config vc (w : (list LayerGroup * specs_dict) * Z) : res WorkerConfig :=
  let '((groups, worker_spec), memory) := w in
  py_assert (bool_decide (zsum ((λ g, zlen (layer_names g)) <$> groups) = zlen worker_spec));;
  get_kv_cache_config_from_groups vc groups memory.

(** and shrinking all of them to the smallest number of blocks. *)
Definition shrink_tensor (old new : Z) (t : KVCacheTensor) : res KVCacheTensor :=
  rest ← py_mod (tensor_size t) old;
  py_assert (bool_decide (rest = 0));;
  Ok (mkTensor (tensor_size t / old * new) (shared_by t)).

Definition shrink_config vc (min_num_blocks : Z) (c : WorkerConfig) : res WorkerConfig :=
  tensors ← mapM_res (shrink_tensor (wc_num_blocks c) min_num_blocks) (kv_cache_tensors c);
  let c' := mkWorkerConfig min_num_blocks tensors (wc_groups c) in
  if is_nil (wc_groups c') then Ok c' else _ ← _report_kv_cache_config vc c'; Ok c'.

(** It returns the configuration too, whose [max_model_len] may have been fitted. *)
Definition get_kv_cache_configs vc (kv_cache_specs : list specs_dict) (available_memory : list Z)
    : res (VllmConfig * list WorkerConfig) :=
  merged ← merge_worker_specs kv_cache_specs;
  global_groups ← get_kv_cache_groups vc merged;
  projected ← mapM_res (_project_kv_cache_groups_to_worker global_groups) kv_cache_specs;
  available_memory ← adjust_memory vc projected available_memory;
  vc ← (if bool_decide (vc_original_max_model_len vc = -1)
        then _auto_fit_max_model_len vc projected available_memory else Ok vc);
  foldM (λ _ w, check_worker vc w) tt (zip projected available_memory);;
  configs ← mapM_res (worker_config vc) (zip (zip projected kv_cache_specs) available_memory);
  min_num_blocks ← py_min (wc_num_blocks <$> configs);
  configs ← mapM_res (shrink_config vc min_num_blocks) configs;
  Ok (vc, configs).
End CacheConfig.
