(* ===== verification/CacheFit.v ===== *)
(** * The length that fits in memory

    The memory of a request grows with [max_model_len] ([usage_mono]), so the binary
    search finds the largest length that fits ([estimate_finds]), and a length
    chosen by the automatic fit passes the check of every worker
    ([auto_fit_longest]). *)

From S2P Require Import Prelude OrderedDict KVCacheSpec CacheSizes CacheConfig.

(** The next call of a computation that is known to return. *)
Tactic Notation "bind_ok" simple_intropattern(p) "as" ident(E) :=
  match goal with |- @mbind res _ _ _ _ ?m = Ok _ → _ =>
    destruct m as [p|] eqn:E; [cbn [mbind res_bind]|discriminate] end.

Lemma py_assert_Ok b u : py_assert b = Ok u → b = true.
Proof. by destruct b. Qed.

(** ** Results ordered pointwise

    [x ⊑ y]: both raise the same exception, or both return and [x] is at most [y]. *)

Definition le_with {A} (R : A → A → Prop) (x y : res A) : Prop :=
  match x, y with Ok a, Ok b => R a b | Raise e, Raise e' => e = e' | _, _ => False end.
Infix "⊑ᵣ" := (le_with Z.le) (at level 70).

Lemma le_with_bind {A B} (R : A → A → Prop) (Q : B → B → Prop) x y (f g : A → res B) :
  le_with R x y → (∀ a b, R a b → le_with Q (f a) (g b)) → le_with Q (x ≫= f) (y ≫= g).
Proof. destruct x, y; cbn; naive_solver. Qed.

(** The same computation on both sides. *)
Lemma le_with_same {A B} (Q : B → B → Prop) (x : res A) (f g : A → res B) :
  (∀ a, x = Ok a → le_with Q (f a) (g a)) → le_with Q (x ≫= f) (x ≫= g).
Proof. destruct x; cbn; naive_solver. Qed.

Lemma le_with_mapM {A B} (R : B → B → Prop) (f g : A → res B) (l : list A) :
  (∀ x, x ∈ l → le_with R (f x) (g x)) → le_with (Forall2 R) (mapM_res f l) (mapM_res g l).
Proof.
  induction l as [|x l IH]; intros Hl; cbn [mapM_res]; [by constructor|].
  apply (le_with_bind R); [apply Hl; left|]. intros a b Hab.
  apply (le_with_bind (Forall2 R)); [apply IH; intros y Hy; apply Hl; by right|]. intros. by constructor.
Qed.

Lemma le_with_Ok {A} (R : A → A → Prop) x y b : le_with R x y → y = Ok b → ∃ a, x = Ok a ∧ R a b.
Proof. intros H ->. destruct x as [a|]; [by exists a|done]. Qed.

Lemma zsum_mono l l' : Forall2 Z.le l l' → zsum l ≤ zsum l'.
Proof. induction 1; [done|]. rewrite !zsum_cons. lia. Qed.

(** ** [max] and [min] *)

Lemma foldl_max l : ∀ x, foldl Z.max x l ∈ x :: l ∧ ∀ y, y ∈ x :: l → y ≤ foldl Z.max x l.
Proof.
  induction l as [|z l IH]; intros x; cbn [foldl].
  { split; [left|]. intros y ->%list_elem_of_singleton. done. }
  destruct (IH (Z.max x z)) as [Hin Hle]. split.
  - apply elem_of_cons in Hin as [E|Hin]; [|by right; right].
    rewrite E. destruct (Z.max_spec x z) as [[_ ->]|[_ ->]]; [right; left|left].
  - intros y Hy. assert (Z.max x z ≤ foldl Z.max (Z.max x z) l) by (apply Hle; left).
    apply elem_of_cons in Hy as [->|[->|Hy]%elem_of_cons]; [lia|lia|apply Hle; by right].
Qed.

Lemma foldl_min l : ∀ x, foldl Z.min x l ∈ x :: l ∧ ∀ y, y ∈ x :: l → foldl Z.min x l ≤ y.
Proof.
  induction l as [|z l IH]; intros x; cbn [foldl].
  { split; [left|]. intros y ->%list_elem_of_singleton. done. }
  destruct (IH (Z.min x z)) as [Hin Hle]. split.
  - apply elem_of_cons in Hin as [E|Hin]; [|by right; right].
    rewrite E. destruct (Z.min_spec x z) as [[_ ->]|[_ ->]]; [left|right; left].
  - intros y Hy. assert (foldl Z.min (Z.min x z) l ≤ Z.min x z) by (apply Hle; left).
    apply elem_of_cons in Hy as [->|[->|Hy]%elem_of_cons]; [lia|lia|apply Hle; by right].
Qed.

Lemma py_max_Ok l m : py_max l = Ok m → m ∈ l ∧ ∀ x, x ∈ l → x ≤ m.
Proof. destruct l as [|x l]; cbn [py_max]; [done|]. intros [= <-]. apply foldl_max. Qed.

Lemma py_min_Ok l m : py_min l = Ok m → m ∈ l ∧ ∀ x, x ∈ l → m ≤ x.
Proof. destruct l as [|x l]; cbn [py_min]; [done|]. intros [= <-]. apply foldl_min. Qed.

Lemma py_max_mono l l' : Forall2 Z.le l l' → py_max l ⊑ᵣ py_max l'.
Proof.
  intros HF. destruct (py_max l) as [m|] eqn:E, (py_max l') as [m'|] eqn:E'; cbn;
    [|destruct HF; cbn in *; congruence..].
  apply py_max_Ok in E as [Hin _]. apply py_max_Ok in E' as [_ Hle].
  apply list_elem_of_lookup in Hin as [i Hi]. destruct (Forall2_lookup_l _ _ _ _ _ HF Hi) as (y & Hy & ?).
  assert (y ≤ m') by (apply Hle; by eapply list_elem_of_lookup_2). lia.
Qed.

Lemma py_nth_first {A} (l : list A) x : py_nth l 0 = Ok x → l !! 0%nat = Some x.
Proof. unfold py_nth. cbn. by destruct l; [|intros [= ->]]. Qed.

(** ** The binary search *)

Section Search.
Context (fits : Z → res bool) (f : Z → bool) (hi : Z) (Hhi : 1 ≤ hi).
Context (Hfits : ∀ n, 1 ≤ n ≤ hi → fits n = Ok (f n)).
Context (Hmono : ∀ m n, 1 ≤ m ≤ n → n ≤ hi → f n = true → f m = true).

(** [k] is the last length that fits. *)
Definition last_fit (k : Z) : Prop := 1 ≤ k ≤ hi ∧ f k = true ∧ ∀ n, k < n ≤ hi → f n = false.

Lemma search_finds fuel : ∀ l r k,
  1 ≤ l ≤ r + 1 → r ≤ hi → r - l + 1 < 2 ^ Z.of_nat fuel → f k = true → k = Z.max 1 (l - 1) →
  (∀ n, r < n ≤ hi → f n = false) →
  ∃ k', search_model_len fits fuel l r k = Ok k' ∧ last_fit k'.
Proof.
  induction fuel as [|fuel IH]; intros l r k Hl Hr Hf Hk Ek Hn; cbn [search_model_len]; goal_bool as E.
  - cbn in Hf. lia.
  - exists k. assert (k ≤ r) by (destruct (decide (k ≤ r)); [done|rewrite (Hn k) in Hk; [done|lia]]).
    split; [done|]. split_and!; [lia|lia|done|]. intros n Hkn. apply Hn. lia.
  - set (mid := (l + r) / 2). assert (l ≤ mid ≤ r) by (unfold mid; split; [apply Z.div_le_lower_bound|apply Z.div_le_upper_bound]; lia).
    assert (2 * mid ≤ l + r < 2 * mid + 2) by (unfold mid; pose proof (Z.div_mod (l + r) 2 ltac:(lia)); pose proof (Z.mod_pos_bound (l + r) 2 ltac:(lia)); lia).
    rewrite Nat2Z.inj_succ Z.pow_succ_r in Hf; [|lia].
    rewrite Hfits; [|lia]. cbn [mbind res_bind]. destruct (f mid) eqn:Em; apply IH; try done || lia.
    intros n Hmn. destruct (decide (r < n)); [apply Hn; lia|]. destruct (f n) eqn:En; [|done].
    rewrite -Em. symmetry. apply (Hmono mid n); [lia|lia|done].
  - exists k. assert (k ≤ r) by (destruct (decide (k ≤ r)); [done|rewrite (Hn k) in Hk; [done|lia]]).
    split; [done|]. split_and!; [lia|lia|done|]. intros n Hkn. apply Hn. lia.
Qed.

Lemma largest_finds :
  ∃ k, largest_model_len fits hi = Ok k ∧ 0 ≤ k ≤ hi ∧ ∀ n, 1 ≤ n ≤ hi → f n = bool_decide (n ≤ k).
Proof.
  unfold largest_model_len. rewrite Hfits; [|lia]. cbn [mbind res_bind]. destruct (f 1) eqn:E1.
  - destruct (search_finds (Z.to_nat (Z.log2 hi + 1)) 1 hi 1) as (k & -> & Hk & Hfk & Hlast); [lia|lia| |done|done|lia|].
    { pose proof (Z.log2_nonneg hi). rewrite Z2Nat.id; [|lia]. rewrite Z.add_1_r. pose proof (Z.log2_spec hi). lia. }
    exists k. split_and!; [done|lia|lia|]. intros n Hn. goal_bool as E; [apply (Hmono n k); [lia|lia|done]|apply Hlast; lia].
  - exists 0. split_and!; [done|lia|lia|]. intros n Hn. rewrite (bool_decide_false (n ≤ 0)); [|lia].
    destruct (f n) eqn:En; [|done]. rewrite -E1. symmetry. apply (Hmono 1 n); [lia|lia|done].
Qed.
End Search.

(** ** Memory grows with the length *)

Section Fit.
Context {torch : TorchLib}.
Implicit Types (vc : VllmConfig) (s : KVCacheSpec) (specs : specs_dict) (groups : list LayerGroup).

(** A specification with a block size and a page of positive size. *)
Definition sized s : Prop := 0 < spec_block_size s ∧ ∃ p, page_size_bytes s = Ok p ∧ 0 < p.

(** The specifications of a group. *)
Definition group_specs (g : GroupSpec) : list KVCacheSpec :=
  match g with LayerSpec s => [s] | UniformTypeKVCacheSpecs _ specs => specs.*2 end.

Definition group_sized (g : GroupSpec) : Prop := Forall sized (group_specs g).

(** Two configurations that differ at most in the length, and the lengths are ordered. *)
Definition shorter vc vc' : Prop := ∃ m n, m ≤ n ∧ vc = set_vc_max_model_len vc' m ∧ n = vc_max_model_len vc'.

Lemma py_cdiv_pos a b : 0 < b → py_cdiv a b = Ok (cdiv a b).
Proof. intros Hb. unfold py_cdiv. rewrite (bool_decide_false (b = 0)); [done|lia]. Qed.

Lemma py_cdiv_mono a a' b : 0 < b → a ≤ a' → py_cdiv a b ⊑ᵣ py_cdiv a' b.
Proof. intros Hb Ha. rewrite !py_cdiv_pos //. by apply cdiv_mono. Qed.

(** A product with the page of a layer. *)
Lemma pages_mono s (x y : res Z) : sized s → x ⊑ᵣ y →
  (n ← x; page ← page_size_bytes s; Ok (n * page)) ⊑ᵣ (n ← y; page ← page_size_bytes s; Ok (n * page)).
Proof.
  intros [_ (p & -> & Hp)] H. apply (le_with_bind Z.le); [done|]. intros a b Hab. cbn. nia.
Qed.

Lemma spec_usage_mono vc vc' s : shorter vc vc' → sized s →
  spec_max_memory_usage_bytes vc s ⊑ᵣ spec_max_memory_usage_bytes vc' s.
Proof.
  intros (m & n & Hmn & -> & ->) Hs. pose proof Hs as [Hbs (p & Hp & Hpos)].
  destruct s; cbn [spec_max_memory_usage_bytes spec_block_size] in *;
    unfold full_max_memory_usage, chunked_max_memory_usage, sliding_max_memory_usage, mamba_max_memory_usage, cross_max_memory_usage;
    cbn [set_vc_max_model_len vc_max_model_len
    vc_decode_context_parallel_size vc_prefill_context_parallel_size vc_max_num_batched_tokens vc_mamba_cache_mode
    vc_max_num_encoder_input_tokens].
  1-4: apply (pages_mono _ _ _ Hs), py_cdiv_mono; [done|];
    goal_bool as E; [apply cdiv_mono; lia|done].
  - apply le_with_same. intros _ _. apply (pages_mono _ (Ok _) (Ok _) Hs). cbn. apply cdiv_mono; lia.
  - apply le_with_same. intros _ _. apply le_with_same. intros _ _. apply (pages_mono _ (Ok _) (Ok _) Hs). cbn.
    unfold sliding_max_admission. apply Z.add_le_mono_r, cdiv_mono; lia.
  - apply le_with_same. intros _ _. apply le_with_same. intros _ _. apply (pages_mono _ (Ok _) (Ok _) Hs). cbn.
    unfold sliding_max_admission. apply Z.add_le_mono_r, cdiv_mono; lia.
  - goal_bool as E; [by apply (pages_mono _ _ _ Hs), py_cdiv_mono|]. rewrite Hp. destruct (bool_decide _); cbn; lia.
  - rewrite py_cdiv_pos // Hp. cbn. lia.
Qed.

Lemma spec_pages_mono vc vc' s : shorter vc vc' → sized s → spec_pages vc s ⊑ᵣ spec_pages vc' s.
Proof.
  intros Hvc Hs. apply (le_with_bind Z.le); [by apply spec_usage_mono|]. intros a b Hab.
  destruct Hs as [_ (p & -> & Hp)]. cbn. by apply py_cdiv_mono.
Qed.

Lemma max_pages_mono vc vc' specs : shorter vc vc' → Forall sized specs.*2 →
  max_memory_usage_pages vc specs ⊑ᵣ max_memory_usage_pages vc' specs.
Proof.
  intros Hvc Hs. apply (le_with_bind (Forall2 Z.le)); [|apply py_max_mono].
  apply le_with_mapM. intros s Hin. rewrite Forall_forall in Hs. by apply spec_pages_mono; [|apply Hs].
Qed.

Lemma layer_page_sizes_ok specs : Forall sized specs.*2 →
  ∃ sizes, layer_page_sizes specs = Ok sizes ∧ Forall (λ p, 0 < p) sizes.
Proof.
  unfold layer_page_sizes. induction specs.*2 as [|s l IH]; [intros _; by exists []|].
  intros [(_ & p & Hp & Hpos) Hl]%Forall_cons. destruct (IH Hl) as (sizes & E & Hs).
  exists (p :: sizes). cbn [mapM_res]. rewrite Hp E. split; [done|by constructor].
Qed.

Lemma zsum_positive l : Forall (λ x, 0 < x) l → 0 ≤ zsum l.
Proof. intros H. apply zsum_nonneg. eapply Forall_impl; [exact H|]. intros x. cbn. lia. Qed.

Lemma group_page_nonneg g p : group_sized g → group_page_size g = Ok p → 0 ≤ p.
Proof.
  destruct g as [s|bs specs]; unfold group_sized; cbn.
  - intros [(_ & q & -> & Hq) _]%Forall_cons [= <-]. lia.
  - intros (sizes & -> & Hs)%layer_page_sizes_ok [= <-]. by apply zsum_positive.
Qed.

Lemma group_usage_mono vc vc' g : shorter vc vc' → group_sized g →
  group_max_memory_usage_bytes vc g ⊑ᵣ group_max_memory_usage_bytes vc' g.
Proof.
  intros Hvc Hg. destruct g as [s|bs specs]; cbn [group_max_memory_usage_bytes].
  - apply Forall_cons in Hg as [Hs _]. by apply spec_usage_mono.
  - apply (le_with_bind Z.le); [by apply max_pages_mono|]. intros a b Hab. apply le_with_same. intros p Hp.
    cbn [le_with]. pose proof (group_page_nonneg _ _ Hg Hp). nia.
Qed.

(** ** Memory of the groups *)

Definition groups_sized groups : Prop := Forall (λ g, group_sized (lg_spec g)) groups.

(** The groups share their tensors, unless there is one group with a size per layer. *)
Definition shared_pool groups : Prop :=
  match groups with [] => False | [mkLayerGroup _ (UniformTypeKVCacheSpecs _ _) _] => False | _ => True end.

Lemma groups_cases groups :
  groups = [] ∨ (∃ names bs specs e, groups = [mkLayerGroup names (UniformTypeKVCacheSpecs bs specs) e]) ∨
  shared_pool groups.
Proof. destruct groups as [|[names [s|bs specs] e] [|g2 gs]]; cbn; naive_solver. Qed.

(** What is fixed of a layout: how many layers lie next to each other and their bytes. *)
Definition usage_shared vc groups : res Z :=
  if all_uniform_specs groups then
    g0 ← py_nth groups 0;
    page_sizes ← get_page_sizes (uniform_specs g0);
    num_layer_tuples ← max_layer_tuples groups;
    sizes ← mapM_res (uniform_group_bytes vc num_layer_tuples (zsum page_sizes)) groups;
    Ok (zsum sizes)
  else
    group_size ← max_group_len groups;
    page_size ← get_uniform_page_size (lg_spec <$> groups);
    blocks ← mapM_res (group_blocks vc page_size) groups;
    Ok (group_size * page_size * zsum blocks).

Lemma usage_shared_eq vc groups : shared_pool groups → _max_memory_usage_bytes_from_groups vc groups = usage_shared vc groups.
Proof. by destruct groups as [|[names [s|bs specs] e] [|g2 gs]]. Qed.

Lemma max_group_len_nonneg groups n : max_group_len groups = Ok n → 0 ≤ n.
Proof. intros [(g & -> & _)%list_elem_of_fmap _]%py_max_Ok. apply zlen_nonneg. Qed.

Lemma max_layer_tuples_nonneg groups n : max_layer_tuples groups = Ok n → 0 ≤ n.
Proof.
  unfold max_layer_tuples. destruct (mapM_res _ _) as [l|] eqn:E; [|done]. intros [Hin _]%py_max_Ok.
  apply mapM_res_Forall2 in E. apply list_elem_of_lookup in Hin as [i Hi].
  destruct (Forall2_lookup_r _ _ _ _ _ E Hi) as (g & _ & Hg). revert Hg. unfold get_num_layer_tuples.
  destruct (layer_page_sizes _) as [[|p sizes]|]; cbn [mbind res_bind]; [done| |done].
  intros [(q & -> & _)%list_elem_of_fmap _]%py_max_Ok. apply zlen_nonneg.
Qed.

Lemma get_page_sizes_nonneg specs sizes : Forall sized specs.*2 → get_page_sizes specs = Ok sizes → 0 ≤ zsum sizes.
Proof.
  unfold get_page_sizes. intros (l & -> & Hl)%layer_page_sizes_ok [= <-]. apply zsum_positive, Forall_forall.
  intros x Hx. rewrite elem_of_remove_dups in Hx. rewrite Forall_forall in Hl. by apply Hl.
Qed.

Lemma uniform_page_size_pos groups p :
  groups_sized groups → existsb (λ g, negb (is_uniform_specs (lg_spec g))) groups = true →
  get_uniform_page_size (lg_spec <$> groups) = Ok p → 0 < p.
Proof.
  intros Hs Hex. unfold get_uniform_page_size. destruct (mapM_res _ _) as [l|] eqn:E; [|done]. cbn [mbind res_bind].
  destruct (remove_dups l) as [|q [|q' l']] eqn:Ed; [done| |done]. intros [= <-].
  apply existsb_exists in Hex as (g & Hg & Hu). apply list_elem_of_In, list_elem_of_lookup in Hg as [i Hi].
  apply mapM_res_Forall2 in E. destruct (Forall2_lookup_l _ _ _ i (lg_spec g) E) as (x & Hx & Hpage).
  { by rewrite list_lookup_fmap Hi. }
  assert (x = q) as ->.
  { apply list_elem_of_singleton. rewrite -Ed elem_of_remove_dups. by eapply list_elem_of_lookup_2. }
  unfold groups_sized in Hs. eapply Forall_lookup_1 in Hs; [|done]. destruct (lg_spec g) as [s|]; [|done].
  apply Forall_cons in Hs as [(_ & r & Hr & ?) _]. cbn in Hpage. congruence.
Qed.

Lemma not_all_uniform groups :
  all_uniform_specs groups = false → existsb (λ g, negb (is_uniform_specs (lg_spec g))) groups = true.
Proof.
  induction groups as [|g groups IH]; [done|]. unfold all_uniform_specs in *. cbn. destruct (is_uniform_specs _); cbn; auto.
Qed.

Lemma usage_mono vc vc' groups : shorter vc vc' → groups_sized groups →
  _max_memory_usage_bytes_from_groups vc groups ⊑ᵣ _max_memory_usage_bytes_from_groups vc' groups.
Proof.
  intros Hvc Hs. destruct (groups_cases groups) as [->|[(names & bs & specs & e & ->)|Hsh]]; [done| |].
  - apply Forall_cons in Hs as [Hs _]. cbn [_max_memory_usage_bytes_from_groups].
    apply (le_with_bind (Forall2 Z.le)); [|intros; cbn; by apply zsum_mono].
    apply le_with_mapM. intros s Hin. unfold group_sized in Hs. rewrite Forall_forall in Hs.
    by apply spec_usage_mono; [|apply Hs].
  - rewrite !usage_shared_eq //. unfold usage_shared. destruct (all_uniform_specs groups) eqn:Eu.
    + apply le_with_same. intros g0 Hg0. apply le_with_same. intros sizes Hsz. apply le_with_same. intros n Hn.
      assert (0 ≤ zsum sizes) as H0.
      { eapply get_page_sizes_nonneg; [|done]. apply py_nth_first in Hg0. eapply Forall_lookup_1 in Hs; [|done].
        unfold uniform_specs. unfold group_sized in Hs. by destruct (lg_spec g0). }
      apply max_layer_tuples_nonneg in Hn. apply (le_with_bind (Forall2 Z.le)); [|intros; cbn; by apply zsum_mono].
      apply le_with_mapM. intros g Hg. apply (le_with_bind Z.le);
        [|intros a b ?; cbn; apply Z.mul_le_mono_nonneg_r; [done|by apply Z.mul_le_mono_nonneg_l]].
      apply max_pages_mono; [done|]. eapply Forall_forall in Hs; [|done]. unfold uniform_specs.
      unfold group_sized in Hs. by destruct (lg_spec g).
    + apply le_with_same. intros n Hn%max_group_len_nonneg. apply le_with_same. intros p Hp.
      apply uniform_page_size_pos in Hp; [|done|by apply not_all_uniform].
      apply (le_with_bind (Forall2 Z.le)); [|intros; cbn; apply Z.mul_le_mono_nonneg_l; [nia|by apply zsum_mono]].
      apply le_with_mapM. intros g Hg. apply (le_with_bind Z.le); [|by intros; apply py_cdiv_mono].
      apply group_usage_mono; [done|]. by eapply Forall_forall in Hs.
Qed.

(** ** The estimate and the automatic fit *)

(** One request of [n] tokens fits in the memory. *)
Definition fits_memory vc groups (memory n : Z) : Prop :=
  ∃ b, _max_memory_usage_bytes_from_groups (set_vc_max_model_len vc n) groups = Ok b ∧ b ≤ memory.

Lemma set_vc_self vc : set_vc_max_model_len vc (vc_max_model_len vc) = vc.
Proof. by destruct vc. Qed.

Lemma set_vc_shorter vc m n : m ≤ n → shorter (set_vc_max_model_len vc m) (set_vc_max_model_len vc n).
Proof. intros H. by exists m, n. Qed.

(** The estimated length is exactly the largest one that fits: the search of at most
    [log2 max_model_len + 1] rounds does not fail, and the lengths up to [max_model_len]
    that fit are those up to its result; [0] says that not even one token fits. *)
Lemma estimate_finds vc groups memory :
  groups_sized groups → 1 ≤ vc_max_model_len vc →
  (∃ b, _max_memory_usage_bytes_from_groups vc groups = Ok b) →
  ∃ k, _estimate_max_model_len_from_groups vc groups memory = Ok k ∧ 0 ≤ k ≤ vc_max_model_len vc ∧
    ∀ n, 1 ≤ n ≤ vc_max_model_len vc → fits_memory vc groups memory n ↔ n ≤ k.
Proof.
  intros Hs Hlen [b Hb].
  set (usage n := _max_memory_usage_bytes_from_groups (set_vc_max_model_len vc n) groups).
  assert (∀ m n, m ≤ n → usage m ⊑ᵣ usage n) as Hmono by (intros; by apply usage_mono; [apply set_vc_shorter|]).
  assert (∀ n, n ≤ vc_max_model_len vc → ∃ a, usage n = Ok a) as Hok.
  { intros n Hn. apply Hmono in Hn. unfold usage in Hn at 2. rewrite set_vc_self Hb in Hn.
    destruct (usage n) as [a|]; [by exists a|done]. }
  destruct (largest_finds (groups_fit vc groups memory)
    (λ n, match usage n with Ok a => bool_decide (a ≤ memory) | Raise _ => false end) (vc_max_model_len vc))
    as (k & Hk & Hrange & Hf).
  - done.
  - intros n Hn. destruct (Hok n) as [a Ha]; [lia|]. unfold groups_fit. fold (usage n). by rewrite Ha.
  - intros m n Hmn Hn. destruct (Hok n Hn) as [a Ha]. rewrite Ha. intros Hle%bool_decide_eq_true.
    destruct (le_with_Ok _ _ _ _ (Hmono m n ltac:(lia)) Ha) as (a' & -> & ?). apply bool_decide_eq_true. lia.
  - exists k. split_and!; [done|lia|lia|]. intros n Hn. specialize (Hf n Hn). destruct (Hok n) as [a Ha]; [lia|].
    rewrite Ha in Hf. unfold fits_memory. fold (usage n). rewrite Ha.
    destruct (bool_decide_reflect (a ≤ memory)), (bool_decide_reflect (n ≤ k)); naive_solver.
Qed.

(** Every worker that has layers can hold a request of [n] tokens. *)
Definition all_fit vc (ws : list (list LayerGroup * Z)) (n : Z) : Prop :=
  ∀ w, w ∈ ws → w.1 ≠ [] → fits_memory vc w.1 w.2 n.

(** What the automatic fit reads of the workers: layers with sizes, whose memory can be
    computed. *)
Definition workers_sized vc (ws : list (list LayerGroup * Z)) : Prop :=
  Forall (λ w, groups_sized w.1 ∧ ∃ b, _max_memory_usage_bytes_from_groups vc w.1 = Ok b) ws.

(** The loop over the workers. *)
Lemma auto_fit_loop vc ws : 1 ≤ vc_max_model_len vc → workers_sized vc ws → ∀ acc, 0 ≤ acc ≤ vc_max_model_len vc →
  ∃ k, foldM (λ acc (w : list LayerGroup * Z),
         if is_nil w.1 then Ok acc
         else worker_max ← _estimate_max_model_len_from_groups vc w.1 w.2; Ok (Z.min acc worker_max)) acc ws = Ok k ∧
    0 ≤ k ≤ acc ∧ ∀ n, 1 ≤ n ≤ acc → all_fit vc ws n ↔ n ≤ k.
Proof.
  intros Hlen. induction ws as [|w ws IH]; intros Hws acc Hacc.
  { exists acc. split_and!; [done|lia|lia|]. intros n Hn. split; [lia|]. by intros _ w ?%not_elem_of_nil. }
  apply Forall_cons in Hws as [[Hs Hb] Hws]. cbn [foldM]. destruct (is_nil w.1) eqn:En; cbn [mbind res_bind].
  - destruct (IH Hws acc Hacc) as (k & -> & Hk & Hf). exists k. split_and!; [done|lia|lia|]. intros n Hn.
    rewrite -(Hf n Hn). unfold all_fit. setoid_rewrite elem_of_cons. destruct (w.1) eqn:Ew; [|done]. naive_solver.
  - destruct (estimate_finds vc w.1 w.2 Hs Hlen Hb) as (m & -> & Hm & Hmf). cbn [mbind res_bind].
    destruct (IH Hws (Z.min acc m)) as (k & -> & Hk & Hf); [lia|]. exists k. split_and!; [done|lia|lia|]. intros n Hn.
    unfold all_fit. setoid_rewrite elem_of_cons. split.
    + intros Hall. assert (n ≤ m) by (apply Hmf; [lia|]; apply Hall; [by left|by destruct (w.1)]).
      apply Hf; [lia|]. intros w' Hw'. apply Hall. by right.
    + intros Hnk w' [->|Hw'] Hne; [apply Hmf; lia|]. apply (Hf n); [lia|done|done|done].
Qed.

(** C33: the automatic fit finds the longest context every worker can hold.  With
    [max_model_len] left to the engine, the fit either reports that some worker cannot
    hold a single token, or sets the length to some [k] such that the lengths that fit
    on all workers are exactly those up to [k]; with that length, the check of the
    memory that follows succeeds on every worker that has memory. *)
Theorem auto_fit_longest vc projected memory :
  length memory = length projected → projected ≠ [] →
  1 ≤ vc_max_model_len vc → workers_sized vc (zip projected memory) →
  match _auto_fit_max_model_len vc projected memory with
  | Raise e => e = ValueError ∧ ¬ all_fit vc (zip projected memory) 1
  | Ok vc' => ∃ k, vc' = set_vc_max_model_len vc k ∧ 1 ≤ k ≤ vc_max_model_len vc ∧
      (∀ n, 1 ≤ n ≤ vc_max_model_len vc → all_fit vc (zip projected memory) n ↔ n ≤ k) ∧
      ∀ w, w ∈ zip projected memory → 0 < w.2 → check_worker vc' w = Ok tt
  end.
Proof.
  intros Hl Hne Hlen Hws. unfold _auto_fit_max_model_len.
  assert (∀ k, 1 ≤ k → all_fit vc (zip projected memory) k →
    ∀ w, w ∈ zip projected memory → 0 < w.2 → check_worker (set_vc_max_model_len vc k) w = Ok tt) as Hcheck.
  { intros k Hk Hall w Hw Hpos. unfold check_worker. destruct (is_nil w.1) eqn:En; [done|].
    unfold _check_enough_kv_cache_memory. rewrite (bool_decide_false (w.2 ≤ 0)); [|lia].
    destruct (Hall w Hw) as (b & -> & Hb); [by destruct (w.1)|]. cbn [mbind res_bind].
    rewrite (bool_decide_false (w.2 < b)); [done|lia]. }
  destruct (forallb is_nil projected) eqn:Enil.
  { assert (∀ n, all_fit vc (zip projected memory) n) as Hall.
    { intros n [gs m] Hw Hgs. cbn in Hgs. rewrite forallb_forall in Enil. apply elem_of_zip_l in Hw.
      apply list_elem_of_In, Enil in Hw. by destruct gs. }
    exists (vc_max_model_len vc). rewrite set_vc_self. split_and!; [done|lia|lia|naive_solver lia|].
    rewrite -{1}(set_vc_self vc). by apply Hcheck. }
  destruct memory as [|m memory]; [by destruct projected|]. cbn [py_nth]. change (py_nth (m :: memory) 0) with (Ok m).
  cbn [mbind res_bind].
  destruct (auto_fit_loop vc _ Hlen Hws (vc_max_model_len vc) ltac:(lia)) as (k & -> & Hk & Hf). cbn [mbind res_bind].
  destruct (bool_decide_reflect (k ≤ 0)) as [Hk0|Hk0].
  { split; [done|]. rewrite Hf; lia. }
  assert (all_fit vc (zip projected (m :: memory)) k) as Hfit by (apply Hf; lia).
  destruct (bool_decide_reflect (vc_max_model_len vc ≤ k)) as [Hge|Hlt].
  - exists k. replace k with (vc_max_model_len vc) in * by lia. rewrite set_vc_self.
    split_and!; [done|lia|lia|done|]. rewrite -{1}(set_vc_self vc). by apply Hcheck.
  - exists k. split_and!; [done|lia|lia|done|]. apply Hcheck; [lia|done].
Qed.
End Fit.
