(* ===== verification/CacheGroups.v ===== *)
(** * The groups of layers

    Grouping loses no layer ([groups_partition]): whatever path [get_kv_cache_groups]
    takes, the groups it returns partition the layers.  Unifying the page sizes
    ([unify_page_sizes]) and the chunk size of the layer tuples ([gcd_optimal]) do what
    they promise. *)

From S2P Require Import Prelude OrderedDict KVCacheSpec CacheSizes CacheConfig CacheFit.

(** ** Lists cut in pieces *)

(** A list is the union of the classes of a function with values below [n]. *)
Lemma filter_classes {A} (f : A → Z) (l : list A) (n : nat) :
  (zrange 0 (Z.of_nat n) ≫= λ i, filter (λ x, f x = i) l) ≡ₚ filter (λ x, 0 ≤ f x < Z.of_nat n) l.
Proof.
  induction n as [|n IH].
  { unfold zrange. cbn. rewrite filter_none //. intros x _ ?. lia. }
  replace (zrange 0 (Z.of_nat (S n))) with (zrange 0 (Z.of_nat n) ++ [Z.of_nat n])
    by (unfold zrange; rewrite (_ : Z.of_nat (S n) - 0 = Z.of_nat n - 0 + 1); [|lia];
        rewrite seqZ_app; [|lia|lia]; rewrite Z.sub_0_r; done).
  rewrite bind_app IH. cbn. rewrite app_nil_r. clear IH.
  induction l as [|x l IH]; [done|]. rewrite !filter_cons.
  destruct (decide (0 ≤ f x < Z.of_nat n)), (decide (f x = Z.of_nat n)), (decide (0 ≤ f x < Z.of_nat (S n))); try lia;
    rewrite -?Permutation_middle -?IH //.
Qed.

Lemma fmap_snd_imap {A} (l : list A) (k : nat) : (imap (λ i x, ((k + i)%nat, x)) l).*2 = l.
Proof.
  revert k. induction l as [|x l IH]; intros k; [done|]. cbn. f_equal. rewrite -{2}(IH (S k)). f_equal.
  apply imap_ext. intros i y _. cbn. f_equal. lia.
Qed.

Lemma imap_pair_snd {A} (l : list A) : (imap pair l).*2 = l.
Proof. apply (fmap_snd_imap l 0). Qed.

Lemma bind_ext_elem {A B} (f g : A → list B) (l : list A) : (∀ x, x ∈ l → f x = g x) → l ≫= f = l ≫= g.
Proof.
  induction l as [|x l IH]; intros Hl; [done|]. rewrite !bind_cons Hl; [|left]. f_equal. apply IH.
  intros y Hy. apply Hl. by right.
Qed.

Lemma fmap_of_bind {A B C} (f : B → C) (g : A → list B) (l : list A) : f <$> (l ≫= g) = l ≫= λ x, f <$> g x.
Proof. induction l as [|x l IH]; [done|]. rewrite !bind_cons fmap_app. by f_equal. Qed.

Lemma bind_of_bind {A B C} (f : A → list B) (g : B → list C) (l : list A) : (l ≫= f) ≫= g = l ≫= λ x, f x ≫= g.
Proof. induction l as [|x l IH]; [done|]. rewrite !bind_cons bind_app. by f_equal. Qed.

Lemma concat_bind {A} (l : list (list A)) : concat l = l ≫= id.
Proof. induction l as [|x l IH]; [done|]. cbn [concat]. by rewrite bind_cons IH. Qed.

(** The slices [l[i::n]] for [i < n] are the whole list. *)
Lemma strides_partition {A} (l : list A) (n : Z) : 0 < n → (zrange 0 n ≫= λ i, py_stride l i n) ≡ₚ l.
Proof.
  intros Hn. unfold py_stride.
  rewrite (bind_ext_elem _ (λ i, snd <$> filter (λ p : nat * A, Z.of_nat p.1 `mod` n = i) (imap pair l))).
  { rewrite -fmap_of_bind. pose proof (filter_classes (λ p : nat * A, Z.of_nat p.1 `mod` n) (imap pair l) (Z.to_nat n)) as HP.
    rewrite filter_all in HP; [|intros p _; rewrite Z2Nat.id; [by apply Z.mod_pos_bound|lia]].
    rewrite Z2Nat.id in HP; [|lia]. rewrite HP imap_pair_snd //. }
  intros i Hi%elem_of_zrange. f_equal. apply list_filter_iff. intros p. split.
  - intros [Hp Hm]. apply Z.mod_divide in Hm as [q Hq]; [|lia].
    rewrite (_ : Z.of_nat p.1 = i + q * n); [|lia]. rewrite Z.mod_add; [|lia]. rewrite Z.mod_small //.
  - intros <-. split; [apply Z.mod_le; lia|]. rewrite Zminus_mod_idemp_r Z.sub_diag //.
Qed.

(** Rows of columns of equal length have the same entries. *)
Lemma rows_cons {A} (c : list A) (columns : list (list A)) (l : list nat) :
  (l ≫= λ i, omap (lookup i) (c :: columns)) ≡ₚ omap (λ i, c !! i) l ++ (l ≫= λ i, omap (lookup i) columns).
Proof.
  induction l as [|i l IH]; [done|]. rewrite !bind_cons IH. cbn [omap list_omap]. destruct (c !! i) as [x|]; cbn [app].
  - constructor. rewrite !app_assoc. f_equiv. apply Permutation_app_comm.
  - rewrite !app_assoc. f_equiv. apply Permutation_app_comm.
Qed.

Lemma omap_lookup_seq {A} (l : list A) : ∀ k, omap (λ i, l !! (i - k)%nat) (seq k (length l)) = l.
Proof.
  induction l as [|x l IH]; intros k; [done|]. cbn [length seq omap list_omap]. rewrite Nat.sub_diag. cbn [lookup list_lookup].
  f_equal. etrans; [|exact (IH (S k))]. apply list_omap_ext, Forall_Forall2_diag, Forall_forall. intros i Hi%elem_of_seq.
  by rewrite (_ : (i - k = S (i - S k))%nat); [|lia].
Qed.

Lemma zip_columns_perm {A} (n : nat) (columns : list (list A)) :
  Forall (λ c, length c = n) columns → (zip_columns n columns ≫= id) ≡ₚ columns ≫= id.
Proof.
  unfold zip_columns. rewrite list_fmap_bind /compose /id. induction columns as [|c columns IH]; intros HF.
  - cbn. by induction (seq 0 n).
  - apply Forall_cons in HF as [<- HF]. rewrite rows_cons bind_cons (IH HF). f_equiv.
    rewrite (_ : omap (λ i, c !! i) (seq 0 (length c)) = c) //. etrans; [|exact (omap_lookup_seq c 0)].
    apply list_omap_ext, Forall_Forall2_diag, Forall_forall. intros i _. by rewrite Nat.sub_0_r.
Qed.

(** ** Dictionaries of lists *)

Section DictAppend.
Context {K A : Type} `{EqDecision K}.
Implicit Types (d : list (K * list A)) (k : K) (x : A).

(** The lists of a dictionary, one after the other. *)
Definition dict_values d : list A := d ≫= snd.

Lemma dict_append_keys d k x : NoDup d.*1 → NoDup (dict_append d k x).*1.
Proof.
  intros Hnd. unfold dict_append. destruct (od_get d k) as [v|] eqn:E.
  - destruct (od_get_split d k v Hnd E) as (d' & HP & _). rewrite (od_set_perm d d' k v) //. by rewrite HP in Hnd.
  - apply od_get_None in E. rewrite od_set_fresh // fmap_app NoDup_app. split_and!; [done| |apply NoDup_singleton].
    intros y Hy ->%list_elem_of_singleton. done.
Qed.

Lemma dict_append_values d k x : NoDup d.*1 → dict_values (dict_append d k x) ≡ₚ dict_values d ++ [x].
Proof.
  intros Hnd. unfold dict_append, dict_values. destruct (od_get d k) as [v|] eqn:E.
  - destruct (od_get_split d k v Hnd E) as (d' & HP & _). rewrite (od_set_perm d d' k v) // HP !bind_cons. cbn [snd].
    change (default [] (Some v)) with v. rewrite -!app_assoc. f_equiv. apply Permutation_app_comm.
  - apply od_get_None in E. rewrite od_set_fresh // bind_app. done.
Qed.

Lemma dict_append_get d k k' x :
  od_get (dict_append d k x) k' = if decide (k = k') then Some (default [] (od_get d k) ++ [x]) else od_get d k'.
Proof. apply od_get_set. Qed.

(** Appending the entries of a list one by one groups them by their keys, in order. *)
Lemma dict_append_all {B} (key : B → K) (val : B → A) (l : list B) :
  let d := foldl (λ d b, dict_append d (key b) (val b)) [] l in
  NoDup d.*1 ∧ dict_values d ≡ₚ val <$> l ∧
  ∀ k, od_get d k = match filter (λ b, key b = k) l with [] => None | bs => Some (val <$> bs) end.
Proof.
  induction l as [|b l IH] using rev_ind; cbn zeta; [split_and!; [constructor|done|done]|].
  rewrite foldl_snoc. destruct IH as (Hnd & HP & Hg). set (d := foldl _ [] l) in *. split_and!.
  - by apply dict_append_keys.
  - rewrite dict_append_values // HP fmap_app //.
  - intros k. rewrite dict_append_get filter_app filter_cons filter_nil Hg. case_decide as Ek.
    + subst k. destruct (filter _ l) as [|b0 bs]; cbn; [done|]. by rewrite fmap_app.
    + rewrite app_nil_r. apply Hg.
Qed.
End DictAppend.

(** ** The chunk size of the layer tuples *)

(** The padding of the documentation: every value is rounded up to a multiple. *)
Lemma gcd_pad_spec values d : 0 < d → gcd_pad values d = zsum ((λ x, cdiv x d * d - x) <$> values).
Proof.
  intros Hd. unfold gcd_pad. f_equal. apply list_fmap_ext. intros _ x _.
  pose proof (cdiv_spec x d Hd) as Hc. symmetry. apply Z.mod_unique with (1 - (cdiv x d - x / d)).
  - left. lia.
  - pose proof (Z.div_mod x d ltac:(lia)). lia.
Qed.

(** [d] beats [d']: less padding, or as much and not smaller. *)
Definition gcd_better values d d' : Prop :=
  gcd_pad values d < gcd_pad values d' ∨ (gcd_pad values d = gcd_pad values d' ∧ d' ≤ d).

Lemma gcd_round_step values d e : d < e →
  ∃ b, gcd_round values (d, Some (gcd_pad values d)) e = (b, Some (gcd_pad values b)) ∧
    (b = d ∨ b = e) ∧ gcd_better values b d ∧ gcd_better values b e.
Proof.
  intros Hde. unfold gcd_round, gcd_better. rewrite (bool_decide_true (d < e) Hde) andb_true_r.
  destruct (bool_decide_reflect (gcd_pad values e < gcd_pad values d)); cbn [orb]; [exists e; split_and!; auto; lia|].
  destruct (bool_decide_reflect (gcd_pad values e = gcd_pad values d)) as [E|];
    [exists e; split_and!; auto; lia|exists d; split_and!; auto; lia].
Qed.

Lemma gcd_better_trans values a b c : gcd_better values a b → gcd_better values b c → gcd_better values a c.
Proof. unfold gcd_better. lia. Qed.

Lemma seqZ_one m : seqZ m 1 = [m].
Proof. unfold seqZ. cbn. f_equal. Qed.

Lemma gcd_rounds values lo n :
  ∃ d, foldl (gcd_round values) (lo, None) (seqZ lo (Z.of_nat (S n))) = (d, Some (gcd_pad values d)) ∧
    lo ≤ d ≤ lo + Z.of_nat n ∧ ∀ d', lo ≤ d' ≤ lo + Z.of_nat n → gcd_better values d d'.
Proof.
  induction n as [|n IH].
  { exists lo. rewrite seqZ_one. cbn [foldl gcd_round]. split_and!; [done|lia|lia|]. intros d' ?. right.
    split; [f_equal|]; lia. }
  destruct IH as (d & Hd & Hr & Hb). rewrite (_ : Z.of_nat (S (S n)) = Z.of_nat (S n) + 1); [|lia].
  rewrite seqZ_app; [|lia|lia]. rewrite foldl_app Hd seqZ_one. cbn [foldl].
  destruct (gcd_round_step values d (lo + Z.of_nat (S n))) as (b & -> & Hor & Hbd & Hbe); [lia|].
  exists b. split_and!; [done|lia|lia|]. intros d' Hd'. destruct (decide (d' = lo + Z.of_nat (S n))) as [->|]; [done|].
  apply (gcd_better_trans _ _ d); [done|]. apply Hb. lia.
Qed.

Lemma gcd_Ok values lb d : _approximate_gcd values lb = Ok d →
  let lo := Z.max 1 (default 1 lb) in
  Forall (λ x, 0 < x) values ∧ ∃ m, py_max values = Ok m ∧
    ((m < lo ∧ d = lo) ∨ (lo ≤ d ≤ m ∧ ∀ d', lo ≤ d' ≤ m → gcd_better values d d')).
Proof.
  unfold _approximate_gcd. destruct (is_nil values) eqn:En; [done|]. destruct (existsb _ values) eqn:Ex; [done|].
  set (lo := Z.max 1 _). assert (Forall (λ x, 0 < x) values) as Hpos.
  { apply Forall_forall. intros x Hx. destruct (decide (0 < x)); [done|]. rewrite (proj2 (existsb_exists _ _)) // in Ex.
    exists x. split; [by apply list_elem_of_In|]. apply bool_decide_eq_true. lia. }
  destruct (py_max values) as [m|] eqn:Em; [|done]. cbn [mbind res_bind].
  destruct (bool_decide_reflect (m < lo)) as [Hm|Hm]; intros [= <-]; (split; [done|]); exists m; (split; [done|]); [by left|right].
  unfold zrange. rewrite (_ : m + 1 - lo = Z.of_nat (S (Z.to_nat (m - lo)))); [|lia].
  destruct (gcd_rounds values lo (Z.to_nat (m - lo))) as (d & -> & Hd & Hb). cbn [fst].
  split; [lia|]. intros d' Hd'. apply Hb. lia.
Qed.

(** ** The layers of the groups *)

Section Groups.
Context {torch : TorchLib}.
Implicit Types (vc : VllmConfig) (s : KVCacheSpec) (specs : specs_dict) (groups : list LayerGroup).

(** The names of the layers of all groups. *)
Definition all_layers groups : list string := groups ≫= layer_names.

(** A group with layers, whose own specifications are named like them. *)
Definition group_ok (g : LayerGroup) : Prop :=
  layer_names g ≠ [] ∧ ∀ bs specs, lg_spec g = UniformTypeKVCacheSpecs bs specs → specs.*1 = layer_names g.

Lemma bind_Forall2 {A B C} (R : A → B → Prop) (f : A → list C) (g : B → list C) l l' :
  Forall2 R l l' → (∀ x y, R x y → f x ≡ₚ g y) → l ≫= f ≡ₚ l' ≫= g.
Proof. intros HF Hfg. induction HF as [|x y l l' Hxy _ IH]; [done|]. rewrite !bind_cons IH (Hfg x y) //. Qed.

Lemma create_group_ok specs names g : create_group specs names = Ok g → layer_names g = names ∧ group_ok g.
Proof.
  unfold create_group. destruct (mapM_res _ names) as [l|] eqn:E; [|done]. cbn [mbind res_bind].
  destruct (py_nth l 0) as [s0|] eqn:E0; [|done]. cbn [mbind res_bind].
  destruct (spec_merge s0 l) as [m|]; [|done]. intros [= <-]. split; [done|]. split; [|done]. cbn.
  intros ->. injection E as <-. done.
Qed.

Lemma create_groups_ok specs l groups :
  create_kv_cache_group_specs specs l = Ok groups → all_layers groups ≡ₚ l ≫= id ∧ Forall group_ok groups.
Proof.
  intros HF%mapM_res_Forall2. split.
  - symmetry. eapply bind_Forall2; [done|]. by intros names g [-> _]%create_group_ok.
  - induction HF as [|names g ? ? [_ Hg]%create_group_ok]; by constructor.
Qed.

(** *** Layers with one page size *)

Lemma split_layers_perm gs (layers : list string) : 0 < gs → (split_layers gs layers ≫= id) ≡ₚ layers.
Proof.
  intros Hgs. unfold split_layers. rewrite list_fmap_bind /compose /id. destruct layers as [|x layers].
  { unfold zrange. done. }
  apply strides_partition. pose proof (cdiv_spec (zlen (x :: layers)) gs Hgs). rewrite zlen_cons in H |- *.
  pose proof (zlen_nonneg layers). nia.
Qed.

Lemma same_type_ok specs :
  dict_values (same_type_layers specs) ≡ₚ specs.*1 ∧
  ∀ s names, (s, names) ∈ same_type_layers specs → names ≠ [] ∧ ∀ x, x ∈ names → (x, s) ∈ specs.
Proof.
  destruct (dict_append_all (K := KVCacheSpec) snd fst specs) as (Hnd & HP & Hg). split; [done|].
  intros s names Hin. pose proof (od_get_elem _ _ _ Hnd Hin) as E. rewrite Hg in E.
  destruct (filter _ specs) as [|b bs] eqn:Ef; [done|]. apply (inj Some) in E as <-. split; [done|].
  intros x ([y s'] & -> & Hy)%list_elem_of_fmap. rewrite -Ef in Hy. by apply list_elem_of_filter in Hy as [<- ?].
Qed.

Lemma layer_group_size_pos specs n : layer_group_size (same_type_layers specs) = Ok n → 0 < n.
Proof.
  unfold layer_group_size. destruct (same_type_ok specs) as [_ Hne].
  destruct (py_min _) as [lo|] eqn:E1; [|done]. destruct (py_max _) as [hi|] eqn:E2; [|done]. cbn [mbind res_bind].
  apply py_min_Ok in E1 as [([s names] & -> & Hin)%list_elem_of_fmap Hle].
  apply py_max_Ok in E2 as [([s' names'] & -> & Hin')%list_elem_of_fmap _].
  apply Hne in Hin as [Hn _]. apply Hne in Hin' as [Hn' _]. cbn.
  destruct names as [|? names], names' as [|? names']; try done. rewrite !zlen_cons.
  pose proof (zlen_nonneg names). pose proof (zlen_nonneg names'). destruct (bool_decide _); intros [= <-]; lia.
Qed.

Lemma page_size_groups_ok specs groups : _get_kv_cache_groups_uniform_page_size specs = Ok groups →
  all_layers groups ≡ₚ specs.*1 ∧ Forall group_ok groups.
Proof.
  unfold _get_kv_cache_groups_uniform_page_size. destruct (layer_group_size _) as [n|] eqn:En; [|done].
  cbn [mbind res_bind]. apply layer_group_size_pos in En. intros [HP Hok]%create_groups_ok. split; [|done]. rewrite HP.
  rewrite bind_of_bind. etrans; [|exact (proj1 (same_type_ok specs))]. unfold dict_values.
  clear HP. induction (same_type_layers specs) as [|p l IH]; [done|]. rewrite !bind_cons IH. f_equiv. by apply split_layers_perm.
Qed.

(** *** Layers of one type *)

Lemma from_specs_Ok specs g : from_specs specs = Ok (Some g) →
  ∃ bs, g = UniformTypeKVCacheSpecs bs specs ∧ specs ≠ [] ∧ is_uniform_type specs = Ok true.
Proof.
  unfold from_specs. destruct (is_uniform_type specs) as [[]|] eqn:E; cbn [mbind res_bind]; [|by destruct specs|done].
  destruct specs as [|[x s] specs]; [done|]. intros [= <-]. by eexists.
Qed.

Lemma uniform_group_Ok specs p : uniform_group specs = Ok p → p.2 = specs ∧ specs ≠ [].
Proof.
  unfold uniform_group. destruct (from_specs specs) as [[g|]|] eqn:E; cbn [mbind res_bind]; [|done|done].
  destruct (from_specs_Ok specs g E) as (bs & -> & Hne & _). by intros [= <-].
Qed.

(** *** Layers with sliding windows over latent attention *)

Definition mla_assigned s : bool := is_mla s || is_sliding_window_mla s.

Lemma group_mla_layers_ok specs :
  forallb mla_assigned specs.*2 = true →
  let st := foldl group_mla_layer ([], []) specs in
  NoDup st.2.*1 ∧ st.1 ++ dict_values st.2 ≡ₚ specs.
Proof.
  induction specs as [|[x s] specs IH] using rev_ind; intros Ha; cbn zeta; [split; [constructor|done]|].
  rewrite fmap_app forallb_app in Ha. apply andb_true_iff in Ha as [Ha Hs]. destruct (IH Ha) as [Hnd HP]. rewrite foldl_snoc.
  destruct (foldl group_mla_layer ([], []) specs) as [m d]. cbn in Hs, Hnd, HP. rewrite andb_true_r in Hs.
  unfold group_mla_layer. cbn [fst snd]. destruct (swa_key s) as [key|] eqn:Ek; cbn [fst snd].
  - split; [by apply dict_append_keys|]. rewrite dict_append_values // app_assoc HP //.
  - assert (is_mla s = true) as -> by (by destruct s). cbn [fst snd]. split; [done|]. rewrite -HP -!app_assoc.
    f_equiv. apply Permutation_app_comm.
Qed.

Lemma swa_group_ok specs names g : swa_group specs names = Ok g → layer_names g = names ∧ group_ok g.
Proof.
  unfold swa_group. destruct (mapM_res _ names) as [l|] eqn:E; [|done]. cbn [mbind res_bind].
  destruct (uniform_group l) as [[bs sub]|] eqn:Eu; [|done]. cbn [mbind res_bind]. intros [= <-].
  apply uniform_group_Ok in Eu as [Esub Hne]. cbn in Esub. subst sub. apply mapM_res_Forall2 in E. split; [done|].
  assert (l.*1 = names) as El.
  { clear Hne. induction E as [|x y ? ? Hxy _ IH]; [done|]. rewrite fmap_cons IH. f_equal.
    destruct (od_lookup specs x); [|done]. by injection Hxy as <-. }
  split; [|by intros ? ? [= _ <-]]. cbn. intros ->. by destruct l.
Qed.

Lemma one_value_eq {A} `{EqDecision A} (l : list A) x y : one_value l = true → x ∈ l → y ∈ l → x = y.
Proof.
  unfold one_value. intros Hl%bool_decide_eq_true Hx Hy. apply elem_of_remove_dups in Hx, Hy.
  destruct (remove_dups l) as [|z [|]]; try done. apply list_elem_of_singleton in Hx as ->.
  by apply list_elem_of_singleton in Hy as ->.
Qed.

Lemma split_swa_ok n sizes sm groups : 0 < n → split_swa_specs n sizes sm = Ok groups →
  all_layers groups ≡ₚ sm.2.*1 ∧ Forall group_ok groups.
Proof.
  intros Hn. unfold split_swa_specs. bind_ok ps as Eps. bind_ok m as Em. bind_ok m' as Em'. bind_ok u as Eu.
  bind_ok padded as Ep. set (d := foldl _ [] padded). bind_ok u' as E1. bind_ok [k0 first] as E0. cbn [snd].
  apply py_assert_Ok in E1.
  intros HF%mapM_res_Forall2.
  destruct (dict_append_all (λ c : Z * (string * KVCacheSpec), c.1) (λ c, c.2.1) padded) as (Hnd & HP & Hg).
  fold d in Hnd, HP, Hg. apply py_nth_first in E0.
  assert (∀ p : Z * list string, p ∈ d → length p.2 = length first) as Hlen.
  { intros p Hp. apply (one_value_eq _ _ _ E1); apply list_elem_of_fmap; [by exists p|].
    exists (k0, first). split; [done|]. by eapply list_elem_of_lookup_2. }
  assert (0 < length first)%nat as Hpos.
  { apply list_elem_of_lookup_2 in E0. pose proof (od_get_elem _ _ _ Hnd E0) as E. rewrite Hg in E.
    destruct (filter _ padded) as [|b bs]; [done|]. apply (inj Some) in E as <-. cbn. lia. }
  split; [|by induction HF as [|? ? ? ? [_ ?]%swa_group_ok]; constructor].
  assert (0 < cdiv (zlen first) n) as Hc by (pose proof (cdiv_spec (zlen first) n Hn); unfold zlen in *; nia).
  etrans; [symmetry; eapply (bind_Forall2 _ (λ i, concat (py_stride (zip_columns (length first) d.*2) i (cdiv (zlen first) n))));
    [exact HF|by intros i g [-> _]%swa_group_ok]|].
  rewrite (bind_ext_elem _ (λ i, py_stride (zip_columns (length first) d.*2) i (cdiv (zlen first) n) ≫= id));
    [|intros i _; apply concat_bind].
  rewrite -bind_of_bind strides_partition // zip_columns_perm.
  - rewrite list_fmap_bind /compose /id. etrans; [exact HP|]. apply mapM_res_Forall2 in Ep.
    clear -Ep. induction Ep as [|[x s] c ? ? Hc _ IH]; [done|]. rewrite !fmap_cons IH. f_equiv. revert Hc. unfold pad_swa_layer.
    destruct (page_size_bytes s); [|done]. cbn [mbind res_bind]. destruct (py_min _); [|done]. by intros [= <-].
  - apply Forall_forall. intros c (p & -> & Hp)%list_elem_of_fmap. by apply Hlen.
Qed.

Lemma uniform_groups_ok grouped groups :
  _get_kv_cache_groups_uniform_groups grouped = Ok groups → Forall (λ g : Z * specs_dict, g.2 ≠ []) grouped →
  all_layers groups ≡ₚ grouped ≫= (λ g, g.2.*1) ∧ Forall group_ok groups.
Proof.
  unfold _get_kv_cache_groups_uniform_groups. destruct grouped as [|[bs full] swa]; [done|].
  bind_ok u as Eu. bind_ok tuples as Et. bind_ok lb as El. bind_ok n as En. bind_ok u' as Eu'. bind_ok sizes as Es.
  bind_ok gs as Eg. intros [= <-] [Hne _]%Forall_cons. cbn in Hne.
  apply gcd_Ok in En as (_ & m & _ & Hn). assert (0 < n) as Hpos by (cbn zeta in Hn; lia).
  apply mapM_res_Forall2 in Eg. unfold all_layers. rewrite !bind_cons concat_bind bind_of_bind /id. cbn [layer_names snd]. split.
  - apply (Permutation_app_head full.*1). symmetry.
    apply (bind_Forall2 _ (λ g : Z * specs_dict, g.2.*1) (λ x, x ≫= layer_names) _ _ Eg).
    intros sm g [HP _]%split_swa_ok; [by symmetry|done].
  - constructor; [|clear -Eg Hpos; induction Eg as [|? ? ? ? [_ ?]%split_swa_ok]; [constructor|by apply Forall_app|done]].
    split; [by destruct full|by intros ? ? [= _ <-]].
Qed.

Lemma flag_eagle_ok x groups :
  layer_names <$> flag_eagle_group x groups = layer_names <$> groups ∧ lg_spec <$> flag_eagle_group x groups = lg_spec <$> groups.
Proof.
  induction groups as [|g groups [IH1 IH2]]; [done|]. cbn [flag_eagle_group]. destruct (bool_decide _); [done|].
  rewrite !fmap_cons IH1 IH2 //.
Qed.

Lemma annotate_ok vc specs groups :
  layer_names <$> _annotate_eagle_groups_deepseek_v4 vc specs groups = layer_names <$> groups ∧
  lg_spec <$> _annotate_eagle_groups_deepseek_v4 vc specs groups = lg_spec <$> groups.
Proof.
  unfold _annotate_eagle_groups_deepseek_v4. destruct (negb _); [done|]. destruct (negb _); [done|].
  destruct (last specs) as [[x s]|]; [apply flag_eagle_ok|done].
Qed.

(** Groups with the same names and specifications. *)
Lemma same_groups_ok groups groups' :
  layer_names <$> groups = layer_names <$> groups' → lg_spec <$> groups = lg_spec <$> groups' →
  Forall group_ok groups' → all_layers groups = all_layers groups' ∧ Forall group_ok groups.
Proof.
  revert groups'. induction groups as [|g groups IH]; intros [|g' groups'] En Es Hok; [by split|done|done|].
  rewrite !fmap_cons in En, Es. injection En as Eg En. injection Es as Eg' Es. apply Forall_cons in Hok as [Hg Hok].
  destruct (IH groups' En Es Hok) as [E HF]. unfold all_layers in *. rewrite !bind_cons Eg E. split; [done|].
  constructor; [|done]. unfold group_ok in *. by rewrite Eg Eg'.
Qed.

(** *** Without the hybrid manager *)

Lemma convert_not_swa bs s s' : convert_to_full bs s = Ok s' → is_sliding_window_mla s' = false.
Proof.
  destruct s; cbn; try (by intros [= <-]). unfold new_MLAAttentionSpec, _apply_alignment_padding. cbn.
  destruct (alignment m); cbn; [|by intros [= <-]]. bind_ok p as E. bind_ok p' as E'. intros [= <-].
  by destruct (bool_decide (p' = p)).
Qed.

Lemma unify_hybrid_ok specs specs' : unify_hybrid_kv_cache_specs specs = Ok specs' →
  specs'.*1 = specs.*1 ∧ (specs' = specs ∨ existsb is_sliding_window_mla specs'.*2 = false).
Proof.
  unfold unify_hybrid_kv_cache_specs. bind_ok b as E. destruct b; [intros [= <-]; by split; [|left]|].
  bind_ok bs as Ebs. bind_ok l as El. bind_ok b as Eb. destruct b; [|done]. intros [= <-]. clear E Eb.
  destruct (_ && _) eqn:Ec in El; [|injection El as <-; by split; [|left]].
  apply mapM_res_Forall2 in El. split; [|right]; clear -El.
  - induction El as [|x y ? ? Hxy _ IH]; [done|]. rewrite !fmap_cons IH. f_equal. revert Hxy. by bind_ok s as E; intros [= <-].
  - induction El as [|x y ? ? Hxy _ IH]; [done|]. rewrite fmap_cons. cbn [existsb]. rewrite IH orb_false_r. revert Hxy.
    bind_ok s as E. intros [= <-]. by apply convert_not_swa in E.
Qed.

(** The layers that grouping handles: sliding window MLA layers only go with MLA layers. *)
Definition assignable specs : Prop :=
  existsb is_sliding_window_mla specs.*2 = false ∨ forallb mla_assigned specs.*2 = true.

Lemma unify_names specs specs' : unify_kv_cache_spec_page_size specs = Ok specs' → specs'.*1 = specs.*1.
Proof.
  unfold unify_kv_cache_spec_page_size. bind_ok sizes as E. destruct (bool_decide _); [by intros [= <-]|].
  bind_ok m as Em. intros HF%mapM_res_Forall2. clear -HF. induction HF as [|[x s] [y s'] ? ? Hxy _ IH]; [done|].
  rewrite !fmap_cons IH. f_equal. revert Hxy. unfold unify_layer. bind_ok p as Ep. destruct (bool_decide _); [by intros [= <-]|].
  bind_ok r as Er. destruct (bool_decide _); [done|]. bind_ok s1 as E1. bind_ok p1 as E2. bind_ok u as Eu. by intros [= <-].
Qed.

Lemma mla_groups_ok specs l : forallb mla_assigned specs.*2 = true → group_and_unify_kv_cache_specs specs = Ok (Some l) →
  l ≫= (λ g, g.2.*1) ≡ₚ specs.*1 ∧ Forall (λ g : Z * specs_dict, g.2 ≠ []) l.
Proof.
  intros Ha. unfold group_and_unify_kv_cache_specs. destruct (negb _); [done|].
  destruct (group_mla_layers_ok specs Ha) as [Hnd HP]. destruct (foldl group_mla_layer ([], []) specs) as [m d].
  cbn in Hnd, HP. bind_ok u as Eu. bind_ok g as Eg. bind_ok gs as Egs. intros [= <-].
  apply uniform_group_Ok in Eg as [Eg Hg]. apply mapM_res_Forall2 in Egs. split.
  - rewrite bind_cons Eg -HP fmap_app. f_equiv. unfold dict_values. rewrite fmap_of_bind. symmetry.
    eapply bind_Forall2; [done|]. by intros x y [-> _]%uniform_group_Ok.
  - constructor; [by rewrite Eg|]. clear -Egs. induction Egs as [|? ? ? ? [E ?]%uniform_group_Ok]; constructor; [by rewrite E|done].
Qed.

Lemma cache_groups_ok vc specs groups : assignable specs → get_kv_cache_groups vc specs = Ok groups →
  all_layers groups ≡ₚ specs.*1 ∧ Forall group_ok groups.
Proof.
  intros Ha. unfold get_kv_cache_groups. bind_ok specs' as Es.
  assert (specs'.*1 = specs.*1 ∧ assignable specs') as [<- Ha'].
  { destruct (vc_disable_hybrid_kv_cache_manager vc); [|by injection Es as <-].
    apply unify_hybrid_ok in Es as [? [->|?]]; split; try done. by left. }
  clear Es Ha specs. rename specs' into specs, Ha' into Ha. destruct (is_nil specs) eqn:En.
  { destruct specs; [|done]. intros [= <-]. by split. }
  bind_ok u as Eu. destruct u.
  { intros [HP ?]%create_groups_ok. split; [|done]. rewrite HP. cbn. by rewrite app_nil_r. }
  bind_ok o as Eo. destruct o as [g|].
  { destruct (from_specs_Ok _ _ Eo) as (bs & -> & Hne & _). intros [= <-]. cbn. rewrite app_nil_r. split; [done|].
    constructor; [|done]. split; [by destruct specs|by intros ? ? [= _ <-]]. }
  bind_ok o as Eg. destruct o as [l|].
  - destruct Ha as [Ha|Ha].
    { unfold group_and_unify_kv_cache_specs in Eg. by rewrite Ha in Eg. }
    destruct (mla_groups_ok specs l Ha Eg) as [HP Hne]. bind_ok gs as Egs. intros [= <-].
    destruct (uniform_groups_ok l gs Egs Hne) as [HP' Hok]. destruct (annotate_ok vc specs gs) as [E1 E2].
    destruct (same_groups_ok _ gs E1 E2 Hok) as [-> ?]. by rewrite HP' HP.
  - bind_ok specs' as Es. intros [HP ?]%page_size_groups_ok. by rewrite HP (unify_names _ _ Es).
Qed.

(** C32: grouping assigns every layer to exactly one group.  For every model whose sliding
    window MLA layers occur with MLA layers only, and whichever way
    [get_kv_cache_groups] takes (one specification, one type, layer tuples, groups of
    one page size, with or without the hybrid manager), the groups it returns partition
    the layers, no group is empty, and a group with a specification per layer has them
    for its own layers. *)
Theorem groups_partition vc specs groups :
  assignable specs → get_kv_cache_groups vc specs = Ok groups →
  all_layers groups ≡ₚ specs.*1 ∧ Forall group_ok groups.
Proof. apply cache_groups_ok. Qed.

(** The chunk size has the least padding of all between the lower bound and the largest
    value, and is the largest of those. *)
Theorem gcd_optimal values lower_bound d :
  _approximate_gcd values (Some lower_bound) = Ok d → 1 ≤ lower_bound → lower_bound ∈ values →
  lower_bound ≤ d ∧ ∀ m d', py_max values = Ok m → lower_bound ≤ d' ≤ m → gcd_better values d d'.
Proof.
  intros H Hlb Hin. destruct (gcd_Ok values (Some lower_bound) d H) as (_ & m & Em & Hd). cbn in Hd.
  pose proof (py_max_Ok _ _ Em) as [_ Hmax]. specialize (Hmax _ Hin).
  destruct Hd as [[? _]|[Hr Hb]]; [lia|]. split; [lia|]. intros m' d' Em' Hd'. apply Hb. assert (m' = m) by congruence. lia.
Qed.
End Groups.
