(* ===== verification/CacheLayout.v ===== *)
(** * The tensors of a worker

    How [get_kv_cache_config_from_groups] divides the memory of a worker: every layer of
    its groups lies in exactly one tensor, the layers of a tensor belong to different
    groups, a tensor has a page of its layers for every block, all tensors together fit
    in the memory, and the blocks are enough for a request of maximal length. *)

From S2P Require Import Prelude OrderedDict KVCacheSpec CacheSizes CacheConfig CacheFit CacheGroups.

#[export] Instance Ok_inj {A} : Inj (=) (=) (@Ok A).
Proof. intros x y [= ->]. done. Qed.

(** ** Arithmetic *)

Lemma py_floordiv_pos a b : 0 < b → py_floordiv a b = Ok (a / b).
Proof. intros Hb. unfold py_floordiv. rewrite (bool_decide_false (b = 0)); [done|lia]. Qed.

Lemma zsum_fmap_mul {A} (f : A → Z) (l : list A) k : zsum ((λ x, f x * k) <$> l) = zsum (f <$> l) * k.
Proof. induction l as [|x l IH]; [done|]. rewrite !fmap_cons !zsum_cons IH. lia. Qed.

Lemma zsum_const {A} (l : list A) k : zsum ((λ _, k) <$> l) = zlen l * k.
Proof. induction l as [|x l IH]; [done|]. rewrite fmap_cons zsum_cons IH zlen_cons. lia. Qed.

Lemma zsum_Forall2_mul us ps n : Forall2 (λ u p, u = n * p) us ps → zsum us = n * zsum ps.
Proof. induction 1 as [|u p us ps -> _ IH]; [cbn; lia|]. rewrite !zsum_cons IH. lia. Qed.

Lemma mapM_res_ext {A B} (f g : A → res B) (l : list A) : (∀ x, x ∈ l → f x = g x) → mapM_res f l = mapM_res g l.
Proof.
  induction l as [|x l IH]; intros Hl; [done|]. cbn [mapM_res]. rewrite Hl; [|left]. rewrite IH //.
  intros y Hy. apply Hl. by right.
Qed.

(** ** Columns of layers *)

Lemma omap_lookup_ge {A} (c : list A) (n : nat) : (length c ≤ n)%nat → omap (λ i, c !! i) (seq 0 n) = c.
Proof.
  intros Hn. rewrite (_ : n = (length c + (n - length c))%nat); [|lia]. rewrite seq_app omap_app.
  rewrite (_ : omap (λ i, c !! i) (seq 0 (length c)) = c).
  - rewrite (_ : omap _ (seq _ _) = []); [by rewrite app_nil_r|]. cbn. generalize (n - length c)%nat. intros m.
    assert (∀ k, (length c ≤ k)%nat → omap (λ i, c !! i) (seq k m) = []) as Hk; [|by apply Hk].
    induction m as [|m IH]; intros k Hk; [done|]. cbn. rewrite lookup_ge_None_2 //. apply IH. lia.
  - etrans; [|exact (omap_lookup_seq c 0)]. apply list_omap_ext, Forall_Forall2_diag, Forall_forall. intros i _.
    by rewrite Nat.sub_0_r.
Qed.

Lemma columns_perm {A} (n : nat) (columns : list (list A)) :
  Forall (λ c, length c ≤ n)%nat columns → (seq 0 n ≫= λ i, omap (lookup i) columns) ≡ₚ columns ≫= id.
Proof.
  induction columns as [|c columns IH]; intros HF.
  - cbn. by induction (seq 0 n).
  - apply Forall_cons in HF as [Hc HF]. rewrite rows_cons bind_cons (IH HF) omap_lookup_ge //.
Qed.

Lemma zrange_seq n : zrange 0 n = Z.of_nat <$> seq 0 (Z.to_nat n).
Proof. unfold zrange, seqZ. rewrite Z.sub_0_r. apply list_fmap_ext. intros _ i _. lia. Qed.

Lemma omap_of_fmap {A B C} (f : A → B) (g : B → option C) (l : list A) : omap g (f <$> l) = omap (g ∘ f) l.
Proof. induction l as [|x l IH]; [done|]. cbn. rewrite IH //. Qed.

Section Layout.
Context {torch : TorchLib}.
Implicit Types (vc : VllmConfig) (s : KVCacheSpec) (specs : specs_dict) (groups : list LayerGroup) (c : WorkerConfig).

(** The layers of the tensors, and the bytes of the tensors. *)
Definition tensor_layers c : list string := kv_cache_tensors c ≫= shared_by.
Definition tensor_bytes c : Z := zsum (tensor_size <$> kv_cache_tensors c).

(** The page size of a layer of a group. *)
Definition layer_page (g : LayerGroup) (x : string) : res Z :=
  match lg_spec g with
  | LayerSpec s => page_size_bytes s
  | UniformTypeKVCacheSpecs _ specs => s ← od_lookup specs x; page_size_bytes s
  end.

(** At most one layer of each group, in the order of the groups. *)
Definition one_per_group groups (names : list string) : Prop :=
  ∃ picks, names = omap id picks ∧ Forall2 (λ g (o : option string), ∀ x, o = Some x → x ∈ layer_names g) groups picks.

(** The tensors hold the layers of the groups. *)
Record layout_ok groups c : Prop := {
  lo_once : tensor_layers c ≡ₚ all_layers groups;
  lo_apart : ∀ t, t ∈ kv_cache_tensors c → one_per_group groups (shared_by t);
  lo_size : ∀ t x, t ∈ kv_cache_tensors c → x ∈ shared_by t →
    ∃ g p, g ∈ groups ∧ x ∈ layer_names g ∧ layer_page g x = Ok p ∧ tensor_size t = p * wc_num_blocks c
}.

(** ** Groups with one specification each *)

Definition plain_groups groups : Prop := Forall (λ g, is_uniform_specs (lg_spec g) = false) groups.

Lemma config_plain vc groups memory c :
  plain_groups groups → groups ≠ [] → get_kv_cache_config_from_groups vc groups memory = Ok c →
  ∃ n page, max_group_len groups = Ok n ∧ 0 < n ∧ get_uniform_page_size (lg_spec <$> groups) = Ok page ∧
    get_num_blocks vc n memory page = Ok (wc_num_blocks c) ∧ wc_groups c = groups ∧
    kv_cache_tensors c = (λ i, mkTensor (page * wc_num_blocks c) (shared_layers groups i)) <$> zrange 0 n.
Proof.
  intros Hp Hne. assert (all_uniform_specs groups = false) as Hu.
  { destruct groups as [|g groups]; [done|]. apply Forall_cons in Hp as [Hg _]. unfold all_uniform_specs. cbn. by rewrite Hg. }
  assert (get_kv_cache_config_from_groups vc groups memory =
    (group_size ← max_group_len groups;
     page_size ← get_uniform_page_size (lg_spec <$> groups);
     py_assert (bool_decide (0 < group_size));;
     num_blocks ← get_num_blocks vc group_size memory page_size;
     Ok (mkWorkerConfig num_blocks
           ((λ i, mkTensor (page_size * num_blocks) (shared_layers groups i)) <$> zrange 0 group_size) groups))) as ->.
  { destruct groups as [|[names [s|bs specs] e] [|g2 gs]]; cbn [get_kv_cache_config_from_groups]; rewrite ?Hu //. }
  bind_ok n as En. bind_ok page as Ep. bind_ok u as Eu. bind_ok nb as Eb. intros [= <-].
  apply py_assert_Ok, bool_decide_eq_true in Eu. by exists n, page.
Qed.

Lemma shared_layers_apart groups i : one_per_group groups (shared_layers groups i).
Proof.
  exists ((λ g, layer_names g !! Z.to_nat i) <$> groups). split.
  - unfold shared_layers. rewrite omap_of_fmap //.
  - induction groups; constructor; [|done]. intros x Hx. by eapply list_elem_of_lookup_2.
Qed.

Lemma uniform_page_Ok groups page g :
  get_uniform_page_size (lg_spec <$> groups) = Ok page → g ∈ groups → group_page_size (lg_spec g) = Ok page.
Proof.
  unfold get_uniform_page_size. bind_ok l as El. destruct (remove_dups l) as [|q [|]] eqn:Ed; [done| |done].
  intros [= <-] [i Hi]%list_elem_of_lookup. apply mapM_res_Forall2 in El.
  destruct (Forall2_lookup_l _ _ _ i (lg_spec g) El) as (x & Hx & ->); [by rewrite list_lookup_fmap Hi|].
  f_equal. apply list_elem_of_singleton. rewrite -Ed elem_of_remove_dups. by eapply list_elem_of_lookup_2.
Qed.

Lemma plain_layout vc groups memory c :
  plain_groups groups → groups ≠ [] → get_kv_cache_config_from_groups vc groups memory = Ok c → layout_ok groups c.
Proof.
  intros Hp Hne Hc. destruct (config_plain vc groups memory c Hp Hne Hc) as (n & page & En & Hn & Ep & _ & _ & Et).
  split.
  - unfold tensor_layers. rewrite Et list_fmap_bind zrange_seq list_fmap_bind /compose. cbn [shared_by].
    etrans; [|etrans; [apply (columns_perm (Z.to_nat n) (layer_names <$> groups))|]].
    + apply reflexive_eq, bind_ext_elem. intros i _. unfold shared_layers. rewrite Nat2Z.id omap_of_fmap //.
    + apply Forall_forall. intros l (g & -> & Hg)%list_elem_of_fmap. apply py_max_Ok in En as [_ Hle].
      specialize (Hle (zlen (layer_names g))). rewrite list_elem_of_fmap in Hle. unfold zlen in Hle.
      assert (Z.of_nat (length (layer_names g)) ≤ n) by (apply Hle; by exists g). lia.
    + rewrite list_fmap_bind. done.
  - rewrite Et. intros t (i & -> & _)%list_elem_of_fmap. apply shared_layers_apart.
  - rewrite Et. intros t x (i & -> & _)%list_elem_of_fmap. cbn [shared_by tensor_size]. unfold shared_layers.
    intros (g & Hg & Hx)%list_elem_of_omap. exists g, page. split_and!; [done|by eapply list_elem_of_lookup_2| |done].
    pose proof (uniform_page_Ok groups page g Ep Hg) as Hpage. unfold layer_page. eapply Forall_forall in Hp; [|done].
    by destruct (lg_spec g).
Qed.

Lemma get_num_blocks_pos vc n memory page b :
  0 < n → 0 < page → get_num_blocks vc n memory page = Ok b →
  b = default (Z.max (memory / page / n) 0) (vc_num_gpu_blocks_override vc).
Proof.
  intros Hn Hp. unfold get_num_blocks. rewrite py_floordiv_pos //. cbn [mbind res_bind]. rewrite py_floordiv_pos //.
  cbn [mbind res_bind]. by intros [= <-].
Qed.

(** ** Pages of a request *)

(** The number of pages of a layer that a request of maximal length holds. *)
Definition spec_slots vc s : Z :=
  let len := vc_max_model_len vc in
  let ranks := vc_decode_context_parallel_size vc * vc_prefill_context_parallel_size vc in
  match s with
  | FullAttentionSpec bs _ _ | TQFullAttentionSpec bs _ _ _ | MLAAttentionSpec bs _ _ _
  | SinkFullAttentionSpec bs _ _ _ => cdiv (if bool_decide (1 < ranks) then cdiv len ranks else len) bs
  | ChunkedLocalAttentionSpec bs _ chunk => chunked_max_admission bs chunk (vc_max_num_batched_tokens vc) len
  | SlidingWindowSpec bs _ _ w | SlidingWindowMLASpec bs _ _ w _ =>
      sliding_max_admission bs w (vc_max_num_batched_tokens vc) len
  | MambaSpec bs b =>
      if bool_decide (vc_mamba_cache_mode vc = "all") then cdiv len bs
      else if bool_decide (vc_mamba_cache_mode vc = "align") then 2 + num_speculative_blocks b
      else 1 + num_speculative_blocks b
  | CrossAttentionSpec bs _ => cdiv (vc_max_num_encoder_input_tokens vc) bs
  end.

Lemma usage_slots vc s u p : sized s → page_size_bytes s = Ok p → spec_max_memory_usage_bytes vc s = Ok u →
  u = spec_slots vc s * p.
Proof.
  intros [Hbs _] Hp. destruct s; cbn [spec_max_memory_usage_bytes spec_slots spec_block_size] in *;
    unfold full_max_memory_usage, chunked_max_memory_usage, sliding_max_memory_usage, mamba_max_memory_usage, cross_max_memory_usage;
    cbv zeta; revert Hp; unfold py_divisor; rewrite ?py_cdiv_pos ?(bool_decide_false (block_size = 0)); try lia; intros ->; cbn [mbind res_bind].
  all: try (intros [= <-]; lia).
  - bind_ok u' as E. intros [= <-]. lia.
  - bind_ok u' as E. intros [= <-]. lia.
  - destruct (bool_decide _); [intros [= <-]; lia|]. destruct (bool_decide _); intros [= <-]; lia.
Qed.

Lemma cdiv_mul a b : 0 < b → cdiv (a * b) b = a.
Proof. intros Hb. pose proof (cdiv_spec (a * b) b Hb). nia. Qed.

Lemma pages_slots vc s : sized s → (∃ u, spec_max_memory_usage_bytes vc s = Ok u) → spec_pages vc s = Ok (spec_slots vc s).
Proof.
  intros Hs [u Hu]. pose proof Hs as [_ (p & Hp & Hpos)]. unfold spec_pages. rewrite Hu Hp. cbn [mbind res_bind].
  rewrite py_cdiv_pos // (usage_slots vc s u p) // cdiv_mul //.
Qed.

(** Layers of one type need the same number of pages. *)
Lemma uniform_slots vc specs s s' : is_uniform_type specs = Ok true → s ∈ specs.*2 → s' ∈ specs.*2 →
  spec_slots vc s = spec_slots vc s'.
Proof.
  unfold is_uniform_type. destruct (bool_decide_reflect (1 < length (remove_dups (spec_block_size <$> specs.*2)))%nat) as [|Hbs]; [done|].
  intros Hu Hs Hs'. assert (spec_block_size s = spec_block_size s') as Eb.
  { assert (∀ x, x ∈ specs.*2 → spec_block_size x ∈ remove_dups (spec_block_size <$> specs.*2)) as Hin
      by (intros x Hx; apply elem_of_remove_dups, list_elem_of_fmap; by exists x).
    apply Hin in Hs, Hs'. destruct (remove_dups _) as [|z [|]]; [by apply not_elem_of_nil in Hs| |cbn in Hbs; lia].
    apply list_elem_of_singleton in Hs, Hs'. congruence. }
  clear Hbs. destruct (specs.*2) as [|one l] eqn:El; [done|]. apply list_elem_of_In in Hs, Hs'.
  destruct one; apply (inj Ok) in Hu; rewrite forallb_forall in Hu; apply Hu in Hs, Hs'; clear Hu El;
    destruct s; try discriminate Hs; destruct s'; try discriminate Hs'; cbn in Eb; subst; try done; cbn in *.
  all: repeat match goal with H : bool_decide (?a = ?b) = true |- _ => apply bool_decide_eq_true in H; simplify_eq end.
  all: try done. by rewrite Hs Hs'.
Qed.

Definition same_slots vc (l : list KVCacheSpec) : Prop := ∀ s s', s ∈ l → s' ∈ l → spec_slots vc s = spec_slots vc s'.

(** The blocks a request of maximal length can hold, over all groups. *)
Definition group_pages vc (g : LayerGroup) : res Z :=
  match lg_spec g with
  | LayerSpec s => spec_pages vc s
  | UniformTypeKVCacheSpecs _ specs => max_memory_usage_pages vc specs
  end.
Definition request_blocks vc groups : res Z := pages ← mapM_res (group_pages vc) groups; Ok (zsum pages).

(** ** Blocks and memory *)

(** The memory is what an override of the number of blocks asks for. *)
Definition effective vc groups (memory : Z) : Prop :=
  match vc_num_gpu_blocks_override vc with
  | None => True
  | Some o => ∃ b, _pool_bytes_per_block groups = Ok b ∧ memory = o * b
  end.

(** What a configuration guarantees to the engine: the tensors fit in the memory, and
    when the check of the memory has passed there are blocks for a request. *)
Definition serves vc groups (memory : Z) c : Prop :=
  0 ≤ wc_num_blocks c ∧ Forall (λ t, 0 ≤ tensor_size t) (kv_cache_tensors c) ∧ tensor_bytes c ≤ memory ∧
  ∀ b, _max_memory_usage_bytes_from_groups vc groups = Ok b → b ≤ memory →
    ∃ need, request_blocks vc groups = Ok need ∧ need ≤ wc_num_blocks c.

Lemma plain_not_uniform groups : plain_groups groups → groups ≠ [] → all_uniform_specs groups = false ∧ shared_pool groups.
Proof.
  destruct groups as [|[names [s|bs specs] e] groups]; [done|done|]. by intros [? _]%Forall_cons.
Qed.

Lemma pool_bytes_shared groups : shared_pool groups →
  _pool_bytes_per_block groups =
  if all_uniform_specs groups then
    g0 ← py_nth groups 0;
    page_sizes ← get_page_sizes (uniform_specs g0);
    num_layer_tuples ← max_layer_tuples groups;
    Ok (zsum page_sizes * num_layer_tuples)
  else
    group_size ← max_group_len groups;
    page_size ← get_uniform_page_size (lg_spec <$> groups);
    Ok (page_size * group_size).
Proof. by destruct groups as [|[names [s|bs specs] e] [|g2 gs]]. Qed.

Lemma plain_blocks vc groups memory c :
  plain_groups groups → groups ≠ [] → groups_sized groups → effective vc groups memory → 0 ≤ memory →
  get_kv_cache_config_from_groups vc groups memory = Ok c →
  ∃ n page, max_group_len groups = Ok n ∧ get_uniform_page_size (lg_spec <$> groups) = Ok page ∧ 0 < n ∧ 0 < page ∧
    wc_num_blocks c = memory / (page * n) ∧ tensor_bytes c = page * n * wc_num_blocks c ∧
    Forall (λ t, tensor_size t = page * wc_num_blocks c) (kv_cache_tensors c).
Proof.
  intros Hp Hne Hs He Hm Hc. destruct (config_plain vc groups memory c Hp Hne Hc) as (n & page & En & Hn & Ep & Eb & _ & Et).
  destruct (plain_not_uniform groups Hp Hne) as [Hu Hsh].
  assert (0 < page) as Hpage by (eapply uniform_page_size_pos; [done|by apply not_all_uniform|done]).
  exists n, page. split_and!; [done|done|done|done| | |rewrite Et; by apply Forall_fmap, Forall_true].
  - apply get_num_blocks_pos in Eb; [|done|done]. rewrite Eb. unfold effective in He.
    destruct (vc_num_gpu_blocks_override vc) as [o|]; cbn [default].
    + destruct He as (b & Hb & ->). assert (b = page * n) as ->.
      { rewrite pool_bytes_shared // Hu En Ep in Hb. by injection Hb. }
      cbn. rewrite Z.div_mul //. nia.
    + cbn. rewrite Z.max_l; [|apply Z.div_pos; [apply Z.div_pos; lia|lia]]. rewrite Z.div_div; lia.
  - unfold tensor_bytes. rewrite Et -list_fmap_compose.
    rewrite (list_fmap_ext _ (λ _ : Z, page * wc_num_blocks c)); [|done]. rewrite zsum_const. unfold zrange.
    rewrite zlen_seqZ. nia.
Qed.

Lemma plain_serves vc groups memory c :
  plain_groups groups → groups ≠ [] → groups_sized groups → effective vc groups memory → 0 ≤ memory →
  get_kv_cache_config_from_groups vc groups memory = Ok c → serves vc groups memory c.
Proof.
  intros Hp Hne Hs He Hm Hc.
  destruct (plain_blocks vc groups memory c Hp Hne Hs He Hm Hc) as (n & page & En & Ep & Hn & Hpage & Eb & Et & Ets).
  assert (0 ≤ wc_num_blocks c) as Hnb by (rewrite Eb; apply Z.div_pos; nia). split; [done|].
  split; [eapply Forall_impl; [exact Ets|]; intros t ->; nia|]. split; [rewrite Et Eb; apply Z.mul_div_le; nia|]. destruct (plain_not_uniform groups Hp Hne) as [Hu Hsh]. intros b.
  rewrite usage_shared_eq //. unfold usage_shared. rewrite Hu En Ep. cbn [mbind res_bind]. bind_ok blocks as El.
  intros [= <-] Hle. exists (zsum blocks). split; [|rewrite Eb; apply Z.div_le_lower_bound; nia].
  unfold request_blocks. rewrite (mapM_res_ext _ (group_blocks vc page)) ?El //. intros g Hg.
  pose proof (uniform_page_Ok groups page g Ep Hg) as Hpg. eapply Forall_forall in Hp; [|done].
  unfold group_pages, group_blocks. destruct (lg_spec g) as [s|]; [|done]. cbn in Hpg |- *. unfold spec_pages. by rewrite Hpg.
Qed.

(** ** A group with a size per layer *)

Lemma uniform_usage vc specs : Forall sized specs.*2 → same_slots vc specs.*2 → specs ≠ [] →
  ∀ us, mapM_res (spec_max_memory_usage_bytes vc) specs.*2 = Ok us →
  ∃ n ps, layer_page_sizes specs = Ok ps ∧ zsum us = n * zsum ps ∧ max_memory_usage_pages vc specs = Ok n.
Proof.
  intros Hs Hu Hne us Hus. destruct (layer_page_sizes_ok specs Hs) as (ps & Eps & _).
  destruct specs as [|[x0 s0] specs]; [done|]. set (l := ((x0, s0) :: specs).*2) in *.
  assert (∀ s, s ∈ l → spec_slots vc s = spec_slots vc s0) as Hslots.
  { intros s Hin. apply Hu; [done|left]. }
  exists (spec_slots vc s0), ps. split_and!; [done| |].
  - apply zsum_Forall2_mul. unfold layer_page_sizes in Eps. fold l in Eps. apply mapM_res_Forall2 in Hus, Eps. clear -Hs Hus Eps Hslots.
    revert us ps Hus Eps. induction l as [|s l IH]; intros us ps; inversion 1; subst; inversion 1; subst; constructor.
    + apply Forall_cons in Hs as [Hs _]. rewrite -(Hslots s); [|left]. by eapply usage_slots.
    + apply IH; [by apply Forall_cons in Hs as [_ ?]| |done|done]. intros s' Hs'. apply Hslots. by right.
  - unfold max_memory_usage_pages. fold l.
    assert (mapM_res (spec_pages vc) l = Ok ((λ _, spec_slots vc s0) <$> l)) as ->.
    { apply mapM_res_Forall2. apply mapM_res_Forall2 in Hus. clear -Hs Hus Hslots.
      induction Hus as [|s u l us Hu _ IH]; constructor.
      - apply Forall_cons in Hs as [Hs _]. rewrite -(Hslots s); [|left]. apply pages_slots; [done|by exists u].
      - apply IH; [by apply Forall_cons in Hs as [_ ?]|]. intros s' Hs'. apply Hslots. by right. }
    cbn [mbind res_bind]. destruct (py_max ((λ _, spec_slots vc s0) <$> l)) as [m|] eqn:Em; [|done].
    by apply py_max_Ok in Em as [(? & -> & _)%list_elem_of_fmap _].
Qed.

Lemma od_lookup_elem specs x s : NoDup specs.*1 → (x, s) ∈ specs → od_lookup specs x = Ok s.
Proof. intros Hnd Hin. unfold od_lookup. by rewrite (od_get_elem _ _ _ Hnd Hin). Qed.

(** The tensors of the layers of a dictionary. *)
Lemma layer_tensors specs nb names ts : mapM_res (layer_tensor specs nb) names = Ok ts →
  (ts ≫= shared_by) = names ∧
  ∀ t, t ∈ ts → ∃ x s p, x ∈ names ∧ shared_by t = [x] ∧ od_lookup specs x = Ok s ∧ page_size_bytes s = Ok p ∧
    tensor_size t = p * nb.
Proof.
  intros HF%mapM_res_Forall2. induction HF as [|x t names ts Ht _ [IH1 IH2]].
  { split; [done|]. by intros t ?%not_elem_of_nil. }
  rewrite bind_cons IH1. revert Ht. unfold layer_tensor. bind_ok s as E. bind_ok p as Ep. intros [= <-]. split; [done|].
  intros t [->|Ht]%elem_of_cons.
  - exists x, s, p. split_and!; [left|done..].
  - destruct (IH2 t Ht) as (y & s' & p' & Hy & H). exists y, s', p'. split; [by right|done].
Qed.

Lemma layer_tensors_sum d nb specs : (∀ x s, (x, s) ∈ specs → od_lookup d x = Ok s) → ∀ ts ps,
  Forall2 (λ s p, page_size_bytes s = Ok p) specs.*2 ps → Forall2 (λ x t, layer_tensor d nb x = Ok t) specs.*1 ts →
  zsum (tensor_size <$> ts) = zsum ps * nb.
Proof.
  induction specs as [|[x s] specs IH]; intros Hl ts ps.
  { inversion 1; subst. by inversion 1; subst. }
  inversion 1 as [|? p ? ps' Hp Hps]; subst. inversion 1 as [|? t ? ts' Ht Hts]; subst. rewrite fmap_cons !zsum_cons.
  rewrite (IH (λ x s Hin, Hl x s (list_elem_of_further _ _ _ Hin)) _ ps') //. revert Ht. unfold layer_tensor. cbn [fst].
  rewrite (Hl x s); [|left]. cbn [mbind res_bind snd] in *. rewrite Hp. intros [= <-]. cbn. lia.
Qed.

Lemma layer_tensors_bytes specs nb ts ps : NoDup specs.*1 → layer_page_sizes specs = Ok ps →
  mapM_res (layer_tensor specs nb) specs.*1 = Ok ts → zsum (tensor_size <$> ts) = zsum ps * nb.
Proof.
  intros Hnd Hps%mapM_res_Forall2 Hts%mapM_res_Forall2. eapply layer_tensors_sum; [|done|done].
  intros. by apply od_lookup_elem.
Qed.

Lemma zsum_pos l : Forall (λ x, 0 < x) l → l ≠ [] → 0 < zsum l.
Proof. destruct l as [|x l]; [done|]. intros [? Hl]%Forall_cons _. rewrite zsum_cons. apply zsum_positive in Hl. lia. Qed.

Lemma uniform_layout vc g bs specs memory c :
  lg_spec g = UniformTypeKVCacheSpecs bs specs → (layer_names g = specs.*1 ∨ layer_names g = []) →
  NoDup specs.*1 → specs ≠ [] → Forall sized specs.*2 → same_slots vc specs.*2 →
  effective vc [g] memory → 0 ≤ memory → get_kv_cache_config_from_groups vc [g] memory = Ok c →
  wc_groups c = [g] ∧ layout_ok [g] c ∧ serves vc [g] memory c.
Proof.
  destruct g as [names gs e]. cbn [lg_spec layer_names]. intros -> Hnames Hnd Hne Hs Hu He Hm.
  destruct (layer_page_sizes_ok specs Hs) as (ps & Eps & Hpos). unfold effective in He.
  cbn [get_kv_cache_config_from_groups _pool_bytes_per_block group_page_size] in *. rewrite Eps in He |- *. cbn [mbind res_bind] in *.
  assert (0 < zsum ps) as HP.
  { apply zsum_pos; [done|]. intros ->. apply mapM_res_Forall2 in Eps. inversion Eps as [E|]. by destruct specs. }
  rewrite py_floordiv_pos //. cbn [mbind res_bind].
  assert (may_override_num_blocks vc (memory / zsum ps) = memory / zsum ps) as ->.
  { unfold may_override_num_blocks. destruct (vc_num_gpu_blocks_override vc) as [o|]; [|done].
    destruct He as (b & [= <-] & ->). cbn. rewrite Z.div_mul //. lia. }
  bind_ok ts as Ets. intros [= <-]. destruct (layer_tensors _ _ _ _ Ets) as [Elayers Hts]. split; [done|].
  assert (0 ≤ memory / zsum ps) as Hnb by (apply Z.div_pos; lia). split; [split|split_and!; [done| | |]].
  - unfold tensor_layers. cbn. by rewrite Elayers app_nil_r.
  - cbn. intros t Ht. destruct (Hts t Ht) as (x & s & p & Hx & -> & _). exists [Some x]. split; [done|].
    constructor; [|done]. by intros y [= <-].
  - cbn. intros t y Ht. destruct (Hts t Ht) as (x & s & p & Hx & -> & Es & Ep & Esz).
    intros ->%list_elem_of_singleton. eexists _, p. split; [left|]. split_and!; [done| |done]. unfold layer_page. cbn. by rewrite Es.
  - cbn. apply Forall_forall. intros t Ht. destruct (Hts t Ht) as (x & s & p & Hx & _ & Es & Ep & ->).
    assert (0 < p); [|nia]. revert Es. unfold od_lookup. destruct (od_get specs x) as [s'|] eqn:Eg; [|done]. intros [= ->].
    apply od_get_Some in Eg. rewrite Forall_forall in Hs. destruct (Hs s) as [_ (p' & Hp' & ?)]; [|congruence].
    apply list_elem_of_fmap. by exists (x, s).
  - unfold tensor_bytes. cbn [kv_cache_tensors]. destruct Hnames as [->| ->]; [|by injection Ets as <-].
    rewrite (layer_tensors_bytes _ _ _ ps Hnd Eps Ets). apply Z.mul_div_le. lia.
  - cbn [_max_memory_usage_bytes_from_groups wc_num_blocks]. intros b. bind_ok us as Eus. intros [= <-] Hle.
    destruct (uniform_usage vc specs Hs Hu Hne us Eus) as (n & ps' & Eps' & Esum & En).
    assert (ps' = ps) as -> by congruence. exists n. unfold request_blocks. cbn [mapM_res group_pages lg_spec]. rewrite En. cbn.
    split; [by rewrite Z.add_0_r|]. apply Z.div_le_lower_bound; lia.
Qed.
End Layout.
