(* ===== verification/CachePages.v ===== *)
(** * Unifying the page sizes

    [unify_kv_cache_spec_page_size] makes the pages of all layers as large as the largest
    one by enlarging blocks.  The size of a page is proportional to the block size for the
    layers in [scalable]; for them the function succeeds exactly when it can. *)

From S2P Require Import Prelude OrderedDict KVCacheSpec CacheSizes CacheConfig CacheFit CacheGroups CacheLayout.

Section Pages.
Context {torch : TorchLib}.
Implicit Types (s : KVCacheSpec) (specs : specs_dict).

(** A page that grows with the block: no padding, and a block that is compressed evenly. *)
Definition scalable s : Prop :=
  is_mamba s = false ∧ spec_page_size_padded s = None ∧
  match spec_mla s with
  | Some m => alignment m = None ∧ 0 < compress_ratio m ∧ spec_block_size s `mod` compress_ratio m = 0
  | None => True
  end.

Lemma floordiv_scale a b k q : 0 < b → a `mod` b = 0 → py_floordiv a b = Ok q → py_floordiv (a * k) b = Ok (q * k).
Proof.
  intros Hb Hm. rewrite !py_floordiv_pos //. intros [= <-]. f_equal.
  apply Z.div_exact in Hm; [|lia]. rewrite {1}Hm -Z.mul_assoc Z.mul_comm Z.div_mul //. lia.
Qed.

Lemma set_block_size_eq s bs : spec_block_size (set_block_size s bs) = bs ∧
  is_sliding_window_mla (set_block_size s bs) = is_sliding_window_mla s.
Proof. by destruct s. Qed.

Lemma set_block_size_fields s bs :
  spec_attn (set_block_size s bs) = spec_attn s ∧ spec_mla (set_block_size s bs) = spec_mla s ∧
  spec_page_size_padded (set_block_size s bs) = spec_page_size_padded s ∧ is_mamba (set_block_size s bs) = is_mamba s.
Proof. by destruct s. Qed.

Lemma scalable_replace s bs : scalable s → replace_block_size s bs = Ok (set_block_size s bs).
Proof.
  intros (_ & _ & Hm). unfold replace_block_size, _apply_alignment_padding. destruct (set_block_size_fields s bs) as (_ & -> & _).
  destruct (spec_mla s) as [m|]; [|done]. destruct Hm as (Ha & _). cbn. by rewrite Ha.
Qed.

Lemma storage_scale s k q : scalable s → storage_block_size s = Ok q →
  storage_block_size (set_block_size s (spec_block_size s * k)) = Ok (q * k).
Proof.
  intros (_ & _ & Hm). unfold storage_block_size. destruct (set_block_size_fields s (spec_block_size s * k)) as (_ & -> & _).
  rewrite (proj1 (set_block_size_eq s _)). destruct (spec_mla s) as [m|]; [|by intros [= ->]].
  destruct Hm as (_ & Hc & Hd). by apply floordiv_scale.
Qed.

Lemma real_page_scale s k p : scalable s → real_page_size_bytes s = Ok p →
  real_page_size_bytes (set_block_size s (spec_block_size s * k)) = Ok (p * k).
Proof.
  intros Hsc. pose proof (λ q, storage_scale s k q Hsc) as Hst. destruct s; cbn [real_page_size_bytes set_block_size spec_block_size] in *;
    unfold tq_real_page_size, latent_real_page_size, window_latent_real_page_size, full_real_page_size, attn_real_page_size,
      mla_real_page_size.
  - destruct (is_nvfp4 _); intros [= <-]; f_equal; ring.
  - destruct (bool_decide _); [intros [= <-]; f_equal; ring|]. destruct (is_nvfp4 _); intros [= <-]; f_equal; ring.
  - destruct (bool_decide _); [destruct (bool_decide _)|]; [|intros [= <-]; f_equal; ring|];
      (bind_ok q as Eq; rewrite (Hst q eq_refl); intros [= <-]; cbn; f_equal; ring).
  - destruct (is_nvfp4 _); intros [= <-]; f_equal; ring.
  - destruct (is_nvfp4 _); intros [= <-]; f_equal; ring.
  - destruct (is_nvfp4 _); intros [= <-]; f_equal; ring.
  - destruct (bool_decide _); [|bind_ok u as Eu];
      (bind_ok q as Eq; rewrite (Hst q eq_refl); intros [= <-]; cbn; f_equal; ring).
  - by destruct Hsc.
  - destruct (is_nvfp4 _); intros [= <-]; f_equal; ring.
Qed.

Lemma page_scale s k p : scalable s → page_size_bytes s = Ok p →
  page_size_bytes (set_block_size s (spec_block_size s * k)) = Ok (p * k).
Proof.
  intros Hsc. unfold page_size_bytes. bind_ok r as Er. rewrite (real_page_scale s k r Hsc Er). cbn [mbind res_bind].
  destruct (set_block_size_fields s (spec_block_size s * k)) as (Ea & _ & -> & _). destruct Hsc as (_ & -> & _). intros [= <-].
  f_equal. unfold scale_bytes. rewrite Ea (proj1 (set_block_size_eq s _)). destruct (spec_attn s) as [a|]; [|ring].
  destruct (is_per_token_head _); ring.
Qed.

(** A layer whose page was made [k] times as large. *)
Definition enlarged (page : Z) (l l' : string * KVCacheSpec) : Prop :=
  ∃ p k, page_size_bytes l.2 = Ok p ∧ page = p * k ∧ page_size_bytes l'.2 = Ok page ∧
    l' = (l.1, set_block_size l.2 (spec_block_size l.2 * k)).

Lemma set_block_size_same s : set_block_size s (spec_block_size s) = s.
Proof. by destruct s. Qed.

Lemma unify_layer_cases page l : scalable l.2 → sized l.2 →
  match unify_layer page l with
  | Ok l' => enlarged page l l'
  | Raise e => e = NotImplementedError ∧ ∃ p, page_size_bytes l.2 = Ok p ∧ page `mod` p ≠ 0
  end.
Proof.
  destruct l as [x s]. cbn [snd]. intros Hsc [_ (p & Hp & Hpos)]. unfold unify_layer. rewrite Hp. cbn [mbind res_bind].
  destruct (bool_decide_reflect (p = page)) as [->|Hne].
  { exists page, 1. cbn [fst snd]. rewrite !Z.mul_1_r set_block_size_same. by split_and!. }
  unfold py_mod. rewrite (bool_decide_false (p = 0)); [|lia]. cbn [mbind res_bind].
  destruct (bool_decide_reflect (page `mod` p ≠ 0)) as [Hmod|Hmod]; [split; [done|]; by exists p|].
  assert (page = p * (page / p)) as Ediv by (apply Z.div_exact; lia).
  rewrite scalable_replace //. cbn [mbind res_bind]. rewrite (page_scale s (page / p) p Hsc Hp). cbn [mbind res_bind].
  rewrite bool_decide_true; [|lia]. cbn. exists p, (page / p). cbn [fst snd]. rewrite (page_scale s (page / p) p Hsc Hp) -Ediv //.
Qed.

(** C34: unifying the page sizes succeeds exactly when it can.  For layers whose page is
    proportional to their block ([scalable]: no Mamba layers, no padded or aligned pages,
    blocks that are compressed evenly), [unify_kv_cache_spec_page_size] returns the
    layers in order, each with its block enlarged so that its page, which divides it, is
    the largest page of the model; or it raises [NotImplementedError], and then some page
    does not divide the largest one. *)
Theorem unify_page_sizes specs sizes page :
  Forall (λ s, scalable s ∧ sized s) specs.*2 → layer_page_sizes specs = Ok sizes → py_max sizes = Ok page →
  match unify_kv_cache_spec_page_size specs with
  | Ok specs' => Forall2 (enlarged page) specs specs'
  | Raise e => e = NotImplementedError ∧ ∃ s p, s ∈ specs.*2 ∧ page_size_bytes s = Ok p ∧ page `mod` p ≠ 0
  end.
Proof.
  intros Hs Esz Emax. unfold unify_kv_cache_spec_page_size. rewrite Esz. cbn [mbind res_bind].
  destruct (bool_decide_reflect (length (remove_dups sizes) ≤ 1)%nat) as [H1|H1].
  - apply py_max_Ok in Emax as [Hin _]. assert (∀ x, x ∈ sizes → x = page) as Hall.
    { intros x Hx. rewrite -elem_of_remove_dups in Hin. rewrite -elem_of_remove_dups in Hx.
      destruct (remove_dups sizes) as [|y [|]]; [by apply not_elem_of_nil in Hin| |cbn in H1; lia].
      apply list_elem_of_singleton in Hin, Hx. congruence. }
    apply mapM_res_Forall2 in Esz. clear Hin H1. revert sizes Esz Hall. induction specs as [|[x s] specs IH]; intros sizes; inversion 1; subst; [constructor|].
    intros Hall. constructor; [|eapply IH; [by apply Forall_cons in Hs as [_ ?]|done|intros z Hz; apply Hall; by right]].
    assert (y = page) as -> by (apply Hall; left). exists page, 1. cbn [fst snd]. rewrite !Z.mul_1_r set_block_size_same. by split_and!.
  - rewrite Emax. cbn [mbind res_bind]. clear Esz Emax H1. induction specs as [|l specs IH]; [constructor|].
    rewrite fmap_cons in Hs. apply Forall_cons in Hs as [[Hsc Hsz] Hs]. specialize (IH Hs). cbn [mapM_res].
    pose proof (unify_layer_cases page l Hsc Hsz) as Hl. destruct (unify_layer page l) as [l'|e]; cbn [mbind res_bind].
    + destruct (mapM_res _ specs) as [specs'|e]; cbn [mbind res_bind]; [by constructor|]. destruct IH as (-> & s & p & Hin & H).
      split; [done|]. exists s, p. split; [by right|done].
    + destruct Hl as (-> & p & Hp & Hm). split; [done|]. exists (l.2), p. split; [left|done].
Qed.

Lemma real_page_ok s : spec_mla s = None → ∃ r, real_page_size_bytes s = Ok r.
Proof. destruct s; intros H; try discriminate H; cbn; try destruct (bool_decide _); by eexists. Qed.

(** A padded page cannot be enlarged: the block is replaced, the padding stays, and the
    assertion fails where [NotImplementedError] is announced. *)
Theorem unify_padded_asserts page x s p q :
  spec_mla s = None → spec_page_size_padded s = Some q → page_size_bytes s = Ok p → 0 < p < page → page `mod` p = 0 →
  unify_layer page (x, s) = Raise AssertionError.
Proof.
  intros Hm Hq Hp Hlt Hmod. assert (p = q) as ->.
  { revert Hp. unfold page_size_bytes. rewrite Hq. bind_ok r as Er. bind_ok u as Eu. by intros [= <-]. }
  unfold unify_layer. rewrite Hp. cbn [mbind res_bind]. rewrite (bool_decide_false (q = page)); [|lia].
  unfold py_mod. rewrite (bool_decide_false (q = 0)); [|lia]. cbn [mbind res_bind]. rewrite (bool_decide_false (page `mod` q ≠ 0)); [|intros Hc; by apply Hc].
  unfold replace_block_size, _apply_alignment_padding. set (bs := spec_block_size s * (page / q)).
  destruct (set_block_size_fields s bs) as (_ & -> & Ep & _). rewrite Hm. cbn [mbind option_bind res_bind].
  unfold page_size_bytes. rewrite Ep Hq. destruct (real_page_size_bytes (set_block_size s bs)) as [r|e] eqn:Er; cbn [mbind res_bind].
  - destruct (bool_decide (_ ≤ q)); cbn [py_assert mbind res_bind]; [|done].
    rewrite (bool_decide_false (q = page)); [done|lia].
  - destruct (real_page_ok (set_block_size s bs)) as [r Hr]; [by rewrite (proj1 (proj2 (set_block_size_fields s bs)))|congruence].
Qed.
End Pages.
