(* ===== verification/CacheConfigSpec.v ===== *)
(** * The configurations of the workers

    [get_kv_cache_configs] puts the pieces together; [cache_configs_ok] states what the
    engine relies on when it returns. *)

From S2P Require Import Prelude OrderedDict KVCacheSpec CacheSizes CacheConfig CacheFit CacheGroups CacheLayout CachePages.

Section Configs.
Context {torch : TorchLib}.
Implicit Types (vc : VllmConfig) (s : KVCacheSpec) (specs : specs_dict) (groups : list LayerGroup) (c : WorkerConfig).

(** ** Sizes of the groups *)

(** Merging keeps the block size and the page size of the first layer. *)
Lemma merge_page s l m : is_sliding_window_mla s = false → spec_merge s l = Ok m →
  page_size_bytes m = page_size_bytes s ∧ spec_block_size m = spec_block_size s.
Proof.
  intros Hs. assert (∀ s', base_merge s' l = Ok m → m = s') as Hbase.
  { intros s'. unfold base_merge. bind_ok u as E. by intros [= <-]. }
  assert (∀ bs a v f, full_merge bs a v l = Ok f → head_size_v f = v) as Hfull.
  { intros bs a v f. unfold full_merge. bind_ok u1 as E1. bind_ok u2 as E2. bind_ok w as E3. bind_ok w' as E4.
    bind_ok u5 as E5. bind_ok u6 as E6. by intros [= <-]. }
  destruct s; cbn [spec_merge] in *; unfold tq_merge, mla_merge; try (by intros ->%Hbase); try done.
  - bind_ok f' as E. intros [= <-]. unfold page_size_bytes, real_page_size_bytes. by rewrite (Hfull _ _ _ _ E).
  - bind_ok f' as E. bind_ok b as E'. bind_ok u as E''. intros [= <-]. unfold page_size_bytes, real_page_size_bytes, tq_real_page_size.
    by rewrite (Hfull _ _ _ _ E).
  - bind_ok u as E. bind_ok u' as E'. cbn. intros [= <-]. done.
  - bind_ok f' as E. intros [= <-]. unfold page_size_bytes, real_page_size_bytes. by rewrite (Hfull _ _ _ _ E).
Qed.

Lemma merge_sized s l m : is_sliding_window_mla s = false → sized s → spec_merge s l = Ok m → sized m.
Proof. intros Hs Hsz Hm. destruct (merge_page s l m Hs Hm) as [Ep Eb]. unfold sized in *. by rewrite Ep Eb. Qed.

(** Layers with sizes, none of them a sliding window over latent attention. *)
Definition simple_specs specs : Prop := Forall (λ s, sized s ∧ is_sliding_window_mla s = false) specs.*2.

Lemma simple_sized specs : simple_specs specs → Forall sized specs.*2.
Proof. intros Hs. eapply Forall_impl; [exact Hs|]. by intros s [? _]. Qed.

Lemma simple_elem specs x s : simple_specs specs → od_lookup specs x = Ok s → sized s ∧ is_sliding_window_mla s = false.
Proof.
  unfold od_lookup. intros Hs. destruct (od_get specs x) as [s'|] eqn:E; [|done]. intros [= ->].
  unfold simple_specs in Hs. rewrite Forall_forall in Hs. apply Hs, list_elem_of_fmap. exists (x, s). split; [done|by apply od_get_Some].
Qed.

Lemma create_groups_sized specs l groups : simple_specs specs → create_kv_cache_group_specs specs l = Ok groups →
  plain_groups groups ∧ groups_sized groups.
Proof.
  intros Hs HF%mapM_res_Forall2. induction HF as [|names g l groups Hg _ [IH1 IH2]]; [split; constructor|].
  revert Hg. unfold create_group. bind_ok specs' as E. bind_ok s0 as E0. bind_ok m as Em. intros [= <-].
  split; constructor; [done|done| |done]. cbn. unfold group_sized. cbn. constructor; [|done].
  apply py_nth_first in E0. apply mapM_res_Forall2 in E. destruct (Forall2_lookup_r _ _ _ _ _ E E0) as (x & _ & Hx).
  destruct (simple_elem specs x s0 Hs Hx) as [Hsz Hsw]. by eapply merge_sized.
Qed.

Lemma set_padded_eq s n : spec_block_size (set_page_size_padded s n) = spec_block_size s ∧
  is_sliding_window_mla (set_page_size_padded s n) = is_sliding_window_mla s.
Proof. by destruct s. Qed.

Lemma replace_block_size_eq s bs s' : replace_block_size s bs = Ok s' →
  spec_block_size s' = bs ∧ is_sliding_window_mla s' = is_sliding_window_mla s.
Proof.
  unfold replace_block_size, _apply_alignment_padding. destruct (spec_mla _ ≫= _).
  - bind_ok p as E. bind_ok p' as E'. intros [= <-]. destruct (bool_decide (p' = p)); rewrite ?(proj1 (set_padded_eq _ _))
      ?(proj2 (set_padded_eq _ _)); apply set_block_size_eq.
  - intros [= <-]. apply set_block_size_eq.
Qed.

Lemma unify_simple specs specs' : simple_specs specs → unify_kv_cache_spec_page_size specs = Ok specs' → simple_specs specs'.
Proof.
  intros Hs. destruct (layer_page_sizes_ok specs) as (sizes & Esz & Hpos); [by apply simple_sized|].
  unfold unify_kv_cache_spec_page_size. rewrite Esz. cbn [mbind res_bind]. destruct (bool_decide _); [by intros [= <-]|].
  bind_ok mx as Em. intros HF%mapM_res_Forall2. apply py_max_Ok in Em as [Hin _]. rewrite Forall_forall in Hpos. apply Hpos in Hin.
  clear Esz Hpos. unfold simple_specs in *. induction HF as [|[x s] [y s'] specs specs' Hxy _ IH]; [done|].
  rewrite fmap_cons in Hs. apply Forall_cons in Hs as [[Hsz Hsw] Hs]. rewrite fmap_cons. constructor; [|by apply IH].
  revert Hxy. unfold unify_layer. pose proof Hsz as [Hbs (p & Hp & Hppos)]. cbn [snd] in *. rewrite Hp. cbn [mbind res_bind].
  destruct (bool_decide _); [by intros [= _ <-]|]. bind_ok r as Er. destruct (bool_decide_reflect (r ≠ 0)) as [|Hr]; [done|].
  bind_ok s1 as E1. bind_ok p1 as Ep1. bind_ok u as Eu. intros [= _ <-]. apply py_assert_Ok, bool_decide_eq_true in Eu as ->.
  destruct (replace_block_size_eq _ _ _ E1) as [Eb Esw]. split; [|by rewrite Esw]. split; [|by exists mx].
  rewrite Eb. apply Z.mul_pos_pos; [done|]. unfold py_mod in Er. rewrite (bool_decide_false (p = 0)) in Er; [|lia].
  apply (inj Ok) in Er. assert (mx `mod` p = 0) as Hmod by lia. apply Z.div_exact in Hmod; nia.
Qed.

(** Without the hybrid manager, chunked layers lose their quantization mode; they are
    left out then. *)
Definition convertible vc specs : Prop :=
  vc_disable_hybrid_kv_cache_manager vc = true → Forall (λ s, is_chunked s = false) specs.*2.

Lemma unify_hybrid_simple specs specs' : Forall (λ s, is_chunked s = false) specs.*2 → simple_specs specs →
  unify_hybrid_kv_cache_specs specs = Ok specs' → simple_specs specs'.
Proof.
  intros Hch Hs. unfold unify_hybrid_kv_cache_specs. bind_ok b as E. destruct b; [by intros [= <-]|].
  bind_ok bs as Ebs. bind_ok l as El. bind_ok b as Eb. destruct b; [|done]. intros [= <-]. clear E Eb.
  destruct (_ && _) eqn:Ec in El; [|by injection El as <-]. apply mapM_res_Forall2 in El. clear Ec Ebs. unfold simple_specs in *.
  induction El as [|[x s] y specs specs' Hxy _ IH]; [done|]. rewrite fmap_cons in Hs, Hch.
  apply Forall_cons in Hs as [[Hsz Hsw] Hs]. apply Forall_cons in Hch as [Hc Hch]. rewrite fmap_cons. constructor; [|by apply IH].
  revert Hxy. cbn [fst snd] in *. bind_ok s' as E. intros [= <-]. cbn [snd].
  destruct s; cbn in E; try discriminate; injection E as <-; by split.
Qed.

(** ** The shape of the groups *)

(** One group with a size per layer; its layers need the same number of pages. *)
Definition one_uniform_group vc groups : Prop :=
  ∃ g bs specs, groups = [g] ∧ lg_spec g = UniformTypeKVCacheSpecs bs specs ∧ specs ≠ [] ∧
    Forall sized specs.*2 ∧ same_slots vc specs.*2 ∧ NoDup specs.*1.

Lemma simple_not_swa specs : simple_specs specs → existsb is_sliding_window_mla specs.*2 = false.
Proof.
  unfold simple_specs. induction specs.*2 as [|s l IH]; [done|]. intros [[_ E] Hl]%Forall_cons. cbn [existsb]. rewrite E.
  by apply IH.
Qed.

Lemma groups_shape vc vc' specs groups : simple_specs specs → convertible vc specs → NoDup specs.*1 →
  get_kv_cache_groups vc specs = Ok groups →
  (plain_groups groups ∧ groups_sized groups) ∨
  (one_uniform_group vc' groups ∧ Forall group_ok groups).
Proof.
  intros Hs Hconv Hnd Hg. destruct (cache_groups_ok vc specs groups) as [HP Hok]; [by left; apply simple_not_swa|done|].
  revert Hg. unfold get_kv_cache_groups. bind_ok specs' as Es.
  assert (simple_specs specs' ∧ specs'.*1 = specs.*1) as [Hs' Hn'].
  { unfold convertible in Hconv. destruct (vc_disable_hybrid_kv_cache_manager vc); [|by injection Es as <-].
    split; [|by apply unify_hybrid_ok in Es as [? _]]. by apply (unify_hybrid_simple specs); [apply Hconv| |]. }
  destruct (is_nil specs') eqn:En; [intros [= <-]; left; split; constructor|].
  bind_ok u as Eu. destruct u; [intros Hg; left; by eapply create_groups_sized|].
  bind_ok o as Eo. destruct o as [g|].
  { destruct (from_specs_Ok _ _ Eo) as (bs & -> & Hne & Hu). intros [= <-]. right. split; [|done].
    eexists _, bs, specs'. split_and!; [done|done|done|by apply simple_sized| |by rewrite Hn'].
    intros s s' Hin Hin'. by eapply uniform_slots. }
  bind_ok o as Eg. destruct o as [l|].
  { unfold group_and_unify_kv_cache_specs in Eg. by rewrite (simple_not_swa _ Hs') in Eg. }
  bind_ok specs2 as E2. unfold _get_kv_cache_groups_uniform_page_size. bind_ok n as Egs. intros Hg. left.
  by eapply create_groups_sized; [eapply unify_simple|].
Qed.

(** ** Projection to a worker *)

Definition worker_layers (w : specs_dict) (names : list string) : list string := filter (λ x, od_mem w x) names.

Lemma project_group_Ok w g g' : project_group w g = Ok g' →
  layer_names g' = worker_layers w (layer_names g) ∧
  match lg_spec g with
  | LayerSpec _ => lg_spec g' = lg_spec g
  | UniformTypeKVCacheSpecs bs specs =>
      ∃ specs', lg_spec g' = UniformTypeKVCacheSpecs bs specs' ∧
        ((layer_names g' = [] ∧ specs' = specs) ∨
         (specs'.*1 = layer_names g' ∧ layer_names g' ≠ [] ∧ ∀ kv, kv ∈ specs' → kv ∈ specs))
  end.
Proof.
  unfold project_group. fold (worker_layers w (layer_names g)). set (names := worker_layers w (layer_names g)). bind_ok gs as E.
  intros [= <-]. cbn [layer_names lg_spec]. split; [done|]. destruct (lg_spec g) as [s|bs specs]; [by injection E as <-|].
  destruct (is_nil names) eqn:En; [injection E as <-; exists specs; split; [done|]; left; by destruct names|].
  destruct (mapM_res _ names) as [specs'|] eqn:Em; [|done]. injection E as <-. exists specs'. split; [done|]. right.
  apply mapM_res_Forall2 in Em. split_and!; [|by destruct names|].
  - clear En. induction Em as [|x y ? ? Hxy _ IH]; [done|]. rewrite fmap_cons IH. f_equal. revert Hxy. by bind_ok s as E; intros [= <-].
  - intros [x s] Hin. apply list_elem_of_lookup in Hin as [i Hi]. destruct (Forall2_lookup_r _ _ _ _ _ Em Hi) as (y & _ & Hy).
    revert Hy. unfold od_lookup. destruct (od_get specs y) as [s'|] eqn:Eg; [|done]. intros [= -> ->]. by apply od_get_Some.
Qed.

Lemma worker_layers_app w l1 l2 : worker_layers w (l1 ++ l2) = worker_layers w l1 ++ worker_layers w l2.
Proof. apply filter_app. Qed.

Lemma project_layers w groups groups' : _project_kv_cache_groups_to_worker groups w = Ok groups' →
  all_layers groups' = worker_layers w (all_layers groups).
Proof.
  intros HF%mapM_res_Forall2. induction HF as [|g g' groups groups' Hg _ IH]; [done|]. unfold all_layers in *.
  rewrite !bind_cons worker_layers_app IH. f_equal. by apply project_group_Ok in Hg as [-> _].
Qed.

Lemma project_plain w groups groups' : _project_kv_cache_groups_to_worker groups w = Ok groups' → plain_groups groups →
  lg_spec <$> groups' = lg_spec <$> groups.
Proof.
  intros HF%mapM_res_Forall2. induction HF as [|g g' groups groups' Hg _ IH]; [done|]. intros [Hp Hps]%Forall_cons.
  rewrite !fmap_cons (IH Hps). f_equal. apply project_group_Ok in Hg as [_ Hg]. by destruct (lg_spec g).
Qed.

Lemma project_uniform vc w groups groups' :
  _project_kv_cache_groups_to_worker groups w = Ok groups' → one_uniform_group vc groups → Forall group_ok groups →
  ∃ g' bs specs specs', groups' = [g'] ∧ lg_spec g' = UniformTypeKVCacheSpecs bs specs' ∧
    (layer_names g' = specs'.*1 ∨ layer_names g' = []) ∧ NoDup specs'.*1 ∧ specs' ≠ [] ∧
    (∀ s, s ∈ specs'.*2 → s ∈ specs.*2) ∧ uniform_specs <$> groups = [specs] ∧ Forall sized specs'.*2 ∧ same_slots vc specs'.*2.
Proof.
  intros HF (g & bs & specs & -> & Eg & Hne & Hs & Hsl & Hnd) Hok. apply Forall_cons in Hok as [[_ Hok] _].
  specialize (Hok bs specs Eg). apply mapM_res_Forall2 in HF. inversion HF as [|? g' ? ? Hg Hnil]; subst. inversion Hnil; subst.
  pose proof Hg as Hg0. apply project_group_Ok in Hg as [En Hg]. rewrite Eg in Hg. destruct Hg as (specs' & Eg' & Hcase).
  exists g', bs, specs, specs'. assert (uniform_specs <$> [g] = [specs]) as Hus by (cbn; unfold uniform_specs; by rewrite Eg).
  destruct Hcase as [[En' ->]|(En' & Hne' & Hsub)]; [split_and!; auto; done|].
  assert (∀ s, s ∈ specs'.*2 → s ∈ specs.*2) as Hsub2.
  { intros s ([x s'] & -> & Hin)%list_elem_of_fmap. apply list_elem_of_fmap. exists (x, s'). auto. }
  split_and!; [done|done|by left| | |done|done| |].
  - rewrite En' En -Hok. by apply NoDup_filter.
  - intros ->. by apply Hne'.
  - rewrite !Forall_forall in Hs |- *. auto.
  - intros s s' Hin Hin'. auto.
Qed.

(** ** The pieces of [get_kv_cache_configs] *)

Lemma merge_layer_Ok m l m' : NoDup m.*1 → merge_worker_layer m l = Ok m' →
  NoDup m'.*1 ∧ ∀ kv, kv ∈ m' ↔ kv ∈ m ∨ kv = l.
Proof.
  destruct l as [x s]. intros Hnd. unfold merge_worker_layer. cbn [fst snd]. destruct (od_get m x) as [s'|] eqn:Eg.
  - bind_ok u as Eu. apply py_assert_Ok, bool_decide_eq_true in Eu as ->. intros [= <-]. split; [done|]. intros kv.
    apply od_get_Some in Eg. split; [tauto|]. by intros [?| ->].
  - apply od_get_None in Eg. rewrite od_set_fresh //. intros [= <-]. split.
    + rewrite fmap_app NoDup_app. split_and!; [done| |apply NoDup_singleton]. by intros y Hy ->%list_elem_of_singleton.
    + intros kv. by rewrite elem_of_app list_elem_of_singleton.
Qed.

Lemma merge_layers_Ok w : ∀ m m', NoDup m.*1 → foldM merge_worker_layer m w = Ok m' →
  NoDup m'.*1 ∧ ∀ kv, kv ∈ m' ↔ kv ∈ m ∨ kv ∈ w.
Proof.
  induction w as [|l w IH]; intros m m' Hnd; cbn [foldM].
  { intros [= <-]. split; [done|]. intros kv. rewrite elem_of_nil. tauto. }
  bind_ok m1 as E. intros Hw. destruct (merge_layer_Ok m l m1 Hnd E) as [Hnd1 Hin1].
  destruct (IH m1 m' Hnd1 Hw) as [Hnd' Hin]. split; [done|]. intros kv. rewrite Hin Hin1 elem_of_cons. tauto.
Qed.

Lemma merge_workers_Ok ws m : merge_worker_specs ws = Ok m →
  NoDup m.*1 ∧ ∀ kv, kv ∈ m ↔ ∃ w, w ∈ ws ∧ kv ∈ w.
Proof.
  unfold merge_worker_specs. cut (∀ m0, NoDup m0.*1 → foldM (λ merged worker, foldM merge_worker_layer merged worker) m0 ws = Ok m →
    NoDup m.*1 ∧ ∀ kv, kv ∈ m ↔ kv ∈ m0 ∨ ∃ w, w ∈ ws ∧ kv ∈ w).
  { intros H Hm. destruct (H [] (NoDup_nil_2) Hm) as [Hnd Hin]. split; [done|]. intros kv. rewrite Hin elem_of_nil. tauto. }
  induction ws as [|w ws IH]; intros m0 Hnd; cbn [foldM].
  { intros [= <-]. split; [done|]. intros kv. split; [by left|]. by intros [?|(w & ?%not_elem_of_nil & _)]. }
  bind_ok m1 as E. intros Hws. destruct (merge_layers_Ok w m0 m1 Hnd E) as [Hnd1 Hin1].
  destruct (IH m1 Hnd1 Hws) as [Hnd' Hin]. split; [done|]. intros kv. rewrite Hin Hin1. setoid_rewrite elem_of_cons. naive_solver.
Qed.

(** The layers of a worker, as the groups list them. *)
Lemma worker_layers_all w (names : list string) : NoDup w.*1 → NoDup names → (∀ x, x ∈ w.*1 → x ∈ names) →
  worker_layers w names ≡ₚ w.*1.
Proof.
  intros Hw Hn Hsub. apply NoDup_Permutation; [by apply NoDup_filter|done|]. intros x. unfold worker_layers.
  rewrite list_elem_of_filter Is_true_true od_mem_true. naive_solver.
Qed.

Lemma adjust_memory_Ok vc projected memory memory' :
  length memory = length projected → adjust_memory vc projected memory = Ok memory' →
  length memory' = length projected ∧ (vc_num_gpu_blocks_override vc = None → memory' = memory) ∧
  ∀ i gs m, projected !! i = Some gs → memory' !! i = Some m → gs ≠ [] → effective vc gs m.
Proof.
  intros Hl. unfold adjust_memory, effective. destruct (vc_num_gpu_blocks_override vc) as [o|]; [|by intros [= <-]].
  intros HF%mapM_res_Forall2. pose proof (Forall2_length _ _ _ HF) as Hl'. rewrite length_zip in Hl'. split_and!; [lia|done|].
  intros i gs m Hgs Hm Hne. destruct (Forall2_lookup_r _ _ _ _ _ HF Hm) as ([gs' m0] & Hz & Hw).
  apply lookup_zip_with_Some in Hz as (? & ? & [= <- <-] & Hgs' & _). assert (gs' = gs) as -> by congruence. revert Hw. cbn [fst].
  destruct gs as [|g gs]; [done|]. cbn [is_nil]. bind_ok b as E. bind_ok q as E'. intros [= <-]. by exists b.
Qed.

Lemma checks_Ok vc l : foldM (λ (_ : unit) w, check_worker vc w) tt l = Ok tt → ∀ w, w ∈ l → check_worker vc w = Ok tt.
Proof.
  induction l as [|w l IH]; [by intros _ w ?%not_elem_of_nil|]. cbn [foldM]. destruct (check_worker vc w) as [[]|] eqn:E; [|done].
  cbn. intros Hl w' [->|?]%elem_of_cons; [done|by apply IH].
Qed.

Lemma check_worker_Ok vc gs m : gs ≠ [] → check_worker vc (gs, m) = Ok tt →
  0 < m ∧ ∃ b, _max_memory_usage_bytes_from_groups vc gs = Ok b ∧ b ≤ m.
Proof.
  intros Hne. unfold check_worker. cbn [fst snd]. destruct (is_nil gs) eqn:En; [by destruct gs|].
  unfold _check_enough_kv_cache_memory. destruct (bool_decide_reflect (m ≤ 0)); [done|]. bind_ok b as E.
  destruct (bool_decide_reflect (m < b)); [by bind_ok x as E'|]. intros _. split; [lia|]. exists b. split; [done|lia].
Qed.

(** Shrinking a configuration. *)
Lemma shrink_Ok vc n gs c c' : shrink_config vc n c = Ok c' → 0 ≤ n ≤ wc_num_blocks c → layout_ok gs c →
  Forall (λ t, 0 ≤ tensor_size t) (kv_cache_tensors c) →
  wc_num_blocks c' = n ∧ wc_groups c' = wc_groups c ∧ layout_ok gs c' ∧ tensor_bytes c' ≤ tensor_bytes c.
Proof.
  unfold shrink_config. bind_ok ts as Ets. intros Hc Hn [Lonce Lapart Lsize] Hpos.
  assert (c' = mkWorkerConfig n ts (wc_groups c)) as ->.
  { revert Hc. cbn [wc_groups]. destruct (is_nil _); [by intros [= <-]|]. bind_ok r as E. by intros [= <-]. }
  clear Hc. apply mapM_res_Forall2 in Ets.
  assert (Forall2 (λ t t', shared_by t' = shared_by t ∧ tensor_size t' ≤ tensor_size t ∧
    ∀ p, tensor_size t = p * wc_num_blocks c → tensor_size t' = p * n) (kv_cache_tensors c) ts) as HF.
  { clear Lonce Lapart Lsize. induction Ets as [|t t' l l' Ht _ IH]; [constructor|]. apply Forall_cons in Hpos as [Ht0 Hpos].
    constructor; [|by apply IH]. revert Ht. unfold shrink_tensor. bind_ok r as Er. bind_ok u as Eu. intros [= <-].
    apply py_assert_Ok, bool_decide_eq_true in Eu as ->. revert Er. unfold py_mod.
    destruct (bool_decide_reflect (wc_num_blocks c = 0)) as [|H0]; [done|]. intros Hmod%(inj Ok). cbn [shared_by tensor_size].
    apply Z.div_exact in Hmod; [|done]. split_and!; [done|nia|]. intros p Hp. rewrite Hp Z.div_mul //. }
  clear Ets Hpos. assert (ts ≫= shared_by = kv_cache_tensors c ≫= shared_by) as Eshared.
  { clear -HF. induction HF as [|t t' l l' (E & _) _ IH]; [done|]. by rewrite !bind_cons IH E. }
  split_and!; [done|done| |].
  - split.
    + unfold tensor_layers in *. cbn. by rewrite Eshared.
    + cbn. intros t' [i Hi]%list_elem_of_lookup. destruct (Forall2_lookup_r _ _ _ _ _ HF Hi) as (t & Ht & -> & _).
      apply Lapart. by eapply list_elem_of_lookup_2.
    + cbn. intros t' x [i Hi]%list_elem_of_lookup. destruct (Forall2_lookup_r _ _ _ _ _ HF Hi) as (t & Ht & -> & _ & Hsz).
      intros Hx. destruct (Lsize t x) as (g & p & Hg & Hxg & Hp & Ep); [by eapply list_elem_of_lookup_2|done|].
      exists g, p. split_and!; [done|done|done|by apply Hsz].
  - unfold tensor_bytes. cbn. apply zsum_mono. clear -HF. induction HF as [|t t' l l' (_ & ? & _) _ IH]; [constructor|].
    by constructor.
Qed.

(** ** One worker *)

(** The groups of the model, of the shapes above. *)
Definition shaped_groups vc groups : Prop :=
  (plain_groups groups ∧ groups_sized groups) ∨ (one_uniform_group vc groups ∧ Forall group_ok groups).

Lemma plain_by_specs gs gs' : lg_spec <$> gs = lg_spec <$> gs' →
  (plain_groups gs' → plain_groups gs) ∧ (groups_sized gs' → groups_sized gs).
Proof.
  revert gs'. induction gs as [|g gs IH]; intros [|g' gs'] E; [done|done|done|].
  rewrite !fmap_cons in E. injection E as Eg E. destruct (IH gs' E) as [IH1 IH2]. unfold plain_groups, groups_sized in *.
  rewrite !Forall_cons Eg. tauto.
Qed.

Lemma worker_served vc w groups gs m c :
  shaped_groups vc groups → _project_kv_cache_groups_to_worker groups w = Ok gs → gs ≠ [] → effective vc gs m → 0 ≤ m →
  get_kv_cache_config_from_groups vc gs m = Ok c → wc_groups c = gs ∧ layout_ok gs c ∧ serves vc gs m c.
Proof.
  intros [[Hp Hs]|[Hu Hok]] Hpr Hne He Hm Hc.
  - pose proof (project_plain _ _ _ Hpr Hp) as E. destruct (plain_by_specs gs groups E) as [Hp' Hs'].
    split_and!; [|by eapply plain_layout; eauto|by eapply plain_serves; eauto].
    by destruct (config_plain vc gs m c (Hp' Hp) Hne Hc) as (n & page & _ & _ & _ & _ & ? & _).
  - destruct (project_uniform vc w groups gs Hpr Hu Hok)
      as (g & bs & specs & specs' & -> & Eg & Hn & Hnd & Hne' & _ & _ & Hs & Hsl).
    by eapply uniform_layout.
Qed.

Lemma request_blocks_specs vc gs gs' : lg_spec <$> gs = lg_spec <$> gs' → request_blocks vc gs = request_blocks vc gs'.
Proof.
  intros E. unfold request_blocks. f_equal. revert gs' E. induction gs as [|g gs IH]; intros [|g' gs'] E; [done|done|done|].
  rewrite !fmap_cons in E. injection E as Eg E. cbn [mapM_res]. rewrite (IH gs' E). unfold group_pages. by rewrite Eg.
Qed.

Lemma uniform_blocks vc g bs specs n : lg_spec g = UniformTypeKVCacheSpecs bs specs → Forall sized specs.*2 →
  request_blocks vc [g] = Ok n → ∃ s, s ∈ specs.*2 ∧ n = spec_slots vc s.
Proof.
  intros Eg Hs. unfold request_blocks. cbn [mapM_res]. unfold group_pages. rewrite Eg.
  destruct (max_memory_usage_pages vc specs) as [k|] eqn:Ek; [|done]. cbn. intros [= <-]. rewrite Z.add_0_r. revert Ek.
  unfold max_memory_usage_pages. bind_ok pages as Ep. intros [Hin _]%py_max_Ok. apply mapM_res_Forall2 in Ep.
  apply list_elem_of_lookup in Hin as [i Hi]. destruct (Forall2_lookup_r _ _ _ _ _ Ep Hi) as (s & His & Hsp).
  exists s. assert (s ∈ specs.*2) as Hin by by eapply list_elem_of_lookup_2. split; [done|].
  rewrite Forall_forall in Hs. assert (∃ u, spec_max_memory_usage_bytes vc s = Ok u) as Hu.
  { unfold spec_pages in Hsp. destruct (spec_max_memory_usage_bytes vc s) as [u|]; [by exists u|done]. }
  rewrite (pages_slots vc s (Hs s Hin) Hu) in Hsp. by injection Hsp.
Qed.

(** All workers need the same number of blocks for a request. *)
Lemma needs_equal vc groups w w' gs gs' n n' :
  shaped_groups vc groups → _project_kv_cache_groups_to_worker groups w = Ok gs →
  _project_kv_cache_groups_to_worker groups w' = Ok gs' → request_blocks vc gs = Ok n → request_blocks vc gs' = Ok n' → n = n'.
Proof.
  intros [[Hp Hs]|[Hu Hok]] Hpr Hpr' Hn Hn'.
  - rewrite (request_blocks_specs vc gs gs') in Hn; [congruence|]. by rewrite (project_plain _ _ _ Hpr Hp) (project_plain _ _ _ Hpr' Hp).
  - destruct (project_uniform vc w groups gs Hpr Hu Hok) as (g & bs & sp & specs & -> & Eg & _ & _ & _ & Hsub & Eus & Hs & _).
    destruct (project_uniform vc w' groups gs' Hpr' Hu Hok) as (g' & bs' & sp' & specs' & -> & Eg' & _ & _ & _ & Hsub' & Eus' & Hs' & _).
    rewrite Eus in Eus'. injection Eus' as <-.
    destruct (uniform_blocks _ _ _ _ _ Eg Hs Hn) as (s & Hin & ->). destruct (uniform_blocks _ _ _ _ _ Eg' Hs' Hn') as (s' & Hin' & ->).
    destruct Hu as (g0 & bs0 & sp0 & -> & E0 & _ & _ & Hsl & _). apply Hsl; [apply Hsub in Hin|apply Hsub' in Hin'].
    all: cbn in Eus; unfold uniform_specs in Eus; rewrite E0 in Eus; by injection Eus as ->.
Qed.

(** ** All workers *)

(** The model: every worker lists a layer once, the layers have sizes, none has a sliding
    window over latent attention (see [cross_stage_layer_lost]). *)
Record model_ok vc (workers : list specs_dict) : Prop := {
  mo_names : Forall (λ w : specs_dict, NoDup w.*1) workers;
  mo_specs : Forall simple_specs workers;
  mo_hybrid : Forall (convertible vc) workers
}.

(** What a worker is told. *)
Record worker_ok vc (memory : option Z) (w : specs_dict) (num_blocks : Z) c : Prop := {
  wo_blocks : wc_num_blocks c = num_blocks;
  wo_layers : tensor_layers c ≡ₚ w.*1;
  wo_layout : layout_ok (wc_groups c) c;
  wo_memory : ∀ m, memory = Some m → w ≠ [] → tensor_bytes c ≤ m;
  wo_request : w ≠ [] → ∃ need, request_blocks vc (wc_groups c) = Ok need ∧ need ≤ num_blocks
}.

Lemma auto_fit_len vc projected memory vc' : _auto_fit_max_model_len vc projected memory = Ok vc' →
  ∃ k, vc' = set_vc_max_model_len vc k.
Proof.
  unfold _auto_fit_max_model_len. destruct (forallb _ _); [intros [= <-]; exists (vc_max_model_len vc); by rewrite set_vc_self|].
  bind_ok m as Em. bind_ok k as Ek. destruct (bool_decide _); [done|]. destruct (bool_decide _); intros [= <-]; [|by exists k].
  exists (vc_max_model_len vc). by rewrite set_vc_self.
Qed.

Lemma merged_ok vc workers merged : model_ok vc workers → merge_worker_specs workers = Ok merged →
  NoDup merged.*1 ∧ simple_specs merged ∧ convertible vc merged ∧ ∀ w x, w ∈ workers → x ∈ w.*1 → x ∈ merged.*1.
Proof.
  intros [_ Hs Hc] [Hnd Hin]%merge_workers_Ok. split_and!; [done| | |].
  - apply Forall_forall. intros s (kv & -> & (w & Hw & Hkv)%Hin)%list_elem_of_fmap. rewrite Forall_forall in Hs.
    specialize (Hs w Hw). unfold simple_specs in Hs. rewrite Forall_forall in Hs. apply Hs, list_elem_of_fmap. by exists kv.
  - intros Hdis. apply Forall_forall. intros s (kv & -> & (w & Hw & Hkv)%Hin)%list_elem_of_fmap. rewrite Forall_forall in Hc.
    specialize (Hc w Hw Hdis). rewrite Forall_forall in Hc. apply Hc, list_elem_of_fmap. by exists kv.
  - intros w x Hw (kv & -> & Hkv)%list_elem_of_fmap. apply list_elem_of_fmap. exists kv. split; [done|]. apply Hin. by exists w.
Qed.

(** The configuration of a worker before it is shrunk. *)
Record planned vc (m : Z) gs c : Prop := {
  pl_groups : wc_groups c = gs;
  pl_layout : layout_ok gs c;
  pl_blocks : 0 ≤ wc_num_blocks c;
  pl_sizes : Forall (λ t, 0 ≤ tensor_size t) (kv_cache_tensors c);
  pl_request : gs ≠ [] → tensor_bytes c ≤ m ∧ ∃ need, request_blocks vc gs = Ok need ∧ need ≤ wc_num_blocks c
}.

Lemma worker_planned vc w groups gs m c : shaped_groups vc groups → _project_kv_cache_groups_to_worker groups w = Ok gs →
  (gs ≠ [] → effective vc gs m) → check_worker vc (gs, m) = Ok tt → get_kv_cache_config_from_groups vc gs m = Ok c → planned vc m gs c.
Proof.
  intros Hsh Hpr He Hck Hc. destruct (decide (gs = [])) as [->|Hne].
  { injection Hc as <-. split; [done| |cbn; lia|constructor|done]. split; [done| |]; by intros t ?%not_elem_of_nil || intros t x ?%not_elem_of_nil. }
  destruct (check_worker_Ok vc gs m Hne Hck) as [Hm (b & Hb & Hle)].
  destruct (worker_served vc w groups gs m c Hsh Hpr Hne (He Hne) ltac:(lia) Hc) as (Eg & Hl & Hnb & Hsz & Hby & Hneed).
  split; [done|done|done|done|]. intros _. split; [done|]. by apply (Hneed b).
Qed.

Lemma planned_worker vc w gs m n c c' need : planned vc m gs c → shrink_config vc n c = Ok c' → 0 ≤ n ≤ wc_num_blocks c →
  all_layers gs ≡ₚ w.*1 → (gs = [] → w = []) → (gs ≠ [] → request_blocks vc gs = Ok need ∧ need ≤ n) →
  worker_ok vc (Some m) w n c'.
Proof.
  intros [Eg Hl Hnb Hsz Hreq] Hs Hn HP Hnil Hneed. destruct (shrink_Ok vc n gs c c' Hs Hn Hl Hsz) as (En & Eg' & Hl' & Hby).
  rewrite Eg in Eg'. split; [done| |by rewrite Eg'| |].
  - rewrite (lo_once _ _ Hl') //.
  - intros ? [= <-] Hw. destruct Hreq as [? _]; [naive_solver|lia].
  - intros Hw. rewrite Eg'. exists need. apply Hneed. naive_solver.
Qed.

(** The workers side by side, up to the smallest number of blocks. *)
Lemma workers_shrunk vc workers groups projected memory configs cs n :
  shaped_groups vc groups → mapM_res (_project_kv_cache_groups_to_worker groups) workers = Ok projected →
  length memory = length workers → length configs = length workers →
  (∀ i gs m c, projected !! i = Some gs → memory !! i = Some m → configs !! i = Some c → planned vc m gs c) →
  (∀ w gs, w ∈ workers → _project_kv_cache_groups_to_worker groups w = Ok gs → all_layers gs ≡ₚ w.*1 ∧ (gs = [] → w = [])) →
  py_min (wc_num_blocks <$> configs) = Ok n → mapM_res (shrink_config vc n) configs = Ok cs →
  ∀ i w m c, workers !! i = Some w → memory !! i = Some m → cs !! i = Some c → worker_ok vc (Some m) w n c.
Proof.
  intros Hsh Hpr%mapM_res_Forall2 Hlm Hlc Hpl Hlay [Hmin Hle]%py_min_Ok Hcs%mapM_res_Forall2 i w m c Hw Hm Hc.
  destruct (Forall2_lookup_l _ _ _ _ _ Hpr Hw) as (gs & Hgs & Ew).
  destruct (Forall2_lookup_r _ _ _ _ _ Hcs Hc) as (c0 & Hc0 & Es). pose proof (Hpl i gs m c0 Hgs Hm Hc0) as Hp.
  apply list_elem_of_fmap in Hmin as (cj & -> & [j Hj]%list_elem_of_lookup).
  destruct (lookup_lt_is_Some_2 workers j) as [wj Hwj]; [rewrite -Hlc; by eapply lookup_lt_Some|].
  destruct (lookup_lt_is_Some_2 memory j) as [mj Hmj]; [rewrite Hlm -Hlc; by eapply lookup_lt_Some|].
  destruct (Forall2_lookup_l _ _ _ _ _ Hpr Hwj) as (gsj & Hgsj & Ewj). pose proof (Hpl j gsj mj cj Hgsj Hmj Hj) as Hpj.
  destruct (Hlay w gs) as [HP Hnil]; [by eapply list_elem_of_lookup_2|done|].
  assert (gs ≠ [] → ∃ need, request_blocks vc gs = Ok need ∧ need ≤ wc_num_blocks cj) as Hneed.
  { intros Hne. assert (gsj ≠ []) as Hnej.
    { apply mapM_res_Forall2, Forall2_length in Ew, Ewj. destruct gs, gsj, groups; done. }
    destruct (pl_request _ _ _ _ Hp Hne) as [_ (a & Ha & _)]. destruct (pl_request _ _ _ _ Hpj Hnej) as [_ (b & Hb & Hbj)].
    exists a. split; [done|]. by rewrite (needs_equal vc groups w wj gs gsj a b). }
  destruct (decide (gs = [])) as [Hg|Hg].
  - apply (planned_worker vc w gs m (wc_num_blocks cj) c0 c 0); [done|done| |done|done|done].
    split; [apply (pl_blocks _ _ _ _ Hpj)|apply Hle, list_elem_of_fmap; exists c0; split; [done|by eapply list_elem_of_lookup_2]].
  - destruct (Hneed Hg) as (need & Hn & Hnj). apply (planned_worker vc w gs m (wc_num_blocks cj) c0 c need); [done|done| |done|done|done].
    split; [apply (pl_blocks _ _ _ _ Hpj)|apply Hle, list_elem_of_fmap; exists c0; split; [done|by eapply list_elem_of_lookup_2]].
Qed.

Lemma worker_config_Ok vc gs w m c : worker_config vc ((gs, w), m) = Ok c → get_kv_cache_config_from_groups vc gs m = Ok c.
Proof. unfold worker_config. by bind_ok u as E. Qed.

(** The layers of the projected groups are those of the worker. *)
Lemma projected_layers vc workers merged groups w gs :
  model_ok vc workers → merge_worker_specs workers = Ok merged → get_kv_cache_groups vc merged = Ok groups →
  w ∈ workers → _project_kv_cache_groups_to_worker groups w = Ok gs → all_layers gs ≡ₚ w.*1 ∧ (gs = [] → w = []).
Proof.
  intros Hmo Hme Hg Hw Hpr. destruct (merged_ok vc workers merged Hmo Hme) as (Hnd & Hs & _ & Hsub).
  destruct (cache_groups_ok vc merged groups) as [HP _]; [left; by apply simple_not_swa|done|].
  assert (all_layers gs ≡ₚ w.*1) as HL.
  { rewrite (project_layers w groups gs Hpr). apply worker_layers_all.
    - destruct Hmo as [Hn _ _]. rewrite Forall_forall in Hn. by apply Hn.
    - by rewrite HP.
    - intros x Hx. rewrite HP. by apply (Hsub w). }
  split; [done|]. intros ->. symmetry in HL. apply Permutation_nil_r in HL. by destruct w.
Qed.

(** C31: the configurations handed to the workers are sound.  Scope ([model_ok]): every
    worker lists its layers once, with positive sizes, none of them a sliding window over
    latent attention, and no chunked local layers when the hybrid manager is disabled.
    Whenever [get_kv_cache_configs] returns, all workers get the same number of blocks; on
    each worker every layer lies in exactly one tensor, layers that share a tensor belong
    to different groups, and the tensor has one page per block, of the page size that the
    layer's group has for it (in a group with one merged specification, the merged one);
    unless the user overrides the number of blocks the tensors fit in the memory of the
    worker; and the number of blocks, the null block included, is at least what the
    managers count for the admission of one request of [max_model_len] tokens.  Only the
    length of the configuration may have changed. *)
Theorem cache_configs_ok vc workers memory vc' cs :
  model_ok vc workers → length memory = length workers →
  get_kv_cache_configs vc workers memory = Ok (vc', cs) →
  length cs = length workers ∧ (∃ k, vc' = set_vc_max_model_len vc k) ∧
  ∃ n, ∀ i w c, workers !! i = Some w → cs !! i = Some c →
    worker_ok vc' (match vc_num_gpu_blocks_override vc with None => memory !! i | Some _ => None end) w n c.
Proof.
  intros Hmo Hlm. unfold get_kv_cache_configs. bind_ok merged as Eme. bind_ok groups as Eg. bind_ok projected as Ep.
  bind_ok memory' as Em. bind_ok vc1 as Evc. bind_ok u as Eck. bind_ok configs as Ec. bind_ok n as En. bind_ok cs1 as Ecs.
  intros [= <- <-]. assert (∃ k, vc1 = set_vc_max_model_len vc k) as [k ->].
  { destruct (bool_decide _); [by eapply auto_fit_len|]. injection Evc as <-. exists (vc_max_model_len vc). by rewrite set_vc_self. }
  clear Evc. set (vc' := set_vc_max_model_len vc k) in *. destruct u. pose proof (checks_Ok vc' _ Eck) as Hck. clear Eck.
  destruct (merged_ok vc workers merged Hmo Eme) as (Hnd & Hs & Hconv & _).
  assert (shaped_groups vc' groups) as Hsh by (by eapply (groups_shape vc vc' merged)).
  pose proof (Forall2_length _ _ _ (proj1 (mapM_res_Forall2 _ _ _) Ep)) as Hlp.
  destruct (adjust_memory_Ok vc projected memory memory') as (Hlm' & Hov & Heff); [lia|done|].
  pose proof (proj1 (mapM_res_Forall2 _ _ _) Ec) as HFc. pose proof (Forall2_length _ _ _ HFc) as Hlc.
  rewrite !length_zip in Hlc. pose proof (Forall2_length _ _ _ (proj1 (mapM_res_Forall2 _ _ _) Ecs)) as Hls.
  split_and!; [lia|by exists k|]. exists n. intros i w c Hw Hc.
  destruct (lookup_lt_is_Some_2 memory' i) as [m Hm]; [apply lookup_lt_Some in Hw; lia|].
  assert (worker_ok vc' (Some m) w n c) as Hok.
  { eapply (workers_shrunk vc' workers groups projected memory' configs cs1 n); [done|done|lia|lia| | |done|done|done|done|done].
    - intros j gs mj cj Hgs Hmj Hcj. destruct (Forall2_lookup_r _ _ _ _ _ HFc Hcj) as ([[gs' wj] mj'] & Hz & Hwc).
      apply lookup_zip_with_Some in Hz as (? & ? & [= <- <-] & Hz & Hmj'). apply lookup_zip_with_Some in Hz as (? & ? & [= <- <-] & Hgs' & Hwj).
      assert (gs' = gs) as -> by congruence. assert (mj' = mj) as -> by congruence.
      destruct (Forall2_lookup_l _ _ _ _ _ (proj1 (mapM_res_Forall2 _ _ _) Ep) Hwj) as (gs'' & Hgs'' & Hpj).
      assert (gs'' = gs) as -> by congruence. apply (worker_planned vc' wj groups); [done|done| | |by eapply worker_config_Ok].
      + intros Hne. by apply (Heff j gs mj).
      + apply Hck, list_elem_of_lookup. exists j. by apply lookup_zip_with_Some; eauto.
    - intros w' gs Hw' Hpr. by eapply (projected_layers vc workers merged groups). }
  destruct (vc_num_gpu_blocks_override vc) as [o|] eqn:Eo.
  - destruct Hok as [? ? ? _ ?]. by split.
  - rewrite (Hov eq_refl) in Hm. by rewrite Hm.
Qed.
End Configs.
