(* ===== verification/KVCacheManager.v ===== *)
(** * The KV cache manager: [vllm/v1/core/kv_cache_manager.py]

    The interface between the scheduler and the KV cache: it looks up prefix
    cache hits, allocates and frees the slots of requests, and estimates how
    many blocks a request will still need.  Prefix cache statistics are not
    modelled ([log_stats=False]). *)

From S2P Require Import Prelude PyFloat Request FreeQueue BlockHash BlockPool KVCacheSpec SingleType CacheHit Coordinator.

(** ** [KVCacheBlocks] *)

(** The manager keeps one [KVCacheBlocks] without blocks, and [allocate_slots]
    asks whether it got the lists of this very object ([is not]), so it is a
    constructor of its own. *)
Inductive KVCacheBlocks :=
  | EmptyKVCacheBlocks
  | KVBlocks (blocks : list (list block_ref)).

Record KVCacheManager := mkKVM {
  km_max_model_len : Z;
  km_enable_caching : bool;
  km_use_eagle : bool;
  coordinator : Coordinator;
  num_kv_cache_groups : nat
}.

Definition set_coordinator (m : KVCacheManager) (c : Coordinator) : KVCacheManager :=
  mkKVM (km_max_model_len m) (km_enable_caching m) (km_use_eagle m) c (num_kv_cache_groups m).

(** [self.block_pool] is the pool of the coordinator. *)
Definition km_pool (m : KVCacheManager) : BlockPool := block_pool (coordinator m).
Definition set_pool (m : KVCacheManager) (p : BlockPool) : KVCacheManager :=
  set_coordinator m (set_managers (coordinator m) p (single_type_managers (coordinator m))).

(** [kv_cache_blocks.blocks]. *)
Definition blocks_lists (m : KVCacheManager) (bs : KVCacheBlocks) : list (list block_ref) :=
  match bs with
  | EmptyKVCacheBlocks => replicate (num_kv_cache_groups m) []
  | KVBlocks blocks => blocks
  end.

Definition KVCacheBlocks_add (m : KVCacheManager) (b1 b2 : KVCacheBlocks) : KVCacheBlocks :=
  KVBlocks (zip_with app (blocks_lists m b1) (blocks_lists m b2)).

Definition blocks_get_block_ids (m : KVCacheManager) (bs : KVCacheBlocks) (allow_none : bool)
    : option (list (list Z)) :=
  let blocks := blocks_lists m bs in
  if allow_none && forallb (λ group, bool_decide (zlen group = 0)) blocks then None
  else Some ((λ group : list block_ref, id_of (km_pool m) <$> group) <$> blocks).

Definition unhashed_ids (p : BlockPool) (group : list block_ref) : list Z :=
  id_of p <$> filter (λ b, block_hash (blk p b) = None) group.

Definition get_unhashed_block_ids (m : KVCacheManager) (bs : KVCacheBlocks) : res (list Z) :=
  let blocks := blocks_lists m bs in
  py_assert (bool_decide (zlen blocks = 1));;
  b0 ← py_nth blocks 0;
  Ok (unhashed_ids (km_pool m) b0).

Definition get_unhashed_block_ids_all_groups (m : KVCacheManager) (bs : KVCacheBlocks)
    : list (list Z) :=
  (λ group : list block_ref, id_of (km_pool m) <$>
     filter (λ b, block_hash (blk (km_pool m) b) = None ∧ is_null (blk (km_pool m) b) = false) group)
    <$> blocks_lists m bs.

Definition new_empty (m : KVCacheManager) (bs : KVCacheBlocks) : KVCacheBlocks :=
  KVBlocks (replicate (length (blocks_lists m bs)) []).

(** ** Construction *)

Definition KVCacheManager_init (cfg : KVCacheConfig) (max_model_len hash_block_size : Z)
    (max_num_batched_tokens : option Z) (enable_caching use_eagle enable_kv_cache_events : bool)
    (dcp_world_size pcp_world_size : Z) : res KVCacheManager :=
  let max_num_batched_tokens := default max_model_len max_num_batched_tokens in
  c ← get_kv_cache_coordinator cfg max_model_len max_num_batched_tokens use_eagle enable_caching
        enable_kv_cache_events dcp_world_size pcp_world_size hash_block_size;
  Ok (mkKVM max_model_len enable_caching use_eagle c (length (kv_cache_groups cfg))).

Definition create_kv_cache_blocks (blocks : list (list block_ref)) : KVCacheBlocks :=
  if existsb (λ bs, negb (is_nil bs)) blocks then KVBlocks blocks else EmptyKVCacheBlocks.

(** ** Queries *)

Definition usage (m : KVCacheManager) : float64 := get_usage (km_pool m).
Definition get_remaining_free_blocks (m : KVCacheManager) : Z := get_num_free_blocks (km_pool m).

Section Manager.
Context {env : KVEnv}.

(** [self.coordinator.get_num_blocks_to_allocate(...)], which may touch the
    tables of a group. *)
Definition km_num_blocks (m : KVCacheManager) (request_id : string) (num_tokens : Z)
    (new_computed_blocks : list (list block_ref))
    (num_encoder_tokens total_computed_tokens num_tokens_main_model : Z)
    (apply_admission_cap : bool) : res (KVCacheManager * Z) :=
  '(c, n) ← coord_get_num_blocks_to_allocate (coordinator m) request_id num_tokens
              new_computed_blocks num_encoder_tokens total_computed_tokens
              num_tokens_main_model apply_admission_cap;
  Ok (set_coordinator m c, n).

Definition estimate_future_footprint (m : KVCacheManager) (request : Request)
    : res (KVCacheManager * Z) :=
  let remaining_output_tokens := Z.max 0 (max_tokens request - num_output_tokens request) in
  if bool_decide (remaining_output_tokens = 0) then Ok (m, 0)
  else
    let target_num_tokens :=
      if is_short_lived request then
        num_tokens request +
        Z.max 1 (fceil (fmul (float_of_Z remaining_output_tokens)
                          (fsub (float_of_Z 1) (prob_short request))))
      else num_prompt_tokens request + max_tokens request in
    let target_num_tokens := Z.min target_num_tokens (km_max_model_len m) in
    km_num_blocks m (request_id request) target_num_tokens
      (blocks_lists m EmptyKVCacheBlocks) 0
      (Z.min (num_computed_tokens request) (km_max_model_len m)) target_num_tokens true.

Definition estimate_future_footprint_for_output_len (m : KVCacheManager) (request : Request)
    (target_output_tokens : Z) : res (KVCacheManager * Z) :=
  let target_output_tokens :=
    Z.max (num_output_tokens request) (Z.min (max_tokens request) target_output_tokens) in
  let target_num_tokens :=
    Z.min (num_prompt_tokens request + target_output_tokens) (km_max_model_len m) in
  km_num_blocks m (request_id request) target_num_tokens
    (blocks_lists m EmptyKVCacheBlocks) 0
    (Z.min (num_computed_tokens request) (km_max_model_len m)) target_num_tokens true.

(** [None] would mean that the fuel of the lookup ran out. *)
Definition get_computed_blocks (m : KVCacheManager) (request : Request)
    : option (res (KVCacheBlocks * Z)) :=
  if negb (km_enable_caching m) || skip_reading_prefix_cache request
  then Some (Ok (EmptyKVCacheBlocks, 0))
  else
    let max_cache_hit_length := num_tokens request - 1 in
    r ← coord_find_longest_cache_hit (coordinator m) (block_hashes request) max_cache_hit_length;
    Some ('(computed_blocks, num_new_computed_tokens) ← r;
          Ok (create_kv_cache_blocks computed_blocks, num_new_computed_tokens)).

(** ** Allocation *)

(** The part of [allocate_slots] after the admission checks. *)
Definition allocate_admitted (m : KVCacheManager) (request : Request)
    (new_computed_blocks : KVCacheBlocks)
    (num_new_tokens num_local_computed_tokens num_external_computed_tokens : Z)
    (total_computed_tokens num_tokens_need_slot num_tokens_main_model : Z)
    (delay_cache_blocks : bool) (num_encoder_tokens : Z)
    : res (KVCacheManager * option KVCacheBlocks) :=
  let id := request_id request in
  let is_empty := match new_computed_blocks with EmptyKVCacheBlocks => true | _ => false end in
  c ← (if negb is_empty || bool_decide (0 < num_external_computed_tokens) then
         coord_allocate_new_computed_blocks (coordinator m) id
           (blocks_lists m new_computed_blocks) num_local_computed_tokens
           num_external_computed_tokens
       else Ok (coordinator m));
  '(c, new_blocks) ← coord_allocate_new_blocks c id num_tokens_need_slot num_tokens_main_model
                       num_encoder_tokens;
  if negb (km_enable_caching m) || delay_cache_blocks then
    Ok (set_coordinator m c, Some (create_kv_cache_blocks new_blocks))
  else
    let num_tokens_to_cache := Z.min (total_computed_tokens + num_new_tokens) (num_tokens request) in
    c ← coord_cache_blocks c request num_tokens_to_cache;
    Ok (set_coordinator m c, Some (create_kv_cache_blocks new_blocks)).

(** The admission gate of [full_sequence_must_fit]. *)
Definition full_sequence_fits (m : KVCacheManager) (request : Request)
    (new_computed_block_list : list (list block_ref))
    (num_encoder_tokens total_computed_tokens : Z) : res (KVCacheManager * bool) :=
  let full_num_tokens := Z.min (num_tokens request) (km_max_model_len m) in
  '(m, num_blocks_to_allocate) ←
    km_num_blocks m (request_id request) full_num_tokens new_computed_block_list
      num_encoder_tokens total_computed_tokens full_num_tokens true;
  Ok (m, bool_decide (num_blocks_to_allocate ≤ get_num_free_blocks (km_pool m))).

Definition allocate_slots (m : KVCacheManager) (request : Request) (num_new_tokens : Z)
    (num_new_computed_tokens : Z) (new_computed_blocks : option KVCacheBlocks)
    (num_lookahead_tokens num_external_computed_tokens : Z) (delay_cache_blocks : bool)
    (num_encoder_tokens : Z) (full_sequence_must_fit : bool)
    : res (KVCacheManager * option KVCacheBlocks) :=
  if bool_decide (num_new_tokens = 0) && bool_decide (num_external_computed_tokens = 0)
  then Raise ValueError
  else
    let new_computed := default EmptyKVCacheBlocks new_computed_blocks in
    let new_computed_block_list := blocks_lists m new_computed in
    let num_local_computed_tokens := num_computed_tokens request + num_new_computed_tokens in
    let total_computed_tokens :=
      Z.min (num_local_computed_tokens + num_external_computed_tokens) (km_max_model_len m) in
    '(m, fits) ←
      (if full_sequence_must_fit
       then full_sequence_fits m request new_computed_block_list num_encoder_tokens
              total_computed_tokens
       else Ok (m, true));
    if negb (fits : bool) then Ok (m, None)
    else
      let num_tokens_main_model := total_computed_tokens + num_new_tokens in
      let num_tokens_need_slot :=
        Z.min (num_tokens_main_model + num_lookahead_tokens) (km_max_model_len m) in
      c ← coord_remove_skipped_blocks (coordinator m) (request_id request) total_computed_tokens;
      let m := set_coordinator m c in
      '(m, num_blocks_to_allocate) ←
        km_num_blocks m (request_id request) num_tokens_need_slot new_computed_block_list
          num_encoder_tokens (num_local_computed_tokens + num_external_computed_tokens)
          num_tokens_main_model false;
      if bool_decide (get_num_free_blocks (km_pool m) < num_blocks_to_allocate) then Ok (m, None)
      else
        allocate_admitted m request new_computed num_new_tokens num_local_computed_tokens
          num_external_computed_tokens total_computed_tokens num_tokens_need_slot
          num_tokens_main_model delay_cache_blocks num_encoder_tokens.

(** ** The other operations *)

Definition km_free (m : KVCacheManager) (request : Request) : res KVCacheManager :=
  c ← coord_free (coordinator m) (request_id request); Ok (set_coordinator m c).

Definition km_remove_skipped_blocks (m : KVCacheManager) (request_id : string)
    (total_computed_tokens : Z) : res KVCacheManager :=
  c ← coord_remove_skipped_blocks (coordinator m) request_id total_computed_tokens;
  Ok (set_coordinator m c).

Definition km_evict_blocks (m : KVCacheManager) (block_ids : list Z) : res KVCacheManager :=
  p ← evict_blocks (km_pool m) block_ids; Ok (set_pool m p).

Definition km_reset_prefix_cache (m : KVCacheManager) : KVCacheManager * bool :=
  let '(p, ok) := reset_prefix_cache (km_pool m) in (set_pool m p, ok).

Definition km_get_num_common_prefix_blocks (m : KVCacheManager) (running_request_id : string)
    : res (KVCacheManager * list Z) :=
  '(c, ns) ← coord_get_num_common_prefix_blocks (coordinator m) running_request_id;
  Ok (set_coordinator m c, ns).

Definition km_take_events (m : KVCacheManager) : KVCacheManager * list KVCacheEvent :=
  let '(p, events) := take_events (km_pool m) in (set_pool m p, events).

Definition km_get_blocks (m : KVCacheManager) (request_id : string) : KVCacheBlocks :=
  create_kv_cache_blocks (get_blocks (coordinator m) request_id).

Definition km_get_block_ids (m : KVCacheManager) (request_id : string) : list (list Z) :=
  default [] (blocks_get_block_ids m (km_get_blocks m request_id) false).

Definition km_cache_blocks (m : KVCacheManager) (request : Request) (num_computed_tokens : Z)
    : res KVCacheManager :=
  if km_enable_caching m then
    c ← coord_cache_blocks (coordinator m) request num_computed_tokens;
    Ok (set_coordinator m c)
  else Ok m.

Definition km_take_new_block_ids (m : KVCacheManager) : KVCacheManager * list Z :=
  let '(ms, ids) := foldl (λ (acc : list Manager * list Z) mgr,
      let '(mgr, new) := take_new_block_ids mgr in (acc.1 ++ [mgr], acc.2 ++ new))
    ([], []) (single_type_managers (coordinator m)) in
  (set_coordinator m (set_managers (coordinator m) (km_pool m) ms), ids).

Definition km_new_step_starts (m : KVCacheManager) : KVCacheManager :=
  set_coordinator m (coord_new_step_starts (coordinator m)).
End Manager.
