(* ===== verification/CacheRuns.v ===== *)
(** * Concrete cache configurations

    Witnesses of the theorems about the configuration of the cache, and the defects the
    model shows. *)

From Corelib Require Import SpecFloat.
From S2P Require Import Prelude PyFloat OrderedDict Request FreeQueue BlockHash BlockPool KVCacheSpec CacheSizes SingleType CacheHit Coordinator CacheConfig CacheFit CacheGroups CacheLayout CachePages CacheConfigSpec KVCacheManager.

(** The sizes of the types the examples use. *)
#[local] Instance torch_sizes : TorchLib :=
  {| get_dtype_size d := if bool_decide (d = "float32") then 4 else if bool_decide (d = "bfloat16") then 2 else 1 |}.

Definition bf16 : AttentionFields := mkAttn 8 128 "bfloat16" NONE None.
Definition full16 : KVCacheSpec := FullAttentionSpec 16 bf16 (mkFull 128 None None).
Definition window16 : KVCacheSpec := SlidingWindowSpec 16 bf16 128 1024.

(** Two full layers, five layers with a window; 64 KiB a page. *)
Definition hybrid_model : specs_dict :=
  [("f0", full16); ("s0", window16); ("s1", window16); ("f1", full16); ("s2", window16); ("s3", window16); ("s4", window16)].

Definition config_of (len original : Z) (hybrid_off : bool) : VllmConfig :=
  mkVllm len original 2048 0 hybrid_off 1 1 "none" None false.

Lemma sized_by_value s : bool_decide (0 < spec_block_size s) = true →
  match page_size_bytes s with Ok p => bool_decide (0 < p) | Raise _ => false end = true → sized s.
Proof.
  intros Hb%bool_decide_eq_true. destruct (page_size_bytes s) as [p|] eqn:E; [|done]. intros Hp%bool_decide_eq_true.
  split; [done|]. by exists p.
Qed.

Lemma full16_sized : sized full16.
Proof. by apply sized_by_value. Qed.
Lemma window16_sized : sized window16.
Proof. by apply sized_by_value. Qed.

(** Two stages of a pipeline. *)
Definition stage0 : specs_dict := take 3 hybrid_model.
Definition stage1 : specs_dict := drop 3 hybrid_model.

Lemma stages_ok : model_ok (config_of 1024 1024 false) [stage0; stage1].
Proof.
  split.
  - repeat constructor; refine (bool_decide_unpack _ _); vm_compute; exact I.
  - repeat constructor; apply full16_sized || apply window16_sized.
  - repeat constructor; done.
Qed.

Definition stage_configs : VllmConfig * list WorkerConfig := Eval vm_compute in
  match get_kv_cache_configs (config_of 1024 1024 false) [stage0; stage1] [30000000; 40000000] with
  | Ok p => p
  | Raise _ => (config_of 0 0 false, [])
  end.

Lemma cache_configs_ok_witness :
  length stage_configs.2 = 2%nat ∧ (∃ k, stage_configs.1 = set_vc_max_model_len (config_of 1024 1024 false) k) ∧
  ∃ n, ∀ i w c, [stage0; stage1] !! i = Some w → stage_configs.2 !! i = Some c →
    worker_ok stage_configs.1 ([30000000; 40000000] !! i) w n c.
Proof.
  apply (cache_configs_ok (config_of 1024 1024 false) [stage0; stage1] [30000000; 40000000]);
    [exact stages_ok|reflexivity|vm_compute; reflexivity].
Defined.

Example stage_tensors : (λ c, (wc_num_blocks c, shared_by <$> kv_cache_tensors c)) <$> stage_configs.2 =
  [(457, [["f0"; "s0"; "s1"]]); (457, [["f1"; "s3"; "s4"; "s2"]])].
Proof. vm_compute. reflexivity. Qed.

Lemma groups_partition_witness :
  ∃ groups, get_kv_cache_groups (config_of 1024 1024 false) hybrid_model = Ok groups ∧
    all_layers groups ≡ₚ hybrid_model.*1 ∧ Forall group_ok groups.
Proof.
  eexists. split; [vm_compute; reflexivity|].
  apply (groups_partition (config_of 1024 1024 false) hybrid_model); [left; reflexivity|vm_compute; reflexivity].
Defined.

(** ** Fitting the length *)

Definition one_group : list LayerGroup := [mkLayerGroup ["a"] (LayerSpec full16) false].

Lemma auto_fit_longest_witness :
  match _auto_fit_max_model_len (config_of 1024 (-1) false) [one_group; one_group] [65536 * 30 + 7; 65536 * 40] with
  | Raise e => e = ValueError ∧ ¬ all_fit (config_of 1024 (-1) false) (zip [one_group; one_group] [65536 * 30 + 7; 65536 * 40]) 1
  | Ok vc' => ∃ k, vc' = set_vc_max_model_len (config_of 1024 (-1) false) k ∧ 1 ≤ k ≤ 1024 ∧
      (∀ n, 1 ≤ n ≤ 1024 → all_fit (config_of 1024 (-1) false) (zip [one_group; one_group] [65536 * 30 + 7; 65536 * 40]) n ↔ n ≤ k) ∧
      ∀ w, w ∈ zip [one_group; one_group] [65536 * 30 + 7; 65536 * 40] → 0 < w.2 → check_worker vc' w = Ok tt
  end.
Proof.
  apply (auto_fit_longest (config_of 1024 (-1) false) [one_group; one_group] [65536 * 30 + 7; 65536 * 40]);
    [reflexivity|done|by vm_compute|].
  repeat constructor; try apply full16_sized; (eexists; vm_compute; reflexivity).
Defined.

Example fitted_length :
  vc_max_model_len <$> (match _auto_fit_max_model_len (config_of 1024 (-1) false) [one_group; one_group] [65536 * 30 + 7; 65536 * 40] with
                        | Ok vc => Some vc | Raise _ => None end) = Some 480.
Proof. vm_compute. reflexivity. Qed.

(** ** Unifying page sizes *)

Definition small16 : KVCacheSpec := FullAttentionSpec 16 (mkAttn 8 32 "bfloat16" NONE None) (mkFull 32 None None).

Lemma unify_page_sizes_witness :
  ∃ specs', unify_kv_cache_spec_page_size [("a", small16); ("b", window16)] = Ok specs' ∧
    Forall2 (enlarged 65536) [("a", small16); ("b", window16)] specs'.
Proof.
  pose proof (unify_page_sizes [("a", small16); ("b", window16)] [16384; 65536] 65536) as H.
  destruct (unify_kv_cache_spec_page_size [("a", small16); ("b", window16)]) as [specs'|e] eqn:E.
  - exists specs'. split; [done|]. apply H; [|reflexivity|reflexivity].
    repeat constructor; try done; by apply sized_by_value || exists 65536.
  - vm_compute in E. discriminate.
Defined.

(** ** Defects *)

(** The check of the memory counts the null block.  With memory for exactly the blocks of
    one request of [max_model_len] tokens the check passes and two blocks are made, but
    one of them is the null block of the pool: a prompt of the permitted length gets no
    blocks, also when nothing else runs. *)
Definition tight_configs : res (VllmConfig * list WorkerConfig) :=
  get_kv_cache_configs (config_of 32 32 false) [[("a", full16)]] [65536 * 2].
Definition tight_cache : res KVCacheManager :=
  '(_, cs) ← tight_configs;
  cfg ← generate_scheduler_kv_cache_config cs;
  KVCacheManager_init cfg 32 16 None false false false 1 1.
Definition prompt31 : Request := sample_request None None [] (zrange 0 31) [].

Theorem tight_memory_serves_nothing `{KVEnv} :
  (∃ m, tight_cache = Ok m ∧ get_remaining_free_blocks m = 1) ∧
  (m ← tight_cache; '(_, blocks) ← allocate_slots m prompt31 31 0 None 0 0 false 0 false; Ok blocks) = Ok None.
Proof. split; [eexists; split; [vm_compute; reflexivity|vm_compute; reflexivity]|vm_compute; reflexivity]. Qed.

(** Without the hybrid manager a chunked layer loses its quantization mode: its page no
    longer has the memory for the scales. *)
Definition int8 : AttentionFields := mkAttn 8 128 "int8" INT8_PER_TOKEN_HEAD None.
Definition quantized_model : specs_dict :=
  [("f", FullAttentionSpec 16 int8 (mkFull 128 None None)); ("c", ChunkedLocalAttentionSpec 16 int8 64)].

Theorem chunked_loses_quantization :
  layer_page_sizes quantized_model = Ok [33792; 33792] ∧
  (specs ← unify_hybrid_kv_cache_specs quantized_model; layer_page_sizes specs) = Ok [33792; 32768].
Proof. split; vm_compute; reflexivity. Qed.

(** Two window sizes cannot be unified: the merge inside [is_kv_cache_spec_uniform] raises a
    [ValueError], which only an [AssertionError] handler surrounds, before the layers are
    found to be of one type. *)
Definition two_windows : specs_dict :=
  [("f", full16); ("s", window16); ("t", SlidingWindowSpec 16 bf16 128 512)].

Theorem two_windows_rejected :
  unify_hybrid_kv_cache_specs two_windows = Raise ValueError ∧
  (specs ← mapM_res (λ l : string * KVCacheSpec, s ← convert_to_full None l.2; Ok (l.1, s)) two_windows;
   is_uniform_type specs) = Ok true.
Proof. split; vm_compute; reflexivity. Qed.

(** [MLAAttentionSpec.merge] compares neither block nor head sizes: a layer with a larger page is
    given the page of the first one. *)
Definition latent (head_size : Z) : KVCacheSpec :=
  MLAAttentionSpec 16 (mkAttn 1 head_size "bfloat16" NONE None) (mkFull head_size None None) (mkMLA None None 1 None).

Theorem merged_page_too_small :
  (groups ← get_kv_cache_groups (config_of 1024 1024 false) [("a", latent 64); ("b", latent 576)];
   mapM_res (λ g, p ← group_page_size (lg_spec g); Ok (layer_names g, p)) groups) = Ok [(["a"; "b"], 2048)] ∧
  page_size_bytes (latent 576) = Ok 18432.
Proof. split; vm_compute; reflexivity. Qed.

(** Sliding window MLA layers are padded to the page sizes of all full layers, but placed by
    those of the stage.  A stage whose full layers have other sizes gets no tensor for them. *)
Definition deepseek (ratio : Z) : MLAFields := mkMLA (Some "fp8_ds_mla") None ratio (Some "deepseek_v4").
Definition latent512 : AttentionFields := mkAttn 1 512 "uint8" NONE None.
Definition full_mla (ratio : Z) : KVCacheSpec := MLAAttentionSpec 256 latent512 (mkFull 512 None None) (deepseek ratio).
Definition window_mla : KVCacheSpec := SlidingWindowMLASpec 64 latent512 None 128 (deepseek 1).

Theorem cross_stage_layer_lost :
  match get_kv_cache_configs (config_of 1024 1024 false)
          [[("m0", full_mla 4); ("w0", window_mla)]; [("m1", full_mla 128); ("w1", window_mla)]] [37376000; 37376000] with
  | Ok (_, cs) => tensor_layers <$> cs
  | Raise _ => []
  end = [["m0"; "w0"]; ["m1"]].
Proof. vm_compute. reflexivity. Qed.

(** A padded layer with a smaller page: [AssertionError] in place of [NotImplementedError]. *)
Lemma unify_padded_asserts_witness :
  unify_layer 65536 ("p", SlidingWindowSpec 16 (mkAttn 8 64 "bfloat16" NONE (Some 32768)) 64 512) = Raise AssertionError.
Proof. apply (unify_padded_asserts 65536 "p" _ 32768 32768); by vm_compute. Defined.
