(* ===== verification/KVCacheManagerSpec.v ===== *)
(** * Correctness of the KV cache manager

    [allocate_slots] either changes no table but for skipped blocks and returns
    [None], or gives the request blocks for all its slots; every operation
    keeps the invariant of the coordinator, so the references of the pool are
    always the entries of the tables. *)

From S2P Require Import Prelude PyFloat Request FreeQueue BlockHash BlockPool KVCacheSpec SingleType CacheHit ManagerSpec Coordinator CoordinatorSpec KVCacheManager.

Record KmOk (m : KVCacheManager) (l : list block_ref) : Prop := {
  ko_coord : CoordOk (coordinator m) l;
  ko_caching : km_enable_caching m = enable_caching (km_pool m);
  ko_groups : num_kv_cache_groups m = length (single_type_managers (coordinator m))
}.

(** An operation changes nothing of the manager but the coordinator, and
    nothing of the tables but those of request [id]. *)
Record km_step (id : string) (m m' : KVCacheManager) : Prop := {
  ks_set : m' = set_coordinator m (coordinator m');
  ks_frame : coord_frame (coordinator m) (coordinator m');
  ks_others : each (keeps_others id) (coordinator m) (coordinator m')
}.

Lemma each_trans (Q1 Q2 Q3 : Manager → Manager → Prop) c1 c2 c3 :
  (∀ m1 m2 m3, Q1 m1 m2 → Q2 m2 m3 → Q3 m1 m3) → each Q1 c1 c2 → each Q2 c2 c3 → each Q3 c1 c3.
Proof.
  intros HQ. unfold each. generalize (single_type_managers c1) (single_type_managers c2)
    (single_type_managers c3). intros l1 l2 l3 H1. revert l3.
  induction H1; intros l3 H3; inversion H3; subst; constructor; eauto.
Qed.

Lemma each_impl (Q Q' : Manager → Manager → Prop) c c' :
  (∀ m m', Q m m' → Q' m m') → each Q c c' → each Q' c c'.
Proof. intros HQ H. eapply Forall2_impl; [exact H|exact HQ]. Qed.

Lemma each_refl (Q : Manager → Manager → Prop) c : (∀ m, Q m m) → each Q c c.
Proof. intros HQ. unfold each. induction (single_type_managers c); constructor; auto. Qed.

Lemma km_step_coord id m c' :
  coord_frame (coordinator m) c' → each (keeps_others id) (coordinator m) c' →
  km_step id m (set_coordinator m c').
Proof. by split. Qed.

Lemma km_step_trans id m1 m2 m3 : km_step id m1 m2 → km_step id m2 m3 → km_step id m1 m3.
Proof.
  intros [E1 F1 O1] [E2 F2 O2]. split; [by rewrite E2 E1|by etrans|].
  eapply each_trans; [|exact O1|exact O2]. intros ???. apply keeps_others_trans.
Qed.

Lemma km_step_refl id m : km_step id m m.
Proof.
  split; [by destruct m|reflexivity|]. apply each_refl. intros. apply keeps_others_refl.
Qed.

(** The invariant only depends on the coordinator. *)
Lemma KmOk_set m l c' l' :
  KmOk m l → CoordOk c' l' → coord_frame (coordinator m) c' → KmOk (set_coordinator m c') l'.
Proof.
  intros [_ K2 K3] C' F. split; cbn; [done| |].
  - unfold km_pool in *. cbn. by rewrite K2 (pf_caching _ _ (cf_pool _ _ F)).
  - by rewrite K3 (Forall2_length _ _ _ (cf_managers _ _ F)).
Qed.

(** ** Hashes of a request *)

(** A request whose hash blocks are all hashed has a hash for each full block of
    any group. *)
Lemma hashes_enough hbs bs r :
  0 < hbs → 0 < bs → bs `mod` hbs = 0 → zlen (block_hashes r) = num_tokens r / hbs →
  num_tokens r / bs ≤ zlen (hashes_at hbs bs r).
Proof.
  intros Hh Hb Hm Hz. unfold hashes_at. goal_bool as E; [by rewrite Hz E|].
  apply Z.div_exact in Hm; [|lia]. set (k := bs / hbs) in *.
  assert (0 < k) as Hk by nia.
  assert (zlen (bhl_iter (ScaledHashes (block_hashes r) k)) = Z.max 0 (zlen (block_hashes r) / k)) as ->.
  { cbn. unfold zrange. rewrite /zlen length_fmap length_seqZ. lia. }
  rewrite Hz Z.div_div; [|lia|lia]. rewrite -Hm. lia.
Qed.

(** ** A request that is ready for an allocation *)

Section Ready.
Context `{KVEnv}.

(** Either the request is new and brings hits or tokens of a connector
    ([phase]), or its computed tokens have their blocks already. *)
Definition ready (c : Coordinator) (id : string) (bss : list (list block_ref)) (phase : bool)
    (local external : Z) : Prop :=
  if phase then coord_new_request c id bss local external (local + external)
  else bss = replicate (length (single_type_managers c)) [] ∧ external = 0 ∧ 0 ≤ local ∧
       ∀ m, m ∈ single_type_managers c → local ≤ zlen (blocks_of m id) * block_size m.

Lemma Forall2_replicate_nil {A} (P : Manager → list A → Prop) ms :
  (∀ m, m ∈ ms → P m []) → Forall2 P ms (replicate (length ms) []).
Proof. induction ms as [|m ms IH]; intros Hm; cbn; constructor; [|apply IH]; set_solver. Qed.

Lemma ready_rows c l id bss phase local external :
  CoordOk c l → ready c id bss phase local external →
  Forall2 (λ m bs, mgr_wf m ∧ (has_cached m id = true → bs = [])) (single_type_managers c) bss.
Proof.
  intros [_ W] HR. rewrite Forall_forall in W. destruct phase; cbn in HR.
  - destruct HR as [Hg _]. apply Forall2_same_length_lookup.
    apply Forall2_same_length_lookup in Hg as [Hl Hg]. split; [done|].
    intros j m bs Hm Hb. split; [apply W; by eapply list_elem_of_lookup_2|].
    by rewrite (nr_fresh _ _ _ _ _ _ _ (Hg j m bs Hm Hb)).
  - destruct HR as (-> & _). apply Forall2_replicate_nil. intros m Hm. split; [by apply W|done].
Qed.

Lemma new_request_remove p p' m m' id bs local external n :
  pool_frame p p' → same_hashes p p' → mgr_frame m m' →
  zlen (blocks_of m' id) = zlen (blocks_of m id) → num_cached_block m' = num_cached_block m →
  new_request p m id bs local external n → new_request p' m' id bs local external n.
Proof.
  intros F [_ Hh] FM Hl Hn [R1 R2 [K1 K2 K3 K4] R4 R5 R6 R7].
  assert (skip_blocks m' (local + external) = skip_blocks m (local + external)) as Hs.
  { unfold skip_blocks. by rewrite (mf_spec _ _ FM) (mf_size _ _ FM). }
  rewrite Forall_forall in K1. split; rewrite ?(mf_caching _ _ FM) ?(mf_size _ _ FM) //.
  - by rewrite /has_cached Hn.
  - rewrite R2 in Hl. by destruct (blocks_of m' id).
  - rewrite Hs. split; rewrite ?(pf_null _ _ F) //.
    + apply Forall_forall. intros x Hx. rewrite (pool_frame_ref _ _ _ F). by apply K1.
    + intros b Hin Hnn. rewrite Hh; [|by apply K1]. by apply K4.
Qed.

(** Removing skipped blocks keeps a request ready. *)
Lemma ready_remove c c' id bss phase local external :
  coord_frame c c' → same_hashes (block_pool c) (block_pool c') →
  each (λ m m', zlen (blocks_of m' id) = zlen (blocks_of m id) ∧
                num_cached_block m' = num_cached_block m ∧ keeps_others id m m') c c' →
  ready c id bss phase local external → ready c' id bss phase local external.
Proof.
  intros [F M _] SH HE HR. unfold each in HE. destruct phase; cbn in *.
  - destruct HR as [Hg He]. split; [|by rewrite -(Forall2_length _ _ _ M)].
    apply Forall2_same_length_lookup. apply Forall2_same_length_lookup in Hg as [Hl Hg].
    pose proof (Forall2_length _ _ _ M) as HlM. split; [lia|]. intros j m' bs Hm' Hb.
    destruct (lookup_lt_is_Some_2 (single_type_managers c) j) as [m Hm].
    { apply lookup_lt_Some in Hm'. lia. }
    destruct (Forall2_lookup_lr _ _ _ _ _ _ HE Hm Hm') as (? & ? & _).
    eapply new_request_remove; [done|done|by eapply Forall2_lookup_lr|done|done|by eapply Hg].
  - destruct HR as (-> & -> & H0 & Hc). split_and!; [by rewrite (Forall2_length _ _ _ M)|done|done|].
    intros m' (j & Hm')%list_elem_of_lookup.
    destruct (Forall2_lookup_r _ _ _ _ _ HE Hm') as (m & Hm & Hl & _).
    rewrite Hl (mf_size _ _ (Forall2_lookup_lr _ _ _ _ _ _ M Hm Hm')). apply Hc.
    by eapply list_elem_of_lookup_2.
Qed.

(** For a running request the announced blocks are the missing ones. *)
Lemma running_total c l id n local :
  CoordOk c l → 0 ≤ local →
  (∀ m, m ∈ single_type_managers c → local ≤ zlen (blocks_of m id) * block_size m) →
  total_needed c id n (replicate (length (single_type_managers c)) []) local =
    sum_alloc (single_type_managers c) id n.
Proof.
  intros [[_ HL _] W] H0. unfold total_needed, sum_alloc. revert HL W.
  induction (single_type_managers c) as [|m ms IH]; intros HL W Hc; [done|].
  apply Forall_cons in HL as [Lm HL]. apply Forall_cons in W as [Wm W].
  cbn [length replicate zip_with fmap list_fmap]. rewrite !zsum_cons IH //; [|set_solver].
  rewrite running_need //; [apply Lm|apply Wm|apply Hc; set_solver].
Qed.

(** The computed phase of an admitted request leaves the missing blocks free. *)
Lemma ready_phase c l id bss phase local external n :
  CoordOk c l → ready c id bss phase local external → local + external ≤ n →
  total_needed c id n bss (local + external) ≤ zlen l →
  ∃ c' l', (if phase then coord_allocate_new_computed_blocks c id bss local external else Ok c) = Ok c' ∧
    CoordOk c' l' ∧ coord_frame c c' ∧ sum_alloc (single_type_managers c') id n ≤ zlen l' ∧
    each (keeps_others id) c c'.
Proof.
  intros C HR Hn Hneed. destruct phase; cbn in HR.
  - apply (coord_computed_spec c l); [done| |done]. destruct HR as [Hg He]. split; [|done].
    eapply Forall2_impl; [exact Hg|]. intros m bs []. split; try done; lia.
  - destruct HR as (-> & -> & H0 & Hc). exists c, l. rewrite Z.add_0_r in Hneed.
    rewrite (running_total c l) // in Hneed. split_and!; try done.
    apply each_refl. intros. apply keeps_others_refl.
Qed.
End Ready.

(** ** Slots *)

(** The tables of the request cover [n] tokens. *)
Definition covers (c : Coordinator) (id : string) (n : Z) : Prop :=
  ∀ m, m ∈ single_type_managers c → n ≤ zlen (blocks_of m id) * block_size m.

(** The blocks returned to the scheduler are the ends of the tables. *)
Definition ends_of_tables (m : KVCacheManager) (id : string) (bs : KVCacheBlocks) : Prop :=
  Forall2 (λ mgr new, new `suffix_of` blocks_of mgr id)
    (single_type_managers (coordinator m)) (blocks_lists m bs).

Lemma create_blocks_lists m bss :
  length bss = num_kv_cache_groups m → blocks_lists m (create_kv_cache_blocks bss) = bss.
Proof.
  intros Hl. unfold create_kv_cache_blocks. destruct (existsb _ bss) eqn:E; [done|]. cbn. rewrite -Hl.
  clear Hl. induction bss as [|[|b bs] bss IH]; cbn in *; [done| |done]. by rewrite IH.
Qed.

(** The full blocks of at most [k] covered tokens have blocks and hashes. *)
Lemma cacheable c l r n k :
  CoordOk c l → enable_caching (block_pool c) = true →
  zlen (block_hashes r) = num_tokens r / hash_block_size (block_pool c) →
  covers c (request_id r) n → k ≤ n → k ≤ num_tokens r →
  ∀ m, m ∈ single_type_managers c →
    k / block_size m ≤ zlen (blocks_of m (request_id r)) ∧
    k / block_size m ≤ zlen (hashes_at (hash_block_size (block_pool c)) (block_size m) r).
Proof.
  intros C Hc Hz Hcov Hn Hk m Hm. pose proof (ci_local _ _ _ (co_inv _ _ C)) as HL.
  rewrite Forall_forall in HL. pose proof (HL m Hm) as L. pose proof (ml_size _ _ L) as Hbs.
  destruct (ml_hash _ _ L Hc) as [Hh Hmod]. split.
  - apply Z.div_le_upper_bound; [done|]. rewrite Z.mul_comm. pose proof (Hcov m Hm). lia.
  - etrans; [|by apply hashes_enough]. by apply Z.div_le_mono.
Qed.

Section Slots.
Context `{KVEnv}.

(** [km_num_blocks] changes nothing, and a number that fits the free blocks is
    the announced one. *)
Lemma km_num_blocks_spec m l id n bss phase local external enc total main cap :
  KmOk m l → ready (coordinator m) id bss phase local external →
  ∃ k, km_num_blocks m id n bss enc total main cap = Ok (m, k) ∧
    (cap = false → k ≤ get_num_free_blocks (km_pool m) →
     total_needed (coordinator m) id n bss total ≤ zlen l).
Proof.
  intros [C _ _] HR. pose proof (ci_pool _ _ _ (co_inv _ _ C)) as I. unfold km_pool.
  pose proof (free_le_pool _ _ I) as Hfree. pose proof (zlen_nonneg l).
  destruct (coord_need_spec (coordinator m) id n bss enc total main cap) as (k & E & Hk);
    [by eapply ready_rows|lia|].
  exists k. unfold km_num_blocks. rewrite E. cbn [mbind res_bind]. split; [by destruct m|].
  rewrite (PoolInv_num_free _ _ I). intros Hc. destruct (Hk Hc) as [->|]; lia.
Qed.

(** The slots of an admitted request. *)
Lemma allocate_admitted_spec m l r hits new local external total n main delay enc :
  KmOk m l → let id := request_id r in
  let phase := negb (match hits with EmptyKVCacheBlocks => true | _ => false end) ||
               bool_decide (0 < external) in
  ready (coordinator m) id (blocks_lists m hits) phase local external →
  local + external ≤ n → 0 ≤ total + new →
  Z.min (total + new) (num_tokens r) ≤ n → 0 ≤ num_tokens r →
  (km_enable_caching m = true →
     zlen (block_hashes r) = num_tokens r / hash_block_size (km_pool m)) →
  total_needed (coordinator m) id n (blocks_lists m hits) (local + external) ≤ zlen l →
  ∃ m' l' bs, allocate_admitted m r hits new local external total n main delay enc = Ok (m', Some bs) ∧
    KmOk m' l' ∧ km_step id m m' ∧ covers (coordinator m') id n ∧ ends_of_tables m' id bs.
Proof.
  intros HK id phase HR Hn Htn Hcn Hnt Hhash Hneed. unfold allocate_admitted. fold id phase.
  destruct (ready_phase _ _ _ _ _ _ _ n (ko_coord _ _ HK) HR Hn Hneed) as (c1 & l1 & -> & C1 & F1 & Hs1 & O1).
  cbn [mbind res_bind].
  destruct (coord_alloc_spec c1 l1 id n main enc C1 Hs1) as (c2 & l2 & bss & -> & C2 & F2 & _ & Hb2 & E2).
  cbn [mbind res_bind].
  assert (coord_frame (coordinator m) c2) as F12 by by etrans.
  assert (length bss = num_kv_cache_groups m) as Hlb.
  { by rewrite (ko_groups _ _ HK) -(Forall2_length _ _ _ Hb2) (Forall2_length _ _ _ (cf_managers _ _ F12)). }
  assert (covers c2 id n) as Hcov2.
  { intros m2 (j & Hj)%list_elem_of_lookup.
    destruct (Forall2_lookup_r _ _ _ _ _ E2 Hj) as (m1 & Hm1 & _ & Hc & _).
    by rewrite (mf_size _ _ (Forall2_lookup_lr _ _ _ _ _ _ (cf_managers _ _ F2) Hm1 Hj)). }
  assert (each (keeps_others id) (coordinator m) c2) as O12.
  { eapply each_trans; [|exact O1|exact E2]. intros ??? H1 (H2 & _). by eapply keeps_others_trans. }
  destruct (negb (km_enable_caching m) || delay) eqn:Ed.
  { eexists _, l2, _. split; [done|]. split_and!; [by eapply KmOk_set|by apply km_step_coord|done|].
    unfold ends_of_tables. by rewrite create_blocks_lists. }
  apply orb_false_iff in Ed as [Hca%negb_false_iff _].
  destruct (coord_cache_blocks_spec c2 l2 r (Z.min (total + new) (num_tokens r)) C2)
    as (c3 & l3 & -> & C3 & F3 & _ & _ & E3).
  { rewrite (pf_caching _ _ (cf_pool _ _ F12)). fold (km_pool m). by rewrite -(ko_caching _ _ HK). }
  { lia. }
  { apply (cacheable c2 l2 r n); try done.
    - rewrite (pf_caching _ _ (cf_pool _ _ F12)). fold (km_pool m). by rewrite -(ko_caching _ _ HK).
    - rewrite (pf_hbs _ _ (cf_pool _ _ F12)). by apply Hhash.
    - lia. }
  cbn [mbind res_bind]. assert (coord_frame (coordinator m) c3) as F13 by by etrans.
  assert (each (λ m m', blocks_of m' id = blocks_of m id) c2 c3) as B3.
  { eapply each_impl; [|exact E3]. by intros ?? []. }
  eexists _, l3, _. split; [done|]. split_and!; [by eapply KmOk_set|apply km_step_coord|..]; [done| | |].
  - eapply each_trans; [|exact O12|exact E3]. intros ??? H1 [_ H2]. by eapply keeps_others_trans.
  - intros m3 (j & Hj)%list_elem_of_lookup. cbn in Hj.
    destruct (Forall2_lookup_r _ _ _ _ _ B3 Hj) as (m2 & Hm2 & ->).
    rewrite (mf_size _ _ (Forall2_lookup_lr _ _ _ _ _ _ (cf_managers _ _ F3) Hm2 Hj)).
    apply Hcov2. by eapply list_elem_of_lookup_2.
  - unfold ends_of_tables. rewrite create_blocks_lists //. cbn.
    clear -B3 Hb2. unfold each in B3. revert Hb2. generalize bss. 
    induction B3 as [|m2 m3 ms2 ms3 E B3 IH]; intros bss' Hb; inversion Hb; subst; constructor; [by rewrite E|auto].
Qed.

(** Whether [allocate_slots] adds computed blocks. *)
Definition computed_phase_runs (hits : KVCacheBlocks) (external : Z) : bool :=
  negb (match hits with EmptyKVCacheBlocks => true | _ => false end) || bool_decide (0 < external).

(** What the scheduler guarantees: the numbers are in range, the request is
    hashed, and it is either running, with blocks for its computed tokens, or
    new, with hits that are cached blocks. *)
Record slots_pre (m : KVCacheManager) (r : Request) (new new_computed : Z)
    (hits : option KVCacheBlocks) (lookahead external : Z) : Prop := {
  sp_some : ¬ (new = 0 ∧ external = 0);
  sp_range : 0 ≤ new ∧ 0 ≤ lookahead ∧ 0 ≤ external ∧ 0 ≤ num_computed_tokens r + new_computed;
  sp_total : num_computed_tokens r + new_computed + external ≤ km_max_model_len m;
  sp_length : num_tokens r ≤ km_max_model_len m;
  sp_hashed : km_enable_caching m = true →
    zlen (block_hashes r) = num_tokens r / hash_block_size (km_pool m);
  sp_ready :
    let hits := default EmptyKVCacheBlocks hits in
    ready (coordinator m) (request_id r) (blocks_lists m hits) (computed_phase_runs hits external)
      (num_computed_tokens r + new_computed) external
}.

(** The slots the request asks for. *)
Definition slots_needed (m : KVCacheManager) (r : Request) (new new_computed lookahead external : Z)
    : Z :=
  Z.min (num_computed_tokens r + new_computed + external + new + lookahead) (km_max_model_len m).

Lemma full_sequence_fits_spec m l r bss phase local external enc total :
  KmOk m l → ready (coordinator m) (request_id r) bss phase local external →
  ∃ b, full_sequence_fits m r bss enc total = Ok (m, b).
Proof.
  intros HK HR. unfold full_sequence_fits.
  destruct (km_num_blocks_spec m l (request_id r) (Z.min (num_tokens r) (km_max_model_len m)) bss phase
    local external enc total (Z.min (num_tokens r) (km_max_model_len m)) true HK HR) as (k & -> & _).
  by eexists.
Qed.

(** The specification of [allocate_slots]. *)
Lemma allocate_slots_spec m l r new new_computed hits lookahead external delay enc fit :
  KmOk m l → slots_pre m r new new_computed hits lookahead external →
  ∃ m' l' o,
    allocate_slots m r new new_computed hits lookahead external delay enc fit = Ok (m', o) ∧
    KmOk m' l' ∧ km_step (request_id r) m m' ∧
    match o with
    | None => each (λ g g', zlen (blocks_of g' (request_id r)) = zlen (blocks_of g (request_id r)) ∧
                            num_cached_block g' = num_cached_block g) (coordinator m) (coordinator m')
    | Some bs =>
        covers (coordinator m') (request_id r)
          (slots_needed m r new new_computed lookahead external) ∧
        ends_of_tables m' (request_id r) bs
    end.
Proof.
  intros HK [P1 (P2 & P3 & P4 & P5) P6 P7 P8 P9]. unfold allocate_slots, slots_needed.
  set (id := request_id r) in *. set (local := num_computed_tokens r + new_computed) in *.
  set (nc := default EmptyKVCacheBlocks hits) in *.
  replace (bool_decide (new = 0) && bool_decide (external = 0)) with false; last first.
  { symmetry. apply andb_false_iff. rewrite !bool_decide_eq_false. lia. }
  rewrite (Z.min_l (local + external)); [|lia].
  assert (∃ b, (if fit then full_sequence_fits m r (blocks_lists m nc) enc (local + external)
    else Ok (m, true)) = Ok (m, b)) as (b & ->).
  { destruct fit; [by eapply full_sequence_fits_spec|by eexists]. }
  cbn [mbind res_bind]. destruct b; cbn [negb]; last first.
  { exists m, l, None. split; [done|]. split; [done|]. split; [apply km_step_refl|by apply each_refl]. }
  destruct (coord_remove_skipped_blocks_spec (coordinator m) l id (local + external) (ko_coord _ _ HK))
    as (c1 & l1 & -> & C1 & F1 & _ & SH & E1). cbn [mbind res_bind].
  set (m1 := set_coordinator m c1). pose proof (KmOk_set _ _ _ _ HK C1 F1 : KmOk m1 l1) as HK1.
  assert (km_step id m m1) as S1.
  { apply km_step_coord; [done|]. eapply each_impl; [|exact E1]. by intros ?? (_ & _ & ?). }
  pose proof (ready_remove _ _ _ _ _ _ _ F1 SH E1 P9) as R1.
  set (n := Z.min (local + external + new + lookahead) (km_max_model_len m)).
  destruct (km_num_blocks_spec m1 l1 id n (blocks_lists m nc) _ local external enc (local + external)
    (local + external + new) false HK1 R1) as (k & -> & Hk). cbn [mbind res_bind].
  goal_bool as Hfree.
  { exists m1, l1, None. split_and!; [done..|]. eapply each_impl; [|exact E1]. by intros ?? (? & ? & _). }
  pose proof (zlen_nonneg (all_token_ids r)) as Hnt. fold (num_tokens r) in Hnt.
  destruct (allocate_admitted_spec m1 l1 r nc new local external (local + external) n
    (local + external + new) delay enc) as (m2 & l2 & bs & E2 & HK2 & S2 & Hcov & Hends); try done.
  { unfold n. lia. } { lia. } { unfold n. lia. }
  { intros Hc. unfold m1, km_pool. cbn. rewrite (pf_hbs _ _ (cf_pool _ _ F1)). by apply P8. }
  { apply Hk; [done|lia]. }
  exists m2, l2, (Some bs). split; [exact E2|]. split_and!; [done| |done|done]. by eapply km_step_trans.
Qed.
End Slots.

(** ** Sequences of operations *)

Section Reach.
Context `{KVEnv}.

Inductive km_op :=
  | KmAllocate (r : Request) (new new_computed : Z) (hits : option KVCacheBlocks)
      (lookahead external : Z) (delay : bool) (enc : Z) (fit : bool)
  | KmFree (r : Request)
  | KmRemoveSkipped (id : string) (total_computed_tokens : Z)
  | KmCache (r : Request) (num_computed_tokens : Z)
  | KmEvict (block_ids : list Z)
  | KmReset
  | KmTakeEvents
  | KmTakeNewBlockIds
  | KmNewStep.

Definition run_km_op (m : KVCacheManager) (o : km_op) : res KVCacheManager :=
  match o with
  | KmAllocate r new nc hits look ext delay enc fit =>
      '(m, _) ← allocate_slots m r new nc hits look ext delay enc fit; Ok m
  | KmFree r => km_free m r
  | KmRemoveSkipped id total => km_remove_skipped_blocks m id total
  | KmCache r n => km_cache_blocks m r n
  | KmEvict ids => km_evict_blocks m ids
  | KmReset => Ok (km_reset_prefix_cache m).1
  | KmTakeEvents => Ok (km_take_events m).1
  | KmTakeNewBlockIds => Ok (km_take_new_block_ids m).1
  | KmNewStep => Ok (km_new_step_starts m)
  end.

(** The obligations of the scheduler. *)
Definition km_pre (m : KVCacheManager) (o : km_op) : Prop :=
  match o with
  | KmAllocate r new nc hits look ext _ _ _ => slots_pre m r new nc hits look ext
  | KmCache r n => 0 ≤ n ≤ num_tokens r ∧ covers (coordinator m) (request_id r) n ∧
      (km_enable_caching m = true →
         zlen (block_hashes r) = num_tokens r / hash_block_size (km_pool m))
  | KmEvict ids => Forall (λ i, 0 ≤ i < num_gpu_blocks (km_pool m)) ids
  | _ => True
  end.

(** Changing hashes only for the worse keeps the coordinator. *)
Lemma CoordOk_pool c l p' :
  CoordOk c l → PoolInv p' l → pool_frame (block_pool c) p' →
  (∀ b, pool_ref (block_pool c) b → refs p' b = refs (block_pool c) b ∧
     (hsh (block_pool c) b = None → hsh p' b = None)) →
  CoordOk (set_managers c p' (single_type_managers c)) l.
Proof.
  intros [[I HL HR] W] I' F Hp. split; [|done]. split; cbn; [done| |].
  - eapply Forall_impl; [exact HL|]. intros m. apply MgrLocal_frame; [done|].
    intros b Hn Hb _ Hh H1. destruct (Hp b Hb) as [-> Hh']. by split; [apply Hh'|].
  - intros b Hb Hn. apply (pool_frame_ref _ _ _ F) in Hb. rewrite (pf_null _ _ F) in Hn.
    destruct (Hp b Hb) as [-> _]. by apply HR.
Qed.

Lemma KmOk_pool m l p' :
  KmOk m l → PoolInv p' l → pool_frame (km_pool m) p' →
  (∀ b, pool_ref (km_pool m) b → refs p' b = refs (km_pool m) b ∧
     (hsh (km_pool m) b = None → hsh p' b = None)) → KmOk (set_pool m p') l.
Proof.
  intros HK I' F Hp. eapply KmOk_set; [done|apply CoordOk_pool; [apply HK|done..]|].
  split; [done|reflexivity|done].
Qed.

(** Bookkeeping of the managers that the invariant does not read. *)
Lemma KmOk_bookkeeping m l ms' :
  KmOk m l →
  Forall2 (λ g g', mgr_frame g g' ∧ req_to_blocks g' = req_to_blocks g ∧
                   num_cached_block g' = num_cached_block g)
    (single_type_managers (coordinator m)) ms' →
  KmOk (set_coordinator m (set_managers (coordinator m) (km_pool m) ms')) l.
Proof.
  intros [[[I HL HR] W] K2 K3] HF.
  assert (Forall2 mgr_frame (single_type_managers (coordinator m)) ms') as HM.
  { eapply Forall2_impl; [exact HF|]. by intros ?? []. }
  assert (∀ b, total_held ms' b = total_held (single_type_managers (coordinator m)) b) as Ht.
  { intros b. clear -HF. induction HF as [|g g' gs gs' (_ & E & _) _ IH]; [done|].
    rewrite !total_held_cons IH /held E. done. }
  split; [split; [split|]|done|];
    cbn [coordinator set_coordinator block_pool set_managers single_type_managers num_kv_cache_groups];
    [done| | | |].
  - clear -HL HF. induction HF as [|g g' gs gs' (FM & Er & En) _ IH]; [constructor|].
    apply Forall_cons in HL as [Hg HL]. constructor; [|by apply IH].
    destruct Hg as [L1 L2 L3 L4 L5 L6 L7]. unfold ncached in L6.
    split; rewrite ?(mf_null _ _ FM) ?(mf_size _ _ FM) ?(mf_caching _ _ FM) ?(mf_group _ _ FM)
      ?Er ?En //. unfold ncached. by rewrite En.
  - intros b Hb Hn. rewrite Ht. by apply HR.
  - by eapply Forall_wf_frame.
  - by rewrite K3 (Forall2_length _ _ _ HM).
Qed.

Lemma take_ids_managers (ms : list Manager) : ∀ acc,
  foldl (λ (acc : list Manager * list Z) mgr,
      let '(mgr, new) := take_new_block_ids mgr in (acc.1 ++ [mgr], acc.2 ++ new)) acc ms =
  (acc.1 ++ ((λ g, set_new_block_ids g []) <$> ms), acc.2 ++ concat (new_block_ids <$> ms)).
Proof.
  induction ms as [|m ms IH]; intros [ms0 ids]; cbn [foldl]; [by rewrite !app_nil_r|].
  rewrite IH. cbn. by rewrite -!app_assoc.
Qed.

Lemma run_km_op_spec m l o :
  KmOk m l → km_pre m o → ∃ m' l', run_km_op m o = Ok m' ∧ KmOk m' l'.
Proof.
  intros HK Hpre. pose proof (ci_pool _ _ _ (co_inv _ _ (ko_coord _ _ HK))) as I.
  destruct o as [r new nc hits look ext delay enc fit|r|id total|r n|ids| | | |];
    cbn [km_pre run_km_op] in *.
  - destruct (allocate_slots_spec m l r new nc hits look ext delay enc fit HK Hpre)
      as (m' & l' & o & -> & HK' & _). by exists m', l'.
  - destruct (coord_free_spec (coordinator m) l (request_id r) (ko_coord _ _ HK))
      as (c' & l' & E & C' & F & _). unfold km_free. rewrite E.
    eexists _, l'. split; [done|]. by eapply KmOk_set.
  - destruct (coord_remove_skipped_blocks_spec (coordinator m) l id total (ko_coord _ _ HK))
      as (c' & l' & E & C' & F & _). unfold km_remove_skipped_blocks. rewrite E.
    eexists _, l'. split; [done|]. by eapply KmOk_set.
  - unfold km_cache_blocks. destruct (km_enable_caching m) eqn:Ec; [|by exists m, l].
    destruct Hpre as (Hn & Hcov & Hh).
    assert (enable_caching (block_pool (coordinator m)) = true) as Ecp by by rewrite -Ec (ko_caching _ _ HK).
    destruct (coord_cache_blocks_spec (coordinator m) l r n (ko_coord _ _ HK))
      as (c' & l' & -> & C' & F & _); [done|lia| |].
    { apply (cacheable _ l r n); try done; [apply HK|by apply Hh|lia]. }
    eexists _, l'. split; [done|]. by eapply KmOk_set.
  - destruct (evict_blocks_spec ids _ l I Hpre) as (p' & E & I' & F & HR & HH).
    unfold km_evict_blocks. rewrite E. eexists _, l. split; [done|]. apply KmOk_pool; try done.
    intros b _. split; [apply HR|]. intros Hn. rewrite HH. by goal_decide.
  - unfold km_reset_prefix_cache. pose proof (reset_prefix_cache_spec _ _ I) as Hr. unfold km_pool.
    destruct (reset_prefix_cache _) as [p' ok]. destruct Hr as (I' & F & HR & _ & HH).
    eexists _, l. split; [done|]. apply KmOk_pool; try done. intros b Hb. split; [apply HR|].
    intros Hn. destruct ok; [by apply HH|by subst p'].
  - unfold km_take_events, take_events. destruct (negb _); cbn.
    + exists m, l. split; [|done]. f_equal. by destruct m as [? ? ? []].
    + eexists _, l. split; [done|]. by apply KmOk_pool; [|apply PoolInv_set_events|..].
  - unfold km_take_new_block_ids. rewrite take_ids_managers. eexists _, l. split; [done|].
    apply KmOk_bookkeeping; [done|]. apply Forall2_fmap_r, Forall_Forall2_diag, Forall_forall.
    intros g _. by split_and!.
  - eexists _, l. split; [done|]. apply KmOk_bookkeeping; [done|].
    apply Forall2_fmap_r, Forall_Forall2_diag, Forall_forall. intros g _. unfold new_step_starts.
    cbn. destruct (kv_cache_spec g); split_and!; try done; by split.
Qed.
End Reach.

(** The managers that a sequence of allowed operations leads to. *)
Inductive km_reach `{KVEnv} : KVCacheManager → Prop :=
  | km_reach_init cfg L hbs B caching eagle events dcp pcp m :
      config_ok cfg caching dcp pcp hbs →
      KVCacheManager_init cfg L hbs B caching eagle events dcp pcp = Ok m → km_reach m
  | km_reach_step m o m' : km_reach m → km_pre m o → run_km_op m o = Ok m' → km_reach m'.

Lemma KVCacheManager_init_ok cfg L hbs B caching eagle events dcp pcp :
  config_ok cfg caching dcp pcp hbs →
  ∃ m l, KVCacheManager_init cfg L hbs B caching eagle events dcp pcp = Ok m ∧ KmOk m l.
Proof.
  intros HC. unfold KVCacheManager_init.
  destruct (get_kv_cache_coordinator_ok cfg L (default L B) eagle caching events dcp pcp hbs HC)
    as (c & l & -> & C & _ & Hl & Hc & _). eexists _, l. split; [done|]. split; cbn; [done| |done].
  by rewrite /km_pool /= Hc.
Qed.

Lemma km_reach_ok `{KVEnv} m : km_reach m → ∃ l, KmOk m l.
Proof.
  induction 1 as [cfg L hbs B caching eagle events dcp pcp m HC E|m o m' _ [l IH] Hpre E].
  - destruct (KVCacheManager_init_ok cfg L hbs B caching eagle events dcp pcp HC) as (m' & l & E' & HK).
    exists l. congruence.
  - destruct (run_km_op_spec m l o IH Hpre) as (m1 & l' & E' & HK). exists l'. congruence.
Qed.

(** ** Main properties *)

(** C5: [allocate_slots] returns, keeps the invariant and does what it
    promises.  For a request that is running, or new with hits from the cache
    (and, with several groups, no tokens of a connector), the call never
    raises.  It returns [None], and then the tables have the lengths they had,
    or it returns the new blocks, which are the ends of the request's tables,
    and these cover all computed, new and lookahead tokens up to
    [max_model_len].  The tables of other requests are unchanged and the
    references of the pool are the entries of the tables. *)
Theorem allocate_slots_correct m l r new new_computed hits lookahead external delay enc fit :
  KmOk m l → slots_pre m r new new_computed hits lookahead external →
  ∃ m' l' o,
    allocate_slots m r new new_computed hits lookahead external delay enc fit = Ok (m', o) ∧
    KmOk m' l' ∧ km_step (request_id r) m m' ∧
    match o with
    | None => each (λ g g', zlen (blocks_of g' (request_id r)) = zlen (blocks_of g (request_id r)) ∧
                            num_cached_block g' = num_cached_block g) (coordinator m) (coordinator m')
    | Some bs =>
        covers (coordinator m') (request_id r)
          (slots_needed m r new new_computed lookahead external) ∧
        ends_of_tables m' (request_id r) bs
    end.
Proof. apply allocate_slots_spec. Qed.

(** C4: the KV cache is never corrupted.  In every state that a sequence of
    allowed operations leads to, each operation the scheduler may call returns
    (it does not raise) and leads to such a state again, where the reference
    count of each block is the number of entries of all tables that point to it,
    and the free queue holds exactly the blocks no table points to. *)
Theorem kv_cache_safe `{KVEnv} (m : KVCacheManager) (o : km_op) :
  km_reach m → km_pre m o →
  ∃ m' l, run_km_op m o = Ok m' ∧ km_reach m' ∧
    get_all_free_blocks (Z.to_nat (num_gpu_blocks (km_pool m'))) (free_block_queue (km_pool m'))
      = Ok (Some l) ∧
    ∀ b, pool_ref (km_pool m') b → b ≠ null_block (km_pool m') →
      refs (km_pool m') b = total_held (single_type_managers (coordinator m')) b ∧
      (b ∈ l ↔ ∀ g id, g ∈ single_type_managers (coordinator m') → b ∉ blocks_of g id).
Proof.
  intros Hr Hpre. destruct (km_reach_ok m Hr) as [l HK].
  destruct (run_km_op_spec m l o HK Hpre) as (m' & l' & E & HK').
  pose proof (co_inv _ _ (ko_coord _ _ HK')) as [I HL HR].
  exists m', l'. split_and!; [done|by eapply km_reach_step| |].
  - by apply PoolInv_walk.
  - intros b Hb Hn. split; [by apply HR|]. destruct (pi_refs _ _ I b Hb Hn) as [_ ->].
    unfold km_pool. rewrite (HR b Hb Hn). apply total_held_zero.
Qed.

(** ** A concrete manager *)

Definition sample_km : KVCacheManager := Eval vm_compute in
  match KVCacheManager_init two_groups 64 2 None true false false 1 1 with
  | Ok m => m
  | Raise _ => mkKVM 0 false false
      (mkCoord two_groups 0 false (the_pool (Raise AssertionError)) [] [] NoPrefixCache) 0
  end.

Lemma sample_km_init : KVCacheManager_init two_groups 64 2 None true false false 1 1 = Ok sample_km.
Proof. vm_compute. reflexivity. Qed.

Lemma sample_km_reach : km_reach sample_km.
Proof. exact (km_reach_init _ _ _ _ _ _ _ _ _ _ two_groups_ok sample_km_init). Qed.

(** A first allocation of six tokens. *)
Lemma sample_slots_pre : slots_pre sample_km sample_cached_request 6 0 None 0 0.
Proof.
  split; try done; [lia|]. split_and!; try done. intros g Hg.
  change (0 ≤ zlen (blocks_of g "r") * block_size g).
  cbn in Hg. by repeat (apply elem_of_cons in Hg as [->|Hg]; [done|]); apply not_elem_of_nil in Hg.
Qed.

Lemma allocate_slots_correct_witness :
  ∃ m' l' o,
    allocate_slots sample_km sample_cached_request 6 0 None 0 0 false 0 true = Ok (m', o) ∧
    KmOk m' l' ∧ km_step "r" sample_km m' ∧
    match o with
    | None => each (λ g g', zlen (blocks_of g' "r") = zlen (blocks_of g "r") ∧
                            num_cached_block g' = num_cached_block g) (coordinator sample_km) (coordinator m')
    | Some bs =>
        covers (coordinator m') "r" (slots_needed sample_km sample_cached_request 6 0 0 0) ∧
        ends_of_tables m' "r" bs
    end.
Proof.
  destruct (KVCacheManager_init_ok two_groups 64 2 None true false false 1 1 two_groups_ok)
    as (m & l & E & HK).
  assert (m = sample_km) as -> by (rewrite sample_km_init in E; congruence).
  exact (allocate_slots_correct sample_km l sample_cached_request 6 0 None 0 0 false 0 true HK sample_slots_pre).
Defined.

Lemma kv_cache_safe_witness :
  ∃ m' l, run_km_op sample_km (KmAllocate sample_cached_request 6 0 None 0 0 false 0 true) = Ok m' ∧
    km_reach m' ∧
    get_all_free_blocks (Z.to_nat (num_gpu_blocks (km_pool m'))) (free_block_queue (km_pool m'))
      = Ok (Some l) ∧
    ∀ b, pool_ref (km_pool m') b → b ≠ null_block (km_pool m') →
      refs (km_pool m') b = total_held (single_type_managers (coordinator m')) b ∧
      (b ∈ l ↔ ∀ g id, g ∈ single_type_managers (coordinator m') → b ∉ blocks_of g id).
Proof.
  exact (kv_cache_safe sample_km (KmAllocate sample_cached_request 6 0 None 0 0 false 0 true)
           sample_km_reach sample_slots_pre).
Defined.
