(* ===== verification/HeapQ.v ===== *)
(** * The binary heap of Python's [heapq]

    [PriorityRequestQueue] (and the taper controllers) keep their requests in a
    list managed by [heapq].  This file models the functions of that module on
    lists, step by step as they are implemented, and proves that they keep the
    heap order, that [heappop] returns a least element, and that popping all
    elements sorts. *)

From S2P Require Import Prelude.

(** ** The functions *)

Section HeapQ.
Context {A : Type} (lt : A → A → bool).

Definition heap_get (heap : list A) (i : nat) : res A :=
  match heap !! i with Some x => Ok x | None => Raise IndexError end.

(** The loop of [_siftdown]: the item moves up while it is smaller than its
    parent.  Every round at least halves the position, so the position itself is
    enough fuel. *)
Fixpoint siftdown_loop (fuel : nat) (heap : list A) (startpos pos : nat) (newitem : A)
    : res (list A) :=
  match fuel with
  | O => Ok (<[pos := newitem]> heap)
  | S fuel =>
      if bool_decide (startpos < pos)%nat then
        let parentpos := ((pos - 1) / 2)%nat in
        parent ← heap_get heap parentpos;
        if lt newitem parent
        then siftdown_loop fuel (<[pos := parent]> heap) startpos parentpos newitem
        else Ok (<[pos := newitem]> heap)
      else Ok (<[pos := newitem]> heap)
  end.

Definition _siftdown (heap : list A) (startpos pos : nat) : res (list A) :=
  newitem ← heap_get heap pos;
  siftdown_loop pos heap startpos pos newitem.

(** The loop of [_siftup]: the smaller child moves up until a leaf is reached.
    Every round doubles the position, so the length is enough fuel. *)
Fixpoint siftup_loop (fuel : nat) (heap : list A) (pos : nat) : res (list A * nat) :=
  let childpos := (2 * pos + 1)%nat in
  match fuel with
  | O => Ok (heap, pos)
  | S fuel =>
      if bool_decide (childpos < length heap)%nat then
        let rightpos := (childpos + 1)%nat in
        childpos ← (if bool_decide (rightpos < length heap)%nat then
                      c ← heap_get heap childpos;
                      r ← heap_get heap rightpos;
                      Ok (if negb (lt c r) then rightpos else childpos)
                    else Ok childpos);
        c ← heap_get heap childpos;
        siftup_loop fuel (<[pos := c]> heap) childpos
      else Ok (heap, pos)
  end.

Definition _siftup (heap : list A) (pos : nat) : res (list A) :=
  newitem ← heap_get heap pos;
  '(heap, leaf) ← siftup_loop (length heap) heap pos;
  _siftdown (<[leaf := newitem]> heap) pos leaf.

Definition heappush (heap : list A) (item : A) : res (list A) :=
  _siftdown (heap ++ [item]) 0 (length heap).

Definition heappop (heap : list A) : res (A * list A) :=
  match last heap with
  | None => Raise IndexError
  | Some lastelt =>
      let heap := py_init heap in
      match heap with
      | [] => Ok (lastelt, heap)
      | returnitem :: _ =>
          heap ← _siftup (<[0%nat := lastelt]> heap) 0;
          Ok (returnitem, heap)
      end
  end.

(** [for i in reversed(range(n // 2)): _siftup(x, i)]. *)
Fixpoint heapify_loop (n : nat) (heap : list A) : res (list A) :=
  match n with
  | O => Ok heap
  | S n => heap ← _siftup heap n; heapify_loop n heap
  end.
Definition heapify (heap : list A) : res (list A) := heapify_loop (length heap / 2) heap.

(** [while heap_copy: yield heapq.heappop(heap_copy)]. *)
Fixpoint pop_all (fuel : nat) (heap : list A) : res (list A) :=
  match fuel with
  | O => Ok []
  | S fuel =>
      if is_nil heap then Ok []
      else '(x, heap) ← heappop heap; xs ← pop_all fuel heap; Ok (x :: xs)
  end.
End HeapQ.

(** ** Swapping two positions *)

Lemma insert_head_perm {A} (l : list A) j a b :
  l !! j = Some b → b :: <[j := a]> l ≡ₚ a :: l.
Proof.
  intros Hj. rewrite -{2}(take_drop_middle l j b Hj) insert_take_drop;
    [|by apply lookup_lt_Some in Hj].
  by rewrite -!Permutation_middle Permutation_swap.
Qed.

Lemma swap_perm {A} (l : list A) i j a b :
  i ≠ j → l !! i = Some a → l !! j = Some b → <[i := b]> (<[j := a]> l) ≡ₚ l.
Proof.
  revert i j. induction l as [|x l IH]; intros i j Hne Hi Hj; [done|].
  destruct i as [|i], j as [|j]; cbn in *; simplify_eq.
  - by apply insert_head_perm.
  - by apply insert_head_perm.
  - f_equiv. apply IH; [congruence|done..].
Qed.

(** ** Heap order *)

(** [lt] is the strict part of a total preorder on the items that satisfy [D]. *)
Class StrictWeakOrder {A} (D : A → Prop) (lt : A → A → bool) : Prop := {
  swo_asym a b : D a → D b → lt a b = true → lt b a = false;
  swo_trans a b c : D a → D b → D c → lt b a = false → lt c b = false → lt c a = false
}.

Section Order.
Context {A : Type} {D : A → Prop} {lt : A → A → bool} `{!StrictWeakOrder D lt}.
Implicit Types (heap : list A).

Definition le (a b : A) : Prop := lt b a = false.

Lemma le_refl a : D a → le a a.
Proof.
  intros Ha. unfold le. destruct (lt a a) eqn:E; [|done].
  pose proof (swo_asym a a Ha Ha E). congruence.
Qed.

Definition parent (i : nat) : nat := ((i - 1) / 2)%nat.

(** The item at [i] is not smaller than its parent. *)
Definition edge heap (i : nat) : Prop :=
  ∀ a b, heap !! parent i = Some a → heap !! i = Some b → le a b.

(** All edges below position [s] are in order. *)
Definition heap_from (s : nat) heap : Prop := ∀ i, (0 < i)%nat → (s ≤ parent i)%nat → edge heap i.

Definition is_heap heap : Prop := heap_from 0 heap.

(** The positions of the subtree of [s]. *)
Inductive desc (s : nat) : nat → Prop :=
  | desc_root : desc s s
  | desc_child p c : desc s p → (0 < c)%nat → parent c = p → desc s c.

Lemma parent_lt i : (0 < i)%nat → (parent i < i)%nat.
Proof. intros Hi. unfold parent. apply Nat.Div0.div_lt_upper_bound. lia. Qed.

Lemma parent_child i p : (0 < i)%nat → parent i = p ↔ i = (2 * p + 1)%nat ∨ i = (2 * p + 2)%nat.
Proof.
  intros Hi. unfold parent. pose proof (Nat.div_mod_eq (i - 1) 2) as Hd.
  pose proof (Nat.mod_upper_bound (i - 1) 2 ltac:(lia)). lia.
Qed.

Lemma desc_le s i : desc s i → (s ≤ i)%nat.
Proof. induction 1 as [|p c _ IH Hc <-]; [done|]. pose proof (parent_lt c Hc). lia. Qed.

Lemma desc_parent s i : desc s i → i ≠ s → desc s (parent i) ∧ (0 < i)%nat ∧ (s ≤ parent i)%nat.
Proof.
  intros Hd Hne. destruct Hd as [|p c Hp Hc <-]; [done|]. split_and!; [done|done|by apply desc_le].
Qed.

(** ** [_siftdown] *)

(** Everything below [s] is in order but the edge into [pos], and what is below
    [pos] is not smaller than what is above it. *)
Record almost (s pos : nat) heap : Prop := {
  al_desc : desc s pos;
  al_edges : ∀ i, (0 < i)%nat → (s ≤ parent i)%nat → i ≠ pos → edge heap i;
  al_grand : ∀ i a b, (0 < i)%nat → parent i = pos → pos ≠ s →
    heap !! parent pos = Some a → heap !! i = Some b → le a b
}.

Lemma almost_edge s pos heap : almost s pos heap → (pos ≠ s → edge heap pos) → heap_from s heap.
Proof.
  intros [Hd He _] Hp i Hi Hs. destruct (decide (i = pos)) as [->|]; [|by apply He].
  apply Hp. intros ->. pose proof (parent_lt s Hi). lia.
Qed.

(** One step up. *)
Lemma almost_up s pos heap x y :
  Forall D heap → almost s pos heap → pos ≠ s →
  heap !! pos = Some x → heap !! parent pos = Some y → lt x y = true →
  almost s (parent pos) (<[parent pos := x]> (<[pos := y]> heap)).
Proof.
  intros HD [Hd He Hg] Hne Hx Hy Hlt. destruct (desc_parent _ _ Hd Hne) as (Hdp & Hpos & Hsp).
  pose proof (parent_lt pos Hpos) as Hpp. rewrite Forall_lookup in HD.
  set (h' := <[parent pos := x]> (<[pos := y]> heap)).
  assert (h' !! parent pos = Some x) as Lp.
  { unfold h'. rewrite list_lookup_insert_eq // length_insert. by apply lookup_lt_Some in Hy. }
  assert (h' !! pos = Some y) as Lq.
  { unfold h'. rewrite list_lookup_insert_ne; [|lia]. rewrite list_lookup_insert_eq //.
    by apply lookup_lt_Some in Hx. }
  assert (∀ i, i ≠ pos → i ≠ parent pos → h' !! i = heap !! i) as Lo.
  { intros i H1 H2. unfold h'. by rewrite !list_lookup_insert_ne. }
  assert (le x y) as Hle by (eapply swo_asym; [by eapply HD..|done]).
  split; [done| |].
  - intros i Hi Hs Hip a b Ha Hb. destruct (decide (i = pos)) as [->|Hni].
    + rewrite Lp in Ha. rewrite Lq in Hb. by simplify_eq.
    + rewrite (Lo i) // in Hb. destruct (decide (parent i = pos)) as [Hpi|Hpi].
      * rewrite Hpi Lq in Ha. simplify_eq. eapply (Hg i); [done|done|done|exact Hy|exact Hb].
      * destruct (decide (parent i = parent pos)) as [Hpp'|Hpp'].
        { rewrite Hpp' Lp in Ha. simplify_eq. apply (swo_trans a y b); [by eapply HD..|done|].
          apply (He i Hi Hs Hni y b); [by rewrite Hpp'|done]. }
        rewrite (Lo (parent i)) // in Ha. by apply (He i Hi Hs Hni a b).
  - intros i a b Hi Hpi Hns Ha Hb.
    destruct (desc_parent _ _ Hdp Hns) as (_ & Hpos' & Hsp').
    pose proof (parent_lt _ Hpos') as Hpp'.
    rewrite Lo in Ha; [|lia|lia].
    assert (le a y) as Hay by by apply (He (parent pos)); [..|lia| |].
    destruct (decide (i = pos)) as [->|Hni].
    + rewrite Lq in Hb. by simplify_eq.
    + pose proof (parent_lt i Hi). rewrite Lo in Hb; [|done|lia].
      apply (swo_trans a y b); [by eapply HD..|done|].
      apply (He i); [done|lia|done|by rewrite Hpi|done].
Qed.

Lemma siftdown_loop_spec s x fuel : ∀ heap pos,
  (pos ≤ fuel)%nat → (pos < length heap)%nat →
  Forall D (<[pos := x]> heap) → almost s pos (<[pos := x]> heap) →
  ∃ heap', siftdown_loop lt fuel heap s pos x = Ok heap' ∧
    heap' ≡ₚ <[pos := x]> heap ∧ heap_from s heap'.
Proof.
  induction fuel as [|fuel IH]; intros heap pos Hf Hlen HD HA; cbn [siftdown_loop].
  { eexists; split; [done|]. split; [done|]. eapply almost_edge; [done|]. intros Hne.
    destruct (desc_parent _ _ (al_desc _ _ _ HA) Hne). lia. }
  pose proof (desc_le _ _ (al_desc _ _ _ HA)) as Hsp.
  goal_bool as Hlt; last first.
  { eexists; split; [done|]. split; [done|]. eapply almost_edge; [done|]. lia. }
  destruct (desc_parent _ _ (al_desc _ _ _ HA) ltac:(lia)) as (Hdp & Hpos & Hsp').
  pose proof (parent_lt pos Hpos) as Hpp. change ((pos - 1) / 2)%nat with (parent pos).
  destruct (lookup_lt_is_Some_2 heap (parent pos)) as [y Hy]; [lia|].
  unfold heap_get. rewrite Hy. cbn [mbind res_bind].
  assert ((<[pos := x]> heap) !! parent pos = Some y) as Hy' by (rewrite list_lookup_insert_ne //; lia).
  assert ((<[pos := x]> heap) !! pos = Some x) as Hx' by by rewrite list_lookup_insert_eq.
  destruct (lt x y) eqn:Exy; last first.
  { eexists; split; [done|]. split; [done|]. eapply almost_edge; [done|]. intros _ a b Ha Hb.
    rewrite Hy' in Ha. rewrite Hx' in Hb. by simplify_eq. }
  pose proof (almost_up s pos _ x y HD HA ltac:(lia) Hx' Hy' Exy) as HA'.
  rewrite list_insert_insert_eq in HA'.
  assert (<[parent pos := x]> (<[pos := y]> heap) ≡ₚ <[pos := x]> heap) as Hperm.
  { pose proof (swap_perm (<[pos := x]> heap) (parent pos) pos y x) as Hsw.
    rewrite list_insert_insert_eq in Hsw. apply Hsw; [lia|done|done]. }
  destruct (IH (<[pos := y]> heap) (parent pos)) as (heap' & E & HP & HF); [lia| | |done|].
  { rewrite length_insert. lia. } { by rewrite Hperm. }
  exists heap'. split; [exact E|]. split; [by rewrite HP|done].
Qed.

Lemma _siftdown_spec s pos heap :
  (pos < length heap)%nat → Forall D heap → almost s pos heap →
  ∃ heap', _siftdown lt heap s pos = Ok heap' ∧ heap' ≡ₚ heap ∧ heap_from s heap'.
Proof.
  intros Hlen HD HA. destruct (lookup_lt_is_Some_2 heap pos Hlen) as [x Hx].
  destruct (siftdown_loop_spec s x pos heap pos) as (heap' & E & HP & HF);
    rewrite ?list_insert_id //.
  exists heap'. unfold _siftdown, heap_get. rewrite Hx. split; [exact E|].
  by rewrite list_insert_id // in HP.
Qed.

(** ** [_siftup] *)

(** Everything below [s] is in order but what touches the hole at [pos]; what is
    below the hole is not smaller than what is above it. *)
Record hole (s pos : nat) heap : Prop := {
  ho_desc : desc s pos;
  ho_edges : ∀ i, (0 < i)%nat → (s ≤ parent i)%nat → i ≠ pos → parent i ≠ pos → edge heap i;
  ho_grand : ∀ i a b, (0 < i)%nat → parent i = pos → pos ≠ s →
    heap !! parent pos = Some a → heap !! i = Some b → le a b
}.

(** The child that moves up is the smaller one. *)
Definition least_child heap (pos c : nat) (x : A) : Prop :=
  (0 < c)%nat ∧ parent c = pos ∧ heap !! c = Some x ∧
  ∀ i b, (0 < i)%nat → parent i = pos → heap !! i = Some b → le x b.

Lemma hole_down s pos c heap x :
  (pos < length heap)%nat → hole s pos heap → least_child heap pos c x →
  hole s c (<[pos := x]> heap).
Proof.
  intros Hlen [Hd He Hg] (Hc & Hpc & Hx & Hmin). pose proof (parent_lt c Hc) as Hlt.
  assert (<[pos := x]> heap !! pos = Some x) as Lp by by rewrite list_lookup_insert_eq.
  split; [by apply (desc_child s pos c)| |].
  - intros i Hi Hs Hic Hpi a b Ha Hb. destruct (decide (i = pos)) as [->|Hip].
    + rewrite Lp in Hb. simplify_eq. pose proof (parent_lt _ Hi).
      rewrite list_lookup_insert_ne in Ha; [|lia].
      apply (Hg c); [done..| |done|done]. lia.
    + rewrite (list_lookup_insert_ne _ pos i) in Hb; [|done].
      destruct (decide (parent i = pos)) as [Hpp|Hpp].
      * rewrite Hpp Lp in Ha. simplify_eq. by apply (Hmin i).
      * rewrite list_lookup_insert_ne // in Ha. by apply (He i).
  - intros i a b Hi Hpi _ Ha Hb. pose proof (parent_lt i Hi). rewrite Hpc Lp in Ha. simplify_eq.
    rewrite list_lookup_insert_ne in Hb; [|lia].
    apply (He i); [done| |lia|lia|congruence|done].
    apply desc_le in Hd. lia.
Qed.

Lemma hole_leaf s pos heap x :
  (length heap ≤ 2 * pos + 1)%nat → hole s pos heap → almost s pos (<[pos := x]> heap).
Proof.
  intros Hlen [Hd He Hg].
  assert (∀ i b, (0 < i)%nat → parent i = pos → <[pos := x]> heap !! i = Some b → False) as Hleaf.
  { intros i b Hi Hp Hb. apply lookup_lt_Some in Hb. rewrite length_insert in Hb.
    apply parent_child in Hp; [|done]. lia. }
  split; [done| |].
  - intros i Hi Hs Hip a b Ha Hb. destruct (decide (parent i = pos)) as [Hp|Hp].
    + by destruct (Hleaf i b).
    + rewrite !list_lookup_insert_ne // in Ha, Hb. by apply (He i).
  - intros i a b Hi Hp _ _ Hb. by destruct (Hleaf i b).
Qed.

(** The choice of the child in the loop. *)
Lemma choose_child heap pos :
  Forall D heap → (2 * pos + 1 < length heap)%nat →
  ∃ c x, (if bool_decide (2 * pos + 1 + 1 < length heap)%nat then
            a ← heap_get heap (2 * pos + 1);
            r ← heap_get heap (2 * pos + 1 + 1);
            Ok (if negb (lt a r) then (2 * pos + 1 + 1)%nat else (2 * pos + 1)%nat)
          else Ok (2 * pos + 1)%nat) = Ok c ∧
    (pos < c < length heap)%nat ∧ least_child heap pos c x.
Proof.
  intros HD Hlt. rewrite Forall_lookup in HD.
  destruct (lookup_lt_is_Some_2 heap _ Hlt) as [a Ha].
  assert (parent (2 * pos + 1) = pos) as P1 by (apply parent_child; lia).
  assert (parent (2 * pos + 1 + 1) = pos) as P2 by (apply parent_child; lia).
  pose proof (le_refl a (HD _ _ Ha)) as Raa.
  goal_bool as Hr.
  - destruct (lookup_lt_is_Some_2 heap _ Hr) as [r Hr']. pose proof (le_refl r (HD _ _ Hr')).
    unfold heap_get. rewrite Ha Hr'. cbn [mbind res_bind]. destruct (lt a r) eqn:E; cbn [negb].
    all: eexists _, _; split; [reflexivity|]; split; [lia|]; split_and!; [lia|done|done|].
    all: intros i b Hi Hp Hb; apply parent_child in Hp as [-> | ->]; try lia.
    all: replace (2 * pos + 2)%nat with (2 * pos + 1 + 1)%nat in Hb by lia; simplify_eq; try done.
    by apply swo_asym; eauto.
  - eexists _, a; split; [reflexivity|]. split; [lia|]. split_and!; [lia|done|done|].
    intros i b Hi Hp Hb. apply parent_child in Hp as [-> | ->]; try lia; simplify_eq; [done|].
    apply lookup_lt_Some in Hb. lia.
Qed.

Lemma siftup_loop_spec s x fuel : ∀ heap pos,
  (pos < length heap ≤ fuel + pos)%nat → Forall D heap → hole s pos heap →
  ∃ heap' leaf, siftup_loop lt fuel heap pos = Ok (heap', leaf) ∧
    <[leaf := x]> heap' ≡ₚ <[pos := x]> heap ∧ (leaf < length heap')%nat ∧
    almost s leaf (<[leaf := x]> heap').
Proof.
  induction fuel as [|fuel IH]; intros heap pos Hlen HD HH; [lia|]. cbn [siftup_loop].
  goal_bool as Hlt; last first.
  { eexists _, _; split; [done|]. split; [done|]. split; [lia|]. apply hole_leaf; [lia|done]. }
  destruct (choose_child heap pos HD Hlt) as (c & y & -> & Hc & HL). cbn [mbind res_bind].
  pose proof HL as (_ & _ & Hy & _). unfold heap_get. rewrite Hy. cbn [mbind res_bind].
  destruct (IH (<[pos := y]> heap) c) as (heap' & leaf & E & HP & Hlen' & HA).
  { rewrite length_insert. lia. }
  { apply Forall_insert; [done|]. rewrite Forall_lookup in HD. by eapply HD. }
  { by apply hole_down; [lia|..]. }
  exists heap', leaf. split; [exact E|]. split; [|done]. rewrite HP.
  pose proof (swap_perm (<[pos := x]> heap) c pos y x) as Hsw.
  rewrite list_insert_insert_eq in Hsw. apply Hsw; [lia| |].
  - rewrite list_lookup_insert_ne //. lia.
  - rewrite list_lookup_insert_eq //. lia.
Qed.

Lemma _siftup_spec s heap :
  (s < length heap)%nat → Forall D heap → heap_from (S s) heap →
  ∃ heap', _siftup lt heap s = Ok heap' ∧ heap' ≡ₚ heap ∧ heap_from s heap'.
Proof.
  intros Hlen HD HF. destruct (lookup_lt_is_Some_2 heap s Hlen) as [x Hx].
  destruct (siftup_loop_spec s x (length heap) heap s) as (h1 & leaf & E1 & HP1 & Hl1 & HA);
    [lia|done| |].
  { split; [constructor| |]; [|done]. intros i Hi Hs His Hps. apply HF; [done|lia]. }
  rewrite (list_insert_id heap s x Hx) in HP1.
  destruct (_siftdown_spec s leaf (<[leaf := x]> h1)) as (h2 & E2 & HP2 & HF2);
    [by rewrite length_insert|by rewrite HP1|done|].
  exists h2. unfold _siftup, heap_get. rewrite Hx. cbn [mbind res_bind]. rewrite E1.
  cbn [mbind res_bind]. split; [exact E2|]. split; [by rewrite HP2|done].
Qed.

(** ** The functions of the module *)

Lemma heap_least heap x y : is_heap heap → Forall D heap → heap !! 0%nat = Some x → y ∈ heap → le x y.
Proof.
  intros HF HD Hx Hy. apply list_elem_of_lookup in Hy as [i Hi]. rewrite Forall_lookup in HD.
  revert y Hi. induction (lt_wf i) as [i _ IH]. intros y Hi.
  destruct (decide (i = 0)%nat) as [->|Hi0].
  { simplify_eq. apply le_refl. by eapply HD. }
  pose proof (parent_lt i ltac:(lia)) as Hlt.
  destruct (lookup_lt_is_Some_2 heap (parent i)) as [p Hp].
  { apply lookup_lt_Some in Hi. lia. }
  apply (swo_trans x p y); [by eapply HD..|by apply (IH (parent i))|].
  apply (HF i); [lia|lia|done|done].
Qed.

Lemma heappush_spec heap x :
  is_heap heap → Forall D heap → D x →
  ∃ heap', heappush lt heap x = Ok heap' ∧ heap' ≡ₚ x :: heap ∧ is_heap heap'.
Proof.
  intros HF HD Hx.
  destruct (_siftdown_spec 0 (length heap) (heap ++ [x])) as (h & E & HP & HF').
  - rewrite length_app. cbn. lia.
  - apply Forall_app; split; [done|]. by constructor.
  - split.
    + generalize (length heap). intros n. induction (lt_wf n) as [n _ IH].
      destruct (decide (n = 0)%nat) as [->|]; [constructor|].
      eapply desc_child; [apply IH, parent_lt; lia|lia|done].
    + intros i Hi _ Hne a b Ha Hb. pose proof (parent_lt i Hi) as Hlt.
      assert (i < length heap)%nat as Hil.
      { apply lookup_lt_Some in Hb. rewrite length_app in Hb. cbn in Hb. lia. }
      rewrite !lookup_app_l in Ha, Hb; [|lia..]. apply (HF i); [done|lia|done|done].
    + intros i a b Hi Hp _ _ Hb. apply lookup_lt_Some in Hb. rewrite length_app in Hb. cbn in Hb.
      pose proof (parent_lt i Hi). lia.
  - exists h. split; [exact E|]. split; [|done]. rewrite HP. by rewrite Permutation_app_comm.
Qed.

Lemma heappop_spec heap :
  is_heap heap → Forall D heap → heap ≠ [] →
  ∃ x heap', heappop lt heap = Ok (x, heap') ∧ heap ≡ₚ x :: heap' ∧ is_heap heap' ∧
    heap !! 0%nat = Some x ∧ ∀ y, y ∈ heap → le x y.
Proof.
  intros HF HD Hne. destruct heap as [|z init _] using rev_ind; [done|].
  unfold heappop, py_init. rewrite last_snoc length_app Nat.add_sub take_app_length.
  assert (∀ x, (init ++ [z]) !! 0%nat = Some x → ∀ y, y ∈ init ++ [z] → le x y) as Hmin.
  { intros x Hx y Hy. by apply (heap_least (init ++ [z])). }
  apply Forall_app in HD as [HDi HDz]. rewrite Forall_singleton in HDz.
  destruct init as [|x init].
  { eexists _, _; split; [reflexivity|]. split; [done|]. split; [|by eauto].
    intros i Hi _ a b Ha. by rewrite lookup_nil in Ha. }
  destruct (_siftup_spec 0 (<[0%nat := z]> (x :: init))) as (h & E & HP & HF').
  - cbn. lia.
  - by apply Forall_insert.
  - intros i Hi Hp a b Ha Hb. pose proof (parent_lt i Hi).
    rewrite !list_lookup_insert_ne in Ha, Hb; [|lia..].
    apply (HF i); [done|lia|by apply lookup_app_l_Some..].
  - rewrite E. cbn [mbind res_bind]. eexists _, _; split; [reflexivity|].
    split; [|split; [done|by eauto]]. rewrite HP. cbn. by rewrite Permutation_app_comm.
Qed.

Lemma heapify_loop_spec n : ∀ heap,
  (n ≤ length heap)%nat → Forall D heap → heap_from n heap →
  ∃ heap', heapify_loop lt n heap = Ok heap' ∧ heap' ≡ₚ heap ∧ is_heap heap'.
Proof.
  induction n as [|n IH]; intros heap Hn HD HF; cbn [heapify_loop]; [by eauto|].
  destruct (_siftup_spec n heap) as (h1 & -> & HP1 & HF1); [lia|done|done|]. cbn [mbind res_bind].
  destruct (IH h1) as (h2 & -> & HP2 & HF2); [by rewrite HP1; lia|by rewrite HP1|done|].
  exists h2. split_and!; [done|by rewrite HP2|done].
Qed.

Lemma heapify_spec heap :
  Forall D heap → ∃ heap', heapify lt heap = Ok heap' ∧ heap' ≡ₚ heap ∧ is_heap heap'.
Proof.
  intros HD. pose proof (Nat.div_mod_eq (length heap) 2).
  pose proof (Nat.mod_upper_bound (length heap) 2 ltac:(lia)).
  apply heapify_loop_spec; [lia|done|]. intros i Hi Hp a b _ Hb. apply lookup_lt_Some in Hb.
  pose proof (proj1 (parent_child i (parent i) Hi) eq_refl). lia.
Qed.

(** The items in the order in which they are popped: sorted, and in heap order of
    the remaining ones. *)
Lemma pop_all_spec fuel : ∀ heap,
  (length heap ≤ fuel)%nat → is_heap heap → Forall D heap →
  ∃ xs, pop_all lt fuel heap = Ok xs ∧ xs ≡ₚ heap ∧ StronglySorted le xs.
Proof.
  induction fuel as [|fuel IH]; intros heap Hf HF HD; cbn [pop_all].
  { destruct heap; [|cbn in Hf; lia]. eexists; split; [done|]. split; [done|constructor]. }
  destruct heap as [|h0 heap0]; cbn [is_nil].
  { eexists; split; [done|]. split; [done|constructor]. }
  destruct (heappop_spec (h0 :: heap0) HF HD) as (x & h & -> & HP & HF' & _ & Hmin); [done|].
  cbn [mbind res_bind].
  destruct (IH h) as (xs & -> & HPx & HS); [|done| |].
  { apply Permutation_length in HP. cbn in HP, Hf. lia. }
  { rewrite HP in HD. by apply Forall_cons in HD as [_ ?]. }
  eexists; split; [reflexivity|]. split; [by rewrite HPx|]. constructor; [done|].
  apply Forall_forall. intros y Hy. apply Hmin. rewrite HP. right. by rewrite -HPx.
Qed.
End Order.
