(* ===== verification/RequestQueue.v ===== *)
(** * The request queues

    [src/vllm/v1/core/sched/request_queue.py].  The two queues are deques and heaps
    of references to requests; the interface [RequestQueue] is a class of
    operations and [QueueLaws] what every policy promises: a queue is, for its
    clients, the list its iterator yields.  Both implementations and
    [create_request_queue] satisfy it, so that the scheduler is verified against
    the laws alone. *)

From Corelib Require Import SpecFloat.
From S2P Require Import Prelude PyFloat Request HeapQ.

Inductive SchedulingPolicy : Set := FCFS | PRIORITY.

#[export] Instance SchedulingPolicy_eq_dec : EqDecision SchedulingPolicy.
Proof. solve_decision. Defined.

(** ** The interface *)

(** The abstract methods.  [prepend_requests] and [remove_requests] take the
    sequence that iterating over their argument yields. *)
Class RequestQueue (A Q : Type) := {
  add_request : Q → A → res Q;
  pop_request : Q → res (A * Q);
  peek_request : Q → res A;
  prepend_request : Q → A → res Q;
  prepend_requests : Q → list A → res Q;
  remove_request : Q → A → res Q;
  remove_requests : Q → list A → res Q;
  queue_bool : Q → bool;
  queue_len : Q → Z;
  queue_iter : Q → res (list A)
}.

(** [l.remove(x)] of lists and deques removes the first occurrence. *)
Fixpoint list_remove_first {A} `{EqDecision A} (l : list A) (x : A) : option (list A) :=
  match l with
  | [] => None
  | y :: l => if bool_decide (y = x) then Some l else cons y <$> list_remove_first l x
  end.

Section Queues.
Context {A : Type} `{EqDecision A}.

(** ** [FCFSRequestQueue] *)

Definition fcfs_add_request (q : list A) (r : A) : res (list A) := Ok (q ++ [r]).

Definition fcfs_pop_request (q : list A) : res (A * list A) :=
  match q with [] => Raise IndexError | r :: q => Ok (r, q) end.

Definition fcfs_peek_request (q : list A) : res A :=
  if is_nil q then Raise IndexError else py_nth q 0.

Definition fcfs_prepend_request (q : list A) (r : A) : res (list A) := Ok (r :: q).

(** [extendleft] appends to the left one by one. *)
Definition fcfs_prepend_requests (q requests : list A) : res (list A) :=
  Ok (foldl (λ q r, r :: q) q requests).

Definition fcfs_remove_request (q : list A) (r : A) : res (list A) :=
  match list_remove_first q r with Some q => Ok q | None => Raise ValueError end.

Definition fcfs_remove_requests (q requests : list A) : res (list A) :=
  Ok (filter (λ r, r ∉ requests) q).

(** ** [PriorityRequestQueue] *)

Context (lt : A → A → bool).

Definition prio_add_request (heap : list A) (r : A) : res (list A) := heappush lt heap r.

Definition prio_pop_request (heap : list A) : res (A * list A) :=
  if is_nil heap then Raise IndexError else heappop lt heap.

Definition prio_peek_request (heap : list A) : res A :=
  if is_nil heap then Raise IndexError else py_nth heap 0.

Definition prio_prepend_request (heap : list A) (r : A) : res (list A) := prio_add_request heap r.

Definition prio_prepend_requests (heap requests : list A) : res (list A) :=
  foldM prio_add_request heap requests.

Definition prio_remove_request (heap : list A) (r : A) : res (list A) :=
  match list_remove_first heap r with
  | Some heap => heapify lt heap
  | None => Raise ValueError
  end.

Definition prio_remove_requests (heap requests : list A) : res (list A) :=
  heapify lt (filter (λ r, r ∉ requests) heap).

Definition prio_iter (heap : list A) : res (list A) := pop_all lt (length heap) heap.

(** ** [create_request_queue] *)

(** An object of one of the two classes. *)
Inductive AnyQueue : Type :=
  | FCFSRequestQueue (q : list A)
  | PriorityRequestQueue (heap : list A).

Definition create_request_queue (policy : SchedulingPolicy) : AnyQueue :=
  if bool_decide (policy = PRIORITY) then PriorityRequestQueue [] else FCFSRequestQueue [].

(** A method that updates the queue, and one that reads it. *)
Definition on_queue (fcfs prio : list A → res (list A)) (q : AnyQueue) : res AnyQueue :=
  match q with
  | FCFSRequestQueue q => q ← fcfs q; Ok (FCFSRequestQueue q)
  | PriorityRequestQueue q => q ← prio q; Ok (PriorityRequestQueue q)
  end.

#[export] Instance AnyQueue_queue : RequestQueue A AnyQueue := {|
  add_request q r := on_queue (λ q, fcfs_add_request q r) (λ q, prio_add_request q r) q;
  pop_request q :=
    match q with
    | FCFSRequestQueue q => '(r, q) ← fcfs_pop_request q; Ok (r, FCFSRequestQueue q)
    | PriorityRequestQueue q => '(r, q) ← prio_pop_request q; Ok (r, PriorityRequestQueue q)
    end;
  peek_request q :=
    match q with
    | FCFSRequestQueue q => fcfs_peek_request q
    | PriorityRequestQueue q => prio_peek_request q
    end;
  prepend_request q r :=
    on_queue (λ q, fcfs_prepend_request q r) (λ q, prio_prepend_request q r) q;
  prepend_requests q rs :=
    on_queue (λ q, fcfs_prepend_requests q rs) (λ q, prio_prepend_requests q rs) q;
  remove_request q r := on_queue (λ q, fcfs_remove_request q r) (λ q, prio_remove_request q r) q;
  remove_requests q rs :=
    on_queue (λ q, fcfs_remove_requests q rs) (λ q, prio_remove_requests q rs) q;
  queue_bool q :=
    match q with FCFSRequestQueue q | PriorityRequestQueue q => bool_decide (0 < zlen q) end;
  queue_len q := match q with FCFSRequestQueue q | PriorityRequestQueue q => zlen q end;
  queue_iter q := match q with FCFSRequestQueue q => Ok q | PriorityRequestQueue q => prio_iter q end
|}.
End Queues.
Arguments AnyQueue : clear implicits.

(** ** What a queue promises *)

(** The iteration order is the abstract state.  Where a policy puts what it is given
    is [abs_add], [abs_prepend] and [abs_prepends]. *)
Class QueueLaws (A Q : Type) `{EqDecision A, RequestQueue A Q} (D : A → Prop) := {
  queue_ok : Q → Prop;
  abs_add : Q → list A → A → list A;
  abs_prepend : Q → list A → A → list A;
  abs_prepends : Q → list A → list A → list A;
  law_iter q : queue_ok q → ∃ l, queue_iter q = Ok l ∧ Forall D l;
  law_bool q l : queue_ok q → queue_iter q = Ok l → queue_bool q = negb (is_nil l);
  law_len q l : queue_ok q → queue_iter q = Ok l → queue_len q = zlen l;
  law_peek q l : queue_ok q → queue_iter q = Ok l →
    peek_request q = match l with [] => Raise IndexError | x :: _ => Ok x end;
  law_pop q l : queue_ok q → queue_iter q = Ok l →
    match l with
    | [] => pop_request q = Raise IndexError
    | x :: l => ∃ q', pop_request q = Ok (x, q') ∧ queue_ok q' ∧ queue_iter q' = Ok l
    end;
  law_add q l x : queue_ok q → queue_iter q = Ok l → D x →
    ∃ q', add_request q x = Ok q' ∧ queue_ok q' ∧ queue_iter q' = Ok (abs_add q l x);
  law_prepend q l x : queue_ok q → queue_iter q = Ok l → D x →
    ∃ q', prepend_request q x = Ok q' ∧ queue_ok q' ∧ queue_iter q' = Ok (abs_prepend q l x);
  law_prepends q l xs : queue_ok q → queue_iter q = Ok l → Forall D xs →
    ∃ q', prepend_requests q xs = Ok q' ∧ queue_ok q' ∧ queue_iter q' = Ok (abs_prepends q l xs);
  law_remove q l x : queue_ok q → queue_iter q = Ok l →
    match list_remove_first l x with
    | None => remove_request q x = Raise ValueError
    | Some l => ∃ q', remove_request q x = Ok q' ∧ queue_ok q' ∧ queue_iter q' = Ok l
    end;
  law_removes q l xs : queue_ok q → queue_iter q = Ok l →
    ∃ q', remove_requests q xs = Ok q' ∧ queue_ok q' ∧
      queue_iter q' = Ok (filter (λ x, x ∉ xs) l);
  abs_add_perm q l x : abs_add q l x ≡ₚ x :: l;
  abs_prepend_perm q l x : abs_prepend q l x ≡ₚ x :: l;
  abs_prepends_perm q l xs : abs_prepends q l xs ≡ₚ xs ++ l
}.

(** ** List facts *)

Section ListRemove.
Context {A : Type} `{EqDecision A}.
Implicit Types (l : list A) (x y : A).

Lemma list_remove_first_None l x : list_remove_first l x = None ↔ x ∉ l.
Proof.
  induction l as [|y l IH]; cbn; [set_solver|]. goal_bool as E; [set_solver|].
  rewrite fmap_None IH. set_solver.
Qed.

Lemma list_remove_first_perm l x l' : list_remove_first l x = Some l' → l ≡ₚ x :: l'.
Proof.
  revert l'. induction l as [|y l IH]; intros l'; cbn; [done|]. goal_bool as E.
  - intros [= ->]. by subst.
  - intros (l1 & E1 & ->)%fmap_Some. rewrite (IH l1 E1). apply Permutation_swap.
Qed.

Lemma list_remove_first_sublist l x l' : list_remove_first l x = Some l' → l' `sublist_of` l.
Proof.
  revert l'. induction l as [|y l IH]; intros l'; cbn; [done|]. goal_bool as E.
  - intros [= ->]. by constructor.
  - intros (l1 & E1 & ->)%fmap_Some. constructor. by apply IH.
Qed.

Lemma sublist_Forall (P : A → Prop) l l' : l' `sublist_of` l → Forall P l → Forall P l'.
Proof. induction 1; intros HF; [done| |]; apply Forall_cons in HF as [??]; auto. Qed.

Lemma filter_sublist (P : A → Prop) `{∀ x, Decision (P x)} l : filter P l `sublist_of` l.
Proof. induction l as [|x l IH]; [done|]. rewrite filter_cons. goal_decide; by constructor. Qed.

Lemma StronglySorted_sublist (R : relation A) l l' :
  l' `sublist_of` l → StronglySorted R l → StronglySorted R l'.
Proof.
  induction 1 as [|x l1 l2 Hs IH|x l1 l2 Hs IH]; [done| |]; intros [HS HF]%StronglySorted_inv.
  - constructor; [by apply IH|]. by eapply sublist_Forall.
  - by apply IH.
Qed.

(** Removing one occurrence commutes with permutations. *)
Lemma list_remove_first_cases l1 l2 x :
  l1 ≡ₚ l2 →
  match list_remove_first l1 x, list_remove_first l2 x with
  | Some l1', Some l2' => l1' ≡ₚ l2'
  | None, None => True
  | _, _ => False
  end.
Proof.
  intros HP. destruct (list_remove_first l1 x) as [l1'|] eqn:E1,
    (list_remove_first l2 x) as [l2'|] eqn:E2; [|exfalso..|done].
  - apply list_remove_first_perm in E1, E2. apply (Permutation_cons_inv (a := x)).
    by rewrite -E1 -E2.
  - apply list_remove_first_None in E2. apply E2. rewrite -HP.
    apply list_remove_first_perm in E1. rewrite E1. left.
  - apply list_remove_first_None in E1. apply E1. rewrite HP.
    apply list_remove_first_perm in E2. rewrite E2. left.
Qed.
End ListRemove.

(** ** The queues satisfy the laws *)

(** [lt] also decides equality. *)
Class StrictTotalOrder {A} (D : A → Prop) (lt : A → A → bool) : Prop := {
  sto_swo :: StrictWeakOrder D lt;
  sto_antisym a b : D a → D b → lt a b = false → lt b a = false → a = b
}.

Section Laws.
Context {A : Type} `{EqDecision A} {D : A → Prop} {lt : A → A → bool} `{!StrictTotalOrder D lt}.
Implicit Types (x y : A) (l heap q : list A).

(** Insertion into a sorted list. *)
Fixpoint sorted_insert l (x : A) : list A :=
  match l with
  | [] => [x]
  | y :: l => if lt y x then y :: sorted_insert l x else x :: y :: l
  end.

Lemma sorted_insert_perm l x : sorted_insert l x ≡ₚ x :: l.
Proof.
  induction l as [|y l IH]; cbn; [done|]. destruct (lt y x); [|done].
  rewrite IH. apply Permutation_swap.
Qed.

#[local] Abbreviation sorted := (StronglySorted (le (lt := lt))).

Lemma sorted_insert_sorted l x : Forall D l → D x → sorted l → sorted (sorted_insert l x).
Proof.
  intros HD Hx HS. induction HS as [|y l HS IH HF]; cbn; [by repeat constructor|].
  apply Forall_cons in HD as [Hy HD]. destruct (lt y x) eqn:E.
  - constructor; [by apply IH|]. rewrite sorted_insert_perm. constructor; [|done].
    by apply swo_asym.
  - constructor; [by constructor|]. constructor; [done|].
    rewrite !Forall_forall in HF, HD |- *. intros z Hz. apply (swo_trans x y z); auto.
    by apply HF.
Qed.

Lemma sorted_unique l1 l2 : Forall D l1 → sorted l1 → sorted l2 → l1 ≡ₚ l2 → l1 = l2.
Proof.
  intros HD H1 H2 HP. apply (StronglySorted_unique_strong (le (lt := lt))); [|done..].
  rewrite Forall_forall in HD. intros a b Ha Hb Hab Hba.
  apply sto_antisym; [by apply HD|apply HD; by rewrite HP|done|done].
Qed.

Definition prio_ok heap : Prop := is_heap (lt := lt) heap ∧ Forall D heap.

(** What iterating over a heap yields. *)
Lemma prio_iter_spec heap :
  prio_ok heap → ∃ l, prio_iter lt heap = Ok l ∧ l ≡ₚ heap ∧ sorted l ∧ Forall D l.
Proof.
  intros [HF HD]. destruct (pop_all_spec (D := D) (length heap) heap) as (l & E & HP & HS); [done..|].
  exists l. split_and!; [done..|by rewrite HP].
Qed.

(** The order of iteration only depends on what the heap holds. *)
Lemma prio_iter_unique heap l : prio_ok heap → l ≡ₚ heap → sorted l → prio_iter lt heap = Ok l.
Proof.
  intros Hok HP HS. destruct (prio_iter_spec heap Hok) as (l' & E & HP' & HS' & HD').
  rewrite E. f_equal. apply sorted_unique; [done..|]. by rewrite HP' HP.
Qed.

Lemma prio_iter_inv heap l : prio_ok heap → prio_iter lt heap = Ok l → l ≡ₚ heap ∧ sorted l ∧ Forall D l.
Proof.
  intros Hok E. destruct (prio_iter_spec heap Hok) as (l' & E' & ?). rewrite E in E'. by simplify_eq.
Qed.

Lemma prio_add_spec heap l x :
  prio_ok heap → prio_iter lt heap = Ok l → D x →
  ∃ h, prio_add_request lt heap x = Ok h ∧ prio_ok h ∧ prio_iter lt h = Ok (sorted_insert l x).
Proof.
  intros Hok E Hx. destruct (prio_iter_inv heap l Hok E) as (HP & HS & HD).
  destruct Hok as [HF HDh].
  destruct (heappush_spec (D := D) heap x HF HDh Hx) as (h & E' & HP' & HF').
  assert (prio_ok h) as Hok' by (split; [done|]; rewrite HP'; by constructor).
  exists h. split_and!; [done|done|]. apply prio_iter_unique; [done| |by apply sorted_insert_sorted].
  by rewrite sorted_insert_perm HP' HP.
Qed.

Lemma prio_adds_spec xs : ∀ heap l,
  prio_ok heap → prio_iter lt heap = Ok l → Forall D xs →
  ∃ h, prio_prepend_requests lt heap xs = Ok h ∧ prio_ok h ∧
    prio_iter lt h = Ok (foldl sorted_insert l xs).
Proof.
  induction xs as [|x xs IH]; intros heap l Hok E HD; [by eauto|].
  apply Forall_cons in HD as [Hx HD].
  destruct (prio_add_spec heap l x Hok E Hx) as (h1 & E1 & Hok1 & Ei1).
  destruct (IH h1 _ Hok1 Ei1 HD) as (h2 & E2 & Hok2 & Ei2).
  exists h2. unfold prio_prepend_requests. cbn [foldM]. rewrite E1. by split_and!.
Qed.

Lemma prio_pop_spec heap l :
  prio_ok heap → prio_iter lt heap = Ok l →
  match l with
  | [] => prio_pop_request lt heap = Raise IndexError ∧ prio_peek_request heap = Raise IndexError
  | x :: l => prio_peek_request heap = Ok x ∧
      ∃ h, prio_pop_request lt heap = Ok (x, h) ∧ prio_ok h ∧ prio_iter lt h = Ok l
  end.
Proof.
  intros Hok E. destruct (prio_iter_inv heap l Hok E) as (HP & HS & HD). destruct Hok as [HF HDh].
  destruct heap as [|h0 hs]; [apply Permutation_nil_r in HP as ->; done|].
  destruct (heappop_spec (D := D) _ HF HDh) as (x & h & E' & HP' & HF' & H0 & Hmin); [done|].
  assert (Forall D h) as HD' by (rewrite HP' in HDh; by apply Forall_cons in HDh as [_ ?]).
  assert (prio_ok h) as Hok' by done.
  destruct (prio_iter_spec h Hok') as (l' & Ei & HPi & HSi & HDi).
  assert (l = x :: l') as ->.
  { apply sorted_unique; [done..| |by rewrite HP HP' HPi].
    constructor; [done|]. apply Forall_forall. intros y Hy. apply Hmin. rewrite HP'. right. by rewrite -HPi. }
  split; [by apply py_nth_ok|]. exists h. by split_and!.
Qed.

Lemma prio_heapify_spec heap l :
  Forall D heap → l ≡ₚ heap → sorted l →
  ∃ h, heapify lt heap = Ok h ∧ prio_ok h ∧ prio_iter lt h = Ok l.
Proof.
  intros HD HP HS. destruct (heapify_spec (D := D) heap HD) as (h & E & HP' & HF').
  assert (prio_ok h) as Hok by (split; [done|]; by rewrite HP').
  exists h. split_and!; [done|done|]. apply prio_iter_unique; [done| |done]. by rewrite HP'.
Qed.

Lemma prio_remove_spec heap l x :
  prio_ok heap → prio_iter lt heap = Ok l →
  match list_remove_first l x with
  | None => prio_remove_request lt heap x = Raise ValueError
  | Some l => ∃ h, prio_remove_request lt heap x = Ok h ∧ prio_ok h ∧ prio_iter lt h = Ok l
  end.
Proof.
  intros Hok E. destruct (prio_iter_inv heap l Hok E) as (HP & HS & HD). destruct Hok as [HF HDh].
  pose proof (list_remove_first_cases l heap x HP) as Hc. unfold prio_remove_request.
  destruct (list_remove_first l x) as [l'|] eqn:E1, (list_remove_first heap x) as [h'|] eqn:E2; try done.
  apply prio_heapify_spec; [|done|].
  - apply list_remove_first_perm in E2. rewrite E2 in HDh. by apply Forall_cons in HDh as [_ ?].
  - apply list_remove_first_sublist in E1. by eapply StronglySorted_sublist.
Qed.

Lemma prio_removes_spec heap l xs :
  prio_ok heap → prio_iter lt heap = Ok l →
  ∃ h, prio_remove_requests lt heap xs = Ok h ∧ prio_ok h ∧
    prio_iter lt h = Ok (filter (λ x, x ∉ xs) l).
Proof.
  intros Hok E. destruct (prio_iter_inv heap l Hok E) as (HP & HS & HD). destruct Hok as [HF HDh].
  apply prio_heapify_spec; [by eapply sublist_Forall; [apply filter_sublist|]|by rewrite HP|].
  eapply StronglySorted_sublist; [|done]. apply filter_sublist.
Qed.
End Laws.

(** ** [AnyQueue] satisfies the laws *)

Section AnyQueueLaws.
Context {A : Type} `{EqDecision A} {D : A → Prop} {lt : A → A → bool} `{!StrictTotalOrder D lt}.
#[local] Existing Instance AnyQueue_queue.
#[local] Obligation Tactic := idtac.

Definition any_ok (q : AnyQueue A) : Prop :=
  match q with
  | FCFSRequestQueue q => Forall D q
  | PriorityRequestQueue heap => prio_ok (D := D) (lt := lt) heap
  end.

Lemma extendleft_reverse (xs l : list A) : foldl (λ q r, r :: q) l xs = reverse xs ++ l.
Proof.
  revert l. induction xs as [|x xs IH]; intros l; [done|]. cbn [foldl]. by rewrite IH reverse_cons -app_assoc.
Qed.

Lemma foldl_sorted_insert_perm xs : ∀ l, foldl (sorted_insert (lt := lt)) l xs ≡ₚ xs ++ l.
Proof.
  induction xs as [|x xs IH]; intros l; [done|]. cbn. rewrite IH sorted_insert_perm.
  by rewrite Permutation_middle.
Qed.

(** A deque is extended at its ends; a heap is kept sorted. *)
Definition any_add (q : AnyQueue A) (l : list A) (x : A) : list A :=
  match q with
  | FCFSRequestQueue _ => l ++ [x]
  | PriorityRequestQueue _ => sorted_insert (lt := lt) l x
  end.
Definition any_prepend (q : AnyQueue A) (l : list A) (x : A) : list A :=
  match q with
  | FCFSRequestQueue _ => x :: l
  | PriorityRequestQueue _ => sorted_insert (lt := lt) l x
  end.
Definition any_prepends (q : AnyQueue A) (l xs : list A) : list A :=
  match q with
  | FCFSRequestQueue _ => reverse xs ++ l
  | PriorityRequestQueue _ => foldl (sorted_insert (lt := lt)) l xs
  end.

#[export] Program Instance AnyQueue_laws : @QueueLaws A (AnyQueue A) _ (AnyQueue_queue lt) D := {|
  queue_ok := any_ok; abs_add := any_add; abs_prepend := any_prepend; abs_prepends := any_prepends
|}.
Next Obligation.
  intros [q|q] Hok; cbn in *; [by eauto|].
  destruct (prio_iter_spec q Hok) as (l & E & ? & ? & ?). by eauto.
Qed.
Next Obligation.
  intros [q|q] l Hok E; cbn in *; [simplify_eq|apply prio_iter_inv in E as [HP _]; [|done]].
  - by destruct l.
  - apply Permutation_length in HP. by destruct l, q.
Qed.
Next Obligation.
  intros [q|q] l Hok E; cbn in *; [by simplify_eq|]. apply prio_iter_inv in E as [HP _]; [|done].
  unfold zlen. by rewrite HP.
Qed.
Next Obligation.
  intros [q|q] l Hok E; cbn in *; [by simplify_eq; destruct l|].
  pose proof (prio_pop_spec q l Hok E) as H. destruct l; by destruct H.
Qed.
Next Obligation.
  intros [q|q] l Hok E; cbn in *.
  - simplify_eq. destruct l; [done|]. apply Forall_cons in Hok as [_ Hok]. eauto.
  - pose proof (prio_pop_spec q l Hok E) as H. destruct l as [|x l]; [by destruct H as [-> _]|].
    destruct H as (_ & h & -> & ? & ?). eexists; split; [reflexivity|]. done.
Qed.
Next Obligation.
  intros [q|q] l x Hok E Hx; cbn in *.
  - simplify_eq. eexists; split; [reflexivity|]. split; [|done]. apply Forall_app. by repeat constructor.
  - destruct (prio_add_spec q l x Hok E Hx) as (h & -> & ? & ?). eexists; split; [reflexivity|]. done.
Qed.
Next Obligation.
  intros [q|q] l x Hok E Hx; cbn in *.
  - simplify_eq. eexists; split; [reflexivity|]. split; [|done]. by constructor.
  - destruct (prio_add_spec q l x Hok E Hx) as (h & E' & ? & ?). unfold prio_prepend_request.
    rewrite E'. eexists; split; [reflexivity|]. done.
Qed.
Next Obligation.
  intros [q|q] l xs Hok E Hx; cbn in *.
  - simplify_eq. unfold fcfs_prepend_requests. rewrite extendleft_reverse.
    eexists; split; [reflexivity|]. split; [|done]. cbn. apply Forall_app. by rewrite Forall_reverse.
  - destruct (prio_adds_spec xs q l Hok E Hx) as (h & -> & ? & ?). eexists; split; [reflexivity|]. done.
Qed.
Next Obligation.
  intros [q|q] l x Hok E; cbn in *.
  - simplify_eq. unfold fcfs_remove_request. destruct (list_remove_first l x) as [l'|] eqn:El; [|done].
    eexists; split; [reflexivity|]. split; [|done]. cbn.
    apply list_remove_first_sublist in El. by eapply sublist_Forall.
  - pose proof (prio_remove_spec q l x Hok E) as H. destruct (list_remove_first l x); [|by rewrite H].
    destruct H as (h & -> & ? & ?). eexists; split; [reflexivity|]. done.
Qed.
Next Obligation.
  intros [q|q] l xs Hok E.
  - cbn in *. simplify_eq. eexists; split; [reflexivity|]. split; [|done].
    by eapply sublist_Forall; [apply filter_sublist|].
  - destruct (prio_removes_spec q l xs Hok E) as (h & E' & ? & ?).
    exists (PriorityRequestQueue h). split; [|done].
    unfold remove_requests, AnyQueue_queue, on_queue. by rewrite E'.
Qed.
Next Obligation.
  intros [q|q] l x; cbn [any_add]; [by rewrite Permutation_app_comm|apply sorted_insert_perm].
Qed.
Next Obligation. intros [q|q] l x; [done|apply sorted_insert_perm]. Qed.
Next Obligation.
  intros [q|q] l xs; cbn [any_prepends]; [by rewrite reverse_Permutation|apply foldl_sorted_insert_perm].
Qed.
End AnyQueueLaws.

(** ** The order of requests *)

(** Lexicographic composition, as [Request.__lt__] is written. *)
Lemma lex_swo {A} (D : A → Prop) (eq1 lt1 lt2 : A → A → bool) :
  StrictWeakOrder D lt1 → StrictWeakOrder D lt2 →
  (∀ a b, D a → D b → eq1 a b = true ↔ lt1 a b = false ∧ lt1 b a = false) →
  StrictWeakOrder D (λ a b, if negb (eq1 a b) then lt1 a b else lt2 a b).
Proof.
  intros O1 O2 Heq.
  assert (∀ a b, D a → D b → eq1 a b = eq1 b a) as Hsym.
  { intros a b Ha Hb. apply eq_true_iff_eq. rewrite (Heq a b) // (Heq b a) //. tauto. }
  split.
  - intros a b Ha Hb. rewrite (Hsym b a) //. destruct (eq1 a b); cbn; by apply swo_asym.
  - intros a b c Ha Hb Hc. pose proof (Heq b a Hb Ha) as Eba. pose proof (Heq c b Hc Hb) as Ecb.
    pose proof (Heq c a Hc Ha) as Eca.
    destruct (eq1 b a), (eq1 c b); cbn; intros H1 H2.
    + assert (eq1 c a = true) as ->; [|by eapply (swo_trans (lt := lt2) a b c)].
      apply Eca. split; [apply (swo_trans a b c)|apply (swo_trans c b a)]; naive_solver.
    + assert (lt1 c a = false) by (apply (swo_trans a b c); naive_solver).
      destruct (eq1 c a); cbn; [|done]. exfalso.
      assert (lt1 b c = false) by (apply (swo_trans c a b); naive_solver). naive_solver.
    + assert (lt1 c a = false) by (apply (swo_trans a b c); naive_solver).
      destruct (eq1 c a); cbn; [|done]. exfalso.
      assert (lt1 a b = false) by (apply (swo_trans b c a); naive_solver). naive_solver.
    + assert (lt1 c a = false) by (apply (swo_trans a b c); naive_solver).
      destruct (eq1 c a); cbn; [|done]. exfalso.
      assert (lt1 b c = false) by (apply (swo_trans c a b); naive_solver). naive_solver.
Qed.

Lemma lex_false (e1 e2 a1 a2 b1 b2 : bool) :
  (if negb e1 then a1 else b1) = false → (if negb e2 then a2 else b2) = false →
  (e1 = true ↔ a1 = false ∧ a2 = false) → (e2 = true ↔ a2 = false ∧ a1 = false) →
  e1 = true ∧ b1 = false ∧ b2 = false.
Proof. destruct e1, e2, a1, a2, b1, b2; cbn; intuition congruence. Qed.

(** Floats other than NaN are ordered by sign, exponent and mantissa. *)
Definition fkey (x : float64) : Z * Z * Z :=
  match x with
  | S754_zero _ | S754_nan => (0, 0, 0)
  | S754_infinity s => (if s then -2 else 2, 0, 0)
  | S754_finite s m e => if s then (-1, - e, - Z.pos m) else (1, e, Z.pos m)
  end.

Definition key_lt (a b : Z * Z * Z) : Prop :=
  a.1.1 < b.1.1 ∨ (a.1.1 = b.1.1 ∧ (a.1.2 < b.1.2 ∨ (a.1.2 = b.1.2 ∧ a.2 < b.2))).

Lemma fcompare_key x y :
  x ≠ S754_nan → y ≠ S754_nan →
  match SFcompare x y with
  | Some Lt => key_lt (fkey x) (fkey y)
  | Some Eq => fkey x = fkey y
  | Some Gt => key_lt (fkey y) (fkey x)
  | None => False
  end.
Proof.
  intros Hx Hy. destruct x as [s1|s1| |s1 m1 e1], y as [s2|s2| |s2 m2 e2]; try done; cbn;
    destruct s1, s2; cbn; unfold key_lt; cbn; try lia; try done.
  all: change (Pos.compare_cont Eq m1 m2) with (m1 ?= m2)%positive.
  all: destruct (Z.compare_spec e1 e2); [|lia..].
  all: destruct (Pos.compare_spec m1 m2); cbn; subst; try done; lia.
Qed.

Lemma fltb_key x y : x ≠ S754_nan → y ≠ S754_nan → fltb x y = true ↔ key_lt (fkey x) (fkey y).
Proof.
  intros Hx Hy. pose proof (fcompare_key x y Hx Hy) as H. unfold fltb, SFltb.
  destruct (SFcompare x y) as [[]|]; unfold key_lt in *; [rewrite H| | |done]; split; try done; lia.
Qed.

Lemma feqb_key x y : x ≠ S754_nan → y ≠ S754_nan → feqb x y = true ↔ fkey x = fkey y.
Proof.
  intros Hx Hy. pose proof (fcompare_key x y Hx Hy) as H. unfold feqb, SFeqb.
  destruct (SFcompare x y) as [[]|]; unfold key_lt in *; [done| | |done];
    (split; [done|]); intros E; rewrite E in H; lia.
Qed.

Lemma string_ltb_asym s t : string_ltb s t = true → string_ltb t s = false.
Proof.
  revert t. induction s as [|a s IH]; intros [|b t]; cbn; try done.
  destruct (N.ltb_spec (Ascii.N_of_ascii a) (Ascii.N_of_ascii b)),
    (N.ltb_spec (Ascii.N_of_ascii b) (Ascii.N_of_ascii a)); try done; try lia. apply IH.
Qed.

Lemma string_ltb_trans s t u :
  string_ltb t s = false → string_ltb u t = false → string_ltb u s = false.
Proof.
  revert s u. induction t as [|b t IH]; intros [|a s] [|c u]; cbn; try done.
  destruct (N.ltb_spec (Ascii.N_of_ascii b) (Ascii.N_of_ascii a)),
    (N.ltb_spec (Ascii.N_of_ascii a) (Ascii.N_of_ascii b)),
    (N.ltb_spec (Ascii.N_of_ascii c) (Ascii.N_of_ascii b)),
    (N.ltb_spec (Ascii.N_of_ascii b) (Ascii.N_of_ascii c)),
    (N.ltb_spec (Ascii.N_of_ascii c) (Ascii.N_of_ascii a)),
    (N.ltb_spec (Ascii.N_of_ascii a) (Ascii.N_of_ascii c)); try done; try lia. apply IH.
Qed.

Lemma string_ltb_antisym s t : string_ltb s t = false → string_ltb t s = false → s = t.
Proof.
  revert t. induction s as [|a s IH]; intros [|b t]; cbn; try done.
  destruct (N.ltb_spec (Ascii.N_of_ascii a) (Ascii.N_of_ascii b)),
    (N.ltb_spec (Ascii.N_of_ascii b) (Ascii.N_of_ascii a)); try done; try lia.
  intros H1 H2. f_equal; [|by apply IH].
  rewrite -(Ascii.ascii_N_embedding a) -(Ascii.ascii_N_embedding b). f_equal. lia.
Qed.

Lemma string_eq s t :
  bool_decide (s = t) = true ↔ string_ltb s t = false ∧ string_ltb t s = false.
Proof.
  rewrite bool_decide_eq_true. split; [|intros [??]; by apply string_ltb_antisym].
  intros ->. destruct (string_ltb t t) eqn:E; [|done]. pose proof (string_ltb_asym _ _ E). congruence.
Qed.

(** The queues hold references of type [A]: [obj] is the object referred to and [addr]
    its address.  Among the references that satisfy [P], equal request ids and equal
    addresses mean the same object. *)
Section RequestOrder.
Context {A : Type} (addr : A → Z) (obj : A → Request) (P : A → Prop).

Definition ref_ltb (i j : A) : bool := request_ltb (addr i) (obj i) (addr j) (obj j).

(** An arrival time that is not NaN. *)
Definition arrived (i : A) : Prop := P i ∧ arrival_time (obj i) ≠ S754_nan.

Lemma priority_swo :
  StrictWeakOrder arrived (λ i j, bool_decide (priority (obj i) < priority (obj j))).
Proof. split; intros *; rewrite ?bool_decide_eq_true ?bool_decide_eq_false; lia. Qed.

Lemma arrival_swo :
  StrictWeakOrder arrived (λ i j, fltb (arrival_time (obj i)) (arrival_time (obj j))).
Proof.
  split.
  - intros a b [_ Ha] [_ Hb]. rewrite fltb_key // -not_true_iff_false fltb_key //. unfold key_lt. lia.
  - intros a b c [_ Ha] [_ Hb] [_ Hc]. rewrite -!not_true_iff_false !fltb_key //. unfold key_lt. lia.
Qed.

Lemma id_swo : StrictWeakOrder arrived (λ i j, string_ltb (request_id (obj i)) (request_id (obj j))).
Proof.
  split; [intros a b _ _; apply string_ltb_asym|intros a b c _ _ _; apply string_ltb_trans].
Qed.

Lemma address_swo : StrictWeakOrder arrived (λ i j, bool_decide (addr i < addr j)).
Proof. split; intros *; rewrite ?bool_decide_eq_true ?bool_decide_eq_false; lia. Qed.

(** [ref_ltb] as a lexicographic composition. *)
Lemma ref_ltb_lex i j :
  ref_ltb i j =
    if negb (bool_decide (priority (obj i) = priority (obj j)))
    then bool_decide (priority (obj i) < priority (obj j))
    else if negb (feqb (arrival_time (obj i)) (arrival_time (obj j)))
    then fltb (arrival_time (obj i)) (arrival_time (obj j))
    else if negb (bool_decide (request_id (obj i) = request_id (obj j)))
    then string_ltb (request_id (obj i)) (request_id (obj j))
    else bool_decide (addr i < addr j).
Proof. unfold ref_ltb, request_ltb. by rewrite !bool_decide_not. Qed.

Lemma arrival_eq a b : arrived a → arrived b →
  feqb (arrival_time (obj a)) (arrival_time (obj b)) = true ↔
  fltb (arrival_time (obj a)) (arrival_time (obj b)) = false ∧
  fltb (arrival_time (obj b)) (arrival_time (obj a)) = false.
Proof.
  intros [_ Ha] [_ Hb]. rewrite feqb_key // -!not_true_iff_false !fltb_key //. unfold key_lt.
  destruct (fkey (arrival_time (obj a))) as [[??]?], (fkey (arrival_time (obj b))) as [[??]?]. cbn.
  split; [intros [= -> -> ->]; lia|]. intros ?. repeat f_equal; lia.
Qed.

Lemma ref_ltb_order :
  (∀ a b, P a → P b → request_id (obj a) = request_id (obj b) → addr a = addr b → a = b) →
  StrictTotalOrder arrived ref_ltb.
Proof.
  intros Hdist. split.
  - assert (StrictWeakOrder arrived (λ i j,
      if negb (bool_decide (priority (obj i) = priority (obj j)))
      then bool_decide (priority (obj i) < priority (obj j))
      else if negb (feqb (arrival_time (obj i)) (arrival_time (obj j)))
      then fltb (arrival_time (obj i)) (arrival_time (obj j))
      else if negb (bool_decide (request_id (obj i) = request_id (obj j)))
      then string_ltb (request_id (obj i)) (request_id (obj j))
      else bool_decide (addr i < addr j))) as [H1 H2].
    { apply (lex_swo _ (λ i j, bool_decide (priority (obj i) = priority (obj j)))); [apply priority_swo| |].
      { apply (lex_swo _ (λ i j, feqb (arrival_time (obj i)) (arrival_time (obj j))));
          [apply arrival_swo| |apply arrival_eq].
        apply (lex_swo _ (λ i j, bool_decide (request_id (obj i) = request_id (obj j))));
          [apply id_swo|apply address_swo|].
        intros a b _ _. apply string_eq. }
      intros a b _ _. rewrite bool_decide_eq_true !bool_decide_eq_false. lia. }
    split; intros *; rewrite !ref_ltb_lex; [apply H1|apply H2].
  - intros a b Ha Hb. rewrite !ref_ltb_lex. intros H1 H2.
    destruct (lex_false _ _ _ _ _ _ H1 H2) as (_ & H3 & H4);
      [rewrite bool_decide_eq_true !bool_decide_eq_false; lia..|].
    destruct (lex_false _ _ _ _ _ _ H3 H4) as (_ & H5 & H6); [by apply arrival_eq..|].
    destruct (lex_false _ _ _ _ _ _ H5 H6) as (Hid & H7 & H8); [by apply string_eq..|].
    rewrite bool_decide_eq_true in Hid. rewrite bool_decide_eq_false in H7.
    rewrite bool_decide_eq_false in H8. apply Hdist; [apply Ha|apply Hb|done|lia].
Qed.
End RequestOrder.

(** References that are addresses. *)
#[export] Instance address_order (obj : Z → Request) :
  StrictTotalOrder (arrived obj (λ _, True)) (ref_ltb id obj).
Proof. by apply ref_ltb_order. Qed.

(** References by request id, to objects stored under their id. *)
Definition keyed (obj : string → Request) (k : string) : Prop := request_id (obj k) = k.

#[export] Instance id_order (obj : string → Request) :
  StrictTotalOrder (arrived obj (keyed obj)) (ref_ltb (λ _, 0) obj).
Proof. apply ref_ltb_order. unfold keyed. congruence. Qed.

(** ** Histories of a queue *)

Inductive queue_op (A : Type) : Type :=
  | QAdd (x : A)
  | QPrepend (x : A)
  | QPrepends (xs : list A)
  | QRemove (x : A)
  | QRemoves (xs : list A)
  | QPop.
Arguments QAdd {_} _. Arguments QPrepend {_} _. Arguments QPrepends {_} _.
Arguments QRemove {_} _. Arguments QRemoves {_} _. Arguments QPop {_}.

(** The requests an operation puts into the queue. *)
Definition op_added {A} (op : queue_op A) : list A :=
  match op with QAdd x | QPrepend x => [x] | QPrepends xs => xs | _ => [] end.

(** One operation, and a history of operations; the second result is what was popped. *)
Definition run_queue_op {A Q} `{RequestQueue A Q} (q : Q) (op : queue_op A) : res (Q * list A) :=
  match op with
  | QAdd x => q ← add_request q x; Ok (q, [])
  | QPrepend x => q ← prepend_request q x; Ok (q, [])
  | QPrepends xs => q ← prepend_requests q xs; Ok (q, [])
  | QRemove x => q ← remove_request q x; Ok (q, [])
  | QRemoves xs => q ← remove_requests q xs; Ok (q, [])
  | QPop => '(x, q) ← pop_request q; Ok (q, [x])
  end.

Fixpoint run_queue {A Q} `{RequestQueue A Q} (q : Q) (ops : list (queue_op A)) : res (Q * list A) :=
  match ops with
  | [] => Ok (q, [])
  | op :: ops =>
      '(q, out) ← run_queue_op q op;
      '(q, out') ← run_queue q ops;
      Ok (q, out ++ out')
  end.

(** The same on the abstract list: [ins] is where the policy puts one request,
    [front] where it puts one that is prepended. *)
Definition abs_queue_op {A} `{EqDecision A} (ins front : list A → A → list A)
    (l : list A) (op : queue_op A) : res (list A * list A) :=
  match op with
  | QAdd x => Ok (ins l x, [])
  | QPrepend x => Ok (front l x, [])
  | QPrepends xs => Ok (foldl front l xs, [])
  | QRemove x =>
      match list_remove_first l x with Some l => Ok (l, []) | None => Raise ValueError end
  | QRemoves xs => Ok (filter (λ x, x ∉ xs) l, [])
  | QPop => match l with [] => Raise IndexError | x :: l => Ok (l, [x]) end
  end.

Fixpoint abs_queue {A} `{EqDecision A} (ins front : list A → A → list A)
    (l : list A) (ops : list (queue_op A)) : res (list A * list A) :=
  match ops with
  | [] => Ok (l, [])
  | op :: ops =>
      '(l, out) ← abs_queue_op ins front l op;
      '(l, out') ← abs_queue ins front l ops;
      Ok (l, out ++ out')
  end.

Section Histories.
Context {A : Type} `{EqDecision A} {D : A → Prop} {lt : A → A → bool} `{!StrictTotalOrder D lt}.
#[local] Existing Instance AnyQueue_queue | 0.

Definition policy_of (q : AnyQueue A) : SchedulingPolicy :=
  match q with FCFSRequestQueue _ => FCFS | PriorityRequestQueue _ => PRIORITY end.

(** FCFS adds at the end and prepends at the front; PRIORITY always inserts in order. *)
Definition policy_add (p : SchedulingPolicy) (l : list A) (x : A) : list A :=
  match p with FCFS => l ++ [x] | PRIORITY => sorted_insert (lt := lt) l x end.
Definition policy_prepend (p : SchedulingPolicy) (l : list A) (x : A) : list A :=
  match p with FCFS => x :: l | PRIORITY => sorted_insert (lt := lt) l x end.

(** The queue [q] refines the list [l]. *)
Definition refines (p : SchedulingPolicy) (q : AnyQueue A) (l : list A) : Prop :=
  policy_of q = p ∧ any_ok (D := D) (lt := lt) q ∧ @queue_iter _ _ (AnyQueue_queue lt) q = Ok l.

(** The two runs end alike. *)
Definition agree (p : SchedulingPolicy) (c : res (AnyQueue A * list A)) (a : res (list A * list A)) : Prop :=
  match c, a with
  | Ok (q, out), Ok (l, out') => refines p q l ∧ out = out'
  | Raise e, Raise e' => e = e'
  | _, _ => False
  end.

#[local] Abbreviation cops := (AnyQueue_queue lt).
#[local] Abbreviation laws := (AnyQueue_laws (D := D) (lt := lt)).

Lemma refines_update p (q : AnyQueue A) (l' : list A) (m : res (AnyQueue A)) :
  policy_of q = p →
  (∃ q', m = Ok q' ∧ any_ok (D := D) (lt := lt) q' ∧ @queue_iter _ _ cops q' = Ok l') →
  (∀ q', m = Ok q' → policy_of q' = policy_of q) →
  agree p (q ← m; Ok (q, [])) (Ok (l', [])).
Proof.
  intros Hp (q' & -> & Hok & E) Hpol. split; [|done]. split; [|done]. rewrite -Hp. by apply Hpol.
Qed.

Lemma on_queue_policy f g (q q' : AnyQueue A) : on_queue f g q = Ok q' → policy_of q' = policy_of q.
Proof.
  destruct q as [q|q]; cbn; [destruct (f q)|destruct (g q)]; cbn; try done; by intros [= <-].
Qed.

Lemma run_op_refines p q l op :
  refines p q l → Forall D (op_added op) →
  agree p (@run_queue_op _ _ cops q op) (abs_queue_op (policy_add p) (policy_prepend p) l op).
Proof.
  intros (Hp & Hok & E) HD. destruct op as [x|x|xs|x|xs|]; cbn [run_queue_op abs_queue_op].
  - rewrite Forall_singleton in HD.
    eapply refines_update; [done| |intros q'; apply on_queue_policy].
    destruct (@law_add _ _ _ _ _ laws q l x Hok E HD) as (q' & ? & ? & E'). exists q'. split_and!; [done..|].
    rewrite E'. subst p. by destruct q.
  - rewrite Forall_singleton in HD.
    eapply refines_update; [done| |intros q'; apply on_queue_policy].
    destruct (@law_prepend _ _ _ _ _ laws q l x Hok E HD) as (q' & ? & ? & E'). exists q'. split_and!; [done..|].
    rewrite E'. subst p. by destruct q.
  - eapply refines_update; [done| |intros q'; apply on_queue_policy].
    destruct (@law_prepends _ _ _ _ _ laws q l xs Hok E HD) as (q' & ? & ? & E'). exists q'. split_and!; [done..|].
    rewrite E'. subst p. destruct q; [|done]. cbn [policy_of]. f_equal. symmetry.
    apply extendleft_reverse.
  - pose proof (@law_remove _ _ _ _ _ laws q l x Hok E) as H. destruct (list_remove_first l x) as [l'|].
    + eapply refines_update; [done|done|intros q'; apply on_queue_policy].
    + cbv [mbind res_bind]. by rewrite H.
  - eapply refines_update; [done| |intros q'; apply on_queue_policy]. by apply (@law_removes _ _ _ _ _ laws).
  - pose proof (@law_pop _ _ _ _ _ laws q l Hok E) as H. destruct l as [|x l]; [by rewrite H|].
    destruct H as (q' & Eq & Hok' & E'). rewrite Eq. cbn. split; [|done]. split; [|done].
    rewrite -Hp. destruct q as [q|q]; cbn in Eq.
    + destruct q; cbn in Eq; [done|]. by injection Eq as <- <-.
    + destruct (prio_pop_request lt q) as [[??]|]; [|done]. by injection Eq as <- <-.
Qed.

Lemma run_queue_refines p ops : ∀ q l,
  refines p q l → Forall (λ op, Forall D (op_added op)) ops →
  agree p (@run_queue _ _ cops q ops) (abs_queue (policy_add p) (policy_prepend p) l ops).
Proof.
  induction ops as [|op ops IH]; intros q l HR HD; [done|].
  apply Forall_cons in HD as [H1 HD]. pose proof (run_op_refines p q l op HR H1) as Hop.
  cbn [run_queue abs_queue].
  destruct (@run_queue_op _ _ cops q op) as [[q1 o1]|], (abs_queue_op _ _ l op) as [[l1 o1']|]; try done.
  destruct Hop as [HR1 <-]. cbn [mbind res_bind]. pose proof (IH q1 l1 HR1 HD) as Hrest.
  destruct (@run_queue _ _ cops q1 ops) as [[q2 o2]|], (abs_queue _ _ l1 ops) as [[l2 o2']|]; try done.
  by destruct Hrest as [HR2 <-].
Qed.

Lemma create_refines p : refines p (@create_request_queue A p) [].
Proof. destruct p; repeat split; try constructor. intros i _ _ a b Ha. by rewrite lookup_nil in Ha. Qed.

Lemma refines_observe p q l :
  refines p q l →
  @queue_len _ _ cops q = zlen l ∧ @queue_bool _ _ cops q = negb (is_nil l) ∧
  @peek_request _ _ cops q = (match l with [] => Raise IndexError | x :: _ => Ok x end) ∧
  (p = PRIORITY → StronglySorted (le (lt := lt)) l).
Proof.
  intros (Hp & Hok & E). split_and!; [by apply (@law_len _ _ _ _ _ laws)|by apply (@law_bool _ _ _ _ _ laws)|by apply (@law_peek _ _ _ _ _ laws)|].
  intros ->. destruct q as [q|q]; [done|]. by apply prio_iter_inv in E as (_ & ? & _).
Qed.
End Histories.

Section RequestQueues.
Context (obj : Z → Request).

#[local] Abbreviation ops := (AnyQueue_queue (ref_ltb id obj)).
#[local] Abbreviation add := (policy_add (lt := ref_ltb id obj)).
#[local] Abbreviation prepend := (policy_prepend (lt := ref_ltb id obj)).

(** C25: A queue made by [create_request_queue] behaves, over any history of adds,
    prepends, removals and pops, as the list its iterator yields: FCFS adds at the
    end and prepends at the front, PRIORITY keeps the list sorted by
    [Request.__lt__]; the same requests come out, the same exceptions are raised
    ([IndexError] on an empty queue, [ValueError] for a request that is not
    there), and [len], [bool], [peek_request] agree with the list. *)
Theorem request_queue_refines policy history :
  Forall (λ op, Forall (arrived obj (λ _, True)) (op_added op)) history →
  match @run_queue _ _ ops (create_request_queue policy) history,
        abs_queue (add policy) (prepend policy) [] history with
  | Ok (q, popped), Ok (l, popped') =>
      popped = popped' ∧ @queue_iter _ _ ops q = Ok l ∧ @queue_len _ _ ops q = zlen l ∧
      @queue_bool _ _ ops q = negb (is_nil l) ∧
      @peek_request _ _ ops q = (match l with [] => Raise IndexError | x :: _ => Ok x end) ∧
      (policy = PRIORITY → StronglySorted (le (lt := ref_ltb id obj)) l)
  | Raise e, Raise e' => e = e'
  | _, _ => False
  end.
Proof.
  intros HD.
  pose proof (run_queue_refines (D := arrived obj (λ _, True)) (lt := ref_ltb id obj) policy history _ []
    (create_refines policy) HD) as H.
  destruct (@run_queue _ _ ops _ history) as [[q out]|], (abs_queue _ _ [] history) as [[l out']|]; try done.
  destruct H as [HR ->]. destruct (refines_observe _ _ _ HR) as (? & ? & ? & ?).
  destruct HR as (_ & _ & ?). by split_and!.
Qed.
End RequestQueues.

(** The number of pops and whether a history only adds and pops. *)
Definition is_pop {A} (op : queue_op A) : bool := match op with QPop => true | _ => false end.
Definition adds_or_pops {A} (op : queue_op A) : bool :=
  match op with QPop | QAdd _ => true | _ => false end.
Definition num_pops {A} (ops : list (queue_op A)) : nat := length (filter (λ op, is_pop op = true) ops).

(** First come, first served: whatever arrives in the meantime, the next [n]
    pops of an FCFS queue return the [n] requests at its front, in order; so the
    request at position [i] is served by the [i+1]-th pop. *)
Theorem fcfs_served_in_order {A} `{EqDecision A} (lt : A → A → bool) (q : list A) history :
  forallb adds_or_pops history = true →
  (num_pops history ≤ length q)%nat →
  ∃ q', @run_queue _ _ (AnyQueue_queue lt) (FCFSRequestQueue q) history =
    Ok (FCFSRequestQueue q', take (num_pops history) q).
Proof.
  revert q. induction history as [|op ops IH]; intros q Hall Hn; [by eauto|].
  apply andb_prop in Hall as [H1 Hall]. destruct op as [x| | | | |]; try done; cbn [run_queue run_queue_op].
  - unfold num_pops in *. rewrite filter_cons_False // in Hn |- *.
    destruct (IH (q ++ [x]) Hall) as [q' E]; [rewrite length_app; lia|].
    exists q'. cbn. rewrite E. cbn. by rewrite take_app_le.
  - unfold num_pops in *. rewrite filter_cons_True // in Hn |- *. cbn [length] in *.
    destruct q as [|x q]; [cbn in Hn; lia|]. cbn in Hn.
    destruct (IH q Hall) as [q' E]; [lia|]. exists q'. cbn. by rewrite E.
Qed.

(** ** Concrete instances *)

(** Requests whose priority falls with their address, at one arrival time. *)
Definition sample_obj (i : Z) : Request :=
  mkRequest "r" None 0 (- i) None None None false (float_of_Z 1) WAITING None 16 (Some [1]) None
    1 [] [1] 0 false [] 0 None [] false 0 (float_of_Z 0) (float_of_Z 0) [] false false.

Definition sample_history : list (queue_op Z) :=
  [QAdd 1; QAdd 3; QPrepends [2; 5]; QPop; QRemove 1; QPrepend 1; QRemoves [2]; QPop].

Lemma request_queue_refines_witness :
  Forall (λ op, Forall (arrived sample_obj (λ _, True)) (op_added op)) sample_history ∧
  match @run_queue _ _ (AnyQueue_queue (ref_ltb id sample_obj)) (create_request_queue PRIORITY) sample_history with
  | Ok (q, popped) => popped = [5; 3] ∧ @queue_iter _ _ (AnyQueue_queue (ref_ltb id sample_obj)) q = Ok [1]
  | Raise _ => False
  end.
Proof.
  assert (Forall (λ op, Forall (arrived sample_obj (λ _, True)) (op_added op)) sample_history) as HD.
  { repeat constructor; cbn; discriminate. }
  split; [exact HD|].
  pose proof (request_queue_refines sample_obj PRIORITY sample_history HD) as H.
  destruct (@run_queue _ _ (AnyQueue_queue (ref_ltb id sample_obj)) _ sample_history) as [[q out]|].
  - destruct (abs_queue _ _ [] sample_history) as [[l out']|] eqn:E; [|destruct H].
    vm_compute in E. injection E as <- <-. destruct H as (-> & Hi & _). split; [reflexivity|exact Hi].
  - destruct (abs_queue _ _ [] sample_history) as [[l out']|] eqn:E; [destruct H|].
    vm_compute in E. discriminate E.
Defined.

Lemma fcfs_served_in_order_witness :
  ∃ q', @run_queue _ _ (AnyQueue_queue Z.ltb) (FCFSRequestQueue [7; 8; 9]) [QPop; QAdd 1; QPop] =
    Ok (FCFSRequestQueue q', [7; 8]).
Proof. apply (fcfs_served_in_order Z.ltb [7; 8; 9] [QPop; QAdd 1; QPop]); [reflexivity|]. vm_compute. lia. Defined.
