(* ===== verification/SchedUtils.v ===== *)
(** * Stop conditions and list helpers of the scheduler

    [src/vllm/v1/core/sched/utils.py]: the repetition detector, [remove_all] and
    [check_stop], with the specification of each: the detector finds exactly the
    outputs that end in a repeated pattern, [remove_all] is a filter on lists
    without duplicates, and [check_stop] finishes a request exactly when one of
    the documented conditions holds. *)

From S2P Require Import Prelude PyFloat Request HeapQ RequestQueue.

(** [for x in l: if not p(x): return False]. *)
Fixpoint all_res {A} (p : A → res bool) (l : list A) : res bool :=
  match l with
  | [] => Ok true
  | x :: l => b ← p x; if (b : bool) then all_res p l else Ok false
  end.

Definition _has_repeating_pattern (token_ids : list Z) (pattern_len repetition_min_count : Z)
    : res bool :=
  all_res (λ n,
    target_token ← py_nth token_ids (- n);
    all_res (λ m,
      t ← py_nth token_ids (- (pattern_len * m + n));
      Ok (bool_decide (t = target_token))) (zrange 1 repetition_min_count))
    (zrange 1 (pattern_len + 1)).

(** The loop over [range(min_pattern_size, max_pattern_size + 1)]. *)
Fixpoint repetition_loop (token_ids : list Z) (min_count : Z) (lens : list Z) : res bool :=
  match lens with
  | [] => Ok false
  | pattern_len :: lens =>
      if bool_decide (zlen token_ids < pattern_len * min_count) then Ok false
      else
        b ← _has_repeating_pattern token_ids pattern_len min_count;
        if (b : bool) then Ok true else repetition_loop token_ids min_count lens
  end.

Definition check_sequence_repetition (token_ids : list Z) (params : RepetitionDetectionParams)
    : res bool :=
  let max_pattern_size := max_pattern_size params in
  let min_pattern_size :=
    if bool_decide (min_pattern_size params ≤ 0) then 1 else min_pattern_size params in
  let min_count := min_count params in
  if bool_decide (max_pattern_size ≤ 0) || bool_decide (min_count < 2)
     || bool_decide (max_pattern_size < min_pattern_size)
  then Ok false
  else repetition_loop token_ids min_count (zrange min_pattern_size (max_pattern_size + 1)).

(** The set of items is given by its distinct members. *)
Definition remove_all {A} `{EqDecision A} (lst items_to_remove : list A) : list A :=
  match items_to_remove with
  | [] => lst
  | [item] => default lst (list_remove_first lst item)
  | _ => filter (λ item, item ∉ items_to_remove) lst
  end.

Definition check_stop (r : Request) (max_model_len : Z) : res (Request * bool) :=
  py_assert (negb (is_some (pooling_params r)));;
  match sampling_params r with
  | None => Raise AssertionError
  | Some sp =>
      if bool_decide (num_output_tokens r < min_tokens sp) then Ok (r, false)
      else
        last_token_id ← py_nth (output_token_ids r) (-1);
        if bool_decide (Some last_token_id = eos_token_id sp)
        then Ok (set_status r FINISHED_STOPPED, true)
        else if bool_decide (last_token_id ∈ stop_token_ids sp)
        then Ok (set_stop_reason (set_status r FINISHED_STOPPED) (Some (StopToken last_token_id)), true)
        else if bool_decide (max_model_len ≤ num_tokens r)
                || bool_decide (max_tokens r ≤ num_output_tokens r)
        then Ok (set_status r FINISHED_LENGTH_CAPPED, true)
        else
          match repetition_detection sp with
          | None => Ok (r, false)
          | Some params =>
              b ← check_sequence_repetition (output_token_ids r) params;
              if (b : bool)
              then Ok (set_stop_reason (set_status r FINISHED_REPETITION)
                         (Some (StopString "repetition_detected")), true)
              else Ok (r, false)
          end
  end.

(** ** The repetition detector *)

(** The tokens end with [c] copies of a pattern of length [p]. *)
Definition repeats (l : list Z) (p c : Z) : Prop :=
  ∃ pre w, zlen w = p ∧ l = pre ++ mjoin (replicate (Z.to_nat c) w).

Lemma length_repeat {A} (w : list A) c : length (mjoin (replicate c w)) = (c * length w)%nat.
Proof. induction c as [|c IH]; [done|]. cbn. rewrite length_app IH. lia. Qed.

Lemma lookup_repeat {A} (w : list A) c i :
  (i < c * length w)%nat → mjoin (replicate c w) !! i = w !! (i mod length w)%nat.
Proof.
  revert i. induction c as [|c IH]; intros i Hi; [lia|]. cbn.
  destruct (decide (i < length w)%nat) as [Hlt|Hge].
  - rewrite lookup_app_l // Nat.mod_small //.
  - rewrite lookup_app_r; [|lia]. cbn in Hi. rewrite IH; [|lia]. f_equal.
    replace i with (i - length w + 1 * length w)%nat at 2 by lia.
    by rewrite Nat.Div0.mod_add.
Qed.

(** Indexing from the end. *)
Lemma py_nth_neg {A} (l : list A) k x :
  0 < k ≤ zlen l → l !! (length l - Z.to_nat k)%nat = Some x → py_nth l (- k) = Ok x.
Proof.
  intros Hk E. unfold py_nth, zlen in *. rewrite (bool_decide_true (- k < 0)); [|lia].
  rewrite bool_decide_false; [|lia].
  replace (Z.to_nat (- k + Z.of_nat (length l))) with (length l - Z.to_nat k)%nat by lia. by rewrite E.
Qed.

Lemma all_res_ok {A} (p : A → res bool) (P : A → Prop) l :
  (∀ x, x ∈ l → ∃ b : bool, p x = Ok b ∧ (b = true ↔ P x)) →
  ∃ b : bool, all_res p l = Ok b ∧ (b = true ↔ Forall P l).
Proof.
  induction l as [|x l IH]; intros H; cbn; [by exists true; split; [|by split]|].
  destruct (H x) as (b & -> & Hb); [left|]. cbn. destruct b.
  - destruct IH as (b' & -> & Hb'); [intros y Hy; apply H; by right|]. exists b'. split; [done|].
    rewrite Forall_cons Hb'. naive_solver.
  - exists false. split; [done|]. split; [done|]. intros [Hx _]%Forall_cons. naive_solver.
Qed.

Section Repetition.
Context (l : list Z) (p c : Z) (Hp : 1 ≤ p) (Hc : 2 ≤ c) (Hlen : p * c ≤ zlen l).

(** The last [p * c] tokens have period [p]. *)
Definition periodic : Prop :=
  ∀ n m, 1 ≤ n ≤ p → 1 ≤ m < c →
    l !! (length l - Z.to_nat (p * m + n))%nat = l !! (length l - Z.to_nat n)%nat.

Lemma index_in_range n m : 1 ≤ n ≤ p → 0 ≤ m < c → 0 < p * m + n ≤ zlen l.
Proof. nia. Qed.

Lemma has_repeating_pattern_periodic :
  ∃ b : bool, _has_repeating_pattern l p c = Ok b ∧ (b = true ↔ periodic).
Proof.
  destruct (all_res_ok (λ n,
    target_token ← py_nth l (- n);
    all_res (λ m, t ← py_nth l (- (p * m + n)); Ok (bool_decide (t = target_token))) (zrange 1 c))
    (λ n, ∀ m, 1 ≤ m < c →
       l !! (length l - Z.to_nat (p * m + n))%nat = l !! (length l - Z.to_nat n)%nat)
    (zrange 1 (p + 1))) as (b & E & Hb).
  - intros n Hn%elem_of_zrange. pose proof (index_in_range n 0 ltac:(lia) ltac:(lia)) as R0.
    unfold zlen in R0. destruct (lookup_lt_is_Some_2 l (length l - Z.to_nat n)%nat) as [t Ht]; [lia|].
    rewrite (py_nth_neg l n t); [|unfold zlen; lia|done]. cbn [mbind res_bind].
    destruct (all_res_ok (λ m, t0 ← py_nth l (- (p * m + n)); Ok (bool_decide (t0 = t)))
      (λ m, l !! (length l - Z.to_nat (p * m + n))%nat = Some t) (zrange 1 c)) as (b & E & Hb).
    + intros m Hm%elem_of_zrange. pose proof (index_in_range n m ltac:(lia) ltac:(lia)) as R.
      pose proof R as R'. unfold zlen in R'.
      destruct (lookup_lt_is_Some_2 l (length l - Z.to_nat (p * m + n))%nat) as [t' Ht']; [lia|].
      rewrite (py_nth_neg l (p * m + n) t' R Ht'). cbn [mbind res_bind]. eexists; split; [done|].
      rewrite bool_decide_eq_true Ht'. split; congruence.
    + exists b. split; [done|]. rewrite Hb Forall_forall. rewrite Ht.
      setoid_rewrite elem_of_zrange. done.
  - exists b. split; [exact E|]. rewrite Hb Forall_forall. setoid_rewrite elem_of_zrange.
    unfold periodic. split; intros H n; [intros m Hn Hm|intros Hn m Hm]; apply H; lia.
Qed.

Lemma periodic_repeats : periodic ↔ repeats l p c.
Proof.
  unfold zlen in *. set (P := Z.to_nat p). set (C := Z.to_nat c). set (N := length l) in *.
  assert (P * C ≤ N)%nat as HPC by (unfold P, C; nia).
  assert (Z.of_nat P = p ∧ Z.of_nat C = c) as [HPp HCc] by (unfold P, C; lia).
  assert (1 ≤ P ∧ 2 ≤ C)%nat as [HP1 HC2] by lia. assert (P ≤ N)%nat as HPN by nia.
  split.
  - intros Hper. exists (take (N - P * C) l), (drop (N - P) l).
    split; [unfold zlen; rewrite length_drop; fold N; lia|].
    rewrite -{1}(take_drop (N - P * C) l). f_equal. apply list_eq. intros i.
    assert (length (drop (N - P) l) = P) as HW by (rewrite length_drop; fold N; lia).
    destruct (decide (i < C * P)%nat) as [Hi|Hi]; last first.
    { rewrite !lookup_ge_None_2 //; [rewrite length_repeat HW; lia|rewrite length_drop; fold N; lia]. }
    rewrite lookup_repeat HW //. rewrite !lookup_drop.
    pose proof (Nat.div_mod_eq i P) as Hdm. pose proof (Nat.mod_upper_bound i P ltac:(lia)) as Hmb.
    assert (i / P < C)%nat as Hq by (apply Nat.Div0.div_lt_upper_bound; lia).
    destruct (decide (i / P = C - 1)%nat) as [Hl|Hl].
    { f_equal. rewrite Hl in Hdm. nia. }
    pose proof (Hper (Z.of_nat (P - i mod P)) (Z.of_nat (C - 1 - i / P)) ltac:(lia) ltac:(lia)) as H.
    fold N in H.
    replace (N - Z.to_nat (p * Z.of_nat (C - 1 - i / P) + Z.of_nat (P - i mod P)))%nat
      with (N - P * C + i)%nat in H.
    + rewrite H. f_equal. lia.
    + replace (p * Z.of_nat (C - 1 - i / P) + Z.of_nat (P - i mod P)) with
        (Z.of_nat (P * (C - 1 - i / P) + (P - i mod P))) by lia.
      rewrite Nat2Z.id. nia.
  - intros (pre & w & Hw & El) n m Hn Hm. unfold zlen in Hw.
    assert (length w = P) as HW by lia. fold C in El.
    assert (N = length pre + C * P)%nat as HN.
    { unfold N. rewrite El length_app length_repeat HW. lia. }
    fold N. rewrite El. rewrite !lookup_app_r; [|nia..].
    rewrite !lookup_repeat; [|rewrite HW; nia..]. f_equal. rewrite HW.
    replace (N - Z.to_nat n - length pre)%nat
      with (N - Z.to_nat (p * m + n) - length pre + Z.to_nat m * P)%nat by nia.
    by rewrite Nat.Div0.mod_add.
Qed.
End Repetition.

Lemma repeats_length l p c : 0 ≤ c → repeats l p c → p * c ≤ zlen l.
Proof.
  intros Hc (pre & w & Hw & ->). unfold zlen in *. rewrite length_app length_repeat. nia.
Qed.

Lemma zrange_cons a b : a < b → zrange a b = a :: zrange (a + 1) b.
Proof. intros Hab. unfold zrange. rewrite seqZ_cons; [|lia]. do 2 f_equal; lia. Qed.

Lemma repetition_loop_spec l c a b :
  1 ≤ a → 2 ≤ c →
  ∃ r : bool, repetition_loop l c (zrange a (b + 1)) = Ok r ∧
    (r = true ↔ ∃ p, a ≤ p ≤ b ∧ repeats l p c).
Proof.
  intros Ha Hc. remember (Z.to_nat (b + 1 - a)) as k eqn:Ek. revert a Ha Ek.
  induction k as [|k IH]; intros a Ha Ek.
  { unfold zrange. rewrite seqZ_nil; [|lia]. exists false. split; [done|]. split; [done|].
    intros (p & Hp & _). lia. }
  rewrite zrange_cons; [|lia]. cbn [repetition_loop]. goal_bool as Hlen.
  { exists false. split; [done|]. split; [done|]. intros (p & Hp & Hr).
    apply repeats_length in Hr; [|lia]. nia. }
  destruct (has_repeating_pattern_periodic l a c) as (r & -> & Hr); [lia..|]. cbn [mbind res_bind].
  rewrite (periodic_repeats l a c) in Hr; [|lia..]. destruct r.
  { exists true. split; [done|]. split; [|done]. intros _. exists a. split; [lia|]. by apply Hr. }
  destruct (IH (a + 1)) as (r & E & Hrest); [lia|lia|].
  exists r. split; [exact E|]. rewrite Hrest. split; intros (p & Hp & HR).
  - exists p. split; [lia|done].
  - exists p. split; [|done]. destruct (decide (p = a)) as [->|]; [|lia]. naive_solver.
Qed.

(** The outputs that the parameters ask to stop: they end with [min_count] copies of
    some pattern of an allowed size. *)
Definition detected (l : list Z) (params : RepetitionDetectionParams) : Prop :=
  2 ≤ min_count params ∧
  ∃ p, Z.max 1 (min_pattern_size params) ≤ p ≤ max_pattern_size params ∧
    repeats l p (min_count params).

Lemma check_sequence_repetition_spec l params :
  ∃ b : bool, check_sequence_repetition l params = Ok b ∧ (b = true ↔ detected l params).
Proof.
  unfold check_sequence_repetition, detected. destruct params as [mx mn c]. cbn.
  set (mn' := if bool_decide (mn ≤ 0) then 1 else mn).
  assert (mn' = Z.max 1 mn) as -> by (unfold mn'; goal_bool as H; lia).
  destruct (bool_decide (mx ≤ 0) || bool_decide (c < 2) || bool_decide (mx < Z.max 1 mn)) eqn:E.
  - exists false. split; [done|]. split; [done|]. intros (Hc & p & Hp & _).
    rewrite !orb_true_iff !bool_decide_eq_true in E. lia.
  - rewrite !orb_false_iff !bool_decide_eq_false in E.
    destruct (repetition_loop_spec l c (Z.max 1 mn) mx) as (r & Er & Hr); [lia..|].
    exists r. split; [exact Er|]. rewrite Hr. naive_solver lia.
Qed.

(** C30: The repetition detector never raises, and finds exactly the outputs that end
    with at least [min_count] (two or more) copies of one pattern whose size is
    allowed. *)
Theorem check_sequence_repetition_correct l params :
  ∃ b : bool, check_sequence_repetition l params = Ok b ∧ (b = true ↔ detected l params).
Proof. apply check_sequence_repetition_spec. Qed.

(** ** [remove_all] *)

Lemma remove_all_spec {A} `{EqDecision A} (lst items : list A) :
  NoDup lst → remove_all lst items = filter (λ x, x ∉ items) lst.
Proof.
  intros Hnd. destruct items as [|x [|y items]]; cbn [remove_all]; [|
    |done].
  - rewrite filter_all //. intros y _. apply not_elem_of_nil.
  - destruct (list_remove_first lst x) as [l'|] eqn:E; cbn [from_option]; [unfold id|].
    + revert l' E. induction Hnd as [|z l Hz Hnd IH]; intros l' E; [done|]. cbn in E.
      rewrite filter_cons. destruct (decide (z ∉ [x])) as [Hx|Hx].
      * rewrite list_elem_of_singleton in Hx. rewrite bool_decide_false // in E.
        apply fmap_Some in E as (l1 & E1 & ->). f_equal. by apply IH.
      * apply dec_stable in Hx. apply list_elem_of_singleton in Hx as ->.
        rewrite bool_decide_true // in E. injection E as ->. symmetry. apply filter_all.
        intros y Hy ->%list_elem_of_singleton. done.
    + apply list_remove_first_None in E. rewrite filter_all //.
      by intros y Hy ->%list_elem_of_singleton.
Qed.

(** On a list without duplicates, such as the running queue, the fast path of
    [remove_all] for one item agrees with the filter of the general case. *)
Theorem remove_all_filter {A} `{EqDecision A} (lst items : list A) :
  NoDup lst → remove_all lst items = filter (λ x, x ∉ items) lst.
Proof. apply remove_all_spec. Qed.

(** ** [check_stop] *)

(** The three groups of stop conditions. *)
Definition stop_token (sp : SamplingParams) (t : Z) : Prop :=
  Some t = eos_token_id sp ∨ t ∈ stop_token_ids sp.
Definition length_capped (r : Request) (max_model_len : Z) : Prop :=
  max_model_len ≤ num_tokens r ∨ max_tokens r ≤ num_output_tokens r.
Definition repetitive (r : Request) (sp : SamplingParams) : Prop :=
  ∃ params, repetition_detection sp = Some params ∧ detected (output_token_ids r) params.

(** [check_stop] only writes the status and the stop reason. *)
Definition stop_update (r r' : Request) : Prop :=
  r' = set_stop_reason (set_status r (status r')) (stop_reason r').

Lemma py_nth_last {A} (l : list A) t : last l = Some t → py_nth l (-1) = Ok t.
Proof.
  intros E. apply last_Some in E as [l' ->]. apply (py_nth_neg _ 1).
  - rewrite zlen_app. pose proof (zlen_nonneg l'). change (zlen [t]) with 1. lia.
  - rewrite length_app. cbn. by rewrite Nat.add_sub lookup_app_r // Nat.sub_diag.
Qed.

Lemma check_stop_spec r sp t max_model_len :
  pooling_params r = None → sampling_params r = Some sp → last (output_token_ids r) = Some t →
  ∃ r' (stopped : bool), check_stop r max_model_len = Ok (r', stopped) ∧ stop_update r r' ∧
    (stopped = true ↔ min_tokens sp ≤ num_output_tokens r ∧
       (stop_token sp t ∨ length_capped r max_model_len ∨ repetitive r sp)) ∧
    (stopped = false → r' = r) ∧
    (stopped = true → is_finished r' = true ∧
       (stop_token sp t → get_finished_reason r' = Some STOP) ∧
       (¬ stop_token sp t → length_capped r max_model_len → get_finished_reason r' = Some LENGTH) ∧
       (¬ stop_token sp t → ¬ length_capped r max_model_len → get_finished_reason r' = Some REPETITION)).
Proof.
  intros Hpool Hsp Ht. unfold check_stop. rewrite Hpool Hsp. cbn [is_some negb py_assert mbind res_bind].
  assert (stop_update r r) as Hid by by destruct r.
  unfold stop_token, length_capped. goal_bool as Hmin.
  { exists r, false. split_and!; [done|done| |done|done]. split; [done|lia]. }
  rewrite (py_nth_last _ t Ht). cbn [mbind res_bind].
  goal_bool as Heos.
  { eexists _, true. split; [reflexivity|]. split_and!; [done| |done|naive_solver]. naive_solver lia. }
  goal_bool as Hstop.
  { eexists _, true. split; [reflexivity|]. split_and!; [done| |done|naive_solver]. naive_solver lia. }
  destruct (bool_decide (max_model_len ≤ num_tokens r) || bool_decide (max_tokens r ≤ num_output_tokens r)) eqn:El.
  { rewrite orb_true_iff !bool_decide_eq_true in El.
    eexists _, true. split; [reflexivity|]. split_and!; [done| |done|naive_solver]. naive_solver lia. }
  rewrite orb_false_iff !bool_decide_eq_false in El. unfold repetitive.
  destruct (repetition_detection sp) as [params|]; last first.
  { exists r, false. split_and!; [done|done| |done|done]. naive_solver. }
  destruct (check_sequence_repetition_spec (output_token_ids r) params) as (b & -> & Hb).
  cbn [mbind res_bind]. destruct b.
  - eexists _, true. split; [reflexivity|]. split_and!; [done| |done|naive_solver]. naive_solver lia.
  - exists r, false. split_and!; [done|done| |done|done]. naive_solver.
Qed.

(** C29: For a request that samples and has an output token, [check_stop] returns; it
    stops the request exactly when the minimal number of tokens is reached and the
    last token is a stop token, or a length limit is reached, or the output is
    repetitive; the finish reason names the first of these that holds; nothing else
    of the request changes, and nothing at all when it does not stop. *)
Theorem check_stop_correct r sp t max_model_len :
  pooling_params r = None → sampling_params r = Some sp → last (output_token_ids r) = Some t →
  ∃ r' (stopped : bool), check_stop r max_model_len = Ok (r', stopped) ∧ stop_update r r' ∧
    (stopped = true ↔ min_tokens sp ≤ num_output_tokens r ∧
       (stop_token sp t ∨ length_capped r max_model_len ∨ repetitive r sp)) ∧
    (stopped = false → r' = r) ∧
    (stopped = true → is_finished r' = true ∧
       (stop_token sp t → get_finished_reason r' = Some STOP) ∧
       (¬ stop_token sp t → length_capped r max_model_len → get_finished_reason r' = Some LENGTH) ∧
       (¬ stop_token sp t → ¬ length_capped r max_model_len → get_finished_reason r' = Some REPETITION)).
Proof. apply check_stop_spec. Qed.

(** ** Concrete instances *)

Definition stop_params : SamplingParams :=
  mkSampling (Some 16) 1 (Some 2) [5] [2; 5] None (Some (mkRepetition 3 1 3)).

(** A request whose output ends with three copies of [7; 8]. *)
Definition repeating_request : Request :=
  mkRequest "r" None 0 0 (Some stop_params) None None false (float_of_Z 0) RUNNING None 16 (Some [1]) None
    1 [4; 7; 8; 7; 8; 7; 8] [1; 4; 7; 8; 7; 8; 7; 8] 0 false [] 8 None [] false 0 (float_of_Z 0)
    (float_of_Z 0) [] false false.

Lemma check_stop_correct_witness :
  check_stop repeating_request 100 =
    Ok (set_stop_reason (set_status repeating_request FINISHED_REPETITION)
          (Some (StopString "repetition_detected")), true) ∧
  repetitive repeating_request stop_params.
Proof.
  split; [vm_compute; reflexivity|].
  destruct (check_stop_correct repeating_request stop_params 8 100) as (r' & b & E & _ & Hb & _);
    [reflexivity..|].
  vm_compute in E. injection E as <- <-. destruct (proj1 Hb eq_refl) as [_ [H|[H|H]]]; [| |exact H].
  - exfalso. destruct H as [H|H]; [discriminate H|]. vm_compute in H. set_solver.
  - exfalso. destruct H as [H|H]; vm_compute in H; apply H; reflexivity.
Defined.

Lemma remove_all_filter_witness : NoDup [1; 2; 3] ∧ remove_all [1; 2; 3] [2] = [1; 3].
Proof.
  assert (NoDup [1; 2; 3]) as H by (apply (bool_decide_unpack (NoDup [1; 2; 3])); vm_compute; exact I).
  split; [exact H|]. rewrite (remove_all_filter [1; 2; 3] [2] H). reflexivity.
Defined.
