(* ===== verification/EncoderCache.v ===== *)
(** * The encoder cache managers

    [src/vllm/v1/core/encoder_cache_manager.py]: [EncoderCacheManager], the variant
    [EncoderDecoderCacheManager] and [compute_mm_encoder_budget].  A Python set of
    request ids is a [gset], the [OrderedDict] of freeable entries an association
    list in insertion order.  The order in which [free] walks over a set of input
    ids is not specified by the language; it is the parameter [set_order], a
    permutation of its argument. *)

From S2P Require Import Prelude PyFloat OrderedDict Request.

(** ** [EncoderCacheManager] *)

Record EncoderCacheManager := mkEncoderCache {
  ec_cache_size : Z;
  num_free_slots : Z;
  num_freeable_slots : Z;
  cached : gmap string (gset string);
  freeable : list (string * Z);
  freed : list string
}.

Definition EncoderCacheManager_init (cache_size : Z) : EncoderCacheManager :=
  mkEncoderCache cache_size cache_size cache_size ∅ [] [].

Definition ec_reset (m : EncoderCacheManager) : EncoderCacheManager :=
  mkEncoderCache (ec_cache_size m) (ec_cache_size m) (ec_cache_size m) ∅ [] [].

Definition check_and_update_cache (m : EncoderCacheManager) (r : Request) (input_id : Z)
    : res (EncoderCacheManager * bool) :=
  f ← py_nth (mm_features r) input_id;
  let mm_hash := identifier f in
  match cached m !! mm_hash with
  | None => Ok (m, false)
  | Some refs =>
      '(freeable1, num_freeable1) ←
        (if bool_decide (refs = ∅) then
           '(num_encoder_embeds, d) ← od_pop (freeable m) mm_hash;
           Ok (d, num_freeable_slots m - num_encoder_embeds)
         else Ok (freeable m, num_freeable_slots m));
      Ok (mkEncoderCache (ec_cache_size m) (num_free_slots m) num_freeable1
            (<[mm_hash := {[request_id r]} ∪ refs]> (cached m)) freeable1 (freed m), true)
  end.

(** [while num_embeds > self.num_free_slots], along the freeable entries. *)
Fixpoint evict_loop (num_embeds num_free_slots : Z) (cached : gmap string (gset string))
    (freeable : list (string * Z)) (freed : list string)
    : res (Z * gmap string (gset string) * list (string * Z) * list string) :=
  if bool_decide (num_free_slots < num_embeds) then
    match freeable with
    | [] => Raise KeyError
    | (mm_hash, num_free_embeds) :: freeable =>
        match cached !! mm_hash with
        | None => Raise KeyError
        | Some _ =>
            evict_loop num_embeds (num_free_slots + num_free_embeds) (delete mm_hash cached) freeable
              (freed ++ [mm_hash])
        end
    end
  else Ok (num_free_slots, cached, freeable, freed).

Definition can_allocate (m : EncoderCacheManager) (r : Request)
    (input_id encoder_compute_budget num_embeds_to_schedule : Z) : res (EncoderCacheManager * bool) :=
  num_embeds ← get_num_encoder_embeds r input_id;
  if bool_decide (encoder_compute_budget < num_embeds) then Ok (m, false)
  else
    let num_embeds := num_embeds + num_embeds_to_schedule in
    if bool_decide (num_embeds ≤ num_free_slots m) then Ok (m, true)
    else if bool_decide (num_freeable_slots m < num_embeds) then Ok (m, false)
    else
      '(free1, cached1, freeable1, freed1) ←
        evict_loop num_embeds (num_free_slots m) (cached m) (freeable m) (freed m);
      Ok (mkEncoderCache (ec_cache_size m) free1 (num_freeable_slots m) cached1 freeable1 freed1, true).

Definition allocate (m : EncoderCacheManager) (r : Request) (input_id : Z) : res EncoderCacheManager :=
  f ← py_nth (mm_features r) input_id;
  let mm_hash := identifier f in
  let refs := default ∅ (cached m !! mm_hash) in
  num_encoder_embeds ← get_num_encoder_embeds r input_id;
  py_assert (bool_decide (num_encoder_embeds ≤ num_free_slots m));;
  py_assert (bool_decide (num_encoder_embeds ≤ num_freeable_slots m));;
  Ok (mkEncoderCache (ec_cache_size m) (num_free_slots m - num_encoder_embeds)
        (num_freeable_slots m - num_encoder_embeds)
        (<[mm_hash := {[request_id r]} ∪ refs]> (cached m)) (freeable m) (freed m)).

(** [request.mm_features[input_id].identifier in self.cached]. *)
Definition input_cached (m : EncoderCacheManager) (r : Request) (input_id : Z) : bool :=
  match mm_features r !! Z.to_nat input_id with
  | Some f => is_some (cached m !! identifier f)
  | None => false
  end.

Definition get_cached_input_ids (m : EncoderCacheManager) (r : Request) : list Z :=
  filter (λ i, input_cached m r i = true) (zrange 0 (num_encoder_inputs r)).

Definition free_encoder_input (m : EncoderCacheManager) (r : Request) (input_id : Z)
    : res EncoderCacheManager :=
  f ← py_nth (mm_features r) input_id;
  let mm_hash := identifier f in
  let refs := default ∅ (cached m !! mm_hash) in
  if bool_decide (refs = ∅) then Ok m
  else
    let refs := refs ∖ {[request_id r]} in
    let cached1 := <[mm_hash := refs]> (cached m) in
    if bool_decide (refs = ∅) then
      num_encoder_embeds ← get_num_encoder_embeds r input_id;
      Ok (mkEncoderCache (ec_cache_size m) (num_free_slots m)
            (num_freeable_slots m + num_encoder_embeds) cached1
            (od_set (freeable m) mm_hash num_encoder_embeds) (freed m))
    else
      Ok (mkEncoderCache (ec_cache_size m) (num_free_slots m) (num_freeable_slots m) cached1
            (freeable m) (freed m)).

Definition get_freed_mm_hashes (m : EncoderCacheManager) : EncoderCacheManager * list string :=
  (mkEncoderCache (ec_cache_size m) (num_free_slots m) (num_freeable_slots m) (cached m)
     (freeable m) [], freed m).

(** ** [EncoderDecoderCacheManager] *)

Record EncoderDecoderCacheManager := mkEncDecCache {
  ed_cache_size : Z;
  ed_num_free_slots : Z;
  allocated : list string;
  to_free : list string
}.

Definition EncoderDecoderCacheManager_init (cache_size : Z) : EncoderDecoderCacheManager :=
  mkEncDecCache cache_size cache_size [] [].

Definition encdec_reset (m : EncoderDecoderCacheManager) : EncoderDecoderCacheManager :=
  mkEncDecCache (ed_cache_size m) (ed_cache_size m) [] [].

Definition encdec_check_and_update_cache (m : EncoderDecoderCacheManager) (r : Request) (input_id : Z)
    : EncoderDecoderCacheManager * bool := (m, false).

Definition encdec_can_allocate (m : EncoderDecoderCacheManager) (r : Request)
    (input_id encoder_compute_budget num_embeds_to_schedule : Z) : res bool :=
  num_encoder_embeds ← get_num_encoder_embeds r input_id;
  if bool_decide (encoder_compute_budget < num_encoder_embeds) then Ok false
  else Ok (bool_decide (num_encoder_embeds + num_embeds_to_schedule ≤ ed_num_free_slots m)).

Definition encdec_allocate (m : EncoderDecoderCacheManager) (r : Request) (input_id : Z)
    : res EncoderDecoderCacheManager :=
  num_encoder_embeds ← get_num_encoder_embeds r input_id;
  f ← py_nth (mm_features r) input_id;
  Ok (mkEncDecCache (ed_cache_size m) (ed_num_free_slots m - num_encoder_embeds)
        (allocated m ++ [identifier f]) (to_free m)).

Definition encdec_free_encoder_input (m : EncoderDecoderCacheManager) (r : Request) (input_id : Z)
    : res EncoderDecoderCacheManager :=
  num_encoder_embeds ← get_num_encoder_embeds r input_id;
  Ok (mkEncDecCache (ed_cache_size m) (ed_num_free_slots m + num_encoder_embeds)
        (allocated m) (to_free m)).

Definition encdec_free (m : EncoderDecoderCacheManager) (r : Request)
    : res EncoderDecoderCacheManager :=
  foldM (λ m i, encdec_free_encoder_input m r i) m (zrange 0 (zlen (mm_features r))).

Definition encdec_get_cached_input_ids (m : EncoderDecoderCacheManager) (r : Request) : list Z :=
  zrange 0 (zlen (mm_features r)).

Definition encdec_get_freed_mm_hashes (m : EncoderDecoderCacheManager)
    : EncoderDecoderCacheManager * list string :=
  (mkEncDecCache (ed_cache_size m) (ed_num_free_slots m) [] (allocated m), to_free m).

(** ** [free] and dispatch *)

Section SetOrder.
Context (set_order : list Z → list Z).

Definition ec_free (m : EncoderCacheManager) (r : Request) : res EncoderCacheManager :=
  foldM (λ m i, free_encoder_input m r i) m (set_order (get_cached_input_ids m r)).
End SetOrder.

(** The manager the scheduler creates. *)
Inductive encoder_cache : Type :=
  | MultiModalCache (m : EncoderCacheManager)
  | EncoderDecoderCache (m : EncoderDecoderCacheManager).

(** ** [compute_mm_encoder_budget] *)

(** [mm_max_toks_per_item.values()] and the fields of the scheduler configuration. *)
Definition compute_mm_encoder_budget (disable_chunked_mm_input : bool)
    (max_num_batched_tokens max_num_encoder_input_tokens encoder_cache_size : Z)
    (mm_max_toks_per_item : list Z) : res (Z * Z) :=
  match mm_max_toks_per_item with
  | [] => Ok (0, 0)
  | t :: ts =>
      let max_tokens_per_mm_item := foldl Z.max t ts in
      if disable_chunked_mm_input && bool_decide (max_num_batched_tokens < max_tokens_per_mm_item)
      then Raise ValueError
      else Ok (Z.max max_num_encoder_input_tokens max_tokens_per_mm_item,
               Z.max encoder_cache_size max_tokens_per_mm_item)
  end.

(** ** Sums over the cache *)

Section MapSum.
Context {V : Type}.
Implicit Types (w : string → V → Z) (m : gmap string V).

Definition msum w m : Z := map_fold (λ k v acc, w k v + acc) 0 m.

Lemma msum_empty w : msum w ∅ = 0.
Proof. apply map_fold_empty. Qed.

Lemma msum_insert w m k v : m !! k = None → msum w (<[k := v]> m) = w k v + msum w m.
Proof. intros Hk. unfold msum. rewrite map_fold_insert_L //. intros. lia. Qed.

Lemma msum_delete w m k v : m !! k = Some v → msum w (delete k m) = msum w m - w k v.
Proof.
  intros Hk. rewrite -{2}(insert_delete_id m k v Hk) msum_insert; [lia|]. apply lookup_delete_eq.
Qed.

Lemma msum_update w m k v v' :
  m !! k = Some v → msum w (<[k := v']> m) = msum w m - w k v + w k v'.
Proof.
  intros Hk. rewrite -insert_delete_eq msum_insert; [|apply lookup_delete_eq].
  rewrite (msum_delete w m k v Hk). lia.
Qed.

Lemma msum_le w1 w2 m : (∀ k v, m !! k = Some v → w1 k v ≤ w2 k v) → msum w1 m ≤ msum w2 m.
Proof.
  induction m as [|k v m Hk IH] using map_ind; intros Hle; [rewrite !msum_empty; lia|].
  rewrite !msum_insert //. pose proof (Hle k v (lookup_insert_eq m k v)).
  assert (msum w1 m ≤ msum w2 m); [|lia]. apply IH. intros k' v' Hk'. apply Hle.
  rewrite lookup_insert_ne //. congruence.
Qed.
End MapSum.

(** ** The invariant *)

Section Invariant.
(** The number of embeddings of a multi-modal item is determined by its hash. *)
Context (sz : string → Z) (Hsz : ∀ h, 0 ≤ sz h).

Definition sized (r : Request) : Prop :=
  Forall (λ f, get_num_embeds (mm_position f) = sz (identifier f)) (mm_features r).

(** What every cached item takes, and what the referenced ones take. *)
Definition w_all (h : string) (refs : gset string) : Z := sz h.
Definition w_ref (h : string) (refs : gset string) : Z := if bool_decide (refs = ∅) then 0 else sz h.

Record EncOk (m : EncoderCacheManager) : Prop := {
  eo_free : num_free_slots m + msum w_all (cached m) = ec_cache_size m;
  eo_freeable : num_freeable_slots m + msum w_ref (cached m) = ec_cache_size m;
  eo_nonneg : 0 ≤ num_free_slots m;
  eo_nodup : NoDup (freeable m).*1;
  eo_list : ∀ h n, (h, n) ∈ freeable m ↔ cached m !! h = Some ∅ ∧ n = sz h
}.

Lemma w_ref_all m : msum w_ref m ≤ msum w_all m.
Proof. apply msum_le. intros h s _. unfold w_ref, w_all. specialize (Hsz h). goal_bool as E; lia. Qed.

Lemma w_ref_nonneg m : 0 ≤ msum w_ref m.
Proof.
  assert (∀ m : gmap string (gset string), msum (λ _ _, 0) m = 0) as Hz.
  { intros m'. induction m' as [|k v m' Hk IH] using map_ind; [apply msum_empty|].
    by rewrite msum_insert. }
  rewrite -(Hz m). apply msum_le. intros h s _. unfold w_ref. specialize (Hsz h). goal_bool as E; lia.
Qed.

(** Free slots are reclaimable, reclaimable slots are within the cache. *)
Lemma EncOk_bounds m : EncOk m → 0 ≤ num_free_slots m ≤ num_freeable_slots m ∧ num_freeable_slots m ≤ ec_cache_size m.
Proof.
  intros [H1 H2 H3 _ _]. pose proof (w_ref_all (cached m)). pose proof (w_ref_nonneg (cached m)). lia.
Qed.

Lemma init_EncOk size : 0 ≤ size → EncOk (EncoderCacheManager_init size).
Proof.
  intros Hs. split; cbn; rewrite ?msum_empty; try lia; [constructor|].
  intros h n. rewrite lookup_empty. set_solver.
Qed.

Lemma eo_key m h : EncOk m → h ∈ (freeable m).*1 ↔ cached m !! h = Some ∅.
Proof.
  intros [_ _ _ _ Hl]. rewrite list_elem_of_fmap. split.
  - intros ([h' n] & -> & Hin). cbn. by apply Hl in Hin as [? _].
  - intros Hc. exists (h, sz h). split; [done|]. by apply Hl.
Qed.

(** The feature of a valid input id. *)
Lemma feature_at r i : 0 ≤ i < num_encoder_inputs r → sized r →
  ∃ f, mm_features r !! Z.to_nat i = Some f ∧ py_nth (mm_features r) i = Ok f ∧
    get_num_encoder_embeds r i = Ok (sz (identifier f)).
Proof.
  intros Hi Hs. destruct (zlen_lookup _ _ Hi) as [f Hf]. exists f.
  assert (py_nth (mm_features r) i = Ok f) as E by (apply py_nth_ok; [lia|done]).
  split_and!; [done|done|]. unfold get_num_encoder_embeds.
  rewrite (bool_decide_true (i < zlen (mm_features r))); [|unfold num_encoder_inputs in Hi; lia]. cbn [py_assert mbind res_bind].
  rewrite E. cbn [mbind res_bind]. f_equal. unfold sized in Hs. rewrite Forall_lookup in Hs. by eapply Hs.
Qed.

(** Updating the references of an entry that stays referenced. *)
Lemma msum_ref_insert m h s s' :
  m !! h = Some s → msum w_all (<[h := s']> m) = msum w_all m ∧
    msum w_ref (<[h := s']> m) = msum w_ref m - w_ref h s + w_ref h s'.
Proof.
  intros Hh. rewrite (msum_update w_all m h s s' Hh) (msum_update w_ref m h s s' Hh).
  unfold w_all. lia.
Qed.

Lemma w_ref_empty h : w_ref h ∅ = 0.
Proof. unfold w_ref. by rewrite bool_decide_true. Qed.
Lemma w_ref_ne h s : s ≠ ∅ → w_ref h s = sz h.
Proof. intros Hs. unfold w_ref. by rewrite bool_decide_false. Qed.

Lemma check_and_update_cache_spec m r i f :
  EncOk m → sized r → 0 ≤ i < num_encoder_inputs r → mm_features r !! Z.to_nat i = Some f →
  match cached m !! identifier f with
  | None => check_and_update_cache m r i = Ok (m, false)
  | Some refs =>
      ∃ m', check_and_update_cache m r i = Ok (m', true) ∧ EncOk m' ∧
        cached m' = <[identifier f := {[request_id r]} ∪ refs]> (cached m) ∧
        num_free_slots m' = num_free_slots m ∧ ec_cache_size m' = ec_cache_size m ∧ freed m' = freed m
  end.
Proof.
  intros HE Hs Hi Hf. destruct (feature_at r i Hi Hs) as (f' & Hf' & En & _). simplify_eq.
  unfold check_and_update_cache. rewrite En. cbn [mbind res_bind]. set (h := identifier f).
  destruct (cached m !! h) as [refs|] eqn:Eh; [|done].
  assert ({[request_id r]} ∪ refs ≠ ∅) as Hne by set_solver.
  destruct (msum_ref_insert (cached m) h refs ({[request_id r]} ∪ refs) Eh) as [Ha Hr].
  rewrite (w_ref_ne h _ Hne) in Hr. pose proof HE as [H1 H2 H3 H4 H5].
  goal_bool as Hemp.
  - subst refs. rewrite w_ref_empty in Hr.
    destruct (od_pop_Some (freeable m) h (sz h)) as (d1 & d2 & Ed & Ep); [done|by apply H5|].
    rewrite Ep. cbn [mbind res_bind]. eexists; split; [reflexivity|]. split; [|done].
    rewrite Ed in H4. rewrite fmap_app fmap_cons in H4. apply NoDup_app in H4 as (N1 & N2 & N3).
    apply NoDup_cons in N3 as [N3 N4].
    split; cbn; [lia|lia|done| |].
    + rewrite fmap_app. apply NoDup_app. split_and!; [done| |done]. set_solver.
    + intros h' n. specialize (H5 h' n). rewrite Ed elem_of_app elem_of_cons in H5.
      rewrite elem_of_app. destruct (decide (h' = h)) as [->|Hh].
      * rewrite lookup_insert_eq. split; [|naive_solver]. intros Hin. exfalso.
        assert (h ∈ d1.*1 ∨ h ∈ d2.*1) as [Hx|Hx].
        { destruct Hin as [Hin|Hin]; [left|right]; apply list_elem_of_fmap; by exists (h, n). }
        -- apply (N2 h Hx). left.
        -- done.
      * rewrite lookup_insert_ne //. naive_solver.
  - rewrite (w_ref_ne h refs Hemp) in Hr. eexists; split; [reflexivity|]. split; [|done].
    split; cbn; [lia|lia|done|done|]. intros h' n. rewrite H5.
    destruct (decide (h' = h)) as [->|Hh]; [|by rewrite lookup_insert_ne].
    rewrite lookup_insert_eq Eh. split; intros [[= ?] _]; done.
Qed.

(** With nothing left to evict, every slot that is not free is referenced. *)
Lemma EncOk_no_freeable m : EncOk m → freeable m = [] → num_freeable_slots m = num_free_slots m.
Proof.
  intros HE Hf. pose proof (EncOk_bounds m HE). destruct HE as [H1 H2 H3 H4 H5].
  assert (msum w_all (cached m) ≤ msum w_ref (cached m)); [|lia]. apply msum_le. intros h s Hh.
  unfold w_all. rewrite w_ref_ne //. intros ->.
  apply (not_elem_of_nil (h, sz h)). rewrite -Hf. by apply H5.
Qed.

(** Evicting the oldest entry. *)
Lemma evict_one m h n rest :
  EncOk m → freeable m = (h, n) :: rest →
  cached m !! h = Some ∅ ∧ n = sz h ∧
  EncOk (mkEncoderCache (ec_cache_size m) (num_free_slots m + n) (num_freeable_slots m)
           (delete h (cached m)) rest (freed m ++ [h])).
Proof.
  intros [H1 H2 H3 H4 H5] Hf. rewrite Hf in H4, H5. destruct (proj1 (H5 h n)) as [Hc ->]; [left|].
  split_and!; [done..|]. apply NoDup_cons in H4 as [N1 N2]. split; cbn.
  - rewrite (msum_delete _ _ _ _ Hc). unfold w_all in *. lia.
  - rewrite (msum_delete _ _ _ _ Hc) w_ref_empty. lia.
  - specialize (Hsz h). lia.
  - done.
  - intros h' n'. destruct (decide (h' = h)) as [->|Hh].
    + rewrite lookup_delete_eq. split; [|naive_solver]. intros Hin. exfalso. apply N1.
      apply list_elem_of_fmap. by exists (h, n').
    + rewrite lookup_delete_ne //. rewrite -H5 elem_of_cons. naive_solver.
Qed.

(** What [evict_loop] makes of a manager: the oldest freeable entries go, no more
    than needed. *)
Definition evicts (need : Z) (m m' : EncoderCacheManager) (evicted : list (string * Z)) : Prop :=
  freeable m = evicted ++ freeable m' ∧ need ≤ num_free_slots m' ∧
  num_free_slots m ≤ num_free_slots m' ∧ (evicted = [] → num_free_slots m' = num_free_slots m) ∧
  (∀ h, cached m' !! h = if bool_decide (h ∈ evicted.*1) then None else cached m !! h) ∧
  (∀ h n, last evicted = Some (h, n) → num_free_slots m' - n < need) ∧
  freed m' = freed m ++ evicted.*1.

Lemma evicts_none need m : need ≤ num_free_slots m → evicts need m m [].
Proof.
  intros Hn. split_and!; [done|done|done|done| |done|by rewrite app_nil_r].
  intros h. rewrite bool_decide_false //. apply not_elem_of_nil.
Qed.

Lemma evicts_keeps_refs need m m' ev h refs :
  EncOk m → evicts need m m' ev → cached m !! h = Some refs → refs ≠ ∅ → cached m' !! h = Some refs.
Proof.
  intros HE (H1 & _ & _ & _ & H5 & _) Hh Hne. rewrite H5 bool_decide_false //. intros Hin.
  assert (h ∈ (freeable m).*1) as Hin' by (rewrite H1 fmap_app; set_solver).
  apply eo_key in Hin'; [|done]. congruence.
Qed.

Lemma evict_loop_spec need size slots freeable0 : ∀ free cached0 freed0,
  EncOk (mkEncoderCache size free slots cached0 freeable0 freed0) → need ≤ slots →
  ∃ free' cached' rest freed' evicted,
    evict_loop need free cached0 freeable0 freed0 = Ok (free', cached', rest, freed') ∧
    evicts need (mkEncoderCache size free slots cached0 freeable0 freed0)
      (mkEncoderCache size free' slots cached' rest freed') evicted ∧
    EncOk (mkEncoderCache size free' slots cached' rest freed').
Proof.
  induction freeable0 as [|[h n] rest0 IH]; intros free c0 f0 HE Hneed; cbn [evict_loop].
  { pose proof (EncOk_no_freeable _ HE eq_refl) as Heq. cbn in Heq. rewrite bool_decide_false; [|lia].
    eexists _, _, _, _, []. split_and!; [done|apply evicts_none; cbn; lia|done]. }
  goal_bool as Hlt; last first.
  { eexists _, _, _, _, []. split_and!; [done|apply evicts_none; cbn; lia|done]. }
  destruct (evict_one _ h n rest0 HE eq_refl) as (Hc & -> & HE1). cbn in Hc, HE1. rewrite Hc.
  destruct (IH _ _ _ HE1 Hneed) as (free' & c' & rest & f' & ev & -> & Hev & HE').
  eexists _, _, _, _, ((h, sz h) :: ev). split_and!; [done| |done].
  destruct Hev as (E1 & E2 & E3 & E0 & E4 & E5 & E6). cbn in *. specialize (Hsz h).
  split_and!; cbn; [by rewrite E1|done|lia|done| | |by rewrite E6 -app_assoc].
  - intros h'. rewrite E4. destruct (decide (h' = h)) as [->|Hh].
    + rewrite (bool_decide_true (h ∈ h :: ev.*1)); [|left]. rewrite lookup_delete_eq. by goal_bool as Hx.
    + rewrite (bool_decide_ext (h' ∈ h :: ev.*1) (h' ∈ ev.*1)); [|set_solver].
      by rewrite lookup_delete_ne.
  - intros h' n'. destruct ev as [|e ev]; [|rewrite last_cons_cons; apply E5].
    intros [= <- <-]. rewrite E0 //. lia.
Qed.

Lemma can_allocate_spec m r i f budget extra :
  EncOk m → sized r → 0 ≤ i < num_encoder_inputs r → mm_features r !! Z.to_nat i = Some f →
  let need := sz (identifier f) + extra in
  if bool_decide (sz (identifier f) ≤ budget ∧ need ≤ num_freeable_slots m)
  then ∃ m' evicted, can_allocate m r i budget extra = Ok (m', true) ∧ EncOk m' ∧
         evicts need m m' evicted ∧
         num_freeable_slots m' = num_freeable_slots m ∧ ec_cache_size m' = ec_cache_size m
  else can_allocate m r i budget extra = Ok (m, false).
Proof.
  intros HE Hs Hi Hf need. destruct (feature_at r i Hi Hs) as (f' & Hf' & _ & En). simplify_eq.
  pose proof (EncOk_bounds m HE) as Hb. unfold can_allocate. rewrite En. cbn [mbind res_bind].
  goal_bool as Hbud; last first.
  { goal_bool as H1; [done|]. fold need. rewrite bool_decide_false; [|lia].
    rewrite bool_decide_true //. lia. }
  rewrite (bool_decide_false (budget < _)); [|lia]. fold need. goal_bool as Hfree.
  { exists m, []. split_and!; [done|done|by apply evicts_none|done|done]. }
  rewrite (bool_decide_false (num_freeable_slots m < _)); [|lia].
  destruct m as [size free slots c0 fr0 fd0]. cbn in *.
  destruct (evict_loop_spec need size slots fr0 free c0 fd0 HE) as (free' & c' & rest & fd' & ev & -> & Hev & HE'); [lia|].
  eexists _, ev. cbn [mbind res_bind]. by split_and!.
Qed.

Lemma allocate_spec m r i f :
  EncOk m → sized r → 0 ≤ i < num_encoder_inputs r → mm_features r !! Z.to_nat i = Some f →
  cached m !! identifier f = None → sz (identifier f) ≤ num_free_slots m →
  ∃ m', allocate m r i = Ok m' ∧ EncOk m' ∧
    cached m' = <[identifier f := {[request_id r]}]> (cached m) ∧
    num_free_slots m' = num_free_slots m - sz (identifier f) ∧
    ec_cache_size m' = ec_cache_size m ∧ freed m' = freed m.
Proof.
  intros HE Hs Hi Hf Hc Hfree. destruct (feature_at r i Hi Hs) as (f' & Hf' & Ep & En). simplify_eq.
  pose proof (EncOk_bounds m HE) as Hb. unfold allocate. rewrite Ep En. cbn [mbind res_bind]. rewrite Hc.
  rewrite !bool_decide_true; [|lia..]. cbn [py_assert mbind res_bind from_option].
  rewrite right_id_L. eexists; split; [reflexivity|]. split; [|done].
  destruct HE as [H1 H2 H3 H4 H5]. split; cbn.
  - rewrite msum_insert //. unfold w_all at 1. lia.
  - rewrite msum_insert // w_ref_ne; [lia|set_solver].
  - lia.
  - done.
  - intros h n. rewrite H5. destruct (decide (h = identifier f)) as [->|Hh].
    + rewrite lookup_insert_eq Hc. split; [naive_solver|by intros [[= ?] _]].
    + by rewrite lookup_insert_ne.
Qed.

Lemma free_encoder_input_spec m r i f :
  EncOk m → sized r → 0 ≤ i < num_encoder_inputs r → mm_features r !! Z.to_nat i = Some f →
  ∃ m', free_encoder_input m r i = Ok m' ∧ EncOk m' ∧
    cached m' = alter (λ refs, refs ∖ {[request_id r]}) (identifier f) (cached m) ∧
    num_free_slots m' = num_free_slots m ∧ ec_cache_size m' = ec_cache_size m ∧ freed m' = freed m.
Proof.
  intros HE Hs Hi Hf. destruct (feature_at r i Hi Hs) as (f' & Hf' & Ep & En). simplify_eq.
  unfold free_encoder_input. rewrite Ep. cbn [mbind res_bind]. set (h := identifier f).
  destruct (cached m !! h) as [refs|] eqn:Eh; cbn [from_option]; last first.
  { rewrite bool_decide_true //. exists m. split_and!; [done|done| |done..].
    apply map_eq. intros h'. destruct (decide (h' = h)) as [->|]; [by rewrite lookup_alter_eq Eh|].
    by rewrite lookup_alter_ne. }
  assert (∀ s, refs ∖ {[request_id r]} = s →
    <[h := s]> (cached m) = alter (λ refs, refs ∖ {[request_id r]}) h (cached m)) as Halt.
  { intros s <-. apply map_eq. intros h'. destruct (decide (h' = h)) as [->|].
    - by rewrite lookup_insert_eq lookup_alter_eq Eh.
    - by rewrite lookup_insert_ne // lookup_alter_ne. }
  change (id refs) with refs. goal_bool as Hemp.
  { exists m. split_and!; [done|done| |done..]. rewrite -(Halt ∅); [|set_solver].
    rewrite insert_id // -Hemp //. }
  destruct (msum_ref_insert (cached m) h refs (refs ∖ {[request_id r]}) Eh) as [Ha Hr].
  rewrite (w_ref_ne h refs Hemp) in Hr. pose proof HE as [H1 H2 H3 H4 H5].
  assert (h ∉ (freeable m).*1) as Hfresh.
  { rewrite eo_key // Eh. congruence. }
  goal_bool as Hemp'.
  - rewrite En. cbn [mbind res_bind]. eexists; split; [reflexivity|]. split; [|by rewrite (Halt _ eq_refl)].
    rewrite Hemp' w_ref_empty in Hr. rewrite Hemp' in Ha. rewrite Hemp'.
    split; cbn; [lia|fold h; lia|done| |]; rewrite od_set_fresh //.
    + rewrite fmap_app. apply NoDup_app. split_and!; [done| |apply NoDup_singleton]. set_solver.
    + intros h' n. rewrite elem_of_app list_elem_of_singleton H5.
      destruct (decide (h' = h)) as [->|Hh].
      * rewrite lookup_insert_eq Eh. fold h. naive_solver.
      * rewrite lookup_insert_ne //. naive_solver.
  - eexists; split; [reflexivity|]. split; [|by rewrite (Halt _ eq_refl)].
    rewrite (w_ref_ne h _ Hemp') in Hr. split; cbn; [lia|lia|done|done|].
    intros h' n. rewrite H5. destruct (decide (h' = h)) as [->|Hh]; [|by rewrite lookup_insert_ne].
    rewrite lookup_insert_eq Eh. split; intros [[= ?] _]; done.
Qed.

(** Dropping the references of [rid] to the items in [hs]. *)
Definition drop_refs (rid : string) (hs : list string) (h : string) (refs : gset string) : gset string :=
  if bool_decide (h ∈ hs) then refs ∖ {[rid]} else refs.

Definition hashes_of (r : Request) (ids : list Z) : list string :=
  omap (λ i, identifier <$> mm_features r !! Z.to_nat i) ids.

Lemma free_inputs_spec r ids : ∀ m,
  EncOk m → sized r → Forall (λ i, 0 ≤ i < num_encoder_inputs r) ids →
  ∃ m', foldM (λ m i, free_encoder_input m r i) m ids = Ok m' ∧ EncOk m' ∧
    (∀ h, cached m' !! h = drop_refs (request_id r) (hashes_of r ids) h <$> cached m !! h) ∧
    num_free_slots m' = num_free_slots m ∧ ec_cache_size m' = ec_cache_size m ∧ freed m' = freed m.
Proof.
  induction ids as [|i ids IH]; intros m HE Hs Hids; cbn [foldM].
  { exists m. split_and!; [done|done| |done..]. intros h. unfold drop_refs.
    rewrite bool_decide_false; [by rewrite option_fmap_id|]. apply not_elem_of_nil. }
  apply Forall_cons in Hids as [Hi Hids]. destruct (feature_at r i Hi Hs) as (f & Hf & _ & _).
  destruct (free_encoder_input_spec m r i f HE Hs Hi Hf) as (m1 & -> & HE1 & Hc1 & Hn1 & Hz1 & Hf1).
  cbn [mbind res_bind]. destruct (IH m1 HE1 Hs Hids) as (m2 & -> & HE2 & Hc2 & Hn2 & Hz2 & Hf2).
  exists m2. split_and!; [done|done| |congruence..]. intros h. rewrite Hc2 Hc1.
  unfold drop_refs, hashes_of. cbn [omap list_omap]. rewrite Hf. cbn [fmap option_fmap option_map].
  destruct (decide (h = identifier f)) as [->|Hh].
  - rewrite lookup_alter_eq (bool_decide_true (_ ∈ _ :: _)); [|left].
    destruct (cached m !! identifier f) as [refs|]; [|done]. cbn. f_equal.
    goal_bool as Hin; [|done]. set_solver.
  - rewrite lookup_alter_ne //.
    by rewrite (bool_decide_ext (h ∈ identifier f :: _) (h ∈ omap (λ i0, identifier <$> mm_features r !! Z.to_nat i0) ids));
      [|set_solver].
Qed.

Lemma get_cached_input_ids_range m r :
  Forall (λ i, 0 ≤ i < num_encoder_inputs r) (get_cached_input_ids m r).
Proof.
  apply Forall_forall. intros i. unfold get_cached_input_ids. rewrite list_elem_of_filter.
  unfold zrange. rewrite elem_of_seqZ. lia.
Qed.

Lemma hashes_of_cached m r h :
  is_Some (cached m !! h) →
  h ∈ hashes_of r (get_cached_input_ids m r) ↔ h ∈ identifier <$> mm_features r.
Proof.
  intros Hh. unfold hashes_of. rewrite list_elem_of_omap list_elem_of_fmap. split.
  - intros (i & _ & (f & Hf & ->)%fmap_Some). exists f. split; [done|]. by eapply list_elem_of_lookup_2.
  - intros (f & -> & (k & Hk)%list_elem_of_lookup). exists (Z.of_nat k). rewrite Nat2Z.id Hk. split; [|done].
    unfold get_cached_input_ids. apply list_elem_of_filter. split.
    + unfold input_cached. rewrite Nat2Z.id Hk. by destruct Hh as [? ->].
    + unfold zrange, num_encoder_inputs, zlen. rewrite elem_of_seqZ. apply lookup_lt_Some in Hk. lia.
Qed.

Section Free.
Context (set_order : list Z → list Z) (Horder : ∀ l, set_order l ≡ₚ l).

Lemma ec_free_spec m r :
  EncOk m → sized r →
  ∃ m', ec_free set_order m r = Ok m' ∧ EncOk m' ∧
    (∀ h, cached m' !! h = drop_refs (request_id r) (identifier <$> mm_features r) h <$> cached m !! h) ∧
    num_free_slots m' = num_free_slots m ∧ ec_cache_size m' = ec_cache_size m ∧ freed m' = freed m.
Proof.
  intros HE Hs. unfold ec_free.
  destruct (free_inputs_spec r (set_order (get_cached_input_ids m r)) m HE Hs) as (m' & E & HE' & Hc & Hn).
  { rewrite Horder. apply get_cached_input_ids_range. }
  exists m'. split_and!; [done|done| |naive_solver..]. intros h. rewrite Hc.
  destruct (cached m !! h) as [refs|] eqn:Eh; [|done]. cbn. f_equal. unfold drop_refs.
  erewrite bool_decide_ext; [done|]. rewrite -(hashes_of_cached m r h); [|by rewrite Eh].
  unfold hashes_of. by rewrite (Horder (get_cached_input_ids m r)).
Qed.

(** *** Histories *)

Inductive ec_op : Type :=
  | OpCheck (r : Request) (i : Z)
  | OpCanAllocate (r : Request) (i budget extra : Z)
  | OpAllocate (r : Request) (i : Z)
  | OpFreeInput (r : Request) (i : Z)
  | OpFree (r : Request)
  | OpGetFreed
  | OpReset.

Definition run_ec_op (m : EncoderCacheManager) (op : ec_op) : res EncoderCacheManager :=
  match op with
  | OpCheck r i => '(m, _) ← check_and_update_cache m r i; Ok m
  | OpCanAllocate r i budget extra => '(m, _) ← can_allocate m r i budget extra; Ok m
  | OpAllocate r i => allocate m r i
  | OpFreeInput r i => free_encoder_input m r i
  | OpFree r => ec_free set_order m r
  | OpGetFreed => Ok (get_freed_mm_hashes m).1
  | OpReset => Ok (ec_reset m)
  end.

Definition valid_input (r : Request) (i : Z) : Prop := sized r ∧ 0 ≤ i < num_encoder_inputs r.

(** The obligations of the callers: [allocate] is only called for an item that is
    not cached and for which there is room. *)
Definition ec_pre (m : EncoderCacheManager) (op : ec_op) : Prop :=
  match op with
  | OpCheck r i | OpFreeInput r i => valid_input r i
  | OpCanAllocate r i _ _ => valid_input r i
  | OpAllocate r i => valid_input r i ∧
      ∃ f, mm_features r !! Z.to_nat i = Some f ∧ cached m !! identifier f = None ∧
        sz (identifier f) ≤ num_free_slots m
  | OpFree r => sized r
  | OpGetFreed | OpReset => True
  end.

Inductive ec_reach (size : Z) : EncoderCacheManager → Prop :=
  | ec_reach_init : ec_reach size (EncoderCacheManager_init size)
  | ec_reach_step m op m' :
      ec_reach size m → ec_pre m op → run_ec_op m op = Ok m' → ec_reach size m'.

Lemma run_ec_op_ok m op :
  EncOk m → ec_pre m op → ∃ m', run_ec_op m op = Ok m' ∧ EncOk m' ∧ ec_cache_size m' = ec_cache_size m.
Proof.
  intros HE Hpre. destruct op as [r i|r i b e|r i|r i|r| |]; cbn [run_ec_op ec_pre] in *.
  - destruct Hpre as [Hs Hi]. destruct (feature_at r i Hi Hs) as (f & Hf & _).
    pose proof (check_and_update_cache_spec m r i f HE Hs Hi Hf) as H.
    destruct (cached m !! identifier f); [destruct H as (m' & -> & ? & _ & _ & ? & _)|rewrite H]; eauto.
  - destruct Hpre as [Hs Hi]. destruct (feature_at r i Hi Hs) as (f & Hf & _).
    pose proof (can_allocate_spec m r i f b e HE Hs Hi Hf) as H. cbn in H. revert H.
    goal_bool as Hb; [intros (m' & ev & -> & ? & _ & _ & ?)|intros ->]; eauto.
  - destruct Hpre as [[Hs Hi] (f & Hf & Hc & Hz)].
    destruct (allocate_spec m r i f HE Hs Hi Hf Hc Hz) as (m' & -> & ? & _ & _ & ? & _); eauto.
  - destruct Hpre as [Hs Hi]. destruct (feature_at r i Hi Hs) as (f & Hf & _).
    destruct (free_encoder_input_spec m r i f HE Hs Hi Hf) as (m' & -> & ? & _ & _ & ? & _); eauto.
  - destruct (ec_free_spec m r HE Hpre) as (m' & -> & ? & _ & _ & ? & _); eauto.
  - eexists; split; [done|]. split; [|done]. by destruct HE.
  - eexists; split; [done|]. split; [|done]. apply init_EncOk. pose proof (EncOk_bounds m HE). lia.
Qed.

Lemma ec_reach_ok size m : 0 ≤ size → ec_reach size m → EncOk m ∧ ec_cache_size m = size.
Proof.
  intros Hz. induction 1 as [|m op m' _ [HE Hsz'] Hpre E]; [split; [by apply init_EncOk|done]|].
  destruct (run_ec_op_ok m op HE Hpre) as (m2 & E2 & ? & ?). rewrite E in E2. simplify_eq.
  split; [done|congruence].
Qed.
End Free.
End Invariant.

(** C26: From a fresh encoder cache, every sequence of the manager's operations that
    respects the callers' obligations returns, and at every point the free slots,
    the reclaimable slots and the capacity are ordered, the capacity is the free
    slots plus what the cached items take, and the freeable items are exactly the
    cached ones that no request references. *)
Theorem encoder_cache_safe sz set_order size m :
  (∀ h, 0 ≤ sz h) → (∀ l, set_order l ≡ₚ l) → 0 ≤ size → ec_reach sz set_order size m →
  0 ≤ num_free_slots m ≤ num_freeable_slots m ∧ num_freeable_slots m ≤ size ∧
  num_free_slots m + msum (w_all sz) (cached m) = size ∧
  NoDup (freeable m).*1 ∧
  (∀ h n, (h, n) ∈ freeable m ↔ cached m !! h = Some ∅ ∧ n = sz h) ∧
  ∀ op, ec_pre sz m op → ∃ m', run_ec_op set_order m op = Ok m' ∧ ec_reach sz set_order size m'.
Proof.
  intros Hsz Ho Hz Hr. destruct (ec_reach_ok sz Hsz set_order Ho size m Hz Hr) as [HE <-].
  pose proof (EncOk_bounds sz Hsz m HE) as Hb. pose proof HE as [H1 _ _ H4 H5].
  split_and!; [lia|lia|lia|done|done|done|]. intros op Hpre.
  destruct (run_ec_op_ok sz Hsz set_order Ho m op HE Hpre) as (m' & E & _). exists m'.
  split; [done|]. by eapply ec_reach_step.
Qed.

(** [can_allocate] answers [True] exactly when the item fits the compute budget
    and, with what is already planned, the reclaimable slots.  It then makes room by
    evicting only the oldest unreferenced items and no more than needed, reports them
    as freed, and never touches an item that a request references; when it answers
    [False] nothing changes. *)
Theorem can_allocate_correct sz m r i f budget extra :
  (∀ h, 0 ≤ sz h) → EncOk sz m → sized sz r → 0 ≤ i < num_encoder_inputs r →
  mm_features r !! Z.to_nat i = Some f →
  let need := sz (identifier f) + extra in
  ∃ m' ok evicted, can_allocate m r i budget extra = Ok (m', ok) ∧ EncOk sz m' ∧
    (ok = true ↔ sz (identifier f) ≤ budget ∧ need ≤ num_freeable_slots m) ∧
    (ok = false → m' = m) ∧
    (ok = true → need ≤ num_free_slots m' ∧ freeable m = evicted ++ freeable m' ∧
       freed m' = freed m ++ evicted.*1 ∧
       (∀ h n, last evicted = Some (h, n) → num_free_slots m' - n < need) ∧
       ∀ h refs, cached m !! h = Some refs → refs ≠ ∅ → cached m' !! h = Some refs).
Proof.
  intros Hsz HE Hs Hi Hf need. pose proof (can_allocate_spec sz Hsz m r i f budget extra HE Hs Hi Hf) as H.
  cbn in H. fold need in H. revert H. goal_bool as Hb.
  - intros (m' & ev & E & HE' & Hev & _). pose proof Hev as (H1 & H2 & H3 & H4 & H5 & H6 & H7).
    exists m', true, ev. split_and!; [done|done|done|done|]. intros _. split_and!; [done..|].
    intros h refs. by apply (evicts_keeps_refs sz Hsz need m m' ev).
  - intros E. exists m, false, []. by split_and!.
Qed.

(** ** Concrete instances *)

Definition sample_sz (h : string) : Z := 2.
Definition sample_feature (h : string) (off : Z) : MultiModalFeatureSpec :=
  mkMMFeature h (mkPlaceholder off 2 None).

(** A request with one image of two embeddings. *)
Definition image_request (rid h : string) : Request :=
  mkRequest rid None 0 0 None None None false (float_of_Z 1) WAITING None 16 (Some [1; 1; 1]) None
    3 [] [1; 1; 1] 0 false [] 0 None [sample_feature h 0] false 0 (float_of_Z 0) (float_of_Z 0) [] false false.

Lemma image_request_sized rid h : sized sample_sz (image_request rid h).
Proof. repeat constructor. Qed.

(** Two images fill a cache of four slots; the first is then released. *)
Definition sample_cache1 : EncoderCacheManager := mkEncoderCache 4 2 2 {[ "a" := {[ "r1" ]} ]} [] [].
Definition sample_cache2 : EncoderCacheManager :=
  mkEncoderCache 4 0 0 {[ "a" := {[ "r1" ]}; "b" := {[ "r2" ]} ]} [] [].
Definition sample_cache : EncoderCacheManager :=
  mkEncoderCache 4 0 2 {[ "a" := ∅; "b" := {[ "r2" ]} ]} [("a", 2)] [].

Lemma sample_cache_reach : ec_reach sample_sz id 4 sample_cache.
Proof.
  assert (∀ rid h, valid_input sample_sz (image_request rid h) 0) as Hv.
  { intros rid h. split; [apply image_request_sized|]. vm_compute. done. }
  apply (ec_reach_step _ _ _ sample_cache2 (OpFree (image_request "r1" "a")));
    [|apply image_request_sized|vm_compute; reflexivity].
  apply (ec_reach_step _ _ _ sample_cache1 (OpAllocate (image_request "r2" "b") 0)); [| |vm_compute; reflexivity].
  - apply (ec_reach_step _ _ _ (EncoderCacheManager_init 4) (OpAllocate (image_request "r1" "a") 0));
      [apply ec_reach_init| |vm_compute; reflexivity].
    split; [apply Hv|]. eexists; split; [reflexivity|]. split; [reflexivity|]. vm_compute. done.
  - split; [apply Hv|]. eexists; split; [reflexivity|]. split; [reflexivity|]. vm_compute. done.
Qed.

Lemma encoder_cache_safe_witness :
  ec_reach sample_sz id 4 sample_cache ∧
  num_free_slots sample_cache + msum (w_all sample_sz) (cached sample_cache) = 4.
Proof.
  split; [exact sample_cache_reach|].
  apply (encoder_cache_safe sample_sz id 4 sample_cache);
    [done|done|done|exact sample_cache_reach].
Defined.

(** A third image evicts the released one. *)
Lemma can_allocate_correct_witness :
  ∃ m', can_allocate sample_cache (image_request "r3" "c") 0 10 0 = Ok (m', true) ∧ freed m' = ["a"] ∧
    2 ≤ num_free_slots m'.
Proof.
  assert (EncOk sample_sz sample_cache) as HE.
  { eapply (ec_reach_ok sample_sz); [done| | |exact sample_cache_reach]; done. }
  destruct (can_allocate_correct sample_sz sample_cache (image_request "r3" "c") 0 (sample_feature "c" 0) 10 0)
    as (m' & ok & ev & E & _ & Hok & _ & Htrue);
    [done|exact HE|apply image_request_sized|vm_compute; done|reflexivity|].
  assert (ok = true) as -> by (apply Hok; vm_compute; done).
  exists m'. split; [exact E|]. destruct (Htrue eq_refl) as (Hn & _ & _ & _ & _).
  split; [|exact Hn]. vm_compute in E. injection E as <-. reflexivity.
Defined.
