(* ===== verification/EncoderSched.v ===== *)
(** * Scheduling encoder inputs

    [Scheduler._try_schedule_encoder_inputs] and [Scheduler._free_encoder_inputs] of
    [src/vllm/v1/core/sched/scheduler.py], the loops that allocate what was
    scheduled, and the loop of [GPUModelRunner._gather_mm_embeddings]
    ([src/vllm/v1/worker/gpu_model_runner.py]) that looks the encoder outputs up.
    The theorems connect the two sides: what the scheduler plans can be allocated,
    and the outputs the runner looks up are there.  The connector to a remote
    encoder cache is the parameter [ec_connector]. *)

From S2P Require Import Prelude PyFloat Request OrderedDict EncoderCache.

(** ** Dispatch on the manager *)

Definition is_encoder_decoder (c : encoder_cache) : bool :=
  match c with MultiModalCache _ => false | EncoderDecoderCache _ => true end.

Definition enc_check_and_update_cache (c : encoder_cache) (r : Request) (i : Z)
    : res (encoder_cache * bool) :=
  match c with
  | MultiModalCache m => '(m, b) ← check_and_update_cache m r i; Ok (MultiModalCache m, b)
  | EncoderDecoderCache m =>
      let '(m, b) := encdec_check_and_update_cache m r i in Ok (EncoderDecoderCache m, b)
  end.

Definition enc_can_allocate (c : encoder_cache) (r : Request) (i budget extra : Z)
    : res (encoder_cache * bool) :=
  match c with
  | MultiModalCache m => '(m, b) ← can_allocate m r i budget extra; Ok (MultiModalCache m, b)
  | EncoderDecoderCache m => b ← encdec_can_allocate m r i budget extra; Ok (c, b)
  end.

Definition enc_allocate (c : encoder_cache) (r : Request) (i : Z) : res encoder_cache :=
  match c with
  | MultiModalCache m => m ← allocate m r i; Ok (MultiModalCache m)
  | EncoderDecoderCache m => m ← encdec_allocate m r i; Ok (EncoderDecoderCache m)
  end.

Definition enc_get_cached_input_ids (c : encoder_cache) (r : Request) : list Z :=
  match c with
  | MultiModalCache m => get_cached_input_ids m r
  | EncoderDecoderCache m => encdec_get_cached_input_ids m r
  end.

Definition enc_free_encoder_input (c : encoder_cache) (r : Request) (i : Z) : res encoder_cache :=
  match c with
  | MultiModalCache m => m ← free_encoder_input m r i; Ok (MultiModalCache m)
  | EncoderDecoderCache m => m ← encdec_free_encoder_input m r i; Ok (EncoderDecoderCache m)
  end.

Definition enc_free (set_order : list Z → list Z) (c : encoder_cache) (r : Request)
    : res encoder_cache :=
  match c with
  | MultiModalCache m => m ← ec_free set_order m r; Ok (MultiModalCache m)
  | EncoderDecoderCache m => m ← encdec_free m r; Ok (EncoderDecoderCache m)
  end.

(** ** [_try_schedule_encoder_inputs] *)

(** The local variables of the loop. *)
Record enc_plan := mkPlan {
  encoder_inputs_to_schedule : list Z;
  plan_num_new_tokens : Z;
  plan_budget : Z;
  external_load_encoder_input : list Z;
  mm_hashes_to_schedule : list string;
  num_embeds_to_schedule : Z
}.

Definition plan_stop (p : enc_plan) (num_new_tokens : Z) : enc_plan :=
  mkPlan (encoder_inputs_to_schedule p) num_new_tokens (plan_budget p)
    (external_load_encoder_input p) (mm_hashes_to_schedule p) (num_embeds_to_schedule p).

Definition plan_external (p : enc_plan) (i : Z) (h : string) (n : Z) : enc_plan :=
  mkPlan (encoder_inputs_to_schedule p) (plan_num_new_tokens p) (plan_budget p)
    (external_load_encoder_input p ++ [i]) (h :: mm_hashes_to_schedule p) (num_embeds_to_schedule p + n).

Definition plan_input (p : enc_plan) (i : Z) (h : string) (n : Z) : enc_plan :=
  mkPlan (encoder_inputs_to_schedule p ++ [i]) (plan_num_new_tokens p) (plan_budget p - n)
    (external_load_encoder_input p) (h :: mm_hashes_to_schedule p) (num_embeds_to_schedule p + n).

Section TrySchedule.
Context (disable_chunked_mm_input : bool) (ec_connector : option (string → bool)).
Context (r : Request) (num_computed_tokens shift_computed_tokens : Z).

(** The input is already being scheduled or is in the cache. *)
Definition already_available (c : encoder_cache) (p : enc_plan) (i : Z) (f : MultiModalFeatureSpec)
    : res (encoder_cache * bool) :=
  if is_encoder_decoder c then Ok (c, false)
  else if bool_decide (identifier f ∈ mm_hashes_to_schedule p) then Ok (c, true)
  else enc_check_and_update_cache c r i.

(** The loop over [enumerate(mm_features)], from index [i]. *)
Fixpoint try_schedule_loop (c : encoder_cache) (p : enc_plan) (i : Z)
    (features : list MultiModalFeatureSpec) : res (encoder_cache * enc_plan) :=
  match features with
  | [] => Ok (c, p)
  | f :: features =>
      let start_pos := offset (mm_position f) in
      let num_encoder_tokens := length_ (mm_position f) in
      let num_encoder_embeds := get_num_embeds (mm_position f) in
      let num_new_tokens := plan_num_new_tokens p in
      if bool_decide (num_computed_tokens + num_new_tokens + shift_computed_tokens ≤ start_pos)
      then Ok (c, p)
      else if is_encoder_decoder c && bool_decide (0 < num_computed_tokens) then
        py_assert (bool_decide (start_pos = 0));;
        try_schedule_loop c p (i + 1) features
      else if bool_decide (start_pos + num_encoder_tokens ≤ num_computed_tokens)
      then try_schedule_loop c p (i + 1) features
      else
        '(c, skip) ← already_available c p i f;
        if (skip : bool) then try_schedule_loop c p (i + 1) features
        else if disable_chunked_mm_input && bool_decide (num_computed_tokens < start_pos)
                && bool_decide (num_computed_tokens + num_new_tokens < start_pos + num_encoder_tokens)
        then Ok (c, plan_stop p (Z.max 0 (start_pos - (num_computed_tokens + shift_computed_tokens))))
        else
          '(c, ok) ← enc_can_allocate c r i (plan_budget p) (num_embeds_to_schedule p);
          if negb ok then
            Ok (c, plan_stop p
                     (if bool_decide (num_computed_tokens + shift_computed_tokens < start_pos)
                      then start_pos - (num_computed_tokens + shift_computed_tokens) else 0))
          else
            '(curr_embeds_start, curr_embeds_end) ←
              get_embeds_indices_in_range (mm_position f)
                (Z.max 0 (num_computed_tokens - start_pos))
                (Z.min num_encoder_tokens (num_computed_tokens + num_new_tokens - start_pos));
            if bool_decide (curr_embeds_end - curr_embeds_start = 0)
            then try_schedule_loop c p (i + 1) features
            else if match ec_connector with Some has => has (identifier f) | None => false end
            then try_schedule_loop c (plan_external p i (identifier f) num_encoder_embeds) (i + 1) features
            else try_schedule_loop c (plan_input p i (identifier f) num_encoder_embeds) (i + 1) features
  end.

Definition _try_schedule_encoder_inputs (c : encoder_cache) (num_new_tokens encoder_compute_budget : Z)
    : res (encoder_cache * enc_plan) :=
  let p := mkPlan [] num_new_tokens encoder_compute_budget [] [] 0 in
  if bool_decide (num_new_tokens = 0) || negb (has_encoder_inputs r) then Ok (c, p)
  else
    py_assert (bool_decide (0 < zlen (mm_features r)));;
    try_schedule_loop c p 0 (mm_features r).
End TrySchedule.

(** The loops of [schedule] that allocate the scheduled and the external inputs. *)
Definition allocate_encoder_inputs (c : encoder_cache) (r : Request) (p : enc_plan) : res encoder_cache :=
  c ← foldM (λ c i, enc_allocate c r i) c (encoder_inputs_to_schedule p);
  foldM (λ c i, enc_allocate c r i) c (external_load_encoder_input p).

(** ** [_free_encoder_inputs] *)

(** The body of the loop. *)
Definition free_processed_input (r : Request) (c : encoder_cache) (i : Z) : res encoder_cache :=
  f ← py_nth (mm_features r) i;
  let start_pos := offset (mm_position f) in
  let num_tokens := length_ (mm_position f) in
  if is_encoder_decoder c && bool_decide (0 < num_computed_tokens r)
  then enc_free_encoder_input c r i
  else if bool_decide (start_pos + num_tokens ≤ num_computed_tokens r)
  then enc_free_encoder_input c r i
  else Ok c.

Definition _free_encoder_inputs (set_order : list Z → list Z) (c : encoder_cache) (r : Request)
    : res encoder_cache :=
  foldM (free_processed_input r) c (set_order (enc_get_cached_input_ids c r)).

(** ** [GPUModelRunner._gather_mm_embeddings] *)

(** The encoder outputs that the runner looks up for one request of the batch, and
    that have to be in its cache; [num_computed_tokens] is already shifted. *)
Fixpoint gather_mm_hashes (num_computed_tokens num_scheduled_tokens : Z)
    (features : list MultiModalFeatureSpec) : res (list string) :=
  match features with
  | [] => Ok []
  | f :: features =>
      let start_pos := offset (mm_position f) in
      let num_encoder_tokens := length_ (mm_position f) in
      if bool_decide (num_computed_tokens + num_scheduled_tokens ≤ start_pos) then Ok []
      else if bool_decide (start_pos + num_encoder_tokens ≤ num_computed_tokens)
      then gather_mm_hashes num_computed_tokens num_scheduled_tokens features
      else
        let start_idx := Z.max (num_computed_tokens - start_pos) 0 in
        let end_idx := Z.min (num_computed_tokens - start_pos + num_scheduled_tokens) num_encoder_tokens in
        py_assert (bool_decide (start_idx < end_idx));;
        '(curr_embeds_start, curr_embeds_end) ←
          get_embeds_indices_in_range (mm_position f) start_idx end_idx;
        if bool_decide (curr_embeds_start = curr_embeds_end)
        then gather_mm_hashes num_computed_tokens num_scheduled_tokens features
        else
          hs ← gather_mm_hashes num_computed_tokens num_scheduled_tokens features;
          Ok (identifier f :: hs)
  end.

(** ** Placeholder ranges *)

Definition placeholder_wf (p : PlaceholderRange) : Prop :=
  0 < length_ p ∧ match is_embed p with Some mask => zlen mask = length_ p | None => True end.

(** The number of embeddings before position [k] of a placeholder. *)
Definition embed_index (p : PlaceholderRange) (k : Z) : Z :=
  match is_embed p with
  | None => k
  | Some mask => zcount true (take (Z.to_nat k) mask)
  end.

Lemma cumsum_lookup mask : ∀ acc k, (k < length mask)%nat →
  cumsum_from acc mask !! k = Some (acc + zcount true (take (S k) mask)).
Proof.
  induction mask as [|b mask IH]; intros acc k Hk; [cbn in Hk; lia|]. cbn [cumsum_from take].
  rewrite zcount_cons. destruct k as [|k]; cbn [lookup list_lookup].
  - rewrite take_0 zcount_nil. f_equal. destruct b; repeat goal_decide; done || lia.
  - rewrite IH; [|cbn in Hk; lia]. f_equal. destruct b; repeat goal_decide; done || lia.
Qed.

Lemma embeds_in_range p s e :
  placeholder_wf p → 0 ≤ s ≤ length_ p → e ≤ length_ p →
  get_embeds_indices_in_range p s e = Ok (embed_index p s, embed_index p e).
Proof.
  intros [Hlen Hm] Hs He. unfold get_embeds_indices_in_range, embeds_cumsum, embed_index.
  destruct (is_embed p) as [mask|]; cbn [fmap option_fmap option_map]; [|done].
  assert (∀ k, k ≤ length_ p →
    (if bool_decide (0 < k) then py_nth (cumsum_from 0 mask) (k - 1) else Ok 0) =
    Ok (zcount true (take (Z.to_nat k) mask))) as Hidx.
  { intros k Hk. goal_bool as Hpos.
    - unfold zlen in Hm. apply py_nth_ok; [lia|]. rewrite cumsum_lookup; [|lia].
      replace (S (Z.to_nat (k - 1))) with (Z.to_nat k) by lia. done.
    - replace (Z.to_nat k) with 0%nat by lia. by rewrite take_0. }
  rewrite !Hidx; [done|lia..].
Qed.

Lemma zcount_take_mono {A} `{EqDecision A} (x : A) l i j :
  (i ≤ j)%nat → zcount x (take i l) ≤ zcount x (take j l).
Proof.
  intros Hij. replace j with (i + (j - i))%nat by lia. rewrite -take_take_drop zcount_app.
  pose proof (zcount_nonneg x (take (j - i) (drop i l))). lia.
Qed.

Lemma embed_index_mono p a b : a ≤ b → embed_index p a ≤ embed_index p b.
Proof.
  intros Hab. unfold embed_index. destruct (is_embed p); [|done]. apply zcount_take_mono. lia.
Qed.

(** ** The runner *)

Section Runner.
Context (nct n : Z).

(** The positions of the placeholder that the step processes. *)
Definition first_idx (f : MultiModalFeatureSpec) : Z := Z.max 0 (nct - offset (mm_position f)).
Definition end_idx (n : Z) (f : MultiModalFeatureSpec) : Z :=
  Z.min (length_ (mm_position f)) (nct + n - offset (mm_position f)).

(** The step reads an embedding of the item. *)
Definition needs (n : Z) (f : MultiModalFeatureSpec) : Prop :=
  offset (mm_position f) < nct + n ∧ nct < offset (mm_position f) + length_ (mm_position f) ∧
  embed_index (mm_position f) (first_idx f) ≠ embed_index (mm_position f) (end_idx n f).

Lemma gather_spec features :
  0 < n → Forall (λ f, placeholder_wf (mm_position f)) features →
  ∃ hs, gather_mm_hashes nct n features = Ok hs ∧
    ∀ h, h ∈ hs → ∃ f, f ∈ features ∧ identifier f = h ∧ needs n f.
Proof.
  intros Hn. induction features as [|f features IH]; intros Hwf; cbn [gather_mm_hashes].
  { exists []. split; [done|]. intros h Hh. by apply elem_of_nil in Hh. }
  apply Forall_cons in Hwf as [Hf Hwf]. destruct (IH Hwf) as (hs & -> & Hhs).
  assert (∀ h, h ∈ hs → ∃ f', f' ∈ f :: features ∧ identifier f' = h ∧ needs n f') as Hrest.
  { intros h (f' & ? & ? & ?)%Hhs. exists f'. split; [by right|done]. }
  goal_bool as H1. { exists []. split; [done|]. intros h Hh. by apply elem_of_nil in Hh. }
  goal_bool as H2; [by exists hs|]. pose proof Hf as [Hlen _].
  rewrite bool_decide_true; [|lia]. cbn [py_assert mbind res_bind].
  rewrite embeds_in_range; [|done|lia|lia]. cbn [mbind res_bind].
  goal_bool as H3; [by exists hs|]. eexists; split; [reflexivity|].
  intros h [->|Hh]%elem_of_cons; [|by apply Hrest]. exists f. split; [left|]. split; [done|].
  unfold needs, first_idx, end_idx. split_and!; [lia|lia|].
  by rewrite Z.max_comm Z.min_comm (_ : nct + n - offset (mm_position f) = nct - offset (mm_position f) + n); [|lia].
Qed.
End Runner.

(** ** The plan *)

Section Plan.
Context (sz : string → Z) (Hsz : ∀ h, 0 ≤ sz h).
Context (r : Request) (Hsized : sized sz r).

Definition total (hs : list string) : Z := foldr (λ h acc, sz h + acc) 0 hs.

Lemma total_nonneg hs : 0 ≤ total hs.
Proof. unfold total. induction hs as [|h hs IH]; cbn; [done|]. specialize (Hsz h). lia. Qed.
Lemma total_perm hs1 hs2 : hs1 ≡ₚ hs2 → total hs1 = total hs2.
Proof. unfold total. induction 1; cbn; lia. Qed.

Definition plan_ids (p : enc_plan) : list Z := encoder_inputs_to_schedule p ++ external_load_encoder_input p.

(** What the plan promises: the planned items are distinct, not cached, and fit. *)
Record plan_ok (m : EncoderCacheManager) (p : enc_plan) : Prop := {
  po_ids : Forall (λ i, 0 ≤ i < num_encoder_inputs r) (plan_ids p);
  po_hashes : mm_hashes_to_schedule p ≡ₚ hashes_of r (plan_ids p);
  po_nodup : NoDup (mm_hashes_to_schedule p);
  po_fresh : ∀ h, h ∈ mm_hashes_to_schedule p → cached m !! h = None;
  po_embeds : num_embeds_to_schedule p = total (mm_hashes_to_schedule p);
  po_fits : num_embeds_to_schedule p ≤ num_free_slots m;
  po_new : 0 ≤ plan_num_new_tokens p
}.

(** References are kept. *)
Definition refs_kept (m m' : EncoderCacheManager) : Prop :=
  ∀ h refs, cached m !! h = Some refs → refs ≠ ∅ → ∃ refs', cached m' !! h = Some refs' ∧ refs ⊆ refs'.

Lemma refs_kept_refl m : refs_kept m m.
Proof. intros h refs Hh _. by exists refs. Qed.
Lemma refs_kept_trans m1 m2 m3 : refs_kept m1 m2 → refs_kept m2 m3 → refs_kept m1 m3.
Proof.
  intros H12 H23 h refs Hh Hne. destruct (H12 h refs Hh Hne) as (s2 & Hh2 & Hs2).
  destruct (H23 h s2 Hh2) as (s3 & ? & ?); [set_solver|]. exists s3. split; [done|set_solver].
Qed.

(** The request holds a reference to the item. *)
Definition holds (m : EncoderCacheManager) (h : string) : Prop :=
  ∃ refs, cached m !! h = Some refs ∧ request_id r ∈ refs.

Lemma holds_kept m m' h : refs_kept m m' → holds m h → holds m' h.
Proof.
  intros Hk (refs & Hh & Hin). destruct (Hk h refs Hh) as (refs' & ? & ?); [set_solver|].
  exists refs'. split; [done|set_solver].
Qed.

(** A manager step that only removes unreferenced entries or adds references. *)
Definition enc_step (m m' : EncoderCacheManager) : Prop :=
  EncOk sz m' ∧ ec_cache_size m' = ec_cache_size m ∧ refs_kept m m' ∧
  num_free_slots m ≤ num_free_slots m' ∧ (∀ h, cached m !! h = None → cached m' !! h = None).

Lemma enc_step_refl m : EncOk sz m → enc_step m m.
Proof. intros HE. split_and!; [done|done|apply refs_kept_refl|done|done]. Qed.

Lemma enc_step_trans m1 m2 m3 : enc_step m1 m2 → enc_step m2 m3 → enc_step m1 m3.
Proof.
  intros (? & ? & ? & ? & ?) (? & ? & ? & ? & ?).
  split_and!; [done|congruence|by eapply refs_kept_trans|lia|auto].
Qed.

Lemma plan_ok_step m m' p : enc_step m m' → plan_ok m p → plan_ok m' p.
Proof.
  intros (_ & _ & _ & Hn & Hc) [H1 H2 H3 H4 H5 H6 H7]. split; [done..| |done|lia|done]. auto.
Qed.

Lemma plan_stop_ok m p n : 0 ≤ n → plan_ok m p → plan_ok m (plan_stop p n).
Proof. intros Hn [H1 H2 H3 H4 H5 H6 H7]. by split. Qed.

(** Planning one more item. *)
Lemma plan_add_ok m p i f (external : bool) :
  0 ≤ i < num_encoder_inputs r → mm_features r !! Z.to_nat i = Some f →
  identifier f ∉ mm_hashes_to_schedule p → cached m !! identifier f = None →
  sz (identifier f) + num_embeds_to_schedule p ≤ num_free_slots m → plan_ok m p →
  plan_ok m (if external then plan_external p i (identifier f) (sz (identifier f))
             else plan_input p i (identifier f) (sz (identifier f))).
Proof.
  intros Hi Hf Hnin Hc Hfit [H1 H2 H3 H4 H5 H6 H7].
  assert (Permutation (plan_ids (if external then plan_external p i (identifier f) (sz (identifier f))
             else plan_input p i (identifier f) (sz (identifier f)))) (i :: plan_ids p)) as HP.
  { unfold plan_ids. destruct external; cbn; solve_Permutation. }
  split.
  - rewrite HP. by constructor.
  - unfold hashes_of. rewrite HP. cbn [omap list_omap]. rewrite Hf. cbn.
    destruct external; cbn; by rewrite H2.
  - destruct external; cbn; by constructor.
  - destruct external; cbn; intros h [->|Hh]%elem_of_cons; auto.
  - destruct external; cbn; rewrite H5; unfold total; lia.
  - destruct external; cbn; lia.
  - by destruct external.
Qed.

Lemma available_step m p i f :
  EncOk sz m → 0 ≤ i < num_encoder_inputs r → mm_features r !! Z.to_nat i = Some f →
  ∃ m' (skip : bool), already_available r (MultiModalCache m) p i f = Ok (MultiModalCache m', skip) ∧
    enc_step m m' ∧
    if skip then identifier f ∈ mm_hashes_to_schedule p ∨ holds m' (identifier f)
    else m' = m ∧ (identifier f ∉ mm_hashes_to_schedule p) ∧ cached m !! identifier f = None.
Proof.
  intros HE Hi Hf. unfold already_available. cbn [is_encoder_decoder]. goal_bool as Hin.
  { exists m, true. split_and!; [done|by apply enc_step_refl|by left]. }
  pose proof (check_and_update_cache_spec sz Hsz m r i f HE Hsized Hi Hf) as H. cbn [enc_check_and_update_cache].
  destruct (cached m !! identifier f) as [refs|] eqn:Ec.
  - destruct H as (m' & -> & HE' & Hc & Hn & Hz & _). exists m', true. split; [done|]. split.
    + split_and!; [done|done| |lia|].
      * intros h s Hh Hne. rewrite Hc. destruct (decide (h = identifier f)) as [->|].
        { rewrite lookup_insert_eq. eexists; split; [done|]. rewrite Ec in Hh. set_solver. }
        rewrite lookup_insert_ne //. by exists s.
      * intros h Hh. rewrite Hc lookup_insert_ne //. congruence.
    + right. eexists. rewrite Hc lookup_insert_eq. split; [done|set_solver].
  - rewrite H. exists m, false. split_and!; [done|by apply enc_step_refl|done|done|done].
Qed.

Lemma can_allocate_step m p i f :
  EncOk sz m → 0 ≤ i < num_encoder_inputs r → mm_features r !! Z.to_nat i = Some f →
  ∃ m' (ok : bool), enc_can_allocate (MultiModalCache m) r i (plan_budget p) (num_embeds_to_schedule p) =
      Ok (MultiModalCache m', ok) ∧ enc_step m m' ∧
    (ok = true → sz (identifier f) ≤ plan_budget p ∧
       sz (identifier f) + num_embeds_to_schedule p ≤ num_free_slots m').
Proof.
  intros HE Hi Hf. cbn [enc_can_allocate].
  pose proof (can_allocate_spec sz Hsz m r i f (plan_budget p) (num_embeds_to_schedule p) HE Hsized Hi Hf) as H.
  cbn in H. revert H. goal_bool as Hb.
  - intros (m' & ev & -> & HE' & Hev & Hfz & Hz). exists m', true. split; [done|].
    pose proof Hev as (_ & H2 & H3 & _ & H5 & _ & _). split; [|intros _; split; [by destruct Hb|done]].
    split_and!; [done|done| |done|].
    + intros h refs Hh Hne. exists refs. split; [by apply (evicts_keeps_refs sz Hsz _ m m' ev h refs HE Hev)|done].
    + intros h Hh. rewrite H5. by goal_bool as Hx.
  - intros ->. exists m, false. split_and!; [done|by apply enc_step_refl|done].
Qed.

Section Loop.
Context (disable_chunked : bool) (conn : option (string → bool)) (nct shift : Z).

(** What the step needs of an item is planned or held. *)
Definition covered (m : EncoderCacheManager) (p : enc_plan) (n : Z) (f : MultiModalFeatureSpec) : Prop :=
  needs nct n f → identifier f ∈ mm_hashes_to_schedule p ∨ holds m (identifier f).

Definition by_offset : relation MultiModalFeatureSpec :=
  λ f g, offset (mm_position f) ≤ offset (mm_position g).

Record loop_post (m : EncoderCacheManager) (p : enc_plan) (fs : list MultiModalFeatureSpec)
    (m' : EncoderCacheManager) (p' : enc_plan) : Prop := {
  lp_step : enc_step m m';
  lp_plan : plan_ok m' p';
  lp_new : plan_num_new_tokens p' ≤ plan_num_new_tokens p;
  lp_budget : plan_budget p' ≤ plan_budget p ∧ (0 ≤ plan_budget p → 0 ≤ plan_budget p');
  lp_hashes : mm_hashes_to_schedule p ⊆ mm_hashes_to_schedule p';
  lp_covered : shift = 0 → 0 < plan_num_new_tokens p' → StronglySorted by_offset fs →
    Forall (covered m' p' (plan_num_new_tokens p')) fs
}.

(** The loop ends before [f], because the step does not reach it. *)
Lemma loop_post_stop m p m' n f fs :
  enc_step m m' → plan_ok m p → 0 ≤ n ≤ plan_num_new_tokens p →
  (shift = 0 → 0 < n → nct + n ≤ offset (mm_position f)) →
  loop_post m p (f :: fs) m' (plan_stop p n).
Proof.
  intros Hs Hp Hn Hoff. split; cbn; [done| |lia|done|done|].
  { apply plan_stop_ok; [lia|]. by eapply plan_ok_step. }
  intros Hshift Hpos [_ Hsort]%StronglySorted_inv. specialize (Hoff Hshift Hpos). constructor.
  - intros (? & _ & _). lia.
  - eapply Forall_impl; [done|]. unfold by_offset. intros g Hg (? & _ & _). lia.
Qed.

(** The loop goes on after [f]. *)
Lemma loop_post_cons m p m1 p1 m' p' f fs :
  enc_step m m1 → plan_num_new_tokens p1 = plan_num_new_tokens p →
  plan_budget p1 ≤ plan_budget p ∧ (0 ≤ plan_budget p → 0 ≤ plan_budget p1) →
  mm_hashes_to_schedule p ⊆ mm_hashes_to_schedule p1 →
  (∀ n, 0 ≤ n ≤ plan_num_new_tokens p → covered m1 p1 n f) →
  loop_post m1 p1 fs m' p' → loop_post m p (f :: fs) m' p'.
Proof.
  intros Hs Hn Hb Hh Hf [H1 H2 H3 H4 H5 H6]. split; [by eapply enc_step_trans|done|lia|lia|set_solver|].
  intros Hshift Hpos [Hsort _]%StronglySorted_inv. constructor; [|by apply H6].
  intros Hneed. destruct (Hf (plan_num_new_tokens p') ltac:(lia) Hneed) as [Hin|Hh'].
  - left. set_solver.
  - right. eapply holds_kept; [|done]. by destruct H1 as (_ & _ & ? & _).
Qed.

#[local] Abbreviation try_loop := (try_schedule_loop disable_chunked conn r nct shift).

Lemma plan_stop_same p : plan_stop p (plan_num_new_tokens p) = p.
Proof. by destruct p. Qed.

(** An item of which the step reads no embedding. *)
Lemma no_embeds_covered m p f n :
  placeholder_wf (mm_position f) →
  embed_index (mm_position f) (end_idx nct n f) - embed_index (mm_position f) (first_idx nct f) = 0 →
  ∀ n', 0 ≤ n' ≤ n → covered m p n' f.
Proof.
  intros [Hlen _] Hz n' Hn (H1 & H2 & []).
  pose proof (embed_index_mono (mm_position f) (first_idx nct f) (end_idx nct n' f)) as M1.
  pose proof (embed_index_mono (mm_position f) (end_idx nct n' f) (end_idx nct n f)) as M2.
  assert (first_idx nct f ≤ end_idx nct n' f) as L1 by (unfold first_idx, end_idx; lia).
  assert (end_idx nct n' f ≤ end_idx nct n f) as L2 by (unfold end_idx; lia). lia.
Qed.

Lemma try_loop_spec fs : ∀ i m p,
  EncOk sz m → plan_ok m p → 0 ≤ i → drop (Z.to_nat i) (mm_features r) = fs →
  Forall (λ f, placeholder_wf (mm_position f)) fs → 0 ≤ shift →
  ∃ m' p', try_loop (MultiModalCache m) p i fs = Ok (MultiModalCache m', p') ∧ loop_post m p fs m' p'.
Proof.
  induction fs as [|f fs IH]; intros i m p HE Hp Hi Hdrop Hwf Hshift; cbn [try_schedule_loop].
  { exists m, p. split; [done|]. split; [by apply enc_step_refl|done|lia|lia|done|done]. }
  assert (mm_features r !! Z.to_nat i = Some f) as Hf.
  { rewrite -(Nat.add_0_r (Z.to_nat i)) -lookup_drop Hdrop. done. }
  assert (0 ≤ i < num_encoder_inputs r) as Hir.
  { apply lookup_lt_Some in Hf. unfold num_encoder_inputs, zlen. lia. }
  assert (drop (Z.to_nat (i + 1)) (mm_features r) = fs) as Hdrop'.
  { rewrite Z2Nat.inj_add // -drop_drop Hdrop. done. }
  apply Forall_cons in Hwf as [Hwf1 Hwf]. pose proof (po_new _ _ Hp) as Hnew0.
  assert (get_num_embeds (mm_position f) = sz (identifier f)) as ->.
  { pose proof Hsized as Hall. unfold sized in Hall. rewrite Forall_lookup in Hall. by eapply Hall. }
  goal_bool as Hb.
  { exists m, p. split; [done|]. rewrite -{2}(plan_stop_same p).
    apply loop_post_stop; [by apply enc_step_refl|done|lia|lia]. }
  cbn [is_encoder_decoder andb]. goal_bool as Hdone.
  { destruct (IH (i + 1) m p HE Hp ltac:(lia) Hdrop' Hwf Hshift) as (m' & p' & E & HL).
    exists m', p'. split; [exact E|].
    eapply loop_post_cons; [by apply enc_step_refl|done|lia|done| |done]. intros n _ (_ & ? & _). lia. }
  destruct (available_step m p i f HE Hir Hf) as (m1 & skip & -> & Hs1 & Hskip). cbn [mbind res_bind].
  destruct skip.
  { pose proof Hs1 as (HE1 & _).
    destruct (IH (i + 1) m1 p HE1 (plan_ok_step _ _ _ Hs1 Hp) ltac:(lia) Hdrop' Hwf Hshift) as (m' & p' & E & HL).
    exists m', p'. split; [exact E|]. eapply loop_post_cons; [done|done|lia|done| |done]. by intros n _ _. }
  destruct Hskip as (-> & Hnin & Hnc).
  destruct (disable_chunked && bool_decide (nct < _) && bool_decide (_ < _)) eqn:Hroll.
  { eexists _, _. split; [reflexivity|]. apply loop_post_stop; [done|done|lia|lia]. }
  destruct (can_allocate_step m p i f HE Hir Hf) as (m2 & ok & -> & Hs2 & Hok). cbn [mbind res_bind].
  destruct ok; cbn [negb]; last first.
  { eexists _, _. split; [reflexivity|]. apply loop_post_stop; [done|done| |]; goal_bool as Hlt; lia. }
  destruct (Hok eq_refl) as [Hbud Hfit]. pose proof Hs2 as (HE2 & _ & _ & _ & Hnone).
  pose proof Hwf1 as [Hlen1 _].
  rewrite embeds_in_range; [|done|lia|lia]. cbn [mbind res_bind].
  goal_bool as Hz.
  { destruct (IH (i + 1) m2 p HE2 (plan_ok_step _ _ _ Hs2 Hp) ltac:(lia) Hdrop' Hwf Hshift) as (m' & p' & E & HL).
    exists m', p'. split; [exact E|]. eapply loop_post_cons; [done|done|lia|done| |done].
    by apply no_embeds_covered. }
  set (ext := match conn with Some has => has (identifier f) | None => false end).
  pose proof (plan_add_ok m2 p i f ext Hir Hf Hnin (Hnone _ Hnc) Hfit (plan_ok_step _ _ _ Hs2 Hp)) as Hp2.
  destruct (IH (i + 1) m2 _ HE2 Hp2 ltac:(lia) Hdrop' Hwf Hshift) as (m' & p' & E & HL).
  exists m', p'. split; [by destruct ext|].
  pose proof (Hsz (identifier f)) as Hszf.
  eapply loop_post_cons; [done| | | | |exact HL].
  - by destruct ext.
  - destruct ext; cbn; lia.
  - intros h Hh. destruct ext; by right.
  - intros n _ _. left. destruct ext; left.
Qed.
End Loop.

Lemma allocate_ids_spec ids : ∀ m,
  EncOk sz m → Forall (λ i, 0 ≤ i < num_encoder_inputs r) ids → NoDup (hashes_of r ids) →
  (∀ h, h ∈ hashes_of r ids → cached m !! h = None) → total (hashes_of r ids) ≤ num_free_slots m →
  ∃ m', foldM (λ c i, enc_allocate c r i) (MultiModalCache m) ids = Ok (MultiModalCache m') ∧
    EncOk sz m' ∧ refs_kept m m' ∧ (∀ h, h ∈ hashes_of r ids → holds m' h).
Proof.
  induction ids as [|i ids IH]; intros m HE Hids Hnd Hfresh Hfit; cbn [foldM].
  { exists m. split_and!; [done|done|apply refs_kept_refl|]. intros h Hh. by apply elem_of_nil in Hh. }
  apply Forall_cons in Hids as [Hi Hids]. destruct (feature_at sz r i Hi Hsized) as (f & Hf & _ & _).
  assert (hashes_of r (i :: ids) = identifier f :: hashes_of r ids) as Ehs.
  { unfold hashes_of. cbn [omap list_omap]. by rewrite Hf. }
  rewrite Ehs in Hnd, Hfresh, Hfit |- *. apply NoDup_cons in Hnd as [Hnin Hnd].
  pose proof (total_nonneg (hashes_of r ids)) as Hpos. unfold total in Hfit, Hpos. cbn in Hfit.
  destruct (allocate_spec sz Hsz m r i f HE Hsized Hi Hf) as (m1 & E1 & HE1 & Hc1 & Hn1 & _);
    [apply Hfresh; left|lia|].
  cbn [enc_allocate]. rewrite E1. cbn [mbind res_bind].
  destruct (IH m1 HE1 Hids Hnd) as (m2 & E2 & HE2 & Hk2 & Hh2); [|unfold total; lia|].
  { intros h Hh. rewrite Hc1 lookup_insert_ne; [|congruence]. apply Hfresh. by right. }
  exists m2. split_and!; [exact E2|done| |].
  - eapply refs_kept_trans; [|done]. intros h refs Hh Hne. exists refs. split; [|done].
    rewrite Hc1 lookup_insert_ne //. intros <-. rewrite (Hfresh (identifier f)) // in Hh. left.
  - intros h [->|Hh]%elem_of_cons; [|by apply Hh2]. eapply holds_kept; [done|].
    exists {[request_id r]}. rewrite Hc1 lookup_insert_eq. split; [done|set_solver].
Qed.

Lemma allocate_plan_spec m p :
  EncOk sz m → plan_ok m p →
  ∃ m', allocate_encoder_inputs (MultiModalCache m) r p = Ok (MultiModalCache m') ∧
    EncOk sz m' ∧ refs_kept m m' ∧ (∀ h, h ∈ mm_hashes_to_schedule p → holds m' h).
Proof.
  intros HE [H1 H2 H3 H4 H5 H6 H7].
  destruct (allocate_ids_spec (plan_ids p) m HE H1) as (m' & E & HE' & Hk & Hh).
  - by rewrite -H2.
  - intros h Hh. apply H4. by rewrite H2.
  - rewrite -(total_perm _ _ H2). lia.
  - exists m'. split_and!; [|done|done|]; [|intros h Hin; apply Hh; by rewrite -H2].
    unfold allocate_encoder_inputs. rewrite -E. unfold plan_ids. by rewrite foldM_app.
Qed.

Lemma try_schedule_spec dis conn nct shift m new budget :
  EncOk sz m → Forall (λ f, placeholder_wf (mm_position f)) (mm_features r) → 0 ≤ shift → 0 ≤ new →
  let p0 := mkPlan [] new budget [] [] 0 in
  ∃ m' p, _try_schedule_encoder_inputs dis conn r nct shift (MultiModalCache m) new budget =
      Ok (MultiModalCache m', p) ∧ loop_post nct shift m p0 (mm_features r) m' p.
Proof.
  intros HE Hwf Hshift Hnew p0. pose proof (EncOk_bounds sz Hsz m HE) as Hb.
  assert (plan_ok m p0) as Hp0.
  { split; cbn; [by constructor|done|apply NoDup_nil_2| |done|lia|done]. intros h Hh. by apply elem_of_nil in Hh. }
  unfold _try_schedule_encoder_inputs, has_encoder_inputs. fold p0.
  destruct (bool_decide (new = 0) || negb (bool_decide (0 < num_encoder_inputs r))) eqn:E.
  - exists m, p0. split; [done|]. split; [by apply enc_step_refl|done|done|done|done|].
    intros _ Hpos _. cbn in Hpos. rewrite bool_decide_false in E; [|lia]. cbn in E.
    rewrite negb_true_iff bool_decide_eq_false in E. unfold num_encoder_inputs, zlen in E.
    destruct (mm_features r); [done|cbn in E; lia].
  - apply orb_false_iff in E as [_ E]. rewrite negb_false_iff bool_decide_eq_true in E.
    unfold num_encoder_inputs in E. rewrite bool_decide_true //. cbn [py_assert mbind res_bind].
    by apply try_loop_spec.
Qed.
End Plan.

(** C28: For a multi-modal model the scheduler's plan of encoder inputs is sound: it
    returns, it only shortens the step, it stays within the compute budget, and all
    planned inputs can be allocated in the encoder cache without violating an
    assertion, after which the cache is consistent. *)
Theorem encoder_plan_sound sz dis conn r nct shift m new budget :
  (∀ h, 0 ≤ sz h) → sized sz r → Forall (λ f, placeholder_wf (mm_position f)) (mm_features r) →
  EncOk sz m → 0 ≤ shift → 0 ≤ new → 0 ≤ budget →
  ∃ m1 p m2,
    _try_schedule_encoder_inputs dis conn r nct shift (MultiModalCache m) new budget = Ok (MultiModalCache m1, p) ∧
    0 ≤ plan_num_new_tokens p ≤ new ∧ 0 ≤ plan_budget p ≤ budget ∧
    allocate_encoder_inputs (MultiModalCache m1) r p = Ok (MultiModalCache m2) ∧
    EncOk sz m2 ∧ refs_kept m m2 ∧ ∀ h, h ∈ mm_hashes_to_schedule p → holds r m2 h.
Proof.
  intros Hsz Hs Hwf HE Hshift Hnew Hbud.
  destruct (try_schedule_spec sz Hsz r Hs dis conn nct shift m new budget HE Hwf Hshift Hnew)
    as (m1 & p & E & [(HE1 & _ & Hk1 & _) Hp Hn Hb _ _]).
  destruct (allocate_plan_spec sz Hsz r Hs m1 p HE1 Hp) as (m2 & E2 & HE2 & Hk2 & Hh).
  pose proof (po_new _ _ _ _ Hp). cbn in Hn, Hb.
  exists m1, p, m2. split_and!; [done|lia|lia|lia|lia|done|done|by eapply refs_kept_trans|done].
Qed.

(** C27: Every encoder output that the model runner looks up for the tokens of the step
    is held by the request in the encoder cache once the plan is allocated, when
    the step is not shifted and the items are ordered by their position. *)
Theorem encoder_outputs_ready sz dis conn r nct m new budget m1 p m2 :
  (∀ h, 0 ≤ sz h) → sized sz r → Forall (λ f, placeholder_wf (mm_position f)) (mm_features r) →
  StronglySorted by_offset (mm_features r) → EncOk sz m → 0 ≤ new →
  _try_schedule_encoder_inputs dis conn r nct 0 (MultiModalCache m) new budget = Ok (MultiModalCache m1, p) →
  allocate_encoder_inputs (MultiModalCache m1) r p = Ok (MultiModalCache m2) →
  0 < plan_num_new_tokens p →
  ∃ hs, gather_mm_hashes nct (plan_num_new_tokens p) (mm_features r) = Ok hs ∧ Forall (holds r m2) hs.
Proof.
  intros Hsz Hs Hwf Hsort HE Hnew E1 E2 Hpos.
  destruct (try_schedule_spec sz Hsz r Hs dis conn nct 0 m new budget HE Hwf) as (m1' & p' & E1' & HL); [done..|].
  rewrite E1 in E1'. injection E1' as <- <-. destruct HL as [(HE1 & _) Hp _ _ _ Hcov].
  destruct (allocate_plan_spec sz Hsz r Hs m1 p HE1 Hp) as (m2' & E2' & _ & Hk & Hh).
  rewrite E2 in E2'. injection E2' as <-.
  destruct (gather_spec nct (plan_num_new_tokens p) (mm_features r) Hpos Hwf) as (hs & Eg & Hneed).
  exists hs. split; [done|]. apply Forall_forall. intros h (f & Hf & <- & Hn)%Hneed.
  specialize (Hcov eq_refl Hpos Hsort). rewrite Forall_forall in Hcov.
  destruct (Hcov f Hf Hn) as [Hin|Hhold]; [by apply Hh|by eapply holds_kept].
Qed.

(** ** The shifted step of EAGLE *)

(** Four text tokens followed by an image of two tokens. *)
Definition shifted_request : Request :=
  mkRequest "r" None 0 0 None None None false (float_of_Z 1) WAITING None 16 (Some [1; 1; 1; 1; 7; 7]) None
    6 [] [1; 1; 1; 1; 7; 7] 0 false [] 0 None [sample_feature "a" 4] false 0 (float_of_Z 0) (float_of_Z 0)
    [] false false.

(** With EAGLE the scheduler looks one token ahead, but when a chunk ends exactly
    where an image begins, the range of embeddings it computes is not shifted, so
    the image is skipped: all four tokens are scheduled and nothing is planned or
    cached, although the drafter's shifted step looks the image's output up. *)
Theorem eagle_misses_encoder_input :
  ∃ m p, _try_schedule_encoder_inputs false None shifted_request 0 1
           (MultiModalCache (EncoderCacheManager_init 8)) 4 8 = Ok (MultiModalCache m, p) ∧
    plan_num_new_tokens p = 4 ∧ encoder_inputs_to_schedule p = [] ∧ external_load_encoder_input p = [] ∧
    cached m = ∅ ∧ gather_mm_hashes (0 + 1) 4 (mm_features shifted_request) = Ok ["a"].
Proof. eexists _, _. vm_compute. by split_and!. Qed.

(** ** Encoder-decoder models *)

Lemma encdec_free_ids_spec sz r ids : ∀ m,
  sized sz r → 0 < num_computed_tokens r → Forall (λ i, 0 ≤ i < num_encoder_inputs r) ids →
  ∃ m', foldM (free_processed_input r) (EncoderDecoderCache m) ids = Ok (EncoderDecoderCache m') ∧
    ed_num_free_slots m' = ed_num_free_slots m + total sz (hashes_of r ids) ∧
    ed_cache_size m' = ed_cache_size m.
Proof.
  induction ids as [|i ids IH]; intros m Hs Hn Hids; cbn [foldM].
  { exists m. split_and!; [done|cbn; lia|done]. }
  apply Forall_cons in Hids as [Hi Hids]. destruct (feature_at sz r i Hi Hs) as (f & Hf & Ep & En).
  set (m1 := mkEncDecCache (ed_cache_size m) (ed_num_free_slots m + sz (identifier f)) (allocated m) (to_free m)).
  assert (free_processed_input r (EncoderDecoderCache m) i = Ok (EncoderDecoderCache m1)) as ->.
  { unfold free_processed_input. rewrite Ep. cbn [mbind res_bind is_encoder_decoder andb].
    rewrite (bool_decide_true (0 < _)) //. cbn [enc_free_encoder_input]. unfold encdec_free_encoder_input.
    by rewrite En. }
  cbn [mbind res_bind]. destruct (IH m1 Hs Hn Hids) as (m' & -> & E & Ez).
  exists m'. split_and!; [done| |done]. rewrite E. unfold hashes_of. cbn [omap list_omap].
  rewrite Hf. cbn. unfold total. lia.
Qed.

Lemma hashes_of_from r fs : ∀ i,
  0 ≤ i → drop (Z.to_nat i) (mm_features r) = fs → hashes_of r (seqZ i (zlen fs)) = identifier <$> fs.
Proof.
  induction fs as [|f fs IH]; intros i Hi Hd; [done|]. rewrite zlen_cons.
  rewrite seqZ_cons; [|pose proof (zlen_nonneg fs); lia].
  unfold hashes_of in *. cbn [omap list_omap].
  rewrite -(Nat.add_0_r (Z.to_nat i)) -lookup_drop Hd. cbn. f_equal.
  replace (Z.pred (1 + zlen fs)) with (zlen fs) by lia. apply IH; [lia|].
  replace (Z.to_nat (Z.succ i)) with (Z.to_nat i + 1)%nat by lia. by rewrite -drop_drop Hd.
Qed.

(** For encoder-decoder models every step that processes a running request frees
    all its encoder inputs again, whether or not they were freed before, so the
    number of free slots grows by their size with each step and exceeds the size
    of the cache. *)
Theorem encdec_free_slots_grow sz set_order m r :
  (∀ l, set_order l ≡ₚ l) → sized sz r → 0 < num_computed_tokens r →
  ∃ m', _free_encoder_inputs set_order (EncoderDecoderCache m) r = Ok (EncoderDecoderCache m') ∧
    ed_cache_size m' = ed_cache_size m ∧
    ed_num_free_slots m' = ed_num_free_slots m + total sz (identifier <$> mm_features r).
Proof.
  intros Ho Hs Hn. cbn [_free_encoder_inputs].
  destruct (encdec_free_ids_spec sz r (set_order (encdec_get_cached_input_ids m r)) m Hs Hn) as (m' & E & Hf & Hz).
  { rewrite Ho. apply Forall_forall. intros i. unfold encdec_get_cached_input_ids, zrange, num_encoder_inputs.
    rewrite elem_of_seqZ. lia. }
  exists m'. split_and!; [exact E|done|]. rewrite Hf. f_equal. apply total_perm.
  unfold hashes_of. rewrite Ho.
  fold (hashes_of r (encdec_get_cached_input_ids m r)). unfold encdec_get_cached_input_ids, zrange.
  rewrite Z.sub_0_r. by rewrite (hashes_of_from r (mm_features r) 0).
Qed.

(** ** Concrete instances *)

Lemma encoder_plan_sound_witness :
  ∃ m1 p m2,
    _try_schedule_encoder_inputs true None shifted_request 0 0
      (MultiModalCache (EncoderCacheManager_init 8)) 6 8 = Ok (MultiModalCache m1, p) ∧
    allocate_encoder_inputs (MultiModalCache m1) shifted_request p = Ok (MultiModalCache m2) ∧
    encoder_inputs_to_schedule p = [0] ∧ EncOk sample_sz m2.
Proof.
  destruct (encoder_plan_sound sample_sz true None shifted_request 0 0 (EncoderCacheManager_init 8) 6 8)
    as (m1 & p & m2 & E1 & _ & _ & E2 & HE & _); [done|by repeat constructor|repeat constructor; done|
    apply init_EncOk; done|done|done|done|].
  exists m1, p, m2. split; [exact E1|]. split; [exact E2|]. split; [|exact HE].
  vm_compute in E1. injection E1 as <- <-. reflexivity.
Defined.

Lemma encoder_outputs_ready_witness :
  ∃ m1 p m2,
    _try_schedule_encoder_inputs true None shifted_request 0 0
      (MultiModalCache (EncoderCacheManager_init 8)) 6 8 = Ok (MultiModalCache m1, p) ∧
    allocate_encoder_inputs (MultiModalCache m1) shifted_request p = Ok (MultiModalCache m2) ∧
    gather_mm_hashes 0 6 (mm_features shifted_request) = Ok ["a"] ∧ holds shifted_request m2 "a".
Proof.
  eexists _, _, _. split; [vm_compute; reflexivity|]. split; [vm_compute; reflexivity|].
  split; [vm_compute; reflexivity|].
  edestruct (encoder_outputs_ready sample_sz true None shifted_request 0 (EncoderCacheManager_init 8) 6 8)
    as (hs & Eg & Hh); [done|by repeat constructor|repeat constructor; done|repeat constructor|
    apply init_EncOk; done|done|vm_compute; reflexivity|vm_compute; reflexivity|vm_compute; reflexivity|].
  vm_compute in Eg. injection Eg as <-. rewrite Forall_singleton in Hh. exact Hh.
Defined.

Lemma encdec_free_slots_grow_witness :
  ∃ m', _free_encoder_inputs id
      (EncoderDecoderCache (EncoderDecoderCacheManager_init 8)) (set_num_computed_tokens shifted_request 4) =
      Ok (EncoderDecoderCache m') ∧ ed_num_free_slots m' = 10 ∧ ed_cache_size m' = 8.
Proof.
  destruct (encdec_free_slots_grow sample_sz id (EncoderDecoderCacheManager_init 8)
    (set_num_computed_tokens shifted_request 4)) as (m' & E & Hz & Hf); [done|by repeat constructor|done|].
  exists m'. split; [exact E|]. split; [exact Hf|exact Hz].
Defined.
