(* ===== verification/KVContract.v ===== *)
(** * What the KV cache manager promises to the scheduler

    The scheduler is verified against this interface and not against the managers,
    the pool and the coordinator.  The state of the manager is seen through a table
    [t] that maps the requests that hold blocks to the number of tokens their
    blocks cover.  [KVContractUnitary.v] discharges the laws for the coordinators of
    one group. *)

From S2P Require Import Prelude PyFloat Request FreeQueue BlockHash BlockPool KVCacheSpec SingleType CacheHit Coordinator KVCacheManager.

(** The tokens covered by the blocks of a request. *)
Definition tok (t : gmap string Z) (id : string) : Z := default 0 (t !! id).

(** What the block hashes of a request depend on. *)
Definition content (r : Request) :=
  (block_hashes r, all_token_ids r, mm_features r, lora_request r, cache_salt r, prompt_embeds r).

(** [L] is [max_model_len]; [hashed] says that the block hashes of a request belong to
    its tokens. *)
Class KVContract `{env : KVEnv} (L : Z) (hashed : Request → Prop) := {
  kv_ok : KVCacheManager → gmap string Z → Prop;
  (** [hits] are blocks of the prefix cache for the first [n] tokens. *)
  kv_hits : KVCacheManager → Request → KVCacheBlocks → Z → Prop;

  (** Slots for a request whose computed tokens have their blocks. *)
  law_allocate m t r new hits look fit :
    kv_ok m t → hashed r → num_tokens r ≤ L → default EmptyKVCacheBlocks hits = EmptyKVCacheBlocks →
    0 ≤ num_computed_tokens r ≤ L → num_computed_tokens r ≤ tok t (request_id r) → 0 < new → 0 ≤ look →
    ∃ m' o, allocate_slots m r new 0 hits look 0 false 0 fit = Ok (m', o) ∧
      match o with
      | None => kv_ok m' t
      | Some _ => kv_ok m' (<[request_id r := Z.min (num_computed_tokens r + new + look) L]> t)
      end;
  (** The prefix cache lookup leaves a token to compute. *)
  law_lookup m t r :
    kv_ok m t → hashed r → 0 < num_tokens r ≤ L → t !! request_id r = None →
    ∃ hits n, get_computed_blocks m r = Some (Ok (hits, n)) ∧ 0 ≤ n < num_tokens r ∧ kv_hits m r hits n;
  (** Slots for a new request with its hits. *)
  law_admit m t r hits n new look fit :
    kv_ok m t → hashed r → num_tokens r ≤ L → t !! request_id r = None → num_computed_tokens r = 0 →
    kv_hits m r hits n → 0 < new → 0 ≤ look →
    ∃ m' o, allocate_slots m r new n (Some hits) look 0 false 0 fit = Ok (m', o) ∧
      match o with
      | None => kv_ok m' t
      | Some _ => kv_ok m' (<[request_id r := Z.min (n + new + look) L]> t)
      end;
  law_free m t r : kv_ok m t → ∃ m', km_free m r = Ok m' ∧ kv_ok m' (delete (request_id r) t);
  law_cache m t r n :
    kv_ok m t → hashed r → 0 ≤ n ≤ num_tokens r → is_Some (t !! request_id r) → n ≤ tok t (request_id r) →
    ∃ m', km_cache_blocks m r n = Ok m' ∧ kv_ok m' t;
  law_new_step m t : kv_ok m t → kv_ok (km_new_step_starts m) t;
  law_common m t id : kv_ok m t → ∃ m' ns, km_get_num_common_prefix_blocks m id = Ok (m', ns) ∧ kv_ok m' t;
  law_take_ids m t : kv_ok m t → kv_ok (km_take_new_block_ids m).1 t;
  law_take_events m t : kv_ok m t → kv_ok (km_take_events m).1 t;
  (** The estimates of the blocks a request will need change nothing. *)
  law_estimate m t r :
    kv_ok m t → 0 ≤ num_computed_tokens r ≤ tok t (request_id r) →
    (∃ n, estimate_future_footprint m r = Ok (m, n)) ∧
    ∀ len, ∃ n, estimate_future_footprint_for_output_len m r len = Ok (m, n);
  (** With no blocks in use the prefix cache can be reset. *)
  law_reset m t : kv_ok m t → kv_ok (km_reset_prefix_cache m).1 t ∧
    (t = ∅ → (km_reset_prefix_cache m).2 = true);
  (** Only the content and its hashes matter. *)
  law_hashed r r' : hashed r → content r' = content r → hashed r'
}.

(** What the hasher of the requests promises: the hashes follow the output. *)
Class HasherLaws (hashed : Request → Prop) (block_hasher : option (Request → res (list bytes))) : Prop := {
  law_append now r t :
    hashed r → mm_features r = [] → ∃ r', append_output_token_id block_hasher now r t = Ok r' ∧ hashed r'
}.

(** A contract for requests with a property is one for requests with a stronger one. *)
Definition contract_weaken `{env : KVEnv} {L : Z} {h1 h2 : Request → Prop} (C : KVContract L h1)
    (Hweak : ∀ r, h2 r → h1 r) (Hcontent : ∀ r r', h2 r → content r' = content r → h2 r') : KVContract L h2.
Proof.
  refine {| kv_ok := kv_ok (KVContract := C); kv_hits := kv_hits (KVContract := C) |}.
  - intros m t r new hits look fit U Hh. apply law_allocate; auto.
  - intros m t r U Hh. apply law_lookup; auto.
  - intros m t r hits n new look fit U Hh. apply law_admit; auto.
  - intros m t r. apply law_free.
  - intros m t r n U Hh. apply law_cache; auto.
  - apply law_new_step.
  - apply law_common.
  - apply law_take_ids.
  - apply law_take_events.
  - intros m t r. apply law_estimate.
  - apply law_reset.
  - exact Hcontent.
Defined.
