(* ===== verification/SchedState.v ===== *)
(** * The state of the scheduler

    The attributes of [Scheduler] ([src/vllm/v1/core/sched/scheduler.py]), the local
    variables of [schedule], the configuration, and the interface to the parts the
    scheduler calls but that have their own logic: the admission controllers and the
    structured output manager ([Plugins]).

    A request object is identified with its id: [sc_requests] is the object store,
    the queues and the running list hold ids.  The scheduler is modelled without a
    KV connector ([self.connector is None]). *)

From S2P Require Import Prelude PyFloat Request HeapQ RequestQueue FreeQueue BlockHash BlockPool KVCacheSpec SingleType CacheHit Coordinator KVCacheManager SchedUtils OrderedDict EncoderCache EncoderSched.

Inductive PauseState : Set := UNPAUSED | PAUSED_NEW | PAUSED_ALL.

#[export] Instance PauseState_eq_dec : EqDecision PauseState.
Proof. solve_decision. Defined.

(** [StreamingUpdate] of [vllm/v1/request.py]. *)
Record StreamingUpdate := mkStreamingUpdate {
  su_mm_features : list MultiModalFeatureSpec;
  su_prompt_token_ids : option (list Z);
  su_max_tokens : Z;
  su_arrival_time : float64;
  su_sampling_params : option SamplingParams
}.

Definition streaming_update_from_request (r : Request) : option StreamingUpdate :=
  if negb (resumable r) then None
  else Some (mkStreamingUpdate (mm_features r) (prompt_token_ids r) (max_tokens r) (arrival_time r)
               (sampling_params r)).

(** The configuration the scheduler reads. *)
Record SchedulerConfig := mkSchedulerConfig {
  max_num_running_reqs : Z;
  max_num_scheduled_tokens : Z;
  max_model_len : Z;
  policy : SchedulingPolicy;
  long_prefill_token_threshold : Z;
  enable_chunked_prefill : bool;
  scheduler_reserve_full_isl : bool;
  use_eagle : bool;
  num_spec_tokens : Z;
  num_lookahead_tokens : Z;
  need_mamba_block_aligned_split : bool;
  cache_block_size : Z;
  max_loras : option Z;
  max_num_encoder_input_tokens : Z;
  disable_chunked_mm_input : bool;
  use_pp : bool;
  async_scheduling : bool;
  needs_kv_cache_zeroing : bool;
  use_v2_model_runner : bool
}.

Record Scheduler {K : Type} := mkScheduler {
  sc_requests : gmap string Request;
  streaming_queue : gmap string (list (option StreamingUpdate));
  waiting : AnyQueue string;
  skipped_waiting : AnyQueue string;
  running : list string;
  finished_req_ids : gset string;
  finished_req_ids_dict : option (gmap Z (gset string));
  prev_step_scheduled_req_ids : gset string;
  num_waiting_for_streaming_input : Z;
  pause_state : PauseState;
  kv_cache_manager : KVCacheManager;
  encoder_cache_manager : encoder_cache;
  num_cumulative_preemptions : Z;
  num_cumulative_predictor_preemptions : Z;
  num_cumulative_preempted_computed_tokens : Z;
  num_cumulative_preempted_output_tokens : Z;
  plugins : K
}.
Arguments Scheduler : clear implicits.

Definition set_sc_requests {K} (s : Scheduler K) (v : gmap string Request) : Scheduler K :=
  mkScheduler _ v (streaming_queue s) (waiting s) (skipped_waiting s) (running s)
    (finished_req_ids s) (finished_req_ids_dict s) (prev_step_scheduled_req_ids s)
    (num_waiting_for_streaming_input s) (pause_state s) (kv_cache_manager s)
    (encoder_cache_manager s) (num_cumulative_preemptions s)
    (num_cumulative_predictor_preemptions s) (num_cumulative_preempted_computed_tokens s)
    (num_cumulative_preempted_output_tokens s) (plugins s).
Definition set_streaming_queue {K} (s : Scheduler K) (v : gmap string (list (option StreamingUpdate))) : Scheduler K :=
  mkScheduler _ (sc_requests s) v (waiting s) (skipped_waiting s) (running s)
    (finished_req_ids s) (finished_req_ids_dict s) (prev_step_scheduled_req_ids s)
    (num_waiting_for_streaming_input s) (pause_state s) (kv_cache_manager s)
    (encoder_cache_manager s) (num_cumulative_preemptions s)
    (num_cumulative_predictor_preemptions s) (num_cumulative_preempted_computed_tokens s)
    (num_cumulative_preempted_output_tokens s) (plugins s).
Definition set_waiting {K} (s : Scheduler K) (v : AnyQueue string) : Scheduler K :=
  mkScheduler _ (sc_requests s) (streaming_queue s) v (skipped_waiting s) (running s)
    (finished_req_ids s) (finished_req_ids_dict s) (prev_step_scheduled_req_ids s)
    (num_waiting_for_streaming_input s) (pause_state s) (kv_cache_manager s)
    (encoder_cache_manager s) (num_cumulative_preemptions s)
    (num_cumulative_predictor_preemptions s) (num_cumulative_preempted_computed_tokens s)
    (num_cumulative_preempted_output_tokens s) (plugins s).
Definition set_skipped_waiting {K} (s : Scheduler K) (v : AnyQueue string) : Scheduler K :=
  mkScheduler _ (sc_requests s) (streaming_queue s) (waiting s) v (running s)
    (finished_req_ids s) (finished_req_ids_dict s) (prev_step_scheduled_req_ids s)
    (num_waiting_for_streaming_input s) (pause_state s) (kv_cache_manager s)
    (encoder_cache_manager s) (num_cumulative_preemptions s)
    (num_cumulative_predictor_preemptions s) (num_cumulative_preempted_computed_tokens s)
    (num_cumulative_preempted_output_tokens s) (plugins s).
Definition set_running {K} (s : Scheduler K) (v : list string) : Scheduler K :=
  mkScheduler _ (sc_requests s) (streaming_queue s) (waiting s) (skipped_waiting s) v
    (finished_req_ids s) (finished_req_ids_dict s) (prev_step_scheduled_req_ids s)
    (num_waiting_for_streaming_input s) (pause_state s) (kv_cache_manager s)
    (encoder_cache_manager s) (num_cumulative_preemptions s)
    (num_cumulative_predictor_preemptions s) (num_cumulative_preempted_computed_tokens s)
    (num_cumulative_preempted_output_tokens s) (plugins s).
Definition set_finished_req_ids {K} (s : Scheduler K) (v : gset string) : Scheduler K :=
  mkScheduler _ (sc_requests s) (streaming_queue s) (waiting s) (skipped_waiting s)
    (running s) v (finished_req_ids_dict s) (prev_step_scheduled_req_ids s)
    (num_waiting_for_streaming_input s) (pause_state s) (kv_cache_manager s)
    (encoder_cache_manager s) (num_cumulative_preemptions s)
    (num_cumulative_predictor_preemptions s) (num_cumulative_preempted_computed_tokens s)
    (num_cumulative_preempted_output_tokens s) (plugins s).
Definition set_finished_req_ids_dict {K} (s : Scheduler K) (v : option (gmap Z (gset string))) : Scheduler K :=
  mkScheduler _ (sc_requests s) (streaming_queue s) (waiting s) (skipped_waiting s)
    (running s) (finished_req_ids s) v (prev_step_scheduled_req_ids s)
    (num_waiting_for_streaming_input s) (pause_state s) (kv_cache_manager s)
    (encoder_cache_manager s) (num_cumulative_preemptions s)
    (num_cumulative_predictor_preemptions s) (num_cumulative_preempted_computed_tokens s)
    (num_cumulative_preempted_output_tokens s) (plugins s).
Definition set_prev_step_scheduled_req_ids {K} (s : Scheduler K) (v : gset string) : Scheduler K :=
  mkScheduler _ (sc_requests s) (streaming_queue s) (waiting s) (skipped_waiting s)
    (running s) (finished_req_ids s) (finished_req_ids_dict s) v
    (num_waiting_for_streaming_input s) (pause_state s) (kv_cache_manager s)
    (encoder_cache_manager s) (num_cumulative_preemptions s)
    (num_cumulative_predictor_preemptions s) (num_cumulative_preempted_computed_tokens s)
    (num_cumulative_preempted_output_tokens s) (plugins s).
Definition set_num_waiting_for_streaming_input {K} (s : Scheduler K) (v : Z) : Scheduler K :=
  mkScheduler _ (sc_requests s) (streaming_queue s) (waiting s) (skipped_waiting s)
    (running s) (finished_req_ids s) (finished_req_ids_dict s)
    (prev_step_scheduled_req_ids s) v (pause_state s) (kv_cache_manager s)
    (encoder_cache_manager s) (num_cumulative_preemptions s)
    (num_cumulative_predictor_preemptions s) (num_cumulative_preempted_computed_tokens s)
    (num_cumulative_preempted_output_tokens s) (plugins s).
Definition set_pause_state {K} (s : Scheduler K) (v : PauseState) : Scheduler K :=
  mkScheduler _ (sc_requests s) (streaming_queue s) (waiting s) (skipped_waiting s)
    (running s) (finished_req_ids s) (finished_req_ids_dict s)
    (prev_step_scheduled_req_ids s) (num_waiting_for_streaming_input s) v
    (kv_cache_manager s) (encoder_cache_manager s) (num_cumulative_preemptions s)
    (num_cumulative_predictor_preemptions s) (num_cumulative_preempted_computed_tokens s)
    (num_cumulative_preempted_output_tokens s) (plugins s).
Definition set_kv_cache_manager {K} (s : Scheduler K) (v : KVCacheManager) : Scheduler K :=
  mkScheduler _ (sc_requests s) (streaming_queue s) (waiting s) (skipped_waiting s)
    (running s) (finished_req_ids s) (finished_req_ids_dict s)
    (prev_step_scheduled_req_ids s) (num_waiting_for_streaming_input s) (pause_state s) v
    (encoder_cache_manager s) (num_cumulative_preemptions s)
    (num_cumulative_predictor_preemptions s) (num_cumulative_preempted_computed_tokens s)
    (num_cumulative_preempted_output_tokens s) (plugins s).
Definition set_encoder_cache_manager {K} (s : Scheduler K) (v : encoder_cache) : Scheduler K :=
  mkScheduler _ (sc_requests s) (streaming_queue s) (waiting s) (skipped_waiting s)
    (running s) (finished_req_ids s) (finished_req_ids_dict s)
    (prev_step_scheduled_req_ids s) (num_waiting_for_streaming_input s) (pause_state s)
    (kv_cache_manager s) v (num_cumulative_preemptions s)
    (num_cumulative_predictor_preemptions s) (num_cumulative_preempted_computed_tokens s)
    (num_cumulative_preempted_output_tokens s) (plugins s).
Definition set_num_cumulative_preemptions {K} (s : Scheduler K) (v : Z) : Scheduler K :=
  mkScheduler _ (sc_requests s) (streaming_queue s) (waiting s) (skipped_waiting s)
    (running s) (finished_req_ids s) (finished_req_ids_dict s)
    (prev_step_scheduled_req_ids s) (num_waiting_for_streaming_input s) (pause_state s)
    (kv_cache_manager s) (encoder_cache_manager s) v (num_cumulative_predictor_preemptions
    s) (num_cumulative_preempted_computed_tokens s)
    (num_cumulative_preempted_output_tokens s) (plugins s).
Definition set_num_cumulative_predictor_preemptions {K} (s : Scheduler K) (v : Z) : Scheduler K :=
  mkScheduler _ (sc_requests s) (streaming_queue s) (waiting s) (skipped_waiting s)
    (running s) (finished_req_ids s) (finished_req_ids_dict s)
    (prev_step_scheduled_req_ids s) (num_waiting_for_streaming_input s) (pause_state s)
    (kv_cache_manager s) (encoder_cache_manager s) (num_cumulative_preemptions s) v
    (num_cumulative_preempted_computed_tokens s) (num_cumulative_preempted_output_tokens
    s) (plugins s).
Definition set_num_cumulative_preempted_computed_tokens {K} (s : Scheduler K) (v : Z) : Scheduler K :=
  mkScheduler _ (sc_requests s) (streaming_queue s) (waiting s) (skipped_waiting s)
    (running s) (finished_req_ids s) (finished_req_ids_dict s)
    (prev_step_scheduled_req_ids s) (num_waiting_for_streaming_input s) (pause_state s)
    (kv_cache_manager s) (encoder_cache_manager s) (num_cumulative_preemptions s)
    (num_cumulative_predictor_preemptions s) v (num_cumulative_preempted_output_tokens s)
    (plugins s).
Definition set_num_cumulative_preempted_output_tokens {K} (s : Scheduler K) (v : Z) : Scheduler K :=
  mkScheduler _ (sc_requests s) (streaming_queue s) (waiting s) (skipped_waiting s)
    (running s) (finished_req_ids s) (finished_req_ids_dict s)
    (prev_step_scheduled_req_ids s) (num_waiting_for_streaming_input s) (pause_state s)
    (kv_cache_manager s) (encoder_cache_manager s) (num_cumulative_preemptions s)
    (num_cumulative_predictor_preemptions s) (num_cumulative_preempted_computed_tokens s)
    v (plugins s).
Definition set_plugins {K} (s : Scheduler K) (v : K) : Scheduler K :=
  mkScheduler _ (sc_requests s) (streaming_queue s) (waiting s) (skipped_waiting s)
    (running s) (finished_req_ids s) (finished_req_ids_dict s)
    (prev_step_scheduled_req_ids s) (num_waiting_for_streaming_input s) (pause_state s)
    (kv_cache_manager s) (encoder_cache_manager s) (num_cumulative_preemptions s)
    (num_cumulative_predictor_preemptions s) (num_cumulative_preempted_computed_tokens s)
    (num_cumulative_preempted_output_tokens s) v.

(** ** The step under construction *)

Record Step := mkStep {
  token_budget : Z;
  encoder_compute_budget : Z;
  scheduled_new_reqs : list string;
  scheduled_resumed_reqs : list string;
  scheduled_running_reqs : list string;
  preempted_reqs : list string;
  req_to_new_blocks : list (string * KVCacheBlocks);
  num_scheduled_tokens : list (string * Z);
  scheduled_spec_decode_tokens : list (string * list Z);
  scheduled_encoder_inputs : list (string * list Z);
  scheduled_loras : list Z
}.

Definition set_token_budget (st : Step) (v : Z) : Step :=
  mkStep v (encoder_compute_budget st) (scheduled_new_reqs st) (scheduled_resumed_reqs st)
    (scheduled_running_reqs st) (preempted_reqs st) (req_to_new_blocks st)
    (num_scheduled_tokens st) (scheduled_spec_decode_tokens st) (scheduled_encoder_inputs
    st) (scheduled_loras st).
Definition set_encoder_compute_budget (st : Step) (v : Z) : Step :=
  mkStep (token_budget st) v (scheduled_new_reqs st) (scheduled_resumed_reqs st)
    (scheduled_running_reqs st) (preempted_reqs st) (req_to_new_blocks st)
    (num_scheduled_tokens st) (scheduled_spec_decode_tokens st) (scheduled_encoder_inputs
    st) (scheduled_loras st).
Definition set_scheduled_new_reqs (st : Step) (v : list string) : Step :=
  mkStep (token_budget st) (encoder_compute_budget st) v (scheduled_resumed_reqs st)
    (scheduled_running_reqs st) (preempted_reqs st) (req_to_new_blocks st)
    (num_scheduled_tokens st) (scheduled_spec_decode_tokens st) (scheduled_encoder_inputs
    st) (scheduled_loras st).
Definition set_scheduled_resumed_reqs (st : Step) (v : list string) : Step :=
  mkStep (token_budget st) (encoder_compute_budget st) (scheduled_new_reqs st) v
    (scheduled_running_reqs st) (preempted_reqs st) (req_to_new_blocks st)
    (num_scheduled_tokens st) (scheduled_spec_decode_tokens st) (scheduled_encoder_inputs
    st) (scheduled_loras st).
Definition set_scheduled_running_reqs (st : Step) (v : list string) : Step :=
  mkStep (token_budget st) (encoder_compute_budget st) (scheduled_new_reqs st)
    (scheduled_resumed_reqs st) v (preempted_reqs st) (req_to_new_blocks st)
    (num_scheduled_tokens st) (scheduled_spec_decode_tokens st) (scheduled_encoder_inputs
    st) (scheduled_loras st).
Definition set_preempted_reqs (st : Step) (v : list string) : Step :=
  mkStep (token_budget st) (encoder_compute_budget st) (scheduled_new_reqs st)
    (scheduled_resumed_reqs st) (scheduled_running_reqs st) v (req_to_new_blocks st)
    (num_scheduled_tokens st) (scheduled_spec_decode_tokens st) (scheduled_encoder_inputs
    st) (scheduled_loras st).
Definition set_req_to_new_blocks (st : Step) (v : list (string * KVCacheBlocks)) : Step :=
  mkStep (token_budget st) (encoder_compute_budget st) (scheduled_new_reqs st)
    (scheduled_resumed_reqs st) (scheduled_running_reqs st) (preempted_reqs st) v
    (num_scheduled_tokens st) (scheduled_spec_decode_tokens st) (scheduled_encoder_inputs
    st) (scheduled_loras st).
Definition set_num_scheduled_tokens (st : Step) (v : list (string * Z)) : Step :=
  mkStep (token_budget st) (encoder_compute_budget st) (scheduled_new_reqs st)
    (scheduled_resumed_reqs st) (scheduled_running_reqs st) (preempted_reqs st)
    (req_to_new_blocks st) v (scheduled_spec_decode_tokens st) (scheduled_encoder_inputs
    st) (scheduled_loras st).
Definition set_scheduled_spec_decode_tokens (st : Step) (v : list (string * list Z)) : Step :=
  mkStep (token_budget st) (encoder_compute_budget st) (scheduled_new_reqs st)
    (scheduled_resumed_reqs st) (scheduled_running_reqs st) (preempted_reqs st)
    (req_to_new_blocks st) (num_scheduled_tokens st) v (scheduled_encoder_inputs st)
    (scheduled_loras st).
Definition set_scheduled_encoder_inputs (st : Step) (v : list (string * list Z)) : Step :=
  mkStep (token_budget st) (encoder_compute_budget st) (scheduled_new_reqs st)
    (scheduled_resumed_reqs st) (scheduled_running_reqs st) (preempted_reqs st)
    (req_to_new_blocks st) (num_scheduled_tokens st) (scheduled_spec_decode_tokens st) v
    (scheduled_loras st).
Definition set_scheduled_loras (st : Step) (v : list Z) : Step :=
  mkStep (token_budget st) (encoder_compute_budget st) (scheduled_new_reqs st)
    (scheduled_resumed_reqs st) (scheduled_running_reqs st) (preempted_reqs st)
    (req_to_new_blocks st) (num_scheduled_tokens st) (scheduled_spec_decode_tokens st)
    (scheduled_encoder_inputs st) v.

Definition initial_step (token_budget encoder_compute_budget : Z) : Step :=
  mkStep token_budget encoder_compute_budget [] [] [] [] [] [] [] [] [].

(** ** The object store *)

(** What stands for a missing object in the order of the queues. *)
Definition no_request : Request :=
  mkRequest "" None 0 0 None None None false (float_of_Z 0) WAITING None 0 None None 0 [] [] 0 false []
    0 None [] false 0 (float_of_Z 0) (float_of_Z 0) [] false false.

Section Store.
Context {K : Type}.
Implicit Types (s : Scheduler K).

Definition get_request s (id : string) : res Request :=
  match sc_requests s !! id with Some r => Ok r | None => Raise KeyError end.

(** Mutating an object in place. *)
Definition put_request s (r : Request) : Scheduler K :=
  set_sc_requests s (<[request_id r := r]> (sc_requests s)).

Definition obj s (id : string) : Request := default no_request (sc_requests s !! id).

(** The queues compare the objects they refer to. *)
Definition queue_ops s : RequestQueue string (AnyQueue string) :=
  AnyQueue_queue (ref_ltb (λ _, 0) (obj s)).
End Store.

(** ** Plug-ins *)

(** The admission controllers ([tail_blend_controller], [bon_taper_controller],
    [bon_taper_len_predictor] and [_get_taper_plus_admitted_running_req_ids]) and the
    structured output manager.  Their own state is [K]; they are given the whole
    scheduler. *)
(** The [taper_plus_*] fields of [SchedulerOutput]. *)
Record TaperStep := mkTaperStep {
  taper_plus_step_start_s : float64;
  taper_plus_decode_width : Z;
  taper_plus_context_tokens : Z;
  taper_plus_prefill_tokens : Z;
  taper_plus_predicted_step_ms : float64
}.
Definition no_taper_step : TaperStep := mkTaperStep (float_of_Z 0) 0 0 0 (float_of_Z 0).

Class Plugins (K : Type) := {
  get_taper_plus_admitted_running_req_ids : Scheduler K → Z → res (Scheduler K * option (list string));
  select_preemption_victim : Scheduler K → string → res (Scheduler K * option string);
  should_defer_waiting_request : Scheduler K → string → res (Scheduler K * bool);
  prepare_request : Scheduler K → Request → res (Scheduler K * Request);
  observe_request_output : Scheduler K → Request → list Z → res (Scheduler K);
  observe_finished_request : Scheduler K → Request → res (Scheduler K);
  step_started : Scheduler K → list (string * Z) → K * TaperStep;
  step_observed : Scheduler K → TaperStep → K;
  grammar_ready : K → string → bool;
  should_advance : K → Request → bool;
  accept_tokens : K → string → list Z → K * bool;
  validate_tokens : K → string → list Z → list Z
}.

(** The stock configuration: no controller is enabled and no request uses structured
    output. *)
#[export] Instance no_plugins : Plugins unit := {|
  get_taper_plus_admitted_running_req_ids s _ := Ok (s, None);
  select_preemption_victim s _ := Ok (s, None);
  should_defer_waiting_request s _ := Ok (s, false);
  prepare_request s r := Ok (s, r);
  observe_request_output s _ _ := Ok s;
  observe_finished_request s _ := Ok s;
  step_started s _ := (plugins s, no_taper_step);
  step_observed s _ := plugins s;
  grammar_ready _ _ := true;
  should_advance _ _ := false;
  accept_tokens k _ _ := (k, true);
  validate_tokens _ _ ts := ts
|}.

(** ** What [schedule] returns *)

Record NewRequestData := mkNewRequestData {
  nrd_req_id : string;
  nrd_prompt_token_ids : option (list Z);
  nrd_mm_features : list MultiModalFeatureSpec;
  nrd_sampling_params : option SamplingParams;
  nrd_pooling_params : option PoolingParams;
  nrd_block_ids : option (list (list Z));
  nrd_num_computed_tokens : Z;
  nrd_lora_request : option LoRARequest;
  nrd_prefill_token_ids : option (list Z)
}.

Record CachedRequestData := mkCachedRequestData {
  crd_req_ids : list string;
  crd_resumed_req_ids : list string;
  crd_new_token_ids : list (list Z);
  crd_all_token_ids : list (string * list Z);
  crd_new_block_ids : list (option (list (list Z)));
  crd_num_computed_tokens : list Z;
  crd_num_output_tokens : list Z
}.

Record SchedulerOutput := mkSchedulerOutput {
  so_scheduled_new_reqs : list NewRequestData;
  so_scheduled_cached_reqs : CachedRequestData;
  so_num_scheduled_tokens : list (string * Z);
  so_total_num_scheduled_tokens : Z;
  so_scheduled_spec_decode_tokens : list (string * list Z);
  so_scheduled_encoder_inputs : list (string * list Z);
  so_num_common_prefix_blocks : list Z;
  so_preempted_req_ids : list string;
  so_finished_req_ids : gset string;
  so_free_encoder_mm_hashes : list string;
  so_new_block_ids_to_zero : option (list Z);
  so_has_structured_output_requests : bool;
  so_pending_structured_output_tokens : bool;
  so_num_invalid_spec_tokens : list (string * Z);
  so_taper_step : TaperStep
}.
