(* ===== verification/Scheduler.v ===== *)
(** * The scheduler

    [src/vllm/v1/core/sched/scheduler.py] without a KV connector, and the overrides
    of [src/vllm/v1/core/sched/async_scheduler.py]: the two loops of [schedule],
    preemption, the output of a step, the life cycle of requests and streaming
    sessions.  Logging, statistics and timestamps are absent.  A [while] loop runs on
    fuel; the fuel given is the number of requests that the loop can still visit. *)

From S2P Require Import Prelude PyFloat Request HeapQ RequestQueue FreeQueue BlockHash BlockPool KVCacheSpec SingleType CacheHit Coordinator KVCacheManager SchedUtils OrderedDict EncoderCache EncoderSched SchedState.

Section Scheduler.
Context {env : KVEnv} {K : Type} {pl : Plugins K}.
Context (cfg : SchedulerConfig).
(** The order in which a set of input ids is iterated, and the installed hasher. *)
Context (set_order : list Z → list Z) (block_hasher : option (Request → res (list bytes))).
Implicit Types (s : Scheduler K) (st : Step) (r : Request).

(** ** Waiting queues *)

Definition _is_blocked_waiting_status (x : RequestStatus) : bool :=
  bool_decide (x = WAITING_FOR_STRUCTURED_OUTPUT_GRAMMAR) ||
  bool_decide (x = WAITING_FOR_REMOTE_KVS) || bool_decide (x = WAITING_FOR_STREAMING_REQ).

Definition _enqueue_waiting_request s (r : Request) : res (Scheduler K) :=
  if _is_blocked_waiting_status (status r)
  then q ← @add_request _ _ (queue_ops s) (skipped_waiting s) (request_id r); Ok (set_skipped_waiting s q)
  else q ← @add_request _ _ (queue_ops s) (waiting s) (request_id r); Ok (set_waiting s q).

(** One of the two queues. *)
Inductive queue_sel : Set := SelWaiting | SelSkipped.

Definition selected s (sel : queue_sel) : AnyQueue string :=
  match sel with SelWaiting => waiting s | SelSkipped => skipped_waiting s end.
Definition set_selected s (sel : queue_sel) (q : AnyQueue string) : Scheduler K :=
  match sel with SelWaiting => set_waiting s q | SelSkipped => set_skipped_waiting s q end.

Definition has_waiting s : bool := @queue_bool _ _ (queue_ops s) (waiting s).
Definition has_skipped s : bool := @queue_bool _ _ (queue_ops s) (skipped_waiting s).

Definition _select_waiting_queue_for_scheduling s : res (option queue_sel) :=
  if bool_decide (policy cfg = FCFS) then
    Ok (if has_skipped s then Some SelSkipped else if has_waiting s then Some SelWaiting else None)
  else if has_waiting s && has_skipped s then
    waiting_req ← @peek_request _ _ (queue_ops s) (waiting s);
    skipped_req ← @peek_request _ _ (queue_ops s) (skipped_waiting s);
    Ok (Some (if request_ltb 0 (obj s waiting_req) 0 (obj s skipped_req) then SelWaiting else SelSkipped))
  else
    Ok (if has_waiting s then Some SelWaiting else if has_skipped s then Some SelSkipped else None).

(** [_try_promote_blocked_waiting_request], called on a blocked status. *)
Definition _try_promote_blocked_waiting_request s (r : Request) : res (Scheduler K * bool) :=
  match status r with
  | WAITING_FOR_STRUCTURED_OUTPUT_GRAMMAR =>
      if grammar_ready (plugins s) (request_id r)
      then Ok (put_request s (set_status r WAITING), true) else Ok (s, false)
  | WAITING_FOR_STREAMING_REQ =>
      py_assert (is_nil (default [] (streaming_queue s !! request_id r)));; Ok (s, false)
  | _ => Raise AssertionError
  end.

(** ** Preemption *)

(** The request in the store after a preemption. *)
Definition preempted (r : Request) : Request :=
  set_num_preemptions
    (set_spec_token_ids (set_num_computed_tokens (set_status r PREEMPTED) 0) [])
    (num_preemptions r + 1).

Definition _preempt_request s (id : string) : res (Scheduler K) :=
  r ← get_request s id;
  py_assert (bool_decide (status r = RUNNING));;
  let s := set_num_cumulative_preempted_computed_tokens s
             (num_cumulative_preempted_computed_tokens s + num_computed_tokens r) in
  let s := set_num_cumulative_preempted_output_tokens s
             (num_cumulative_preempted_output_tokens s + num_output_tokens r) in
  kv ← km_free (kv_cache_manager s) r;
  enc ← enc_free set_order (encoder_cache_manager s) r;
  let s := set_encoder_cache_manager (set_kv_cache_manager s kv) enc in
  let s := put_request s (preempted r) in
  let s := set_num_cumulative_preemptions s (num_cumulative_preemptions s + 1) in
  q ← @prepend_request _ _ (queue_ops s) (waiting s) id;
  Ok (set_waiting s q).

(** [max(self.running, key=lambda r: (r.priority, r.arrival_time))]: the first of the
    greatest keys. *)
Definition key_gtb (a b : Request) : bool :=
  if bool_decide (priority a ≠ priority b) then bool_decide (priority b < priority a)
  else if feqb (arrival_time a) (arrival_time b) then false
  else fltb (arrival_time b) (arrival_time a).

Definition max_running s : res string :=
  match running s with
  | [] => Raise ValueError
  | id :: ids => Ok (foldl (λ best id, if key_gtb (obj s id) (obj s best) then id else best) id ids)
  end.

Definition default_victim s : res string :=
  if bool_decide (policy cfg = PRIORITY) then max_running s else py_nth (running s) (-1).

(** [self.running.index(x)]. *)
Definition running_index s (id : string) : res nat :=
  match list_find (λ x, x = id) (running s) with Some (i, _) => Ok i | None => Raise ValueError end.

Fixpoint sum_encoder_embeds (r : Request) (ids : list Z) : res Z :=
  match ids with
  | [] => Ok 0
  | i :: ids => n ← get_num_encoder_embeds r i; m ← sum_encoder_embeds r ids; Ok (n + m)
  end.

(** A victim that was scheduled in this step is taken out of it. *)
Definition unschedule st (victim : Request) : res Step :=
  let id := request_id victim in
  match list_remove_first (scheduled_running_reqs st) id with
  | None => Ok st
  | Some rest =>
      let st := set_scheduled_running_reqs st rest in
      '(n, d) ← od_pop (num_scheduled_tokens st) id;
      let st := set_num_scheduled_tokens (set_token_budget st (token_budget st + n)) d in
      '(_, d) ← od_pop (req_to_new_blocks st) id;
      let st := set_req_to_new_blocks st d in
      let st := set_scheduled_spec_decode_tokens st (od_pop_default (scheduled_spec_decode_tokens st) id).2 in
      let '(inputs, d) := od_pop_default (scheduled_encoder_inputs st) id in
      let st := set_scheduled_encoder_inputs st d in
      n ← sum_encoder_embeds victim (default [] inputs);
      Ok (set_encoder_compute_budget st (encoder_compute_budget st + n))
  end.

(** One round of the [while True] loop after [allocate_slots] has failed. *)
Definition preempt_one s st (req_index : nat) (id : string)
    : res (Scheduler K * Step * nat * string) :=
  '(s, choice) ← select_preemption_victim s id;
  victim ← match choice with Some v => Ok v | None => default_victim s end;
  i ← running_index s victim;
  let s := set_running s (delete i (running s)) in
  let s := if is_some choice
           then set_num_cumulative_predictor_preemptions s (num_cumulative_predictor_preemptions s + 1)
           else s in
  let req_index := if bool_decide (i < req_index)%nat then (req_index - 1)%nat else req_index in
  v ← get_request s victim;
  st ← unschedule st v;
  s ← _preempt_request s victim;
  Ok (s, set_preempted_reqs st (preempted_reqs st ++ [victim]), req_index, victim).

(** The [while True] loop around [allocate_slots].  Every round removes a running
    request. *)
Fixpoint allocate_loop (fuel : nat) s st (req_index : nat) (id : string) (num_new_tokens : Z)
    : res (Scheduler K * Step * nat * option KVCacheBlocks) :=
  match fuel with
  | O => Raise OutOfFuel
  | S fuel =>
      r ← get_request s id;
      '(kv, new_blocks) ← allocate_slots (kv_cache_manager s) r num_new_tokens 0 None
                            (num_lookahead_tokens cfg) 0 false 0 false;
      let s := set_kv_cache_manager s kv in
      match new_blocks with
      | Some blocks => Ok (s, st, req_index, Some blocks)
      | None =>
          '(s, st, req_index, victim) ← preempt_one s st req_index id;
          if bool_decide (victim = id) then Ok (s, st, req_index, None)
          else allocate_loop fuel s st req_index id num_new_tokens
      end
  end.

(** ** Running requests *)

Definition _mamba_block_aligned_split (r : Request) (num_new_tokens num_new_local_computed_tokens : Z) : Z :=
  let num_computed_tokens := num_computed_tokens r + num_new_local_computed_tokens in
  if bool_decide (num_computed_tokens < Z.max (num_prompt_tokens r) (num_tokens r - 1)) then
    let block_size := cache_block_size cfg in
    let last_cache_position := num_tokens r - num_tokens r `mod` block_size in
    let last_cache_position :=
      if use_eagle cfg then Z.max (last_cache_position - block_size) 0 else last_cache_position in
    let after := num_computed_tokens + num_new_tokens in
    if bool_decide (after < last_cache_position) then num_new_tokens / block_size * block_size
    else if bool_decide (num_computed_tokens < last_cache_position) &&
            bool_decide (last_cache_position < after)
    then last_cache_position - num_computed_tokens
    else num_new_tokens
  else num_new_tokens.

(** [0 < threshold < n] caps [n]. *)
Definition cap_long_prefill (n : Z) : Z :=
  if bool_decide (0 < long_prefill_token_threshold cfg) &&
     bool_decide (long_prefill_token_threshold cfg < n)
  then long_prefill_token_threshold cfg else n.

(** The tokens a running request could get before its encoder inputs are considered. *)
Definition running_new_tokens (r : Request) (token_budget : Z) : Z :=
  let n := num_tokens_with_spec r + num_output_placeholders r - num_computed_tokens r in
  Z.min (Z.min (cap_long_prefill n) token_budget) (max_model_len cfg - 1 - num_computed_tokens r).

(** The previous step has certainly reached [max_tokens]. *)
Definition reached_max_tokens (r : Request) : bool :=
  bool_decide (0 < num_output_placeholders r) &&
  bool_decide (num_prompt_tokens r + max_tokens r ≤ num_computed_tokens r + 2 - num_output_placeholders r).

Definition eagle_shift : Z := if use_eagle cfg then 1 else 0.

(** Without encoder inputs the plan only carries the number of tokens. *)
Definition plan_encoder s (r : Request) (num_computed_tokens num_new_tokens budget : Z)
    : res (Scheduler K * enc_plan) :=
  if has_encoder_inputs r then
    '(enc, p) ← _try_schedule_encoder_inputs (disable_chunked_mm_input cfg) None r num_computed_tokens
                  eagle_shift (encoder_cache_manager s) num_new_tokens budget;
    Ok (set_encoder_cache_manager s enc, p)
  else Ok (s, mkPlan [] num_new_tokens budget [] [] 0).

(** The speculative tokens of a scheduled running request. *)
Definition schedule_spec_tokens s st (r : Request) (num_new_tokens : Z) : Scheduler K * Step :=
  if is_nil (spec_token_ids r) then (s, st)
  else
    let n := num_new_tokens + num_computed_tokens r - num_tokens r - num_output_placeholders r in
    let st :=
      if bool_decide (0 < n) then
        let spec := if bool_decide (n < zlen (spec_token_ids r)) then py_slice_to (spec_token_ids r) n
                    else spec_token_ids r in
        set_scheduled_spec_decode_tokens st (od_set (scheduled_spec_decode_tokens st) (request_id r) spec)
      else st in
    (put_request s (set_spec_token_ids r []), st).

(** Encoder inputs of a scheduled request are recorded and allocated. *)
Definition schedule_encoder_inputs s st (r : Request) (p : enc_plan) : res (Scheduler K * Step) :=
  enc ← allocate_encoder_inputs (encoder_cache_manager s) r p;
  let s := set_encoder_cache_manager s enc in
  if is_nil (encoder_inputs_to_schedule p) then Ok (s, st)
  else
    let st := set_scheduled_encoder_inputs st
                (od_set (scheduled_encoder_inputs st) (request_id r) (encoder_inputs_to_schedule p)) in
    Ok (s, set_encoder_compute_budget st (plan_budget p)).

(** The rest of an iteration once the blocks are allocated. *)
Definition commit_running s st (id : string) (num_new_tokens : Z) (blocks : KVCacheBlocks) (p : enc_plan)
    : res (Scheduler K * Step) :=
  let st := set_scheduled_running_reqs st (scheduled_running_reqs st ++ [id]) in
  let st := set_req_to_new_blocks st (od_set (req_to_new_blocks st) id blocks) in
  let st := set_num_scheduled_tokens st (od_set (num_scheduled_tokens st) id num_new_tokens) in
  let st := set_token_budget st (token_budget st - num_new_tokens) in
  r ← get_request s id;
  let '(s, st) := schedule_spec_tokens s st r num_new_tokens in
  schedule_encoder_inputs s st r p.

(** One iteration; the last component says whether the loop breaks. *)
Definition running_iteration (admitted : option (list string)) s st (req_index : nat) (id : string)
    : res (Scheduler K * Step * nat * bool) :=
  r ← get_request s id;
  if match admitted with Some ids => bool_decide (id ∉ ids) | None => false end
  then Ok (s, st, S req_index, false)
  else if reached_max_tokens r then Ok (s, st, S req_index, false)
  else
    '(s, p) ← plan_encoder s r (num_computed_tokens r) (running_new_tokens r (token_budget st))
                (encoder_compute_budget st);
    let num_new_tokens :=
      if need_mamba_block_aligned_split cfg
      then _mamba_block_aligned_split r (plan_num_new_tokens p) 0 else plan_num_new_tokens p in
    if bool_decide (num_new_tokens = 0) then Ok (s, st, S req_index, false)
    else
      '(s, st, req_index, new_blocks) ←
        allocate_loop (length (running s)) s st req_index id num_new_tokens;
      match new_blocks with
      | None => Ok (s, st, req_index, true)
      | Some blocks =>
          '(s, st) ← commit_running s st id num_new_tokens blocks p;
          Ok (s, st, S req_index, false)
      end.

(** [while req_index < len(self.running) and token_budget > 0]. *)
Fixpoint running_loop (fuel : nat) (admitted : option (list string)) s st (req_index : nat)
    : res (Scheduler K * Step) :=
  match running s !! req_index with
  | None => Ok (s, st)
  | Some id =>
      if bool_decide (0 < token_budget st) then
        match fuel with
        | O => Raise OutOfFuel
        | S fuel =>
            '(s, st, req_index, stop) ← running_iteration admitted s st req_index id;
            if (stop : bool) then Ok (s, st) else running_loop fuel admitted s st req_index
        end
      else Ok (s, st)
  end.

(** ** Waiting requests *)

(** [set.add]. *)
Definition lora_add (l : list Z) (x : Z) : list Z := if bool_decide (x ∈ l) then l else x :: l.

(** The LoRA adapters of requests. *)
Definition loras_of s (ids : list string) : list Z :=
  foldl (λ l id,
    match lora_request (obj s id) with
    | Some lora => if bool_decide (0 < lora_int_id lora) then lora_add l (lora_int_id lora) else l
    | None => l
    end) [] ids.

(** The LoRA adapters of the scheduled running requests. *)
Definition running_loras s st : res Step :=
  match max_loras cfg with
  | None => Ok st
  | Some max_loras =>
      let loras := loras_of s (scheduled_running_reqs st) in
      py_assert (bool_decide (zlen loras ≤ max_loras));;
      Ok (set_scheduled_loras st loras)
  end.

(** Scheduling the request would exceed [max_loras]. *)
Definition exceeds_loras st (r : Request) : bool :=
  match max_loras cfg, lora_request r with
  | Some max_loras, Some lora =>
      bool_decide (zlen (scheduled_loras st) = max_loras) &&
      bool_decide (lora_int_id lora ∉ scheduled_loras st)
  | _, _ => false
  end.

(** [request_queue.pop_request(); step_skipped_waiting.prepend_request(request)]. *)
Definition skip_request s (skipped : AnyQueue string) (sel : queue_sel) (id : string)
    : res (Scheduler K * AnyQueue string) :=
  '(_, q) ← @pop_request _ _ (queue_ops s) (selected s sel);
  skipped ← @prepend_request _ _ (queue_ops s) skipped id;
  Ok (set_selected s sel q, skipped).

(** The number of tokens of a waiting request, or [None] where the loop breaks. *)
Definition waiting_new_tokens s st (r : Request) (num_computed_tokens num_new_local : Z)
    : res (Scheduler K * option (Z * enc_plan)) :=
  let n := cap_long_prefill (num_tokens r - num_computed_tokens) in
  if negb (enable_chunked_prefill cfg) && bool_decide (token_budget st < n) then Ok (s, None)
  else
    let n := Z.min n (token_budget st) in
    py_assert (bool_decide (0 < n));;
    '(s, p) ← plan_encoder s r num_computed_tokens n (encoder_compute_budget st);
    if has_encoder_inputs r && bool_decide (plan_num_new_tokens p = 0) then Ok (s, None)
    else if need_mamba_block_aligned_split cfg then
      let n := _mamba_block_aligned_split r (plan_num_new_tokens p) num_new_local in
      if bool_decide (n = 0) then Ok (s, None) else Ok (s, Some (n, p))
    else Ok (s, Some (plan_num_new_tokens p, p)).

(** The request is moved from its queue to the running list. *)
Definition commit_waiting s st (sel : queue_sel) (id : string) (num_computed_tokens num_new_tokens : Z)
    (p : enc_plan) : res (Scheduler K * Step) :=
  '(_, q) ← @pop_request _ _ (queue_ops s) (selected s sel);
  let s := set_selected s sel q in
  let s := set_running s (running s ++ [id]) in
  r ← get_request s id;
  st ← (if bool_decide (status r = WAITING)
        then Ok (set_scheduled_new_reqs st (scheduled_new_reqs st ++ [id]))
        else if bool_decide (status r = PREEMPTED)
        then Ok (set_scheduled_resumed_reqs st (scheduled_resumed_reqs st ++ [id]))
        else Raise RuntimeError);
  let st := match max_loras cfg, lora_request r with
            | Some _, Some lora => set_scheduled_loras st (lora_add (scheduled_loras st) (lora_int_id lora))
            | _, _ => st
            end in
  let st := set_req_to_new_blocks st (od_set (req_to_new_blocks st) id (km_get_blocks (kv_cache_manager s) id)) in
  let st := set_num_scheduled_tokens st (od_set (num_scheduled_tokens st) id num_new_tokens) in
  let st := set_token_budget st (token_budget st - num_new_tokens) in
  let r := set_num_computed_tokens (set_status r RUNNING) num_computed_tokens in
  schedule_encoder_inputs (put_request s r) st r p.

(** The part of an iteration after the request has been found schedulable.  [None]
    where the loop breaks. *)
Definition admit_waiting s st (sel : queue_sel) (id : string) : res (Scheduler K * option Step) :=
  r ← get_request s id;
  '(new_computed_blocks, num_new_local, num_computed) ←
    (if bool_decide (num_computed_tokens r = 0) then
       match get_computed_blocks (kv_cache_manager s) r with
       | None => Raise OutOfFuel
       | Some res => '(blocks, n) ← res; py_assert (bool_decide (n ≤ num_tokens r));; Ok (blocks, n, n)
       end
     else Ok (EmptyKVCacheBlocks, 0, num_computed_tokens r));
  '(s, o) ← waiting_new_tokens s st r num_computed num_new_local;
  match o with
  | None => Ok (s, None)
  | Some (num_new_tokens, p) =>
      let lookahead := if bool_decide (num_computed_tokens r = 0) then 0 else num_lookahead_tokens cfg in
      num_encoder_tokens ←
        (if is_encoder_decoder (encoder_cache_manager s) && has_encoder_inputs r
         then sum_encoder_embeds r (encoder_inputs_to_schedule p) else Ok 0);
      '(kv, new_blocks) ← allocate_slots (kv_cache_manager s) r num_new_tokens num_new_local
                            (Some new_computed_blocks) lookahead 0 false num_encoder_tokens
                            (scheduler_reserve_full_isl cfg);
      let s := set_kv_cache_manager s kv in
      match new_blocks with
      | None =>
          enc ← (if has_encoder_inputs r then enc_free set_order (encoder_cache_manager s) r
                 else Ok (encoder_cache_manager s));
          Ok (set_encoder_cache_manager s enc, None)
      | Some _ =>
          '(s, st) ← commit_waiting s st sel id num_computed num_new_tokens p;
          Ok (s, Some st)
      end
  end.

(** One iteration: [None] where the loop breaks. *)
Definition waiting_iteration s st (skipped : AnyQueue string)
    : res (Scheduler K * option (Step * AnyQueue string)) :=
  o ← _select_waiting_queue_for_scheduling s;
  match o with
  | None => Raise AssertionError
  | Some sel =>
      id ← @peek_request _ _ (queue_ops s) (selected s sel);
      '(s, defer) ← should_defer_waiting_request s id;
      if (defer : bool) then '(s, skipped) ← skip_request s skipped sel id; Ok (s, Some (st, skipped))
      else
        r ← get_request s id;
        '(s, blocked) ←
          (if _is_blocked_waiting_status (status r) then
             '(s, promoted) ← _try_promote_blocked_waiting_request s r; Ok (s, negb promoted)
           else Ok (s, false));
        if (blocked : bool) then '(s, skipped) ← skip_request s skipped sel id; Ok (s, Some (st, skipped))
        else
          r ← get_request s id;
          if exceeds_loras st r
          then '(s, skipped) ← skip_request s skipped sel id; Ok (s, Some (st, skipped))
          else
            '(s, admitted) ← admit_waiting s st sel id;
            Ok (s, match admitted with Some st => Some (st, skipped) | None => None end)
  end.

(** [while (self.waiting or self.skipped_waiting) and token_budget > 0].  Every
    iteration that does not break takes a request from one of the queues. *)
Fixpoint waiting_loop (fuel : nat) s st (skipped : AnyQueue string)
    : res (Scheduler K * Step * AnyQueue string) :=
  if (has_waiting s || has_skipped s) && bool_decide (0 < token_budget st) then
    match fuel with
    | O => Raise OutOfFuel
    | S fuel =>
        if bool_decide (zlen (running s) = max_num_running_reqs cfg) then Ok (s, st, skipped)
        else
          '(s, o) ← waiting_iteration s st skipped;
          match o with
          | None => Ok (s, st, skipped)
          | Some (st, skipped) => waiting_loop fuel s st skipped
          end
    end
  else Ok (s, st, skipped).

Definition num_queued s : nat :=
  Z.to_nat (@queue_len _ _ (queue_ops s) (waiting s) + @queue_len _ _ (queue_ops s) (skipped_waiting s)).

Definition schedule_waiting s st : res (Scheduler K * Step) :=
  if is_nil (preempted_reqs st) && bool_decide (pause_state s = UNPAUSED) then
    '(s, st, skipped) ← waiting_loop (num_queued s) s st (create_request_queue (policy cfg));
    if @queue_bool _ _ (queue_ops s) skipped then
      ids ← @queue_iter _ _ (queue_ops s) skipped;
      q ← @prepend_requests _ _ (queue_ops s) (skipped_waiting s) ids;
      Ok (set_skipped_waiting s q, st)
    else Ok (s, st)
  else Ok (s, st).

(** ** The output of a step *)

Definition new_request_data s st (id : string) : res NewRequestData :=
  r ← get_request s id;
  blocks ← od_lookup (req_to_new_blocks st) id;
  Ok (mkNewRequestData id (prompt_token_ids r) (mm_features r) (sampling_params r) (pooling_params r)
        (blocks_get_block_ids (kv_cache_manager s) blocks false) (num_computed_tokens r) (lora_request r)
        (if use_v2_model_runner cfg then Some (all_token_ids r) else None)).

(** One iteration of [_make_cached_request_data]. *)
Definition add_cached_request s st (resumed : bool) (d : CachedRequestData) (id : string)
    : res CachedRequestData :=
  r ← get_request s id;
  new_token_ids ←
    (if use_pp cfg && negb (async_scheduling cfg) then
       n ← od_lookup (num_scheduled_tokens st) id;
       let num_tokens := n - zlen (default [] (od_get (scheduled_spec_decode_tokens st) id)) in
       Ok (crd_new_token_ids d ++
             [py_slice (all_token_ids r) (num_computed_tokens r) (num_computed_tokens r + num_tokens)])
     else Ok (crd_new_token_ids d));
  let in_prev := bool_decide (id ∈ prev_step_scheduled_req_ids s) in
  (if resumed then py_assert (negb in_prev) else Ok tt);;
  blocks ← od_lookup (req_to_new_blocks st) id;
  Ok (mkCachedRequestData (crd_req_ids d ++ [id])
        (if resumed then crd_resumed_req_ids d ++ [id] else crd_resumed_req_ids d)
        new_token_ids
        (if in_prev then crd_all_token_ids d else od_set (crd_all_token_ids d) id (all_token_ids r))
        (crd_new_block_ids d ++ [blocks_get_block_ids (kv_cache_manager s) blocks true])
        (crd_num_computed_tokens d ++ [num_computed_tokens r])
        (crd_num_output_tokens d ++ [num_output_tokens r + num_output_placeholders r])).

Definition _make_cached_request_data s st (running_reqs resumed_reqs : list string)
    : res CachedRequestData :=
  d ← foldM (add_cached_request s st false) (mkCachedRequestData [] [] [] [] [] [] []) running_reqs;
  foldM (add_cached_request s st true) d resumed_reqs.

Definition sum_tokens (d : list (string * Z)) : Z := foldr (λ kv acc, kv.2 + acc) 0 d.

(** [Scheduler._update_after_schedule] on one request; the second component says
    whether the step now has a structured output request. *)
Definition advance_request s (id : string) (n : Z) : res (Scheduler K * bool) :=
  r ← get_request s id;
  let r := set_num_computed_tokens r (num_computed_tokens r + n) in
  let r := set_is_prefill_chunk r
             (bool_decide (num_computed_tokens r < num_tokens r + num_output_placeholders r)) in
  Ok (put_request s r, use_structured_output r && negb (is_prefill_chunk r)).

Definition base_update_after_schedule s (scheduled : list (string * Z)) : res (Scheduler K * bool) :=
  '(s, b) ← foldM (λ (acc : Scheduler K * bool) kv,
               '(s, b) ← advance_request acc.1 kv.1 kv.2; Ok (s, acc.2 || b)) (s, false) scheduled;
  Ok (set_finished_req_ids s ∅, b).

(** [AsyncScheduler._update_after_schedule] on one request. *)
Definition add_placeholders st s (id : string) : res (Scheduler K * bool) :=
  r ← get_request s id;
  if is_prefill_chunk r then Ok (s, false)
  else
    let pending := use_structured_output r && bool_decide (0 < num_output_placeholders r) in
    let spec := zlen (default [] (od_get (scheduled_spec_decode_tokens st) id)) in
    let r := set_num_output_placeholders r (num_output_placeholders r + (1 + spec)) in
    Ok (put_request s (set_spec_token_ids r (py_repeat (-1) (num_spec_tokens cfg))), pending).

Definition _update_after_schedule s st : res (Scheduler K * bool * bool) :=
  '(s, has_structured) ← base_update_after_schedule s (num_scheduled_tokens st);
  if async_scheduling cfg then
    '(s, pending) ← foldM (λ (acc : Scheduler K * bool) kv,
                       '(s, b) ← add_placeholders st acc.1 kv.1; Ok (s, acc.2 || b))
                     (s, false) (num_scheduled_tokens st);
    Ok (s, has_structured, pending)
  else Ok (s, has_structured, false).

(** The freed encoder outputs are taken out of the cache manager. *)
Definition enc_get_freed_mm_hashes (c : encoder_cache) : encoder_cache * list string :=
  match c with
  | MultiModalCache m => let '(m, l) := get_freed_mm_hashes m in (MultiModalCache m, l)
  | EncoderDecoderCache m => let '(m, l) := encdec_get_freed_mm_hashes m in (EncoderDecoderCache m, l)
  end.

(** From the scheduled requests to the [SchedulerOutput]. *)
Definition finish_step s st : res (Scheduler K * SchedulerOutput) :=
  let total := sum_tokens (num_scheduled_tokens st) in
  py_assert (bool_decide (total ≤ max_num_scheduled_tokens cfg));;
  py_assert (bool_decide (0 ≤ token_budget st));;
  py_assert (bool_decide (zlen (running s) ≤ max_num_running_reqs cfg));;
  py_assert (bool_decide (zlen (scheduled_new_reqs st) + zlen (scheduled_resumed_reqs st) +
                          zlen (scheduled_running_reqs st) ≤ zlen (running s)));;
  '(s, common) ←
    match running s with
    | [] => Ok (s, replicate (num_kv_cache_groups (kv_cache_manager s)) 0)
    | id :: _ =>
        '(kv, c) ← km_get_num_common_prefix_blocks (kv_cache_manager s) id;
        Ok (set_kv_cache_manager s kv, c)
    end;
  let '(new_reqs, resumed_reqs) :=
    if use_v2_model_runner cfg then (scheduled_new_reqs st ++ scheduled_resumed_reqs st, [])
    else (scheduled_new_reqs st, scheduled_resumed_reqs st) in
  new_reqs_data ← mapM_res (new_request_data s st) new_reqs;
  cached ← _make_cached_request_data s st (scheduled_running_reqs st) resumed_reqs;
  let s := set_prev_step_scheduled_req_ids s (list_to_set (num_scheduled_tokens st).*1) in
  let '(s, zero) :=
    if needs_kv_cache_zeroing cfg then
      let '(kv, ids) := km_take_new_block_ids (kv_cache_manager s) in
      (set_kv_cache_manager s kv, if is_nil ids then None else Some ids)
    else (s, None) in
  let '(plug, taper_step) := step_started s (num_scheduled_tokens st) in
  let s := set_plugins s plug in
  let '(enc, freed) := enc_get_freed_mm_hashes (encoder_cache_manager s) in
  let s := set_encoder_cache_manager s enc in
  let finished := finished_req_ids s in
  '(s, has_structured, pending) ← _update_after_schedule s st;
  Ok (s, mkSchedulerOutput new_reqs_data cached (num_scheduled_tokens st) total
           (scheduled_spec_decode_tokens st) (scheduled_encoder_inputs st) common (preempted_reqs st)
           finished freed zero has_structured pending [] taper_step).

(** ** [schedule] *)

Definition schedule s : res (Scheduler K * SchedulerOutput) :=
  let budget := if bool_decide (pause_state s = PAUSED_ALL) then 0 else max_num_scheduled_tokens cfg in
  let s := set_kv_cache_manager s (km_new_step_starts (kv_cache_manager s)) in
  '(s, admitted) ← get_taper_plus_admitted_running_req_ids s budget;
  '(s, st) ← running_loop (length (running s)) admitted s
               (initial_step budget (max_num_encoder_input_tokens cfg)) 0;
  st ← running_loras s st;
  '(s, st) ← schedule_waiting s st;
  finish_step s st.

(** ** Streaming sessions *)

(** The new position of an item of the update. *)
Definition shift_feature (base : Z) (f : MultiModalFeatureSpec) : MultiModalFeatureSpec :=
  mkMMFeature (identifier f)
    (mkPlaceholder (offset (mm_position f) + base) (length_ (mm_position f)) (is_embed (mm_position f))).

Definition _update_request_as_session s (session : Request) (update : StreamingUpdate) : res (Scheduler K) :=
  let n := num_computed_tokens session in
  let kept_output_tokens := py_slice (all_token_ids session) (num_prompt_tokens session) n in
  let session := set_all_token_ids session (py_slice_to (all_token_ids session) n) in
  let session := set_output_token_ids session [] in
  match prompt_token_ids session with
  | None => Raise AssertionError
  | Some prompt =>
      let prompt := prompt ++ kept_output_tokens in
      let base := num_tokens session in
      let session := set_mm_features session (mm_features session ++ (shift_feature base <$> su_mm_features update)) in
      let new := default [] (su_prompt_token_ids update) in
      let session := set_all_token_ids session (all_token_ids session ++ new) in
      let prompt := prompt ++ new in
      let session := set_prompt_token_ids session (Some prompt) in
      session ← update_block_hashes block_hasher session;
      let session := set_num_prompt_tokens session (zlen prompt) in
      let session := set_arrival_time session (su_arrival_time update) in
      let session := set_sampling_params session (su_sampling_params update) in
      let s := if bool_decide (status session = WAITING_FOR_STREAMING_REQ)
               then set_num_waiting_for_streaming_input s (num_waiting_for_streaming_input s - 1) else s in
      Ok (put_request s (set_status session WAITING))
  end.

(** [_handle_stopped_request]: whether the request is finished. *)
Definition _handle_stopped_request s (r : Request) : res (Scheduler K * bool) :=
  let id := request_id r in
  if negb (resumable r) then Ok (s, true)
  else
    match default [] (streaming_queue s !! id) with
    | None :: rest => Ok (set_streaming_queue s (<[id := rest]> (streaming_queue s)), true)
    | Some update :: rest =>
        let s := set_streaming_queue s (<[id := rest]> (streaming_queue s)) in
        s ← _update_request_as_session s r update;
        r ← get_request s id;
        s ← _enqueue_waiting_request s r;
        Ok (s, false)
    | [] =>
        let r := set_status r WAITING_FOR_STREAMING_REQ in
        let s := put_request s r in
        let s := set_num_waiting_for_streaming_input s (num_waiting_for_streaming_input s + 1) in
        s ← _enqueue_waiting_request s r;
        Ok (s, false)
    end.

(** ** Finishing requests *)

Definition _free_blocks s (r : Request) : res (Scheduler K) :=
  py_assert (is_finished r);;
  kv ← km_free (kv_cache_manager s) r;
  match sc_requests s !! request_id r with
  | None => Raise KeyError
  | Some _ => Ok (set_sc_requests (set_kv_cache_manager s kv) (delete (request_id r) (sc_requests s)))
  end.

Definition _free_request s (r : Request) : res (Scheduler K) :=
  py_assert (is_finished r);;
  s ← observe_finished_request s r;
  enc ← enc_free set_order (encoder_cache_manager s) r;
  let s := set_encoder_cache_manager s enc in
  let id := request_id r in
  let s := set_finished_req_ids s ({[id]} ∪ finished_req_ids s) in
  let s := match finished_req_ids_dict s with
           | None => s
           | Some d =>
               set_finished_req_ids_dict s
                 (Some (<[client_index r := {[id]} ∪ default ∅ (d !! client_index r)]> d))
           end in
  _free_blocks s r.

(** The first pass of [finish_requests]: the requests to finish and where they are. *)
Definition collect_request (acc : Scheduler K * list string * list string * list string) (id : string)
    : Scheduler K * list string * list string * list string :=
  let '(s, run, wait, valid) := acc in
  match sc_requests s !! id with
  | None => acc
  | Some r =>
      if is_finished r then acc
      else if bool_decide (status r = RUNNING) then (s, id :: run, wait, valid ++ [id])
      else
        let s := if bool_decide (status r = WAITING_FOR_STREAMING_REQ)
                 then set_num_waiting_for_streaming_input s (num_waiting_for_streaming_input s - 1) else s in
        (s, run, wait ++ [id], valid ++ [id])
  end.

(** [finish_requests]; [request_ids] are the distinct ids in the order they are visited. *)
Definition finish_requests s (request_ids : list string) (finished_status : RequestStatus)
    : res (Scheduler K * list (string * Z)) :=
  py_assert (is_finished_status finished_status);;
  let '(s, run, wait, valid) := foldl collect_request (s, [], [], []) request_ids in
  let s := set_running s (remove_all (running s) run) in
  s ← (if is_nil wait then Ok s
       else
         q1 ← @remove_requests _ _ (queue_ops s) (waiting s) wait;
         q2 ← @remove_requests _ _ (queue_ops s) (skipped_waiting s) wait;
         Ok (set_skipped_waiting (set_waiting s q1) q2));
  let clients := (λ id, (id, client_index (obj s id))) <$> valid in
  s ← foldM (λ s id,
         r ← get_request s id;
         let r := set_status r finished_status in
         _free_request (put_request s r) r) s valid;
  Ok (s, clients).

(** ** [add_request] *)

Definition add_request_to_scheduler s (r : Request) : res (Scheduler K) :=
  let id := request_id r in
  match sc_requests s !! id with
  | Some existing =>
      let update := streaming_update_from_request r in
      if bool_decide (status existing ≠ WAITING_FOR_STREAMING_REQ) then
        match streaming_queue s !! id with
        | None => Raise AssertionError
        | Some q => Ok (set_streaming_queue s (<[id := q ++ [update]]> (streaming_queue s)))
        end
      else
        match update with
        | Some update => _update_request_as_session s existing update
        | None => '(s, _) ← finish_requests s [id] FINISHED_ABORTED; Ok s
        end
  | None =>
      let s := if resumable r then set_streaming_queue s (<[id := []]> (streaming_queue s))
               else set_streaming_queue s (delete id (streaming_queue s)) in
      '(s, r) ← prepare_request s r;
      let s := put_request s r in
      _enqueue_waiting_request s r
  end.

(** ** [update_from_output] *)

(** What the runner returns; [pooler_output] says which requests have a pooled output. *)
Record ModelRunnerOutput := mkModelRunnerOutput {
  req_id_to_index : gmap string nat;
  sampled_token_ids : list (list Z);
  pooler_output : list bool
}.

Record EngineCoreOutput := mkEngineCoreOutput {
  eco_client_index : Z;
  eco_request_id : string;
  eco_new_token_ids : list Z;
  eco_finish_reason : option FinishReason;
  eco_stop_reason : option StopReason
}.

(** Appending the new tokens up to the one that stops the request. *)
Fixpoint append_until_stop (now : float64) (r : Request) (appended new_token_ids : list Z)
    : res (Request * list Z * bool) :=
  match new_token_ids with
  | [] => Ok (r, appended, false)
  | t :: new_token_ids =>
      r ← append_output_token_id block_hasher now r t;
      '(r, stopped) ← check_stop r (max_model_len cfg);
      if (stopped : bool) then Ok (r, appended ++ [t], true)
      else append_until_stop now r (appended ++ [t]) new_token_ids
  end.

(** [_update_request_with_output] of both classes. *)
Definition _update_request_with_output s (now : float64) (r : Request) (new_token_ids : list Z)
    : res (Scheduler K * Request * list Z * bool) :=
  if async_scheduling cfg then
    if discard_latest_async_tokens r
    then Ok (s, set_discard_latest_async_tokens r false, [], false)
    else
      let status_before := status r in
      '(r, new_token_ids, stopped) ← append_until_stop now r [] new_token_ids;
      let r := set_num_output_placeholders r (num_output_placeholders r - zlen new_token_ids) in
      py_assert (bool_decide (0 ≤ num_output_placeholders r));;
      kv ← (if bool_decide (status_before = RUNNING)
            then km_cache_blocks (kv_cache_manager s) r (num_computed_tokens r - num_output_placeholders r)
            else Ok (kv_cache_manager s));
      Ok (set_kv_cache_manager s kv, r, new_token_ids, stopped)
  else
    '(r, new_token_ids, stopped) ← append_until_stop now r [] new_token_ids;
    Ok (s, r, new_token_ids, stopped).

(** Rejected draft tokens are not computed. *)
Definition adjust_rejected (r : Request) (spec generated : list Z) : Request :=
  if is_nil spec || is_nil generated then r
  else
    let num_rejected := zlen spec - (zlen generated - 1) in
    let r := if bool_decide (0 < num_computed_tokens r)
             then set_num_computed_tokens r (num_computed_tokens r - num_rejected) else r in
    if bool_decide (0 < num_output_placeholders r)
    then set_num_output_placeholders r (num_output_placeholders r - num_rejected) else r.

(** The grammar of a structured request takes the new tokens or ends the request. *)
Definition advance_grammar s (r : Request) (new_token_ids : list Z) (stopped : bool)
    : Scheduler K * Request * bool :=
  if negb (is_nil new_token_ids) && should_advance (plugins s) r then
    let '(k, ok) := accept_tokens (plugins s) (request_id r) new_token_ids in
    let s := set_plugins s k in
    if ok then (s, r, stopped) else (s, set_resumable (set_status r FINISHED_ERROR) false, true)
  else (s, r, stopped).

(** The state of the loop: the scheduler, the outputs, and the stopped requests that
    were running and that were preempted. *)
Record upd := mkUpd {
  upd_sched : Scheduler K;
  upd_outputs : list EngineCoreOutput;
  upd_stopped_running : list string;
  upd_stopped_preempted : list string
}.

(** [set.add]. *)
Definition id_add (l : list string) (x : string) : list string := if bool_decide (x ∈ l) then l else x :: l.

(** What happens to a stopped request. *)
Definition handle_stopped s (r : Request) : res (Scheduler K) :=
  '(s, finished) ← _handle_stopped_request s r;
  if (finished : bool) then _free_request s r else Ok s.

(** The body of the loop for a request that is not finished. *)
Definition process_output (out : SchedulerOutput) (mro : ModelRunnerOutput) (now : float64)
    (u : upd) (r : Request) : res upd :=
  let id := request_id r in
  let s := upd_sched u in
  req_index ← match req_id_to_index mro !! id with Some i => Ok i | None => Raise KeyError end;
  generated ← (if is_nil (sampled_token_ids mro) then Ok []
               else py_nth (sampled_token_ids mro) (Z.of_nat req_index));
  let spec := default [] (od_get (so_scheduled_spec_decode_tokens out) id) in
  let r := adjust_rejected r spec generated in
  let s := put_request s r in
  enc ← (if has_encoder_inputs r then _free_encoder_inputs set_order (encoder_cache_manager s) r
         else Ok (encoder_cache_manager s));
  let s := set_encoder_cache_manager s enc in
  pooled ← (if is_nil (pooler_output mro) then Ok false else py_nth (pooler_output mro) (Z.of_nat req_index));
  let status_before_stop := status r in
  '(s, r, new_token_ids, stopped) ←
    (if negb (is_nil generated) then _update_request_with_output s now r generated
     else if is_some (pooling_params r) && pooled
     then Ok (s, set_status r FINISHED_STOPPED, [], true)
     else Ok (s, r, [], false));
  let '(s, r, stopped) := advance_grammar s r new_token_ids stopped in
  let s := put_request s r in
  let finish_reason := if stopped then get_finished_reason r else None in
  s ← (if (stopped : bool) then handle_stopped s r else Ok s);
  let r := default r (sc_requests s !! id) in
  s ← (if is_nil new_token_ids then Ok s else observe_request_output s r new_token_ids);
  let output := mkEngineCoreOutput (client_index r) id new_token_ids finish_reason (stop_reason r) in
  Ok (mkUpd s
        (if negb (is_nil new_token_ids) || pooled || stopped then upd_outputs u ++ [output] else upd_outputs u)
        (if stopped && bool_decide (status_before_stop = RUNNING)
         then id_add (upd_stopped_running u) id else upd_stopped_running u)
        (if stopped && negb (bool_decide (status_before_stop = RUNNING))
         then id_add (upd_stopped_preempted u) id else upd_stopped_preempted u)).

Definition update_iteration (out : SchedulerOutput) (mro : ModelRunnerOutput) (now : float64)
    (u : upd) (kv : string * Z) : res upd :=
  py_assert (bool_decide (0 < kv.2));;
  match sc_requests (upd_sched u) !! kv.1 with
  | None => Ok u
  | Some r => if is_finished r then Ok u else process_output out mro now u r
  end.

Definition update_from_output s (out : SchedulerOutput) (mro : ModelRunnerOutput) (now : float64)
    : res (Scheduler K * list EngineCoreOutput * option (gmap Z (gset string))) :=
  let s := set_plugins s (step_observed s (so_taper_step out)) in
  u ← foldM (update_iteration out mro now) (mkUpd s [] [] []) (so_num_scheduled_tokens out);
  let s := upd_sched u in
  let s := set_running s (remove_all (running s) (upd_stopped_running u)) in
  s ← (if is_nil (upd_stopped_preempted u) then Ok s
       else q ← @remove_requests _ _ (queue_ops s) (waiting s) (upd_stopped_preempted u);
            Ok (set_waiting s q));
  let '(kv, _) := km_take_events (kv_cache_manager s) in
  let s := set_kv_cache_manager s kv in
  Ok (set_finished_req_ids_dict s ((λ _, ∅) <$> finished_req_ids_dict s), upd_outputs u, finished_req_ids_dict s).

(** ** Draft tokens *)

Definition update_draft_token_ids s (drafts : list (string * list Z)) : Scheduler K :=
  foldl (λ s kv,
    match sc_requests s !! kv.1 with
    | None => s
    | Some r =>
        if is_finished r then s
        else if is_prefill_chunk r then put_request s (set_spec_token_ids r [])
        else
          let spec := if should_advance (plugins s) r
                      then validate_tokens (plugins s) kv.1 kv.2 else kv.2 in
          put_request s (set_spec_token_ids r spec)
    end) s drafts.

(** One draft of [update_draft_token_ids_in_output]: the padded tokens and the number
    of invalid ones. *)
Definition pad_draft s (r : Request) (placeholders draft : list Z) : list Z * Z :=
  let draft := py_slice_to draft (zlen placeholders) in
  let draft := if should_advance (plugins s) r
               then validate_tokens (plugins s) (request_id r) draft else draft in
  let invalid := zlen placeholders - zlen draft in
  (draft ++ py_repeat (-1) invalid, invalid).

Definition update_draft_token_ids_in_output s (drafts : list (string * list Z))
    (sched_spec_tokens : list (string * list Z)) : list (string * list Z) * list (string * Z) :=
  foldl (λ acc kv,
    match sc_requests s !! kv.1, od_get acc.1 kv.1 with
    | Some r, Some (t :: ts) =>
        if is_finished r then acc
        else
          let '(padded, invalid) := pad_draft s r (t :: ts) kv.2 in
          (od_set acc.1 kv.1 padded,
           if bool_decide (invalid = 0) then acc.2 else od_set acc.2 kv.1 invalid)
    | _, _ => acc
    end) (sched_spec_tokens, []) drafts.

(** ** Counts, pauses and resets *)

Definition get_request_counts s : Z * Z :=
  (zlen (running s),
   @queue_len _ _ (queue_ops s) (waiting s) + @queue_len _ _ (queue_ops s) (skipped_waiting s)).

Definition get_num_unfinished_requests s : Z :=
  match pause_state s with
  | PAUSED_ALL => 0
  | PAUSED_NEW => zlen (running s)
  | UNPAUSED =>
      @queue_len _ _ (queue_ops s) (waiting s) + @queue_len _ _ (queue_ops s) (skipped_waiting s) -
      num_waiting_for_streaming_input s + zlen (running s)
  end.

Definition has_finished_requests s : bool := bool_decide (finished_req_ids s ≠ ∅).

(** [while self.running: request = self.running.pop(); ...], from the last request. *)
Fixpoint preempt_all (ids : list string) s : res (Scheduler K) :=
  match ids with
  | [] => Ok s
  | id :: ids =>
      let s := set_running s (py_init (running s)) in
      s ← _preempt_request s id;
      r ← get_request s id;
      let r := set_discard_latest_async_tokens (set_num_output_placeholders r 0) true in
      preempt_all ids (put_request s r)
  end.

Definition sched_reset_prefix_cache s (reset_running_requests : bool) : res (Scheduler K * bool) :=
  s ← (if reset_running_requests then
         s ← preempt_all (reverse (running s)) s;
         Ok (set_prev_step_scheduled_req_ids s ∅)
       else Ok s);
  let '(kv, ok) := km_reset_prefix_cache (kv_cache_manager s) in
  let s := set_kv_cache_manager s kv in
  if reset_running_requests && negb ok then Raise RuntimeError else Ok (s, ok).

Definition reset_encoder_cache s : Scheduler K :=
  set_encoder_cache_manager s
    match encoder_cache_manager s with
    | MultiModalCache m => MultiModalCache (ec_reset m)
    | EncoderDecoderCache m => EncoderDecoderCache (encdec_reset m)
    end.
End Scheduler.
