(* ===== verification/SchedQueues.v ===== *)
(** * The queues of the scheduler

    The waiting queues hold ids and compare the objects in the store.  [holds s q l]
    says that, in the store of [s], the queue [q] is a queue of the configured policy
    with the contents [l] in order.  The order only reads the priority, the arrival
    time and the id of the objects, so that changing anything else of a request keeps
    the queues ([holds_ext]). *)

From Corelib Require Import SpecFloat.
From S2P Require Import Prelude PyFloat Request HeapQ RequestQueue FreeQueue BlockHash BlockPool KVCacheSpec SingleType CacheHit Coordinator KVCacheManager SchedUtils OrderedDict EncoderCache EncoderSched SchedState.

(** What [Request.__lt__] reads. *)
Definition rkey (r : Request) : Z * float64 * string := (priority r, arrival_time r, request_id r).

Section Queues.
Context {K : Type} (p : SchedulingPolicy).
Implicit Types (s : Scheduler K) (q : AnyQueue string) (l : list string) (id : string).

Definition comparable s id : Prop := arrived (obj s) (keyed (obj s)) id.

Definition holds s q l : Prop :=
  refines (D := comparable s) (lt := ref_ltb (λ _, 0) (obj s)) p q l.

Lemma comparable_ext s s' id : rkey (obj s' id) = rkey (obj s id) → comparable s id → comparable s' id.
Proof. unfold comparable, arrived, keyed, rkey. intros [= _ -> ->]. done. Qed.

Lemma ref_ltb_ext s s' a b :
  rkey (obj s' a) = rkey (obj s a) → rkey (obj s' b) = rkey (obj s b) →
  ref_ltb (λ _, 0) (obj s') a b = ref_ltb (λ _, 0) (obj s) a b.
Proof. unfold rkey, ref_ltb, request_ltb. intros [= -> -> ->] [= -> -> ->]. done. Qed.

(** What a priority queue holds, without reference to its iterator. *)
Lemma holds_priority s heap l :
  refines (D := comparable s) (lt := ref_ltb (λ _, 0) (obj s)) PRIORITY (PriorityRequestQueue heap) l ↔
  is_heap (lt := ref_ltb (λ _, 0) (obj s)) heap ∧ Forall (comparable s) heap ∧ l ≡ₚ heap ∧
  StronglySorted (le (lt := ref_ltb (λ _, 0) (obj s))) l.
Proof.
  split.
  - intros (_ & Hok & E). cbn in *. destruct (prio_iter_inv heap l Hok E) as (HP & HS & _).
    by destruct Hok.
  - intros (Hh & HD & HP & HS). split_and!; [done|by split|]. cbn. by apply prio_iter_unique.
Qed.

Lemma holds_ext s s' q l :
  (∀ id, id ∈ l → rkey (obj s' id) = rkey (obj s id)) → holds s q l → holds s' q l.
Proof.
  intros Hk. unfold holds. destruct q as [q|heap].
  - intros (Hp & Hok & E). split_and!; [done| |done]. cbn in *. injection E as ->.
    rewrite !Forall_forall in Hok |- *. intros x Hx. eapply comparable_ext; [by apply Hk|by apply Hok].
  - intros H. pose proof (proj1 H) as Hp. cbn in Hp. revert H. rewrite -Hp.
    rewrite !holds_priority. intros (Hh & HD & HP & HS).
    assert (∀ x, x ∈ heap → rkey (obj s' x) = rkey (obj s x)) as Hk' by (intros; apply Hk; by rewrite HP).
    split_and!; [| |done|].
    + intros i Hi _ a b Ha Hb. unfold le. rewrite (ref_ltb_ext s s').
      * apply (Hh i Hi (Nat.le_0_l _) a b Ha Hb).
      * by apply Hk', list_elem_of_lookup_2 with i.
      * by apply Hk', list_elem_of_lookup_2 with (parent i).
    + rewrite !Forall_forall in HD |- *. intros x Hx. eapply comparable_ext; [by apply Hk'|by apply HD].
    + clear -Hk HS. induction HS as [|x l HS IH HF]; constructor.
      * apply IH. intros y Hy. apply Hk. by right.
      * rewrite !Forall_forall in HF |- *. intros y Hy. unfold le.
        rewrite (ref_ltb_ext s s'); [by apply HF|apply Hk; by right|apply Hk; left].
Qed.

Lemma holds_ops s s' q l : obj s' = obj s → holds s q l → holds s' q l.
Proof. intros E. apply holds_ext. by rewrite E. Qed.

Lemma holds_comparable s q l : holds s q l → Forall (comparable s) l.
Proof.
  intros (_ & Hok & E). destruct (@law_iter _ _ _ _ _ (AnyQueue_laws (D := comparable s)) q Hok) as (l' & E' & HD).
  congruence.
Qed.

#[local] Abbreviation laws s := (AnyQueue_laws (D := comparable s) (lt := ref_ltb (λ _, 0) (obj s))).

Lemma holds_create s : holds s (create_request_queue p) [].
Proof. apply create_refines. Qed.

Lemma holds_iter s q l : holds s q l → @queue_iter _ _ (queue_ops s) q = Ok l.
Proof. by intros (_ & _ & ?). Qed.

Lemma holds_bool s q l : holds s q l → @queue_bool _ _ (queue_ops s) q = negb (is_nil l).
Proof. intros H. by apply refines_observe in H as (_ & ? & _). Qed.

Lemma holds_len s q l : holds s q l → @queue_len _ _ (queue_ops s) q = zlen l.
Proof. intros H. by apply refines_observe in H as (? & _). Qed.

Lemma holds_peek s q id l : holds s q (id :: l) → @peek_request _ _ (queue_ops s) q = Ok id.
Proof. intros H. by apply refines_observe in H as (_ & _ & ? & _). Qed.

Lemma holds_op s q l op :
  holds s q l → Forall (comparable s) (op_added op) →
  agree (D := comparable s) (lt := ref_ltb (λ _, 0) (obj s)) p
    (@run_queue_op _ _ (queue_ops s) q op)
    (abs_queue_op (policy_add (lt := ref_ltb (λ _, 0) (obj s)) p)
       (policy_prepend (lt := ref_ltb (λ _, 0) (obj s)) p) l op).
Proof. apply run_op_refines. Qed.

Lemma holds_pop s q id l :
  holds s q (id :: l) → ∃ q', @pop_request _ _ (queue_ops s) q = Ok (id, q') ∧ holds s q' l.
Proof.
  intros H. pose proof (holds_op s q _ QPop H (Forall_nil_2 _)) as Ha.
  cbn [run_queue_op abs_queue_op] in Ha.
  destruct (@pop_request _ _ (queue_ops s) q) as [[x q']|]; [|done].
  destruct Ha as [HR [= ->]]. by exists q'.
Qed.

Lemma policy_add_perm s l id : policy_add (lt := ref_ltb (λ _, 0) (obj s)) p l id ≡ₚ id :: l.
Proof. destruct p; cbn; [by rewrite Permutation_app_comm|apply sorted_insert_perm]. Qed.

Lemma policy_prepend_perm s l id : policy_prepend (lt := ref_ltb (λ _, 0) (obj s)) p l id ≡ₚ id :: l.
Proof. destruct p; cbn; [done|apply sorted_insert_perm]. Qed.

Lemma holds_add s q l id :
  holds s q l → comparable s id →
  ∃ q' l', @add_request _ _ (queue_ops s) q id = Ok q' ∧ holds s q' l' ∧ l' ≡ₚ id :: l.
Proof.
  intros H Hid. pose proof (holds_op s q l (QAdd id) H (Forall_cons_2 _ _ _ Hid (Forall_nil_2 _))) as Ha. cbn [run_queue_op abs_queue_op] in Ha.
  destruct (@add_request _ _ (queue_ops s) q id) as [q'|]; [|done].
  destruct Ha as [HR _]. eexists _, _. split_and!; [done|exact HR|apply policy_add_perm].
Qed.

Lemma holds_prepend s q l id :
  holds s q l → comparable s id →
  ∃ q' l', @prepend_request _ _ (queue_ops s) q id = Ok q' ∧ holds s q' l' ∧ l' ≡ₚ id :: l.
Proof.
  intros H Hid. pose proof (holds_op s q l (QPrepend id) H (Forall_cons_2 _ _ _ Hid (Forall_nil_2 _))) as Ha. cbn [run_queue_op abs_queue_op] in Ha.
  destruct (@prepend_request _ _ (queue_ops s) q id) as [q'|]; [|done].
  destruct Ha as [HR _].
  eexists _, _. split_and!; [done|exact HR|apply policy_prepend_perm].
Qed.

Lemma holds_prepends s q l ids :
  holds s q l → Forall (comparable s) ids →
  ∃ q' l', @prepend_requests _ _ (queue_ops s) q ids = Ok q' ∧ holds s q' l' ∧ l' ≡ₚ ids ++ l.
Proof.
  intros H Hids. pose proof (holds_op s q l (QPrepends ids) H Hids) as Ha.
  cbn [run_queue_op abs_queue_op] in Ha.
  destruct (@prepend_requests _ _ (queue_ops s) q ids) as [q'|]; [|done].
  destruct Ha as [HR _]. eexists _, _. split_and!; [done|exact HR|]. clear.
  revert l. induction ids as [|id ids IH]; intros l; [done|]. cbn [foldl]. rewrite IH policy_prepend_perm.
  by rewrite -Permutation_middle.
Qed.

Lemma holds_removes s q l ids :
  holds s q l →
  ∃ q', @remove_requests _ _ (queue_ops s) q ids = Ok q' ∧ holds s q' (filter (λ x, x ∉ ids) l).
Proof.
  intros H. pose proof (holds_op s q l (QRemoves ids) H (Forall_nil_2 _)) as Ha.
  cbn [run_queue_op abs_queue_op] in Ha.
  destruct (@remove_requests _ _ (queue_ops s) q ids) as [q'|]; [|done].
  destruct Ha as [HR _]. by exists q'.
Qed.
End Queues.
