(* ===== verification/SchedInv.v ===== *)
(** * The invariant of the scheduler

    [SchedInv s t w k x]: the KV cache manager is in the state [t] of its contract,
    the running list, the two waiting queues with the contents [w] and [k] and the
    requests [x] set aside by the current step partition the store, and every request
    has the status of the place it is in.  The invariant is about text requests;
    items of the encoder are treated by [EncoderSched.v].

    The lemmas are the frame rules of the operations: how the invariant moves along
    when an object, a queue or the KV cache changes. *)

From Corelib Require Import SpecFloat.
From S2P Require Import Prelude PyFloat Request HeapQ RequestQueue FreeQueue BlockHash BlockPool KVCacheSpec SingleType CacheHit Coordinator KVCacheManager KVContract SchedUtils OrderedDict EncoderCache EncoderSched SchedState Scheduler SchedQueues.

Section Invariant.
Context {env : KVEnv} {K : Type} (cfg : SchedulerConfig).
Context {hashed : Request → Prop} `{KV : !KVContract (max_model_len cfg) hashed}.
Implicit Types (s : Scheduler K) (r : Request) (t : gmap string Z) (w k x : list string) (id : string).

(** A request of the store. *)
Record req_ok t id r : Prop := {
  ro_id : request_id r = id;
  ro_arrival : arrival_time r ≠ S754_nan;
  ro_text : mm_features r = [];
  ro_hashed : hashed r;
  ro_tokens : 0 < num_tokens r ≤ max_model_len cfg;
  ro_placeholders : 0 ≤ num_output_placeholders r;
  ro_computed : 0 ≤ num_computed_tokens r ≤ Z.min (tok t id) (max_model_len cfg)
}.

(** A request that is not running: it has tokens to compute, or it is a session that
    waits for input.  What has no computed token holds no blocks. *)
Definition queued_ok s t id r : Prop :=
  match status r with
  | WAITING | PREEMPTED | WAITING_FOR_STRUCTURED_OUTPUT_GRAMMAR =>
      num_computed_tokens r < num_tokens r < max_model_len cfg
  | WAITING_FOR_STREAMING_REQ => default [] (streaming_queue s !! id) = []
  | _ => False
  end ∧ (num_computed_tokens r = 0 → t !! id = None).

Definition running_ok r : Prop := status r = RUNNING ∧ num_tokens r < max_model_len cfg.

Record SchedInv s t w k x : Prop := {
  si_kv : kv_ok (kv_cache_manager s) t;
  si_store : ∀ id r, sc_requests s !! id = Some r → req_ok t id r;
  si_waiting : holds (policy cfg) s (waiting s) w;
  si_skipped : holds (policy cfg) s (skipped_waiting s) k;
  si_nodup : NoDup (running s ++ w ++ k ++ x);
  si_dom : ∀ id, is_Some (sc_requests s !! id) ↔ id ∈ running s ++ w ++ k ++ x;
  si_running : ∀ id r, sc_requests s !! id = Some r → id ∈ running s → running_ok r;
  si_queued : ∀ id r, sc_requests s !! id = Some r → id ∉ running s → queued_ok s t id r;
  si_table : ∀ id, sc_requests s !! id = None → t !! id = None;
  si_limit : zlen (running s) ≤ max_num_running_reqs cfg
}.

(** No preempted request was scheduled in the previous step. *)
Definition prev_ok s : Prop :=
  ∀ id r, id ∈ prev_step_scheduled_req_ids s → sc_requests s !! id = Some r → status r ≠ PREEMPTED.

(** A running request has no more computed tokens than tokens and output placeholders,
    and room for one more. *)
Definition run_ready r : Prop :=
  num_computed_tokens r ≤ num_tokens r + num_output_placeholders r ∧
  num_computed_tokens r < max_model_len cfg.

Lemma obj_lookup s id r : sc_requests s !! id = Some r → obj s id = r.
Proof. unfold obj. by intros ->. Qed.

Lemma get_request_ok s id r : sc_requests s !! id = Some r → get_request s id = Ok r.
Proof. unfold get_request. by intros ->. Qed.

Lemma inv_running s t w k x id :
  SchedInv s t w k x → id ∈ running s → ∃ r, sc_requests s !! id = Some r ∧ req_ok t id r ∧ running_ok r.
Proof.
  intros I Hid. destruct (proj2 (si_dom _ _ _ _ _ I id)) as [r Hr]; [apply elem_of_app; by left|].
  exists r. split_and!; [done|by apply I|by eapply si_running].
Qed.

Lemma inv_not_running s t w k x id :
  SchedInv s t w k x → id ∈ w ++ k ++ x →
  (id ∉ running s) ∧ ∃ r, sc_requests s !! id = Some r ∧ req_ok t id r ∧ queued_ok s t id r.
Proof.
  intros I Hid. assert (id ∉ running s) as Hnr.
  { intros Hr. pose proof (si_nodup _ _ _ _ _ I) as Hnd. apply NoDup_app in Hnd as (_ & Hnd & _).
    by apply (Hnd id Hr). }
  split; [done|]. destruct (proj2 (si_dom _ _ _ _ _ I id)) as [r Hr]; [apply elem_of_app; by right|].
  exists r. split_and!; [done|by apply I|by eapply si_queued].
Qed.

Lemma stored_comparable s t id r : sc_requests s !! id = Some r → req_ok t id r → comparable s id.
Proof.
  intros Hr [H1 H2]. unfold comparable, arrived, keyed. by rewrite (obj_lookup _ _ _ Hr).
Qed.

Lemma obj_put s r id : obj (put_request s r) id = if decide (request_id r = id) then r else obj s id.
Proof.
  unfold obj, put_request. cbn. case_decide as E; [by rewrite E lookup_insert_eq|by rewrite lookup_insert_ne].
Qed.

(** A change of an object that keeps its key keeps the queues. *)
Lemma holds_put p s q l r r' :
  sc_requests s !! request_id r' = Some r → rkey r' = rkey r → holds p s q l → holds p (put_request s r') q l.
Proof.
  intros Hr Hk. apply holds_ext. intros id _. rewrite obj_put. case_decide as E; [|done].
  subst id. by rewrite (obj_lookup _ _ _ Hr).
Qed.

(** ** Frame rules *)

(** What the invariant reads. *)
Definition same_core s s' : Prop :=
  sc_requests s' = sc_requests s ∧ waiting s' = waiting s ∧ skipped_waiting s' = skipped_waiting s ∧
  running s' = running s ∧ streaming_queue s' = streaming_queue s ∧ kv_cache_manager s' = kv_cache_manager s.

Lemma SchedInv_core s s' t w k x : same_core s s' → SchedInv s t w k x → SchedInv s' t w k x.
Proof.
  intros (E1 & E2 & E3 & E4 & E5 & E6) [].
  assert (obj s' = obj s) as Eo by (unfold obj; by rewrite E1).
  split; rewrite ?E1 ?E2 ?E3 ?E4 ?E6; try done; [by eapply holds_ops..|].
  unfold queued_ok. by rewrite E5.
Qed.

Lemma SchedInv_put s t w k x id r r' :
  SchedInv s t w k x → sc_requests s !! id = Some r → rkey r' = rkey r → req_ok t id r' →
  (id ∈ running s → running_ok r') → (id ∉ running s → queued_ok s t id r') →
  SchedInv (put_request s r') t w k x.
Proof.
  intros I Hr Hk Hok Hrun Hq. pose proof (ro_id _ _ _ Hok) as Hid.
  destruct I as [I1 I2 I3 I4 I5 I6 I7 I8 I9 I10].
  assert (∀ id' r1, <[id := r']> (sc_requests s) !! id' = Some r1 →
    (id' = id ∧ r1 = r') ∨ (id' ≠ id ∧ sc_requests s !! id' = Some r1)) as Hcase.
  { intros id' r1. destruct (decide (id' = id)) as [->|Hne]; [rewrite lookup_insert_eq|rewrite lookup_insert_ne //];
      naive_solver. }
  unfold put_request. rewrite Hid. split; cbn; try done.
  - intros id' r1 [[-> ->]|[_ ?]]%Hcase; [done|by apply I2].
  - rewrite -Hid in Hr |- *. by eapply holds_put.
  - rewrite -Hid in Hr |- *. by eapply holds_put.
  - intros id'. rewrite -I6. destruct (decide (id' = id)) as [->|Hne]; [|by rewrite lookup_insert_ne].
    rewrite lookup_insert_eq Hr. by split; intros; eexists.
  - intros id' r1 [[-> ->]|[_ ?]]%Hcase; [done|by apply I7].
  - intros id' r1 [[-> ->]|[_ ?]]%Hcase; [done|by apply I8].
  - intros id' Hn. apply I9. destruct (decide (id' = id)) as [->|Hne]; [by rewrite lookup_insert_eq in Hn|].
    by rewrite lookup_insert_ne in Hn.
Qed.

(** The KV cache manager changes, and the table at most for a running request that
    stays covered. *)
Lemma SchedInv_kv s t w k x m' :
  SchedInv s t w k x → kv_ok m' t → SchedInv (set_kv_cache_manager s m') t w k x.
Proof. intros [] Hm. by split. Qed.

Lemma tok_insert_eq t id n : tok (<[id := n]> t) id = n.
Proof. unfold tok. by rewrite lookup_insert_eq. Qed.

Lemma tok_insert_ne t id id' n : id' ≠ id → tok (<[id := n]> t) id' = tok t id'.
Proof. intros. unfold tok. by rewrite lookup_insert_ne. Qed.

Lemma req_ok_insert t id n id' r :
  (id' = id → num_computed_tokens r ≤ n) → req_ok t id' r → req_ok (<[id := n]> t) id' r.
Proof.
  intros Hn []. split; try done. destruct (decide (id' = id)) as [->|Hne].
  - rewrite tok_insert_eq. pose proof (Hn eq_refl). lia.
  - by rewrite tok_insert_ne.
Qed.

Lemma SchedInv_allocated s t w k x id r n m' :
  SchedInv s t w k x → id ∈ running s → sc_requests s !! id = Some r → num_computed_tokens r ≤ n →
  kv_ok m' (<[id := n]> t) → SchedInv (set_kv_cache_manager s m') (<[id := n]> t) w k x.
Proof.
  intros I Hid Hr Hn Hm. destruct I as [I1 I2 I3 I4 I5 I6 I7 I8 I9 I10]. split; cbn; try done.
  - intros id' r1 H1. apply req_ok_insert; [|by apply I2]. intros ->. by simplify_eq.
  - intros id' r1 H1 H2. destruct (I8 id' r1 H1 H2) as [Hs Ht]. split; [done|].
    rewrite lookup_insert_ne; [done|]. by intros ->.
  - intros id' H1. rewrite lookup_insert_ne; [by apply I9|]. intros ->. congruence.
Qed.

(** Objects change without changing their key. *)
Lemma SchedInv_store s t w k x R' :
  SchedInv s t w k x →
  (∀ id, option_Forall2 (λ r r', rkey r' = rkey r ∧ (req_ok t id r → req_ok t id r') ∧
     (id ∈ running s → running_ok r → running_ok r') ∧
     (id ∉ running s → queued_ok s t id r → queued_ok s t id r')) (sc_requests s !! id) (R' !! id)) →
  SchedInv (set_sc_requests s R') t w k x.
Proof.
  intros [I1 I2 I3 I4 I5 I6 I7 I8 I9 I10] HR.
  assert (∀ id, rkey (obj (set_sc_requests s R') id) = rkey (obj s id)) as Hk.
  { intros id. unfold obj. cbn. pose proof (HR id) as H. inversion H as [r r' [E _]|]; [|done]. by cbn. }
  assert (∀ id r', R' !! id = Some r' → ∃ r, sc_requests s !! id = Some r ∧ rkey r' = rkey r ∧
    (req_ok t id r → req_ok t id r') ∧ (id ∈ running s → running_ok r → running_ok r') ∧
    (id ∉ running s → queued_ok s t id r → queued_ok s t id r')) as Hl.
  { intros id r' Hr'. pose proof (HR id) as H. rewrite Hr' in H. inversion H; eauto. }
  split; cbn; try done.
  - intros id r' (r & Hr & _ & Hok & _)%Hl. by apply Hok, I2.
  - eapply holds_ext; [intros ? _; apply Hk|done].
  - eapply holds_ext; [intros ? _; apply Hk|done].
  - intros id. rewrite -I6. pose proof (HR id) as H. split; intros [r Hr]; rewrite Hr in H; inversion H; eauto.
  - intros id r' (r & Hr & _ & _ & Hrun & _)%Hl Hin. apply Hrun; [done|by apply (I7 id)].
  - intros id r' (r & Hr & _ & _ & _ & Hq)%Hl Hin. apply Hq; [done|by apply (I8 id)].
  - intros id Hn. apply I9. pose proof (HR id) as H. rewrite Hn in H. by inversion H.
Qed.

(** The queues exchange requests. *)
Lemma SchedInv_queues s t w k x w' k' x' q1 q2 :
  SchedInv s t w k x → holds (policy cfg) s q1 w' → holds (policy cfg) s q2 k' →
  w' ++ k' ++ x' ≡ₚ w ++ k ++ x → SchedInv (set_skipped_waiting (set_waiting s q1) q2) t w' k' x'.
Proof.
  intros [I1 I2 I3 I4 I5 I6 I7 I8 I9 I10] Hw Hk HP. split; cbn; try done.
  - by rewrite HP.
  - intros id. rewrite I6. by rewrite HP.
Qed.

(** A running request leaves the running list for the waiting queue, where it has
    nothing computed and no blocks. *)
Lemma SchedInv_preempted s t w k x id r r' w' q m' run' :
  SchedInv s t w k x → sc_requests s !! id = Some r → rkey r' = rkey r →
  req_ok (delete id t) id r' → status r' = PREEMPTED → num_tokens r' < max_model_len cfg →
  running s ≡ₚ id :: run' → kv_ok m' (delete id t) → w' ≡ₚ id :: w →
  holds (policy cfg) (put_request s r') q w' →
  SchedInv (set_waiting (set_running (put_request (set_kv_cache_manager s m') r') run') q) (delete id t) w' k x.
Proof.
  intros I Hr Hk Hok Hst Hlt HPr Hm HP Hq. pose proof (ro_id _ _ _ Hok) as Hid.
  assert (num_computed_tokens r' = 0) as H0.
  { pose proof (ro_computed _ _ _ Hok) as Hc. unfold tok in Hc. rewrite lookup_delete_eq in Hc. cbn in Hc. lia. }
  destruct I as [I1 I2 I3 I4 I5 I6 I7 I8 I9 I10].
  assert (run' ++ w' ++ k ++ x ≡ₚ running s ++ w ++ k ++ x) as HPa.
  { rewrite HPr HP. cbn. by rewrite -Permutation_middle. }
  assert (∀ id', id' ∈ run' ↔ id' ∈ running s ∧ id' ≠ id) as Hrun.
  { intros id'. apply NoDup_app in I5 as (Hnd & _). rewrite HPr in Hnd |- *.
    apply NoDup_cons in Hnd as [Hni _]. rewrite elem_of_cons. naive_solver. }
  split; cbn; try done.
  - intros id' r1. rewrite Hid. destruct (decide (id' = id)) as [->|Hne].
    + rewrite lookup_insert_eq. by intros [= <-].
    + rewrite lookup_insert_ne //. intros H1. destruct (I2 _ _ H1). split; try done.
      unfold tok in *. by rewrite lookup_delete_ne.
  - rewrite -Hid in Hr. eapply holds_put; [|done|done]. done.
  - by rewrite HPa.
  - intros id'. rewrite HPa -I6 Hid. destruct (decide (id' = id)) as [->|Hne]; [|by rewrite lookup_insert_ne].
    rewrite lookup_insert_eq Hr. by split; intros; eexists.
  - intros id' r1 H1 [H2 Hne]%Hrun. rewrite Hid lookup_insert_ne // in H1. by eapply I7.
  - intros id' r1 H1 H2. rewrite Hid in H1. destruct (decide (id' = id)) as [->|Hne].
    + rewrite lookup_insert_eq in H1. injection H1 as <-. unfold queued_ok. rewrite Hst H0 lookup_delete_eq.
      pose proof (ro_tokens _ _ _ Hok). split; [lia|done].
    + rewrite lookup_insert_ne // in H1. rewrite Hrun in H2.
      destruct (I8 id' r1 H1) as [? Ht]; [naive_solver|]. split; [done|]. by rewrite lookup_delete_ne.
  - intros id' H1. rewrite Hid in H1. destruct (decide (id' = id)) as [->|Hne]; [by rewrite lookup_delete_eq|].
    rewrite lookup_insert_ne // in H1. rewrite lookup_delete_ne //. by apply I9.
  - rewrite HPr zlen_cons in I10. lia.
Qed.

(** A request of a queue becomes running. *)
Lemma SchedInv_admitted s t w k x w' k' id r r' n q1 q2 m' :
  SchedInv s t w k x → sc_requests s !! id = Some r → rkey r' = rkey r →
  req_ok (<[id := n]> t) id r' → running_ok r' → kv_ok m' (<[id := n]> t) →
  holds (policy cfg) s q1 w' → holds (policy cfg) s q2 k' → w ++ k ≡ₚ id :: w' ++ k' →
  zlen (running s) < max_num_running_reqs cfg →
  SchedInv (put_request (set_running (set_skipped_waiting (set_waiting (set_kv_cache_manager s m') q1) q2)
              (running s ++ [id])) r') (<[id := n]> t) w' k' x.
Proof.
  intros I Hr Hk Hok Hst Hm Hw' Hk' HP Hlim. pose proof (ro_id _ _ _ Hok) as Hid.
  assert (id ∈ w ++ k ++ x) as Hin by (rewrite app_assoc HP; left).
  destruct (inv_not_running _ _ _ _ _ _ I Hin) as [Hnr _].
  destruct I as [I1 I2 I3 I4 I5 I6 I7 I8 I9 I10].
  assert ((running s ++ [id]) ++ w' ++ k' ++ x ≡ₚ running s ++ w ++ k ++ x) as HPa.
  { rewrite (app_assoc w k x) HP. rewrite -!app_assoc. cbn. by rewrite -app_assoc. }
  split; cbn; try done.
  - intros id' r1. rewrite Hid. destruct (decide (id' = id)) as [->|Hne].
    + rewrite lookup_insert_eq. by intros [= <-].
    + rewrite lookup_insert_ne //. intros H1. by apply req_ok_insert; [|apply I2].
  - rewrite -Hid in Hr. eapply (holds_put _ s); [done|done|done].
  - rewrite -Hid in Hr. eapply (holds_put _ s); [done|done|done].
  - by rewrite HPa.
  - intros id'. rewrite HPa -I6 Hid. destruct (decide (id' = id)) as [->|Hne]; [|by rewrite lookup_insert_ne].
    rewrite lookup_insert_eq Hr. by split; intros; eexists.
  - intros id' r1 H1 H2. rewrite Hid in H1. destruct (decide (id' = id)) as [->|Hne].
    + rewrite lookup_insert_eq in H1. by injection H1 as <-.
    + rewrite lookup_insert_ne // in H1. eapply I7; [done|]. set_solver.
  - intros id' r1 H1 H2. rewrite Hid in H1. destruct (decide (id' = id)) as [->|Hne]; [set_solver|].
    rewrite lookup_insert_ne // in H1. destruct (I8 id' r1 H1) as [? Ht]; [set_solver|]. split; [done|].
    by rewrite lookup_insert_ne.
  - intros id' H1. rewrite Hid in H1. destruct (decide (id' = id)) as [->|Hne]; [by rewrite lookup_insert_eq in H1|].
    rewrite lookup_insert_ne // in H1. rewrite lookup_insert_ne //. by apply I9.
  - rewrite zlen_app. unfold zlen at 2. cbn. lia.
Qed.

(** ** What a step leaves alone *)

(** A step changes of a request only its status, its computed tokens, its drafts and
    counters, and at its end the output placeholders. *)
Definition erase r : Request :=
  set_status (set_num_computed_tokens (set_spec_token_ids (set_num_preemptions (set_prob_short
    (set_is_prefill_chunk r false) (float_of_Z 0)) 0) []) 0) WAITING.

Definition same_requests s s' : Prop := erase <$> sc_requests s' = erase <$> sc_requests s.

Lemma same_requests_put s s' id r r' :
  sc_requests s !! id = Some r → erase r' = erase r →
  sc_requests s' = <[id := r']> (sc_requests s) → same_requests s s'.
Proof.
  intros Hr E E'. unfold same_requests. rewrite E' fmap_insert E. apply insert_id.
  by rewrite lookup_fmap Hr.
Qed.

Lemma same_requests_lookup s s' id r' :
  same_requests s s' → sc_requests s' !! id = Some r' → ∃ r, sc_requests s !! id = Some r ∧ erase r' = erase r.
Proof.
  intros E Hr'. assert ((erase <$> sc_requests s) !! id = Some (erase r')) as H by by rewrite -E lookup_fmap Hr'.
  rewrite lookup_fmap in H. apply fmap_Some in H as (r & Hr & ?). eauto.
Qed.

Lemma same_requests_obj {A} (f : Request → A) s s' id :
  same_requests s s' → (∀ r, f (erase r) = f r) → f (obj s' id) = f (obj s id).
Proof.
  intros E Hf. unfold obj. assert (erase <$> sc_requests s' !! id = erase <$> sc_requests s !! id) as H.
  { by rewrite -!lookup_fmap E. }
  destruct (sc_requests s' !! id), (sc_requests s !! id); try done. apply (inj Some) in H.
  cbn. by rewrite -Hf H Hf.
Qed.

(** ** Plug-ins *)

(** The controllers may change their own state, the bookkeeping of the KV cache and the
    length hints of requests. *)
Definition hint_eq r r' : Prop := r' = set_prob_short r (prob_short r').

Record plugin_step s s' : Prop := {
  ps_frame : s' = set_plugins (set_kv_cache_manager (set_sc_requests s (sc_requests s')) (kv_cache_manager s'))
                    (plugins s');
  ps_store : ∀ id, option_Forall2 hint_eq (sc_requests s !! id) (sc_requests s' !! id);
  ps_kv : ∀ t, kv_ok (kv_cache_manager s) t → kv_ok (kv_cache_manager s') t
}.

Lemma run_ready_hint r r' : hint_eq r r' → run_ready r → run_ready r'.
Proof. intros E. rewrite E. done. Qed.

Lemma plugin_step_refl s : plugin_step s s.
Proof.
  split; [by destruct s| |done]. intros id. destruct (sc_requests s !! id) as [r|]; constructor. by destruct r.
Qed.

Lemma plugin_step_lookup s s' id r :
  plugin_step s s' → sc_requests s !! id = Some r → ∃ r', sc_requests s' !! id = Some r' ∧ hint_eq r r'.
Proof. intros P Hr. pose proof (ps_store _ _ P id) as H. rewrite Hr in H. inversion H; eauto. Qed.

Lemma plugin_step_lookup_r s s' id r' :
  plugin_step s s' → sc_requests s' !! id = Some r' → ∃ r, sc_requests s !! id = Some r ∧ hint_eq r r'.
Proof. intros P Hr. pose proof (ps_store _ _ P id) as H. rewrite Hr in H. inversion H; eauto. Qed.

Lemma plugin_step_fields s s' :
  plugin_step s s' →
  running s' = running s ∧ waiting s' = waiting s ∧ skipped_waiting s' = skipped_waiting s ∧
  streaming_queue s' = streaming_queue s ∧ prev_step_scheduled_req_ids s' = prev_step_scheduled_req_ids s ∧
  encoder_cache_manager s' = encoder_cache_manager s ∧ pause_state s' = pause_state s.
Proof. intros [E _ _]. rewrite E. done. Qed.

Lemma same_requests_plugin s s' : plugin_step s s' → same_requests s s'.
Proof.
  intros P. apply map_eq. intros id. rewrite !lookup_fmap. pose proof (ps_store _ _ P id) as H.
  inversion H as [r r' E|]; [|done]. cbn. f_equal. rewrite E. by destruct r.
Qed.

Lemma holds_plugin p s s' q l : plugin_step s s' → holds p s q l → holds p s' q l.
Proof.
  intros P. apply holds_ext. intros id _. pose proof (ps_store _ _ P id) as H. unfold obj.
  inversion H as [r r' E|]; [|done]. cbn. by rewrite E.
Qed.

Lemma req_ok_hint t id r r' : hint_eq r r' → req_ok t id r → req_ok t id r'.
Proof. intros E []. rewrite E. split; try done. by eapply law_hashed. Qed.

Lemma SchedInv_plugin s s' t w k x : plugin_step s s' → SchedInv s t w k x → SchedInv s' t w k x.
Proof.
  intros P [I1 I2 I3 I4 I5 I6 I7 I8 I9 I10].
  destruct (plugin_step_fields _ _ P) as (E1 & E2 & E3 & E4 & _).
  split; rewrite ?E1 ?E2 ?E3; try done.
  - by apply P.
  - intros id r' Hr'. destruct (plugin_step_lookup_r _ _ _ _ P Hr') as (r & Hr & E).
    eapply req_ok_hint; [done|by apply I2].
  - by eapply holds_plugin.
  - by eapply holds_plugin.
  - intros id. rewrite -I6. pose proof (ps_store _ _ P id) as H. split; intros [r Hr]; rewrite Hr in H; inversion H; eauto.
  - intros id r' Hr' Hin. destruct (plugin_step_lookup_r _ _ _ _ P Hr') as (r & Hr & E). rewrite E. by apply (I7 id r).
  - intros id r' Hr' Hin. destruct (plugin_step_lookup_r _ _ _ _ P Hr') as (r & Hr & E).
    destruct (I8 id r Hr Hin). unfold queued_ok. rewrite E E4. done.
  - intros id Hn. apply I9. pose proof (ps_store _ _ P id) as H. rewrite Hn in H. by inversion H.
Qed.

(** What the scheduler relies on. *)
Class PluginLaws {pl : Plugins K} : Prop := {
  law_admitted s t w k x budget :
    SchedInv s t w k x → ∃ s' o, get_taper_plus_admitted_running_req_ids s budget = Ok (s', o) ∧ plugin_step s s';
  law_victim s t w k x id :
    SchedInv s t w k x → id ∈ running s →
    ∃ s' o, select_preemption_victim s id = Ok (s', o) ∧ plugin_step s s' ∧ ∀ v, o = Some v → v ∈ running s;
  law_defer s t w k x id :
    SchedInv s t w k x → id ∈ w ++ k → ∃ s' b, should_defer_waiting_request s id = Ok (s', b) ∧ plugin_step s s';
  law_prepare s t r :
    kv_ok (kv_cache_manager s) t → ∃ s' r', prepare_request s r = Ok (s', r') ∧ plugin_step s s' ∧ hint_eq r r';
  law_observe s t r ts :
    kv_ok (kv_cache_manager s) t → ∃ s', observe_request_output s r ts = Ok s' ∧ plugin_step s s';
  law_finished s t r :
    kv_ok (kv_cache_manager s) t → ∃ s', observe_finished_request s r = Ok s' ∧ plugin_step s s'
}.
End Invariant.
Arguments PluginLaws {env K} cfg {hashed KV pl}.

#[export] Instance no_plugins_laws {env : KVEnv} cfg hashed `{KV : !KVContract (max_model_len cfg) hashed} :
  PluginLaws (K := unit) cfg.
Proof.
  split; intros *.
  - intros _. exists s, None. split; [done|apply plugin_step_refl].
  - intros _ _. exists s, None. split_and!; [done|apply plugin_step_refl|done].
  - intros _ _. exists s, false. split; [done|apply plugin_step_refl].
  - intros _. exists s, r. split_and!; [done|apply plugin_step_refl|by destruct r].
  - intros _. exists s. split; [done|apply plugin_step_refl].
  - intros _. exists s. split; [done|apply plugin_step_refl].
Qed.
