(* ===== verification/SchedStep.v ===== *)
(** * The step under construction

    Facts about the local variables of [schedule]: ordered dictionaries, the numbers
    of tokens, and the invariant [StepInv] that relates a step to the scheduler: the
    dictionaries have the scheduled requests as keys, each of which is running with
    blocks for its tokens, and the budget is what is left. *)

From Corelib Require Import SpecFloat.
From S2P Require Import Prelude PyFloat Request HeapQ RequestQueue FreeQueue BlockHash BlockPool KVCacheSpec SingleType CacheHit Coordinator KVCacheManager KVContract SchedUtils OrderedDict EncoderCache EncoderSched SchedState Scheduler SchedQueues SchedInv.

Lemma sum_tokens_cons id n d : sum_tokens ((id, n) :: d) = n + sum_tokens d.
Proof. done. Qed.

#[global] Arguments sum_tokens : simpl never.

Lemma sum_tokens_app d1 d2 : sum_tokens (d1 ++ d2) = sum_tokens d1 + sum_tokens d2.
Proof. induction d1 as [|[id n] d1 IH]; [done|]. cbn [app]. rewrite !sum_tokens_cons IH. lia. Qed.

Lemma sum_tokens_pos d :
  (∀ id n, (id, n) ∈ d → 0 < n) → 0 ≤ sum_tokens d ∧ (sum_tokens d ≤ 0 → d = []).
Proof.
  induction d as [|[id n] d IH]; intros Hd; [done|]. rewrite sum_tokens_cons.
  assert (0 < n) by (apply (Hd id); left).
  destruct IH as [IH _]; [|split; [lia|lia]]. intros id' n' Hin. apply (Hd id'). by right.
Qed.

#[export] Instance sum_tokens_proper : Proper (Permutation ==> eq) sum_tokens.
Proof. induction 1 as [|[??]|[??] [??]|]; rewrite ?sum_tokens_cons; lia. Qed.

(** ** Text requests *)

Section Text.
Context {env : KVEnv} {K : Type} (cfg : SchedulerConfig) (set_order : list Z → list Z).
Context (Hord : ∀ l, set_order l ≡ₚ l).
Implicit Types (s : Scheduler K) (r : Request).

Lemma text_no_inputs r : mm_features r = [] → has_encoder_inputs r = false.
Proof. unfold has_encoder_inputs, num_encoder_inputs. by intros ->. Qed.

Lemma plan_encoder_text s r a n b : mm_features r = [] → plan_encoder cfg s r a n b = Ok (s, mkPlan [] n b [] [] 0).
Proof. intros H. unfold plan_encoder. by rewrite text_no_inputs. Qed.

Lemma enc_free_text c r : mm_features r = [] → enc_free set_order c r = Ok c.
Proof.
  intros H. unfold enc_free, ec_free, encdec_free, get_cached_input_ids, num_encoder_inputs. rewrite H.
  pose proof (proj1 (Permutation_nil_r _) (Hord [])) as E. cbn. destruct c; [|done]. cbn. by rewrite E.
Qed.

Lemma schedule_encoder_inputs_text s st r n b :
  schedule_encoder_inputs s st r (mkPlan [] n b [] [] 0) = Ok (set_encoder_cache_manager s (encoder_cache_manager s), st).
Proof. unfold schedule_encoder_inputs, allocate_encoder_inputs. cbn. by destruct (encoder_cache_manager s). Qed.
End Text.

(** ** Numbers of tokens *)

Record cfg_ok (cfg : SchedulerConfig) : Prop := {
  cfg_lookahead : 0 ≤ num_lookahead_tokens cfg;
  cfg_budget : 0 ≤ max_num_scheduled_tokens cfg;
  cfg_block_size : 0 < cache_block_size cfg
}.

Section Tokens.
Context (cfg : SchedulerConfig) (Hcfg : cfg_ok cfg).
Implicit Types (r : Request).

Lemma mamba_split_bounds r n m : 0 ≤ n → 0 ≤ _mamba_block_aligned_split cfg r n m ≤ n.
Proof.
  intros Hn. pose proof (cfg_block_size _ Hcfg) as Hb. unfold _mamba_block_aligned_split.
  goal_bool as E1; [|lia]. set (last := if use_eagle cfg then _ else _).
  goal_bool as E2.
  { pose proof (Z.mul_div_le n _ Hb). assert (0 ≤ n / cache_block_size cfg) by (apply Z.div_pos; lia). nia. }
  goal_bool as E3; cbn [andb]; [|lia]. goal_bool as E4; lia.
Qed.

Lemma cap_long_prefill_bounds n : 0 ≤ n → 0 ≤ cap_long_prefill cfg n ≤ n ∧ (0 < n → 0 < cap_long_prefill cfg n).
Proof. intros Hn. unfold cap_long_prefill. goal_bool as E1; cbn [andb]; [goal_bool as E2|]; lia. Qed.

Lemma running_new_tokens_bounds r b :
  run_ready cfg r → 0 < b →
  let n := running_new_tokens cfg r b in
  0 ≤ n ≤ b ∧ num_computed_tokens r + n < max_model_len cfg ∧
  num_computed_tokens r + n ≤ num_tokens_with_spec r + num_output_placeholders r.
Proof.
  intros [H1 H2] Hb. cbn. unfold running_new_tokens.
  assert (num_tokens r ≤ num_tokens_with_spec r) by (unfold num_tokens, num_tokens_with_spec, zlen; lia).
  destruct (cap_long_prefill_bounds (num_tokens_with_spec r + num_output_placeholders r - num_computed_tokens r)); lia.
Qed.
End Tokens.

(** ** The invariant of a step *)

Section Step.
Context {env : KVEnv} {K : Type} (cfg : SchedulerConfig) (set_order : list Z → list Z).
Implicit Types (s : Scheduler K) (st : Step) (r : Request) (t : gmap string Z) (id : string).

(** A scheduled request has blocks for its tokens, stays below [max_model_len], and
    only the scheduled drafts go beyond its tokens and placeholders. *)
Definition scheduled_ok st t id (n : Z) r : Prop :=
  num_computed_tokens r + n ≤ tok t id ∧ num_computed_tokens r + n < max_model_len cfg ∧
  num_computed_tokens r + n ≤
    num_tokens r + num_output_placeholders r + zlen (default [] (od_get (scheduled_spec_decode_tokens st) id)) ∧
  ∀ ds, od_get (scheduled_spec_decode_tokens st) id = Some ds →
    num_tokens r + num_output_placeholders r + zlen ds ≤ num_computed_tokens r + n.

Record StepInv s st t (B : Z) : Prop := {
  sp_keys : (num_scheduled_tokens st).*1 ≡ₚ
    scheduled_running_reqs st ++ scheduled_resumed_reqs st ++ scheduled_new_reqs st;
  sp_nodup : NoDup (num_scheduled_tokens st).*1;
  sp_blocks : (req_to_new_blocks st).*1 ≡ₚ (num_scheduled_tokens st).*1;
  sp_running : ∀ id, id ∈ (num_scheduled_tokens st).*1 → id ∈ running s;
  sp_positive : ∀ id n, (id, n) ∈ num_scheduled_tokens st → 0 < n;
  sp_tokens : ∀ id n r, (id, n) ∈ num_scheduled_tokens st → sc_requests s !! id = Some r → scheduled_ok st t id n r;
  sp_budget : token_budget st + sum_tokens (num_scheduled_tokens st) = B;
  sp_left : 0 ≤ token_budget st;
  sp_inputs : scheduled_encoder_inputs st = [];
  sp_drafts : NoDup (scheduled_spec_decode_tokens st).*1 ∧
    ∀ id, id ∈ (scheduled_spec_decode_tokens st).*1 → id ∈ (num_scheduled_tokens st).*1
}.

Lemma StepInv_initial s t B b : 0 ≤ B → StepInv s (initial_step B b) t B.
Proof.
  intros HB. split; cbn; try done; [constructor|..|change (sum_tokens []) with 0; lia|split; [constructor|done]];
    intros *; by intros ?%not_elem_of_nil.
Qed.

(** A step only reads the running list, the store and the table. *)
Lemma StepInv_frame s s' st t t' B :
  StepInv s st t B → (∀ id, id ∈ (num_scheduled_tokens st).*1 → id ∈ running s') →
  (∀ id n r', (id, n) ∈ num_scheduled_tokens st → sc_requests s' !! id = Some r' →
     ∃ r, sc_requests s !! id = Some r ∧ num_computed_tokens r' = num_computed_tokens r ∧
          all_token_ids r' = all_token_ids r ∧ num_output_placeholders r' = num_output_placeholders r ∧
          tok t id ≤ tok t' id) →
  StepInv s' st t' B.
Proof.
  intros [] Hrun Hreq. split; try done. intros id n r' Hin Hr'.
  destruct (Hreq id n r' Hin Hr') as (r & Hr & E1 & E2 & E3 & Ht).
  destruct (sp_tokens0 id n r Hin Hr) as (? & ? & ? & ?). unfold scheduled_ok, num_tokens. rewrite E1 E2 E3.
  fold (num_tokens r). split_and!; [lia|done..].
Qed.

Lemma StepInv_core s s' st t B :
  sc_requests s' = sc_requests s → running s' = running s → StepInv s st t B → StepInv s' st t B.
Proof. intros E1 E2 H. eapply StepInv_frame; [done|rewrite E2; apply H|]. rewrite E1. intros ? ? r' _ ?. by exists r'. Qed.

Lemma StepInv_set_preempted s st t B l : StepInv s st t B → StepInv s (set_preempted_reqs st l) t B.
Proof. intros []. by split. Qed.

Lemma fst_elem {A B} (d : list (A * B)) a b : (a, b) ∈ d → a ∈ d.*1.
Proof. intros H. apply list_elem_of_fmap. by exists (a, b). Qed.

(** One more request in the step. *)
Lemma StepInv_extend s s' st st' t t' B id n :
  StepInv s st t B → id ∉ (num_scheduled_tokens st).*1 → 0 < n ≤ token_budget st →
  num_scheduled_tokens st' = num_scheduled_tokens st ++ [(id, n)] → token_budget st' = token_budget st - n →
  scheduled_running_reqs st' ++ scheduled_resumed_reqs st' ++ scheduled_new_reqs st' ≡ₚ
    (scheduled_running_reqs st ++ scheduled_resumed_reqs st ++ scheduled_new_reqs st) ++ [id] →
  (req_to_new_blocks st').*1 ≡ₚ (req_to_new_blocks st).*1 ++ [id] → scheduled_encoder_inputs st' = [] →
  (∀ y, y ∈ running s → y ∈ running s') → id ∈ running s' →
  (∀ y m r, (y, m) ∈ num_scheduled_tokens st → y ≠ id → sc_requests s' !! y = Some r → scheduled_ok st' t' y m r) →
  (∀ r, sc_requests s' !! id = Some r → scheduled_ok st' t' id n r) →
  NoDup (scheduled_spec_decode_tokens st').*1 →
  (∀ y, y ∈ (scheduled_spec_decode_tokens st').*1 → y ∈ (scheduled_spec_decode_tokens st).*1 ∨ y = id) →
  StepInv s' st' t' B.
Proof.
  intros [P1 P2 P3 P4 P4' P5 P6 P7 P8 [P9 P9']] Hnew Hn En Eb Hkeys Hblocks Henc Hrun Hid Hold Hself Hnd Hdr.
  split; rewrite ?En ?Eb ?fmap_app; cbn [fmap list_fmap fst].
  - by rewrite P1 Hkeys.
  - rewrite Permutation_app_comm. by constructor.
  - by rewrite Hblocks P3.
  - intros y [Hy%P4| ->%list_elem_of_singleton]%elem_of_app; [by apply Hrun|done].
  - intros y m [Hy|[= -> ->]%list_elem_of_singleton]%elem_of_app; [by eapply P4'|lia].
  - intros y m r [Hy|[= -> ->]%list_elem_of_singleton]%elem_of_app; [|apply Hself].
    apply Hold; [done|]. intros ->. by eapply Hnew, fst_elem.
  - rewrite sum_tokens_app sum_tokens_cons. change (sum_tokens []) with 0. lia.
  - lia.
  - done.
  - split; [done|]. intros y [Hy%P9'| ->]%Hdr; rewrite elem_of_app list_elem_of_singleton; [by left|by right].
Qed.

Lemma list_remove_first_Some {A} `{EqDecision A} (l : list A) x : x ∈ l → ∃ l', list_remove_first l x = Some l'.
Proof.
  intros Hx. destruct (list_remove_first l x) as [l'|] eqn:E; [by exists l'|].
  by apply list_remove_first_None in E.
Qed.

(** Taking a victim out of the step. *)
Lemma unschedule_spec s st t B v :
  StepInv s st t B → scheduled_resumed_reqs st = [] → scheduled_new_reqs st = [] →
  ∃ st', unschedule st v = Ok st' ∧
    scheduled_resumed_reqs st' = [] ∧ scheduled_new_reqs st' = [] ∧ preempted_reqs st' = preempted_reqs st ∧
    (∀ id, id ∈ scheduled_running_reqs st' ↔ id ∈ scheduled_running_reqs st ∧ id ≠ request_id v) ∧
    token_budget st ≤ token_budget st' ∧
    ∀ s' t', running s ≡ₚ request_id v :: running s' →
      (∀ id r', id ≠ request_id v → sc_requests s' !! id = Some r' → sc_requests s !! id = Some r') →
      (∀ id, id ≠ request_id v → tok t id ≤ tok t' id) → StepInv s' st' t' B.
Proof.
  intros H Hre Hne. pose proof H as [P1 P2 P3 P4 P4' P5 P6 P7 P8 P9]. unfold unschedule.
  rewrite Hre Hne !app_nil_r in P1. pose proof P2 as Hnd. rewrite P1 in Hnd.
  destruct (list_remove_first (scheduled_running_reqs st) (request_id v)) as [rest|] eqn:E; last first.
  { apply list_remove_first_None in E. exists st. split_and!; try done.
    - intros id. split; [|naive_solver]. intros Hid. split; [done|]. by intros ->.
    - intros s' t' HPr Hreq Htok. eapply StepInv_frame; [done| |].
      + intros id Hid. assert (id ≠ request_id v) by (intros ->; apply E; by rewrite -P1).
        apply P4 in Hid. rewrite HPr elem_of_cons in Hid. naive_solver.
      + intros id n r' Hin Hr'. assert (id ≠ request_id v).
        { intros ->. apply E. rewrite -P1. by eapply fst_elem. }
        exists r'. split_and!; auto. }
  pose proof (list_remove_first_perm _ _ _ E) as HP. rewrite HP in Hnd. apply NoDup_cons in Hnd as [Hni Hnd].
  assert (request_id v ∈ (num_scheduled_tokens st).*1) as Hk by (rewrite P1 HP; left).
  destruct (od_pop_spec _ _ Hk) as (n & d1 & E1 & HP1 & _). cbn [num_scheduled_tokens set_scheduled_running_reqs].
  rewrite E1. cbn [mbind res_bind].
  assert (request_id v ∈ (req_to_new_blocks st).*1) as Hk2 by by rewrite P3.
  destruct (od_pop_spec _ _ Hk2) as (b & d2 & E2 & HP2 & _). cbn [req_to_new_blocks set_num_scheduled_tokens
    set_token_budget set_scheduled_running_reqs]. rewrite E2. cbn [mbind res_bind].
  cbn [scheduled_encoder_inputs set_scheduled_spec_decode_tokens set_req_to_new_blocks set_num_scheduled_tokens
    set_token_budget set_scheduled_running_reqs]. rewrite P8. cbn [od_pop_default od_pop default sum_encoder_embeds mbind res_bind].
  eexists. split; [reflexivity|]. cbn. rewrite HP1 in P1. cbn in P1. rewrite HP in P1.
  apply Permutation_cons_inv in P1.
  assert (∀ id, id ∈ d1.*1 → id ≠ request_id v) as Hd1 by (intros id; rewrite P1; by intros ? ->).
  assert (0 < n) as Hn by (apply (P4' (request_id v)); rewrite HP1; left).
  rewrite HP1 sum_tokens_cons in P6.
  split_and!; try done; [|lia|].
  { intros id. rewrite HP elem_of_cons. split; [|naive_solver]. intros Hid. split; [by right|]. by intros ->. }
  intros s' t' HPr Hreq Htok. rewrite HP1 /= in P2. apply NoDup_cons in P2 as [_ P2].
  split; cbn; try done.
  - by rewrite Hre Hne !app_nil_r.
  - rewrite HP1 HP2 /= in P3. by apply Permutation_cons_inv in P3.
  - intros id Hid. pose proof (Hd1 id Hid). assert (id ∈ running s) as Hr by (apply P4; rewrite HP1; by right).
    rewrite HPr elem_of_cons in Hr. naive_solver.
  - intros id m Hin. apply (P4' id). rewrite HP1. by right.
  - intros id m r Hin Hr. assert (id ≠ request_id v) as Hidv by by eapply Hd1, fst_elem.
    destruct (P5 id m r) as (? & ? & ? & ?); [rewrite HP1; by right|by apply Hreq|]. pose proof (Htok id Hidv).
    unfold scheduled_ok. cbn. rewrite od_pop_default_get //. split_and!; [lia|done..].
  - fold (sum_tokens d1). lia.
  - lia.
  - destruct P9 as [P9 P9']. destruct (od_pop_default_keys _ (request_id v) P9) as [Hnd' Hk']. split; [done|].
    intros id [Hid Hidv]%Hk'. apply P9' in Hid. rewrite HP1 in Hid. apply elem_of_cons in Hid as [->|?]; done.
Qed.
End Step.
