(* ===== verification/SchedRunning.v ===== *)
(** * The loop over the running requests

    Preemption terminates and gives the blocks and the budget of its victims back, a
    request that gets its blocks is recorded in the step, and the loop keeps the
    invariants of the scheduler and of the step. *)

From Corelib Require Import SpecFloat.
From S2P Require Import Prelude PyFloat Request HeapQ RequestQueue FreeQueue BlockHash BlockPool KVCacheSpec SingleType CacheHit Coordinator KVCacheManager KVContract SchedUtils OrderedDict EncoderCache EncoderSched SchedState Scheduler SchedQueues SchedInv SchedStep.

Section Running.
Context {env : KVEnv} {K : Type} {pl : Plugins K} (cfg : SchedulerConfig) (Hcfg : cfg_ok cfg).
Context (set_order : list Z → list Z) (Hord : ∀ l, set_order l ≡ₚ l).
Context {hashed : Request → Prop} `{KV : !KVContract (max_model_len cfg) hashed} `{PL : !PluginLaws cfg}.
Implicit Types (s : Scheduler K) (st : Step) (r : Request) (t : gmap string Z) (w k x : list string) (id : string).

(** ** Preemption *)

(** What preempting a request keeps. *)
Definition rest_kept s s' : Prop :=
  skipped_waiting s' = skipped_waiting s ∧ streaming_queue s' = streaming_queue s ∧
  prev_step_scheduled_req_ids s' = prev_step_scheduled_req_ids s ∧ pause_state s' = pause_state s ∧
  finished_req_ids s' = finished_req_ids s.

Lemma preempted_ok t id r : req_ok cfg (hashed := hashed) t id r → req_ok cfg (hashed := hashed) (delete id t) id (preempted r).
Proof.
  intros []. split; try done; [by eapply law_hashed|]. cbn. unfold tok. rewrite lookup_delete_eq. cbn. lia.
Qed.

Lemma preempt_request_spec s s1 t w k x id run' :
  SchedInv cfg s t w k x → running s ≡ₚ id :: run' → same_core (set_running s run') s1 →
  rest_kept s s1 →
  ∃ s' w' r, _preempt_request set_order s1 id = Ok s' ∧ SchedInv cfg s' (delete id t) w' k x ∧ w' ≡ₚ id :: w ∧
    sc_requests s !! id = Some r ∧ sc_requests s' = <[id := preempted r]> (sc_requests s) ∧
    running s' = run' ∧ rest_kept s s'.
Proof.
  intros I HP (C1 & C2 & C3 & C4 & C5 & C6) (R1 & R2 & R3 & R4 & R5). cbn in *.
  assert (id ∈ running s) as Hin by (rewrite HP; left).
  destruct (inv_running _ _ _ _ _ _ _ I Hin) as (r & Hr & Hok & Hst & Hlt).
  pose proof (ro_id _ _ _ _ Hok) as Hid. unfold _preempt_request.
  rewrite (get_request_ok s1 id r); [|by rewrite C1]. cbn [mbind res_bind].
  rewrite bool_decide_true //. cbn [py_assert mbind res_bind].
  destruct (law_free (kv_cache_manager s) t r (si_kv _ _ _ _ _ _ I)) as (m' & Em & Hm). rewrite Hid in Hm.
  cbn [kv_cache_manager set_num_cumulative_preempted_output_tokens set_num_cumulative_preempted_computed_tokens].
  rewrite C6 Em. cbn [mbind res_bind]. rewrite (enc_free_text _ Hord); [|apply Hok]. cbn [mbind res_bind].
  match goal with |- context [@prepend_request _ _ (queue_ops ?s0) _ id] => set (s2 := s0) end.
  assert (sc_requests s2 = <[id := preempted r]> (sc_requests s)) as E2.
  { unfold s2, put_request. cbn. by rewrite C1 Hid. }
  assert (sc_requests (put_request s (preempted r)) = <[id := preempted r]> (sc_requests s)) as E3.
  { unfold put_request. cbn. by rewrite Hid. }
  assert (obj s2 = obj (put_request s (preempted r))) as Eo by (unfold obj; by rewrite E2 E3).
  assert (comparable s2 id) as Hcmp.
  { eapply stored_comparable; [rewrite E2 lookup_insert_eq; done|by eapply preempted_ok]. }
  assert (holds (policy cfg) s2 (waiting s2) w) as Hw.
  { eapply holds_ops; [done|]. change (waiting s2) with (waiting s1). rewrite C2.
    eapply holds_put; [by rewrite Hid|done|apply I]. }
  destruct (holds_prepend _ _ _ _ _ Hw Hcmp) as (q & w' & Eq & Hq & HPw). rewrite Eq. cbn [mbind res_bind].
  eexists _, w', r. split; [reflexivity|]. split; [|split_and!; try done; cbn; by rewrite ?E2].
  eapply SchedInv_core; [|eapply (SchedInv_preempted cfg s t w k x id r (preempted r) w' q m' run'); try done].
  - repeat split; cbn; try done. by rewrite C1 Hid.
  - by apply preempted_ok.
  - eapply holds_ops; [|done]. done.
Qed.

(** ** The invariant of the loop *)

(** [idx] is [req_index]: what the step has scheduled lies before it. *)
Context (s0 : Scheduler K).

Record RunInv s st t w k (B : Z) (idx : nat) : Prop := {
  ri_inv : SchedInv cfg s t w k [];
  ri_step : StepInv cfg s st t B;
  ri_resumed : scheduled_resumed_reqs st = [];
  ri_new : scheduled_new_reqs st = [];
  ri_done : ∀ id, id ∈ scheduled_running_reqs st → id ∈ take idx (running s);
  ri_ready : ∀ id r, id ∈ running s → id ∉ scheduled_running_reqs st → sc_requests s !! id = Some r → run_ready cfg r;
  ri_prev : preempted_reqs st = [] → prev_ok s;
  ri_sub : ∀ id, id ∈ running s → id ∈ running s0;
  ri_same : same_requests s0 s
}.

Lemma prev_ok_plugin s s' : plugin_step cfg s s' → prev_ok s → prev_ok s'.
Proof.
  intros P Hp id r' Hin Hr'. destruct (plugin_step_lookup_r _ _ _ _ _ P Hr') as (r & Hr & E).
  destruct (plugin_step_fields _ _ _ P) as (_ & _ & _ & _ & Ep & _). rewrite E. apply (Hp id r); [|done]. by rewrite -Ep.
Qed.

Lemma StepInv_plugin s s' st t B : plugin_step cfg s s' → StepInv cfg s st t B → StepInv cfg s' st t B.
Proof.
  intros P H. destruct (plugin_step_fields _ _ _ P) as (Er & _). eapply StepInv_frame; [done| |].
  - rewrite Er. apply H.
  - intros id n r' _ Hr'. destruct (plugin_step_lookup_r _ _ _ _ _ P Hr') as (r & Hr & E). exists r.
    rewrite E. done.
Qed.

Lemma RunInv_plugin s s' st t w k B idx :
  plugin_step cfg s s' → RunInv s st t w k B idx → RunInv s' st t w k B idx.
Proof.
  intros P []. destruct (plugin_step_fields _ _ _ P) as (Er & _).
  split; rewrite ?Er; try done; [by eapply SchedInv_plugin|by eapply StepInv_plugin| | |].
  - intros id r' Hin Hni Hr'. destruct (plugin_step_lookup_r _ _ _ _ _ P Hr') as (r & Hr & E).
    eapply run_ready_hint; [done|by eapply ri_ready0].
  - intros Hp. by eapply prev_ok_plugin; [|apply ri_prev0].
  - unfold same_requests. by rewrite (same_requests_plugin _ _ _ P).
Qed.

(** ** Victims *)

Lemma default_victim_spec s id : id ∈ running s → ∃ v, default_victim cfg s = Ok v ∧ v ∈ running s.
Proof.
  intros Hin. unfold default_victim. goal_bool as E.
  - unfold max_running. destruct (running s) as [|id0 ids]; [by apply not_elem_of_nil in Hin|].
    eexists; split; [reflexivity|]. clear. revert id0. induction ids as [|y ids IH]; intros id0; cbn [foldl]; [left|].
    set (b := if key_gtb _ _ then y else id0). specialize (IH b). rewrite elem_of_cons in IH.
    destruct IH as [IH|IH]; [|by right; right]. rewrite IH. unfold b. destruct (key_gtb _ _); [right; left|left].
  - destruct (running s) as [|y l _] using rev_ind; [by apply not_elem_of_nil in Hin|].
    exists y. split; [|apply elem_of_app; right; left]. unfold py_nth. rewrite (bool_decide_true (-1 < 0)); [|lia].
    unfold zlen. rewrite length_app Nat2Z.inj_add. cbn [length]. rewrite bool_decide_false; [|lia].
    replace (Z.to_nat _) with (length l) by lia. by rewrite list_lookup_middle.
Qed.

Lemma running_index_spec s v : v ∈ running s → ∃ i, running_index s v = Ok i ∧ running s !! i = Some v.
Proof.
  intros Hv. unfold running_index. destruct (list_find _ (running s)) as [[i y]|] eqn:E.
  - apply list_find_Some in E as (Hi & -> & _). by exists i.
  - apply list_find_None in E. rewrite Forall_forall in E. by destruct (E v Hv).
Qed.

Lemma elem_of_delete_NoDup {A} (l : list A) i v y :
  NoDup l → l !! i = Some v → y ∈ delete i l ↔ y ∈ l ∧ y ≠ v.
Proof.
  intros Hnd Hi. pose proof (delete_Permutation l i v Hi) as HP. revert HP. generalize (delete i l). intros d HP.
  rewrite HP in Hnd. rewrite HP. apply NoDup_cons in Hnd as [? _]. rewrite elem_of_cons. naive_solver.
Qed.

(** The position after removing position [i]. *)
Definition after_removal (i idx : nat) : nat := if bool_decide (i < idx)%nat then (idx - 1)%nat else idx.

Lemma lookup_after_removal {A} (l : list A) i j : j ≠ i → delete i l !! after_removal i j = l !! j.
Proof.
  intros Hj. unfold after_removal. goal_bool as E.
  - rewrite list_lookup_delete_ge; [|lia]. f_equal. lia.
  - rewrite list_lookup_delete_lt //. lia.
Qed.

Lemma take_after_removal {A} (l : list A) i idx v y :
  l !! i = Some v → y ∈ take idx l → y ≠ v → y ∈ take (after_removal i idx) (delete i l).
Proof.
  intros Hi Hy Hne. apply list_elem_of_lookup in Hy as (j & Hj). apply lookup_take_Some in Hj as [Hj Hlt].
  assert (j ≠ i) by (intros ->; congruence).
  apply list_elem_of_lookup. exists (after_removal i j). apply lookup_take_Some.
  rewrite lookup_after_removal //. split; [done|]. unfold after_removal. goal_bool as E1; goal_bool as E2; lia.
Qed.

Lemma hint_eq_trans r1 r2 r3 : hint_eq r1 r2 → hint_eq r2 r3 → hint_eq r1 r3.
Proof. intros E1 E2. unfold hint_eq in *. rewrite {1}E2 {1}E1. done. Qed.

Lemma hint_eq_refl r : hint_eq r r.
Proof. by destruct r. Qed.

(** One round of preemption. *)
Lemma preempt_one_spec s st t w k B idx id :
  RunInv s st t w k B idx → running s !! idx = Some id →
  ∃ s' st' idx' v t' w', preempt_one cfg set_order s st idx id = Ok (s', st', idx', v) ∧
    RunInv s' st' t' w' k B idx' ∧ token_budget st ≤ token_budget st' ∧
    length (running s) = S (length (running s')) ∧
    (length (running s') - idx' ≤ length (running s) - idx)%nat ∧
    (v ≠ id → running s' !! idx' = Some id ∧
       ∀ r, sc_requests s !! id = Some r → ∃ r', sc_requests s' !! id = Some r' ∧ hint_eq r r') ∧
    pause_state s' = pause_state s ∧ preempted_reqs st' ≠ [].
Proof.
  intros RI Hidx. assert (id ∈ running s) as Hin by by eapply list_elem_of_lookup_2.
  unfold preempt_one.
  destruct (law_victim cfg s t w k [] id (ri_inv _ _ _ _ _ _ _ RI) Hin) as (s1 & o & E1 & P1 & Ho).
  rewrite E1. cbn [mbind res_bind].
  destruct (plugin_step_fields _ _ _ P1) as (Er1 & Ew1 & Ek1 & Es1 & Ep1 & _ & Epa1).
  apply (RunInv_plugin _ _ _ _ _ _ _ _ P1) in RI as RI1. rewrite -Er1 in Hin Hidx.
  assert (∃ v, (match o with Some v => Ok v | None => default_victim cfg s1 end) = Ok v ∧ v ∈ running s1)
    as (v & Ev & Hv).
  { destruct o as [v|]; [|by apply default_victim_spec in Hin]. exists v. rewrite Er1. by split; [|apply Ho]. }
  rewrite Ev. cbn [mbind res_bind].
  destruct (running_index_spec s1 v Hv) as (i & -> & Hi). cbn [mbind res_bind].
  pose proof (delete_Permutation _ _ _ Hi) as HP.
  destruct RI1 as [I1 S1 N1 N2 D1 Y1 V1 B1 F1].
  destruct (inv_running _ _ _ _ _ _ _ I1 Hv) as (rv & Hrv & Hok & _).
  pose proof (ro_id _ _ _ _ Hok) as Hidv.
  match goal with |- context [get_request ?s0 v] => set (s2 := s0) end.
  assert (same_core (set_running s1 (delete i (running s1))) s2) as C2 by (unfold s2; by destruct (is_some o)).
  assert (rest_kept s1 s2) as R2 by (unfold s2; by destruct (is_some o)).
  rewrite (get_request_ok s2 v rv); [|by rewrite (proj1 C2)]. cbn [mbind res_bind].
  destruct (unschedule_spec cfg s1 st t B rv S1 N1 N2) as (st' & -> & N1' & N2' & Np & Hsch & Hb & Hst').
  cbn [mbind res_bind]. rewrite Hidv in Hsch Hst'.
  destruct (preempt_request_spec s1 s2 t w k [] v (delete i (running s1)) I1 HP C2 R2)
    as (s3 & w' & rv' & -> & I3 & HPw & Hrv' & Esc & Erun & R3 & _ & Ep3 & Epa3 & _). cbn [mbind res_bind].
  assert (NoDup (running s1)) as Hnd by (pose proof (si_nodup _ _ _ _ _ _ I1) as H; by apply NoDup_app in H as (? & _)).
  assert (∀ y, y ∈ running s3 ↔ y ∈ running s1 ∧ y ≠ v) as Hrun3.
  { intros y. rewrite Erun. by apply elem_of_delete_NoDup. }
  eexists s3, _, (after_removal i idx), v, (delete v t), w'. split; [reflexivity|]. split_and!.
  - split; cbn; try done.
    + apply StepInv_set_preempted, Hst'; [by rewrite Erun|intros y r' Hy; by rewrite Esc lookup_insert_ne|].
      intros y Hy. unfold tok. by rewrite lookup_delete_ne.
    + intros y [Hy Hyv]%Hsch. rewrite Erun. eapply take_after_removal; [done|by apply D1|done].
    + intros y r' Hy%Hrun3 Hns Hr'. rewrite Esc lookup_insert_ne in Hr'; [|naive_solver].
      apply (Y1 y); [naive_solver| |done]. rewrite Hsch in Hns. naive_solver.
    + intros Hnil. by apply app_nil in Hnil as [_ ?].
    + intros y [Hy _]%Hrun3. by apply B1.
    + unfold same_requests. rewrite -F1. by eapply same_requests_put; [exact Hrv'| |exact Esc].
  - done.
  - rewrite Erun -Er1. apply lookup_lt_Some in Hi as ?. rewrite length_delete; [lia|by eexists].
  - rewrite Erun -Er1. apply lookup_lt_Some in Hidx. rewrite length_delete; [|by eexists]. unfold after_removal.
    goal_bool as E; lia.
  - intros Hne. split.
    + rewrite Erun lookup_after_removal //. intros ->. congruence.
    + intros r Hr. destruct (plugin_step_lookup _ _ _ _ _ P1 Hr) as (r' & Hr' & E). exists r'.
      by rewrite Esc lookup_insert_ne.
  - by rewrite Epa3.
  - cbn. by intros [_ ?]%app_nil.
Qed.

(** The request at [req_index] is not scheduled yet. *)
Lemma current_unscheduled s st t w k B idx id :
  RunInv s st t w k B idx → running s !! idx = Some id →
  (id ∉ scheduled_running_reqs st) ∧ (id ∉ (num_scheduled_tokens st).*1).
Proof.
  intros RI Hidx. pose proof (si_nodup _ _ _ _ _ _ (ri_inv _ _ _ _ _ _ _ RI)) as Hnd.
  apply NoDup_app in Hnd as (Hnd & _). assert (id ∉ scheduled_running_reqs st) as Hns.
  { intros Hin%(ri_done _ _ _ _ _ _ _ RI). apply list_elem_of_lookup in Hin as (j & Hj).
    apply lookup_take_Some in Hj as [Hj Hlt]. pose proof (NoDup_lookup _ _ _ _ Hnd Hidx Hj). lia. }
  split; [done|]. rewrite (sp_keys _ _ _ _ _ (ri_step _ _ _ _ _ _ _ RI)).
  by rewrite (ri_resumed _ _ _ _ _ _ _ RI) (ri_new _ _ _ _ _ _ _ RI) !app_nil_r.
Qed.

(** New blocks for the request at [req_index]. *)
Lemma RunInv_allocated s st t w k B idx id r n m' :
  RunInv s st t w k B idx → running s !! idx = Some id → sc_requests s !! id = Some r →
  num_computed_tokens r ≤ n → kv_ok m' (<[id := n]> t) →
  RunInv (set_kv_cache_manager s m') st (<[id := n]> t) w k B idx.
Proof.
  intros RI Hidx Hr Hn Hm. destruct (current_unscheduled _ _ _ _ _ _ _ _ RI Hidx) as [Hu1 Hu2].
  destruct RI as [I S N1 N2 D Y V B0 F0]. split; try done.
  - eapply SchedInv_allocated; try done. by eapply list_elem_of_lookup_2.
  - eapply StepInv_frame; [done|by apply S|]. intros y m r' Hin Hr'. exists r'. split_and!; try done.
    rewrite tok_insert_ne; [done|]. intros ->. by apply Hu2, (fst_elem _ _ _ Hin).
Qed.

(** The loop around [allocate_slots] terminates: either the request gets its blocks or
    it is preempted itself. *)
Lemma allocate_loop_spec k B id n : 0 < n → ∀ fuel s st t w idx r,
  RunInv s st t w k B idx → running s !! idx = Some id → sc_requests s !! id = Some r →
  (length (running s) ≤ fuel)%nat →
  ∃ s' st' idx' o t' w', allocate_loop cfg set_order fuel s st idx id n = Ok (s', st', idx', o) ∧
    RunInv s' st' t' w' k B idx' ∧ token_budget st ≤ token_budget st' ∧
    (length (running s') - idx' ≤ length (running s) - idx)%nat ∧ pause_state s' = pause_state s ∧
    match o with
    | Some _ => running s' !! idx' = Some id ∧ ∃ r', sc_requests s' !! id = Some r' ∧ hint_eq r r' ∧
        tok t' id = Z.min (num_computed_tokens r + n + num_lookahead_tokens cfg) (max_model_len cfg)
    | None => preempted_reqs st' ≠ []
    end.
Proof.
  intros Hn. induction fuel as [|fuel IH]; intros s st t w idx r RI Hidx Hr Hf.
  { apply lookup_lt_Some in Hidx. lia. }
  cbn [allocate_loop]. rewrite (get_request_ok _ _ _ Hr). cbn [mbind res_bind].
  pose proof (ri_inv _ _ _ _ _ _ _ RI) as I. pose proof (si_store _ _ _ _ _ _ I _ _ Hr) as Hok.
  pose proof (ro_computed _ _ _ _ Hok) as Hc. pose proof (ro_id _ _ _ _ Hok) as Hid.
  pose proof (cfg_lookahead _ Hcfg).
  destruct (law_allocate (kv_cache_manager s) t r n None (num_lookahead_tokens cfg) false)
    as (m' & o & E & Ho); try done; [apply I|apply Hok|apply Hok|lia|rewrite Hid; lia|].
  rewrite E. cbn [mbind res_bind]. rewrite Hid in Ho. destruct o as [blocks|].
  { eexists _, st, idx, (Some blocks), _, w. split; [reflexivity|]. split_and!; try done.
    - eapply RunInv_allocated; [exact RI|done|exact Hr| |exact Ho]. lia.
    - exists r. split_and!; [done|apply hint_eq_refl|by rewrite tok_insert_eq]. }
  assert (RunInv (set_kv_cache_manager s m') st t w k B idx) as RI1.
  { destruct RI. split; try done; [by apply SchedInv_kv|]. eapply StepInv_frame; [done|apply ri_step0|].
    intros ? ? r' ? ?. by exists r'. }
  destruct (preempt_one_spec _ _ _ _ _ _ _ _ RI1 Hidx)
    as (s2 & st2 & idx2 & v & t2 & w2 & -> & RI2 & Hb2 & Hl2 & Hm2 & Hne2 & Hp2 & Hnil). cbn [mbind res_bind].
  cbn in Hl2, Hm2, Hp2. goal_bool as Ev.
  { eexists s2, st2, idx2, None, t2, w2. split; [reflexivity|]. split_and!; try done. }
  destruct (Hne2 Ev) as [Hidx2 Hr2]. destruct (Hr2 r Hr) as (r2 & Hr2' & Hh2).
  destruct (IH s2 st2 t2 w2 idx2 r2 RI2 Hidx2 Hr2') as (s3 & st3 & idx3 & o3 & t3 & w3 & -> & RI3 & Hb3 & Hm3 & Hp3 & Ho3);
    [lia|].
  eexists s3, st3, idx3, o3, t3, w3. split; [reflexivity|]. split_and!; try done; [lia|lia|by rewrite Hp3|].
  destruct o3; [|done]. destruct Ho3 as (Hi3 & r3 & Hr3 & Hh3 & Ht3). split; [done|]. exists r3. split_and!; [done| |].
  - by eapply hint_eq_trans.
  - rewrite Ht3. by rewrite Hh2.
Qed.

(** ** Scheduling a running request *)

(** The recorded drafts are exactly the tokens beyond the tokens and placeholders. *)
Lemma schedule_spec_tokens_spec s st t r n :
  let '(s', st') := schedule_spec_tokens s st r n in
  s' = (if is_nil (spec_token_ids r) then s else put_request s (set_spec_token_ids r [])) ∧
  st' = set_scheduled_spec_decode_tokens st (scheduled_spec_decode_tokens st') ∧
  (∀ id, id ≠ request_id r →
     od_get (scheduled_spec_decode_tokens st') id = od_get (scheduled_spec_decode_tokens st) id) ∧
  (num_computed_tokens r + n ≤ num_tokens_with_spec r + num_output_placeholders r →
   num_computed_tokens r + n ≤ num_tokens r + num_output_placeholders r +
     zlen (default [] (od_get (scheduled_spec_decode_tokens st') (request_id r)))) ∧
  (request_id r ∉ (scheduled_spec_decode_tokens st).*1 →
   scheduled_spec_decode_tokens st' = scheduled_spec_decode_tokens st ∨
   ∃ ds, scheduled_spec_decode_tokens st' = scheduled_spec_decode_tokens st ++ [(request_id r, ds)] ∧
     num_tokens r + num_output_placeholders r + zlen ds ≤ num_computed_tokens r + n).
Proof.
  unfold schedule_spec_tokens, num_tokens_with_spec, num_tokens. destruct (spec_token_ids r) as [|d ds] eqn:Es; cbn [is_nil].
  { split_and!; [done|by destruct st|done| |by left]. intros. pose proof (zlen_nonneg (default [] (od_get (scheduled_spec_decode_tokens st) (request_id r)))).
    unfold zlen in *. cbn in *. lia. }
  rewrite -Es. set (m := n + _ - _ - _). destruct (decide (0 < m)) as [Hm|Hm]; last first.
  { rewrite bool_decide_false //. split_and!; [done|by destruct st|done| |by left]. intros _.
    pose proof (zlen_nonneg (default [] (od_get (scheduled_spec_decode_tokens st) (request_id r)))).
    unfold m, num_tokens in Hm. lia. }
  rewrite bool_decide_true //. cbn. split_and!; [done|done| | |].
  - intros id Hne. rewrite od_get_set. case_decide; [congruence|done].
  - intros Hle. rewrite od_get_set decide_True //. cbn.
    assert (m ≤ zlen (spec_token_ids r)) as Hm2 by (unfold m, num_tokens, zlen in *; lia).
    goal_bool as E; [rewrite py_slice_to_take; [rewrite zlen_take; [|lia]|]|]; unfold m, num_tokens in *; lia.
  - intros Hfresh. right. eexists. split; [by apply od_set_fresh|].
    goal_bool as E; [rewrite py_slice_to_take; [rewrite zlen_take; [|lia]|]|]; unfold m, num_tokens, zlen in *; lia.
Qed.

(** Taking the drafts of a running request changes nothing else. *)
Lemma taken_drafts_state s s2 t w k id r :
  SchedInv cfg s t w k [] → id ∈ running s → sc_requests s !! id = Some r →
  s2 = (if is_nil (spec_token_ids r) then s else put_request s (set_spec_token_ids r [])) →
  SchedInv cfg s2 t w k [] ∧ running s2 = running s ∧ pause_state s2 = pause_state s ∧
  prev_step_scheduled_req_ids s2 = prev_step_scheduled_req_ids s ∧ same_requests s s2 ∧
  ∀ y r', sc_requests s2 !! y = Some r' → ∃ r0, sc_requests s !! y = Some r0 ∧
    num_computed_tokens r' = num_computed_tokens r0 ∧ all_token_ids r' = all_token_ids r0 ∧
    num_output_placeholders r' = num_output_placeholders r0 ∧ status r' = status r0 ∧ (y ≠ id → r' = r0).
Proof.
  intros I Hin Hr ->. pose proof (si_store _ _ _ _ _ _ I _ _ Hr) as Hok. pose proof (ro_id _ _ _ _ Hok) as Hid.
  destruct (is_nil _); [split_and!; try done; intros y r' Hr'; by exists r'|]. split_and!; try done.
  - eapply SchedInv_put; try done.
    + destruct Hok. split; try done. by eapply law_hashed.
    + intros _. exact (si_running _ _ _ _ _ _ I _ _ Hr Hin).
  - apply (same_requests_put s (put_request s (set_spec_token_ids r [])) id r (set_spec_token_ids r [])); [done..|].
    unfold put_request. cbn. by rewrite Hid.
  - intros y r'. unfold put_request. cbn. rewrite Hid.
    destruct (decide (y = id)) as [->|Hy]; [|rewrite lookup_insert_ne //; intros; by exists r'].
    rewrite lookup_insert_eq. intros [= <-]. by exists r.
Qed.

Lemma commit_running_spec s st t w k B idx id r n blocks m b :
  RunInv s st t w k B idx → running s !! idx = Some id → sc_requests s !! id = Some r →
  0 < n ≤ token_budget st → num_computed_tokens r + n < max_model_len cfg →
  num_computed_tokens r + n ≤ num_tokens_with_spec r + num_output_placeholders r →
  num_computed_tokens r + n ≤ tok t id →
  ∃ s' st', commit_running s st id n blocks (mkPlan [] m b [] [] 0) = Ok (s', st') ∧
    RunInv s' st' t w k B (S idx) ∧ running s' = running s ∧ pause_state s' = pause_state s.
Proof.
  intros RI Hidx Hr Hn HL Hspec Htok. destruct (current_unscheduled _ _ _ _ _ _ _ _ RI Hidx) as [Hu1 Hu2].
  assert (id ∈ running s) as Hin by by eapply list_elem_of_lookup_2.
  destruct RI as [I S N1 N2 D Y V B0 F0]. pose proof (si_store _ _ _ _ _ _ I _ _ Hr) as Hok.
  pose proof (ro_id _ _ _ _ Hok) as Hid. pose proof S as [P1 P2 P3 P4 P4' P5 P6 P7 P8 [P9 P9']].
  unfold commit_running. rewrite (get_request_ok _ _ _ Hr). cbn [mbind res_bind].
  match goal with |- context [schedule_spec_tokens s ?x r n] => set (st1 := x) end.
  pose proof (schedule_spec_tokens_spec s st1 t r n) as Hs.
  destruct (schedule_spec_tokens s st1 r n) as [s2 st2]. destruct Hs as (Es2 & Est2 & Hget & Hlen & Hds).
  rewrite schedule_encoder_inputs_text.
  assert (num_scheduled_tokens st2 = num_scheduled_tokens st ++ [(id, n)]) as En.
  { rewrite Est2. cbn. by apply od_set_fresh. }
  assert (id ∉ (scheduled_spec_decode_tokens st).*1) as Hfresh by (by intros ?%P9').
  rewrite Hid in Hds. specialize (Hds Hfresh). change (scheduled_spec_decode_tokens st1) with (scheduled_spec_decode_tokens st) in Hds.
  destruct (taken_drafts_state s s2 t w k id r I Hin Hr Es2) as (I2 & Er2 & Epa & Epr & Hsame & Hst2).
  eexists _, st2. split; [reflexivity|]. split_and!; [|done|done].
  split; cbn.
  - eapply SchedInv_core; [|exact I2]. done.
  - eapply (StepInv_extend cfg s _ st st2 t t B id n); [done|done|done|done|by rewrite Est2| | |by rewrite Est2|cbn; by rewrite Er2|cbn; by rewrite Er2| | | |].
    + rewrite Est2. cbn. by rewrite N1 N2 !app_nil_r.
    + rewrite Est2. cbn. rewrite od_set_fresh; [|by rewrite P3]. by rewrite fmap_app.
    + intros y m0 r' Hy Hne Hr'. destruct (Hst2 y r' Hr') as (r0 & Hr0 & E1 & E2 & E3 & _ & _).
      destruct (P5 y m0 r0 Hy Hr0) as (? & ? & ? & ?). unfold scheduled_ok, num_tokens. rewrite E1 E2 E3 Hget; [done|congruence].
    + intros r' Hr'. destruct (Hst2 id r' Hr') as (r0 & Hr0 & E1 & E2 & E3 & _ & _). assert (r0 = r) as -> by congruence.
      unfold scheduled_ok, num_tokens. rewrite E1 E2 E3. fold (num_tokens r). rewrite Hid in Hlen. split_and!; [done..|by apply Hlen|].
      intros ds Hgd. destruct Hds as [Hds|(ds' & Hds & Hle)]; rewrite Hds in Hgd.
      { by apply od_get_Some, fst_elem in Hgd. }
      apply od_get_Some in Hgd as [Hgd|[= <-]%list_elem_of_singleton]%elem_of_app; [by apply fst_elem in Hgd|done].
    + destruct Hds as [->|(ds & -> & _)]; [done|]. rewrite fmap_app Permutation_app_comm. by constructor.
    + destruct Hds as [->|(ds & -> & _)]; intros y; [by left|]. rewrite fmap_app elem_of_app. cbn. by rewrite list_elem_of_singleton.
  - rewrite Est2. done.
  - rewrite Est2. done.
  - intros y. rewrite Est2 Er2. cbn. rewrite elem_of_app list_elem_of_singleton.
    rewrite (take_S_r _ _ _ Hidx) elem_of_app list_elem_of_singleton. intros [?|?]; [left; by apply D|by right].
  - intros y r'. rewrite Est2 Er2. cbn. rewrite elem_of_app list_elem_of_singleton. intros Hy Hny Hr'.
    destruct (Hst2 y r' Hr') as (r0 & Hr0 & _ & _ & _ & _ & E). rewrite E; [|naive_solver]. eapply Y; naive_solver.
  - rewrite Est2. cbn. intros Hp y r' Hy Hr'. destruct (Hst2 y r' Hr') as (r0 & Hr0 & _ & _ & _ & -> & _).
    apply (V Hp y r0); [|done]. by rewrite -Epr.
  - intros y. rewrite Er2. apply B0.
  - unfold same_requests. by rewrite -F0 -Hsame.
Qed.

(** ** The loop *)

Lemma RunInv_skip s st t w k B idx : RunInv s st t w k B idx → RunInv s st t w k B (S idx).
Proof.
  intros []. split; try done. intros id Hid%ri_done0. apply list_elem_of_lookup in Hid as (j & Hj).
  apply lookup_take_Some in Hj as [Hj ?]. apply list_elem_of_lookup. exists j. apply lookup_take_Some. split; [done|lia].
Qed.

Lemma running_iteration_spec admitted s st t w k B idx id :
  RunInv s st t w k B idx → running s !! idx = Some id → 0 < token_budget st →
  ∃ s' st' idx' b t' w', running_iteration cfg set_order admitted s st idx id = Ok (s', st', idx', b) ∧
    RunInv s' st' t' w' k B idx' ∧ pause_state s' = pause_state s ∧
    (b = false → (length (running s') - idx' < length (running s) - idx)%nat).
Proof.
  intros RI Hidx Hb. assert (id ∈ running s) as Hin by by eapply list_elem_of_lookup_2.
  pose proof (ri_inv _ _ _ _ _ _ _ RI) as I. destruct (inv_running _ _ _ _ _ _ _ I Hin) as (r & Hr & Hok & _).
  destruct (current_unscheduled _ _ _ _ _ _ _ _ RI Hidx) as [Hu1 _].
  pose proof (ri_ready _ _ _ _ _ _ _ RI _ _ Hin Hu1 Hr) as Hready. apply lookup_lt_Some in Hidx as Hlt.
  assert (∃ s' st' idx' b t' w', Ok (s, st, S idx, false) = Ok (s', st', idx', b) ∧
    RunInv s' st' t' w' k B idx' ∧ pause_state s' = pause_state s ∧
    (b = false → (length (running s') - idx' < length (running s) - idx)%nat)) as Hskip.
  { eexists _, _, _, _, t, w. split; [reflexivity|]. split_and!; [by apply RunInv_skip|done|lia]. }
  unfold running_iteration. rewrite (get_request_ok _ _ _ Hr). cbn [mbind res_bind].
  destruct (match admitted with Some ids => _ | None => _ end); [done|].
  destruct (reached_max_tokens r); [done|].
  rewrite plan_encoder_text; [|apply Hok]. cbn [mbind res_bind plan_num_new_tokens].
  destruct (running_new_tokens_bounds cfg r _ Hready Hb) as (Hn1 & Hn2 & Hn3).
  set (n0 := running_new_tokens cfg r (token_budget st)) in *.
  set (n := if need_mamba_block_aligned_split cfg then _ else n0).
  assert (0 ≤ n ≤ n0) as Hn.
  { unfold n. destruct (need_mamba_block_aligned_split cfg); [apply mamba_split_bounds; [done|lia]|lia]. }
  goal_bool as En; [done|].
  destruct (allocate_loop_spec k B id n ltac:(lia) (length (running s)) s st t w idx r RI Hidx Hr)
    as (s1 & st1 & idx1 & o & t1 & w1 & -> & RI1 & Hb1 & Hm1 & Hp1 & Ho); [done|]. cbn [mbind res_bind].
  destruct o as [blocks|]; last first.
  { eexists _, _, _, _, t1, w1. split; [reflexivity|]. by split_and!. }
  destruct Ho as (Hidx1 & r1 & Hr1 & Hh & Ht).
  destruct (commit_running_spec s1 st1 t1 w1 k B idx1 id r1 n blocks n0 (encoder_compute_budget st) RI1 Hidx1 Hr1)
    as (s2 & st2 & -> & RI2 & Er2 & Ep2); cbn [mbind res_bind].
  - lia.
  - rewrite Hh. cbn. lia.
  - rewrite Hh. unfold num_tokens_with_spec in *. cbn. lia.
  - rewrite Ht Hh. cbn. pose proof (cfg_lookahead _ Hcfg). lia.
  - eexists _, _, _, _, t1, w1. split; [reflexivity|]. split_and!; [done|by rewrite Ep2|].
    intros _. rewrite Er2. apply lookup_lt_Some in Hidx1. lia.
Qed.

Lemma running_loop_spec admitted k B : ∀ fuel s st t w idx,
  RunInv s st t w k B idx → (length (running s) - idx ≤ fuel)%nat →
  ∃ s' st' t' w' idx', running_loop cfg set_order fuel admitted s st idx = Ok (s', st') ∧
    RunInv s' st' t' w' k B idx' ∧ pause_state s' = pause_state s.
Proof.
  induction fuel as [|fuel IH]; intros s st t w idx RI Hf; cbn [running_loop];
    (destruct (running s !! idx) as [id|] eqn:Hidx; [|by eexists _, _, t, w, idx]);
    (goal_bool as Hb; [|by eexists _, _, t, w, idx]).
  { apply lookup_lt_Some in Hidx. lia. }
  destruct (running_iteration_spec admitted s st t w k B idx id RI Hidx Hb)
    as (s1 & st1 & idx1 & b & t1 & w1 & -> & RI1 & Hp1 & Hm). cbn [mbind res_bind].
  destruct b; [by eexists _, _, t1, w1, idx1|].
  destruct (IH s1 st1 t1 w1 idx1 RI1) as (s2 & st2 & t2 & w2 & idx2 & -> & RI2 & Hp2); [lia|].
  eexists _, _, t2, w2, idx2. split_and!; [done|done|by rewrite Hp2].
Qed.
End Running.
