(* ===== verification/SchedWaiting.v ===== *)
(** * The loop over the waiting requests

    Every iteration takes a request from one of the queues, admits it to the running
    list with blocks and a prefix of its tokens, or sets it aside for the step; the
    loop ends, the requests set aside return to the queue of skipped requests, and the
    invariants are kept. *)

From Corelib Require Import SpecFloat.
From S2P Require Import Prelude PyFloat Request HeapQ RequestQueue FreeQueue BlockHash BlockPool KVCacheSpec SingleType CacheHit Coordinator KVCacheManager KVContract SchedUtils OrderedDict EncoderCache EncoderSched SchedState Scheduler SchedQueues SchedInv SchedStep SchedRunning.

Section Waiting.
Context {env : KVEnv} {K : Type} {pl : Plugins K} (cfg : SchedulerConfig) (Hcfg : cfg_ok cfg).
Context (set_order : list Z → list Z) (Hord : ∀ l, set_order l ≡ₚ l).
Context {hashed : Request → Prop} `{KV : !KVContract (max_model_len cfg) hashed} `{PL : !PluginLaws cfg}.
Context (s0 : Scheduler K) (B : Z).
Implicit Types (s : Scheduler K) (st : Step) (r : Request) (t : gmap string Z) (w k x : list string) (id : string).

(** [x] are the contents of [step_skipped_waiting]. *)
Record WaitInv s st (aside : AnyQueue string) t w k x : Prop := {
  wi_inv : SchedInv cfg s t w k x;
  wi_aside : holds (policy cfg) s aside x;
  wi_step : StepInv cfg s st t B;
  wi_prev : prev_ok s;
  wi_resumed : ∀ id, id ∈ scheduled_resumed_reqs st → id ∉ prev_step_scheduled_req_ids s;
  wi_ready : ∀ id r, id ∈ running s → id ∉ (num_scheduled_tokens st).*1 → sc_requests s !! id = Some r → run_ready cfg r;
  wi_same : same_requests s0 s
}.

Definition contents (sel : queue_sel) w k : list string := match sel with SelWaiting => w | SelSkipped => k end.

Lemma has_queues s t w k x :
  SchedInv cfg s t w k x → has_waiting s = negb (is_nil w) ∧ has_skipped s = negb (is_nil k).
Proof. intros I. split; [exact (holds_bool _ _ _ _ (si_waiting _ _ _ _ _ _ I))|exact (holds_bool _ _ _ _ (si_skipped _ _ _ _ _ _ I))]. Qed.

(** A queue that is not empty is selected. *)
Lemma select_queue_spec s t w k x :
  SchedInv cfg s t w k x → w ++ k ≠ [] →
  ∃ sel id rest, _select_waiting_queue_for_scheduling cfg s = Ok (Some sel) ∧ contents sel w k = id :: rest.
Proof.
  intros I Hne. destruct (has_queues _ _ _ _ _ I) as [Ew Ek].
  unfold _select_waiting_queue_for_scheduling. rewrite Ew Ek. goal_bool as Ep.
  - destruct k as [|id k]; [|by exists SelSkipped, id, k]. destruct w as [|id w]; [done|]. by exists SelWaiting, id, w.
  - destruct w as [|id w], k as [|id' k]; cbn [is_nil negb andb]; [done| | |].
    + by exists SelSkipped, id', k.
    + by exists SelWaiting, id, w.
    + rewrite (holds_peek _ _ _ _ _ (si_waiting _ _ _ _ _ _ I)). cbn [mbind res_bind].
      rewrite (holds_peek _ _ _ _ _ (si_skipped _ _ _ _ _ _ I)). cbn [mbind res_bind].
      destruct (request_ltb _ _ _ _); [by exists SelWaiting, id, w|by exists SelSkipped, id', k].
Qed.

Lemma holds_selected s t w k x sel : SchedInv cfg s t w k x → holds (policy cfg) s (selected s sel) (contents sel w k).
Proof. intros I. destruct sel; apply I. Qed.

(** The queues after the head of the selected one is taken. *)
Definition rest_w (sel : queue_sel) w : list string := match sel with SelWaiting => tail w | SelSkipped => w end.
Definition rest_k (sel : queue_sel) k : list string := match sel with SelWaiting => k | SelSkipped => tail k end.

Lemma rest_perm sel w k id rest : contents sel w k = id :: rest → w ++ k ≡ₚ id :: rest_w sel w ++ rest_k sel k.
Proof. destruct sel; cbn; intros ->; cbn; [done|]. by rewrite -Permutation_middle. Qed.

(** Popping the head of the selected queue. *)
Lemma pop_selected s t w k x sel id rest :
  SchedInv cfg s t w k x → contents sel w k = id :: rest →
  ∃ q, @pop_request _ _ (queue_ops s) (selected s sel) = Ok (id, q) ∧
    ∃ q1 q2, waiting (set_selected s sel q) = q1 ∧ skipped_waiting (set_selected s sel q) = q2 ∧
      holds (policy cfg) s q1 (rest_w sel w) ∧ holds (policy cfg) s q2 (rest_k sel k).
Proof.
  intros I Hc. pose proof (holds_selected _ _ _ _ _ sel I) as Hh. rewrite Hc in Hh.
  destruct (holds_pop _ _ _ _ _ Hh) as (q & E & Hq). exists q. split; [done|]. eexists _, _.
  split_and!; [done..| |]; destruct sel; cbn in *; subst; try apply I; done.
Qed.

Lemma skip_request_spec s st aside t w k x sel id rest :
  WaitInv s st aside t w k x → contents sel w k = id :: rest →
  ∃ s' aside' x', skip_request s aside sel id = Ok (s', aside') ∧
    WaitInv s' st aside' t (rest_w sel w) (rest_k sel k) x' ∧ running s' = running s.
Proof.
  intros [I A S P R Y F] Hc. unfold skip_request.
  destruct (pop_selected _ _ _ _ _ _ _ _ I Hc) as (q & E & q1 & q2 & E1 & E2 & H1 & H2). rewrite E. cbn [mbind res_bind].
  assert (id ∈ w ++ k ++ x) as Hin by (rewrite app_assoc (rest_perm _ _ _ _ _ Hc); left).
  destruct (inv_not_running _ _ _ _ _ _ _ I Hin) as (_ & r & Hr & Hok & _).
  destruct (holds_prepend _ _ _ _ id A) as (aside' & x' & Ea & Ha & HPx); [by eapply stored_comparable|].
  rewrite Ea. cbn [mbind res_bind]. eexists _, aside', x'. split; [reflexivity|].
  assert (same_core (set_skipped_waiting (set_waiting s q1) q2) (set_selected s sel q)) as C.
  { split_and!; cbn; try done; by destruct sel. }
  assert (SchedInv cfg (set_selected s sel q) t (rest_w sel w) (rest_k sel k) x') as I'.
  { eapply SchedInv_core; [exact C|]. eapply SchedInv_queues; [exact I|done|done|].
    rewrite HPx (app_assoc w k) (rest_perm _ _ _ _ _ Hc) (app_assoc (rest_w sel w)). cbn.
    by rewrite -Permutation_middle. }
  split; [|by destruct sel].
  split; [done| |eapply StepInv_core; [| |exact S]; by destruct sel|..]; by destruct sel.
Qed.

(** ** Promotion *)

Lemma promote_spec s st aside t w k x id r :
  WaitInv s st aside t w k x → id ∈ w ++ k → sc_requests s !! id = Some r →
  _is_blocked_waiting_status (status r) = true →
  ∃ s' b, _try_promote_blocked_waiting_request s r = Ok (s', b) ∧ WaitInv s' st aside t w k x ∧
    running s' = running s ∧ (b = true → ∃ r', sc_requests s' !! id = Some r' ∧ status r' = WAITING).
Proof.
  intros HW Hin Hr Hb. pose proof HW as [I A S P R Y F].
  assert (id ∈ w ++ k ++ x) as Hin' by (rewrite app_assoc; set_solver).
  destruct (inv_not_running _ _ _ _ _ _ _ I Hin') as (Hnr & r1 & Hr1 & Hok & Hq1 & Hq2).
  assert (r1 = r) as -> by congruence. pose proof (ro_id _ _ _ _ Hok) as Hid.
  unfold _try_promote_blocked_waiting_request. destruct (status r) eqn:Es; cbn in Hb; try done.
  - destruct (grammar_ready (plugins s) (request_id r)); [|by exists s, false].
    eexists _, true. split; [reflexivity|]. cbn in Hq1.
    assert (sc_requests (put_request s (set_status r WAITING)) = <[id := set_status r WAITING]> (sc_requests s)) as Esc.
    { unfold put_request. cbn. by rewrite Hid. }
    split_and!; [|done|]; last first.
    { intros _. exists (set_status r WAITING). by rewrite Esc lookup_insert_eq. }
    split; try done.
    + eapply SchedInv_put; try done. destruct Hok. split; try done. by eapply law_hashed.
    + eapply holds_put; [by rewrite Hid|done|done].
    + eapply StepInv_frame; [done|by apply S|]. intros y n r' _. rewrite Esc.
      destruct (decide (y = id)) as [->|Hy]; [rewrite lookup_insert_eq|rewrite lookup_insert_ne //].
      * intros [= <-]. by exists r.
      * intros. by exists r'.
    + intros y r' Hy. rewrite Esc. destruct (decide (y = id)) as [->|Hne].
      * rewrite lookup_insert_eq. by intros [= <-].
      * rewrite lookup_insert_ne //. by apply P.
    + intros y r' Hy Hny. rewrite Esc lookup_insert_ne; [|by intros ->]. by apply Y.
    + unfold same_requests. rewrite -F. by apply (same_requests_put s _ id r (set_status r WAITING)).
  - rewrite Hid Hq1. by exists s, false.
Qed.

(** ** Admission *)

Lemma waiting_new_tokens_spec s st r nc local :
  mm_features r = [] → 0 ≤ nc < num_tokens r → 0 < token_budget st →
  ∃ o, waiting_new_tokens cfg s st r nc local = Ok (s, o) ∧
    ∀ n p, o = Some (n, p) → 0 < n ≤ token_budget st ∧ nc + n ≤ num_tokens r ∧
      ∃ m b, p = mkPlan [] m b [] [] 0.
Proof.
  intros Ht Hnc Hb. unfold waiting_new_tokens. set (n0 := cap_long_prefill cfg _).
  destruct (cap_long_prefill_bounds cfg (num_tokens r - nc)) as [H1 H2]; [lia|]. fold n0 in H1, H2.
  destruct (negb (enable_chunked_prefill cfg) && bool_decide (token_budget st < n0)); [by exists None|].
  rewrite bool_decide_true; [|lia]. cbn [py_assert mbind res_bind].
  rewrite plan_encoder_text //. cbn [mbind res_bind]. rewrite text_no_inputs //. cbn [andb plan_num_new_tokens].
  destruct (need_mamba_block_aligned_split cfg).
  - pose proof (mamba_split_bounds cfg Hcfg r (Z.min n0 (token_budget st)) local ltac:(lia)) as Hm.
    goal_bool as E; [by exists None|]. eexists; split; [reflexivity|]. intros n p [= <- <-]. split_and!; try lia; eauto.
  - eexists; split; [reflexivity|]. intros n p [= <- <-]. split_and!; try lia; eauto.
Qed.

(** The lookup and the allocation of a waiting request. *)
Lemma lookup_spec s t w k x id r :
  SchedInv cfg s t w k x → sc_requests s !! id = Some r → queued_ok cfg s t id r → num_computed_tokens r < num_tokens r →
  ∃ hits local nc,
    (if bool_decide (num_computed_tokens r = 0) then
       match get_computed_blocks (kv_cache_manager s) r with
       | None => Raise OutOfFuel
       | Some res => '(blocks, n) ← res; py_assert (bool_decide (n ≤ num_tokens r));; Ok (blocks, n, n)
       end
     else Ok (EmptyKVCacheBlocks, 0, num_computed_tokens r)) = Ok (hits, local, nc) ∧
    0 ≤ nc < num_tokens r ∧
    ∀ n look fit, 0 < n → 0 ≤ look →
      ∃ m' o, allocate_slots (kv_cache_manager s) r n local (Some hits) look 0 false 0 fit = Ok (m', o) ∧
        match o with
        | None => kv_ok m' t
        | Some _ => kv_ok m' (<[id := Z.min (nc + n + look) (max_model_len cfg)]> t)
        end.
Proof.
  intros I Hr [_ Hnone] Hlt. pose proof (si_store _ _ _ _ _ _ I _ _ Hr) as Hok.
  pose proof (ro_id _ _ _ _ Hok) as Hid. pose proof (ro_computed _ _ _ _ Hok) as Hc.
  pose proof (ro_tokens _ _ _ _ Hok). pose proof (ro_hashed _ _ _ _ Hok).
  pose proof (si_kv _ _ _ _ _ _ I). goal_bool as E.
  - assert (t !! request_id r = None) as Hn by (rewrite Hid; auto).
    destruct (law_lookup (kv_cache_manager s) t r) as (hits & n & -> & Hb & Hh); try done. cbn [mbind res_bind].
    rewrite bool_decide_true; [|lia]. cbn [py_assert mbind res_bind].
    exists hits, n, n. split_and!; [done|lia|lia|]. intros m look fit Hm Hl. rewrite -Hid.
    apply law_admit; try done. lia.
  - exists EmptyKVCacheBlocks, 0, (num_computed_tokens r). split_and!; [done|lia|lia|].
    intros m look fit Hm Hl. rewrite -Hid. apply law_allocate; try done; [lia|lia|rewrite Hid; lia].
Qed.

Lemma WaitInv_kv s st aside t w k x m' :
  WaitInv s st aside t w k x → kv_ok m' t → WaitInv (set_kv_cache_manager s m') st aside t w k x.
Proof. intros [] Hm. split; try done; [by apply SchedInv_kv|]. eapply StepInv_core; [| |exact wi_step0]; done. Qed.

(** What [commit_waiting] does: the request leaves its queue for the running list, and the
    step has one more new or resumed request. *)
Lemma commit_waiting_run s st t w k x sel id rest r nc n m b cover kv :
  SchedInv cfg s t w k x → contents sel w k = id :: rest → sc_requests s !! id = Some r →
  status r = WAITING ∨ status r = PREEMPTED → num_tokens r < max_model_len cfg →
  zlen (running s) < max_num_running_reqs cfg → 0 ≤ nc → nc ≤ num_tokens r → nc ≤ cover → kv_ok kv (<[id := cover]> t) →
  let r' := set_num_computed_tokens (set_status r RUNNING) nc in
  let new := if bool_decide (status r = WAITING) then [id] else [] in
  let resumed := if bool_decide (status r = WAITING) then [] else [id] in
  ∃ s' st', commit_waiting cfg (set_kv_cache_manager s kv) st sel id nc n (mkPlan [] m b [] [] 0) = Ok (s', st') ∧
    SchedInv cfg s' (<[id := cover]> t) (rest_w sel w) (rest_k sel k) x ∧
    sc_requests s' = <[id := r']> (sc_requests s) ∧ running s' = running s ++ [id] ∧
    prev_step_scheduled_req_ids s' = prev_step_scheduled_req_ids s ∧
    scheduled_running_reqs st' = scheduled_running_reqs st ∧ scheduled_resumed_reqs st' = scheduled_resumed_reqs st ++ resumed ∧
    scheduled_new_reqs st' = scheduled_new_reqs st ++ new ∧ num_scheduled_tokens st' = od_set (num_scheduled_tokens st) id n ∧
    (∃ bs, req_to_new_blocks st' = od_set (req_to_new_blocks st) id bs) ∧ token_budget st' = token_budget st - n ∧
    scheduled_encoder_inputs st' = scheduled_encoder_inputs st ∧ scheduled_spec_decode_tokens st' = scheduled_spec_decode_tokens st.
Proof.
  intros I Hc Hr Hst HL Hlim Hnc Hnt Hcov Hkv r' new resumed.
  pose proof (si_store _ _ _ _ _ _ I id r Hr) as Hok. pose proof (ro_id _ _ _ _ Hok) as Hid. unfold commit_waiting.
  destruct (pop_selected _ _ _ _ _ _ _ _ I Hc) as (q & E & q1 & q2 & E1 & E2 & H1 & H2).
  assert (@pop_request _ _ (queue_ops (set_kv_cache_manager s kv)) (selected (set_kv_cache_manager s kv) sel) =
    Ok (id, q)) as -> by (rewrite -E; by destruct sel). cbn [mbind res_bind].
  match goal with |- context [get_request ?x id] => set (s1 := x) end.
  assert (sc_requests s1 = sc_requests s ∧ running s1 = running s ++ [id] ∧
    prev_step_scheduled_req_ids s1 = prev_step_scheduled_req_ids s) as (Es1 & Er1 & Ep1) by (unfold s1; by destruct sel).
  rewrite (get_request_ok s1 id r); [|by rewrite Es1]. cbn [mbind res_bind].
  assert (SchedInv cfg (put_request s1 r') (<[id := cover]> t) (rest_w sel w) (rest_k sel k) x) as I'.
  { eapply SchedInv_core; [|eapply (SchedInv_admitted cfg s t w k x (rest_w sel w) (rest_k sel k) id r r' cover q1 q2 kv)];
      try done.
    - unfold s1. subst q1 q2. split_and!; by destruct sel.
    - destruct Hok. split; try done; [by eapply law_hashed|]. cbn. rewrite tok_insert_eq. lia.
    - by eapply rest_perm. }
  match goal with |- context [mbind _ (if bool_decide (status r = WAITING) then ?a else ?b)] =>
    assert ((if bool_decide (status r = WAITING) then a else b) =
      Ok (set_scheduled_resumed_reqs (set_scheduled_new_reqs st (scheduled_new_reqs st ++ new))
            (scheduled_resumed_reqs st ++ resumed))) as -> end.
  { unfold new, resumed. destruct Hst as [-> | ->]; cbn; rewrite ?app_nil_r; by destruct st. }
  cbn [mbind res_bind]. rewrite schedule_encoder_inputs_text. eexists _, _. split; [reflexivity|]. split; [eapply SchedInv_core; [|exact I']; done|].
  split; [unfold put_request; cbn; by rewrite -Es1 Hid|]. split; [exact Er1|]. split; [exact Ep1|].
  destruct (max_loras cfg), (lora_request r); split_and!; done || by eexists.
Qed.

Lemma commit_waiting_spec s st aside t w k x sel id rest r nc n m b cover kv :
  WaitInv s st aside t w k x → contents sel w k = id :: rest → sc_requests s !! id = Some r →
  status r = WAITING ∨ status r = PREEMPTED → num_tokens r < max_model_len cfg →
  zlen (running s) < max_num_running_reqs cfg → 0 ≤ nc → 0 < n ≤ token_budget st → nc + n ≤ num_tokens r →
  nc + n ≤ cover → kv_ok kv (<[id := cover]> t) →
  ∃ s' st', commit_waiting cfg (set_kv_cache_manager s kv) st sel id nc n (mkPlan [] m b [] [] 0) = Ok (s', st') ∧
    WaitInv s' st' aside (<[id := cover]> t) (rest_w sel w) (rest_k sel k) x.
Proof.
  intros [I A S P R Y F] Hc Hr Hst HL Hlim Hnc Hn Hnt Hcov Hkv.
  assert (id ∈ w ++ k ++ x) as Hin by (rewrite app_assoc (rest_perm _ _ _ _ _ Hc); left).
  destruct (inv_not_running _ _ _ _ _ _ _ I Hin) as (Hnr & r1 & Hr1 & Hok & _).
  assert (r1 = r) as -> by congruence. clear Hr1. pose proof (ro_id _ _ _ _ Hok) as Hid.
  pose proof S as [_ _ P3 P4 _ P5 _ _ P8 [P9 P9']].
  assert (id ∉ (num_scheduled_tokens st).*1) as Hnk by (intros Hk; by apply Hnr, P4).
  destruct (commit_waiting_run s st t w k x sel id rest r nc n m b cover kv I Hc Hr Hst HL Hlim Hnc) as
    (s' & st' & E & I' & Es & Er & Ep & T1 & T2 & T3 & T4 & [bs T5] & T6 & T7 & T8); [lia|lia|done|].
  set (r' := set_num_computed_tokens _ _) in Es. rewrite od_set_fresh // in T4. exists s', st'. split; [exact E|].
  assert (∀ y r1, y ≠ id → sc_requests s' !! y = Some r1 → sc_requests s !! y = Some r1) as Hother.
  { intros y r1 Hy. by rewrite Es lookup_insert_ne. }
  assert (∀ r1, sc_requests s' !! id = Some r1 → r1 = r') as Hself by (intros r1; rewrite Es lookup_insert_eq; by intros [= <-]).
  split; rewrite ?Ep ?Er.
  - exact I'.
  - eapply (holds_ops _ (put_request s r')); [unfold obj, put_request; cbn; by rewrite Es Hid|]. rewrite -Hid in Hr. by eapply holds_put.
  - eapply (StepInv_extend cfg s s' st st' t _ B id n); rewrite ?T1 ?T2 ?T3 ?T7 ?T8 ?Er; try done.
    + destruct Hst as [-> | ->]; cbn; rewrite ?app_nil_r -?app_assoc; [done|].
      apply Permutation_app_head, Permutation_app_head. apply Permutation_app_comm.
    + rewrite T5 od_set_fresh; [|by rewrite P3]. by rewrite fmap_app.
    + set_solver.
    + set_solver.
    + intros y n0 r1 Hy Hne Hr1.
      destruct (P5 y n0 r1 Hy (Hother y r1 Hne Hr1)) as (? & ? & ? & ?). unfold scheduled_ok. by rewrite T8 tok_insert_ne.
    + intros r1 ->%Hself. unfold scheduled_ok. cbn. rewrite T8 tok_insert_eq. change (num_tokens r') with (num_tokens r).
      pose proof (zlen_nonneg (default [] (od_get (scheduled_spec_decode_tokens st) id))).
      pose proof (ro_placeholders _ _ _ _ Hok). split_and!; [lia..|]. intros ds Hds%od_get_Some%fst_elem. by apply P9' in Hds.
    + by left.
  - intros y r1. rewrite Ep. intros Hy Hr1. destruct (decide (y = id)) as [->|Hne]; [by rewrite (Hself _ Hr1)|].
    apply (P y r1); [done|by apply Hother].
  - intros y. rewrite T2 elem_of_app. intros [Hy|Hy]; [by apply R|]. revert Hy. goal_bool as Est; [by intros ?%not_elem_of_nil|].
    intros ->%list_elem_of_singleton Hp. apply (P id r Hp Hr). naive_solver.
  - intros y r1. rewrite T4 fmap_app !elem_of_app. cbn. intros Hy Hny Hr1.
    destruct (decide (y = id)) as [->|Hne]; [naive_solver|]. apply (Y y); [|naive_solver|by apply Hother].
    rewrite list_elem_of_singleton in Hy. naive_solver.
  - unfold same_requests. rewrite -F. by apply (same_requests_put s _ id r r').
Qed.

Lemma admit_waiting_spec s st aside t w k x sel id rest r :
  WaitInv s st aside t w k x → contents sel w k = id :: rest → sc_requests s !! id = Some r →
  status r = WAITING ∨ status r = PREEMPTED → zlen (running s) < max_num_running_reqs cfg → 0 < token_budget st →
  ∃ s' o, admit_waiting cfg set_order s st sel id = Ok (s', o) ∧
    match o with
    | None => WaitInv s' st aside t w k x
    | Some st' => ∃ t', WaitInv s' st' aside t' (rest_w sel w) (rest_k sel k) x
    end.
Proof.
  intros HW Hc Hr Hst Hlim Hb. pose proof (wi_inv _ _ _ _ _ _ _ HW) as I.
  assert (id ∈ w ++ k ++ x) as Hin by (rewrite app_assoc (rest_perm _ _ _ _ _ Hc); left).
  destruct (inv_not_running _ _ _ _ _ _ _ I Hin) as (_ & r1 & Hr1 & Hok & Hq).
  assert (r1 = r) as -> by congruence. pose proof (proj1 Hq) as Hlt.
  assert (num_computed_tokens r < num_tokens r < max_model_len cfg) as [Hlt1 Hlt2].
  { destruct Hst as [Est|Est]; by rewrite Est in Hlt. }
  unfold admit_waiting. rewrite (get_request_ok _ _ _ Hr). cbn [mbind res_bind].
  destruct (lookup_spec _ _ _ _ _ _ _ I Hr Hq Hlt1) as (hits & local & nc & -> & Hnc & Halloc). cbn [mbind res_bind].
  destruct (waiting_new_tokens_spec s st r nc local (ro_text _ _ _ _ Hok) Hnc Hb) as (o & -> & Ho).
  cbn [mbind res_bind]. destruct o as [[n p]|]; [|by exists s, None].
  destruct (Ho n p eq_refl) as (Hn & Hnt & m & b & ->). rewrite text_no_inputs; [|apply Hok].
  rewrite andb_false_r. cbn [mbind res_bind].
  set (look := if bool_decide (num_computed_tokens r = 0) then 0 else num_lookahead_tokens cfg).
  assert (0 ≤ look) as Hlook by (unfold look; pose proof (cfg_lookahead _ Hcfg); goal_bool as E; lia).
  destruct (Halloc n look (scheduler_reserve_full_isl cfg)) as (kv & o & -> & Hkv); [lia|done|]. cbn [mbind res_bind].
  destruct o as [blocks|]; cbn [mbind res_bind].
  - destruct (commit_waiting_spec s st aside t w k x sel id rest r nc n m b
      (Z.min (nc + n + look) (max_model_len cfg)) kv) as (s' & st' & -> & HW'); try done; [lia..|].
    cbn [mbind res_bind]. eexists _, (Some st'). split; [reflexivity|]. by eexists.
  - eexists _, None. split; [reflexivity|]. pose proof (WaitInv_kv _ _ _ _ _ _ _ _ HW Hkv) as [].
    by split.
Qed.

(** ** The loop *)

Lemma WaitInv_plugin s s' st aside t w k x :
  plugin_step cfg s s' → WaitInv s st aside t w k x → WaitInv s' st aside t w k x.
Proof.
  intros P []. destruct (plugin_step_fields _ _ _ P) as (Er & _ & _ & _ & Ep & _).
  split; rewrite ?Er ?Ep; try done.
  - by eapply SchedInv_plugin.
  - by eapply holds_plugin.
  - by eapply StepInv_plugin.
  - by eapply prev_ok_plugin.
  - intros id r' Hin Hni Hr'. destruct (plugin_step_lookup_r _ _ _ _ _ P Hr') as (r & Hr & E).
    eapply run_ready_hint; [done|by eapply wi_ready0].
  - unfold same_requests. by rewrite (same_requests_plugin _ _ _ P).
Qed.

(** An iteration takes one request from the queues unless the loop breaks. *)
Lemma waiting_iteration_spec s st aside t w k x :
  WaitInv s st aside t w k x → w ++ k ≠ [] → zlen (running s) < max_num_running_reqs cfg → 0 < token_budget st →
  ∃ s' o, waiting_iteration cfg set_order s st aside = Ok (s', o) ∧
    match o with
    | None => WaitInv s' st aside t w k x
    | Some (st', aside') => ∃ t' w' k' x', WaitInv s' st' aside' t' w' k' x' ∧
        length (w ++ k) = S (length (w' ++ k'))
    end.
Proof.
  intros HW Hne Hlim Hb. unfold waiting_iteration.
  destruct (select_queue_spec _ _ _ _ _ (wi_inv _ _ _ _ _ _ _ HW) Hne) as (sel & id & rest & -> & Hc).
  cbn [mbind res_bind]. pose proof (holds_selected _ _ _ _ _ sel (wi_inv _ _ _ _ _ _ _ HW)) as Hsel. rewrite Hc in Hsel.
  rewrite (holds_peek _ _ _ _ _ Hsel). cbn [mbind res_bind].
  assert (id ∈ w ++ k) as Hin by (rewrite (rest_perm _ _ _ _ _ Hc); left).
  assert (length (w ++ k) = S (length (rest_w sel w ++ rest_k sel k))) as Hlen.
  { by rewrite (rest_perm _ _ _ _ _ Hc). }
  destruct (law_defer cfg s t w k x id (wi_inv _ _ _ _ _ _ _ HW) Hin) as (s1 & defer & -> & P1). cbn [mbind res_bind].
  pose proof (WaitInv_plugin _ _ _ _ _ _ _ _ P1 HW) as HW1. destruct (plugin_step_fields _ _ _ P1) as (Er1 & _).
  assert (∀ s2, WaitInv s2 st aside t w k x →
    ∃ s' o, ('(s3, skipped) ← skip_request s2 aside sel id; Ok (s3, Some (st, skipped))) = Ok (s', o) ∧
      match o with
      | None => WaitInv s' st aside t w k x
      | Some (st', aside') => ∃ t' w' k' x', WaitInv s' st' aside' t' w' k' x' ∧
          length (w ++ k) = S (length (w' ++ k'))
      end) as Hskip.
  { intros s2 HW2. destruct (skip_request_spec _ _ _ _ _ _ _ _ _ _ HW2 Hc) as (s3 & aside' & x' & -> & HW3 & _).
    cbn [mbind res_bind]. eexists _, (Some _). split; [reflexivity|]. eexists t, _, _, x'. by split. }
  destruct defer; [by apply Hskip|].
  assert (id ∈ w ++ k ++ x) as Hin' by (rewrite app_assoc; set_solver).
  destruct (inv_not_running _ _ _ _ _ _ _ (wi_inv _ _ _ _ _ _ _ HW1) Hin') as (_ & r & Hr & Hok & Hq & _).
  rewrite (get_request_ok _ _ _ Hr). cbn [mbind res_bind].
  assert (∃ s2 blocked,
    (if _is_blocked_waiting_status (status r) then
       '(s, promoted) ← _try_promote_blocked_waiting_request s1 r; Ok (s, negb promoted)
     else Ok (s1, false)) = Ok (s2, blocked) ∧ WaitInv s2 st aside t w k x ∧ running s2 = running s1 ∧
    (blocked = false → ∃ r', sc_requests s2 !! id = Some r' ∧ (status r' = WAITING ∨ status r' = PREEMPTED)))
    as (s2 & blocked & -> & HW2 & Er2 & Hbl).
  { destruct (_is_blocked_waiting_status (status r)) eqn:Eb.
    - destruct (promote_spec _ _ _ _ _ _ _ _ _ HW1 Hin Hr Eb) as (s2 & b & -> & HW2 & Er2 & Hb2). cbn [mbind res_bind].
      eexists s2, (negb b). split_and!; [done..|]. intros ->%negb_false_iff. destruct Hb2 as (r' & ? & ?); [done|]. eauto.
    - eexists s1, false. split_and!; [done..|]. intros _. exists r. split; [done|].
      destruct (status r); cbn in Eb; try done; auto. }
  cbn [mbind res_bind]. destruct blocked; [by apply Hskip|].
  destruct (Hbl eq_refl) as (r2 & Hr2 & Hst2). rewrite (get_request_ok _ _ _ Hr2). cbn [mbind res_bind].
  destruct (exceeds_loras cfg st r2); [by apply Hskip|].
  destruct (admit_waiting_spec s2 st aside t w k x sel id rest r2) as (s3 & o & -> & Ho); try done.
  { by rewrite Er2 Er1. }
  cbn [mbind res_bind]. destruct o as [st'|].
  - destruct Ho as (t' & HW3). eexists _, (Some _). split; [reflexivity|]. eexists t', _, _, x. by split.
  - by eexists _, None.
Qed.

Lemma waiting_loop_spec : ∀ fuel s st aside t w k x,
  WaitInv s st aside t w k x → (length (w ++ k) ≤ fuel)%nat →
  ∃ s' st' aside' t' w' k' x', waiting_loop cfg set_order fuel s st aside = Ok (s', st', aside') ∧
    WaitInv s' st' aside' t' w' k' x'.
Proof.
  induction fuel as [|fuel IH]; intros s st aside t w k x HW Hf;
    pose proof (has_queues _ _ _ _ _ (wi_inv _ _ _ _ _ _ _ HW)) as [Ew Ek]; cbn [waiting_loop]; rewrite Ew Ek;
    (destruct (decide (w ++ k = [])) as [Hnil|Hne];
      [apply app_nil in Hnil as [-> ->]; by eexists _, _, _, t, [], [], x|]).
  { by destruct (w ++ k); [|cbn in Hf; lia]. }
  assert (negb (is_nil w) || negb (is_nil k) = true) as -> by (by destruct w, k). cbn [andb].
  goal_bool as Hb; [|by eexists _, _, _, t, w, k, x].
  goal_bool as Hlim; [by eexists _, _, _, t, w, k, x|].
  pose proof (si_limit _ _ _ _ _ _ (wi_inv _ _ _ _ _ _ _ HW)).
  destruct (waiting_iteration_spec s st aside t w k x HW Hne) as (s1 & o & -> & Ho); [lia|done|]. cbn [mbind res_bind].
  destruct o as [[st1 aside1]|]; [|by eexists _, _, _, t, w, k, x].
  destruct Ho as (t1 & w1 & k1 & x1 & HW1 & Hlen). apply (IH s1 st1 aside1 t1 w1 k1 x1 HW1). lia.
Qed.

(** ** After both loops *)

Record StepDone s st t w k : Prop := {
  sd_inv : SchedInv cfg s t w k [];
  sd_step : StepInv cfg s st t B;
  sd_resumed : ∀ id, id ∈ scheduled_resumed_reqs st → id ∉ prev_step_scheduled_req_ids s;
  sd_ready : ∀ id r, id ∈ running s → id ∉ (num_scheduled_tokens st).*1 → sc_requests s !! id = Some r → run_ready cfg r;
  sd_same : same_requests s0 s
}.

Lemma RunInv_done s st t w k idx : RunInv cfg s0 s st t w k B idx → StepDone s st t w k.
Proof.
  intros [I S N1 N2 D Y V B0 F]. split; try done.
  - intros id. rewrite N1. by intros ?%not_elem_of_nil.
  - intros id r Hin Hni Hr. eapply Y; [done| |done]. intros Hs. apply Hni.
    rewrite (sp_keys _ _ _ _ _ S) elem_of_app. by left.
Qed.

Lemma schedule_waiting_spec s st t w k idx :
  RunInv cfg s0 s st t w k B idx →
  ∃ s' st' t' w' k', schedule_waiting cfg set_order s st = Ok (s', st') ∧ StepDone s' st' t' w' k' ∧
    (pause_state s ≠ UNPAUSED → st' = st).
Proof.
  intros RI. pose proof (RunInv_done _ _ _ _ _ _ RI) as HD. unfold schedule_waiting.
  destruct (is_nil (preempted_reqs st)) eqn:Ep; cbn [andb]; [|by eexists _, _, t, w, k].
  goal_bool as Eu; [|by eexists _, _, t, w, k].
  assert (preempted_reqs st = []) as Hp by (by destruct (preempted_reqs st)).
  pose proof (ri_inv _ _ _ _ _ _ _ _ _ RI) as I.
  assert (WaitInv s st (create_request_queue (policy cfg)) t w k []) as HW.
  { destruct HD. split; try done; [apply holds_create|by eapply ri_prev]. }
  destruct (waiting_loop_spec (num_queued s) s st _ t w k [] HW) as (s1 & st1 & q & t1 & w1 & k1 & x1 & -> & HW1).
  { unfold num_queued. rewrite (holds_len _ _ _ _ (si_waiting _ _ _ _ _ _ I)) (holds_len _ _ _ _ (si_skipped _ _ _ _ _ _ I)).
    rewrite -zlen_app. unfold zlen. lia. }
  cbn [mbind res_bind]. destruct HW1 as [I1 A1 S1 P1 R1 Y1 F1]. rewrite (holds_bool _ _ _ _ A1).
  destruct x1 as [|y x1]; cbn [is_nil negb].
  { eexists _, _, t1, w1, k1. split_and!; [reflexivity|by split|done]. }
  rewrite (holds_iter _ _ _ _ A1). cbn [mbind res_bind].
  destruct (holds_prepends _ _ _ _ (y :: x1) (si_skipped _ _ _ _ _ _ I1)) as (q' & k' & -> & Hq' & HPk).
  { by eapply holds_comparable. }
  cbn [mbind res_bind]. eexists _, _, t1, w1, k'. split; [reflexivity|]. split; [|done].
  split; try done; [|eapply StepInv_core; [| |exact S1]; done].
  eapply SchedInv_core; [|eapply (SchedInv_queues cfg s1 t1 w1 k1 (y :: x1) w1 k' []); [exact I1|apply I1|exact Hq'|]].
  - done.
  - rewrite app_nil_r HPk. by rewrite (Permutation_app_comm _ k1).
Qed.
End Waiting.
