(* ===== verification/SchedulerSpec.v ===== *)
(** * A scheduling step is safe

    [schedule] returns: no assertion of the code fails, no lookup misses a key and no
    loop runs out of fuel.  It keeps the invariant of the scheduler, stays within the
    token budget, and gives every scheduled request blocks for its tokens. *)

From Corelib Require Import SpecFloat.
From S2P Require Import Prelude PyFloat Request HeapQ RequestQueue FreeQueue BlockHash BlockPool KVCacheSpec SingleType CacheHit Coordinator KVCacheManager KVContract SchedUtils OrderedDict EncoderCache EncoderSched SchedState Scheduler SchedQueues SchedInv SchedStep SchedRunning SchedWaiting.

(** ** Folds that cannot fail *)

Lemma foldM_ok {A S} (f : S → A → res S) (l : list A) :
  (∀ s x, x ∈ l → ∃ s', f s x = Ok s') → ∀ s, ∃ s', foldM f s l = Ok s'.
Proof.
  induction l as [|x l IH]; intros Hf s; [by exists s|]. destruct (Hf s x) as [s1 H1]; [left|].
  destruct (IH (λ s z Hz, Hf s z (list_elem_of_further _ _ _ Hz)) s1) as [s2 H2]. exists s2. cbn. by rewrite H1.
Qed.

Section Output.
Context {env : KVEnv} {K : Type} {pl : Plugins K} (cfg : SchedulerConfig) (Hcfg : cfg_ok cfg).
Context (set_order : list Z → list Z) (Hord : ∀ l, set_order l ≡ₚ l).
Context {hashed : Request → Prop} `{KV : !KVContract (max_model_len cfg) hashed} `{PL : !PluginLaws cfg}.
Implicit Types (s : Scheduler K) (st : Step) (r : Request) (t : gmap string Z) (w k x : list string) (id : string).

(** ** The output *)

Lemma cached_data_ok s st :
  (∀ id, id ∈ scheduled_running_reqs st ++ scheduled_resumed_reqs st →
     is_Some (sc_requests s !! id) ∧ id ∈ (num_scheduled_tokens st).*1 ∧ id ∈ (req_to_new_blocks st).*1) →
  (∀ id, id ∈ scheduled_resumed_reqs st → id ∉ prev_step_scheduled_req_ids s) →
  ∀ resumed, resumed = scheduled_resumed_reqs st ∨ resumed = [] →
  ∃ d, _make_cached_request_data cfg s st (scheduled_running_reqs st) resumed = Ok d.
Proof.
  intros Hk Hr resumed Hre. unfold _make_cached_request_data.
  assert (∀ b l d, (∀ id, id ∈ l → id ∈ scheduled_running_reqs st ++ scheduled_resumed_reqs st ∧
    (b = true → id ∈ scheduled_resumed_reqs st)) → ∃ d', foldM (add_cached_request cfg s st b) d l = Ok d') as Hfold.
  { intros b l d Hl. apply foldM_ok. intros d0 id Hin. destruct (Hl id Hin) as [Hin1 Hin2].
    destruct (Hk id Hin1) as ([r Hrq] & Hn & Hb). unfold add_cached_request.
    rewrite (get_request_ok _ _ _ Hrq). cbn [mbind res_bind].
    destruct (od_lookup_ok _ _ Hn) as (n & -> & _). destruct (od_lookup_ok _ _ Hb) as (bl & -> & _).
    destruct (use_pp cfg && negb (async_scheduling cfg)); cbn [mbind res_bind];
      (destruct b; [rewrite (bool_decide_false (id ∈ prev_step_scheduled_req_ids s)); [|by apply Hr, Hin2]|]);
      cbn; by eexists. }
  destruct (Hfold false (scheduled_running_reqs st) (mkCachedRequestData [] [] [] [] [] [] [])) as [d ->].
  { intros id Hin. split; [|done]. apply elem_of_app. by left. }
  cbn [mbind res_bind]. apply Hfold. intros id Hin. destruct Hre as [-> | ->]; [|by apply not_elem_of_nil in Hin].
  split; [|done]. apply elem_of_app. by right.
Qed.

Lemma new_data_ok s st l :
  (∀ id, id ∈ l → is_Some (sc_requests s !! id) ∧ id ∈ (req_to_new_blocks st).*1) →
  ∃ ds, mapM_res (new_request_data cfg s st) l = Ok ds.
Proof.
  intros Hl. apply mapM_res_ok. intros id Hin. destruct (Hl id Hin) as ([r Hr] & Hb). unfold new_request_data.
  rewrite (get_request_ok _ _ _ Hr). cbn [mbind res_bind]. destruct (od_lookup_ok _ _ Hb) as (bl & -> & _). by eexists.
Qed.

(** ** [_update_after_schedule] *)

(** A request after the step, and after placeholders were added. *)
Definition advanced (n : Z) r : Request :=
  let r := set_num_computed_tokens r (num_computed_tokens r + n) in
  set_is_prefill_chunk r (bool_decide (num_computed_tokens r < num_tokens r + num_output_placeholders r)).

Definition with_placeholders st r : Request :=
  if is_prefill_chunk r then r
  else
    let spec := zlen (default [] (od_get (scheduled_spec_decode_tokens st) (request_id r))) in
    set_spec_token_ids (set_num_output_placeholders r (num_output_placeholders r + (1 + spec)))
      (py_repeat (-1) (num_spec_tokens cfg)).

(** Updating the objects of a dictionary one by one. *)
Lemma fold_requests (f : Z → Request → Request) (g : Scheduler K → string * Z → res (Scheduler K * bool)) (l : list (string * Z)) :
  (∀ n r, request_id (f n r) = request_id r) →
  (∀ s id n r, sc_requests s !! id = Some r → request_id r = id → (id, n) ∈ l → ∃ b, g s (id, n) = Ok (put_request s (f n r), b)) →
  NoDup l.*1 → ∀ s b,
  (∀ id r, sc_requests s !! id = Some r → request_id r = id) → (∀ id, id ∈ l.*1 → is_Some (sc_requests s !! id)) →
  ∃ s' b', foldM (λ (acc : Scheduler K * bool) kv, '(s, b) ← g acc.1 kv; Ok (s, acc.2 || b)) (s, b) l = Ok (s', b') ∧
    s' = set_sc_requests s (sc_requests s') ∧
    ∀ id, sc_requests s' !! id = match od_get l id with Some n => f n <$> sc_requests s !! id | None => sc_requests s !! id end.
Proof.
  intros Hf. induction l as [|[id n] l IH]; intros Hg Hnd s b Hid Hin.
  { exists s, b. split_and!; [done|by destruct s|done]. }
  apply NoDup_cons in Hnd as [Hni Hnd]. cbn [foldM]. destruct (Hin id) as [r Hr]; [left|].
  destruct (Hg s id n r Hr (Hid _ _ Hr)) as [b1 E1]; [left|]. rewrite E1. cbn [fst snd mbind res_bind].
  set (s1 := put_request s (f n r)).
  assert (sc_requests s1 = <[id := f n r]> (sc_requests s)) as Es1.
  { unfold s1, put_request. cbn. by rewrite Hf (Hid _ _ Hr). }
  destruct (IH (λ s id n r Hr Hi H, Hg s id n r Hr Hi (list_elem_of_further _ _ _ H)) Hnd s1 (b || b1)) as (s2 & b2 & E2 & Ef & Hs2).
  - intros id' r'. rewrite Es1. destruct (decide (id' = id)) as [->|Hne].
    + rewrite lookup_insert_eq. intros [= <-]. by rewrite Hf (Hid _ _ Hr).
    + rewrite lookup_insert_ne //. apply Hid.
  - intros id' Hin'. rewrite Es1 lookup_insert_ne; [apply Hin; by right|]. by intros ->.
  - exists s2, b2. rewrite E2. split_and!; [done|rewrite {1}Ef; by destruct s|]. intros id'. rewrite Hs2 od_get_cons Es1.
    destruct (decide (id = id')) as [<-|Hne].
    + rewrite lookup_insert_eq Hr. destruct (od_get l id) as [n'|] eqn:E; [|done].
      by apply od_get_Some, fst_elem in E.
    + by rewrite lookup_insert_ne.
Qed.

Lemma base_update_spec s (l : list (string * Z)) :
  NoDup l.*1 → (∀ id r, sc_requests s !! id = Some r → request_id r = id) → (∀ id, id ∈ l.*1 → is_Some (sc_requests s !! id)) →
  ∃ s' b, base_update_after_schedule s l = Ok (s', b) ∧
    s' = set_finished_req_ids (set_sc_requests s (sc_requests s')) ∅ ∧
    ∀ id, sc_requests s' !! id =
      match od_get l id with Some n => advanced n <$> sc_requests s !! id | None => sc_requests s !! id end.
Proof.
  intros Hnd Hid Hin. unfold base_update_after_schedule.
  destruct (fold_requests advanced (λ s kv, advance_request s kv.1 kv.2) l) with (s := s) (b := false)
    as (s' & b & E & Ef & Hs'); try done.
  - intros s1 id n r Hr _ _. unfold advance_request. cbn. rewrite (get_request_ok _ _ _ Hr). cbn. by eexists.
  - cbn in E. rewrite E. cbn [mbind res_bind]. eexists _, b. split; [reflexivity|]. split; [rewrite {1}Ef; done|]. apply Hs'.
Qed.

(** A scheduled request at the end of the step. *)
Definition stepped st (n : Z) r : Request :=
  if async_scheduling cfg then with_placeholders st (advanced n r) else advanced n r.

Lemma put_same s id r : sc_requests s !! id = Some r → request_id r = id → put_request s r = s.
Proof. intros Hr Hid. unfold put_request. rewrite Hid insert_id //. by destruct s. Qed.

Lemma update_after_schedule_spec s st :
  let l := num_scheduled_tokens st in
  NoDup l.*1 → (∀ id r, sc_requests s !! id = Some r → request_id r = id) → (∀ id, id ∈ l.*1 → is_Some (sc_requests s !! id)) →
  ∃ s' a b, _update_after_schedule cfg s st = Ok (s', a, b) ∧
    s' = set_finished_req_ids (set_sc_requests s (sc_requests s')) ∅ ∧
    ∀ id, sc_requests s' !! id =
      match od_get l id with Some n => stepped st n <$> sc_requests s !! id | None => sc_requests s !! id end.
Proof.
  intros l Hnd Hid Hin. unfold _update_after_schedule, stepped.
  destruct (base_update_spec s l Hnd Hid Hin) as (s1 & a & E & Ef & Hs1). rewrite E. cbn [mbind res_bind].
  destruct (async_scheduling cfg); [|by eexists _, a, false].
  assert (∀ id r, sc_requests s1 !! id = Some r → request_id r = id) as Hid1.
  { intros id r. rewrite Hs1. destruct (od_get l id); [|apply Hid].
    intros (r0 & Hr0 & ->)%fmap_Some. by apply (Hid id r0). }
  destruct (fold_requests (λ _, with_placeholders st) (λ s kv, add_placeholders cfg st s kv.1) l) with (s := s1) (b := false)
    as (s2 & b & E2 & Ef2 & Hs2); try done.
  - intros n r. unfold with_placeholders. by destruct (is_prefill_chunk r).
  - intros s3 id n r Hr Hrid _. unfold add_placeholders, with_placeholders. cbn [fst]. rewrite (get_request_ok _ _ _ Hr).
    cbn [mbind res_bind]. destruct (is_prefill_chunk r) eqn:Ec.
    + exists false. by rewrite (put_same _ _ _ Hr Hrid).
    + rewrite Hrid. by eexists.
  - intros id Hk. rewrite Hs1. destruct (od_get l id); [|by apply Hin].
    destruct (Hin id Hk) as [r ->]. by eexists.
  - cbn in E2. rewrite E2. cbn [mbind res_bind]. eexists _, a, b. split; [reflexivity|]. split.
    + rewrite {1}Ef2 {1}Ef. by destruct s.
    + intros id. rewrite Hs2 Hs1. destruct (od_get l id); [|done]. by destruct (sc_requests s !! id).
Qed.

(** ** The end of a step *)

Definition erase_out r : Request := set_num_output_placeholders (erase r) 0.

Lemma stepped_erase st n r :
  erase_out (stepped st n r) = erase_out r ∧ (async_scheduling cfg = false → erase (stepped st n r) = erase r).
Proof.
  unfold stepped, with_placeholders. destruct (async_scheduling cfg); [|by destruct r].
  split; [|done]. by destruct (is_prefill_chunk _).
Qed.

Lemma with_placeholders_kept st r :
  num_computed_tokens (with_placeholders st r) = num_computed_tokens r ∧
  all_token_ids (with_placeholders st r) = all_token_ids r ∧
  num_output_placeholders r ≤ num_output_placeholders (with_placeholders st r) ∧
  (is_prefill_chunk r = false → num_output_placeholders (with_placeholders st r) = num_output_placeholders r +
    (1 + zlen (default [] (od_get (scheduled_spec_decode_tokens st) (request_id r))))).
Proof.
  unfold with_placeholders. destruct (is_prefill_chunk r); [split_and!; [done..|lia|done]|]. cbn.
  pose proof (zlen_nonneg (default [] (od_get (scheduled_spec_decode_tokens st) (request_id r)))).
  split_and!; [done..|lia|done].
Qed.

Lemma stepped_computed st n r :
  num_computed_tokens (stepped st n r) = num_computed_tokens r + n ∧
  all_token_ids (stepped st n r) = all_token_ids r ∧
  num_output_placeholders r ≤ num_output_placeholders (stepped st n r).
Proof.
  unfold stepped. destruct (async_scheduling cfg); [|by cbn].
  destruct (with_placeholders_kept st (advanced n r)) as (-> & -> & H & _). by cbn in *.
Qed.

Lemma stepped_ok st t id n r :
  0 < n → scheduled_ok cfg st t id n r → req_ok cfg (hashed := hashed) t id r →
  req_ok cfg (hashed := hashed) t id (stepped st n r) ∧ (running_ok cfg r → running_ok cfg (stepped st n r)) ∧
  rkey (stepped st n r) = rkey r.
Proof.
  intros Hn (H1 & H2 & _ & _) [O1 O2 O3 O4 O5 O6 O7].
  destruct (stepped_computed st n r) as (E1 & E2 & E3). destruct (stepped_erase st n r) as [Ee _].
  assert (∀ {A} (f : Request → A), (∀ r, f (erase_out r) = f r) → f (stepped st n r) = f r) as Hf.
  { intros A f Hfe. by rewrite -Hfe Ee Hfe. }
  split_and!.
  - split; rewrite ?E1 /num_tokens ?E2 ?(Hf _ request_id) ?(Hf _ arrival_time) ?(Hf _ mm_features) //; try lia.
    eapply law_hashed; [done|by apply (Hf _ content)].
  - intros [Hs Hl]. split; [|by rewrite /num_tokens E2]. unfold stepped, with_placeholders. by repeat case_match.
  - unfold rkey. by rewrite ?(Hf _ request_id) ?(Hf _ arrival_time) ?(Hf _ priority).
Qed.

(** In a pipeline the request can be scheduled again before its output arrives. *)
Lemma stepped_ready st t id n r :
  request_id r = id → scheduled_ok cfg st t id n r →
  async_scheduling cfg = true ∨ scheduled_spec_decode_tokens st = [] → run_ready cfg (stepped st n r).
Proof.
  intros Hid (H1 & H2 & H3 & _) Ha. destruct (stepped_computed st n r) as (E1 & E2 & E3). unfold run_ready.
  rewrite E1. split; [|done]. unfold num_tokens at 1. rewrite E2.
  destruct Ha as [Ha|Ha]; last first.
  { rewrite Ha in H3. change (zlen (default [] (od_get [] id))) with 0 in H3. unfold num_tokens in H3. lia. }
  assert (num_computed_tokens r + n < num_tokens r + num_output_placeholders r ∨
    num_output_placeholders r + zlen (default [] (od_get (scheduled_spec_decode_tokens st) id)) ≤
    num_output_placeholders (stepped st n r)) as [Hc|Hc]; [|unfold num_tokens in *; lia..].
  unfold stepped. rewrite Ha. destruct (is_prefill_chunk (advanced n r)) eqn:Ec.
  - left. cbn in Ec. by apply bool_decide_eq_true in Ec.
  - right. destruct (with_placeholders_kept st (advanced n r)) as (_ & _ & _ & Hp). rewrite (Hp Ec).
    change (request_id (advanced n r)) with (request_id r). rewrite Hid. cbn. lia.
Qed.

Lemma StepInv_count s st t w k B :
  SchedInv cfg s t w k [] → StepInv cfg s st t B →
  zlen (scheduled_new_reqs st) + zlen (scheduled_resumed_reqs st) + zlen (scheduled_running_reqs st) ≤ zlen (running s).
Proof.
  intros I [P1 P2 _ P4 _ _ _ _ _]. assert (zlen (num_scheduled_tokens st).*1 ≤ zlen (running s)) as Hl.
  { unfold zlen. apply Nat2Z.inj_le. apply submseteq_length, NoDup_submseteq; [done|]. intros id. apply P4. }
  rewrite P1 !zlen_app in Hl. lia.
Qed.

(** What the output of a step promises, relative to the states before and after. *)
Record step_promises s s' t' (out : SchedulerOutput) : Prop := {
  pr_total : so_total_num_scheduled_tokens out = sum_tokens (so_num_scheduled_tokens out) ∧
    so_total_num_scheduled_tokens out ≤ max_num_scheduled_tokens cfg;
  pr_nodup : NoDup (so_num_scheduled_tokens out).*1;
  pr_slots : ∀ id n, (id, n) ∈ so_num_scheduled_tokens out → 0 < n ∧ id ∈ running s' ∧
    ∃ r, sc_requests s' !! id = Some r ∧ n ≤ num_computed_tokens r ≤ tok t' id;
  pr_same : erase_out <$> sc_requests s' = erase_out <$> sc_requests s;
  pr_sync : async_scheduling cfg = false → same_requests s s';
  pr_drafts : async_scheduling cfg = false → ∀ id n r, (id, n) ∈ so_num_scheduled_tokens out →
    sc_requests s' !! id = Some r →
    num_computed_tokens r ≤ num_tokens r + num_output_placeholders r +
      zlen (default [] (od_get (so_scheduled_spec_decode_tokens out) id)) ∧
    (∀ ds, od_get (so_scheduled_spec_decode_tokens out) id = Some ds →
       num_tokens r + num_output_placeholders r + zlen ds ≤ num_computed_tokens r);
  pr_idle : ∀ id r, id ∈ running s' → id ∉ (so_num_scheduled_tokens out).*1 → sc_requests s' !! id = Some r →
    run_ready cfg r;
  pr_again : async_scheduling cfg = true ∨ so_scheduled_spec_decode_tokens out = [] →
    ∀ id r, id ∈ running s' → sc_requests s' !! id = Some r → run_ready cfg r
}.

(** The state [s4] before the bookkeeping of [_update_after_schedule] and [s5] after it,
    relative to the state [s] in which the loops ended. *)
Record after_loops s st t w k (s4 s5 : Scheduler K) : Prop := {
  al_inv : SchedInv cfg s4 t w k [];
  al_requests : sc_requests s4 = sc_requests s;
  al_running : running s4 = running s;
  al_prev : prev_step_scheduled_req_ids s4 = list_to_set (num_scheduled_tokens st).*1;
  al_state : s5 = set_finished_req_ids (set_sc_requests s4 (sc_requests s5)) ∅;
  al_store : ∀ id, sc_requests s5 !! id =
    match od_get (num_scheduled_tokens st) id with Some n => stepped st n <$> sc_requests s4 !! id | None => sc_requests s4 !! id end
}.

Lemma after_running s st t w k s4 s5 : after_loops s st t w k s4 s5 → running s5 = running s.
Proof. intros [_ _ E _ Es _]. rewrite Es. exact E. Qed.

(** A scheduled request before and after. *)
Lemma after_scheduled s0 B s st t w k s4 s5 id n :
  StepDone cfg s0 B s st t w k → after_loops s st t w k s4 s5 → od_get (num_scheduled_tokens st) id = Some n →
  ∃ r, sc_requests s !! id = Some r ∧ req_ok cfg (hashed := hashed) t id r ∧ running_ok cfg r ∧ id ∈ running s ∧
    0 < n ∧ scheduled_ok cfg st t id n r ∧ sc_requests s5 !! id = Some (stepped st n r).
Proof.
  intros [I S _ _ _] [_ Q4 _ _ _ Hs5] Hg. pose proof (od_get_Some _ _ _ Hg) as Hin.
  assert (id ∈ running s) as Hrun by by eapply (sp_running _ _ _ _ _ S), fst_elem.
  destruct (inv_running _ _ _ _ _ _ _ I Hrun) as (r & Hr & Hok & Hro). exists r. split_and!; try done.
  - by eapply (sp_positive _ _ _ _ _ S).
  - by apply (sp_tokens _ _ _ _ _ S).
  - by rewrite Hs5 Hg Q4 Hr.
Qed.

(** Any other request is as it was. *)
Lemma after_unscheduled s st t w k s4 s5 id :
  after_loops s st t w k s4 s5 → od_get (num_scheduled_tokens st) id = None → sc_requests s5 !! id = sc_requests s !! id.
Proof. intros [_ Q4 _ _ _ Hs5] Hg. by rewrite Hs5 Hg Q4. Qed.

Lemma after_inv s0 B s st t w k s4 s5 :
  StepDone cfg s0 B s st t w k → after_loops s st t w k s4 s5 → SchedInv cfg s5 t w k [].
Proof.
  intros HD HA. pose proof HA as [I4 Q4 Q5 _ Es5 Hs5].
  rewrite Es5. eapply SchedInv_core; [|apply (SchedInv_store cfg s4 t w k [] (sc_requests s5) I4)]; [done|].
  intros id. rewrite Hs5. destruct (od_get (num_scheduled_tokens st) id) as [n|] eqn:Hg.
  - destruct (after_scheduled _ _ _ _ _ _ _ _ _ id n HD HA Hg) as (r & Hr & Hok & Hro & Hrun & Hn & Hsc & _). rewrite Q4 Hr. constructor.
    destruct (stepped_ok st t id n r Hn Hsc Hok) as (H1 & H2 & H3). rewrite Q5. by split_and!.
  - destruct (sc_requests s4 !! id); by constructor.
Qed.

Lemma after_prev s0 B s st t w k s4 s5 : StepDone cfg s0 B s st t w k → after_loops s st t w k s4 s5 → prev_ok s5.
Proof.
  intros HD HA. pose proof (after_inv _ _ _ _ _ _ _ _ _ HD HA) as I5. pose proof (after_running _ _ _ _ _ _ _ HA) as Q7.
  destruct HA as [_ _ _ Q6 Es5 _]. intros id r. rewrite {1}Es5. cbn [prev_step_scheduled_req_ids set_finished_req_ids set_sc_requests]. rewrite Q6.
  rewrite elem_of_list_to_set. intros Hin%(sp_running _ _ _ _ _ (sd_step _ _ _ _ _ _ _ _ HD)) Hr. rewrite -Q7 in Hin.
  destruct (si_running _ _ _ _ _ _ I5 id r Hr Hin) as [-> _]. done.
Qed.

(** Requests that [stepped] does not change under [f] are the same under [f]. *)
Lemma after_same {A} (f : Request → A) s0 B s st t w k s4 s5 :
  StepDone cfg s0 B s st t w k → after_loops s st t w k s4 s5 → (∀ n r, f (stepped st n r) = f r) →
  f <$> sc_requests s5 = f <$> sc_requests s.
Proof.
  intros HD HA Hf. apply map_eq. intros id. rewrite !lookup_fmap. destruct (od_get (num_scheduled_tokens st) id) as [n|] eqn:Hg.
  - destruct (after_scheduled _ _ _ _ _ _ _ _ _ id n HD HA Hg) as (r & -> & _ & _ & _ & _ & _ & ->). cbn. by rewrite Hf.
  - by rewrite (after_unscheduled _ _ _ _ _ _ _ id HA Hg).
Qed.

Lemma after_promises s0 B s st t w k s4 s5 out :
  StepDone cfg s0 B s st t w k → B ≤ max_num_scheduled_tokens cfg → after_loops s st t w k s4 s5 →
  so_num_scheduled_tokens out = num_scheduled_tokens st → so_total_num_scheduled_tokens out = sum_tokens (num_scheduled_tokens st) →
  so_scheduled_spec_decode_tokens out = scheduled_spec_decode_tokens st → step_promises s0 s5 t out.
Proof.
  intros HD HB HA En Et Ed. pose proof HD as [I S R Y F]. pose proof S as [_ P2 _ _ _ _ P6 P7 _ _]. pose proof (after_running _ _ _ _ _ _ _ HA) as Q7.
  pose proof (λ id n, after_scheduled s0 B s st t w k s4 s5 id n HD HA) as Hsched. cbn beta in Hsched.
  split; rewrite ?En ?Et ?Ed.
  - split; [done|lia].
  - done.
  - intros id n Hin. assert (od_get (num_scheduled_tokens st) id = Some n) as Hg by by apply od_get_elem.
    destruct (Hsched id n Hg) as (r & Hr & Hok & Hro & Hrun & Hn & (Hsc & _ & _) & Hr5). rewrite Q7. split_and!; [done..|].
    exists (stepped st n r). destruct (stepped_computed st n r) as (-> & _). split; [done|].
    pose proof (ro_computed _ _ _ _ Hok). lia.
  - rewrite (map_fmap_compose erase (λ r, set_num_output_placeholders r 0) (sc_requests s0)) -F -map_fmap_compose.
    apply (after_same _ s0 B s st t w k s4 s5 HD HA). intros n r. exact (proj1 (stepped_erase st n r)).
  - intros Ha. unfold same_requests. rewrite -F. apply (after_same _ s0 B s st t w k s4 s5 HD HA). intros n r. exact (proj2 (stepped_erase st n r) Ha).
  - intros Ha id n r' Hin Hr'. assert (od_get (num_scheduled_tokens st) id = Some n) as Hg by by apply od_get_elem.
    destruct (Hsched id n Hg) as (r & Hr & _ & _ & _ & _ & (_ & _ & H3 & H4) & Hr5). rewrite Hr5 in Hr'. injection Hr' as <-.
    unfold stepped, advanced. rewrite Ha. cbn. by change (num_tokens (set_is_prefill_chunk _ _)) with (num_tokens r).
  - intros id r. rewrite Q7. intros Hin Hni Hr. eapply Y; [done|done|].
    destruct (od_get (num_scheduled_tokens st) id) as [n|] eqn:Hg; [by apply od_get_Some, fst_elem in Hg|].
    by rewrite (after_unscheduled _ _ _ _ _ _ _ id HA Hg) in Hr.
  - intros Ha id r. rewrite Q7. intros Hin Hr. destruct (od_get (num_scheduled_tokens st) id) as [n|] eqn:Hg.
    + destruct (Hsched id n Hg) as (r0 & _ & Hok & _ & _ & _ & Hsc & Hr5). rewrite Hr in Hr5. injection Hr5 as ->.
      by eapply stepped_ready; [apply Hok|exact Hsc|].
    + rewrite (after_unscheduled _ _ _ _ _ _ _ id HA Hg) in Hr. eapply Y; [done| |done]. intros Hk%od_get_is_Some. rewrite Hg in Hk. by destruct Hk.
Qed.

(** The common prefix of the running requests, which only changes the KV cache. *)
Lemma common_prefix_ok s t w k :
  SchedInv cfg s t w k [] →
  ∃ s1 common, (match running s with
    | [] => Ok (s, replicate (num_kv_cache_groups (kv_cache_manager s)) 0)
    | id :: _ => '(kv, c) ← km_get_num_common_prefix_blocks (kv_cache_manager s) id; Ok (set_kv_cache_manager s kv, c)
    end) = Ok (s1, common) ∧ SchedInv cfg s1 t w k [] ∧ s1 = set_kv_cache_manager s (kv_cache_manager s1).
Proof.
  intros I. destruct (running s) as [|id ids]; [eexists _, _; split_and!; [done|done|by destruct s]|].
  destruct (law_common (kv_cache_manager s) t id) as (m & c & -> & Hm); [apply I|].
  eexists _, _. split; [reflexivity|]. split; [by apply SchedInv_kv|done].
Qed.

(** The ids of new blocks to zero, which only change the KV cache. *)
Lemma zeroing_ok s t w k :
  SchedInv cfg s t w k [] →
  ∃ s3 zero, (if needs_kv_cache_zeroing cfg then
      let '(kv, ids) := km_take_new_block_ids (kv_cache_manager s) in
      (set_kv_cache_manager s kv, if is_nil ids then None else Some ids)
    else (s, None)) = (s3, zero) ∧ SchedInv cfg s3 t w k [] ∧ s3 = set_kv_cache_manager s (kv_cache_manager s3).
Proof.
  intros I. destruct (needs_kv_cache_zeroing cfg); [|eexists _, _; split_and!; [done|done|by destruct s]].
  pose proof (law_take_ids (kv_cache_manager s) t (si_kv _ _ _ _ _ _ I)) as Hm.
  destruct (km_take_new_block_ids (kv_cache_manager s)) as [m ids]. eexists _, _. split; [reflexivity|].
  split; [by apply SchedInv_kv|done].
Qed.

Lemma finish_step_spec s0 B s st t w k :
  StepDone cfg s0 B s st t w k → B ≤ max_num_scheduled_tokens cfg →
  ∃ s' out, finish_step cfg s st = Ok (s', out) ∧ SchedInv cfg s' t w k [] ∧ prev_ok s' ∧
    step_promises s0 s' t out ∧ so_num_scheduled_tokens out = num_scheduled_tokens st ∧
    (scheduled_new_reqs st = [] → scheduled_resumed_reqs st = [] → so_scheduled_new_reqs out = []).
Proof.
  intros HD HB. pose proof HD as [I S R Y F]. pose proof S as [P1 P2 P3 P4 _ _ P6 P7 _ _]. unfold finish_step.
  rewrite (bool_decide_true (sum_tokens _ ≤ _)); [|lia]. rewrite (bool_decide_true (0 ≤ _)); [|lia].
  rewrite (bool_decide_true (zlen (running s) ≤ _)); [|apply I].
  rewrite (bool_decide_true (_ + _ + _ ≤ _)); [|by eapply StepInv_count].
  cbn [py_assert mbind res_bind].
  destruct (common_prefix_ok s t w k I) as (s1 & common & -> & I1 & Es1). cbn [mbind res_bind].
  assert (sc_requests s1 = sc_requests s ∧ prev_step_scheduled_req_ids s1 = prev_step_scheduled_req_ids s) as (Q1 & Q3) by (by rewrite Es1).
  assert (∀ id, id ∈ (num_scheduled_tokens st).*1 → is_Some (sc_requests s1 !! id)) as Hsome.
  { intros id Hid%P4. rewrite Q1. destruct (inv_running _ _ _ _ _ _ _ I Hid) as (r & -> & _). by eexists. }
  match goal with |- context [let '(_, _) := ?e in _] => set (news := e) end.
  assert (∃ ds, mapM_res (new_request_data cfg s1 st) news.1 = Ok ds ∧
    (scheduled_new_reqs st = [] → scheduled_resumed_reqs st = [] → ds = [])) as (ds & Eds & Hds).
  { destruct (new_data_ok s1 st news.1) as [ds Eds].
    - intros id Hid. assert (id ∈ (num_scheduled_tokens st).*1) as Hk.
      { rewrite P1. unfold news in Hid. destruct (use_v2_model_runner cfg); cbn in Hid; set_solver. }
      split; [by apply Hsome|by rewrite P3].
    - exists ds. split; [done|]. intros E1 E2. assert (news.1 = []) as E3.
      { unfold news. rewrite E1 E2. by destruct (use_v2_model_runner cfg). }
      rewrite E3 in Eds. by injection Eds. }
  destruct (cached_data_ok s1 st) with (resumed := news.2) as [cached Ec].
  { intros id Hid. assert (id ∈ (num_scheduled_tokens st).*1) as Hk by (rewrite P1; set_solver).
    split_and!; [by apply Hsome|done|by rewrite P3]. }
  { intros id Hid. rewrite Q3. by apply R. }
  { unfold news. destruct (use_v2_model_runner cfg); [by right|by left]. }
  destruct news as [new_reqs resumed_reqs]. cbn [fst snd] in Eds, Ec. rewrite Eds Ec. cbn [mbind res_bind].
  set (s2 := set_prev_step_scheduled_req_ids s1 _).
  assert (SchedInv cfg s2 t w k []) as I2 by (eapply SchedInv_core; [|exact I1]; done).
  destruct (zeroing_ok s2 t w k I2) as (s3 & zero & -> & I3 & Es3).
  destruct (step_started s3 (num_scheduled_tokens st)) as [plug taper_step].
  destruct (enc_get_freed_mm_hashes (encoder_cache_manager (set_plugins s3 plug))) as [enc freed].
  set (s4 := set_encoder_cache_manager (set_plugins s3 plug) enc).
  assert (SchedInv cfg s4 t w k []) as I4 by (eapply SchedInv_core; [|exact I3]; done).
  assert (sc_requests s4 = sc_requests s ∧ running s4 = running s ∧
    prev_step_scheduled_req_ids s4 = list_to_set (num_scheduled_tokens st).*1) as (Q4 & Q5 & Q6).
  { unfold s4. rewrite Es3. unfold s2. rewrite Es1. by cbn. }
  destruct (update_after_schedule_spec s4 st) as (s5 & a & b & -> & Es5 & Hs5); [done| |by rewrite Q4 -Q1|].
  { intros id r Hr. by apply (si_store _ _ _ _ _ _ I4) in Hr as []. }
  assert (after_loops s st t w k s4 s5) as HA by done.
  cbn [mbind res_bind]. eexists s5, _. split; [reflexivity|]. split_and!; [by eapply after_inv|by eapply after_prev|by eapply after_promises|done|done].
Qed.

(** ** The step *)

Definition all_ready s : Prop := ∀ id r, id ∈ running s → sc_requests s !! id = Some r → run_ready cfg r.

(** The adapters of the running requests fit the GPU. *)
Definition loras_fit s : Prop :=
  ∀ n ids, max_loras cfg = Some n → (∀ id, id ∈ ids → id ∈ running s) → zlen (loras_of s ids) ≤ n.

Lemma loras_of_same s s' ids : same_requests s s' → loras_of s' ids = loras_of s ids.
Proof.
  intros F. unfold loras_of. generalize (@nil Z). induction ids as [|id ids IH]; intros l; cbn [foldl]; [done|].
  rewrite (same_requests_obj lora_request s s' id F); [|done]. apply IH.
Qed.

Lemma schedule_spec s t w k :
  SchedInv cfg s t w k [] → prev_ok s → all_ready s → loras_fit s →
  ∃ s' out t' w' k', schedule cfg set_order s = Ok (s', out) ∧ SchedInv cfg s' t' w' k' [] ∧ prev_ok s' ∧
    step_promises s s' t' out ∧ (pause_state s = PAUSED_ALL → so_num_scheduled_tokens out = []) ∧
    (pause_state s ≠ UNPAUSED → so_scheduled_new_reqs out = []).
Proof.
  intros I Hprev Hready Hlora. unfold schedule. pose proof (cfg_budget _ Hcfg).
  set (B := if bool_decide (pause_state s = PAUSED_ALL) then 0 else max_num_scheduled_tokens cfg).
  assert (0 ≤ B ≤ max_num_scheduled_tokens cfg) as HB by (unfold B; goal_bool as E; lia).
  set (s1 := set_kv_cache_manager s _).
  assert (SchedInv cfg s1 t w k []) as I1 by (apply SchedInv_kv; [done|]; apply law_new_step, I).
  destruct (law_admitted cfg s1 t w k [] B I1) as (s2 & admitted & -> & P2). cbn [mbind res_bind].
  destruct (plugin_step_fields _ _ _ P2) as (Er & _ & _ & _ & _ & _ & Ep).
  assert (RunInv cfg s s2 (initial_step B (max_num_encoder_input_tokens cfg)) t w k B 0) as RI.
  { eapply RunInv_plugin; [exact P2|]. split; try done.
    - apply StepInv_initial. lia.
    - intros id r Hin _ Hr. by apply (Hready id). }
  destruct (running_loop_spec cfg Hcfg set_order Hord s admitted k B (length (running s2)) s2 _ t w 0%nat RI)
    as (s3 & st3 & t3 & w3 & idx3 & -> & RI3 & Ep3); [lia|]. cbn [mbind res_bind].
  assert (∃ st4, running_loras cfg s3 st3 = Ok st4 ∧ RunInv cfg s s3 st4 t3 w3 k B idx3 ∧
    scheduled_new_reqs st4 = [] ∧ scheduled_resumed_reqs st4 = []) as (st4 & -> & RI4 & N1 & N2).
  { destruct RI3 as [J1 J2 J3 J4 J5 J6 J7 J8 J9]. unfold running_loras.
    destruct (max_loras cfg) as [n|] eqn:El; [|by exists st3].
    rewrite bool_decide_true; last first.
    { rewrite (loras_of_same s); [|done]. eapply Hlora; [done|]. intros id Hid%J5. apply J8.
      apply elem_of_take in Hid as (j & ? & _). by eapply list_elem_of_lookup_2. }
    cbn. eexists; split; [reflexivity|]. split; [|done]. split; try done. by destruct J2. }
  cbn [mbind res_bind].
  destruct (schedule_waiting_spec cfg Hcfg set_order Hord s B s3 st4 t3 w3 k idx3 RI4)
    as (s5 & st5 & t5 & w5 & k5 & -> & HD & Hpause). cbn [mbind res_bind].
  destruct (finish_step_spec s B s5 st5 t5 w5 k5 HD) as (s6 & out & -> & I6 & Hp6 & Hpr & Hn & Hnew); [lia|].
  eexists s6, out, t5, w5, k5. split_and!; try done.
  - intros Hp. rewrite Hn. assert (B = 0) as HB0 by (unfold B; by rewrite bool_decide_true).
    destruct (sd_step _ _ _ _ _ _ _ _ HD) as [_ _ _ _ Q1 _ Q2 Q3 _].
    apply (sum_tokens_pos _ Q1). pose proof (sum_tokens_pos _ Q1). lia.
  - intros Hp. rewrite Hpause in HD Hn Hnew; [|by rewrite Ep3 Ep]. by apply Hnew.
Qed.
End Output.
