(* ===== verification/KVContractUnitary.v ===== *)
(** * The managers of one group keep the contract

    The laws of [KVContract] for a KV cache manager whose coordinator looks hits up in
    one group ([UnitaryKVCacheCoordinator]) or does not cache prefixes
    ([KVCacheCoordinatorNoPrefixCache], any number of groups).  The connection between
    lookup and allocation is made here: the blocks a lookup returns, less those the
    attention skips, are distinct cached blocks, as the allocation requires. *)

From S2P Require Import Prelude PyFloat Request FreeQueue BlockHash BlockPool KVCacheSpec SingleType CacheHit ManagerSpec Coordinator CoordinatorSpec KVCacheManager KVCacheManagerSpec KVContract.

Section Unitary.
Context {env : KVEnv} (L hbs : Z) (caching : bool).
Implicit Types (m : KVCacheManager) (c : Coordinator) (g : Manager) (t : gmap string Z) (r : Request) (id : string).

(** Every full block is hashed, and no two blocks of a request have the same hash. *)
Definition unitary_hashed r : Prop :=
  caching = true → zlen (block_hashes r) = num_tokens r / hbs ∧ NoDup (block_hashes r).

Definition single_lookup c : Prop :=
  match kind c with
  | NoPrefixCache => True
  | Unitary spec bs dcp pcp =>
      bs = hbs ∧ 0 < bs ∧ hit_block_size spec dcp pcp = bs ∧
      hit_supported spec (bool_decide (0 ∈ eagle_group_ids c)) bs dcp pcp ∧
      ∃ g, single_type_managers c = [g] ∧ kv_cache_spec g = spec ∧ block_size g = bs
  | Hybrid _ _ _ _ => False
  end.

(** The tables as the contract sees them. *)
Definition tables c t : Prop :=
  ∀ g id, g ∈ single_type_managers c →
    match t !! id with
    | Some n => n ≤ zlen (blocks_of g id) * block_size g
    | None => blocks_of g id = [] ∧ has_cached g id = false
    end.

Record unitary_ok m t : Prop := {
  uo_inv : ∃ l, KmOk m l;
  uo_len : km_max_model_len m = L;
  uo_caching : km_enable_caching m = caching;
  uo_hbs : hash_block_size (km_pool m) = hbs;
  uo_lookup : single_lookup (coordinator m);
  uo_tables : tables (coordinator m) t
}.

Definition unitary_hits m r (hits : KVCacheBlocks) (n : Z) : Prop :=
  0 ≤ n < num_tokens r ∧
  ready (coordinator m) (request_id r) (blocks_lists m hits) (computed_phase_runs hits 0) n 0.

(** ** Frames *)

Lemma single_lookup_frame c c' : coord_frame c c' → single_lookup c → single_lookup c'.
Proof.
  intros [_ M E]. unfold single_lookup. rewrite E. cbn. destruct (kind c) as [|spec bs dcp pcp|]; [done| |done].
  intros (? & ? & ? & ? & g & Hg & Hs & Hb). split_and!; [done..|]. rewrite Hg in M.
  inversion M as [|g' g1 ? ms F M' E1 E2]; subst. inversion M'; subst. exists g1.
  split_and!; [done|by rewrite (mf_spec _ _ F)|by rewrite (mf_size _ _ F)].
Qed.

Lemma unitary_step m t m' l' t' :
  unitary_ok m t → KmOk m' l' → m' = set_coordinator m (coordinator m') →
  coord_frame (coordinator m) (coordinator m') → tables (coordinator m') t' → unitary_ok m' t'.
Proof.
  intros [_ U2 U3 U4 U5 _] HK E F HT. split; [by exists l'|by rewrite E|by rewrite E| |by eapply single_lookup_frame|done].
  unfold km_pool in *. by rewrite (pf_hbs _ _ (cf_pool _ _ F)).
Qed.

Lemma each_lookup (Q : Manager → Manager → Prop) c c' g' :
  each Q c c' → g' ∈ single_type_managers c' → ∃ g, g ∈ single_type_managers c ∧ Q g g'.
Proof.
  intros HE (j & Hj)%list_elem_of_lookup. destruct (Forall2_lookup_r _ _ _ _ _ HE Hj) as (g & Hg & HQ).
  exists g. split; [by eapply list_elem_of_lookup_2|done].
Qed.

Lemma each_frame (Q : Manager → Manager → Prop) c c' :
  coord_frame c c' → each Q c c' → each (λ g g', mgr_frame g g' ∧ Q g g') c c'.
Proof.
  intros [_ M _] HE. apply Forall2_same_length_lookup. split; [eapply Forall2_length; exact HE|].
  intros j g1 g2 H1 H2. split; [exact (Forall2_lookup_lr _ _ _ _ _ _ M H1 H2)|exact (Forall2_lookup_lr _ _ _ _ _ _ HE H1 H2)].
Qed.

(** What an operation on [id] does to the tables. *)
Lemma tables_others c c' t t' id :
  coord_frame c c' → each (keeps_others id) c c' → tables c t → (∀ id', id' ≠ id → t' !! id' = t !! id') →
  (∀ g', g' ∈ single_type_managers c' →
     match t' !! id with
     | Some n => n ≤ zlen (blocks_of g' id) * block_size g'
     | None => blocks_of g' id = [] ∧ has_cached g' id = false
     end) → tables c' t'.
Proof.
  intros F HO HT Ht Hid g' id' Hg'. destruct (decide (id' = id)) as [->|Hne]; [by apply Hid|].
  destruct (each_lookup _ _ _ _ (each_frame _ _ _ F HO) Hg') as (g & Hg & FM & Hk). destruct (Hk id' Hne) as [E1 E2].
  pose proof (HT g id' Hg) as HTg. rewrite Ht // E1 (mf_size _ _ FM) /has_cached E2. done.
Qed.

Lemma tables_each c c' t (Q : Manager → Manager → Prop) :
  each Q c c' →
  (∀ g g', Q g g' → block_size g' = block_size g ∧ (∀ id, blocks_of g' id = blocks_of g id) ∧
     num_cached_block g' = num_cached_block g) → tables c t → tables c' t.
Proof.
  intros HE HQ HT g' id Hg'. destruct (each_lookup _ _ _ _ HE Hg') as (g & Hg & HQg).
  destruct (HQ _ _ HQg) as (E1 & E2 & E3). pose proof (HT g id Hg). by rewrite E1 E2 /has_cached E3.
Qed.

(** ** Allocation *)

Lemma unitary_allocate m t r new local hits look fit :
  unitary_ok m t → unitary_hashed r → num_tokens r ≤ L → 0 < new → 0 ≤ look →
  0 ≤ num_computed_tokens r + local ≤ L →
  (let hits := default EmptyKVCacheBlocks hits in
   ready (coordinator m) (request_id r) (blocks_lists m hits) (computed_phase_runs hits 0) (num_computed_tokens r + local) 0) →
  ∃ m' o, allocate_slots m r new local hits look 0 false 0 fit = Ok (m', o) ∧
    match o with
    | None => unitary_ok m' t
    | Some _ => unitary_ok m' (<[request_id r := Z.min (num_computed_tokens r + local + new + look) L]> t)
    end.
Proof.
  intros U Hh HL Hn Hlook Hl HR. pose proof U as [[l HK] U2 U3 U4 U5 U6].
  destruct (allocate_slots_spec m l r new local hits look 0 false 0 fit HK)
    as (m' & l' & o & E & HK' & [S1 S2 S3] & Ho).
  { split; rewrite ?U2 ?U3 ?U4; try lia; [|exact HR]. intros Hc. by apply Hh. }
  exists m', o. split; [done|]. destruct o as [bs|].
  - destruct Ho as [Hcov _]. unfold slots_needed in Hcov. rewrite U2 Z.add_0_r in Hcov.
    eapply unitary_step; try done. eapply tables_others; [exact S2|exact S3|exact U6| |].
    + intros id' Hne. by rewrite lookup_insert_ne.
    + intros g' Hg'. rewrite lookup_insert_eq. by apply Hcov.
  - eapply unitary_step; try done. eapply tables_others; [exact S2|exact S3|exact U6|done|].
    intros g' Hg'. destruct (each_lookup _ _ _ _ (each_frame _ _ _ S2 Ho) Hg') as (g & Hg & FM & Ez & En).
    pose proof (U6 g (request_id r) Hg) as HT. rewrite (mf_size _ _ FM) Ez /has_cached En.
    destruct (t !! request_id r); [done|]. destruct HT as [Hb Hc]. split; [|done].
    rewrite Hb in Ez. by destruct (blocks_of g' (request_id r)).
Qed.

Lemma computed_ready m t r : unitary_ok m t → 0 ≤ num_computed_tokens r ≤ tok t (request_id r) →
  ready (coordinator m) (request_id r) (blocks_lists m EmptyKVCacheBlocks) false (num_computed_tokens r + 0) 0.
Proof.
  intros [[l HK] U2 U3 U4 U5 U6] Hc. cbn. rewrite Z.add_0_r. split_and!; [|done|lia|].
  - by rewrite (ko_groups _ _ HK).
  - intros g Hg. pose proof (U6 g (request_id r) Hg) as HT. unfold tok in Hc.
    destruct (t !! request_id r) as [n|]; cbn in Hc; [lia|]. destruct HT as [-> _]. unfold zlen; cbn. lia.
Qed.

(** ** Lookup *)

(** The hits that remain after the skipped blocks are distinct cached blocks. *)
Lemma hits_kept p l hs spec (bs : Z) (k s : nat) (bls : list block_ref) :
  PoolInv p l → NoDup hs → 0 < bs → length bls = k →
  (∀ j b, bls !! j = Some b → get_num_skipped_tokens spec (Z.of_nat k * bs) < (Z.of_nat j + 1) * bs → carries p hs 0 j b) →
  get_num_skipped_tokens spec (Z.of_nat k * bs) / bs ≤ Z.of_nat s →
  hits_ok p (drop s bls).
Proof.
  intros I Hnd Hbs Hk Hcar Hs. pose proof (pi_cache _ _ I) as HC.
  assert (∀ j b, drop s bls !! j = Some b → carries p hs 0 (s + j) b) as Hd.
  { intros j b. rewrite lookup_drop. intros Hj. apply Hcar; [done|].
    pose proof (Z.mul_succ_div_gt (get_num_skipped_tokens spec (Z.of_nat k * bs)) bs Hbs). nia. }
  assert (∀ b, b ∈ drop s bls → pool_ref p b ∧ is_Some (hsh p b) ∧ b ≠ null_block p) as Hin.
  { intros b (j & Hj)%list_elem_of_lookup. destruct (Hd j b Hj) as (Hp & h & _ & Hh). split_and!; [done|by eexists|].
    intros ->. by rewrite (ci_null _ HC) in Hh. }
  split.
  - apply Forall_forall. intros b Hb. by apply Hin.
  - rewrite filter_all; [|intros b Hb; by apply Hin]. apply NoDup_alt. intros i j b Hi Hj.
    destruct (Hd i b Hi) as (_ & h1 & H1 & E1), (Hd j b Hj) as (_ & h2 & H2 & E2).
    assert (h1 = h2) as ->. { rewrite E1 in E2. injection E2 as E2. unfold block_key in E2. by apply app_inv_tail in E2. }
    pose proof (proj1 (NoDup_alt hs) Hnd _ _ _ H1 H2). lia.
  - exists 0%nat, (drop s bls). split; [done|]. intros Hb. by apply Hin in Hb as (_ & _ & ?).
  - intros b Hb _. by apply Hin.
Qed.

Lemma plain_hashes_ok (hs : list bytes) : hashes_ok (PlainHashes hs).
Proof.
  intros i Hi. cbn in *. destruct (lookup_lt_is_Some_2 hs (Z.to_nat i)) as [h Hh]; [unfold zlen in Hi; lia|].
  exists h. split; [apply py_nth_ok; [lia|done]|done].
Qed.

Lemma no_hits m t r : unitary_ok m t → t !! request_id r = None → 0 < num_tokens r → unitary_hits m r EmptyKVCacheBlocks 0.
Proof.
  intros [[l HK] U2 U3 U4 U5 U6] Ht Hn. split; [lia|]. cbn. split_and!; [by rewrite (ko_groups _ _ HK)|done|done|].
  intros g Hg. pose proof (zlen_nonneg (blocks_of g (request_id r))).
  pose proof (ci_local _ _ _ (co_inv _ _ (ko_coord _ _ HK))) as HL. rewrite Forall_forall in HL.
  pose proof (ml_size _ _ (HL g Hg)). nia.
Qed.

Lemma create_no_blocks {A} (l : list A) : create_kv_cache_blocks ((λ _, []) <$> l) = EmptyKVCacheBlocks.
Proof. unfold create_kv_cache_blocks. assert (existsb (λ bs, negb (is_nil bs)) ((λ _ : A, []) <$> l) = false) as ->; [|done]. by induction l. Qed.

Lemma unitary_lookup m t r :
  unitary_ok m t → unitary_hashed r → 0 < num_tokens r ≤ L → t !! request_id r = None →
  ∃ hits n, get_computed_blocks m r = Some (Ok (hits, n)) ∧ 0 ≤ n < num_tokens r ∧ unitary_hits m r hits n.
Proof.
  intros U Hh Hn Ht. pose proof (no_hits m t r U Ht ltac:(lia)) as H0. pose proof U as [[l HK] U2 U3 U4 U5 U6].
  unfold get_computed_blocks. destruct (km_enable_caching m) eqn:Ec; cbn [negb orb];
    [|by exists EmptyKVCacheBlocks, 0; split_and!; [|lia..|]].
  destruct (skip_reading_prefix_cache r); [by exists EmptyKVCacheBlocks, 0; split_and!; [|lia..|]|].
  unfold coord_find_longest_cache_hit. unfold single_lookup in U5.
  destruct (kind (coordinator m)) as [|spec bs dcp pcp|]; [| |done].
  { cbn. rewrite create_no_blocks. exists EmptyKVCacheBlocks, 0. by split_and!; [|lia..|]. }
  destruct U5 as (Eb & Hbs & Ehb & Hsup & g & Hg & Hspec & Hsize).
  destruct Hh as [Hz Hnd]; [congruence|]. pose proof (co_inv _ _ (ko_coord _ _ HK)) as [I HL _].
  destruct (find_longest_cache_hit_ok (km_pool m) (PlainHashes (block_hashes r)) (num_tokens r - 1) [0] spec
    (bool_decide (0 ∈ eagle_group_ids (coordinator m))) bs dcp pcp) as (computed & Ef & k & Hk & _ & HC);
    try done; try lia.
  { apply I. } { by repeat constructor. } { apply plain_hashes_ok. }
  { cbn. rewrite Ehb Hz Eb. apply Z.div_le_mono; lia. }
  unfold km_pool in Ef. cbn [mbind option_bind]. rewrite Ef. cbn [mbind res_bind].
  inversion HC as [|g0 bls gs0 rest [Hlen Hcar] HC' E1 E2]; subst gs0 computed g0. inversion HC'; subst rest. clear HC HC'.
  rewrite (py_nth_ok _ 0 bls) //. cbn [mbind res_bind]. rewrite Ehb in Hk Hcar.
  apply max_hit_le in Hk; [|done|lia].
  exists (create_kv_cache_blocks [bls]), (zlen bls * bs). split; [done|].
  assert (0 ≤ zlen bls * bs < num_tokens r) as Hb by (unfold zlen; rewrite Hlen; nia). split; [done|].
  destruct bls as [|b bls]; [done|]. split; [done|]. unfold create_kv_cache_blocks. cbn [existsb is_nil negb orb].
  cbn [blocks_lists computed_phase_runs negb orb ready]. split; [|done]. rewrite Hg. constructor; [|done].
  pose proof (U6 g (request_id r)) as HT. rewrite Ht Hg in HT. destruct HT as [HT1 HT2]; [left|].
  assert (zlen (b :: bls) = Z.of_nat k) as Hzk by (unfold zlen; by rewrite Hlen).
  assert (g ∈ single_type_managers (coordinator m)) as Hgin by (rewrite Hg; left).
  rewrite Forall_forall in HL. pose proof (HL g Hgin) as Lg.
  split; try done; try lia.
  - rewrite Z.add_0_r Hzk. eapply (hits_kept _ l (block_hashes r) spec bs k); try done.
    + intros j b' Hj Hlt. by apply Hcar.
    + rewrite /skip_blocks Hspec Hsize. lia.
  - rewrite (ml_caching _ _ Lg). pose proof (ko_caching _ _ HK) as E. unfold km_pool in E. congruence.
Qed.

(** ** The other operations *)

Lemma unitary_free m t r :
  unitary_ok m t → ∃ m', km_free m r = Ok m' ∧ unitary_ok m' (delete (request_id r) t).
Proof.
  intros U. pose proof U as [[l HK] U2 U3 U4 U5 U6]. unfold km_free.
  destruct (coord_free_spec (coordinator m) l (request_id r) (ko_coord _ _ HK)) as (c' & l' & -> & C' & F & _ & _ & HE).
  cbn [mbind res_bind]. eexists. split; [reflexivity|].
  eapply (unitary_step m t _ l'); [done|by eapply KmOk_set|done|done|]. cbn.
  eapply (tables_others _ _ t _ (request_id r)); [exact F| |exact U6| |].
  - eapply each_impl; [|exact HE]. by intros ?? (_ & _ & ?).
  - intros id' Hne. by rewrite lookup_delete_ne.
  - intros g' Hg'. rewrite lookup_delete_eq. by destruct (each_lookup _ _ _ _ HE Hg') as (g & _ & ? & ? & _).
Qed.

Lemma unitary_cache m t r n :
  unitary_ok m t → unitary_hashed r → 0 ≤ n ≤ num_tokens r → is_Some (t !! request_id r) → n ≤ tok t (request_id r) →
  ∃ m', km_cache_blocks m r n = Ok m' ∧ unitary_ok m' t.
Proof.
  intros U Hh Hn [v Hv] Htok. pose proof U as [[l HK] U2 U3 U4 U5 U6]. unfold km_cache_blocks.
  destruct (km_enable_caching m) eqn:Ec; [|by exists m].
  assert (enable_caching (block_pool (coordinator m)) = true) as Ecp by (rewrite -Ec (ko_caching _ _ HK); done).
  destruct (coord_cache_blocks_spec (coordinator m) l r n (ko_coord _ _ HK)) as (c' & l' & -> & C' & F & _ & _ & HE);
    [done|lia| |].
  { apply (cacheable _ l r n); [apply HK|done| | |lia|lia].
    - unfold km_pool in U4. rewrite U4. apply Hh. congruence.
    - intros g Hg. pose proof (U6 g (request_id r) Hg) as HT. unfold tok in Htok. rewrite Hv in HT Htok. cbn in Htok. lia. }
  cbn [mbind res_bind]. eexists. split; [reflexivity|].
  eapply (unitary_step m t _ l'); [done|by eapply KmOk_set|done|done|]. cbn.
  eapply (tables_others _ _ t t (request_id r)); [exact F| |exact U6|done|].
  - eapply each_impl; [|exact HE]. by intros ?? (_ & ?).
  - intros g' Hg'. rewrite Hv.
    destruct (each_lookup _ _ _ _ (each_frame _ _ _ F HE) Hg') as (g & Hg & FM & -> & _). rewrite (mf_size _ _ FM).
    pose proof (U6 g (request_id r) Hg) as HT. by rewrite Hv in HT.
Qed.

Lemma unitary_bookkeeping m t ms' :
  unitary_ok m t →
  Forall2 (λ g g', mgr_frame g g' ∧ req_to_blocks g' = req_to_blocks g ∧ num_cached_block g' = num_cached_block g)
    (single_type_managers (coordinator m)) ms' →
  unitary_ok (set_coordinator m (set_managers (coordinator m) (km_pool m) ms')) t.
Proof.
  intros U HF. pose proof U as [[l HK] U2 U3 U4 U5 U6].
  eapply (unitary_step m t _ l); [done|by apply KmOk_bookkeeping|done| |].
  - split; cbn; [done| |done]. eapply Forall2_impl; [exact HF|]. by intros ?? [].
  - eapply tables_each; [exact HF| |exact U6]. intros g g' (FM & E1 & E2). split_and!; [apply FM| |done].
    intros id. by rewrite /blocks_of E1.
Qed.

Lemma unitary_pool m t p' :
  unitary_ok m t → (∀ l, KmOk m l → PoolInv (km_pool m) l → PoolInv p' l) → pool_frame (km_pool m) p' →
  (∀ b, pool_ref (km_pool m) b → refs p' b = refs (km_pool m) b ∧ (hsh (km_pool m) b = None → hsh p' b = None)) →
  unitary_ok (set_pool m p') t.
Proof.
  intros U HI F Hb. pose proof U as [[l HK] U2 U3 U4 U5 U6].
  pose proof (ci_pool _ _ _ (co_inv _ _ (ko_coord _ _ HK))) as I.
  eapply (unitary_step m t _ l); [done|apply KmOk_pool; [done|by apply HI|done|done]|done| |done].
  split; cbn; [done|reflexivity|done].
Qed.

Lemma unitary_new_step m t : unitary_ok m t → unitary_ok (km_new_step_starts m) t.
Proof.
  intros U. apply unitary_bookkeeping; [done|]. apply Forall2_fmap_r, Forall_Forall2_diag, Forall_forall. intros g _.
  unfold new_step_starts. cbn. destruct (kv_cache_spec g); split_and!; try done; by split.
Qed.

Lemma unitary_take_ids m t : unitary_ok m t → unitary_ok (km_take_new_block_ids m).1 t.
Proof.
  intros U. unfold km_take_new_block_ids. rewrite take_ids_managers. apply unitary_bookkeeping; [done|].
  apply Forall2_fmap_r, Forall_Forall2_diag, Forall_forall. intros g _. by split_and!.
Qed.

Lemma unitary_take_events m t : unitary_ok m t → unitary_ok (km_take_events m).1 t.
Proof.
  intros U. unfold km_take_events, take_events. destruct (negb _); cbn; apply unitary_pool; try done.
  intros l _. apply PoolInv_set_events.
Qed.

(** With no tables all blocks but the null block are free. *)
Lemma all_free m l : KmOk m l → tables (coordinator m) ∅ → zlen l = num_gpu_blocks (km_pool m) - 1.
Proof.
  intros HK HT. pose proof (co_inv _ _ (ko_coord _ _ HK)) as [I HL HR].
  pose proof (free_le_pool _ _ I) as Hle. pose proof (pi_static _ _ I) as [S1 S2 S3 _]. unfold km_pool in *.
  set (n := length (fq_blocks (free_block_queue (block_pool (coordinator m))))) in *.
  assert (length (Blk <$> seq 1 (n - 1)) ≤ length l)%nat as Hl.
  { apply submseteq_length, NoDup_submseteq; [apply NoDup_fmap_2; [by intros ?? [=]|apply NoDup_seq]|].
    intros b (i & -> & Hi)%list_elem_of_fmap. apply elem_of_seq in Hi.
    assert (pool_ref (block_pool (coordinator m)) (Blk i)) as Hp by (exists i; split; [done|]; fold n; lia).
    assert (Blk i ≠ null_block (block_pool (coordinator m))) as Hn by (rewrite S3; intros [=]; lia).
    apply (pi_refs _ _ I _ Hp Hn). rewrite (HR _ Hp Hn). apply total_held_zero. intros g id Hg.
    destruct (HT g id Hg) as [-> _]. apply not_elem_of_nil. }
  rewrite length_fmap length_seq in Hl. unfold zlen in *. lia.
Qed.

Lemma unitary_reset m t :
  unitary_ok m t → unitary_ok (km_reset_prefix_cache m).1 t ∧ (t = ∅ → (km_reset_prefix_cache m).2 = true).
Proof.
  intros U. pose proof U as [[l HK] U2 U3 U4 U5 U6]. pose proof (ci_pool _ _ _ (co_inv _ _ (ko_coord _ _ HK))) as I.
  unfold km_reset_prefix_cache. pose proof (reset_prefix_cache_spec _ _ I) as Hr. unfold km_pool.
  destruct (reset_prefix_cache _) as [p' ok] eqn:Ep. destruct Hr as (I' & F & HR & Hok & HH). cbn [fst snd]. split.
  - eapply (unitary_step m t _ l); [done|apply KmOk_pool; [done|exact I'|exact F|]|done| |done].
    + intros b Hb. split; [apply HR|]. intros Hn. destruct ok; [by apply HH|by subst p'].
    + split; cbn; [exact F|reflexivity|done].
  - intros ->. rewrite Hok. apply bool_decide_true. exact (all_free m l HK U6).
Qed.

Lemma unitary_common m t id :
  unitary_ok m t → ∃ m' ns, km_get_num_common_prefix_blocks m id = Ok (m', ns) ∧ unitary_ok m' t.
Proof.
  intros U. pose proof U as [[l HK] U2 U3 U4 U5 U6]. unfold km_get_num_common_prefix_blocks, coord_get_num_common_prefix_blocks.
  unfold single_lookup in U5. destruct (kind (coordinator m)) as [|spec bs dcp pcp|] eqn:Ek; [| |done].
  { eexists _, _. split; [reflexivity|]. by destruct m. }
  destruct U5 as (_ & _ & _ & _ & g & Hg & _ & _). rewrite Hg. cbn [each_manager].
  destruct (get_num_common_prefix_blocks (block_pool (coordinator m)) g id) as [g' n] eqn:E. cbn [mbind res_bind].
  assert (g' = g ∨ g' = (access g id).1) as Hg'.
  { revert E. unfold get_num_common_prefix_blocks. destruct (is_full_attention (kv_cache_spec g)); [|intros [= -> _]; by left].
    destruct (access g id) as [g1 bls]. intros [= <- _]. by right. }
  eexists _, _. split; [reflexivity|]. destruct (access_spec g id) as (FM & En & _ & Eh & Eb).
  assert (mgr_frame g g' ∧ num_cached_block g' = num_cached_block g ∧ (∀ b, held g' b = held g b) ∧
    (∀ id', blocks_of g' id' = blocks_of g id')) as (FM' & En' & Eh' & Eb') by (destruct Hg' as [-> | ->]; done).
  destruct HK as [[[I HL HR] W] K2 K3]. rewrite Hg in HL HR W K3.
  eapply (unitary_step m t _ l); [done| |done| |].
  - split; cbn; [|done|done]. split; cbn.
    + split; [done| |].
      * apply Forall_singleton. rewrite Forall_singleton in HL. destruct Hg' as [-> | ->]; [done|by apply MgrLocal_access].
      * intros b Hb Hn. rewrite (HR b Hb Hn) !total_held_cons. by rewrite Eh'.
    + apply Forall_singleton. rewrite Forall_singleton in W. by eapply mgr_wf_frame.
  - split; cbn; [done|rewrite Hg; constructor; [done|constructor]|done].
  - intros g2 id' Hg2. cbn in Hg2. apply list_elem_of_singleton in Hg2 as ->.
    pose proof (U6 g id') as HT. rewrite Hg in HT. rewrite (mf_size _ _ FM') Eb' /has_cached En'. apply HT. left.
Qed.

Lemma unitary_estimate m t r : unitary_ok m t → 0 ≤ num_computed_tokens r ≤ tok t (request_id r) →
  (∃ n, estimate_future_footprint m r = Ok (m, n)) ∧
  ∀ len, ∃ n, estimate_future_footprint_for_output_len m r len = Ok (m, n).
Proof.
  intros U Hc. destruct (uo_inv _ _ U) as [l HK]. pose proof (computed_ready m t r U Hc) as HR.
  assert (∀ n total main, ∃ k, km_num_blocks m (request_id r) n (blocks_lists m EmptyKVCacheBlocks) 0 total main true = Ok (m, k)) as Hn.
  { intros n total main. destruct (km_num_blocks_spec m l (request_id r) n _ _ _ _ 0 total main true HK HR) as (k & E & _). by exists k. }
  split; [|intros len; apply Hn]. unfold estimate_future_footprint. case_bool_decide; [by eexists|]. apply Hn.
Qed.

#[export] Instance unitary_contract : KVContract L unitary_hashed.
Proof.
  refine {| kv_ok := unitary_ok; kv_hits := unitary_hits |}.
  - intros m t r new hits look fit U Hh HL Hd Hc Ht Hn Hl.
    destruct (unitary_allocate m t r new 0 hits look fit) as (m' & o & E & Ho); try done; [lia| |].
    { cbn. rewrite Hd. eapply computed_ready; [done|lia]. }
    exists m', o. by rewrite Z.add_0_r in Ho.
  - apply unitary_lookup.
  - intros m t r hits n new look fit U Hh HL Ht H0 [Hn HR] Hnew Hl.
    destruct (unitary_allocate m t r new n (Some hits) look fit) as (m' & o & E & Ho); try done; [lia|by rewrite H0|].
    exists m', o. by rewrite H0 in Ho.
  - apply unitary_free.
  - apply unitary_cache.
  - apply unitary_new_step.
  - apply unitary_common.
  - apply unitary_take_ids.
  - apply unitary_take_events.
  - apply unitary_estimate.
  - apply unitary_reset.
  - intros r r' H [= Eh Et _ _ _ _]. unfold unitary_hashed, num_tokens in *. by rewrite Eh Et.
Defined.

(** ** Construction *)

(** The configurations for which hits are looked up in one group, or not at all. *)
Definition single_config (cfg : KVCacheConfig) (use_eagle : bool) (dcp pcp : Z) : Prop :=
  caching = true → ∃ g : KVCacheGroupSpec, kv_cache_groups cfg = [g] ∧
    hit_supported (group_spec g) (bool_decide (0 ∈ init_eagle_group_ids [g] use_eagle)) hbs dcp pcp.

Lemma parallel_size (b dcp pcp : Z) :
  0 < dcp → 0 < pcp →
  (let bs := if bool_decide (1 < dcp) then b * dcp else b in
   if bool_decide (1 < pcp) then bs * pcp else bs) = b * (dcp * pcp) ∧
  (if bool_decide (1 < dcp * pcp) then b * (dcp * pcp) else b) = b * (dcp * pcp).
Proof.
  intros Hd Hp. split.
  - goal_bool as H1; goal_bool as H2; try (assert (dcp = 1) as -> by lia); try (assert (pcp = 1) as -> by lia); ring.
  - goal_bool as H; [done|]. assert (dcp * pcp = 1) as -> by nia. lia.
Qed.

Lemma unitary_init cfg B eagle events dcp pcp :
  config_ok cfg caching dcp pcp hbs → single_config cfg eagle dcp pcp →
  ∃ m, KVCacheManager_init cfg L hbs B caching eagle events dcp pcp = Ok m ∧ unitary_ok m ∅.
Proof.
  intros HC HS. destruct (KVCacheManager_init_ok cfg L hbs B caching eagle events dcp pcp HC) as (m & l & E & HK).
  exists m. split; [done|]. pose proof HC as [Hn Hgs _ [Hd Hp] _ Hh]. revert E. unfold KVCacheManager_init, get_kv_cache_coordinator.
  destruct (BlockPool_init_spec (num_blocks cfg) caching hbs events Hn) as (p & -> & I & _ & Hc & Hhb & _). cbn [mbind res_bind].
  destruct (init_managers_ok p (default L B) L caching dcp pcp _ 0 Hgs) as (ms & -> & Hlen & Hms). cbn [mbind res_bind].
  destruct (init_kind_ok cfg caching (init_eagle_group_ids (kv_cache_groups cfg) eagle) dcp pcp hbs HC) as [k Ek].
  rewrite Ek. cbn [mbind res_bind]. intros [= <-]. split; [by exists l|done|done|done| |].
  - unfold single_config, single_lookup, init_kind in *. cbn. destruct caching; cbn in Ek; [|injection Ek as <-; done].
    destruct (HS eq_refl) as (g & Eg & Hsup). destruct (Hh eq_refl) as [Hh0 Hor]. rewrite Eg in Ek Hms Hlen.
    rewrite (bool_decide_true (1%nat = 1%nat)) // (py_nth_ok _ 0 g) // in Ek. cbn [mbind res_bind] in Ek.
    destruct (parallel_size (spec_block_size (group_spec g)) dcp pcp Hd Hp) as [Z1 Z2]. cbn zeta in Z1. rewrite Z1 in Ek.
    destruct (decide (hbs = spec_block_size (group_spec g) * (dcp * pcp))) as [Ehb|Hne]; last first.
    { rewrite bool_decide_false // in Ek. }
    rewrite bool_decide_true // in Ek. injection Ek as <-. rewrite -Ehb. unfold hit_block_size. rewrite Z2 -Ehb.
    rewrite Eg. split_and!; try done. destruct ms as [|mg [|]]; try done. exists mg.
    destruct (Hms 0%nat mg eq_refl) as (g' & Hg' & ->). injection Hg' as <-. split_and!; [done|done|]. cbn. by rewrite Z2 -Ehb.
  - intros g id (j & Hj)%list_elem_of_lookup. cbn in Hj. rewrite lookup_empty.
    by destruct (Hms j g Hj) as (g' & _ & ->).
Qed.
End Unitary.

(** ** Requests hashed by [get_request_block_hasher] *)

Section Hasher.
Context {env : KVEnv} (L hbs : Z) (caching : bool).
Context (hash_function : bytes * list Z * option (list extra_key) → bytes) (NONE_HASH : bytes) (sha256 : bytes → bytes).
Context (hash_inj : ∀ x y, hash_function x = hash_function y → x = y)
        (hash_not_none : ∀ x, hash_function x ≠ NONE_HASH) (hash_nonempty : ∀ x, hash_function x ≠ []).
Context (Hbs : 0 < hbs).
Implicit Types r : Request.

(** A text request whose hashes are those of its full blocks. *)
Definition text_hashed r : Prop :=
  mm_features r = [] ∧ (caching = true → hashed hash_function NONE_HASH sha256 hbs r).

(** The hasher the engine installs when prefixes are cached. *)
Definition engine_hasher : option (Request → res (list bytes)) :=
  if caching then Some (get_request_block_hasher hash_function NONE_HASH sha256 hbs) else None.

Lemma chain_NoDup bs : NoDup (chain_hashes hash_function NONE_HASH None bs).
Proof.
  apply NoDup_alt. intros i j h Hi Hj.
  assert (∀ i, chain_hashes hash_function NONE_HASH None bs !! i = Some h →
    last (chain_hashes hash_function NONE_HASH None (take (S i) bs)) = Some h ∧ length (take (S i) bs) = S i) as Hlast.
  { intros n Hn. pose proof (lookup_lt_Some _ _ _ Hn) as Hlt. rewrite length_chain_hashes in Hlt.
    assert (length (take (S n) bs) = S n) as Hl by (rewrite length_take; lia). split; [|done].
    rewrite -(take_drop (S n) bs) chain_hashes_app in Hn. rewrite lookup_app_l in Hn; [|rewrite length_chain_hashes; lia].
    rewrite last_lookup length_chain_hashes Hl. done. }
  destruct (Hlast i Hi) as [Li Ni], (Hlast j Hj) as [Lj Nj].
  pose proof (chain_hash_inj _ _ hash_inj hash_not_none hash_nonempty _ _ _ Li Lj) as E. rewrite E in Ni. lia.
Qed.

Lemma text_hashed_unitary r : text_hashed r → unitary_hashed hbs caching r.
Proof.
  intros [Hmm Hh] Hc. specialize (Hh Hc). unfold hashed in Hh. rewrite Hh. split; [|apply chain_NoDup].
  unfold zlen. rewrite length_chain_hashes -(length_fmap fst) block_list_tokens; [|lia].
  rewrite length_fmap length_seq Z2Nat.id; [done|]. apply Z.div_pos; [apply zlen_nonneg|done].
Qed.

Lemma text_hashed_content r r' : text_hashed r → content r' = content r → text_hashed r'.
Proof.
  intros [Hmm Hh] [= E1 E2 E3 E4 E5 E6]. split; [by rewrite E3|]. intros Hc. specialize (Hh Hc). unfold hashed in *.
  rewrite E1 Hh. unfold num_tokens. rewrite E2. f_equal. symmetry. apply block_list_extends; [done|done|done| |].
  - split_and!; [done..|]. exists []. by rewrite app_nil_r.
  - rewrite Z2Nat.id; [|apply Z.div_pos; [apply zlen_nonneg|done]]. pose proof (Z.mul_div_le (zlen (all_token_ids r)) hbs Hbs).
    unfold num_tokens. lia.
Qed.

Definition text_contract : KVContract L text_hashed :=
  contract_weaken (unitary_contract L hbs caching) text_hashed_unitary text_hashed_content.

Lemma append_output_token_id_list bh now r t : append_output_token_id bh now r t = append_output_token_ids bh now r [t].
Proof. done. Qed.

Lemma text_hasher_laws : HasherLaws text_hashed engine_hasher.
Proof.
  split. intros now r t [Hmm Hh] _. unfold engine_hasher. rewrite append_output_token_id_list.
  unfold text_hashed. destruct caching.
  - destruct (hashed_append hash_function NONE_HASH sha256 hbs now r [t] Hbs Hmm (Hh eq_refl)) as (r' & E & Hh' & _).
    exists r'. split; [done|]. split; [|done]. revert E. unfold append_output_token_ids, update_block_hashes.
    destruct (get_request_block_hasher _ _ _ _ _); [|done]. intros [= <-]. unfold update_prob_short. cbn. by repeat case_match.
  - eexists. split; [reflexivity|]. split; [|done]. unfold update_prob_short. by repeat case_match.
Qed.
End Hasher.
