(* ===== verification/SchedFinish.v ===== *)
(** * Requests enter and leave

    [add_request], [finish_requests] and [_free_request].  A request that is finished
    leaves the running list and the queues first and the store and the KV cache last;
    [Dropped s run t w k rest] says that the invariant holds once the requests [rest]
    are gone, with [run] as the running list. *)

From Corelib Require Import SpecFloat.
From S2P Require Import Prelude PyFloat Request HeapQ RequestQueue FreeQueue BlockHash BlockPool KVCacheSpec SingleType CacheHit Coordinator KVCacheManager KVContract SchedUtils OrderedDict EncoderCache EncoderSched SchedState Scheduler SchedQueues SchedInv SchedStep.

(** ** Lists and maps without some keys *)

Definition keep {A} (ids : list string) (m : gmap string A) : gmap string A := filter (λ kv, kv.1 ∉ ids) m.

Lemma lookup_keep {A} ids (m : gmap string A) id :
  keep ids m !! id = if decide (id ∈ ids) then None else m !! id.
Proof.
  apply option_eq. intros x. unfold keep. rewrite map_lookup_filter_Some. cbn. case_decide; naive_solver.
Qed.

Lemma keep_nil {A} (m : gmap string A) : keep [] m = m.
Proof. apply map_eq. intros id. rewrite lookup_keep. case_decide as Hin; [by apply not_elem_of_nil in Hin|done]. Qed.

Lemma lookup_kept {A} ids (m : gmap string A) id : id ∉ ids → keep ids m !! id = m !! id.
Proof. intros Hni. rewrite lookup_keep. by case_decide. Qed.

Lemma keep_delete {A} ids id (m : gmap string A) : keep ids (delete id m) = keep (id :: ids) m.
Proof.
  apply map_eq. intros id'. rewrite !lookup_keep. destruct (decide (id' = id)) as [->|Hne].
  - rewrite lookup_delete_eq. assert (id ∈ id :: ids) by left. by repeat case_decide.
  - rewrite lookup_delete_ne //. repeat case_decide; set_solver.
Qed.

Section Finish.
Context {env : KVEnv} {K : Type} {pl : Plugins K} (cfg : SchedulerConfig).
Context {hashed : Request → Prop} `{KV : !KVContract (max_model_len cfg) hashed} `{PL : !PluginLaws cfg}.
Context (set_order : list Z → list Z) (Hord : ∀ l, set_order l ≡ₚ l).
Implicit Types (s : Scheduler K) (r : Request) (t : gmap string Z) (w k run rest : list string) (id : string).

Record Dropped s run t w k rest : Prop := {
  dr_kv : kv_ok (kv_cache_manager s) t;
  dr_inv : ∀ m, kv_ok m (keep rest t) →
    SchedInv cfg (set_running (set_sc_requests (set_kv_cache_manager s m) (keep rest (sc_requests s))) run)
      (keep rest t) w k []
}.

Lemma Dropped_nil s run t w k : Dropped s run t w k [] → SchedInv cfg (set_running s run) t w k [].
Proof.
  intros [H1 H2]. rewrite !keep_nil in H2. specialize (H2 _ H1). by destruct s.
Qed.

(** Taking requests out of the lists. *)
Lemma Dropped_intro s run t w k rest q1 q2 :
  SchedInv cfg (set_running s run) t w k [] →
  holds (policy cfg) s q1 (filter (λ x, x ∉ rest) w) → holds (policy cfg) s q2 (filter (λ x, x ∉ rest) k) →
  Dropped (set_skipped_waiting (set_waiting s q1) q2) (filter (λ x, x ∉ rest) run) t
    (filter (λ x, x ∉ rest) w) (filter (λ x, x ∉ rest) k) rest.
Proof.
  intros [I1 I2 I3 I4 I5 I6 I7 I8 I9 I10] H1 H2. cbn in *. split; [done|]. intros m Hm.
  assert (∀ id r, keep rest (sc_requests s) !! id = Some r → (id ∉ rest) ∧ sc_requests s !! id = Some r) as Hk.
  { intros id r. rewrite lookup_keep. case_decide; naive_solver. }
  assert (∀ q l, holds (policy cfg) s q (filter (λ x, x ∉ rest) l) →
    holds (policy cfg) (set_running (set_sc_requests (set_kv_cache_manager
      (set_skipped_waiting (set_waiting s q1) q2) m) (keep rest (sc_requests s))) (filter (λ x, x ∉ rest) run)) q
      (filter (λ x, x ∉ rest) l)) as Hh.
  { intros q l. apply holds_ext. intros id [Hid _]%list_elem_of_filter. unfold obj. cbn. by rewrite lookup_kept. }
  split; cbn; auto.
  - intros id r [Hni Hr]%Hk. destruct (I2 id r Hr). split; try done. unfold tok in *. by rewrite lookup_kept.
  - rewrite app_nil_r -!filter_app. rewrite app_nil_r in I5. by apply NoDup_filter.
  - intros id. rewrite app_nil_r -!filter_app list_elem_of_filter. rewrite app_nil_r in I6. rewrite -I6 lookup_keep.
    case_decide; split; [by intros []|by intros []|done|by intros []].
  - intros id r [Hni Hr]%Hk [_ Hin]%list_elem_of_filter. by eapply I7.
  - intros id r [Hni Hr]%Hk Hnin. destruct (I8 id r Hr) as [Hs Ht].
    { intros Hin. apply Hnin. by apply list_elem_of_filter. }
    split; [done|]. intros H0. rewrite lookup_kept //. by apply Ht.
  - intros id. rewrite !lookup_keep. case_decide; [done|apply I9].
  - pose proof (length_filter (λ x, x ∉ rest) run). unfold zlen in *. lia.
Qed.

(** What else a request sees when another one leaves. *)
Definition hints s s' ids : Prop :=
  (∀ id, option_Forall2 hint_eq (keep ids (sc_requests s) !! id) (sc_requests s' !! id)) ∧
  running s' = running s ∧ waiting s' = waiting s ∧ skipped_waiting s' = skipped_waiting s ∧
  prev_step_scheduled_req_ids s' = prev_step_scheduled_req_ids s ∧ pause_state s' = pause_state s.

Lemma free_request_spec s run t w k rest id r r0 :
  Dropped s run t w k (id :: rest) → sc_requests s !! id = Some r0 → request_id r = id →
  is_finished r = true → mm_features r = [] →
  ∃ s', _free_request set_order (put_request s r) r = Ok s' ∧ Dropped s' run (delete id t) w k rest ∧ hints s s' [id].
Proof.
  intros [D1 D2] Hr0 Hid Hfin Hmm. unfold _free_request. rewrite Hfin. cbn [py_assert mbind res_bind].
  destruct (law_finished cfg (put_request s r) t r) as (s1 & -> & P); [done|]. cbn [mbind res_bind].
  rewrite (enc_free_text _ Hord) //. cbn [mbind res_bind].
  match goal with |- context [_free_blocks ?x r] => set (s2 := x) end.
  assert (sc_requests s2 = sc_requests s1 ∧ kv_cache_manager s2 = kv_cache_manager s1 ∧ running s2 = running s ∧
    waiting s2 = waiting s ∧ skipped_waiting s2 = skipped_waiting s ∧ streaming_queue s2 = streaming_queue s ∧
    prev_step_scheduled_req_ids s2 = prev_step_scheduled_req_ids s ∧ pause_state s2 = pause_state s ∧ plugins s2 = plugins s1)
    as (E1 & E2 & E3 & E4 & E5 & E6 & E7 & E8 & E9).
  { destruct (plugin_step_fields _ _ _ P) as (? & ? & ? & ? & ? & _ & ?). unfold s2. cbn.
    destruct (finished_req_ids_dict s1); cbn; split_and!; done. }
  clearbody s2. unfold _free_blocks. rewrite Hfin. cbn [py_assert mbind res_bind].
  destruct (law_free (kv_cache_manager s2) t r) as (m & -> & Hm); [rewrite E2; by apply P|]. cbn [mbind res_bind].
  assert (∃ r1, sc_requests s2 !! request_id r = Some r1) as [r1 ->].
  { destruct (plugin_step_lookup _ _ _ (request_id r) r P) as (r1 & Hr1 & _); [|exists r1; by rewrite E1].
    unfold put_request. cbn. apply lookup_insert_eq. }
  rewrite Hid in Hm |- *.
  assert (∀ ids id', option_Forall2 hint_eq (keep (id :: ids) (sc_requests s) !! id')
    (keep ids (delete id (sc_requests s2)) !! id')) as Hst.
  { intros ids id'. rewrite keep_delete !lookup_keep. case_decide as Hin; [constructor|]. rewrite E1.
    pose proof (ps_store _ _ _ P id') as Hs. unfold put_request in Hs. cbn in Hs. rewrite Hid lookup_insert_ne in Hs; [done|].
    intros ->. apply Hin. left. }
  eexists. split; [reflexivity|]. split.
  - split; cbn; [done|]. intros m' Hm'. rewrite keep_delete in Hm' |- *. specialize (D2 m' Hm').
    set (X := set_running _ run) in D2.
    eapply (SchedInv_core cfg (set_plugins (set_sc_requests X (keep rest (delete id (sc_requests s2)))) (plugins s2))).
    { unfold X. cbn. by split_and!. }
    eapply SchedInv_plugin; [|exact D2]. split; [by unfold X| |done]. intros id'. unfold X. cbn. apply Hst.
  - split; cbn; [|done]. intros id'. specialize (Hst [] id'). by rewrite keep_nil in Hst.
Qed.

(** ** [finish_requests] *)

Lemma hint_trans r1 r2 r3 : hint_eq r1 r2 → hint_eq r2 r3 → hint_eq r1 r3.
Proof. unfold hint_eq. intros E1 E2. rewrite {1}E2. rewrite {1}E1. done. Qed.

Lemma hint_opt_trans (a b c : option Request) :
  option_Forall2 hint_eq a b → option_Forall2 hint_eq b c → option_Forall2 hint_eq a c.
Proof. intros [x y H|]; inversion 1; constructor. by eapply hint_trans. Qed.

Lemma hints_trans s1 s2 s3 ids1 ids2 : hints s1 s2 ids1 → hints s2 s3 ids2 → hints s1 s3 (ids1 ++ ids2).
Proof.
  intros [H1 (A1 & A2 & A3 & A4 & A5)] [H2 (B1 & B2 & B3 & B4 & B5)]. split; [|split_and!; congruence]. intros id.
  specialize (H1 id). specialize (H2 id). rewrite lookup_keep in H2. rewrite lookup_keep in H1. rewrite lookup_keep.
  destruct (decide (id ∈ ids1 ++ ids2)) as [Hin|Hni].
  - apply elem_of_app in Hin as [Hin|Hin]; [rewrite decide_True // in H1|by rewrite decide_True // in H2].
    inversion H1 as [|E1 E2]. rewrite -E2 in H2. by case_decide.
  - rewrite elem_of_app in Hni. rewrite decide_False in H1; [|tauto]. rewrite decide_False in H2; [|tauto].
    by eapply hint_opt_trans.
Qed.

Lemma hints_refl s s' :
  sc_requests s' = sc_requests s → running s' = running s → waiting s' = waiting s →
  skipped_waiting s' = skipped_waiting s → prev_step_scheduled_req_ids s' = prev_step_scheduled_req_ids s →
  pause_state s' = pause_state s → hints s s' [].
Proof.
  intros E. split; [|by split_and!]. intros id. rewrite keep_nil E. destruct (sc_requests s !! id) as [r|]; constructor.
  by destruct r.
Qed.

Definition finish_one (x : RequestStatus) s id : res (Scheduler K) :=
  r ← get_request s id;
  let r := set_status r x in
  _free_request set_order (put_request s r) r.

Lemma free_all_spec x run w k valid : ∀ s t,
  is_finished_status x = true → Dropped s run t w k valid → NoDup valid →
  (∀ id, id ∈ valid → ∃ r, sc_requests s !! id = Some r ∧ request_id r = id ∧ mm_features r = []) →
  ∃ s' t', foldM (finish_one x) s valid = Ok s' ∧ Dropped s' run t' w k [] ∧ hints s s' valid.
Proof.
  induction valid as [|id valid IH]; intros s t Hx D Hnd Hv.
  { exists s, t. split_and!; [done|done|by apply hints_refl]. }
  apply NoDup_cons in Hnd as [Hni Hnd]. destruct (Hv id) as (r & Hr & Hid & Hmm); [left|].
  destruct (free_request_spec s run t w k valid id (set_status r x) r D Hr Hid Hx Hmm) as (s1 & E1 & D1 & H1).
  assert (finish_one x s id = Ok s1) as E by (unfold finish_one; by rewrite (get_request_ok _ _ _ Hr)).
  cbn [foldM]. rewrite E. cbn [mbind res_bind]. destruct (IH s1 (delete id t) Hx D1 Hnd) as (s2 & t2 & -> & D2 & H2).
  - intros id' Hid'. destruct (Hv id') as (r' & Hr' & F1 & F2); [by right|].
    pose proof (proj1 H1 id') as Hh. rewrite lookup_kept in Hh; last first.
    { intros ->%list_elem_of_singleton. done. }
    rewrite Hr' in Hh. inversion Hh as [a b Hab Ea Eb|]. exists b. by rewrite Hab.
  - exists s2, t2. split_and!; [done|done|]. exact (hints_trans _ _ _ [id] valid H1 H2).
Qed.

(** The first pass finds where the requests are. *)
Lemma collect_spec s t w k ids : ∀ n run wait valid,
  SchedInv cfg s t w k [] →
  ∃ n' run' wait', foldl collect_request (set_num_waiting_for_streaming_input s n, run, wait, valid) ids =
    (set_num_waiting_for_streaming_input s n', run', wait', valid ++ filter (λ id, is_Some (sc_requests s !! id)) ids) ∧
    (∀ id, id ∈ run' ↔ id ∈ run ∨ id ∈ ids ∧ id ∈ running s) ∧
    (∀ id, id ∈ wait' ↔ id ∈ wait ∨ id ∈ ids ∧ is_Some (sc_requests s !! id) ∧ id ∉ running s).
Proof.
  induction ids as [|id ids IH]; intros n run wait valid I; cbn [foldl].
  { exists n, run, wait. rewrite filter_nil app_nil_r. split; [done|]. set_solver. }
  rewrite filter_cons.
  match goal with |- context [foldl collect_request ?c ids] => set (acc := c) end.
  unfold collect_request in acc. cbn [sc_requests set_num_waiting_for_streaming_input] in acc.
  destruct (sc_requests s !! id) as [r|] eqn:Hr; unfold acc; clear acc; last first.
  { case_decide as Hs; [by destruct Hs|]. clear Hs. destruct (IH n run wait valid I) as (n' & run' & wait' & -> & H1 & H2).
    exists n', run', wait'. split; [done|]. setoid_rewrite H1. setoid_rewrite H2. setoid_rewrite elem_of_cons.
    assert (id ∉ running s) as Hnr by (intros Hin; destruct (inv_running _ _ _ _ _ _ _ I Hin) as (? & ? & _); congruence).
    split; intros id'; [naive_solver|]. split; [naive_solver|].
    intros [?|[[->|?] [Hs ?]]]; [by left| |by right]. rewrite Hr in Hs. by destruct Hs. }
  case_decide as Hs; [clear Hs|exfalso; apply Hs; by eexists].
  match goal with |- context [filter ?P ids] =>
    replace (valid ++ id :: filter P ids) with ((valid ++ [id]) ++ filter P ids) by (by rewrite -app_assoc) end.
  destruct (decide (id ∈ running s)) as [Hin|Hin].
  - destruct (si_running _ _ _ _ _ _ I _ _ Hr Hin) as [Hst _]. unfold is_finished. rewrite Hst. change (is_finished_status RUNNING) with false.
    rewrite (bool_decide_true (RUNNING = RUNNING)) //.
    destruct (IH n (id :: run) wait (valid ++ [id]) I) as (n' & run' & wait' & -> & H1 & H2).
    exists n', run', wait'. split; [done|]. setoid_rewrite H1. setoid_rewrite H2. setoid_rewrite elem_of_cons. naive_solver.
  - destruct (si_queued _ _ _ _ _ _ I _ _ Hr Hin) as [Hst _].
    assert (is_finished r = false ∧ status r ≠ RUNNING) as [-> Hne].
    { unfold is_finished. by destruct (status r). }
    rewrite (bool_decide_false (status r = RUNNING)) //.
    match goal with |- context [if bool_decide (status r = WAITING_FOR_STREAMING_REQ) then ?a else ?b] =>
      assert (∃ n1, (if bool_decide (status r = WAITING_FOR_STREAMING_REQ) then a else b) =
        set_num_waiting_for_streaming_input s n1) as [n1 ->] by (destruct (bool_decide _); by eexists) end.
    destruct (IH n1 run (wait ++ [id]) (valid ++ [id]) I) as (n' & run' & wait' & -> & H1 & H2).
    exists n', run', wait'. split; [done|]. setoid_rewrite H1. setoid_rewrite H2. setoid_rewrite elem_of_app.
    setoid_rewrite list_elem_of_singleton. setoid_rewrite elem_of_cons.
    assert (is_Some (sc_requests s !! id)) by (rewrite Hr; by eexists). naive_solver.
Qed.

(** Removing requests from both queues. *)
Lemma remove_waiting_ok s w k wait :
  holds (policy cfg) s (waiting s) w → holds (policy cfg) s (skipped_waiting s) k →
  ∃ q1 q2, (if is_nil wait then Ok s
     else q ← @remove_requests _ _ (queue_ops s) (waiting s) wait;
          q' ← @remove_requests _ _ (queue_ops s) (skipped_waiting s) wait;
          Ok (set_skipped_waiting (set_waiting s q) q')) = Ok (set_skipped_waiting (set_waiting s q1) q2) ∧
    holds (policy cfg) s q1 (filter (λ y, y ∉ wait) w) ∧ holds (policy cfg) s q2 (filter (λ y, y ∉ wait) k).
Proof.
  intros Hw Hk. destruct (is_nil wait) eqn:En.
  - destruct wait; [|done]. rewrite !filter_all; [|intros ? _; apply not_elem_of_nil..].
    exists (waiting s), (skipped_waiting s). split_and!; [by destruct s|done|done].
  - destruct (holds_removes _ s _ _ wait Hw) as (q1 & -> & Hq1). cbn [mbind res_bind].
    destruct (holds_removes _ s _ _ wait Hk) as (q2 & -> & Hq2). cbn [mbind res_bind]. by exists q1, q2.
Qed.

Lemma finish_requests_spec s t w k ids x :
  SchedInv cfg s t w k [] → NoDup ids → is_finished_status x = true →
  ∃ s' clients t', finish_requests set_order s ids x = Ok (s', clients) ∧
    SchedInv cfg s' t' (filter (λ y, y ∉ ids) w) (filter (λ y, y ∉ ids) k) [] ∧
    running s' = filter (λ y, y ∉ ids) (running s) ∧
    (∀ id, option_Forall2 hint_eq (keep ids (sc_requests s) !! id) (sc_requests s' !! id)) ∧
    prev_step_scheduled_req_ids s' = prev_step_scheduled_req_ids s ∧ pause_state s' = pause_state s.
Proof.
  intros I Hnd Hx. unfold finish_requests. rewrite Hx. cbn [py_assert mbind res_bind].
  destruct (collect_spec s t w k ids (num_waiting_for_streaming_input s) [] [] [] I) as (n & run & wait & E & Hrun & Hwait).
  replace (set_num_waiting_for_streaming_input s (num_waiting_for_streaming_input s)) with s in E by (by destruct s).
  rewrite E. cbn [app]. set (valid := filter _ ids). set (s1 := set_num_waiting_for_streaming_input s n).
  assert (SchedInv cfg s1 t w k []) as I1 by (eapply SchedInv_core; [|exact I]; done).
  pose proof (si_dom _ _ _ _ _ _ I1) as Hdom. cbn [sc_requests s1 set_num_waiting_for_streaming_input running] in Hdom.
  assert (∀ y, y ∈ valid ↔ y ∈ ids ∧ is_Some (sc_requests s !! y)) as Hvalid.
  { intros y. unfold valid. rewrite list_elem_of_filter. naive_solver. }
  assert (NoDup valid) as Hndv by by apply NoDup_filter.
  pose proof (si_nodup _ _ _ _ _ _ I) as Hnda. apply NoDup_app in Hnda as (Hndr & Hrq & _).
  rewrite remove_all_spec //.
  assert (filter (λ y, y ∉ run) (running s) = filter (λ y, y ∉ valid) (running s)) as Er.
  { apply list_filter_iff_elem. intros y Hy. rewrite Hrun Hvalid.
    pose proof (not_elem_of_nil y).
    assert (is_Some (sc_requests s !! y)) by (apply Hdom, elem_of_app; by left). naive_solver. }
  assert (∀ l : list string, (∀ y, y ∈ l → y ∈ w ++ k) → filter (λ y, y ∉ wait) l = filter (λ y, y ∉ valid) l) as Ew.
  { intros l Hl. apply list_filter_iff_elem. intros y Hy%Hl. rewrite Hwait Hvalid.
    assert (is_Some (sc_requests s !! y)) by (apply Hdom; set_solver).
    assert (y ∉ running s) by (intros Hin; apply (Hrq y Hin); set_solver).
    pose proof (not_elem_of_nil y). naive_solver. }
  assert (∀ l : list string, (∀ y, y ∈ l → is_Some (sc_requests s !! y)) → filter (λ y, y ∉ valid) l = filter (λ y, y ∉ ids) l) as Ei.
  { intros l Hl. apply list_filter_iff_elem. intros y Hy%Hl. rewrite Hvalid. naive_solver. }
  set (s2 := set_running s1 _).
  destruct (remove_waiting_ok s2 w k wait) as (q1 & q2 & Eq & Hq1 & Hq2);
    [exact (si_waiting _ _ _ _ _ _ I1)|exact (si_skipped _ _ _ _ _ _ I1)|]. rewrite Eq. rewrite (Ew w) in Hq1; [|set_solver]. rewrite (Ew k) in Hq2; [|set_solver].
  cbn [mbind res_bind].
  assert (SchedInv cfg (set_running s2 (running s)) t w k []) as I2 by (eapply SchedInv_core; [|exact I1]; done).
  pose proof (Dropped_intro s2 (running s) t w k valid q1 q2 I2 Hq1 Hq2) as D. rewrite -Er in D.
  match goal with |- context [foldM ?f ?y valid] => change (foldM f y valid) with (foldM (finish_one x) y valid) end.
  destruct (free_all_spec x _ _ _ valid _ t Hx D Hndv) as (s' & t' & -> & D' & Hh).
  { intros y [_ [r Hr]]%Hvalid. exists r. destruct (si_store _ _ _ _ _ _ I _ _ Hr). done. }
  cbn [mbind res_bind]. eexists _, _, t'. split; [reflexivity|]. destruct Hh as [Hh (H1 & _ & _ & H4 & H5)].
  rewrite -!(Ei w) -?(Ei k) -?(Ei (running s)); [|intros y Hy; apply Hdom; set_solver..]. rewrite -Er. split_and!; [|done| |done..].
  - apply Dropped_nil in D'. cbn in H1. rewrite -H1 in D'. by destruct s'.
  - intros id. specialize (Hh id). cbn [sc_requests set_skipped_waiting set_waiting s2 s1 set_running
      set_num_waiting_for_streaming_input] in Hh. rewrite !lookup_keep in Hh |- *.
    destruct (sc_requests s !! id) as [r|] eqn:Hr; last first.
    { repeat case_decide; done. }
    assert (id ∈ valid ↔ id ∈ ids) as Hiff by (rewrite Hvalid Hr; naive_solver).
    repeat case_decide; try done; tauto.
Qed.

(** ** [add_request] *)

(** A request as the engine hands it over. *)
Record new_request r : Prop := {
  nr_arrival : arrival_time r ≠ S754_nan;
  nr_text : mm_features r = [];
  nr_hashed : hashed r;
  nr_tokens : 0 < num_tokens r < max_model_len cfg;
  nr_fresh : num_computed_tokens r = 0 ∧ num_output_placeholders r = 0;
  nr_status : status r = WAITING ∨ status r = WAITING_FOR_STRUCTURED_OUTPUT_GRAMMAR
}.

Lemma new_request_hint r r' : hint_eq r r' → new_request r → new_request r'.
Proof. intros E []. rewrite E. split; try done. by eapply law_hashed. Qed.

(** The queue of a session that is not known yet. *)
Lemma SchedInv_session s t w k id v :
  sc_requests s !! id = None → SchedInv cfg s t w k [] →
  (∀ id', id' ≠ id → v !! id' = streaming_queue s !! id') → SchedInv cfg (set_streaming_queue s v) t w k [].
Proof.
  intros Hn [I1 I2 I3 I4 I5 I6 I7 I8 I9 I10] Hv. split; cbn; try done. intros id' r Hr Hin. destruct (I8 id' r Hr Hin).
  split; [|done]. cbn. rewrite Hv; [done|]. intros ->. congruence.
Qed.

Lemma SchedInv_added s t w k r w' k' q1 q2 :
  SchedInv cfg s t w k [] → sc_requests s !! request_id r = None → new_request r →
  holds (policy cfg) (put_request s r) q1 w' → holds (policy cfg) (put_request s r) q2 k' →
  w' ++ k' ≡ₚ request_id r :: w ++ k →
  SchedInv cfg (set_skipped_waiting (set_waiting (put_request s r) q1) q2) t w' k' [].
Proof.
  intros [I1 I2 I3 I4 I5 I6 I7 I8 I9 I10] Hn [N1 N2 N3 N4 [N5 N6] N7] H1 H2 HP.
  assert (running s ++ w' ++ k' ++ [] ≡ₚ request_id r :: running s ++ w ++ k ++ []) as HPa.
  { rewrite !app_nil_r HP. by rewrite -Permutation_middle. }
  assert (request_id r ∉ running s ++ w ++ k ++ []) as Hni.
  { intros Hin%I6. rewrite Hn in Hin. by destruct Hin. }
  assert (∀ id r1, <[request_id r := r]> (sc_requests s) !! id = Some r1 →
    (id = request_id r ∧ r1 = r) ∨ (id ≠ request_id r ∧ sc_requests s !! id = Some r1)) as Hcase.
  { intros id r1. destruct (decide (id = request_id r)) as [->|Hne]; [rewrite lookup_insert_eq|rewrite lookup_insert_ne //];
      naive_solver. }
  split; cbn; try done.
  - intros id r1 [[-> ->]|[_ ?]]%Hcase; [|by apply I2]. split; try done; [lia..|]. rewrite N5 /tok I9 //=. lia.
  - rewrite HPa. by constructor.
  - intros id. rewrite HPa elem_of_cons -I6. destruct (decide (id = request_id r)) as [->|Hne].
    + rewrite lookup_insert_eq. split; [by left|by eexists].
    + rewrite lookup_insert_ne //. naive_solver.
  - intros id r1 [[-> ->]|[_ ?]]%Hcase Hin; [|by eapply I7]. exfalso. apply Hni, elem_of_app. by left.
  - intros id r1 [[-> ->]|[_ ?]]%Hcase Hin; [|by eapply I8]. unfold queued_ok. rewrite N5 I9 //.
    split; [|done]. by destruct N7 as [-> | ->]; lia.
  - intros id. destruct (decide (id = request_id r)) as [->|Hne]; [by rewrite lookup_insert_eq|].
    rewrite lookup_insert_ne //. apply I9.
Qed.

Lemma add_request_spec block_hasher s t w k r :
  SchedInv cfg s t w k [] → sc_requests s !! request_id r = None → new_request r →
  ∃ s' w' k' r', add_request_to_scheduler set_order block_hasher s r = Ok s' ∧ SchedInv cfg s' t w' k' [] ∧
    running s' = running s ∧ w' ++ k' ≡ₚ request_id r :: w ++ k ∧ hint_eq r r' ∧
    sc_requests s' !! request_id r = Some r' ∧
    (∀ id, id ≠ request_id r → option_Forall2 hint_eq (sc_requests s !! id) (sc_requests s' !! id)) ∧
    prev_step_scheduled_req_ids s' = prev_step_scheduled_req_ids s ∧ pause_state s' = pause_state s.
Proof.
  intros I Hn N. unfold add_request_to_scheduler. rewrite Hn.
  match goal with |- context [if resumable r then ?a else ?b] => set (s1 := if resumable r then a else b) end.
  assert (SchedInv cfg s1 t w k [] ∧ s1 = set_streaming_queue s (streaming_queue s1)) as [I1 E1].
  { unfold s1. destruct (resumable r); (split; [|done]); (eapply SchedInv_session; [done|done|]); intros id Hne.
    - by rewrite lookup_insert_ne.
    - by rewrite lookup_delete_ne. }
  clearbody s1. destruct (law_prepare cfg s1 t r) as (s2 & r' & -> & P & Hr'); [apply I1|]. cbn [mbind res_bind].
  pose proof (SchedInv_plugin _ _ _ _ _ _ _ P I1) as I2. pose proof (new_request_hint _ _ Hr' N) as N'.
  destruct (plugin_step_fields _ _ _ P) as (R1 & R2 & R3 & _ & R5 & _ & R7).
  assert (request_id r' = request_id r) as Hid by by rewrite Hr'.
  assert (sc_requests s1 = sc_requests s) as Es1 by by rewrite E1.
  assert (sc_requests s2 !! request_id r' = None) as Hn2.
  { rewrite Hid. pose proof (ps_store _ _ _ P (request_id r)) as Hs. rewrite Es1 Hn in Hs. by inversion Hs. }
  assert (∀ id, id ∈ w ++ k → id ≠ request_id r') as Hne.
  { intros id Hin ->. assert (is_Some (sc_requests s2 !! request_id r')) as Hs by (apply (si_dom _ _ _ _ _ _ I2); set_solver).
    rewrite Hn2 in Hs. by destruct Hs. }
  assert (∀ q l, (∀ id, id ∈ l → id ≠ request_id r') → holds (policy cfg) s2 q l → holds (policy cfg) (put_request s2 r') q l) as Hput.
  { intros q l Hl. apply holds_ext. intros id Hin. rewrite obj_put. case_decide; [|done]. by destruct (Hl id Hin). }
  assert (comparable (put_request s2 r') (request_id r')) as Hcmp.
  { unfold comparable, arrived, keyed. rewrite obj_put decide_True //. split; [done|apply N']. }
  assert (holds (policy cfg) (put_request s2 r') (waiting (put_request s2 r')) w) as Hw.
  { apply Hput; [set_solver|apply I2]. }
  assert (holds (policy cfg) (put_request s2 r') (skipped_waiting (put_request s2 r')) k) as Hk.
  { apply Hput; [set_solver|apply I2]. }
  unfold _enqueue_waiting_request.
  assert (∀ s' w' k', SchedInv cfg s' t w' k' [] → w' ++ k' ≡ₚ request_id r' :: w ++ k →
    s' = set_skipped_waiting (set_waiting (put_request s2 r') (waiting s')) (skipped_waiting s') →
    SchedInv cfg s' t w' k' [] ∧ running s' = running s ∧ w' ++ k' ≡ₚ request_id r :: w ++ k ∧ hint_eq r r' ∧
    sc_requests s' !! request_id r = Some r' ∧
    (∀ id, id ≠ request_id r → option_Forall2 hint_eq (sc_requests s !! id) (sc_requests s' !! id)) ∧
    prev_step_scheduled_req_ids s' = prev_step_scheduled_req_ids s ∧ pause_state s' = pause_state s) as Hres.
  { intros s' w' k' I' HP Es. split; [done|]. rewrite Es -Hid. unfold put_request. cbn. rewrite R1 R5 R7 E1. split_and!; try done.
    - apply lookup_insert_eq.
    - intros id Hi. rewrite lookup_insert_ne //. rewrite -Es1. apply P. }
  destruct (_is_blocked_waiting_status (status r')).
  - destruct (holds_add _ _ _ _ _ Hk Hcmp) as (q & k' & -> & Hq & HP). cbn [mbind res_bind].
    eexists _, w, k', r'. split; [reflexivity|]. apply Hres; [|by rewrite HP Permutation_middle|by destruct s2].
    eapply SchedInv_core; [|eapply (SchedInv_added s2 t w k r' w k' (waiting s2) q)]; try done. by rewrite HP Permutation_middle.
  - destruct (holds_add _ _ _ _ _ Hw Hcmp) as (q & w' & -> & Hq & HP). cbn [mbind res_bind].
    eexists _, w', k, r'. split; [reflexivity|]. apply Hres; [|by rewrite HP|by destruct s2].
    eapply SchedInv_core; [|eapply (SchedInv_added s2 t w k r' w' k q (skipped_waiting s2))]; try done. by rewrite HP.
Qed.
End Finish.
