(* ===== verification/SchedOutput.v ===== *)
(** * The output of the model

    [update_from_output] of the synchronous scheduler: the tokens of the model are
    appended to the requests of the last step, rejected drafts are taken back, and
    stopped requests are freed.  The step in flight ([Flight]) and what the model
    runner returns for it ([runner_ok]) determine that nothing raises and that the
    requests are ready for the next step. *)

From Corelib Require Import SpecFloat.
From S2P Require Import Prelude PyFloat Request HeapQ RequestQueue FreeQueue BlockHash BlockPool KVCacheSpec SingleType CacheHit Coordinator KVCacheManager KVContract SchedUtils OrderedDict EncoderCache EncoderSched SchedState Scheduler SchedQueues SchedInv SchedStep SchedulerSpec SchedFinish.

Section Append.
Context (cfg : SchedulerConfig) (block_hasher : option (Request → res (list bytes))).
Context {hashed : Request → Prop} `{HL : !HasherLaws hashed block_hasher}.
Implicit Types (r : Request).

(** The part of a request that its output does not touch. *)
Definition grown r r' : Prop :=
  r' = set_stop_reason (set_status (set_block_hashes (set_taper_last_token_time (set_prob_short
         (set_all_token_ids (set_output_token_ids r (output_token_ids r')) (all_token_ids r')) (prob_short r'))
         (taper_last_token_time r')) (block_hashes r')) (status r')) (stop_reason r').

Lemma grown_trans r1 r2 r3 : grown r1 r2 → grown r2 r3 → grown r1 r3.
Proof. unfold grown. intros E1 E2. rewrite {1}E2. rewrite {1}E1. done. Qed.

Lemma append_grown now r t r' :
  append_output_token_id block_hasher now r t = Ok r' →
  grown r r' ∧ all_token_ids r' = all_token_ids r ++ [t] ∧ output_token_ids r' = output_token_ids r ++ [t] ∧ status r' = status r.
Proof.
  unfold append_output_token_id, update_block_hashes, update_prob_short.
  destruct block_hasher as [h|].
  - set (r0 := set_taper_last_token_time _ now). destruct (h r0) as [hs|]; [|done]. cbn [mbind res_bind]. intros [= <-].
    unfold r0. repeat case_match; done.
  - intros [= <-]. repeat case_match; done.
Qed.

(** A request that is generated for as long as [check_stop] lets it: the minimal number
    of tokens fits the context. *)
Definition stoppable r : Prop :=
  pooling_params r = None ∧
  ∃ sp, sampling_params r = Some sp ∧ num_tokens r - num_output_tokens r + min_tokens sp ≤ max_model_len cfg.

Lemma append_until_stop_spec now gs : ∀ r acc,
  hashed r → mm_features r = [] → stoppable r → num_tokens r < max_model_len cfg →
  ∃ r' appended stopped, append_until_stop cfg block_hasher now r acc gs = Ok (r', appended, stopped) ∧
    grown r r' ∧ num_tokens r' - num_output_tokens r' = num_tokens r - num_output_tokens r ∧
    (stopped = false → hashed r' ∧ status r' = status r ∧ num_tokens r' = num_tokens r + zlen gs ∧
       num_tokens r' < max_model_len cfg) ∧
    (stopped = true → is_finished r' = true).
Proof.
  induction gs as [|g gs IH]; intros r acc Hh Hmm Hs Hlt; cbn [append_until_stop].
  { exists r, acc, false. split_and!; try done; [by destruct r|]. intros _. split_and!; try done. unfold zlen. cbn. lia. }
  destruct (law_append now r g Hh Hmm) as (r1 & E1 & Hh1). rewrite E1. cbn [mbind res_bind].
  destruct (append_grown _ _ _ _ E1) as (G1 & T1 & O1 & S1). destruct Hs as (Hp & sp & Hsp & Hmin).
  assert (num_tokens r1 = num_tokens r + 1) as N1 by (unfold num_tokens; rewrite T1 zlen_app; done).
  assert (num_output_tokens r1 = num_output_tokens r + 1) as N2 by (unfold num_output_tokens; rewrite O1 zlen_app; done).
  assert (pooling_params r1 = None ∧ sampling_params r1 = Some sp ∧ mm_features r1 = []) as (Hp1 & Hsp1 & Hmm1).
  { rewrite G1. by split_and!. }
  destruct (check_stop_spec r1 sp g (max_model_len cfg) Hp1 Hsp1) as (r2 & stopped & E2 & U2 & Hst & Hno & Hyes).
  { by rewrite O1 last_snoc. }
  rewrite E2. cbn [mbind res_bind]. destruct stopped.
  - assert (grown r1 r2) as G2 by (rewrite U2; by destruct r1).
    exists r2, (acc ++ [g]), true. split_and!; [done|by eapply grown_trans| |done|intros _; by apply Hyes].
    rewrite U2. change (num_tokens r1 - num_output_tokens r1 = num_tokens r - num_output_tokens r). lia.
  - rewrite (Hno eq_refl) in E2 |- *. assert (num_tokens r1 < max_model_len cfg) as Hlt1.
    { apply Z.nle_gt. intros Hle. destruct (decide (min_tokens sp ≤ num_output_tokens r1)) as [Hm|Hm]; [|lia].
      assert (false = true) by (apply Hst; split; [done|]; right; left; by left). done. }
    destruct (IH r1 (acc ++ [g]) Hh1 Hmm1) as (r' & app & st & -> & G' & D' & H1 & H2).
    { split; [done|]. exists sp. split; [done|lia]. }
    { done. }
    exists r', app, st. split_and!; [done|by eapply grown_trans|lia| |done].
    intros Hf. destruct (H1 Hf) as (? & ? & ? & ?). rewrite zlen_cons. split_and!; [done|congruence|lia|done].
Qed.
End Append.

Section Output.
Context {env : KVEnv} {K : Type} {pl : Plugins K} (cfg : SchedulerConfig).
Context {hashed : Request → Prop} `{KV : !KVContract (max_model_len cfg) hashed} `{PL : !PluginLaws cfg}.
Context (set_order : list Z → list Z) (Hord : ∀ l, set_order l ≡ₚ l).
Context (block_hasher : option (Request → res (list bytes))) `{HL : !HasherLaws hashed block_hasher}.
Context (Hsync : async_scheduling cfg = false).
Implicit Types (s : Scheduler K) (r : Request) (t : gmap string Z) (w k run dn : list string) (id : string).
Implicit Types (out : SchedulerOutput) (mro : ModelRunnerOutput) (u : @upd K).

(** A request of the synchronous scheduler that is not a session. *)
Record life_ok r : Prop := {
  lo_once : resumable r = false;
  lo_placeholders : num_output_placeholders r = 0;
  lo_stoppable : pooling_params r = None → stoppable cfg r
}.

Definition all_life s : Prop := ∀ id r, sc_requests s !! id = Some r → life_ok r.

Definition drafts_of out id : list Z := default [] (od_get (so_scheduled_spec_decode_tokens out) id).

(** The step [out] is in flight. *)
Record Flight s out : Prop := {
  fl_nodup : NoDup (so_num_scheduled_tokens out).*1;
  fl_positive : ∀ id n, (id, n) ∈ so_num_scheduled_tokens out → 0 < n;
  fl_running : ∀ id, id ∈ (so_num_scheduled_tokens out).*1 → is_Some (sc_requests s !! id) → id ∈ running s;
  fl_drafts : ∀ id r, id ∈ (so_num_scheduled_tokens out).*1 → sc_requests s !! id = Some r →
    num_computed_tokens r ≤ num_tokens r + zlen (drafts_of out id) ∧
    (drafts_of out id ≠ [] → num_tokens r + zlen (drafts_of out id) ≤ num_computed_tokens r);
  fl_idle : ∀ id r, id ∈ running s → id ∉ (so_num_scheduled_tokens out).*1 → sc_requests s !! id = Some r → run_ready cfg r
}.

(** What the runner returns for a request: tokens only for a request that generates and
    is fully computed, at most one more than drafts, and at least one when there are
    drafts. *)
Definition sampled mro (i : nat) (gs : list Z) : Prop :=
  (sampled_token_ids mro = [] ∧ gs = []) ∨ sampled_token_ids mro !! i = Some gs.

Definition runner_ok s out mro : Prop :=
  ∀ id r, id ∈ (so_num_scheduled_tokens out).*1 → sc_requests s !! id = Some r →
    ∃ i gs, req_id_to_index mro !! id = Some i ∧ sampled mro i gs ∧
      zlen gs ≤ 1 + zlen (drafts_of out id) ∧ (drafts_of out id ≠ [] → gs ≠ []) ∧
      (gs ≠ [] → pooling_params r = None) ∧ (pooler_output mro = [] ∨ is_Some (pooler_output mro !! i)).

Lemma sampled_ok mro i gs :
  sampled mro i gs →
  (if is_nil (sampled_token_ids mro) then Ok [] else py_nth (sampled_token_ids mro) (Z.of_nat i)) = Ok gs.
Proof.
  intros [[-> ->]|H]; [done|]. destruct (sampled_token_ids mro) as [|a l] eqn:E; [done|]. cbn [is_nil]. apply py_nth_ok; [lia|by rewrite Nat2Z.id].
Qed.

Lemma pooled_ok mro i :
  pooler_output mro = [] ∨ is_Some (pooler_output mro !! i) →
  ∃ b, (if is_nil (pooler_output mro) then Ok false else py_nth (pooler_output mro) (Z.of_nat i)) = Ok b.
Proof.
  intros [->|[b Hb]]; [by eexists|]. destruct (pooler_output mro) as [|a l] eqn:E; [done|]. cbn [is_nil]. exists b. apply py_nth_ok; [lia|by rewrite Nat2Z.id].
Qed.

(** Taking back the rejected drafts. *)
Lemma adjust_rejected_spec r ds gs :
  num_output_placeholders r = 0 → 0 ≤ num_computed_tokens r → 0 < num_tokens r →
  num_computed_tokens r ≤ num_tokens r + zlen ds → (ds ≠ [] → num_tokens r + zlen ds ≤ num_computed_tokens r) →
  zlen gs ≤ 1 + zlen ds → (ds ≠ [] → gs ≠ []) →
  ∃ n, adjust_rejected r ds gs = set_num_computed_tokens r n ∧ 0 ≤ n ≤ num_computed_tokens r ∧
    (gs = [] → n ≤ num_tokens r) ∧ (gs ≠ [] → n < num_tokens r + zlen gs).
Proof.
  intros Hp H0 Ht H1 H2 H3 H4. unfold adjust_rejected.
  destruct ds as [|d ds]; cbn [is_nil orb].
  { exists (num_computed_tokens r). change (zlen (@nil Z)) with 0 in *. split_and!; [by destruct r|lia|lia| |].
    - intros _. lia.
    - intros Hg. destruct gs; [done|]. rewrite zlen_cons. pose proof (zlen_nonneg gs). lia. }
  destruct gs as [|g gs]; [by destruct (H4 ltac:(done))|]. cbn [is_nil]. pose proof (H2 ltac:(done)).
  pose proof (zlen_nonneg ds). pose proof (zlen_nonneg gs). rewrite !zlen_cons in H1 H3 H |- *.
  rewrite (bool_decide_true (0 < num_computed_tokens r)); [|lia]. cbn [num_output_placeholders set_num_computed_tokens]. rewrite Hp (bool_decide_false (0 < 0)) //.
  eexists. split; [reflexivity|]. split_and!; [lia|lia|done|]. intros _. lia.
Qed.

(** ** One request *)

(** A request after its tokens were appended. *)
Record produced r1 r2 (stopped : bool) : Prop := {
  pd_grown : grown r1 r2;
  pd_prompt : num_tokens r2 - num_output_tokens r2 = num_tokens r1 - num_output_tokens r1;
  pd_going : stopped = false → hashed r2 ∧ status r2 = status r1 ∧ num_tokens r1 ≤ num_tokens r2 ∧
    num_computed_tokens r1 ≤ num_tokens r2 < max_model_len cfg;
  pd_stopped : stopped = true → is_finished r2 = true
}.

Lemma produce_spec s now r gs pooled :
  hashed r → mm_features r = [] → life_ok r → num_tokens r < max_model_len cfg →
  (gs = [] → num_computed_tokens r ≤ num_tokens r) → (gs ≠ [] → num_computed_tokens r < num_tokens r + zlen gs) →
  (gs ≠ [] → pooling_params r = None) →
  ∃ r' news stopped,
    (if negb (is_nil gs) then _update_request_with_output cfg block_hasher s now r gs
     else if is_some (pooling_params r) && pooled then Ok (s, set_status r FINISHED_STOPPED, [], true)
     else Ok (s, r, [], false)) = Ok (s, r', news, stopped) ∧ produced r r' stopped.
Proof.
  intros Hh Hmm [Hres Hpl Hst] Hlt H0 H1 Hp. destruct gs as [|g gs]; cbn [is_nil negb].
  - destruct (is_some (pooling_params r) && pooled).
    + eexists _, _, true. split; [reflexivity|]. split; try done.
    + eexists r, _, false. split; [reflexivity|]. split; try done; [by destruct r|]. intros _. split_and!; [done|done|lia|by apply H0|done].
  - unfold _update_request_with_output. rewrite Hsync.
    destruct (append_until_stop_spec cfg block_hasher now (g :: gs) r [] Hh Hmm) as (r' & app & st & -> & G & D & F1 & F2);
      [by apply Hst, Hp|done|].
    cbn [mbind res_bind]. exists r', app, st. split; [done|]. split; [done|done| |done].
    intros Hf. destruct (F1 Hf) as (? & ? & E & ?). pose proof (H1 ltac:(done)). pose proof (zlen_nonneg (g :: gs)).
    split_and!; [done|done|lia|lia|done].
Qed.

Lemma advance_grammar_spec s r1 r2 news stopped :
  produced r1 r2 stopped → resumable r1 = false →
  ∃ s' r3 stopped', advance_grammar s r2 news stopped = (s', r3, stopped') ∧ s' = set_plugins s (plugins s') ∧
    (stopped' = false → r3 = r2 ∧ stopped = false) ∧
    (stopped' = true → is_finished r3 = true ∧ resumable r3 = false ∧ request_id r3 = request_id r1 ∧
       mm_features r3 = mm_features r1).
Proof.
  intros [G _ _ Hs] Hres. assert (resumable r2 = false ∧ request_id r2 = request_id r1 ∧ mm_features r2 = mm_features r1)
    as (E1 & E2 & E3) by (rewrite G; by split_and!).
  unfold advance_grammar. destruct (negb (is_nil news) && should_advance (plugins s) r2).
  - destruct (accept_tokens (plugins s) (request_id r2) news) as [k [|]].
    + eexists _, _, _. split; [reflexivity|]. split_and!; [done|done|]. intros ->. split_and!; auto.
    + eexists _, _, _. split; [reflexivity|]. split_and!; [done|done|]. intros _. by split_and!.
  - eexists _, _, _. split; [reflexivity|]. split_and!; [by destruct s|done|]. intros ->. split_and!; auto.
Qed.

(** A request that goes on. *)
Lemma going_spec s run t w k id r n r2 :
  SchedInv cfg (set_running s run) t w k [] → id ∈ run → sc_requests s !! id = Some r → life_ok r →
  0 ≤ n ≤ num_computed_tokens r → produced (set_num_computed_tokens r n) r2 false →
  SchedInv cfg (set_running (put_request s r2) run) t w k [] ∧ run_ready cfg r2 ∧ life_ok r2.
Proof.
  intros I Hin Hr [L1 L2 L3] Hn [G D Hg _]. destruct (Hg eq_refl) as (Hh & Hst & Hge & Hlt). cbn in Hst, Hlt.
  change (num_tokens r ≤ num_tokens r2) in Hge.
  destruct (si_store _ _ _ _ _ _ I id r Hr) as [O1 O2 O3 O4 O5 O6 O7]. destruct (si_running _ _ _ _ _ _ I id r Hr Hin) as [R1 R2].
  assert (num_computed_tokens r2 = n ∧ request_id r2 = id ∧ rkey r2 = rkey r ∧ mm_features r2 = [] ∧
    arrival_time r2 = arrival_time r ∧ num_output_placeholders r2 = 0 ∧ resumable r2 = false ∧
    pooling_params r2 = pooling_params r ∧ sampling_params r2 = sampling_params r)
    as (E1 & E2 & E3 & E4 & E5 & E6 & E7 & E8 & E9) by (rewrite G; cbn; by split_and!).
  split_and!.
  - assert (put_request (set_running s run) r2 = set_running (put_request s r2) run) as <- by done.
    eapply SchedInv_put; [done|exact Hr|done| | |].
    + split; try done; [by rewrite E5|lia|lia|rewrite E1; lia].
    + intros _. split; [congruence|lia].
    + done.
  - unfold run_ready. rewrite E1 E6. lia.
  - split; [done|done|]. rewrite E8. intros (P & sp & Hsp & Hle)%L3. split; [congruence|]. exists sp. split; [congruence|].
    change (num_tokens r2 - num_output_tokens r2 = num_tokens r - num_output_tokens r) in D. lia.
Qed.

(** A request that stops leaves the running list. *)
Lemma leave_running s run t w k id :
  SchedInv cfg (set_running s run) t w k [] → id ∈ run → Dropped cfg s (filter (λ y, y ∉ [id]) run) t w k [id].
Proof.
  intros I Hin. assert (id ∉ w ++ k) as Hni.
  { pose proof (si_nodup _ _ _ _ _ _ I) as Hnd. apply NoDup_app in Hnd as (_ & Hnd & _). specialize (Hnd id Hin). set_solver. }
  assert (filter (λ y, y ∉ [id]) w = w ∧ filter (λ y, y ∉ [id]) k = k) as [Ew Ek].
  { split; apply filter_all; intros y Hy ->%list_elem_of_singleton; apply Hni; set_solver. }
  pose proof (Dropped_intro cfg s run t w k [id] (waiting s) (skipped_waiting s) I) as D. rewrite Ew Ek in D.
  destruct s. apply D; [exact (si_waiting _ _ _ _ _ _ I)|exact (si_skipped _ _ _ _ _ _ I)].
Qed.

(** The loop has treated the requests [dn]. *)
Record UpdInv s0 dn w k u : Prop := {
  ui_inv : ∃ t, SchedInv cfg (set_running (upd_sched u) (filter (λ y, y ∉ upd_stopped_running u) (running s0))) t w k [];
  ui_running : running (upd_sched u) = running s0;
  ui_prev : prev_step_scheduled_req_ids (upd_sched u) = prev_step_scheduled_req_ids s0;
  ui_pause : pause_state (upd_sched u) = pause_state s0;
  ui_other : ∀ id, id ∉ dn → option_Forall2 hint_eq (sc_requests s0 !! id) (sc_requests (upd_sched u) !! id);
  ui_done : ∀ id r, id ∈ dn → sc_requests (upd_sched u) !! id = Some r → id ∈ running s0 ∧ run_ready cfg r ∧ life_ok r;
  ui_stopped : ∀ id, id ∈ upd_stopped_running u → id ∈ dn;
  ui_preempted : upd_stopped_preempted u = []
}.

Lemma life_hint r r' : hint_eq r r' → life_ok r → life_ok r'.
Proof. intros E []. rewrite E. by split. Qed.

(** The last steps of an iteration only add hints. *)
Lemma UpdInv_step s0 dn w k u s1 run t id outs :
  UpdInv s0 dn w k u → (id ∉ dn) → SchedInv cfg (set_running s1 run) t w k [] →
  running s1 = running s0 → prev_step_scheduled_req_ids s1 = prev_step_scheduled_req_ids s0 → pause_state s1 = pause_state s0 →
  (∀ id', id' ≠ id → option_Forall2 hint_eq (sc_requests (upd_sched u) !! id') (sc_requests s1 !! id')) →
  (∀ r, sc_requests s1 !! id = Some r → id ∈ running s0 ∧ run_ready cfg r ∧ life_ok r) →
  ∀ stopped, run = filter (λ y, y ∉ stopped) (running s0) → (∀ y, y ∈ stopped → y ∈ id :: dn) →
  UpdInv s0 (id :: dn) w k (mkUpd s1 outs stopped []).
Proof.
  intros [U1 U2 U3 U4 U5 U6 U7 U8] Hid I E1 E2 E3 Hoth Hself stopped -> Hst. split; cbn; try done.
  - by exists t.
  - intros id' [Hne Hni]%not_elem_of_cons. specialize (U5 id' Hni). specialize (Hoth id' Hne).
    by eapply hint_opt_trans.
  - intros id' r [->|Hin]%elem_of_cons Hr; [by apply Hself|]. assert (id' ≠ id) as Hne by (by intros ->).
    specialize (Hoth id' Hne). rewrite Hr in Hoth. inversion Hoth as [a b Hab Ea Eb|]; subst b.
    destruct (U6 id' a Hin (eq_sym Ea)) as (? & ? & ?). split_and!; [done|by eapply run_ready_hint|by eapply life_hint].
Qed.

Lemma put_put s r1 r2 enc p :
  request_id r1 = request_id r2 →
  put_request (set_plugins (set_encoder_cache_manager (put_request s r1) enc) p) r2 =
  put_request (set_plugins (set_encoder_cache_manager s enc) p) r2.
Proof. intros E. unfold put_request. cbn. rewrite E insert_insert_eq. done. Qed.

Lemma observe_spec s t (r : Request) ts :
  kv_ok (kv_cache_manager s) t →
  ∃ s', (if is_nil ts then Ok s else observe_request_output s r ts) = Ok s' ∧ plugin_step cfg s s'.
Proof.
  intros Hkv. destruct (is_nil ts); [exists s; split; [done|apply plugin_step_refl]|].
  by apply (law_observe cfg s t r ts).
Qed.

Lemma plugin_running s s' run : plugin_step cfg s s' → plugin_step cfg (set_running s run) (set_running s' run).
Proof. intros [E1 E2 E3]. split; cbn; [by rewrite E1|done|done]. Qed.

(** The rest of an iteration for a request that stopped. *)
Lemma output_stopped s0 dn w k u s3 t id r r3 news :
  let run := filter (λ y, y ∉ upd_stopped_running u) (running s0) in
  UpdInv s0 dn w k u → id ∉ dn → id ∈ run → SchedInv cfg (set_running s3 run) t w k [] →
  sc_requests s3 = sc_requests (upd_sched u) → running s3 = running s0 →
  prev_step_scheduled_req_ids s3 = prev_step_scheduled_req_ids s0 → pause_state s3 = pause_state s0 →
  sc_requests s3 !! id = Some r → is_finished r3 = true → resumable r3 = false → request_id r3 = id → mm_features r3 = [] →
  ∃ s4 s5, handle_stopped set_order block_hasher (put_request s3 r3) r3 = Ok s4 ∧
    (if is_nil news then Ok s4 else observe_request_output s4 (default r3 (sc_requests s4 !! id)) news) = Ok s5 ∧
    ∀ outs, UpdInv s0 (id :: dn) w k (mkUpd s5 outs (id_add (upd_stopped_running u) id) []).
Proof.
  intros run U Hni Hrun I3 Es Erun Eprev Epause Hr Hfin Hres Hid3 Hmm3. unfold handle_stopped, _handle_stopped_request. rewrite Hres.
  cbn [negb mbind res_bind].
  destruct (free_request_spec cfg set_order Hord s3 _ t w k [] id r3 r (leave_running _ _ _ _ _ _ I3 Hrun))
    as (s4 & -> & D & Hh4); [done|done|done|done|]. cbn [mbind res_bind].
  destruct (observe_spec s4 (delete id t) (default r3 (sc_requests s4 !! id)) news) as (s5 & Eo & P5); [apply D|].
  eexists s4, s5. split; [done|]. split; [exact Eo|]. intros outs.
  destruct Hh4 as (H4 & A1 & A2 & A3 & A4 & A5). destruct (plugin_step_fields _ _ _ P5) as (B1 & _ & _ & _ & B5 & _ & B7).
  assert (id ∉ upd_stopped_running u) as Hns by (intros Hs; by apply list_elem_of_filter in Hrun as [Hrun _]).
  replace (id_add (upd_stopped_running u) id) with (id :: upd_stopped_running u); last first.
  { unfold id_add. by rewrite bool_decide_false. }
  eapply (UpdInv_step _ _ _ _ u s5); [exact U|done| |by rewrite B1 A1|by rewrite B5 A4|by rewrite B7 A5| | |reflexivity|].
  - eapply SchedInv_plugin; [by apply plugin_running|]. apply Dropped_nil in D.
    replace (filter (λ y, y ∉ id :: upd_stopped_running u) (running s0)) with (filter (λ y, y ∉ [id]) run); [done|].
    unfold run. rewrite list_filter_filter. apply list_filter_iff. intros y. rewrite !not_elem_of_cons.
    pose proof (not_elem_of_nil y). tauto.
  - intros id' Hne. specialize (H4 id'). rewrite lookup_kept in H4; [|by intros ->%list_elem_of_singleton].
    rewrite -Es. eapply hint_opt_trans; [exact H4|apply P5].
  - intros r' Hr'. exfalso. specialize (H4 id). rewrite lookup_keep in H4. assert (id ∈ [id]) as Hself by left.
    case_decide; [|done]. inversion H4 as [|Ea Eb]. pose proof (ps_store _ _ _ P5 id) as H5. rewrite -Eb Hr' in H5. inversion H5.
  - intros y. rewrite !elem_of_cons. pose proof (ui_stopped _ _ _ _ _ U y). naive_solver.
Qed.

(** The rest of an iteration for a request that goes on. *)
Lemma output_going s0 dn w k u s3 t id r n r2 news :
  let run := filter (λ y, y ∉ upd_stopped_running u) (running s0) in
  UpdInv s0 dn w k u → id ∉ dn → id ∈ run → SchedInv cfg (set_running s3 run) t w k [] →
  sc_requests s3 = sc_requests (upd_sched u) → running s3 = running s0 →
  prev_step_scheduled_req_ids s3 = prev_step_scheduled_req_ids s0 → pause_state s3 = pause_state s0 →
  sc_requests s3 !! id = Some r → life_ok r → 0 ≤ n ≤ num_computed_tokens r → produced (set_num_computed_tokens r n) r2 false →
  ∃ s5, (if is_nil news then Ok (put_request s3 r2)
         else observe_request_output (put_request s3 r2) (default r2 (sc_requests (put_request s3 r2) !! id)) news) = Ok s5 ∧
    ∀ outs, UpdInv s0 (id :: dn) w k (mkUpd s5 outs (upd_stopped_running u) []).
Proof.
  intros run U Hni Hrun I3 Es Erun Eprev Epause Hr Hlife Hn HP.
  assert (request_id r2 = id) as Hid2.
  { destruct HP as [G _ _ _]. rewrite G. cbn. apply (ro_id _ _ _ _ (si_store _ _ _ _ _ _ I3 id r Hr)). }
  destruct (going_spec s3 run t w k id r n r2 I3 Hrun Hr Hlife Hn HP) as (I4 & Hready & Hlife2).
  destruct (observe_spec (put_request s3 r2) t (default r2 (sc_requests (put_request s3 r2) !! id)) news) as (s5 & Eo & P5); [apply I3|].
  exists s5. split; [exact Eo|]. intros outs. destruct (plugin_step_fields _ _ _ P5) as (B1 & _ & _ & _ & B5 & _ & B7).
  eapply (UpdInv_step _ _ _ _ u s5); [exact U|done| |by rewrite B1|by rewrite B5|by rewrite B7| | |reflexivity|].
  - eapply SchedInv_plugin; [by apply plugin_running|exact I4].
  - intros id' Hne. pose proof (ps_store _ _ _ P5 id') as H5. unfold put_request in H5. cbn in H5.
    rewrite Hid2 lookup_insert_ne // in H5. by rewrite -Es.
  - intros r' Hr'. destruct (plugin_step_lookup_r _ _ _ _ _ P5 Hr') as (r4 & Hr4 & E4). unfold put_request in Hr4. cbn in Hr4.
    rewrite Hid2 lookup_insert_eq in Hr4. injection Hr4 as <-.
    split_and!; [by apply list_elem_of_filter in Hrun as [_ ?]|by eapply run_ready_hint|by eapply life_hint].
  - intros y Hy%(ui_stopped _ _ _ _ _ U). by right.
Qed.

Lemma process_output_spec s0 out mro now dn w k u id r :
  UpdInv s0 dn w k u → Flight s0 out → runner_ok s0 out mro → all_life s0 →
  (id ∉ dn) → id ∈ (so_num_scheduled_tokens out).*1 → sc_requests (upd_sched u) !! id = Some r →
  ∃ u', process_output cfg set_order block_hasher out mro now u r = Ok u' ∧ UpdInv s0 (id :: dn) w k u'.
Proof.
  intros U [F1 F2 F3 F4 F5] HR HL0 Hni Hkey Hr. pose proof U as [[t I] U2 U3 U4 U5 U6 U7 U8].
  assert (∃ r0, sc_requests s0 !! id = Some r0 ∧ hint_eq r0 r) as (r0 & Hr0 & Hh).
  { pose proof (U5 id Hni) as H. rewrite Hr in H. inversion H; eauto. }
  pose proof (F3 id Hkey ltac:(by rewrite Hr0)) as Hrun0.
  assert (id ∉ upd_stopped_running u) as Hns by (intros ?%U7; done).
  set (run := filter _ _) in I. assert (id ∈ run) as Hrun by by apply list_elem_of_filter.
  set (s := upd_sched u) in *.
  pose proof (si_store _ _ _ _ _ _ I id r Hr) as [O1 O2 O3 O4 O5 O6 O7].
  pose proof (si_running _ _ _ _ _ _ I id r Hr Hrun) as [R1 R2].
  assert (life_ok r) as Hlife by (eapply life_hint; [exact Hh|by eapply HL0]).
  destruct (F4 id r0 Hkey Hr0) as [D1 D2].
  assert (num_computed_tokens r0 = num_computed_tokens r ∧ num_tokens r0 = num_tokens r ∧ pooling_params r0 = pooling_params r)
    as (Q1 & Q2 & Q3) by (by rewrite Hh). rewrite Q1 Q2 in D1, D2.
  destruct (HR id r0 Hkey Hr0) as (i & gs & Hi & Hgs & G1 & G2 & G3 & G4). rewrite Q3 in G3.
  destruct (adjust_rejected_spec r (drafts_of out id) gs) as (n & En & Hn & N1 & N2); try done; [apply Hlife|lia|lia|].
  unfold process_output. rewrite O1 Hi. cbn [mbind res_bind]. rewrite (sampled_ok _ _ _ Hgs). cbn [mbind res_bind].
  change (default [] (od_get (so_scheduled_spec_decode_tokens out) id)) with (drafts_of out id). rewrite En.
  set (r1 := set_num_computed_tokens r n). rewrite (text_no_inputs r1); [|done]. cbn [mbind res_bind].
  destruct (pooled_ok mro i G4) as [pooled ->]. cbn [mbind res_bind].
  match goal with |- context [_update_request_with_output _ _ ?x] => set (s1 := x) end.
  destruct (produce_spec s1 now r1 gs pooled) as (r2 & news & stopped & -> & HP); try done; [by eapply law_hashed|by destruct Hlife; split|].
  cbn [mbind res_bind].
  destruct (advance_grammar_spec s1 r1 r2 news stopped HP) as (s2 & r3 & stopped' & -> & Es2 & Hgo & Hstop); [apply Hlife|].
  rewrite R1 (bool_decide_true (RUNNING = RUNNING)) //. cbn [negb].
  destruct stopped'; cbn [andb].
  - destruct (Hstop eq_refl) as (Hfin & Hres & Hid3 & Hmm3). rewrite Es2. unfold s1. rewrite put_put; [|by rewrite Hid3].
    match goal with |- context [put_request ?x r3] => set (s3 := x) end.
    assert (SchedInv cfg (set_running s3 run) t w k []) as I3 by (eapply SchedInv_core; [|exact I]; done).
    destruct (output_stopped s0 dn w k u s3 t id r r3 news U Hni Hrun I3) as (s4 & s5 & -> & Eo & HU); [done..|by rewrite Hid3|by rewrite Hmm3|].
    cbn [mbind res_bind]. rewrite Eo. cbn [mbind res_bind]. eexists. split; [reflexivity|]. rewrite U8. apply HU.
  - destruct (Hgo eq_refl) as [-> ->]. cbn [mbind res_bind]. rewrite Es2. unfold s1.
    rewrite put_put; [|destruct HP as [G _ _ _]; by rewrite G].
    match goal with |- context [put_request ?x r2] => set (s3 := x) end.
    assert (SchedInv cfg (set_running s3 run) t w k []) as I3 by (eapply SchedInv_core; [|exact I]; done).
    destruct (output_going s0 dn w k u s3 t id r n r2 news U Hni Hrun I3) as (s5 & Eo & HU); [done..|].
    rewrite Eo. cbn [mbind res_bind]. eexists. split; [reflexivity|]. rewrite U8. apply HU.
Qed.

(** ** The loop *)

Lemma update_loop_spec s0 out mro now w k rest : ∀ dn u,
  Flight s0 out → runner_ok s0 out mro → all_life s0 → UpdInv s0 dn w k u →
  (∀ kv, kv ∈ rest → kv ∈ so_num_scheduled_tokens out ∧ kv.1 ∉ dn) → NoDup rest.*1 →
  ∃ u' dn', foldM (update_iteration cfg set_order block_hasher out mro now) u rest = Ok u' ∧ UpdInv s0 dn' w k u' ∧
    ∀ id, id ∈ dn' ↔ id ∈ dn ∨ id ∈ rest.*1.
Proof.
  induction rest as [|[id n] rest IH]; intros dn u F HR HL0 U Hrest Hnd; cbn [foldM].
  { exists u, dn. split_and!; [done..|]. intros id. pose proof (not_elem_of_nil id). naive_solver. }
  destruct (Hrest (id, n)) as [Hin Hni]; [left|]. cbn in Hni, Hnd. apply NoDup_cons in Hnd as [Hnr Hnd].
  assert (∃ u', update_iteration cfg set_order block_hasher out mro now u (id, n) = Ok u' ∧ UpdInv s0 (id :: dn) w k u')
    as (u' & -> & U').
  { unfold update_iteration. rewrite bool_decide_true; [|by eapply fl_positive]. cbn [py_assert mbind res_bind fst].
    destruct (sc_requests (upd_sched u) !! id) as [r|] eqn:Hr; last first.
    { exists u. split; [done|]. destruct U as [U1 U2 U3 U4 U5 U6 U7 U8]. split; try done.
      - intros id' [_ ?]%not_elem_of_cons. by apply U5.
      - intros id' r [->|?]%elem_of_cons Hr'; [congruence|by apply U6].
      - intros id' ?%U7. by right. }
    assert (id ∈ (so_num_scheduled_tokens out).*1) as Hkey by by eapply fst_elem.
    assert (is_finished r = false) as ->; [|by apply process_output_spec].
    pose proof U as [[t I] _ _ _ U5 _ U7 _]. pose proof (U5 id Hni) as Hh. rewrite Hr in Hh. inversion Hh as [r0 r1 Hh1 Hr0 Hr1|].
    assert (id ∈ running s0) as Hrun by (eapply fl_running; [done|done|by rewrite -Hr0]).
    destruct (si_running _ _ _ _ _ _ I id r Hr) as [Hst _]; [|unfold is_finished; by rewrite Hst].
    apply list_elem_of_filter. split; [by intros ?%U7|done]. }
  cbn [mbind res_bind]. destruct (IH (id :: dn) u' F HR HL0 U') as (u2 & dn2 & -> & U2 & Hdn); [|done|].
  - intros kv Hkv. split; [apply Hrest; by right|]. intros [E|?]%elem_of_cons; [|by destruct (Hrest kv); [right|]].
    apply Hnr. rewrite -E. destruct kv. by eapply fst_elem.
  - exists u2, dn2. split_and!; [done..|]. intros id'. rewrite Hdn. cbn. rewrite !elem_of_cons. tauto.
Qed.

Lemma update_from_output_spec s t w k out mro now :
  SchedInv cfg s t w k [] → prev_ok s → Flight s out → runner_ok s out mro → all_life s →
  ∃ s' outs fin t', update_from_output cfg set_order block_hasher s out mro now = Ok (s', outs, fin) ∧
    SchedInv cfg s' t' w k [] ∧ prev_ok s' ∧ all_ready cfg s' ∧ all_life s' ∧
    (∀ id, is_Some (sc_requests s' !! id) → is_Some (sc_requests s !! id)) ∧
    (∀ id, id ∈ running s' → id ∈ running s).
Proof.
  intros I0 Hprev0 F0 HR0 HL1. unfold update_from_output.
  change (running s) with (running (set_plugins s (step_observed s (so_taper_step out)))).
  change (sc_requests s) with (sc_requests (set_plugins s (step_observed s (so_taper_step out)))).
  assert (SchedInv cfg (set_plugins s (step_observed s (so_taper_step out))) t w k []) as I
    by (by eapply SchedInv_core; [|exact I0]).
  assert (prev_ok (set_plugins s (step_observed s (so_taper_step out)))) as Hprev by exact Hprev0.
  assert (Flight (set_plugins s (step_observed s (so_taper_step out))) out) as F by (by destruct F0; split).
  assert (runner_ok (set_plugins s (step_observed s (so_taper_step out))) out mro) as HR by exact HR0.
  assert (all_life (set_plugins s (step_observed s (so_taper_step out)))) as HL0 by exact HL1.
  clear I0 Hprev0 F0 HR0 HL1. generalize dependent (set_plugins s (step_observed s (so_taper_step out))).
  clear s. intros s I Hprev F HR HL0.
  pose proof (si_nodup _ _ _ _ _ _ I) as Hnd. apply NoDup_app in Hnd as (Hnd & _).
  assert (UpdInv s [] w k (mkUpd s [] [] [])) as U0.
  { split; cbn; try done.
    - exists t. rewrite filter_all; [|intros ? _; apply not_elem_of_nil]. by destruct s.
    - intros id _. destruct (sc_requests s !! id) as [r|]; constructor. by destruct r.
    - intros id r ?%not_elem_of_nil. done. }
  destruct (update_loop_spec s out mro now w k (so_num_scheduled_tokens out) [] _ F HR HL0 U0) as (u & dn & -> & U & Hdn);
    [intros kv Hkv; split; [done|apply not_elem_of_nil]|apply F|].
  destruct U as [[t' I'] U2 U3 U4 U5 U6 U7 U8]. cbn [mbind res_bind]. rewrite U8. cbn [is_nil mbind res_bind].
  rewrite U2 remove_all_spec //. set (run := filter _ (running s)) in *. set (s1 := set_running (upd_sched u) run) in *.
  pose proof (law_take_events (kv_cache_manager s1) t' (si_kv _ _ _ _ _ _ I')) as He.
  destruct (km_take_events (kv_cache_manager s1)) as [kv ev]. cbn [fst] in He. eexists _, _, _, t'. split; [reflexivity|].
  set (s2 := set_kv_cache_manager s1 kv).
  assert (∀ id r, sc_requests s2 !! id = Some r → id ∉ dn → ∃ r0, sc_requests s !! id = Some r0 ∧ hint_eq r0 r) as Hother.
  { intros id r Hr Hni. pose proof (U5 id Hni) as Hh. change (sc_requests (upd_sched u)) with (sc_requests s2) in Hh.
    rewrite Hr in Hh. inversion Hh; eauto. }
  split_and!.
  - eapply SchedInv_core; [|apply (SchedInv_kv cfg s1 t' w k [] kv I' He)]. done.
  - intros id r Hin Hr. cbn in Hin, Hr. rewrite U3 in Hin. destruct (decide (id ∈ dn)) as [Hd|Hd].
    + destruct (U6 id r Hd Hr) as (Hrun & _). destruct (decide (id ∈ run)) as [Hr1|Hr1].
      * destruct (si_running _ _ _ _ _ _ I' id r Hr Hr1) as [-> _]. done.
      * destruct (si_queued _ _ _ _ _ _ I' id r Hr Hr1) as [_ _]. intros Hp.
        pose proof (proj1 (si_dom _ _ _ _ _ _ I' id) ltac:(by rewrite Hr)) as Hdom. apply elem_of_app in Hdom as [?|Hdom]; [done|].
        destruct (inv_not_running _ _ _ _ _ _ _ I Hdom) as [? _]. done.
    + destruct (Hother id r Hr Hd) as (r0 & Hr0 & E). rewrite E. by apply (Hprev id r0).
  - intros id r Hin Hr. cbn in Hin, Hr. destruct (decide (id ∈ dn)) as [Hd|Hd]; [by apply (U6 id r Hd Hr)|].
    destruct (Hother id r Hr Hd) as (r0 & Hr0 & E). eapply run_ready_hint; [exact E|].
    apply list_elem_of_filter in Hin as [_ Hin]. eapply fl_idle; [done|done| |done].
    intros Hk. apply Hd, Hdn. by right.
  - intros id r Hr. cbn in Hr. destruct (decide (id ∈ dn)) as [Hd|Hd]; [by apply (U6 id r Hd Hr)|].
    destruct (Hother id r Hr Hd) as (r0 & Hr0 & E). eapply life_hint; [exact E|by eapply HL0].
  - intros id [r Hr]. cbn in Hr. destruct (decide (id ∈ dn)) as [Hd|Hd]; [|destruct (Hother id r Hr Hd) as (r0 & -> & _); by eexists].
    destruct (U6 id r Hd Hr) as (Hrun & _). apply (si_dom _ _ _ _ _ _ I). apply elem_of_app. by left.
  - intros id [_ Hin]%list_elem_of_filter. done.
Qed.
End Output.
