(* ===== verification/Engine.v ===== *)
(** * The engine core

    [EngineCore] of [vllm/v1/engine/core.py] drives the scheduler: requests are added
    and aborted, [step] schedules, executes the model, applies the aborts that came in
    meanwhile and hands the output back to the scheduler, and [post_step] passes on
    draft tokens.  The executor is a parameter: a function from what was scheduled to
    what the workers return.  The invariant of the scheduler is preserved by all of
    this for the synchronous scheduler, so no operation raises. *)

From Corelib Require Import SpecFloat.
From S2P Require Import Prelude PyFloat Request HeapQ RequestQueue FreeQueue BlockHash BlockPool KVCacheSpec SingleType CacheHit Coordinator CoordinatorSpec KVCacheManager KVContract SchedUtils OrderedDict EncoderCache EncoderSched SchedState Scheduler SchedQueues SchedInv SchedStep SchedulerSpec SchedFinish SchedOutput KVContractUnitary.

Section Engine.
Context {env : KVEnv} {K : Type} {pl : Plugins K} (cfg : SchedulerConfig).
Context (set_order : list Z → list Z) (block_hasher : option (Request → res (list bytes))).
Implicit Types (s : Scheduler K) (r : Request).

(** ** The code *)

(** [Scheduler.__init__]: no requests. *)
Definition Scheduler_init (kv : KVCacheManager) (enc : encoder_cache) (include_finished_set : bool) (p : K) : Scheduler K :=
  mkScheduler K ∅ ∅ (create_request_queue (policy cfg)) (create_request_queue (policy cfg)) [] ∅
    (if include_finished_set then Some ∅ else None) ∅ 0 UNPAUSED kv enc 0 0 0 0 p.

Definition has_unfinished_requests s : bool := bool_decide (0 < get_num_unfinished_requests s).
Definition has_requests s : bool := has_unfinished_requests s || has_finished_requests s.

Definition engine_abort_requests s (request_ids : list string) : res (Scheduler K) :=
  '(s, _) ← finish_requests set_order s request_ids FINISHED_ABORTED; Ok s.

(** [add_request], after the checks of the type of the id and of the pooling task. *)
Definition engine_add_request s r (abort_immediately : bool) : res (Scheduler K) :=
  s ← add_request_to_scheduler set_order block_hasher s r;
  if abort_immediately then engine_abort_requests s [request_id r] else Ok s.

(** [step]; [aborts] are the ids in the aborts queue, each once. *)
Definition engine_step s (execute_model : SchedulerOutput → ModelRunnerOutput) (aborts : list string) (now : float64)
    : res (Scheduler K * list EngineCoreOutput * bool) :=
  if negb (has_requests s) then Ok (s, [], false)
  else
    '(s, out) ← schedule cfg set_order s;
    let model_output := execute_model out in
    s ← (if is_nil aborts then Ok s else engine_abort_requests s aborts);
    '(s, outputs, _) ← update_from_output cfg set_order block_hasher s out model_output now;
    Ok (s, outputs, bool_decide (0 < so_total_num_scheduled_tokens out)).

Definition engine_post_step s (use_spec_decode model_executed : bool) (draft_token_ids : option (list (string * list Z)))
    : Scheduler K :=
  if negb (async_scheduling cfg) && use_spec_decode && model_executed then
    match draft_token_ids with Some ds => update_draft_token_ids s ds | None => s end
  else s.
End Engine.

(** ** The invariant *)

Section Safe.
Context {env : KVEnv} {K : Type} {pl : Plugins K} (cfg : SchedulerConfig).
Context {hashed : Request → Prop} `{KV : !KVContract (max_model_len cfg) hashed} `{PL : !PluginLaws cfg}.
Context (set_order : list Z → list Z) (Hord : ∀ l, set_order l ≡ₚ l).
Context (block_hasher : option (Request → res (list bytes))) `{HL : !HasherLaws hashed block_hasher}.
Context (Hcfg : cfg_ok cfg) (Hsync : async_scheduling cfg = false) (Hlora : max_loras cfg = None).
Implicit Types (s : Scheduler K) (r : Request) (t : gmap string Z) (w k : list string) (id : string).
Implicit Types (out : SchedulerOutput) (mro : ModelRunnerOutput).

(** Between two steps. *)
Definition engine_inv s : Prop :=
  ∃ t w k, SchedInv cfg s t w k [] ∧ prev_ok s ∧ all_ready cfg s ∧ all_life cfg s.

Lemma no_loras s : loras_fit cfg s.
Proof. intros n ids. by rewrite Hlora. Qed.

Lemma engine_init kv enc fin p :
  kv_ok kv ∅ → 0 ≤ max_num_running_reqs cfg → engine_inv (Scheduler_init cfg kv enc fin p).
Proof.
  intros Hkv Hmax. exists ∅, [], []. split_and!.
  - split; cbn; try done; [apply holds_create..|constructor|].
    intros id. rewrite lookup_empty. split; [by intros []|by intros ?%not_elem_of_nil].
  - intros id r Hin. by apply elem_of_empty in Hin.
  - intros id r Hin. by apply not_elem_of_nil in Hin.
  - intros id r Hr. cbn in Hr. by rewrite lookup_empty in Hr.
Qed.

(** A step keeps what the life of a request depends on. *)
Lemma same_life s s' : same_requests s s' → all_life cfg s → all_life cfg s'.
Proof.
  intros F HL0 id r' Hr'. destruct (same_requests_lookup _ _ _ _ F Hr') as (r & Hr & E).
  assert (∀ {A} (f : Request → A), (∀ r, f (erase r) = f r) → f r' = f r) as Hf by (intros A f Hfe; by rewrite -Hfe E Hfe).
  destruct (HL0 id r Hr) as [L1 L2 L3].
  pose proof (Hf _ resumable ltac:(done)) as E1. pose proof (Hf _ num_output_placeholders ltac:(done)) as E2.
  pose proof (Hf _ pooling_params ltac:(done)) as E3. pose proof (Hf _ sampling_params ltac:(done)) as E4.
  pose proof (Hf _ num_tokens ltac:(done)) as E5. pose proof (Hf _ num_output_tokens ltac:(done)) as E6.
  split; [congruence|congruence|]. rewrite E3. intros (P & sp & Hsp & Hle)%L3. split; [congruence|]. exists sp. split; [congruence|lia].
Qed.

(** ** Scheduling puts a step in flight *)

Lemma schedule_flight s t w k :
  SchedInv cfg s t w k [] → prev_ok s → all_ready cfg s → all_life cfg s →
  ∃ s' out t' w' k', schedule cfg set_order s = Ok (s', out) ∧ SchedInv cfg s' t' w' k' [] ∧ prev_ok s' ∧
    step_promises cfg s s' t' out ∧ Flight cfg s' out ∧ all_life cfg s'.
Proof.
  intros I Hp Hr HL0.
  destruct (schedule_spec cfg Hcfg set_order Hord s t w k I Hp Hr (no_loras s)) as (s' & out & t' & w' & k' & E & I' & Hp' & Pr & _).
  pose proof (same_life _ _ (pr_sync _ _ _ _ _ Pr Hsync) HL0) as HL1.
  exists s', out, t', w', k'. split_and!; try done. split.
  - apply Pr.
  - intros id n Hin. apply (pr_slots _ _ _ _ _ Pr id n Hin).
  - intros id ([id' n] & -> & Hin)%list_elem_of_fmap _. by apply (pr_slots _ _ _ _ _ Pr id' n).
  - intros id r ([id' n] & -> & Hin)%list_elem_of_fmap Hr'. cbn in Hr' |- *.
    destruct (pr_drafts _ _ _ _ _ Pr Hsync id' n r Hin Hr') as [H1 H2]. rewrite (lo_placeholders _ _ (HL1 _ _ Hr')) in H1 H2.
    unfold drafts_of. split; [lia|]. destruct (od_get _ id') as [ds|] eqn:Ed; [|done]. intros _. cbn. pose proof (H2 ds eq_refl). lia.
  - intros id r Hin Hni Hr'. by eapply pr_idle.
Qed.

(** ** Aborts *)

Lemma hint_lookup {ids s s'} id r' :
  (∀ id, option_Forall2 hint_eq (keep ids (sc_requests s) !! id) (sc_requests s' !! id)) →
  sc_requests s' !! id = Some r' → (id ∉ ids) ∧ ∃ r, sc_requests s !! id = Some r ∧ hint_eq r r'.
Proof.
  intros H Hr. specialize (H id). rewrite Hr lookup_keep in H. case_decide; inversion H; eauto.
Qed.

Lemma abort_spec s t w k ids :
  SchedInv cfg s t w k [] → prev_ok s → all_life cfg s → NoDup ids →
  ∃ s' t' w' k', engine_abort_requests set_order s ids = Ok s' ∧ SchedInv cfg s' t' w' k' [] ∧ prev_ok s' ∧ all_life cfg s' ∧
    (all_ready cfg s → all_ready cfg s') ∧
    ∀ out, Flight cfg s out → Flight cfg s' out ∧ ∀ mro, runner_ok s out mro → runner_ok s' out mro.
Proof.
  intros I Hp HL0 Hnd. unfold engine_abort_requests.
  destruct (finish_requests_spec cfg set_order Hord s t w k ids FINISHED_ABORTED I Hnd eq_refl)
    as (s' & cl & t' & -> & I' & Er & Hh & Ep & _). cbn [mbind res_bind].
  eexists s', t', _, _. split; [reflexivity|]. split; [exact I'|]. split_and!.
  - intros id r Hin Hr. rewrite Ep in Hin. destruct (hint_lookup id r Hh Hr) as (_ & r0 & Hr0 & E). rewrite E. by apply (Hp id r0).
  - intros id r Hr. destruct (hint_lookup id r Hh Hr) as (_ & r0 & Hr0 & E). eapply life_hint; [exact E|by eapply HL0].
  - intros Hready id r Hin Hr. rewrite Er in Hin. apply list_elem_of_filter in Hin as [_ Hin].
    destruct (hint_lookup id r Hh Hr) as (_ & r0 & Hr0 & E). eapply run_ready_hint; [exact E|by eapply Hready].
  - intros out [F1 F2 F3 F4 F5]. split.
    + split; [done|done|..].
      * intros id Hk [r Hr]. destruct (hint_lookup id r Hh Hr) as (Hni & r0 & Hr0 & _). rewrite Er. apply list_elem_of_filter.
        split; [done|]. apply F3; [done|by rewrite Hr0].
      * intros id r Hk Hr. destruct (hint_lookup id r Hh Hr) as (_ & r0 & Hr0 & E). rewrite E. by apply (F4 id r0).
      * intros id r Hin Hk Hr. rewrite Er in Hin. apply list_elem_of_filter in Hin as [_ Hin].
        destruct (hint_lookup id r Hh Hr) as (_ & r0 & Hr0 & E). eapply run_ready_hint; [exact E|by eapply F5].
    + intros mro HR id r Hk Hr. destruct (hint_lookup id r Hh Hr) as (_ & r0 & Hr0 & E).
      destruct (HR id r0 Hk Hr0) as (i & gs & H). exists i, gs. by rewrite E.
Qed.

(** ** A step *)

Lemma step_spec s execute aborts now :
  engine_inv s → NoDup aborts →
  (∀ s' out, schedule cfg set_order s = Ok (s', out) → runner_ok s' out (execute out)) →
  ∃ s' outs b, engine_step cfg set_order block_hasher s execute aborts now = Ok (s', outs, b) ∧ engine_inv s'.
Proof.
  intros HI Hnd HR. unfold engine_step. destruct (negb (has_requests s)); [by eexists s, [], false|].
  destruct HI as (t & w & k & I & Hp & Hr & HL0).
  destruct (schedule_flight s t w k I Hp Hr HL0) as (s1 & out & t1 & w1 & k1 & E & I1 & Hp1 & _ & F1 & HL1).
  rewrite E. cbn [mbind res_bind]. pose proof (HR s1 out E) as HR1.
  assert (∃ s2 t2 w2 k2, (if is_nil aborts then Ok s1 else engine_abort_requests set_order s1 aborts) = Ok s2 ∧
    SchedInv cfg s2 t2 w2 k2 [] ∧ prev_ok s2 ∧ all_life cfg s2 ∧ Flight cfg s2 out ∧ runner_ok s2 out (execute out))
    as (s2 & t2 & w2 & k2 & -> & I2 & Hp2 & HL2 & F2 & HR2).
  { destruct (is_nil aborts); [by exists s1, t1, w1, k1|].
    destruct (abort_spec s1 t1 w1 k1 aborts I1 Hp1 HL1 Hnd) as (s2 & t2 & w2 & k2 & ? & ? & ? & ? & _ & HF).
    destruct (HF out F1) as [? HR2]. exists s2, t2, w2, k2. split_and!; auto. }
  cbn [mbind res_bind].
  destruct (update_from_output_spec cfg set_order Hord block_hasher Hsync s2 t2 w2 k2 out (execute out) now I2 Hp2 F2 HR2 HL2)
    as (s3 & outs & fin & t3 & -> & I3 & Hp3 & Hr3 & HL3 & _). cbn [mbind res_bind].
  eexists s3, outs, _. split; [reflexivity|]. by exists t3, w2, k2.
Qed.

(** ** The other operations *)

Lemma add_spec s r b :
  engine_inv s → sc_requests s !! request_id r = None → new_request cfg (hashed := hashed) r → life_ok cfg r →
  ∃ s', engine_add_request set_order block_hasher s r b = Ok s' ∧ engine_inv s'.
Proof.
  intros (t & w & k & I & Hp & Hr & HL0) Hn N Lr. unfold engine_add_request.
  destruct (add_request_spec cfg set_order Hord block_hasher s t w k r I Hn N)
    as (s1 & w1 & k1 & r1 & -> & I1 & Er & _ & Hh & Hr1 & Hoth & Ep & _). cbn [mbind res_bind].
  assert (∀ id r', sc_requests s1 !! id = Some r' → (id = request_id r ∧ r' = r1) ∨
    (id ≠ request_id r ∧ ∃ r0, sc_requests s !! id = Some r0 ∧ hint_eq r0 r')) as Hcase.
  { intros id r' Hr'. destruct (decide (id = request_id r)) as [->|Hne]; [left; split; [done|congruence]|right; split; [done|]].
    specialize (Hoth id Hne). rewrite Hr' in Hoth. inversion Hoth; eauto. }
  assert (prev_ok s1) as Hp1.
  { intros id r' Hin Hr'. destruct (Hcase id r' Hr') as [[-> ->]|(_ & r0 & Hr0 & E)].
    - rewrite Hh. cbn. by destruct (nr_status _ _ N) as [-> | ->].
    - rewrite E. rewrite Ep in Hin. by apply (Hp id r0). }
  assert (all_life cfg s1) as HL1.
  { intros id r' Hr'. destruct (Hcase id r' Hr') as [[-> ->]|(_ & r0 & Hr0 & E)];
      (eapply life_hint; [eassumption|]); [done|by eapply HL0]. }
  assert (all_ready cfg s1) as Hready1.
  { intros id r' Hin Hr'. rewrite Er in Hin. destruct (Hcase id r' Hr') as [[-> ->]|(_ & r0 & Hr0 & E)].
    - destruct (inv_running _ _ _ _ _ _ _ I Hin) as (? & ? & _). congruence.
    - eapply run_ready_hint; [exact E|by eapply Hr]. }
  destruct b; [|exists s1; split; [done|by exists t, w1, k1]].
  destruct (abort_spec s1 t w1 k1 [request_id r] I1 Hp1 HL1) as (s2 & t2 & w2 & k2 & -> & I2 & Hp2 & HL2 & Hr2 & _);
    [apply NoDup_singleton|]. exists s2. split; [done|]. exists t2, w2, k2. split_and!; auto.
Qed.

(** Changing the drafts of a request. *)
Lemma draft_spec s id r ds :
  engine_inv s → sc_requests s !! id = Some r → engine_inv (put_request s (set_spec_token_ids r ds)).
Proof.
  intros (t & w & k & I & Hp & Hr & HL0) Hid. pose proof (si_store _ _ _ _ _ _ I id r Hid) as Hok.
  assert (∀ id' r', sc_requests (put_request s (set_spec_token_ids r ds)) !! id' = Some r' →
    (id' = id ∧ r' = set_spec_token_ids r ds) ∨ sc_requests s !! id' = Some r') as Hcase.
  { intros id' r'. unfold put_request. cbn. rewrite (ro_id _ _ _ _ Hok). destruct (decide (id' = id)) as [->|Hne].
    - rewrite lookup_insert_eq. intros [= <-]. by left.
    - rewrite lookup_insert_ne //. by right. }
  exists t, w, k. split_and!.
  - eapply SchedInv_put; [done|exact Hid|done| | |].
    + destruct Hok. split; try done. by eapply law_hashed.
    + intros Hin. exact (si_running _ _ _ _ _ _ I _ _ Hid Hin).
    + intros Hin. exact (si_queued _ _ _ _ _ _ I _ _ Hid Hin).
  - intros id' r' Hin [[-> ->]|Hr']%Hcase; [by apply (Hp id r)|by apply (Hp id' r')].
  - intros id' r' Hin [[-> ->]|Hr']%Hcase; [|by apply (Hr id')]. destruct (Hr id r Hin Hid) as [H1 H2].
    by split.
  - intros id' r' [[-> ->]|Hr']%Hcase; [destruct (HL0 id r Hid); by split|by eapply HL0].
Qed.

Lemma drafts_spec ds : ∀ s, engine_inv s → engine_inv (update_draft_token_ids s ds).
Proof.
  unfold update_draft_token_ids. induction ds as [|[id d] ds IH]; intros s I; cbn [foldl fst snd]; [done|].
  apply IH. destruct (sc_requests s !! id) as [r|] eqn:Hr; [|done]. destruct (is_finished r); [done|].
  destruct (is_prefill_chunk r); by eapply draft_spec.
Qed.

Lemma reset_spec s :
  engine_inv s → ∃ s' b, sched_reset_prefix_cache set_order s false = Ok (s', b) ∧ engine_inv s'.
Proof.
  intros (t & w & k & I & Hp & Hr & HL0). unfold sched_reset_prefix_cache. cbn [mbind res_bind].
  destruct (law_reset (kv_cache_manager s) t (si_kv _ _ _ _ _ _ I)) as [Hkv _].
  destruct (km_reset_prefix_cache (kv_cache_manager s)) as [m b]. eexists _, b. split; [reflexivity|].
  exists t, w, k. split_and!; [by apply SchedInv_kv|done..].
Qed.

(** ** Runs of the engine *)

Inductive engine_op :=
  | OpAdd (r : Request) (abort_immediately : bool)
  | OpAbort (request_ids : list string)
  | OpStep (execute_model : SchedulerOutput → ModelRunnerOutput) (aborts : list string) (now : float64)
  | OpPostStep (use_spec_decode model_executed : bool) (draft_token_ids : option (list (string * list Z)))
  | OpPause (p : PauseState)
  | OpResetPrefixCache.

Definition run_engine_op s (o : engine_op) : res (Scheduler K) :=
  match o with
  | OpAdd r b => engine_add_request set_order block_hasher s r b
  | OpAbort ids => engine_abort_requests set_order s ids
  | OpStep execute aborts now => '(s, _, _) ← engine_step cfg set_order block_hasher s execute aborts now; Ok s
  | OpPostStep b1 b2 ds => Ok (engine_post_step cfg s b1 b2 ds)
  | OpPause p => Ok (set_pause_state s p)
  | OpResetPrefixCache => '(s, _) ← sched_reset_prefix_cache set_order s false; Ok s
  end.

(** The operations the engine theorems speak of.  A request that is added has a fresh id,
    only text, no session ([life_ok]: not resumable), at least one and fewer than
    [max_model_len] tokens, and a [min_tokens] that [max_model_len] leaves room for; ids
    are aborted once; the workers answer for every request they were given, with at most
    one token more than the drafts ([runner_ok]).  The code accepts more: multi-modal
    requests (their scheduling is treated in EncoderSched), resumable sessions and
    prompts that cannot be finished, for which SchedFindings shows what goes wrong, and
    a reset that preempts the running requests. *)
Definition op_allowed s (o : engine_op) : Prop :=
  match o with
  | OpAdd r _ => sc_requests s !! request_id r = None ∧ new_request cfg (hashed := hashed) r ∧ life_ok cfg r
  | OpAbort ids => NoDup ids
  | OpStep execute aborts _ =>
      NoDup aborts ∧ ∀ s' out, schedule cfg set_order s = Ok (s', out) → runner_ok s' out (execute out)
  | _ => True
  end.

Inductive engine_reach : Scheduler K → Prop :=
  | engine_reach_init kv enc fin p : kv_ok kv ∅ → engine_reach (Scheduler_init cfg kv enc fin p)
  | engine_reach_step s o s' : engine_reach s → op_allowed s o → run_engine_op s o = Ok s' → engine_reach s'.

Lemma run_op_spec s o : engine_inv s → op_allowed s o → ∃ s', run_engine_op s o = Ok s' ∧ engine_inv s'.
Proof.
  intros I Ho. destruct o as [r b|ids|execute aborts now|b1 b2 ds|p|]; cbn [run_engine_op].
  - destruct Ho as (H1 & H2 & H3). by apply add_spec.
  - destruct I as (t & w & k & I & Hp & Hr & HL0).
    destruct (abort_spec s t w k ids I Hp HL0 Ho) as (s' & t' & w' & k' & -> & I' & ? & ? & ? & _).
    exists s'. split; [done|]. exists t', w', k'. split_and!; auto.
  - destruct Ho as [Hnd HR]. destruct (step_spec s execute aborts now I Hnd HR) as (s' & outs & b & -> & I'). by exists s'.
  - eexists. split; [reflexivity|]. unfold engine_post_step. destruct (_ && b1 && b2); [|done].
    destruct ds; [by apply drafts_spec|done].
  - eexists. split; [reflexivity|]. destruct I as (t & w & k & I & Hp & Hr & HL0). exists t, w, k.
    split_and!; [|done..]. eapply SchedInv_core; [|exact I]. done.
  - destruct (reset_spec s I) as (s' & b & -> & I'). by exists s'.
Qed.

Lemma reach_inv s : 0 ≤ max_num_running_reqs cfg → engine_reach s → engine_inv s.
Proof.
  intros Hm. induction 1 as [kv enc fin p Hkv|s o s' _ IH Ho E]; [by apply engine_init|].
  destruct (run_op_spec s o IH Ho) as (s1 & E1 & I1). congruence.
Qed.

(** The requests are where the scheduler looks for them. *)
Definition requests_accounted s : Prop :=
  ∃ w k, @queue_iter _ _ (queue_ops s) (waiting s) = Ok w ∧ @queue_iter _ _ (queue_ops s) (skipped_waiting s) = Ok k ∧
    NoDup (running s ++ w ++ k) ∧ zlen (running s) ≤ max_num_running_reqs cfg ∧
    (∀ id, is_Some (sc_requests s !! id) ↔ id ∈ running s ++ w ++ k) ∧
    (∀ id r, sc_requests s !! id = Some r →
       request_id r = id ∧ is_finished r = false ∧ (status r = RUNNING ↔ id ∈ running s) ∧
       0 < num_tokens r ≤ max_model_len cfg ∧ (id ∈ running s → 0 ≤ num_computed_tokens r ≤ num_tokens r)).

Lemma inv_accounted s : engine_inv s → requests_accounted s.
Proof.
  intros (t & w & k & I & Hp & Hr & HL0). pose proof I as [I1 I2 I3 I4 I5 I6 I7 I8 I9 I10]. rewrite app_nil_r in I5, I6.
  exists w, k. split_and!; try done; [by eapply holds_iter..|]. intros id r Hid. destruct (I2 id r Hid) as [O1 _ _ _ O5 O6 O7].
  split; [done|]. destruct (decide (id ∈ running s)) as [Hin|Hin].
  - destruct (I7 id r Hid Hin) as [R1 R2]. destruct (Hr id r Hin Hid) as [H1 H2]. destruct (HL0 id r Hid) as [_ Hpl _].
    unfold is_finished. rewrite R1. split_and!; try done; lia.
  - destruct (I8 id r Hid Hin) as [Q1 _]. unfold is_finished. destruct (status r); try done; split_and!; try done; lia.
Qed.

(** ** Main properties *)

(** C1: the engine core does not fail on text requests.  Scope: the synchronous scheduler
    without LoRA adapters, with any KV cache that keeps [KVContract] (proved for the
    manager with one group, and for any groups without prefix caching) and plug-ins that
    keep [PluginLaws]; started empty and given a sequence of operations that
    [op_allowed] permits: text requests that are not resumable and fit [max_model_len]
    are added under fresh ids, requests are aborted, steps are scheduled and executed,
    with aborts between scheduling and output, drafts are delivered, the scheduler is
    paused and resumed, the prefix cache is reset without preempting the running
    requests.  Then the next such operation returns, and in the state it leads to every
    request is in exactly one of the running list, the waiting queue and the skipped
    queue, no more requests run than allowed, the running ones are exactly those with
    status RUNNING, and none has more computed tokens than tokens. *)
Theorem engine_safe s o :
  0 ≤ max_num_running_reqs cfg → engine_reach s → op_allowed s o →
  ∃ s', run_engine_op s o = Ok s' ∧ engine_reach s' ∧ requests_accounted s'.
Proof.
  intros Hm HR Ho. destruct (run_op_spec s o (reach_inv s Hm HR) Ho) as (s' & E & I').
  exists s'. split_and!; [done|by eapply engine_reach_step|by apply inv_accounted].
Qed.

(** What a step may hand to the workers. *)
Definition step_within_limits s s' out : Prop :=
  so_total_num_scheduled_tokens out = sum_tokens (so_num_scheduled_tokens out) ∧
  so_total_num_scheduled_tokens out ≤ max_num_scheduled_tokens cfg ∧
  NoDup (so_num_scheduled_tokens out).*1 ∧
  (∀ id n, (id, n) ∈ so_num_scheduled_tokens out → 0 < n ∧ id ∈ running s' ∧
     ∃ r r', sc_requests s !! id = Some r ∧ sc_requests s' !! id = Some r' ∧
       all_token_ids r' = all_token_ids r ∧ output_token_ids r' = output_token_ids r ∧
       n ≤ num_computed_tokens r' ≤ num_tokens r' + zlen (drafts_of out id)) ∧
  (pause_state s = PAUSED_ALL → so_num_scheduled_tokens out = []) ∧
  (pause_state s ≠ UNPAUSED → so_scheduled_new_reqs out = []).

(** C3: [schedule] returns and stays within its limits.  From every state that the
    synchronous engine without LoRA adapters reaches by the operations of [op_allowed]
    (text requests, no sessions), the step schedules at most [max_num_scheduled_tokens]
    tokens, which is also the sum it reports, each request once and with at least one
    token; a scheduled request is running afterwards, its tokens are those it had, and
    at most its tokens and the scheduled drafts are computed; nothing is scheduled when
    all is paused, and no new request when new ones are. *)
Theorem schedule_within_limits s :
  0 ≤ max_num_running_reqs cfg → engine_reach s →
  ∃ s' out, schedule cfg set_order s = Ok (s', out) ∧ step_within_limits s s' out.
Proof.
  intros Hm HR. destruct (reach_inv s Hm HR) as (t & w & k & I & Hp & Hr & HL0).
  destruct (schedule_spec cfg Hcfg set_order Hord s t w k I Hp Hr (no_loras s))
    as (s' & out & t' & w' & k' & E & I' & Hp' & [P1 P2 P3 P4 P5 P6 P7 P8] & Hall & Hnew).
  exists s', out. split; [done|]. split_and!; [apply P1|apply P1|done| |done|done].
  intros id n Hin. destruct (P3 id n Hin) as (H1 & H2 & r' & Hr' & H3). split_and!; [done|done|].
  destruct (same_requests_lookup _ _ _ _ (P5 Hsync) Hr') as (r & Hid & Ee). exists r, r'.
  assert (∀ {A} (f : Request → A), (∀ r, f (erase r) = f r) → f r' = f r) as Hf by (intros A f Hfe; by rewrite -Hfe Ee Hfe).
  split_and!; [done|done|by apply (Hf _ all_token_ids)|by apply (Hf _ output_token_ids)|lia|].
  destruct (P6 Hsync id n r' Hin Hr') as [H4 _]. unfold drafts_of.
  pose proof (lo_placeholders _ _ (same_life _ _ (P5 Hsync) HL0 _ _ Hr')). lia.
Qed.
End Safe.
