(* ===== verification/EngineMemory.v ===== *)
(** * The engine on a KV cache of one group

    The contract of the KV cache manager is discharged by [KVContractUnitary.v], so the
    theorems of [Engine.v] hold for the code of the manager itself, with the hashes of
    [get_request_block_hasher].  Scheduled tokens have blocks, and no block of a
    request is free.  A concrete engine runs at the end. *)

From Corelib Require Import SpecFloat.
From S2P Require Import Prelude PyFloat Request HeapQ RequestQueue FreeQueue BlockHash BlockPool KVCacheSpec SingleType CacheHit ManagerSpec Coordinator CoordinatorSpec KVCacheManager KVCacheManagerSpec KVContract SchedUtils OrderedDict EncoderCache EncoderSched SchedState Scheduler SchedQueues SchedInv SchedStep SchedulerSpec SchedFinish SchedOutput KVContractUnitary Engine.

Section Memory.
Context {env : KVEnv} {K : Type} {pl : Plugins K} (cfg : SchedulerConfig) (hbs : Z) (caching : bool).
Context (hash_function : bytes * list Z * option (list extra_key) → bytes) (NONE_HASH : bytes) (sha256 : bytes → bytes).
Context (hash_inj : ∀ x y, hash_function x = hash_function y → x = y)
        (hash_not_none : ∀ x, hash_function x ≠ NONE_HASH) (hash_nonempty : ∀ x, hash_function x ≠ []).
Context (Hbs : 0 < hbs).
Implicit Types (s : Scheduler K) (out : SchedulerOutput).

#[local] Abbreviation text := (text_hashed hbs caching hash_function NONE_HASH sha256).
#[local] Abbreviation hasher := (engine_hasher hbs caching hash_function NONE_HASH sha256).

Definition engine_contract : KVContract (max_model_len cfg) text :=
  text_contract (max_model_len cfg) hbs caching hash_function NONE_HASH sha256 hash_inj hash_not_none hash_nonempty Hbs.

#[local] Existing Instance engine_contract.
#[local] Instance engine_hasher_laws : HasherLaws text hasher := text_hasher_laws hbs caching hash_function NONE_HASH sha256 Hbs.

Context `{PL : !PluginLaws cfg (hashed := text)}.
Context (set_order : list Z → list Z) (Hord : ∀ l, set_order l ≡ₚ l).
Context (Hcfg : cfg_ok cfg) (Hsync : async_scheduling cfg = false) (Hlora : max_loras cfg = None).

(** The blocks of the scheduled requests cover their tokens, and none of them is free. *)
Definition tokens_have_blocks s out : Prop :=
  let m := kv_cache_manager s in
  ∃ free, get_all_free_blocks (Z.to_nat (num_gpu_blocks (km_pool m))) (free_block_queue (km_pool m)) = Ok (Some free) ∧
  ∀ id n, (id, n) ∈ so_num_scheduled_tokens out →
    ∃ r, sc_requests s !! id = Some r ∧
    ∀ g, g ∈ single_type_managers (coordinator m) →
      num_computed_tokens r ≤ zlen (blocks_of g id) * block_size g ∧ ∀ b, b ∈ blocks_of g id → b ∉ free.

Lemma table_not_free m l g id b :
  KmOk m l → g ∈ single_type_managers (coordinator m) → b ∈ blocks_of g id → b ∉ l.
Proof.
  intros HK Hg Hb Hfree. pose proof (co_inv _ _ (ko_coord _ _ HK)) as [I HL HR].
  rewrite Forall_forall in HL. destruct (HL g Hg) as [_ _ _ _ _ HT _].
  assert (pool_ref (block_pool (coordinator m)) b) as Hp.
  { unfold blocks_of in Hb. destruct (req_to_blocks g !! id) as [bs|] eqn:E; [|by apply not_elem_of_nil in Hb].
    destruct (HT id bs E) as [Hall _ _ _ _]. rewrite Forall_forall in Hall. by apply Hall. }
  assert (b ≠ null_block (block_pool (coordinator m))) as Hn by (intros ->; by apply (pi_null_free _ _ I)).
  apply (pi_refs _ _ I b Hp Hn) in Hfree. rewrite (HR b Hp Hn) in Hfree. by apply (proj1 (total_held_zero _ _) Hfree g id Hg).
Qed.

(** C2: the tokens of a step have their memory.  For the synchronous engine without LoRA
    adapters, in every state it reaches by the operations of [op_allowed] (text requests,
    no sessions), with a KV cache manager that has one group, or any groups without
    prefix caching, and a hash function without collisions: the step that is scheduled
    next gives each scheduled request tables that cover all its computed tokens in every
    group, and no block of such a table is in the free queue. *)
Theorem scheduled_tokens_have_blocks s :
  0 ≤ max_num_running_reqs cfg → engine_reach cfg set_order hasher s →
  ∃ s' out, schedule cfg set_order s = Ok (s', out) ∧ tokens_have_blocks s' out.
Proof.
  intros Hm HR. destruct (reach_inv cfg set_order Hord hasher Hcfg Hsync Hlora s Hm HR) as (t & w & k & I & Hp & Hr & HL0).
  destruct (schedule_spec cfg Hcfg set_order Hord s t w k I Hp Hr (no_loras cfg Hlora s))
    as (s' & out & t' & w' & k' & E & I' & _ & [_ _ P3 _ _ _ _ _] & _).
  exists s', out. split; [done|]. destruct (si_kv _ _ _ _ _ _ I') as [[l HK] _ _ _ _ HT].
  exists l. split; [apply PoolInv_walk, (co_inv _ _ (ko_coord _ _ HK))|].
  intros id n Hin. destruct (P3 id n Hin) as (Hn & _ & r & Hid & Hle). exists r. split; [done|]. intros g Hg.
  split; [|intros b; by apply (table_not_free _ _ g id b HK)].
  pose proof (HT g id Hg) as HTg. unfold tok in Hle. destruct (t' !! id) as [c|]; cbn in Hle; [lia|].
  lia.
Qed.
End Memory.

(** ** A concrete engine *)

Definition demo_cfg : SchedulerConfig :=
  mkSchedulerConfig 2 8 16 FCFS 0 true false false 0 0 false 2 None 0 false false false false false.

Definition one_group : KVCacheConfig :=
  mkConfig 9 [mkGroup (FullAttentionSpec 2 sample_attn (mkFull 64 None None)) false].

Definition demo_hasher : option (Request → res (list bytes)) := engine_hasher 2 true sample_hash sample_none sample_sha.

Definition demo_contract : KVContract (max_model_len demo_cfg) (text_hashed 2 true sample_hash sample_none sample_sha) :=
  engine_contract demo_cfg 2 true sample_hash sample_none sample_sha sample_hash_inj ltac:(done) ltac:(done) eq_refl.

#[local] Existing Instance demo_contract.
#[local] Existing Instance no_plugins_laws.

Definition demo_hasher_laws : HasherLaws (text_hashed 2 true sample_hash sample_none sample_sha) demo_hasher :=
  text_hasher_laws 2 true sample_hash sample_none sample_sha eq_refl.

#[local] Existing Instance demo_hasher_laws.

Definition demo_kv : KVCacheManager := Eval vm_compute in
  match KVCacheManager_init one_group 16 2 None true false false 1 1 with Ok m => m | Raise _ => sample_km end.

Definition demo_params : SamplingParams := mkSampling (Some 4) 0 (Some 9) [] [9] None None.

(** A prompt of three tokens. *)
Definition demo_request : Request := Eval vm_compute in
  match Request_init demo_hasher "r" (Some [1; 2; 3]) (Some demo_params) None 0 (float_of_Z 1) None [] None None 0 None
          false false with Ok r => r | Raise _ => no_request end.

(** The model samples token 7. *)
Definition demo_output : ModelRunnerOutput := mkModelRunnerOutput {["r" := 0%nat]} [[7]] [].

Definition demo_start : Scheduler unit :=
  Scheduler_init demo_cfg demo_kv (MultiModalCache (EncoderCacheManager_init 0)) false tt.

(** The engine after the request was added, and when it is scheduled. *)
Definition demo_added : Scheduler unit := Eval vm_compute in
  match engine_add_request id demo_hasher demo_start demo_request false with Ok s => s | Raise _ => demo_start end.

Definition demo_scheduled : Scheduler unit * list (string * Z) := Eval vm_compute in
  match schedule demo_cfg id demo_added with
  | Ok (s, out) => (s, so_num_scheduled_tokens out) | Raise _ => (demo_start, []) end.

Lemma demo_cfg_ok : cfg_ok demo_cfg.
Proof. by split. Qed.

Lemma id_perm (l : list Z) : id l ≡ₚ l.
Proof. done. Qed.

Lemma one_group_ok : config_ok one_group true 1 1 2.
Proof.
  split; try done.
  - repeat constructor; by left.
  - intros _. split; [done|]. left. by eexists.
Qed.

Lemma demo_kv_ok : kv_ok demo_kv ∅.
Proof.
  destruct (unitary_init 16 2 true one_group None false false 1 1 one_group_ok) as (m & E & U).
  { intros _. by eexists. }
  assert (KVCacheManager_init one_group 16 2 None true false false 1 1 = Ok demo_kv) as E' by (vm_compute; reflexivity).
  assert (m = demo_kv) as -> by congruence. exact U.
Qed.

Lemma demo_allowed : op_allowed demo_cfg id (hashed := text_hashed 2 true sample_hash sample_none sample_sha)
  demo_start (OpAdd demo_request false).
Proof.
  split_and!.
  - done.
  - split; try done. by left.
  - split; try done. intros _. split; [done|]. by exists demo_params.
Qed.

Lemma demo_reach : engine_reach demo_cfg id demo_hasher demo_added.
Proof.
  eapply (engine_reach_step _ _ _ demo_start (OpAdd demo_request false)).
  - apply engine_reach_init. exact demo_kv_ok.
  - exact demo_allowed.
  - vm_compute. reflexivity.
Qed.

Definition demo_op : engine_op := OpStep (λ _, demo_output) [] (float_of_Z 2).

Lemma demo_op_allowed : op_allowed demo_cfg id (hashed := text_hashed 2 true sample_hash sample_none sample_sha) demo_added demo_op.
Proof.
  split; [constructor|]. intros s out E.
  assert (s = demo_scheduled.1 ∧ so_num_scheduled_tokens out = demo_scheduled.2 ∧ so_scheduled_spec_decode_tokens out = [])
    as (-> & E1 & E2) by (vm_compute in E; injection E as <- <-; split_and!; reflexivity).
  intros y r. unfold drafts_of. rewrite E1 E2. intros ->%list_elem_of_singleton Hr.
  exists 0%nat, [7]. vm_compute in Hr. apply (inj Some) in Hr. subst r.
  split_and!; [done|by right|done|done|done|by left].
Qed.

Lemma engine_safe_witness :
  ∃ s, run_engine_op demo_cfg id demo_hasher demo_added demo_op = Ok s ∧
    engine_reach demo_cfg id demo_hasher s ∧ requests_accounted demo_cfg s.
Proof.
  apply (engine_safe demo_cfg id id_perm demo_hasher demo_cfg_ok eq_refl eq_refl demo_added demo_op);
    [done|exact demo_reach|exact demo_op_allowed].
Defined.

Lemma schedule_within_limits_witness :
  ∃ s out, schedule demo_cfg id demo_added = Ok (s, out) ∧ step_within_limits demo_cfg demo_added s out.
Proof.
  apply (schedule_within_limits demo_cfg id id_perm demo_hasher demo_cfg_ok eq_refl eq_refl demo_added); [done|exact demo_reach].
Defined.

Lemma scheduled_tokens_have_blocks_witness :
  ∃ s out, schedule demo_cfg id demo_added = Ok (s, out) ∧ tokens_have_blocks s out.
Proof.
  apply (scheduled_tokens_have_blocks demo_cfg 2 true sample_hash sample_none sample_sha sample_hash_inj ltac:(done) ltac:(done)
    eq_refl id id_perm demo_cfg_ok eq_refl eq_refl demo_added); [done|exact demo_reach].
Defined.
