(* ===== verification/SchedFindings.v ===== *)
(** * Runs that show where the scheduler falls short

    Concrete runs of the model.  Each starts from an engine without requests and only
    uses operations the engine offers. *)

From Corelib Require Import SpecFloat.
From S2P Require Import Prelude PyFloat Request HeapQ RequestQueue FreeQueue BlockHash BlockPool KVCacheSpec SingleType CacheHit Coordinator CoordinatorSpec KVCacheManager SchedUtils OrderedDict EncoderCache EncoderSched SchedState Scheduler KVContract KVContractUnitary Engine EngineMemory.

(** ** Running the engine *)

Section Run.
Context (cfg : SchedulerConfig) (caching : bool).

Definition run_hasher : option (Request → res (list bytes)) := engine_hasher 2 caching sample_hash sample_none sample_sha.

(** An engine without requests. *)
Definition start : res (Scheduler unit) :=
  m ← KVCacheManager_init one_group (max_model_len cfg) 2 None caching false false 1 1;
  Ok (Scheduler_init cfg m (MultiModalCache (EncoderCacheManager_init 0)) false tt).

Definition request (id : string) (prompt : list Z) (sp : option SamplingParams) (pp : option PoolingParams)
    (lora : option LoRARequest) (resumable : bool) : res Request :=
  Request_init run_hasher id (Some prompt) sp pp 0 (float_of_Z 1) None [] lora None 0 None resumable false.

Definition add (r : res Request) (s : Scheduler unit) : res (Scheduler unit) :=
  r ← r; engine_add_request id run_hasher s r false.

(** The workers return the tokens [gs] for the request. *)
Definition answer (id : string) (gs : list Z) : ModelRunnerOutput := mkModelRunnerOutput {[id := 0%nat]} [gs] [].

(** [n] steps of the engine with the same answer. *)
Fixpoint steps (n : nat) (mro : ModelRunnerOutput) (s : Scheduler unit) : res (Scheduler unit) :=
  match n with
  | O => Ok s
  | S n => '(s, _, _) ← engine_step cfg id run_hasher s (λ _, mro) [] (float_of_Z 2); steps n mro s
  end.

(** Scheduling and output on their own, as the queue of batches interleaves them. *)
Definition just_schedule (s : Scheduler unit) : res (Scheduler unit * SchedulerOutput) := schedule cfg id s.
Definition just_update (out : SchedulerOutput) (mro : ModelRunnerOutput) (s : Scheduler unit) : res (Scheduler unit) :=
  '(s, _, _) ← update_from_output cfg id run_hasher s out mro (float_of_Z 2); Ok s.

(** What a step would schedule. *)
Definition scheduled (s : Scheduler unit) : res (list (string * Z)) :=
  '(_, out) ← schedule cfg id s; Ok (so_num_scheduled_tokens out).
End Run.

Definition small_cfg (loras : option Z) : SchedulerConfig :=
  mkSchedulerConfig 2 8 16 FCFS 0 true false false 0 0 false 2 loras 0 false false false false false.

Definition limit (min_tokens max_tokens : Z) : SamplingParams := mkSampling (Some max_tokens) min_tokens None [] [] None None.

(** ** A prompt as long as the context *)

(** A pooling request of 16 tokens, the maximum, in steps of at most 8. *)
Definition pooling_run : res (Z * Z * list (string * Z)) :=
  let cfg := small_cfg None in
  s ← start cfg false;
  s ← add false (request false "p" (zrange 0 16) None (Some (mkPooling None)) None false) s;
  s ← steps cfg false 2 (mkModelRunnerOutput {["p" := 0%nat]} [] [false]) s;
  r ← get_request s "p";
  n ← scheduled cfg s;
  Ok (num_computed_tokens r, num_tokens r, n).

(** The input check of a pooling model accepts a prompt of [max_model_len] tokens, but a
    running request is never scheduled beyond [max_model_len - 1] tokens: after two
    steps one token is missing, and nothing is scheduled any more. *)
Theorem full_prompt_stalls : pooling_run = Ok (15, 16, []).
Proof. vm_compute. reflexivity. Qed.

(** ** A minimal number of tokens beyond the context *)

Definition min_tokens_run : res (Z * Z * RequestStatus * list (string * Z)) :=
  let cfg := small_cfg None in
  s ← start cfg false;
  s ← add false (request false "m" [1; 2; 3] (Some (limit 20 20)) None None false) s;
  s ← steps cfg false 13 (answer "m" [7]) s;
  r ← get_request s "m";
  n ← scheduled cfg s;
  Ok (num_computed_tokens r, num_tokens r, status r, n).

(** [check_stop] looks at the length limits only after [min_tokens] tokens.  A request
    whose prompt and [min_tokens] do not fit the context is not stopped when it fills
    the context; it stays in the running list with its blocks and is never scheduled
    again. *)
Theorem min_tokens_stalls : min_tokens_run = Ok (15, 16, RUNNING, []).
Proof. vm_compute. reflexivity. Qed.

(** ** Adapters in a pipeline *)

Definition lora_run : res (list (string * Z)) :=
  let cfg := small_cfg (Some 1) in
  s ← start cfg false;
  s ← add false (request false "a" [1; 2; 3] (Some (limit 0 8)) None (Some (mkLoRA "x" 1)) false) s;
  s ← add false (request false "b" [4; 5; 6] (Some (limit 0 8)) None (Some (mkLoRA "y" 2)) false) s;
  '(s, out1) ← just_schedule cfg s;
  '(s, out2) ← just_schedule cfg s;
  s ← just_update cfg false out1 (answer "a" [7]) s;
  s ← just_update cfg false out2 (answer "b" [8]) s;
  scheduled cfg s.

(** The limit on LoRA adapters can be exceeded in a pipeline.  With one adapter
    allowed, request ["a"] is in flight when the second batch is scheduled; it has no
    token to schedule, so its adapter is not counted and request ["b"] with another
    adapter is admitted.  When both run, [schedule] fails on its assertion that the
    scheduled adapters fit [max_loras]. *)
Theorem pipeline_exceeds_max_loras : lora_run = Raise AssertionError.
Proof. vm_compute. reflexivity. Qed.

(** ** Sessions *)

Definition session_run : res (Scheduler unit) :=
  let cfg := small_cfg None in
  s ← start cfg true;
  s ← add true (request true "s" [1; 2; 3] (Some (limit 0 1)) None None true) s;
  steps cfg true 1 (answer "s" [7]) s.

Definition session_reset : res (Scheduler unit * bool) :=
  s ← session_run; sched_reset_prefix_cache id s true.

(** A session that waits for input is not running and keeps its blocks, so a reset that
    preempts all running requests fails, although it is meant to be sure to succeed. *)
Theorem waiting_session_prevents_reset : session_reset = Raise RuntimeError.
Proof. vm_compute. reflexivity. Qed.

(** The next input of the session allows four tokens. *)
Definition session_continued : res (Scheduler unit) :=
  s ← session_run;
  s ← add true (request true "s" [5] (Some (limit 0 4)) None None true) s;
  steps (small_cfg None) true 1 (answer "s" [8]) s.

Definition session_stale : res (list Z * list (string * Z)) :=
  s ← session_continued;
  r ← get_request s "s";
  s ← add true (request true "q" [1; 2; 3; 7; 9] (Some (limit 0 4)) None None false) s;
  n ← scheduled (small_cfg None) s;
  Ok (all_token_ids r, n).

(** A session can poison the prefix cache.  The last sampled token 7 completes a
    block, whose hash is computed at once; the next input of the session discards the
    token from the tokens of the session but not the hash from its block hashes, so the
    block with the tokens 3 and 5 is cached under the hash of 3 and 7.  Request ["q"],
    whose prompt starts with 1, 2, 3, 7, is then scheduled with one token: four tokens
    count as computed, although the block holds the keys and values of other tokens. *)
Theorem session_update_keeps_stale_hash : session_stale = Ok ([1; 2; 3; 5; 8], [("q", 1)]).
Proof. vm_compute. reflexivity. Qed.

(** The session after its second input, whose parameters allow four tokens. *)
Definition session_limits : res (RequestStatus * Z * option (option Z) * list Z) :=
  s ← session_continued;
  r ← get_request s "s";
  Ok (status r, max_tokens r, sp_max_tokens <$> sampling_params r, output_token_ids r).

(** [max_tokens] of an update is not taken over: the session stops after one token, the
    limit of its first input. *)
Theorem session_keeps_first_max_tokens :
  session_limits = Ok (WAITING_FOR_STREAMING_REQ, 1, Some (Some 4), [8]).
Proof. vm_compute. reflexivity. Qed.
