(* ===== verification/TaperPlus.v ===== *)
(** * TAPER: helpers and the planner of the scheduler

    The part of [src/vllm/v1/core/sched/scheduler.py] that regulates how many branches
    of a best-of-n parent decode in a step: the configuration, group ids, deadlines,
    the latency model and [_get_taper_plus_admitted_running_req_ids] for the policies
    [taper] and [taper_plus].  The state of all controllers is one record
    ([Controllers]), the [K] of the scheduler model.

    [time.time()] reads an arbitrary clock, one tick per call.  Functions of the C
    library ([exp], [pow]) and [sum] over floats, whose rounding depends on the
    version of Python, are the parameters [PyLib].  Token counts are below 2^53, so
    their conversion to a float is exact, and every float that is rounded up is
    finite. *)

From Corelib Require Import SpecFloat.
From S2P Require Import Prelude PyFloat OrderedDict Request HeapQ RequestQueue FreeQueue BlockHash BlockPool KVCacheSpec SingleType CacheHit Coordinator KVCacheManager SchedUtils EncoderCache EncoderSched SchedState.

Class PyLib := {
  m_exp : float64 → float64;
  m_pow : float64 → float64 → float64;
  py_fsum : list float64 → float64
}.

(** ** Python helpers *)

(** [min] and [max] over a list of floats, [max] of integers. *)
Definition fmin_list (l : list float64) : res float64 :=
  match l with [] => Raise ValueError | x :: l => Ok (foldl fmin x l) end.
Definition fmax_list (l : list float64) : res float64 :=
  match l with [] => Raise ValueError | x :: l => Ok (foldl fmax x l) end.
Definition zmax_default (d : Z) (l : list Z) : Z :=
  match l with [] => d | x :: l => foldl Z.max x l end.

(** [1.0 if b else 0.0] and the like. *)
Definition fif (b : bool) (x y : float64) : float64 := if b then x else y.

Definition zerof : float64 := float_of_Z 0.
Definition onef : float64 := float_of_Z 1.

(** An element of a key tuple.  Tuples compare at the first position where the
    elements are not equal. *)
Inductive key_elem :=
  | KF (x : float64)
  | KZ (z : Z)
  | KB (b : bool)
  | KS (s : string).

Definition elem_eqb (a b : key_elem) : bool :=
  match a, b with
  | KF x, KF y => feqb x y
  | KZ x, KZ y => bool_decide (x = y)
  | KB x, KB y => Bool.eqb x y
  | KS x, KS y => bool_decide (x = y)
  | _, _ => false
  end.

Definition elem_ltb (a b : key_elem) : bool :=
  match a, b with
  | KF x, KF y => fltb x y
  | KZ x, KZ y => bool_decide (x < y)
  | KB x, KB y => negb x && y
  | KS x, KS y => string_ltb x y
  | _, _ => false
  end.

Fixpoint key_ltb (a b : list key_elem) : bool :=
  match a, b with
  | x :: a, y :: b => if elem_eqb x y then key_ltb a b else elem_ltb x y
  | [], _ :: _ => true
  | _, [] => false
  end.

(** [max(l, key=...)] and [min(l, key=...)] on a list of elements with their keys:
    the first one that no later one beats. *)
Definition max_by {A} (l : list (A * list key_elem)) : option A :=
  match l with
  | [] => None
  | x :: l => Some (foldl (λ best y, if key_ltb best.2 y.2 then y else best) x l).1
  end.
Definition min_by {A} (l : list (A * list key_elem)) : option A :=
  match l with
  | [] => None
  | x :: l => Some (foldl (λ best y, if key_ltb y.2 best.2 then y else best) x l).1
  end.

(** [l.sort(key=...)]: stable. *)
Fixpoint insert_by {A} (x : A * list key_elem) (l : list (A * list key_elem)) : list (A * list key_elem) :=
  match l with
  | [] => [x]
  | y :: l => if key_ltb x.2 y.2 then x :: y :: l else y :: insert_by x l
  end.
Definition sort_by {A} (key : A → list key_elem) (l : list A) : list A :=
  (foldl (λ acc x, insert_by (x, key x) acc) [] l).*1.

(** ** The configuration *)

Inductive TaperPolicy : Set :=
  | Taper | TaperPlus | TailBlend | BonTaper | BonTaperPlus | BonTaperLenPredictor.

Inductive PreemptionMode : Set :=
  | Mremaining | Mremaining_recompute | Mremaining_parent | Mfull | Mfull_v2 | Mfull_slo
  | Mcomplicated | Msimplified | Mprefill_aware | Mprefill_aware_gated | Madaptive.

Inductive AdmissionMode : Set :=
  | Aoff | Attft_guarded | Attft_fair_guarded | Attft_cost_guarded.

Inductive Utility : Set := Ulinear | Uconcave.

#[export] Instance TaperPolicy_eq_dec : EqDecision TaperPolicy.
Proof. solve_decision. Defined.
#[export] Instance PreemptionMode_eq_dec : EqDecision PreemptionMode.
Proof. solve_decision. Defined.
#[export] Instance AdmissionMode_eq_dec : EqDecision AdmissionMode.
Proof. solve_decision. Defined.
#[export] Instance Utility_eq_dec : EqDecision Utility.
Proof. solve_decision. Defined.

(** The attributes that are set once; the last three are read from the scheduler. *)
Record TaperConfig := mkTaperConfig {
  enable_taper_plus : bool;
  taper_plus_policy : TaperPolicy;
  taper_plus_memory_threshold_blocks : Z;
  tail_blend_pilot_k : Z;
  tail_blend_preemption : bool;
  tail_blend_preemption_mode : PreemptionMode;
  tail_blend_reservation_q : float64;
  tail_blend_admission_mode : AdmissionMode;
  taper_plus_step_target_ms : float64;
  taper_plus_ttft_slo_s : float64;
  taper_plus_tpot_slo_s : float64;
  taper_plus_rho : float64;
  taper_plus_utility : Utility;
  taper_plus_online_calibration : bool;
  taper_plus_calibration_alpha : float64;
  taper_plus_safety_factor : float64;
  taper_plus_eager_when_unpressured : bool;
  taper_plus_branch_overdue_boost : bool;
  tp_max_num_running_reqs : Z;
  tp_max_model_len : Z;
  tp_block_size : Z
}.

Definition parse_policy (name : string) : res TaperPolicy :=
  if bool_decide (name = "eager_tail_blend" ∨ name = "tail_blend") then Ok TailBlend
  else if bool_decide (name = "taper") then Ok Taper
  else if bool_decide (name = "taper_plus") then Ok TaperPlus
  else if bool_decide (name = "bon_taper") then Ok BonTaper
  else if bool_decide (name = "bon_taper_plus") then Ok BonTaperPlus
  else if bool_decide (name = "bon_taper_len_predictor") then Ok BonTaperLenPredictor
  else Raise ValueError.

(** The latency model, which is calibrated online. *)
Record LatencyModel := mkLatencyModel {
  latency_base_ms : float64;
  latency_width_ms : float64;
  latency_context_ms_per_1k : float64;
  calibration_samples : Z
}.

Definition LatencyModel_init (latency_per_seq_ms : float64) : LatencyModel :=
  mkLatencyModel zerof (fmax (dec 1 1000) latency_per_seq_ms) zerof 0.

(** ** The state of the controllers *)

(** [_TailBlendGroupState]. *)
Record TailGroup := mkTailGroup {
  finished_lengths : list Z;
  last_progress_time_s : float64
}.
Definition empty_tail_group : TailGroup := mkTailGroup [] zerof.

Record AdaptivePressureState := mkAdaptivePressure {
  prefill_pressure : float64;
  output_tail_pressure : float64;
  kv_pressure : float64;
  backlog_ratio : float64;
  prompt_share : float64;
  recompute_risk : float64;
  tail_signal : float64;
  tail_skew : float64
}.

Record Controllers := mkControllers {
  clock : nat → float64;
  ticks : nat;
  latency : LatencyModel;
  tb_groups : gmap string TailGroup;
  adaptive_choice_counts : gmap string Z;
  last_adaptive_pressure_state : option AdaptivePressureState;
  lp_groups : gmap string (list Z);
  request_to_group : gmap string string
}.

Definition set_ticks (k : Controllers) (n : nat) : Controllers :=
  mkControllers (clock k) n (latency k) (tb_groups k) (adaptive_choice_counts k)
    (last_adaptive_pressure_state k) (lp_groups k) (request_to_group k).
Definition set_tb_groups (k : Controllers) (g : gmap string TailGroup) : Controllers :=
  mkControllers (clock k) (ticks k) (latency k) g (adaptive_choice_counts k)
    (last_adaptive_pressure_state k) (lp_groups k) (request_to_group k).
Definition set_choice_counts (k : Controllers) (c : gmap string Z) : Controllers :=
  mkControllers (clock k) (ticks k) (latency k) (tb_groups k) c
    (last_adaptive_pressure_state k) (lp_groups k) (request_to_group k).
Definition set_last_pressure (k : Controllers) (p : AdaptivePressureState) : Controllers :=
  mkControllers (clock k) (ticks k) (latency k) (tb_groups k) (adaptive_choice_counts k)
    (Some p) (lp_groups k) (request_to_group k).
Definition set_lp_groups (k : Controllers) (g : gmap string (list Z)) : Controllers :=
  mkControllers (clock k) (ticks k) (latency k) (tb_groups k) (adaptive_choice_counts k)
    (last_adaptive_pressure_state k) g (request_to_group k).
Definition set_request_to_group (k : Controllers) (g : gmap string string) : Controllers :=
  mkControllers (clock k) (ticks k) (latency k) (tb_groups k) (adaptive_choice_counts k)
    (last_adaptive_pressure_state k) (lp_groups k) g.
Definition set_latency (k : Controllers) (m : LatencyModel) : Controllers :=
  mkControllers (clock k) (ticks k) m (tb_groups k) (adaptive_choice_counts k)
    (last_adaptive_pressure_state k) (lp_groups k) (request_to_group k).

Abbreviation Sched := (Scheduler Controllers).

(** [time.time()]. *)
Definition time_now (s : Sched) : Sched * float64 :=
  let k := plugins s in (set_plugins s (set_ticks k (S (ticks k))), clock k (ticks k)).

(** The requests behind the running list and the queues, in iteration order. *)
Definition running_requests (s : Sched) : list Request := obj s <$> running s.
Definition queue_requests (s : Sched) (q : AnyQueue string) : res (list Request) :=
  match @queue_iter string (AnyQueue string) (queue_ops s) q with
  | Ok ids => Ok (obj s <$> ids)
  | Raise e => Raise e
  end.
Definition waiting_requests (s : Sched) : res (list Request) := queue_requests s (waiting s).
Definition skipped_requests (s : Sched) : res (list Request) := queue_requests s (skipped_waiting s).
Definition queued_requests (s : Sched) : res (list Request) :=
  w ← waiting_requests s;
  k ← skipped_requests s;
  Ok (w ++ k).
Definition waiting_backlog (s : Sched) : Z :=
  @queue_len _ _ (queue_ops s) (waiting s) + @queue_len _ _ (queue_ops s) (skipped_waiting s).

(** ** Helpers of the scheduler *)

Definition _taper_plus_group_id (r : Request) : string :=
  match external_req_id r with
  | Some e => if bool_decide (e = "") then request_id r else e
  | None => request_id r
  end.

Definition _is_taper_plus_decode_candidate (r : Request) : bool :=
  is_some (sampling_params r) &&
  bool_decide (0 < num_output_tokens r + num_output_placeholders r) &&
  bool_decide (0 < num_tokens_with_spec r + num_output_placeholders r - num_computed_tokens r).

Section Helpers.
Context {env : KVEnv} {lib : PyLib} (tc : TaperConfig).
Implicit Types s : Sched.

Definition _get_taper_plus_memory_threshold s : Z :=
  if bool_decide (0 ≤ taper_plus_memory_threshold_blocks tc) then taper_plus_memory_threshold_blocks tc
  else Z.max 1 (num_gpu_blocks (km_pool (kv_cache_manager s)) / 20).

(** The linear model before clamping. *)
Definition linear_step_ms (m : LatencyModel) (decode_width context_tokens : Z) : float64 :=
  let context_k := fdiv (float_of_Z context_tokens) (float_of_Z 1000) in
  fadd (fadd (latency_base_ms m) (fmul (latency_width_ms m) (float_of_Z decode_width)))
       (fmul (latency_context_ms_per_1k m) context_k).

Definition _predict_taper_plus_step_ms s (decode_width context_tokens : Z) : float64 :=
  if bool_decide (decode_width ≤ 0) then zerof
  else fmul (fmax zerof (linear_step_ms (latency (plugins s)) decode_width context_tokens))
            (taper_plus_safety_factor tc).

Definition _get_taper_plus_step_features s (num_scheduled_tokens : list (string * Z)) : Z * Z * Z :=
  foldl (λ acc (kv : string * Z),
    let '(decode_width, context_tokens, prefill_tokens) := acc in
    match sc_requests s !! kv.1 with
    | None => acc
    | Some r =>
        if _is_taper_plus_decode_candidate r
        then (decode_width + 1, context_tokens + num_computed_tokens r, prefill_tokens)
        else (decode_width, context_tokens, prefill_tokens + kv.2)
    end) (0, 0, 0) num_scheduled_tokens.

Definition _update_taper_plus_latency_model s (observed_ms : float64)
    (decode_width context_tokens prefill_tokens : Z) : Sched :=
  let alpha := taper_plus_calibration_alpha tc in
  if negb (enable_taper_plus tc) || negb (taper_plus_online_calibration tc) ||
     bool_decide (decode_width ≤ 0) then s
  else if bool_decide (0 < prefill_tokens) then s
  else if fleb observed_ms zerof || fltb (fmul (taper_plus_step_target_ms tc) (float_of_Z 20)) observed_ms then s
  else if fleb alpha zerof then s
  else
    let m := latency (plugins s) in
    let context_k := fdiv (float_of_Z context_tokens) (float_of_Z 1000) in
    let width := float_of_Z decode_width in
    let error_ms := fsub observed_ms (linear_step_ms m decode_width context_tokens) in
    let normalizer := fadd (fadd onef (float_of_Z (decode_width * decode_width))) (m_pow context_k (float_of_Z 2)) in
    let step := fmul alpha error_ms in
    let base := fadd (latency_base_ms m) (fdiv step normalizer) in
    let width_ms := fadd (latency_width_ms m) (fdiv (fmul step width) normalizer) in
    let context := fadd (latency_context_ms_per_1k m) (fdiv (fmul step context_k) normalizer) in
    set_plugins s (set_latency (plugins s)
      (mkLatencyModel (fmax zerof base) (fmax (dec 1 1000) width_ms) (fmax zerof context)
         (calibration_samples m + 1))).

Definition _get_taper_plus_deadline_s (r : Request) : float64 :=
  if bool_decide (num_output_tokens r = 0) then fadd (arrival_time r) (taper_plus_ttft_slo_s tc)
  else fadd (taper_last_token_time r) (taper_plus_tpot_slo_s tc).

Definition _get_taper_plus_group_deadline_s (requests : list Request) : res float64 :=
  if forallb (λ r, bool_decide (num_output_tokens r = 0)) requests then
    first ← fmin_list (arrival_time <$> requests);
    Ok (fadd first (taper_plus_ttft_slo_s tc))
  else
    recent ← fmax_list (taper_last_token_time <$> filter (λ r, 0 < num_output_tokens r) requests);
    Ok (fadd recent (taper_plus_tpot_slo_s tc)).

Definition _get_taper_plus_branch_overdue_ms (r : Request) (now_s : float64) : float64 :=
  fmul (fmax zerof (fsub now_s (_get_taper_plus_deadline_s r))) (float_of_Z 1000).

(** [_taper_plus_marginal_utility] and the controllers' copy of it. *)
Definition marginal_utility (granted : Z) : float64 :=
  match taper_plus_utility tc with
  | Uconcave => fsub (m_pow (float_of_Z (granted + 1)) (dec 5 10)) (m_pow (float_of_Z granted) (dec 5 10))
  | Ulinear => onef
  end.
End Helpers.
