(* ===== verification/TailBlend.v ===== *)
(** * The TailBlend controller

    [src/vllm/v1/core/sched/tail_blend_controller.py]: prediction of the remaining
    length of a branch from its finished siblings, the choice of a preemption victim,
    and the optional admission hints (virtual reservation, TTFT guards, pilots).

    The controller holds [_groups], a [defaultdict]: reading it with [[]] enters an
    empty state.  A [None] key is never stored.  [request is current_request] compares
    objects, which are identified by their ids. *)

From Corelib Require Import SpecFloat.
From S2P Require Import Prelude PyFloat OrderedDict Request HeapQ RequestQueue FreeQueue BlockHash BlockPool KVCacheSpec SingleType CacheHit Coordinator KVCacheManager SchedUtils EncoderCache EncoderSched SchedState TaperPlus.

Record ParentSLOState := mkParentSLO {
  doomed : float64;
  urgent_feasible : float64;
  work_norm : float64
}.

Record AdmissionPressure := mkAdmissionPressure {
  active : bool;
  running_util : float64;
  ap_waiting_backlog : Z;
  uncovered_groups : Z;
  min_uncovered_slack_s : float64;
  avg_group_fanout : float64;
  free_block_ratio : float64
}.

Definition _SHRINK_K : float64 := float_of_Z 4.
Definition _QUEUED_PRIOR_FRACTION : float64 := dec 75 100.

Definition _clamp01 (value : float64) : float64 := fmax zerof (fmin onef value).

(** [sorted(values)]: stable, by a strict order. *)
Fixpoint insert_sorted {A} (ltb : A → A → bool) (x : A) (l : list A) : list A :=
  match l with
  | [] => [x]
  | y :: l => if ltb x y then x :: y :: l else y :: insert_sorted ltb x l
  end.
Definition py_sorted {A} (ltb : A → A → bool) (l : list A) : list A :=
  foldl (λ acc x, insert_sorted ltb x acc) [] l.

(** The common part of [_percentile] and [_percentile_float]: the position between
    two samples. *)
Definition interpolate (values : list float64) (q : float64) : res float64 :=
  let q := fmax zerof (fmin onef q) in
  let index := fmul q (float_of_Z (zlen values - 1)) in
  let lower := ftrunc index in
  let upper := Z.min (lower + 1) (zlen values - 1) in
  let frac := fsub index (float_of_Z lower) in
  lo ← py_nth values lower;
  hi ← py_nth values upper;
  Ok (fadd (fmul lo (fsub onef frac)) (fmul hi frac)).

Definition _percentile (values : list Z) (q : float64) : res float64 :=
  if is_nil values then Ok zerof
  else interpolate (float_of_Z <$> py_sorted Z.ltb values) q.

Definition _percentile_float (values : list float64) (q : float64) : res float64 :=
  if is_nil values then Ok zerof else interpolate (py_sorted fltb values) q.

Definition _is_ttft_guard_cold_request (r : Request) : bool :=
  is_some (external_req_id r) && bool_decide (num_output_tokens r = 0) &&
  bool_decide (num_computed_tokens r = 0) && bool_decide (num_preemptions r = 0).

Definition _is_ttft_guard_output_started_request (r : Request) : bool :=
  is_some (external_req_id r) && bool_decide (0 < num_output_tokens r).

Section TailBlend.
Context {env : KVEnv} {lib : PyLib} (tc : TaperConfig).
Implicit Types (s : Sched) (r : Request).

(** [sum] over floats; of nothing it is [0]. *)
Definition fsum (l : list float64) : float64 := match l with [] => zerof | _ => py_fsum l end.

(** [self._groups.get(g)] and its finished lengths. *)
Definition tail_group s (g : string) : option TailGroup := tb_groups (plugins s) !! g.
Definition finished_of s (g : string) : list Z :=
  match tail_group s g with Some st => finished_lengths st | None => [] end.
Definition finished_siblings s r : list Z :=
  match external_req_id r with Some g => finished_of s g | None => [] end.

(** [self._groups[g]]. *)
Definition touch_group s (g : string) : Sched :=
  match tail_group s g with
  | Some _ => s
  | None => set_plugins s (set_tb_groups (plugins s) (<[g := empty_tail_group]> (tb_groups (plugins s))))
  end.

Definition in_group (g : string) r : bool := bool_decide (_taper_plus_group_id r = g).

(** ** Prediction *)

Definition _predict_remaining_tokens s r : float64 :=
  let finished := finished_siblings s r in
  if is_nil finished then float_of_Z (Z.max 0 (max_tokens r - num_output_tokens r))
  else
    let num_finished := zlen finished in
    let sibling_mean := int_truediv (zsum finished) (Z.max 1 num_finished) in
    let weight := fdiv (float_of_Z num_finished) (fadd (float_of_Z num_finished) _SHRINK_K) in
    let lower_bound := float_of_Z (num_output_tokens r) in
    let prior_len := float_of_Z (Z.max 1 (max_tokens r)) in
    let tail_mean := fmul (dec 5 10) (fadd lower_bound prior_len) in
    let predicted_final_len := fadd (fmul (fsub onef weight) tail_mean) (fmul weight sibling_mean) in
    let predicted_final_len := fmax lower_bound predicted_final_len in
    fmax zerof (fsub predicted_final_len (float_of_Z (num_output_tokens r))).

Definition _predict_queued_tokens s (g : string) (max_tokens : Z) : float64 :=
  let finished := finished_of s g in
  if is_nil finished then float_of_Z max_tokens
  else
    let num_finished := zlen finished in
    let sibling_mean := int_truediv (zsum finished) (Z.max 1 num_finished) in
    let weight := fdiv (float_of_Z num_finished) (fadd (float_of_Z num_finished) _SHRINK_K) in
    let prior_len := fmul _QUEUED_PRIOR_FRACTION (float_of_Z (Z.max 1 max_tokens)) in
    let predicted_len := fadd (fmul (fsub onef weight) prior_len) (fmul weight sibling_mean) in
    fmax onef (fmin (float_of_Z max_tokens) predicted_len).

Definition _predict_output_tokens_for_reservation s r : res float64 :=
  let q := tail_blend_reservation_q tc in
  if fleb q zerof then Ok (float_of_Z (max_tokens r))
  else
    let max_tokens := Z.max 1 (max_tokens r) in
    let prior_len := fmul q (float_of_Z max_tokens) in
    let finished := finished_siblings s r in
    let running_lengths :=
      num_output_tokens <$> filter (λ r', external_req_id r' = external_req_id r) (running_requests s) in
    predicted_len ←
      (if is_nil finished then
         sample_q_len ← _percentile running_lengths q;
         Ok (fmax prior_len sample_q_len)
       else
         sample_q_len ← _percentile (finished ++ running_lengths) q;
         let num_finished := zlen finished in
         let weight := fdiv (float_of_Z num_finished) (fadd (float_of_Z num_finished) _SHRINK_K) in
         Ok (fadd (fmul (fsub onef weight) prior_len) (fmul weight sample_q_len)));
    let predicted_len := fmax (float_of_Z (num_output_tokens r)) predicted_len in
    Ok (fmin (float_of_Z max_tokens) predicted_len).

Definition tb_observe_finished_request s r : Sched :=
  match sampling_params r, external_req_id r with
  | Some _, Some g =>
      if bool_decide (get_finished_reason r ∈ [Some STOP; Some LENGTH; Some REPETITION]) then
        let '(s, now) := time_now s in
        let st := default empty_tail_group (tail_group s g) in
        let st := mkTailGroup (finished_lengths st ++ [num_output_tokens r])
                    (fmax (fmax (last_progress_time_s st) (taper_last_token_time r)) now) in
        set_plugins s (set_tb_groups (plugins s) (<[g := st]> (tb_groups (plugins s))))
      else s
  | _, _ => s
  end.

(** ** Scores of victims *)

Definition near_finish_threshold r : float64 :=
  fmax (float_of_Z 32) (fmul (dec 5 100) (float_of_Z (Z.max 1 (max_tokens r)))).

Definition _parent_rescue_score s (g : string) : res float64 :=
  let finished_count := zlen (finished_of s g) in
  let live := filter (λ r, in_group g r = true) (running_requests s) in
  queued ← queued_requests s;
  let queued_count := zlen (filter (λ r, in_group g r = true) queued) in
  let near_finish_live :=
    zlen (filter (λ r, fleb (_predict_remaining_tokens s r) (near_finish_threshold r) = true) live) in
  let total_count := Z.max 1 (finished_count + zlen live + queued_count) in
  Ok (fdiv (float_of_Z (finished_count + near_finish_live)) (float_of_Z total_count)).

Definition _allocated_block_count s r : Z :=
  Z.max 1 (zsum (zlen <$> km_get_block_ids (kv_cache_manager s) (request_id r))).

(** The [except] branch starts from the state before the call. *)
Definition _predicted_future_blocks s r : Sched * Z :=
  let predicted_remaining := fceil (_predict_remaining_tokens s r) in
  let predicted_output_tokens := num_output_tokens r + predicted_remaining in
  match estimate_future_footprint_for_output_len (kv_cache_manager s) r predicted_output_tokens with
  | Ok (kv, n) => (set_kv_cache_manager s kv, n)
  | Raise _ =>
      let remaining_tokens :=
        Z.max 0 (Z.min (max_tokens r) predicted_output_tokens - num_output_tokens r) in
      (s, fceil (int_truediv remaining_tokens (Z.max 1 (tp_block_size tc))))
  end.

Definition total_tokens_of r : Z := Z.max 1 (num_prompt_tokens r + Z.max 1 (max_tokens r)).

Definition _prefill_aware_preemption_score s r (output_progress recompute_cost parent_rescue : float64)
    (near_finish overdue : bool) : float64 :=
  let total_tokens := total_tokens_of r in
  let prompt_share := fmin onef (fdiv (float_of_Z (num_prompt_tokens r)) (float_of_Z total_tokens)) in
  let computed_norm := fmin onef (fdiv (float_of_Z (num_computed_tokens r)) (float_of_Z total_tokens)) in
  let allocated_blocks := _allocated_block_count s r in
  let capacity_blocks := Z.max 1 (fceil (int_truediv total_tokens (Z.max 1 (tp_block_size tc)))) in
  let freed_ratio := fmin onef (fdiv (float_of_Z allocated_blocks) (float_of_Z capacity_blocks)) in
  let cheap_to_recompute := fsub onef computed_norm in
  let no_token_bonus := fif (bool_decide (num_output_tokens r = 0)) (dec 25 100) zerof in
  let prompt_recompute_damage :=
    fmul recompute_cost (fadd (dec 45 100) (fmul (dec 85 100) prompt_share)) in
  let generated_prefix_damage :=
    fmin onef (fdiv (float_of_Z (num_output_tokens r))
      (fmax (float_of_Z 64) (fmul (dec 10 100) (float_of_Z (max_tokens r))))) in
  fsub (fsub (fsub (fsub (fsub (fsub
    (fadd (fadd (fmul (dec 140 100) cheap_to_recompute) (fmul (dec 30 100) freed_ratio)) no_token_bonus)
    (fmul (dec 130 100) prompt_recompute_damage))
    (fmul (dec 180 100) generated_prefix_damage))
    (fmul (dec 95 100) parent_rescue))
    (fif near_finish (dec 95 100) zerof))
    (fif overdue (dec 35 100) zerof))
    (fmul (dec 20 100) (float_of_Z (num_preemptions r))).

Definition _kv_freed_preemption_score s r
    (remaining_norm output_progress recompute_cost parent_rescue : float64) (near_finish overdue : bool)
    : Sched * float64 :=
  let capacity_blocks :=
    Z.max 1 (fceil (int_truediv (num_prompt_tokens r + Z.max 1 (max_tokens r)) (Z.max 1 (tp_block_size tc)))) in
  let allocated_blocks := _allocated_block_count s r in
  let freed_ratio := fmin onef (fdiv (float_of_Z allocated_blocks) (float_of_Z capacity_blocks)) in
  let '(s, future_blocks) := _predicted_future_blocks s r in
  let future_ratio := fmin onef (fdiv (float_of_Z future_blocks) (float_of_Z capacity_blocks)) in
  let pressure_relief :=
    fadd (fadd (fmul (dec 135 100) remaining_norm) (fmul (dec 55 100) freed_ratio))
         (fmul (dec 35 100) future_ratio) in
  let parent_damage :=
    fadd (fadd (fadd (fadd (fadd (fmul (dec 115 100) output_progress) (fmul (dec 95 100) recompute_cost))
      (fmul (dec 125 100) parent_rescue)) (fif near_finish (dec 110 100) zerof))
      (fif overdue (dec 45 100) zerof)) (fmul (dec 20 100) (float_of_Z (num_preemptions r))) in
  (s, fsub pressure_relief parent_damage).

Definition _parent_slo_state s (g : string) (now_s : float64) : res ParentSLOState :=
  let finished_count := zlen (finished_of s g) in
  let sampled r := in_group g r && is_some (sampling_params r) in
  let running_requests := filter (λ r, sampled r = true) (running_requests s) in
  queued ← queued_requests s;
  let queued_requests := filter (λ r, sampled r = true) queued in
  let progress_times :=
    match tail_group s g with
    | Some st => if fltb zerof (last_progress_time_s st) then [last_progress_time_s st] else []
    | None => []
    end ++ (taper_last_token_time <$> filter (λ r, 0 < num_output_tokens r) running_requests) in
  let all_requests := running_requests ++ queued_requests in
  let max_tokens := zmax_default 1 (max_tokens <$> all_requests) in
  let total_count := Z.max 1 (finished_count + zlen all_requests) in
  let predicted_work := fsum (_predict_remaining_tokens s <$> all_requests) in
  if bool_decide (total_count * max_tokens = 0) then Raise ZeroDivisionError
  else
    let work_norm := fmin onef (fdiv predicted_work (float_of_Z (total_count * max_tokens))) in
    '(deadline_s, slo_window_s) ←
      (if negb (is_nil progress_times) then
         recent ← fmax_list progress_times;
         Ok (fadd recent (taper_plus_tpot_slo_s tc), fmax (dec 1 1000) (taper_plus_tpot_slo_s tc))
       else
         let first_arrival := match arrival_time <$> all_requests with [] => now_s | x :: l => foldl fmin x l end in
         Ok (fadd first_arrival (taper_plus_ttft_slo_s tc), fmax (dec 1 1000) (taper_plus_ttft_slo_s tc)));
    let slack_s := fsub deadline_s now_s in
    let doomed := fmin onef (fmax zerof (fdiv (fopp slack_s) (fmul (dec 5 10) slo_window_s))) in
    let urgent_feasible :=
      if fleb zerof slack_s then fmin onef (fmax zerof (fsub onef (fdiv slack_s slo_window_s))) else zerof in
    Ok (mkParentSLO doomed urgent_feasible work_norm).

Definition _slo_feasibility_preemption_score s r (g : string)
    (now_s remaining_norm output_progress recompute_cost parent_rescue : float64) (near_finish overdue : bool)
    : res float64 :=
  st ← _parent_slo_state s g now_s;
  let feasible := fsub onef (doomed st) in
  let rescue_value := fmul parent_rescue feasible in
  let near_finish_value := fmul (fif near_finish onef zerof) feasible in
  let recompute_value := fmul recompute_cost (fadd (dec 45 100) (fmul (dec 55 100) feasible)) in
  let output_value := fmul output_progress (fadd (dec 50 100) (fmul (dec 50 100) feasible)) in
  let branch_overdue_protection := fif (overdue && fltb (doomed st) (dec 5 10)) (dec 30 100) zerof in
  Ok (fsub (fsub (fsub (fsub (fsub (fsub (fsub
    (fadd (fadd (fmul (dec 145 100) remaining_norm) (fmul (dec 130 100) (doomed st)))
          (fmul (dec 35 100) (work_norm st)))
    (fmul (dec 120 100) rescue_value))
    (fmul (dec 100 100) near_finish_value))
    (fmul (dec 90 100) recompute_value))
    (fmul (dec 105 100) output_value))
    (fmul (dec 85 100) (urgent_feasible st)))
    branch_overdue_protection)
    (fmul (dec 20 100) (float_of_Z (num_preemptions r)))).

Definition _preemption_victim_key (current : string) (now_s : float64) (mode : PreemptionMode) s r
    : res (Sched * list key_elem) :=
  let max_tokens := Z.max 1 (max_tokens r) in
  let remaining := _predict_remaining_tokens s r in
  let remaining_norm := fdiv remaining (float_of_Z max_tokens) in
  let output_progress := fmin onef (fdiv (float_of_Z (num_output_tokens r)) (float_of_Z max_tokens)) in
  let recompute_cost :=
    fdiv (float_of_Z (num_computed_tokens r)) (float_of_Z (Z.max 1 (num_prompt_tokens r + max_tokens))) in
  let g := _taper_plus_group_id r in
  parent_rescue ← _parent_rescue_score s g;
  let near_finish := fleb remaining (fmax (float_of_Z 32) (fmul (dec 5 100) (float_of_Z max_tokens))) in
  let overdue := fltb (_get_taper_plus_deadline_s tc r) now_s in
  let preempted_before := fmul (dec 2 10) (float_of_Z (num_preemptions r)) in
  '(s, score) ←
    match mode with
    | Mremaining => Ok (s, remaining_norm)
    | Mremaining_recompute =>
        Ok (s, fsub (fsub (fsub (fmul (dec 14 10) remaining_norm) (fmul (dec 9 10) recompute_cost))
                 (fif near_finish onef zerof)) preempted_before)
    | Mremaining_parent =>
        Ok (s, fsub (fsub (fsub (fmul (dec 14 10) remaining_norm) (fmul (dec 11 10) parent_rescue))
                 (fif near_finish onef zerof)) preempted_before)
    | Mfull_v2 =>
        Ok (_kv_freed_preemption_score s r remaining_norm output_progress recompute_cost parent_rescue
              near_finish overdue)
    | Mfull_slo =>
        x ← _slo_feasibility_preemption_score s r g now_s remaining_norm output_progress recompute_cost
              parent_rescue near_finish overdue;
        Ok (s, x)
    | Mprefill_aware | Mprefill_aware_gated =>
        Ok (s, _prefill_aware_preemption_score s r output_progress recompute_cost parent_rescue
                 near_finish overdue)
    | Mcomplicated =>
        Ok (s, fsub (fsub (fsub (fsub (fsub (fsub (fmul (dec 16 10) remaining_norm)
                 (fmul (dec 12 10) output_progress)) (fmul onef parent_rescue))
                 (fmul (dec 8 10) recompute_cost)) (fif near_finish onef zerof))
                 (fif overdue (dec 4 10) zerof)) preempted_before)
    | Mfull | Msimplified | Madaptive =>
        let invested_progress := fmul (dec 5 10) (fadd output_progress recompute_cost) in
        let completion_protection :=
          fmax (fmax parent_rescue (fif near_finish onef zerof)) (fif overdue onef zerof) in
        Ok (s, fsub (fsub remaining_norm invested_progress) completion_protection)
    end;
  let current_tiebreak := if bool_decide (request_id r = current) then fopp onef else zerof in
  Ok (s, [KF score; KF current_tiebreak; KF (arrival_time r); KS (request_id r)]).

(** [max(candidates, key=...)]. *)
Definition best_victim s (candidates : list Request) (current : string) (now_s : float64)
    (mode : PreemptionMode) : res (Sched * Request) :=
  '(s, keyed) ← mapM_st (λ s r, '(s, key) ← _preemption_victim_key current now_s mode s r; Ok (s, (r, key)))
                  s candidates;
  match max_by keyed with Some r => Ok (s, r) | None => Raise ValueError end.

(** ** Adaptive mode *)

Definition count_if (f : Request → bool) (l : list Request) : Z := zlen (filter (λ r, f r = true) l).

(** The free share of the blocks; the [except] branch is not taken by the model. *)
Definition free_ratio s : float64 :=
  let total_blocks := Z.max 1 (num_gpu_blocks (km_pool (kv_cache_manager s))) in
  fmin onef (fdiv (float_of_Z (get_remaining_free_blocks (kv_cache_manager s))) (float_of_Z total_blocks)).

Definition _adaptive_pressure_state s (current : Request) (candidates : list Request)
    : res AdaptivePressureState :=
  let kv_util := fsub onef (free_ratio s) in
  let kv_pressure := _clamp01 (fdiv (fsub kv_util (dec 85 100)) (dec 15 100)) in
  let running_count := Z.max 1 (zlen (running s)) in
  let backlog_ratio := fdiv (float_of_Z (waiting_backlog s)) (float_of_Z running_count) in
  let backlog_pressure := _clamp01 (fdiv (fsub backlog_ratio (dec 15 10)) (float_of_Z 4)) in
  let requests :=
    if forallb (λ r, negb (bool_decide (request_id r = request_id current))) candidates
    then candidates ++ [current] else candidates in
  let prompt_tokens := zsum ((λ r, Z.max 0 (num_prompt_tokens r)) <$> requests) in
  let total_tokens := zsum (total_tokens_of <$> requests) in
  let prompt_share := fdiv (float_of_Z prompt_tokens) (float_of_Z (Z.max 1 total_tokens)) in
  let recompute_risk :=
    fdiv (float_of_Z (zsum ((λ r, Z.min (num_computed_tokens r) (num_prompt_tokens r)) <$> requests)))
         (float_of_Z (Z.max 1 prompt_tokens)) in
  let prefill_pressure :=
    fmul (fmul (fmul kv_pressure backlog_pressure) prompt_share) (_clamp01 recompute_risk) in
  let active_group_ids : gset string :=
    list_to_set (_taper_plus_group_id <$> filter (λ r, is_some (external_req_id r) = true) requests) in
  let groups_with_tail_signal := Z.of_nat (size (filter (λ g, finished_of s g ≠ []) active_group_ids)) in
  let tail_signal :=
    if bool_decide (active_group_ids = ∅) then zerof
    else fdiv (float_of_Z groups_with_tail_signal) (float_of_Z (Z.of_nat (size active_group_ids))) in
  let remaining_values :=
    _predict_remaining_tokens s <$> filter (λ r, is_some (sampling_params r) = true) requests in
  p50_remaining ← _percentile_float remaining_values (dec 50 100);
  p90_remaining ← _percentile_float remaining_values (dec 90 100);
  let tail_skew :=
    if fltb onef p50_remaining
    then _clamp01 (fdiv (fsub (fdiv p90_remaining p50_remaining) onef) (dec 15 10)) else zerof in
  let decode_candidates := count_if _is_taper_plus_decode_candidate (running_requests s) in
  let decode_pressure :=
    _clamp01 (fdiv (fsub (fdiv (float_of_Z decode_candidates) (float_of_Z running_count)) (dec 75 100)) (dec 25 100)) in
  let output_share := fsub onef prompt_share in
  let output_tail_pressure :=
    fmul (fmul (fmul (fmul kv_pressure output_share) tail_signal) (fmax (dec 25 100) tail_skew))
         (fadd (dec 5 10) (fmul (dec 5 10) decode_pressure)) in
  Ok (mkAdaptivePressure prefill_pressure output_tail_pressure kv_pressure backlog_ratio prompt_share
        (_clamp01 recompute_risk) tail_signal tail_skew).

Definition _full_candidate_has_high_prefix_waste s (current : Request) (candidates : list Request)
    : res (Sched * bool) :=
  let '(s, now_s) := time_now s in
  '(s, victim) ← best_victim s candidates (request_id current) now_s Mfull;
  let prefix_threshold :=
    fmax (float_of_Z 128) (fmul (dec 10 100) (float_of_Z (Z.max 1 (max_tokens victim)))) in
  Ok (s, fltb prefix_threshold (float_of_Z (num_output_tokens victim))).

(** [self._adaptive_choice_counts[name] += 1]. *)
Definition count_choice s (name : string) : Sched :=
  let counts := adaptive_choice_counts (plugins s) in
  set_plugins s (set_choice_counts (plugins s) (<[name := default 0 (counts !! name) + 1]> counts)).

Definition _select_adaptive_preemption_mode s (current : Request) (candidates : list Request)
    : res (Sched * option PreemptionMode) :=
  pressure ← _adaptive_pressure_state s current candidates;
  let s := set_plugins s (set_last_pressure (plugins s) pressure) in
  let prefill := prefill_pressure pressure in
  let tail := output_tail_pressure pressure in
  if fleb (dec 30 100) prefill && fleb (fadd tail (dec 10 100)) prefill then Ok (s, Some Mprefill_aware)
  else if fleb (dec 14 100) tail && fleb (fadd prefill (dec 5 100)) tail then
    '(s, waste) ← _full_candidate_has_high_prefix_waste s current candidates;
    if (waste : bool) then Ok (count_choice s "full_prefix_guard", None) else Ok (s, Some Mfull)
  else Ok (s, None).

Definition _should_use_prefill_aware_preemption s (current : Request) : bool :=
  let total_tokens := total_tokens_of current in
  let prompt_share := fdiv (float_of_Z (num_prompt_tokens current)) (float_of_Z total_tokens) in
  let prompt_heavy :=
    fleb (dec 50 100) prompt_share ||
    bool_decide (Z.max 1024 (max_tokens current) ≤ num_prompt_tokens current) in
  if negb prompt_heavy then false
  else
    let running_count := Z.max 1 (zlen (running s)) in
    fleb (fmul (dec 35 10) (float_of_Z running_count)) (float_of_Z (waiting_backlog s)).

(** The name under which an adaptive choice is counted. *)
Definition choice_name (mode : option PreemptionMode) : string :=
  match mode with Some Mprefill_aware => "prefill_aware" | Some _ => "full" | None => "default" end.

Definition preemption_candidates s : list Request :=
  filter (λ r, is_some (sampling_params r) && is_some (external_req_id r) = true) (running_requests s).

Definition tb_select_preemption_victim s (current : Request) : res (Sched * option Request) :=
  if negb (enable_taper_plus tc) || bool_decide (taper_plus_policy tc ≠ TailBlend) ||
     negb (tail_blend_preemption tc) then Ok (s, None)
  else
    let candidates := preemption_candidates s in
    if is_nil candidates then Ok (s, None)
    else
      let '(s, now_s) := time_now s in
      let mode := tail_blend_preemption_mode tc in
      '(s, effective_mode) ←
        (if bool_decide (mode = Madaptive) then
           '(s, m) ← _select_adaptive_preemption_mode s current candidates;
           Ok (count_choice s (choice_name m), m)
         else Ok (s, Some mode));
      match effective_mode with
      | None => Ok (s, None)
      | Some effective_mode =>
          if bool_decide (mode = Mprefill_aware_gated) && negb (_should_use_prefill_aware_preemption s current)
          then Ok (s, None)
          else
            '(s, victim) ← best_victim s candidates (request_id current) now_s effective_mode;
            Ok (s, Some victim)
      end.

(** ** Admission hints *)

Definition _under_admission_pressure s : bool :=
  let memory_threshold := _get_taper_plus_memory_threshold tc s in
  let free_blocks := get_remaining_free_blocks (kv_cache_manager s) in
  let running_pressure := bool_decide ((tp_max_num_running_reqs tc * 3) / 4 ≤ zlen (running s)) in
  bool_decide (free_blocks < memory_threshold * 4) ||
  bool_decide (tp_max_num_running_reqs tc < waiting_backlog s) || running_pressure.

Definition _started_sibling_count s (g : string) : res (Sched * Z) :=
  let member r := is_some (external_req_id r) && in_group g r in
  let running_count := count_if member (running_requests s) in
  queued ← queued_requests s;
  let queued_started_count := count_if (λ r, member r && negb (_is_ttft_guard_cold_request r)) queued in
  let s := touch_group s g in
  Ok (s, running_count + queued_started_count + zlen (finished_of s g)).

Definition _group_has_first_token s (g : string) (requests : list Request) : bool :=
  negb (is_nil (finished_of s g)) || existsb (λ r, bool_decide (0 < num_output_tokens r)) requests.

Definition _group_has_started_branch_anywhere s (g : string) : res bool :=
  let member r := is_some (external_req_id r) && in_group g r in
  if negb (is_nil (finished_of s g)) then Ok true
  else if existsb member (running_requests s) then Ok true
  else
    queued ← queued_requests s;
    Ok (existsb (λ r, member r && negb (_is_ttft_guard_cold_request r)) queued).

Definition _group_has_first_token_anywhere s (g : string) : res bool :=
  let member r := is_some (external_req_id r) && in_group g r && bool_decide (0 < num_output_tokens r) in
  if negb (is_nil (finished_of s g)) then Ok true
  else if existsb member (running_requests s) then Ok true
  else queued ← queued_requests s; Ok (existsb member queued).

(** The loop shared by the two searches over waiting groups: whether some other
    waiting group fails [covered]. *)
Fixpoint some_waiting_group (covered : string → res bool) (exclude : string) (seen : gset string)
    (queue : list Request) : res bool :=
  match queue with
  | [] => Ok false
  | r :: queue =>
      let g := _taper_plus_group_id r in
      if negb (is_some (external_req_id r)) || bool_decide (g = exclude) || bool_decide (g ∈ seen)
      then some_waiting_group covered exclude seen queue
      else
        c ← covered g;
        if (c : bool) then some_waiting_group covered exclude ({[g]} ∪ seen) queue else Ok true
  end.

Definition _has_zero_start_waiting_group s (exclude : string) : res bool :=
  queued ← queued_requests s;
  some_waiting_group (_group_has_started_branch_anywhere s) exclude ∅ queued.

Definition _has_first_token_uncovered_waiting_group s (exclude : string) : res bool :=
  queued ← queued_requests s;
  some_waiting_group (_group_has_first_token_anywhere s) exclude ∅ queued.

(** [observe_request] of [_tail_blend_admission_pressure] on the arrivals and on the
    groups that have a first token. *)
Definition observe_arrival (d : list (string * float64)) r : list (string * float64) :=
  if is_some (external_req_id r) then
    let g := _taper_plus_group_id r in
    od_set d g (fmin (default (arrival_time r) (od_get d g)) (arrival_time r))
  else d.

Definition _tail_blend_admission_pressure s (now_s : float64) : res AdmissionPressure :=
  if bool_decide (tail_blend_admission_mode tc ≠ Attft_guarded) || fleb (taper_plus_ttft_slo_s tc) zerof
  then Ok (mkAdmissionPressure false zerof 0 0 (S754_infinity false) zerof onef)
  else
    let max_running := Z.max 1 (tp_max_num_running_reqs tc) in
    let running_util := fdiv (float_of_Z (zlen (running s))) (float_of_Z max_running) in
    let backlog := waiting_backlog s in
    queued ← queued_requests s;
    let observed := filter (λ r, is_some (external_req_id r) = true) (running_requests s ++ queued) in
    let group_arrivals := foldl observe_arrival [] (running_requests s ++ queued) in
    let group_has_first : gset string :=
      list_to_set (_taper_plus_group_id <$>
        filter (λ r, 0 < num_output_tokens r ∨ finished_of s (_taper_plus_group_id r) ≠ []) observed) in
    let running_groups : gset string :=
      list_to_set (_taper_plus_group_id <$> filter (λ r, is_some (external_req_id r) = true) (running_requests s)) in
    let decode_candidates := count_if _is_taper_plus_decode_candidate (running_requests s) in
    let uncovered_slacks :=
      (λ ga : string * float64, fsub (fadd ga.2 (taper_plus_ttft_slo_s tc)) now_s) <$>
      filter (λ ga : string * float64, ga.1 ∉ group_has_first) group_arrivals in
    let uncovered_groups := zlen uncovered_slacks in
    let min_slack := match uncovered_slacks with [] => S754_infinity false | x :: l => foldl fmin x l end in
    let active_running_groups := Z.max 1 (Z.of_nat (size running_groups)) in
    let fanout := fdiv (float_of_Z decode_candidates) (float_of_Z active_running_groups) in
    let ratio := free_ratio s in
    let backlog_threshold := Z.max 8 (max_running / 8) in
    let active :=
      bool_decide (0 < uncovered_groups) &&
      (fleb min_slack (fmul (dec 50 100) (taper_plus_ttft_slo_s tc)) ||
       (fleb (dec 90 100) running_util && bool_decide (0 < backlog)) ||
       (fleb (dec 75 100) running_util && fleb (float_of_Z 2) fanout && bool_decide (backlog_threshold < backlog)) ||
       (fleb ratio (dec 15 100) && bool_decide (0 < backlog))) in
    Ok (mkAdmissionPressure active running_util backlog uncovered_groups min_slack fanout ratio).

Definition _should_preserve_prompt_locality_for_ttft_guard r (running_util : float64) (backlog : Z)
    (ratio : float64) : bool :=
  if negb (is_some (external_req_id r)) then false
  else
    let prompt_tokens := Z.max 0 (num_prompt_tokens r) in
    let max_tokens := Z.max 1 (max_tokens r) in
    let total_tokens := Z.max 1 (prompt_tokens + max_tokens) in
    let prompt_share := fdiv (float_of_Z prompt_tokens) (float_of_Z total_tokens) in
    let prompt_heavy :=
      bool_decide (1024 ≤ prompt_tokens) &&
      (fleb (dec 40 100) prompt_share || bool_decide (max_tokens ≤ prompt_tokens)) in
    if negb prompt_heavy then false
    else if bool_decide (backlog ≤ 0) then false
    else fleb (dec 75 100) running_util || fleb ratio (dec 25 100).

Definition _expand_rank_key (now_s : float64) s (g : string) (queued : list Request)
    : res (Sched * list key_elem) :=
  let live := filter (λ r, in_group g r = true) (running_requests s) in
  let live_remaining := fsum (_predict_remaining_tokens s <$> live) in
  let max_tokens := zmax_default 1 ((max_tokens <$> queued) ++ (max_tokens <$> live)) in
  let queued_remaining := fmul (float_of_Z (zlen queued)) (_predict_queued_tokens s g max_tokens) in
  let predicted_parent_work := fadd live_remaining queued_remaining in
  '(deadline_s, oldest_arrival) ←
    (if negb (is_nil live) then
       deadline_s ← _get_taper_plus_group_deadline_s tc live;
       oldest_arrival ← fmin_list (arrival_time <$> live);
       Ok (deadline_s, oldest_arrival)
     else
       oldest_arrival ← fmin_list (arrival_time <$> queued);
       Ok (fadd oldest_arrival (taper_plus_ttft_slo_s tc), oldest_arrival));
  let slack_s := fmax (dec 1 1000) (fsub deadline_s now_s) in
  let urgency_cost := fdiv predicted_parent_work slack_s in
  let s := touch_group s g in
  Ok (s, [KF urgency_cost; KF predicted_parent_work; KF (fopp slack_s);
          KZ (- zlen (finished_of s g)); KF oldest_arrival; KS g]).

(** [group_to_queued], in insertion order. *)
Definition group_requests (requests : list Request) : list (string * list Request) :=
  foldl (λ d r, if is_some (external_req_id r) then
                  let g := _taper_plus_group_id r in od_set d g (default [] (od_get d g) ++ [r])
                else d) [] requests.

Definition _best_expandable_group_id s : res (Sched * option string) :=
  queued ← queued_requests s;
  let group_to_queued := group_requests queued in
  '(s, expandable) ←
    foldM (λ (acc : Sched * list (string * list Request)) (gq : string * list Request),
      let '(s, l) := acc in
      '(s, started) ← _started_sibling_count s gq.1;
      Ok (s, if bool_decide (tail_blend_pilot_k tc ≤ started) && negb (is_nil (finished_of s gq.1))
             then l ++ [gq] else l)) (s, []) group_to_queued;
  if is_nil expandable then Ok (s, None)
  else
    let '(s, now_s) := time_now s in
    '(s, keyed) ← mapM_st (λ s (gq : string * list Request),
      '(s, key) ← _expand_rank_key now_s s gq.1 gq.2; Ok (s, (gq.1, key))) s expandable;
    Ok (s, min_by keyed).

Definition _should_defer_for_ttft_fair_guard s r : res (Sched * bool) :=
  if negb (is_some (external_req_id r)) then Ok (s, false)
  else if _is_ttft_guard_output_started_request r then Ok (s, false)
  else
    let g := _taper_plus_group_id r in
    let protected_width := Z.max 1 (tail_blend_pilot_k tc) in
    '(s, started) ← _started_sibling_count s g;
    if bool_decide (started < protected_width) then Ok (s, false)
    else if bool_decide (waiting_backlog s ≤ 0) then Ok (s, false)
    else
      first ← _group_has_first_token_anywhere s g;
      b ← (if negb first then _has_zero_start_waiting_group s g
           else _has_first_token_uncovered_waiting_group s g);
      Ok (s, b).

Definition _should_defer_for_ttft_guard s r : res (Sched * bool) :=
  match tail_blend_admission_mode tc with
  | Attft_fair_guarded | Attft_cost_guarded => _should_defer_for_ttft_fair_guard s r
  | Aoff => Ok (s, false)
  | Attft_guarded =>
      if negb (_is_ttft_guard_cold_request r) then Ok (s, false)
      else
        let '(s, now_s) := time_now s in
        pressure ← _tail_blend_admission_pressure s now_s;
        if negb (active pressure) then Ok (s, false)
        else if _should_preserve_prompt_locality_for_ttft_guard r (running_util pressure)
                  (ap_waiting_backlog pressure) (free_block_ratio pressure) then Ok (s, false)
        else
          let g := _taper_plus_group_id r in
          let protected_width := Z.max 1 (tail_blend_pilot_k tc) in
          '(s, started) ← _started_sibling_count s g;
          let live := filter (λ r, in_group g r = true) (running_requests s) in
          if bool_decide (started < protected_width) then Ok (s, false)
          else if negb (_group_has_first_token s g live) then Ok (s, true)
          else
            '(s, best) ← _best_expandable_group_id s;
            Ok (s, match best with None => true | Some b => negb (bool_decide (g = b)) end)
  end.

Definition _estimate_reserved_future_blocks s r : res (Sched * Z) :=
  predicted ← _predict_output_tokens_for_reservation s r;
  '(kv, n) ← estimate_future_footprint_for_output_len (kv_cache_manager s) r (fceil predicted);
  Ok (set_kv_cache_manager s kv, n).

Definition _best_waiting_request_id_by_reservation s : res (Sched * option string) :=
  queued ← queued_requests s;
  let candidates := filter (λ r, is_some (external_req_id r) && is_some (sampling_params r) = true) queued in
  if is_nil candidates then Ok (s, None)
  else
    '(s, keyed) ← mapM_st (λ s r,
      '(s, blocks) ← _estimate_reserved_future_blocks s r;
      predicted ← _predict_output_tokens_for_reservation s r;
      Ok (s, (request_id r, [KZ blocks; KF predicted; KF (arrival_time r); KS (request_id r)]))) s candidates;
    Ok (s, min_by keyed).

Definition _should_defer_for_virtual_reservation s r : res (Sched * bool) :=
  if fleb (tail_blend_reservation_q tc) zerof then Ok (s, false)
  else if negb (_under_admission_pressure s) then Ok (s, false)
  else
    let free_blocks := get_remaining_free_blocks (kv_cache_manager s) in
    if bool_decide (free_blocks ≤ 0) then Ok (s, true)
    else
      '(s, future) ← mapM_st _estimate_reserved_future_blocks s
                       (filter (λ r, is_some (sampling_params r) = true) (running_requests s));
      '(s, request_future_blocks) ← _estimate_reserved_future_blocks s r;
      if bool_decide (zsum future + request_future_blocks ≤ free_blocks) then Ok (s, false)
      else
        '(s, best) ← _best_waiting_request_id_by_reservation s;
        Ok (s, match best with None => false | Some b => negb (bool_decide (request_id r = b)) end).

Definition tb_should_defer_waiting_request s r : res (Sched * bool) :=
  if negb (enable_taper_plus tc) || bool_decide (taper_plus_policy tc ≠ TailBlend) ||
     negb (is_some (external_req_id r)) then Ok (s, false)
  else
    '(s, reserved) ← _should_defer_for_virtual_reservation s r;
    if (reserved : bool) then Ok (s, true)
    else
      '(s, guarded) ← _should_defer_for_ttft_guard s r;
      if (guarded : bool) then Ok (s, true)
      else if bool_decide (tail_blend_pilot_k tc ≤ 0) || negb (_under_admission_pressure s) then Ok (s, false)
      else
        let g := _taper_plus_group_id r in
        '(s, started) ← _started_sibling_count s g;
        if bool_decide (started < tail_blend_pilot_k tc) then Ok (s, false)
        else if is_nil (finished_of s g) then Ok (s, true)
        else
          '(s, best) ← _best_expandable_group_id s;
          Ok (s, match best with None => false | Some b => negb (bool_decide (g = b)) end).
End TailBlend.
