(* ===== verification/TaperPlanner.v ===== *)
(** * The TAPER planner

    [_get_taper_plus_admitted_running_req_ids] of
    [src/vllm/v1/core/sched/scheduler.py] for the policies [taper] and [taper_plus]:
    every best-of-n parent keeps one decoding branch, and further branches are
    admitted greedily while the predicted latency of the step stays within the
    slack.  Dictionaries keep insertion order; the set of groups that decode is only
    used for the minimum of their slacks. *)

From Corelib Require Import SpecFloat.
From S2P Require Import Prelude PyFloat OrderedDict Request HeapQ RequestQueue FreeQueue BlockHash BlockPool KVCacheSpec SingleType CacheHit Coordinator KVCacheManager SchedUtils EncoderCache EncoderSched SchedState TaperPlus.

(** [d[k].append(x)] on a [defaultdict(list)]. *)
Definition dd_append {A} (d : list (string * list A)) (k : string) (x : A) : list (string * list A) :=
  od_set d k (default [] (od_get d k) ++ [x]).

(** The decoding branches of each parent, and the parents with several. *)
Definition group_candidates (requests : list Request) : list (string * list Request) :=
  foldl (λ d r, if _is_taper_plus_decode_candidate r then dd_append d (_taper_plus_group_id r) r else d)
    [] requests.

Definition regulated (groups : list (string * list Request)) (g : string) : bool :=
  bool_decide (1 < zlen (default [] (od_get groups g))).

(** The composition that is protected before any width is spent. *)
Record Baseline := mkBaseline {
  bl_admitted : list string;
  bl_deferred : list (string * list Request);
  bl_groups : gset string;
  bl_width : Z;
  bl_context : Z
}.

Definition baseline_step (groups : list (string * list Request)) (b : Baseline) (r : Request) : Baseline :=
  let g := _taper_plus_group_id r in
  let c := _is_taper_plus_decode_candidate r in
  if negb (regulated groups g) || negb c then
    mkBaseline (bl_admitted b ++ [request_id r]) (bl_deferred b) (bl_groups b)
      (if c then bl_width b + 1 else bl_width b)
      (if c then bl_context b + num_computed_tokens r else bl_context b)
  else if bool_decide (g ∉ bl_groups b) then
    mkBaseline (bl_admitted b ++ [request_id r]) (bl_deferred b) ({[g]} ∪ bl_groups b)
      (bl_width b + 1) (bl_context b + num_computed_tokens r)
  else mkBaseline (bl_admitted b) (dd_append (bl_deferred b) g r) (bl_groups b) (bl_width b) (bl_context b).

Definition build_baseline (groups : list (string * list Request)) (requests : list Request) : Baseline :=
  foldl (baseline_step groups) (mkBaseline [] [] ∅ 0 0) requests.

(** The best extra branch found so far. *)
Record Candidate := mkCandidate {
  cand_group : string;
  cand_request : Request;
  cand_score : float64;
  cand_step_ms : float64;
  cand_footprint : Z
}.

(** The variables of the greedy loop. *)
Record Plan := mkPlan {
  pl_admitted : list string;
  pl_deferred : list (string * list Request);
  pl_granted : list (string * Z);
  pl_infeasible : gset string;
  pl_width : Z;
  pl_context : Z;
  pl_step_ms : float64;
  pl_free_blocks : Z
}.

Section Planner.
Context {env : KVEnv} {lib : PyLib} (tc : TaperConfig).
Implicit Types (s : Sched) (r : Request).

(** [max(0.0, deadline - now) * 1000.0] of each parent. *)
Definition group_slacks (groups : list (string * list Request)) (now_s : float64) : res (list (string * float64)) :=
  mapM_res (λ gr : string * list Request,
    deadline ← _get_taper_plus_group_deadline_s tc gr.2;
    Ok (gr.1, fmul (fmax zerof (fsub deadline now_s)) (float_of_Z 1000))) groups.

(** [step + rho * max(0.0, slack - step)]. *)
Definition slack_budget (step_ms slack_ms : float64) : float64 :=
  fadd step_ms (fmul (taper_plus_rho tc) (fmax zerof (fsub slack_ms step_ms))).

(** [if best_request is None or score > best_score]. *)
Definition better (best : option Candidate) (c : Candidate) : option Candidate :=
  match best with
  | None => Some c
  | Some b => if fltb (cand_score b) (cand_score c) then Some c else Some b
  end.

(** The body of the loop over the groups. *)
Definition taper_consider (now_s budget_ms min_slack_ms : float64) (slacks : list (string * float64))
    (memory_threshold : Z) (plan : Plan) (acc : Sched * (gset string * option Candidate))
    (gd : string * list Request) : res (Sched * (gset string * option Candidate)) :=
  let '(s, (infeasible, best)) := acc in
  let '(g, deferred) := gd in
  match deferred with
  | r :: _ =>
      if bool_decide (g ∈ infeasible) then Ok acc
      else
        let predicted_step_ms :=
          _predict_taper_plus_step_ms tc s (pl_width plan + 1) (pl_context plan + num_computed_tokens r) in
        let group_budget_ms := slack_budget (pl_step_ms plan) (default min_slack_ms (od_get slacks g)) in
        let overdue_ms :=
          if taper_plus_branch_overdue_boost tc then _get_taper_plus_branch_overdue_ms tc r now_s else zerof in
        let overdue := fltb zerof overdue_ms in
        let candidate_budget_ms := fmax budget_ms group_budget_ms in
        let candidate_budget_ms :=
          if overdue then fmax candidate_budget_ms predicted_step_ms else candidate_budget_ms in
        if fltb candidate_budget_ms predicted_step_ms then Ok acc
        else
          '(s, blocked) ←
            (if bool_decide (taper_plus_policy tc = TaperPlus) then
               '(kv, footprint) ← estimate_future_footprint (kv_cache_manager s) r;
               Ok (set_kv_cache_manager s kv,
                   (bool_decide (pl_free_blocks plan < memory_threshold) ||
                    bool_decide (pl_free_blocks plan < footprint)) && negb (is_short_lived r))
             else Ok (s, false));
          if (blocked : bool) then Ok (s, ({[g]} ∪ infeasible, best))
          else
            let du := marginal_utility tc (default 0 (od_get (pl_granted plan) g)) in
            let du := if overdue
                      then fmul du (fadd onef (fdiv overdue_ms
                             (fmax onef (fmul (taper_plus_tpot_slo_s tc) (float_of_Z 1000)))))
                      else du in
            let dt := fsub predicted_step_ms (pl_step_ms plan) in
            let score := fdiv du (fadd (dec 1 1000000) (fmax zerof dt)) in
            Ok (s, (infeasible, better best (mkCandidate g r score predicted_step_ms 0)))
  | [] => Ok acc
  end.

(** The state after the branch of [c] is admitted; [rest] are the branches its group
    still defers. *)
Definition grant (plan : Plan) (c : Candidate) (rest : list Request) (free_blocks : Z) : Plan :=
  mkPlan (pl_admitted plan ++ [request_id (cand_request c)])
    (od_set (pl_deferred plan) (cand_group c) rest)
    (od_set (pl_granted plan) (cand_group c) (default 0 (od_get (pl_granted plan) (cand_group c)) + 1))
    (pl_infeasible plan) (pl_width plan + 1)
    (pl_context plan + num_computed_tokens (cand_request c)) (cand_step_ms c) free_blocks.

Definition set_infeasible (plan : Plan) (i : gset string) : Plan :=
  mkPlan (pl_admitted plan) (pl_deferred plan) (pl_granted plan) i (pl_width plan) (pl_context plan)
    (pl_step_ms plan) (pl_free_blocks plan).

(** [while available_extra_slots > 0]. *)
Fixpoint taper_greedy (slots : nat) (now_s budget_ms min_slack_ms : float64) (slacks : list (string * float64))
    (memory_threshold : Z) s (plan : Plan) : res (Sched * list string) :=
  match slots with
  | O => Ok (s, pl_admitted plan)
  | S slots =>
      '(s, (infeasible, best)) ←
        foldM (taper_consider now_s budget_ms min_slack_ms slacks memory_threshold plan)
          (s, (pl_infeasible plan, None)) (pl_deferred plan);
      match best with
      | None => Ok (s, pl_admitted plan)
      | Some c =>
          if fleb (cand_score c) zerof then Ok (s, pl_admitted plan)
          else
            let rest := tail (default [] (od_get (pl_deferred plan) (cand_group c))) in
            '(s, free) ←
              (if bool_decide (taper_plus_policy tc = TaperPlus) then
                 '(kv, footprint) ← estimate_future_footprint (kv_cache_manager s) (cand_request c);
                 Ok (set_kv_cache_manager s kv, Z.max 0 (pl_free_blocks plan - footprint))
               else Ok (s, pl_free_blocks plan));
            taper_greedy slots now_s budget_ms min_slack_ms slacks memory_threshold s
              (grant (set_infeasible plan infeasible) c rest free)
      end
  end.

(** The key by which the deferred branches of a group are sorted. *)
Definition deferred_key r : list key_elem :=
  if bool_decide (taper_plus_policy tc = TaperPlus)
  then [KF (fopp (prob_short r)); KF (arrival_time r); KS (request_id r)]
  else [KF (arrival_time r); KS (request_id r)].

Definition taper_plan s (token_budget : Z) : res (Sched * option (list string)) :=
  let requests := running_requests s in
  let groups := group_candidates requests in
  if negb (existsb (λ gr : string * list Request, bool_decide (1 < zlen gr.2)) groups) then Ok (s, None)
  else
    let b := build_baseline groups requests in
    if is_nil (bl_deferred b) then Ok (s, Some (bl_admitted b))
    else
      let memory_threshold := _get_taper_plus_memory_threshold tc s in
      let free_blocks := get_remaining_free_blocks (kv_cache_manager s) in
      if taper_plus_eager_when_unpressured tc && fltb zerof (taper_plus_step_target_ms tc) &&
         bool_decide (@queue_len string (AnyQueue string) (queue_ops s) (waiting s) = 0) &&
         bool_decide (@queue_len string (AnyQueue string) (queue_ops s) (skipped_waiting s) = 0) &&
         bool_decide (memory_threshold * 2 ≤ free_blocks)
      then Ok (s, Some (running s))
      else
        let deferred := (λ gd : string * list Request, (gd.1, sort_by deferred_key gd.2)) <$> bl_deferred b in
        if fleb (taper_plus_step_target_ms tc) zerof then Ok (s, Some (bl_admitted b))
        else
          let '(s, now_s) := time_now s in
          slacks ← group_slacks groups now_s;
          min_slack_ms ← fmin_list slacks.*2;
          let step_ms := _predict_taper_plus_step_ms tc s (bl_width b) (bl_context b) in
          let budget_ms := slack_budget step_ms min_slack_ms in
          let slots := Z.max 0 (token_budget - bl_width b) in
          '(s, admitted) ←
            taper_greedy (Z.to_nat slots) now_s budget_ms min_slack_ms slacks memory_threshold s
              (mkPlan (bl_admitted b) deferred [] ∅ (bl_width b) (bl_context b) step_ms free_blocks);
          Ok (s, Some admitted).
End Planner.
