(* ===== verification/BonTaper.v ===== *)
(** * The BoN-TAPER controller and its length predictor

    [src/vllm/v1/core/sched/bon_taper_controller.py] and
    [src/vllm/v1/core/sched/bon_taper_len_predictor.py]: the limit on active parents,
    the planner that admits branches by utility per predicted cost, and the length
    hints from finished siblings.  [statistics.fmean] of integers is their exact sum,
    rounded once, divided by their number; [statistics.pstdev] is the correctly
    rounded root of the exact variance, computed as the library does. *)

From Corelib Require Import SpecFloat.
From S2P Require Import Prelude PyFloat OrderedDict Request HeapQ RequestQueue FreeQueue BlockHash BlockPool KVCacheSpec SingleType CacheHit Coordinator KVCacheManager SchedUtils EncoderCache EncoderSched SchedState TaperPlus TailBlend TaperPlanner.

(** ** [statistics] *)

Definition fmean (l : list Z) : float64 := fdiv (float_of_Z (zsum l)) (float_of_Z (zlen l)).

Definition bit_length (z : Z) : Z := if bool_decide (z = 0) then 0 else Z.log2 (Z.abs z) + 1.

(** [_integer_sqrt_of_frac_rto]: the root of [n / m], rounded to odd. *)
Definition isqrt_rto (n m : Z) : Z :=
  let a := Z.sqrt (n / m) in if bool_decide (a * a * m = n) then a else Z.lor a 1.

(** [_float_sqrt_of_frac].  The division by a power of two is exact in the exponent. *)
Definition float_sqrt_of_frac (n m : Z) : float64 :=
  let q := (bit_length n - bit_length m - 109) / 2 in
  if bool_decide (0 ≤ q)
  then binary_normalize prec emax (Z.shiftl (isqrt_rto n (Z.shiftl m (2 * q))) q) 0 false
  else binary_normalize prec emax (isqrt_rto (Z.shiftl n (-2 * q)) m) q false.

(** [statistics.pstdev]: the variance is [(n * sum x^2 - (sum x)^2) / n^2], reduced. *)
Definition pstdev (l : list Z) : float64 :=
  let n := zlen l in
  let num := n * zsum ((λ x, x * x) <$> l) - zsum l * zsum l in
  let den := n * n in
  let g := Z.gcd num den in
  float_sqrt_of_frac (num / g) (den / g).

Section Predictor.
Context {env : KVEnv} {lib : PyLib} (tc : TaperConfig).
Implicit Types (s : Sched) (r : Request).

Definition _sigmoid (value : float64) : float64 :=
  if fleb zerof value then fdiv onef (fadd onef (m_exp (fopp value)))
  else let z := m_exp value in fdiv z (fadd onef z).

(** ** [BoNTaperLenPredictor] *)

Definition lp_finished s (g : string) : list Z := default [] (lp_groups (plugins s) !! g).

(** [self._groups[g]]. *)
Definition lp_touch s (g : string) : Sched :=
  match lp_groups (plugins s) !! g with
  | Some _ => s
  | None => set_plugins s (set_lp_groups (plugins s) (<[g := []]> (lp_groups (plugins s))))
  end.

Definition lp_prepare_request s r : Sched :=
  if negb (enable_taper_plus tc) || bool_decide (taper_plus_policy tc ≠ BonTaperLenPredictor) then s
  else set_plugins s (set_request_to_group (plugins s)
         (<[request_id r := _taper_plus_group_id r]> (request_to_group (plugins s)))).

Definition predict_short_probability r (live_lengths finished_lengths : list Z) : float64 :=
  let output_len := num_output_tokens r in
  let max_tokens := Z.max 1 (max_tokens r) in
  let progress := fmin onef (int_truediv output_len max_tokens) in
  if bool_decide (output_len ≤ 0) then progress
  else if is_nil finished_lengths then progress
  else
    let finished_mean := fmean finished_lengths in
    let finished_std :=
      if bool_decide (1 < zlen finished_lengths) then pstdev finished_lengths
      else fmul finished_mean (dec 25 100) in
    let sorted_finished := py_sorted Z.ltb finished_lengths in
    let tail_count := Z.max 1 (fceil (fmul (float_of_Z (zlen sorted_finished)) (dec 5 10))) in
    let tail_mean := fmean (py_slice_from sorted_finished (- tail_count)) in
    let predicted_total := fmin (float_of_Z max_tokens) (fmax tail_mean (fadd finished_mean finished_std)) in
    let closeness :=
      _sigmoid (fdiv (fadd (fsub (float_of_Z output_len) predicted_total) (float_of_Z 128)) (float_of_Z 128)) in
    let live_rank :=
      if is_nil live_lengths then dec 5 10
      else _sigmoid (fdiv (fsub (float_of_Z output_len) (fmean live_lengths)) (float_of_Z 128)) in
    let completed_ratio :=
      int_truediv (zlen finished_lengths) (Z.max 1 (zlen finished_lengths + zlen live_lengths)) in
    _clamp01 (fadd (fadd (fadd (fmul (dec 45 100) closeness) (fmul (dec 30 100) progress))
                (fmul (dec 15 100) live_rank)) (fmul (dec 10 100) completed_ratio)).

(** [request.prob_short = max(request.prob_short, p)] on the object. *)
Definition raise_prob_short s (id : string) (p : float64) : Sched :=
  set_sc_requests s (alter (λ r, set_prob_short r (fmax (prob_short r) p)) id (sc_requests s)).

Definition refresh_request s r : Sched :=
  let g := _taper_plus_group_id r in
  let s := set_plugins s (set_request_to_group (plugins s) (<[request_id r := g]> (request_to_group (plugins s)))) in
  let live_lengths :=
    num_output_tokens <$> filter (λ r, in_group g r && _is_taper_plus_decode_candidate r = true) (running_requests s) in
  let s := lp_touch s g in
  raise_prob_short s (request_id r) (predict_short_probability r live_lengths (lp_finished s g)).

Definition lp_observe_request_output s r (new_token_ids : list Z) : Sched :=
  if bool_decide (taper_plus_policy tc ≠ BonTaperLenPredictor) || is_nil new_token_ids then s
  else refresh_request s r.

Definition lp_observe_finished_request s r : Sched :=
  let g := default (_taper_plus_group_id r) (request_to_group (plugins s) !! request_id r) in
  let s := set_plugins s (set_request_to_group (plugins s) (delete (request_id r) (request_to_group (plugins s)))) in
  if bool_decide (0 < num_output_tokens r) then
    set_plugins s (set_lp_groups (plugins s) (<[g := lp_finished s g ++ [num_output_tokens r]]> (lp_groups (plugins s))))
  else s.

(** One group of [refresh_running_requests]: the lengths are read before any hint of
    the group is written. *)
Definition refresh_group s (gr : string * list Request) : Sched :=
  let '(g, requests) := gr in
  let live_lengths := num_output_tokens <$> requests in
  foldl (λ s r, let s := lp_touch s g in
                raise_prob_short s (request_id r) (predict_short_probability r live_lengths (lp_finished s g)))
    s requests.

Definition refresh_running_requests s : Sched :=
  if bool_decide (taper_plus_policy tc ≠ BonTaperLenPredictor) then s
  else
    let requests := filter (λ r, _is_taper_plus_decode_candidate r = true) (running_requests s) in
    let running_by_group := group_candidates (running_requests s) in
    let s := foldl (λ s r, set_plugins s (set_request_to_group (plugins s)
               (<[request_id r := _taper_plus_group_id r]> (request_to_group (plugins s))))) s requests in
    let s := foldl refresh_group s running_by_group in
    let k := plugins s in
    set_plugins s (set_lp_groups k
      (filter (λ gl : string * list Z, gl.1 ∈ running_by_group.*1 ∨
                 map_Exists (λ _ g, g = gl.1) (request_to_group k)) (lp_groups k))).

Definition _predict_from_finished_lengths (finished_lengths : list Z) (max_tokens : Z) : res Z :=
  let sorted_lengths := py_sorted Z.ltb finished_lengths in
  let count := zlen sorted_lengths in
  if bool_decide (count = 1) then
    base ← py_nth sorted_lengths 0;
    let margin := Z.max 256 (fceil (fmul (float_of_Z base) (dec 25 100))) in
    Ok (Z.min max_tokens (base + margin))
  else
    let quantile_index := Z.min (count - 1) (fceil (fmul (dec 75 100) (float_of_Z count)) - 1) in
    p75 ← py_nth sorted_lengths quantile_index;
    let mean := fmean sorted_lengths in
    let std := pstdev sorted_lengths in
    let margin := Z.max 128 (fceil (fmul (dec 25 100) std)) in
    Ok (Z.min max_tokens
          (fceil (fadd (fmax (float_of_Z p75) (fadd mean (fmul (dec 5 10) std))) (float_of_Z margin)))).

Definition predict_total_output_tokens s r : res (Sched * option Z) :=
  let g := default (_taper_plus_group_id r) (request_to_group (plugins s) !! request_id r) in
  let s := lp_touch s g in
  let finished := lp_finished s g in
  if is_nil finished then Ok (s, None)
  else
    let current_output := num_output_tokens r in
    let max_tokens := Z.max 1 (max_tokens r) in
    if bool_decide (max_tokens ≤ current_output) then Ok (s, Some max_tokens)
    else
      predicted ← _predict_from_finished_lengths finished max_tokens;
      let min_target := current_output + Z.min 256 (max_tokens - current_output) in
      Ok (s, Some (Z.min max_tokens (Z.max predicted min_target))).

(** ** [BoNTaperController] *)

Definition len_predictor_protected_width : Z := 4.

Definition has_parent r : bool := match external_req_id r with Some e => negb (bool_decide (e = "")) | None => false end.

Definition bon_should_defer_waiting_request s r : res bool :=
  if negb (enable_taper_plus tc) ||
     negb (bool_decide (taper_plus_policy tc ∈ [BonTaper; BonTaperPlus; BonTaperLenPredictor])) ||
     negb (has_parent r) then Ok false
  else
    let memory_threshold := _get_taper_plus_memory_threshold tc s in
    let free_blocks := get_remaining_free_blocks (kv_cache_manager s) in
    if bool_decide (memory_threshold * 4 ≤ free_blocks) &&
       bool_decide (waiting_backlog s ≤ tp_max_num_running_reqs tc) then Ok false
    else
      let g := _taper_plus_group_id r in
      let active_parent_ids : gset string :=
        list_to_set (_taper_plus_group_id <$> filter (λ r, has_parent r = true) (running_requests s)) in
      if bool_decide (g ∈ active_parent_ids) then Ok false
      else
        queued ← queued_requests s;
        let sibling_count := Z.max 1 (count_if (in_group g) queued) in
        if bool_decide (tp_block_size tc = 0) then Raise ZeroDivisionError
        else
          let blocks_per_sequence := Z.max 1 ((tp_max_model_len tc + tp_block_size tc - 1) / tp_block_size tc) in
          let sequence_capacity :=
            Z.max 1 (num_gpu_blocks (km_pool (kv_cache_manager s)) / blocks_per_sequence) in
          let parent_cap := Z.max 1 (Z.min 8 ((sequence_capacity * 4) / sibling_count)) in
          Ok (bool_decide (parent_cap ≤ Z.of_nat (size active_parent_ids))).

Definition use_memory_lifetime : bool :=
  bool_decide (taper_plus_policy tc ∈ [BonTaperPlus; BonTaperLenPredictor]).

(** [_is_better_candidate]. *)
Definition _is_better_candidate (best : option Candidate) (c : Candidate) : bool :=
  match best with
  | None => true
  | Some b =>
      let r := cand_request c in let rb := cand_request b in
      if fltb (cand_score b) (cand_score c) then true
      else if fltb (cand_score c) (cand_score b) then false
      else if use_memory_lifetime && negb (feqb (prob_short r) (prob_short rb))
      then fltb (prob_short rb) (prob_short r)
      else key_ltb [KF (arrival_time r); KS (request_id r)] [KF (arrival_time rb); KS (request_id rb)]
  end.

(** The future footprint of a branch, by the signals the policy uses. *)
Definition bon_footprint s r (width : Z) : res (Sched * Z) :=
  if negb use_memory_lifetime then Ok (s, 0)
  else
    '(s, predicted) ←
      (if bool_decide (taper_plus_policy tc = BonTaperLenPredictor) &&
          bool_decide (len_predictor_protected_width ≤ width)
       then predict_total_output_tokens s r else Ok (s, None));
    '(kv, n) ← match predicted with
               | Some len => estimate_future_footprint_for_output_len (kv_cache_manager s) r len
               | None => estimate_future_footprint (kv_cache_manager s) r
               end;
    Ok (set_kv_cache_manager s kv, n).

(** The body of the loop over the deferred branches. *)
Definition bon_consider (now_s global_budget_ms min_slack_ms : float64) (slacks : list (string * float64))
    (memory_threshold : Z) (plan : Plan) (g : string) (acc : Sched * option Candidate) r
    : res (Sched * option Candidate) :=
  let '(s, best) := acc in
  let predicted_step_ms :=
    _predict_taper_plus_step_ms tc s (pl_width plan + 1) (pl_context plan + num_computed_tokens r) in
  let group_budget_ms := slack_budget tc (pl_step_ms plan) (default min_slack_ms (od_get slacks g)) in
  let candidate_budget_ms := fmax global_budget_ms group_budget_ms in
  let overdue_ms :=
    if taper_plus_branch_overdue_boost tc then _get_taper_plus_branch_overdue_ms tc r now_s else zerof in
  let overdue := fltb zerof overdue_ms in
  let candidate_budget_ms := if overdue then fmax candidate_budget_ms predicted_step_ms else candidate_budget_ms in
  if fltb candidate_budget_ms predicted_step_ms then Ok (s, best)
  else
    let width := default 0 (od_get (pl_granted plan) g) in
    '(s, future_footprint) ← bon_footprint s r width;
    let gated :=
      bool_decide (taper_plus_policy tc = BonTaperPlus) &&
      (bool_decide (pl_free_blocks plan < memory_threshold) || bool_decide (pl_free_blocks plan < future_footprint)) &&
      negb (is_short_lived r) in
    if use_memory_lifetime && gated then Ok (s, best)
    else
      let utility := marginal_utility tc width in
      let utility :=
        if overdue
        then fmul utility (fadd onef (fdiv overdue_ms (fmax onef (fmul (taper_plus_tpot_slo_s tc) (float_of_Z 1000)))))
        else utility in
      let utility :=
        if use_memory_lifetime then
          let utility := fmul utility (fadd onef (fmax zerof (prob_short r))) in
          if bool_decide (0 < future_footprint)
          then fdiv utility (fadd onef (int_truediv future_footprint (Z.max 1 (pl_free_blocks plan)))) else utility
        else utility in
      let marginal_step_ms := fmax zerof (fsub predicted_step_ms (pl_step_ms plan)) in
      let score := fdiv utility (fadd (dec 1 1000000) marginal_step_ms) in
      let c := mkCandidate g r score predicted_step_ms future_footprint in
      Ok (s, if _is_better_candidate best c then Some c else best).

(** [deferred.remove(request)]. *)
Definition remove_request_of (l : list Request) (id : string) : list Request :=
  match list_find (λ r, request_id r = id) l with Some (i, _) => delete i l | None => l end.

Fixpoint bon_greedy (slots : nat) (now_s global_budget_ms min_slack_ms : float64) (slacks : list (string * float64))
    (memory_threshold : Z) s (plan : Plan) : res (Sched * list string) :=
  match slots with
  | O => Ok (s, pl_admitted plan)
  | S slots =>
      '(s, best) ←
        foldM (λ acc (gd : string * list Request),
          foldM (bon_consider now_s global_budget_ms min_slack_ms slacks memory_threshold plan gd.1) acc gd.2)
          (s, None) (pl_deferred plan);
      match best with
      | None => Ok (s, pl_admitted plan)
      | Some c =>
          if fleb (cand_score c) zerof then Ok (s, pl_admitted plan)
          else
            let rest := remove_request_of (default [] (od_get (pl_deferred plan) (cand_group c)))
                          (request_id (cand_request c)) in
            let free := if use_memory_lifetime then Z.max 0 (pl_free_blocks plan - cand_footprint c)
                        else pl_free_blocks plan in
            bon_greedy slots now_s global_budget_ms min_slack_ms slacks memory_threshold s (grant plan c rest free)
      end
  end.

(** [admitted_width_by_group] after the baseline: one for each protected group. *)
Definition baseline_widths (b : Baseline) : list (string * Z) :=
  (λ g, (g, 1)) <$> elements (bl_groups b).

Definition plan_admitted_req_ids s (token_budget : Z) : res (Sched * option (list string)) :=
  if negb (enable_taper_plus tc) || bool_decide (token_budget ≤ 0) then Ok (s, None)
  else if bool_decide (taper_plus_policy tc = BonTaper) then Ok (s, None)
  else
    let s := if bool_decide (taper_plus_policy tc = BonTaperLenPredictor) then refresh_running_requests s else s in
    let requests := running_requests s in
    let groups := group_candidates requests in
    if negb (existsb (λ gr : string * list Request, bool_decide (1 < zlen gr.2)) groups) then Ok (s, None)
    else
      let memory_threshold := _get_taper_plus_memory_threshold tc s in
      let free_blocks := get_remaining_free_blocks (kv_cache_manager s) in
      if bool_decide (memory_threshold ≤ free_blocks) then Ok (s, None)
      else
        let b := build_baseline groups requests in
        if is_nil (bl_deferred b) then Ok (s, Some (bl_admitted b))
        else if fleb (taper_plus_step_target_ms tc) zerof then Ok (s, Some (bl_admitted b))
        else
          let '(s, now_s) := time_now s in
          slacks ← group_slacks tc groups now_s;
          if is_nil slacks then Ok (s, Some (bl_admitted b))
          else
            let step_ms := _predict_taper_plus_step_ms tc s (bl_width b) (bl_context b) in
            min_slack_ms ← fmin_list slacks.*2;
            let slots := Z.max 0 (token_budget - bl_width b) in
            if bool_decide (slots = 0) then Ok (s, Some (bl_admitted b))
            else
              let global_budget_ms := slack_budget tc step_ms min_slack_ms in
              '(s, admitted) ←
                bon_greedy (Z.to_nat slots) now_s global_budget_ms min_slack_ms slacks memory_threshold s
                  (mkPlan (bl_admitted b) (bl_deferred b) (baseline_widths b) ∅ (bl_width b) (bl_context b)
                     step_ms free_blocks);
              Ok (s, Some admitted).
End Predictor.
