(* ===== verification/Controllers.v ===== *)
(** * The controllers as plug-ins of the scheduler

    How [src/vllm/v1/core/sched/scheduler.py] calls its three controllers: the
    dispatch on the policy in [_get_taper_plus_admitted_running_req_ids], the deferral
    test of the waiting loop, the victim of a preemption, the hooks for new, finished
    and produced output, and the latency sample of a step.  No request uses structured
    output. *)

From Corelib Require Import SpecFloat.
From S2P Require Import Prelude PyFloat OrderedDict Request HeapQ RequestQueue FreeQueue BlockHash BlockPool KVCacheSpec SingleType CacheHit Coordinator KVCacheManager SchedUtils EncoderCache EncoderSched SchedState TaperPlus TailBlend TaperPlanner BonTaper.

Section Dispatch.
Context {env : KVEnv} {lib : PyLib} (tc : TaperConfig).
Implicit Types (s : Sched) (r : Request).

Definition is_len_predictor : bool := bool_decide (taper_plus_policy tc = BonTaperLenPredictor).

(** [TailBlendController.plan_admitted_running_req_ids] returns [None]. *)
Definition _get_taper_plus_admitted_running_req_ids s (token_budget : Z) : res (Sched * option (list string)) :=
  if negb (enable_taper_plus tc) || bool_decide (token_budget ≤ 0) then Ok (s, None)
  else
    match taper_plus_policy tc with
    | TailBlend => Ok (s, None)
    | BonTaper | BonTaperPlus | BonTaperLenPredictor => plan_admitted_req_ids tc s token_budget
    | Taper | TaperPlus => taper_plan tc s token_budget
    end.

Definition defer_waiting s r : res (Sched * bool) :=
  '(s, defer_for_tail_blend) ←
    (if bool_decide (taper_plus_policy tc = TailBlend) &&
        (bool_decide (0 < tail_blend_pilot_k tc) || fltb zerof (tail_blend_reservation_q tc) ||
         bool_decide (tail_blend_admission_mode tc ≠ Aoff))
     then tb_should_defer_waiting_request tc s r else Ok (s, false));
  if (defer_for_tail_blend : bool) then Ok (s, true)
  else b ← bon_should_defer_waiting_request tc s r; Ok (s, b).

Definition observe_output s r (new_token_ids : list Z) : Sched :=
  if enable_taper_plus tc && is_len_predictor && negb (is_nil new_token_ids)
  then lp_observe_request_output tc s r new_token_ids else s.

Definition observe_finished s r : Sched :=
  let s := if enable_taper_plus tc && bool_decide (taper_plus_policy tc = TailBlend)
           then tb_observe_finished_request s r else s in
  if enable_taper_plus tc && is_len_predictor then lp_observe_finished_request s r else s.

Definition taper_step_started s (num_scheduled_tokens : list (string * Z)) : Controllers * TaperStep :=
  if enable_taper_plus tc && bool_decide (taper_plus_policy tc ≠ TailBlend) then
    let '(w, c, p) := _get_taper_plus_step_features s num_scheduled_tokens in
    let ms := _predict_taper_plus_step_ms tc s w c in
    let '(s, start) := time_now s in
    (plugins s, mkTaperStep start w c p ms)
  else (plugins s, no_taper_step).

Definition taper_step_observed s (t : TaperStep) : Controllers :=
  if fltb zerof (taper_plus_step_start_s t) then
    let '(s, now) := time_now s in
    let observed_ms := fmul (fsub now (taper_plus_step_start_s t)) (float_of_Z 1000) in
    plugins (_update_taper_plus_latency_model tc s observed_ms (taper_plus_decode_width t)
               (taper_plus_context_tokens t) (taper_plus_prefill_tokens t))
  else plugins s.

Definition select_victim s (id : string) : res (Sched * option string) :=
  '(s, victim) ← tb_select_preemption_victim tc s (obj s id); Ok (s, option_map request_id victim).

Definition controllers : Plugins Controllers := {|
  get_taper_plus_admitted_running_req_ids := _get_taper_plus_admitted_running_req_ids;
  select_preemption_victim := select_victim;
  should_defer_waiting_request s id := defer_waiting s (obj s id);
  prepare_request s r := Ok (lp_prepare_request tc s r, r);
  observe_request_output s r ts := Ok (observe_output s r ts);
  observe_finished_request s r := Ok (observe_finished s r);
  step_started := taper_step_started;
  step_observed := taper_step_observed;
  grammar_ready _ _ := true;
  should_advance _ _ := false;
  accept_tokens k _ _ := (k, true);
  validate_tokens _ _ ts := ts
|}.
End Dispatch.
