(* ===== verification/ControllerLaws.v ===== *)
(** * The controllers keep the contract of the scheduler

    The scheduler relies on [PluginLaws]: a controller returns, and changes only its
    own state and the length hints of requests.  Here the controllers are shown to do
    so ([controllers_laws]) for every configuration in [admissible].

    [quietly s m Q]: the computation [m] started in [s] returns, the state differs
    from [s] in the controllers only, and the result satisfies [Q]; it has the rules
    of a program logic. *)

From Corelib Require Import SpecFloat.
From S2P Require Import Prelude PyFloat FloatBounds OrderedDict Request HeapQ RequestQueue FreeQueue BlockHash BlockPool KVCacheSpec SingleType CacheHit Coordinator KVCacheManager SchedUtils EncoderCache EncoderSched KVContract SchedState SchedQueues SchedInv SchedulerSpec TaperPlus TailBlend TaperPlanner BonTaper Controllers.

(** ** The program logic *)

Definition quietly {A} (s : Sched) (m : res (Sched * A)) (Q : A → Prop) : Prop :=
  ∃ k a, m = Ok (set_plugins s k, a) ∧ Q a.

Definition returns {A} (m : res A) (Q : A → Prop) : Prop := ∃ a, m = Ok a ∧ Q a.

Definition any {A} (_ : A) : Prop := True.

Create HintDb quiet.

Lemma set_plugins_same (s : Sched) : set_plugins s (plugins s) = s.
Proof. by destruct s. Qed.

Lemma set_plugins_twice (s : Sched) k k' : set_plugins (set_plugins s k) k' = set_plugins s k'.
Proof. by destruct s. Qed.

Lemma quiet_ret {A} s (a : A) (Q : A → Prop) : Q a → quietly s (Ok (s, a)) Q.
Proof. exists (plugins s), a. by rewrite set_plugins_same. Qed.

Lemma quiet_set {A} s k (a : A) (Q : A → Prop) : Q a → quietly s (Ok (set_plugins s k, a)) Q.
Proof. by exists k, a. Qed.

Lemma quiet_mono {A} s (m : res (Sched * A)) (P Q : A → Prop) :
  quietly s m P → (∀ a, P a → Q a) → quietly s m Q.
Proof. intros (k & a & -> & Ha) H. exists k, a. auto. Qed.

Lemma quiet_bind {A B} s (m : res (Sched * A)) (f : Sched → A → res (Sched * B)) (P : A → Prop) (Q : B → Prop) :
  quietly s m P → (∀ k a, P a → quietly (set_plugins s k) (f (set_plugins s k) a) Q) →
  quietly s ('(s, a) ← m; f s a) Q.
Proof.
  intros (k & a & -> & Ha) Hf. cbn. destruct (Hf k a Ha) as (k' & b & -> & Hb).
  exists k', b. by rewrite set_plugins_twice.
Qed.

(** A step of the controller's own state in front. *)
Lemma quiet_after {A} s k (m : res (Sched * A)) (Q : A → Prop) :
  quietly (set_plugins s k) m Q → quietly s m Q.
Proof. intros (k' & a & -> & Ha). exists k', a. by rewrite set_plugins_twice. Qed.

Lemma quiet_returns {A B} s (m : res A) (f : A → res (Sched * B)) (P : A → Prop) (Q : B → Prop) :
  returns m P → (∀ a, P a → quietly s (f a) Q) → quietly s (a ← m; f a) Q.
Proof. intros (a & -> & Ha) Hf. cbn. by apply Hf. Qed.

Lemma returns_bind {A B} (m : res A) (f : A → res B) (P : A → Prop) (Q : B → Prop) :
  returns m P → (∀ a, P a → returns (f a) Q) → returns (a ← m; f a) Q.
Proof. intros (a & -> & Ha) Hf. cbn. by apply Hf. Qed.

Lemma returns_ret {A} (a : A) (Q : A → Prop) : Q a → returns (Ok a) Q.
Proof. by exists a. Qed.

Lemma returns_mono {A} (m : res A) (P Q : A → Prop) : returns m P → (∀ a, P a → Q a) → returns m Q.
Proof. intros (a & -> & Ha) H. exists a. auto. Qed.

(** [f] is quiet on the elements of a list, from every state of the controllers. *)
Lemma quiet_mapM_st {A B} (f : Sched → A → res (Sched * B)) (R : A → B → Prop) l : ∀ s,
  (∀ k a, a ∈ l → quietly (set_plugins s k) (f (set_plugins s k) a) (R a)) →
  quietly s (mapM_st f s l) (Forall2 R l).
Proof.
  induction l as [|a l IH]; intros s Hf; cbn [mapM_st]; [by apply quiet_ret|].
  eapply quiet_bind; [|intros k b Hb; eapply quiet_bind].
  - rewrite -(set_plugins_same s). apply Hf. left.
  - apply IH. intros k' a' Ha'. rewrite set_plugins_twice. apply Hf. by right.
  - intros k' bs Hbs. apply quiet_ret. by constructor.
Qed.

Lemma quiet_foldM {A B} (f : Sched * B → A → res (Sched * B)) (Q : B → Prop) l : ∀ s b,
  (∀ k b a, a ∈ l → Q b → quietly (set_plugins s k) (f (set_plugins s k, b) a) Q) → Q b →
  quietly s (foldM f (s, b) l) Q.
Proof.
  induction l as [|a l IH]; intros s b Hf Hb; cbn [foldM]; [by apply quiet_ret|].
  destruct (Hf (plugins s) b a) as (k & b' & E & Hb'); [left|done|]. rewrite set_plugins_same in E.
  rewrite E. cbn [mbind res_bind]. apply (quiet_after _ k). apply IH; [|done].
  intros k' b2 a' Ha'. rewrite set_plugins_twice. apply Hf. by right.
Qed.

#[export] Hint Resolve quiet_ret quiet_set returns_ret : quiet.
#[export] Hint Unfold any : quiet.
#[export] Hint Extern 1 (any _) => exact I : quiet.

(** The next step of a controller. *)
Ltac quiet_step :=
  match goal with
  | |- quietly _ (Ok _) _ => first [apply quiet_ret|apply quiet_set]; try done
  | |- returns (Ok _) _ => apply returns_ret; try done
  | |- context [if ?b then _ else _] => let E := fresh "E" in destruct b eqn:E
  end.

(** Lists that are not empty have extrema. *)
Lemma fmin_list_ok l : l ≠ [] → returns (fmin_list l) any.
Proof. destruct l; [done|]. intros _. by eexists. Qed.

Lemma fmax_list_ok l : l ≠ [] → returns (fmax_list l) any.
Proof. destruct l; [done|]. intros _. by eexists. Qed.

Lemma group_deadline_ok tc requests : requests ≠ [] → returns (_get_taper_plus_group_deadline_s tc requests) any.
Proof.
  intros Hne. unfold _get_taper_plus_group_deadline_s.
  destruct (forallb _ requests) eqn:E.
  - eapply returns_bind; [apply fmin_list_ok; by destruct requests|]. intros. by apply returns_ret.
  - eapply returns_bind; [apply fmax_list_ok|intros; by apply returns_ret].
    intros Hn%fmap_nil_inv. apply not_true_iff_false in E. apply E, forallb_forall. intros r Hr%list_elem_of_In.
    apply bool_decide_eq_true. assert (r ∉ filter (λ r, 0 < num_output_tokens r) requests) as Hni
      by (rewrite Hn; apply not_elem_of_nil).
    rewrite list_elem_of_filter in Hni. unfold num_output_tokens, zlen in *. destruct (output_token_ids r); [done|].
    exfalso. apply Hni. split; [cbn; lia|done].
Qed.

Lemma max_by_ok {A} (l : list (A * list key_elem)) : l ≠ [] → ∃ x, max_by l = Some x ∧ x ∈ l.*1.
Proof.
  destruct l as [|y l]; [done|]. intros _. cbn [max_by]. eexists. split; [reflexivity|].
  assert (∀ l' z, z.1 ∈ (y :: l).*1 → (∀ u, u ∈ l' → u ∈ l) →
    (foldl (λ best u : A * list key_elem, if key_ltb best.2 u.2 then u else best) z l').1 ∈ (y :: l).*1) as H.
  { induction l' as [|u l' IH]; intros z Hz Hl; [done|]. cbn [foldl]. apply IH; [|intros v Hv; apply Hl; by right].
    destruct (key_ltb z.2 u.2); [|done]. apply list_elem_of_fmap. exists u. split; [done|]. right. apply Hl. left. }
  apply H; [left|done].
Qed.

(** ** Percentiles *)

Lemma insert_sorted_length {A} (ltb : A → A → bool) x l : length (insert_sorted ltb x l) = S (length l).
Proof. induction l as [|y l IH]; cbn; [done|]. destruct (ltb x y); cbn; [done|by rewrite IH]. Qed.

Lemma py_sorted_length {A} (ltb : A → A → bool) l : length (py_sorted ltb l) = length l.
Proof.
  unfold py_sorted. assert (∀ l acc, length (foldl (λ acc x, insert_sorted ltb x acc) acc l) = (length acc + length l)%nat) as H.
  { clear l. induction l as [|x l IH]; intros acc; cbn [foldl]; [cbn; lia|].
    rewrite IH insert_sorted_length. cbn. lia. }
  by rewrite H.
Qed.

Lemma py_nth_some {A} (l : list A) i : 0 ≤ i < zlen l → ∃ x, py_nth l i = Ok x ∧ x ∈ l.
Proof.
  intros Hi. destruct (zlen_lookup l i Hi) as [x Hx]. exists x. split; [by apply py_nth_ok; [lia|]|by eapply list_elem_of_lookup_2].
Qed.

Lemma interpolate_ok values q :
  valid_binary prec emax q = true → 0 < zlen values ≤ 2 ^ prec → returns (interpolate values q) any.
Proof.
  intros Hq Hn. unfold interpolate.
  pose proof (clamped_index q (zlen values - 1) Hq ltac:(lia)) as Hi. unfold unit_clamp in Hi.
  change (float_of_Z 0) with zerof in Hi. change (float_of_Z 1) with onef in Hi.
  set (i := ftrunc _) in *.
  destruct (py_nth_some values i) as (lo & -> & _); [lia|]. cbn [mbind res_bind].
  destruct (py_nth_some values (Z.min (i + 1) (zlen values - 1))) as (hi & -> & _); [lia|].
  cbn [mbind res_bind]. by eexists.
Qed.

Lemma percentile_float_ok values q :
  valid_binary prec emax q = true → zlen values ≤ 2 ^ prec → returns (_percentile_float values q) any.
Proof.
  intros Hq Hn. unfold _percentile_float. destruct values as [|x l]; cbn [is_nil]; [by eexists|].
  apply interpolate_ok; [done|]. unfold zlen in *. rewrite py_sorted_length. cbn [length] in *. lia.
Qed.

Lemma percentile_ok values q :
  valid_binary prec emax q = true → zlen values ≤ 2 ^ prec → returns (_percentile values q) any.
Proof.
  intros Hq Hn. unfold _percentile. destruct values as [|x l]; cbn [is_nil]; [by eexists|].
  apply interpolate_ok; [done|]. unfold zlen in *. rewrite length_fmap py_sorted_length. cbn [length] in *. lia.
Qed.

Section Laws.
Context {env : KVEnv} {lib : PyLib} (cfg : SchedulerConfig) (tc : TaperConfig).
Context {hashed : Request → Prop} `{KV : !KVContract (max_model_len cfg) hashed}.
Implicit Types (s : Sched) (t : gmap string Z) (r : Request).

Definition Ready s t : Prop := ∃ w k x, SchedInv cfg s t w k x.

(** The blocks of the computed tokens of [r] are there. *)
Definition live t r : Prop := 0 ≤ num_computed_tokens r ≤ tok t (request_id r).

Lemma Ready_plugins s t k : Ready s t → Ready (set_plugins s k) t.
Proof. intros (w & q & x & I). exists w, q, x. by eapply SchedInv_core; [|exact I]. Qed.

Lemma stored_live s t w k x id :
  SchedInv cfg s t w k x → id ∈ running s ++ w ++ k ++ x →
  live t (obj s id) ∧ sc_requests s !! id = Some (obj s id) ∧ request_id (obj s id) = id.
Proof.
  intros I Hid. apply (si_dom _ _ _ _ _ _ I) in Hid as [r Hr]. rewrite (obj_lookup _ _ _ Hr).
  destruct (si_store _ _ _ _ _ _ I id r Hr). split_and!; try done. unfold live. rewrite ro_id. lia.
Qed.

Lemma running_live s t r :
  Ready s t → r ∈ running_requests s → live t r ∧ request_id r ∈ running s ∧ sc_requests s !! request_id r = Some r.
Proof.
  intros (w & k & x & I) (id & -> & Hid)%list_elem_of_fmap.
  destruct (stored_live _ _ _ _ _ id I) as (H1 & H2 & H3); [by apply elem_of_app; left|]. by rewrite H3.
Qed.

Lemma queued_live s t :
  Ready s t → returns (queued_requests s) (λ l, ∀ r, r ∈ l → live t r ∧ sc_requests s !! request_id r = Some r).
Proof.
  intros (w & k & x & I). unfold queued_requests, waiting_requests, skipped_requests, queue_requests.
  rewrite (holds_iter _ _ _ _ (si_waiting _ _ _ _ _ _ I)) (holds_iter _ _ _ _ (si_skipped _ _ _ _ _ _ I)).
  cbn. eexists. split; [reflexivity|]. intros r. rewrite -fmap_app. intros (id & -> & Hid)%list_elem_of_fmap.
  destruct (stored_live _ _ _ _ _ id I) as (H1 & H2 & H3); [set_solver|]. by rewrite H3.
Qed.

Lemma queued_any s t : Ready s t → returns (queued_requests s) any.
Proof. intros H. eapply returns_mono; [by apply queued_live|done]. Qed.

Lemma kv_same s : set_kv_cache_manager s (kv_cache_manager s) = s.
Proof. by destruct s. Qed.

Lemma footprint_for_ok s t r len :
  Ready s t → live t r → ∃ n, estimate_future_footprint_for_output_len (kv_cache_manager s) r len = Ok (kv_cache_manager s, n).
Proof. intros (w & k & x & I) Hl. by eapply law_estimate; [apply I|]. Qed.

Lemma footprint_ok s t r :
  Ready s t → live t r → ∃ n, estimate_future_footprint (kv_cache_manager s) r = Ok (kv_cache_manager s, n).
Proof. intros (w & k & x & I) Hl. by eapply (law_estimate (kv_cache_manager s) t); [apply I|]. Qed.

Lemma future_blocks_same s t r : Ready s t → live t r → ∃ n, _predicted_future_blocks tc s r = (s, n).
Proof.
  intros HR Hl. unfold _predicted_future_blocks.
  destruct (footprint_for_ok s t r (num_output_tokens r + fceil (_predict_remaining_tokens s r)) HR Hl) as [n ->].
  rewrite kv_same. by eexists.
Qed.

Lemma rescue_ok s t g : Ready s t → returns (_parent_rescue_score s g) any.
Proof.
  intros HR. unfold _parent_rescue_score. eapply returns_bind; [by eapply queued_any|]. intros. by apply returns_ret.
Qed.

Lemma victim_key_ok s t cur now mode r :
  Ready s t → live t r → mode ≠ Mfull_slo → ∃ key, _preemption_victim_key tc cur now mode s r = Ok (s, key).
Proof.
  intros HR Hl Hm. unfold _preemption_victim_key. destruct (rescue_ok s t (_taper_plus_group_id r) HR) as (x & -> & _).
  cbn [mbind res_bind]. destruct mode; try done; cbn [mbind res_bind]; try (by eexists).
  unfold _kv_freed_preemption_score. destruct (future_blocks_same s t r HR Hl) as [n ->]. by eexists.
Qed.

Lemma best_victim_ok s t candidates cur now mode :
  Ready s t → (∀ r, r ∈ candidates → live t r) → candidates ≠ [] → mode ≠ Mfull_slo →
  quietly s (best_victim tc s candidates cur now mode) (λ v, v ∈ candidates).
Proof.
  intros HR Hl Hne Hm. unfold best_victim. eapply quiet_bind.
  - apply (quiet_mapM_st _ (λ r (p : Request * list key_elem), p.1 = r)). intros k r Hr.
    destruct (victim_key_ok (set_plugins s k) t cur now mode r) as [key ->]; [by apply Ready_plugins|by apply Hl|done|].
    cbn. by apply quiet_ret.
  - intros k keyed HF. assert (keyed.*1 = candidates) as E.
    { clear -HF. induction HF; [done|]. cbn. by f_equal. }
    destruct (max_by_ok keyed) as (v & -> & Hv); [by intros ->; cbn in E; subst|]. apply quiet_ret. by rewrite -E.
Qed.

(** ** The victim of a preemption *)

Hypothesis Hlimit : max_num_running_reqs cfg < 2 ^ 52.

Lemma running_requests_len s t : Ready s t → zlen (running_requests s) < 2 ^ 52.
Proof.
  intros (w & k & x & I). pose proof (si_limit _ _ _ _ _ _ I). unfold running_requests, zlen in *.
  rewrite length_fmap. lia.
Qed.

Lemma candidates_live s t r : Ready s t → r ∈ preemption_candidates s → live t r ∧ r ∈ running_requests s.
Proof. intros HR [_ Hr]%list_elem_of_filter. split; [by apply (running_live s)|done]. Qed.

Lemma pressure_ok s t current :
  Ready s t → returns (_adaptive_pressure_state s current (preemption_candidates s)) any.
Proof.
  intros HR. unfold _adaptive_pressure_state. pose proof (running_requests_len s t HR) as Hlen.
  assert (zlen (preemption_candidates s) ≤ zlen (running_requests s)) as Hc.
  { unfold preemption_candidates, zlen. apply Nat2Z.inj_le, length_filter. }
  set (reqs := if forallb _ _ then _ else _).
  assert (zlen reqs < 2 ^ 53) as Hr.
  { unfold reqs. destruct (forallb _ _); [rewrite zlen_app; cbn|]; unfold zlen in *; cbn in *; lia. }
  assert (∀ l : list float64, l = _predict_remaining_tokens s <$> filter (λ r, is_some (sampling_params r) = true) reqs →
    zlen l ≤ 2 ^ prec) as Hl.
  { intros l ->. unfold zlen in *. rewrite length_fmap. pose proof (length_filter (λ r, is_some (sampling_params r) = true) reqs).
    unfold prec. lia. }
  eapply returns_bind; [apply percentile_float_ok; [by vm_compute|by apply Hl]|]. intros p50 _.
  eapply returns_bind; [apply percentile_float_ok; [by vm_compute|by apply Hl]|]. intros p90 _. by apply returns_ret.
Qed.

Lemma adaptive_mode_ok s t current :
  Ready s t → preemption_candidates s ≠ [] →
  quietly s (_select_adaptive_preemption_mode tc s current (preemption_candidates s)) (λ m, m ≠ Some Mfull_slo).
Proof.
  intros HR Hne. unfold _select_adaptive_preemption_mode. eapply quiet_returns; [by eapply pressure_ok|].
  intros pressure _. set (k := set_last_pressure _ _). apply (quiet_after _ k).
  repeat (quiet_step; try done). unfold _full_candidate_has_high_prefix_waste, time_now.
  set (s1 := set_plugins s k) in *. eapply (quiet_bind _ _ _ any).
  - eapply quiet_after. eapply quiet_bind; [|intros; by apply quiet_ret].
    apply (best_victim_ok _ t); [do 2 apply Ready_plugins; done| |done|done].
    intros r Hr. by apply (candidates_live s).
  - intros k2 waste _. unfold count_choice. by destruct waste; quiet_step.
Qed.

Hypothesis Hmode : tail_blend_preemption_mode tc ≠ Mfull_slo.

Lemma victim_ok s t current :
  Ready s t →
  quietly s (tb_select_preemption_victim tc s current) (λ o, ∀ v, o = Some v → v ∈ preemption_candidates s).
Proof.
  intros HR. unfold tb_select_preemption_victim. destruct (_ || _ || _); [by apply quiet_ret|].
  destruct (is_nil (preemption_candidates s)) eqn:En; [by apply quiet_ret|].
  assert (preemption_candidates s ≠ []) as Hne by (by intros E; rewrite E in En).
  unfold time_now. cbv zeta. apply (quiet_after _ (set_ticks (plugins s) (S (ticks (plugins s))))).
  set (s1 := set_plugins s _). assert (Ready s1 t) as HR1 by by apply Ready_plugins.
  change (preemption_candidates s) with (preemption_candidates s1) in *.
  eapply (quiet_bind _ _ _ (λ m, m ≠ Some Mfull_slo)).
  - destruct (bool_decide (_ = Madaptive)); [|apply quiet_ret; congruence].
    eapply quiet_bind; [by eapply adaptive_mode_ok|]. intros k m Hm. unfold count_choice. by apply quiet_set.
  - intros k [mode|] Hm; [|by apply quiet_ret]. destruct (_ && _); [by apply quiet_ret|].
    eapply quiet_bind; [apply (best_victim_ok _ t); [by apply Ready_plugins| |done|congruence]|].
    + intros r Hr. by apply (candidates_live s1).
    + intros k2 v Hv. apply quiet_ret. by intros v' [= <-].
Qed.

(** ** Admission hints *)

Lemma started_ok s t g : Ready s t → quietly s (_started_sibling_count s g) any.
Proof.
  intros HR. unfold _started_sibling_count. eapply quiet_returns; [by eapply queued_any|]. intros queued _.
  unfold touch_group. destruct (tail_group s g); by quiet_step.
Qed.

Lemma started_anywhere_ok s t g : Ready s t → returns (_group_has_started_branch_anywhere s g) any.
Proof.
  intros HR. unfold _group_has_started_branch_anywhere. repeat quiet_step.
  eapply returns_bind; [by eapply queued_any|]. intros. by apply returns_ret.
Qed.

Lemma first_anywhere_ok s t g : Ready s t → returns (_group_has_first_token_anywhere s g) any.
Proof.
  intros HR. unfold _group_has_first_token_anywhere. repeat quiet_step.
  eapply returns_bind; [by eapply queued_any|]. intros. by apply returns_ret.
Qed.

Lemma some_waiting_ok covered exclude queue : ∀ seen,
  (∀ g, returns (covered g) any) → returns (some_waiting_group covered exclude seen queue) any.
Proof.
  induction queue as [|r queue IH]; intros seen Hc; cbn [some_waiting_group]; [by apply returns_ret|].
  destruct (_ || _ || _); [by apply IH|]. eapply returns_bind; [apply Hc|]. intros [] _; [by apply IH|by apply returns_ret].
Qed.

Lemma fair_guard_ok s t r : Ready s t → quietly s (_should_defer_for_ttft_fair_guard tc s r) any.
Proof.
  intros HR. unfold _should_defer_for_ttft_fair_guard. do 2 (quiet_step; [by quiet_step|]).
  eapply quiet_bind; [by eapply started_ok|]. intros k started _.
  assert (Ready (set_plugins s k) t) as HR' by by apply Ready_plugins.
  do 2 (quiet_step; [by quiet_step|]). eapply quiet_returns; [by eapply first_anywhere_ok|]. intros first _.
  eapply (quiet_returns _ _ _ any); [|intros; by apply quiet_ret].
  destruct first; eapply returns_bind; try (by eapply queued_any); intros; apply some_waiting_ok; intros.
  - by eapply first_anywhere_ok.
  - by eapply started_anywhere_ok.
Qed.

Lemma admission_pressure_ok s t now : Ready s t → returns (_tail_blend_admission_pressure tc s now) any.
Proof.
  intros HR. unfold _tail_blend_admission_pressure. quiet_step; [by quiet_step|].
  eapply returns_bind; [by eapply queued_any|]. intros. by apply returns_ret.
Qed.

Lemma expand_key_ok s t now g queued :
  Ready s t → queued ≠ [] → quietly s (_expand_rank_key tc now s g queued) any.
Proof.
  intros HR Hq. unfold _expand_rank_key. eapply (quiet_returns _ _ _ any).
  - quiet_step.
    + eapply returns_bind; [apply group_deadline_ok; by destruct (filter _ (running_requests s))|]. intros d _.
      eapply returns_bind; [apply fmin_list_ok|intros; by apply returns_ret]. by destruct (filter _ (running_requests s)).
    + eapply returns_bind; [apply fmin_list_ok; by destruct queued|]. intros. by apply returns_ret.
  - intros [d o] _. unfold touch_group. destruct (tail_group s g); by quiet_step.
Qed.

Lemma group_requests_nonempty requests gq : gq ∈ group_requests requests → gq.2 ≠ [].
Proof.
  unfold group_requests. assert (∀ l d, (∀ gq, gq ∈ d → gq.2 ≠ []) → ∀ gq : string * list Request,
    gq ∈ foldl (λ d r, if is_some (external_req_id r) then
                  let g := _taper_plus_group_id r in od_set d g (default [] (od_get d g) ++ [r])
                else d) d l → gq.2 ≠ []) as H.
  { induction l as [|r l IH]; intros d Hd; [done|]. cbn [foldl]. apply IH. destruct (is_some _); [|done].
    intros gq' Hin. destruct gq' as [g' l']. cbn.
    apply od_set_elem in Hin as [[= -> ->]|Hin]; [|by apply Hd in Hin]. by intros ?%app_nil_r_inv. }
  apply H. by intros ? ?%not_elem_of_nil.
Qed.

Lemma best_expandable_ok s t : Ready s t → quietly s (_best_expandable_group_id tc s) any.
Proof.
  intros HR. unfold _best_expandable_group_id. eapply quiet_returns; [by eapply queued_any|]. intros queued _.
  eapply (quiet_bind _ _ _ (λ l : list (string * list Request), ∀ gq, gq ∈ l → gq.2 ≠ [])).
  - apply quiet_foldM; [|by intros ? ?%not_elem_of_nil]. intros k l gq Hgq Hl.
    eapply quiet_bind; [apply (started_ok _ t); by apply Ready_plugins|]. intros k' started _. apply quiet_ret.
    destruct (_ && _); [|done]. intros gq' [Hin| ->%list_elem_of_singleton]%elem_of_app; [by apply Hl|].
    by eapply group_requests_nonempty.
  - intros k expandable Hex. quiet_step; [by quiet_step|]. unfold time_now. cbv zeta.
    match goal with |- context [mapM_st _ (set_plugins ?s0 ?k0) _] => apply (quiet_after s0 k0) end.
    eapply quiet_bind; [|intros; by apply quiet_ret].
    apply (quiet_mapM_st _ (λ _ _, True)). intros k2 gq Hgq.
    eapply quiet_bind; [apply (expand_key_ok _ t); [by repeat apply Ready_plugins|by apply Hex]|].
    intros. by apply quiet_ret.
Qed.

Lemma ttft_guard_ok s t r : Ready s t → quietly s (_should_defer_for_ttft_guard tc s r) any.
Proof.
  intros HR. unfold _should_defer_for_ttft_guard.
  destruct (tail_blend_admission_mode tc); [by apply quiet_ret| |by eapply fair_guard_ok..].
  quiet_step; [by quiet_step|]. unfold time_now. cbv zeta.
  match goal with |- context [_tail_blend_admission_pressure _ (set_plugins ?s0 ?k0) _] => apply (quiet_after s0 k0) end.
  eapply quiet_returns; [apply (admission_pressure_ok _ t); by apply Ready_plugins|]. intros pressure _.
  do 2 (quiet_step; [by quiet_step|]).
  eapply quiet_bind; [apply (started_ok _ t); by apply Ready_plugins|]. intros k started _.
  do 2 (quiet_step; [by quiet_step|]).
  eapply quiet_bind; [apply (best_expandable_ok _ t); by repeat apply Ready_plugins|]. intros. by apply quiet_ret.
Qed.

Hypothesis Hq : fleb (tail_blend_reservation_q tc) zerof = true.

Lemma tb_defer_ok s t r : Ready s t → quietly s (tb_should_defer_waiting_request tc s r) any.
Proof.
  intros HR. unfold tb_should_defer_waiting_request, _should_defer_for_virtual_reservation. rewrite Hq.
  quiet_step; [by quiet_step|]. cbn [mbind res_bind].
  eapply quiet_bind; [by eapply ttft_guard_ok|]. intros k guarded _.
  assert (Ready (set_plugins s k) t) as HR' by by apply Ready_plugins.
  do 2 (quiet_step; [by quiet_step|]).
  eapply quiet_bind; [by eapply started_ok|]. intros k2 started _.
  do 2 (quiet_step; [by quiet_step|]).
  eapply quiet_bind; [apply (best_expandable_ok _ t); by apply Ready_plugins|]. intros. by apply quiet_ret.
Qed.

(** ** The limit on active parents *)

Hypothesis Hblock : tp_block_size tc ≠ 0.

Lemma bon_defer_ok s t r : Ready s t → returns (bon_should_defer_waiting_request tc s r) any.
Proof.
  intros HR. unfold bon_should_defer_waiting_request. do 3 (quiet_step; [by quiet_step|]).
  eapply returns_bind; [by eapply queued_any|]. intros queued _. rewrite bool_decide_false //. by apply returns_ret.
Qed.

Lemma defer_ok s t r : Ready s t → quietly s (defer_waiting tc s r) any.
Proof.
  intros HR. unfold defer_waiting. eapply (quiet_bind _ _ _ any).
  - quiet_step; [by eapply tb_defer_ok|by quiet_step].
  - intros k b _. quiet_step; [by quiet_step|].
    eapply quiet_returns; [apply (bon_defer_ok _ t); by apply Ready_plugins|]. intros. by apply quiet_ret.
Qed.
End Laws.
