(* ===== verification/PlannerSpec.v ===== *)
(** * What the planners admit

    [_get_taper_plus_admitted_running_req_ids] (policies [taper] and [taper_plus]) and
    [plan_admitted_req_ids] of the BoN controller: the plan splits the running
    requests into admitted and deferred ones ([Split]); every request that is not a
    branch of a parent with several decoding branches is admitted, every parent keeps
    a branch, and the decode width stays within the token budget or the baseline. *)

From Corelib Require Import SpecFloat.
From S2P Require Import Prelude PyFloat FloatBounds OrderedDict Request HeapQ RequestQueue FreeQueue BlockHash BlockPool KVCacheSpec SingleType CacheHit Coordinator KVCacheManager SchedUtils EncoderCache EncoderSched KVContract SchedState SchedQueues SchedInv SchedulerSpec TaperPlus TailBlend TaperPlanner BonTaper Controllers ControllerLaws.

Abbreviation cand := _is_taper_plus_decode_candidate.
Abbreviation gid := _taper_plus_group_id.

(** All requests of a dictionary of lists. *)
Definition flat (d : list (string * list Request)) : list Request := d ≫= snd.

#[export] Instance flat_proper : Proper ((≡ₚ) ==> (≡ₚ)) flat.
Proof. intros d1 d2 HP. by apply bind_Permutation. Qed.

(** The decode width of a list of requests. *)
Definition width_of (l : list Request) : Z := count_if cand l.

#[export] Instance width_of_proper : Proper ((≡ₚ) ==> (=)) width_of.
Proof. intros l1 l2 HP. unfold width_of, count_if, zlen. f_equal. by rewrite HP. Qed.

Lemma width_app l1 l2 : width_of (l1 ++ l2) = width_of l1 + width_of l2.
Proof. unfold width_of, count_if. by rewrite filter_app zlen_app. Qed.

Lemma filter_one r : filter (λ r, cand r = true) [r] = if cand r then [r] else [].
Proof. by destruct (cand r) eqn:E; [rewrite filter_cons_True|rewrite filter_cons_False //; rewrite E]. Qed.

Lemma width_one r : width_of [r] = if cand r then 1 else 0.
Proof. unfold width_of, count_if. rewrite filter_one. by destruct (cand r). Qed.

(** ** Dictionaries of lists *)

Lemma flat_elem d g l r : (g, l) ∈ d → r ∈ l → r ∈ flat d.
Proof. intros Hd Hr. apply list_elem_of_bind. by exists (g, l). Qed.

Lemma od_set_keys {V} (d : list (string * V)) k v : NoDup d.*1 → NoDup (od_set d k v).*1.
Proof.
  intros Hnd. destruct (od_get d k) as [v0|] eqn:E.
  - destruct (od_get_split d k v0 Hnd E) as (d' & HP & Hk).
    rewrite (od_set_perm d d' k v0 v Hnd HP). rewrite HP in Hnd. done.
  - apply od_get_None in E. rewrite od_set_fresh // fmap_app. apply NoDup_app. split_and!; [done| |apply NoDup_singleton].
    intros x Hx ->%list_elem_of_singleton. done.
Qed.

Lemma flat_append d k r : NoDup d.*1 → flat (dd_append d k r) ≡ₚ flat d ++ [r].
Proof.
  intros Hnd. unfold dd_append. destruct (od_get d k) as [l|] eqn:E; cbn [default].
  - destruct (od_get_split d k l Hnd E) as (d' & HP & Hk). rewrite (od_set_perm d d' k l _ Hnd HP) HP.
    unfold flat. cbn. rewrite -!app_assoc. apply Permutation_app_head. cbn.
    rewrite -Permutation_cons_append. done.
  - apply od_get_None in E. rewrite od_set_fresh //. unfold flat. rewrite bind_app. done.
Qed.

Lemma append_elem (d : list (string * list Request)) k r g l :
  (g, l) ∈ dd_append d k r → (g, l) ∈ d ∨ (g = k ∧ l = default ([] : list Request) (od_get d k) ++ [r]).
Proof. unfold dd_append. intros [[= -> ->]|?]%od_set_elem; naive_solver. Qed.

(** A request leaves the list of its group. *)
Lemma flat_remove d k l r rest :
  NoDup d.*1 → od_get d k = Some l → l ≡ₚ r :: rest → flat d ≡ₚ r :: flat (od_set d k rest).
Proof.
  intros Hnd E Hl. destruct (od_get_split d k l Hnd E) as (d' & HP & Hk).
  rewrite (od_set_perm d d' k l rest Hnd HP) HP. unfold flat. cbn. by rewrite Hl.
Qed.

(** Every request of a group has its id, and no list is empty. *)
Lemma group_candidates_elem requests g l :
  (g, l) ∈ group_candidates requests → l ≠ [] ∧ ∀ r, r ∈ l → r ∈ requests ∧ cand r = true ∧ gid r = g.
Proof.
  unfold group_candidates.
  assert (∀ todo d, NoDup d.*1 → (∀ g l, (g, l) ∈ d → l ≠ [] ∧ ∀ r, r ∈ l → r ∈ requests ∧ cand r = true ∧ gid r = g) →
    (∀ r, r ∈ todo → r ∈ requests) → ∀ g l,
    (g, l) ∈ foldl (λ d r, if cand r then dd_append d (gid r) r else d) d todo →
    l ≠ [] ∧ ∀ r, r ∈ l → r ∈ requests ∧ cand r = true ∧ gid r = g) as H.
  { induction todo as [|r todo IH]; intros d Hnd Hd Htodo; [done|]. cbn [foldl].
    apply IH; [| |intros r' Hr'; apply Htodo; by right]; destruct (cand r) eqn:Hc; try done; [by apply od_set_keys|].
    intros g' l' [Hin|[-> ->]]%append_elem; [by apply Hd|]. split; [by intros ?%app_nil_r_inv|].
    intros r' [Hr'| ->%list_elem_of_singleton]%elem_of_app.
    - destruct (od_get d (gid r)) as [l0|] eqn:E; cbn in Hr'; [|by apply not_elem_of_nil in Hr'].
      apply od_get_Some in E. by apply (Hd _ _ E).
    - split_and!; [apply Htodo; left|done|done]. }
  apply H; [apply NoDup_nil_2|by intros ? ? ?%not_elem_of_nil|done].
Qed.

(** The decoding branches of a parent. *)
Definition branches (g : string) (requests : list Request) : list Request :=
  filter (λ r, cand r = true ∧ gid r = g) requests.

Lemma group_candidates_get requests g : default [] (od_get (group_candidates requests) g) = branches g requests.
Proof.
  unfold group_candidates.
  assert (∀ todo d, default [] (od_get (foldl (λ d r, if cand r then dd_append d (gid r) r else d) d todo) g) =
    default [] (od_get d g) ++ branches g todo) as H; [|by rewrite H].
  induction todo as [|r todo IH]; intros d; cbn [foldl]; [by rewrite app_nil_r|]. rewrite IH.
  change (branches g (r :: todo)) with (branches g ([r] ++ todo)). unfold branches. rewrite filter_app app_assoc. f_equal.
  destruct (cand r) eqn:Hc; unfold dd_append.
  - rewrite od_get_set. destruct (decide (gid r = g)) as [E|E].
    + rewrite filter_cons_True //. by rewrite E.
    + rewrite filter_cons_False; [by rewrite app_nil_r|naive_solver].
  - rewrite filter_cons_False; [by rewrite app_nil_r|]. rewrite Hc. naive_solver.
Qed.

Lemma regulated_spec requests g : regulated (group_candidates requests) g = bool_decide (1 < zlen (branches g requests)).
Proof. unfold regulated. by rewrite group_candidates_get. Qed.

(** ** The baseline *)

Definition parents_of (l : list Request) : list string := gid <$> filter (λ r, cand r = true) l.

Record BaseInv groups (seen : list Request) (b : Baseline) (adm : list Request) : Prop := {
  bi_admitted : bl_admitted b = request_id <$> adm;
  bi_split : adm ++ flat (bl_deferred b) ≡ₚ seen;
  bi_keys : NoDup (bl_deferred b).*1;
  bi_width : bl_width b = width_of adm;
  bi_deferred : ∀ g l r, (g, l) ∈ bl_deferred b → r ∈ l →
    cand r = true ∧ gid r = g ∧ regulated groups g = true ∧ g ∈ bl_groups b;
  bi_groups : ∀ g, g ∈ bl_groups b → ∃ r, r ∈ adm ∧ cand r = true ∧ gid r = g;
  bi_protected : ∀ r, r ∈ adm → cand r = true → regulated groups (gid r) = true → gid r ∈ bl_groups b;
  bi_distinct : NoDup (parents_of adm)
}.

(** A branch whose parent has no admitted branch yet is admitted. *)
Lemma BaseInv_admit groups seen b adm r gs ctx :
  BaseInv groups seen b adm → bl_groups b ⊆ gs → (∀ g, g ∈ gs → g ∈ bl_groups b ∨ (g = gid r ∧ cand r = true)) →
  (cand r = true → gid r ∉ parents_of adm) → (cand r = true → regulated groups (gid r) = true → gid r ∈ gs) →
  BaseInv groups (seen ++ [r])
    (mkBaseline (bl_admitted b ++ [request_id r]) (bl_deferred b) gs
       (if cand r then bl_width b + 1 else bl_width b) ctx) (adm ++ [r]).
Proof.
  intros [H1 H2 H3 H4 H5 H6 H7 H8] Hgs Hsg Hnew Hreg. split; cbn [bl_admitted bl_deferred bl_groups bl_width]; try done.
  - by rewrite H1 fmap_app.
  - rewrite -H2 -!app_assoc. apply Permutation_app_head, Permutation_app_comm.
  - rewrite width_app width_one -H4. destruct (cand r); lia.
  - intros g l r' Hd Hr'. destruct (H5 g l r' Hd Hr') as (? & ? & ? & ?). split_and!; set_solver.
  - intros g [(r' & ? & ? & ?)%H6|[-> ?]]%Hsg; [exists r'|exists r]; rewrite elem_of_app list_elem_of_singleton; auto.
  - intros r' [Hr'| ->%list_elem_of_singleton]%elem_of_app Hc Hg; [|by apply Hreg]. apply Hgs. by apply H7.
  - unfold parents_of in *. rewrite filter_app fmap_app. apply NoDup_app. split_and!; [done| |].
    + intros g Hg. rewrite filter_one. destruct (cand r) eqn:Hc; [|apply not_elem_of_nil].
      cbn. intros ->%list_elem_of_singleton. by apply Hnew.
    + rewrite filter_one. destruct (cand r); [apply NoDup_singleton|apply NoDup_nil_2].
Qed.

Lemma baseline_step_inv seen r todo b adm :
  let groups := group_candidates (seen ++ r :: todo) in
  BaseInv groups seen b adm → ∃ adm', BaseInv groups (seen ++ [r]) (baseline_step groups b r) adm'.
Proof.
  intros groups HB. unfold baseline_step.
  assert (regulated groups (gid r) = false → cand r = true → gid r ∉ parents_of adm) as Honly.
  { unfold groups. rewrite regulated_spec. intros Hn%bool_decide_eq_false Hc (r' & Er & [Hc' Hr']%list_elem_of_filter)%list_elem_of_fmap.
    apply Hn. assert (r' ∈ seen) as Hs by (rewrite -(bi_split _ _ _ _ HB); apply elem_of_app; by left).
    unfold branches. rewrite filter_app filter_cons_True // zlen_app zlen_cons.
    assert (0 < zlen (filter (λ x, cand x = true ∧ gid x = gid r) seen)).
    { apply list_elem_of_split in Hs as (l1 & l2 & ->). rewrite filter_app filter_cons_True // zlen_app zlen_cons.
      unfold zlen. lia. }
    unfold zlen in *. lia. }
  assert (gid r ∉ bl_groups b → regulated groups (gid r) = true → gid r ∉ parents_of adm) as Hfresh.
  { intros Hn Hr (r' & Er & [Hc' Hr']%list_elem_of_filter)%list_elem_of_fmap. apply Hn. rewrite Er.
    apply (bi_protected _ _ _ _ HB); [done|done|by rewrite -Er]. }
  destruct (negb (regulated groups (gid r)) || negb (cand r)) eqn:E; [|destruct (decide (gid r ∉ bl_groups b)) as [Hn|Hn]].
  - exists (adm ++ [r]). apply BaseInv_admit; [done|done|by left| |].
    + intros Hc. rewrite Hc orb_false_r in E. apply Honly; [by apply negb_true_iff|done].
    + intros Hc Hr. by rewrite Hc Hr in E.
  - apply orb_false_elim in E as [Er%negb_false_iff Ec%negb_false_iff]. rewrite bool_decide_true //.
    exists (adm ++ [r]). pose proof (BaseInv_admit groups seen b adm r ({[gid r]} ∪ bl_groups b)
      (bl_context b + num_computed_tokens r) HB) as H. rewrite Ec in H. apply H; [set_solver|set_solver|auto|set_solver].
  - apply orb_false_elim in E as [Er%negb_false_iff Ec%negb_false_iff]. apply dec_stable in Hn.
    rewrite bool_decide_false; [|naive_solver]. destruct HB as [H1 H2 H3 H4 H5 H6 H7 H8].
    exists adm. split; cbn [bl_admitted bl_deferred bl_groups bl_width]; try done.
    + rewrite flat_append // app_assoc H2. done.
    + by apply od_set_keys.
    + intros g l r' [Hd|[-> ->]]%append_elem Hr'; [by eapply H5|].
      apply elem_of_app in Hr' as [Hr'| ->%list_elem_of_singleton]; [|done].
      destruct (od_get (bl_deferred b) (gid r)) as [l0|] eqn:E0; cbn in Hr'; [|by apply not_elem_of_nil in Hr'].
      apply od_get_Some in E0. by eapply H5.
Qed.

Lemma build_baseline_inv requests :
  ∃ adm, BaseInv (group_candidates requests) requests (build_baseline (group_candidates requests) requests) adm.
Proof.
  unfold build_baseline.
  assert (∀ todo seen b adm, requests = seen ++ todo → BaseInv (group_candidates requests) seen b adm →
    ∃ adm', BaseInv (group_candidates requests) requests (foldl (baseline_step (group_candidates requests)) b todo) adm') as H.
  { induction todo as [|r todo IH]; intros seen b adm E Hb; [exists adm; by rewrite E app_nil_r in Hb |- *|]. cbn [foldl].
    rewrite E in Hb. destruct (baseline_step_inv seen r todo b adm Hb) as [adm' Hb']. rewrite -E in Hb'.
    apply (IH (seen ++ [r]) _ adm'); [by rewrite -app_assoc|done]. }
  apply (H requests [] _ []); [done|]. split; cbn; try done; first [apply NoDup_nil_2|set_solver].
Qed.

(** ** The greedy loops *)

Record PlanInv (requests base : list Request) (plan : Plan) (extra : list Request) : Prop := {
  pi_admitted : pl_admitted plan = request_id <$> base ++ extra;
  pi_split : base ++ extra ++ flat (pl_deferred plan) ≡ₚ requests;
  pi_keys : NoDup (pl_deferred plan).*1;
  pi_width : pl_width plan = width_of (base ++ extra);
  pi_cands : ∀ r, r ∈ flat (pl_deferred plan) → cand r = true
}.

Lemma grant_inv requests base plan extra c l rest free :
  PlanInv requests base plan extra → (cand_group c, l) ∈ pl_deferred plan → l ≡ₚ cand_request c :: rest →
  PlanInv requests base (grant plan c rest free) (extra ++ [cand_request c]).
Proof.
  intros [H1 H2 H3 H4 H5] Hd Hl. pose proof (od_get_elem _ _ _ H3 Hd) as Hg.
  pose proof (flat_remove _ _ _ _ _ H3 Hg Hl) as HF.
  assert (cand (cand_request c) = true) as Hc by (apply H5; rewrite HF; left).
  split; cbn [grant pl_admitted pl_deferred pl_width].
  - by rewrite H1 app_assoc (fmap_app _ (base ++ extra)).
  - rewrite -H2 HF. by rewrite -app_assoc.
  - by apply od_set_keys.
  - by rewrite app_assoc width_app width_one Hc H4.
  - intros r Hr. apply H5. rewrite HF. by right.
Qed.

Lemma PlanInv_infeasible requests base plan extra i :
  PlanInv requests base plan extra → PlanInv requests base (set_infeasible plan i) extra.
Proof. by intros []. Qed.

Lemma deferred_in requests base plan extra g l r :
  PlanInv requests base plan extra → (g, l) ∈ pl_deferred plan → r ∈ l → r ∈ requests.
Proof. intros [_ HP _ _ _] Hd Hr. rewrite -HP !elem_of_app. right. right. by eapply flat_elem. Qed.

(** What a plan admits: the baseline and extra branches, within a width. *)
Definition admits (requests base : list Request) (bound : Z) (ids : list string) : Prop :=
  ∃ extra rest, ids = request_id <$> base ++ extra ∧ base ++ extra ++ rest ≡ₚ requests ∧
    width_of (base ++ extra) ≤ bound.

Lemma PlanInv_admits requests base plan extra bound :
  PlanInv requests base plan extra → pl_width plan ≤ bound → admits requests base bound (pl_admitted plan).
Proof. intros [H1 H2 H3 H4 H5] Hb. exists extra, (flat (pl_deferred plan)). split_and!; [done..|lia]. Qed.

Section Loops.
Context {env : KVEnv} {lib : PyLib} (cfg : SchedulerConfig) (tc : TaperConfig).
Context {hashed : Request → Prop} `{KV : !KVContract (max_model_len cfg) hashed}.
Context (requests base : list Request) (t : gmap string Z).
Hypothesis Hlive : ∀ r, r ∈ requests → live t r.
Implicit Types (s : Sched) (r : Request) (plan : Plan).

(** The candidate found so far heads the list of its group. *)
Definition heads (plan : Plan) (best : option Candidate) : Prop :=
  ∀ c, best = Some c → ∃ rest, (cand_group c, cand_request c :: rest) ∈ pl_deferred plan.

Lemma better_heads plan best c rest :
  heads plan best → (cand_group c, cand_request c :: rest) ∈ pl_deferred plan → heads plan (better best c).
Proof.
  intros Hb Hc. unfold better. destruct best as [b|]; [destruct (fltb _ _)|]; intros c' [= <-]; eauto.
Qed.

Lemma taper_gate_ok s plan r memory_threshold :
  Ready cfg s t → live t r →
  quietly s (if bool_decide (taper_plus_policy tc = TaperPlus) then
               '(kv, footprint) ← estimate_future_footprint (kv_cache_manager s) r;
               Ok (set_kv_cache_manager s kv,
                   (bool_decide (pl_free_blocks plan < memory_threshold) ||
                    bool_decide (pl_free_blocks plan < footprint)) && negb (is_short_lived r))
             else Ok (s, false)) any.
Proof.
  intros HR Hr. destruct (bool_decide _); [|by apply quiet_ret].
  destruct (footprint_ok cfg s t r HR Hr) as [n ->]. cbn. rewrite kv_same. by apply quiet_ret.
Qed.

Lemma taper_consider_ok now budget min_slack slacks mem plan extra s i best gd :
  PlanInv requests base plan extra → Ready cfg s t → gd ∈ pl_deferred plan → heads plan best →
  quietly s (taper_consider tc now budget min_slack slacks mem plan (s, (i, best)) gd) (λ ib, heads plan ib.2).
Proof.
  intros HP HR Hgd Hb. unfold taper_consider. destruct gd as [g [|r rest]]; [by apply quiet_ret|].
  destruct (bool_decide (g ∈ i)); [by apply quiet_ret|]. destruct (fltb _ _); [by apply quiet_ret|].
  eapply quiet_bind; [apply taper_gate_ok; [done|apply Hlive; eapply deferred_in; [done|done|left]]|].
  intros k blocked _. destruct blocked; apply quiet_ret; [done|]. by eapply better_heads.
Qed.

Lemma taper_greedy_ok now budget min_slack slacks mem slots : ∀ s plan extra,
  PlanInv requests base plan extra → Ready cfg s t →
  quietly s (taper_greedy tc slots now budget min_slack slacks mem s plan)
    (admits requests base (pl_width plan + Z.of_nat slots)).
Proof.
  induction slots as [|slots IH]; intros s plan extra HP HR; cbn [taper_greedy].
  { apply quiet_ret. eapply PlanInv_admits; [done|lia]. }
  eapply (quiet_bind _ _ _ (λ ib : gset string * option Candidate, heads plan ib.2)).
  { apply quiet_foldM; [|done]. intros k [i best] gd Hgd Hb. eapply taper_consider_ok; try done. by apply Ready_plugins. }
  intros k [i best] Hb. assert (Ready cfg (set_plugins s k) t) as HR' by by apply Ready_plugins.
  assert (admits requests base (pl_width plan + Z.of_nat (S slots)) (pl_admitted plan)) as Hend
    by (eapply PlanInv_admits; [done|lia]).
  destruct best as [c|]; [|by apply quiet_ret]. destruct (fleb _ _); [by apply quiet_ret|].
  destruct (Hb c eq_refl) as [rest Hc].
  assert (∃ n, (if bool_decide (taper_plus_policy tc = TaperPlus) then
      '(kv, footprint) ← estimate_future_footprint (kv_cache_manager (set_plugins s k)) (cand_request c);
      Ok (set_kv_cache_manager (set_plugins s k) kv, Z.max 0 (pl_free_blocks plan - footprint))
    else Ok (set_plugins s k, pl_free_blocks plan)) = Ok (set_plugins s k, n)) as [n ->].
  { destruct (bool_decide _); [|by eexists].
    destruct (footprint_ok cfg (set_plugins s k) t (cand_request c) HR') as [n ->].
    - apply Hlive. eapply deferred_in; [done|done|left].
    - cbn [mbind res_bind]. rewrite kv_same. by eexists. }
  cbn [mbind res_bind]. rewrite (od_get_elem _ _ _ (pi_keys _ _ _ _ HP) Hc). cbn [default tail].
  eapply quiet_mono; [eapply IH; [|done]|].
  - eapply grant_inv; [by apply PlanInv_infeasible|exact Hc|done].
  - intros a. cbn [grant pl_width set_infeasible]. by replace (pl_width plan + 1 + Z.of_nat slots) with (pl_width plan + Z.of_nat (S slots)) by lia.
Qed.

(** *** The loop of the BoN controller *)

Lemma py_nth_range {A} (l : list A) i : - zlen l ≤ i < zlen l → ∃ x, py_nth l i = Ok x.
Proof.
  intros Hi. unfold py_nth. set (j := if bool_decide (i < 0) then _ else _).
  assert (0 ≤ j < zlen l) as Hj by (unfold j; destruct (bool_decide_reflect (i < 0)); lia).
  rewrite bool_decide_false; [|lia]. destruct (zlen_lookup l j Hj) as [x ->]. by eexists.
Qed.

Lemma predict_finished_ok finished max_tokens :
  finished ≠ [] → returns (_predict_from_finished_lengths finished max_tokens) any.
Proof.
  intros Hne. unfold _predict_from_finished_lengths. set (l := py_sorted Z.ltb finished).
  assert (0 < zlen l) as Hl.
  { unfold l, zlen. rewrite py_sorted_length. destruct finished; [done|cbn; lia]. }
  destruct (bool_decide (zlen l = 1)).
  - destruct (py_nth_range l 0) as [x ->]; [lia|]. cbn [mbind res_bind]. by apply returns_ret.
  - assert (0 ≤ fceil (fmul (dec 75 100) (float_of_Z (zlen l)))) as Hc.
    { apply fceil_nonneg, fmul_nonneg; [by vm_compute|apply float_of_Z_nonneg; lia]. }
    destruct (py_nth_range l (Z.min (zlen l - 1) (fceil (fmul (dec 75 100) (float_of_Z (zlen l))) - 1))) as [x ->]; [lia|].
    cbn [mbind res_bind]. by apply returns_ret.
Qed.

Lemma predict_total_ok s r : quietly s (predict_total_output_tokens s r) any.
Proof.
  unfold predict_total_output_tokens, lp_touch.
  set (g := default _ _). set (s' := match lp_groups (plugins s) !! g with Some _ => s | None => _ end).
  assert (∃ k, s' = set_plugins s k) as [k ->].
  { unfold s'. destruct (lp_groups (plugins s) !! g); [exists (plugins s); by rewrite set_plugins_same|by eexists]. }
  apply (quiet_after s k). destruct (is_nil (lp_finished _ _)) eqn:En; [by apply quiet_ret|].
  destruct (bool_decide _); [by apply quiet_ret|].
  eapply quiet_returns; [apply predict_finished_ok|intros; by apply quiet_ret]. intros E. by rewrite E in En.
Qed.

Lemma bon_footprint_ok s r w : Ready cfg s t → live t r → quietly s (bon_footprint tc s r w) any.
Proof.
  intros HR Hr. unfold bon_footprint. destruct (negb _); [by apply quiet_ret|].
  eapply (quiet_bind _ _ _ any); [destruct (_ && _); [apply predict_total_ok|by apply quiet_ret]|].
  intros k predicted _. assert (Ready cfg (set_plugins s k) t) as HR' by by apply Ready_plugins.
  destruct predicted as [len|].
  - destruct (footprint_for_ok cfg (set_plugins s k) t r len HR' Hr) as [n ->]. cbn [mbind res_bind].
    rewrite kv_same. by apply quiet_ret.
  - destruct (footprint_ok cfg (set_plugins s k) t r HR' Hr) as [n ->]. cbn [mbind res_bind].
    rewrite kv_same. by apply quiet_ret.
Qed.

(** The candidate found so far is deferred. *)
Definition found (plan : Plan) (best : option Candidate) : Prop :=
  ∀ c, best = Some c → ∃ l, (cand_group c, l) ∈ pl_deferred plan ∧ cand_request c ∈ l.

Lemma bon_consider_ok now budget min_slack slacks mem plan extra s best g l r :
  PlanInv requests base plan extra → Ready cfg s t → (g, l) ∈ pl_deferred plan → r ∈ l → found plan best →
  quietly s (bon_consider tc now budget min_slack slacks mem plan g (s, best) r) (found plan).
Proof.
  intros HP HR Hd Hr Hb. unfold bon_consider. destruct (fltb _ _); [by apply quiet_ret|].
  eapply quiet_bind; [apply bon_footprint_ok; [done|apply Hlive; by eapply deferred_in]|].
  intros k future _. destruct (_ && _); [by apply quiet_ret|]. apply quiet_ret.
  destruct (_is_better_candidate _ _ _); [|done]. intros c [= <-]. cbn. eauto.
Qed.

Hypothesis Hids : NoDup (request_id <$> requests).

Lemma same_id r1 r2 : r1 ∈ requests → r2 ∈ requests → request_id r1 = request_id r2 → r1 = r2.
Proof.
  intros [i Hi]%list_elem_of_lookup [j Hj]%list_elem_of_lookup E.
  assert (i = j) as ->; [|congruence]. eapply NoDup_lookup; [exact Hids|by rewrite list_lookup_fmap Hi|].
  by rewrite list_lookup_fmap Hj E.
Qed.

Lemma remove_request_perm l r :
  (∀ r', r' ∈ l → r' ∈ requests) → r ∈ l → l ≡ₚ r :: remove_request_of l (request_id r).
Proof.
  intros Hl Hr. unfold remove_request_of. destruct (list_find _ l) as [[i r']|] eqn:E.
  - apply list_find_Some in E as (Hi & Hid & _).
    assert (r' = r) as -> by (apply same_id; [apply Hl; by eapply list_elem_of_lookup_2|by apply Hl|done]).
    by apply delete_Permutation.
  - apply list_find_None in E. rewrite Forall_forall in E. by destruct (E r Hr).
Qed.

Lemma bon_greedy_ok now budget min_slack slacks mem slots : ∀ s plan extra,
  PlanInv requests base plan extra → Ready cfg s t →
  quietly s (bon_greedy tc slots now budget min_slack slacks mem s plan)
    (admits requests base (pl_width plan + Z.of_nat slots)).
Proof.
  induction slots as [|slots IH]; intros s plan extra HP HR; cbn [bon_greedy].
  { apply quiet_ret. eapply PlanInv_admits; [done|lia]. }
  eapply (quiet_bind _ _ _ (found plan)).
  { apply quiet_foldM; [|done]. intros k best [g l] Hgd Hb. apply quiet_foldM; [|done].
    intros k2 best2 r Hr Hb2. eapply bon_consider_ok; try done. by repeat apply Ready_plugins. }
  intros k best Hb. assert (Ready cfg (set_plugins s k) t) as HR' by by apply Ready_plugins.
  assert (admits requests base (pl_width plan + Z.of_nat (S slots)) (pl_admitted plan)) as Hend
    by (eapply PlanInv_admits; [done|lia]).
  destruct best as [c|]; [|by apply quiet_ret]. destruct (fleb _ _); [by apply quiet_ret|].
  destruct (Hb c eq_refl) as (l & Hd & Hr). rewrite (od_get_elem _ _ _ (pi_keys _ _ _ _ HP) Hd). cbn [default].
  eapply quiet_mono; [eapply IH; [|done]|].
  - eapply grant_inv; [done|exact Hd|]. apply remove_request_perm; [|done]. intros r' Hr'. by eapply deferred_in.
  - intros a. cbn [grant pl_width]. by replace (pl_width plan + 1 + Z.of_nat slots) with (pl_width plan + Z.of_nat (S slots)) by lia.
Qed.
End Loops.

(** ** The plans *)

(** The number of parents with a decoding branch. *)
Definition n_parents (requests : list Request) : Z :=
  Z.of_nat (size (list_to_set (parents_of requests) : gset string)).

Record plan_spec (requests : list Request) (bound : Z) (admitted : list string) : Prop := {
  pn_running : ∃ rest, admitted ++ rest ≡ₚ request_id <$> requests;
  pn_protected : ∀ r, r ∈ requests → cand r = false ∨ zlen (branches (gid r) requests) ≤ 1 → request_id r ∈ admitted;
  pn_parents : ∀ r, r ∈ requests → cand r = true →
    ∃ r', r' ∈ requests ∧ request_id r' ∈ admitted ∧ cand r' = true ∧ gid r' = gid r;
  pn_width : width_of (filter (λ r, request_id r ∈ admitted) requests) ≤ bound
}.

Lemma parents_of_width l : zlen (parents_of l) = width_of l.
Proof. unfold parents_of, width_of, count_if, zlen. by rewrite length_fmap. Qed.

Lemma NoDup_size (l1 l2 : list string) :
  NoDup l1 → (∀ x, x ∈ l1 → x ∈ l2) → zlen l1 ≤ Z.of_nat (size (list_to_set l2 : gset string)).
Proof.
  intros Hnd Hsub. unfold zlen. apply Nat2Z.inj_le. rewrite -(size_list_to_set (C := gset string) l1) //.
  apply subseteq_size. set_solver.
Qed.

Lemma n_parents_width requests : n_parents requests ≤ width_of requests.
Proof.
  rewrite -parents_of_width. unfold n_parents, zlen. apply Nat2Z.inj_le.
  induction (parents_of requests) as [|g l IH]; [done|]. cbn [list_to_set length].
  pose proof (size_union_alt ({[g]} : gset string) (list_to_set l)) as H. rewrite H size_singleton.
  assert (size ((list_to_set l : gset string) ∖ {[g]}) ≤ size (list_to_set l : gset string))%nat
    by (apply subseteq_size; set_solver). lia.
Qed.

Lemma baseline_width requests b adm : BaseInv (group_candidates requests) requests b adm → bl_width b ≤ n_parents requests.
Proof.
  intros [_ H2 _ H4 _ _ _ H8]. rewrite H4 -parents_of_width. apply NoDup_size; [done|].
  intros g. unfold parents_of. rewrite -H2 filter_app fmap_app elem_of_app. auto.
Qed.

(** Of distinct ids, exactly those of the prefix are admitted. *)
Lemma filter_admitted (l1 l2 : list Request) :
  NoDup (request_id <$> l1 ++ l2) → filter (λ r, request_id r ∈ request_id <$> l1) (l1 ++ l2) = l1.
Proof.
  intros Hnd. rewrite fmap_app in Hnd. apply NoDup_app in Hnd as (_ & Hnd & _). rewrite filter_app.
  rewrite filter_all; [|intros r Hr; apply list_elem_of_fmap; eauto].
  assert (filter (λ r, request_id r ∈ request_id <$> l1) l2 = []) as ->; [|by rewrite app_nil_r].
  apply elem_of_nil_inv. intros r [H1 H2]%list_elem_of_filter. apply (Hnd _ H1). apply list_elem_of_fmap. eauto.
Qed.

Lemma admits_spec requests b adm bound a :
  NoDup (request_id <$> requests) → BaseInv (group_candidates requests) requests b adm →
  admits requests adm bound a → plan_spec requests bound a.
Proof.
  intros Hnd [H1 H2 H3 H4 H5 H6 H7 H8] (extra & rest & -> & HP & Hw). rewrite app_assoc in HP. split.
  - exists (request_id <$> rest). by rewrite -HP (fmap_app _ (adm ++ extra)).
  - intros r Hr Hpr. rewrite -H2 in Hr. apply elem_of_app in Hr as [Hr|Hr].
    + apply list_elem_of_fmap. exists r. rewrite elem_of_app. auto.
    + apply list_elem_of_bind in Hr as ([g l] & Hr & Hd). destruct (H5 g l r Hd Hr) as (Hc & <- & Hreg & _).
      rewrite regulated_spec in Hreg. apply bool_decide_eq_true in Hreg. destruct Hpr; [congruence|lia].
  - intros r Hr Hc. assert (∃ r', r' ∈ adm ∧ cand r' = true ∧ gid r' = gid r) as (r' & Hr' & Hc' & Hg').
    { rewrite -H2 in Hr. apply elem_of_app in Hr as [Hr|Hr]; [by exists r|].
      apply list_elem_of_bind in Hr as ([g l] & Hr & Hd). destruct (H5 g l r Hd Hr) as (_ & <- & _ & Hg). by apply H6. }
    exists r'. split_and!; [by rewrite -HP !elem_of_app; auto| |done|done].
    apply list_elem_of_fmap. exists r'. rewrite elem_of_app. auto.
  - rewrite -HP in Hnd. rewrite -{1}HP filter_admitted //.
Qed.

Lemma insert_by_perm {A} (x : A * list key_elem) l : insert_by x l ≡ₚ x :: l.
Proof.
  induction l as [|y l IH]; cbn; [done|]. destruct (key_ltb _ _); [done|]. rewrite IH. apply Permutation_swap.
Qed.

Lemma sort_by_perm {A} (key : A → list key_elem) l : sort_by key l ≡ₚ l.
Proof.
  unfold sort_by. assert (∀ l acc, (foldl (λ acc x, insert_by (x, key x) acc) acc l).*1 ≡ₚ acc.*1 ++ l) as H; [|by rewrite H].
  clear l. induction l as [|x l IH]; intros acc; cbn [foldl]; [by rewrite app_nil_r|].
  rewrite IH insert_by_perm. cbn. by rewrite Permutation_middle.
Qed.

Lemma flat_sorted (key : Request → list key_elem) d :
  let d' := (λ gd : string * list Request, (gd.1, sort_by key gd.2)) <$> d in flat d' ≡ₚ flat d ∧ d'.*1 = d.*1.
Proof.
  cbn. split; [|rewrite -list_fmap_compose; by apply list_fmap_ext].
  induction d as [|[g l] d IH]; [done|]. by apply Permutation_app; [apply sort_by_perm|apply IH].
Qed.

Lemma BaseInv_plan requests b adm d gr i ctx ms free :
  BaseInv (group_candidates requests) requests b adm → flat d ≡ₚ flat (bl_deferred b) → d.*1 = (bl_deferred b).*1 →
  PlanInv requests adm (mkPlan (bl_admitted b) d gr i (bl_width b) ctx ms free) [].
Proof.
  intros [H1 H2 H3 H4 H5 H6 H7 H8] Hd Hk.
  split; cbn [pl_admitted pl_deferred pl_width]; rewrite ?app_nil_r ?app_nil_l; try done; [by rewrite Hd|by rewrite Hk|].
  intros r. rewrite Hd. intros ([g l] & Hr & Hin)%list_elem_of_bind. by destruct (H5 g l r Hin Hr).
Qed.

Lemma baseline_spec requests b adm bound :
  NoDup (request_id <$> requests) → BaseInv (group_candidates requests) requests b adm → n_parents requests ≤ bound →
  plan_spec requests bound (bl_admitted b).
Proof.
  intros Hnd HB Hb. eapply admits_spec; [done|exact HB|]. pose proof (baseline_width _ _ _ HB) as Hw.
  exists [], (flat (bl_deferred b)). rewrite app_nil_r (bi_admitted _ _ _ _ HB) -(bi_width _ _ _ _ HB).
  split_and!; [done|by rewrite -(bi_split _ _ _ _ HB)|lia].
Qed.

Lemma all_running_spec requests bound :
  width_of requests ≤ bound → plan_spec requests bound (request_id <$> requests).
Proof.
  intros Hb. split.
  - exists []. by rewrite app_nil_r.
  - intros r Hr _. apply list_elem_of_fmap. eauto.
  - intros r Hr Hc. exists r. split_and!; [done| |done|done]. apply list_elem_of_fmap. eauto.
  - rewrite filter_all; [done|]. intros r Hr. apply list_elem_of_fmap. eauto.
Qed.

Section Plans.
Context {env : KVEnv} {lib : PyLib} (cfg : SchedulerConfig) (tc : TaperConfig).
Context {hashed : Request → Prop} `{KV : !KVContract (max_model_len cfg) hashed}.
Implicit Types (s : Sched) (r : Request) (t : gmap string Z).

Lemma running_ids s t : Ready cfg s t → request_id <$> running_requests s = running s ∧ NoDup (running s).
Proof.
  intros (w & k & x & I). pose proof (si_nodup _ _ _ _ _ _ I) as Hnd. apply NoDup_app in Hnd as (Hnd & _).
  split; [|done]. unfold running_requests. rewrite -list_fmap_compose -{2}(list_fmap_id (running s)).
  apply list_fmap_ext. intros i id Hi. unfold compose. destruct (stored_live cfg s t w k x id I) as (_ & _ & ->); [|done].
  apply elem_of_app. left. by eapply list_elem_of_lookup_2.
Qed.

Lemma slacks_ok groups now :
  (∀ g l, (g, l) ∈ groups → l ≠ []) → returns (group_slacks tc groups now) (λ sl, zlen sl = zlen groups).
Proof.
  unfold group_slacks. induction groups as [|[g l] groups IH]; intros Hg; cbn [mapM_res]; [by apply returns_ret|].
  eapply (returns_bind _ _ any).
  - eapply (returns_bind _ _ any); [apply group_deadline_ok|intros; by apply returns_ret]. eapply (Hg g). left.
  - intros x _. eapply returns_bind; [apply IH; intros g' l' Hin; apply (Hg g'); by right|].
    intros xs E. apply returns_ret. by rewrite !zlen_cons E.
Qed.

(** When the eager shortcut admits every running request: it is switched on, no request
    waits, and twice the memory threshold is free. *)
Definition eagerly s : Prop :=
  taper_plus_eager_when_unpressured tc = true ∧
  @queue_len string (AnyQueue string) (queue_ops s) (waiting s) = 0 ∧
  @queue_len string (AnyQueue string) (queue_ops s) (skipped_waiting s) = 0 ∧
  _get_taper_plus_memory_threshold tc s * 2 ≤ get_remaining_free_blocks (kv_cache_manager s).

(** A plan that protects the parents and has at most [Z.max budget (n_parents ...)]
    decoding branches, or the eager shortcut. *)
Definition plan_within s (budget : Z) (a : list string) : Prop :=
  ∃ bound, plan_spec (running_requests s) bound a ∧
    (bound = Z.max budget (n_parents (running_requests s)) ∨ eagerly s ∧ a = running s).

Lemma taper_plan_ok s t budget :
  Ready cfg s t →
  quietly s (taper_plan tc s budget) (λ o, ∀ a, o = Some a → plan_within s budget a).
Proof.
  intros HR. destruct (running_ids s t HR) as [Hids Hnd]. unfold taper_plan. set (requests := running_requests s) in *.
  rewrite -Hids in Hnd. destruct (build_baseline_inv requests) as [adm HB]. set (b := build_baseline _ _) in *.
  pose proof (baseline_width _ _ _ HB) as Hbw. set (bound := Z.max budget (n_parents requests)).
  assert (∀ a, plan_spec requests bound a → plan_within s budget a) as Hwithin by (intros a Ha; exists bound; by split; [|left]).
  assert (plan_within s budget (bl_admitted b)) as Hbase by (apply Hwithin; eapply baseline_spec; [done|done|lia]).
  destruct (negb (existsb _ _)) eqn:Eg; [by apply quiet_ret|].
  destruct (is_nil _); [apply quiet_ret; intros a [= <-]; by apply Hbase|].
  destruct (_ && _ && _ && _ && _) eqn:Ee.
  { apply quiet_ret. intros a [= <-]. exists (width_of requests). split; [rewrite -Hids; by apply all_running_spec|right].
    rewrite !andb_true_iff !bool_decide_eq_true in Ee. destruct Ee as ((((E1 & _) & E2) & E3) & E4). by split_and!. }
  destruct (fleb _ zerof); [apply quiet_ret; intros a [= <-]; by apply Hbase|].
  unfold time_now. cbv zeta. match goal with |- context [_predict_taper_plus_step_ms _ (set_plugins ?s0 ?k0)] => apply (quiet_after s0 k0) end.
  eapply quiet_returns; [apply slacks_ok; intros g l Hin; by destruct (group_candidates_elem _ _ _ Hin)|]. intros slacks Hs.
  eapply quiet_returns; [apply fmin_list_ok|].
  { intros E%fmap_nil_inv. subst slacks. destruct (group_candidates requests); [done|].
    rewrite zlen_cons in Hs. unfold zlen in Hs. cbn in Hs. lia. }
  intros min_slack _. destruct (flat_sorted (deferred_key tc) (bl_deferred b)) as [Hf Hk].
  eapply quiet_bind.
  - eapply (taper_greedy_ok cfg tc requests adm t); [intros r Hr; by apply (running_live cfg s t r HR)| |by apply Ready_plugins].
    by apply BaseInv_plan.
  - intros k a Ha. apply quiet_ret. intros a' [= <-]. apply Hwithin. eapply admits_spec; [done|exact HB|].
    destruct Ha as (extra & rest & Ea & HP & Hw). exists extra, rest. split_and!; [done|done|].
    cbn [pl_width] in Hw. lia.
Qed.

(** The BoN controller may refresh the hints of the running requests first. *)
Definition refreshed s : Sched :=
  if bool_decide (taper_plus_policy tc = BonTaperLenPredictor) then refresh_running_requests tc s else s.

Lemma bon_plan_ok s t budget :
  Ready cfg (refreshed s) t →
  quietly (refreshed s) (plan_admitted_req_ids tc s budget) (λ o, ∀ a, o = Some a →
    plan_spec (running_requests (refreshed s)) (Z.max budget (n_parents (running_requests (refreshed s)))) a) ∨
  plan_admitted_req_ids tc s budget = Ok (s, None).
Proof.
  intros HR. destruct (running_ids (refreshed s) t HR) as [Hids Hnd]. unfold plan_admitted_req_ids.
  destruct (_ || _); [by right|].
  destruct (bool_decide (taper_plus_policy tc = BonTaper)); [by right|]. left. fold (refreshed s).
  set (s1 := refreshed s) in *. set (requests := running_requests s1) in *.
  rewrite -Hids in Hnd. destruct (build_baseline_inv requests) as [adm HB]. set (b := build_baseline _ _) in *.
  pose proof (baseline_width _ _ _ HB) as Hbw. set (bound := Z.max budget (n_parents requests)).
  assert (plan_spec requests bound (bl_admitted b)) as Hbase by (eapply baseline_spec; [done|done|lia]).
  destruct (negb (existsb _ _)) eqn:Eg; [by apply quiet_ret|].
  destruct (bool_decide _); [by apply quiet_ret|].
  destruct (is_nil _); [apply quiet_ret; intros a [= <-]; by apply Hbase|].
  destruct (fleb _ zerof); [apply quiet_ret; intros a [= <-]; by apply Hbase|].
  unfold time_now. cbv zeta. match goal with |- context [_predict_taper_plus_step_ms _ (set_plugins ?s0 ?k0)] => apply (quiet_after s0 k0) end.
  eapply quiet_returns; [apply slacks_ok; intros g l Hin; by destruct (group_candidates_elem _ _ _ Hin)|]. intros slacks Hs.
  destruct (is_nil slacks) eqn:En; [apply quiet_ret; intros a [= <-]; by apply Hbase|].
  eapply quiet_returns; [apply fmin_list_ok; by destruct slacks|]. intros min_slack _.
  destruct (bool_decide _); [apply quiet_ret; intros a [= <-]; by apply Hbase|].
  eapply quiet_bind.
  - eapply (bon_greedy_ok cfg tc requests adm t); [intros r Hr; by apply (running_live cfg s1 t r HR)|done| |by apply Ready_plugins].
    by apply BaseInv_plan.
  - intros k a Ha. apply quiet_ret. intros a' [= <-]. eapply admits_spec; [done|exact HB|].
    destruct Ha as (extra & rest & Ea & HP & Hw). exists extra, rest. split_and!; [done|done|].
    cbn [pl_width] in Hw. lia.
Qed.
End Plans.
