(* ===== verification/ControllersSpec.v ===== *)
(** * The scheduler with its controllers

    The controllers meet the contract of the scheduler ([controllers_laws]) for every
    configuration in [admissible], so all theorems about the engine hold with them:
    operations succeed and no request is lost, whatever the controllers choose. *)

From Corelib Require Import SpecFloat.
From S2P Require Import Prelude PyFloat FloatBounds OrderedDict Request HeapQ RequestQueue FreeQueue BlockHash BlockPool KVCacheSpec SingleType CacheHit Coordinator KVCacheManager SchedUtils EncoderCache EncoderSched KVContract SchedState Scheduler SchedQueues SchedInv SchedStep SchedRunning SchedWaiting SchedulerSpec KVContractUnitary SchedFinish SchedOutput Engine EngineMemory TaperPlus TailBlend TaperPlanner BonTaper Controllers ControllerLaws PlannerSpec.

(** What the controllers assume of their configuration: no virtual reservation (its
    percentile reads lists without bound), a preemption mode that does not divide by
    the largest [max_tokens] of a parent, and a block size. *)
Record admissible (cfg : SchedulerConfig) (tc : TaperConfig) : Prop := {
  ad_limit : max_num_running_reqs cfg < 2 ^ 52;
  ad_mode : tail_blend_preemption_mode tc ≠ Mfull_slo;
  ad_reservation : fleb (tail_blend_reservation_q tc) zerof = true;
  ad_block_size : tp_block_size tc ≠ 0
}.

Section Contract.
Context {env : KVEnv} {lib : PyLib} (cfg : SchedulerConfig) (tc : TaperConfig).
Context {hashed : Request → Prop} `{KV : !KVContract (max_model_len cfg) hashed}.
Implicit Types (s : Sched) (r : Request) (t : gmap string Z).

(** ** Steps of plug-ins *)

Lemma plugin_step_trans s1 s2 s3 : plugin_step cfg s1 s2 → plugin_step cfg s2 s3 → plugin_step cfg s1 s3.
Proof.
  intros [E1 F1 K1] [E2 F2 K2]. split; [rewrite E2 E1; done| |auto].
  intros id. specialize (F1 id). specialize (F2 id). destruct F1 as [r1 r2 H12|]; inversion F2; constructor.
  by eapply hint_eq_trans.
Qed.

Lemma plugin_step_set s k : plugin_step cfg s (set_plugins s k).
Proof.
  split; [by destruct s| |done]. intros id. cbn. destruct (sc_requests s !! id) as [r|]; constructor. by destruct r.
Qed.

Lemma plugin_step_hint s id p : plugin_step cfg s (raise_prob_short s id p).
Proof.
  split; [by destruct s| |done]. intros id'. cbn. destruct (decide (id' = id)) as [->|Hne].
  - rewrite lookup_alter_eq. destruct (sc_requests s !! id) as [r|]; constructor. by destruct r.
  - rewrite lookup_alter_ne //. destruct (sc_requests s !! id') as [r|]; constructor. by destruct r.
Qed.

Lemma plugin_step_foldl {A} (f : Sched → A → Sched) l :
  (∀ s a, plugin_step cfg s (f s a)) → ∀ s, plugin_step cfg s (foldl f s l).
Proof.
  intros Hf. induction l as [|a l IH]; intros s; cbn [foldl]; [apply plugin_step_refl|].
  eapply plugin_step_trans; [apply Hf|apply IH].
Qed.

Lemma quiet_plugin_step {A} s (m : res (Sched * A)) Q :
  quietly s m Q → ∃ s' a, m = Ok (s', a) ∧ plugin_step cfg s s' ∧ s' = set_plugins s (plugins s') ∧ Q a.
Proof. intros (k & a & -> & Ha). eexists _, a. split_and!; [done|apply plugin_step_set|done|done]. Qed.

Lemma plugin_step_Ready s s' t : plugin_step cfg s s' → Ready cfg s t → Ready cfg s' t.
Proof. intros P (w & k & x & I). exists w, k, x. by eapply SchedInv_plugin. Qed.

(** ** The length predictor *)

Lemma touch_step s g : plugin_step cfg s (lp_touch s g).
Proof. unfold lp_touch. destruct (lp_groups (plugins s) !! g); [apply plugin_step_refl|apply plugin_step_set]. Qed.

Lemma refresh_request_step s r : plugin_step cfg s (refresh_request s r).
Proof.
  unfold refresh_request. eapply plugin_step_trans; [|apply plugin_step_hint].
  eapply plugin_step_trans; [apply plugin_step_set|apply touch_step].
Qed.

Lemma refresh_step s : plugin_step cfg s (refresh_running_requests tc s).
Proof.
  unfold refresh_running_requests. destruct (bool_decide _); [apply plugin_step_refl|].
  eapply plugin_step_trans; [|apply plugin_step_set].
  eapply plugin_step_trans; [apply (plugin_step_foldl (A := Request))|apply plugin_step_foldl].
  - intros s' r. apply plugin_step_set.
  - intros s' [g l]. apply plugin_step_foldl. intros s2 r. eapply plugin_step_trans; [apply touch_step|apply plugin_step_hint].
Qed.

Lemma refreshed_step s : plugin_step cfg s (refreshed tc s).
Proof. unfold refreshed. destruct (bool_decide _); [apply refresh_step|apply plugin_step_refl]. Qed.

Lemma observe_output_step s r ts : plugin_step cfg s (observe_output tc s r ts).
Proof.
  unfold observe_output, lp_observe_request_output. destruct (_ && _ && _); [|apply plugin_step_refl].
  destruct (_ || _); [apply plugin_step_refl|apply refresh_request_step].
Qed.

Lemma tb_observe_step s r : plugin_step cfg s (tb_observe_finished_request s r).
Proof.
  unfold tb_observe_finished_request. destruct (sampling_params r), (external_req_id r); try apply plugin_step_refl.
  destruct (bool_decide _); [|apply plugin_step_refl]. unfold time_now. cbv zeta.
  eapply plugin_step_trans; apply plugin_step_set.
Qed.

Lemma lp_observe_step s r : plugin_step cfg s (lp_observe_finished_request s r).
Proof.
  unfold lp_observe_finished_request. destruct (bool_decide _); [|apply plugin_step_set].
  eapply plugin_step_trans; apply plugin_step_set.
Qed.

Lemma observe_finished_step s r : plugin_step cfg s (observe_finished tc s r).
Proof.
  unfold observe_finished. eapply plugin_step_trans with (if enable_taper_plus tc && bool_decide (taper_plus_policy tc = TailBlend)
    then tb_observe_finished_request s r else s).
  - destruct (_ && _); [apply tb_observe_step|apply plugin_step_refl].
  - destruct (_ && is_len_predictor _); [apply lp_observe_step|apply plugin_step_refl].
Qed.

Lemma prepare_step s r : plugin_step cfg s (lp_prepare_request tc s r).
Proof. unfold lp_prepare_request. destruct (_ || _); [apply plugin_step_refl|apply plugin_step_set]. Qed.

(** ** The plans *)

(** What the scheduler may rely on when a plan is made. *)
Lemma admitted_ok s t budget :
  Ready cfg s t →
  ∃ s' o, _get_taper_plus_admitted_running_req_ids tc s budget = Ok (s', o) ∧ plugin_step cfg s s' ∧
    ∀ a, o = Some a → plan_within tc s' budget a.
Proof.
  intros HR. unfold _get_taper_plus_admitted_running_req_ids.
  destruct (_ || _); [exists s, None; split_and!; [done|apply plugin_step_refl|done]|].
  assert (∃ s' o, plan_admitted_req_ids tc s budget = Ok (s', o) ∧ plugin_step cfg s s' ∧
    ∀ a, o = Some a → plan_within tc s' budget a) as Hbon.
  { destruct (bon_plan_ok cfg tc s t budget) as [Hq| ->].
    - eapply plugin_step_Ready; [apply refreshed_step|done].
    - destruct (quiet_plugin_step _ _ _ Hq) as (s' & o & E & P & Es' & Ho). exists s', o.
      split_and!; [done|eapply plugin_step_trans; [apply refreshed_step|done]|].
      intros a Ha. rewrite Es'. change (running_requests (set_plugins ?x _)) with (running_requests x).
      eexists. split; [exact (Ho a Ha)|by left].
    - exists s, None. split_and!; [done|apply plugin_step_refl|done]. }
  assert (∃ s' o, taper_plan tc s budget = Ok (s', o) ∧ plugin_step cfg s s' ∧
    ∀ a, o = Some a → plan_within tc s' budget a) as Htaper.
  { destruct (quiet_plugin_step _ _ _ (taper_plan_ok cfg tc s t budget HR)) as (s' & o & E & P & Es' & Ho).
    exists s', o. split_and!; [done|done|]. intros a Ha. rewrite Es'. by apply Ho. }
  destruct (taper_plus_policy tc); try done. exists s, None. split_and!; [done|apply plugin_step_refl|done].
Qed.

(** ** The contract *)

Lemma controllers_laws : admissible cfg tc → PluginLaws cfg (pl := controllers tc).
Proof.
  intros [A1 A2 A3 A4]. split; cbn [controllers get_taper_plus_admitted_running_req_ids select_preemption_victim
    should_defer_waiting_request prepare_request observe_request_output observe_finished_request].
  - intros s t w k x budget I. destruct (admitted_ok s t budget) as (s' & o & E & P & _); [by exists w, k, x|eauto].
  - intros s t w k x id I Hid. assert (Ready cfg s t) as HR by (by exists w, k, x).
    destruct (quiet_plugin_step _ _ _ (victim_ok cfg tc A1 A2 s t (obj s id) HR)) as (s' & o & E & P & _ & Ho).
    unfold select_victim. rewrite E. cbn [mbind res_bind]. eexists _, _. split_and!; [done|done|].
    destruct o as [v|]; [|done]. intros v' [= <-].
    by apply (running_live cfg s t v HR), (candidates_live cfg s t v HR), Ho.
  - intros s t w k x id I Hid. assert (Ready cfg s t) as HR by (by exists w, k, x).
    destruct (quiet_plugin_step _ _ _ (defer_ok cfg tc A3 A4 s t (obj s id) HR)) as (s' & b & E & P & _). eauto.
  - intros s t r _. eexists _, r. split_and!; [done|apply prepare_step|by destruct r].
  - intros s t r ts _. eexists. split; [done|apply observe_output_step].
  - intros s t r _. eexists. split; [done|apply observe_finished_step].
Qed.

(** ** Main properties *)

(** The requests [a] named by a plan, for the scheduler [s] with a budget of tokens. *)
Definition fair_plan (s : Sched) (budget : Z) (a : list string) : Prop :=
  NoDup a ∧ (∀ id, id ∈ a → id ∈ running s) ∧
  plan_within tc s budget a.

(** C39: planning the decode width does not fail and starves no parent.  With any policy,
    the planner returns, and changes at most its own state and the length hints.  When
    it names the requests that may run: they are distinct running requests; every
    request that is not a branch of a parent with several decoding branches is among
    them; every parent with a decoding branch keeps at least one; and the number of
    decoding branches stays within the larger of the token budget and the number of
    parents, unless the eager shortcut is switched on, no request waits and twice the
    memory threshold is free: the plan then may be all running requests. *)
Theorem plans_protect_parents s t w k x budget :
  SchedInv cfg s t w k x →
  ∃ s' o, _get_taper_plus_admitted_running_req_ids tc s budget = Ok (s', o) ∧ plugin_step cfg s s' ∧
    running s' = running s ∧ ∀ a, o = Some a → fair_plan s' budget a.
Proof.
  intros I. assert (Ready cfg s t) as HR by (by exists w, k, x).
  destruct (admitted_ok s t budget HR) as (s' & o & E & P & Ho). exists s', o.
  destruct (plugin_step_fields _ _ _ P) as (Er & _). split_and!; [done|done|done|].
  intros a Ha. pose proof (Ho a Ha) as (bound & [[rest HP] _ _ _] & _).
  destruct (running_ids cfg s' t (plugin_step_Ready _ _ _ P HR)) as [Hids Hnd].
  rewrite Hids in HP. split_and!.
  - rewrite -HP in Hnd. by apply NoDup_app in Hnd as (? & _).
  - intros id Hid. rewrite -HP. apply elem_of_app. by left.
  - by apply Ho.
Qed.
End Contract.

Section Engine.
Context {env : KVEnv} {lib : PyLib} (cfg : SchedulerConfig) (tc : TaperConfig).
Context {hashed : Request → Prop} `{KV : !KVContract (max_model_len cfg) hashed}.
Context (set_order : list Z → list Z) (Hord : ∀ l, set_order l ≡ₚ l).
Context (block_hasher : option (Request → res (list bytes))) `{HL : !HasherLaws hashed block_hasher}.
Context (Hcfg : cfg_ok cfg) (Hsync : async_scheduling cfg = false) (Hlora : max_loras cfg = None).

(** C38: the best-of-n controllers cannot break the engine.  With the TAPER, TailBlend
    and BoN controllers in place of the stock scheduler, in any admissible
    configuration and whatever they have seen, every allowed operation on a reachable
    engine returns: no controller raises, no victim is missing from the running list,
    no deferred or preempted request is lost, and every request stays in exactly one of
    the running list and the two queues. *)
Theorem controlled_engine_safe (s : Sched) o :
  admissible cfg tc → 0 ≤ max_num_running_reqs cfg →
  engine_reach cfg set_order block_hasher (pl := controllers tc) s →
  op_allowed cfg set_order (hashed := hashed) (pl := controllers tc) s o →
  ∃ s', run_engine_op cfg set_order block_hasher (pl := controllers tc) s o = Ok s' ∧
    engine_reach cfg set_order block_hasher (pl := controllers tc) s' ∧ requests_accounted cfg s'.
Proof.
  intros Ad Hm HR Ho. pose proof (controllers_laws cfg tc Ad) as PL.
  pose proof (reach_inv cfg set_order Hord block_hasher Hcfg Hsync Hlora s Hm HR) as I.
  destruct (run_op_spec cfg set_order Hord block_hasher Hcfg Hsync Hlora s o I Ho) as (s' & E & I').
  exists s'. split_and!; [done|by eapply engine_reach_step|by eapply inv_accounted].
Qed.
End Engine.
