(* ===== verification/ControllerChoice.v ===== *)
(** * What the controllers choose

    The victim of a preemption has a maximal key among the running branches, the
    limit on active parents, the bounds of the predictions and of the latency model. *)

From Corelib Require Import SpecFloat.
From S2P Require Import Prelude PyFloat FloatBounds OrderedDict Request HeapQ RequestQueue FreeQueue BlockHash BlockPool KVCacheSpec SingleType CacheHit Coordinator KVCacheManager SchedUtils EncoderCache EncoderSched KVContract SchedState Scheduler SchedQueues SchedInv SchedStep SchedRunning SchedWaiting SchedulerSpec KVContractUnitary SchedFinish SchedOutput Engine EngineMemory TaperPlus TailBlend TaperPlanner BonTaper Controllers ControllerLaws PlannerSpec ControllersSpec.

(** ** The order of key tuples *)

Inductive elem_kind : Set := KindF | KindZ | KindB | KindS.

Definition kind_of (e : key_elem) : elem_kind :=
  match e with KF _ => KindF | KZ _ => KindZ | KB _ => KindB | KS _ => KindS end.

Definition not_nan (e : key_elem) : Prop := match e with KF x => x ≠ S754_nan | _ => True end.

(** The tuples of a shape, without NaN. *)
Definition shaped (shape : list elem_kind) (key : list key_elem) : Prop :=
  kind_of <$> key = shape ∧ Forall not_nan key.

Lemma elem_swo kind : StrictWeakOrder (λ e, kind_of e = kind ∧ not_nan e) elem_ltb.
Proof.
  split.
  - intros [x|x|x|x] [y|y|y|y] [E1 H1] [E2 H2]; cbn in *; try congruence.
    + rewrite fltb_key // -not_true_iff_false fltb_key //. unfold key_lt. lia.
    + rewrite bool_decide_eq_true bool_decide_eq_false. lia.
    + by destruct x, y.
    + apply string_ltb_asym.
  - intros [x|x|x|x] [y|y|y|y] [z|z|z|z] [E1 H1] [E2 H2] [E3 H3]; cbn in *; try congruence.
    + rewrite -!not_true_iff_false !fltb_key //. unfold key_lt. lia.
    + rewrite !bool_decide_eq_false. lia.
    + by destruct x, y, z.
    + apply string_ltb_trans.
Qed.

Lemma elem_eq a b :
  kind_of a = kind_of b → not_nan a → not_nan b →
  elem_eqb a b = true ↔ elem_ltb a b = false ∧ elem_ltb b a = false.
Proof.
  destruct a as [x|x|x|x], b as [y|y|y|y]; cbn; try done; intros _ Hx Hy.
  - rewrite feqb_key // -!not_true_iff_false !fltb_key //. unfold key_lt.
    destruct (fkey x) as [[??]?], (fkey y) as [[??]?]. cbn.
    split; [intros [= -> -> ->]; lia|]. intros ?. repeat f_equal; lia.
  - rewrite bool_decide_eq_true !bool_decide_eq_false. lia.
  - by destruct x, y; cbn; intuition congruence.
  - apply string_eq.
Qed.

Lemma key_swo shape : StrictWeakOrder (shaped shape) key_ltb.
Proof.
  induction shape as [|kd shape IH].
  { split; [intros [|??] [|??] [??] [??]; done|intros [|??] [|??] [|??] [??] [??] [??]; done]. }
  assert (StrictWeakOrder (shaped (kd :: shape)) (λ a b,
    if negb (elem_eqb (default (KZ 0) (head a)) (default (KZ 0) (head b)))
    then elem_ltb (default (KZ 0) (head a)) (default (KZ 0) (head b)) else key_ltb (tail a) (tail b))) as [H1 H2].
  { assert (∀ a, shaped (kd :: shape) a → kind_of (default (KZ 0) (head a)) = kd ∧ not_nan (default (KZ 0) (head a)) ∧
      shaped shape (tail a)) as Hs.
    { intros [|x a] [[= Ek Ea] HF]. apply Forall_cons in HF as [??]. done. }
    apply (lex_swo _ (λ a b, elem_eqb (default (KZ 0) (head a)) (default (KZ 0) (head b)))).
    - split.
      + intros a b (Ha & Ha' & _)%Hs (Hb & Hb' & _)%Hs. by apply (elem_swo kd).
      + intros a b c (Ha & Ha' & _)%Hs (Hb & Hb' & _)%Hs (Hc & Hc' & _)%Hs. by apply (elem_swo kd).
    - destruct IH as [I1 I2]. split.
      + intros a b (_ & _ & Ha)%Hs (_ & _ & Hb)%Hs. by apply I1.
      + intros a b c (_ & _ & Ha)%Hs (_ & _ & Hb)%Hs (_ & _ & Hc)%Hs. by apply I2.
    - intros a b (Ha & Ha' & _)%Hs (Hb & Hb' & _)%Hs. apply elem_eq; congruence. }
  assert (∀ a b, shaped (kd :: shape) a → shaped (kd :: shape) b → key_ltb a b =
    if negb (elem_eqb (default (KZ 0) (head a)) (default (KZ 0) (head b)))
    then elem_ltb (default (KZ 0) (head a)) (default (KZ 0) (head b)) else key_ltb (tail a) (tail b)) as E.
  { intros [|x a] [|y b] [Ha _] [Hb _]; try done. cbn. by destruct (elem_eqb x y). }
  split.
  - intros a b Ha Hb. rewrite (E a b Ha Hb) (E b a Hb Ha). by apply H1.
  - intros a b c Ha Hb Hc. rewrite (E b a Hb Ha) (E c b Hc Hb) (E c a Hc Ha). by apply H2.
Qed.

(** [max] with a key returns an element that no other one beats. *)
Lemma max_by_maximal {A} (shape : list elem_kind) (l : list (A * list key_elem)) x :
  Forall (λ p, shaped shape p.2) l → max_by l = Some x →
  ∃ kx, (x, kx) ∈ l ∧ ∀ p, p ∈ l → key_ltb kx p.2 = false.
Proof.
  destruct l as [|y l]; [done|]. cbn [max_by]. intros [Hy Hl]%Forall_cons [= <-].
  set (f := λ best u : A * list key_elem, if key_ltb best.2 u.2 then u else best).
  pose proof (key_swo shape) as HS.
  assert (∀ l' seen best, Forall (λ p, shaped shape p.2) l' → Forall (λ p, shaped shape p.2) seen → best ∈ seen →
    (∀ p, p ∈ seen → key_ltb best.2 p.2 = false) →
    foldl f best l' ∈ seen ++ l' ∧ ∀ p, p ∈ seen ++ l' → key_ltb (foldl f best l').2 p.2 = false) as H.
  { induction l' as [|u l' IH]; intros seen best Hl' Hsn Hb Hbest; cbn [foldl]; [by rewrite app_nil_r|].
    apply Forall_cons in Hl' as [Hu Hl']. rewrite cons_middle app_assoc.
    assert (shaped shape best.2) as Hbs by (rewrite Forall_forall in Hsn; by apply Hsn).
    assert (∀ a, shaped shape a → key_ltb a a = false) as Hirr.
    { intros a Ha. destruct (key_ltb a a) eqn:E; [|done]. pose proof (swo_asym a a Ha Ha E). congruence. }
    apply IH; [done|apply Forall_app; by split; [|apply Forall_singleton]| |]; unfold f; destruct (key_ltb best.2 u.2) eqn:E.
    - apply elem_of_app. right. apply list_elem_of_singleton. done.
    - apply elem_of_app. by left.
    - intros p [Hp| ->%list_elem_of_singleton]%elem_of_app; [|by apply Hirr].
      rewrite Forall_forall in Hsn. pose proof (Hsn _ Hp) as Hps.
      apply (swo_trans _ best.2 _ Hps Hbs Hu); [by apply Hbest|]. by apply (swo_asym best.2 u.2).
    - intros p [Hp| ->%list_elem_of_singleton]%elem_of_app; [by apply Hbest|done]. }
  destruct (H l [y] y Hl) as [Hin Hmax]; [by apply Forall_singleton|left| |].
  - intros p ->%list_elem_of_singleton. destruct (key_ltb y.2 y.2) eqn:E; [|done]. pose proof (swo_asym y.2 y.2 Hy Hy E). congruence.
  - destruct (foldl f y l) as [x kx] eqn:Ex. exists kx. cbn. split; [done|apply Hmax].
Qed.

(** A loop whose body keeps the state. *)
Lemma mapM_st_pure {A B S} (f : S → A → res (S * B)) (g : A → B) s l :
  (∀ a, a ∈ l → f s a = Ok (s, g a)) → mapM_st f s l = Ok (s, g <$> l).
Proof.
  induction l as [|a l IH]; intros Hf; [done|]. cbn [mapM_st]. rewrite Hf; [|left]. cbn [mbind res_bind].
  rewrite IH; [done|]. intros b Hb. apply Hf. by right.
Qed.

Section Victim.
Context {env : KVEnv} {lib : PyLib} (cfg : SchedulerConfig) (tc : TaperConfig).
Context {hashed : Request → Prop} `{KV : !KVContract (max_model_len cfg) hashed}.
Implicit Types (s : Sched) (r : Request) (t : gmap string Z).

(** The key by which the controller compares a running branch when [current] needs
    blocks. *)
Definition victim_key s (current : Request) r : list key_elem :=
  let '(s, now) := time_now s in
  match _preemption_victim_key tc (request_id current) now (tail_blend_preemption_mode tc) s r with
  | Ok (_, key) => key
  | Raise _ => []
  end.

Lemma victim_key_shape cur now mode s r s' key :
  _preemption_victim_key tc cur now mode s r = Ok (s', key) → kind_of <$> key = [KindF; KindF; KindF; KindS].
Proof.
  unfold _preemption_victim_key. destruct (_parent_rescue_score s _); [|done]. cbn [mbind res_bind].
  intros H. unfold mbind, res_bind in H.
  repeat match type of H with
  | context [match ?m with _ => _ end] => destruct m; try done
  end; by injection H as <- <-.
Qed.

(** The victim of a TailBlend preemption is a running branch of a best-of-n request
    whose key (predicted remaining work against invested work and protection, then
    tie-breaks) no other running branch beats.  The score of the configured mode is
    taken as it is computed, in floating point; NaN scores, on which Python's [max]
    depends on the order, are excluded, as is the mode that changes with the load. *)
Theorem victim_maximal s t w k x current s' v :
  SchedInv cfg s t w k x → tail_blend_preemption_mode tc ≠ Mfull_slo → tail_blend_preemption_mode tc ≠ Madaptive →
  (∀ r, r ∈ preemption_candidates s → Forall not_nan (victim_key s current r)) →
  tb_select_preemption_victim tc s current = Ok (s', Some v) →
  request_id v ∈ running s ∧ is_some (external_req_id v) = true ∧
  ∀ r, r ∈ preemption_candidates s → key_ltb (victim_key s current v) (victim_key s current r) = false.
Proof.
  intros I Hm Ha Hnan. assert (Ready cfg s t) as HR by (by exists w, k, x).
  unfold tb_select_preemption_victim. destruct (_ || _ || _); [done|]. destruct (is_nil _) eqn:En; [done|].
  rewrite (bool_decide_false (_ = Madaptive)) //. unfold victim_key in *. unfold time_now in *. cbv zeta. cbn [mbind res_bind].
  destruct (_ && _); [done|]. set (s1 := set_plugins s _) in *. set (now := clock _ _) in *.
  assert (Ready cfg s1 t) as HR1 by by apply Ready_plugins.
  set (key := λ r, match _preemption_victim_key tc (request_id current) now (tail_blend_preemption_mode tc) s1 r with
    | Ok (_, key) => key | Raise _ => [] end) in *.
  assert (∀ r, r ∈ preemption_candidates s → _preemption_victim_key tc (request_id current) now
    (tail_blend_preemption_mode tc) s1 r = Ok (s1, key r)) as Hkey.
  { intros r Hr. destruct (victim_key_ok cfg tc s1 t (request_id current) now (tail_blend_preemption_mode tc) r) as [kr E];
      [done|by apply (candidates_live cfg s)|done|]. unfold key. by rewrite E. }
  unfold best_victim. rewrite (mapM_st_pure _ (λ r, (r, key r))); [|intros r Hr; by rewrite Hkey]. cbn [mbind res_bind].
  destruct (max_by _) as [v'|] eqn:Emax; [|done]. cbn [mbind res_bind]. intros [= _ ->].
  assert (Forall (λ p : Request * list key_elem, shaped [KindF; KindF; KindF; KindS] p.2)
    ((λ r, (r, key r)) <$> preemption_candidates s)) as HF.
  { apply Forall_forall. intros p (r & -> & Hr)%list_elem_of_fmap. split; [|by apply Hnan].
    eapply victim_key_shape. by apply Hkey. }
  destruct (max_by_maximal _ _ _ HF Emax) as (kv & Hv & Hmax).
  apply list_elem_of_fmap in Hv as (v0 & [= <- ->] & Hv). apply list_elem_of_filter in Hv as Hv'.
  destruct Hv' as [[Hs He]%andb_prop Hrun]. split_and!; [by apply (running_live cfg s t)|done|].
  intros r Hr. apply (Hmax (r, key r)). apply list_elem_of_fmap. eauto.
Qed.
End Victim.

(** ** The limit on active parents *)

Section Parents.
Context {env : KVEnv} {lib : PyLib} (cfg : SchedulerConfig) (tc : TaperConfig).
Context {hashed : Request → Prop} `{KV : !KVContract (max_model_len cfg) hashed}.
Implicit Types (s : Sched) (r : Request) (t : gmap string Z).

(** The parents with a running branch. *)
Definition active_parents s : gset string :=
  list_to_set (_taper_plus_group_id <$> filter (λ r, has_parent r = true) (running_requests s)).

Definition under_pressure s : Prop :=
  get_remaining_free_blocks (kv_cache_manager s) < _get_taper_plus_memory_threshold tc s * 4 ∨
  tp_max_num_running_reqs tc < waiting_backlog s.

(** Under memory or queue pressure the BoN controller opens at most eight parents.
    For a waiting branch the test returns; it lets the branch through under pressure
    only when its parent already runs or fewer than eight parents do; it never holds
    back a branch of a running parent, nor any branch when no parent runs. *)
Theorem bon_parent_limit s t w k x r :
  SchedInv cfg s t w k x → enable_taper_plus tc = true → tp_block_size tc ≠ 0 →
  taper_plus_policy tc ∈ [BonTaper; BonTaperPlus; BonTaperLenPredictor] → has_parent r = true →
  ∃ b, bon_should_defer_waiting_request tc s r = Ok b ∧
    (under_pressure s → b = false →
       gid r ∈ active_parents s ∨ Z.of_nat (size (active_parents s)) < 8) ∧
    (gid r ∈ active_parents s ∨ active_parents s = ∅ → b = false).
Proof.
  intros I He Hb Hp Hr. assert (Ready cfg s t) as HR by (by exists w, k, x).
  unfold bon_should_defer_waiting_request. rewrite He Hr bool_decide_true //. cbn [negb orb].
  fold (active_parents s).
  destruct (bool_decide_reflect (_get_taper_plus_memory_threshold tc s * 4 ≤ get_remaining_free_blocks (kv_cache_manager s))) as [Hf|Hf],
    (bool_decide_reflect (waiting_backlog s ≤ tp_max_num_running_reqs tc)) as [Hw|Hw]; cbn [andb].
  1: { exists false. split_and!; [done| |done]. unfold under_pressure. lia. }
  all: destruct (bool_decide_reflect (gid r ∈ active_parents s)) as [Ha|Ha]; [exists false; by split_and!; auto|].
  all: destruct (queued_any cfg s t HR) as (queued & -> & _); cbn [mbind res_bind]; rewrite bool_decide_false //.
  all: eexists; split; [reflexivity|].
  all: (split; [intros _ Hn%bool_decide_eq_false; right; lia|]).
  all: intros [?|E]; [done|]; rewrite E size_empty; apply bool_decide_eq_false; lia.
Qed.

(** ** Predicted lengths *)

(** The predicted total length of a branch, once a sibling has finished, is a
    length the branch can still have: the prediction never fails, never exceeds
    [max_tokens], and is more than what the branch has produced while it may go on. *)
Theorem predicted_length_bounds s r :
  ∃ s' o, predict_total_output_tokens s r = Ok (s', o) ∧ s' = set_plugins s (plugins s') ∧
    ∀ n, o = Some n →
      n ≤ Z.max 1 (max_tokens r) ∧ (num_output_tokens r < max_tokens r → num_output_tokens r < n) ∧
      (max_tokens r ≤ num_output_tokens r → 0 < num_output_tokens r → n = Z.max 1 (max_tokens r)).
Proof.
  unfold predict_total_output_tokens.
  set (g := default _ _). assert (∃ k, lp_touch s g = set_plugins s k) as [k ->].
  { unfold lp_touch. destruct (lp_groups (plugins s) !! g); [exists (plugins s); by rewrite set_plugins_same|by eexists]. }
  destruct (is_nil _) eqn:En; [by eexists _, None|].
  destruct (bool_decide_reflect (Z.max 1 (max_tokens r) ≤ num_output_tokens r)) as [Hle|Hle].
  { eexists _, _. split_and!; [reflexivity|done|]. intros n [= <-]. split_and!; lia. }
  destruct (predict_finished_ok (lp_finished (set_plugins s k) g) (Z.max 1 (max_tokens r))) as (p & -> & _).
  { intros E. by rewrite E in En. }
  cbn [mbind res_bind]. eexists _, _. split_and!; [reflexivity|done|]. intros n [= <-]. split_and!; lia.
Qed.
End Parents.

(** A sample of lengths and a quantile, a binary64 number of any kind. *)
Definition sample_ok (values : list Z) (q : float64) : Prop :=
  valid_binary prec emax q = true ∧ zlen values ≤ 2 ^ prec.

(** Reading a percentile never leaves the sample.  The position [q * (n - 1)] is
    computed in binary64 with [q] clamped to [0, 1]; rounding never carries it past the
    last index, so neither the lower nor the upper neighbour is out of range, for every
    float [q] (also infinities and NaN) and every sample of at most [2 ^ 53] lengths. *)
Theorem percentile_total values q :
  sample_ok values q → ∃ x, _percentile values q = Ok x.
Proof. intros [Hq Hn]. destruct (percentile_ok values q Hq Hn) as (x & E & _). eauto. Qed.

(** ** The latency model *)

Record latency_ok (m : LatencyModel) : Prop := {
  lm_base : fleb zerof (latency_base_ms m) = true;
  lm_width : fleb (dec 1 1000) (latency_width_ms m) = true;
  lm_context : fleb zerof (latency_context_ms_per_1k m) = true
}.

Lemma fmax_above a x : fleb a a = true → fleb a (fmax a x) = true.
Proof.
  intros Ha. unfold fmax. destruct (fltb a x) eqn:E; [|done]. unfold fltb, fleb, SFltb, SFleb in *.
  by destruct (SFcompare a x) as [[]|].
Qed.

(** The coefficients of the step-latency model stay in their ranges.  They start
    there, and no observed step, whatever its duration, width and context (the
    arithmetic may overflow or yield NaN), moves the base or the context coefficient
    below zero or the cost of a sequence below a microsecond, nor makes one NaN. *)
Theorem latency_model_clamped {lib : PyLib} tc :
  (∀ ms, latency_ok (LatencyModel_init ms)) ∧
  ∀ (s : Sched) step, latency_ok (latency (plugins s)) → latency_ok (latency (taper_step_observed tc s step)).
Proof.
  split; [intros ms; split; [done|by apply fmax_above|done]|]. intros s step Hm. unfold taper_step_observed.
  destruct (fltb _ _); [|done]. unfold time_now, _update_taper_plus_latency_model. cbv zeta.
  destruct (_ || _ || _); [done|]. destruct (bool_decide _); [done|]. destruct (_ || _); [done|].
  destruct (fleb _ zerof); [done|]. split; by apply fmax_above.
Qed.
