(* ===== verification/ControllerRuns.v ===== *)
(** * Runs of the engine with its controllers

    Concrete runs that show the theorems about the controllers at work, and two runs
    where a controller falls short. *)

From Corelib Require Import SpecFloat.
From S2P Require Import Prelude PyFloat FloatBounds OrderedDict Request HeapQ RequestQueue FreeQueue BlockHash BlockPool KVCacheSpec SingleType CacheHit Coordinator KVCacheManager SchedUtils EncoderCache EncoderSched KVContract SchedState Scheduler SchedQueues SchedInv SchedStep SchedRunning SchedWaiting SchedulerSpec KVContractUnitary SchedFinish SchedOutput Engine EngineMemory TaperPlus TailBlend TaperPlanner BonTaper Controllers ControllerLaws PlannerSpec ControllersSpec ControllerChoice.

(** ** The setting *)

(** Stand-ins for the functions of the C library. *)
Definition demo_lib : PyLib := {| m_exp x := onef; m_pow x y := x; py_fsum l := foldl fadd zerof l |}.
#[local] Existing Instance demo_lib.

(** A policy with pilots and a memory threshold; the other settings are the defaults. *)
Definition demo_tc (p : TaperPolicy) (pilot_k threshold : Z) (preempt : bool) (mode : PreemptionMode) : TaperConfig :=
  mkTaperConfig true p threshold pilot_k preempt mode zerof Aoff (float_of_Z 25) (float_of_Z 2) (dec 5 100) (dec 8 10) Ulinear
    true (dec 5 100) (dec 105 100) false true 2 16 2.

Definition demo_controllers : Controllers :=
  mkControllers (λ _, float_of_Z 2) 0 (LatencyModel_init (dec 5 10)) ∅ ∅ None ∅ ∅.

(** No prefix caching, so that requests carry no hashes. *)
Definition run_hasher : option (Request → res (list bytes)) := engine_hasher 2 false sample_hash sample_none sample_sha.

Definition run_kv : KVCacheManager := Eval vm_compute in
  match KVCacheManager_init one_group 16 2 None false false false 1 1 with Ok m => m | Raise _ => demo_kv end.

Definition controlled_start : Sched :=
  Scheduler_init demo_cfg run_kv (MultiModalCache (EncoderCacheManager_init 0)) false demo_controllers.

(** A branch of the request [parent]. *)
Definition branch (id parent : string) (max_tokens : Z) : Request :=
  match Request_init run_hasher id (Some [1; 2; 3]) (Some (mkSampling (Some max_tokens) 0 None [] [] None None)) None 0
          (float_of_Z 1) None [] None None 0 (Some parent) false false with Ok r => r | Raise _ => no_request end.

(** The workers return one token for each scheduled request. *)
Definition one_token (out : SchedulerOutput) : ModelRunnerOutput :=
  let ids := (so_num_scheduled_tokens out).*1 in
  mkModelRunnerOutput (list_to_map (zip ids (seq 0 (length ids)))) ((λ _, [7]) <$> ids) [].

Section Run.
Context (tc : TaperConfig).
#[local] Instance run_plugins : Plugins Controllers := controllers tc.

Definition add_branch (r : Request) (s : Sched) : res Sched := engine_add_request id run_hasher s r false.

Definition one_step (s : Sched) : res Sched :=
  '(s, _, _) ← engine_step demo_cfg id run_hasher s one_token [] (float_of_Z 2); Ok s.

Fixpoint run_steps (n : nat) (s : Sched) : res Sched :=
  match n with O => Ok s | S n => s ← one_step s; run_steps n s end.

(** What a step would schedule. *)
Definition would_schedule (s : Sched) : res (list (string * Z)) :=
  '(_, out) ← schedule demo_cfg id s; Ok (so_num_scheduled_tokens out).
End Run.

Definition or_start (m : res Sched) : Sched := match m with Ok s => s | Raise _ => controlled_start end.

(** ** A preempted pilot *)

Definition pilot_tc : TaperConfig := demo_tc TailBlend 1 3 false Msimplified.

(** Two parents with one branch each; the KV cache cannot hold both to the end. *)
Definition pilots_added : res Sched :=
  s ← add_branch pilot_tc (branch "p_0" "p" 9) controlled_start;
  add_branch pilot_tc (branch "q_0" "q" 9) s.

(** The engine when the first parent is done. *)
Definition pilot_stuck : Sched := Eval vm_compute in or_start (s ← pilots_added; run_steps pilot_tc 12 s).

Lemma pilot_fixpoint : one_step pilot_tc pilot_stuck = Ok pilot_stuck.
Proof. vm_compute. reflexivity. Qed.

(** A run in which a preempted pilot is starved.  Two best-of-n requests with one
    branch each share a KV cache that is too small for both, with one pilot per parent
    and a memory threshold of a third of the cache.  The second one is preempted.  When
    the first is done the cache is empty, nothing runs and nothing else waits, yet the
    preempted branch counts itself as the started pilot of its parent and is deferred
    until a sibling finishes: the engine has an unfinished request and schedules
    nothing, however many steps it takes. *)
Theorem preempted_pilot_starved n :
  (s ← pilots_added; run_steps pilot_tc (12 + n) s) = Ok pilot_stuck ∧
  has_unfinished_requests pilot_stuck = true ∧ running pilot_stuck = [] ∧
  get_remaining_free_blocks (kv_cache_manager pilot_stuck) = 8 ∧
  would_schedule pilot_tc pilot_stuck = Ok [].
Proof.
  split; [|vm_compute; by repeat split].
  assert (∀ a s s', run_steps pilot_tc a s = Ok s' → ∀ b, run_steps pilot_tc (a + b) s = run_steps pilot_tc b s') as Hadd.
  { induction a as [|a IH]; intros s s'; [by intros [= ->]|]. cbn [run_steps Nat.add]. destruct (one_step pilot_tc s) as [s1|]; [|done].
    cbn [mbind res_bind]. apply IH. }
  assert (∃ s0, pilots_added = Ok s0 ∧ run_steps pilot_tc 12 s0 = Ok pilot_stuck) as (s0 & -> & H12).
  { eexists. split; [vm_compute; reflexivity|]. vm_compute. reflexivity. }
  cbn [mbind res_bind]. rewrite (Hadd _ _ _ H12). induction n as [|n IH]; [done|].
  cbn [run_steps]. rewrite pilot_fixpoint. exact IH.
Qed.

(** ** The state of the length predictor *)

Definition predictor_tc : TaperConfig := demo_tc BonTaperLenPredictor 0 (-1) false Msimplified.

(** One branch from its arrival to its end. *)
Definition predicted_run : Sched := Eval vm_compute in
  or_start (s ← add_branch predictor_tc (branch "p_0" "p" 2) controlled_start; run_steps predictor_tc 3 s).

(** The length predictor keeps finished requests.  A branch is added, produces its
    two tokens and finishes; no request is left in the engine.  [observe_finished_request]
    drops the branch from the predictor, but the output of the last step is observed
    after that and enters it again, so its entry and the lengths of its parent stay,
    and a refresh, which prunes parents without an entry, keeps them. *)
Theorem predictor_keeps_finished :
  sc_requests predicted_run = ∅ ∧ has_requests predicted_run = false ∧
  request_to_group (plugins predicted_run) = {["p_0" := "p"]} ∧
  lp_groups (plugins predicted_run) = {["p" := [2]]} ∧
  plugins (refresh_running_requests predictor_tc predicted_run) = plugins predicted_run.
Proof. split_and!; vm_compute; reflexivity. Qed.

(** ** The theorems at work *)

Definition run_contract : KVContract (max_model_len demo_cfg) (text_hashed 2 false sample_hash sample_none sample_sha) :=
  engine_contract demo_cfg 2 false sample_hash sample_none sample_sha sample_hash_inj ltac:(done) ltac:(done) eq_refl.
#[local] Existing Instance run_contract.

Definition run_hasher_laws : HasherLaws (text_hashed 2 false sample_hash sample_none sample_sha) run_hasher :=
  text_hasher_laws 2 false sample_hash sample_none sample_sha eq_refl.
#[local] Existing Instance run_hasher_laws.

Lemma run_kv_ok : kv_ok run_kv ∅.
Proof.
  destruct (unitary_init 16 2 false one_group None false false 1 1) as (m & E & U).
  { split; try done. repeat constructor; by left. }
  { done. }
  assert (KVCacheManager_init one_group 16 2 None false false false 1 1 = Ok run_kv) as E' by (vm_compute; reflexivity).
  assert (m = run_kv) as -> by congruence. exact U.
Qed.

Lemma demo_admissible p k th b mode : mode ≠ Mfull_slo → admissible demo_cfg (demo_tc p k th b mode).
Proof. by split. Qed.

(** Two branches of one parent, added and then decoding. *)
Section Twins.
Context (tc : TaperConfig).
Definition twins_added : res Sched :=
  s ← add_branch tc (branch "p_0" "p" 9) controlled_start; add_branch tc (branch "p_1" "p" 9) s.
Definition twins_running : res Sched := s ← twins_added; one_step tc s.
End Twins.

Lemma branch_allowed tc s i parent :
  sc_requests s !! i = None →
  op_allowed demo_cfg id (hashed := text_hashed 2 false sample_hash sample_none sample_sha) (pl := controllers tc)
    s (OpAdd (branch i parent 9) false).
Proof.
  intros Hs. split_and!.
  - done.
  - split; try done. by left.
  - split; try done. intros _. split; [done|]. by eexists.
Qed.

(** The configurations of the examples: a planner, and a preempting controller. *)
Definition plan_tc : TaperConfig := demo_tc Taper 0 (-1) false Msimplified.
Definition victim_tc : TaperConfig := demo_tc TailBlend 0 (-1) true Msimplified.

Definition plan_added : Sched := Eval vm_compute in or_start (twins_added plan_tc).
Definition plan_running : Sched := Eval vm_compute in or_start (twins_running plan_tc).
Definition victim_added : Sched := Eval vm_compute in or_start (twins_added victim_tc).
Definition victim_running : Sched := Eval vm_compute in or_start (twins_running victim_tc).

Definition step_op : engine_op := OpStep one_token [] (float_of_Z 2).

Ltac reach_added tc first :=
  eapply (engine_reach_step _ _ _ first (OpAdd (branch "p_1" "p" 9) false));
  [eapply (engine_reach_step _ _ _ controlled_start (OpAdd (branch "p_0" "p" 9) false));
     [apply engine_reach_init; exact run_kv_ok|by apply branch_allowed|vm_compute; reflexivity]
  |by apply branch_allowed|vm_compute; reflexivity].

Lemma plan_added_reach : engine_reach demo_cfg id run_hasher (pl := controllers plan_tc) plan_added.
Proof.
  pose (s1 := or_start (add_branch plan_tc (branch "p_0" "p" 9) controlled_start)). vm_compute in s1.
  reach_added plan_tc s1.
Qed.

Lemma victim_added_reach : engine_reach demo_cfg id run_hasher (pl := controllers victim_tc) victim_added.
Proof.
  pose (s1 := or_start (add_branch victim_tc (branch "p_0" "p" 9) controlled_start)). vm_compute in s1.
  reach_added victim_tc s1.
Qed.

(** The workers answer the first step of the twins. *)
Definition twins_out : list (string * Z) := [("p_0", 3); ("p_1", 3)].

Lemma one_token_ok (s' : Sched) out :
  so_num_scheduled_tokens out = twins_out → so_scheduled_spec_decode_tokens out = [] →
  (∀ i r, sc_requests s' !! i = Some r → pooling_params r = None) →
  runner_ok s' out (one_token out).
Proof.
  intros E1 E2 Hs i r. unfold drafts_of, one_token. rewrite E1 E2. cbn.
  intros Hi Hr. pose proof (Hs i r Hr) as Hp.
  assert (i = "p_0" ∨ i = "p_1") as [-> | ->] by (rewrite !elem_of_cons in Hi; pose proof (not_elem_of_nil i); naive_solver).
  - exists 0%nat, [7]. split_and!; [done|by right|done|done|done|by left].
  - exists 1%nat, [7]. split_and!; [done|by right|done|done|done|by left].
Qed.

Definition no_pooling (s : Sched) : bool := bool_decide (map_Forall (λ _ r, pooling_params r = None) (sc_requests s)).

Lemma step_op_allowed tc (s : Sched) s1 out1 :
  schedule demo_cfg id (pl := controllers tc) s = Ok (s1, out1) → so_num_scheduled_tokens out1 = twins_out →
  so_scheduled_spec_decode_tokens out1 = [] → no_pooling s1 = true →
  op_allowed demo_cfg id (hashed := text_hashed 2 false sample_hash sample_none sample_sha) (pl := controllers tc) s step_op.
Proof.
  intros E E1 E2 Hp. split; [constructor|]. intros s' out E'. rewrite E in E'. injection E' as <- <-.
  apply one_token_ok; [done|done|]. intros i r Hr. by apply bool_decide_eq_true in Hp as Hp'; apply (Hp' i r Hr).
Qed.

Lemma plan_running_reach : engine_reach demo_cfg id run_hasher (pl := controllers plan_tc) plan_running.
Proof.
  eapply (engine_reach_step _ _ _ plan_added step_op); [exact plan_added_reach| |vm_compute; reflexivity].
  eapply step_op_allowed; [vm_compute; reflexivity|reflexivity|reflexivity|vm_compute; reflexivity].
Qed.

Lemma victim_running_reach : engine_reach demo_cfg id run_hasher (pl := controllers victim_tc) victim_running.
Proof.
  eapply (engine_reach_step _ _ _ victim_added step_op); [exact victim_added_reach| |vm_compute; reflexivity].
  eapply step_op_allowed; [vm_compute; reflexivity|reflexivity|reflexivity|vm_compute; reflexivity].
Qed.

Lemma reached_inv tc (s : Sched) :
  admissible demo_cfg tc → engine_reach demo_cfg id run_hasher (pl := controllers tc) s →
  ∃ t w k, SchedInv demo_cfg s t w k [].
Proof.
  intros Ad HR. pose proof (controllers_laws demo_cfg tc Ad) as PL.
  destruct (reach_inv (pl := controllers tc) (KV := run_contract) demo_cfg id id_perm run_hasher demo_cfg_ok eq_refl eq_refl s) as (t & w & k & I & _); [done|done|eauto].
Qed.

Lemma controlled_engine_safe_witness :
  ∃ s, run_engine_op demo_cfg id run_hasher (pl := controllers victim_tc) victim_added step_op = Ok s ∧
    engine_reach demo_cfg id run_hasher (pl := controllers victim_tc) s ∧ requests_accounted demo_cfg s.
Proof.
  apply (controlled_engine_safe demo_cfg victim_tc id id_perm run_hasher demo_cfg_ok eq_refl eq_refl victim_added step_op);
    [by apply demo_admissible|done|exact victim_added_reach|].
  eapply step_op_allowed; [vm_compute; reflexivity|reflexivity|reflexivity|vm_compute; reflexivity].
Defined.

Lemma plans_protect_parents_witness :
  ∃ s' o, _get_taper_plus_admitted_running_req_ids plan_tc plan_running 1 = Ok (s', o) ∧ plugin_step demo_cfg plan_running s' ∧
    running s' = running plan_running ∧ ∀ a, o = Some a → fair_plan plan_tc s' 1 a.
Proof.
  destruct (reached_inv plan_tc plan_running) as (t & w & k & I); [by apply demo_admissible|exact plan_running_reach|].
  exact (plans_protect_parents demo_cfg plan_tc plan_running t w k [] 1 I).
Defined.

(** With a budget of one token one of the two branches decodes. *)
Example plan_of_twins :
  match _get_taper_plus_admitted_running_req_ids plan_tc plan_running 1 with Ok (_, o) => o | Raise _ => None end = Some ["p_0"].
Proof. vm_compute. reflexivity. Qed.

Definition chosen : Sched * option Request := Eval vm_compute in
  match tb_select_preemption_victim victim_tc victim_running (obj victim_running "p_1") with
  | Ok p => p | Raise _ => (controlled_start, None) end.

Lemma victim_maximal_witness :
  ∃ v, chosen.2 = Some v ∧ request_id v ∈ running victim_running ∧ is_some (external_req_id v) = true ∧
    ∀ r, r ∈ preemption_candidates victim_running →
      key_ltb (victim_key victim_tc victim_running (obj victim_running "p_1") v)
              (victim_key victim_tc victim_running (obj victim_running "p_1") r) = false.
Proof.
  destruct (reached_inv victim_tc victim_running) as (t & w & k & I); [by apply demo_admissible|exact victim_running_reach|].
  eexists. split; [reflexivity|].
  eapply (victim_maximal demo_cfg victim_tc victim_running t w k [] (obj victim_running "p_1") chosen.1); [exact I|done|done| |].
  - intros r Hr. assert (r = obj victim_running "p_0" ∨ r = obj victim_running "p_1") as [-> | ->].
    { assert (preemption_candidates victim_running = [obj victim_running "p_0"; obj victim_running "p_1"]) as E
        by (vm_compute; reflexivity).
      rewrite E !elem_of_cons in Hr. pose proof (not_elem_of_nil r). tauto. }
    all: vm_compute; repeat constructor; done.
  - vm_compute. reflexivity.
Defined.

Lemma bon_parent_limit_witness :
  ∃ b, bon_should_defer_waiting_request (demo_tc BonTaper 0 3 false Msimplified) plan_running (branch "q_0" "q" 9) = Ok b ∧
    (under_pressure (demo_tc BonTaper 0 3 false Msimplified) plan_running → b = false →
       gid (branch "q_0" "q" 9) ∈ active_parents plan_running ∨ Z.of_nat (size (active_parents plan_running)) < 8) ∧
    (gid (branch "q_0" "q" 9) ∈ active_parents plan_running ∨ active_parents plan_running = ∅ → b = false).
Proof.
  destruct (reached_inv plan_tc plan_running) as (t & w & k & I); [by apply demo_admissible|exact plan_running_reach|].
  apply (bon_parent_limit demo_cfg (demo_tc BonTaper 0 3 false Msimplified) plan_running t w k []);
    [exact I|done|done|by left|done].
Defined.

Lemma percentile_total_witness : ∃ x, _percentile [5; 3; 9] (dec 90 100) = Ok x.
Proof. apply (percentile_total [5; 3; 9] (dec 90 100)); split; by vm_compute. Defined.

Lemma latency_model_clamped_witness :
  latency_ok (latency (taper_step_observed plan_tc plan_running (mkTaperStep onef 2 8 0 onef))).
Proof. apply (proj2 (latency_model_clamped plan_tc)). split; by vm_compute. Defined.
