(* ===== verification/OffloadPolicy.v ===== *)
(** * Cache policies of the KV offloading manager

    [src/vllm/v1/kv_offload/base.py] (offload keys) and
    [src/vllm/v1/kv_offload/cpu/policies]: [BlockStatus], the interface
    [CachePolicy] and its two implementations, [LRUCachePolicy] and
    [ARCCachePolicy].  The interface is a class of operations with a class of laws,
    stated on the items a policy holds up to their order; the manager is verified
    against the laws only ([OffloadManager]), and both policies satisfy them.

    The [BlockStatus] objects are shared: [get] returns the object the policy holds
    and the manager writes its [ref_cnt].  An object is stored under one key of one
    policy, so the write is an assignment at that key ([cp_assign]).  The fields are
    [ctypes] integers and wrap around at their width. *)

From Corelib Require Import SpecFloat.
From S2P Require Import Prelude PyFloat OrderedDict BlockHash.

(** ** Offload keys *)

Abbreviation OffloadKey := bytes.

Definition make_offload_key (block_hash : bytes) (group_idx : Z) : res OffloadKey :=
  g ← int_to_bytes 4 group_idx;
  Ok (block_hash ++ g).

Definition get_offload_block_hash (key : OffloadKey) : bytes := py_slice_to key (-4).

Definition get_offload_group_idx (key : OffloadKey) : Z := int_from_bytes (py_slice_from key (-4)).

(** ** [BlockStatus] *)

(** The value a signed [ctypes] integer of [w] bits keeps of [z]. *)
Definition c_int (w z : Z) : Z := (z + 2 ^ (w - 1)) mod 2 ^ w - 2 ^ (w - 1).

Record BlockStatus := mkBlockStatus {
  ref_cnt : Z;   (** [c_int32] *)
  block_id : Z   (** [c_int64] *)
}.

#[export] Instance BlockStatus_eq_dec : EqDecision BlockStatus.
Proof. solve_decision. Defined.

Definition BlockStatus_init (block_id : Z) : BlockStatus :=
  mkBlockStatus (c_int 32 (-1)) (c_int 64 block_id).

Definition set_ref_cnt (b : BlockStatus) (n : Z) : BlockStatus :=
  mkBlockStatus (c_int 32 n) (block_id b).

Definition is_ready (b : BlockStatus) : bool := bool_decide (0 ≤ ref_cnt b).

(** ** The interface *)

Abbreviation blocks_dict := (list (OffloadKey * BlockStatus)).

Class CachePolicy (P : Type) := {
  cp_init : Z → P;
  cp_get : P → OffloadKey → option BlockStatus;
  cp_insert : P → OffloadKey → BlockStatus → P;
  cp_remove : P → OffloadKey → res P;
  cp_touch : P → list OffloadKey → res P;
  cp_evict : P → Z → gset OffloadKey → res (option (blocks_dict * P));
  cp_assign : P → OffloadKey → BlockStatus → P
}.

(** A block that may be evicted: no transfer uses it and the call does not protect it. *)
Definition evictable (protected : gset OffloadKey) (kb : OffloadKey * BlockStatus) : Prop :=
  ref_cnt kb.2 = 0 ∧ kb.1 ∉ protected.

#[export] Instance evictable_dec protected kb : Decision (evictable protected kb).
Proof. unfold evictable. apply _. Defined.

(** What the manager relies on.  [cp_items] are the blocks the policy holds. *)
Class CachePolicyLaws (P : Type) `{CachePolicy P} := {
  cp_wf : P → Prop;
  cp_items : P → blocks_dict;
  cp_items_nodup p : cp_wf p → NoDup (cp_items p).*1;
  cp_init_ok cap : 0 ≤ cap → cp_wf (cp_init cap) ∧ cp_items (cp_init cap) = [];
  cp_get_ok p k : cp_wf p → cp_get p k = od_get (cp_items p) k;
  cp_insert_ok p k b :
    cp_wf p → cp_get p k = None →
    cp_wf (cp_insert p k b) ∧ cp_items (cp_insert p k b) ≡ₚ (k, b) :: cp_items p;
  cp_assign_ok p k b b' l :
    cp_wf p → cp_items p ≡ₚ (k, b) :: l →
    cp_wf (cp_assign p k b') ∧ cp_items (cp_assign p k b') ≡ₚ (k, b') :: l;
  cp_remove_ok p k b l :
    cp_wf p → cp_items p ≡ₚ (k, b) :: l →
    ∃ p', cp_remove p k = Ok p' ∧ cp_wf p' ∧ cp_items p' ≡ₚ l;
  cp_touch_ok p ks :
    cp_wf p → ∃ p', cp_touch p ks = Ok p' ∧ cp_wf p' ∧ cp_items p' ≡ₚ cp_items p;
  cp_evict_ok p n protected :
    cp_wf p → 0 ≤ n → ∃ o, cp_evict p n protected = Ok o ∧
    ∀ evicted p', o = Some (evicted, p') →
      cp_wf p' ∧ cp_items p ≡ₚ evicted ++ cp_items p' ∧ zlen evicted = n ∧
      Forall (evictable protected) evicted
}.

(** ** [LRUCachePolicy] *)

Record LRUCachePolicy := mkLRU { lru_blocks : blocks_dict }.

Definition lru_init (cache_capacity : Z) : LRUCachePolicy := mkLRU [].

Definition lru_get (p : LRUCachePolicy) (key : OffloadKey) : option BlockStatus := od_get (lru_blocks p) key.

Definition lru_insert (p : LRUCachePolicy) (key : OffloadKey) (block : BlockStatus) : LRUCachePolicy :=
  mkLRU (od_set (lru_blocks p) key block).

Definition lru_remove (p : LRUCachePolicy) (key : OffloadKey) : res LRUCachePolicy :=
  d ← od_del (lru_blocks p) key; Ok (mkLRU d).

Definition lru_touch (p : LRUCachePolicy) (keys : list OffloadKey) : res LRUCachePolicy :=
  d ← foldM (λ d key, if od_mem d key then od_move_to_end d key else Ok d) (lru_blocks p) (reverse keys);
  Ok (mkLRU d).

(** The loop that collects the candidates. *)
Fixpoint lru_candidates (n : Z) (protected : gset OffloadKey) (items candidates : blocks_dict) : blocks_dict :=
  match items with
  | [] => candidates
  | (key, block) :: items =>
      if bool_decide (ref_cnt block = 0) && bool_decide (key ∉ protected) then
        let candidates := candidates ++ [(key, block)] in
        if bool_decide (zlen candidates = n) then candidates
        else lru_candidates n protected items candidates
      else lru_candidates n protected items candidates
  end.

Definition lru_evict (p : LRUCachePolicy) (n : Z) (protected : gset OffloadKey)
    : res (option (blocks_dict * LRUCachePolicy)) :=
  if bool_decide (n = 0) then Ok (Some ([], p))
  else
    let candidates := lru_candidates n protected (lru_blocks p) [] in
    if bool_decide (zlen candidates < n) then Ok None
    else
      d ← foldM (λ d (kb : OffloadKey * BlockStatus), od_del d kb.1) (lru_blocks p) candidates;
      Ok (Some (candidates, mkLRU d)).

Definition lru_assign (p : LRUCachePolicy) (key : OffloadKey) (block : BlockStatus) : LRUCachePolicy :=
  mkLRU (od_set (lru_blocks p) key block).

#[export] Instance LRU_policy : CachePolicy LRUCachePolicy := {|
  cp_init := lru_init; cp_get := lru_get; cp_insert := lru_insert; cp_remove := lru_remove;
  cp_touch := lru_touch; cp_evict := lru_evict; cp_assign := lru_assign
|}.

(** ** [ARCCachePolicy] *)

Abbreviation ghost_dict := (list (OffloadKey * unit)).

Record ARCCachePolicy := mkARC {
  cache_capacity : Z;
  target_t1_size : float64;
  t1 : blocks_dict;
  t2 : blocks_dict;
  b1 : ghost_dict;
  b2 : ghost_dict
}.

Definition arc_init (capacity : Z) : ARCCachePolicy := mkARC capacity (float_of_Z 0) [] [] [] [].

(** A [BlockStatus] is always true, so [or] falls through only on a missing key. *)
Definition arc_get (p : ARCCachePolicy) (key : OffloadKey) : option BlockStatus :=
  match od_get (t1 p) key with Some b => Some b | None => od_get (t2 p) key end.

Definition arc_insert (p : ARCCachePolicy) (key : OffloadKey) (block : BlockStatus) : ARCCachePolicy :=
  mkARC (cache_capacity p) (target_t1_size p) (od_set (t1 p) key block) (t2 p)
    (od_pop_default (b1 p) key).2 (od_pop_default (b2 p) key).2.

Definition arc_remove (p : ARCCachePolicy) (key : OffloadKey) : res ARCCachePolicy :=
  match od_pop_default (t1 p) key with
  | (Some _, d1) => Ok (mkARC (cache_capacity p) (target_t1_size p) d1 (t2 p) (b1 p) (b2 p))
  | (None, d1) =>
      Ok (mkARC (cache_capacity p) (target_t1_size p) d1 (od_pop_default (t2 p) key).2 (b1 p) (b2 p))
  end.

(** One key of [touch]. *)
Definition arc_touch1 (p : ARCCachePolicy) (key : OffloadKey) : res ARCCachePolicy :=
  let cap := cache_capacity p in let target := target_t1_size p in
  if od_mem (t1 p) key then
    '(block, d1) ← od_pop (t1 p) key;
    if negb (is_ready block) then Ok (mkARC cap target (od_set d1 key block) (t2 p) (b1 p) (b2 p))
    else Ok (mkARC cap target d1 (od_set (t2 p) key block) (b1 p) (b2 p))
  else if od_mem (t2 p) key then
    d2 ← od_move_to_end (t2 p) key;
    Ok (mkARC cap target (t1 p) d2 (b1 p) (b2 p))
  else if od_mem (b1 p) key then
    let delta := fmax (float_of_Z 1) (int_truediv (zlen (b2 p)) (zlen (b1 p))) in
    let target := fmin (fadd target delta) (float_of_Z cap) in
    g1 ← od_move_to_end (b1 p) key;
    Ok (mkARC cap target (t1 p) (t2 p) g1 (b2 p))
  else if od_mem (b2 p) key then
    let delta := fmax (float_of_Z 1) (int_truediv (zlen (b1 p)) (zlen (b2 p))) in
    let target := fmax (fsub target delta) (float_of_Z 0) in
    g2 ← od_move_to_end (b2 p) key;
    Ok (mkARC cap target (t1 p) (t2 p) (b1 p) g2)
  else Ok p.

Definition arc_touch (p : ARCCachePolicy) (keys : list OffloadKey) : res ARCCachePolicy :=
  foldM arc_touch1 p (reverse keys).

(** The first block of [d] that may be evicted and is not selected yet. *)
Definition first_candidate (protected selected : gset OffloadKey) (d : blocks_dict)
    : option (OffloadKey * BlockStatus) :=
  head (filter (λ kb : OffloadKey * BlockStatus,
    ref_cnt kb.2 = 0 ∧ (kb.1 ∉ protected) ∧ kb.1 ∉ selected) d).

(** The loop that selects [n] candidates with the list each comes from. *)
Fixpoint arc_select (p : ARCCachePolicy) (protected : gset OffloadKey) (n : nat)
    (candidates : list (OffloadKey * BlockStatus * bool)) (selected : gset OffloadKey)
    (virtual_t1_size : Z) : option (list (OffloadKey * BlockStatus * bool)) :=
  match n with
  | O => Some candidates
  | S n =>
      let from_t1 :=
        if bool_decide (ftrunc (target_t1_size p) ≤ virtual_t1_size)
        then first_candidate protected selected (t1 p) else None in
      match from_t1 with
      | Some kb =>
          arc_select p protected n (candidates ++ [(kb, true)]) ({[kb.1]} ∪ selected) (virtual_t1_size - 1)
      | None =>
          match first_candidate protected selected (t2 p) with
          | Some kb =>
              arc_select p protected n (candidates ++ [(kb, false)]) ({[kb.1]} ∪ selected) virtual_t1_size
          | None => None
          end
      end
  end.

Definition arc_evict1 (p : ARCCachePolicy) (c : OffloadKey * BlockStatus * bool) : res ARCCachePolicy :=
  let '(key, block, from_t1) := c in
  if (from_t1 : bool) then
    d1 ← od_del (t1 p) key;
    Ok (mkARC (cache_capacity p) (target_t1_size p) d1 (t2 p) (od_set (b1 p) key tt) (b2 p))
  else
    d2 ← od_del (t2 p) key;
    Ok (mkARC (cache_capacity p) (target_t1_size p) (t1 p) d2 (b1 p) (od_set (b2 p) key tt)).

(** [popitem(last=False)], [n] times. *)
Fixpoint trim_ghost (n : nat) (ghost : ghost_dict) : res ghost_dict :=
  match n with
  | O => Ok ghost
  | S n => '(_, ghost) ← od_popitem_first ghost; trim_ghost n ghost
  end.

Definition arc_evict (p : ARCCachePolicy) (n : Z) (protected : gset OffloadKey)
    : res (option (blocks_dict * ARCCachePolicy)) :=
  if bool_decide (n = 0) then Ok (Some ([], p))
  else
    match arc_select p protected (Z.to_nat n) [] ∅ (zlen (t1 p)) with
    | None => Ok None
    | Some candidates =>
        p ← foldM arc_evict1 p candidates;
        g1 ← trim_ghost (Z.to_nat (zlen (b1 p) - cache_capacity p)) (b1 p);
        g2 ← trim_ghost (Z.to_nat (zlen (b2 p) - cache_capacity p)) (b2 p);
        Ok (Some (candidates.*1, mkARC (cache_capacity p) (target_t1_size p) (t1 p) (t2 p) g1 g2))
    end.

Definition arc_assign (p : ARCCachePolicy) (key : OffloadKey) (block : BlockStatus) : ARCCachePolicy :=
  if od_mem (t1 p) key then
    mkARC (cache_capacity p) (target_t1_size p) (od_set (t1 p) key block) (t2 p) (b1 p) (b2 p)
  else mkARC (cache_capacity p) (target_t1_size p) (t1 p) (od_set (t2 p) key block) (b1 p) (b2 p).

#[export] Instance ARC_policy : CachePolicy ARCCachePolicy := {|
  cp_init := arc_init; cp_get := arc_get; cp_insert := arc_insert; cp_remove := arc_remove;
  cp_touch := arc_touch; cp_evict := arc_evict; cp_assign := arc_assign
|}.

(** ** LRU satisfies the laws *)

Lemma lru_candidates_spec n protected items candidates :
  zlen candidates < n →
  lru_candidates n protected items candidates =
  candidates ++ take (Z.to_nat (n - zlen candidates)) (filter (evictable protected) items).
Proof.
  revert candidates. induction items as [|[key block] items IH]; intros candidates Hn; cbn [lru_candidates].
  { by rewrite filter_nil take_nil app_nil_r. }
  rewrite filter_cons. destruct (decide (evictable protected (key, block))) as [[H1 H2]|H]; cbn [fst snd] in *.
  - rewrite (bool_decide_true (ref_cnt block = 0)) // (bool_decide_true (key ∉ protected)) //. cbn [andb].
    assert (Z.to_nat (n - zlen candidates) = S (Z.to_nat (n - zlen (candidates ++ [(key, block)])))) as ->.
    { rewrite zlen_app /zlen /= in Hn *. lia. }
    cbn [take]. goal_bool as E.
    + by rewrite E Z.sub_diag.
    + rewrite IH -?app_assoc //. rewrite zlen_app /zlen /= in Hn E *. lia.
  - replace (bool_decide (ref_cnt block = 0) && bool_decide (key ∉ protected)) with false; [by apply IH|].
    symmetry. apply andb_false_iff. unfold evictable in H. cbn in H.
    destruct (decide (ref_cnt block = 0)); [right|left]; apply bool_decide_false; tauto.
Qed.

(** [evict] takes the oldest blocks that may go, and refuses exactly when there are
    not [n] of them. *)
Lemma lru_evict_spec p n protected :
  NoDup (lru_blocks p).*1 → 0 ≤ n →
  let victims := filter (evictable protected) (lru_blocks p) in
  if bool_decide (zlen victims < n) then lru_evict p n protected = Ok None
  else ∃ p', lru_evict p n protected = Ok (Some (take (Z.to_nat n) victims, p')) ∧
       lru_blocks p ≡ₚ take (Z.to_nat n) victims ++ lru_blocks p'.
Proof.
  intros Hnd Hn victims. unfold lru_evict. goal_bool as Hv; destruct (decide (n = 0)) as [->|Hn0].
  - pose proof (zlen_nonneg victims). lia.
  - rewrite (bool_decide_false (n = 0)) // lru_candidates_spec; [|rewrite /zlen /=; lia]. cbn [app]. rewrite Z.sub_0_r.
    rewrite bool_decide_true // zlen_take; [|done]. fold victims. lia.
  - exists p. by rewrite bool_decide_true.
  - rewrite (bool_decide_false (n = 0)) // lru_candidates_spec; [|rewrite /zlen /=; lia]. cbn [app]. rewrite Z.sub_0_r.
    fold victims. rewrite bool_decide_false; [|rewrite zlen_take; lia].
    destruct (od_del_all (lru_blocks p) (take (Z.to_nat n) victims)
      (drop (Z.to_nat n) victims ++ filter (λ kb, ¬ evictable protected kb) (lru_blocks p))) as (d' & -> & HP); [done| |].
    { by rewrite app_assoc take_drop filter_Permutation_split. }
    cbn. eexists. split; [done|]. cbn. by rewrite HP app_assoc take_drop filter_Permutation_split.
Qed.

Lemma lru_touch_spec p ks : NoDup (lru_blocks p).*1 →
  ∃ p', lru_touch p ks = Ok p' ∧ lru_blocks p' ≡ₚ lru_blocks p.
Proof.
  intros _. unfold lru_touch. generalize (lru_blocks p) as d. induction (reverse ks) as [|k l IH]; intros d; cbn [foldM].
  { eexists. by cbn. }
  destruct (od_mem d k) eqn:E; cbn [mbind res_bind]; [|apply IH].
  apply od_mem_true, od_move_to_end_perm in E as (d' & -> & HP). cbn [mbind res_bind].
  destruct (IH d') as (p' & -> & HP'). exists p'. by rewrite HP' HP.
Qed.

#[export] Program Instance LRU_laws : CachePolicyLaws LRUCachePolicy := {|
  cp_wf p := NoDup (lru_blocks p).*1;
  cp_items := lru_blocks
|}.
Next Obligation. done. Qed.
Next Obligation. intros cap _. by split; [constructor|]. Qed.
Next Obligation. done. Qed.
Next Obligation.
  intros [d] k b Hnd Hg. cbn in *. unfold lru_get in Hg. cbn in Hg. apply od_get_None in Hg.
  rewrite od_set_fresh //. split; [|symmetry; apply Permutation_cons_append].
  rewrite -Permutation_cons_append. by constructor.
Qed.
Next Obligation.
  intros [d] k b b' l Hnd HP. cbn in *. pose proof (od_set_perm _ _ _ _ b' Hnd HP) as HP'. split; [|done].
  rewrite HP'. by rewrite HP in Hnd.
Qed.
Next Obligation.
  intros [d] k b l Hnd HP. cbn in *. destruct (od_del_perm d k b l Hnd HP) as (d' & E & HP'). unfold lru_remove. cbn.
  rewrite E. eexists. split; [done|]. cbn. split; [|done]. rewrite HP'. rewrite HP in Hnd. by apply NoDup_cons in Hnd as [_ ?].
Qed.
Next Obligation.
  intros p ks Hnd. destruct (lru_touch_spec p ks Hnd) as (p' & E & HP). exists p'. split_and!; [done|by rewrite HP|done].
Qed.
Next Obligation.
  intros p n protected Hnd Hn. cbn. pose proof (lru_evict_spec p n protected Hnd Hn) as Hs. cbn in Hs.
  destruct (decide (zlen (filter (evictable protected) (lru_blocks p)) < n)) as [Hl|Hl].
  - rewrite bool_decide_true // in Hs. by exists None.
  - rewrite bool_decide_false // in Hs. destruct Hs as (p' & E & HP). eexists. split; [done|]. intros ? ? [= <- <-].
    split_and!; [|done|rewrite zlen_take; lia|].
    + rewrite HP fmap_app in Hnd. by apply NoDup_app in Hnd as (_ & _ & ?).
    + apply Forall_take, Forall_forall. intros kb Hkb. by apply list_elem_of_filter in Hkb as [? _].
Qed.

(** ** ARC satisfies the laws *)

Definition arc_keys (p : ARCCachePolicy) : list OffloadKey :=
  (t1 p).*1 ++ (t2 p).*1 ++ (b1 p).*1 ++ (b2 p).*1.

(** No key is in two of the four lists, or twice in one of them. *)
Definition arc_wf (p : ARCCachePolicy) : Prop := NoDup (arc_keys p) ∧ 0 ≤ cache_capacity p.

Definition arc_items (p : ARCCachePolicy) : blocks_dict := t1 p ++ t2 p.

(** Distinctness by counting, which [lia] decides after a rearrangement. *)
Lemma arc_wf_count p :
  arc_wf p ↔ 0 ≤ cache_capacity p ∧
  ∀ k, zcount k (t1 p).*1 + zcount k (t2 p).*1 + zcount k (b1 p).*1 + zcount k (b2 p).*1 ≤ 1.
Proof.
  unfold arc_wf. rewrite NoDup_zcount. unfold arc_keys. split.
  - intros [Hk ?]. split; [done|]. intros k. specialize (Hk k). rewrite !zcount_app in Hk. lia.
  - intros [? Hk]. split; [|done]. intros k. specialize (Hk k). rewrite !zcount_app. lia.
Qed.

Lemma arc_wf_items p : arc_wf p → NoDup (arc_items p).*1.
Proof.
  intros [_ Hk]%arc_wf_count. apply NoDup_zcount. intros k. specialize (Hk k). unfold arc_items.
  rewrite fmap_app zcount_app. pose proof (zcount_nonneg k (b1 p).*1). pose proof (zcount_nonneg k (b2 p).*1). lia.
Qed.

Lemma arc_wf_t1 p : arc_wf p → NoDup (t1 p).*1.
Proof. intros H%arc_wf_items. unfold arc_items in H. rewrite fmap_app in H. by apply NoDup_app in H as (? & _). Qed.
Lemma arc_wf_t2 p : arc_wf p → NoDup (t2 p).*1.
Proof. intros H%arc_wf_items. unfold arc_items in H. rewrite fmap_app in H. by apply NoDup_app in H as (_ & _ & ?). Qed.

(** A key of a policy's list is in no ghost list. *)
Lemma arc_moved_fresh p k : arc_wf p →
  k ∈ (t1 p).*1 ∨ k ∈ (t2 p).*1 → (k ∉ (b1 p).*1) ∧ k ∉ (b2 p).*1.
Proof.
  intros [_ Hk]%arc_wf_count. specialize (Hk k).
  pose proof (zcount_nonneg k (t1 p).*1). pose proof (zcount_nonneg k (t2 p).*1).
  pose proof (zcount_nonneg k (b1 p).*1). pose proof (zcount_nonneg k (b2 p).*1).
  intros Hin. assert (0 < zcount k (t1 p).*1 ∨ 0 < zcount k (t2 p).*1) by (rewrite !zcount_pos; done).
  split; intros ?%zcount_pos; lia.
Qed.

Lemma arc_get_ok p k : arc_get p k = od_get (arc_items p) k.
Proof. unfold arc_get, arc_items. by rewrite od_get_app. Qed.

(** The four lists after a key has moved between them. *)
Ltac arc_count :=
  match goal with Hw : arc_wf ?p |- _ =>
    let Hcap := fresh in let Hcnt := fresh in let key := fresh "key" in
    pose proof (proj1 (arc_wf_count p) Hw) as [Hcap Hcnt];
    apply arc_wf_count; cbn [cache_capacity t1 t2 b1 b2]; split; [exact Hcap|];
    intros key; specialize (Hcnt key); clear Hw; rename Hcnt into Hw
  end.

Lemma arc_insert_ok p k b : arc_wf p → arc_get p k = None →
  arc_wf (arc_insert p k b) ∧ arc_items (arc_insert p k b) ≡ₚ (k, b) :: arc_items p.
Proof.
  intros Hw Hg. rewrite arc_get_ok in Hg. apply od_get_None in Hg. unfold arc_items in Hg.
  rewrite fmap_app elem_of_app in Hg. unfold arc_insert, arc_items. cbn [t1 t2].
  rewrite od_set_fresh; [|tauto]. split; [|by rewrite -Permutation_cons_append].
  arc_count. rewrite fmap_app zcount_app. rewrite (_ : ([(k, b)]).*1 = [k]) // zcount_cons zcount_nil.
  destruct (zcount_pop_default (b1 p) k key) as [L1 P1]. destruct (zcount_pop_default (b2 p) k key) as [L2 P2].
  pose proof (zcount_nonneg key (t1 p).*1). pose proof (zcount_nonneg key (t2 p).*1).
  pose proof (zcount_nonneg key (b1 p).*1). pose proof (zcount_nonneg key (b2 p).*1).
  case_decide as E; [subst key|lia]. assert (zcount k (t1 p).*1 = 0) by (apply zcount_0; tauto).
  assert (zcount k (t2 p).*1 = 0) by (apply zcount_0; tauto). rewrite P1 // ?P2 //; lia.
Qed.

Lemma arc_assign_ok p k b b' l : arc_wf p → arc_items p ≡ₚ (k, b) :: l →
  arc_wf (arc_assign p k b') ∧ arc_items (arc_assign p k b') ≡ₚ (k, b') :: l.
Proof.
  intros Hw HP. assert (od_get (arc_items p) k = Some b) as Hg.
  { apply od_get_elem; [by apply arc_wf_items|]. rewrite HP. left. }
  unfold arc_items in *. rewrite od_get_app in Hg. unfold arc_assign, od_mem.
  destruct (od_get (t1 p) k) as [b0|] eqn:E1; cbn [is_some t1 t2].
  - apply (inj Some) in Hg as ->. destruct (od_get_split _ _ _ (arc_wf_t1 p Hw) E1) as (d & Hd & _).
    pose proof (od_set_perm _ _ _ _ b' (arc_wf_t1 p Hw) Hd) as Hd'. split.
    + arc_count. rewrite Hd'. rewrite Hd in Hw. exact Hw.
    + rewrite Hd'. cbn [app]. constructor. rewrite Hd in HP. by apply Permutation_cons_inv in HP.
  - destruct (od_get_split _ _ _ (arc_wf_t2 p Hw) Hg) as (d & Hd & _).
    pose proof (od_set_perm _ _ _ _ b' (arc_wf_t2 p Hw) Hd) as Hd'. split.
    + arc_count. rewrite Hd'. rewrite Hd in Hw. exact Hw.
    + rewrite Hd' -Permutation_middle. constructor. rewrite Hd -Permutation_middle in HP.
      by apply Permutation_cons_inv in HP.
Qed.

Lemma arc_remove_ok p k b l : arc_wf p → arc_items p ≡ₚ (k, b) :: l →
  ∃ p', arc_remove p k = Ok p' ∧ arc_wf p' ∧ arc_items p' ≡ₚ l.
Proof.
  intros Hw HP. assert (od_get (arc_items p) k = Some b) as Hg.
  { apply od_get_elem; [by apply arc_wf_items|]. rewrite HP. left. }
  unfold arc_items in *. rewrite od_get_app in Hg. unfold arc_remove.
  destruct (od_pop_default_cases (t1 p) k) as [[Hn E1]|(b0 & d & E1 & Hd & _)]; rewrite E1.
  - apply od_get_None in Hn. rewrite Hn in Hg.
    destruct (od_pop_default_cases (t2 p) k) as [[Hn2 E2]|(b0 & d & E2 & Hd & _)].
    { apply od_get_None in Hn2. congruence. }
    assert (b0 = b) as ->.
    { assert (od_get (t2 p) k = Some b0) as E; [|congruence]. apply od_get_elem; [by apply arc_wf_t2|]. rewrite Hd. left. }
    eexists. split; [done|]. rewrite E2. cbn [snd t1 t2]. split.
    + arc_count. rewrite Hd fmap_cons zcount_cons in Hw. case_decide; lia.
    + rewrite Hd -Permutation_middle in HP. by apply Permutation_cons_inv in HP.
  - assert (od_get (t1 p) k = Some b0) as E. { apply od_get_elem; [by apply arc_wf_t1|]. rewrite Hd. left. }
    rewrite E in Hg. apply (inj Some) in Hg as ->. eexists. split; [done|]. cbn [t1 t2]. split.
    + arc_count. rewrite Hd fmap_cons zcount_cons in Hw. case_decide; lia.
    + rewrite Hd in HP. by apply Permutation_cons_inv in HP.
Qed.

Lemma arc_touch1_ok p k : arc_wf p →
  ∃ p', arc_touch1 p k = Ok p' ∧ arc_wf p' ∧ arc_items p' ≡ₚ arc_items p.
Proof.
  intros Hw. unfold arc_touch1, arc_items.
  destruct (od_mem (t1 p) k) eqn:M1.
  { apply od_mem_true in M1. destruct (od_pop_spec (t1 p) k M1) as (b & d & -> & Hd & _). cbn [mbind res_bind].
    assert (k ∉ d.*1) as Hk. { pose proof (arc_wf_t1 p Hw) as H. rewrite Hd in H. by apply NoDup_cons in H as [? _]. }
    assert (k ∉ (t2 p).*1) as Hk2.
    { apply arc_wf_count in Hw as [_ Hw]. specialize (Hw k). intros H%zcount_pos. apply zcount_pos in M1.
      pose proof (zcount_nonneg k (b1 p).*1). pose proof (zcount_nonneg k (b2 p).*1). lia. }
    destruct (negb (is_ready b)); (eexists; split; [done|]); cbn [t1 t2]; rewrite od_set_fresh //.
    - split; [|by rewrite -Permutation_cons_append -Hd]. arc_count. by rewrite -Permutation_cons_append -Hd.
    - split; [|by rewrite Hd -Permutation_cons_append -Permutation_middle].
      arc_count. rewrite -Permutation_cons_append. rewrite Hd in Hw. rewrite !fmap_cons !zcount_cons in Hw *. lia. }
  destruct (od_mem (t2 p) k) eqn:M2.
  { apply od_mem_true, od_move_to_end_perm in M2 as (d & -> & Hd). cbn [mbind res_bind].
    eexists. split; [done|]. cbn [t1 t2]. split; [|by rewrite Hd]. arc_count. by rewrite Hd. }
  destruct (od_mem (b1 p) k) eqn:M3.
  { apply od_mem_true, od_move_to_end_perm in M3 as (d & -> & Hd). cbn [mbind res_bind].
    eexists. split; [done|]. cbn [t1 t2]. split; [|done]. arc_count. by rewrite Hd. }
  destruct (od_mem (b2 p) k) eqn:M4; [|by exists p].
  apply od_mem_true, od_move_to_end_perm in M4 as (d & -> & Hd). cbn [mbind res_bind].
  eexists. split; [done|]. cbn [t1 t2]. split; [|done]. arc_count. by rewrite Hd.
Qed.

Lemma arc_touch_ok p ks : arc_wf p →
  ∃ p', arc_touch p ks = Ok p' ∧ arc_wf p' ∧ arc_items p' ≡ₚ arc_items p.
Proof.
  unfold arc_touch. revert p. induction (reverse ks) as [|k l IH]; intros p Hw; [by exists p|].
  cbn [foldM]. destruct (arc_touch1_ok p k Hw) as (p1 & -> & Hw1 & HP1). cbn [mbind res_bind].
  destruct (IH p1 Hw1) as (p2 & E & Hw2 & HP2). exists p2. by rewrite HP2 HP1.
Qed.

Lemma first_candidate_Some protected selected d kb :
  first_candidate protected selected d = Some kb → kb ∈ d ∧ evictable protected kb ∧ kb.1 ∉ selected.
Proof.
  unfold first_candidate. intros H. destruct (filter _ d) as [|x l] eqn:E; cbn in H; [done|].
  apply (inj Some) in H as ->. assert (kb ∈ kb :: l) as Hin by left. rewrite -E list_elem_of_filter in Hin.
  unfold evictable. tauto.
Qed.

(** The selection takes distinct blocks that may go from the lists it says. *)
Definition arc_selected (p : ARCCachePolicy) (protected : gset OffloadKey)
    (cs : list (OffloadKey * BlockStatus * bool)) : Prop :=
  NoDup cs.*1.*1 ∧
  Forall (λ c : OffloadKey * BlockStatus * bool,
    evictable protected c.1 ∧ c.1 ∈ (if c.2 then t1 p else t2 p)) cs.

Lemma arc_selected_snoc (p : ARCCachePolicy) (protected selected : gset OffloadKey) (cs : list (OffloadKey * BlockStatus * bool))
    (d : blocks_dict) (f : bool) (kb : OffloadKey * BlockStatus) :
  (d = if (f : bool) then t1 p else t2 p) →
  first_candidate protected selected d = Some kb →
  (∀ k, k ∈ cs.*1.*1 → k ∈ selected) → arc_selected p protected cs →
  arc_selected p protected (cs ++ [(kb, f)]).
Proof.
  intros -> (H1 & H2 & H3)%first_candidate_Some Hsel [Hnd Hall]. split.
  - rewrite !fmap_app. apply NoDup_app. split_and!; [done| |apply NoDup_singleton].
    intros k Hk Hk2%list_elem_of_singleton. subst k. by apply H3, Hsel.
  - apply Forall_app. split; [done|]. by apply Forall_singleton.
Qed.

Lemma arc_select_ok p protected n cs0 selected v cs :
  arc_select p protected n cs0 selected v = Some cs →
  (∀ k, k ∈ cs0.*1.*1 → k ∈ selected) → arc_selected p protected cs0 →
  arc_selected p protected cs ∧ length cs = (n + length cs0)%nat.
Proof.
  revert cs0 selected v. induction n as [|n IH]; intros cs0 selected v; cbn [arc_select]; [by intros [= ->]|].
  intros E Hsel Hs. set (from := if bool_decide _ then _ else None) in E. destruct from as [kb|] eqn:E1.
  - subst from. case_bool_decide; [|done]. apply IH in E as [? ->].
    + split; [done|]. rewrite length_app. cbn. lia.
    + intros k. rewrite !fmap_app elem_of_app list_elem_of_singleton. set_solver.
    + by eapply arc_selected_snoc with (f := true).
  - destruct (first_candidate protected selected (t2 p)) as [kb|] eqn:E2; [|done]. apply IH in E as [? ->].
    + split; [done|]. rewrite length_app. cbn. lia.
    + intros k. rewrite !fmap_app elem_of_app list_elem_of_singleton. set_solver.
    + by eapply arc_selected_snoc with (f := false).
Qed.

(** Where a victim of one list ends up. *)
Lemma arc_evict1_ok p kb (f : bool) :
  arc_wf p → kb ∈ (if f then t1 p else t2 p) →
  ∃ p', arc_evict1 p (kb, f) = Ok p' ∧ arc_wf p' ∧ arc_items p ≡ₚ kb :: arc_items p' ∧
    cache_capacity p' = cache_capacity p ∧ target_t1_size p' = target_t1_size p ∧
    ((if f then t1 p else t2 p) ≡ₚ kb :: if f then t1 p' else t2 p') ∧
    (if f then t2 p' = t2 p else t1 p' = t1 p).
Proof.
  intros Hw Hin. destruct kb as [k b]. unfold arc_evict1, arc_items. destruct f; apply elem_of_Permutation in Hin as [d Hd].
  - destruct (od_del_perm (t1 p) k b d (arc_wf_t1 p Hw) Hd) as (d1 & -> & HP). cbn [mbind res_bind].
    eexists. split; [done|]. cbn [t1 t2 cache_capacity target_t1_size]. split_and!; [|by rewrite Hd HP|done|done|by rewrite HP|done].
    assert (k ∉ (b1 p).*1) as Hb. { apply (arc_moved_fresh p k Hw). left. rewrite Hd. left. }
    arc_count. rewrite od_set_fresh // fmap_app zcount_app HP. rewrite Hd fmap_cons zcount_cons in Hw.
    cbn [fmap list_fmap fst]. rewrite zcount_cons zcount_nil. cbn [fst] in Hw. lia.
  - destruct (od_del_perm (t2 p) k b d (arc_wf_t2 p Hw) Hd) as (d1 & -> & HP). cbn [mbind res_bind].
    eexists. split; [done|]. cbn [t1 t2 cache_capacity target_t1_size].
    split_and!; [|by rewrite Hd HP Permutation_middle|done|done|by rewrite HP|done].
    assert (k ∉ (b2 p).*1) as Hb. { apply (arc_moved_fresh p k Hw). right. rewrite Hd. left. }
    arc_count. rewrite od_set_fresh // fmap_app zcount_app HP. rewrite Hd fmap_cons zcount_cons in Hw.
    cbn [fmap list_fmap fst]. rewrite zcount_cons zcount_nil. cbn [fst] in Hw. lia.
Qed.

Lemma arc_evict_all_ok p protected cs :
  arc_wf p → arc_selected p protected cs →
  ∃ p', foldM arc_evict1 p cs = Ok p' ∧ arc_wf p' ∧ arc_items p ≡ₚ cs.*1 ++ arc_items p' ∧
    cache_capacity p' = cache_capacity p ∧ target_t1_size p' = target_t1_size p.
Proof.
  revert p. induction cs as [|[kb f] cs IH]; intros p Hw [Hnd Hall]; [by exists p|].
  apply NoDup_cons in Hnd as [Hk Hnd]. apply Forall_cons in Hall as [[He Hin] Hall]. cbn [fst snd] in *.
  destruct (arc_evict1_ok p kb f Hw Hin) as (p1 & E & Hw1 & HP1 & Hc1 & Ht1 & Hl & Ho).
  destruct (IH p1 Hw1) as (p2 & E2 & Hw2 & HP2 & Hc2 & Ht2).
  - split; [done|]. apply Forall_forall. intros [kb' f'] Hin'. rewrite Forall_forall in Hall.
    destruct (Hall _ Hin') as [He' Hm]. split; [done|]. cbn [fst snd] in *.
    assert (kb' ≠ kb) as Hne. { intros ->. apply Hk. apply list_elem_of_fmap. exists kb. split; [done|]. apply list_elem_of_fmap. by exists (kb, f'). }
    destruct f, f'; rewrite ?Ho //; rewrite Hl elem_of_cons in Hm; naive_solver.
  - exists p2. cbn [foldM]. rewrite E. cbn [mbind res_bind]. split_and!; [done|done| |congruence..].
    by rewrite HP1 HP2.
Qed.

Lemma trim_ghost_ok n g : (n ≤ length g)%nat → trim_ghost n g = Ok (drop n g).
Proof. revert g. induction n as [|n IH]; intros [|x g]; cbn; [done..|lia|]. intros ?. apply IH. lia. Qed.

Lemma zcount_drop {A} `{EqDecision A} (x : A) n l : zcount x (drop n l) ≤ zcount x l.
Proof. rewrite -{2}(take_drop n l) zcount_app. pose proof (zcount_nonneg x (take n l)). lia. Qed.

Lemma arc_evict_ok p n protected : arc_wf p → 0 ≤ n → ∃ o, arc_evict p n protected = Ok o ∧
  ∀ evicted p', o = Some (evicted, p') →
    arc_wf p' ∧ arc_items p ≡ₚ evicted ++ arc_items p' ∧ zlen evicted = n ∧ Forall (evictable protected) evicted.
Proof.
  intros Hw Hn. unfold arc_evict. goal_bool as E.
  { subst n. eexists. split; [done|]. intros ? ? [= <- <-]. by split_and!. }
  destruct (arc_select _ _ _ _ _ _) as [cs|] eqn:Es; [|by exists None].
  apply arc_select_ok in Es as [Hs Hlen]; [|by intros ? ?%not_elem_of_nil|by split; constructor].
  destruct (arc_evict_all_ok p protected cs Hw Hs) as (p1 & -> & Hw1 & HP & Hc & _). cbn [mbind res_bind].
  assert (0 ≤ cache_capacity p1) as Hcap by apply Hw1.
  rewrite !trim_ghost_ok; [|unfold zlen; lia..]. cbn [mbind res_bind]. eexists. split; [done|].
  intros ? ? [= <- <-]. unfold arc_items. cbn [t1 t2]. split_and!.
  - arc_count. rewrite !fmap_drop.
    pose proof (zcount_drop key (Z.to_nat (zlen (b1 p1) - cache_capacity p1)) (b1 p1).*1).
    pose proof (zcount_drop key (Z.to_nat (zlen (b2 p1) - cache_capacity p1)) (b2 p1).*1). lia.
  - exact HP.
  - unfold zlen. rewrite length_fmap Hlen /=. lia.
  - destruct Hs as [_ Hall]. apply Forall_fmap. eapply Forall_impl; [exact Hall|]. by intros ? [? _].
Qed.

#[export] Program Instance ARC_laws : CachePolicyLaws ARCCachePolicy := {|
  cp_wf := arc_wf;
  cp_items := arc_items
|}.
Next Obligation. apply arc_wf_items. Qed.
Next Obligation. intros cap ?. split; [|done]. split; [constructor|done]. Qed.
Next Obligation. intros. apply arc_get_ok. Qed.
Next Obligation. apply arc_insert_ok. Qed.
Next Obligation. apply arc_assign_ok. Qed.
Next Obligation. apply arc_remove_ok. Qed.
Next Obligation. apply arc_touch_ok. Qed.
Next Obligation. apply arc_evict_ok. Qed.

(** ** What LRU evicts *)

Lemma foldM_od_del (d ev : blocks_dict) :
  NoDup d.*1 → NoDup ev.*1 → (∀ k, k ∈ ev.*1 → k ∈ d.*1) →
  foldM (λ d (kb : OffloadKey * BlockStatus), od_del d kb.1) d ev =
  Ok (filter (λ kb : OffloadKey * BlockStatus, kb.1 ∉ ev.*1) d).
Proof.
  revert d. induction ev as [|[k b] ev IH]; intros d Hnd Hev Hin; cbn [foldM fst].
  { rewrite filter_all //. intros kb _. apply not_elem_of_nil. }
  apply NoDup_cons in Hev as [Hk Hev]. rewrite od_del_filter //; [|apply Hin; left]. cbn [mbind res_bind].
  rewrite IH //; [|by apply NoDup_filter_keys|].
  - f_equal. rewrite list_filter_filter. apply list_filter_iff. intros [k' b']. rewrite fmap_cons not_elem_of_cons. cbn. tauto.
  - intros k' Hk'. assert (k' ∈ d.*1) as Hd by (apply Hin; by right). apply list_elem_of_fmap in Hd as (kb & -> & Hd).
    apply list_elem_of_fmap. exists kb. split; [done|]. apply list_elem_of_filter. split; [|done]. by intros <-.
Qed.

(** LRU eviction takes the [n] oldest blocks that no transfer uses and the call
    does not protect, in their order, and leaves the order of the others; it refuses,
    changing nothing, exactly when there are fewer than [n] of them. *)
Theorem lru_evicts_oldest p n protected :
  NoDup (lru_blocks p).*1 → 0 ≤ n →
  let victims := filter (evictable protected) (lru_blocks p) in
  let taken := take (Z.to_nat n) victims in
  lru_evict p n protected =
  Ok (if bool_decide (zlen victims < n) then None
      else Some (taken, mkLRU (filter (λ kb : OffloadKey * BlockStatus, kb.1 ∉ taken.*1) (lru_blocks p)))).
Proof.
  intros Hnd Hn victims taken. unfold lru_evict. destruct (decide (n = 0)) as [->|Hn0].
  - rewrite (bool_decide_true (0 = 0)) // bool_decide_false; [|pose proof (zlen_nonneg victims); lia].
    unfold taken. cbn. rewrite filter_all; [by destruct p|]. intros kb _. apply not_elem_of_nil.
  - rewrite (bool_decide_false (n = 0)) // lru_candidates_spec; [|rewrite /zlen /=; lia]. cbn [app]. rewrite Z.sub_0_r.
    fold victims taken. assert (zlen taken = Z.min n (zlen victims)) as El by by apply zlen_take.
    destruct (decide (zlen victims < n)) as [Hv|Hv]; [by rewrite !bool_decide_true; [|lia..]|].
    rewrite !bool_decide_false; [|lia..]. rewrite foldM_od_del //.
    + eapply sublist_NoDup; [exact Hnd|]. apply fmap_sublist. etrans; [apply sublist_take|apply sublist_filter].
    + intros k (kb & -> & Hkb)%list_elem_of_fmap. apply list_elem_of_fmap. exists kb. split; [done|].
      apply elem_of_take in Hkb as (i & Hkb & _). apply list_elem_of_lookup_2, list_elem_of_filter in Hkb. tauto.
Qed.

(** ** What a touch does to the LRU order *)

Lemma lru_touch_loop (d : blocks_dict) l : NoDup d.*1 → NoDup l →
  foldM (λ d key, if od_mem d key then od_move_to_end d key else Ok d) d l =
  Ok (filter (λ kb : OffloadKey * BlockStatus, kb.1 ∉ l) d ++ omap (λ k, pair k <$> od_get d k) l).
Proof.
  revert d. induction l as [|k l IH]; intros d Hnd Hl; cbn [foldM].
  { rewrite app_nil_r filter_all //. intros kb _. apply not_elem_of_nil. }
  apply NoDup_cons in Hl as [Hk Hl]. unfold od_mem. cbn [omap list_omap]. destruct (od_get d k) as [b|] eqn:Hg; cbn [is_some fmap option_fmap option_map].
  - rewrite (od_move_to_end_filter _ _ _ Hnd Hg). cbn [mbind res_bind]. rewrite IH //.
    + f_equal. rewrite filter_app filter_cons_True // filter_nil -app_assoc list_filter_filter. cbn [app]. f_equal.
      * apply list_filter_iff. intros [k' b']. cbn. rewrite not_elem_of_cons. tauto.
      * f_equal. apply list_omap_ext, Forall2_same_length_lookup_2; [done|]. intros i x y Ex Ey. simplify_eq.
        assert (x ≠ k) as Hne. { intros ->. apply Hk, list_elem_of_lookup. by exists i. }
        f_equal. rewrite od_get_app od_get_cons. case_decide; [congruence|]. 
        rewrite od_get_filter_ne //. by destruct (od_get d x).
    + rewrite fmap_app. apply NoDup_app. split_and!; [by apply NoDup_filter_keys| |apply NoDup_singleton].
      intros k' (kb & -> & [Hne _]%list_elem_of_filter)%list_elem_of_fmap Hin%list_elem_of_singleton. by apply Hne.
  - cbn [mbind res_bind]. rewrite IH //. do 2 f_equal. apply list_filter_iff_elem. intros [k' b'] Hin. cbn.
    rewrite not_elem_of_cons. split; [|tauto]. intros ?. split; [|done]. intros ->. apply od_get_None in Hg.
    apply Hg, list_elem_of_fmap. by exists (k, b').
Qed.

(** A touch moves the touched blocks that are held to the recent end, the first
    key of the call last, and leaves the order of the others; so of the blocks of a
    prefix the tail is evicted before the head. *)
Theorem lru_touch_order p ks :
  NoDup (lru_blocks p).*1 → NoDup ks →
  lru_touch p ks = Ok (mkLRU (filter (λ kb : OffloadKey * BlockStatus, kb.1 ∉ ks) (lru_blocks p) ++
    omap (λ k, pair k <$> od_get (lru_blocks p) k) (reverse ks))).
Proof.
  intros Hnd Hks. unfold lru_touch. rewrite lru_touch_loop //; [|by rewrite reverse_Permutation]. cbn [mbind res_bind].
  do 3 f_equal. apply list_filter_iff. intros kb. by rewrite elem_of_reverse.
Qed.

(** ** The lists of ARC *)

Definition arc_bounded (p : ARCCachePolicy) : Prop :=
  zlen (b1 p) ≤ cache_capacity p ∧ zlen (b2 p) ≤ cache_capacity p.

(** The states a policy of capacity [cap] reaches: blocks are inserted under keys it
    does not hold, and removed or written under keys it holds. *)
Inductive arc_reach (cap : Z) : ARCCachePolicy → Prop :=
  | arc_reach_init : arc_reach cap (arc_init cap)
  | arc_reach_insert p k b : arc_reach cap p → arc_get p k = None → arc_reach cap (arc_insert p k b)
  | arc_reach_assign p k b : arc_reach cap p → arc_get p k ≠ None → arc_reach cap (arc_assign p k b)
  | arc_reach_remove p k p' : arc_reach cap p → arc_get p k ≠ None → arc_remove p k = Ok p' → arc_reach cap p'
  | arc_reach_touch p ks p' : arc_reach cap p → arc_touch p ks = Ok p' → arc_reach cap p'
  | arc_reach_evict p n protected ev p' :
      arc_reach cap p → 0 ≤ n → arc_evict p n protected = Ok (Some (ev, p')) → arc_reach cap p'.

Lemma arc_touch1_ghosts p k p' : arc_touch1 p k = Ok p' →
  cache_capacity p' = cache_capacity p ∧ zlen (b1 p') = zlen (b1 p) ∧ zlen (b2 p') = zlen (b2 p).
Proof.
  unfold arc_touch1. destruct (od_mem (t1 p) k).
  { destruct (od_pop (t1 p) k) as [[b d]|]; [|done]. cbn [mbind res_bind]. destruct (negb (is_ready b)); by intros [= <-]. }
  destruct (od_mem (t2 p) k).
  { destruct (od_move_to_end (t2 p) k); [|done]. by intros [= <-]. }
  destruct (od_mem (b1 p) k).
  { destruct (od_move_to_end (b1 p) k) as [d|] eqn:E; [|done]. apply zlen_move_to_end in E. by intros [= <-]. }
  destruct (od_mem (b2 p) k); [|by intros [= <-]].
  destruct (od_move_to_end (b2 p) k) as [d|] eqn:E; [|done]. apply zlen_move_to_end in E. by intros [= <-].
Qed.

Lemma arc_touch_ghosts p ks p' : arc_touch p ks = Ok p' →
  cache_capacity p' = cache_capacity p ∧ zlen (b1 p') = zlen (b1 p) ∧ zlen (b2 p') = zlen (b2 p).
Proof.
  unfold arc_touch. revert p. induction (reverse ks) as [|k l IH]; intros p; cbn [foldM]; [by intros [= <-]|].
  destruct (arc_touch1 p k) as [p1|] eqn:E; [|done]. cbn [mbind res_bind]. intros H%IH. apply arc_touch1_ghosts in E. lia.
Qed.

Lemma arc_evict_ghosts p n protected ev p' : arc_wf p → arc_bounded p → 0 ≤ n →
  arc_evict p n protected = Ok (Some (ev, p')) → cache_capacity p' = cache_capacity p ∧ arc_bounded p'.
Proof.
  intros Hw Hb Hn. unfold arc_evict. goal_bool as E; [by intros [= _ <-]|].
  destruct (arc_select _ _ _ _ _ _) as [cs|] eqn:Es; [|done].
  apply arc_select_ok in Es as [Hs _]; [|by intros ? ?%not_elem_of_nil|by split; constructor].
  destruct (arc_evict_all_ok p protected cs Hw Hs) as (p1 & -> & Hw1 & _ & Hc & _). cbn [mbind res_bind].
  assert (0 ≤ cache_capacity p1) as Hcap by apply Hw1.
  rewrite !trim_ghost_ok; [|unfold zlen; lia..]. cbn [mbind res_bind]. intros [= _ <-]. split; [done|].
  unfold arc_bounded. cbn [b1 b2 cache_capacity]. unfold zlen. rewrite !length_drop. lia.
Qed.

Lemma arc_present p k : arc_wf p → arc_get p k ≠ None → ∃ b l, arc_items p ≡ₚ (k, b) :: l.
Proof.
  intros Hw Hg. destruct (arc_get p k) as [b|] eqn:E; [|done]. rewrite arc_get_ok in E.
  destruct (od_get_split _ _ _ (arc_wf_items p Hw) E) as (l & HP & _). by exists b, l.
Qed.

(** C37: whatever sequence of operations an ARC policy runs, no key is in two of its
    four lists or twice in one, and neither ghost list outgrows the capacity. *)
Theorem arc_lists_disjoint cap p :
  0 ≤ cap → arc_reach cap p →
  NoDup (arc_keys p) ∧ zlen (b1 p) ≤ cap ∧ zlen (b2 p) ≤ cap.
Proof.
  intros Hcap Hr. assert (arc_wf p ∧ arc_bounded p ∧ cache_capacity p = cap) as ([Hw _] & [H1 H2] & <-); [|done].
  induction Hr as [|p k b _ (Hw & [H1 H2] & Hc) Hg|p k b _ (Hw & Hb & Hc) Hg|p k p' _ (Hw & Hb & Hc) Hg E
    |p ks p' _ (Hw & [H1 H2] & Hc) E|p n protected ev p' _ (Hw & Hb & Hc) Hn E].
  - split; [by split; [constructor|]|]. by split.
  - split; [by apply arc_insert_ok|]. split; [|done]. unfold arc_bounded, arc_insert. cbn [b1 b2 cache_capacity].
    pose proof (zlen_pop_default (b1 p) k). pose proof (zlen_pop_default (b2 p) k). lia.
  - destruct (arc_present p k Hw Hg) as (b' & l & HP). split; [by eapply arc_assign_ok|].
    unfold arc_assign, arc_bounded. by destruct (od_mem _ _).
  - destruct (arc_present p k Hw Hg) as (b' & l & HP). destruct (arc_remove_ok p k b' l Hw HP) as (p1 & E1 & Hw1 & _).
    rewrite E in E1. injection E1 as <-. split; [done|]. unfold arc_remove in E.
    destruct (od_pop_default (t1 p) k) as [[b0|] d]; injection E as <-; done.
  - destruct (arc_touch_ok p ks Hw) as (p1 & E1 & Hw1 & _). rewrite E in E1. injection E1 as <-.
    apply arc_touch_ghosts in E as (Ec & E1 & E2). unfold arc_bounded. by rewrite E1 E2 Ec.
  - destruct (arc_evict_ok p n protected Hw Hn) as (o & E1 & Ho). rewrite E in E1. injection E1 as <-.
    destruct (arc_evict_ghosts p n protected ev p' Hw Hb Hn E) as [Ec Hb']. split; [by eapply Ho|]. split; [done|congruence].
Qed.
