(* ===== verification/OffloadManager.v ===== *)
(** * The KV offloading managers

    [src/vllm/v1/kv_offload/cpu/manager.py] ([CPUOffloadingManager]) over any cache
    policy, and the decorator of [src/vllm/v1/kv_offload/reuse_manager.py]
    ([FilterReusedOffloadingManager]) over any manager.  A [CPULoadStoreSpec] is the
    list of its block numbers.  The request context is not read by these managers and
    is left out; the policy is chosen by the instance of [CachePolicy]. *)

From S2P Require Import Prelude PyFloat OrderedDict BlockHash OffloadPolicy.

(** [l.pop()]. *)
Definition py_pop {A} (l : list A) : res (A * list A) :=
  match last l with Some x => Ok (x, py_init l) | None => Raise IndexError end.

Record OffloadingEvent := mkOffloadingEvent {
  oe_keys : list OffloadKey;
  oe_medium : string;
  oe_removed : bool
}.

Record PrepareStoreOutput := mkPrepareStoreOutput {
  keys_to_store : list OffloadKey;
  store_spec : list Z;
  evicted_keys : list OffloadKey
}.

(** ** The interface *)

Class OffloadingManager (M : Type) := {
  om_lookup : M → OffloadKey → res (M * option bool);
  om_prepare_load : M → list OffloadKey → res (M * list Z);
  om_touch : M → list OffloadKey → res M;
  om_complete_load : M → list OffloadKey → res M;
  om_prepare_store : M → list OffloadKey → res (M * option PrepareStoreOutput);
  om_complete_store : M → list OffloadKey → bool → res M;
  om_take_events : M → M * list OffloadingEvent
}.

(** ** [CPUOffloadingManager] *)

Record CPUOffloadingManager (P : Type) := mkCPU {
  medium : string;
  cm_num_blocks : Z;
  num_allocated_blocks : Z;
  free_list : list Z;
  events : option (list OffloadingEvent);
  policy : P
}.
Arguments mkCPU {_}.
Arguments medium {_}.
Arguments cm_num_blocks {_}.
Arguments num_allocated_blocks {_}.
Arguments free_list {_}.
Arguments events {_}.
Arguments policy {_}.

Section Manager.
Context {P : Type} `{CachePolicy P}.
Implicit Types m : CPUOffloadingManager P.

Definition set_policy m (p : P) : CPUOffloadingManager P :=
  mkCPU (medium m) (cm_num_blocks m) (num_allocated_blocks m) (free_list m) (events m) p.
Definition set_free_list m (l : list Z) : CPUOffloadingManager P :=
  mkCPU (medium m) (cm_num_blocks m) (num_allocated_blocks m) l (events m) (policy m).
Definition set_num_allocated m (n : Z) : CPUOffloadingManager P :=
  mkCPU (medium m) (cm_num_blocks m) n (free_list m) (events m) (policy m).
Definition set_events m (e : option (list OffloadingEvent)) : CPUOffloadingManager P :=
  mkCPU (medium m) (cm_num_blocks m) (num_allocated_blocks m) (free_list m) e (policy m).

Definition CPUOffloadingManager_init (num_blocks : Z) (enable_events : bool) : CPUOffloadingManager P :=
  mkCPU "CPU" num_blocks 0 [] (if enable_events then Some [] else None) (cp_init num_blocks).

Definition _get_num_free_blocks m : Z :=
  zlen (free_list m) + cm_num_blocks m - num_allocated_blocks m.

(** The two loops of [_allocate_blocks]. *)
Fixpoint allocate_fresh (n : nat) m (blocks : list BlockStatus) : CPUOffloadingManager P * list BlockStatus :=
  match n with
  | O => (m, blocks)
  | S n =>
      let b := BlockStatus_init (num_allocated_blocks m) in
      allocate_fresh n (set_num_allocated m (num_allocated_blocks m + 1)) (blocks ++ [b])
  end.

Fixpoint allocate_reused (n : nat) m (blocks : list BlockStatus)
    : res (CPUOffloadingManager P * list BlockStatus) :=
  match n with
  | O => Ok (m, blocks)
  | S n =>
      '(id, l) ← py_pop (free_list m);
      allocate_reused n (set_free_list m l) (blocks ++ [BlockStatus_init id])
  end.

Definition _allocate_blocks m (keys : list OffloadKey) : res (CPUOffloadingManager P * list BlockStatus) :=
  let num_fresh := Z.min (zlen keys) (cm_num_blocks m - num_allocated_blocks m) in
  let num_reused := zlen keys - num_fresh in
  _ ← py_assert (bool_decide (num_reused ≤ zlen (free_list m)));
  let '(m, blocks) := allocate_fresh (Z.to_nat num_fresh) m [] in
  allocate_reused (Z.to_nat num_reused) m blocks.

Definition _free_block m (block : BlockStatus) : CPUOffloadingManager P :=
  set_free_list m (free_list m ++ [block_id block]).

(** [if keys and self.events is not None: self.events.append(...)]. *)
Definition emit m (keys : list OffloadKey) (removed : bool) : CPUOffloadingManager P :=
  match keys, events m with
  | _ :: _, Some es => set_events m (Some (es ++ [mkOffloadingEvent keys (medium m) removed]))
  | _, _ => m
  end.

Definition cm_lookup m (key : OffloadKey) : option bool :=
  match cp_get (policy m) key with
  | None => Some false
  | Some block => if is_ready block then Some true else None
  end.

Definition prepare_load1 (acc : CPUOffloadingManager P * list Z) (key : OffloadKey)
    : res (CPUOffloadingManager P * list Z) :=
  let '(m, ids) := acc in
  match cp_get (policy m) key with
  | None => Raise AssertionError
  | Some block =>
      _ ← py_assert (is_ready block);
      Ok (set_policy m (cp_assign (policy m) key (set_ref_cnt block (ref_cnt block + 1))), ids ++ [block_id block])
  end.

Definition cm_prepare_load m (keys : list OffloadKey) : res (CPUOffloadingManager P * list Z) :=
  foldM prepare_load1 (m, []) keys.

Definition cm_touch m (keys : list OffloadKey) : res (CPUOffloadingManager P) :=
  p ← cp_touch (policy m) keys; Ok (set_policy m p).

Definition complete_load1 m (key : OffloadKey) : res (CPUOffloadingManager P) :=
  match cp_get (policy m) key with
  | None => Raise AssertionError
  | Some block =>
      _ ← py_assert (bool_decide (0 < ref_cnt block));
      Ok (set_policy m (cp_assign (policy m) key (set_ref_cnt block (ref_cnt block - 1))))
  end.

Definition cm_complete_load m (keys : list OffloadKey) : res (CPUOffloadingManager P) :=
  foldM complete_load1 m keys.

Definition cm_prepare_store m (keys : list OffloadKey)
    : res (CPUOffloadingManager P * option PrepareStoreOutput) :=
  let keys_to_store := filter (λ k, cp_get (policy m) k = None) keys in
  if is_nil keys_to_store then Ok (m, Some (mkPrepareStoreOutput [] [] []))
  else
    let num_blocks_to_evict := zlen keys_to_store - _get_num_free_blocks m in
    evicted ←
      (if bool_decide (0 < num_blocks_to_evict) then
         o ← cp_evict (policy m) num_blocks_to_evict (list_to_set keys);
         match o with
         | None => Ok None
         | Some (evicted, p) =>
             Ok (Some (foldl (λ m (kb : OffloadKey * BlockStatus), _free_block m kb.2) (set_policy m p) evicted, evicted.*1))
         end
       else Ok (Some (m, [])));
    match evicted with
    | None => Ok (m, None)
    | Some (m, to_evict) =>
        let m := emit m to_evict true in
        '(m, blocks) ← _allocate_blocks m keys_to_store;
        _ ← py_assert (bool_decide (zlen blocks = zlen keys_to_store));
        let p := foldl (λ p (kb : OffloadKey * BlockStatus), cp_insert p kb.1 kb.2) (policy m) (zip keys_to_store blocks) in
        Ok (set_policy m p, Some (mkPrepareStoreOutput keys_to_store (block_id <$> blocks) to_evict))
    end.

Definition complete_store_ok1 (acc : CPUOffloadingManager P * list OffloadKey) (key : OffloadKey)
    : CPUOffloadingManager P * list OffloadKey :=
  let '(m, stored_keys) := acc in
  match cp_get (policy m) key with
  | Some block =>
      if negb (is_ready block)
      then (set_policy m (cp_assign (policy m) key (set_ref_cnt block 0)), stored_keys ++ [key])
      else (m, stored_keys)
  | None => (m, stored_keys)
  end.

Definition complete_store_failed1 m (key : OffloadKey) : res (CPUOffloadingManager P) :=
  match cp_get (policy m) key with
  | Some block =>
      if negb (is_ready block) then
        p ← cp_remove (policy m) key;
        Ok (_free_block (set_policy m p) block)
      else Ok m
  | None => Ok m
  end.

Definition cm_complete_store m (keys : list OffloadKey) (success : bool) : res (CPUOffloadingManager P) :=
  '(m, stored_keys) ←
    (if success then Ok (foldl complete_store_ok1 (m, []) keys)
     else m ← foldM complete_store_failed1 m keys; Ok (m, []));
  Ok (emit m stored_keys false).

Definition cm_take_events m : CPUOffloadingManager P * list OffloadingEvent :=
  match events m with
  | Some es => (set_events m (Some []), es)
  | None => (m, [])
  end.

#[export] Instance CPU_manager : OffloadingManager (CPUOffloadingManager P) := {|
  om_lookup m k := Ok (m, cm_lookup m k);
  om_prepare_load := cm_prepare_load;
  om_touch := cm_touch;
  om_complete_load := cm_complete_load;
  om_prepare_store := cm_prepare_store;
  om_complete_store := cm_complete_store;
  om_take_events := cm_take_events
|}.
End Manager.

(** ** [FilterReusedOffloadingManager] *)

Record FilterReused (M : Type) := mkFilterReused {
  backing : M;
  store_threshold : Z;
  max_tracker_size : Z;
  counts : list (OffloadKey * Z)
}.
Arguments mkFilterReused {_}.
Arguments backing {_}.
Arguments store_threshold {_}.
Arguments max_tracker_size {_}.
Arguments counts {_}.

Section Filter.
Context {M : Type} `{OffloadingManager M}.
Implicit Types f : FilterReused M.

Definition FilterReused_init (backing : M) (store_threshold max_tracker_size : Z) : res (FilterReused M) :=
  if bool_decide (store_threshold < 2) then Raise ValueError
  else if bool_decide (max_tracker_size < 1) then Raise ValueError
  else Ok (mkFilterReused backing store_threshold max_tracker_size []).

Definition set_backing f (m : M) : FilterReused M :=
  mkFilterReused m (store_threshold f) (max_tracker_size f) (counts f).

(** The counting part of [lookup]. *)
Definition record_key f (key : OffloadKey) : res (list (OffloadKey * Z)) :=
  if od_mem (counts f) key then
    d ← od_move_to_end (counts f) key;
    n ← od_lookup d key;
    Ok (od_set d key (n + 1))
  else
    d ← (if bool_decide (max_tracker_size f ≤ zlen (counts f))
         then '(_, d) ← od_popitem_first (counts f); Ok d else Ok (counts f));
    Ok (od_set d key 1).

Definition fm_lookup f (key : OffloadKey) : res (FilterReused M * option bool) :=
  d ← record_key f key;
  '(m, r) ← om_lookup (backing f) key;
  Ok (mkFilterReused m (store_threshold f) (max_tracker_size f) d, r).

Definition eligible f (keys : list OffloadKey) : list OffloadKey :=
  filter (λ key, store_threshold f ≤ default 0 (od_get (counts f) key)) keys.

Definition fm_prepare_store f (keys : list OffloadKey) : res (FilterReused M * option PrepareStoreOutput) :=
  '(m, o) ← om_prepare_store (backing f) (eligible f keys);
  Ok (set_backing f m, o).

Definition fm_prepare_load f (keys : list OffloadKey) : res (FilterReused M * list Z) :=
  '(m, ids) ← om_prepare_load (backing f) keys; Ok (set_backing f m, ids).

Definition fm_touch f (keys : list OffloadKey) : res (FilterReused M) :=
  m ← om_touch (backing f) keys; Ok (set_backing f m).

Definition fm_complete_load f (keys : list OffloadKey) : res (FilterReused M) :=
  m ← om_complete_load (backing f) keys; Ok (set_backing f m).

Definition fm_complete_store f (keys : list OffloadKey) (success : bool) : res (FilterReused M) :=
  m ← om_complete_store (backing f) keys success; Ok (set_backing f m).

Definition fm_take_events f : FilterReused M * list OffloadingEvent :=
  let '(m, es) := om_take_events (backing f) in (set_backing f m, es).

#[export] Instance Filter_manager : OffloadingManager (FilterReused M) := {|
  om_lookup := fm_lookup;
  om_prepare_load := fm_prepare_load;
  om_touch := fm_touch;
  om_complete_load := fm_complete_load;
  om_prepare_store := fm_prepare_store;
  om_complete_store := fm_complete_store;
  om_take_events := fm_take_events
|}.
End Filter.
