(* ===== verification/OffloadSpec.v ===== *)
(** * Safety of KV offloading

    The states the CPU offloading manager reaches under its callers' obligations,
    with the transfers in flight as ghost state: every call returns, the block
    numbers in use and the free ones partition the allocated range, reference counts
    are the loads in flight, and a block that is being read or written keeps its
    place.  The theorems hold for every policy that satisfies [CachePolicyLaws]. *)

From S2P Require Import Prelude PyFloat OrderedDict BlockHash OffloadPolicy OffloadManager.

Lemma c_int_id w z : 0 < w → - 2 ^ (w - 1) ≤ z < 2 ^ (w - 1) → c_int w z = z.
Proof.
  intros Hw Hz. unfold c_int. assert (2 ^ w = 2 * 2 ^ (w - 1)) as E.
  { rewrite -Z.pow_succ_r; [|lia]. f_equal. lia. }
  rewrite Z.mod_small; lia.
Qed.

Lemma zcount_le_zlen {A} `{EqDecision A} (x : A) l : zcount x l ≤ zlen l.
Proof. unfold zcount, zlen. pose proof (length_filter (λ y, y = x) l). lia. Qed.

(** Two results of one call are the same. *)
Ltac same_call :=
  match goal with H1 : ?x = Ok _, H2 : ?x = Ok _ |- _ => rewrite H1 in H2; simplify_eq end.

Section Safety.
Context {P : Type} `{CP : CachePolicy P, !CachePolicyLaws P}.
Implicit Types (m : CPUOffloadingManager P) (loads stores : list OffloadKey).

(** The block number a key is stored at. *)
Definition slot m (k : OffloadKey) : option Z := block_id <$> cp_get (policy m) k.

Definition slots (d : blocks_dict) : list Z := (λ kb : OffloadKey * BlockStatus, block_id kb.2) <$> d.

Record OffOk m loads stores : Prop := {
  oo_wf : cp_wf (policy m);
  oo_ids : slots (cp_items (policy m)) ++ free_list m ≡ₚ seqZ 0 (num_allocated_blocks m);
  oo_alloc : 0 ≤ num_allocated_blocks m ≤ cm_num_blocks m ∧ cm_num_blocks m < 2 ^ 63;
  oo_loads : ∀ k, k ∈ loads → (k ∈ (cp_items (policy m)).*1) ∧ k ∉ stores;
  oo_stores : ∀ k, k ∈ stores → k ∈ (cp_items (policy m)).*1;
  oo_refs : ∀ k b, (k, b) ∈ cp_items (policy m) →
    ref_cnt b = if decide (k ∈ stores) then -1 else zcount k loads;
  oo_bound : zlen loads < 2 ^ 31
}.

Lemma offok_get m loads stores k b :
  OffOk m loads stores → cp_get (policy m) k = Some b ↔ (k, b) ∈ cp_items (policy m).
Proof.
  intros Hok. rewrite cp_get_ok; [|apply Hok]. split; [apply od_get_Some|].
  apply od_get_elem, cp_items_nodup, Hok.
Qed.

Lemma offok_get_None m loads stores k :
  OffOk m loads stores → cp_get (policy m) k = None ↔ k ∉ (cp_items (policy m)).*1.
Proof. intros Hok. rewrite cp_get_ok; [|apply Hok]. apply od_get_None. Qed.

(** Ready, by the transfers in flight. *)
Lemma offok_ready m loads stores k b :
  OffOk m loads stores → cp_get (policy m) k = Some b → is_ready b = bool_decide (k ∉ stores).
Proof.
  intros Hok Hg. apply (offok_get _ _ _ _ _ Hok) in Hg. unfold is_ready. rewrite (oo_refs _ _ _ Hok _ _ Hg).
  case_decide; [by rewrite !bool_decide_false; [|tauto|lia]|].
  rewrite !bool_decide_true //. apply zcount_nonneg.
Qed.

(** The block of a key can be replaced by one with the same number. *)
Lemma assign_slot m loads stores k b n m' :
  OffOk m loads stores → cp_get (policy m) k = Some b →
  m' = set_policy m (cp_assign (policy m) k (set_ref_cnt b n)) →
  cp_wf (policy m') ∧
  (∃ l, cp_items (policy m) ≡ₚ (k, b) :: l ∧ cp_items (policy m') ≡ₚ (k, set_ref_cnt b n) :: l ∧ k ∉ l.*1) ∧
  slots (cp_items (policy m')) ≡ₚ slots (cp_items (policy m)) ∧
  (cp_items (policy m')).*1 ≡ₚ (cp_items (policy m)).*1 ∧
  ∀ k', cp_get (policy m') k' = if decide (k' = k) then Some (set_ref_cnt b n) else cp_get (policy m) k'.
Proof.
  intros Hok Hg ->. pose proof (oo_wf _ _ _ Hok) as Hw. pose proof (cp_items_nodup _ Hw) as Hnd.
  rewrite cp_get_ok in Hg; [|done]. destruct (od_get_split _ _ _ Hnd Hg) as (l & HP & Hk).
  destruct (cp_assign_ok _ k b (set_ref_cnt b n) l Hw HP) as [Hw' HP']. cbn [policy set_policy].
  split_and!; [done|by exists l| | |].
  - unfold slots. by rewrite HP HP'.
  - by rewrite HP HP'.
  - intros k'. rewrite !cp_get_ok // (od_get_perm _ _ k' (cp_items_nodup _ Hw') HP') (od_get_perm _ _ k' Hnd HP).
    rewrite !od_get_cons. repeat case_decide; congruence.
Qed.

(** A write to one reference count that matches a change of the transfers of its key. *)
Lemma offok_assign m loads stores k b n m' loads' stores' :
  OffOk m loads stores → cp_get (policy m) k = Some b →
  m' = set_policy m (cp_assign (policy m) k (set_ref_cnt b n)) →
  (∀ k', k' ≠ k → zcount k' loads' = zcount k' loads ∧ (k' ∈ stores' ↔ k' ∈ stores)) →
  c_int 32 n = (if decide (k ∈ stores') then -1 else zcount k loads') →
  (k ∈ loads' → k ∉ stores') → zlen loads' < 2 ^ 31 →
  OffOk m' loads' stores' ∧ ∀ k', slot m' k' = slot m k'.
Proof.
  intros Hok Hg Hm' Ho Hn Hx Hb. destruct (assign_slot _ _ _ _ _ _ _ Hok Hg Hm') as (Hw & (l & HP & HP' & Hl) & Hs & Hk & Hget).
  destruct Hok as [_ Hi Ha Hld Hst Hr _]. split; [|intros k'; unfold slot; rewrite Hget; destruct (decide (k' = k)) as [->|]; [by rewrite Hg|done]].
  split; [done|subst m'; cbn in Hs |- *; by rewrite Hs|by subst m'| | | |done].
  - intros k' Hk'. rewrite Hk. destruct (decide (k' = k)) as [->|Hne].
    + split; [rewrite HP; left|by apply Hx].
    + destruct (Ho k' Hne) as [Hc Hs']. apply zcount_pos in Hk'. rewrite Hc in Hk'. apply zcount_pos in Hk'.
      rewrite Hs'. by apply Hld.
  - intros k' Hk'. rewrite Hk. destruct (decide (k' = k)) as [->|Hne]; [rewrite HP; left|]. by apply Hst, Ho.
  - intros k' b'. rewrite HP' elem_of_cons. intros [[= -> ->]|Hin]; [exact Hn|].
    assert (k' ≠ k) as Hne. { intros ->. apply Hl, list_elem_of_fmap. by exists (k, b'). }
    destruct (Ho k' Hne) as [-> Hs']. rewrite (Hr k' b'); [|rewrite HP; by right].
    destruct (decide (k' ∈ stores)), (decide (k' ∈ stores')); tauto.
Qed.

(** The state of a lookup is unchanged where the stores are. *)
Lemma offok_lookup m loads stores k :
  OffOk m loads stores →
  cm_lookup m k = match slot m k with None => Some false | Some _ => if bool_decide (k ∈ stores) then None else Some true end.
Proof.
  intros Hok. unfold cm_lookup, slot. destruct (cp_get (policy m) k) as [b|] eqn:Hg; [|done]. cbn.
  rewrite (offok_ready _ _ _ _ _ Hok Hg). by case_bool_decide; case_bool_decide.
Qed.

Lemma prepare_load1_spec m loads stores ids k :
  OffOk m loads stores → cm_lookup m k = Some true → zlen loads + 1 < 2 ^ 31 →
  ∃ m' i, prepare_load1 (m, ids) k = Ok (m', ids ++ [i]) ∧ slot m k = Some i ∧
    OffOk m' (k :: loads) stores ∧ ∀ k', slot m' k' = slot m k'.
Proof.
  intros Hok Hl Hb. pose proof Hl as Hl'. rewrite (offok_lookup _ _ _ _ Hok) in Hl. unfold cm_lookup in Hl'. unfold prepare_load1, slot in *.
  destruct (cp_get (policy m) k) as [b|] eqn:Hg; [|done]. cbn in Hl. case_bool_decide as Hs; [done|].
  destruct (is_ready b) eqn:Hr; [|done]. cbn [py_assert mbind res_bind].
  assert (ref_cnt b = zcount k loads) as E.
  { apply (offok_get _ _ _ _ _ Hok), (oo_refs _ _ _ Hok) in Hg. by case_decide. }
  pose proof (zcount_le_zlen k loads). pose proof (zcount_nonneg k loads).
  eexists _, (block_id b). split; [done|]. split; [done|].
  eapply offok_assign; [exact Hok|exact Hg|done| | | |].
  - intros k' Hne. split; [|done]. rewrite zcount_cons. case_decide; [congruence|lia].
  - rewrite decide_False // zcount_cons decide_True // c_int_id; lia.
  - done.
  - rewrite zlen_cons. lia.
Qed.

Lemma prepare_load_spec m loads stores ks ids :
  OffOk m loads stores → (∀ k, k ∈ ks → cm_lookup m k = Some true) → zlen loads + zlen ks < 2 ^ 31 →
  ∃ m' js, foldM prepare_load1 (m, ids) ks = Ok (m', ids ++ js) ∧ Some <$> js = slot m <$> ks ∧
    OffOk m' (reverse ks ++ loads) stores ∧ ∀ k', slot m' k' = slot m k'.
Proof.
  revert m loads ids. induction ks as [|k ks IH]; intros m loads ids Hok Hl Hb; cbn [foldM].
  { exists m, []. by rewrite app_nil_r. }
  rewrite zlen_cons in Hb. pose proof (zlen_nonneg ks).
  destruct (prepare_load1_spec m loads stores ids k Hok) as (m1 & i & -> & Hi & Hok1 & Hs1); [apply Hl; left|lia|].
  cbn [mbind res_bind]. destruct (IH m1 (k :: loads) (ids ++ [i]) Hok1) as (m2 & js & -> & His & Hok2 & Hs2).
  - intros k' Hk'. rewrite (offok_lookup _ _ _ _ Hok1) Hs1 -(offok_lookup _ _ _ _ Hok). apply Hl. by right.
  - rewrite zlen_cons. lia.
  - exists m2, (i :: js). rewrite -app_assoc. split_and!; [done| | |by intros k'; rewrite Hs2].
    + rewrite !fmap_cons Hi His. f_equal. apply list_fmap_ext. intros ?? _. apply Hs1.
    + by rewrite reverse_cons -app_assoc.
Qed.

Lemma complete_load1_spec m loads stores k :
  OffOk m (k :: loads) stores →
  ∃ m', complete_load1 m k = Ok m' ∧ OffOk m' loads stores ∧ ∀ k', slot m' k' = slot m k'.
Proof.
  intros Hok. destruct (oo_loads _ _ _ Hok k) as [Hin Hns]; [left|]. unfold complete_load1.
  destruct (cp_get (policy m) k) as [b|] eqn:Hg; [|by apply (offok_get_None _ _ _ _ Hok) in Hg].
  assert (ref_cnt b = 1 + zcount k loads) as E.
  { apply (offok_get _ _ _ _ _ Hok), (oo_refs _ _ _ Hok) in Hg. by rewrite decide_False // zcount_cons decide_True // in Hg. }
  pose proof (zcount_nonneg k loads). pose proof (zcount_le_zlen k loads). pose proof (oo_bound _ _ _ Hok) as Hb.
  rewrite zlen_cons in Hb. rewrite bool_decide_true; [|lia]. cbn [py_assert mbind res_bind]. eexists. split; [done|].
  eapply offok_assign; [exact Hok|exact Hg|done| | |done|lia].
  - intros k' Hne. split; [|done]. rewrite zcount_cons. case_decide; [congruence|lia].
  - case_decide; [done|]. rewrite c_int_id; lia.
Qed.

Lemma offok_perm m loads loads' stores stores' : loads ≡ₚ loads' → (∀ k, k ∈ stores ↔ k ∈ stores') →
  OffOk m loads stores → OffOk m loads' stores'.
Proof.
  intros HP Hs [? ? ? Hl Hst Hr Hb]. split; [done..| | | |by rewrite -HP].
  - intros k. rewrite -HP -Hs. apply Hl.
  - intros k. rewrite -Hs. apply Hst.
  - intros k b Hin. rewrite (Hr k b Hin) (zcount_Permutation k _ _ HP). specialize (Hs k).
    destruct (decide (k ∈ stores)), (decide (k ∈ stores')); tauto.
Qed.

Lemma complete_load_spec m loads stores ks :
  OffOk m (ks ++ loads) stores →
  ∃ m', cm_complete_load m ks = Ok m' ∧ OffOk m' loads stores ∧ ∀ k', slot m' k' = slot m k'.
Proof.
  unfold cm_complete_load. revert m. induction ks as [|k ks IH]; intros m Hok; cbn [foldM]; [by exists m|].
  destruct (complete_load1_spec m (ks ++ loads) stores k Hok) as (m1 & -> & Hok1 & Hs1). cbn [mbind res_bind].
  destruct (IH m1 Hok1) as (m2 & -> & Hok2 & Hs2). exists m2. split_and!; [done..|]. intros k'. by rewrite Hs2.
Qed.

(** A policy that holds the same items. *)
Lemma offok_items m loads stores p :
  OffOk m loads stores → cp_wf p → cp_items p ≡ₚ cp_items (policy m) →
  OffOk (set_policy m p) loads stores ∧ ∀ k, slot (set_policy m p) k = slot m k.
Proof.
  intros [Hw Hi Ha Hl Hs Hr Hb] Hw' HP. split.
  - split; cbn [policy set_policy free_list num_allocated_blocks cm_num_blocks]; [done|unfold slots in *; by rewrite HP|done| | | |done].
    + intros k. rewrite HP. apply Hl.
    + intros k. rewrite HP. apply Hs.
    + intros k b. rewrite HP. apply Hr.
  - intros k. unfold slot. cbn [policy set_policy]. rewrite !cp_get_ok //. f_equal. by apply od_get_perm; [apply cp_items_nodup|].
Qed.

Lemma cpu_touch_spec m loads stores ks :
  OffOk m loads stores → ∃ m', cm_touch m ks = Ok m' ∧ OffOk m' loads stores ∧ ∀ k, slot m' k = slot m k.
Proof.
  intros Hok. unfold cm_touch. destruct (cp_touch_ok (policy m) ks (oo_wf _ _ _ Hok)) as (p & -> & Hw & HP).
  cbn [mbind res_bind]. eexists. split; [done|]. by apply offok_items.
Qed.

(** Events do not matter to the invariant. *)
Lemma offok_emit m loads stores ks b :
  OffOk m loads stores → OffOk (emit m ks b) loads stores.
Proof. unfold emit. intros [? ? ? ? ? ? ?]. destruct ks; [done|]. destruct (events m); by split. Qed.

Lemma slot_emit m ks b k : slot (emit m ks b) k = slot m k.
Proof. unfold emit. destruct ks; [done|]. by destruct (events m). Qed.

Lemma complete_store_ok1_spec m loads stores sk k :
  OffOk m loads stores →
  ∃ m', complete_store_ok1 (m, sk) k = (m', sk ++ filter (λ k, k ∈ stores) [k]) ∧
    OffOk m' loads (filter (λ k', k' ≠ k) stores) ∧ ∀ k', slot m' k' = slot m k'.
Proof.
  intros Hok. unfold complete_store_ok1. rewrite filter_cons filter_nil. destruct (cp_get (policy m) k) as [b|] eqn:Hg.
  - rewrite (offok_ready _ _ _ _ _ Hok Hg). case_decide as Hk.
    + rewrite bool_decide_false; [|tauto]. cbn [negb]. eexists. split; [done|].
      eapply offok_assign; [exact Hok|exact Hg|done| | | |apply Hok].
      * intros k' Hne. split; [done|]. rewrite list_elem_of_filter. tauto.
      * rewrite c_int_id; [|lia..]. rewrite decide_False; [|rewrite list_elem_of_filter; tauto].
        symmetry. apply zcount_0. intros Hin. by apply (oo_loads _ _ _ Hok) in Hin as [_ ?].
      * intros _. rewrite list_elem_of_filter. tauto.
    + rewrite bool_decide_true //. cbn [negb]. exists m. rewrite app_nil_r. split_and!; [done| |done].
      rewrite filter_all //. intros x Hx ->. done.
  - apply (offok_get_None _ _ _ _ Hok) in Hg. assert (k ∉ stores) as Hk. { intros ?. by apply Hg, (oo_stores _ _ _ Hok). }
    exists m. rewrite decide_False // app_nil_r. split_and!; [done| |done]. rewrite filter_all //. intros x Hx ->. done.
Qed.

Lemma complete_store_success m loads stores sk ks :
  OffOk m loads stores →
  ∃ m' sk', foldl complete_store_ok1 (m, sk) ks = (m', sk') ∧
    OffOk m' loads (filter (λ k, k ∉ ks) stores) ∧ ∀ k', slot m' k' = slot m k'.
Proof.
  revert m stores sk. induction ks as [|k ks IH]; intros m stores sk Hok; cbn [foldl].
  { exists m, sk. split_and!; [done| |done]. rewrite filter_all //. intros ? _. apply not_elem_of_nil. }
  destruct (complete_store_ok1_spec m loads stores sk k Hok) as (m1 & -> & Hok1 & Hs1).
  destruct (IH m1 _ (sk ++ filter (λ k, k ∈ stores) [k]) Hok1) as (m2 & sk2 & -> & Hok2 & Hs2).
  exists m2, sk2. split_and!; [done| |by intros k'; rewrite Hs2].
  rewrite list_filter_filter in Hok2. eapply offok_perm; [done| |exact Hok2].
  intros k'. rewrite !list_elem_of_filter not_elem_of_cons. tauto.
Qed.

(** The slot of a key that a failed store removes. *)
Lemma complete_store_failed1_spec m loads stores k :
  OffOk m loads stores →
  ∃ m', complete_store_failed1 m k = Ok m' ∧ OffOk m' loads (filter (λ k', k' ≠ k) stores) ∧
    ∀ k', slot m' k' = if decide (k' = k ∧ k ∈ stores) then None else slot m k'.
Proof.
  intros Hok. unfold complete_store_failed1. destruct (decide (k ∈ stores)) as [Hk|Hk].
  - pose proof (oo_stores _ _ _ Hok k Hk) as Hin. destruct (cp_get (policy m) k) as [b|] eqn:Hg; [|by apply (offok_get_None _ _ _ _ Hok) in Hg].
    rewrite (offok_ready _ _ _ _ _ Hok Hg) bool_decide_false; [|tauto]. cbn [negb].
    pose proof (oo_wf _ _ _ Hok) as Hw. pose proof (cp_items_nodup _ Hw) as Hnd. rewrite cp_get_ok // in Hg.
    destruct (od_get_split _ _ _ Hnd Hg) as (l & HP & Hl). destruct (cp_remove_ok _ k b l Hw HP) as (p & -> & Hw' & HP').
    cbn [mbind res_bind]. eexists. split; [done|]. destruct Hok as [_ Hi Ha Hld Hst Hr Hb]. split.
    + unfold _free_block. split; cbn [policy set_policy set_free_list free_list num_allocated_blocks cm_num_blocks]; [done| |done| | | |done].
      * unfold slots in *. rewrite HP' -Hi HP. cbn. by rewrite app_assoc -Permutation_cons_append.
      * intros k' Hk'. destruct (Hld k' Hk') as [Hi' Hn']. rewrite HP'. rewrite HP fmap_cons elem_of_cons in Hi'.
        rewrite list_elem_of_filter. cbn in Hi'. destruct Hi' as [->|?]; [done|]. tauto.
      * intros k' [Hne Hk']%list_elem_of_filter. rewrite HP'. apply Hst in Hk'. rewrite HP fmap_cons elem_of_cons in Hk'.
        cbn in Hk'. by destruct Hk'.
      * intros k' b' Hin'. rewrite HP' in Hin'. rewrite (Hr k' b'); [|rewrite HP; by right].
        assert (k' ≠ k) as Hne. { intros ->. apply Hl, list_elem_of_fmap. by exists (k, b'). }
        assert (k' ∈ filter (λ k', k' ≠ k) stores ↔ k' ∈ stores) as E by (rewrite list_elem_of_filter; tauto).
        destruct (decide (k' ∈ stores)), (decide (k' ∈ filter _ stores)); tauto.
    + intros k'. unfold slot. cbn [policy set_policy _free_block set_free_list]. rewrite !cp_get_ok //.
      rewrite (od_get_perm _ _ k' (cp_items_nodup _ Hw') HP') (od_get_perm _ _ k' Hnd HP) od_get_cons.
      destruct (decide (k' = k ∧ k ∈ stores)) as [[-> _]|Hne].
      * apply od_get_None in Hl. by rewrite Hl.
      * case_decide; [naive_solver|done].
  - exists m. split_and!.
    + destruct (cp_get (policy m) k) as [b|] eqn:Hg; [|done]. by rewrite (offok_ready _ _ _ _ _ Hok Hg) bool_decide_true.
    + rewrite filter_all //. intros x Hx ->. done.
    + intros k'. by rewrite decide_False; [|tauto].
Qed.

Lemma complete_store_failure m loads stores ks :
  OffOk m loads stores →
  ∃ m', foldM complete_store_failed1 m ks = Ok m' ∧ OffOk m' loads (filter (λ k, k ∉ ks) stores) ∧
    ∀ k', slot m' k' = if decide (k' ∈ ks ∧ k' ∈ stores) then None else slot m k'.
Proof.
  revert m stores. induction ks as [|k ks IH]; intros m stores Hok; cbn [foldM].
  { exists m. split_and!; [done| |]; [rewrite filter_all //; intros ? _; apply not_elem_of_nil|].
    intros k'. case_decide as Hd; [|done]. by destruct Hd as [?%not_elem_of_nil _]. }
  destruct (complete_store_failed1_spec m loads stores k Hok) as (m1 & -> & Hok1 & Hs1). cbn [mbind res_bind].
  destruct (IH m1 _ Hok1) as (m2 & -> & Hok2 & Hs2). exists m2. split_and!; [done| |].
  - rewrite list_filter_filter in Hok2. eapply offok_perm; [done| |exact Hok2].
    intros k'. rewrite !list_elem_of_filter not_elem_of_cons. tauto.
  - intros k'. rewrite Hs2 Hs1. pose proof (list_elem_of_filter (λ k', k' ≠ k) stores k') as Ef.
    pose proof (elem_of_cons ks k' k) as Ec.
    repeat case_decide; try done; destruct (decide (k' = k)) as [->|]; tauto.
Qed.

Lemma complete_store_spec m loads stores ks success :
  OffOk m loads stores →
  ∃ m', cm_complete_store m ks success = Ok m' ∧ OffOk m' loads (filter (λ k, k ∉ ks) stores) ∧
    ∀ k', slot m' k' = if decide (success = false ∧ k' ∈ ks ∧ k' ∈ stores) then None else slot m k'.
Proof.
  intros Hok. unfold cm_complete_store. destruct success.
  - destruct (complete_store_success m loads stores [] ks Hok) as (m1 & sk & -> & Hok1 & Hs1). cbn [mbind res_bind].
    eexists. split; [done|]. split; [by apply offok_emit|]. intros k'. rewrite slot_emit Hs1. case_decide; naive_solver.
  - destruct (complete_store_failure m loads stores ks Hok) as (m1 & -> & Hok1 & Hs1). cbn [mbind res_bind].
    eexists. split; [done|]. split; [by apply offok_emit|]. intros k'. rewrite slot_emit Hs1. repeat case_decide; naive_solver.
Qed.

Lemma cpu_free_blocks_spec m (ev : blocks_dict) :
  foldl (λ m (kb : OffloadKey * BlockStatus), _free_block m kb.2) m ev = set_free_list m (free_list m ++ slots ev).
Proof.
  revert m. induction ev as [|kb ev IH]; intros m; cbn [foldl].
  { cbn. rewrite app_nil_r. by destruct m. }
  rewrite IH. unfold _free_block, set_free_list. cbn. by rewrite -app_assoc.
Qed.

(** Evicted blocks are in no transfer; the manager without them. *)
Lemma cpu_evict_spec m loads stores ev p protected :
  OffOk m loads stores → cp_wf p → cp_items (policy m) ≡ₚ ev ++ cp_items p → Forall (evictable protected) ev →
  let m1 := set_free_list (set_policy m p) (free_list m ++ slots ev) in
  OffOk m1 loads stores ∧ (∀ k, k ∈ ev.*1 → (k ∉ loads) ∧ (k ∉ stores) ∧ k ∉ protected) ∧
  ∀ k, slot m1 k = if decide (k ∈ ev.*1) then None else slot m k.
Proof.
  intros Hok Hw' HP He m1. pose proof Hok as [Hw Hi Ha Hld Hst Hr Hb]. pose proof (cp_items_nodup _ Hw) as Hnd.
  assert (∀ k, k ∈ ev.*1 → (k ∉ loads) ∧ (k ∉ stores) ∧ k ∉ protected) as Hev.
  { intros k Hk. apply list_elem_of_fmap in Hk as ([k1 b] & E1 & Hin). cbn in E1. subst k1.
    rewrite Forall_forall in He. destruct (He _ Hin) as [H0 Hp]. cbn in H0, Hp.
    assert ((k, b) ∈ cp_items (policy m)) as Hin' by (rewrite HP elem_of_app; by left).
    pose proof (Hr _ _ Hin') as Hr'. rewrite H0 in Hr'. destruct (decide (k ∈ stores)); [done|].
    split_and!; [|done|done]. by apply zcount_0. }
  assert (∀ k, k ∈ (cp_items (policy m)).*1 → k ∉ ev.*1 → k ∈ (cp_items p).*1) as Hkeep.
  { intros k Hk Hn. rewrite HP fmap_app elem_of_app in Hk. tauto. }
  split_and!; [|done|].
  - split; cbn [policy set_policy set_free_list free_list num_allocated_blocks cm_num_blocks m1]; [done| |done| | | |done].
    + rewrite -Hi. unfold slots. rewrite HP fmap_app. rewrite -!app_assoc. rewrite (Permutation_app_comm (_ <$> ev)).
      rewrite -!app_assoc. done.
    + intros k Hk. destruct (Hld k Hk). split; [|done]. apply Hkeep; [done|]. intros Hin. by apply Hev in Hin as [? _].
    + intros k Hk. apply Hkeep; [by apply Hst|]. intros Hin. by apply Hev in Hin as (_ & ? & _).
    + intros k b Hin. apply Hr. rewrite HP elem_of_app. by right.
  - intros k. unfold slot, m1. cbn [policy set_policy set_free_list]. rewrite !cp_get_ok //.
    rewrite (od_get_perm _ _ k Hnd HP) od_get_app. destruct (decide (k ∈ ev.*1)) as [Hk|Hk].
    + assert (od_get (cp_items p) k = None) as ->; [|done]. apply od_get_None.
      rewrite HP fmap_app in Hnd. apply NoDup_app in Hnd as (_ & Hd & _). by apply Hd.
    + apply od_get_None in Hk. by rewrite Hk.
Qed.

Lemma allocate_fresh_spec n m blocks :
  allocate_fresh n m blocks =
  (set_num_allocated m (num_allocated_blocks m + Z.of_nat n),
   blocks ++ (BlockStatus_init <$> seqZ (num_allocated_blocks m) (Z.of_nat n))).
Proof.
  revert m blocks. induction n as [|n IH]; intros m blocks; cbn [allocate_fresh].
  { cbn. rewrite app_nil_r Z.add_0_r. by destruct m. }
  rewrite IH. cbn [num_allocated_blocks set_num_allocated]. rewrite (seqZ_cons _ (Z.of_nat (S n))); [|lia].
  rewrite fmap_cons -app_assoc. cbn [app]. f_equal.
  - unfold set_num_allocated. cbn. f_equal. lia.
  - do 4 f_equal; lia.
Qed.

Lemma py_pop_snoc {A} (l : list A) x : py_pop (l ++ [x]) = Ok (x, l).
Proof. unfold py_pop, py_init. rewrite last_snoc length_app take_app_le; [|cbn; lia]. rewrite take_ge //=. lia. Qed.

Lemma allocate_reused_spec n m blocks : (n ≤ length (free_list m))%nat →
  ∃ l taken, free_list m = l ++ reverse taken ∧ length taken = n ∧
    allocate_reused n m blocks = Ok (set_free_list m l, blocks ++ (BlockStatus_init <$> taken)).
Proof.
  revert m blocks. induction n as [|n IH]; intros m blocks Hn; cbn [allocate_reused].
  { exists (free_list m), []. rewrite !app_nil_r. split_and!; [done..|]. by destruct m. }
  destruct (free_list m) as [|x l0 _] eqn:E using rev_ind; [cbn in Hn; lia|].
  rewrite py_pop_snoc. cbn [mbind res_bind].
  destruct (IH (set_free_list m l0) (blocks ++ [BlockStatus_init x])) as (l & taken & E1 & E2 & E3).
  { cbn. rewrite length_app in Hn. cbn in Hn. lia. }
  exists l, (x :: taken). cbn in E1. split_and!.
  - rewrite reverse_cons app_assoc -E1 //.
  - cbn. by rewrite E2.
  - rewrite E3. unfold set_free_list. cbn. by rewrite -app_assoc.
Qed.

Lemma allocate_blocks_spec m loads stores ks :
  OffOk m loads stores → zlen ks ≤ _get_num_free_blocks m →
  ∃ m' blocks, _allocate_blocks m ks = Ok (m', blocks) ∧
    policy m' = policy m ∧ cm_num_blocks m' = cm_num_blocks m ∧ zlen blocks = zlen ks ∧
    Forall (λ b, ref_cnt b = -1) blocks ∧
    slots (cp_items (policy m)) ++ free_list m' ++ (block_id <$> blocks) ≡ₚ seqZ 0 (num_allocated_blocks m') ∧
    0 ≤ num_allocated_blocks m' ≤ cm_num_blocks m'.
Proof.
  intros Hok Hn. destruct (oo_alloc _ _ _ Hok) as [Ha Hmax]. pose proof (zlen_nonneg ks). pose proof (zlen_nonneg (free_list m)). unfold _allocate_blocks.
  unfold _get_num_free_blocks in Hn. set (fresh := Z.min _ _). assert (0 ≤ fresh ≤ zlen ks) as Hf by lia.
  rewrite bool_decide_true; [|lia]. cbn [py_assert mbind res_bind]. rewrite allocate_fresh_spec.
  destruct (allocate_reused_spec (Z.to_nat (zlen ks - fresh)) (set_num_allocated m (num_allocated_blocks m + Z.of_nat (Z.to_nat fresh)))
    ([] ++ (BlockStatus_init <$> seqZ (num_allocated_blocks m) (Z.of_nat (Z.to_nat fresh))))) as (l & taken & E1 & E2 & ->).
  { cbn. unfold zlen in *. lia. }
  cbn [free_list set_num_allocated] in E1. rewrite Z2Nat.id; [|lia].
  assert (∀ i, i ∈ seqZ (num_allocated_blocks m) fresh ++ taken → block_id (BlockStatus_init i) = i) as Hid.
  { intros i Hi. cbn. apply c_int_id; [lia|]. assert (0 ≤ i < cm_num_blocks m); [|lia]. apply elem_of_app in Hi as [Hi|Hi].
    - apply elem_of_seqZ in Hi. lia.
    - assert (i ∈ seqZ 0 (num_allocated_blocks m)) as Hi'; [|apply elem_of_seqZ in Hi'; lia].
      rewrite -(oo_ids _ _ _ Hok) E1 !elem_of_app elem_of_reverse. tauto. }
  eexists _, _. split; [done|]. cbn [app policy cm_num_blocks free_list num_allocated_blocks set_free_list set_num_allocated].
  rewrite -fmap_app. split_and!; [done|done| | | |lia|lia].
  - unfold zlen in *. rewrite length_fmap length_app length_seqZ E2. lia.
  - apply Forall_fmap, Forall_true. done.
  - assert (block_id <$> (BlockStatus_init <$> seqZ (num_allocated_blocks m) fresh ++ taken) =
            seqZ (num_allocated_blocks m) fresh ++ taken) as ->.
    { rewrite -list_fmap_compose -{2}(list_fmap_id (seqZ _ _ ++ taken)). apply list_fmap_ext. intros i x Hx.
      apply Hid, list_elem_of_lookup. by exists i. }
    rewrite seqZ_app; [|lia..]. rewrite Z.add_0_l -(oo_ids _ _ _ Hok) E1 reverse_Permutation.
    rewrite -!app_assoc. do 2 f_equiv. by rewrite Permutation_app_comm.
Qed.

Lemma insert_all_spec (p : P) (kbs : blocks_dict) :
  cp_wf p → NoDup kbs.*1 → (∀ k, k ∈ kbs.*1 → k ∉ (cp_items p).*1) →
  let p' := foldl (λ p (kb : OffloadKey * BlockStatus), cp_insert p kb.1 kb.2) p kbs in
  cp_wf p' ∧ cp_items p' ≡ₚ kbs ++ cp_items p.
Proof.
  revert p. induction kbs as [|[k b] kbs IH]; intros p Hw Hnd Hf; [done|]. cbn [foldl fst snd].
  apply NoDup_cons in Hnd as [Hk Hnd].
  destruct (cp_insert_ok p k b Hw) as [Hw1 HP1]. { rewrite cp_get_ok //. apply od_get_None, Hf. left. }
  destruct (IH _ Hw1 Hnd) as [Hw2 HP2].
  - intros k' Hk'. rewrite HP1 fmap_cons not_elem_of_cons. split; [by intros ->|]. apply Hf. by right.
  - split; [done|]. rewrite HP2 HP1. symmetry. apply Permutation_middle.
Qed.

(** The blocks of a store are entered. *)
Lemma store_blocks_spec m m1 loads stores ks blocks :
  OffOk m loads stores → NoDup ks → (∀ k, k ∈ ks → k ∉ (cp_items (policy m)).*1) →
  policy m1 = policy m → cm_num_blocks m1 = cm_num_blocks m → zlen blocks = zlen ks →
  Forall (λ b, ref_cnt b = -1) blocks →
  slots (cp_items (policy m)) ++ free_list m1 ++ (block_id <$> blocks) ≡ₚ seqZ 0 (num_allocated_blocks m1) →
  0 ≤ num_allocated_blocks m1 ≤ cm_num_blocks m1 →
  let m' := set_policy m1 (foldl (λ p (kb : OffloadKey * BlockStatus), cp_insert p kb.1 kb.2) (policy m1) (zip ks blocks)) in
  OffOk m' loads (ks ++ stores) ∧ slot m' <$> ks = Some ∘ block_id <$> blocks ∧
  ∀ k, k ∉ ks → slot m' k = slot m k.
Proof.
  intros Hok Hnd Hf Ep En Hlen Hb Hids Ha m'. pose proof Hok as [Hw _ [_ Hmax] Hld Hst Hr Hbd].
  assert ((zip ks blocks).*1 = ks) as Ez by (apply fst_zip; unfold zlen in Hlen; lia).
  assert ((zip ks blocks).*2 = blocks) as Ez2 by (apply snd_zip; unfold zlen in Hlen; lia).
  destruct (insert_all_spec (policy m1) (zip ks blocks)) as [Hw' HP].
  { by rewrite Ep. } { by rewrite Ez. } { rewrite Ez Ep. exact Hf. }
  rewrite {2}Ep in HP. change (foldl _ (policy m1) _) with (policy m') in Hw', HP. split_and!.
  - split; [done| |by rewrite /= En in Ha |- *| | | |done].
    + change (num_allocated_blocks m') with (num_allocated_blocks m1). rewrite -Hids. unfold slots. rewrite HP fmap_app.
      assert ((λ kb : OffloadKey * BlockStatus, block_id kb.2) <$> zip ks blocks = block_id <$> blocks) as ->.
      { rewrite -{2}Ez2 -list_fmap_compose //. }
      rewrite (Permutation_app_comm (block_id <$> blocks)) -!app_assoc. f_equiv. apply Permutation_app_comm.
    + intros k Hk. destruct (Hld k Hk) as [H1 H2]. rewrite HP fmap_app Ez !elem_of_app. split; [by right|].
      intros [?|?]; [by eapply Hf|done].
    + intros k. rewrite HP fmap_app Ez !elem_of_app. intros [?|?]; [by left|right; by apply Hst].
    + intros k b. rewrite HP elem_of_app. intros [Hin|Hin].
      * rewrite decide_True; [|rewrite elem_of_app; left; apply elem_of_zip_l in Hin; done].
        apply elem_of_zip_r in Hin. rewrite Forall_forall in Hb. by apply Hb.
      * rewrite (Hr k b Hin). assert (k ∉ ks) as Hk. { intros Hk. apply (Hf k Hk), list_elem_of_fmap. by exists (k, b). }
        assert (k ∈ ks ++ stores ↔ k ∈ stores) as E by (rewrite elem_of_app; tauto).
        destruct (decide (k ∈ stores)), (decide (k ∈ ks ++ stores)); tauto.
  - apply list_eq. intros i. rewrite !list_lookup_fmap.
    destruct (zip ks blocks !! i) as [[k b]|] eqn:Ei.
    + apply lookup_zip_Some in Ei as [Ek Eb]. rewrite Ek Eb. cbn [fmap option_fmap option_map compose]. f_equal. unfold slot.
      rewrite cp_get_ok // (od_get_elem _ k b) //; [by apply cp_items_nodup|]. rewrite HP elem_of_app. left.
      apply list_elem_of_lookup. exists i. by apply lookup_zip_Some.
    + assert (length ks = length blocks) as El by (unfold zlen in Hlen; lia).
      apply lookup_ge_None in Ei. rewrite length_zip_with El Nat.min_id in Ei.
      rewrite !lookup_ge_None_2 //; lia.
  - intros k Hk. unfold slot. rewrite !cp_get_ok //.
    rewrite (od_get_perm _ _ k (cp_items_nodup _ Hw') HP) od_get_app.
    assert (od_get (zip ks blocks) k = None) as ->; [|done]. apply od_get_None. by rewrite Ez.
Qed.

(** What a store promises: a refusal changes nothing; otherwise exactly the keys that
    were not held are entered, at the slots it returns, and what was evicted was in
    no transfer and not among the keys of the call. *)
Definition store_promise m loads stores (ks : list OffloadKey) m' (out : PrepareStoreOutput) : Prop :=
  OffOk m' loads (keys_to_store out ++ stores) ∧
  keys_to_store out = filter (λ k, slot m k = None) ks ∧
  slot m' <$> keys_to_store out = Some <$> store_spec out ∧
  zlen (evicted_keys out) = Z.max 0 (zlen (keys_to_store out) - _get_num_free_blocks m) ∧
  (∀ k, k ∈ evicted_keys out → slot m k ≠ None ∧ (k ∉ loads) ∧ (k ∉ stores) ∧ k ∉ ks) ∧
  ∀ k, k ∉ keys_to_store out → slot m' k = if decide (k ∈ evicted_keys out) then None else slot m k.

Lemma store_promise_intro m loads stores ks m1 ev :
  OffOk m loads stores → NoDup ks → OffOk m1 loads stores →
  zlen (filter (λ k, slot m k = None) ks) ≤ _get_num_free_blocks m1 →
  zlen ev = Z.max 0 (zlen (filter (λ k, slot m k = None) ks) - _get_num_free_blocks m) →
  (∀ k, k ∈ ev → slot m k ≠ None ∧ (k ∉ loads) ∧ (k ∉ stores) ∧ k ∉ ks) →
  (∀ k, slot m1 k = if decide (k ∈ ev) then None else slot m k) →
  ∃ m2 blocks, _allocate_blocks (emit m1 ev true) (filter (λ k, slot m k = None) ks) = Ok (m2, blocks) ∧
    zlen blocks = zlen (filter (λ k, slot m k = None) ks) ∧
    store_promise m loads stores ks
      (set_policy m2 (foldl (λ p (kb : OffloadKey * BlockStatus), cp_insert p kb.1 kb.2) (policy m2)
        (zip (filter (λ k, slot m k = None) ks) blocks)))
      (mkPrepareStoreOutput (filter (λ k, slot m k = None) ks) (block_id <$> blocks) ev).
Proof.
  intros Hok Hnd Hok1 Hfree Hlev Hev Hslot. set (kts := filter _ ks) in *. set (me := emit m1 ev true).
  assert (OffOk me loads stores) as Hoke by by apply offok_emit.
  assert (_get_num_free_blocks me = _get_num_free_blocks m1) as Efree.
  { unfold me, emit. destruct ev; [done|]. by destruct (events m1). }
  destruct (allocate_blocks_spec me loads stores kts Hoke) as (m2 & blocks & E & Ep & En & Hl & Hb & Hi & Ha); [lia|].
  exists m2, blocks. split; [done|]. split; [done|].
  destruct (store_blocks_spec me m2 loads stores kts blocks) as (H1 & H2 & H3); [done| | |done..|].
  { by apply NoDup_filter. }
  { intros k Hk. apply (offok_get_None _ _ _ _ Hoke). apply list_elem_of_filter in Hk as [Hk _].
    apply (fmap_None block_id). change (slot me k = None). unfold me. rewrite slot_emit Hslot. by case_decide. }
  split_and!; cbn [keys_to_store store_spec evicted_keys]; [done|done| |done|done|].
  - rewrite H2. by rewrite list_fmap_compose.
  - intros k Hk. rewrite H3 // /me slot_emit //.
Qed.

Lemma prepare_store_spec m loads stores ks :
  OffOk m loads stores → NoDup ks →
  ∃ m' o, cm_prepare_store m ks = Ok (m', o) ∧
    match o with None => m' = m | Some out => store_promise m loads stores ks m' out end.
Proof.
  intros Hok Hnd. unfold cm_prepare_store.
  assert (filter (λ k, cp_get (policy m) k = None) ks = filter (λ k, slot m k = None) ks) as ->.
  { apply list_filter_iff. intros k. unfold slot. by rewrite fmap_None. }
  destruct (is_nil (filter (λ k, slot m k = None) ks)) eqn:Enil.
  { destruct (filter (λ k, slot m k = None) ks) eqn:Ef; [|done]. eexists _, _. split; [done|]. cbn.
    split_and!; cbn [keys_to_store store_spec evicted_keys app]; [done|done|done| | |].
    - pose proof (oo_alloc _ _ _ Hok). unfold _get_num_free_blocks. pose proof (zlen_nonneg (free_list m)).
      rewrite /(zlen []) /=. lia.
    - by intros k ?%not_elem_of_nil.
    - intros k _. case_decide as Hin; [by apply not_elem_of_nil in Hin|done]. }
  goal_bool as Hev.
  - destruct (cp_evict_ok (policy m) (zlen (filter (λ k, slot m k = None) ks) - _get_num_free_blocks m) (list_to_set ks)
      (oo_wf _ _ _ Hok)) as (o & -> & Ho); [lia|]. cbn [mbind res_bind].
    destruct o as [[ev p]|]; [|by eexists _, None]. destruct (Ho ev p eq_refl) as (Hw & HP & Hl & He). cbn [mbind res_bind].
    rewrite cpu_free_blocks_spec. cbn [free_list set_policy].
    destruct (cpu_evict_spec m loads stores ev p _ Hok Hw HP He) as (Hok1 & Hf & Hs).
    destruct (store_promise_intro m loads stores ks _ ev.*1 Hok Hnd Hok1) as (m2 & blocks & -> & Hlb & Hpr).
    + unfold _get_num_free_blocks in *. cbn. rewrite zlen_app. unfold slots. rewrite zlen_fmap. lia.
    + rewrite zlen_fmap. lia.
    + intros k Hk. pose proof (Hf k Hk) as (H1 & H2 & H3). rewrite elem_of_list_to_set in H3. split_and!; [|done..].
      unfold slot. rewrite fmap_None (offok_get_None _ _ _ _ Hok). intros Hn. apply Hn. rewrite HP fmap_app elem_of_app. by left.
    + exact Hs.
    + cbn [mbind res_bind]. rewrite bool_decide_true //. cbn [py_assert mbind res_bind]. eexists _, _. split; [done|exact Hpr].
  - cbn [mbind res_bind]. destruct (store_promise_intro m loads stores ks m [] Hok Hnd Hok) as (m2 & blocks & -> & Hlb & Hpr).
    + lia.
    + change (zlen (@nil OffloadKey)) with 0. lia.
    + by intros k ?%not_elem_of_nil.
    + intros k. case_decide as Hin; [by apply not_elem_of_nil in Hin|done].
    + cbn [mbind res_bind]. rewrite bool_decide_true //. cbn [py_assert mbind res_bind]. eexists _, _. split; [done|exact Hpr].
Qed.

Lemma slot_inj m loads stores k1 k2 i :
  OffOk m loads stores → slot m k1 = Some i → slot m k2 = Some i → k1 = k2.
Proof.
  intros Hok (x1 & G1 & ->)%fmap_Some (x2 & G2 & E)%fmap_Some.
  apply (offok_get _ _ _ _ _ Hok) in G1 as [i1 L1]%list_elem_of_lookup. apply (offok_get _ _ _ _ _ Hok) in G2 as [i2 L2]%list_elem_of_lookup.
  assert (NoDup (slots (cp_items (policy m)))) as Hnd.
  { pose proof (NoDup_seqZ 0 (num_allocated_blocks m)) as H. rewrite -(oo_ids _ _ _ Hok) in H. by apply NoDup_app in H as (? & _). }
  assert (i1 = i2) as ->; [|congruence]. eapply NoDup_lookup; [exact Hnd| |]; unfold slots; rewrite list_lookup_fmap.
  - rewrite L1. cbn. exact (f_equal Some E).
  - by rewrite L2.
Qed.

(** ** The calls of the scheduler *)

Inductive off_op :=
  | OpLookup (k : OffloadKey)
  | OpPrepareLoad (ks : list OffloadKey)
  | OpTouch (ks : list OffloadKey)
  | OpCompleteLoad (ks : list OffloadKey)
  | OpPrepareStore (ks : list OffloadKey)
  | OpCompleteStore (ks : list OffloadKey) (success : bool)
  | OpTakeEvents.

(** The obligations of the callers: only blocks whose lookup succeeded are loaded,
    fewer than 2^31 loads are in flight, only loads in flight are completed, and the
    keys of a store are distinct. *)
Definition off_may m loads (op : off_op) : Prop :=
  match op with
  | OpPrepareLoad ks => (∀ k, k ∈ ks → cm_lookup m k = Some true) ∧ zlen loads + zlen ks < 2 ^ 31
  | OpCompleteLoad ks => ∃ rest, loads ≡ₚ ks ++ rest
  | OpPrepareStore ks => NoDup ks
  | _ => True
  end.

(** A call that returns, with its effect on the transfers in flight. *)
Inductive off_step : CPUOffloadingManager P * list OffloadKey * list OffloadKey → off_op →
    CPUOffloadingManager P * list OffloadKey * list OffloadKey → Prop :=
  | step_lookup m l s k : off_step (m, l, s) (OpLookup k) (m, l, s)
  | step_prepare_load m l s ks m' ids :
      off_may m l (OpPrepareLoad ks) → cm_prepare_load m ks = Ok (m', ids) →
      off_step (m, l, s) (OpPrepareLoad ks) (m', ks ++ l, s)
  | step_touch m l s ks m' : cm_touch m ks = Ok m' → off_step (m, l, s) (OpTouch ks) (m', l, s)
  | step_complete_load m l s ks m' l' :
      l ≡ₚ ks ++ l' → cm_complete_load m ks = Ok m' → off_step (m, l, s) (OpCompleteLoad ks) (m', l', s)
  | step_prepare_store m l s ks m' out :
      NoDup ks → cm_prepare_store m ks = Ok (m', Some out) →
      off_step (m, l, s) (OpPrepareStore ks) (m', l, keys_to_store out ++ s)
  | step_store_refused m l s ks m' :
      NoDup ks → cm_prepare_store m ks = Ok (m', None) → off_step (m, l, s) (OpPrepareStore ks) (m', l, s)
  | step_complete_store m l s ks success m' :
      cm_complete_store m ks success = Ok m' →
      off_step (m, l, s) (OpCompleteStore ks success) (m', l, filter (λ k, k ∉ ks) s)
  | step_take_events m l s : off_step (m, l, s) OpTakeEvents ((cm_take_events m).1, l, s).

Inductive off_reach (num_blocks : Z) (enable_events : bool) :
    CPUOffloadingManager P * list OffloadKey * list OffloadKey → Prop :=
  | reach_init : off_reach num_blocks enable_events (CPUOffloadingManager_init num_blocks enable_events, [], [])
  | reach_step st op st' :
      off_reach num_blocks enable_events st → off_step st op st' → off_reach num_blocks enable_events st'.

Lemma offok_init num_blocks enable_events :
  0 ≤ num_blocks < 2 ^ 63 → OffOk (CPUOffloadingManager_init num_blocks enable_events) [] [].
Proof.
  intros Hn. destruct (cp_init_ok num_blocks) as [Hw Hi]; [lia|].
  split; cbn [policy free_list num_allocated_blocks cm_num_blocks CPUOffloadingManager_init];
    [done|by rewrite Hi|lia|by intros ? ?%not_elem_of_nil|by intros ? ?%not_elem_of_nil| |].
  - rewrite Hi. by intros ? ? ?%not_elem_of_nil.
  - by vm_compute.
Qed.

(** Every step keeps the invariant, and the slots of the transfers it does not finish. *)
Lemma off_step_ok m l s op m' l' s' :
  OffOk m l s → off_step (m, l, s) op (m', l', s') →
  OffOk m' l' s' ∧ ∀ k, k ∈ l ∨ (k ∈ s ∧ k ∈ s') → slot m' k = slot m k.
Proof.
  intros Hok Hst. inversion Hst; subst; clear Hst.
  - done.
  - destruct (prepare_load_spec m l s' ks [] Hok) as (m1 & js & E & _ & Hok1 & Hs1); [by match goal with Hm : off_may _ _ _ |- _ => apply Hm end..|].
    match goal with H : cm_prepare_load _ _ = _ |- _ => unfold cm_prepare_load in H; rewrite E in H; injection H as -> _ end.
    split; [|by intros]. eapply offok_perm; [| |exact Hok1]; [by rewrite reverse_Permutation|done].
  - destruct (cpu_touch_spec m l' s' ks Hok) as (m1 & E & Hok1 & Hs1). same_call. split; [done|]. by intros.
  - destruct (complete_load_spec m l' s' ks) as (m1 & E & Hok1 & Hs1); [by eapply offok_perm|]. same_call. split; [done|]. by intros.
  - destruct (prepare_store_spec m l' s ks Hok) as (m1 & o & E & Ho); [done|]. same_call.
    destruct Ho as (Hok1 & Ek & _ & _ & He & Hs1). split; [done|]. intros k Hk.
    assert (k ∈ (cp_items (policy m)).*1) as Hin by (destruct Hk as [?%(oo_loads _ _ _ Hok)|[?%(oo_stores _ _ _ Hok) _]]; tauto).
    rewrite Hs1.
    + case_decide as Hev; [|done]. apply He in Hev as (_ & ? & ? & _). tauto.
    + rewrite Ek list_elem_of_filter. unfold slot. rewrite fmap_None (offok_get_None _ _ _ _ Hok). tauto.
  - destruct (prepare_store_spec m l' s' ks Hok) as (m1 & o & E & Ho); [done|]. same_call. by split.
  - destruct (complete_store_spec m l' s ks success Hok) as (m1 & E & Hok1 & Hs1). same_call. split; [done|].
    intros k Hk. rewrite Hs1. destruct (decide (success = false ∧ k ∈ ks ∧ k ∈ s)) as [(_ & Hd1 & Hd2)|]; [|done].
    destruct Hk as [Hk|[_ Hk]]; [by apply (oo_loads _ _ _ Hok) in Hk as [_ ?]|]. by apply list_elem_of_filter in Hk as [? _].
  - unfold cm_take_events. destruct Hok as [? ? ? ? ? ? ?]. destruct (events m); by split.
Qed.

(** Every call that meets its obligation returns. *)
Lemma off_step_progress m l s op : OffOk m l s → off_may m l op → ∃ st', off_step (m, l, s) op st'.
Proof.
  intros Hok Hmay. destruct op as [k|ks|ks|ks|ks|ks success|]; cbn in Hmay.
  - eexists. constructor.
  - destruct (prepare_load_spec m l s ks [] Hok) as (m1 & js & E & _); [tauto..|]. eexists. by econstructor.
  - destruct (cpu_touch_spec m l s ks Hok) as (m1 & E & _). eexists. by econstructor.
  - destruct Hmay as [rest HP]. destruct (complete_load_spec m rest s ks) as (m1 & E & _); [by eapply offok_perm|].
    eexists. by econstructor.
  - destruct (prepare_store_spec m l s ks Hok Hmay) as (m1 & [out|] & E & _); eexists; [by eapply step_prepare_store|by eapply step_store_refused].
  - destruct (complete_store_spec m l s ks success Hok) as (m1 & E & _). eexists. by econstructor.
  - eexists. constructor.
Qed.

Lemma off_reach_ok num_blocks enable_events m l s :
  0 ≤ num_blocks < 2 ^ 63 → off_reach num_blocks enable_events (m, l, s) → OffOk m l s.
Proof.
  intros Hn Hr. remember (m, l, s) as st eqn:E. revert m l s E.
  induction Hr as [|st op st' Hr IH Hst]; intros m l s E.
  - injection E as <- <- <-. by apply offok_init.
  - subst st'. destruct st as [[m0 l0] s0]. apply (off_step_ok m0 l0 s0 op m l s); [by apply IH|done].
Qed.

(** C35: under any sequence of calls that meets the callers' obligations, the CPU
    offloading manager never raises, whatever the policy: in each state it reaches,
    the block numbers of the held keys and the free list partition the allocated
    range, a key being stored has count -1 and every other key the number of its
    loads in flight, and every allowed call returns. *)
Theorem offload_manager_safe num_blocks enable_events m l s :
  0 ≤ num_blocks < 2 ^ 63 → off_reach num_blocks enable_events (m, l, s) →
  OffOk m l s ∧ ∀ op, off_may m l op → ∃ st', off_step (m, l, s) op st'.
Proof.
  intros Hn Hr. pose proof (off_reach_ok _ _ _ _ _ Hn Hr) as Hok. split; [done|]. intros op. by apply off_step_progress.
Qed.

(** A store only takes memory from keys that are in no transfer and not among its own
    keys, and what it hands out is memory of no transfer in flight. *)
Lemma store_step_isolated m l s ks m' l' s' :
  OffOk m l s → off_step (m, l, s) (OpPrepareStore ks) (m', l', s') →
  (∀ k, is_Some (slot m k) → slot m' k ≠ slot m k → (k ∉ l) ∧ (k ∉ s) ∧ (k ∉ ks) ∧ slot m' k = None) ∧
  ∀ k, k ∈ s' → k ∉ s → (k ∈ ks) ∧ slot m k = None ∧
    ∃ i, slot m' k = Some i ∧ ∀ k', k' ∈ l ∨ k' ∈ s → slot m k' ≠ Some i.
Proof.
  intros Hok Hst. pose proof (off_step_ok _ _ _ _ _ _ _ Hok Hst) as [Hok' Hkeep]. inversion Hst; subst; clear Hst.
  - destruct (prepare_store_spec m l' s ks Hok) as (m1 & o & E & Ho); [done|]. same_call.
    destruct Ho as (_ & Ek & Hsl & _ & He & Hs). split.
    + intros k [i Hi] Hne. assert (k ∉ keys_to_store out) as Hn.
      { rewrite Ek list_elem_of_filter Hi. naive_solver. }
      rewrite (Hs k Hn) in Hne |- *. case_decide as Hev; [|done]. apply He in Hev. tauto.
    + intros k [Hk|?]%elem_of_app Hns; [|done]. pose proof Hk as Hf. rewrite Ek in Hf. apply list_elem_of_filter in Hf as [H0 Hks].
      split_and!; [done..|]. pose proof (oo_stores _ _ _ Hok' k) as Hin.
      destruct (slot m1 k) as [i|] eqn:Ei; [exists i; split; [done|]|].
      * intros k' Hk' E'. rewrite -(Hkeep k') in E'; [|rewrite elem_of_app; tauto].
        rewrite (slot_inj _ _ _ _ _ _ Hok' E' Ei) in Hk'. destruct Hk' as [Hl|?]; [|done].
        apply (oo_loads _ _ _ Hok') in Hl as [_ Hl]. apply Hl, elem_of_app. by left.
      * unfold slot in Ei. rewrite fmap_None (offok_get_None _ _ _ _ Hok') in Ei. exfalso. apply Ei, Hin, elem_of_app. by left.
  - destruct (prepare_store_spec m l' s' ks Hok) as (m1 & o & E & Ho); [done|]. same_call. by split.
Qed.

(** C36: a block that is being loaded or stored stays where it is until the transfer
    is completed, and no two keys ever share a block number.  A store takes memory
    only from keys that are in no transfer and not among the keys of its own call, and
    the memory it hands out for its new keys is that of no transfer in flight. *)
Theorem offload_transfers_isolated num_blocks enable_events m l s op m' l' s' :
  0 ≤ num_blocks < 2 ^ 63 → off_reach num_blocks enable_events (m, l, s) → off_step (m, l, s) op (m', l', s') →
  (∀ k, k ∈ l ∨ (k ∈ s ∧ k ∈ s') → is_Some (slot m k) ∧ slot m' k = slot m k) ∧
  (∀ k1 k2 i, slot m' k1 = Some i → slot m' k2 = Some i → k1 = k2) ∧
  ∀ ks, op = OpPrepareStore ks →
    (∀ k, is_Some (slot m k) → slot m' k ≠ slot m k → (k ∉ l) ∧ (k ∉ s) ∧ (k ∉ ks) ∧ slot m' k = None) ∧
    ∀ k, k ∈ s' → k ∉ s → (k ∈ ks) ∧ slot m k = None ∧
      ∃ i, slot m' k = Some i ∧ ∀ k', k' ∈ l ∨ k' ∈ s → slot m k' ≠ Some i.
Proof.
  intros Hn Hr Hst. pose proof (off_reach_ok _ _ _ _ _ Hn Hr) as Hok.
  destruct (off_step_ok _ _ _ _ _ _ _ Hok Hst) as [Hok' Hs].
  split_and!; [|by intros k1 k2 i; apply (slot_inj _ _ _ _ _ _ Hok')|intros ks ->; by eapply store_step_isolated].
  intros k Hk. split; [|by apply Hs]. destruct (slot m k) eqn:E; [done|]. unfold slot in E.
  rewrite fmap_None (offok_get_None _ _ _ _ Hok) in E. exfalso. apply E.
  destruct Hk as [?%(oo_loads _ _ _ Hok)|[?%(oo_stores _ _ _ Hok) _]]; tauto.
Qed.
End Safety.
