(* ===== verification/OffloadReuse.v ===== *)
(** * The reuse filter, and concrete runs of the offloading managers

    [FilterReusedOffloadingManager] counts lookups in a bounded LRU table and passes
    only keys that were looked up often enough on to the manager it decorates.  The
    file shows that it never passes a key too early, that the counts are exact while
    the table has room, and runs the managers on small inputs. *)

From Corelib Require Import SpecFloat.
From S2P Require Import Prelude PyFloat OrderedDict BlockHash OffloadPolicy OffloadManager OffloadSpec.

(** The interface the filter relies on: a manager stores only keys it was given. *)
Class StoresOnlyGiven (M : Type) `{OffloadingManager M} :=
  stores_given m ks m' out :
    om_prepare_store m ks = Ok (m', Some out) → ∀ k, k ∈ keys_to_store out → k ∈ ks.

#[export] Instance CPU_stores_given {P} `{CachePolicy P} : StoresOnlyGiven (CPUOffloadingManager P).
Proof.
  intros m ks m' out. cbn. unfold cm_prepare_store. destruct (is_nil _).
  { intros [= <- <-] k. cbn. by intros ?%not_elem_of_nil. }
  set (kts := filter _ ks).
  destruct (if bool_decide _ then _ else _) as [[[m1 ev]|]|]; [|done..]. cbn [mbind res_bind].
  destruct (_allocate_blocks _ _) as [[m2 blocks]|]; [|done]. cbn [mbind res_bind].
  destruct (py_assert _); [|done]. cbn [mbind res_bind]. intros [= _ <-] k. cbn [keys_to_store].
  intros Hk. apply list_elem_of_filter in Hk. tauto.
Qed.

Section Reuse.
Context {M : Type} `{OM : OffloadingManager M}.
Implicit Types (f : FilterReused M) (h : list OffloadKey).

(** A filter after the lookups [h], newest first.  The other operations only replace
    the decorated manager. *)
Inductive filter_reach : FilterReused M → list OffloadKey → Prop :=
  | filter_init m threshold size f : FilterReused_init m threshold size = Ok f → filter_reach f []
  | filter_lookup f h k f' r : filter_reach f h → fm_lookup f k = Ok (f', r) → filter_reach f' (k :: h)
  | filter_other f h m : filter_reach f h → filter_reach (set_backing f m) h.

Record CountsOk f h : Prop := {
  co_size : 1 ≤ max_tracker_size f ∧ 2 ≤ store_threshold f;
  co_nodup : NoDup (counts f).*1;
  co_bound : zlen (counts f) ≤ max_tracker_size f;
  co_count : ∀ k n, od_get (counts f) k = Some n → 1 ≤ n ≤ zcount k h;
  co_exact : zlen (remove_dups h) ≤ max_tracker_size f →
    ∀ k, default 0 (od_get (counts f) k) = zcount k h
}.

Lemma zlen_remove_dups_cons (k : OffloadKey) h :
  zlen (remove_dups (k :: h)) = zlen (remove_dups h) + if decide (k ∈ h) then 0 else 1.
Proof.
  cbn [remove_dups]. destruct (decide_rel elem_of k h), (decide (k ∈ h)); try done; [lia|]. rewrite zlen_cons. lia.
Qed.

(** The keys of the table are among the keys looked up. *)
Lemma counts_keys f h : CountsOk f h → ∀ k, k ∈ (counts f).*1 → k ∈ h.
Proof.
  intros Hc k Hk. destruct (od_get_is_Some _ _ Hk) as [n Hn]. apply (co_count _ _ Hc) in Hn. apply zcount_pos. lia.
Qed.

Lemma counts_length f h : CountsOk f h → zlen (counts f) ≤ zlen (remove_dups h).
Proof.
  intros Hc. rewrite -(zlen_fmap fst). unfold zlen. apply inj_le, submseteq_length, NoDup_submseteq; [apply Hc|].
  intros k Hk. rewrite elem_of_remove_dups. by eapply counts_keys.
Qed.

(** One lookup of a key in the table, and of a new one. *)
Lemma record_known f h k : CountsOk f h → od_mem (counts f) k = true →
  ∃ d, record_key f k = Ok d ∧ NoDup d.*1 ∧ zlen d = zlen (counts f) ∧
    ∀ k', od_get d k' = if decide (k' = k) then Some (default 0 (od_get (counts f) k) + 1) else od_get (counts f) k'.
Proof.
  intros Hc Hm. unfold record_key. rewrite Hm. unfold od_mem in Hm. destruct (od_get (counts f) k) as [n|] eqn:Hg; [|done].
  pose proof (co_nodup _ _ Hc) as Hnd. rewrite (od_move_to_end_filter _ _ _ Hnd Hg). cbn [mbind res_bind].
  set (d := filter _ _). assert (k ∉ d.*1) as Hk.
  { intros (kv & -> & [Hne _]%list_elem_of_filter)%list_elem_of_fmap. by apply Hne. }
  assert (NoDup d.*1) as Hd by by apply NoDup_filter_keys.
  assert (counts f ≡ₚ (k, n) :: d) as HP.
  { destruct (od_get_split _ _ _ Hnd Hg) as (d' & HP & _). rewrite {1}HP. constructor.
    unfold d. rewrite HP filter_cons_False; [|cbn; tauto]. rewrite filter_all //. intros kv Hkv Ek.
    rewrite HP in Hnd. apply NoDup_cons in Hnd as [Hn _]. apply Hn, list_elem_of_fmap. by exists kv. }
  unfold od_lookup. rewrite od_get_app od_get_cons. apply od_get_None in Hk as Hk'. rewrite Hk'.
  destruct (decide (k = k)); [|done]. cbn [mbind res_bind]. eexists. split; [done|].
  assert (od_set (d ++ [(k, n)]) k (n + 1) ≡ₚ (k, n + 1) :: d) as HS.
  { apply od_set_perm with n; [|by rewrite -Permutation_cons_append]. rewrite -Permutation_cons_append. by constructor. }
  split_and!.
  - rewrite HS. by constructor.
  - by rewrite HS HP !zlen_cons.
  - intros k'. rewrite od_get_set. do 2 case_decide; try congruence; [done|].
    rewrite od_get_app od_get_cons. rewrite decide_False // (od_get_filter_ne _ _ _ H0). by destruct (od_get (counts f) k').
Qed.

Lemma record_new f h k : CountsOk f h → od_mem (counts f) k = false →
  ∃ d, record_key f k = Ok d ∧ NoDup d.*1 ∧ zlen d ≤ max_tracker_size f ∧ od_get d k = Some 1 ∧
    (∀ k', k' ≠ k → od_get d k' = None ∨ od_get d k' = od_get (counts f) k') ∧
    (zlen (counts f) < max_tracker_size f → ∀ k', k' ≠ k → od_get d k' = od_get (counts f) k').
Proof.
  intros Hc Hm. unfold record_key. rewrite Hm. pose proof (co_size _ _ Hc) as [H1 _]. pose proof (co_bound _ _ Hc) as Hb.
  pose proof (co_nodup _ _ Hc) as Hnd. assert (k ∉ (counts f).*1) as Hk. { intros Hin%od_mem_true. congruence. }
  goal_bool as E.
  - destruct (counts f) as [|[k0 n0] d] eqn:Ec; [unfold zlen in E; cbn in E; lia|]. cbn [od_popitem_first mbind res_bind].
    apply NoDup_cons in Hnd as [Hk0 Hnd]. rewrite fmap_cons not_elem_of_cons in Hk. destruct Hk as [Hne Hk].
    rewrite od_set_fresh //. eexists. split; [done|]. rewrite zlen_cons in E, Hb. split_and!.
    + rewrite -Permutation_cons_append. by constructor.
    + rewrite zlen_app zlen_cons. unfold zlen in *. cbn [length]. lia.
    + rewrite od_get_app od_get_cons. apply od_get_None in Hk. rewrite Hk. by case_decide.
    + intros k' Hk'. rewrite od_get_app !od_get_cons. destruct (decide (k0 = k')) as [->|E0].
      * left. apply od_get_None in Hk0. cbn in Hk0. rewrite Hk0. case_decide; congruence || done.
      * right. destruct (od_get d k'); [done|]. case_decide; congruence || done.
    + rewrite zlen_cons. lia.
  - cbn [mbind res_bind]. rewrite od_set_fresh //. eexists. split; [done|]. split_and!.
    + rewrite -Permutation_cons_append. by constructor.
    + rewrite zlen_app zlen_cons. unfold zlen in *. cbn [length]. lia.
    + rewrite od_get_app od_get_cons. apply od_get_None in Hk. rewrite Hk. by case_decide.
    + intros k' Hk'. right. rewrite od_get_app !od_get_cons. destruct (od_get (counts f) k'); [done|]. case_decide; congruence || done.
    + intros _ k' Hk'. rewrite od_get_app !od_get_cons. destruct (od_get (counts f) k'); [done|]. case_decide; congruence || done.
Qed.

Lemma record_ok f h k : CountsOk f h →
  ∃ d, record_key f k = Ok d ∧
    ∀ m, CountsOk (mkFilterReused m (store_threshold f) (max_tracker_size f) d) (k :: h).
Proof.
  intros Hc. destruct Hc as [Hs Hnd Hb Hn He] eqn:EHc. clear EHc. destruct (od_mem (counts f) k) eqn:Hm.
  - destruct (record_known f h k Hc Hm) as (d & E & Hd & Hl & Hg). exists d. split; [done|]. intros m.
    apply od_mem_true in Hm as Hk. assert (k ∈ h) as Hh by by eapply counts_keys.
    split; cbn [max_tracker_size store_threshold counts]; [done|done|lia| |].
    + intros k' n. rewrite Hg zcount_cons. destruct (od_get (counts f) k) as [n0|] eqn:E0.
      * apply Hn in E0 as Hn0. case_decide as Ek; [|intros ?%Hn; case_decide; lia].
        intros [= <-]. subst k'. cbn. rewrite decide_True //. lia.
      * by apply od_get_None in E0.
    + intros Hr k'. rewrite zlen_remove_dups_cons decide_True // Z.add_0_r in Hr. rewrite Hg zcount_cons -(He Hr k').
      repeat case_decide; subst; cbn; congruence || lia.
  - destruct (record_new f h k Hc Hm) as (d & E & Hd & Hl & Hg & Ho & Hx). exists d. split; [done|]. intros m.
    pose proof (zcount_nonneg k h). split; cbn [max_tracker_size store_threshold counts]; [done|done|lia| |].
    + intros k' n. rewrite zcount_cons. case_decide as Ek.
      * subst k'. rewrite Hg. intros [= <-]. lia.
      * destruct (Ho k') as [->| ->]; [congruence|done|]. intros ?%Hn. lia.
    + intros Hr k'. rewrite zlen_remove_dups_cons in Hr.
      assert (zlen (remove_dups h) ≤ max_tracker_size f) as Hr' by (case_decide; lia). specialize (He Hr').
      assert (k ∉ h) as Hk.
      { intros Hin%zcount_pos. specialize (He k). unfold od_mem in Hm. destruct (od_get (counts f) k); [done|]. cbn in He. lia. }
      rewrite decide_False // in Hr. rewrite zcount_cons. pose proof (counts_length f h Hc) as Hlen. case_decide as Ek.
      * subst k'. rewrite Hg. apply zcount_0 in Hk. cbn. lia.
      * rewrite Hx; [|lia|congruence]. by rewrite He.
Qed.

Lemma filter_reach_ok f h : filter_reach f h → CountsOk f h.
Proof.
  induction 1 as [m threshold size f E|f h k f' r _ IH E|f h m _ IH].
  - unfold FilterReused_init in E. repeat (case_bool_decide; [done|]). injection E as <-.
    split; cbn [max_tracker_size store_threshold counts]; [lia|constructor|unfold zlen; cbn; lia|done|]. intros _ k. done.
  - unfold fm_lookup in E. destruct (record_ok f h k IH) as (d & Ed & Hd). rewrite Ed in E. cbn [mbind res_bind] in E.
    destruct (om_lookup (backing f) k) as [[m r']|]; [|done]. injection E as <- _. apply Hd.
  - by destruct IH.
Qed.

(** The reuse filter never raises on its own account and never lets a key through
    early: its table stays within its size, a lookup returns whenever the decorated
    manager's does, and a store is prepared only for given keys that were looked up
    at least [store_threshold] times.  While the distinct keys looked up fit in the
    table the filter is exact. *)
Theorem reuse_filter_gates `{!StoresOnlyGiven M} f h :
  filter_reach f h →
  zlen (counts f) ≤ max_tracker_size f ∧
  (∀ k m r, om_lookup (backing f) k = Ok (m, r) → ∃ f', fm_lookup f k = Ok (f', r)) ∧
  (∀ ks f' out k, fm_prepare_store f ks = Ok (f', Some out) → k ∈ keys_to_store out →
     k ∈ ks ∧ store_threshold f ≤ zcount k h) ∧
  (zlen (remove_dups h) ≤ max_tracker_size f →
   ∀ ks, eligible f ks = filter (λ k, store_threshold f ≤ zcount k h) ks).
Proof.
  intros Hr%filter_reach_ok. split_and!; [apply Hr| | |].
  - intros k m r E. unfold fm_lookup. destruct (record_ok f h k Hr) as (d & -> & _). cbn [mbind res_bind]. rewrite E. by eexists.
  - intros ks f' out k. unfold fm_prepare_store. destruct (om_prepare_store _ _) as [[m o]|] eqn:E; [|done].
    cbn [mbind res_bind]. intros [= _ ->] Hk. apply (stores_given _ _ _ _ E) in Hk. unfold eligible in Hk.
    apply list_elem_of_filter in Hk as [Ht Hk]. split; [done|]. pose proof (co_size _ _ Hr).
    destruct (od_get (counts f) k) as [n|] eqn:Eg; cbn in Ht; [apply (co_count _ _ Hr) in Eg|]; lia.
  - intros Hx ks. unfold eligible. apply list_filter_iff. intros k. by rewrite (co_exact _ _ Hr Hx k).
Qed.
End Reuse.

(** ** Concrete runs *)

Definition key1 : OffloadKey := [Byte.x01].
Definition key2 : OffloadKey := [Byte.x02].
Definition key3 : OffloadKey := [Byte.x03].
Definition key4 : OffloadKey := [Byte.x04].

(** The manager after some calls; an exception when one of them raises. *)
Definition run_store {P} `{CachePolicy P} (ks : list OffloadKey) (m : CPUOffloadingManager P)
    : res (CPUOffloadingManager P) :=
  '(m, _) ← cm_prepare_store m ks; cm_complete_store m ks true.

(** Two blocks: [key1] and [key2] are stored, [key3] replaces [key1]. *)
Definition arc_run : res (CPUOffloadingManager ARCCachePolicy) :=
  m ← run_store [key1; key2] (CPUOffloadingManager_init 2 true);
  m ← run_store [key3] m;
  m ← cm_touch m [key1];
  m ← cm_touch m [key1];
  m ← cm_touch m [key2];
  '(m, _) ← cm_prepare_load m [key2];
  Ok m.

(** ARC can refuse an eviction that could be satisfied.  Two blocks: [key1] and
    [key2] are stored, [key3] replaces [key1], two ghost hits raise the target of T1
    to 2, [key2] is promoted to T2 and then loaded.  A store of [key4] now looks only
    at T2, whose block is in use, and is refused, although [key3] in T1 is in no
    transfer. *)
Theorem arc_refuses_evictable :
  (m ← arc_run; '(_, o) ← cm_prepare_store m [key4]; Ok (o, filter (evictable {[key4]}) (arc_items (policy m)))) =
  Ok (None, [(key3, mkBlockStatus 0 0)]).
Proof. vm_compute. reflexivity. Qed.

(** ** Witnesses *)

Definition lru_demo : CPUOffloadingManager LRUCachePolicy :=
  Eval vm_compute in
  match (m ← run_store [key1; key2] (CPUOffloadingManager_init 2 true); '(m, _) ← cm_prepare_load m [key2]; Ok m) with
  | Ok m => m
  | Raise _ => CPUOffloadingManager_init 2 true
  end.

Definition lru_stored : CPUOffloadingManager LRUCachePolicy :=
  Eval vm_compute in
  match cm_prepare_store (CPUOffloadingManager_init 2 true) [key1; key2] with Ok (m, _) => m | Raise _ => CPUOffloadingManager_init 2 true end.

Definition lru_ready : CPUOffloadingManager LRUCachePolicy :=
  Eval vm_compute in match cm_complete_store lru_stored [key1; key2] true with Ok m => m | Raise _ => lru_stored end.

Lemma lru_demo_reach : off_reach 2 true (lru_demo, [key2], []).
Proof.
  eapply (reach_step _ _ (lru_ready, [], []) (OpPrepareLoad [key2])).
  - eapply (reach_step _ _ (lru_stored, [], [key1; key2]) (OpCompleteStore [key1; key2] true)).
    + eapply (reach_step _ _ (CPUOffloadingManager_init 2 true, [], []) (OpPrepareStore [key1; key2])); [constructor|].
      apply (step_prepare_store _ [] [] [key1; key2] lru_stored (mkPrepareStoreOutput [key1; key2] [0; 1] [])).
      * refine (bool_decide_unpack _ _). vm_compute. exact I.
      * vm_compute. reflexivity.
    + apply (step_complete_store lru_stored [] [key1; key2] [key1; key2] true). vm_compute. reflexivity.
  - apply (step_prepare_load lru_ready [] [] [key2] lru_demo [1]); [|vm_compute; reflexivity].
    split; [|by vm_compute]. intros k ->%list_elem_of_singleton. vm_compute. reflexivity.
Qed.

Lemma offload_manager_safe_witness :
  OffOk lru_demo [key2] [] ∧ ∃ st', off_step (lru_demo, [key2], []) (OpCompleteLoad [key2]) st'.
Proof.
  destruct (offload_manager_safe 2 true lru_demo [key2] []) as [H1 H2]; [lia|apply lru_demo_reach|].
  split; [exact H1|]. apply H2. exists []. reflexivity.
Defined.

(** [key2] is being loaded; storing [key2] and [key3] evicts [key1] and reuses its block 0. *)
Definition lru_replaced : CPUOffloadingManager LRUCachePolicy :=
  Eval vm_compute in match cm_prepare_store lru_demo [key2; key3] with Ok (m, _) => m | Raise _ => lru_demo end.

Lemma offload_transfers_isolated_witness :
  slot lru_replaced key2 = Some 1 ∧ slot lru_replaced key2 = slot lru_demo key2 ∧
  ∃ i, slot lru_replaced key3 = Some i ∧ ∀ k', k' ∈ [key2] ∨ k' ∈ [] → slot lru_demo k' ≠ Some i.
Proof.
  split; [vm_compute; reflexivity|].
  destruct (offload_transfers_isolated 2 true lru_demo [key2] [] (OpPrepareStore [key2; key3]) lru_replaced [key2] ([key3] ++ []))
    as (H1 & _ & H3); [lia|apply lru_demo_reach| |].
  - apply (step_prepare_store lru_demo [key2] [] [key2; key3] lru_replaced (mkPrepareStoreOutput [key3] [0] [key1]));
      [refine (bool_decide_unpack _ _); vm_compute; exact I|vm_compute; reflexivity].
  - split; [exact (proj2 (H1 key2 (or_introl (list_elem_of_here _ _))))|].
    destruct (H3 _ eq_refl) as [_ H4]. destruct (H4 key3) as (_ & _ & H5); [left|apply not_elem_of_nil|exact H5].
Defined.

Lemma lru_evicts_oldest_witness :
  lru_evict (policy lru_demo) 1 ∅ = Ok (Some ([(key1, mkBlockStatus 0 0)], mkLRU [(key2, mkBlockStatus 1 1)])).
Proof.
  refine (eq_trans (lru_evicts_oldest (policy lru_demo) 1 ∅ _ _) _).
  - refine (bool_decide_unpack _ _). vm_compute. exact I.
  - lia.
  - vm_compute. reflexivity.
Defined.

Lemma lru_touch_order_witness :
  lru_touch (policy lru_demo) [key1] = Ok (mkLRU [(key2, mkBlockStatus 1 1); (key1, mkBlockStatus 0 0)]).
Proof.
  refine (eq_trans (lru_touch_order (policy lru_demo) [key1] _ _) _).
  - refine (bool_decide_unpack _ _). vm_compute. exact I.
  - refine (bool_decide_unpack _ _). vm_compute. exact I.
  - vm_compute. reflexivity.
Defined.

Definition arc_demo : ARCCachePolicy :=
  Eval vm_compute in
  match arc_evict (arc_assign (arc_insert (arc_init 2) key1 (BlockStatus_init 0)) key1 (mkBlockStatus 0 0)) 1 ∅ with
  | Ok (Some (_, p)) => p | _ => arc_init 2 end.

Lemma arc_lists_disjoint_witness : arc_keys arc_demo = [key1] ∧ NoDup (arc_keys arc_demo).
Proof.
  split; [vm_compute; reflexivity|]. refine (proj1 (arc_lists_disjoint 2 arc_demo _ _)); [lia|].
  eapply (arc_reach_evict 2 (arc_assign (arc_insert (arc_init 2) key1 (BlockStatus_init 0)) key1 (mkBlockStatus 0 0)) 1 ∅ [(key1, mkBlockStatus 0 0)]).
  - apply arc_reach_assign; [|by vm_compute]. apply arc_reach_insert; [constructor|reflexivity].
  - lia.
  - vm_compute. reflexivity.
Defined.

(** A filter with threshold 2 after two lookups of [key1]. *)
Definition filter_demo : FilterReused (CPUOffloadingManager LRUCachePolicy) :=
  mkFilterReused (CPUOffloadingManager_init 2 false) 2 4 [(key1, 2)].

Lemma reuse_filter_gates_witness : eligible filter_demo [key2; key1] = [key1].
Proof.
  assert (filter_reach filter_demo [key1; key1]) as Hr.
  { eapply (filter_lookup (mkFilterReused (CPUOffloadingManager_init 2 false) 2 4 [(key1, 1)]) [key1] key1 _ (Some false)); [|reflexivity].
    eapply (filter_lookup (mkFilterReused (CPUOffloadingManager_init 2 false) 2 4 []) [] key1 _ (Some false)); [|reflexivity].
    by eapply (filter_init (CPUOffloadingManager_init 2 false) 2 4). }
  refine (eq_trans (proj2 (proj2 (proj2 (reuse_filter_gates filter_demo [key1; key1] Hr))) _ [key2; key1]) _).
  - vm_compute. discriminate.
  - vm_compute. reflexivity.
Defined.
