(* ===== verification/NumPy.v ===== *)
(** * One-dimensional numpy arrays

    What the worker code uses of numpy: stores at an index, and stores to a slice with
    numpy's rule for shapes.  An index out of range raises; a slice is clamped like that
    of a list, and the value assigned to it must have its length or length one, in which
    case it is repeated (so that a single value assigned to an empty slice is dropped). *)

From S2P Require Import Prelude.

(** [a[i] = v]. *)
Definition np_store {A} (a : list A) (i : Z) (v : A) : res (list A) :=
  let j := if bool_decide (i < 0) then i + zlen a else i in
  if bool_decide (0 ≤ j < zlen a) then Ok (<[Z.to_nat j := v]> a) else Raise IndexError.

(** [a[lo:hi] = vs]. *)
Definition np_store_slice {A} (a : list A) (lo hi : Z) (vs : list A) : res (list A) :=
  let lo' := clamp_index (zlen a) lo in
  let n := Z.max 0 (clamp_index (zlen a) hi - lo') in
  let put ws := take (Z.to_nat lo') a ++ ws ++ drop (Z.to_nat (lo' + n)) a in
  if bool_decide (zlen vs = n) then Ok (put vs)
  else match vs with
       | [v] => Ok (put (py_repeat v n))
       | _ => Raise ValueError
       end.

(** [a[:hi] = x] for a scalar [x]. *)
Definition np_fill_to {A} (a : list A) (hi : Z) (x : A) : list A :=
  let n := clamp_index (zlen a) hi in
  py_repeat x n ++ drop (Z.to_nat n) a.

Section Store.
Context {A : Type}.
Implicit Types (a vs : list A) (i n : Z).

Lemma np_store_ok a i v : 0 ≤ i < zlen a → np_store a i v = Ok (<[Z.to_nat i := v]> a).
Proof.
  intros Hi. unfold np_store. rewrite (bool_decide_false (i < 0)); [|lia].
  rewrite bool_decide_true //.
Qed.

Lemma zlen_insert a i v : zlen (<[Z.to_nat i := v]> a) = zlen a.
Proof. unfold zlen. by rewrite length_insert. Qed.

(** A store to a slice that lies in the array replaces it. *)
Lemma np_store_slice_ok a lo vs :
  0 ≤ lo → lo + zlen vs ≤ zlen a →
  np_store_slice a lo (lo + zlen vs) vs = Ok (take (Z.to_nat lo) a ++ vs ++ drop (Z.to_nat (lo + zlen vs)) a).
Proof.
  intros Hlo Hhi. pose proof (zlen_nonneg vs). unfold np_store_slice, clamp_index.
  rewrite !(bool_decide_false (_ < 0)); [|lia..]. rewrite !Z.min_l; [|lia..].
  rewrite bool_decide_true; [do 4 f_equal; lia|lia].
Qed.

Lemma zlen_splice a lo vs :
  0 ≤ lo → lo + zlen vs ≤ zlen a →
  zlen (take (Z.to_nat lo) a ++ vs ++ drop (Z.to_nat (lo + zlen vs)) a) = zlen a.
Proof.
  intros Hlo Hhi. pose proof (zlen_nonneg vs). rewrite !zlen_app zlen_take; [|lia]. rewrite zlen_drop; lia.
Qed.

(** Reading up to the end of the slice sees what was there before it and then the values. *)
Lemma take_splice a lo vs :
  0 ≤ lo → lo + zlen vs ≤ zlen a →
  take (Z.to_nat (lo + zlen vs)) (take (Z.to_nat lo) a ++ vs ++ drop (Z.to_nat (lo + zlen vs)) a) =
  take (Z.to_nat lo) a ++ vs.
Proof.
  intros Hlo Hhi. pose proof (zlen_nonneg vs).
  rewrite app_assoc take_app_le.
  - rewrite take_ge //. rewrite length_app length_take. unfold zlen in *. lia.
  - rewrite length_app length_take. unfold zlen in *. lia.
Qed.

Lemma zlen_fill a n (x : A) : 0 ≤ n ≤ zlen a → zlen (np_fill_to a n x) = zlen a.
Proof.
  intros Hn. unfold np_fill_to, clamp_index. rewrite bool_decide_false; [|lia].
  rewrite Z.min_l; [|lia]. rewrite zlen_app zlen_repeat zlen_drop; lia.
Qed.
End Store.

