(* ===== verification/Ngram.v ===== *)
(** * The n-gram proposer

    [src/vllm/v1/spec_decode/ngram_proposer.py]: speculative tokens are copied from the
    place where the last tokens of a request occurred before.  The search runs the
    failure function of Knuth, Morris and Pratt on the reversed tokens, with the table
    cut at [max_ngram].  Token arrays are lists; numba does not check indices, so an
    index out of range is an error of the model and the theorems show that none occurs. *)

From S2P Require Import Prelude NumPy.

(** ** The search *)

(** The local variables of the loop. *)
Record NgramVars := {
  nv_lps : list Z;
  nv_longest_ngram : Z;
  nv_position : Z;
  nv_prev_lps : Z;
  nv_i : Z;
}.

Section Search.
Context (tokens : list Z) (max_ngram : Z).

Definition ngram_init : NgramVars :=
  {| nv_lps := py_repeat 0 max_ngram; nv_longest_ngram := 0; nv_position := 0; nv_prev_lps := 0; nv_i := 1 |}.

(** The branch for two equal tokens. *)
Definition ngram_match (v : NgramVars) : res NgramVars :=
  let i := nv_i v in
  let prev_lps := nv_prev_lps v + 1 in
  let longer := bool_decide (nv_longest_ngram v ≤ prev_lps) in
  lps ← (if bool_decide (i < max_ngram) then np_store (nv_lps v) i prev_lps else Ok (nv_lps v));
  next ← (if bool_decide (prev_lps = max_ngram) then py_nth lps (max_ngram - 1) else Ok prev_lps);
  Ok {| nv_lps := lps;
        nv_longest_ngram := if longer then prev_lps else nv_longest_ngram v;
        nv_position := if longer then i else nv_position v;
        nv_prev_lps := next; nv_i := i + 1 |}.

(** One round of the loop. *)
Definition ngram_step (v : NgramVars) : res NgramVars :=
  a ← py_nth tokens (nv_prev_lps v);
  b ← py_nth tokens (nv_i v);
  if bool_decide (a = b) then ngram_match v
  else if bool_decide (nv_prev_lps v ≠ 0) then
    p ← py_nth (nv_lps v) (nv_prev_lps v - 1);
    Ok {| nv_lps := nv_lps v; nv_longest_ngram := nv_longest_ngram v; nv_position := nv_position v;
          nv_prev_lps := p; nv_i := nv_i v |}
  else Ok {| nv_lps := nv_lps v; nv_longest_ngram := nv_longest_ngram v; nv_position := nv_position v;
             nv_prev_lps := 0; nv_i := nv_i v + 1 |}.

(** [while i < total_token].  Every round increases [2 * i - prev_lps]. *)
Fixpoint ngram_loop (fuel : nat) (v : NgramVars) : res NgramVars :=
  if bool_decide (nv_i v < zlen tokens) then
    match fuel with
    | O => Raise OutOfFuel
    | S fuel => v' ← ngram_step v; ngram_loop fuel v'
    end
  else Ok v.
End Search.

Definition _find_longest_matched_ngram_and_propose_tokens
    (origin_tokens : list Z) (min_ngram max_ngram max_model_len k : Z) : res (list Z) :=
  let total_token := zlen origin_tokens in
  if bool_decide (total_token < min_ngram) then Ok []
  else
    let k := Z.min k (max_model_len - total_token) in
    if bool_decide (k ≤ 0) then Ok []
    else
      let tokens := reverse origin_tokens in
      v ← ngram_loop tokens max_ngram (2 * length origin_tokens) (ngram_init max_ngram);
      if bool_decide (nv_longest_ngram v < min_ngram) then Ok []
      else
        let start_position := total_token - 1 - nv_position v + nv_longest_ngram v in
        let k := Z.min k (total_token - start_position) in
        Ok (py_slice origin_tokens start_position (start_position + k)).

(** ** The proposer *)

(** The fields of [NgramProposer]; the arrays are buffers that keep their contents from
    call to call.  The number of threads is absent: it does not change the result. *)
Record NgramProposer := {
  ng_min_n : Z;
  ng_max_n : Z;
  ng_k : Z;
  ng_max_model_len : Z;
  ng_valid_ngram_draft : list (list Z);
  ng_valid_ngram_num_drafts : list Z;
}.

Definition ng_with_buffers (p : NgramProposer) (draft : list (list Z)) (num : list Z) : NgramProposer :=
  {| ng_min_n := ng_min_n p; ng_max_n := ng_max_n p; ng_k := ng_k p; ng_max_model_len := ng_max_model_len p;
     ng_valid_ngram_draft := draft; ng_valid_ngram_num_drafts := num |}.

(** The body of the parallel loop; [token_ids_cpu[idx, :num_tokens]] is a view of a row. *)
Definition propose_one (num_tokens_no_spec : list Z) (token_ids_cpu : list (list Z)) (p : NgramProposer) (idx : Z)
    : res NgramProposer :=
  num_tokens ← py_nth num_tokens_no_spec idx;
  row ← py_nth token_ids_cpu idx;
  drafter_output ← _find_longest_matched_ngram_and_propose_tokens (py_slice_to row num_tokens)
                     (ng_min_n p) (ng_max_n p) (ng_max_model_len p) (ng_k p);
  num ← np_store (ng_valid_ngram_num_drafts p) idx (zlen drafter_output);
  draft ← (if is_nil drafter_output then Ok (ng_valid_ngram_draft p)
           else drow ← py_nth (ng_valid_ngram_draft p) idx;
                drow ← np_store_slice drow 0 (zlen drafter_output) drafter_output;
                np_store (ng_valid_ngram_draft p) idx drow);
  Ok (ng_with_buffers p draft num).

Section Batch.
(** The order in which [prange] runs the iterations. *)
Context (prange : list Z → list Z).

Definition batch_propose_numba (valid_ngram_requests num_tokens_no_spec : list Z) (token_ids_cpu : list (list Z))
    (p : NgramProposer) : res NgramProposer :=
  foldM (propose_one num_tokens_no_spec token_ids_cpu) p (prange valid_ngram_requests).

(** The draft of one request, read from the buffers. *)
Definition read_draft (valid_ngram_requests : list Z) (p : NgramProposer) (i : Z) : res (list Z) :=
  if bool_decide (i ∈ valid_ngram_requests) then
    n ← py_nth (ng_valid_ngram_num_drafts p) i;
    if bool_decide (0 < n) then drow ← py_nth (ng_valid_ngram_draft p) i; Ok (py_slice_to drow n)
    else Ok []
  else Ok [].

Definition batch_propose (p : NgramProposer) (num_requests : Z) (valid_ngram_requests num_tokens_no_spec : list Z)
    (token_ids_cpu : list (list Z)) : res (NgramProposer * list (list Z)) :=
  p ← (if is_nil valid_ngram_requests then Ok p
       else batch_propose_numba valid_ngram_requests num_tokens_no_spec token_ids_cpu p);
  draft_token_ids ← mapM_res (read_draft valid_ngram_requests p) (zrange 0 num_requests);
  Ok (p, draft_token_ids).

(** The requests that get a proposal: those with sampled tokens that have room. *)
Fixpoint valid_requests (p : NgramProposer) (num_tokens_no_spec : list Z) (i : Z) (sampled_token_ids : list (list Z))
    : res (list Z) :=
  match sampled_token_ids with
  | [] => Ok []
  | sampled_ids :: rest =>
      if is_nil sampled_ids then valid_requests p num_tokens_no_spec (i + 1) rest
      else
        num_tokens ← py_nth num_tokens_no_spec i;
        valid ← valid_requests p num_tokens_no_spec (i + 1) rest;
        Ok (if bool_decide (ng_max_model_len p ≤ num_tokens) then valid else i :: valid)
  end.

Definition propose (p : NgramProposer) (sampled_token_ids : list (list Z)) (num_tokens_no_spec : list Z)
    (token_ids_cpu : list (list Z)) : res (NgramProposer * list (list Z)) :=
  valid_ngram_requests ← valid_requests p num_tokens_no_spec 0 sampled_token_ids;
  batch_propose p (zlen sampled_token_ids) valid_ngram_requests num_tokens_no_spec token_ids_cpu.

(** The constructor, with the call that triggers compilation. *)
Definition NgramProposer_init (min_n max_n k max_model_len max_num_seqs : Z) : res NgramProposer :=
  let p := {| ng_min_n := min_n; ng_max_n := max_n; ng_k := k; ng_max_model_len := max_model_len;
              ng_valid_ngram_draft := py_repeat (py_repeat 0 k) max_num_seqs;
              ng_valid_ngram_num_drafts := py_repeat 0 max_num_seqs |} in
  r ← propose p (py_repeat [] 1024) (py_repeat 0 1024) (py_repeat (py_repeat 0 max_model_len) 1024);
  Ok (fst r).
End Batch.

(** ** The reference *)

(** The last [n] tokens occur at [p], before the end. *)
Definition ngram_at (tokens : list Z) (n p : Z) : Prop :=
  take (Z.to_nat n) (drop (Z.to_nat p) tokens) = drop (Z.to_nat (zlen tokens - n)) tokens.

#[export] Instance ngram_at_dec tokens n p : Decision (ngram_at tokens n p).
Proof. unfold ngram_at. apply _. Defined.

(** The first result that a function has on a list. *)
Definition first_some {A B} (f : A → option B) (l : list A) : option B := head (omap f l).

Definition first_occurrence (tokens : list Z) (n : Z) : option Z :=
  first_some (λ p, if bool_decide (ngram_at tokens n p) then Some p else None) (zrange 0 (zlen tokens - n)).

(** The longest n-gram and its first occurrence, by trying all. *)
Definition longest_occurrence (tokens : list Z) (min_n max_n : Z) : option (Z * Z) :=
  first_some (λ n, (λ p, (n, p)) <$> first_occurrence tokens n) (zrange_down max_n (min_n - 1)).

Definition ngram_reference (tokens : list Z) (min_n max_n max_model_len k : Z) : list Z :=
  match longest_occurrence tokens min_n max_n with
  | None => []
  | Some (n, p) => take (Z.to_nat (Z.min k (max_model_len - zlen tokens))) (drop (Z.to_nat (p + n)) tokens)
  end.

Lemma first_some_hit {A B} (f : A → option B) (l : list A) (k : nat) x y :
  l !! k = Some x → f x = Some y → (∀ j z, (j < k)%nat → l !! j = Some z → f z = None) → first_some f l = Some y.
Proof.
  unfold first_some. revert k. induction l as [|z l IH]; intros [|k] Hx Hy Hn; simplify_eq/=.
  - by rewrite Hy.
  - rewrite (Hn 0%nat z); [|lia|done]. apply (IH k); [done..|]. intros j w Hj Hw. apply (Hn (S j)); [lia|done].
Qed.

Lemma first_some_miss {A B} (f : A → option B) (l : list A) : (∀ x, x ∈ l → f x = None) → first_some f l = None.
Proof.
  unfold first_some. induction l as [|z l IH]; intros Hn; [done|]. cbn [omap list_omap].
  rewrite Hn; [|left]. apply IH. intros x Hx. apply Hn. by right.
Qed.

(** ** Borders *)

(** An array of integers as a function of its index. *)
Definition zat (l : list Z) (i : Z) : Z := default 0 (l !! Z.to_nat i).

Lemma py_nth_zat l i : 0 ≤ i < zlen l → py_nth l i = Ok (zat l i).
Proof. intros Hi. destruct (zlen_lookup l i Hi) as [x Hx]. unfold zat. rewrite Hx. apply py_nth_ok; [lia|done]. Qed.

Lemma zat_insert l i j x : 0 ≤ i < zlen l → 0 ≤ j → zat (<[Z.to_nat i := x]> l) j = if decide (i = j) then x else zat l j.
Proof.
  intros Hi Hj. unfold zat. destruct (decide (i = j)) as [->|Hij].
  - rewrite list_lookup_insert_eq; [done|]. unfold zlen in Hi. lia.
  - rewrite list_lookup_insert_ne; [done|lia].
Qed.

Lemma zat_repeat n i : zat (py_repeat 0 n) i = 0.
Proof. unfold zat. destruct (py_repeat 0 n !! Z.to_nat i) as [x|] eqn:E; [|done]. by apply lookup_replicate in E as [-> _]. Qed.

Lemma zat_reverse l i : 0 ≤ i < zlen l → zat (reverse l) i = zat l (zlen l - 1 - i).
Proof.
  intros Hi. unfold zat, zlen in *. rewrite reverse_lookup; [|lia]. do 3 f_equal. lia.
Qed.

Section Borders.
Context (g : Z → Z).

(** [g 0 .. g (v - 1)] is a proper suffix of [g 0 .. g (i - 1)]. *)
Definition border (i v : Z) : Prop := 0 ≤ v < i ∧ ∀ j, 0 ≤ j < v → g j = g (i - v + j).

Lemma border_0 i : 0 < i → border i 0.
Proof. intros ?. split; lia. Qed.

Lemma border_trans i v w : border i v → border v w → border i w.
Proof.
  intros [Hv Bv] [Hw Bw]. split; [lia|]. intros j Hj. rewrite Bw; [|done]. rewrite Bv; [|lia]. f_equal. lia.
Qed.

Lemma border_restrict i v w : border i v → border i w → w < v → border v w.
Proof.
  intros [Hv Bv] [Hw Bw] Hlt. split; [lia|]. intros j Hj. rewrite Bw; [|done]. rewrite (Bv (v - w + j)); [|lia]. f_equal. lia.
Qed.

Lemma border_pred i w : border (i + 1) w → 1 ≤ w → border i (w - 1) ∧ g (w - 1) = g i.
Proof.
  intros [Hw Bw] H1. split.
  - split; [lia|]. intros j Hj. rewrite Bw; [|lia]. f_equal. lia.
  - rewrite (Bw (w - 1)); [|lia]. f_equal. lia.
Qed.

Lemma border_succ i v : border i v → g v = g i → border (i + 1) (v + 1).
Proof.
  intros [Hv Bv] Hg. split; [lia|]. intros j Hj. destruct (decide (j = v)) as [->|].
  - rewrite Hg. f_equal. lia.
  - rewrite Bv; [|lia]. f_equal. lia.
Qed.

(** The longest border. *)
Definition longest_border (i m : Z) : Prop := border i m ∧ ∀ w, border i w → w ≤ m.

(** A border shorter than a border is at most its longest border. *)
Lemma shorter_border i v m w : border i v → longest_border v m → border i w → w < v → w ≤ m.
Proof. intros Hv [_ Hm] Hw Hlt. apply Hm. eapply border_restrict; eauto. Qed.
End Borders.

(** ** The loop computes longest borders *)

Section Loop.
Context (tokens : list Z) (M : Z) (HM : 1 ≤ M).
Local Abbreviation g := (zat tokens).

(** At the head of the loop: [prev_lps] is the border of the first [i] tokens that can
    still be extended, the table holds the longest borders of the first prefixes, and
    the best n-gram so far is the longest border (of length at most [M]) seen, at the
    last place where it was seen. *)
Record ngram_inv (v : NgramVars) : Prop := {
  inv_i : 1 ≤ nv_i v ≤ zlen tokens;
  inv_len : zlen (nv_lps v) = M;
  inv_prev : border g (nv_i v) (nv_prev_lps v) ∧ nv_prev_lps v < M;
  inv_cand : ∀ w, w ≤ M → border g (nv_i v + 1) w → w ≤ nv_prev_lps v + 1;
  inv_table : ∀ q, 1 ≤ q ≤ nv_i v → q ≤ M → longest_border g q (zat (nv_lps v) (q - 1));
  inv_zero : ∀ q, nv_i v ≤ q < M → zat (nv_lps v) q = 0;
  inv_best : 0 ≤ nv_longest_ngram v ≤ M ∧
    (nv_longest_ngram v = 0 ∨ 0 ≤ nv_position v < nv_i v ∧ border g (nv_position v + 1) (nv_longest_ngram v));
  inv_max : ∀ q w, 1 ≤ q ≤ nv_i v → 1 ≤ w ≤ M → border g q w →
    w ≤ nv_longest_ngram v ∧ (w = nv_longest_ngram v → q - 1 ≤ nv_position v);
}.

Lemma ngram_inv_init : 1 ≤ zlen tokens → ngram_inv (ngram_init M).
Proof.
  intros Ht. split; cbn.
  - lia.
  - rewrite zlen_repeat. lia.
  - split; [apply border_0|]; lia.
  - intros w _ [? _]. lia.
  - intros q Hq _. rewrite zat_repeat. assert (q = 1) as -> by lia. split; [by apply border_0|]. intros w [? _]. lia.
  - intros q _. apply zat_repeat.
  - split; [lia|by left].
  - intros q w Hq Hw [? _]. lia.
Qed.

(** The potential that every round increases. *)
Definition ngram_progress (v : NgramVars) : Z := 2 * nv_i v - nv_prev_lps v.

Lemma ngram_fail_step v :
  ngram_inv v → nv_i v < zlen tokens → g (nv_prev_lps v) ≠ g (nv_i v) → nv_prev_lps v ≠ 0 →
  ngram_inv {| nv_lps := nv_lps v; nv_longest_ngram := nv_longest_ngram v; nv_position := nv_position v;
               nv_prev_lps := zat (nv_lps v) (nv_prev_lps v - 1); nv_i := nv_i v |}.
Proof.
  intros I Hi Hne H0. destruct (inv_prev v I) as [Bp Hp]. pose proof Bp as [Hr _].
  destruct (inv_table v I (nv_prev_lps v)) as [Bm Hm]; [lia..|]. pose proof Bm as [Hmr _].
  split; cbn; try apply I.
  - split; [by eapply border_trans|lia].
  - intros w Hw Bw. pose proof (inv_cand v I w Hw Bw) as Hc. destruct (decide (w ≤ 0)) as [|Hpos]; [lia|].
    destruct (border_pred g _ _ Bw) as [Bw' Hg]; [lia|].
    assert (w ≠ nv_prev_lps v + 1) as Hx.
    { intros ->. apply Hne. rewrite -Hg. f_equal. lia. }
    enough (w - 1 ≤ zat (nv_lps v) (nv_prev_lps v - 1)) by lia.
    eapply (shorter_border g); [exact Bp|by split|exact Bw'|lia].
Qed.

Lemma ngram_skip_step v :
  ngram_inv v → nv_i v < zlen tokens → g (nv_prev_lps v) ≠ g (nv_i v) → nv_prev_lps v = 0 →
  ngram_inv {| nv_lps := nv_lps v; nv_longest_ngram := nv_longest_ngram v; nv_position := nv_position v;
               nv_prev_lps := 0; nv_i := nv_i v + 1 |}.
Proof.
  intros I Hi Hne H0. pose proof (inv_i v I) as Hi1.
  assert (∀ w, w ≤ M → border g (nv_i v + 1) w → w ≤ 0) as Hno.
  { intros w Hw Bw. pose proof (inv_cand v I w Hw Bw) as Hc. destruct (decide (w ≤ 0)) as [|Hpos]; [done|].
    destruct (border_pred g _ _ Bw) as [_ Hg]; [lia|]. destruct Hne. rewrite -Hg. f_equal. lia. }
  split; cbn; try apply I; [lia| | | | | |].
  - split; [apply border_0|]; lia.
  - intros w Hw Bw. destruct (decide (w ≤ 0)) as [|Hpos]; [lia|].
    destruct (border_pred g _ _ Bw) as [Bw' _]; [lia|]. apply Hno in Bw'; lia.
  - intros q Hq HqM. destruct (decide (q = nv_i v + 1)) as [->|]; [|apply I; lia].
    replace (nv_i v + 1 - 1) with (nv_i v) by lia. rewrite (inv_zero v I); [|lia].
    split; [apply border_0; lia|]. intros w Bw. apply Hno; [|done]. destruct Bw. lia.
  - intros q Hq. apply I. lia.
  - destruct (inv_best v I) as [? [?|[? ?]]]; split; [lia|by left|lia|]. right. split; [lia|done].
  - intros q w Hq Hw Bw. destruct (decide (q = nv_i v + 1)) as [->|]; [|apply I; [lia|done..]].
    apply Hno in Bw; lia.
Qed.

(** The table after the store of a match. *)
Lemma ngram_table_step v :
  ngram_inv v → g (nv_prev_lps v) = g (nv_i v) →
  let i := nv_i v in
  ∃ lps, (if bool_decide (i < M) then np_store (nv_lps v) i (nv_prev_lps v + 1) else Ok (nv_lps v)) = Ok lps ∧
    zlen lps = M ∧ (∀ q, 1 ≤ q ≤ i + 1 → q ≤ M → longest_border g q (zat lps (q - 1))) ∧
    (∀ q, i + 1 ≤ q < M → zat lps q = 0).
Proof.
  intros I Hg i. pose proof (inv_i v I) as Hi1. pose proof (inv_len v I) as Hl. destruct (inv_prev v I) as [Bp Hp].
  destruct (bool_decide_reflect (i < M)) as [Hlt|Hge].
  - exists (<[Z.to_nat i := nv_prev_lps v + 1]> (nv_lps v)).
    split; [apply np_store_ok; lia|]. split; [by rewrite zlen_insert|]. split.
    + intros q Hq HqM. rewrite zat_insert; [|lia..]. destruct (decide (i = q - 1)) as [Hiq|]; [|apply I; lia].
      replace q with (i + 1) by lia. split; [by apply border_succ|].
      intros w Bw. apply (inv_cand v I); [|done]. destruct Bw. lia.
    + intros q Hq. rewrite zat_insert; [|lia..]. rewrite decide_False; [|lia]. apply I. lia.
  - exists (nv_lps v). split_and!; [done..|intros q Hq HqM; apply I; lia|intros q Hq; apply I; lia].
Qed.

Lemma ngram_match_step v :
  ngram_inv v → nv_i v < zlen tokens → g (nv_prev_lps v) = g (nv_i v) →
  ∃ v', ngram_match M v = Ok v' ∧ ngram_inv v' ∧ nv_i v' = nv_i v + 1 ∧ nv_prev_lps v' ≤ nv_prev_lps v + 1.
Proof.
  intros I Hi Hg. pose proof (inv_i v I) as Hi1. destruct (inv_prev v I) as [Bp Hp]. pose proof Bp as [Hr _].
  pose proof (border_succ g _ _ Bp Hg) as Bn. pose proof (inv_cand v I) as Hc.
  destruct (ngram_table_step v I Hg) as (lps & E & Hl & Ht & Hz). unfold ngram_match. rewrite E. cbn [mbind res_bind].
  remember (nv_prev_lps v + 1) as n eqn:Hn.
  assert (∃ next, (if bool_decide (n = M) then py_nth lps (M - 1) else Ok n) = Ok next ∧
    border g (nv_i v + 1) next ∧ next < M ∧ next ≤ n ∧ (∀ w, w < M → border g (nv_i v + 1) w → w ≤ next))
    as (next & En & Bnext & HnM & Hnn & Hmax).
  { destruct (bool_decide_reflect (n = M)) as [HnM|HnM].
    - destruct (Ht M) as [Bm Hm]; [lia..|]. pose proof Bm as [Hmr _]. exists (zat lps (M - 1)).
      split; [apply py_nth_zat; lia|]. rewrite HnM in Bn |- *. split; [by eapply border_trans|]. split; [lia|]. split; [lia|].
      intros w Hw Bw. eapply (shorter_border g); [exact Bn|by split|exact Bw|done].
    - exists n. split_and!; [done..|lia|lia|]. intros w Hw Bw. apply Hc; [lia|done]. }
  rewrite En. cbn [mbind res_bind]. clear E En. eexists. split; [done|]. split; [|done].
  split; cbn; [lia|done|by split| |done|done| |].
  - intros w Hw Bw. destruct (decide (w ≤ 0)) as [|Hpos]; [destruct Bnext; lia|].
    destruct (border_pred g _ _ Bw) as [Bw' _]; [lia|]. apply Hmax in Bw'; lia.
  - pose proof (inv_best v I) as [? Hb]. case_bool_decide; split; [lia|right; split; [lia|done]|lia|].
    destruct Hb as [?|[? ?]]; [by left|right; split; [lia|done]].
  - intros q w Hq Hw Bw. destruct (decide (q = nv_i v + 1)) as [->|].
    + apply Hc in Bw; [|lia]. case_bool_decide; lia.
    + destruct (inv_max v I q w) as [? ?]; [lia|done..|]. case_bool_decide; lia.
Qed.

Lemma ngram_step_ok v :
  ngram_inv v → nv_i v < zlen tokens →
  ∃ v', ngram_step tokens M v = Ok v' ∧ ngram_inv v' ∧ ngram_progress v < ngram_progress v'.
Proof.
  intros I Hi. pose proof (inv_i v I) as Hi1. destruct (inv_prev v I) as [Bp Hp]. pose proof Bp as [Hr _].
  unfold ngram_step, ngram_progress. rewrite (py_nth_zat tokens (nv_prev_lps v)); [|lia]. rewrite (py_nth_zat tokens (nv_i v)); [|lia].
  cbn [mbind res_bind]. destruct (bool_decide_reflect (g (nv_prev_lps v) = g (nv_i v))) as [Hg|Hg].
  - destruct (ngram_match_step v I Hi Hg) as (v' & -> & I' & Hi' & Hp'). exists v'. split_and!; [done..|lia].
  - case_bool_decide as H0.
    + rewrite py_nth_zat; [|rewrite (inv_len v I); lia]. cbn [mbind res_bind]. eexists. split; [done|].
      split; [by apply ngram_fail_step|]. cbn.
      destruct (inv_table v I (nv_prev_lps v)) as [[? _] _]; lia.
    + eexists. split; [done|]. split; [by apply ngram_skip_step|]. cbn. lia.
Qed.

Lemma ngram_loop_ok fuel v :
  ngram_inv v → 2 * zlen tokens ≤ ngram_progress v + Z.of_nat fuel →
  ∃ v', ngram_loop tokens M fuel v = Ok v' ∧ ngram_inv v' ∧ nv_i v' = zlen tokens.
Proof.
  revert v. induction fuel as [|fuel IH]; intros v I Hf; cbn [ngram_loop];
    pose proof (inv_i v I) as Hi1; destruct (inv_prev v I) as [[Hr _] _];
    (case_bool_decide as Hi; [|exists v; split_and!; [done..|lia]]).
  - unfold ngram_progress in Hf. lia.
  - destruct (ngram_step_ok v I Hi) as (v' & -> & I' & Hp). cbn [mbind res_bind]. apply IH; [done|lia].
Qed.
End Loop.

(** ** The search finds what the reference finds *)

Lemma zat_lookup l i : 0 ≤ i < zlen l → l !! Z.to_nat i = Some (zat l i).
Proof. intros Hi. destruct (zlen_lookup l i Hi) as [x Hx]. unfold zat. by rewrite Hx. Qed.

Lemma slices_eq l a b n :
  0 ≤ n → 0 ≤ a → a + n ≤ zlen l → 0 ≤ b → b + n ≤ zlen l →
  take (Z.to_nat n) (drop (Z.to_nat a) l) = take (Z.to_nat n) (drop (Z.to_nat b) l) ↔
  ∀ k, 0 ≤ k < n → zat l (a + k) = zat l (b + k).
Proof.
  intros Hn Ha Han Hb Hbn.
  assert (∀ c k, 0 ≤ c → c + n ≤ zlen l → 0 ≤ k < n →
    take (Z.to_nat n) (drop (Z.to_nat c) l) !! Z.to_nat k = Some (zat l (c + k))) as Hat.
  { intros c k Hc Hcn Hk. rewrite lookup_take_lt; [|lia]. rewrite lookup_drop -Z2Nat.inj_add; [|lia..].
    apply zat_lookup. lia. }
  split.
  - intros E k Hk. apply (inj Some). by rewrite -!Hat // E.
  - intros E. apply list_eq. intros i. destruct (decide (Z.of_nat i < n)) as [Hi|Hi].
    + rewrite -(Nat2Z.id i) !Hat; [rewrite E; [done|lia]|lia..].
    + rewrite !lookup_take_ge //; lia.
Qed.

Section Reference.
Context (tokens : list Z).
Local Abbreviation total := (zlen tokens).
Local Abbreviation g := (zat (reverse tokens)).

(** An earlier occurrence of the last tokens is a border of a reversed prefix. *)
Lemma ngram_at_border n p : 1 ≤ n → 0 ≤ p → p + n < total → ngram_at tokens n p ↔ border g (total - p) n.
Proof.
  intros Hn Hp Hpn. unfold ngram_at, border.
  rewrite -(take_ge (drop (Z.to_nat (total - n)) tokens) (Z.to_nat n)); [|rewrite length_drop; unfold zlen; lia].
  rewrite slices_eq; [|lia..]. split.
  - intros E. split; [lia|]. intros j Hj. rewrite !zat_reverse; [|lia..].
    specialize (E (n - 1 - j) ltac:(lia)). replace (total - 1 - j) with (total - n + (n - 1 - j)) by lia.
    rewrite -E. f_equal. lia.
  - intros [_ E] k Hk. specialize (E (n - 1 - k) ltac:(lia)). rewrite !zat_reverse in E; [|lia..].
    transitivity (zat tokens (total - 1 - (total - p - n + (n - 1 - k)))); [f_equal; lia|].
    rewrite -E. f_equal. lia.
Qed.

Lemma first_occurrence_hit n p :
  1 ≤ n → 0 ≤ p → p + n < total → border g (total - p) n →
  (∀ q, 0 ≤ q < p → ¬ border g (total - q) n) → first_occurrence tokens n = Some p.
Proof.
  intros Hn Hp Hpn Hb Hno. unfold first_occurrence, zrange. apply (first_some_hit _ _ (Z.to_nat p) p).
  - rewrite lookup_seqZ_lt; [f_equal; lia|lia].
  - rewrite bool_decide_true //. by apply ngram_at_border.
  - intros j q Hj [-> Hlt]%lookup_seqZ. rewrite bool_decide_false //.
    rewrite ngram_at_border; [|lia..]. apply Hno. lia.
Qed.

Lemma first_occurrence_miss n :
  1 ≤ n → (∀ q, 0 ≤ q → q + n < total → ¬ border g (total - q) n) → first_occurrence tokens n = None.
Proof.
  intros Hn Hno. unfold first_occurrence. apply first_some_miss. intros q Hq%elem_of_zrange.
  rewrite bool_decide_false //. rewrite ngram_at_border; [|lia..]. apply Hno; lia.
Qed.

Lemma lookup_zrange_down a b k : 0 ≤ k < a - b → zrange_down a b !! Z.to_nat k = Some (a - k).
Proof.
  intros Hk. unfold zrange_down. rewrite reverse_lookup; [|rewrite length_seqZ; lia].
  rewrite length_seqZ lookup_seqZ_lt; [f_equal; lia|lia].
Qed.

(** What the loop returns decides the search of the reference. *)
Lemma longest_occurrence_loop min_n max_n v :
  1 ≤ min_n → 1 ≤ max_n → ngram_inv (reverse tokens) max_n v → nv_i v = total →
  longest_occurrence tokens min_n max_n =
  if bool_decide (nv_longest_ngram v < min_n) then None
  else Some (nv_longest_ngram v, total - 1 - nv_position v).
Proof.
  intros Hmin Hmax I Hi. pose proof (inv_best _ _ v I) as [Hb Hp]. unfold longest_occurrence.
  assert (∀ n, nv_longest_ngram v < n ≤ max_n → 1 ≤ n → first_occurrence tokens n = None) as Hnone.
  { intros n Hn H1. apply first_occurrence_miss; [done|]. intros q Hq Hqn B.
    destruct (inv_max _ _ v I (total - q) n) as [? _]; [lia..|done|lia]. }
  case_bool_decide as Hl.
  - apply first_some_miss. intros n Hn. rewrite Hnone; [done| |];
      apply elem_of_reverse, elem_of_seqZ in Hn; lia.
  - destruct Hp as [?|[Hpos B]]; [lia|]. pose proof B as [Hr _].
    apply (first_some_hit _ _ (Z.to_nat (max_n - nv_longest_ngram v)) (nv_longest_ngram v)).
    + rewrite lookup_zrange_down; [f_equal; lia|lia].
    + rewrite (first_occurrence_hit _ (total - 1 - nv_position v)); [done|lia..| |].
      * by replace (total - (total - 1 - nv_position v)) with (nv_position v + 1) by lia.
      * intros q Hq Bq. destruct (inv_max _ _ v I (total - q) (nv_longest_ngram v)) as [_ Hlast]; [lia..|done|].
        specialize (Hlast eq_refl). lia.
    + intros j n Hj Hn. pose proof (lookup_lt_Some _ _ _ Hn) as Hlt. unfold zrange_down in Hlt.
      rewrite length_reverse length_seqZ in Hlt. rewrite -(Nat2Z.id j) lookup_zrange_down in Hn; [|lia].
      simplify_eq. by rewrite Hnone; [|lia..].
Qed.
End Reference.

Lemma longest_occurrence_short tokens min_n max_n :
  zlen tokens < min_n → longest_occurrence tokens min_n max_n = None.
Proof.
  intros Hlt. apply first_some_miss. intros n Hn%elem_of_reverse%elem_of_seqZ.
  rewrite /first_occurrence /zrange seqZ_nil; [done|lia].
Qed.

Lemma find_reference tokens min_n max_n max_model_len k :
  1 ≤ min_n → 1 ≤ max_n →
  _find_longest_matched_ngram_and_propose_tokens tokens min_n max_n max_model_len k =
  Ok (ngram_reference tokens min_n max_n max_model_len k).
Proof.
  intros Hmin Hmax. unfold _find_longest_matched_ngram_and_propose_tokens, ngram_reference.
  case_bool_decide as Hlt; [by rewrite longest_occurrence_short|]. case_bool_decide as Hk.
  { destruct (longest_occurrence tokens min_n max_n) as [[n p]|]; [|done]. by rewrite Z2Nat.nonpos. }
  destruct (ngram_loop_ok (reverse tokens) max_n Hmax (2 * length tokens) (ngram_init max_n)) as (v & -> & I & Hi).
  { apply ngram_inv_init; [done|]. rewrite zlen_reverse. lia. }
  { rewrite zlen_reverse. unfold ngram_progress, zlen. cbn. lia. }
  rewrite zlen_reverse in Hi. cbn [mbind res_bind]. rewrite (longest_occurrence_loop tokens _ _ v) //.
  pose proof (inv_best _ _ v I) as [Hb Hp]. case_bool_decide as Hl; [done|].
  destruct Hp as [?|[Hpos [Hr _]]]; [lia|].
  rewrite py_slice_take_drop; [|lia..]. f_equal.
  set (m := zlen tokens - 1 - nv_position v + nv_longest_ngram v).
  destruct (Z.min_spec (Z.min k (max_model_len - zlen tokens)) (zlen tokens - m)) as [[? ->]|[? ->]].
  - f_equal. lia.
  - rewrite !take_ge //; rewrite length_drop; unfold zlen in *; lia.
Qed.

Lemma reference_length tokens min_n max_n max_model_len k :
  0 ≤ k → zlen (ngram_reference tokens min_n max_n max_model_len k) ≤ k.
Proof.
  intros Hk. unfold ngram_reference. destruct (longest_occurrence tokens min_n max_n) as [[n p]|]; [|done].
  unfold zlen. rewrite length_take. lia.
Qed.

(** ** The batch *)

(** The proposer of a batch of at most [n] requests. *)
Record ng_ok (n : Z) (p : NgramProposer) : Prop := {
  ng_min_pos : 1 ≤ ng_min_n p;
  ng_max_pos : 1 ≤ ng_max_n p;
  ng_k_nonneg : 0 ≤ ng_k p;
  ng_draft_len : zlen (ng_valid_ngram_draft p) = n;
  ng_num_len : zlen (ng_valid_ngram_num_drafts p) = n;
  ng_rows : Forall (λ row, zlen row = ng_k p) (ng_valid_ngram_draft p);
}.

Definition ng_config (p : NgramProposer) : Z * Z * Z * Z := (ng_min_n p, ng_max_n p, ng_k p, ng_max_model_len p).

(** What the reference proposes for the request in row [i]. *)
Definition reference_draft (p : NgramProposer) (num_tokens_no_spec : list Z) (token_ids_cpu : list (list Z)) (i : Z) : list Z :=
  match num_tokens_no_spec !! Z.to_nat i, token_ids_cpu !! Z.to_nat i with
  | Some num_tokens, Some row =>
      ngram_reference (py_slice_to row num_tokens) (ng_min_n p) (ng_max_n p) (ng_max_model_len p) (ng_k p)
  | _, _ => []
  end.

Lemma reference_draft_config p p' num rows i :
  ng_config p = ng_config p' → reference_draft p num rows i = reference_draft p' num rows i.
Proof. unfold ng_config, reference_draft. intros [= -> -> -> ->]. done. Qed.

Section BatchSpec.
Context (prange : list Z → list Z) (prange_perm : ∀ l, prange l ≡ₚ l).
Context (num_tokens_no_spec : list Z) (token_ids_cpu : list (list Z)) (n : Z).

(** The buffers hold the draft of request [i]. *)
Definition holds (p : NgramProposer) (i : Z) (d : list Z) : Prop :=
  ng_valid_ngram_num_drafts p !! Z.to_nat i = Some (zlen d) ∧
  ∃ drow, ng_valid_ngram_draft p !! Z.to_nat i = Some drow ∧ take (length d) drow = d.

Lemma propose_one_ok p idx :
  ng_ok n p → 0 ≤ idx < n → idx < zlen num_tokens_no_spec → idx < zlen token_ids_cpu →
  let d := reference_draft p num_tokens_no_spec token_ids_cpu idx in
  ∃ p', propose_one num_tokens_no_spec token_ids_cpu p idx = Ok p' ∧ ng_ok n p' ∧ ng_config p' = ng_config p ∧
    holds p' idx d ∧ ∀ i e, 0 ≤ i → i ≠ idx → holds p i e → holds p' i e.
Proof.
  intros Hp Hi Hnum Hrow d. unfold propose_one.
  destruct (zlen_lookup num_tokens_no_spec idx) as [m Hm]; [lia|]. destruct (zlen_lookup token_ids_cpu idx) as [row Hr]; [lia|].
  rewrite (py_nth_ok _ _ _ (proj1 Hi) Hm) (py_nth_ok _ _ _ (proj1 Hi) Hr). cbn [mbind res_bind].
  rewrite find_reference; [|apply Hp..]. cbn [mbind res_bind].
  assert (d = ngram_reference (py_slice_to row m) (ng_min_n p) (ng_max_n p) (ng_max_model_len p) (ng_k p)) as <-.
  { unfold d, reference_draft. by rewrite Hm Hr. }
  assert (zlen d ≤ ng_k p) as Hd.
  { unfold d, reference_draft. rewrite Hm Hr. by apply reference_length, Hp. }
  destruct Hp as [Hmin Hmax Hk Hdl Hnl Hrows].
  rewrite np_store_ok; [|by rewrite Hnl]. cbn [mbind res_bind].
  destruct (zlen_lookup (ng_valid_ngram_draft p) idx) as [drow Hdr]; [lia|].
  assert (zlen drow = ng_k p) as Hw by (by eapply Forall_lookup_1 in Hrows).
  set (drow' := d ++ drop (length d) drow).
  assert (zlen drow' = ng_k p) as Hw'. { unfold drow', zlen in *. rewrite length_app length_drop. lia. }
  assert (∃ draft, (if is_nil d then Ok (ng_valid_ngram_draft p)
           else drow ← py_nth (ng_valid_ngram_draft p) idx;
                drow ← np_store_slice drow 0 (zlen d) d;
                np_store (ng_valid_ngram_draft p) idx drow) = Ok draft ∧ draft = <[Z.to_nat idx := drow']> (ng_valid_ngram_draft p))
    as (draft & -> & ->).
  { destruct (is_nil d) eqn:E.
    - assert (d = []) as Hnil by (by destruct d). eexists. split; [done|]. unfold drow'. rewrite Hnil. cbn [length app drop].
      by rewrite list_insert_id.
    - rewrite (py_nth_ok _ _ _ (proj1 Hi) Hdr). cbn [mbind res_bind].
      pose proof (np_store_slice_ok drow 0 d) as Hs. rewrite Z.add_0_l in Hs. rewrite Hs; [|lia..]. cbn [mbind res_bind].
      eexists. split; [apply np_store_ok; lia|]. unfold drow', zlen. by rewrite Nat2Z.id. }
  cbn [mbind res_bind]. eexists. split; [done|]. split_and!; [| done | |].
  - split; cbn; rewrite ?zlen_insert; try done. by apply Forall_insert.
  - unfold holds. cbn. unfold zlen in Hdl, Hnl. rewrite !list_lookup_insert_eq; [|lia..]. split; [done|].
    exists drow'. split; [done|]. unfold drow'. by rewrite take_app_length.
  - intros i e Hi0 Hne [H1 H2]. unfold holds. cbn. rewrite !list_lookup_insert_ne; [done|lia..].
Qed.

Lemma propose_all_ok l p :
  ng_ok n p → Forall (λ i, 0 ≤ i < n ∧ i < zlen num_tokens_no_spec ∧ i < zlen token_ids_cpu) l →
  ∃ p', foldM (propose_one num_tokens_no_spec token_ids_cpu) p l = Ok p' ∧ ng_ok n p' ∧ ng_config p' = ng_config p ∧
    ∀ i, 0 ≤ i → i ∈ l ∨ holds p i (reference_draft p num_tokens_no_spec token_ids_cpu i) →
         holds p' i (reference_draft p num_tokens_no_spec token_ids_cpu i).
Proof.
  revert p. induction l as [|idx l IH]; intros p Hp Hl.
  { exists p. split_and!; [done..|]. intros i _ [Hi%not_elem_of_nil|]; done. }
  apply Forall_cons in Hl as [(Hi & Hnum & Hrow) Hl].
  destruct (propose_one_ok p idx Hp Hi Hnum Hrow) as (p1 & E1 & Hp1 & Hc1 & Hh & Hother). cbn [foldM]. rewrite E1. cbn [mbind res_bind].
  destruct (IH p1 Hp1 Hl) as (p2 & E2 & Hp2 & Hc2 & Hall). exists p2. split_and!; [done..|by rewrite Hc2|].
  intros i Hi0 Hin. rewrite -(reference_draft_config p1 p); [|done]. apply Hall; [done|].
  rewrite (reference_draft_config p1 p); [|done].
  destruct (decide (i = idx)) as [->|Hne]; [by right|]. destruct Hin as [[?|?]%elem_of_cons|?]; [done|by left|right; by apply Hother].
Qed.

(** The requests that want a draft: something was sampled and there is room for more. *)
Definition wants_draft (p : NgramProposer) (sampled_token_ids : list (list Z)) (i : Z) : bool :=
  match sampled_token_ids !! Z.to_nat i, num_tokens_no_spec !! Z.to_nat i with
  | Some (_ :: _), Some num_tokens => bool_decide (num_tokens < ng_max_model_len p)
  | _, _ => false
  end.

Lemma valid_requests_ok p sampled i :
  0 ≤ i → i + zlen sampled ≤ zlen num_tokens_no_spec →
  ∃ valid, valid_requests p num_tokens_no_spec i sampled = Ok valid ∧
    ∀ j, j ∈ valid ↔ i ≤ j < i + zlen sampled ∧
      match sampled !! Z.to_nat (j - i), num_tokens_no_spec !! Z.to_nat j with
      | Some (_ :: _), Some num_tokens => num_tokens < ng_max_model_len p
      | _, _ => False
      end.
Proof.
  revert i. induction sampled as [|s sampled IH]; intros i Hi Hlen.
  { exists []. split; [done|]. intros j. rewrite elem_of_nil. change (zlen (@nil (list Z))) with 0. naive_solver lia. }
  rewrite zlen_cons in Hlen. destruct (IH (i + 1)) as (valid & E & Hv); [lia..|]. cbn [valid_requests].
  destruct (zlen_lookup num_tokens_no_spec i) as [m Hm]; [pose proof (zlen_nonneg sampled); lia|].
  assert (∀ j, j ∈ valid ↔ i + 1 ≤ j < i + zlen (s :: sampled) ∧
      match (s :: sampled) !! Z.to_nat (j - i), num_tokens_no_spec !! Z.to_nat j with
      | Some (_ :: _), Some num_tokens => num_tokens < ng_max_model_len p
      | _, _ => False
      end) as Hv'.
  { intros j. rewrite Hv zlen_cons. destruct (decide (i + 1 ≤ j)); [|naive_solver lia].
    replace (Z.to_nat (j - i)) with (S (Z.to_nat (j - (i + 1)))) by lia. cbn. rewrite Z.add_assoc. done. }
  pose proof (zlen_nonneg sampled). rewrite zlen_cons in Hv' |- *. destruct s as [|x s]; cbn [is_nil].
  - exists valid. split; [done|]. intros j. rewrite Hv'. destruct (decide (j = i)) as [->|]; [|naive_solver lia].
    rewrite Z.sub_diag. cbn. naive_solver lia.
  - rewrite (py_nth_ok _ _ _ Hi Hm). cbn [mbind res_bind]. rewrite E. cbn [mbind res_bind]. eexists. split; [done|].
    intros j. destruct (decide (j = i)) as [->|Hne].
    + rewrite Z.sub_diag Hm. cbn. case_bool_decide; rewrite ?elem_of_cons Hv'; naive_solver lia.
    + case_bool_decide; rewrite ?elem_of_cons Hv'; naive_solver lia.
Qed.

(** What the reference proposes for a batch. *)
Definition reference_batch (p : NgramProposer) (sampled_token_ids : list (list Z)) : list (list Z) :=
  (λ i, if wants_draft p sampled_token_ids i then reference_draft p num_tokens_no_spec token_ids_cpu i else [])
  <$> zrange 0 (zlen sampled_token_ids).

Lemma read_draft_ok valid p i d :
  0 ≤ i → i ∈ valid → holds p i d → read_draft valid p i = Ok d.
Proof.
  intros Hi Hin [Hn (drow & Hdr & Hd)]. unfold read_draft. rewrite bool_decide_true; [|done].
  rewrite (py_nth_ok _ _ _ Hi Hn). cbn [mbind res_bind]. case_bool_decide as H0.
  - rewrite (py_nth_ok _ _ _ Hi Hdr). cbn [mbind res_bind]. rewrite py_slice_to_take; [|lia]. unfold zlen. by rewrite Nat2Z.id Hd.
  - destruct d; [done|]. rewrite zlen_cons in H0. pose proof (zlen_nonneg d). lia.
Qed.

Lemma mapM_res_fmap {A B} (f : A → res B) (h : A → B) (l : list A) :
  (∀ x, x ∈ l → f x = Ok (h x)) → mapM_res f l = Ok (h <$> l).
Proof.
  induction l as [|x l IH]; intros H; [done|]. cbn [mapM_res]. rewrite H; [|left]. rewrite IH; [done|].
  intros y Hy. apply H. by right.
Qed.

Lemma propose_ok p sampled :
  ng_ok n p → zlen sampled ≤ n → zlen sampled ≤ zlen num_tokens_no_spec → zlen sampled ≤ zlen token_ids_cpu →
  ∃ p', propose prange p sampled num_tokens_no_spec token_ids_cpu = Ok (p', reference_batch p sampled) ∧
    ng_ok n p' ∧ ng_config p' = ng_config p.
Proof.
  intros Hp Hn Hnum Hrows. unfold propose, batch_propose.
  destruct (valid_requests_ok p sampled 0) as (valid & -> & Hv); [lia..|]. cbn [mbind res_bind].
  assert (∃ p', (if is_nil valid then Ok p else batch_propose_numba prange valid num_tokens_no_spec token_ids_cpu p) = Ok p' ∧
    ng_ok n p' ∧ ng_config p' = ng_config p ∧
    ∀ i, i ∈ valid → holds p' i (reference_draft p num_tokens_no_spec token_ids_cpu i)) as (p' & -> & Hp' & Hc & Hh).
  { destruct (is_nil valid) eqn:Hnil.
    { exists p. split_and!; [done..|]. intros i Hi. destruct valid; [by apply not_elem_of_nil in Hi|done]. }
    destruct (propose_all_ok (prange valid) p) as (p' & E & Hp' & Hc & Hall); [done| |].
    { rewrite prange_perm. apply Forall_forall. intros j [Hj _]%Hv. lia. }
    exists p'. split_and!; [done..|]. intros i Hi. pose proof (proj1 (Hv i) Hi) as [? _]. apply Hall; [lia|].
    left. by rewrite prange_perm. }
  cbn [mbind res_bind]. exists p'. split; [|done]. unfold reference_batch.
  rewrite (mapM_res_fmap _ (λ i, if wants_draft p sampled i then reference_draft p num_tokens_no_spec token_ids_cpu i else [])); [done|].
  intros i Hi%elem_of_zrange. unfold wants_draft.
  specialize (Hv i). rewrite Z.sub_0_r in Hv. destruct (decide (i ∈ valid)) as [Hin|Hin].
  - rewrite (read_draft_ok valid p' i _ (proj1 Hi) Hin (Hh i Hin)). apply Hv in Hin as [_ Hin].
    destruct (sampled !! Z.to_nat i) as [[|x s]|]; [done| |done]. destruct (num_tokens_no_spec !! Z.to_nat i); [|done].
    by rewrite bool_decide_true.
  - unfold read_draft. rewrite bool_decide_false; [|done]. rewrite Hv in Hin.
    destruct (sampled !! Z.to_nat i) as [[|x s]|]; [done| |done]. destruct (num_tokens_no_spec !! Z.to_nat i); [|done].
    rewrite bool_decide_false; [done|]. intros ?. apply Hin. split; [lia|done].
Qed.
End BatchSpec.

(** ** Runs of the proposer *)

(** A batch: what was sampled, the numbers of tokens and the token ids, by request. *)
Definition ngram_batch : Type := list (list Z) * list Z * list (list Z).

Definition propose_batch (prange : list Z → list Z) (p : NgramProposer) (b : ngram_batch) : res (NgramProposer * list (list Z)) :=
  propose prange p b.1.1 b.1.2 b.2.

(** The arrays of a batch have a row per request, and there are buffers for them. *)
Definition batch_fits (max_num_seqs : Z) (b : ngram_batch) : Prop :=
  zlen b.1.1 ≤ max_num_seqs ∧ zlen b.1.1 ≤ zlen b.1.2 ∧ zlen b.1.1 ≤ zlen b.2.

Lemma reference_batch_config p p' num rows sampled :
  ng_config p = ng_config p' → reference_batch num rows p sampled = reference_batch num rows p' sampled.
Proof.
  intros E. unfold reference_batch. apply list_fmap_ext. intros _ i _. rewrite (reference_draft_config p p'); [|done].
  unfold wants_draft. by injection E as _ _ _ ->.
Qed.

Lemma valid_requests_idle p num i k : valid_requests p num i (replicate k []) = Ok [].
Proof. revert i. induction k as [|k IH]; intros i; [done|]. cbn. apply IH. Qed.

Lemma ngram_init_ok prange min_n max_n k max_model_len max_num_seqs :
  1 ≤ min_n → 1 ≤ max_n → 0 ≤ k → 0 ≤ max_num_seqs →
  ∃ p, NgramProposer_init prange min_n max_n k max_model_len max_num_seqs = Ok p ∧ ng_ok max_num_seqs p ∧
    ng_config p = (min_n, max_n, k, max_model_len).
Proof.
  intros Hmin Hmax Hk Hn. unfold NgramProposer_init, propose, batch_propose.
  rewrite {1}/py_repeat valid_requests_idle. cbn [mbind res_bind is_nil].
  rewrite (mapM_res_fmap _ (λ _, [])); [|intros i _; unfold read_draft; by rewrite bool_decide_false; [|apply not_elem_of_nil]].
  cbn [mbind res_bind fst]. eexists. split; [done|]. split; [|done].
  split; cbn; rewrite ?zlen_repeat; [lia..|]. apply Forall_replicate. rewrite zlen_repeat. lia.
Qed.

Lemma propose_run_ok prange n p batches :
  (∀ l, prange l ≡ₚ l) → ng_ok n p → Forall (batch_fits n) batches →
  ∃ p', mapM_st (propose_batch prange) p batches =
        Ok (p', (λ b, reference_batch b.1.2 b.2 p b.1.1) <$> batches).
Proof.
  intros Hperm. revert p. induction batches as [|b batches IH]; intros p Hp Hb; [by exists p|].
  apply Forall_cons in Hb as [(H1 & H2 & H3) Hb].
  destruct (propose_ok prange Hperm b.1.2 b.2 n p b.1.1) as (p1 & E & Hp1 & Hc); [done..|].
  destruct (IH p1 Hp1 Hb) as (p2 & E2). exists p2. cbn [mapM_st].
  change (propose_batch prange p b) with (propose prange p b.1.1 b.1.2 b.2). rewrite E. cbn [mbind res_bind].
  rewrite E2. cbn [mbind res_bind fmap list_fmap]. do 3 f_equal.
  apply list_fmap_ext. intros _ c _. by apply reference_batch_config.
Qed.

(** C24: the n-gram proposer proposes what an exhaustive search would.  In any sequence of
    batches after its construction, and in any order of the parallel loop, every request
    that sampled a token and has room gets the tokens that follow the first occurrence of
    the longest n-gram of length [min_n .. max_n] that ends its context, at most [k] of
    them and none beyond the maximal length; no index is out of range, and nothing of an
    earlier batch is left in the drafts. *)
Theorem ngram_proposer_correct prange min_n max_n k max_model_len max_num_seqs batches :
  (∀ l, prange l ≡ₚ l) → 1 ≤ min_n → 1 ≤ max_n → 0 ≤ k → 0 ≤ max_num_seqs →
  Forall (batch_fits max_num_seqs) batches →
  ∃ p, NgramProposer_init prange min_n max_n k max_model_len max_num_seqs = Ok p ∧
    ng_config p = (min_n, max_n, k, max_model_len) ∧
    ∃ p', mapM_st (propose_batch prange) p batches =
          Ok (p', (λ b, reference_batch b.1.2 b.2 p b.1.1) <$> batches).
Proof.
  intros Hperm Hmin Hmax Hk Hn Hb. destruct (ngram_init_ok prange min_n max_n k max_model_len max_num_seqs) as (p & E & Hp & Hc); [done..|].
  exists p. split_and!; [done..|]. by eapply propose_run_ok.
Qed.

(** Two requests: the context of the first ends in [2 3], which occurred before. *)
Definition sample_batches : list ngram_batch :=
  [([[3]; [1]; []], [6; 3; 2], [[1; 2; 3; 4; 2; 3; 0; 0]; [7; 8; 1; 0; 0; 0; 0; 0]; [5; 5; 0; 0; 0; 0; 0; 0]]);
   ([[1]; [5]], [7; 2], [[1; 2; 3; 4; 2; 3; 1; 0]; [5; 5; 0; 0; 0; 0; 0; 0]])].

Lemma ngram_proposer_correct_witness :
  ∃ p p', NgramProposer_init reverse 1 2 2 8 3 = Ok p ∧
    mapM_st (propose_batch reverse) p sample_batches = Ok (p', [[[4; 2]; []; []]; [[2]; [5]]]).
Proof.
  destruct (ngram_proposer_correct reverse 1 2 2 8 3 sample_batches) as (p & E & Hc & p' & E').
  - intros l. apply reverse_Permutation.
  - lia.
  - lia.
  - lia.
  - lia.
  - repeat (apply Forall_cons; split; [split_and!; vm_compute; discriminate|]). apply Forall_nil. exact I.
  - exists p, p'. split; [exact E|]. rewrite E'. f_equal. f_equal.
    destruct p. cbv [ng_config] in Hc. cbn in Hc. simplify_eq. vm_compute. reflexivity.
Defined.
