(* ===== verification/BlockTable.v ===== *)
(** * Block tables of the workers

    [src/vllm/v1/worker/block_table.py]: every worker keeps, per group of layers, a row
    of block ids for each request of the batch, copies the rows to the device and
    computes there the slot in the cache of every token of a step.  A block of the KV
    cache manager is split into smaller blocks when the attention kernel needs them.

    A [CpuGpuBuffer] is two arrays, of which numpy and torch share the first.  A
    two-dimensional array is the list of its rows, and the kernel sees the rows one after
    the other.  The kernel's loads and stores are checked: the theorems show that they
    stay in range. *)

From S2P Require Import Prelude NumPy.

(** ** 32-bit integers *)

Definition int32_ok (x : Z) : bool := bool_decide (- 2 ^ 31 ≤ x < 2 ^ 31).

(** A 64-bit array copied to a 32-bit one wraps. *)
Definition int32_wrap (x : Z) : Z := (x + 2 ^ 31) `mod` 2 ^ 32 - 2 ^ 31.

(** Python integers stored in a 32-bit array must fit. *)
Definition int32_array (l : list Z) : res (list Z) :=
  if forallb int32_ok l then Ok l else Raise OverflowError.

(** ** One table *)

(** The context-parallel groups of the process (the sizes are 1 and the ranks 0 when
    there are none). *)
Record CPGroups := {
  pcp_world_size : Z;
  pcp_rank : Z;
  dcp_world_size : Z;
  dcp_rank : Z;
}.

(** The attributes that the constructor sets for good. *)
Record TableDims := {
  td_max_num_reqs : Z;
  td_max_num_batched_tokens : Z;
  td_block_size : Z;
  td_blocks_per_kv_block : Z;
  td_use_hybrid_blocks : bool;
  td_max_num_blocks_per_req : Z;
  td_cp : CPGroups;
  td_cp_kv_cache_interleave_size : Z;
}.

(** The attributes that change: the table on both sides, the numbers of blocks of the
    rows, and the slot mapping on the device.  The numbers of blocks are an int32 array
    in the code; here they are unbounded, since the theorems keep them within the
    capacity of a row. *)
Record BlockTable := {
  bt_dims : TableDims;
  bt_cpu : list (list Z);
  bt_gpu : list (list Z);
  bt_num_blocks_per_row : list Z;
  bt_slot_mapping : list Z;
}.

Definition bt_with_rows (t : BlockTable) (cpu : list (list Z)) (num : list Z) : BlockTable :=
  {| bt_dims := bt_dims t; bt_cpu := cpu; bt_gpu := bt_gpu t; bt_num_blocks_per_row := num;
     bt_slot_mapping := bt_slot_mapping t |}.

Definition np_zeros2 (n m : Z) : list (list Z) := py_repeat (py_repeat 0 m) n.

Definition BlockTable_init (cp : CPGroups)
    (block_size max_num_reqs max_num_blocks_per_req max_num_batched_tokens kernel_block_size
     cp_kv_cache_interleave_size : Z) : res BlockTable :=
  sizes ← (if bool_decide (kernel_block_size = block_size) then Ok (block_size, 1, false)
           else if bool_decide (kernel_block_size = 0) then Raise ZeroDivisionError
           else if bool_decide (block_size `mod` kernel_block_size ≠ 0) then Raise ValueError
           else Ok (kernel_block_size, block_size / kernel_block_size, true));
  let '(size, per, hybrid) := sizes in
  let max_blocks := max_num_blocks_per_req * per in
  Ok {| bt_dims := {| td_max_num_reqs := max_num_reqs; td_max_num_batched_tokens := max_num_batched_tokens;
                      td_block_size := size; td_blocks_per_kv_block := per; td_use_hybrid_blocks := hybrid;
                      td_max_num_blocks_per_req := max_blocks; td_cp := cp;
                      td_cp_kv_cache_interleave_size := cp_kv_cache_interleave_size |};
        bt_cpu := np_zeros2 max_num_reqs max_blocks; bt_gpu := np_zeros2 max_num_reqs max_blocks;
        bt_num_blocks_per_row := py_repeat 0 max_num_reqs;
        bt_slot_mapping := py_repeat 0 max_num_batched_tokens |}.

(** [kv_manager_block_ids.reshape(-1, 1) * blocks_per_kv_block + kernel_block_arange], flattened. *)
Definition map_to_kernel_blocks (kv_manager_block_ids : list Z) (blocks_per_kv_block : Z) (kernel_block_arange : list Z)
    : list Z :=
  if bool_decide (blocks_per_kv_block = 1) then kv_manager_block_ids
  else kv_manager_block_ids ≫= λ b, (λ j, b * blocks_per_kv_block + j) <$> kernel_block_arange.

Definition append_row (block_ids : list Z) (row_idx : Z) (t : BlockTable) : res BlockTable :=
  if is_nil block_ids then Ok t
  else
    let d := bt_dims t in
    let hybrid := td_use_hybrid_blocks d in
    let ids := if hybrid
               then map_to_kernel_blocks block_ids (td_blocks_per_kv_block d) (zrange 0 (td_blocks_per_kv_block d))
               else block_ids in
    let num_blocks := zlen ids in
    start ← py_nth (bt_num_blocks_per_row t) row_idx;
    num ← np_store (bt_num_blocks_per_row t) row_idx (start + num_blocks);
    row ← py_nth (bt_cpu t) row_idx;
    values ← (if hybrid then Ok (int32_wrap <$> ids) else int32_array ids);
    row ← np_store_slice row start (start + num_blocks) values;
    cpu ← np_store (bt_cpu t) row_idx row;
    Ok (bt_with_rows t cpu num).

Definition add_row (block_ids : list Z) (row_idx : Z) (t : BlockTable) : res BlockTable :=
  num ← np_store (bt_num_blocks_per_row t) row_idx 0;
  append_row block_ids row_idx (bt_with_rows t (bt_cpu t) num).

Definition clear_row (row_idx : Z) (t : BlockTable) : res BlockTable :=
  num_blocks ← py_nth (bt_num_blocks_per_row t) row_idx;
  cpu ← (if bool_decide (0 < num_blocks)
         then row ← py_nth (bt_cpu t) row_idx; np_store (bt_cpu t) row_idx (np_fill_to row num_blocks 0)
         else Ok (bt_cpu t));
  num ← np_store (bt_num_blocks_per_row t) row_idx 0;
  Ok (bt_with_rows t cpu num).

Definition move_row (src tgt : Z) (t : BlockTable) : res BlockTable :=
  num_blocks ← py_nth (bt_num_blocks_per_row t) src;
  srow ← py_nth (bt_cpu t) src;
  trow ← py_nth (bt_cpu t) tgt;
  trow ← np_store_slice trow 0 num_blocks (py_slice_to srow num_blocks);
  cpu ← np_store (bt_cpu t) tgt trow;
  num ← np_store (bt_num_blocks_per_row t) tgt num_blocks;
  Ok (bt_with_rows t cpu num).

(** [a[[i, j]] = a[[j, i]]]: the right-hand side is read first. *)
Definition np_swap {A} (a : list A) (i j : Z) : res (list A) :=
  x ← py_nth a j; y ← py_nth a i;
  a ← np_store a i x; np_store a j y.

Definition swap_row (src tgt : Z) (t : BlockTable) : res BlockTable :=
  num ← np_swap (bt_num_blocks_per_row t) src tgt;
  cpu ← np_swap (bt_cpu t) src tgt;
  Ok (bt_with_rows t cpu num).

(** [self.gpu[:n].copy_(self.cpu[:n])]. *)
Definition commit_block_table (num_reqs : Z) (t : BlockTable) : BlockTable :=
  {| bt_dims := bt_dims t; bt_cpu := bt_cpu t;
     bt_gpu := py_slice_to (bt_cpu t) num_reqs ++ py_slice_from (bt_gpu t) num_reqs;
     bt_num_blocks_per_row := bt_num_blocks_per_row t; bt_slot_mapping := bt_slot_mapping t |}.

(** [clear] fills both sides with zeros. *)
Definition clear_table (t : BlockTable) : BlockTable :=
  {| bt_dims := bt_dims t; bt_cpu := (λ row, py_repeat 0 (zlen row)) <$> bt_cpu t;
     bt_gpu := (λ row, py_repeat 0 (zlen row)) <$> bt_gpu t;
     bt_num_blocks_per_row := bt_num_blocks_per_row t; bt_slot_mapping := bt_slot_mapping t |}.

(** ** The slot mapping kernel *)

Definition PAD_SLOT_ID : Z := -1.

(** [range(a, b, step)] for a positive step. *)
Definition range_step (a b step : Z) : list Z := (λ j, a + j * step) <$> zrange 0 (cdiv (b - a) step).

(** Loads and stores of the kernel. *)
Definition tl_load (mem : list Z) (i : Z) : res Z :=
  if bool_decide (0 ≤ i < zlen mem) then py_nth mem i else Raise IndexError.
Definition tl_store (mem : list Z) (i v : Z) : res (list Z) :=
  if bool_decide (0 ≤ i < zlen mem) then np_store mem i v else Raise IndexError.

Section Kernel.
Context (num_tokens max_num_tokens : Z) (query_start_loc positions block_table : list Z)
        (block_table_stride block_size TOTAL_CP_WORLD_SIZE TOTAL_CP_RANK CP_KV_CACHE_INTERLEAVE_SIZE PAD_ID BLOCK_SIZE : Z)
        (num_programs : Z).

(** The program that pads the rest of the mapping. *)
Definition pad_slots (slot_mapping : list Z) : res (list Z) :=
  foldM (λ sm i, foldM (λ sm off, if bool_decide (off < max_num_tokens) then tl_store sm off PAD_ID else Ok sm)
                   sm (zrange i (i + BLOCK_SIZE)))
        slot_mapping (range_step num_tokens max_num_tokens BLOCK_SIZE).

(** The slot of a token; division truncates as in C. *)
Definition slot_id (row_offset pos : Z) : res Z :=
  let virtual_block_size := block_size * TOTAL_CP_WORLD_SIZE in
  let block_indices := Z.quot pos virtual_block_size in
  block_numbers ← tl_load block_table (row_offset + block_indices);
  let virtual_block_offsets := pos - block_indices * virtual_block_size in
  let is_local := bool_decide (Z.rem (Z.quot virtual_block_offsets CP_KV_CACHE_INTERLEAVE_SIZE) TOTAL_CP_WORLD_SIZE = TOTAL_CP_RANK) in
  let local_block_offsets :=
    Z.quot virtual_block_offsets (TOTAL_CP_WORLD_SIZE * CP_KV_CACHE_INTERLEAVE_SIZE) * CP_KV_CACHE_INTERLEAVE_SIZE +
    Z.rem virtual_block_offsets CP_KV_CACHE_INTERLEAVE_SIZE in
  Ok (if is_local then block_numbers * block_size + local_block_offsets else PAD_ID).

(** One lane of the vector at offset [off]; a masked lane loads position 0 and stores nothing. *)
Definition slot_lane (row_offset end_idx : Z) (sm : list Z) (off : Z) : res (list Z) :=
  let mask := bool_decide (off < end_idx) in
  pos ← (if mask then tl_load positions off else Ok 0);
  slot ← slot_id row_offset pos;
  if mask then tl_store sm off slot else Ok sm.

Definition map_request (req_idx : Z) (slot_mapping : list Z) : res (list Z) :=
  start_idx ← tl_load query_start_loc req_idx;
  end_idx ← tl_load query_start_loc (req_idx + 1);
  let row_offset := req_idx * block_table_stride in
  foldM (λ sm i, foldM (slot_lane row_offset end_idx) sm (zrange i (i + BLOCK_SIZE)))
        slot_mapping (range_step start_idx end_idx BLOCK_SIZE).

(** The program with index [req_idx]. *)
Definition _compute_slot_mapping_kernel (slot_mapping : list Z) (req_idx : Z) : res (list Z) :=
  if bool_decide (req_idx = num_programs - 1) then pad_slots slot_mapping else map_request req_idx slot_mapping.
End Kernel.

Section Tables.
(** The order in which the programs of a launch take effect. *)
Context (grid : list Z → list Z).

Definition compute_slot_mapping (num_reqs : Z) (query_start_loc positions : list Z) (t : BlockTable) : res BlockTable :=
  let d := bt_dims t in
  let cp := td_cp d in
  let total_cp_world_size := pcp_world_size cp * dcp_world_size cp in
  let total_cp_rank := pcp_rank cp * dcp_world_size cp + dcp_rank cp in
  sm ← foldM (_compute_slot_mapping_kernel (zlen positions) (td_max_num_batched_tokens d) query_start_loc positions
                (concat (bt_gpu t)) (td_max_num_blocks_per_req d) (td_block_size d) total_cp_world_size total_cp_rank
                (td_cp_kv_cache_interleave_size d) PAD_SLOT_ID 1024 (num_reqs + 1))
             (bt_slot_mapping t) (grid (zrange 0 (num_reqs + 1)));
  Ok {| bt_dims := d; bt_cpu := bt_cpu t; bt_gpu := bt_gpu t; bt_num_blocks_per_row := bt_num_blocks_per_row t;
        bt_slot_mapping := sm |}.
End Tables.

(** ** The tables of all groups *)

Abbreviation MultiGroupBlockTable := (list BlockTable).

Definition align_blocks (n bs : Z) : res Z :=
  if bool_decide (bs ≤ 128) then
    if bool_decide (bs = 0) then Raise ZeroDivisionError
    else if bool_decide (128 / bs = 0) then Raise ZeroDivisionError
    else Ok (cdiv n (128 / bs) * (128 / bs))
  else Ok n.

Definition default_max_blocks (cp : CPGroups) (max_model_len block_size : Z) : res Z :=
  let span := block_size * (dcp_world_size cp * pcp_world_size cp) in
  if bool_decide (span = 0) then Raise ZeroDivisionError else Ok (cdiv max_model_len span).

Definition MultiGroupBlockTable_init (cp : CPGroups) (max_num_reqs max_model_len max_num_batched_tokens : Z)
    (block_sizes kernel_block_sizes : list Z) (max_num_blocks : option (list Z)) (cp_kv_cache_interleave_size : Z)
    : res MultiGroupBlockTable :=
  if bool_decide (zlen kernel_block_sizes ≠ zlen block_sizes) then Raise ValueError
  else
    blocks ← match max_num_blocks with
             | Some blocks => Ok blocks
             | None => mapM_res (default_max_blocks cp max_model_len) block_sizes
             end;
    if bool_decide (zlen blocks ≠ zlen block_sizes) then Raise ValueError
    else
      blocks ← mapM_res (λ nb, align_blocks nb.1 nb.2) (zip blocks block_sizes);
      mapM_res (λ x, let '(block_size, kernel_block_size, max_num_blocks_per_req) := x in
                     BlockTable_init cp block_size max_num_reqs max_num_blocks_per_req max_num_batched_tokens
                       kernel_block_size cp_kv_cache_interleave_size)
               (zip (zip block_sizes kernel_block_sizes) blocks).

(** [for i, block_table in enumerate(self.block_tables): op(block_table, block_ids[i])]. *)
Fixpoint with_group_ids (op : list Z → BlockTable → res BlockTable) (i : Z) (block_ids : list (list Z))
    (ts : MultiGroupBlockTable) : res MultiGroupBlockTable :=
  match ts with
  | [] => Ok []
  | t :: ts => ids ← py_nth block_ids i; t ← op ids t; ts ← with_group_ids op (i + 1) block_ids ts; Ok (t :: ts)
  end.

Definition multi_append_row (block_ids : list (list Z)) (row_idx : Z) : MultiGroupBlockTable → res MultiGroupBlockTable :=
  with_group_ids (λ ids, append_row ids row_idx) 0 block_ids.
Definition multi_add_row (block_ids : list (list Z)) (row_idx : Z) : MultiGroupBlockTable → res MultiGroupBlockTable :=
  with_group_ids (λ ids, add_row ids row_idx) 0 block_ids.
Definition multi_clear_row (row_idx : Z) : MultiGroupBlockTable → res MultiGroupBlockTable := mapM_res (clear_row row_idx).
Definition multi_move_row (src tgt : Z) : MultiGroupBlockTable → res MultiGroupBlockTable := mapM_res (move_row src tgt).
Definition multi_swap_row (src tgt : Z) : MultiGroupBlockTable → res MultiGroupBlockTable := mapM_res (swap_row src tgt).
Definition multi_compute_slot_mapping (grid : list Z → list Z) (num_reqs : Z) (query_start_loc positions : list Z)
    : MultiGroupBlockTable → res MultiGroupBlockTable :=
  mapM_res (compute_slot_mapping grid num_reqs query_start_loc positions).
Definition multi_commit_block_table (num_reqs : Z) (ts : MultiGroupBlockTable) : MultiGroupBlockTable :=
  commit_block_table num_reqs <$> ts.
Definition multi_clear (ts : MultiGroupBlockTable) : MultiGroupBlockTable := clear_table <$> ts.
