(* ===== verification/BlockTableSpec.v ===== *)
(** * Block tables hold the blocks of the manager

    The rows of a table, with their changes as requests come, grow, move and go, refine a
    list of lists of block ids ([block_table_refines]); the slots computed from a row are
    those of the manager's blocks whatever the kernel's block size ([slot_mapping_correct]),
    and no two tokens share a slot unless their requests share the block. *)

From S2P Require Import Prelude NumPy BlockTable.

(** ** Kernel blocks *)

(** A block of the manager is [per] consecutive kernel blocks. *)
Definition kernel_ids (per : Z) (l : list Z) : list Z := l ≫= λ b, (λ j, b * per + j) <$> zrange 0 per.

Lemma zlen_kernel_ids per l : 0 ≤ per → zlen (kernel_ids per l) = zlen l * per.
Proof.
  intros Hp. unfold kernel_ids. induction l as [|b l IH]; [done|].
  rewrite bind_cons zlen_app IH zlen_fmap /zrange zlen_seqZ zlen_cons. lia.
Qed.

Lemma kernel_ids_app per l1 l2 : kernel_ids per (l1 ++ l2) = kernel_ids per l1 ++ kernel_ids per l2.
Proof. apply bind_app. Qed.

Lemma kernel_ids_1 l : kernel_ids 1 l = l.
Proof.
  unfold kernel_ids. induction l as [|b l IH]; [done|]. rewrite bind_cons IH.
  change (zrange 0 1) with [0]. cbn [fmap list_fmap app]. f_equal. lia.
Qed.

Lemma kernel_ids_lookup per l i b :
  1 ≤ per → 0 ≤ i → l !! Z.to_nat (i / per) = Some b →
  kernel_ids per l !! Z.to_nat i = Some (b * per + i `mod` per).
Proof.
  intros Hp. unfold kernel_ids. revert i. induction l as [|c l IH]; intros i Hi Hl; [done|].
  rewrite bind_cons. assert (length ((λ j, c * per + j) <$> zrange 0 per) = Z.to_nat per) as Hlen.
  { rewrite length_fmap /zrange length_seqZ. f_equal. lia. }
  destruct (decide (i < per)) as [Hlt|Hge].
  - rewrite Z.div_small in Hl; [|lia]. injection Hl as ->. rewrite lookup_app_l; [|lia].
    rewrite list_lookup_fmap /zrange lookup_seqZ_lt; [|lia]. cbn. rewrite Z.mod_small; [f_equal; lia|lia].
  - assert (1 ≤ i / per) as H1 by (apply Z.div_le_lower_bound; lia).
    rewrite lookup_app_r; [|lia]. rewrite Hlen -Z2Nat.inj_sub; [|lia].
    assert ((i - per) / per = i / per - 1) as Hd.
    { replace (i - per) with (i + (-1) * per) by lia. rewrite Z.div_add; lia. }
    assert ((i - per) `mod` per = i `mod` per) as Hm.
    { replace (i - per) with (i + (-1) * per) by lia. rewrite Z.mod_add; lia. }
    rewrite (IH (i - per)); [by rewrite Hm|lia|]. rewrite Hd.
    replace (Z.to_nat (i / per)) with (S (Z.to_nat (i / per - 1))) in Hl by lia. done.
Qed.

(** The ids whose kernel blocks have 32-bit numbers. *)
Definition id_ok (per b : Z) : Prop := 0 ≤ b ∧ (b + 1) * per ≤ 2 ^ 31.

Lemma kernel_ids_int32 per l : 1 ≤ per → Forall (id_ok per) l → Forall (λ x, 0 ≤ x < 2 ^ 31) (kernel_ids per l).
Proof.
  intros Hp Hl. apply Forall_forall. intros x Hx. unfold kernel_ids in Hx.
  apply list_elem_of_bind in Hx as (b & Hx & Hb). apply list_elem_of_fmap in Hx as (j & -> & Hj%elem_of_zrange).
  rewrite Forall_forall in Hl. destruct (Hl b Hb) as [H0 H1]. nia.
Qed.

Lemma int32_wrap_id l : Forall (λ x, 0 ≤ x < 2 ^ 31) l → int32_wrap <$> l = l.
Proof.
  induction 1 as [|x l Hx _ IH]; [done|]. cbn. rewrite IH. f_equal. unfold int32_wrap. rewrite Z.mod_small; lia.
Qed.

Lemma int32_array_ok l : Forall (λ x, 0 ≤ x < 2 ^ 31) l → int32_array l = Ok l.
Proof.
  intros Hl. unfold int32_array. assert (forallb int32_ok l = true) as ->; [|done].
  induction Hl as [|x l Hx _ IH]; [done|]. cbn. rewrite IH. unfold int32_ok. rewrite bool_decide_true //. lia.
Qed.

(** ** The rows refine lists of block ids *)

(** The sizes a constructor leaves. *)
Record dims_ok (d : TableDims) : Prop := {
  do_size : 1 ≤ td_block_size d;
  do_per : 1 ≤ td_blocks_per_kv_block d;
  do_hybrid : td_use_hybrid_blocks d = false → td_blocks_per_kv_block d = 1;
  do_width : 0 ≤ td_max_num_blocks_per_req d;
}.

(** A row of width [w] that starts with the kernel blocks of [l]. *)
Record row_holds (per w : Z) (l row : list Z) : Prop := {
  rh_width : zlen row = w;
  rh_fits : zlen l * per ≤ w;
  rh_ids : Forall (id_ok per) l;
  rh_blocks : take (Z.to_nat (zlen l * per)) row = kernel_ids per l;
}.

Record table_rel (t : BlockTable) (rows : list (list Z)) : Prop := {
  tr_dims : dims_ok (bt_dims t);
  tr_reqs : zlen rows = td_max_num_reqs (bt_dims t);
  tr_num : bt_num_blocks_per_row t = (λ l, zlen l * td_blocks_per_kv_block (bt_dims t)) <$> rows;
  tr_cpu : Forall2 (row_holds (td_blocks_per_kv_block (bt_dims t)) (td_max_num_blocks_per_req (bt_dims t))) rows (bt_cpu t);
  tr_gpu : zlen (bt_gpu t) = zlen rows ∧ Forall (λ row, zlen row = td_max_num_blocks_per_req (bt_dims t)) (bt_gpu t);
  tr_slots : zlen (bt_slot_mapping t) = Z.max 0 (td_max_num_batched_tokens (bt_dims t));
}.

Section Rows.
Context (per w : Z) (Hper : 1 ≤ per).

Lemma row_holds_nil row : zlen row = w → row_holds per w [] row.
Proof. intros Hw. split; [done| |by apply Forall_nil|done]. cbn. rewrite -Hw. apply zlen_nonneg. Qed.

(** Appending the kernel blocks of [ids] after those of [l]. *)
Lemma row_holds_append l ids row :
  row_holds per w l row → Forall (id_ok per) ids → (zlen l + zlen ids) * per ≤ w →
  ∃ row', np_store_slice row (zlen l * per) (zlen l * per + zlen (kernel_ids per ids)) (kernel_ids per ids) = Ok row' ∧
    row_holds per w (l ++ ids) row'.
Proof.
  intros [Hw Hf Hi Hb] Hids Hfit. pose proof (zlen_nonneg l). pose proof (zlen_kernel_ids per ids ltac:(lia)) as Hk.
  assert (0 ≤ zlen l * per) by nia. assert (zlen l * per + zlen (kernel_ids per ids) ≤ zlen row) by lia.
  rewrite np_store_slice_ok; [|done..]. eexists. split; [done|]. split.
  - rewrite zlen_splice //.
  - rewrite zlen_app. lia.
  - by apply Forall_app.
  - rewrite kernel_ids_app -Hb zlen_app. rewrite -(take_splice row (zlen l * per) (kernel_ids per ids)) //.
    f_equal. lia.
Qed.

Lemma row_holds_copy l srow trow :
  row_holds per w l srow → zlen trow = w →
  ∃ row', np_store_slice trow 0 (zlen l * per) (py_slice_to srow (zlen l * per)) = Ok row' ∧ row_holds per w l row'.
Proof.
  intros [Hw Hf Hi Hb] Ht. pose proof (zlen_nonneg l). assert (0 ≤ zlen l * per) by nia.
  rewrite py_slice_to_take; [|done]. rewrite Hb. pose proof (zlen_kernel_ids per l ltac:(lia)) as Hk.
  pose proof (np_store_slice_ok trow 0 (kernel_ids per l)) as E. rewrite Z.add_0_l Hk in E. rewrite E; [|lia..].
  eexists. split; [done|].
  pose proof (zlen_splice trow 0 (kernel_ids per l)) as Hz. pose proof (take_splice trow 0 (kernel_ids per l)) as Htk.
  rewrite Z.add_0_l Hk in Hz Htk. split; [rewrite Hz //; lia|done..|]. rewrite Htk //; lia.
Qed.

Lemma row_holds_fill l row n x : row_holds per w l row → 0 ≤ n ≤ w → row_holds per w [] (np_fill_to row n x).
Proof. intros [Hw _ _ _] Hn. apply row_holds_nil. rewrite zlen_fill; lia. Qed.
End Rows.

Lemma row_index {A} (rows : list A) i l : rows !! Z.to_nat i = Some l → 0 ≤ i → 0 ≤ i < zlen rows.
Proof. intros Hl%lookup_lt_Some Hi. unfold zlen. lia. Qed.

(** The ids that [append_row] writes are the kernel blocks, unchanged by the conversion. *)
Lemma written_ids d ids :
  dims_ok d → Forall (id_ok (td_blocks_per_kv_block d)) ids →
  let ks := kernel_ids (td_blocks_per_kv_block d) ids in
  (if td_use_hybrid_blocks d
   then map_to_kernel_blocks ids (td_blocks_per_kv_block d) (zrange 0 (td_blocks_per_kv_block d)) else ids) = ks ∧
  (if td_use_hybrid_blocks d then Ok (int32_wrap <$> ks) else int32_array ks) = Ok ks.
Proof.
  intros Hd Hids ks. pose proof (kernel_ids_int32 _ _ (do_per d Hd) Hids) as H32. split.
  - destruct (td_use_hybrid_blocks d) eqn:E; unfold ks.
    + unfold map_to_kernel_blocks. case_bool_decide as H1; [by rewrite H1 kernel_ids_1|done].
    + by rewrite (do_hybrid d Hd E) kernel_ids_1.
  - destruct (td_use_hybrid_blocks d); [by rewrite int32_wrap_id|by rewrite int32_array_ok].
Qed.

Section Ops.
Context (t : BlockTable) (rows : list (list Z)) (R : table_rel t rows).
Local Abbreviation per := (td_blocks_per_kv_block (bt_dims t)).
Local Abbreviation width := (td_max_num_blocks_per_req (bt_dims t)).

(** A row of the table with its list. *)
Lemma rel_row i : 0 ≤ i < zlen rows → ∃ l row, rows !! Z.to_nat i = Some l ∧ bt_cpu t !! Z.to_nat i = Some row ∧
  row_holds per width l row ∧ bt_num_blocks_per_row t !! Z.to_nat i = Some (zlen l * per).
Proof.
  intros Hi. destruct (zlen_lookup rows i Hi) as [l Hl].
  destruct (Forall2_lookup_l _ _ _ _ _ (tr_cpu t rows R) Hl) as (row & Hrow & Hh).
  exists l, row. split_and!; [done..|]. rewrite (tr_num t rows R) list_lookup_fmap Hl //.
Qed.

Lemma rel_lengths : zlen (bt_cpu t) = zlen rows ∧ zlen (bt_num_blocks_per_row t) = zlen rows.
Proof.
  unfold zlen. rewrite (tr_num t rows R) length_fmap. split; [|done]. f_equal. symmetry. eapply Forall2_length, R.
Qed.

(** Replacing a row and its count. *)
Lemma rel_update i l row :
  0 ≤ i < zlen rows → row_holds per width l row →
  table_rel (bt_with_rows t (<[Z.to_nat i := row]> (bt_cpu t)) (<[Z.to_nat i := zlen l * per]> (bt_num_blocks_per_row t)))
            (<[Z.to_nat i := l]> rows).
Proof.
  intros Hi Hh. destruct R as [Hd Hr Hn Hc Hg Hs]. split; cbn; [done|by rewrite zlen_insert| | |by rewrite zlen_insert|done].
  - rewrite Hn list_fmap_insert //.
  - by apply Forall2_insert.
Qed.

Lemma append_row_ok ids i l :
  rows !! Z.to_nat i = Some l → 0 ≤ i → Forall (id_ok per) ids → (zlen l + zlen ids) * per ≤ width →
  ∃ t', append_row ids i t = Ok t' ∧ bt_dims t' = bt_dims t ∧ table_rel t' (<[Z.to_nat i := l ++ ids]> rows).
Proof.
  intros Hl Hi Hids Hfit. unfold append_row. destruct (is_nil ids) eqn:Hnil.
  { exists t. assert (ids = []) as -> by (by destruct ids). rewrite app_nil_r list_insert_id //. }
  pose proof (row_index rows i _ Hl Hi) as Hir.
  destruct (rel_row i Hir) as (l' & row & Hl' & Hrow & Hh & Hnum). assert (l' = l) as -> by congruence.
  destruct (written_ids (bt_dims t) ids (tr_dims _ _ R) Hids) as [-> Ev].
  rewrite (py_nth_ok _ _ _ Hi Hnum). cbn [mbind res_bind]. pose proof rel_lengths as [Hc Hn].
  rewrite np_store_ok; [|lia]. cbn [mbind res_bind]. rewrite (py_nth_ok _ _ _ Hi Hrow). cbn [mbind res_bind].
  rewrite Ev. cbn [mbind res_bind].
  destruct (row_holds_append per width (do_per _ (tr_dims _ _ R)) l ids row Hh Hids Hfit) as (row' & -> & Hh').
  cbn [mbind res_bind]. rewrite np_store_ok; [|lia]. cbn [mbind res_bind].
  eexists. split; [done|]. split; [done|]. rewrite zlen_kernel_ids; [|pose proof (do_per _ (tr_dims _ _ R)); lia].
  rewrite -Z.mul_add_distr_r -zlen_app. by apply rel_update.
Qed.

Lemma reset_count_ok i l :
  rows !! Z.to_nat i = Some l → 0 ≤ i →
  table_rel (bt_with_rows t (bt_cpu t) (<[Z.to_nat i := 0]> (bt_num_blocks_per_row t))) (<[Z.to_nat i := []]> rows).
Proof.
  intros Hl Hi. pose proof (row_index rows i _ Hl Hi) as Hir.
  destruct (rel_row i Hir) as (l' & row & Hl' & Hrow & Hh & _).
  rewrite -{1}(list_insert_id (bt_cpu t) (Z.to_nat i) row); [|done]. apply (rel_update i [] row); [done|].
  apply row_holds_nil, Hh.
Qed.
End Ops.

Lemma add_row_ok t rows ids i l :
  table_rel t rows → rows !! Z.to_nat i = Some l → 0 ≤ i → Forall (id_ok (td_blocks_per_kv_block (bt_dims t))) ids →
  zlen ids * td_blocks_per_kv_block (bt_dims t) ≤ td_max_num_blocks_per_req (bt_dims t) →
  ∃ t', add_row ids i t = Ok t' ∧ bt_dims t' = bt_dims t ∧ table_rel t' (<[Z.to_nat i := ids]> rows).
Proof.
  intros R Hl Hi Hids Hfit. pose proof (lookup_lt_Some _ _ _ Hl) as Hlt. pose proof (rel_lengths t rows R) as [Hc Hn].
  unfold add_row. rewrite np_store_ok; [|unfold zlen in *; lia]. cbn [mbind res_bind].
  destruct (append_row_ok _ _ (reset_count_ok t rows R i l Hl Hi) ids i []) as (t' & E & Hd & R'); [|done..|].
  - by rewrite list_lookup_insert_eq.
  - exists t'. split; [done|]. split; [done|]. by rewrite list_insert_insert_eq in R'.
Qed.

Lemma clear_row_ok t rows i l :
  table_rel t rows → rows !! Z.to_nat i = Some l → 0 ≤ i →
  ∃ t', clear_row i t = Ok t' ∧ bt_dims t' = bt_dims t ∧ table_rel t' (<[Z.to_nat i := []]> rows).
Proof.
  intros R Hl Hi. pose proof (row_index rows i _ Hl Hi) as Hir.
  destruct (rel_row t rows R i Hir) as (l' & row & Hl' & Hrow & Hh & Hnum). assert (l' = l) as -> by congruence.
  pose proof (rel_lengths t rows R) as [Hc Hn]. unfold clear_row. rewrite (py_nth_ok _ _ _ Hi Hnum). cbn [mbind res_bind].
  case_bool_decide as H0.
  - rewrite (py_nth_ok _ _ _ Hi Hrow). cbn [mbind res_bind]. rewrite np_store_ok; [|lia]. cbn [mbind res_bind].
    rewrite np_store_ok; [|lia]. cbn [mbind res_bind]. eexists. split; [done|]. split; [done|].
    apply (rel_update t rows R i []); [done|]. eapply row_holds_fill; [done|]. destruct Hh. lia.
  - cbn [mbind res_bind]. rewrite np_store_ok; [|lia]. cbn [mbind res_bind]. eexists. split; [done|]. split; [done|].
    by eapply reset_count_ok.
Qed.

Lemma move_row_ok t rows src tgt l l' :
  table_rel t rows → rows !! Z.to_nat src = Some l → rows !! Z.to_nat tgt = Some l' → 0 ≤ src → 0 ≤ tgt →
  ∃ t', move_row src tgt t = Ok t' ∧ bt_dims t' = bt_dims t ∧ table_rel t' (<[Z.to_nat tgt := l]> rows).
Proof.
  intros R Hs Ht Hs0 Ht0.
  pose proof (row_index rows src _ Hs Hs0) as Hsr.
  pose proof (row_index rows tgt _ Ht Ht0) as Htr.
  destruct (rel_row t rows R src Hsr) as (l1 & srow & Hl1 & Hsrow & Hsh & Hsn). assert (l1 = l) as -> by congruence.
  destruct (rel_row t rows R tgt Htr) as (l2 & trow & Hl2 & Htrow & Hth & _).
  pose proof (rel_lengths t rows R) as [Hc Hn]. unfold move_row.
  rewrite (py_nth_ok _ _ _ Hs0 Hsn). cbn [mbind res_bind]. rewrite (py_nth_ok _ _ _ Hs0 Hsrow). cbn [mbind res_bind].
  rewrite (py_nth_ok _ _ _ Ht0 Htrow). cbn [mbind res_bind].
  destruct (row_holds_copy _ _ (do_per _ (tr_dims _ _ R)) l srow trow Hsh (rh_width _ _ _ _ Hth)) as (row' & -> & Hh').
  cbn [mbind res_bind]. rewrite np_store_ok; [|lia]. cbn [mbind res_bind]. rewrite np_store_ok; [|lia]. cbn [mbind res_bind].
  eexists. split; [done|]. split; [done|]. by apply rel_update.
Qed.

Lemma np_swap_ok {A} (a : list A) i j x y :
  0 ≤ i → 0 ≤ j → a !! Z.to_nat i = Some x → a !! Z.to_nat j = Some y →
  np_swap a i j = Ok (<[Z.to_nat j := x]> (<[Z.to_nat i := y]> a)).
Proof.
  intros Hi Hj Hx Hy. unfold np_swap. rewrite (py_nth_ok _ _ _ Hj Hy) (py_nth_ok _ _ _ Hi Hx). cbn [mbind res_bind].
  pose proof (lookup_lt_Some _ _ _ Hx). pose proof (lookup_lt_Some _ _ _ Hy).
  rewrite np_store_ok; [|unfold zlen; lia]. cbn [mbind res_bind]. rewrite np_store_ok //. rewrite zlen_insert. unfold zlen. lia.
Qed.

Lemma swap_row_ok t rows src tgt l l' :
  table_rel t rows → rows !! Z.to_nat src = Some l → rows !! Z.to_nat tgt = Some l' → 0 ≤ src → 0 ≤ tgt →
  ∃ t', swap_row src tgt t = Ok t' ∧ bt_dims t' = bt_dims t ∧
        table_rel t' (<[Z.to_nat tgt := l]> (<[Z.to_nat src := l']> rows)).
Proof.
  intros R Hs Ht Hs0 Ht0.
  pose proof (row_index rows src _ Hs Hs0) as Hsr.
  pose proof (row_index rows tgt _ Ht Ht0) as Htr.
  destruct (rel_row t rows R src Hsr) as (l1 & srow & Hl1 & Hsrow & Hsh & Hsn). assert (l1 = l) as -> by congruence.
  destruct (rel_row t rows R tgt Htr) as (l2 & trow & Hl2 & Htrow & Hth & Htn). assert (l2 = l') as -> by congruence.
  unfold swap_row. rewrite (np_swap_ok _ _ _ _ _ Hs0 Ht0 Hsn Htn). cbn [mbind res_bind].
  rewrite (np_swap_ok _ _ _ _ _ Hs0 Ht0 Hsrow Htrow). cbn [mbind res_bind]. eexists. split; [done|]. split; [done|].
  pose proof (rel_update t rows R src l' trow Hsr Hth) as R1.
  apply (rel_update _ _ R1 tgt l srow); [by rewrite zlen_insert|done].
Qed.

(** ** Runs of row operations *)

Inductive row_op : Type :=
  | OpAppend (ids : list Z) (i : Z)
  | OpAdd (ids : list Z) (i : Z)
  | OpClear (i : Z)
  | OpMove (src tgt : Z)
  | OpSwap (src tgt : Z).

Definition run_row_op (t : BlockTable) (op : row_op) : res BlockTable :=
  match op with
  | OpAppend ids i => append_row ids i t
  | OpAdd ids i => add_row ids i t
  | OpClear i => clear_row i t
  | OpMove src tgt => move_row src tgt t
  | OpSwap src tgt => swap_row src tgt t
  end.

(** The specification: rows are lists of at most [cap] block ids below [bound]. *)
Section Spec.
Context (cap bound : Z).

Definition spec_row (rows : list (list Z)) (i : Z) : option (list Z) := guard (0 ≤ i) ;; rows !! Z.to_nat i.

Definition spec_put (rows : list (list Z)) (i : Z) (l ids : list Z) : option (list (list Z)) :=
  guard (zlen l + zlen ids ≤ cap) ;; guard (Forall (λ b, 0 ≤ b < bound) ids) ;; Some (<[Z.to_nat i := l ++ ids]> rows).

Definition spec_row_op (rows : list (list Z)) (op : row_op) : option (list (list Z)) :=
  match op with
  | OpAppend ids i => spec_row rows i ≫= λ l, spec_put rows i l ids
  | OpAdd ids i => spec_row rows i ≫= λ _, spec_put rows i [] ids
  | OpClear i => spec_row rows i ≫= λ _, Some (<[Z.to_nat i := []]> rows)
  | OpMove src tgt => spec_row rows src ≫= λ l, spec_row rows tgt ≫= λ _, Some (<[Z.to_nat tgt := l]> rows)
  | OpSwap src tgt => spec_row rows src ≫= λ l, spec_row rows tgt ≫= λ l',
      Some (<[Z.to_nat tgt := l]> (<[Z.to_nat src := l']> rows))
  end.

Definition spec_run (rows : list (list Z)) (ops : list row_op) : option (list (list Z)) :=
  foldl (λ r op, r ≫= λ rows, spec_row_op rows op) (Some rows) ops.
End Spec.

Lemma spec_row_Some rows i l : spec_row rows i = Some l ↔ 0 ≤ i ∧ rows !! Z.to_nat i = Some l.
Proof. unfold spec_row. case_guard; naive_solver lia. Qed.

Lemma spec_put_Some cap bound rows i l ids rows' :
  spec_put cap bound rows i l ids = Some rows' →
  zlen l + zlen ids ≤ cap ∧ Forall (λ b, 0 ≤ b < bound) ids ∧ rows' = <[Z.to_nat i := l ++ ids]> rows.
Proof. unfold spec_put. repeat case_guard; naive_solver. Qed.

(** The ids a table of [per] kernel blocks per block can hold. *)
Definition id_bound (per : Z) : Z := 2 ^ 31 / per.

Lemma id_ok_bound per ids : 1 ≤ per → Forall (λ b, 0 ≤ b < id_bound per) ids → Forall (id_ok per) ids.
Proof.
  intros Hp Hl. eapply Forall_impl; [exact Hl|]. intros b [H0 H1]. split; [done|]. unfold id_bound in H1.
  pose proof (Z.mul_div_le (2 ^ 31) per ltac:(lia)). nia.
Qed.

Lemma row_op_refines cap t rows op rows' :
  table_rel t rows → td_max_num_blocks_per_req (bt_dims t) = cap * td_blocks_per_kv_block (bt_dims t) →
  spec_row_op cap (id_bound (td_blocks_per_kv_block (bt_dims t))) rows op = Some rows' →
  ∃ t', run_row_op t op = Ok t' ∧ bt_dims t' = bt_dims t ∧ table_rel t' rows'.
Proof.
  intros R Hw. pose proof (do_per _ (tr_dims _ _ R)) as Hper.
  destruct op as [ids i|ids i|i|src tgt|src tgt]; cbn [run_row_op spec_row_op].
  - intros (l & [Hi Hl]%spec_row_Some & (Hf & Hb%id_ok_bound & ->)%spec_put_Some)%bind_Some; [|done].
    apply append_row_ok; [done..|]. nia.
  - intros (l & [Hi Hl]%spec_row_Some & (Hf & Hb%id_ok_bound & ->)%spec_put_Some)%bind_Some; [|done].
    eapply add_row_ok; [done..|]. rewrite Hw. apply Z.mul_le_mono_nonneg_r; [lia|exact Hf].
  - intros (l & [Hi Hl]%spec_row_Some & [= <-])%bind_Some. by eapply clear_row_ok.
  - intros (l & [Hi Hl]%spec_row_Some & (l' & [Hi' Hl']%spec_row_Some & [= <-])%bind_Some)%bind_Some. by eapply move_row_ok.
  - intros (l & [Hi Hl]%spec_row_Some & (l' & [Hi' Hl']%spec_row_Some & [= <-])%bind_Some)%bind_Some. by eapply swap_row_ok.
Qed.

Lemma spec_run_None cap bound ops : foldl (λ r op, r ≫= λ rows, spec_row_op cap bound rows op) None ops = None.
Proof. by induction ops. Qed.

Lemma row_ops_refine cap t rows ops rows' :
  table_rel t rows → td_max_num_blocks_per_req (bt_dims t) = cap * td_blocks_per_kv_block (bt_dims t) →
  spec_run cap (id_bound (td_blocks_per_kv_block (bt_dims t))) rows ops = Some rows' →
  ∃ t', foldM run_row_op t ops = Ok t' ∧ bt_dims t' = bt_dims t ∧ table_rel t' rows'.
Proof.
  revert t rows. induction ops as [|op ops IH]; intros t rows R Hw E.
  { injection E as <-. by exists t. }
  unfold spec_run in E. cbn [foldl] in E. cbn [mbind option_bind] in E.
  destruct (spec_row_op cap _ rows op) as [rows1|] eqn:E1; [|by rewrite spec_run_None in E].
  destruct (row_op_refines cap t rows op rows1) as (t1 & Et & Hd & R1); [done..|].
  destruct (IH t1 rows1) as (t2 & Et2 & Hd2 & R2); [done|by rewrite Hd|by rewrite Hd|].
  exists t2. cbn [foldM]. rewrite Et. cbn [mbind res_bind]. split; [done|]. split; [by rewrite Hd2|done].
Qed.

(** The constructor leaves empty rows. *)
Lemma block_table_init_ok cp block_size reqs cap toks kernel_block_size interleave :
  1 ≤ kernel_block_size → 1 ≤ block_size → (kernel_block_size | block_size) → 0 ≤ reqs → 0 ≤ cap →
  ∃ t, BlockTable_init cp block_size reqs cap toks kernel_block_size interleave = Ok t ∧
    td_block_size (bt_dims t) = kernel_block_size ∧ td_blocks_per_kv_block (bt_dims t) = block_size / kernel_block_size ∧
    td_max_num_blocks_per_req (bt_dims t) = cap * td_blocks_per_kv_block (bt_dims t) ∧
    td_max_num_batched_tokens (bt_dims t) = toks ∧ td_cp (bt_dims t) = cp ∧
    td_cp_kv_cache_interleave_size (bt_dims t) = interleave ∧
    table_rel t (py_repeat [] reqs).
Proof.
  intros Hk Hb Hdiv Hr Hc. unfold BlockTable_init.
  assert (1 ≤ block_size / kernel_block_size) as Hper.
  { apply Z.div_le_lower_bound; [lia|]. rewrite Z.mul_1_r. apply Z.divide_pos_le; [lia|done]. }
  assert (∀ per hybrid, 1 ≤ per → (hybrid = false → per = 1) → table_rel
    {| bt_dims := {| td_max_num_reqs := reqs; td_max_num_batched_tokens := toks; td_block_size := kernel_block_size;
                     td_blocks_per_kv_block := per; td_use_hybrid_blocks := hybrid;
                     td_max_num_blocks_per_req := cap * per; td_cp := cp; td_cp_kv_cache_interleave_size := interleave |};
       bt_cpu := np_zeros2 reqs (cap * per); bt_gpu := np_zeros2 reqs (cap * per);
       bt_num_blocks_per_row := py_repeat 0 reqs; bt_slot_mapping := py_repeat 0 toks |} (py_repeat [] reqs)) as Hrel.
  { intros per hybrid Hp Hh. assert (0 ≤ cap * per) by nia.
    split; cbn; [by split| |by rewrite /py_repeat fmap_replicate| | |by rewrite zlen_repeat].
    - rewrite zlen_repeat. lia.
    - apply Forall2_replicate, row_holds_nil. rewrite zlen_repeat. lia.
    - rewrite !zlen_repeat. split; [done|]. apply Forall_replicate. rewrite zlen_repeat. lia. }
  case_bool_decide as E.
  - subst. cbn [mbind res_bind]. eexists. split; [done|]. cbn. rewrite Z.div_same; [|lia].
    split_and!; [done..|]. apply Hrel; [lia|done].
  - rewrite bool_decide_false; [|lia]. rewrite bool_decide_false.
    2:{ intros Hm. apply Hm. apply Z.mod_divide; [lia|done]. }
    cbn [mbind res_bind]. eexists. split; [done|]. cbn. split_and!; [done..|]. by apply Hrel.
Qed.

(** C21: the rows of a block table refine lists of block ids.  Starting from the
    constructor, every sequence of row operations that the specification allows succeeds,
    and afterwards each row of the table starts with the kernel blocks of the block ids
    that the specification has for it, as many as the row counts. *)
Theorem block_table_refines cp block_size reqs cap toks kernel_block_size interleave ops rows :
  1 ≤ kernel_block_size → 1 ≤ block_size → (kernel_block_size | block_size) → 0 ≤ reqs → 0 ≤ cap →
  spec_run cap (id_bound (block_size / kernel_block_size)) (py_repeat [] reqs) ops = Some rows →
  ∃ t0 t, BlockTable_init cp block_size reqs cap toks kernel_block_size interleave = Ok t0 ∧
    foldM run_row_op t0 ops = Ok t ∧ table_rel t rows.
Proof.
  intros Hk Hb Hdiv Hr Hc E.
  destruct (block_table_init_ok cp block_size reqs cap toks kernel_block_size interleave)
    as (t0 & E0 & _ & Hper & Hw & _ & _ & _ & R0); [done..|].
  rewrite -Hper in E. destruct (row_ops_refine cap t0 _ ops rows R0 Hw E) as (t & Et & _ & R).
  by exists t0, t.
Qed.

(** Two requests come with blocks of two kernel blocks each; one grows, the other is
    swapped with it, and the free row is filled by moving. *)
Definition sample_ops : list row_op :=
  [OpAdd [3; 5] 0; OpAdd [7] 1; OpAppend [2] 1; OpSwap 0 1; OpClear 1; OpMove 0 2].

Definition no_cp : CPGroups := {| pcp_world_size := 1; pcp_rank := 0; dcp_world_size := 1; dcp_rank := 0 |}.

Lemma block_table_refines_witness :
  ∃ t0 t, BlockTable_init no_cp 32 3 4 64 16 1 = Ok t0 ∧ foldM run_row_op t0 sample_ops = Ok t ∧
    table_rel t [[7; 2]; []; [7; 2]].
Proof.
  apply (block_table_refines no_cp 32 3 4 64 16 1 sample_ops).
  - lia.
  - lia.
  - exists 2. reflexivity.
  - lia.
  - lia.
  - vm_compute. reflexivity.
Defined.

(** ** The tables of all groups *)

(** A table for blocks of [bs] tokens whose rows reach [max_model_len]. *)
Definition reaches (W max_model_len reqs bs : Z) (t : BlockTable) : Prop :=
  table_rel t (py_repeat [] reqs) ∧ td_block_size (bt_dims t) * td_blocks_per_kv_block (bt_dims t) = bs ∧
  ∃ cap, td_max_num_blocks_per_req (bt_dims t) = cap * td_blocks_per_kv_block (bt_dims t) ∧ max_model_len ≤ cap * (bs * W).

Lemma align_blocks_ok n bs : 1 ≤ bs → ∃ m, align_blocks n bs = Ok m ∧ n ≤ m.
Proof.
  intros Hb. unfold align_blocks. case_bool_decide as H128; [|by exists n].
  assert (1 ≤ 128 / bs) by (apply Z.div_le_lower_bound; lia).
  rewrite !bool_decide_false; [|lia..]. eexists. split; [done|].
  pose proof (cdiv_spec n (128 / bs) ltac:(lia)). lia.
Qed.

(** One group: the default number of blocks, aligned, and the table for it. *)
Lemma group_table_ok cp reqs max_model_len toks interleave bs ks :
  let W := pcp_world_size cp * dcp_world_size cp in
  1 ≤ W → 0 ≤ reqs → 0 ≤ max_model_len → 1 ≤ bs → 1 ≤ ks → (ks | bs) →
  ∃ n m t, default_max_blocks cp max_model_len bs = Ok n ∧ align_blocks n bs = Ok m ∧
    BlockTable_init cp bs reqs m toks ks interleave = Ok t ∧ reaches W max_model_len reqs bs t.
Proof.
  intros W HW Hr Hm Hb Hk Hdiv. unfold default_max_blocks. rewrite (Z.mul_comm (dcp_world_size cp)). fold W.
  rewrite bool_decide_false; [|nia]. set (n := cdiv max_model_len (bs * W)).
  assert (0 < bs * W) as HS by nia. pose proof (cdiv_spec max_model_len (bs * W) HS) as Hn. fold n in Hn.
  destruct (align_blocks_ok n bs Hb) as (m & Em & Hnm). exists n, m.
  assert (0 ≤ n) by (apply cdiv_nonneg; lia).
  destruct (block_table_init_ok cp bs reqs m toks ks interleave) as (t & E & Hs & Hp & Hw & _ & _ & _ & R); [done..|lia|].
  exists t. split_and!; [done..|]. split; [done|]. split.
  - rewrite Hs Hp. destruct Hdiv as [q ->]. rewrite Z.div_mul; lia.
  - exists m. split; [done|]. nia.
Qed.

(** With the default numbers of blocks, [MultiGroupBlockTable] succeeds for positive
    block sizes that their kernel block sizes divide, and the rows of every group have
    room for the blocks of a request of [max_model_len] tokens. *)
Theorem block_tables_reach_max_len cp reqs max_model_len toks interleave block_sizes kernel_block_sizes :
  let W := pcp_world_size cp * dcp_world_size cp in
  1 ≤ W → 0 ≤ reqs → 0 ≤ max_model_len →
  Forall2 (λ bs ks, 1 ≤ bs ∧ 1 ≤ ks ∧ (ks | bs)) block_sizes kernel_block_sizes →
  ∃ ts, MultiGroupBlockTable_init cp reqs max_model_len toks block_sizes kernel_block_sizes None interleave = Ok ts ∧
    Forall2 (reaches W max_model_len reqs) block_sizes ts.
Proof.
  intros W HW Hr Hm Hsizes. unfold MultiGroupBlockTable_init.
  pose proof (Forall2_length _ _ _ Hsizes) as Hlen. rewrite bool_decide_false; [|unfold zlen; lia].
  assert (∃ ns ms ts, mapM_res (default_max_blocks cp max_model_len) block_sizes = Ok ns ∧ length ns = length block_sizes ∧
    mapM_res (λ nb, align_blocks nb.1 nb.2) (zip ns block_sizes) = Ok ms ∧
    mapM_res (λ x, let '(block_size, kernel_block_size, max_num_blocks_per_req) := x in
        BlockTable_init cp block_size reqs max_num_blocks_per_req toks kernel_block_size interleave)
      (zip (zip block_sizes kernel_block_sizes) ms) = Ok ts ∧
    Forall2 (reaches W max_model_len reqs) block_sizes ts) as (ns & ms & ts & En & Hl & Em & Et & Hts).
  { clear Hlen. induction Hsizes as [|bs ks bss kss (Hb & Hk & Hdiv) _ IH]; [by exists [], [], []|].
    destruct IH as (ns & ms & ts & En & Hl & Em & Et & Hts).
    destruct (group_table_ok cp reqs max_model_len toks interleave bs ks) as (n & m & t & E1 & E2 & E3 & Ht); [done..|].
    exists (n :: ns), (m :: ms), (t :: ts). cbn [mapM_res zip zip_with fst snd length]. rewrite E1 En E2. cbn [mbind res_bind].
    rewrite Em. cbn [mbind res_bind]. rewrite E3 Et. cbn [mbind res_bind]. split_and!; [done|lia|done..|]. by constructor. }
  rewrite En. cbn [mbind res_bind]. rewrite bool_decide_false; [|unfold zlen; lia]. rewrite Em. cbn [mbind res_bind].
  by exists ts.
Qed.

Lemma block_tables_reach_max_len_witness :
  ∃ ts, MultiGroupBlockTable_init no_cp 8 1000 64 [16; 48] [16; 16] None 1 = Ok ts ∧
    Forall2 (reaches 1 1000 8) [16; 48] ts.
Proof.
  apply (block_tables_reach_max_len no_cp 8 1000 64 1 [16; 48] [16; 16]).
  - cbn. lia.
  - lia.
  - lia.
  - constructor; [|constructor; [|constructor]].
    + split_and!; [lia|lia|exists 1; reflexivity].
    + split_and!; [lia|lia|exists 3; reflexivity].
Defined.
