(* ===== verification/BlockSlots.v ===== *)
(** * The slots of the tokens

    What the slot mapping kernel computes ([slot_mapping_correct]): the slot of a token is
    its place in the manager's block, shared out among the context-parallel ranks, and does
    not depend on the kernel's block size.  Two tokens share a slot only when they are the
    same place of the same block ([slot_of_inj]).  This needs the interleaving size to divide
    the kernel's block size; the code checks it against the manager's block size only
    ([interleaved_slots_collide]). *)

From S2P Require Import Prelude NumPy BlockTable BlockTableSpec.

(** ** The specification *)

(** The slot of position [pos] for a request with blocks [blocks] of [B] tokens, on rank [R]
    of [W] ranks that take turns of [I] tokens; [PAD_SLOT_ID] on the other ranks. *)
Definition slot_of (B W R I : Z) (blocks : list Z) (pos : Z) : option Z :=
  let off := pos `mod` (B * W) in
  b ← blocks !! Z.to_nat (pos / (B * W));
  Some (if bool_decide ((off / I) `mod` W = R) then b * B + off / (W * I) * I + off `mod` I else PAD_SLOT_ID).

(** ** Memory after a kernel *)

(** [sm'] is [sm] with the values of [f] at the offsets in [D]. *)
Definition writes (D : Z → Prop) (f : Z → Z) (sm sm' : list Z) : Prop :=
  zlen sm' = zlen sm ∧
  ∀ off, 0 ≤ off → (D off → sm' !! Z.to_nat off = Some (f off)) ∧ (¬ D off → sm' !! Z.to_nat off = sm !! Z.to_nat off).

Lemma foldM_bind {A B S} (step : S → B → res S) (h : A → list B) (l : list A) (s : S) :
  foldM (λ s x, foldM step s (h x)) s l = foldM step s (l ≫= h).
Proof.
  revert s. induction l as [|x l IH]; intros s; [done|]. rewrite bind_cons foldM_app. cbn [foldM].
  destruct (foldM step s (h x)) as [s'|e]; [|done]. cbn [mbind res_bind]. apply IH.
Qed.

(** A loop of masked stores. *)
Lemma stores_ok (step : list Z → Z → res (list Z)) (P : Z → Prop) `{∀ off, Decision (P off)} (f : Z → Z) (n : Z) l sm :
  (∀ sm off, zlen sm = n → off ∈ l → step sm off = if decide (P off) then tl_store sm off (f off) else Ok sm) →
  (∀ off, off ∈ l → P off → 0 ≤ off < n) → zlen sm = n →
  ∃ sm', foldM step sm l = Ok sm' ∧ writes (λ off, off ∈ l ∧ P off) f sm sm'.
Proof.
  revert sm. induction l as [|x l IH]; intros sm Hstep HP Hn.
  { exists sm. split; [done|]. split; [done|]. intros off _. split; [|done]. intros [Hin%not_elem_of_nil _]. done. }
  cbn [foldM]. rewrite Hstep; [|done|left].
  assert (∃ sm1, (if decide (P x) then tl_store sm x (f x) else Ok sm) = Ok sm1 ∧ writes (λ off, off = x ∧ P x) f sm sm1)
    as (sm1 & -> & Hl1 & Hw1).
  { destruct (decide (P x)) as [Hp|Hp].
    - pose proof (HP x ltac:(left) Hp) as Hx. unfold tl_store. rewrite bool_decide_true; [|lia].
      rewrite np_store_ok; [|lia]. eexists. split; [done|]. split; [apply zlen_insert|]. intros off Hoff. split.
      + intros [-> _]. rewrite list_lookup_insert_eq //. unfold zlen in Hn. lia.
      + intros Hne. rewrite list_lookup_insert_ne //. intros E. apply Hne. split; [lia|done].
    - exists sm. split; [done|]. split; [done|]. naive_solver. }
  cbn [mbind res_bind].
  destruct (IH sm1) as (sm2 & E2 & Hl2 & Hw2); [intros ????; apply Hstep; [done|by right]|intros ??; apply HP; by right|lia|].
  exists sm2. split; [done|]. split; [lia|]. intros off Hoff. destruct (Hw1 off Hoff) as [Ha Hb]. destruct (Hw2 off Hoff) as [Hc Hd].
  destruct (decide (off ∈ l ∧ P off)) as [Hin|Hin].
  - split; [intros _; by apply Hc|]. intros Hno. destruct Hno. destruct Hin. split; [by right|done].
  - split.
    + intros [[->|?]%elem_of_cons Hp]; [|tauto]. rewrite Hd; [|done]. by apply Ha.
    + intros Hno. rewrite Hd; [|done]. apply Hb. intros [-> Hp]. apply Hno. split; [left|done].
Qed.

(** The chunks of a range cover it. *)
Lemma chunks_cover a b n off : 1 ≤ n → off ∈ (range_step a b n ≫= λ i, zrange i (i + n)) ∧ off < b ↔ a ≤ off < b.
Proof.
  intros Hn. unfold range_step. rewrite list_elem_of_bind. split.
  - intros [(i & Hi & Hin) Hlt]. apply list_elem_of_fmap in Hin as (j & -> & Hj%elem_of_zrange). apply elem_of_zrange in Hi. nia.
  - intros Hoff. split; [|lia]. exists (a + (off - a) / n * n).
    pose proof (Z.mul_div_le (off - a) n ltac:(lia)). pose proof (Z.mul_succ_div_gt (off - a) n ltac:(lia)).
    split; [apply elem_of_zrange; lia|]. apply list_elem_of_fmap. exists ((off - a) / n). split; [done|].
    apply elem_of_zrange. split; [apply Z.div_pos; lia|]. pose proof (cdiv_spec (b - a) n ltac:(lia)). nia.
Qed.

(** ** Splitting a block into kernel blocks *)

Section Split.
Context (s per W I m : Z) (Hs : s = I * m) (HI : 1 ≤ I) (Hm : 1 ≤ m) (Hper : 1 ≤ per) (HW : 1 ≤ W).
Context (pos : Z) (Hpos : 0 ≤ pos).
Local Abbreviation V := (s * W).
Local Abbreviation k := (pos / V).
Local Abbreviation vo := (pos `mod` V).
Local Abbreviation off := (pos `mod` (s * per * W)).

Lemma split_V : 0 < V.
Proof. nia. Qed.

Lemma split_off : off = vo + k `mod` per * (m * W * I).
Proof.
  pose proof split_V. replace (s * per * W) with (V * per) by lia. rewrite Z.rem_mul_r; [|lia..]. rewrite Hs. lia.
Qed.

Lemma split_index : pos / (s * per * W) = k / per.
Proof. pose proof split_V. rewrite Z.div_div; [|lia..]. f_equal. lia. Qed.

Lemma split_turn : (off / I) `mod` W = (vo / I) `mod` W.
Proof.
  rewrite split_off. replace (k `mod` per * (m * W * I)) with (k `mod` per * m * W * I) by lia.
  rewrite Z.div_add; [|lia]. rewrite Z.mod_add; [done|lia].
Qed.

Lemma split_round : off / (W * I) = vo / (W * I) + k `mod` per * m.
Proof.
  rewrite split_off. replace (k `mod` per * (m * W * I)) with (k `mod` per * m * (W * I)) by lia. rewrite Z.div_add; nia.
Qed.

Lemma split_rest : off `mod` I = vo `mod` I.
Proof.
  rewrite split_off. replace (k `mod` per * (m * W * I)) with (k `mod` per * m * W * I) by lia. rewrite Z.mod_add; lia.
Qed.

(** The kernel's slot is that of the manager's block. *)
Lemma split_slot b :
  (b * per + k `mod` per) * s + (vo / (W * I) * I + vo `mod` I) = b * (s * per) + off / (W * I) * I + off `mod` I.
Proof. rewrite split_round split_rest. rewrite Hs. nia. Qed.
End Split.

(** What the kernel computes for one token from the flat table. *)
Lemma slot_id_ok (table : list Z) (s per W R I row_offset pos b : Z) (blocks : list Z) :
  (I | s) → 1 ≤ s → 1 ≤ I → 1 ≤ per → 1 ≤ W → 0 ≤ pos → 0 ≤ row_offset →
  table !! Z.to_nat (row_offset + pos / (s * W)) = kernel_ids per blocks !! Z.to_nat (pos / (s * W)) →
  blocks !! Z.to_nat (pos / (s * per * W)) = Some b →
  ∃ slot, slot_id table s W R I PAD_SLOT_ID row_offset pos = Ok slot ∧ slot_of (s * per) W R I blocks pos = Some slot.
Proof.
  intros [m Hm] Hs HI Hper HW Hpos Hrow Ht Hb.
  assert (1 ≤ m) as Hm1 by nia. assert (s = I * m) as Hs' by lia. assert (0 < s * W) as HV by nia.
  assert (0 ≤ pos / (s * W)) as Hk by (apply Z.div_pos; lia).
  pose proof (split_index s per W I m Hs' HI Hm1 Hper HW pos) as Hidx.
  rewrite (kernel_ids_lookup per blocks _ b) in Ht; [|lia|lia|by rewrite -Hidx].
  unfold slot_id. rewrite !(Z.quot_div_nonneg pos); [|lia..].
  unfold tl_load. rewrite (bool_decide_true (0 ≤ row_offset + _ < _)).
  2:{ apply lookup_lt_Some in Ht. unfold zlen. lia. }
  rewrite (py_nth_ok table (row_offset + pos / (s * W)) _ ltac:(lia) Ht). cbn [mbind res_bind].
  assert (pos - pos / (s * W) * (s * W) = pos `mod` (s * W)) as -> by (rewrite Z.mod_eq; lia).
  assert (0 ≤ pos `mod` (s * W)) as Hvo by (apply Z.mod_pos_bound; lia).
  rewrite !Z.quot_div_nonneg; [|lia || nia..]. rewrite !Z.rem_mod_nonneg; [|lia || (apply Z.div_pos; lia)..].
  eexists. split; [done|]. unfold slot_of. rewrite Hb. cbn [mbind option_bind].
  rewrite (split_turn s per W I m) // (split_slot s per W I m) //.
Qed.

(** ** One launch of the kernel *)

Lemma concat_lookup (w : Z) (ls : list (list Z)) r row k :
  Forall (λ row, zlen row = w) ls → 0 ≤ r → ls !! Z.to_nat r = Some row → 0 ≤ k < w →
  concat ls !! Z.to_nat (r * w + k) = row !! Z.to_nat k.
Proof.
  revert r. induction ls as [|x ls IH]; intros r Hls Hr Hrow Hk; [done|]. apply Forall_cons in Hls as [Hx Hls]. cbn [concat].
  destruct (decide (r = 0)) as [->|Hne].
  - injection Hrow as ->. rewrite lookup_app_l; [done|]. unfold zlen in Hx. lia.
  - assert (Z.to_nat r = S (Z.to_nat (r - 1))) as E by lia. rewrite E in Hrow. cbn in Hrow.
    rewrite lookup_app_r; [|unfold zlen in Hx; nia].
    rewrite -(IH (r - 1)); [|done|lia|done|done]. f_equal. unfold zlen in Hx. nia.
Qed.

Section Launch.
Context (rows : list (list Z)) (num_reqs : Z) (query_start_loc positions : list Z) (span : Z).

Definition position_of (off : Z) : Z := default 0 (positions !! Z.to_nat off).

(** The tokens of request [r] are a range of the batch, and the request has blocks (of
    [span] tokens) for them. *)
Definition request_ok (r : Z) : Prop :=
  match query_start_loc !! Z.to_nat r, query_start_loc !! Z.to_nat (r + 1), rows !! Z.to_nat r with
  | Some a, Some e, Some l =>
      (0 ≤ a ∧ a ≤ e ∧ e ≤ zlen positions) ∧ Forall (λ off, 0 ≤ position_of off < zlen l * span) (zrange a e)
  | _, _, _ => False
  end.

#[export] Instance request_ok_dec r : Decision (request_ok r).
Proof. unfold request_ok. repeat case_match; apply _. Defined.

Definition batch_ok : Prop := Forall request_ok (zrange 0 num_reqs).

Definition start_of (r : Z) : Z := default 0 (query_start_loc !! Z.to_nat r).

Lemma batch_request r : batch_ok → 0 ≤ r < num_reqs →
  ∃ l, query_start_loc !! Z.to_nat r = Some (start_of r) ∧ query_start_loc !! Z.to_nat (r + 1) = Some (start_of (r + 1)) ∧
    rows !! Z.to_nat r = Some l ∧ 0 ≤ start_of r ∧ start_of r ≤ start_of (r + 1) ∧ start_of (r + 1) ≤ zlen positions ∧
    ∀ off, start_of r ≤ off < start_of (r + 1) → 0 ≤ position_of off < zlen l * span.
Proof.
  intros Hb Hr. unfold batch_ok in Hb. rewrite Forall_forall in Hb. specialize (Hb r (proj2 (elem_of_zrange _ _ _) Hr)).
  unfold request_ok in Hb. unfold start_of.
  destruct (query_start_loc !! Z.to_nat r) as [a|]; [|done].
  destruct (query_start_loc !! Z.to_nat (r + 1)) as [e|]; [|done].
  destruct (rows !! Z.to_nat r) as [l|]; [|done]. destruct Hb as [(Ha & Hae & He) Hall]. exists l. cbn. split_and!; [done..|].
  intros off Hoff. rewrite Forall_forall in Hall. apply Hall, elem_of_zrange. done.
Qed.

Lemma starts_mono r r' : batch_ok → 0 ≤ r → r ≤ r' → r' ≤ num_reqs → start_of r ≤ start_of r'.
Proof.
  intros Hb Hr Hle Hn. replace r' with (r + Z.of_nat (Z.to_nat (r' - r))) by lia.
  assert (r + Z.of_nat (Z.to_nat (r' - r)) ≤ num_reqs) as Hn' by lia.
  induction (Z.to_nat (r' - r)) as [|n IH]; [rewrite Z.add_0_r; lia|].
  destruct (batch_request (r + Z.of_nat n) Hb) as (l & _ & _ & _ & _ & Hm & _); [lia|].
  etransitivity; [apply IH; lia|]. etransitivity; [exact Hm|]. apply Z.eq_le_incl. f_equal. lia.
Qed.
End Launch.

Section Programs.
Context (gpu rows : list (list Z)) (num_reqs : Z) (query_start_loc positions : list Z) (s per w W R I max_tokens : Z).
Context (Hdiv : (I | s)) (Hs : 1 ≤ s) (HI : 1 ≤ I) (Hper : 1 ≤ per) (HW : 1 ≤ W).
Context (Hwidth : Forall (λ row, zlen row = w) gpu).
Context (Hgpu : ∀ r l, 0 ≤ r < num_reqs → rows !! Z.to_nat r = Some l → ∃ row, gpu !! Z.to_nat r = Some row ∧ row_holds per w l row).
Context (Hbatch : batch_ok rows num_reqs query_start_loc positions (s * per * W)).
Context (Hmax : zlen positions ≤ max_tokens).
Local Abbreviation start := (start_of query_start_loc).

Definition slot_value (r off : Z) : Z :=
  default PAD_SLOT_ID (rows !! Z.to_nat r ≫= λ l, slot_of (s * per) W R I l (position_of positions off)).

Lemma row_slot_ok r l pos :
  0 ≤ r < num_reqs → rows !! Z.to_nat r = Some l → 0 ≤ pos < zlen l * (s * per * W) →
  ∃ slot, slot_id (concat gpu) s W R I PAD_SLOT_ID (r * w) pos = Ok slot ∧ slot_of (s * per) W R I l pos = Some slot.
Proof.
  intros Hr Hl Hpos. destruct (Hgpu r l Hr Hl) as (row & Hrow & [Hw Hf _ Hb]).
  assert (0 < s * W) as HV by nia. assert (0 ≤ pos / (s * per * W) < zlen l) as Hi.
  { split; [apply Z.div_pos; nia|]. apply Z.div_lt_upper_bound; nia. }
  destruct (zlen_lookup l _ Hi) as [b Hlb].
  assert (0 ≤ pos / (s * W)) as Hk0 by (apply Z.div_pos; lia).
  assert (pos / (s * W) < zlen l * per) as Hk by (apply Z.div_lt_upper_bound; nia).
  eapply slot_id_ok; [done..|lia| | |exact Hlb].
  - pose proof (zlen_nonneg row). nia.
  - rewrite (concat_lookup w gpu r row); [|done|lia|done|lia]. rewrite -Hb lookup_take_lt //. lia.
Qed.

Lemma map_request_ok sm r :
  0 ≤ r < num_reqs → zlen sm = max_tokens →
  ∃ sm', map_request query_start_loc positions (concat gpu) w s W R I PAD_SLOT_ID 1024 r sm = Ok sm' ∧
    writes (λ off, start r ≤ off < start (r + 1)) (slot_value r) sm sm'.
Proof.
  intros Hr Hsm. destruct (batch_request _ _ _ _ _ r Hbatch Hr) as (l & Ha & He & Hl & H0 & Hle & Hend & Hpos).
  unfold map_request, tl_load.
  rewrite !bool_decide_true; [|apply lookup_lt_Some in Ha, He; unfold zlen; lia..].
  rewrite (py_nth_ok _ _ _ (proj1 Hr) Ha) (py_nth_ok query_start_loc (r + 1) _ ltac:(lia) He). cbn [mbind res_bind].
  rewrite foldM_bind.
  destruct (stores_ok (slot_lane positions (concat gpu) s W R I PAD_SLOT_ID (r * w) (start (r + 1)))
    (λ off, off < start (r + 1)) (slot_value r) max_tokens
    (range_step (start r) (start (r + 1)) 1024 ≫= λ i, zrange i (i + 1024)) sm) as (sm' & E & Hlen & Hw); [| |done|].
  - intros sm1 off Hsm1 Hoff.
    assert (start r ≤ off) as Hlo.
    { apply list_elem_of_bind in Hoff as (i & Hoff%elem_of_zrange & Hi). apply list_elem_of_fmap in Hi as (j & -> & Hj%elem_of_zrange). lia. }
    unfold slot_lane. destruct (decide (off < start (r + 1))) as [Hlt|Hge].
    + rewrite bool_decide_true; [|done]. specialize (Hpos off ltac:(lia)).
      destruct (zlen_lookup positions off) as [p Hp]; [lia|]. unfold tl_load. rewrite bool_decide_true; [|lia].
      rewrite (py_nth_ok positions off p ltac:(lia) Hp). cbn [mbind res_bind].
      assert (position_of positions off = p) as Ep by (by rewrite /position_of Hp). rewrite Ep in Hpos.
      destruct (row_slot_ok r l p Hr Hl Hpos) as (slot & -> & Es). cbn [mbind res_bind].
      by rewrite /slot_value Hl /= Ep Es.
    + rewrite bool_decide_false; [|done]. cbn [mbind res_bind].
      assert (start r < start (r + 1)) as Hne.
      { destruct (decide (start r < start (r + 1))) as [|Hno]; [done|]. unfold range_step, zrange in Hoff.
        rewrite seqZ_nil in Hoff; [by apply not_elem_of_nil in Hoff|].
        enough (cdiv (start (r + 1) - start r) 1024 ≤ 0) by lia. apply cdiv_le; lia. }
      pose proof (Hpos (start r) ltac:(lia)) as [Hp0 Hp1].
      destruct (row_slot_ok r l 0 Hr Hl) as (slot & -> & _); [nia|]. done.
  - intros off Hoff Hlt. apply list_elem_of_bind in Hoff as (i & Hoff%elem_of_zrange & Hi).
    apply list_elem_of_fmap in Hi as (j & -> & Hj%elem_of_zrange). lia.
  - exists sm'. split; [done|]. split; [done|]. intros off Hoff. rewrite -(chunks_cover (start r) (start (r + 1)) 1024 off) //.
    apply Hw. done.
Qed.

Lemma pad_slots_ok sm :
  zlen sm = max_tokens →
  ∃ sm', pad_slots (zlen positions) max_tokens PAD_SLOT_ID 1024 sm = Ok sm' ∧
    writes (λ off, zlen positions ≤ off < max_tokens) (λ _, PAD_SLOT_ID) sm sm'.
Proof.
  intros Hsm. unfold pad_slots. rewrite foldM_bind. pose proof (zlen_nonneg positions).
  destruct (stores_ok (λ sm off, if bool_decide (off < max_tokens) then tl_store sm off PAD_SLOT_ID else Ok sm)
    (λ off, off < max_tokens) (λ _, PAD_SLOT_ID) max_tokens
    (range_step (zlen positions) max_tokens 1024 ≫= λ i, zrange i (i + 1024)) sm) as (sm' & E & Hlen & Hw); [| |done|].
  - intros sm1 off _ _. destruct (decide (off < max_tokens)); [by rewrite bool_decide_true|by rewrite bool_decide_false].
  - intros off Hoff Hlt. apply list_elem_of_bind in Hoff as (i & Hoff%elem_of_zrange & Hi).
    apply list_elem_of_fmap in Hi as (j & -> & Hj%elem_of_zrange). lia.
  - exists sm'. split; [done|]. split; [done|]. intros off Hoff. rewrite -(chunks_cover (zlen positions) max_tokens 1024 off) //.
    apply Hw. done.
Qed.

(** Where a program stores, and what. *)
Definition stores_at (pid off : Z) : Prop :=
  if decide (pid = num_reqs) then zlen positions ≤ off < max_tokens else start pid ≤ off < start (pid + 1).
Definition stored_value (pid off : Z) : Z := if decide (pid = num_reqs) then PAD_SLOT_ID else slot_value pid off.

Lemma stores_disjoint pid pid' off :
  0 ≤ pid ≤ num_reqs → 0 ≤ pid' ≤ num_reqs → stores_at pid off → stores_at pid' off → pid = pid'.
Proof.
  assert (∀ p p', 0 ≤ p → p < p' → p' ≤ num_reqs → stores_at p off → ¬ stores_at p' off) as Hlt.
  { intros p p' Hp Hpp Hp'. unfold stores_at. rewrite decide_False; [|lia]. intros Hoff.
    destruct (decide (p' = num_reqs)) as [->|Hne].
    - destruct (batch_request _ _ _ _ _ p Hbatch) as (l & _ & _ & _ & _ & _ & Hend & _); lia.
    - pose proof (starts_mono _ _ _ _ _ (p + 1) p' Hbatch ltac:(lia) ltac:(lia) ltac:(lia)). lia. }
  intros Hp Hp' H1 H2. destruct (Z.lt_trichotomy pid pid') as [?|[?|?]]; [|done|].
  - by destruct (Hlt pid pid' ltac:(lia) ltac:(lia) ltac:(lia) H1).
  - by destruct (Hlt pid' pid ltac:(lia) ltac:(lia) ltac:(lia) H2).
Qed.

Lemma programs_ok l sm :
  Forall (λ pid, 0 ≤ pid ≤ num_reqs) l → zlen sm = max_tokens →
  ∃ sm', foldM (_compute_slot_mapping_kernel (zlen positions) max_tokens query_start_loc positions (concat gpu) w s W R I
                  PAD_SLOT_ID 1024 (num_reqs + 1)) sm l = Ok sm' ∧ zlen sm' = max_tokens ∧
    ∀ pid off, 0 ≤ pid ≤ num_reqs → 0 ≤ off → stores_at pid off →
      pid ∈ l ∨ sm !! Z.to_nat off = Some (stored_value pid off) → sm' !! Z.to_nat off = Some (stored_value pid off).
Proof.
  revert sm. induction l as [|x l IH]; intros sm Hl Hsm.
  { exists sm. split_and!; [done..|]. intros pid off _ _ _ [Hin%not_elem_of_nil|?]; done. }
  apply Forall_cons in Hl as [Hx Hl]. cbn [foldM].
  assert (∃ sm1, _compute_slot_mapping_kernel (zlen positions) max_tokens query_start_loc positions (concat gpu) w s W R I
                  PAD_SLOT_ID 1024 (num_reqs + 1) sm x = Ok sm1 ∧ writes (stores_at x) (stored_value x) sm sm1)
    as (sm1 & -> & Hlen & Hw).
  { unfold _compute_slot_mapping_kernel, stores_at, stored_value. destruct (decide (x = num_reqs)) as [->|Hne].
    - rewrite bool_decide_true; [|lia]. by apply pad_slots_ok.
    - rewrite bool_decide_false; [|lia]. apply map_request_ok; [lia|done]. }
  cbn [mbind res_bind]. destruct (IH sm1 Hl) as (sm2 & E & Hlen2 & Hall); [lia|]. exists sm2. split_and!; [done..|].
  intros pid off Hpid Hoff Hst Hin. apply Hall; [done..|]. destruct (Hw off Hoff) as [Hyes Hno].
  destruct (decide (pid = x)) as [->|Hne]; [right; by apply Hyes|].
  destruct Hin as [[?|?]%elem_of_cons|Hin]; [done|by left|]. right. rewrite Hno; [done|].
  intros Hx'. apply Hne. by eapply stores_disjoint.
Qed.
End Programs.

(** The first rows of the device are those of the host after a commit. *)
Lemma commit_rows t rows n :
  table_rel t rows → 0 ≤ n ≤ zlen rows →
  Forall (λ row, zlen row = td_max_num_blocks_per_req (bt_dims t)) (bt_gpu (commit_block_table n t)) ∧
  ∀ r l, 0 ≤ r < n → rows !! Z.to_nat r = Some l → ∃ row, bt_gpu (commit_block_table n t) !! Z.to_nat r = Some row ∧
    row_holds (td_blocks_per_kv_block (bt_dims t)) (td_max_num_blocks_per_req (bt_dims t)) l row.
Proof.
  intros R Hn. pose proof (tr_cpu _ _ R) as Hc. cbn. rewrite py_slice_to_take; [|lia]. rewrite py_slice_from_drop; [|lia]. split.
  - apply Forall_app. split; [|by apply Forall_drop, R]. apply Forall_take, Forall_lookup. intros i row Hi.
    destruct (Forall2_lookup_r _ _ _ _ _ Hc Hi) as (l & _ & Hh). apply Hh.
  - intros r l Hr Hl. destruct (Forall2_lookup_l _ _ _ _ _ Hc Hl) as (row & Hrow & Hh). exists row. split; [|done].
    rewrite lookup_app_l; [by rewrite lookup_take_lt; [|lia]|]. rewrite length_take. apply lookup_lt_Some in Hrow. lia.
Qed.

Lemma slot_mapping_ok cp block_size reqs cap toks kernel_block_size interleave ops rows grid num_reqs query_start_loc positions :
  let W := pcp_world_size cp * dcp_world_size cp in
  let R := pcp_rank cp * dcp_world_size cp + dcp_rank cp in
  1 ≤ kernel_block_size → 1 ≤ block_size → (kernel_block_size | block_size) → 0 ≤ reqs → 0 ≤ cap →
  1 ≤ W → 1 ≤ interleave → (interleave | kernel_block_size) → (∀ l, grid l ≡ₚ l) →
  spec_run cap (id_bound (block_size / kernel_block_size)) (py_repeat [] reqs) ops = Some rows →
  0 ≤ num_reqs ≤ zlen rows → zlen positions ≤ toks → batch_ok rows num_reqs query_start_loc positions (block_size * W) →
  ∃ t0 t t', BlockTable_init cp block_size reqs cap toks kernel_block_size interleave = Ok t0 ∧
    foldM run_row_op t0 ops = Ok t ∧
    compute_slot_mapping grid num_reqs query_start_loc positions (commit_block_table num_reqs t) = Ok t' ∧
    (∀ r l off, 0 ≤ r < num_reqs → rows !! Z.to_nat r = Some l →
       start_of query_start_loc r ≤ off < start_of query_start_loc (r + 1) →
       bt_slot_mapping t' !! Z.to_nat off = slot_of block_size W R interleave l (position_of positions off)) ∧
    (∀ off, zlen positions ≤ off < toks → bt_slot_mapping t' !! Z.to_nat off = Some PAD_SLOT_ID).
Proof.
  intros W R Hk Hb Hdiv Hr Hc HW HI HIk Hgrid Hrun Hn Hpos Hbatch.
  destruct (block_table_init_ok cp block_size reqs cap toks kernel_block_size interleave)
    as (t0 & E0 & Hs & Hper & Hw & Ht & Hcp & Hil & R0); [done..|]. rewrite -Hper in Hrun.
  destruct (row_ops_refine cap t0 _ ops rows R0 Hw Hrun) as (t & Et & Hd & Rt).
  pose proof (do_per _ (tr_dims _ _ Rt)) as Hp1. destruct (commit_rows t rows num_reqs Rt Hn) as [Hwid Hgpu].
  assert (kernel_block_size * td_blocks_per_kv_block (bt_dims t) = block_size) as HB.
  { rewrite Hd Hper. destruct Hdiv as [q ->]. rewrite Z.div_mul; lia. }
  assert (zlen (bt_slot_mapping t) = toks) as Hsm.
  { rewrite (tr_slots _ _ Rt) Hd Ht. pose proof (zlen_nonneg positions). lia. }
  rewrite -HB in Hbatch.
  destruct (programs_ok _ rows num_reqs query_start_loc positions kernel_block_size _ _ W R interleave toks HIk Hk HI Hp1 HW
    Hwid Hgpu Hbatch Hpos (grid (zrange 0 (num_reqs + 1))) (bt_slot_mapping t)) as (sm & E & Hlen & Hall); [|done|].
  { rewrite Hgrid. apply Forall_forall. intros x ?%elem_of_zrange. lia. }
  exists t0, t. eexists. split; [done|]. split; [done|]. split.
  { unfold compute_slot_mapping. cbn [commit_block_table bt_dims bt_slot_mapping].
    rewrite Hd Hs Ht Hcp Hil. rewrite -Hd. unfold W, R in E. rewrite E. done. }
  cbn [bt_slot_mapping]. split.
  - intros r l off Hr' Hl Hoff. rewrite -HB.
    destruct (batch_request _ _ _ _ _ r Hbatch Hr') as (l' & _ & _ & Hl' & H0 & _ & _ & Hposs).
    assert (l' = l) as -> by congruence.
    rewrite (Hall r off); [|lia|lia| |].
    + unfold stored_value. rewrite decide_False; [|lia]. unfold slot_value. rewrite Hl. cbn [mbind option_bind].
      destruct (row_slot_ok _ rows num_reqs kernel_block_size _ _ W R interleave HIk Hk HI Hp1 HW Hwid Hgpu r l _ Hr' Hl (Hposs off Hoff))
        as (slot & _ & ->). done.
    + unfold stores_at. rewrite decide_False; [done|lia].
    + left. rewrite Hgrid. apply elem_of_zrange. lia.
  - intros off Hoff. pose proof (zlen_nonneg positions). rewrite (Hall num_reqs off); [|lia|lia| |].
    + unfold stored_value. by rewrite decide_True.
    + unfold stores_at. by rewrite decide_True.
    + left. rewrite Hgrid. apply elem_of_zrange. lia.
Qed.

(** C22: the slot mapping of a batch is that of the manager's blocks.  Scope: the kernel's
    block size divides [block_size], and the interleave size of context parallelism
    divides the kernel's block size (see [interleaved_slots_collide]); the batch lies
    within the tables.  After any allowed sequence of row operations, a commit and the
    launch of the kernel (its programs in any order), every token of every request has
    the slot that its position has in the request's blocks of [block_size] tokens, or
    padding when another rank stores it, and the rest of the mapping is padding; no load
    or store is out of range. *)
Theorem slot_mapping_correct cp block_size reqs cap toks kernel_block_size interleave ops rows grid num_reqs query_start_loc positions :
  let W := pcp_world_size cp * dcp_world_size cp in
  let R := pcp_rank cp * dcp_world_size cp + dcp_rank cp in
  1 ≤ kernel_block_size → 1 ≤ block_size → (kernel_block_size | block_size) → 0 ≤ reqs → 0 ≤ cap →
  1 ≤ W → 1 ≤ interleave → (interleave | kernel_block_size) → (∀ l, grid l ≡ₚ l) →
  spec_run cap (id_bound (block_size / kernel_block_size)) (py_repeat [] reqs) ops = Some rows →
  0 ≤ num_reqs ≤ zlen rows → zlen positions ≤ toks → batch_ok rows num_reqs query_start_loc positions (block_size * W) →
  ∃ t0 t t', BlockTable_init cp block_size reqs cap toks kernel_block_size interleave = Ok t0 ∧
    foldM run_row_op t0 ops = Ok t ∧
    compute_slot_mapping grid num_reqs query_start_loc positions (commit_block_table num_reqs t) = Ok t' ∧
    (∀ r l off, 0 ≤ r < num_reqs → rows !! Z.to_nat r = Some l →
       start_of query_start_loc r ≤ off < start_of query_start_loc (r + 1) →
       bt_slot_mapping t' !! Z.to_nat off = slot_of block_size W R interleave l (position_of positions off)) ∧
    (∀ off, zlen positions ≤ off < toks → bt_slot_mapping t' !! Z.to_nat off = Some PAD_SLOT_ID).
Proof. apply slot_mapping_ok. Qed.

(** ** Slots are private to a place of a block *)

Section Places.
Context (B W R I : Z) (HI : 1 ≤ I) (HW : 1 ≤ W) (Hdiv : (I | B)) (HB : 1 ≤ B).

(** The place in the block of an offset on this rank determines the offset. *)
Lemma place_inj off off' :
  (off / I) `mod` W = R → (off' / I) `mod` W = R →
  off / (W * I) * I + off `mod` I = off' / (W * I) * I + off' `mod` I → off = off'.
Proof.
  intros HR HR' E. pose proof (Z.mod_pos_bound off I ltac:(lia)). pose proof (Z.mod_pos_bound off' I ltac:(lia)).
  assert (off / (W * I) = off' / (W * I)) as Eq by nia. assert (off `mod` I = off' `mod` I) as Em by lia.
  pose proof (Z.div_mod off I ltac:(lia)) as D. pose proof (Z.div_mod off' I ltac:(lia)) as D'.
  pose proof (Z.div_mod (off / I) W ltac:(lia)) as Q. pose proof (Z.div_mod (off' / I) W ltac:(lia)) as Q'.
  rewrite Z.div_div in Q; [|lia..]. rewrite Z.div_div in Q'; [|lia..]. rewrite (Z.mul_comm I W) in Q Q'.
  rewrite HR Eq in Q. rewrite HR' in Q'. assert (off / I = off' / I) as Ed by lia. rewrite Ed Em in D. lia.
Qed.

Lemma place_bound off : 0 ≤ off < B * W → 0 ≤ off / (W * I) * I + off `mod` I < B.
Proof.
  intros Hoff. destruct Hdiv as [m Hm]. pose proof (Z.mod_pos_bound off I ltac:(lia)).
  assert (0 ≤ off / (W * I)) by (apply Z.div_pos; nia).
  assert (off / (W * I) < m) by (apply Z.div_lt_upper_bound; nia). nia.
Qed.

Lemma slot_of_place l pos slot :
  0 ≤ pos → slot_of B W R I l pos = Some slot → slot ≠ PAD_SLOT_ID →
  ∃ b, l !! Z.to_nat (pos / (B * W)) = Some b ∧ (pos `mod` (B * W) / I) `mod` W = R ∧
    slot = b * B + (pos `mod` (B * W) / (W * I) * I + (pos `mod` (B * W)) `mod` I) ∧ b * B ≤ slot < (b + 1) * B.
Proof.
  intros Hpos E Hne. unfold slot_of in E. apply bind_Some in E as (b & Hb & E). exists b. split; [done|].
  assert (0 < B * W) as HBW by nia. pose proof (place_bound (pos `mod` (B * W)) (Z.mod_pos_bound _ _ HBW)).
  case_bool_decide as HR; [|congruence]. apply (inj Some) in E. split_and!; [done|lia|nia|nia].
Qed.

(** Equal slots are the same place of the same block. *)
Lemma slot_of_inj l l' pos pos' slot :
  0 ≤ pos → 0 ≤ pos' → slot_of B W R I l pos = Some slot → slot_of B W R I l' pos' = Some slot → slot ≠ PAD_SLOT_ID →
  pos `mod` (B * W) = pos' `mod` (B * W) ∧
  ∃ b, l !! Z.to_nat (pos / (B * W)) = Some b ∧ l' !! Z.to_nat (pos' / (B * W)) = Some b ∧ b * B ≤ slot < (b + 1) * B.
Proof.
  intros H0 H0' E E' Hne. destruct (slot_of_place _ _ _ H0 E Hne) as (b & Hb & HR & Hs & Hr).
  destruct (slot_of_place _ _ _ H0' E' Hne) as (b' & Hb' & HR' & Hs' & Hr'). assert (b = b') as <- by nia. split; [|by exists b].
  apply place_inj; [done..|lia].
Qed.
End Places.

(** C23: no two tokens of a step are written to one slot unless their requests share the
    block.  Scope: as for the slot mapping, the kernel's block size divides [block_size]
    and the interleave size divides the kernel's block size.  When two tokens of a batch
    have the same slot, and it is not padding, then the block tables of their requests
    have the same block at their positions, at the same place of the block, and the slot
    lies in the memory of that block.  A request whose blocks are distinct gives distinct
    slots to distinct positions. *)
Theorem slots_isolated cp block_size reqs cap toks kernel_block_size interleave ops rows grid num_reqs query_start_loc positions :
  let W := pcp_world_size cp * dcp_world_size cp in
  1 ≤ kernel_block_size → 1 ≤ block_size → (kernel_block_size | block_size) → 0 ≤ reqs → 0 ≤ cap →
  1 ≤ W → 1 ≤ interleave → (interleave | kernel_block_size) → (∀ l, grid l ≡ₚ l) →
  spec_run cap (id_bound (block_size / kernel_block_size)) (py_repeat [] reqs) ops = Some rows →
  0 ≤ num_reqs ≤ zlen rows → zlen positions ≤ toks → batch_ok rows num_reqs query_start_loc positions (block_size * W) →
  ∃ t0 t t', BlockTable_init cp block_size reqs cap toks kernel_block_size interleave = Ok t0 ∧
    foldM run_row_op t0 ops = Ok t ∧
    compute_slot_mapping grid num_reqs query_start_loc positions (commit_block_table num_reqs t) = Ok t' ∧
    ∀ r r' l l' off off' slot,
      0 ≤ r < num_reqs → 0 ≤ r' < num_reqs → rows !! Z.to_nat r = Some l → rows !! Z.to_nat r' = Some l' →
      start_of query_start_loc r ≤ off < start_of query_start_loc (r + 1) →
      start_of query_start_loc r' ≤ off' < start_of query_start_loc (r' + 1) →
      bt_slot_mapping t' !! Z.to_nat off = Some slot → bt_slot_mapping t' !! Z.to_nat off' = Some slot → slot ≠ PAD_SLOT_ID →
      let pos := position_of positions off in
      let pos' := position_of positions off' in
      (∃ b, l !! Z.to_nat (pos / (block_size * W)) = Some b ∧ l' !! Z.to_nat (pos' / (block_size * W)) = Some b ∧
            b * block_size ≤ slot < (b + 1) * block_size) ∧
      pos `mod` (block_size * W) = pos' `mod` (block_size * W) ∧
      (r = r' → NoDup l → pos = pos').
Proof.
  intros W Hk Hb Hdiv Hr Hc HW HI HIk Hgrid Hrun Hn Hpos Hbatch.
  destruct (slot_mapping_ok cp block_size reqs cap toks kernel_block_size interleave ops rows grid num_reqs query_start_loc positions)
    as (t0 & t & t' & E0 & Et & E' & Hslot & _); [done..|].
  exists t0, t, t'. split_and!; [done..|]. intros r r' l l' off off' slot Hr1 Hr2 Hl Hl' Ho Ho' Hs Hs' Hne pos pos'.
  rewrite (Hslot r l off) // in Hs. rewrite (Hslot r' l' off') // in Hs'.
  destruct (batch_request _ _ _ _ _ r Hbatch Hr1) as (l1 & _ & _ & _ & _ & _ & _ & Hp).
  destruct (batch_request _ _ _ _ _ r' Hbatch Hr2) as (l2 & _ & _ & _ & _ & _ & _ & Hp').
  assert (interleave | block_size) as HIb by (by etransitivity).
  pose proof (proj1 (Hp off Ho)) as H0. pose proof (proj1 (Hp' off' Ho')) as H0'.
  destruct (slot_of_inj _ _ _ _ HI HW HIb Hb l l' _ _ slot H0 H0' Hs Hs' Hne) as [Hmod (b & Hb1 & Hb2 & Hr3)].
  split; [by exists b|]. split; [done|]. intros -> Hnd. assert (l' = l) as -> by congruence.
  pose proof (NoDup_lookup _ _ _ _ Hnd Hb1 Hb2) as Hidx. assert (0 < block_size * W) by nia.
  pose proof (Z.div_pos _ _ H0 ltac:(eassumption)). pose proof (Z.div_pos _ _ H0' ltac:(eassumption)).
  pose proof (Z.div_mod pos (block_size * W) ltac:(lia)) as D. pose proof (Z.div_mod pos' (block_size * W) ltac:(lia)).
  assert (pos / (block_size * W) = pos' / (block_size * W)) as Hq by (unfold pos, pos'; lia).
  rewrite Hq in D. fold pos pos' in Hmod. lia.
Qed.

(** Two requests on rank 1 of 2, blocks of 32 tokens split in two kernel blocks. *)
Definition sample_cp : CPGroups := {| pcp_world_size := 1; pcp_rank := 0; dcp_world_size := 2; dcp_rank := 1 |}.
Definition slot_ops : list row_op := [OpAdd [3; 5] 0; OpAdd [7] 1].
Definition slot_starts : list Z := [0; 3; 5].
Definition slot_positions : list Z := [63; 64; 67; 18; 19].

Lemma slot_mapping_correct_witness :
  ∃ t0 t t', BlockTable_init sample_cp 32 3 4 8 16 2 = Ok t0 ∧ foldM run_row_op t0 slot_ops = Ok t ∧
    compute_slot_mapping reverse 2 slot_starts slot_positions (commit_block_table 2 t) = Ok t' ∧
    bt_slot_mapping t' !! 0%nat = Some 127 ∧ bt_slot_mapping t' !! 2%nat = Some 161 ∧ bt_slot_mapping t' !! 7%nat = Some PAD_SLOT_ID.
Proof.
  destruct (slot_mapping_correct sample_cp 32 3 4 8 16 2 slot_ops [[3; 5]; [7]; []] reverse 2 slot_starts slot_positions)
    as (t0 & t & t' & E0 & Et & E' & Hslot & Hpad).
  - lia.
  - lia.
  - exists 2. reflexivity.
  - lia.
  - lia.
  - cbn. lia.
  - lia.
  - exists 8. reflexivity.
  - intros l. apply reverse_Permutation.
  - vm_compute. reflexivity.
  - vm_compute. split; discriminate.
  - vm_compute. discriminate.
  - refine (bool_decide_unpack _ _). vm_compute. exact I.
  - exists t0, t, t'. split_and!; [exact E0|exact Et|exact E'| | |].
    + rewrite (Hslot 0 [3; 5] 0); [vm_compute; reflexivity|lia|reflexivity|vm_compute; split; [discriminate|reflexivity]].
    + rewrite (Hslot 0 [3; 5] 2); [vm_compute; reflexivity|lia|reflexivity|vm_compute; split; [discriminate|reflexivity]].
    + apply (Hpad 7). vm_compute. split; [discriminate|reflexivity].
Defined.

Lemma slots_isolated_witness :
  ∃ t0 t t', BlockTable_init sample_cp 32 3 4 8 16 2 = Ok t0 ∧ foldM run_row_op t0 slot_ops = Ok t ∧
    compute_slot_mapping reverse 2 slot_starts slot_positions (commit_block_table 2 t) = Ok t' ∧
    (bt_slot_mapping t' !! 0%nat = Some 127 → bt_slot_mapping t' !! 2%nat ≠ Some 127).
Proof.
  destruct (slots_isolated sample_cp 32 3 4 8 16 2 slot_ops [[3; 5]; [7]; []] reverse 2 slot_starts slot_positions)
    as (t0 & t & t' & E0 & Et & E' & Hiso).
  - lia.
  - lia.
  - exists 2. reflexivity.
  - lia.
  - lia.
  - cbn. lia.
  - lia.
  - exists 8. reflexivity.
  - intros l. apply reverse_Permutation.
  - vm_compute. reflexivity.
  - vm_compute. split; discriminate.
  - vm_compute. discriminate.
  - refine (bool_decide_unpack _ _). vm_compute. exact I.
  - exists t0, t, t'. split_and!; [exact E0|exact Et|exact E'|]. intros H1 H2.
    destruct (Hiso 0 0 [3; 5] [3; 5] 0 2 127) as (_ & Hmod & _); try reflexivity; try (vm_compute; split; [discriminate|reflexivity]); try lia.
    + exact H1.
    + exact H2.
    + discriminate.
    + vm_compute in Hmod. discriminate.
Defined.

(** ** Defects *)

(** The configuration checks the interleaving size against the manager's block size
    ([config/vllm.py]).  With smaller kernel blocks two positions of one request get one
    slot: here blocks of 16 tokens, kernel blocks of 8, and turns of 16. *)
Theorem interleaved_slots_collide :
  let cp := {| pcp_world_size := 1; pcp_rank := 0; dcp_world_size := 2; dcp_rank := 0 |} in
  (t ← BlockTable_init cp 16 1 4 4 8 16;
   t ← append_row [3] 0 t;
   t ← compute_slot_mapping id 1 [0; 2] [8; 16] (commit_block_table 1 t);
   Ok (bt_slot_mapping t)) = Ok [56; 56; PAD_SLOT_ID; PAD_SLOT_ID].
Proof. vm_compute. reflexivity. Qed.

(** A row that is full drops a single further block and counts it; two raise. *)
Theorem full_row_drops_block :
  (t ← BlockTable_init no_cp 16 1 1 8 16 1; t ← append_row [3] 0 t; t ← append_row [4] 0 t;
   Ok (bt_cpu t, bt_num_blocks_per_row t)) = Ok ([[3]], [2]) ∧
  (t ← BlockTable_init no_cp 16 1 1 8 16 1; t ← append_row [3] 0 t; append_row [4; 5] 0 t) = Raise ValueError.
Proof. split; vm_compute; reflexivity. Qed.
