(* ===== verification/Detokenizer.v ===== *)
(** * Incremental detokenization

    [src/vllm/v1/engine/detokenizer.py]: the text of a request grows with its tokens, a
    stop string ends it, and text that may still turn out to belong to a stop string is
    held back from the stream.  A string is the list of its code points.  The tokenizer
    is a parameter: [decode_next] is what the fast or the slow detokenizer makes of one
    more token, [prompt_len] the number of prompt tokens that the slow one keeps in
    [token_ids].  Without a tokenizer there is no text ([decode_next] adds none) and no stop
    string.

    The theorems: what is streamed piece by piece is the final text
    ([detok_stream_complete]), and searching only the new part of the text finds a stop
    string exactly when the whole text has one ([stop_search_complete]). *)

From S2P Require Import Prelude NumPy.

Abbreviation text := (list Z).

(** ** Strings *)

(** [pat] occurs in [s] at [i]. *)
Definition occurs_at (s pat : text) (i : Z) : Prop := take (length pat) (drop (Z.to_nat i) s) = pat.

#[export] Instance occurs_at_dec s pat i : Decision (occurs_at s pat i).
Proof. unfold occurs_at. apply _. Defined.

(** [s.find(pat, start)]: a negative start counts from the end. *)
Definition str_find (s pat : text) (start : Z) : Z :=
  let start := if bool_decide (start < 0) then Z.max 0 (start + zlen s) else start in
  match filter (occurs_at s pat) (zrange start (zlen s - zlen pat + 1)) with
  | [] => -1
  | i :: _ => i
  end.

(** ** Stop strings *)

Fixpoint check_stop_strings_loop (output_text : text) (new_char_count : Z) (stop : list text) (include_in_output : bool)
    : option (text * Z) :=
  match stop with
  | [] => None
  | stop_str :: stop =>
      let stop_string_len := zlen stop_str in
      let stop_index := str_find output_text stop_str (1 - new_char_count - stop_string_len) in
      if bool_decide (stop_index = -1) then check_stop_strings_loop output_text new_char_count stop include_in_output
      else if include_in_output then
        let stop_index := stop_index + stop_string_len in
        if bool_decide (zlen output_text ≤ stop_index) then Some (stop_str, -1) else Some (stop_str, stop_index)
      else Some (stop_str, stop_index)
  end.

Definition check_stop_strings (output_text : text) (new_char_count : Z) (stop : list text) (include_in_output : bool)
    : option (text * Z) :=
  if bool_decide (new_char_count = 0) || is_nil stop then None
  else check_stop_strings_loop output_text new_char_count stop include_in_output.

(** ** The detokenizer *)

Section Detokenizer.
Context {St : Type} (decode_next : St → list Z → Z → St * text).

Record Detokenizer := {
  dt_token_ids : list Z;
  dt_prompt_len : Z;
  dt_stop : list text;
  dt_min_tokens : Z;
  dt_include_stop_str_in_output : bool;
  dt_stop_buffer_length : Z;
  dt_last_output_text_offset : Z;
  dt_output_text : text;
  dt_decoder : St;
}.

Definition Detokenizer_init (token_ids : list Z) (prompt_len : Z) (stop : list text) (min_tokens : Z) (include : bool) (decoder : St)
    : Detokenizer :=
  {| dt_token_ids := token_ids; dt_prompt_len := prompt_len; dt_stop := stop; dt_min_tokens := min_tokens;
     dt_include_stop_str_in_output := include;
     dt_stop_buffer_length := if negb (is_nil stop) && negb include then foldr Z.max 0 (zlen <$> stop) - 1 else 0;
     dt_last_output_text_offset := 0; dt_output_text := []; dt_decoder := decoder |}.

Definition output_token_ids (d : Detokenizer) : list Z :=
  if bool_decide (dt_prompt_len d = 0) then dt_token_ids d else py_slice_from (dt_token_ids d) (dt_prompt_len d).

Definition num_output_tokens (d : Detokenizer) : Z := zlen (dt_token_ids d) - dt_prompt_len d.

Definition dt_with (d : Detokenizer) (token_ids : list Z) (output_text : text) (decoder : St) : Detokenizer :=
  {| dt_token_ids := token_ids; dt_prompt_len := dt_prompt_len d; dt_stop := dt_stop d; dt_min_tokens := dt_min_tokens d;
     dt_include_stop_str_in_output := dt_include_stop_str_in_output d; dt_stop_buffer_length := dt_stop_buffer_length d;
     dt_last_output_text_offset := dt_last_output_text_offset d; dt_output_text := output_text; dt_decoder := decoder |}.

Definition dt_with_offset (d : Detokenizer) (offset : Z) : Detokenizer :=
  {| dt_token_ids := dt_token_ids d; dt_prompt_len := dt_prompt_len d; dt_stop := dt_stop d; dt_min_tokens := dt_min_tokens d;
     dt_include_stop_str_in_output := dt_include_stop_str_in_output d; dt_stop_buffer_length := dt_stop_buffer_length d;
     dt_last_output_text_offset := offset; dt_output_text := dt_output_text d; dt_decoder := dt_decoder d |}.

(** One token of the loop of [update]; the second component is [stop_check_offset]. *)
Definition update_token (s : Detokenizer * Z) (new_token_id : Z) : Detokenizer * Z :=
  let '(d, stop_check_offset) := s in
  let token_ids := dt_token_ids d ++ [new_token_id] in
  let '(decoder, piece) := decode_next (dt_decoder d) token_ids new_token_id in
  let d := dt_with d token_ids (dt_output_text d ++ piece) decoder in
  if negb (bool_decide (dt_min_tokens d = 0)) && bool_decide (num_output_tokens d ≤ dt_min_tokens d)
  then (d, zlen (dt_output_text d)) else (d, stop_check_offset).

(** [update] with the offset from which stop strings are searched; it returns the offset
    after the loop and the matched stop string. *)
Definition update_from (stop_check_offset : Z) (new_token_ids : list Z) (stop_terminated : bool) (d : Detokenizer)
    : Detokenizer * Z * option text :=
  if is_nil new_token_ids then (d, stop_check_offset, None)
  else
    let skip := stop_terminated && negb (dt_include_stop_str_in_output d) in
    let tokens := if skip then py_slice_to new_token_ids (-1) else new_token_ids in
    let '(d, stop_check_offset) := foldl update_token (d, stop_check_offset) tokens in
    let d := if skip then dt_with d (dt_token_ids d ++ drop (length new_token_ids - 1) new_token_ids) (dt_output_text d) (dt_decoder d)
             else d in
    if negb (is_nil (dt_stop d)) && bool_decide (dt_min_tokens d < num_output_tokens d) then
      match check_stop_strings (dt_output_text d) (zlen (dt_output_text d) - stop_check_offset) (dt_stop d)
              (dt_include_stop_str_in_output d) with
      | None => (d, stop_check_offset, None)
      | Some (stop_string, truncate_to) =>
          let d := if bool_decide (truncate_to ≠ -1)
                   then dt_with d (dt_token_ids d) (py_slice_to (dt_output_text d) truncate_to) (dt_decoder d) else d in
          (d, stop_check_offset, Some stop_string)
      end
    else (d, stop_check_offset, None).

(** [update]: the search starts where the text ended. *)
Definition detok_update (new_token_ids : list Z) (stop_terminated : bool) (d : Detokenizer) : Detokenizer * option text :=
  let '(d, _, stop) := update_from (zlen (dt_output_text d)) new_token_ids stop_terminated d in (d, stop).

Definition get_next_output_text (finished delta : bool) (d : Detokenizer) : Detokenizer * text :=
  let buffer_length := if finished then 0 else dt_stop_buffer_length d in
  if negb delta then
    if bool_decide (buffer_length = 0) then (d, dt_output_text d) else (d, py_slice_to (dt_output_text d) (- buffer_length))
  else
    let length := zlen (dt_output_text d) - buffer_length in
    let last_offset := dt_last_output_text_offset d in
    if bool_decide (last_offset < length)
    then (dt_with_offset d length, py_slice (dt_output_text d) last_offset length)
    else (d, []).
End Detokenizer.
Arguments Detokenizer : clear implicits.

(** ** Searching strings *)

(** [pat] occurs in [s] and ends after [o]. *)
Definition occurs_after (s pat : text) (o i : Z) : Prop := 0 ≤ i ∧ i + zlen pat ≤ zlen s ∧ o < i + zlen pat ∧ occurs_at s pat i.

Lemma filter_zrange_head (P : Z → Prop) `{∀ i, Decision (P i)} a b i l :
  filter P (zrange a b) = i :: l → P i ∧ a ≤ i < b ∧ ∀ j, a ≤ j < i → ¬ P j.
Proof.
  intros E. assert (i ∈ filter P (zrange a b)) as Hi by (rewrite E; left).
  apply list_elem_of_filter in Hi as [HP Hi%elem_of_zrange]. split_and!; [done|lia..|]. intros j Hj HPj.
  assert (zrange a b = zrange a i ++ zrange i b) as Hs.
  { unfold zrange. replace (b - a) with ((i - a) + (b - i)) by lia. rewrite seqZ_app; [|lia..]. f_equal. f_equal. lia. }
  rewrite Hs filter_app in E. destruct (filter P (zrange a i)) as [|x l'] eqn:E'.
  - assert (j ∈ filter P (zrange a i)) as Hin. { apply list_elem_of_filter. split; [done|]. apply elem_of_zrange. lia. }
    rewrite E' in Hin. by apply not_elem_of_nil in Hin.
  - injection E as -> _. assert (i ∈ filter P (zrange a i)) as Hin by (rewrite E'; left).
    apply list_elem_of_filter in Hin as [_ ?%elem_of_zrange]. lia.
Qed.

(** The windowed search finds the first occurrence that ends after [o]. *)
Lemma str_find_window s pat o :
  1 ≤ zlen pat → 0 ≤ o → o < zlen s →
  let i := str_find s pat (1 - (zlen s - o) - zlen pat) in
  (i = -1 ∧ ∀ j, ¬ occurs_after s pat o j) ∨ (occurs_after s pat o i ∧ ∀ j, occurs_after s pat o j → i ≤ j).
Proof.
  intros Hp Ho Hs. unfold str_find. rewrite bool_decide_true; [|lia].
  replace (1 - (zlen s - o) - zlen pat + zlen s) with (o + 1 - zlen pat) by lia.
  destruct (filter _ _) as [|i l] eqn:E.
  - left. split; [done|]. intros j (H0 & H1 & H2 & H3).
    assert (j ∈ filter (occurs_at s pat) (zrange (Z.max 0 (o + 1 - zlen pat)) (zlen s - zlen pat + 1))) as Hj.
    { apply list_elem_of_filter. split; [done|]. apply elem_of_zrange. lia. }
    rewrite E in Hj. by apply not_elem_of_nil in Hj.
  - right. apply filter_zrange_head in E as (HP & Hr & Hmin). split.
    + unfold occurs_after. split_and!; [lia..|done].
    + intros j (H0 & H1 & H2 & H3). destruct (decide (i ≤ j)); [done|]. by destruct (Hmin j ltac:(lia)).
Qed.

(** Two windows agree when nothing ends between their starts. *)
Lemma str_find_agree s pat o E :
  1 ≤ zlen pat → 0 ≤ E → E ≤ o → o < zlen s → (∀ i, occurs_after s pat E i → o < i + zlen pat) →
  str_find s pat (1 - (zlen s - o) - zlen pat) = str_find s pat (1 - (zlen s - E) - zlen pat).
Proof.
  intros Hp HE Ho Hs Hno.
  assert (∀ j, occurs_after s pat o j ↔ occurs_after s pat E j) as Hiff.
  { intros j. split; [intros (?&?&?&?); unfold occurs_after; split_and!; [lia..|done]|].
    intros Hj. pose proof (Hno j Hj). destruct Hj as (?&?&?&?). unfold occurs_after. split_and!; [lia..|done]. }
  destruct (str_find_window s pat o Hp ltac:(lia) Hs) as [[-> H1]|[H1 M1]];
    destruct (str_find_window s pat E Hp HE ltac:(lia)) as [[-> H2]|[H2 M2]].
  - done.
  - by destruct (H1 _ (proj2 (Hiff _) H2)).
  - by destruct (H2 _ (proj1 (Hiff _) H1)).
  - pose proof (M1 _ (proj2 (Hiff _) H2)). pose proof (M2 _ (proj1 (Hiff _) H1)). lia.
Qed.

(** Occurrences in the part of a text that was there before. *)
Lemma occurs_after_app s t pat o i :
  i + zlen pat ≤ zlen s → occurs_after (s ++ t) pat o i ↔ occurs_after s pat o i.
Proof.
  intros Hi. unfold occurs_after, occurs_at. rewrite zlen_app. pose proof (zlen_nonneg t).
  destruct (decide (0 ≤ i)) as [H0|H0]; [|naive_solver].
  rewrite drop_app_le; [|unfold zlen in *; lia]. rewrite take_app_le; [|rewrite length_drop; unfold zlen in *; lia].
  naive_solver lia.
Qed.

(** What the search over a list of stop strings returns. *)
Lemma check_stop_strings_spec s o stop include :
  Forall (λ pat, 1 ≤ zlen pat) stop → 0 ≤ o ≤ zlen s →
  match check_stop_strings s (zlen s - o) stop include with
  | None => ∀ pat i, pat ∈ stop → ¬ occurs_after s pat o i
  | Some (pat, t) => pat ∈ stop ∧ ∃ i, occurs_after s pat o i ∧ (∀ j, occurs_after s pat o j → i ≤ j) ∧
      t = if include then if bool_decide (zlen s ≤ i + zlen pat) then -1 else i + zlen pat else i
  end.
Proof.
  intros Hpat Ho. unfold check_stop_strings. case_bool_decide as H0; cbn [orb].
  { intros pat i _ (? & ? & ? & _). lia. }
  destruct stop as [|pat0 stop0] eqn:Es; cbn [is_nil]; [intros pat i Hin%not_elem_of_nil; done|]. rewrite -Es in Hpat |- *. clear Es.
  induction stop as [|pat stop IH]; [intros pat i Hin%not_elem_of_nil; done|]. cbn [check_stop_strings_loop].
  apply Forall_cons in Hpat as [Hp Hpat]. specialize (IH Hpat).
  destruct (str_find_window s pat o Hp ltac:(lia) ltac:(lia)) as [[-> Hno]|[Hocc Hleast]].
  - rewrite bool_decide_true; [|done]. destruct (check_stop_strings_loop _ _ stop _) as [[p t]|].
    + destruct IH as [Hin IH]. split; [by right|done].
    + intros p i [->|Hin]%elem_of_cons; [apply Hno|by apply IH].
  - rewrite bool_decide_false; [|destruct Hocc; lia].
    destruct include; [case_bool_decide|]; (split; [left|]; eexists; split; [exact Hocc|]; split; [exact Hleast|]);
      [by rewrite bool_decide_true|by rewrite bool_decide_false|done].
Qed.

(** Searching from [o] or from [E] is the same when nothing ends in between. *)
Lemma check_stop_strings_agree s o E stop include :
  Forall (λ pat, 1 ≤ zlen pat) stop → 0 ≤ E → E ≤ o → o ≤ zlen s →
  (∀ pat i, pat ∈ stop → occurs_after s pat E i → o < i + zlen pat) →
  check_stop_strings s (zlen s - o) stop include = check_stop_strings s (zlen s - E) stop include.
Proof.
  intros Hpat HE Ho Hs Hno. destruct (decide (o = zlen s)) as [->|Hlt].
  - pose proof (check_stop_strings_spec s E stop include Hpat ltac:(lia)) as H.
    destruct (check_stop_strings s (zlen s - E) stop include) as [[pat t]|].
    + destruct H as [Hin (i & Hi & _ & _)]. pose proof (Hno pat i Hin Hi). destruct Hi as (_ & ? & _). lia.
    + unfold check_stop_strings. by rewrite bool_decide_true; [|lia].
  - unfold check_stop_strings. rewrite !(bool_decide_false (_ = 0)); [|lia..]. cbn [orb]. destruct (is_nil stop); [done|].
    induction stop as [|pat stop IH]; [done|]. apply Forall_cons in Hpat as [Hp Hpat]. cbn [check_stop_strings_loop].
    rewrite (str_find_agree s pat o E); [|done|lia|lia|lia|intros i; apply Hno; left].
    rewrite IH; [done..|]. intros p i Hin. apply Hno. by right.
Qed.

Section Run.
Context {St : Type} (decode_next : St → list Z → Z → St * text).
Implicit Types d : Detokenizer St.

(** The attributes that [update] does not change. *)
Definition dt_params d : Z * list text * Z * bool * Z * Z :=
  (dt_prompt_len d, dt_stop d, dt_min_tokens d, dt_include_stop_str_in_output d, dt_stop_buffer_length d,
   dt_last_output_text_offset d).

(** The loop appends text and tokens; the offset it leaves is either the one it got or a
    length of the text after some token, the last length if few tokens are out. *)
Lemma fold_tokens_spec toks d :
  ∃ d' piece c, (∀ x, foldl (update_token decode_next) (d, x) toks = (d', default x c)) ∧
    dt_output_text d' = dt_output_text d ++ piece ∧ dt_params d' = dt_params d ∧ dt_token_ids d' = dt_token_ids d ++ toks ∧
    (∀ v, c = Some v → zlen (dt_output_text d) ≤ v ≤ zlen (dt_output_text d')) ∧
    (dt_min_tokens d ≠ 0 → num_output_tokens d' ≤ dt_min_tokens d → toks ≠ [] → c = Some (zlen (dt_output_text d'))) ∧
    (dt_min_tokens d = 0 → c = None).
Proof.
  revert d. induction toks as [|tok toks IH]; intros d.
  { exists d, [], None. rewrite !app_nil_r. split_and!; try done. }
  cbn [foldl]. unfold update_token at 2.
  destruct (decode_next (dt_decoder d) (dt_token_ids d ++ [tok]) tok) as [dec piece1].
  set (d1 := dt_with d (dt_token_ids d ++ [tok]) (dt_output_text d ++ piece1) dec).
  assert (dt_output_text d1 = dt_output_text d ++ piece1) as Et by done.
  assert (dt_token_ids d1 = dt_token_ids d ++ [tok]) as Ei by done.
  assert (dt_params d1 = dt_params d) as Ep by done. assert (dt_min_tokens d1 = dt_min_tokens d) as Em by done. clearbody d1.
  destruct (IH d1) as (d' & piece & c & Hf & Ht & Hp & Hid & Hc & Hm & Hz).
  assert (dt_output_text d' = dt_output_text d ++ (piece1 ++ piece)) as Ht' by (by rewrite Ht Et app_assoc).
  assert (dt_token_ids d' = dt_token_ids d ++ tok :: toks) as Hid' by (by rewrite Hid Ei -app_assoc).
  assert (zlen (dt_output_text d) ≤ zlen (dt_output_text d1)) as Hle1 by (rewrite Et zlen_app; pose proof (zlen_nonneg piece1); lia).
  assert (zlen (dt_output_text d1) ≤ zlen (dt_output_text d')) as Hle2 by (rewrite Ht zlen_app; pose proof (zlen_nonneg piece); lia).
  exists d', (piece1 ++ piece).
  destruct (negb (bool_decide (dt_min_tokens d1 = 0)) && bool_decide (num_output_tokens d1 ≤ dt_min_tokens d1)) eqn:Ec.
  - exists (Some (default (zlen (dt_output_text d1)) c)). split_and!; [intros x; by rewrite Hf|done|congruence|done| | |].
    + intros v [= <-]. destruct c as [v|]; cbn; [pose proof (Hc v eq_refl)|]; lia.
    + intros Hmin Hn _. destruct toks as [|t2 toks]; [|rewrite Hm; [done|by rewrite Em..|done]].
      specialize (Hf 0). injection Hf as <- Hc0. destruct c as [v|]; cbn; [|done]. pose proof (Hc v eq_refl). f_equal. lia.
    + intros Hmin. rewrite Em bool_decide_true // in Ec.
  - exists c. split_and!; [intros x; by rewrite Hf|done|congruence|done| | |rewrite -Em; exact Hz].
    + intros v Hv. pose proof (Hc v Hv). lia.
    + intros Hmin Hn _. destruct toks as [|t2 toks]; [|apply Hm; [by rewrite Em..|done]].
      exfalso. specialize (Hf 0). injection Hf as <- _.
      apply andb_false_iff in Ec as [Ec|Ec]; [apply negb_false_iff, bool_decide_eq_true in Ec; congruence|].
      apply bool_decide_eq_false in Ec. apply Ec. by rewrite Em.
Qed.

(** ** The incremental search is complete *)

(** No stop string of the text ends after [E]. *)
Record no_stop d (E : Z) : Prop := {
  ns_bound : 0 ≤ E ≤ zlen (dt_output_text d);
  ns_none : ∀ pat i, pat ∈ dt_stop d → ¬ occurs_after (dt_output_text d) pat E i;
  ns_pats : Forall (λ pat, 1 ≤ zlen pat) (dt_stop d);
  ns_min : 0 ≤ dt_min_tokens d;
  ns_num : 0 ≤ num_output_tokens d;
}.

(** What follows the loop: a token that was skipped, the search, the truncation. *)
Definition finish_update (skipped : list Z) (d : Detokenizer St) (o : Z) : Detokenizer St * Z * option text :=
  let d := dt_with d (dt_token_ids d ++ skipped) (dt_output_text d) (dt_decoder d) in
  if negb (is_nil (dt_stop d)) && bool_decide (dt_min_tokens d < num_output_tokens d) then
    match check_stop_strings (dt_output_text d) (zlen (dt_output_text d) - o) (dt_stop d) (dt_include_stop_str_in_output d) with
    | None => (d, o, None)
    | Some (stop_string, truncate_to) =>
        (if bool_decide (truncate_to ≠ -1)
         then dt_with d (dt_token_ids d) (py_slice_to (dt_output_text d) truncate_to) (dt_decoder d) else d, o, Some stop_string)
    end
  else (d, o, None).

Lemma dt_with_same d : dt_with d (dt_token_ids d ++ []) (dt_output_text d) (dt_decoder d) = d.
Proof. rewrite app_nil_r. by destruct d. Qed.

(** [update] as its loop and its end. *)
Lemma update_from_split new term d :
  new ≠ [] → ∃ toks skipped, toks ++ skipped = new ∧ ∀ o,
    update_from decode_next o new term d =
    let '(d1, o1) := foldl (update_token decode_next) (d, o) toks in finish_update skipped d1 o1.
Proof.
  intros Hne. unfold update_from. destruct new as [|x new']; [done|]. set (new := x :: new'). cbn [is_nil].
  destruct (term && negb (dt_include_stop_str_in_output d)) eqn:Es.
  - exists (py_slice_to new (-1)), (drop (length new - 1) new). split.
    + unfold py_slice_to, clamp_index. cbn [bool_decide]. rewrite bool_decide_true; [|lia].
      replace (Z.to_nat (Z.max 0 (-1 + zlen new))) with (length new - 1)%nat by (unfold zlen; lia). apply take_drop.
    + intros o. destruct (foldl _ _ _) as [d1 o1]. unfold finish_update.
      destruct (negb _ && _); [|done]. destruct (check_stop_strings _ _ _ _) as [[p t]|]; done.
  - exists new, []. rewrite app_nil_r. split; [done|]. intros o. destruct (foldl _ _ _) as [d1 o1].
    unfold finish_update. rewrite dt_with_same.
    destruct (negb _ && _); [|done]. destruct (check_stop_strings _ _ _ _) as [[p t]|]; done.
Qed.

(** Searching from the end of the old text is searching from [E]. *)
Lemma update_agree new term d E :
  no_stop d E →
  ∃ d' o E' stop, update_from decode_next (zlen (dt_output_text d)) new term d = (d', o, stop) ∧
    update_from decode_next E new term d = (d', E', stop) ∧ (stop = None → no_stop d' E').
Proof.
  intros [HE Hnone Hpat Hmin Hnum]. destruct (decide (new = [])) as [->|Hne].
  { exists d, (zlen (dt_output_text d)), E, None. split_and!; [done..|]. intros _. by split. }
  destruct (update_from_split new term d Hne) as (toks & sk & Etoks & Eu). rewrite !Eu.
  destruct (fold_tokens_spec toks d) as (d1 & piece & c & Hf & Ht & Hp & Hid & Hc & Hm & _). rewrite !Hf.
  injection Hp as Hp1 Hp2 Hp3 Hp4 Hp5 Hp6. unfold finish_update. cbn [dt_stop dt_min_tokens dt_output_text dt_with dt_include_stop_str_in_output].
  set (d2 := dt_with d1 (dt_token_ids d1 ++ sk) (dt_output_text d1) (dt_decoder d1)).
  assert (num_output_tokens d2 = num_output_tokens d + zlen new) as Hn2.
  { unfold num_output_tokens. cbn. rewrite Hid Hp1 -app_assoc Etoks zlen_app. lia. }
  pose proof (zlen_nonneg piece) as Hpc. assert (zlen (dt_output_text d1) = zlen (dt_output_text d) + zlen piece) as Hl1 by (by rewrite Ht zlen_app).
  assert (0 ≤ default E c ≤ default (zlen (dt_output_text d)) c ∧ default (zlen (dt_output_text d)) c ≤ zlen (dt_output_text d1)) as [HE1 Ho1].
  { destruct c as [v|]; cbn; [pose proof (Hc v eq_refl)|]; lia. }
  assert (Forall (λ pat, 1 ≤ zlen pat) (dt_stop d1)) as Hpat1 by (by rewrite Hp2).
  destruct (negb (is_nil (dt_stop d1)) && bool_decide (dt_min_tokens d1 < num_output_tokens d2)) eqn:Eg.
  - rewrite (check_stop_strings_agree _ (default (zlen (dt_output_text d)) c) (default E c)); [|done|lia..|].
    2:{ intros pat i Hin Hocc. destruct c as [v|]; cbn in Hocc |- *; [apply Hocc|].
        destruct (decide (i + zlen pat ≤ zlen (dt_output_text d))) as [Hle|]; [|lia].
        rewrite Ht occurs_after_app // in Hocc. rewrite Hp2 in Hin. by destruct (Hnone pat i Hin). }
    pose proof (check_stop_strings_spec (dt_output_text d1) (default E c) (dt_stop d1) (dt_include_stop_str_in_output d1) Hpat1 ltac:(lia)) as Hs.
    destruct (check_stop_strings _ _ _ _) as [[pat t]|]; do 4 eexists; (split_and!; [done..|]); intros Hstop; [done|].
    pose proof (zlen_nonneg new). split; [cbn; lia|done|done|cbn; lia|lia].
  - do 4 eexists. split_and!; [done..|]. intros _.
    assert (0 < zlen new) as Hpos by (destruct new; [done|]; rewrite zlen_cons; pose proof (zlen_nonneg new); lia).
    split; [cbn; lia| |done|cbn; lia|lia]. cbn [dt_stop dt_output_text dt_with d2].
    intros pat i Hin Hocc. apply andb_false_iff in Eg as [Eg|Eg].
    { apply negb_false_iff in Eg. destruct (dt_stop d1); [by apply not_elem_of_nil in Hin|done]. }
    apply bool_decide_eq_false in Eg. destruct (decide (toks = [])) as [->|Htoks].
    + pose proof (Hf 0) as H0. pose proof (Hf 1) as H1. cbn in H0, H1. injection H0 as <- H0. injection H1 as H1.
      destruct c; cbn in H0, H1; [congruence|]. by destruct (Hnone pat i Hin).
    + assert (num_output_tokens d1 ≤ num_output_tokens d2) as Hn1.
      { unfold num_output_tokens. cbn. rewrite zlen_app. pose proof (zlen_nonneg sk). lia. }
      rewrite (Hm ltac:(lia) ltac:(lia) Htoks) in Hocc. cbn in Hocc. destruct Hocc as (_ & ? & ? & _). lia.
Qed.

(** One update in terms of the text before truncation. *)
Lemma update_from_spec o new term d :
  Forall (λ pat, 1 ≤ zlen pat) (dt_stop d) → 0 ≤ o ≤ zlen (dt_output_text d) →
  ∃ d' o' stop piece, update_from decode_next o new term d = (d', o', stop) ∧
    dt_params d' = dt_params d ∧ dt_token_ids d' = dt_token_ids d ++ new ∧
    (o' = o ∨ zlen (dt_output_text d) ≤ o') ∧ (dt_min_tokens d = 0 → o' = o) ∧
    let s := dt_output_text d ++ piece in
    o' ≤ zlen s ∧
    match stop with
    | None => dt_output_text d' = s
    | Some p => p ∈ dt_stop d ∧ ∃ i, occurs_after s p o' i ∧ (∀ j, occurs_after s p o' j → i ≤ j) ∧
        dt_output_text d' = take (Z.to_nat (if dt_include_stop_str_in_output d then i + zlen p else i)) s
    end.
Proof.
  intros Hpat Ho. destruct (decide (new = [])) as [->|Hne].
  { exists d, o, None, []. cbn zeta. rewrite !app_nil_r. do 2 (split; [done|]). split; [done|]. split; [by left|]. split; [done|]. split; [lia|done]. }
  destruct (update_from_split new term d Hne) as (toks & sk & Etoks & Eu). rewrite Eu.
  destruct (fold_tokens_spec toks d) as (d1 & piece & c & Hf & Ht & Hp & Hid & Hc & _ & Hz). rewrite Hf.
  pose proof (zlen_nonneg piece) as Hpc. assert (zlen (dt_output_text d1) = zlen (dt_output_text d) + zlen piece) as Hl1 by (by rewrite Ht zlen_app).
  assert (default o c ≤ zlen (dt_output_text d1) ∧ 0 ≤ default o c) as [Ho1 Ho0].
  { destruct c as [v|]; cbn; [pose proof (Hc v eq_refl)|]; lia. }
  assert (default o c = o ∨ zlen (dt_output_text d) ≤ default o c) as Hor.
  { destruct c as [v|]; cbn; [right; by apply Hc|by left]. }
  assert (dt_min_tokens d = 0 → default o c = o) as Hz' by (intros ->%Hz; done).
  assert (dt_token_ids d1 ++ sk = dt_token_ids d ++ new) as Hids by (by rewrite Hid -app_assoc Etoks).
  pose proof Hp as Hp'. injection Hp' as Hp1 Hp2 Hp3 Hp4 Hp5 Hp6.
  unfold finish_update. cbn [dt_stop dt_min_tokens dt_output_text dt_with dt_include_stop_str_in_output].
  destruct (negb _ && _).
  2:{ do 3 eexists. exists piece. split; [done|]. cbn [dt_token_ids dt_with dt_output_text]. rewrite -Ht. by split_and!. }
  rewrite Hp2. pose proof (check_stop_strings_spec (dt_output_text d1) (default o c) (dt_stop d) (dt_include_stop_str_in_output d1) Hpat ltac:(lia)) as Hs.
  destruct (check_stop_strings _ _ _ _) as [[pat t]|].
  2:{ do 3 eexists. exists piece. split; [done|]. cbn [dt_token_ids dt_with dt_output_text]. rewrite -Ht. by split_and!. }
  destruct Hs as [Hin (i & Hi & Hleast & Ht')]. do 3 eexists. exists piece. split; [done|].
  split; [destruct (bool_decide (t ≠ -1)); exact Hp|]. split; [destruct (bool_decide (t ≠ -1)); exact Hids|].
  split; [done|]. split; [done|]. cbn zeta. rewrite -Ht -Hp4. split; [done|]. split; [done|].
  exists i. split; [done|]. split; [done|]. destruct Hi as (Hi0 & Hi1 & Hi2 & _). pose proof (zlen_nonneg pat).
  destruct (dt_include_stop_str_in_output d1).
  - case_bool_decide as Hend; subst t.
    + rewrite bool_decide_false; [|naive_solver]. cbn. rewrite take_ge //. unfold zlen in *. lia.
    + rewrite bool_decide_true; [|lia]. cbn. rewrite py_slice_to_take //. lia.
  - subst t. rewrite bool_decide_true; [|lia]. cbn. rewrite py_slice_to_take //.
Qed.

(** The updates of a request up to the first stop string. *)
Fixpoint detok_run (us : list (list Z * bool)) (d : Detokenizer St) : Detokenizer St * option text :=
  match us with
  | [] => (d, None)
  | (new, term) :: us =>
      match detok_update decode_next new term d with
      | (d, None) => detok_run us d
      | (d, stop) => (d, stop)
      end
  end.

(** The reference searches the whole text after the exempt part [E], that is the text of
    the first [min_tokens] tokens. *)
Fixpoint full_search_run (us : list (list Z * bool)) (d : Detokenizer St) (E : Z) : Detokenizer St * option text :=
  match us with
  | [] => (d, None)
  | (new, term) :: us =>
      match update_from decode_next E new term d with
      | (d, E, None) => full_search_run us d E
      | (d, _, stop) => (d, stop)
      end
  end.

Lemma detok_run_full us d E : no_stop d E → detok_run us d = full_search_run us d E.
Proof.
  revert d E. induction us as [|[new term] us IH]; intros d E HE; [done|]. cbn [detok_run full_search_run]. unfold detok_update.
  destruct (update_agree new term d E HE) as (d' & o & E' & stop & -> & -> & Hns). destruct stop as [p|]; [done|]. by apply IH, Hns.
Qed.

Definition stop_free (d : Detokenizer St) : Prop := ∀ pat i, pat ∈ dt_stop d → ¬ occurs_after (dt_output_text d) pat 0 i.

(** Without exempt tokens an unfinished text has no stop string, and with one stop string
    that is excluded neither has the final one. *)
Lemma full_search_run_free us d :
  no_stop d 0 → dt_min_tokens d = 0 →
  match full_search_run us d 0 with
  | (d', None) => stop_free d'
  | (d', Some p) => dt_include_stop_str_in_output d = false → dt_stop d = [p] → stop_free d'
  end.
Proof.
  revert d. induction us as [|[new term] us IH]; intros d Hd Hmin; [intros pat i Hin; by apply Hd|]. cbn [full_search_run].
  destruct (update_agree new term d 0 Hd) as (d' & o & E' & stop & _ & E & Hns).
  destruct (update_from_spec 0 new term d (ns_pats _ _ Hd) (ns_bound _ _ Hd)) as (d1 & o1 & stop1 & piece & E1 & Hp & _ & _ & Ho & Hs).
  rewrite E in E1. injection E1 as <- <- <-. rewrite E. specialize (Ho Hmin). subst E'.
  pose proof Hp as Hp'. injection Hp' as Hp1 Hp2 Hp3 Hp4 Hp5 Hp6. destruct stop as [p|].
  - intros Hinc Hst. destruct Hs as (_ & _ & i & Hi & Hleast & Et). rewrite Hinc in Et.
    intros pat j Hin Hj. rewrite Hp2 Hst in Hin. apply list_elem_of_singleton in Hin as ->.
    destruct Hi as (Hi0 & Hi1 & _). pose proof (zlen_nonneg p).
    set (s := dt_output_text d ++ piece) in *. rewrite Et in Hj.
    assert (zlen (take (Z.to_nat i) s) = i) as Hl by (rewrite zlen_take; lia).
    assert (j + zlen p ≤ i) as Hji by (destruct Hj as (_ & Hj1 & _); lia).
    assert (occurs_after s p 0 j) as Hj'.
    { pose proof (occurs_after_app (take (Z.to_nat i) s) (drop (Z.to_nat i) s) p 0 j ltac:(lia)) as Ha.
      rewrite take_drop in Ha. by apply Ha. }
    pose proof (ns_pats _ _ Hd) as Hpat. rewrite Hst in Hpat. apply Forall_cons in Hpat as [? _]. pose proof (Hleast j Hj'). lia.
  - assert (dt_min_tokens d' = 0) as Hmin' by congruence. specialize (IH d' (Hns eq_refl) Hmin').
    rewrite Hp2 Hp4 in IH. exact IH.
Qed.

(** ** Streaming *)

(** The pieces that are sent: after some of the updates the text that is certain, and the
    rest when the request finishes, by a stop string or otherwise. *)
Fixpoint detok_stream (us : list (list Z * bool * bool)) (d : Detokenizer St) : Detokenizer St * list text :=
  match us with
  | [] => let '(d, t) := get_next_output_text true true d in (d, [t])
  | (new, term, send) :: us =>
      match detok_update decode_next new term d with
      | (d, Some _) => let '(d, t) := get_next_output_text true true d in (d, [t])
      | (d, None) =>
          if send : bool then
            let '(d, t) := get_next_output_text false true d in
            let '(d, ts) := detok_stream us d in (d, t :: ts)
          else detok_stream us d
      end
  end.

(** What was sent is a prefix of the text, short of the part that is held back. *)
Record sent_ok (d : Detokenizer St) (sent : text) : Prop := {
  so_pats : Forall (λ pat, 1 ≤ zlen pat) (dt_stop d);
  so_buffer : if dt_include_stop_str_in_output d then dt_stop_buffer_length d = 0
              else 0 ≤ dt_stop_buffer_length d ∧ ∀ pat, pat ∈ dt_stop d → zlen pat - 1 ≤ dt_stop_buffer_length d;
  so_offset : 0 ≤ dt_last_output_text_offset d;
  so_held : dt_last_output_text_offset d ≤ Z.max 0 (zlen (dt_output_text d) - dt_stop_buffer_length d);
  so_sent : sent = take (Z.to_nat (dt_last_output_text_offset d)) (dt_output_text d);
}.

(** An update keeps what was sent in the text, whether it truncates or not. *)
Lemma update_sent new term d sent :
  sent_ok d sent →
  ∃ d' stop, detok_update decode_next new term d = (d', stop) ∧
    sent = take (Z.to_nat (dt_last_output_text_offset d')) (dt_output_text d') ∧
    0 ≤ dt_last_output_text_offset d' ≤ zlen (dt_output_text d') ∧ (stop = None → sent_ok d' sent).
Proof.
  intros [Hpat Hbuf Hoff Hheld Hsent]. unfold detok_update.
  destruct (update_from_spec (zlen (dt_output_text d)) new term d Hpat) as (d' & o' & stop & piece & -> & Hp & _ & Ho & _ & Hs).
  { pose proof (zlen_nonneg (dt_output_text d)). lia. }
  pose proof Hp as Hp'. injection Hp' as Hp1 Hp2 Hp3 Hp4 Hp5 Hp6. exists d', stop. split; [done|]. rewrite Hp6.
  set (text0 := dt_output_text d) in *. set (off := dt_last_output_text_offset d) in *. set (buf := dt_stop_buffer_length d) in *.
  pose proof (zlen_nonneg text0) as Ht0. pose proof (zlen_nonneg piece) as Hpc.
  assert (0 ≤ buf) as Hb0. { destruct (dt_include_stop_str_in_output d); [rewrite Hbuf; lia|lia]. }
  assert (off ≤ zlen text0) as Hot by lia.
  assert (∀ t, off ≤ t ≤ zlen (text0 ++ piece) → dt_output_text d' = take (Z.to_nat t) (text0 ++ piece) →
    sent = take (Z.to_nat off) (dt_output_text d') ∧ 0 ≤ off ≤ zlen (dt_output_text d')) as Hcut.
  { intros t Ht Et. rewrite Et take_take Nat.min_l; [|lia]. rewrite zlen_take; [|lia]. rewrite take_app_le; [|unfold zlen in *; lia].
    split; [done|lia]. }
  destruct Hs as [Hos Hs]. destruct stop as [p|].
  - destruct Hs as (Hin & i & (Hi0 & Hi1 & Hi2 & _) & _ & Et). enough (off ≤ (if dt_include_stop_str_in_output d then i + zlen p else i)).
    { edestruct Hcut as [H1 H2]; [|exact Et|]; [|done]. pose proof (zlen_nonneg p). destruct (dt_include_stop_str_in_output d); lia. }
    pose proof (zlen_nonneg p). destruct (dt_include_stop_str_in_output d); [lia|]. pose proof (proj2 Hbuf p Hin). lia.
  - edestruct (Hcut (zlen (text0 ++ piece))) as [H1 H2]; [rewrite zlen_app; lia|rewrite Hs take_ge //; unfold zlen; lia|].
    split; [done|]. split; [done|]. intros _. split; rewrite ?Hp2 ?Hp4 ?Hp5 ?Hp6 //. rewrite Hs zlen_app. fold off buf. lia.
Qed.

(** Sending the rest. *)
Lemma send_rest d sent :
  sent = take (Z.to_nat (dt_last_output_text_offset d)) (dt_output_text d) →
  0 ≤ dt_last_output_text_offset d ≤ zlen (dt_output_text d) →
  ∃ d' t, get_next_output_text true true d = (d', t) ∧ sent ++ t = dt_output_text d'.
Proof.
  intros -> Hoff. unfold get_next_output_text. cbn [negb]. rewrite Z.sub_0_r. case_bool_decide as H.
  - eexists _, _. split; [done|]. cbn. rewrite py_slice_take_drop; [|lia..].
    rewrite (take_ge (drop _ _)); [apply take_drop|]. rewrite length_drop. unfold zlen. lia.
  - eexists _, _. split; [done|]. rewrite app_nil_r take_ge //. unfold zlen in *. lia.
Qed.

Lemma send_some d sent :
  sent_ok d sent → ∃ d' t, get_next_output_text false true d = (d', t) ∧ sent_ok d' (sent ++ t).
Proof.
  intros [Hpat Hbuf Hoff Hheld Hsent]. unfold get_next_output_text. cbn [negb].
  assert (0 ≤ dt_stop_buffer_length d) as Hb0. { destruct (dt_include_stop_str_in_output d); [rewrite Hbuf; lia|lia]. }
  case_bool_decide as H.
  - eexists _, _. split; [done|]. split; cbn; [done..|lia|lia|]. rewrite py_slice_take_drop; [|lia..]. rewrite Hsent.
    rewrite take_take_drop. f_equal. lia.
  - eexists _, _. split; [done|]. rewrite app_nil_r. by split.
Qed.

Lemma detok_stream_ok us d sent :
  sent_ok d sent → ∃ d' ts, detok_stream us d = (d', ts) ∧ sent ++ concat ts = dt_output_text d'.
Proof.
  revert d sent. induction us as [|[[new term] send] us IH]; intros d sent Hs; cbn [detok_stream].
  - assert (dt_last_output_text_offset d ≤ zlen (dt_output_text d)) as Hle.
    { destruct Hs as [_ Hbuf _ Hheld _]. pose proof (zlen_nonneg (dt_output_text d)).
      destruct (dt_include_stop_str_in_output d); [rewrite Hbuf in Hheld|]; lia. }
    destruct (send_rest d sent) as (d' & t & -> & Et); [apply Hs|split; [apply Hs|done]|]. eexists _, _. split; [done|]. cbn. by rewrite app_nil_r.
  - destruct (update_sent new term d sent Hs) as (d1 & stop & -> & Hsent & Hoff & Hok). destruct stop as [p|].
    + destruct (send_rest d1 sent Hsent Hoff) as (d' & t & -> & Et). eexists _, _. split; [done|]. cbn. by rewrite app_nil_r.
    + specialize (Hok eq_refl). destruct send; [|by apply IH]. destruct (send_some d1 sent Hok) as (d2 & t & -> & Hok2).
      destruct (IH d2 _ Hok2) as (d3 & ts & -> & Et). eexists _, _. split; [done|]. cbn. by rewrite app_assoc.
Qed.
End Run.

Lemma foldr_max_le (l : list Z) x : x ∈ l → x ≤ foldr Z.max 0 l.
Proof. induction l as [|y l IH]; [by intros ?%not_elem_of_nil|]. intros [->|Hx]%elem_of_cons; cbn; [lia|]. specialize (IH Hx). lia. Qed.

Section Theorems.
Context {St : Type} (decode_next : St → list Z → Z → St * text).
Context (prompt : list Z) (stop : list text) (min_tokens : Z) (include : bool) (decoder : St).
Context (Hstop : Forall (λ pat, 1 ≤ zlen pat) stop) (Hmin : 0 ≤ min_tokens).
Local Abbreviation d0 := (Detokenizer_init prompt (zlen prompt) stop min_tokens include decoder).

Lemma init_no_stop : no_stop d0 0.
Proof.
  split; [unfold zlen; cbn; lia| |done|done|unfold num_output_tokens; cbn; lia].
  intros pat i Hin (? & H1 & ? & _). unfold zlen at 2 in H1. cbn in H1. lia.
Qed.

Lemma init_sent_ok : sent_ok d0 [].
Proof.
  split; [exact Hstop| |cbn; lia|cbn; lia|done].
  cbn [Detokenizer_init dt_include_stop_str_in_output dt_stop_buffer_length dt_stop]. destruct include; [by rewrite andb_false_r|].
  rewrite andb_true_r. destruct stop as [|p stop'] eqn:Es; cbn [is_nil negb].
  - split; [lia|]. by intros pat ?%not_elem_of_nil.
  - rewrite -Es. assert (∀ pat, pat ∈ stop → zlen pat ≤ foldr Z.max 0 (zlen <$> stop)) as Hle.
    { intros pat Hp. apply foldr_max_le, list_elem_of_fmap. by exists pat. }
    split; [|intros pat Hp; specialize (Hle pat Hp); lia].
    apply Forall_cons in Hstop as [Hp _]. specialize (Hle p). rewrite Es in Hle. specialize (Hle ltac:(left)). rewrite -Es in Hle. lia.
Qed.

(** C19: what is streamed is the text.  For any tokenizer, any sequence of updates of a
    request, wherever text is sent in between, and however the request ends, the pieces
    of text that were sent, put together, are the final output text: truncation at a stop
    string never removes text that was already sent. *)
Theorem detok_stream_complete us :
  ∃ d ts, detok_stream decode_next us d0 = (d, ts) ∧ concat ts = dt_output_text d.
Proof. apply (detok_stream_ok decode_next us d0 []), init_sent_ok. Qed.

(** C18: searching the new text for stop strings is searching all of it.  The updates stop
    at the same token with the same text as if the whole text after the first
    [min_tokens] tokens were searched each time.  Without [min_tokens], the text of a
    request that was not stopped has no stop string, and neither has the text of one that
    was stopped by its only stop string when that is excluded from the output. *)
Theorem stop_search_complete us :
  detok_run decode_next us d0 = full_search_run decode_next us d0 0 ∧
  (min_tokens = 0 →
   match detok_run decode_next us d0 with
   | (d, None) => stop_free d
   | (d, Some p) => include = false → stop = [p] → stop_free d
   end).
Proof.
  pose proof (detok_run_full decode_next us d0 0 init_no_stop) as ->. split; [done|]. intros Hm.
  exact (full_search_run_free decode_next us d0 init_no_stop Hm).
Qed.
End Theorems.

(** A tokenizer whose token [t] is the code points [t / 100] and [t mod 100]. *)
Definition pair_decoder (s : unit) (_ : list Z) (t : Z) : unit * text := (s, [t / 100; t `mod` 100]).

Definition stream_updates : list (list Z * bool * bool) := [([1020], false, true); ([3040; 5060], false, true); ([4050], false, true)].

Lemma detok_stream_complete_witness :
  ∃ d ts, detok_stream pair_decoder stream_updates (Detokenizer_init [1; 2] 2 [[50; 60; 40]] 0 false tt) = (d, ts) ∧
    concat ts = dt_output_text d.
Proof.
  apply (detok_stream_complete pair_decoder [1; 2] [[50; 60; 40]] 0 false tt).
  constructor; [vm_compute; discriminate|constructor].
Defined.

Lemma stop_search_complete_witness :
  detok_run pair_decoder [([1020], false); ([3040; 5060], false); ([4050], false)] (Detokenizer_init [1; 2] 2 [[50; 60; 40]] 0 false tt) =
  full_search_run pair_decoder [([1020], false); ([3040; 5060], false); ([4050], false)] (Detokenizer_init [1; 2] 2 [[50; 60; 40]] 0 false tt) 0.
Proof.
  apply (stop_search_complete pair_decoder [1; 2] [[50; 60; 40]] 0 false tt).
  - constructor; [vm_compute; discriminate|constructor].
  - lia.
Defined.

(** The stop strings are tried in the order of the list, not of the text.  A token that
    completes two of them is cut at the first of the list, and the text that is returned
    contains the other. *)
Theorem other_stop_string_returned :
  let '(d, s) := detok_run pair_decoder [([1020], false)] (Detokenizer_init [] 0 [[20]; [10]] 0 false tt) in
  s = Some [20] ∧ dt_output_text d = [10].
Proof. vm_compute. by split. Qed.
