(* ===== verification/ParallelSampling.v ===== *)
(** * Parallel sampling

    [src/vllm/v1/engine/parallel_sampling.py] and the outputs of [src/vllm/outputs.py] it
    handles: a request for [n] samples is a parent whose children run as requests of their
    own; the parent merges their outputs.  The theorems: the seeds and ids of the children
    are distinct ([children_distinct]), and the children's outputs reach the client once,
    all together when only the final output is wanted ([parallel_sampling_complete]). *)

From stdpp Require Import pretty.
From S2P Require Import Prelude NumPy Request Detokenizer.

(** ** Data *)

Inductive RequestOutputKind : Set := CUMULATIVE | DELTA | FINAL_ONLY.

#[export] Instance output_kind_eq_dec : EqDecision RequestOutputKind.
Proof. solve_decision. Defined.

(** A stop reason of an output is a token or the stop string that matched. *)
Inductive OutputStop : Type :=
  | EngineStop (r : StopReason)
  | MatchedString (s : text).

(** [CompletionOutput]; an entry of the log probabilities is its identity, and
    [token_ids] is the list at the time of the output. *)
Record CompletionOutput := {
  co_index : Z;
  co_text : text;
  co_token_ids : list Z;
  co_logprobs : option (list Z);
  co_finish_reason : option FinishReason;
  co_stop_reason : option OutputStop;
}.

Definition co_finished (c : CompletionOutput) : bool := is_some (co_finish_reason c).

(** What parallel sampling reads of [SamplingParams]. *)
Record ParallelParams := {
  pp_n : Z;
  pp_seed : option Z;
  pp_output_kind : RequestOutputKind;
}.

Record ParentRequest := {
  pr_request_id : string;
  pr_external_req_id : string;
  pr_sampling_params : ParallelParams;
  pr_child_requests : gset string;
  pr_output_aggregator : list (option CompletionOutput);
  pr_max_num_generation_tokens : Z;
  pr_cached_child_sampling_params : option ParallelParams;
}.

Definition ParentRequest_init (request_id : string) (external_req_id : option string) (sampling_params : ParallelParams)
    : res ParentRequest :=
  match external_req_id with
  | None => Raise AssertionError
  | Some ext =>
      Ok {| pr_request_id := request_id; pr_external_req_id := ext; pr_sampling_params := sampling_params;
            pr_child_requests := ∅;
            pr_output_aggregator := if bool_decide (pp_output_kind sampling_params = FINAL_ONLY)
                                    then py_repeat None (pp_n sampling_params) else [];
            pr_max_num_generation_tokens := 0; pr_cached_child_sampling_params := None |}
  end.

Definition pr_with_cached (p : ParentRequest) (c : option ParallelParams) : ParentRequest :=
  {| pr_request_id := pr_request_id p; pr_external_req_id := pr_external_req_id p; pr_sampling_params := pr_sampling_params p;
     pr_child_requests := pr_child_requests p; pr_output_aggregator := pr_output_aggregator p;
     pr_max_num_generation_tokens := pr_max_num_generation_tokens p; pr_cached_child_sampling_params := c |}.

Definition pr_with_children (p : ParentRequest) (c : gset string) (agg : list (option CompletionOutput)) : ParentRequest :=
  {| pr_request_id := pr_request_id p; pr_external_req_id := pr_external_req_id p; pr_sampling_params := pr_sampling_params p;
     pr_child_requests := c; pr_output_aggregator := agg;
     pr_max_num_generation_tokens := pr_max_num_generation_tokens p;
     pr_cached_child_sampling_params := pr_cached_child_sampling_params p |}.

Definition pr_with_max (p : ParentRequest) (m : Z) : ParentRequest :=
  {| pr_request_id := pr_request_id p; pr_external_req_id := pr_external_req_id p; pr_sampling_params := pr_sampling_params p;
     pr_child_requests := pr_child_requests p; pr_output_aggregator := pr_output_aggregator p;
     pr_max_num_generation_tokens := m; pr_cached_child_sampling_params := pr_cached_child_sampling_params p |}.

(** ** Operations *)

Definition _get_child_sampling_params (index : Z) (p : ParentRequest) : ParentRequest * ParallelParams :=
  let sp := pr_sampling_params p in
  match pr_cached_child_sampling_params p with
  | Some c => (p, c)
  | None =>
      match pp_seed sp with
      | None =>
          let child := {| pp_n := 1; pp_seed := None; pp_output_kind := pp_output_kind sp |} in
          (pr_with_cached p (Some child), child)
      | Some seed => (p, {| pp_n := 1; pp_seed := Some (seed + index); pp_output_kind := pp_output_kind sp |})
      end
  end.

(** The id of a child: its index, an underscore and the id of the parent. *)
Definition child_id (index : Z) (request_id : string) : string := pretty index +:+ "_" +:+ request_id.

Definition get_child_info (index : Z) (p : ParentRequest) : ParentRequest * (string * ParallelParams) :=
  let child_req_id := child_id index (pr_request_id p) in
  let p := pr_with_children p (pr_child_requests p ∪ {[child_req_id]}) (pr_output_aggregator p) in
  let '(p, sp) := _get_child_sampling_params index p in
  (p, (child_req_id, sp)).

Definition parent_get_outputs (child_request_id : string) (completion_output : CompletionOutput) (p : ParentRequest)
    : res (ParentRequest * list (option CompletionOutput) * bool) :=
  let finished := co_finished completion_output in
  let known := bool_decide (child_request_id ∈ pr_child_requests p) in
  let already_finished_and_returned := finished && negb known in
  let children := if finished && known then pr_child_requests p ∖ {[child_request_id]} else pr_child_requests p in
  let done := bool_decide (children = ∅) in
  if bool_decide (pp_output_kind (pr_sampling_params p) ≠ FINAL_ONLY) then
    Ok (pr_with_children p children (pr_output_aggregator p),
        if already_finished_and_returned then [] else [Some completion_output], done)
  else
    agg ← np_store (pr_output_aggregator p) (co_index completion_output) (Some completion_output);
    Ok (pr_with_children p children agg, if done then agg else [], done).

Definition observe_num_generation_tokens (num_generation_tokens : Z) (p : ParentRequest) : ParentRequest * Z :=
  let m := Z.max num_generation_tokens (pr_max_num_generation_tokens p) in (pr_with_max p m, m).

(** [observe_finished_request]; the statistics are the two lists it appends to. *)
Definition observe_finished_request (parent_req : option ParentRequest) (stats : list Z * list Z) (num_generation_tokens : Z)
    : option ParentRequest * (list Z * list Z) :=
  match parent_req with
  | None => (None, (stats.1 ++ [num_generation_tokens], stats.2 ++ [1]))
  | Some p =>
      let '(p, m) := observe_num_generation_tokens num_generation_tokens p in
      (Some p, if bool_decide (pr_child_requests p = ∅)
               then (stats.1 ++ [m], stats.2 ++ [pp_n (pr_sampling_params p)]) else stats)
  end.

(** ** The children *)

Lemma length_append (s t : string) : String.length (s +:+ t) = (String.length s + String.length t)%nat.
Proof.
  induction s as [|a s IH]; [done|].
  change (S (String.length (s +:+ t)) = S (String.length s + String.length t)). by rewrite IH.
Qed.

Lemma append_cancel_r (s1 s2 t : string) : s1 +:+ t = s2 +:+ t → s1 = s2.
Proof.
  revert s2. induction s1 as [|a s1 IH]; intros [|b s2] E; [done| | |].
  - apply (f_equal String.length) in E. rewrite !length_append in E. cbn in E. lia.
  - apply (f_equal String.length) in E. rewrite !length_append in E. cbn in E. lia.
  - change (String a (s1 +:+ t) = String b (s2 +:+ t)) in E. injection E as -> E. by rewrite (IH s2).
Qed.

Lemma child_id_inj i j rid : child_id i rid = child_id j rid → i = j.
Proof. intros E%append_cancel_r. by apply (inj pretty) in E. Qed.

(** Registering the children [0 .. n - 1]. *)
Definition register (p : ParentRequest) : ParentRequest * list (string * ParallelParams) :=
  foldl (λ '(p, infos) i, let '(p, info) := get_child_info i p in (p, infos ++ [info])) (p, []) (zrange 0 (pp_n (pr_sampling_params p))).

(** What a child gets. *)
Definition child_info (p : ParentRequest) (i : Z) : string * ParallelParams :=
  (child_id i (pr_request_id p),
   {| pp_n := 1; pp_seed := (λ s, s + i) <$> pp_seed (pr_sampling_params p); pp_output_kind := pp_output_kind (pr_sampling_params p) |}).

Record registered (p0 p : ParentRequest) (ids : list Z) : Prop := {
  rg_id : pr_request_id p = pr_request_id p0;
  rg_params : pr_sampling_params p = pr_sampling_params p0;
  rg_agg : pr_output_aggregator p = pr_output_aggregator p0;
  rg_children : ∀ c, c ∈ pr_child_requests p ↔ c ∈ pr_child_requests p0 ∨ ∃ i, i ∈ ids ∧ c = child_id i (pr_request_id p0);
  rg_cached : ∀ c, pr_cached_child_sampling_params p = Some c →
    pp_seed (pr_sampling_params p0) = None ∧ c = {| pp_n := 1; pp_seed := None; pp_output_kind := pp_output_kind (pr_sampling_params p0) |};
}.

Lemma get_child_info_ok p0 p ids i :
  registered p0 p ids → ∃ p', get_child_info i p = (p', child_info p0 i) ∧ registered p0 p' (ids ++ [i]).
Proof.
  intros [Hid Hsp Hagg Hch Hc]. unfold get_child_info, _get_child_sampling_params, child_info.
  cbn [pr_sampling_params pr_cached_child_sampling_params pr_with_children]. rewrite Hid Hsp.
  assert (∀ c, c ∈ pr_child_requests p ∪ {[child_id i (pr_request_id p0)]} ↔
    c ∈ pr_child_requests p0 ∨ ∃ j, j ∈ ids ++ [i] ∧ c = child_id j (pr_request_id p0)) as Hset.
  { intros c. rewrite elem_of_union Hch elem_of_singleton. setoid_rewrite elem_of_app. setoid_rewrite list_elem_of_singleton. naive_solver. }
  destruct (pr_cached_child_sampling_params p) as [c|] eqn:Ec.
  - destruct (Hc c eq_refl) as [Hs ->]. rewrite Hs. eexists. split; [done|]. split; cbn; [done..|]. intros c. rewrite Ec. apply Hc.
  - destruct (pp_seed (pr_sampling_params p0)) as [seed|] eqn:Es; (eexists; split; [done|]); split; cbn; try done.
    + intros c. by rewrite Ec.
    + by intros c [= <-].
Qed.

Lemma register_ok p0 : pr_cached_child_sampling_params p0 = None →
  ∃ p, register p0 = (p, child_info p0 <$> zrange 0 (pp_n (pr_sampling_params p0))) ∧
    registered p0 p (zrange 0 (pp_n (pr_sampling_params p0))).
Proof.
  intros Ec. unfold register. set (ids := zrange 0 _).
  enough (∀ l l0 p infos, registered p0 p l0 → ∃ p', foldl (λ '(p, infos) i, let '(p, info) := get_child_info i p in (p, infos ++ [info])) (p, infos) l =
    (p', infos ++ (child_info p0 <$> l)) ∧ registered p0 p' (l0 ++ l)) as Hgen.
  { destruct (Hgen ids [] p0 []) as (p' & E & R); [|exists p'; by split]. split; [done..| |by rewrite Ec]. intros c. setoid_rewrite elem_of_nil. naive_solver. }
  induction l as [|i l IH]; intros l0 p infos R.
  { exists p. rewrite !app_nil_r. done. }
  cbn [foldl]. destruct (get_child_info_ok p0 p l0 i R) as (p1 & -> & R1).
  destruct (IH _ _ (infos ++ [child_info p0 i]) R1) as (p2 & -> & R2). exists p2. rewrite fmap_cons -!app_assoc in R2 |- *. done.
Qed.

(** ** The outputs *)

(** The parent handles an output of the child with its index. *)
Definition feed (p : ParentRequest) (c : CompletionOutput) : res (ParentRequest * (list (option CompletionOutput) * bool)) :=
  r ← parent_get_outputs (child_id (co_index c) (pr_request_id p)) c p;
  let '(p, outs, finished) := r in Ok (p, (outs, finished)).

(** The children of [p] that still run are those with the indices [live]. *)
Definition live_children (p : ParentRequest) (live : list Z) : Prop :=
  ∀ c, c ∈ pr_child_requests p ↔ ∃ i, i ∈ live ∧ c = child_id i (pr_request_id p).

Lemma live_child p live i : live_children p live → child_id i (pr_request_id p) ∈ pr_child_requests p ↔ i ∈ live.
Proof. intros HL. rewrite (HL _). split; [intros (j & Hj & ->%child_id_inj); done|intros Hi; by exists i]. Qed.

Lemma live_none p live : live_children p live → pr_child_requests p = ∅ ↔ live = [].
Proof.
  intros HL. split.
  - intros E. destruct live as [|i live]; [done|]. pose proof (proj2 (live_child p _ i HL) ltac:(left)) as Hi. rewrite E in Hi. set_solver.
  - intros ->. apply leibniz_equiv. intros c. rewrite (HL c). setoid_rewrite elem_of_nil. set_solver.
Qed.

(** The state after an output of a live child. *)
Definition live_after (live : list Z) (c : CompletionOutput) : list Z :=
  if co_finished c then filter (λ i, i ≠ co_index c) live else live.

Lemma feed_live p live c :
  live_children p live → co_index c ∈ live →
  (pp_output_kind (pr_sampling_params p) = FINAL_ONLY → 0 ≤ co_index c < zlen (pr_output_aggregator p)) →
  let final := bool_decide (pp_output_kind (pr_sampling_params p) = FINAL_ONLY) in
  let agg := if final then <[Z.to_nat (co_index c) := Some c]> (pr_output_aggregator p) else pr_output_aggregator p in
  let done := bool_decide (live_after live c = []) in
  ∃ p', feed p c = Ok (p', (if final then if done then agg else [] else [Some c], done)) ∧
    live_children p' (live_after live c) ∧ pr_request_id p' = pr_request_id p ∧
    pr_sampling_params p' = pr_sampling_params p ∧ pr_output_aggregator p' = agg.
Proof.
  intros HL Hin Hidx final agg dn. unfold feed, parent_get_outputs.
  rewrite (bool_decide_true (child_id _ _ ∈ _)); [|by apply (live_child p live)]. cbn [negb]. rewrite andb_false_r andb_true_r.
  set (children := if co_finished c then _ else _).
  assert (∀ agg, live_children (pr_with_children p children agg) (live_after live c)) as HL'.
  { intros agg' x. cbn. unfold children, live_after. destruct (co_finished c); [|apply HL].
    rewrite elem_of_difference (HL x) elem_of_singleton. setoid_rewrite list_elem_of_filter. split.
    - intros [(i & Hi & ->) Hne]. exists i. split; [split; [by intros ->|done]|done].
    - intros (i & [Hne Hi] & ->). split; [by exists i|]. by intros ->%child_id_inj. }
  assert (bool_decide (children = ∅) = dn) as ->.
  { apply bool_decide_ext. exact (live_none _ _ (HL' [])). }
  unfold agg, final. destruct (bool_decide_reflect (pp_output_kind (pr_sampling_params p) = FINAL_ONLY)) as [Hf|Hf].
  - rewrite bool_decide_false; [|naive_solver]. rewrite np_store_ok; [|by apply Hidx]. cbn [mbind res_bind].
    eexists. split; [done|]. split; [apply HL'|]. done.
  - rewrite bool_decide_true; [|done]. cbn [mbind res_bind]. eexists. split; [done|]. split; [apply HL'|]. done.
Qed.

(** No child sends anything after its final output. *)
Fixpoint outputs_ok (live : list Z) (cs : list CompletionOutput) : Prop :=
  match cs with
  | [] => True
  | c :: cs => co_index c ∈ live ∧ outputs_ok (live_after live c) cs
  end.

(** Streamed outputs pass through; [finished] comes with the output that ends the last child. *)
Fixpoint streamed (live : list Z) (cs : list CompletionOutput) : list (list (option CompletionOutput) * bool) :=
  match cs with
  | [] => []
  | c :: cs => ([Some c], bool_decide (live_after live c = [])) :: streamed (live_after live c) cs
  end.

Lemma stream_run p live cs :
  live_children p live → outputs_ok live cs → pp_output_kind (pr_sampling_params p) ≠ FINAL_ONLY →
  ∃ p', mapM_st feed p cs = Ok (p', streamed live cs).
Proof.
  revert p live. induction cs as [|c cs IH]; intros p live HL Hok Hk; [by exists p|]. destruct Hok as [Hin Hok].
  destruct (feed_live p live c HL Hin) as (p1 & E & HL1 & _ & Hsp & _); [done|].
  rewrite (bool_decide_false (_ = FINAL_ONLY)) in E; [|done].
  destruct (IH p1 _ HL1 Hok) as (p2 & E2); [by rewrite Hsp|]. exists p2. cbn [mapM_st streamed]. rewrite E. cbn [mbind res_bind].
  by rewrite E2.
Qed.

Definition aggregate (agg : list (option CompletionOutput)) (cs : list CompletionOutput) : list (option CompletionOutput) :=
  foldl (λ agg c, <[Z.to_nat (co_index c) := Some c]> agg) agg cs.

Lemma aggregate_length agg cs : length (aggregate agg cs) = length agg.
Proof. revert agg. induction cs as [|c cs IH]; intros agg; [done|]. cbn. rewrite IH. apply length_insert. Qed.

Lemma aggregate_lookup agg cs c :
  NoDup (co_index <$> cs) → Forall (λ c, 0 ≤ co_index c < zlen agg) cs → c ∈ cs →
  aggregate agg cs !! Z.to_nat (co_index c) = Some (Some c).
Proof.
  induction cs as [|d cs IH] using rev_ind; intros Hnd Hr Hin; [by apply not_elem_of_nil in Hin|].
  rewrite fmap_app in Hnd. apply NoDup_app in Hnd as (Hnd & Hd & _). apply Forall_app in Hr as [Hr [Hdr _]%Forall_cons].
  unfold aggregate. rewrite foldl_app. cbn [foldl]. apply elem_of_app in Hin as [Hin|Hin%list_elem_of_singleton].
  - rewrite list_lookup_insert_ne; [by apply IH|]. rewrite Forall_forall in Hr. pose proof (Hr c Hin).
    intros E. apply (Hd (co_index c)); [by apply list_elem_of_fmap_2|]. apply list_elem_of_singleton. lia.
  - subst c. rewrite list_lookup_insert_eq //. fold (aggregate agg cs). rewrite aggregate_length. unfold zlen in Hdr. lia.
Qed.

Lemma final_run p live cs :
  live_children p live → NoDup (co_index <$> cs) → Forall (λ c, co_finished c = true) cs →
  (∀ i, i ∈ live ↔ i ∈ co_index <$> cs) → Forall (λ c, 0 ≤ co_index c < zlen (pr_output_aggregator p)) cs →
  pp_output_kind (pr_sampling_params p) = FINAL_ONLY →
  ∃ p', mapM_st feed p cs =
    Ok (p', replicate (length cs - 1) ([], false) ++ (if is_nil cs then [] else [(aggregate (pr_output_aggregator p) cs, true)])).
Proof.
  revert p live. induction cs as [|c cs IH]; intros p live HL Hnd Hfin Hlive Hr Hk; [by exists p|].
  rewrite fmap_cons in Hnd. apply NoDup_cons in Hnd as [Hc Hnd]. apply Forall_cons in Hfin as [Hcf Hfin]. apply Forall_cons in Hr as [Hcr Hr].
  destruct (feed_live p live c HL) as (p1 & E & HL1 & _ & Hsp & Hagg); [apply Hlive; rewrite fmap_cons; left|done|].
  rewrite (bool_decide_true (_ = FINAL_ONLY)) in E Hagg; [|done..].
  assert (∀ i, i ∈ live_after live c ↔ i ∈ co_index <$> cs) as Hlive'.
  { intros i. unfold live_after. rewrite Hcf list_elem_of_filter Hlive fmap_cons elem_of_cons. split; [naive_solver|].
    intros Hi. split; [|by right]. intros ->. done. }
  destruct (IH p1 _ HL1 Hnd Hfin Hlive') as (p2 & E2); [by rewrite Hagg /zlen length_insert|by rewrite Hsp|].
  exists p2. cbn [mapM_st]. rewrite E. cbn [mbind res_bind]. rewrite E2. cbn [mbind res_bind]. rewrite Hagg.
  destruct cs as [|c' cs].
  - cbn. rewrite bool_decide_true; [done|]. destruct (live_after live c) as [|j l]; [done|].
    exfalso. apply (not_elem_of_nil j). apply Hlive'. left.
  - rewrite bool_decide_false; [cbn [length is_nil]; do 2 f_equal; by replace (S (S (length cs)) - 1)%nat with (S (S (length cs) - 1)) by lia|].
    intros El. apply (not_elem_of_nil (co_index c')). rewrite -El. apply Hlive'. rewrite fmap_cons. left.
Qed.

(** C20: parallel sampling returns every sample once.  After the children are registered
    (with distinct ids, and distinct seeds when a seed is given), a parent that wants only
    the final output answers nothing until the last child ends, in whatever order they
    end, and then returns the [n] outputs by index, finished; a parent that streams passes
    every output on and is finished exactly with the output that ends its last child. *)
Theorem parallel_sampling_complete rid ext sp :
  1 ≤ pp_n sp →
  ∃ p0 p infos, ParentRequest_init rid (Some ext) sp = Ok p0 ∧ register p0 = (p, infos) ∧
    infos = child_info p0 <$> zrange 0 (pp_n sp) ∧ NoDup infos.*1 ∧
    (is_some (pp_seed sp) = true → NoDup (pp_seed <$> infos.*2)) ∧
    (pp_output_kind sp = FINAL_ONLY → ∀ cs,
       Forall (λ c, co_finished c = true) cs → co_index <$> cs ≡ₚ zrange 0 (pp_n sp) →
       ∃ p' outs, mapM_st feed p cs = Ok (p', replicate (length cs - 1) ([], false) ++ [(outs, true)]) ∧
         zlen outs = pp_n sp ∧ ∀ c, c ∈ cs → outs !! Z.to_nat (co_index c) = Some (Some c)) ∧
    (pp_output_kind sp ≠ FINAL_ONLY → ∀ cs, outputs_ok (zrange 0 (pp_n sp)) cs →
       ∃ p', mapM_st feed p cs = Ok (p', streamed (zrange 0 (pp_n sp)) cs)).
Proof.
  intros Hn. unfold ParentRequest_init. set (p0 := {| pr_request_id := rid |}).
  destruct (register_ok p0 eq_refl) as (p & E & R). exists p0, p. eexists. split; [done|]. split; [exact E|]. split; [done|].
  assert (live_children p (zrange 0 (pp_n sp))) as HL.
  { intros c. rewrite (rg_children _ _ _ R c) (rg_id _ _ _ R). cbn [p0 pr_child_requests pr_request_id pr_sampling_params]. set_solver. }
  split; [|split; [|split]].
  - rewrite -list_fmap_compose. apply NoDup_fmap_2; [|apply NoDup_seqZ]. intros i j Hij. by apply child_id_inj in Hij.
  - intros Hs. rewrite -list_fmap_compose -list_fmap_compose. apply NoDup_fmap_2; [|apply NoDup_seqZ]. intros i j Hij. cbn in Hij.
    destruct (pp_seed sp); [|done]. cbn in Hij. injection Hij. lia.
  - intros Hk cs Hfin Hperm.
    assert (pr_output_aggregator p = py_repeat None (pp_n sp)) as Hagg.
    { rewrite (rg_agg _ _ _ R). cbn. by rewrite bool_decide_true. }
    assert (zlen (pr_output_aggregator p) = pp_n sp) as Hlen by (rewrite Hagg zlen_repeat; lia).
    assert (NoDup (co_index <$> cs)) as Hnd by (rewrite Hperm; apply NoDup_seqZ).
    assert (Forall (λ c, 0 ≤ co_index c < zlen (pr_output_aggregator p)) cs) as Hr.
    { apply Forall_forall. intros c Hc. rewrite Hlen. apply elem_of_zrange. rewrite -Hperm. by apply list_elem_of_fmap_2. }
    destruct (final_run p (zrange 0 (pp_n sp)) cs HL Hnd Hfin) as (p' & E'); [intros i; by rewrite Hperm|done|by rewrite (rg_params _ _ _ R)|].
    exists p', (aggregate (pr_output_aggregator p) cs). split_and!.
    + rewrite E'. destruct cs as [|c cs]; [|done]. exfalso. apply (not_elem_of_nil 0).
      change (@nil Z) with (co_index <$> []). rewrite Hperm. apply elem_of_zrange. lia.
    + unfold zlen. rewrite aggregate_length. exact Hlen.
    + intros c Hc. by apply aggregate_lookup.
  - intros Hk cs Hok. apply (stream_run p (zrange 0 (pp_n sp)) cs HL Hok). by rewrite (rg_params _ _ _ R).
Qed.

Definition sample_output (i : Z) (fin : option FinishReason) : CompletionOutput :=
  {| co_index := i; co_text := [97]; co_token_ids := [5]; co_logprobs := None; co_finish_reason := fin; co_stop_reason := None |}.

Lemma parallel_sampling_complete_witness :
  ∃ p0 p infos, ParentRequest_init "r" (Some "x") {| pp_n := 2; pp_seed := Some 7; pp_output_kind := FINAL_ONLY |} = Ok p0 ∧
    register p0 = (p, infos) ∧
    ∃ p' outs, mapM_st feed p [sample_output 1 (Some STOP); sample_output 0 (Some LENGTH)] =
      Ok (p', [([], false); (outs, true)]) ∧ zlen outs = 2.
Proof.
  destruct (parallel_sampling_complete "r" "x" {| pp_n := 2; pp_seed := Some 7; pp_output_kind := FINAL_ONLY |})
    as (p0 & p & infos & E0 & E & _ & _ & _ & Hfinal & _); [cbn; lia|].
  destruct (Hfinal eq_refl [sample_output 1 (Some STOP); sample_output 0 (Some LENGTH)]) as (p' & outs & E' & Hl & _).
  - repeat constructor.
  - change (co_index <$> [sample_output 1 (Some STOP); sample_output 0 (Some LENGTH)]) with [1; 0].
    change (zrange 0 _) with [0; 1]. apply perm_swap.
  - exists p0, p, infos. split; [exact E0|]. split; [exact E|]. exists p', outs. split; [exact E'|exact Hl].
Defined.

(** [AsyncLLM.add_request] registers a child, awaits its hand-over to the engine, and only
    then registers the next.  When the first child ends in between, the parent has no
    other child yet and answers as finished, with the outputs of the others missing. *)
Theorem early_output_finishes_parent :
  (p ← ParentRequest_init "r" (Some "x") {| pp_n := 2; pp_seed := None; pp_output_kind := FINAL_ONLY |};
   let '(p, _) := get_child_info 0 p in
   r ← feed p (sample_output 0 (Some STOP)); Ok (snd r)) = Ok ([Some (sample_output 0 (Some STOP)); None], true).
Proof. vm_compute. reflexivity. Qed.
