(* ===== verification/OutputProcessor.v ===== *)
(** * The output processor

    [src/vllm/v1/engine/output_processor.py]: the front end turns the tokens of the engine
    into text and outputs, per request, and hands them to the client directly or through a
    collector that merges what the client has not read yet.

    Requests of one parent share the [ParentRequest] object and the collector: both are
    values in a store ([op_parents], [op_queues]) that the states refer to, while
    [parent_requests] is the dictionary of the code (its keys).  Fields that are only
    passed on (the prompt text, metrics, LoRA, routed experts, transfer parameters, prompt
    log probabilities), statistics and tracing are absent. *)

From S2P Require Import Prelude NumPy PyFloat Request RequestQueue Scheduler Detokenizer ParallelSampling.

(** ** Outputs and collectors *)

Inductive ROut : Type :=
  | RequestOutput (request_id : string) (prompt_token_ids : option (list Z)) (outputs : list (option CompletionOutput))
      (finished : bool) (num_cached_tokens : Z)
  | PoolingRequestOutput (request_id : string) (prompt_token_ids : list Z) (data : Z) (finished : bool) (num_cached_tokens : Z).

(** [request_output.finished = b]. *)
Definition set_finished (o : ROut) (b : bool) : ROut :=
  match o with
  | RequestOutput r p outs _ n => RequestOutput r p outs b n
  | PoolingRequestOutput r p d _ n => PoolingRequestOutput r p d b n
  end.

(** Merging a later completion with the same index. *)
Definition merge_completion (aggregate : bool) (completion next_completion : CompletionOutput) : res CompletionOutput :=
  if aggregate then
    logprobs ← match co_logprobs next_completion with
               | Some (x :: l) =>
                   match co_logprobs completion with
                   | None => Raise AssertionError
                   | Some old => Ok (Some (old ++ x :: l))
                   end
               | _ => Ok (co_logprobs completion)
               end;
    Ok {| co_index := co_index completion; co_text := co_text completion ++ co_text next_completion;
          co_token_ids := co_token_ids completion ++ co_token_ids next_completion; co_logprobs := logprobs;
          co_finish_reason := co_finish_reason next_completion; co_stop_reason := co_stop_reason next_completion |}
  else Ok next_completion.

(** The inner loop of [RequestOutput.add]. *)
Fixpoint add_completion (aggregate : bool) (outputs : list (option CompletionOutput)) (next : CompletionOutput)
    : res (list (option CompletionOutput)) :=
  match outputs with
  | [] => Ok [Some next]
  | None :: _ => Raise AttributeError
  | Some c :: outputs =>
      if bool_decide (co_index c = co_index next) then c ← merge_completion aggregate c next; Ok (Some c :: outputs)
      else outputs ← add_completion aggregate outputs next; Ok (Some c :: outputs)
  end.

Definition output_add (aggregate : bool) (o next : ROut) : res ROut :=
  match o, next with
  | RequestOutput r p outs f n, RequestOutput _ _ nouts nf _ =>
      outs ← foldM (λ outs c, match c with None => Raise AttributeError | Some c => add_completion aggregate outs c end) outs nouts;
      Ok (RequestOutput r p outs (f || nf) n)
  | _, _ => Raise AttributeError
  end.

(** What a collector holds: an output or an exception to raise in the client. *)
Inductive Collected : Type :=
  | COutput (o : ROut)
  | CException (e : exn).

Record RequestOutputCollector := {
  rc_aggregate : bool;
  rc_output : option Collected;
}.

Definition Collector_init (output_kind : RequestOutputKind) : RequestOutputCollector :=
  {| rc_aggregate := bool_decide (output_kind = DELTA); rc_output := None |}.

Definition collector_put (output : Collected) (q : RequestOutputCollector) : res RequestOutputCollector :=
  let set o := {| rc_aggregate := rc_aggregate q; rc_output := Some o |} in
  match rc_output q, output with
  | None, _ => Ok (set output)
  | _, CException _ => Ok (set output)
  | Some (COutput ((RequestOutput _ _ _ _ _) as o)), COutput ((RequestOutput _ _ _ _ _) as n) =>
      o ← output_add (rc_aggregate q) o n; Ok (set (COutput o))
  | Some (COutput (PoolingRequestOutput _ _ _ _ _)), COutput (PoolingRequestOutput _ _ _ _ _) => Ok (set output)
  | _, _ => Ok q
  end.

(** [get_nowait]; [get] waits until there is an output and then does the same. *)
Definition collector_get_nowait (q : RequestOutputCollector) : RequestOutputCollector * res (option ROut) :=
  ({| rc_aggregate := rc_aggregate q; rc_output := None |},
   match rc_output q with None => Ok None | Some (COutput o) => Ok (Some o) | Some (CException e) => Raise e end).

(** ** Requests *)

Record StreamingUpdate := {
  su_prompt_token_ids : option (list Z);
  su_final : bool;
}.

(** What the engine core reports of a request beside its tokens. *)
Record CoreOutput := {
  cor_output : EngineCoreOutput;
  cor_new_logprobs : option (list Z);
  cor_pooling_output : option Z;
  cor_num_cached_tokens : option Z;
}.

Section Processor.
Context {St : Type} (decode_next : St → list Z → Z → St * text).
(** The order in which a set is listed. *)
Context (set_order : list string → list string).

Record RequestState := {
  rs_request_id : string;
  rs_external_req_id : string;
  rs_parent_req : option string;
  rs_request_index : Z;
  rs_output_kind : RequestOutputKind;
  rs_prompt_token_ids : option (list Z);
  rs_prompt_embeds_len : option Z;
  rs_prompt_len : Z;
  rs_logprobs : option (option (list Z));
  rs_detokenizer : option (Detokenizer St);
  rs_is_prefilling : bool;
  rs_queue : option nat;
  rs_num_cached_tokens : Z;
  rs_stream_interval : Z;
  rs_sent_tokens_offset : Z;
  rs_streaming_input : bool;
  rs_input_chunk_queue : option (list StreamingUpdate);
}.

Definition rs_with_detok (s : RequestState) (d : option (Detokenizer St)) (lp : option (option (list Z))) (off : Z) : RequestState :=
  {| rs_request_id := rs_request_id s; rs_external_req_id := rs_external_req_id s; rs_parent_req := rs_parent_req s;
     rs_request_index := rs_request_index s; rs_output_kind := rs_output_kind s; rs_prompt_token_ids := rs_prompt_token_ids s;
     rs_prompt_embeds_len := rs_prompt_embeds_len s; rs_prompt_len := rs_prompt_len s; rs_logprobs := lp; rs_detokenizer := d;
     rs_is_prefilling := rs_is_prefilling s; rs_queue := rs_queue s; rs_num_cached_tokens := rs_num_cached_tokens s;
     rs_stream_interval := rs_stream_interval s; rs_sent_tokens_offset := off; rs_streaming_input := rs_streaming_input s;
     rs_input_chunk_queue := rs_input_chunk_queue s |}.

Definition rs_with_prefill (s : RequestState) (b : bool) (cached : Z) : RequestState :=
  {| rs_request_id := rs_request_id s; rs_external_req_id := rs_external_req_id s; rs_parent_req := rs_parent_req s;
     rs_request_index := rs_request_index s; rs_output_kind := rs_output_kind s; rs_prompt_token_ids := rs_prompt_token_ids s;
     rs_prompt_embeds_len := rs_prompt_embeds_len s; rs_prompt_len := rs_prompt_len s; rs_logprobs := rs_logprobs s;
     rs_detokenizer := rs_detokenizer s; rs_is_prefilling := b; rs_queue := rs_queue s; rs_num_cached_tokens := cached;
     rs_stream_interval := rs_stream_interval s; rs_sent_tokens_offset := rs_sent_tokens_offset s;
     rs_streaming_input := rs_streaming_input s; rs_input_chunk_queue := rs_input_chunk_queue s |}.

Definition rs_with_stream (s : RequestState) (streaming : bool) (q : option (list StreamingUpdate)) : RequestState :=
  {| rs_request_id := rs_request_id s; rs_external_req_id := rs_external_req_id s; rs_parent_req := rs_parent_req s;
     rs_request_index := rs_request_index s; rs_output_kind := rs_output_kind s; rs_prompt_token_ids := rs_prompt_token_ids s;
     rs_prompt_embeds_len := rs_prompt_embeds_len s; rs_prompt_len := rs_prompt_len s; rs_logprobs := rs_logprobs s;
     rs_detokenizer := rs_detokenizer s; rs_is_prefilling := rs_is_prefilling s; rs_queue := rs_queue s;
     rs_num_cached_tokens := rs_num_cached_tokens s; rs_stream_interval := rs_stream_interval s;
     rs_sent_tokens_offset := rs_sent_tokens_offset s; rs_streaming_input := streaming; rs_input_chunk_queue := q |}.

Definition apply_streaming_update (update : StreamingUpdate) (s : RequestState) : RequestState :=
  let more := default [] (su_prompt_token_ids update) in
  let ids := match rs_prompt_token_ids s with Some (x :: l) => (x :: l) ++ more | _ => more end in
  {| rs_request_id := rs_request_id s; rs_external_req_id := rs_external_req_id s; rs_parent_req := rs_parent_req s;
     rs_request_index := rs_request_index s; rs_output_kind := rs_output_kind s; rs_prompt_token_ids := Some ids;
     rs_prompt_embeds_len := rs_prompt_embeds_len s; rs_prompt_len := zlen ids; rs_logprobs := rs_logprobs s;
     rs_detokenizer := rs_detokenizer s; rs_is_prefilling := true; rs_queue := rs_queue s;
     rs_num_cached_tokens := rs_num_cached_tokens s; rs_stream_interval := rs_stream_interval s;
     rs_sent_tokens_offset := rs_sent_tokens_offset s; rs_streaming_input := negb (su_final update);
     rs_input_chunk_queue := rs_input_chunk_queue s |}.

Definition _new_completion_output (token_ids : list Z) (finish_reason : option FinishReason) (stop_reason : option OutputStop)
    (s : RequestState) : res (RequestState * CompletionOutput) :=
  match rs_detokenizer s, rs_logprobs s with
  | Some d, Some logprobs =>
      let finished := is_some finish_reason in
      let delta := bool_decide (rs_output_kind s = DELTA) in
      let '(d, text) := get_next_output_text finished delta d in
      let token_ids := if delta then token_ids else output_token_ids d in
      let shown := match logprobs with
                   | Some (x :: l) => if delta then Some (py_slice_from (x :: l) (- zlen token_ids)) else Some (x :: l)
                   | _ => logprobs
                   end in
      Ok (rs_with_detok s (Some d) (Some logprobs) (rs_sent_tokens_offset s),
          {| co_index := rs_request_index s; co_text := text; co_token_ids := token_ids; co_logprobs := shown;
             co_finish_reason := finish_reason; co_stop_reason := if finished then stop_reason else None |})
  | _, _ => Raise AssertionError
  end.

(** The prompt of an output; embeddings are shown as zeros. *)
Definition shown_prompt (s : RequestState) : res (list Z) :=
  match rs_prompt_token_ids s, rs_prompt_embeds_len s with
  | Some ids, _ => Ok ids
  | None, Some n => Ok (py_repeat 0 n)
  | None, None => Raise AssertionError
  end.

Definition _new_request_output (external_req_id : string) (outputs : list (option CompletionOutput) + Z) (finished : bool)
    (s : RequestState) : res ROut :=
  prompt ← shown_prompt s;
  match outputs with
  | inr data => Ok (PoolingRequestOutput external_req_id prompt data finished (rs_num_cached_tokens s))
  | inl [] => Raise IndexError
  | inl outs =>
      _ ← py_assert (is_some (rs_logprobs s));
      Ok (RequestOutput external_req_id (Some prompt) outs finished (rs_num_cached_tokens s))
  end.

(** The outputs of the parent when there is one, and the id the client knows. *)
Definition through_parent (output : CompletionOutput) (finished : bool) (s : RequestState) (parents : gmap string ParentRequest)
    : res (gmap string ParentRequest * option (string * list (option CompletionOutput) * bool)) :=
  match rs_parent_req s with
  | None => Ok (parents, Some (rs_external_req_id s, [Some output], finished))
  | Some pid =>
      match parents !! pid with
      | None => Raise KeyError
      | Some p =>
          r ← parent_get_outputs (rs_request_id s) output p;
          let '(p, outs, finished) := r in
          Ok (<[pid := p]> parents, if is_nil outs then None else Some (pr_external_req_id p, outs, finished))
      end
  end.

Definition make_request_output (new_token_ids : list Z) (pooling_output : option Z) (finish_reason : option FinishReason)
    (stop_reason : option OutputStop) (s : RequestState) (parents : gmap string ParentRequest)
    : res (RequestState * gmap string ParentRequest * option ROut) :=
  let finished := is_some finish_reason in
  let final_only := bool_decide (rs_output_kind s = FINAL_ONLY) in
  if negb finished && final_only then Ok (s, parents, None)
  else
    (* With a stream interval: the new tokens to send, or nothing yet. *)
    step ← (if bool_decide (1 < rs_stream_interval s) then
              match rs_detokenizer s with
              | None => Raise AssertionError
              | Some d =>
                  if negb (finished || bool_decide (rs_sent_tokens_offset s = 0) ||
                           bool_decide (rs_stream_interval s ≤ num_output_tokens d - rs_sent_tokens_offset s))
                  then Ok None
                  else if bool_decide (rs_output_kind s = DELTA)
                  then Ok (Some (py_slice_from (output_token_ids d) (rs_sent_tokens_offset s), num_output_tokens d))
                  else Ok (Some (new_token_ids, rs_sent_tokens_offset s))
              end
            else Ok (Some (new_token_ids, rs_sent_tokens_offset s)));
    match step with
    | None => Ok (s, parents, None)
    | Some (new_token_ids, offset) =>
        let s := rs_with_detok s (rs_detokenizer s) (rs_logprobs s) offset in
        match pooling_output with
        | Some data => o ← _new_request_output (rs_external_req_id s) (inr data) finished s; Ok (s, parents, Some o)
        | None =>
            r ← _new_completion_output new_token_ids finish_reason stop_reason s;
            let '(s, output) := r in
            r ← through_parent output finished s parents;
            match r with
            | (parents, None) => Ok (s, parents, None)
            | (parents, Some (ext, outs, finished)) =>
                o ← _new_request_output ext (inl outs) finished s; Ok (s, parents, Some o)
            end
        end
    end.

(** ** The processor *)

Record OutputProcessor := {
  op_request_states : gmap string RequestState;
  op_parent_requests : gset string;
  op_external_req_ids : gmap string (list string);
  op_parents : gmap string ParentRequest;
  op_queues : gmap nat RequestOutputCollector;
}.

Definition op_with_states (op : OutputProcessor) (states : gmap string RequestState) : OutputProcessor :=
  {| op_request_states := states; op_parent_requests := op_parent_requests op; op_external_req_ids := op_external_req_ids op;
     op_parents := op_parents op; op_queues := op_queues op |}.
Definition op_with_ids (op : OutputProcessor) (ids : gmap string (list string)) : OutputProcessor :=
  {| op_request_states := op_request_states op; op_parent_requests := op_parent_requests op; op_external_req_ids := ids;
     op_parents := op_parents op; op_queues := op_queues op |}.
Definition op_with_parents (op : OutputProcessor) (names : gset string) (parents : gmap string ParentRequest) : OutputProcessor :=
  {| op_request_states := op_request_states op; op_parent_requests := names; op_external_req_ids := op_external_req_ids op;
     op_parents := parents; op_queues := op_queues op |}.
Definition op_with_queues (op : OutputProcessor) (queues : gmap nat RequestOutputCollector) : OutputProcessor :=
  {| op_request_states := op_request_states op; op_parent_requests := op_parent_requests op;
     op_external_req_ids := op_external_req_ids op; op_parents := op_parents op; op_queues := queues |}.

Definition get_num_unfinished_requests (op : OutputProcessor) : Z := Z.of_nat (size (op_request_states op)).
Definition has_unfinished_requests (op : OutputProcessor) : bool := bool_decide (op_request_states op ≠ ∅).

(** [queue.put(output)] on a shared collector. *)
Definition queue_put (qid : nat) (output : Collected) (op : OutputProcessor) : res OutputProcessor :=
  match op_queues op !! qid with
  | None => Raise KeyError
  | Some q => q ← collector_put output q; Ok (op_with_queues op (<[qid := q]> (op_queues op)))
  end.

Definition propagate_error (e : exn) (op : OutputProcessor) : res OutputProcessor :=
  foldM (λ op s, match rs_queue s with None => Raise AssertionError | Some qid => queue_put qid (CException e) op end)
        op (snd <$> map_to_list (op_request_states op)).

(** [internal_ids = self.external_req_ids[ext]; internal_ids.remove(id); if not internal_ids: del ...]. *)
Definition forget_internal_id (external_req_id request_id : string) (op : OutputProcessor) : res OutputProcessor :=
  match list_remove_first (default [] (op_external_req_ids op !! external_req_id)) request_id with
  | None => Raise ValueError
  | Some ids =>
      Ok (op_with_ids op (if is_nil ids then delete external_req_id (op_external_req_ids op)
                          else <[external_req_id := ids]> (op_external_req_ids op)))
  end.

Definition _finish_request (s : RequestState) (op : OutputProcessor) : res OutputProcessor :=
  let req_id := rs_request_id s in
  if bool_decide (req_id ∈ dom (op_request_states op)) then
    op ← forget_internal_id (rs_external_req_id s) req_id (op_with_states op (delete req_id (op_request_states op)));
    match rs_parent_req s with
    | None => Ok op
    | Some pid =>
        match op_parents op !! pid with
        | None => Raise KeyError
        | Some p => Ok (if bool_decide (pr_child_requests p = ∅)
                        then op_with_parents op (op_parent_requests op ∖ {[pid]}) (op_parents op) else op)
        end
    end
  else Raise KeyError.

(** A request as the front end gets it. *)
Record CoreRequest := {
  cr_request_id : string;
  cr_external_req_id : option string;
  cr_prompt_token_ids : option (list Z);
  cr_prompt_embeds_len : option Z;
  cr_sampling : option (RequestOutputKind * list text * Z * bool * bool);
  cr_pooling : option RequestOutputKind;
  cr_resumable : bool;
}.

Definition prompt_length (ids : option (list Z)) (embeds : option Z) : res Z :=
  match ids, embeds with
  | None, None => Raise ValueError
  | None, Some n => Ok n
  | Some l, None => Ok (zlen l)
  | Some l, Some n => if bool_decide (n ≠ zlen l) then Raise ValueError else Ok (zlen l)
  end.

(** [from_new_request]; the sampling parameters are the kind of output, the stop strings,
    [min_tokens], [include_stop_str_in_output] and whether log probabilities are wanted.
    [new_decoder] starts the tokenizer on the prompt, [slow] says whether it is the slow
    one, which keeps the prompt in its tokens. *)
Definition from_new_request (new_decoder : option (list Z) → St) (slow : bool) (stream_interval : Z) (request : CoreRequest)
    (parent_req : option string) (request_index : Z) (queue : option nat) : res RequestState :=
  n ← prompt_length (cr_prompt_token_ids request) (cr_prompt_embeds_len request);
  parts ← match cr_sampling request, cr_pooling request with
          | Some (kind, stop, min_tokens, include, wants_logprobs), _ =>
              let ids := if slow : bool then match cr_prompt_token_ids request with Some (x :: l) => x :: l | _ => py_repeat 0 n end else [] in
              Ok (kind, Some (Detokenizer_init ids (if slow then n else 0) stop min_tokens include (new_decoder (cr_prompt_token_ids request))),
                  Some (if wants_logprobs : bool then Some [] else None))
          | None, Some kind => Ok (kind, None, None)
          | None, None => Raise AssertionError
          end;
  let '(kind, detok, logprobs) := parts in
  match cr_external_req_id request with
  | None => Raise AssertionError
  | Some ext =>
      Ok {| rs_request_id := cr_request_id request; rs_external_req_id := ext; rs_parent_req := parent_req;
            rs_request_index := request_index; rs_output_kind := kind; rs_prompt_token_ids := cr_prompt_token_ids request;
            rs_prompt_embeds_len := cr_prompt_embeds_len request; rs_prompt_len := n; rs_logprobs := logprobs;
            rs_detokenizer := detok; rs_is_prefilling := true; rs_queue := queue; rs_num_cached_tokens := 0;
            rs_stream_interval := stream_interval; rs_sent_tokens_offset := 0; rs_streaming_input := cr_resumable request;
            rs_input_chunk_queue := if cr_resumable request then Some [] else None |}
  end.

(** [STREAM_FINISHED]. *)
Definition STREAM_FINISHED : ROut := RequestOutput "" None [] true 0.

Definition _update_streaming_request_state (s : RequestState) (request : CoreRequest) (op : OutputProcessor) : res OutputProcessor :=
  let put s := op_with_states op (<[rs_request_id s := s]> (op_request_states op)) in
  if negb (cr_resumable request) then
    match rs_input_chunk_queue s with
    | None =>
        op ← _finish_request s op;
        match rs_queue s with None => Ok op | Some qid => queue_put qid (COutput STREAM_FINISHED) op end
    | Some [] => Ok (put (rs_with_stream s false (Some [])))
    | Some chunks =>
        Ok (put (rs_with_stream s (rs_streaming_input s)
          (Some (py_init chunks ++
                ((λ u, {| su_prompt_token_ids := su_prompt_token_ids u; su_final := true |}) <$> drop (length chunks - 1) chunks)))))
    end
  else
    let update := {| su_prompt_token_ids := cr_prompt_token_ids request; su_final := false |} in
    match rs_input_chunk_queue s with
    | None => let s := apply_streaming_update update s in Ok (put (rs_with_stream s (rs_streaming_input s) (Some [])))
    | Some chunks => Ok (put (rs_with_stream s (rs_streaming_input s) (Some (chunks ++ [update]))))
    end.

(** [add_request]; the parent object is in the store. *)
Definition op_add_request (new_decoder : option (list Z) → St) (slow : bool) (stream_interval : Z) (request : CoreRequest)
    (parent_req : option string) (request_index : Z) (queue : option nat) (op : OutputProcessor) : res OutputProcessor :=
  match op_request_states op !! cr_request_id request with
  | Some s => _update_streaming_request_state s request op
  | None =>
      s ← from_new_request new_decoder slow stream_interval request parent_req request_index queue;
      let op := op_with_states op (<[cr_request_id request := s]> (op_request_states op)) in
      let op := match parent_req with
                | None => op
                | Some pid => op_with_parents op (op_parent_requests op ∪ {[pid]}) (op_parents op)
                end in
      Ok (op_with_ids op (<[rs_external_req_id s := default [] (op_external_req_ids op !! rs_external_req_id s) ++ [cr_request_id request]]>
                            (op_external_req_ids op)))
  end.

(** The first loop of [abort_requests]: the internal ids meant by [request_ids]. *)
Definition resolve_abort (internal : bool) (acc : OutputProcessor * list string) (request_id : string)
    : res (OutputProcessor * list string) :=
  let '(op, ids) := acc in
  if internal then
    op ← match op_request_states op !! request_id with
         | None => Ok op
         | Some s => forget_internal_id (rs_external_req_id s) request_id op
         end;
    Ok (op, ids ++ [request_id])
  else
    Ok (op_with_ids op (delete request_id (op_external_req_ids op)), ids ++ default [] (op_external_req_ids op !! request_id)).

Definition EMPTY_CPU_TENSOR : Z := -1.

(** The final output of an aborted request. *)
Definition abort_output (s : RequestState) (op : OutputProcessor) : res OutputProcessor :=
  match rs_queue s with
  | None => Ok op
  | Some qid =>
      r ← make_request_output [] (if is_some (rs_detokenizer s) then None else Some EMPTY_CPU_TENSOR) (Some ABORT) None s (op_parents op);
      let '(_, parents, o) := r in
      let op := op_with_parents op (op_parent_requests op) parents in
      match o with None => Ok op | Some o => queue_put qid (COutput o) op end
  end.

(** [abort_requests]; a parent's children are aborted by a recursive call.  [fuel] bounds
    its depth. *)
Fixpoint op_abort_requests (fuel : nat) (request_ids : list string) (internal : bool) (op : OutputProcessor)
    : res (OutputProcessor * list string) :=
  match fuel with
  | O => Raise OutOfFuel
  | S fuel =>
      r ← foldM (resolve_abort internal) (op, []) request_ids;
      let '(op, internal_req_ids) := r in
      foldM (λ acc request_id,
        let '(op, aborted) := acc in
        match op_request_states op !! request_id with
        | Some s =>
            op ← abort_output s (op_with_states op (delete request_id (op_request_states op)));
            Ok (op, aborted ++ [request_id])
        | None =>
            if bool_decide (request_id ∈ op_parent_requests op) then
              match op_parents op !! request_id with
              | None => Raise KeyError
              | Some p =>
                  r ← (if bool_decide (pr_child_requests p = ∅) then Ok (op, [])
                       else op_abort_requests fuel (set_order (elements (pr_child_requests p))) true op);
                  let '(op, child_reqs) := r in
                  Ok (op_with_parents op (op_parent_requests op ∖ {[request_id]}) (op_parents op), aborted ++ child_reqs)
              end
            else Ok (op, aborted)
        end) (op, []) internal_req_ids
  end.

(** ** [process_outputs] *)

(** Steps 2 and 3: the text and the log probabilities; a stop string changes the reason. *)
Definition update_texts (c : CoreOutput) (s : RequestState)
    : res (RequestState * option FinishReason * option OutputStop) :=
  let finish_reason := eco_finish_reason (cor_output c) in
  let stop_reason := EngineStop <$> eco_stop_reason (cor_output c) in
  match cor_pooling_output c with
  | Some _ => Ok (s, finish_reason, stop_reason)
  | None =>
      match rs_detokenizer s, rs_logprobs s with
      | Some d, Some logprobs =>
          let '(d, stop_string) := detok_update decode_next (eco_new_token_ids (cor_output c)) (bool_decide (finish_reason = Some STOP)) d in
          logprobs ← match cor_new_logprobs c, logprobs with
                     | None, _ => Ok logprobs
                     | Some _, None => Raise AssertionError
                     | Some new, Some old => Ok (Some (old ++ new))
                     end;
          let s := rs_with_detok s (Some d) (Some logprobs) (rs_sent_tokens_offset s) in
          Ok (match stop_string with
              | Some (x :: l) => (s, Some STOP, Some (MatchedString (x :: l)))
              | _ => (s, finish_reason, stop_reason)
              end)
      | _, _ => Raise AssertionError
      end
  end.

(** The end of a request that finished, or the next chunk of a streamed input. *)
Definition free_completed (c : CoreOutput) (s : RequestState) (op : OutputProcessor) (aborts : list string)
    : res (OutputProcessor * list string) :=
  let put s := op_with_states op (<[rs_request_id s := s]> (op_request_states op)) in
  if rs_streaming_input s then
    match rs_input_chunk_queue s with
    | Some (update :: chunks) =>
        Ok (put (apply_streaming_update update (rs_with_stream s (rs_streaming_input s) (Some chunks))), aborts)
    | _ => Ok (put (rs_with_stream s (rs_streaming_input s) None), aborts)
    end
  else
    op ← _finish_request s op;
    Ok (op, if is_some (eco_finish_reason (cor_output c)) then aborts else aborts ++ [eco_request_id (cor_output c)]).

(** One round of the loop: the processor, the outputs returned so far and the requests to
    abort in the engine. *)
Definition process_output (acc : OutputProcessor * list ROut * list string) (c : CoreOutput)
    : res (OutputProcessor * list ROut * list string) :=
  let '(op, request_outputs, reqs_to_abort) := acc in
  let req_id := eco_request_id (cor_output c) in
  match op_request_states op !! req_id with
  | None => Ok acc
  | Some s =>
      let s := if rs_is_prefilling s then rs_with_prefill s false (default (rs_num_cached_tokens s) (cor_num_cached_tokens c)) else s in
      r ← update_texts c s;
      let '(s, finish_reason, stop_reason) := r in
      r ← make_request_output (eco_new_token_ids (cor_output c)) (cor_pooling_output c) finish_reason stop_reason s (op_parents op);
      let '(s, parents, o) := r in
      let op := op_with_parents (op_with_states op (<[req_id := s]> (op_request_states op))) (op_parent_requests op) parents in
      r ← match o with
          | None => Ok (op, request_outputs)
          | Some o =>
              let o := if rs_streaming_input s then set_finished o false else o in
              match rs_queue s with
              | Some qid => op ← queue_put qid (COutput o) op; Ok (op, request_outputs)
              | None => Ok (op, request_outputs ++ [o])
              end
          end;
      let '(op, request_outputs) := r in
      match finish_reason with
      | None => Ok (op, request_outputs, reqs_to_abort)
      | Some _ => r ← free_completed c s op reqs_to_abort; let '(op, aborts) := r in Ok (op, request_outputs, aborts)
      end
  end.

Definition process_outputs (outputs : list CoreOutput) (op : OutputProcessor) : res (OutputProcessor * list ROut * list string) :=
  foldM process_output (op, [], []) outputs.

(** ** [LLMEngine.add_request] *)

Definition cr_with_id (r : CoreRequest) (id : string) : CoreRequest :=
  {| cr_request_id := id; cr_external_req_id := cr_external_req_id r; cr_prompt_token_ids := cr_prompt_token_ids r;
     cr_prompt_embeds_len := cr_prompt_embeds_len r; cr_sampling := cr_sampling r; cr_pooling := cr_pooling r;
     cr_resumable := cr_resumable r |}.

(** One child of a parent that is in the store. *)
Definition add_child (new_decoder : option (list Z) → St) (slow : bool) (stream_interval : Z) (request : CoreRequest)
    (op : OutputProcessor) (idx : Z) : res OutputProcessor :=
  match op_parents op !! cr_request_id request with
  | None => Raise KeyError
  | Some p =>
      let '(p, (request_id, _)) := get_child_info idx p in
      op_add_request new_decoder slow stream_interval (cr_with_id request request_id) (Some (cr_request_id request)) idx None
        (op_with_parents op (op_parent_requests op) (<[cr_request_id request := p]> (op_parents op)))
  end.

(** The front end's part of adding a request with [n] samples; the requests also go to
    the engine core. *)
Definition llm_add_request (new_decoder : option (list Z) → St) (slow : bool) (stream_interval : Z) (request : CoreRequest)
    (params : option ParallelParams) (op : OutputProcessor) : res OutputProcessor :=
  match params with
  | Some sp =>
      if bool_decide (pp_n sp = 1) then op_add_request new_decoder slow stream_interval request None 0 None op
      else
        p ← ParentRequest_init (cr_request_id request) (cr_external_req_id request) sp;
        foldM (add_child new_decoder slow stream_interval request)
          (op_with_parents op (op_parent_requests op) (<[cr_request_id request := p]> (op_parents op))) (zrange 0 (pp_n sp))
  | None => op_add_request new_decoder slow stream_interval request None 0 None op
  end.
End Processor.
Arguments RequestState : clear implicits.
Arguments OutputProcessor : clear implicits.
