(* ===== verification/OutputSpec.v ===== *)
(** * What the output processor delivers

    The invariant of the synchronous front end ([LLMEngine]) over the requests it is given
    and the outputs of the engine it processes: nothing raises, and ids and parents are
    kept exactly while a request of them runs ([output_processor_safe]). *)

From S2P Require Import Prelude NumPy PyFloat Request RequestQueue SchedUtils Scheduler Detokenizer ParallelSampling OutputProcessor.

(** ** The states of the synchronous front end *)

Section Safe.
Context {St : Type} (decode_next : St → list Z → Z → St * text).

(** A request of [LLMEngine]: no collector, no streamed input. *)
Record rs_ok (parents : gmap string ParentRequest) (id : string) (s : RequestState St) : Prop := {
  rk_id : rs_request_id s = id;
  rk_queue : rs_queue s = None;
  rk_stream : rs_streaming_input s = false;
  rk_parts : is_some (rs_detokenizer s) = is_some (rs_logprobs s);
  rk_prompt : ∃ l, shown_prompt s = Ok l;
  rk_interval : rs_stream_interval s ≤ 1 ∨ is_some (rs_detokenizer s) = true;
  rk_parent : ∀ pid, rs_parent_req s = Some pid → is_some (rs_detokenizer s) = true ∧
    ∃ p, parents !! pid = Some p ∧ id ∈ pr_child_requests p ∧
      (pp_output_kind (pr_sampling_params p) = FINAL_ONLY → 0 ≤ rs_request_index s < zlen (pr_output_aggregator p));
}.

(** The request asks for log probabilities. *)
Definition wants_logprobs (s : RequestState St) : bool := match rs_logprobs s with Some (Some _) => true | _ => false end.

(** What the handling of an output leaves unchanged in a state. *)
Record rs_same (s s' : RequestState St) : Prop := {
  sm_id : rs_request_id s' = rs_request_id s;
  sm_ext : rs_external_req_id s' = rs_external_req_id s;
  sm_parent : rs_parent_req s' = rs_parent_req s;
  sm_index : rs_request_index s' = rs_request_index s;
  sm_kind : rs_output_kind s' = rs_output_kind s;
  sm_prompt : shown_prompt s' = shown_prompt s;
  sm_queue : rs_queue s' = rs_queue s;
  sm_interval : rs_stream_interval s' = rs_stream_interval s;
  sm_stream : rs_streaming_input s' = rs_streaming_input s;
  sm_detok : is_some (rs_detokenizer s') = is_some (rs_detokenizer s);
  sm_logprobs : is_some (rs_logprobs s') = is_some (rs_logprobs s);
  sm_wants : wants_logprobs s' = wants_logprobs s;
}.

#[export] Instance rs_same_refl : Reflexive rs_same.
Proof. intros s. by split. Qed.
#[export] Instance rs_same_trans : Transitive rs_same.
Proof. intros s1 s2 s3 [] []. split; congruence. Qed.

Lemma rs_ok_same parents id s s' : rs_same s s' → rs_ok parents id s → rs_ok parents id s'.
Proof.
  intros [] [? ? ? ? [l ?] ? Hp]. split; try congruence; [exists l; congruence|].
  rewrite sm_parent0 sm_detok0 sm_index0. exact Hp.
Qed.

(** A child and its parent after an output of the child. *)
Definition parent_step (id : string) (finished : bool) (p p' : ParentRequest) : Prop :=
  pr_request_id p' = pr_request_id p ∧ pr_sampling_params p' = pr_sampling_params p ∧
  zlen (pr_output_aggregator p') = zlen (pr_output_aggregator p) ∧
  pr_child_requests p' = if finished then pr_child_requests p ∖ {[id]} else pr_child_requests p.

Lemma parent_get_outputs_ok id c p :
  id ∈ pr_child_requests p →
  (pp_output_kind (pr_sampling_params p) = FINAL_ONLY → 0 ≤ co_index c < zlen (pr_output_aggregator p)) →
  ∃ p' outs fin, parent_get_outputs id c p = Ok (p', outs, fin) ∧ parent_step id (co_finished c) p p'.
Proof.
  intros Hin Hidx. unfold parent_get_outputs, parent_step. rewrite (bool_decide_true (id ∈ _)); [|done]. rewrite andb_true_r.
  destruct (decide (pp_output_kind (pr_sampling_params p) = FINAL_ONLY)) as [Hk|Hk].
  - rewrite bool_decide_false; [|naive_solver]. rewrite np_store_ok; [|by apply Hidx]. cbn [mbind res_bind].
    do 3 eexists. split; [done|]. cbn. rewrite zlen_insert. done.
  - rewrite bool_decide_true; [|done]. do 3 eexists. split; [done|]. cbn. done.
Qed.

(** The parents after an output: unchanged, or one step of the request's parent. *)
Definition parents_step (id : string) (s : RequestState St) (finished : bool) (parents parents' : gmap string ParentRequest) : Prop :=
  match rs_parent_req s with
  | None => parents' = parents
  | Some pid => (parents' = parents ∧ finished = false) ∨
      ∃ p p', parents !! pid = Some p ∧ parents' = <[pid := p']> parents ∧ parent_step id finished p p'
  end.

Lemma through_parent_ok parents id s output finished :
  rs_ok parents id s → co_index output = rs_request_index s → co_finished output = finished →
  ∃ parents' r, through_parent output finished s parents = Ok (parents', r) ∧ parents_step id s finished parents parents' ∧
    ∀ ext outs fin, r = Some (ext, outs, fin) → outs ≠ [].
Proof.
  intros Hs Hidx Hfin. unfold through_parent, parents_step. destruct (rs_parent_req s) as [pid|] eqn:Ep.
  - destruct (rk_parent _ _ _ Hs pid Ep) as (_ & p & Hp & Hin & Hr). rewrite Hp.
    destruct (parent_get_outputs_ok id output p Hin) as (p' & outs & fin & E & Hstep); [by rewrite Hidx|].
    rewrite (rk_id _ _ _ Hs) E. cbn [mbind res_bind]. do 2 eexists. split; [done|]. rewrite -Hfin. split.
    + right. by exists p, p'.
    + intros ext outs' fin'. destruct outs; cbn; [done|]. by intros [= <- <- <-].
  - do 2 eexists. split; [done|]. split; [done|]. by intros ext outs fin [= <- <- <-].
Qed.

Lemma new_completion_ok parents id s toks finish stop :
  rs_ok parents id s → is_some (rs_detokenizer s) = true →
  ∃ s' out, _new_completion_output toks finish stop s = Ok (s', out) ∧ rs_same s s' ∧
    co_index out = rs_request_index s ∧ co_finish_reason out = finish.
Proof.
  intros Hs Hd. pose proof (rk_parts _ _ _ Hs) as Hparts. rewrite Hd in Hparts. unfold _new_completion_output.
  destruct (rs_detokenizer s) as [d|] eqn:Ed; [|done]. destruct (rs_logprobs s) as [lp|] eqn:El; [|done].
  destruct (get_next_output_text (is_some finish) (bool_decide (rs_output_kind s = DELTA)) d) as [d2 txt].
  do 2 eexists. split; [done|]. split; [|done]. split; unfold wants_logprobs; cbn; try done; by rewrite ?Ed ?El.
Qed.

Lemma make_request_output_ok parents id s new pooling finish stop :
  rs_ok parents id s → is_some pooling = negb (is_some (rs_detokenizer s)) →
  ∃ s' parents' o, make_request_output new pooling finish stop s parents = Ok (s', parents', o) ∧ rs_same s s' ∧
    parents_step id s (is_some finish) parents parents'.
Proof.
  intros Hs Hpool. unfold make_request_output.
  assert (is_some finish = false → parents_step id s (is_some finish) parents parents) as Hstay.
  { intros ->. unfold parents_step. destruct (rs_parent_req s); [by left|done]. }
  destruct (negb (is_some finish) && _) eqn:Ef.
  { apply andb_true_iff in Ef as [Ef _]. apply negb_true_iff in Ef. do 3 eexists. split; [done|]. split; [done|]. by apply Hstay. }
  clear Ef.
  assert (∃ step, (if bool_decide (1 < rs_stream_interval s) then
              match rs_detokenizer s with
              | None => Raise AssertionError
              | Some d =>
                  if negb (is_some finish || bool_decide (rs_sent_tokens_offset s = 0) ||
                           bool_decide (rs_stream_interval s ≤ num_output_tokens d - rs_sent_tokens_offset s))
                  then Ok None
                  else if bool_decide (rs_output_kind s = DELTA)
                  then Ok (Some (py_slice_from (output_token_ids d) (rs_sent_tokens_offset s), num_output_tokens d))
                  else Ok (Some (new, rs_sent_tokens_offset s))
              end
            else Ok (Some (new, rs_sent_tokens_offset s))) = Ok step ∧ (step = None → is_some finish = false)) as (step & -> & Hnone).
  { case_bool_decide as Hi; [|by eexists]. destruct (rk_interval _ _ _ Hs) as [?|Hd]; [lia|].
    destruct (rs_detokenizer s) as [d|]; [|done]. destruct (negb (is_some finish || _ || _)) eqn:En.
    - eexists. split; [done|]. intros _. apply negb_true_iff in En. destruct (is_some finish); [by cbn in En|done].
    - destruct (bool_decide (rs_output_kind s = DELTA)); by eexists. }
  cbn [mbind res_bind]. destruct step as [[toks off]|]; [|do 3 eexists; split; [done|]; split; [done|]; by apply Hstay, Hnone].
  set (s1 := rs_with_detok s (rs_detokenizer s) (rs_logprobs s) off). assert (rs_same s s1) as Hsame by (by split).
  pose proof (rs_ok_same _ _ _ _ Hsame Hs) as Hs1. destruct (rk_prompt _ _ _ Hs1) as [prompt Hprompt].
  destruct pooling as [data|].
  - unfold _new_request_output. rewrite Hprompt. cbn [mbind res_bind]. do 3 eexists. split; [done|]. split; [done|].
    unfold parents_step. destruct (rs_parent_req s) as [pid|] eqn:Ep; [|done].
    destruct (rk_parent _ _ _ Hs pid Ep) as [Hd _]. rewrite Hd in Hpool. done.
  - cbn in Hpool. symmetry in Hpool. apply negb_false_iff in Hpool.
    destruct (new_completion_ok parents id s1 toks finish stop Hs1 Hpool) as (s2 & out & -> & Hsame12 & Hidx & Hfr). cbn [mbind res_bind].
    assert (rs_same s s2) as Hsame2 by (by etransitivity). pose proof (rs_ok_same _ _ _ _ Hsame2 Hs) as Hs2.
    destruct (through_parent_ok parents id s2 out (is_some finish) Hs2) as (parents' & r & -> & Hstep & Hne);
      [by rewrite Hidx (sm_index _ _ Hsame2)|by rewrite /co_finished Hfr|].
    cbn [mbind res_bind]. rewrite /parents_step (sm_parent _ _ Hsame2) in Hstep.
    destruct r as [[[ext outs] fin]|]; [|do 3 eexists; split; [done|]; by split].
    specialize (Hne _ _ _ eq_refl). unfold _new_request_output. destruct (rk_prompt _ _ _ Hs2) as [prompt2 ->]. cbn [mbind res_bind].
    destruct outs as [|o outs]; [done|]. rewrite -(rk_parts _ _ _ Hs2) (sm_detok _ _ Hsame2) Hpool. cbn. do 3 eexists. split; [done|]. by split.
Qed.

Lemma rs_ok_parents id s fin parents parents' id' s' :
  parents_step id s fin parents parents' → (id' ≠ id ∨ fin = false) → rs_ok parents id' s' → rs_ok parents' id' s'.
Proof.
  intros Hstep Hne [? ? ? ? ? ? Hp]. split; [done..|]. intros pid Hpid. destruct (Hp pid Hpid) as (Hd & p & Hpp & Hin & Hr). split; [done|].
  unfold parents_step in Hstep. destruct (rs_parent_req s) as [pid0|]; [|subst parents'; by exists p].
  destruct Hstep as [[-> _]|(p0 & p1 & Hp0 & -> & Hid & Hsp & Hl & Hch)]; [by exists p|].
  destruct (decide (pid = pid0)) as [->|]; [|exists p; by rewrite lookup_insert_ne].
  rewrite Hp0 in Hpp. injection Hpp as ->. exists p1. rewrite lookup_insert_eq Hsp Hl Hch. split; [done|]. split; [|done].
  destruct fin; [|done]. set_solver.
Qed.

(** The output of the engine fits the request: pooled data for a pooling request, log
    probabilities only when they were asked for. *)
Definition core_ok (c : CoreOutput) (s : RequestState St) : Prop :=
  is_some (cor_pooling_output c) = negb (is_some (rs_detokenizer s)) ∧ (is_some (cor_new_logprobs c) = true → wants_logprobs s = true).

Lemma update_texts_ok parents id s c :
  rs_ok parents id s → core_ok c s →
  ∃ s' finish stop, update_texts decode_next c s = Ok (s', finish, stop) ∧ rs_same s s' ∧
    (is_some (eco_finish_reason (cor_output c)) = true → is_some finish = true).
Proof.
  intros Hs [Hpool Hlp]. unfold update_texts. destruct (cor_pooling_output c) as [data|].
  { do 3 eexists. split; [done|]. done. }
  symmetry in Hpool. apply negb_false_iff in Hpool. pose proof (rk_parts _ _ _ Hs) as Hparts. rewrite Hpool in Hparts.
  unfold wants_logprobs in Hlp.
  destruct (rs_detokenizer s) as [d|] eqn:Ed; [|done]. destruct (rs_logprobs s) as [lp|] eqn:El; [|done].
  destruct (detok_update decode_next (eco_new_token_ids (cor_output c)) (bool_decide (eco_finish_reason (cor_output c) = Some STOP)) d) as [d' st].
  assert (∃ lp', match cor_new_logprobs c, lp with None, _ => Ok lp | Some _, None => Raise AssertionError | Some new, Some old => Ok (Some (old ++ new)) end = Ok lp' ∧
    is_some lp' = is_some lp) as (lp' & -> & Hlp').
  { destruct (cor_new_logprobs c) as [new|]; [|by exists lp]. destruct lp as [old|]; [by eexists|]. by specialize (Hlp eq_refl). }
  cbn [mbind res_bind].
  assert (rs_same s (rs_with_detok s (Some d') (Some lp') (rs_sent_tokens_offset s))) as Hsame.
  { split; unfold wants_logprobs; cbn; try done; rewrite ?Ed ?El //. }
  destruct st as [[|x l]|]; do 3 eexists; (split; [done|]); by split.
Qed.

(** ** The invariant *)

Record op_ok (op : OutputProcessor St) : Prop := {
  ok_states : ∀ id s, op_request_states op !! id = Some s → rs_ok (op_parents op) id s ∧
    id ∈ default [] (op_external_req_ids op !! rs_external_req_id s) ∧
    (∀ pid, rs_parent_req s = Some pid → pid ∈ op_parent_requests op);
  ok_ext : ∀ ext ids, op_external_req_ids op !! ext = Some ids → ids ≠ [] ∧ NoDup ids ∧
    ∀ id, id ∈ ids → ∃ s, op_request_states op !! id = Some s ∧ rs_external_req_id s = ext;
  ok_parents : ∀ pid, pid ∈ op_parent_requests op → ∃ p, op_parents op !! pid = Some p ∧ pr_child_requests p ≠ ∅ ∧
    ∀ c, c ∈ pr_child_requests p → ∃ s, op_request_states op !! c = Some s ∧ rs_parent_req s = Some pid;
}.

(** Nothing is kept of requests that are gone. *)
Lemma op_ok_no_leak op : op_ok op → op_request_states op = ∅ → op_external_req_ids op = ∅ ∧ op_parent_requests op = ∅.
Proof.
  intros [_ He Hp] E. split.
  - apply map_eq. intros ext. rewrite lookup_empty. destruct (op_external_req_ids op !! ext) as [ids|] eqn:Ei; [|done].
    destruct (He ext ids Ei) as (Hne & _ & Hin). destruct ids as [|id ids]; [done|]. destruct (Hin id ltac:(left)) as (s & Hs & _).
    by rewrite E lookup_empty in Hs.
  - apply leibniz_equiv. intros pid. split; [|set_solver]. intros Hpid. destruct (Hp pid Hpid) as (p & _ & Hne & Hch).
    apply set_choose_L in Hne as [c Hc]. destruct (Hch c Hc) as (s & Hs & _). by rewrite E lookup_empty in Hs.
Qed.

Lemma forget_ok ext id (op : OutputProcessor St) ids :
  op_external_req_ids op !! ext = Some ids → NoDup ids → id ∈ ids →
  ∃ m, forget_internal_id ext id op = Ok (op_with_ids op m) ∧
    (∀ e, e ≠ ext → m !! e = op_external_req_ids op !! e) ∧
    (m !! ext = None ∧ (∀ x, x ∈ ids → x = id) ∨
     ∃ ids', m !! ext = Some ids' ∧ ids' ≠ [] ∧ NoDup ids' ∧ ∀ x, x ∈ ids' ↔ x ∈ ids ∧ x ≠ id).
Proof.
  intros Hids Hnd Hin. unfold forget_internal_id. rewrite Hids. change (default [] (Some ids)) with ids.
  destruct (list_remove_first ids id) as [ids'|] eqn:E.
  2:{ by apply list_remove_first_None in E. }
  apply list_remove_first_perm in E. rewrite E in Hnd. apply NoDup_cons in Hnd as [Hni Hnd].
  eexists. split; [done|]. split.
  - intros e He. destruct (is_nil ids'); [by rewrite lookup_delete_ne|by rewrite lookup_insert_ne].
  - destruct ids' as [|y ids']; cbn [is_nil].
    + left. rewrite lookup_delete_eq. split; [done|]. intros x Hx. rewrite E in Hx. by apply list_elem_of_singleton in Hx.
    + right. exists (y :: ids'). rewrite lookup_insert_eq. split_and!; [done..|]. intros x. rewrite E (elem_of_cons (y :: ids') x id). split.
      * intros Hx. split; [by right|]. by intros ->.
      * intros [[->|Hx] Hne]; done.
Qed.

(** The processor after the output of a request that goes on. *)
Lemma op_ok_continue op id s s' parents' :
  op_ok op → op_request_states op !! id = Some s → rs_same s s' → parents_step id s false (op_parents op) parents' →
  op_ok (op_with_parents (op_with_states op (<[id := s']> (op_request_states op))) (op_parent_requests op) parents').
Proof.
  intros [Hst He Hp] Hs Hsame Hstep. split; cbn.
  - intros id' t. destruct (decide (id' = id)) as [->|Hne].
    + rewrite lookup_insert_eq. intros [= <-]. destruct (Hst id s Hs) as (Hok & Hin & Hpid).
      rewrite (sm_ext _ _ Hsame) (sm_parent _ _ Hsame). split_and!; [|done..].
      eapply rs_ok_parents; [done|by right|]. by eapply rs_ok_same.
    + rewrite lookup_insert_ne //. intros Ht. destruct (Hst id' t Ht) as (Hok & Hin & Hpid). split_and!; [|done..].
      eapply rs_ok_parents; [done|by left|done].
  - intros ext ids Hids. destruct (He ext ids Hids) as (Hne & Hnd & Hin). split_and!; [done..|]. intros id' Hid'.
    destruct (Hin id' Hid') as (t & Ht & Hte). destruct (decide (id' = id)) as [->|].
    + exists s'. rewrite lookup_insert_eq. split; [done|]. rewrite (sm_ext _ _ Hsame). congruence.
    + exists t. by rewrite lookup_insert_ne.
  - intros pid Hpid. destruct (Hp pid Hpid) as (p & Hpp & Hne & Hch).
    assert (∃ p', parents' !! pid = Some p' ∧ pr_child_requests p' = pr_child_requests p) as (p' & Hp' & Hcp).
    { unfold parents_step in Hstep. destruct (rs_parent_req s) as [pid0|]; [|subst; by exists p].
      destruct Hstep as [[-> _]|(p0 & p1 & Hp0 & -> & _ & _ & _ & Hcc)]; [by exists p|].
      destruct (decide (pid = pid0)) as [->|]; [|exists p; by rewrite lookup_insert_ne]. exists p1. rewrite lookup_insert_eq. split; [done|]. congruence. }
    exists p'. rewrite Hcp. split_and!; [done..|]. intros c Hc. destruct (Hch c Hc) as (t & Ht & Htp).
    destruct (decide (c = id)) as [->|]; [|exists t; by rewrite lookup_insert_ne].
    exists s'. rewrite lookup_insert_eq (sm_parent _ _ Hsame). split; [done|]. congruence.
Qed.

(** The processor without a request: its ids are forgotten ([m]) and its parent has one
    child less, or is forgotten with its last one ([names]). *)
Lemma op_ok_finish op id s parents' m names q ids :
  op_ok op → op_request_states op !! id = Some s → parents_step id s true (op_parents op) parents' →
  op_external_req_ids op !! rs_external_req_id s = Some ids →
  (∀ e, e ≠ rs_external_req_id s → m !! e = op_external_req_ids op !! e) →
  (m !! rs_external_req_id s = None ∧ (∀ x, x ∈ ids → x = id) ∨
   ∃ ids', m !! rs_external_req_id s = Some ids' ∧ ids' ≠ [] ∧ NoDup ids' ∧ ∀ x, x ∈ ids' ↔ x ∈ ids ∧ x ≠ id) →
  (∀ pid, pid ∈ names ↔ pid ∈ op_parent_requests op ∧
     ¬ (rs_parent_req s = Some pid ∧ ∃ p, parents' !! pid = Some p ∧ pr_child_requests p = ∅)) →
  op_ok {| op_request_states := delete id (op_request_states op); op_parent_requests := names; op_external_req_ids := m;
           op_parents := parents'; op_queues := q |}.
Proof.
  intros [Hst He Hp] Hs Hstep Eids Hother Hm Hnames. split; cbn.
  - intros id' t Ht. apply lookup_delete_Some in Ht as [Hne Ht]. destruct (Hst id' t Ht) as (Hok & Hin & Hpid).
    split; [eapply rs_ok_parents; [done|left; congruence|done]|]. split.
    + destruct (decide (rs_external_req_id t = rs_external_req_id s)) as [Ee|Ene]; [|by rewrite Hother].
      rewrite Ee Eids in Hin. cbn in Hin. rewrite Ee. destruct Hm as [[_ Hall]|(ids' & -> & _ & _ & Hids')]; [by rewrite (Hall id' Hin) in Hne|].
      cbn. apply Hids'. split; congruence.
    + intros pid Htp. apply Hnames. split; [by apply Hpid|]. intros [_ (p & Hpp & Hemp)].
      assert (rs_ok parents' id' t) as Hok' by (eapply rs_ok_parents; [done|left; congruence|done]).
      destruct (rk_parent _ _ _ Hok' pid Htp) as (_ & p' & Hp' & Hc & _). rewrite Hpp in Hp'. injection Hp' as <-. rewrite Hemp in Hc. set_solver.
  - intros ext l Hl. destruct (decide (ext = rs_external_req_id s)) as [->|Hne].
    + destruct Hm as [[Hn _]|(ids' & Hl' & Hne' & Hnd' & Hids')]; [congruence|]. rewrite Hl' in Hl. injection Hl as <-.
      split_and!; [done..|]. intros x [Hx Hxid]%Hids'. destruct (He _ ids Eids) as (_ & _ & Hall). destruct (Hall x Hx) as (t & Ht & Hte).
      exists t. rewrite lookup_delete_ne //.
    + rewrite Hother // in Hl. destruct (He ext l Hl) as (Hne' & Hnd' & Hall). split_and!; [done..|]. intros x Hx.
      destruct (Hall x Hx) as (t & Ht & Hte). exists t. rewrite lookup_delete_ne //. intros <-. rewrite Hs in Ht. injection Ht as <-. done.
  - intros pid [Hpid Hkeep]%Hnames. destruct (Hp pid Hpid) as (p & Hpp & Hne & Hch).
    unfold parents_step in Hstep. destruct (decide (rs_parent_req s = Some pid)) as [Esp|Esp].
    + rewrite Esp in Hstep. destruct Hstep as [[_ ?]|(p0 & p1 & Hp0 & -> & _ & _ & _ & Hcc)]; [done|].
      rewrite Hp0 in Hpp. injection Hpp as ->. exists p1. rewrite lookup_insert_eq in Hkeep |- *. split; [done|]. split.
      * intros Hemp. apply Hkeep. split; [done|]. by exists p1.
      * intros c Hc. rewrite Hcc in Hc. destruct (Hch c) as (t & Ht & Htp); [set_solver|]. exists t. rewrite lookup_delete_ne //. set_solver.
    + assert (parents' !! pid = Some p) as Hp'.
      { destruct (rs_parent_req s) as [pid0|]; [|by subst]. destruct Hstep as [[-> _]|(p0 & p1 & _ & -> & _)]; [done|].
        rewrite lookup_insert_ne //. congruence. }
      exists p. split_and!; [done..|]. intros c Hc. destruct (Hch c Hc) as (t & Ht & Htp). exists t.
      rewrite lookup_delete_ne //. intros <-. rewrite Hs in Ht. injection Ht as <-. done.
Qed.

(** The processor after the last output of a request. *)
Lemma finish_request_ok op id s s' parents' :
  op_ok op → op_request_states op !! id = Some s → rs_same s s' → parents_step id s true (op_parents op) parents' →
  ∃ op', _finish_request s' (op_with_parents (op_with_states op (<[id := s']> (op_request_states op))) (op_parent_requests op) parents') = Ok op' ∧
    op_ok op' ∧ op_request_states op' = delete id (op_request_states op).
Proof.
  intros Hop Hs Hsame Hstep. pose proof Hop as [Hst He Hp]. destruct (Hst id s Hs) as (Hok & Hin & Hpid). unfold _finish_request. cbn.
  rewrite (sm_id _ _ Hsame) (rk_id _ _ _ Hok) (sm_ext _ _ Hsame) (sm_parent _ _ Hsame).
  rewrite bool_decide_true; [|apply elem_of_dom; rewrite lookup_insert_eq; by eexists].
  destruct (op_external_req_ids op !! rs_external_req_id s) as [ids|] eqn:Eids; [|by apply not_elem_of_nil in Hin].
  destruct (He _ ids Eids) as (_ & Hnd & Hids). rewrite delete_insert_eq.
  match goal with |- context [forget_internal_id _ _ ?o] => destruct (forget_ok (rs_external_req_id s) id o ids Eids Hnd Hin) as (m & -> & Hother & Hm) end.
  cbn [mbind res_bind op_with_ids op_with_states op_with_parents op_parents op_request_states op_parent_requests op_external_req_ids op_queues] in Hother |- *.
  destruct (rs_parent_req s) as [pid|] eqn:Ep.
  - pose proof Hstep as Hstep'. unfold parents_step in Hstep'. rewrite Ep in Hstep'.
    destruct Hstep' as [[_ ?]|(p0 & p1 & Hp0 & -> & _ & _ & _ & Hcc)]; [done|]. rewrite lookup_insert_eq.
    eexists. split; [done|]. case_bool_decide as Hemp; (split; [|done]).
    + eapply op_ok_finish; [done..|]. intros pid'. rewrite Ep. cbn. split.
      * intros [? ?]%elem_of_difference. split; [done|]. intros [[= <-] _]. set_solver.
      * intros [? Hno]. apply elem_of_difference. split; [done|]. rewrite elem_of_singleton. intros ->. apply Hno. split; [done|].
        exists p1. by rewrite lookup_insert_eq.
    + eapply op_ok_finish; [done..|]. intros pid'. rewrite Ep. cbn. split; [|naive_solver]. intros ?. split; [done|].
      intros [[= <-] (p & Hpp & Hpe)]. rewrite lookup_insert_eq in Hpp. congruence.
  - eexists. split; [done|]. split; [|done]. eapply op_ok_finish; [done..|]. intros pid'. rewrite Ep. naive_solver.
Qed.

(** Outputs that fit the requests they are for. *)
Definition outputs_fit (op : OutputProcessor St) (cs : list CoreOutput) : Prop :=
  ∀ c s, c ∈ cs → op_request_states op !! eco_request_id (cor_output c) = Some s → core_ok c s.

Lemma core_ok_same c s s' : rs_same s s' → core_ok c s → core_ok c s'.
Proof. intros [] H. unfold core_ok. by rewrite sm_detok0 sm_wants0. Qed.

(** The requests after one output: the others as they were, its own as before or gone. *)
Definition states_step (op op' : OutputProcessor St) (id : string) : Prop :=
  (∀ id', id' ≠ id → op_request_states op' !! id' = op_request_states op !! id') ∧
  (∀ s', op_request_states op' !! id = Some s' → ∃ s, op_request_states op !! id = Some s ∧ rs_same s s').

(** The engine finished the request with this output. *)
Definition finishes (c : CoreOutput) (id : string) : Prop :=
  eco_request_id (cor_output c) = id ∧ is_some (eco_finish_reason (cor_output c)) = true.

(** The requests that are gone after some outputs are those the engine finished and those
    the front end stopped, which the engine is told to abort. *)
Definition gone_exactly (op op' : OutputProcessor St) (cs : list CoreOutput) (aborts aborts' : list string) : Prop :=
  ∃ new, aborts' = aborts ++ new ∧ (∀ id, id ∈ new → is_Some (op_request_states op !! id)) ∧
    ∀ id, is_Some (op_request_states op !! id) →
      op_request_states op' !! id = None ↔ (id ∈ new) ∨ ∃ c, c ∈ cs ∧ finishes c id.

Lemma gone_exactly_cons op op1 op2 c cs aborts aborts1 aborts2 :
  (∀ id, is_Some (op_request_states op1 !! id) → is_Some (op_request_states op !! id)) →
  (∀ id, is_Some (op_request_states op2 !! id) → is_Some (op_request_states op1 !! id)) →
  gone_exactly op op1 [c] aborts aborts1 → gone_exactly op1 op2 cs aborts1 aborts2 →
  gone_exactly op op2 (c :: cs) aborts aborts2.
Proof.
  intros Hb1 Hb2 (new1 & -> & Hin1 & Hg1) (new2 & -> & Hin2 & Hg2). exists (new1 ++ new2).
  split; [by rewrite app_assoc|]. split.
  { intros id [?|?]%elem_of_app; [by apply Hin1|by apply Hb1, Hin2]. }
  intros id Hid. rewrite elem_of_app. specialize (Hg1 id Hid).
  assert ((∃ c', c' ∈ c :: cs ∧ finishes c' id) ↔ (∃ c', c' ∈ [c] ∧ finishes c' id) ∨ ∃ c', c' ∈ cs ∧ finishes c' id) as ->.
  { split.
    - intros (c' & [->|Hc]%elem_of_cons & Hf); [left; exists c; split; [left|done]|right; by exists c'].
    - intros [(c' & ->%list_elem_of_singleton & Hf)|(c' & Hc & Hf)]; [exists c; split; [left|done]|exists c'; split; [by right|done]]. }
  destruct (op_request_states op1 !! id) as [s1|] eqn:E1.
  - rewrite (Hg2 id); [|by exists s1]. assert (¬ (id ∈ new1 ∨ ∃ c', c' ∈ [c] ∧ finishes c' id)) as Hno by (intros H; by apply Hg1 in H). tauto.
  - assert (op_request_states op2 !! id = None) as ->; [|tauto].
    destruct (op_request_states op2 !! id) as [s2|] eqn:E2; [|done]. destruct (Hb2 id) as [s1 Hs1]; [by exists s2|congruence].
Qed.

Lemma process_output_ok op outs aborts c :
  op_ok op → outputs_fit op [c] →
  ∃ op' outs' aborts', process_output decode_next (op, outs, aborts) c = Ok (op', outs', aborts') ∧ op_ok op' ∧
    states_step op op' (eco_request_id (cor_output c)) ∧ gone_exactly op op' [c] aborts aborts' ∧
    (is_some (eco_finish_reason (cor_output c)) = true → op_request_states op' !! eco_request_id (cor_output c) = None).
Proof.
  intros Hop Hfit. unfold process_output. set (id := eco_request_id (cor_output c)).
  destruct (op_request_states op !! id) as [s|] eqn:Es.
  2:{ do 3 eexists. split; [done|]. split; [done|]. split; [split; [done|intros s' Hs'; congruence]|]. split; [|by rewrite Es].
      exists []. rewrite app_nil_r. split; [done|]. split; [by intros id' ?%not_elem_of_nil|]. intros id' [s' Hs']. rewrite Hs'. split; [done|].
      intros [?%not_elem_of_nil|(c' & ->%list_elem_of_singleton & Hid' & _)]; [done|]. change (id = id') in Hid'. congruence. }
  destruct (ok_states _ Hop id s Es) as (Hok & _ & _).
  set (s0 := if rs_is_prefilling s then _ else s).
  assert (rs_same s s0) as Hsame0 by (unfold s0; destruct (rs_is_prefilling s); by split). clearbody s0.
  pose proof (rs_ok_same _ _ _ _ Hsame0 Hok) as Hok0.
  assert (core_ok c s0) as Hc0 by (eapply core_ok_same; [done|]; apply Hfit; [left|done]).
  destruct (update_texts_ok _ _ s0 c Hok0 Hc0) as (s1 & finish & stop & -> & Hsame1 & Hfin). cbn [mbind res_bind].
  assert (rs_same s s1) as Hsame1' by (by etransitivity). pose proof (rs_ok_same _ _ _ _ Hsame1' Hok) as Hok1.
  destruct (make_request_output_ok (op_parents op) id s1 (eco_new_token_ids (cor_output c)) (cor_pooling_output c) finish stop Hok1)
    as (s2 & parents' & o & -> & Hsame2 & Hstep).
  { rewrite (sm_detok _ _ Hsame1). apply Hc0. }
  cbn [mbind res_bind]. assert (rs_same s s2) as Hsame by (by etransitivity).
  assert (parents_step id s (is_some finish) (op_parents op) parents') as Hstep'.
  { unfold parents_step in Hstep |- *. by rewrite (sm_parent _ _ Hsame1') in Hstep. }
  rewrite (sm_stream _ _ Hsame) (sm_queue _ _ Hsame) (rk_stream _ _ _ Hok) (rk_queue _ _ _ Hok).
  set (op1 := op_with_parents _ _ _).
  assert (∃ outs1, match o with None => Ok (op1, outs) | Some o0 => Ok (op1, outs ++ [o0]) end = Ok (op1, outs1)) as [outs1 ->] by (destruct o; by eexists).
  cbn [mbind res_bind]. destruct finish as [f|].
  - unfold free_completed. rewrite (sm_stream _ _ Hsame) (rk_stream _ _ _ Hok).
    destruct (finish_request_ok op id s s2 parents' Hop Es Hsame Hstep') as (op' & E & Hop' & Hst'). unfold op1. rewrite E. cbn [mbind res_bind].
    do 3 eexists. split; [done|]. split; [done|]. split; [split|split; [|by rewrite Hst' lookup_delete_eq]].
    + intros id' Hne. by rewrite Hst' lookup_delete_ne.
    + intros s'. by rewrite Hst' lookup_delete_eq.
    + exists (if is_some (eco_finish_reason (cor_output c)) then [] else [id]). split; [destruct (is_some _); by rewrite ?app_nil_r|]. split.
      * intros id'. destruct (is_some _); [by intros ?%not_elem_of_nil|]. intros ->%list_elem_of_singleton. by exists s.
      * intros id' [t Ht]. rewrite Hst' lookup_delete_None Ht. unfold finishes. destruct (is_some (eco_finish_reason (cor_output c))) eqn:Ef.
        { split; [intros [Hi|?]; [|done]; right; exists c; split; [left|by split]|].
          intros [?%not_elem_of_nil|(c' & ->%list_elem_of_singleton & Hid' & _)]; [done|]. by left. }
        { rewrite list_elem_of_singleton. split; [intros [Hi|?]; [|done]; by left|].
          intros [Hi|(c' & ->%list_elem_of_singleton & _ & Hf)]; [by left|congruence]. }
  - do 3 eexists. split; [done|]. split; [by eapply op_ok_continue|]. split; [|split].
    + split; [intros id' Hne; by apply lookup_insert_ne|]. intros s'. cbn. rewrite lookup_insert_eq. intros [= <-]. by exists s.
    + exists []. rewrite app_nil_r. split; [done|]. split; [by intros id' ?%not_elem_of_nil|]. intros id' [t Ht]. cbn. rewrite lookup_insert_None Ht.
      split; [by intros [? _]|]. intros [?%not_elem_of_nil|(c' & ->%list_elem_of_singleton & _ & Hf)]; [done|]. by specialize (Hfin Hf).
    + intros Hf. by specialize (Hfin Hf).
Qed.

Lemma process_outputs_ok op outs aborts cs :
  op_ok op → outputs_fit op cs →
  ∃ op' outs' aborts', foldM (process_output decode_next) (op, outs, aborts) cs = Ok (op', outs', aborts') ∧ op_ok op' ∧
    (∀ id s', op_request_states op' !! id = Some s' → ∃ s, op_request_states op !! id = Some s ∧ rs_same s s') ∧
    gone_exactly op op' cs aborts aborts' ∧
    (∀ c, c ∈ cs → is_some (eco_finish_reason (cor_output c)) = true → op_request_states op' !! eco_request_id (cor_output c) = None).
Proof.
  revert op outs aborts. induction cs as [|c cs IH]; intros op outs aborts Hop Hfit.
  { do 3 eexists. split; [done|]. split; [done|]. split; [intros id s' Hs'; by exists s'|]. split; [|by intros c Hc%not_elem_of_nil].
    exists []. rewrite app_nil_r. split; [done|]. split; [by intros id ?%not_elem_of_nil|]. intros id [s Hs]. rewrite Hs. split; [done|].
    by intros [?%not_elem_of_nil|(c & ?%not_elem_of_nil & _)]. }
  destruct (process_output_ok op outs aborts c Hop) as (op1 & outs1 & ab1 & E & Hop1 & [Hoth Hself] & Hex & Hgone).
  { intros c' s Hc'%list_elem_of_singleton. subst. apply Hfit. left. }
  assert (∀ id s1, op_request_states op1 !! id = Some s1 → ∃ s, op_request_states op !! id = Some s ∧ rs_same s s1) as Hback.
  { intros id s1 Hs1. destruct (decide (id = eco_request_id (cor_output c))) as [->|Hne]; [by apply Hself|].
    rewrite Hoth // in Hs1. by exists s1. }
  destruct (IH op1 outs1 ab1 Hop1) as (op2 & outs2 & ab2 & E2 & Hop2 & Hback2 & Hex2 & Hgone2).
  { intros c' s1 Hc' Hs1. destruct (Hback _ _ Hs1) as (s & Hs & Hsame). eapply core_ok_same; [done|]. apply Hfit; [by right|done]. }
  do 3 eexists. cbn [foldM]. rewrite E. cbn [mbind res_bind]. split; [exact E2|]. split; [done|]. split; [|split].
  - intros id s2 Hs2. destruct (Hback2 _ _ Hs2) as (s1 & Hs1 & H12). destruct (Hback _ _ Hs1) as (s & Hs & H01). exists s. split; [done|]. by etransitivity.
  - eapply gone_exactly_cons; [| |exact Hex|exact Hex2].
    + intros id [s1 Hs1]. destruct (Hback _ _ Hs1) as (s & Hs & _). by exists s.
    + intros id [s2 Hs2]. destruct (Hback2 _ _ Hs2) as (s1 & Hs1 & _). by exists s1.
  - intros c' [->|Hc']%elem_of_cons Hf; [|by apply Hgone2]. destruct (op_request_states op2 !! _) as [s2|] eqn:Es2; [|done].
    destruct (Hback2 _ _ Es2) as (s1 & Hs1 & _). rewrite (Hgone Hf) in Hs1. done.
Qed.

(** ** Adding requests *)

Context (new_decoder : option (list Z) → St) (slow : bool) (stream_interval : Z).

(** A request that the front end serves: not resumable (no streamed input), and a pooling
    request only without a stream interval, for which the code raises
    ([pooling_interval_raises] in OutputStream). *)
Record request_fits (r : CoreRequest) : Prop := {
  rf_prompt : ∃ n, prompt_length (cr_prompt_token_ids r) (cr_prompt_embeds_len r) = Ok n;
  rf_ext : ∃ ext, cr_external_req_id r = Some ext;
  rf_kind : is_some (cr_sampling r) = true ∨ is_some (cr_pooling r) = true ∧ stream_interval ≤ 1;
  rf_once : cr_resumable r = false;
}.

Lemma from_new_request_ok r parent idx :
  request_fits r → (is_some parent = true → is_some (cr_sampling r) = true) →
  ∃ s ext, from_new_request new_decoder slow stream_interval r parent idx None = Ok s ∧
    cr_external_req_id r = Some ext ∧ rs_external_req_id s = ext ∧ rs_parent_req s = parent ∧
    ∀ parents, (∀ pid, parent = Some pid → ∃ p, parents !! pid = Some p ∧ cr_request_id r ∈ pr_child_requests p ∧
                  (pp_output_kind (pr_sampling_params p) = FINAL_ONLY → 0 ≤ idx < zlen (pr_output_aggregator p))) →
      rs_ok parents (cr_request_id r) s.
Proof.
  intros [[n Hn] [ext Hext] Hkind Honce] Hpar. unfold from_new_request. rewrite Hn. cbn [mbind res_bind].
  assert (∃ kind detok lp, match cr_sampling r, cr_pooling r with
          | Some (kind, stop, min_tokens, include, wants_logprobs), _ =>
              let ids := if slow : bool then match cr_prompt_token_ids r with Some (x :: l) => x :: l | _ => py_repeat 0 n end else [] in
              Ok (kind, Some (Detokenizer_init ids (if slow then n else 0) stop min_tokens include (new_decoder (cr_prompt_token_ids r))),
                  Some (if wants_logprobs : bool then Some [] else None))
          | None, Some kind => Ok (kind, None, None)
          | None, None => Raise AssertionError
          end = Ok (kind, detok, lp) ∧ is_some detok = is_some lp ∧ is_some detok = is_some (cr_sampling r)) as (kind & detok & lp & -> & Hparts & Hdet).
  { destruct (cr_sampling r) as [[[[[kd st] mt] inc] wl]|]; [by do 3 eexists|]. destruct (cr_pooling r) as [kd|]; [by do 3 eexists|].
    destruct Hkind as [?|[? _]]; done. }
  cbn [mbind res_bind]. rewrite Hext. eexists _, ext. split; [done|]. split_and!; [done..|]. intros parents Hp.
  split; cbn; [done|done|done|done| | |].
  - unfold shown_prompt. cbn. unfold prompt_length in Hn. destruct (cr_prompt_token_ids r); [by eexists|].
    destruct (cr_prompt_embeds_len r); [by eexists|done].
  - rewrite Hdet. destruct Hkind as [?|[_ ?]]; [by right|by left].
  - intros pid ->. rewrite Hdet. split; [by apply Hpar|]. by apply Hp.
Qed.

(** The store and the names of parents when a child of [pid] is added. *)
Definition child_added (op : OutputProcessor St) (id : string) (parent : option string) (parents' : gmap string ParentRequest) (names' : gset string) : Prop :=
  match parent with
  | None => parents' = op_parents op ∧ names' = op_parent_requests op
  | Some pid => names' = op_parent_requests op ∪ {[pid]} ∧
      ∃ p', parents' = <[pid := p']> (op_parents op) ∧ id ∈ pr_child_requests p' ∧
        (∀ c, c ∈ pr_child_requests p' → c = id ∨ ∃ s, op_request_states op !! c = Some s ∧ rs_parent_req s = Some pid) ∧
        (∀ c s, op_request_states op !! c = Some s → rs_parent_req s = Some pid → ∃ p, op_parents op !! pid = Some p ∧
           pr_sampling_params p' = pr_sampling_params p ∧ pr_output_aggregator p' = pr_output_aggregator p ∧
           pr_child_requests p ⊆ pr_child_requests p')
  end.

Lemma op_ok_add op id s ext names' parents' q :
  op_ok op → op_request_states op !! id = None → rs_external_req_id s = ext → rs_ok parents' id s →
  child_added op id (rs_parent_req s) parents' names' →
  op_ok {| op_request_states := <[id := s]> (op_request_states op); op_parent_requests := names';
           op_external_req_ids := <[ext := default [] (op_external_req_ids op !! ext) ++ [id]]> (op_external_req_ids op);
           op_parents := parents'; op_queues := q |}.
Proof.
  intros Hop Hnew <- Hok Hadd. pose proof Hop as [Hst He Hp].
  assert (∀ id' t, op_request_states op !! id' = Some t → rs_ok parents' id' t) as Hold.
  { intros id' t Ht. destruct (Hst id' t Ht) as ([? ? ? ? ? ? Hpar] & _ & _). split; [done..|]. intros pid Htp.
    destruct (Hpar pid Htp) as (Hd & p & Hpp & Hc & Hr). split; [done|]. unfold child_added in Hadd.
    destruct (rs_parent_req s) as [pid0|]; [|destruct Hadd as [-> _]; by exists p].
    destruct Hadd as (_ & p' & -> & _ & _ & Hkeep). destruct (decide (pid = pid0)) as [->|]; [|exists p; by rewrite lookup_insert_ne].
    destruct (Hkeep id' t Ht Htp) as (p0 & Hp0 & Hsp & Hagg & Hsub). rewrite Hpp in Hp0. injection Hp0 as <-.
    exists p'. rewrite lookup_insert_eq Hsp Hagg. split; [done|]. split; [by apply Hsub|done]. }
  assert (op_parent_requests op ⊆ names') as Hsub by (unfold child_added in Hadd; destruct (rs_parent_req s); destruct Hadd as [? ?]; set_solver).
  split; cbn.
  - intros id' t. destruct (decide (id' = id)) as [->|Hne].
    + rewrite lookup_insert_eq. intros [= <-]. split; [done|]. rewrite lookup_insert_eq. split; [cbn; set_solver|].
      intros pid Hpid. unfold child_added in Hadd. rewrite Hpid in Hadd. destruct Hadd as [-> _]. set_solver.
    + rewrite lookup_insert_ne //. intros Ht. destruct (Hst id' t Ht) as (_ & Hin & Hpid). split; [by apply Hold|]. split.
      * destruct (decide (rs_external_req_id t = rs_external_req_id s)) as [<-|Hne']; [|by rewrite lookup_insert_ne].
        rewrite lookup_insert_eq. cbn. set_solver.
      * intros pid Htp. by apply Hsub, Hpid.
  - intros ext ids. destruct (decide (ext = rs_external_req_id s)) as [->|Hne].
    + rewrite lookup_insert_eq. intros [= <-]. split; [by destruct (default [] _)|].
      assert (NoDup (default [] (op_external_req_ids op !! rs_external_req_id s)) ∧ ∀ x, x ∈ default [] (op_external_req_ids op !! rs_external_req_id s) →
        ∃ t, op_request_states op !! x = Some t ∧ rs_external_req_id t = rs_external_req_id s) as [Hnd Hall].
      { destruct (op_external_req_ids op !! rs_external_req_id s) as [l|] eqn:El; cbn; [by apply (He _ _ El)|]. split; [constructor|]. by intros x ?%not_elem_of_nil. }
      split.
      * apply NoDup_app. split; [done|]. split; [|apply NoDup_singleton]. intros x Hx ->%list_elem_of_singleton. destruct (Hall id Hx) as (t & Ht & _). congruence.
      * intros x [Hx| ->%list_elem_of_singleton]%elem_of_app; [|exists s; by rewrite lookup_insert_eq].
        destruct (Hall x Hx) as (t & Ht & Hte). exists t. rewrite lookup_insert_ne //. congruence.
    + rewrite lookup_insert_ne //. intros Hl. destruct (He ext ids Hl) as (Hn & Hnd & Hall). split_and!; [done..|]. intros x Hx.
      destruct (Hall x Hx) as (t & Ht & Hte). exists t. rewrite lookup_insert_ne //. congruence.
  - intros pid Hpid. assert (∀ c t, op_request_states op !! c = Some t → <[id:=s]> (op_request_states op) !! c = Some t) as Hlift.
    { intros c t Ht. rewrite lookup_insert_ne //. congruence. }
    unfold child_added in Hadd. destruct (rs_parent_req s) as [pid0|] eqn:Esp.
    + destruct Hadd as (-> & p' & -> & Hin & Hch & _). destruct (decide (pid = pid0)) as [->|Hne].
      * exists p'. rewrite lookup_insert_eq. split; [done|]. split; [set_solver|]. intros c Hc.
        destruct (Hch c Hc) as [->|(t & Ht & Htp)]; [exists s; by rewrite lookup_insert_eq|exists t; split; [by apply Hlift|done]].
      * destruct (Hp pid) as (p & Hpp & Hnn & Hcc); [set_solver|]. exists p. rewrite lookup_insert_ne //. split_and!; [done..|].
        intros c Hc. destruct (Hcc c Hc) as (t & Ht & Htp). exists t. split; [by apply Hlift|done].
    + destruct Hadd as [-> ->]. destruct (Hp pid Hpid) as (p & Hpp & Hnn & Hcc). exists p. split_and!; [done..|].
      intros c Hc. destruct (Hcc c Hc) as (t & Ht & Htp). exists t. split; [by apply Hlift|done].
Qed.

(** One new request. *)
Lemma op_add_request_ok op r parent idx op0 :
  op_ok op → op_request_states op !! cr_request_id r = None → request_fits r → (is_some parent = true → is_some (cr_sampling r) = true) →
  op_request_states op0 = op_request_states op → op_parent_requests op0 = op_parent_requests op →
  op_external_req_ids op0 = op_external_req_ids op →
  child_added op (cr_request_id r) parent (op_parents op0)
    (match parent with None => op_parent_requests op | Some pid => op_parent_requests op ∪ {[pid]} end) →
  (∀ pid, parent = Some pid → ∃ p, op_parents op0 !! pid = Some p ∧ cr_request_id r ∈ pr_child_requests p ∧
     (pp_output_kind (pr_sampling_params p) = FINAL_ONLY → 0 ≤ idx < zlen (pr_output_aggregator p))) →
  ∃ op' s, op_add_request new_decoder slow stream_interval r parent idx None op0 = Ok op' ∧ op_ok op' ∧
    op_request_states op' = <[cr_request_id r := s]> (op_request_states op) ∧ rs_parent_req s = parent ∧
    op_parents op' = op_parents op0.
Proof.
  intros Hop Hnew Hfit Hpar Es En Ee Hadd Hp. unfold op_add_request. rewrite Es Hnew.
  destruct (from_new_request_ok r parent idx Hfit Hpar) as (s & ext & -> & _ & Hext & Hsp & Hok). cbn [mbind res_bind].
  specialize (Hok (op_parents op0) Hp).
  set (names := match parent with None => _ | Some pid => _ end) in Hadd.
  pose proof (op_ok_add op (cr_request_id r) s ext names (op_parents op0) (op_queues op0) Hop Hnew Hext Hok) as Hres. rewrite Hsp in Hres.
  specialize (Hres Hadd). unfold names in Hres. destruct parent as [pid|]; (eexists _, s; split; [done|]); cbn; rewrite ?Es ?En ?Ee ?Hext.
  - split; [exact Hres|done].
  - rewrite -En in Hres. split; [exact Hres|done].
Qed.

Lemma get_child_info_children i p :
  ∃ p' sp, get_child_info i p = (p', (child_id i (pr_request_id p), sp)) ∧ pr_request_id p' = pr_request_id p ∧
    pr_sampling_params p' = pr_sampling_params p ∧ pr_output_aggregator p' = pr_output_aggregator p ∧
    pr_child_requests p' = pr_child_requests p ∪ {[child_id i (pr_request_id p)]}.
Proof.
  unfold get_child_info, _get_child_sampling_params. cbn. destruct (pr_cached_child_sampling_params p); [by do 2 eexists|].
  destruct (pp_seed (pr_sampling_params p)); by do 2 eexists.
Qed.

(** While the children of [rid] are added: those before [i] are there, the others are not. *)
Record adding (op op' : OutputProcessor St) (rid : string) (n i : Z) : Prop := {
  ad_parent : ∃ p, op_parents op' !! rid = Some p ∧ pr_request_id p = rid ∧
    (pp_output_kind (pr_sampling_params p) = FINAL_ONLY → zlen (pr_output_aggregator p) = n) ∧
    ∀ c, c ∈ pr_child_requests p → ∃ s, op_request_states op' !! c = Some s ∧ rs_parent_req s = Some rid;
  ad_new : ∀ j, i ≤ j < n → op_request_states op' !! child_id j rid = None;
  ad_old : op_request_states op ⊆ op_request_states op';
  ad_ok : op_ok op';
}.

Lemma add_child_ok op op' r n i :
  request_fits r → is_some (cr_sampling r) = true → 0 ≤ i < n → adding op op' (cr_request_id r) n i →
  ∃ op2, add_child new_decoder slow stream_interval r op' i = Ok op2 ∧ adding op op2 (cr_request_id r) n (i + 1).
Proof.
  intros Hfit Hsamp Hi [(p & Hpp & Hpid & Hagg & Hch) Hnew Hold Hop]. unfold add_child. rewrite Hpp.
  destruct (get_child_info_children i p) as (p' & sp & -> & Hid' & Hsp' & Hagg' & Hch'). rewrite Hpid in Hch' |- *.
  set (rid := cr_request_id r) in *. set (cid := child_id i rid) in *.
  assert (∀ c t, op_request_states op' !! c = Some t → rs_parent_req t = Some rid → ∃ p0, op_parents op' !! rid = Some p0 ∧
    pr_sampling_params p' = pr_sampling_params p0 ∧ pr_output_aggregator p' = pr_output_aggregator p0 ∧
    pr_child_requests p0 ⊆ pr_child_requests p') as Hkeep.
  { intros c t _ _. exists p. rewrite Hch'. split_and!; [done..|set_solver]. }
  destruct (op_add_request_ok op' (cr_with_id r cid) (Some rid) i
    (op_with_parents op' (op_parent_requests op') (<[rid := p']> (op_parents op')))) as (op2 & s & E & Hop2 & Est & Hspar & Epar);
    [done|apply Hnew; lia|by destruct Hfit|done|done|done|done| | |].
  { split; [done|]. exists p'. split; [done|]. rewrite Hch'. cbn. split; [set_solver|]. split; [|by rewrite Hch' in Hkeep].
    intros c [Hc|Hc%elem_of_singleton]%elem_of_union; [right; by apply Hch|by left]. }
  { intros pid [= <-]. exists p'. cbn. rewrite lookup_insert_eq Hch' Hsp' Hagg'. split; [done|]. split; [set_solver|].
    intros Hk. rewrite (Hagg Hk). lia. }
  exists op2. split; [exact E|]. cbn in Est, Epar.
  assert (∀ c t, op_request_states op' !! c = Some t → op_request_states op2 !! c = Some t) as Hlift.
  { intros c t Ht. rewrite Est lookup_insert_ne //. intros <-. rewrite Hnew // in Ht. lia. }
  split.
  - exists p'. rewrite Epar lookup_insert_eq Hid' Hsp' Hagg'. split_and!; [done..|]. intros c Hc. rewrite Hch' in Hc.
    apply elem_of_union in Hc as [Hc|Hc%elem_of_singleton].
    + destruct (Hch c Hc) as (t & Ht & Htp). exists t. split; [by apply Hlift|done].
    + subst c. exists s. by rewrite Est lookup_insert_eq.
  - intros j Hj. rewrite Est lookup_insert_ne; [apply Hnew; lia|]. intros Hij%child_id_inj. lia.
  - etransitivity; [exact Hold|]. apply map_subseteq_spec. exact Hlift.
  - done.
Qed.

Lemma add_children_ok op r n l i op' :
  request_fits r → is_some (cr_sampling r) = true → zrange i n = l → 0 ≤ i → adding op op' (cr_request_id r) n i →
  ∃ op2, foldM (add_child new_decoder slow stream_interval r) op' l = Ok op2 ∧ op_ok op2.
Proof.
  intros Hfit Hsamp. revert i op'. induction l as [|j l IH]; intros i op' El Hi Had.
  { exists op'. split; [done|]. apply Had. }
  assert (i < n) as Hin. { assert (j ∈ zrange i n) as Hj by (rewrite El; left). apply elem_of_zrange in Hj. lia. }
  rewrite zrange_cons // in El. injection El as <- El.
  destruct (add_child_ok op op' r n i Hfit Hsamp ltac:(lia) Had) as (op1 & E & Had1). cbn [foldM]. rewrite E. cbn [mbind res_bind].
  apply (IH (i + 1)); [done|lia|done].
Qed.

(** A request that may be added: its ids are new. *)
Record may_add (op : OutputProcessor St) (r : CoreRequest) (params : option ParallelParams) : Prop := {
  ma_fits : request_fits r;
  ma_params : is_some params = is_some (cr_sampling r);
  ma_new : op_request_states op !! cr_request_id r = None;
  ma_samples : ∀ sp, params = Some sp → 1 ≤ pp_n sp;
  ma_children : ∀ sp j, params = Some sp → 0 ≤ j < pp_n sp → op_request_states op !! child_id j (cr_request_id r) = None;
  ma_parent : ∀ id s, op_request_states op !! id = Some s → rs_parent_req s ≠ Some (cr_request_id r);
}.

(** A parent that no request refers to may be replaced. *)
Lemma op_ok_new_parent op rid p :
  op_ok op → (∀ id s, op_request_states op !! id = Some s → rs_parent_req s ≠ Some rid) →
  op_ok (op_with_parents op (op_parent_requests op) (<[rid := p]> (op_parents op))).
Proof.
  intros [Hst He Hp] Hno. split; cbn; [|done|].
  - intros id s Hs. destruct (Hst id s Hs) as ([? ? ? ? ? ? Hpar] & Hin & Hpid). split_and!; [|done..]. split; [done..|].
    intros pid Hsp. destruct (Hpar pid Hsp) as (Hd & q & Hq & Hc). split; [done|]. exists q. rewrite lookup_insert_ne; [done|].
    intros <-. by apply (Hno id s).
  - intros pid Hpid. destruct (Hp pid Hpid) as (q & Hq & Hne & Hch). exists q. rewrite lookup_insert_ne; [done|]. intros <-.
    apply set_choose_L in Hne as [c Hc]. destruct (Hch c Hc) as (s & Hs & Hsp). by apply (Hno c s).
Qed.

Lemma llm_add_request_ok op r params :
  op_ok op → may_add op r params → ∃ op', llm_add_request new_decoder slow stream_interval r params op = Ok op' ∧ op_ok op'.
Proof.
  intros Hop [Hfit Hpar Hnew Hn Hch Hno]. unfold llm_add_request.
  assert (∃ op', op_add_request new_decoder slow stream_interval r None 0 None op = Ok op' ∧ op_ok op') as Hone.
  { destruct (op_add_request_ok op r None 0 op) as (op' & s & E & Hop' & _); [done..|]. by exists op'. }
  destruct params as [sp|]; [|done]. destruct (bool_decide (pp_n sp = 1)); [done|].
  destruct (rf_ext _ Hfit) as [ext Hext]. rewrite Hext. unfold ParentRequest_init. cbn [mbind res_bind].
  set (p := {| pr_request_id := cr_request_id r |}).
  eapply (add_children_ok op r (pp_n sp) _ 0); [done|by rewrite -Hpar|done|lia|]. split; cbn.
  - exists p. rewrite lookup_insert_eq. split_and!; [done..| |].
    + intros Hk. cbn in Hk |- *. rewrite bool_decide_true // zlen_repeat. specialize (Hn sp eq_refl). lia.
    + intros c Hc. cbn in Hc. set_solver.
  - intros j Hj. by apply (Hch sp).
  - done.
  - by apply op_ok_new_parent.
Qed.

(** ** The front end over time *)

Definition op_init : OutputProcessor St :=
  {| op_request_states := ∅; op_parent_requests := ∅; op_external_req_ids := ∅; op_parents := ∅; op_queues := ∅ |}.

Lemma op_ok_init : op_ok op_init.
Proof. split; cbn; intros *; by [rewrite lookup_empty|set_solver]. Qed.

(** Requests are added and the outputs of engine steps are processed, in any order. *)
Inductive fe_reach : OutputProcessor St → Prop :=
  | fe_start : fe_reach op_init
  | fe_add op r params op' :
      fe_reach op → may_add op r params → llm_add_request new_decoder slow stream_interval r params op = Ok op' → fe_reach op'
  | fe_outputs op cs op' outs aborts :
      fe_reach op → outputs_fit op cs → process_outputs decode_next cs op = Ok (op', outs, aborts) → fe_reach op'.

Lemma fe_reach_ok op : fe_reach op → op_ok op.
Proof.
  induction 1 as [|op r params op' _ IH Hadd E|op cs op' outs aborts _ IH Hfit E]; [exact op_ok_init| |].
  - destruct (llm_add_request_ok op r params IH Hadd) as (op2 & E2 & Hok). congruence.
  - destruct (process_outputs_ok op [] [] cs IH Hfit) as (op2 & outs2 & ab2 & E2 & Hok & _). unfold process_outputs in E. congruence.
Qed.

(** A parent is kept exactly while one of its samples runs, and knows exactly which do. *)
Lemma op_ok_parents op pid :
  op_ok op →
  (pid ∈ op_parent_requests op ↔ ∃ id s, op_request_states op !! id = Some s ∧ rs_parent_req s = Some pid) ∧
  (pid ∈ op_parent_requests op → ∃ p, op_parents op !! pid = Some p ∧
     ∀ id, id ∈ pr_child_requests p ↔ ∃ s, op_request_states op !! id = Some s ∧ rs_parent_req s = Some pid).
Proof.
  intros Hop. pose proof (ok_parents _ Hop pid) as Hp. split; [split|].
  - intros (p & _ & Hne & Hch)%Hp. apply set_choose_L in Hne as [c Hc]. exists c. by apply Hch.
  - intros (id & s & Hs & Hpar). by apply (ok_states _ Hop id s Hs).
  - intros (p & Ep & _ & Hch)%Hp. exists p. split; [done|]. intros id. split; [apply Hch|]. intros (s & Hs & Hpar).
    destruct (ok_states _ Hop id s Hs) as (Hok & _ & _). destruct (rk_parent _ _ _ Hok pid Hpar) as (_ & p' & Ep' & Hin & _). congruence.
Qed.

(** C15: the synchronous front end never raises and keeps exactly what the requests need.
    Requests that are not resumable (single, with several samples, or pooling, the latter
    with a stream interval of at most 1) have been added and outputs of the engine that fit
    them have been processed, in any order, without aborts.  Then a request with new ids can be added; any
    further outputs that fit can be processed, for requests that are not known any more as
    well, and the requests that are then gone are exactly those the engine finished and
    those in the returned list, which the engine is to abort; an external id is kept
    exactly while a request of it runs, a parent exactly while a sample of it runs, with
    exactly these samples as its children, so when no request is left neither ids nor
    parents are. *)
Theorem output_processor_safe op :
  fe_reach op →
  (∀ r params, may_add op r params → ∃ op', llm_add_request new_decoder slow stream_interval r params op = Ok op') ∧
  (∀ cs, outputs_fit op cs → ∃ op' outs aborts, process_outputs decode_next cs op = Ok (op', outs, aborts) ∧
     (dom (op_request_states op') ⊆ dom (op_request_states op)) ∧
     (∀ c, c ∈ cs → is_some (eco_finish_reason (cor_output c)) = true → op_request_states op' !! eco_request_id (cor_output c) = None) ∧
     (∀ id, id ∈ aborts → is_Some (op_request_states op !! id)) ∧
     ∀ id, is_Some (op_request_states op !! id) →
       op_request_states op' !! id = None ↔ (id ∈ aborts) ∨ ∃ c, c ∈ cs ∧ finishes c id) ∧
  (∀ ext, is_Some (op_external_req_ids op !! ext) ↔ ∃ id s, op_request_states op !! id = Some s ∧ rs_external_req_id s = ext) ∧
  (∀ pid, pid ∈ op_parent_requests op ↔ ∃ id s, op_request_states op !! id = Some s ∧ rs_parent_req s = Some pid) ∧
  (∀ pid, pid ∈ op_parent_requests op → ∃ p, op_parents op !! pid = Some p ∧
     ∀ id, id ∈ pr_child_requests p ↔ ∃ s, op_request_states op !! id = Some s ∧ rs_parent_req s = Some pid) ∧
  (has_unfinished_requests op = false → op_external_req_ids op = ∅ ∧ op_parent_requests op = ∅).
Proof.
  intros Hreach. pose proof (fe_reach_ok op Hreach) as Hop. split_and!.
  - intros r params Hadd. destruct (llm_add_request_ok op r params Hop Hadd) as (op' & E & _). by exists op'.
  - intros cs Hfit. destruct (process_outputs_ok op [] [] cs Hop Hfit) as (op' & outs & aborts & E & _ & Hback & (new & -> & Hex) & Hgone).
    exists op', outs, new. split; [exact E|]. split; [|by split]. intros id [s' Hs']%elem_of_dom. apply elem_of_dom.
    destruct (Hback id s' Hs') as (s & Hs & _). by exists s.
  - intros ext. split.
    + intros [ids Hids]. destruct (ok_ext _ Hop ext ids Hids) as (Hne & _ & Hall). destruct ids as [|id ids]; [done|].
      exists id. apply Hall. left.
    + intros (id & s & Hs & <-). destruct (ok_states _ Hop id s Hs) as (_ & Hin & _).
      destruct (op_external_req_ids op !! rs_external_req_id s); [by eexists|]. by apply not_elem_of_nil in Hin.
  - intros pid. exact (proj1 (op_ok_parents op pid Hop)).
  - intros pid. exact (proj2 (op_ok_parents op pid Hop)).
  - intros Hun. apply op_ok_no_leak; [done|]. unfold has_unfinished_requests in Hun. apply bool_decide_eq_false in Hun.
    by apply dec_stable.
Qed.
End Safe.

(** *** Concrete requests *)

Definition demo_request (id : string) : CoreRequest :=
  {| cr_request_id := id; cr_external_req_id := Some "x"; cr_prompt_token_ids := Some [1; 2]; cr_prompt_embeds_len := None;
     cr_sampling := Some (FINAL_ONLY, [], 0, false, false); cr_pooling := None; cr_resumable := false |}.

Definition demo_params : ParallelParams := {| pp_n := 2; pp_seed := None; pp_output_kind := FINAL_ONLY |}.

Definition demo_output (id : string) (toks : list Z) (finish : option FinishReason) : CoreOutput :=
  {| cor_output := {| eco_client_index := 0; eco_request_id := id; eco_new_token_ids := toks; eco_finish_reason := finish; eco_stop_reason := None |};
     cor_new_logprobs := None; cor_pooling_output := None; cor_num_cached_tokens := None |}.

Definition demo_op : OutputProcessor unit :=
  match llm_add_request (λ _, tt) false 1 (demo_request "r") (Some demo_params) op_init with Ok op => op | Raise _ => op_init end.

Definition demo_outputs : list CoreOutput := [demo_output "1_r" [1020] (Some STOP); demo_output "0_r" [3040] None; demo_output "5_r" [3040] None].

Lemma demo_may_add : may_add 1 (@op_init unit) (demo_request "r") (Some demo_params).
Proof.
  split; cbn.
  - split; [by exists 2|by exists "x"|by left|done].
  - done.
  - done.
  - by intros sp [= <-].
  - intros sp j _ _. by rewrite lookup_empty.
  - intros id s. by rewrite lookup_empty.
Qed.

Lemma output_processor_safe_witness :
  (∃ op' outs aborts, process_outputs pair_decoder demo_outputs demo_op = Ok (op', outs, aborts) ∧ op_request_states op' !! "1_r" = None) ∧
  "r" ∈ op_parent_requests demo_op.
Proof.
  destruct (output_processor_safe pair_decoder (λ _, tt) false 1 demo_op) as (_ & Hout & _ & Hpar & _).
  - eapply fe_add; [apply fe_start|exact demo_may_add|]. vm_compute. reflexivity.
  - split; [|apply Hpar; exists "0_r"; eexists; split; vm_compute; reflexivity].
    destruct (Hout demo_outputs) as (op' & outs & aborts & E & _ & Hgone & _).
    + intros c s Hc Hs. unfold demo_outputs in Hc. rewrite !elem_of_cons elem_of_nil in Hc. destruct Hc as [->|[->|[->|[]]]]; vm_compute in Hs.
      * injection Hs as <-. by split.
      * injection Hs as <-. by split.
      * discriminate.
    + exists op', outs, aborts. split; [exact E|]. apply (Hgone (demo_output "1_r" [1020] (Some STOP))); [left|done].
Defined.
