(* ===== verification/OutputStream.v ===== *)
(** * A streamed answer is complete

    A request that streams ([DELTA]) through the output processor: whatever the stream
    interval, the tokenizer and the stop strings are, the outputs of the request, put
    together, are its tokens and its text, and exactly the last is marked finished
    ([delta_outputs_complete]).  A collector that merges outputs until the client reads
    them loses nothing ([collector_keeps_outputs]).  In between, what the code does at the
    edges: the interval of cumulative outputs, the log probabilities of an aborted request,
    the parent of aborted samples and a pooling request with an interval. *)

From S2P Require Import Prelude NumPy PyFloat Request RequestQueue SchedUtils Scheduler Detokenizer ParallelSampling OutputProcessor OutputSpec.

(** ** What an output shows *)

Definition out_completion (o : ROut) : list CompletionOutput :=
  match o with RequestOutput _ _ outs _ _ => omap id outs | PoolingRequestOutput _ _ _ _ _ => [] end.
Definition out_tokens (o : ROut) : list Z := concat (co_token_ids <$> out_completion o).
Definition out_text (o : ROut) : text := concat (co_text <$> out_completion o).
Definition out_finished (o : ROut) : bool :=
  match o with RequestOutput _ _ _ f _ => f | PoolingRequestOutput _ _ _ f _ => f end.

Section Delta.
Context {St : Type} (decode_next : St → list Z → Z → St * text).
Implicit Types (s : RequestState St) (d : Detokenizer St).

(** ** Sending does not change what the detokenizer does *)

Lemma update_token_offset d x o tok :
  update_token decode_next (dt_with_offset d x, o) tok =
  let '(d', o') := update_token decode_next (d, o) tok in (dt_with_offset d' x, o').
Proof.
  unfold update_token. cbn [dt_decoder dt_with_offset dt_token_ids]. destruct (decode_next _ _ _) as [dec piece].
  unfold num_output_tokens. cbn. by destruct (_ && _).
Qed.

Lemma update_offset new term d x :
  detok_update decode_next new term (dt_with_offset d x) =
  let '(d', stop) := detok_update decode_next new term d in (dt_with_offset d' x, stop).
Proof.
  unfold detok_update, update_from. destruct (is_nil new); [done|]. cbn [dt_include_stop_str_in_output dt_with_offset dt_output_text].
  set (skip := term && _). set (toks := if skip then _ else new). set (o := zlen (dt_output_text d)).
  assert (∀ d o, foldl (update_token decode_next) (dt_with_offset d x, o) toks =
    let '(d', o') := foldl (update_token decode_next) (d, o) toks in (dt_with_offset d' x, o')) as ->.
  { clearbody toks o. clear. induction toks as [|t toks IH]; intros d o; [done|]. cbn [foldl]. rewrite update_token_offset.
    destruct (update_token _ (d, o) t) as [d1 o1]. apply IH. }
  destruct (foldl _ (d, o) toks) as [d1 o1]. unfold num_output_tokens.
  destruct skip; cbn; (destruct (negb _ && _); [|done]); destruct (check_stop_strings _ _ _ _) as [[p t]|]; [|done| |done];
    by destruct (bool_decide (t ≠ -1)).
Qed.

Lemma detok_run_offset us d x :
  detok_run decode_next us (dt_with_offset d x) =
  let '(d', stop) := detok_run decode_next us d in (dt_with_offset d' x, stop).
Proof.
  revert d. induction us as [|[new term] us IH]; intros d; [done|]. cbn [detok_run]. rewrite update_offset.
  destruct (detok_update _ _ _ d) as [d1 [p|]]; [done|]. apply IH.
Qed.

(** ** One request *)

(** Between outputs: [toks] were sent. *)
Record delta_ok s d (toks : list Z) : Prop := {
  dk_parent : rs_parent_req s = None;
  dk_kind : rs_output_kind s = DELTA;
  dk_detok : rs_detokenizer s = Some d;
  dk_prompt : 0 ≤ dt_prompt_len d ≤ zlen (dt_token_ids d);
  dk_offset : 0 ≤ rs_sent_tokens_offset s ≤ num_output_tokens d;
  dk_sent : toks = if bool_decide (1 < rs_stream_interval s) then take (Z.to_nat (rs_sent_tokens_offset s)) (output_token_ids d)
                   else output_token_ids d;
}.

Lemma output_token_ids_drop d :
  0 ≤ dt_prompt_len d ≤ zlen (dt_token_ids d) → output_token_ids d = drop (Z.to_nat (dt_prompt_len d)) (dt_token_ids d).
Proof.
  intros Hp. unfold output_token_ids. case_bool_decide as H0; [by rewrite H0|]. apply py_slice_from_drop. lia.
Qed.

Lemma zlen_output d : 0 ≤ dt_prompt_len d ≤ zlen (dt_token_ids d) → zlen (output_token_ids d) = num_output_tokens d.
Proof. intros Hp. rewrite output_token_ids_drop // zlen_drop; [|lia]. unfold num_output_tokens. lia. Qed.

(** After the update with [new], before the output. *)
Record pending s d (new toks : list Z) : Prop := {
  pd_parent : rs_parent_req s = None;
  pd_kind : rs_output_kind s = DELTA;
  pd_detok : rs_detokenizer s = Some d;
  pd_prompt : 0 ≤ dt_prompt_len d ≤ zlen (dt_token_ids d);
  pd_offset : 0 ≤ rs_sent_tokens_offset s ≤ num_output_tokens d;
  pd_sent : if bool_decide (1 < rs_stream_interval s) then toks = take (Z.to_nat (rs_sent_tokens_offset s)) (output_token_ids d)
            else toks ++ new = output_token_ids d;
}.

Lemma detok_update_spec new term d txt :
  sent_ok d txt →
  ∃ d' stop, detok_update decode_next new term d = (d', stop) ∧
    dt_prompt_len d' = dt_prompt_len d ∧ dt_token_ids d' = dt_token_ids d ++ new ∧
    txt = take (Z.to_nat (dt_last_output_text_offset d')) (dt_output_text d') ∧
    0 ≤ dt_last_output_text_offset d' ≤ zlen (dt_output_text d') ∧
    (stop = None → sent_ok d' txt) ∧ (stop ≠ Some []).
Proof.
  intros Hs. destruct (update_sent decode_next new term d txt Hs) as (d' & stop & E & H1 & H2 & H3). exists d', stop.
  split; [done|]. unfold detok_update in E.
  destruct (update_from_spec decode_next (zlen (dt_output_text d)) new term d (so_pats _ _ Hs)) as (d1 & o' & stop1 & piece & E1 & Hp & Hid & _ & _ & Hr).
  { pose proof (zlen_nonneg (dt_output_text d)). lia. }
  rewrite E1 in E. injection E as -> ->. injection Hp as Hp _. split_and!; [done..|lia|lia|done|]. intros ->. destruct Hr as (_ & Hin & _).
  pose proof (so_pats _ _ Hs) as Hpat. rewrite Forall_forall in Hpat. specialize (Hpat _ Hin). by cbn in Hpat.
Qed.

Lemma output_ids_app d d' new :
  0 ≤ dt_prompt_len d ≤ zlen (dt_token_ids d) → dt_prompt_len d' = dt_prompt_len d → dt_token_ids d' = dt_token_ids d ++ new →
  output_token_ids d' = output_token_ids d ++ new ∧ num_output_tokens d' = num_output_tokens d + zlen new ∧
  0 ≤ dt_prompt_len d' ≤ zlen (dt_token_ids d').
Proof.
  intros Hp Ep Ei. pose proof (zlen_nonneg new). assert (0 ≤ dt_prompt_len d' ≤ zlen (dt_token_ids d')) as Hp' by (rewrite Ep Ei zlen_app; lia).
  split_and!; [|unfold num_output_tokens; rewrite Ep Ei zlen_app; lia|lia|lia].
  rewrite !output_token_ids_drop // Ep Ei drop_app_le //. unfold zlen in Hp. lia.
Qed.

Lemma delta_pending s d d' lp toks new :
  delta_ok s d toks → dt_prompt_len d' = dt_prompt_len d → dt_token_ids d' = dt_token_ids d ++ new →
  pending (rs_with_detok s (Some d') lp (rs_sent_tokens_offset s)) d' new toks.
Proof.
  intros [Hpar Hk Hd Hp Ho Hs] Ep Ei. destruct (output_ids_app d d' new Hp Ep Ei) as (Eo & En & Hp'). pose proof (zlen_nonneg new).
  split; cbn; [done|done|done|done|lia|]. rewrite Hs. case_bool_decide; [|done]. rewrite Eo take_app_le //.
  rewrite -(zlen_output d) // in Ho. unfold zlen in Ho. lia.
Qed.

Lemma next_text_shape finished delta d :
  ∃ x, (get_next_output_text finished delta d).1 = dt_with_offset d x.
Proof.
  assert (d = dt_with_offset d (dt_last_output_text_offset d)) as Hd by (by destruct d). unfold get_next_output_text.
  destruct (negb delta); [by destruct (bool_decide _); eexists|]. destruct (bool_decide _); by eexists.
Qed.

(** The tokens of the output, and the offset that is stored. *)
Definition delta_tokens s d (new : list Z) : list Z * Z :=
  if bool_decide (1 < rs_stream_interval s) then (py_slice_from (output_token_ids d) (rs_sent_tokens_offset s), num_output_tokens d)
  else (new, rs_sent_tokens_offset s).

Lemma delta_tokens_ok s d new toks :
  pending s d new toks →
  toks ++ (delta_tokens s d new).1 = output_token_ids d ∧
  ∀ x lp, delta_ok (rs_with_detok s (Some (dt_with_offset d x)) lp (delta_tokens s d new).2) (dt_with_offset d x) (toks ++ (delta_tokens s d new).1).
Proof.
  intros [Hpar Hk Hd Hp Ho Hs]. pose proof (zlen_output d Hp) as Hl. unfold delta_tokens.
  assert (toks ++ (if bool_decide (1 < rs_stream_interval s) then (py_slice_from (output_token_ids d) (rs_sent_tokens_offset s), num_output_tokens d)
    else (new, rs_sent_tokens_offset s)).1 = output_token_ids d) as Heq.
  { destruct (bool_decide _); [|done]. cbn. rewrite Hs py_slice_from_drop; [|lia]. apply take_drop. }
  split; [exact Heq|]. intros x lp. rewrite Heq. split; cbn; [done|done|done|done| |].
  - change (num_output_tokens (dt_with_offset d x)) with (num_output_tokens d). destruct (bool_decide _); cbn; lia.
  - change (output_token_ids (dt_with_offset d x)) with (output_token_ids d). destruct (bool_decide _); cbn; [|done].
    rewrite take_ge //. unfold zlen in Hl. lia.
Qed.

(** One output of a request that goes on: the tokens and the text that are sent. *)
Lemma make_delta_more s d new toks txt stop parents lp prompt :
  pending s d new toks → rs_logprobs s = Some lp → shown_prompt s = Ok prompt → sent_ok d txt →
  ∃ s' o x, make_request_output new None None stop s parents = Ok (s', parents, o) ∧
    delta_ok s' (dt_with_offset d x) (toks ++ concat (out_tokens <$> option_list o)) ∧
    sent_ok (dt_with_offset d x) (txt ++ concat (out_text <$> option_list o)) ∧ Forall (λ o, out_finished o = false) (option_list o).
Proof.
  intros Hpend Hlp Hprompt Hsent. pose proof Hpend as [Hpar Hk Hd Hp Ho Hs]. unfold make_request_output. cbn [is_some negb andb]. rewrite Hk Hd.
  assert (∀ txt, sent_ok d txt → sent_ok (dt_with_offset d (dt_last_output_text_offset d)) txt) as Hsame by (intros; by destruct d).
  rewrite (bool_decide_false (DELTA = FINAL_ONLY)) // (bool_decide_true (DELTA = DELTA)) //. cbn [orb andb].
  destruct (bool_decide (1 < rs_stream_interval s) && negb (bool_decide (rs_sent_tokens_offset s = 0) ||
     bool_decide (rs_stream_interval s ≤ num_output_tokens d - rs_sent_tokens_offset s))) eqn:Ehold.
  { apply andb_true_iff in Ehold as [Ei Eh]. rewrite Ei Eh. cbn. exists s, None, (dt_last_output_text_offset d). split; [done|].
    rewrite Ei in Hs. cbn. rewrite !app_nil_r. split_and!; [|by apply Hsame|done].
    assert (dt_with_offset d (dt_last_output_text_offset d) = d) as -> by (by destruct d). split; [done..|]. by rewrite Ei. }
  destruct (delta_tokens_ok s d new toks Hpend) as [Htoks Hok].
  match goal with |- context [mbind _ ?e] => assert (e = Ok (Some (delta_tokens s d new))) as -> end.
  { unfold delta_tokens. destruct (bool_decide (1 < rs_stream_interval s)); [|done]. cbn in Ehold. by rewrite Ehold. }
  cbn [mbind res_bind]. destruct (delta_tokens s d new) as [ts off]. unfold _new_completion_output. cbn [rs_with_detok rs_detokenizer rs_logprobs rs_output_kind].
  rewrite Hlp Hk (bool_decide_true (DELTA = DELTA)) //. cbn [is_some].
  destruct (send_some d txt Hsent) as (d2 & t & Et & Hsent2). destruct (next_text_shape false true d) as [x Ex]. rewrite Et in Ex. cbn in Ex. subst d2.
  rewrite Et. cbn [mbind res_bind]. unfold through_parent. cbn [rs_with_detok rs_parent_req]. rewrite Hpar. cbn [mbind res_bind].
  unfold _new_request_output. change (shown_prompt (rs_with_detok _ _ _ _)) with (shown_prompt s). rewrite Hprompt. cbn.
  eexists _, _, x. split; [done|]. cbn. unfold out_tokens, out_text. cbn. rewrite !app_nil_r. split_and!; [apply Hok|done|by repeat constructor].
Qed.

(** The last output of a request. *)
Lemma make_delta_last s d new toks txt f stop parents lp prompt :
  pending s d new toks → rs_logprobs s = Some lp → shown_prompt s = Ok prompt →
  txt = take (Z.to_nat (dt_last_output_text_offset d)) (dt_output_text d) → 0 ≤ dt_last_output_text_offset d ≤ zlen (dt_output_text d) →
  ∃ s' o, make_request_output new None (Some f) stop s parents = Ok (s', parents, Some o) ∧
    toks ++ out_tokens o = output_token_ids d ∧ txt ++ out_text o = dt_output_text d ∧ out_finished o = true.
Proof.
  intros Hpend Hlp Hprompt Htxt Hoff. pose proof Hpend as [Hpar Hk Hd Hp Ho Hs]. unfold make_request_output. cbn [is_some negb andb]. rewrite Hk Hd.
  rewrite (bool_decide_true (DELTA = DELTA)) //. cbn [orb negb].
  destruct (delta_tokens_ok s d new toks Hpend) as [Htoks _].
  match goal with |- context [mbind _ ?e] => assert (e = Ok (Some (delta_tokens s d new))) as -> end.
  { unfold delta_tokens. by destruct (bool_decide (1 < rs_stream_interval s)). }
  cbn [mbind res_bind]. destruct (delta_tokens s d new) as [ts off]. unfold _new_completion_output. cbn [rs_with_detok rs_detokenizer rs_logprobs rs_output_kind].
  rewrite Hlp Hk (bool_decide_true (DELTA = DELTA)) //. cbn [is_some].
  destruct (send_rest d txt Htxt Hoff) as (d2 & t & Et & Hrest). destruct (next_text_shape true true d) as [x Ex]. rewrite Et in Ex. cbn in Ex. subst d2.
  rewrite Et. cbn [mbind res_bind]. unfold through_parent. cbn [rs_with_detok rs_parent_req]. rewrite Hpar. cbn [mbind res_bind].
  unfold _new_request_output. change (shown_prompt (rs_with_detok _ _ _ _)) with (shown_prompt s). rewrite Hprompt. cbn.
  eexists _, _. split; [done|]. cbn. unfold out_tokens, out_text. cbn. rewrite !app_nil_r. split_and!; done.
Qed.

(** ** The run of a request *)

Definition core_update (c : CoreOutput) : list Z * bool :=
  (eco_new_token_ids (cor_output c), bool_decide (eco_finish_reason (cor_output c) = Some STOP)).

(** Why the request ends with this output, if it does. *)
Definition final_reason (c : CoreOutput) (stop : option text) : option FinishReason :=
  match stop with Some _ => Some STOP | None => eco_finish_reason (cor_output c) end.

Lemma update_texts_delta parents id s d toks txt c :
  rs_ok parents id s → core_ok c s → delta_ok s d toks → sent_ok d txt →
  ∃ d' lp stop reason, detok_update decode_next (core_update c).1 (core_update c).2 d = (d', stop) ∧
    update_texts decode_next c s = Ok (rs_with_detok s (Some d') (Some lp) (rs_sent_tokens_offset s), final_reason c stop, reason) ∧
    pending (rs_with_detok s (Some d') (Some lp) (rs_sent_tokens_offset s)) d' (core_update c).1 toks ∧
    txt = take (Z.to_nat (dt_last_output_text_offset d')) (dt_output_text d') ∧
    0 ≤ dt_last_output_text_offset d' ≤ zlen (dt_output_text d') ∧ (stop = None → sent_ok d' txt).
Proof.
  intros Hs [Hpool Hlp] Hdelta Hsent. pose proof (rk_parts _ _ _ Hs) as Hparts. pose proof (dk_detok _ _ _ Hdelta) as Hd.
  rewrite Hd in Hparts Hpool. cbn in Hparts, Hpool. destruct (rs_logprobs s) as [lp|] eqn:El; [|done].
  destruct (detok_update_spec (core_update c).1 (core_update c).2 d txt Hsent) as (d' & stop & E & Ep & Ei & Htxt & Hoff & Hok & Hne).
  assert (∃ lp', match cor_new_logprobs c, lp with None, _ => Ok lp | Some _, None => Raise AssertionError | Some new, Some old => Ok (Some (old ++ new)) end = Ok lp') as [lp' Elp].
  { unfold wants_logprobs in Hlp. rewrite El in Hlp. destruct (cor_new_logprobs c) as [new|], lp as [old|]; [by eexists..|by specialize (Hlp eq_refl)|by eexists|by eexists]. }
  exists d', lp', stop, (match stop with Some x => Some (MatchedString x) | None => EngineStop <$> eco_stop_reason (cor_output c) end).
  split; [exact E|]. split; [|split; [by eapply delta_pending|done]].
  unfold update_texts. destruct (cor_pooling_output c); [done|]. rewrite Hd El. cbn [core_update fst snd] in E. rewrite E Elp. cbn [mbind res_bind].
  destruct stop as [[|x l]|]; done.
Qed.

(** One output of the engine for the request: it goes on ([Some s']) or is gone. *)
Lemma process_delta op id s d toks txt c outs aborts :
  op_ok op → op_request_states op !! id = Some s → eco_request_id (cor_output c) = id → core_ok c s →
  delta_ok s d toks → sent_ok d txt →
  ∃ op' new_outs aborts' d' stop, process_output decode_next (op, outs, aborts) c = Ok (op', outs ++ new_outs, aborts') ∧ op_ok op' ∧
    detok_update decode_next (core_update c).1 (core_update c).2 d = (d', stop) ∧
    match final_reason c stop with
    | None => ∃ s' x, op_request_states op' !! id = Some s' ∧ rs_same s s' ∧
        delta_ok s' (dt_with_offset d' x) (toks ++ concat (out_tokens <$> new_outs)) ∧
        sent_ok (dt_with_offset d' x) (txt ++ concat (out_text <$> new_outs)) ∧ Forall (λ o, out_finished o = false) new_outs
    | Some _ => op_request_states op' !! id = None ∧ ∃ o, new_outs = [o] ∧
        toks ++ out_tokens o = output_token_ids d' ∧ txt ++ out_text o = dt_output_text d' ∧ out_finished o = true
    end.
Proof.
  intros Hop Es Hid Hcore Hdelta Hsent. unfold process_output. rewrite Hid Es. destruct (ok_states _ Hop id s Es) as (Hok & _ & _).
  set (s0 := if rs_is_prefilling s then _ else s).
  assert (rs_same s s0 ∧ delta_ok s0 d toks) as [Hsame0 Hdelta0].
  { unfold s0. destruct (rs_is_prefilling s); [|done]. destruct Hdelta. split; by split. }
  clearbody s0. pose proof (rs_ok_same _ _ _ _ Hsame0 Hok) as Hok0. pose proof (core_ok_same c _ _ Hsame0 Hcore) as Hcore0.
  destruct (update_texts_delta _ _ s0 d toks txt c Hok0 Hcore0 Hdelta0 Hsent) as (d' & lp & stop & reason & Eu & Et & Hpend & Htxt & Hoff & Hs').
  destruct (update_texts_ok decode_next _ _ s0 c Hok0 Hcore0) as (s1 & fin & st & Et' & Hsame1 & _).
  rewrite Et in Et'. injection Et' as <- <- <-. rewrite Et. cbn [mbind res_bind].
  set (s1 := rs_with_detok s0 _ _ _) in *. assert (rs_same s s1) as Hsame01 by (by etransitivity).
  assert (rs_logprobs s1 = Some lp) as Hlp by done. clearbody s1.
  pose proof (rs_ok_same _ _ _ _ Hsame01 Hok) as Hok1. destruct (rk_prompt _ _ _ Hok1) as [prompt Hprompt].
  pose proof Hcore0 as [Hpool _]. rewrite (dk_detok _ _ _ Hdelta0) in Hpool. destruct (cor_pooling_output c) as [data|] eqn:Epool; [done|]. clear Hpool.
  destruct (make_request_output_ok (op_parents op) id s1 (core_update c).1 None (final_reason c stop) reason Hok1)
    as (s2 & parents' & o & Em & Hsame2 & Hstep); [by rewrite (pd_detok _ _ _ _ Hpend)|].
  assert (rs_same s s2) as Hsame by (by etransitivity). change (eco_new_token_ids (cor_output c)) with (core_update c).1. rewrite Em. cbn [mbind res_bind].
  rewrite (sm_stream _ _ Hsame) (sm_queue _ _ Hsame) (rk_stream _ _ _ Hok) (rk_queue _ _ _ Hok).
  assert (parents_step id s (is_some (final_reason c stop)) (op_parents op) parents') as Hstep'.
  { unfold parents_step in Hstep |- *. by rewrite (sm_parent _ _ Hsame01) in Hstep. }
  set (op1 := op_with_parents _ _ _).
  assert (match o with None => Ok (op1, outs) | Some o0 => Ok (op1, outs ++ [o0]) end = Ok (op1, outs ++ option_list o)) as ->.
  { destruct o; [done|]. cbn. by rewrite app_nil_r. }
  cbn [mbind res_bind]. destruct (final_reason c stop) as [f|] eqn:Ef.
  - destruct (make_delta_last s1 d' (core_update c).1 toks txt f reason (op_parents op) lp prompt Hpend Hlp Hprompt Htxt Hoff)
      as (s3 & o3 & Em' & H1 & H2 & H3). rewrite Em in Em'. injection Em' as <- -> ->.
    unfold free_completed. rewrite (sm_stream _ _ Hsame) (rk_stream _ _ _ Hok).
    destruct (finish_request_ok op id s s2 (op_parents op) Hop Es Hsame Hstep') as (op' & E & Hop' & Hst'). unfold op1. rewrite E. cbn [mbind res_bind].
    do 5 eexists. split; [done|]. split; [done|]. split; [exact Eu|]. rewrite Ef. split; [by rewrite Hst' lookup_delete_eq|]. by exists o3.
  - assert (stop = None) as -> by (by destruct stop).
    destruct (make_delta_more s1 d' (core_update c).1 toks txt reason (op_parents op) lp prompt Hpend Hlp Hprompt (Hs' eq_refl))
      as (s3 & o3 & x & Em' & H1 & H2 & H3). rewrite Em in Em'. injection Em' as <- -> ->.
    do 5 eexists. split; [done|]. split; [by eapply op_ok_continue|]. split; [exact Eu|]. rewrite Ef. exists s2, x.
    split; [cbn; by rewrite lookup_insert_eq|done].
Qed.

(** Outputs of a request that is gone change nothing. *)
Lemma process_gone op outs aborts id cs :
  op_request_states op !! id = None → Forall (λ c, eco_request_id (cor_output c) = id) cs →
  foldM (process_output decode_next) (op, outs, aborts) cs = Ok (op, outs, aborts).
Proof.
  intros Hno. induction cs as [|c cs IH]; intros Hids; [done|]. apply Forall_cons in Hids as [Hc Hids].
  cbn [foldM]. unfold process_output. rewrite Hc Hno. cbn [mbind res_bind]. by apply IH.
Qed.

(** The outputs of the engine for one request, of which the last finishes it. *)
Fixpoint ends_with_finish (cs : list CoreOutput) : Prop :=
  match cs with
  | [] => False
  | [c] => is_some (eco_finish_reason (cor_output c)) = true
  | c :: cs => eco_finish_reason (cor_output c) = None ∧ ends_with_finish cs
  end.

Lemma delta_run op id s d toks txt cs outs aborts :
  op_ok op → op_request_states op !! id = Some s → Forall (λ c, eco_request_id (cor_output c) = id ∧ core_ok c s) cs →
  delta_ok s d toks → sent_ok d txt → ends_with_finish cs →
  ∃ op' news last aborts' d' stop, foldM (process_output decode_next) (op, outs, aborts) cs = Ok (op', outs ++ news ++ [last], aborts') ∧
    op_request_states op' !! id = None ∧ detok_run decode_next (core_update <$> cs) d = (d', stop) ∧
    toks ++ concat (out_tokens <$> news ++ [last]) = output_token_ids d' ∧
    txt ++ concat (out_text <$> news ++ [last]) = dt_output_text d' ∧
    Forall (λ o, out_finished o = false) news ∧ out_finished last = true.
Proof.
  revert op s d toks txt outs aborts. induction cs as [|c cs IH]; intros op s d toks txt outs aborts Hop Es Hcs Hdelta Hsent Hends; [done|].
  apply Forall_cons in Hcs as [[Hid Hcore] Hcs].
  destruct (process_delta op id s d toks txt c outs aborts Hop Es Hid Hcore Hdelta Hsent) as (op1 & news & ab1 & d1 & stop & E & Hop1 & Eu & Hcase).
  cbn [foldM]. rewrite E. cbn [mbind res_bind]. rewrite fmap_cons. destruct (core_update c) as [new term] eqn:Ec. cbn [detok_run fst snd] in Eu |- *. rewrite Eu.
  destruct (final_reason c stop) as [f|] eqn:Ef.
  - destruct Hcase as (Hgone & o & -> & Ht & Hx & Hf).
    rewrite (process_gone op1 _ _ id); [|done|eapply Forall_impl; [exact Hcs|]; by intros ? [? _]].
    assert (∃ d' stop', match stop with None => detok_run decode_next (core_update <$> cs) d1 | Some _ => (d1, stop) end = (d', stop') ∧ d' = d1) as (d' & stop' & -> & ->).
    { destruct stop as [p|]; [by do 2 eexists|]. cbn in Ef. destruct cs as [|c' cs]; [by do 2 eexists|]. destruct Hends as [Hn _]. congruence. }
    exists op1, [], o. do 3 eexists. split; [done|]. split; [done|]. split; [done|]. cbn. rewrite !app_nil_r. done.
  - destruct Hcase as (s1 & x & Es1 & Hsame & Hd1 & Hs1 & Hf). assert (stop = None) as -> by (by destruct stop). cbn in Ef.
    destruct cs as [|c' cs]; [cbn in Hends; by rewrite Ef in Hends|]. destruct Hends as [_ Hends].
    destruct (λ H, IH op1 s1 _ _ _ (outs ++ news) ab1 Hop1 Es1 H Hd1 Hs1 Hends) as (op2 & news2 & last & ab2 & d2 & stop2 & E2 & Hgone & Er & Ht & Hx & Hf2 & Hl).
    { eapply Forall_impl; [exact Hcs|]. intros c0 [? ?]. split; [done|]. by eapply core_ok_same. }
    rewrite detok_run_offset in Er. destruct (detok_run decode_next (core_update <$> c' :: cs) d1) as [d3 stop3]. injection Er as <- <-.
    exists op2, (news ++ news2), last. do 3 eexists. split; [rewrite E2 -!app_assoc //|]. split; [done|]. split; [done|].
    rewrite -app_assoc !(fmap_app _ news) !concat_app !app_assoc. rewrite -> Ht, Hx. split_and!; [done..| |done]. by apply Forall_app.
Qed.

(** The updates that are used: all of them, or those up to the first that finds a stop
    string, whose tokens the detokenizer then has. *)
Definition used_updates (used rest : list CoreOutput) d0 d (stopped : option text) : Prop :=
  detok_run decode_next (core_update <$> used) d0 = (d, stopped) ∧
  match stopped with
  | None => rest = []
  | Some _ => ∃ before c, used = before ++ [c] ∧ (detok_run decode_next (core_update <$> before) d0).2 = None
  end.

Lemma detok_run_tokens cs d d' stop :
  Forall (λ pat, 1 ≤ zlen pat) (dt_stop d) → 0 ≤ dt_prompt_len d ≤ zlen (dt_token_ids d) → detok_run decode_next (core_update <$> cs) d = (d', stop) →
  ∃ used rest, cs = used ++ rest ∧ used_updates used rest d d' stop ∧
    output_token_ids d' = output_token_ids d ++ concat (core_update <$> used).*1.
Proof.
  revert d. induction cs as [|c cs IH]; intros d Hpat Hp E.
  { injection E as <- <-. exists [], []. split; [done|]. split; [by split|]. cbn. by rewrite app_nil_r. }
  rewrite fmap_cons in E. destruct (core_update c) as [new term] eqn:Ec. cbn [detok_run] in E. unfold detok_update in E.
  destruct (update_from_spec decode_next (zlen (dt_output_text d)) new term d Hpat) as (d1 & o' & stop1 & piece & E1 & Hpar & Hid & _).
  { pose proof (zlen_nonneg (dt_output_text d)). lia. }
  rewrite E1 in E. injection Hpar as Hp1 Hp2 _. destruct (output_ids_app d d1 new Hp Hp1 Hid) as (Eo & _ & Hp').
  assert (∀ cs, detok_run decode_next (core_update <$> c :: cs) d = match stop1 with None => detok_run decode_next (core_update <$> cs) d1 | Some _ => (d1, stop1) end) as Estep.
  { intros cs0. rewrite fmap_cons Ec. cbn [detok_run]. unfold detok_update. by rewrite E1. }
  destruct stop1 as [p|].
  - injection E as <- <-. exists [c], cs. split; [done|]. split; [split; [by rewrite Estep|by exists [], c]|]. by rewrite fmap_cons Ec /= app_nil_r Eo.
  - destruct (IH d1) as (used & rest & -> & [Hr Hm] & Ek); [by rewrite Hp2|done|done|]. exists (c :: used), rest. split; [done|]. split.
    + split; [by rewrite Estep|]. destruct stop; [|done]. destruct Hm as (before & c' & -> & Hb). exists (c :: before), c'. by rewrite Estep.
    + rewrite Ek Eo !fmap_cons Ec /= app_assoc. done.
Qed.

Context (new_decoder : option (list Z) → St) (slow : bool) (stream_interval : Z).

(** The state of a new request that streams. *)
Lemma new_delta_request r n stop min_tokens include wants :
  prompt_length (cr_prompt_token_ids r) (cr_prompt_embeds_len r) = Ok n → 0 ≤ n →
  cr_sampling r = Some (DELTA, stop, min_tokens, include, wants) → Forall (λ pat, 1 ≤ zlen pat) stop →
  ∀ s, from_new_request new_decoder slow stream_interval r None 0 None = Ok s →
  ∃ d, rs_detokenizer s = Some d ∧ delta_ok s d [] ∧ sent_ok d [] ∧ output_token_ids d = [] ∧ dt_stop d = stop ∧ wants_logprobs s = wants.
Proof.
  intros Hn Hn0 Hsamp Hpat s E. unfold from_new_request in E. rewrite Hn Hsamp in E. cbn [mbind res_bind] in E.
  destruct (cr_external_req_id r) as [ext|]; [|done]. injection E as <-. eexists. split; [done|].
  set (prompt := if slow then match cr_prompt_token_ids r with Some (x :: l) => x :: l | _ => py_repeat 0 n end else []).
  assert ((if slow then n else 0) = zlen prompt) as Hlen.
  { unfold prompt. destruct slow; [|done]. unfold prompt_length in Hn. destruct (cr_prompt_token_ids r) as [[|x l]|].
    - rewrite zlen_repeat. lia.
    - destruct (cr_prompt_embeds_len r); [destruct (bool_decide _); [done|]|]; by injection Hn.
    - rewrite zlen_repeat. lia. }
  fold prompt. set (d := Detokenizer_init _ _ _ _ _ _).
  assert (output_token_ids d = []) as Hout.
  { rewrite output_token_ids_drop; cbn; rewrite Hlen; [|pose proof (zlen_nonneg prompt); lia]. apply drop_ge. unfold zlen. lia. }
  split_and!; [| |exact Hout|done|by destruct wants].
  - split; cbn; [done|done|done|rewrite Hlen; pose proof (zlen_nonneg prompt); lia|unfold num_output_tokens; cbn; rewrite Hlen; lia|].
    rewrite Hout. by destruct (bool_decide _).
  - unfold d. rewrite Hlen. by apply init_sent_ok.
Qed.

(** C16: a streamed answer is complete.  A request with one sample and [DELTA] outputs that
    is added to the front end gets, over the engine's outputs up to the one that finishes
    it, a list of outputs of which exactly the last is marked finished; their tokens, put
    together, are the tokens of the engine up to and including the first update that finds
    a stop string (all of them when there is none: [used_updates]), and their texts are the
    final text of the detokenizer on those updates; the request is then forgotten.  This
    holds for any tokenizer, stop strings, log probabilities and stream interval. *)
Theorem delta_outputs_complete op r sp n stop min_tokens include wants op1 cs :
  fe_reach decode_next new_decoder slow stream_interval op → may_add stream_interval op r (Some sp) → pp_n sp = 1 →
  prompt_length (cr_prompt_token_ids r) (cr_prompt_embeds_len r) = Ok n → 0 ≤ n →
  cr_sampling r = Some (DELTA, stop, min_tokens, include, wants) → Forall (λ pat, 1 ≤ zlen pat) stop →
  llm_add_request new_decoder slow stream_interval r (Some sp) op = Ok op1 →
  Forall (λ c, eco_request_id (cor_output c) = cr_request_id r ∧ cor_pooling_output c = None ∧
               (is_some (cor_new_logprobs c) = true → wants = true)) cs → ends_with_finish cs →
  ∃ s d0 d stopped op2 news last aborts used rest,
    op_request_states op1 !! cr_request_id r = Some s ∧ rs_detokenizer s = Some d0 ∧
    cs = used ++ rest ∧ used_updates used rest d0 d stopped ∧
    process_outputs decode_next cs op1 = Ok (op2, news ++ [last], aborts) ∧
    concat (out_tokens <$> news ++ [last]) = concat (core_update <$> used).*1 ∧
    concat (out_text <$> news ++ [last]) = dt_output_text d ∧
    Forall (λ o, out_finished o = false) news ∧ out_finished last = true ∧ op_request_states op2 !! cr_request_id r = None.
Proof.
  intros Hreach Hadd Hone Hn Hn0 Hsamp Hpat E Hcs Hends.
  pose proof (fe_reach_ok _ _ _ _ _ (fe_add _ _ _ _ _ _ _ _ Hreach Hadd E)) as Hop1.
  unfold llm_add_request in E. rewrite bool_decide_true // in E. unfold op_add_request in E. rewrite (ma_new _ _ _ _ Hadd) in E.
  destruct (from_new_request new_decoder slow stream_interval r None 0 None) as [s|] eqn:Es; [|done]. cbn in E. injection E as E.
  assert (op_request_states op1 !! cr_request_id r = Some s) as Hs by (rewrite -E /=; apply lookup_insert_eq). clear E.
  destruct (new_delta_request r n stop min_tokens include wants Hn Hn0 Hsamp Hpat s Es) as (d0 & Hd0 & Hdelta & Hsent & Hout & Hst & Hw).
  destruct (delta_run op1 (cr_request_id r) s d0 [] [] cs [] [] Hop1 Hs) as (op2 & news & last & ab & d & stopped & E & Hgone & Er & Ht & Hx & Hf & Hl); [|done..|].
  { eapply Forall_impl; [exact Hcs|]. intros c (? & Hpool & Hlp). split; [done|]. unfold core_ok. by rewrite Hpool Hd0 Hw. }
  destruct (detok_run_tokens cs d0 d stopped) as (used & rest & Ecs & Hu & Ek); [by rewrite Hst|apply Hdelta|done|].
  exists s, d0, d, stopped, op2, news, last, ab, used, rest. rewrite Hout in Ek. cbn in Ek, Ht, Hx. rewrite Ht Hx Ek. by split_and!.
Qed.
End Delta.

(** *** Concrete requests *)

Definition stream_request (id : string) (kind : RequestOutputKind) (stop : list text) (wants : bool) : CoreRequest :=
  {| cr_request_id := id; cr_external_req_id := Some "x"; cr_prompt_token_ids := Some [1; 2]; cr_prompt_embeds_len := None;
     cr_sampling := Some (kind, stop, 0, false, wants); cr_pooling := None; cr_resumable := false |}.

Definition one_sample (kind : RequestOutputKind) : ParallelParams := {| pp_n := 1; pp_seed := None; pp_output_kind := kind |}.

Definition stream_op (kind : RequestOutputKind) (interval : Z) (stop : list text) (wants : bool) : OutputProcessor unit :=
  match llm_add_request (λ _, tt) true interval (stream_request "r" kind stop wants) (Some (one_sample kind)) op_init with
  | Ok op => op | Raise _ => op_init
  end.

Lemma stream_may_add interval kind stop wants : may_add interval (@op_init unit) (stream_request "r" kind stop wants) (Some (one_sample kind)).
Proof.
  split; cbn.
  - split; [by exists 2|by exists "x"|by left|done].
  - done.
  - done.
  - by intros sp [= <-].
  - intros sp j _ _. by rewrite lookup_empty.
  - intros id s. by rewrite lookup_empty.
Qed.

(** The stop string 50 60 40 is completed by the third output. *)
Definition stream_outputs : list CoreOutput :=
  [demo_output "r" [1020] None; demo_output "r" [3040; 5060] None; demo_output "r" [4050] None; demo_output "r" [1010] (Some LENGTH)].

Lemma delta_outputs_complete_witness :
  ∃ used rest (d0 d : Detokenizer unit) stopped op2 news last aborts, stream_outputs = used ++ rest ∧
    used_updates pair_decoder used rest d0 d stopped ∧
    process_outputs pair_decoder stream_outputs (stream_op DELTA 2 [[50; 60; 40]] false) = Ok (op2, news ++ [last], aborts) ∧
    concat (out_tokens <$> news ++ [last]) = concat (core_update <$> used).*1 ∧ concat (out_text <$> news ++ [last]) = dt_output_text d.
Proof.
  destruct (delta_outputs_complete pair_decoder (λ _, tt) true 2 op_init (stream_request "r" DELTA [[50; 60; 40]] false) (one_sample DELTA) 2
    [[50; 60; 40]] 0 false false (stream_op DELTA 2 [[50; 60; 40]] false) stream_outputs)
    as (s & d0 & d & st & op2 & news & last & ab & used & rest & _ & _ & Ecs & Hu & E & Htok & Ht & _).
  - apply fe_start.
  - apply stream_may_add.
  - reflexivity.
  - reflexivity.
  - lia.
  - reflexivity.
  - constructor; [vm_compute; discriminate|constructor].
  - vm_compute. reflexivity.
  - repeat constructor; done.
  - vm_compute. tauto.
  - exists used, rest, d0, d, st, op2, news, last, ab. exact (conj Ecs (conj Hu (conj E (conj Htok Ht)))).
Defined.

(** ** At the edges *)

(** [stream_interval] batches only [DELTA] outputs.  A request with [CUMULATIVE] outputs
    and an interval of 10 sends one output per token: the offset of the tokens that were
    sent stays 0, which counts as the first output every time. *)
Theorem cumulative_ignores_interval :
  (r ← process_outputs pair_decoder [demo_output "r" [1020] None; demo_output "r" [3040] None; demo_output "r" [5060] None]
         (stream_op CUMULATIVE 10 [] false);
   Ok (length r.1.2)) = Ok 3%nat.
Proof. vm_compute. reflexivity. Qed.

(** With a collector, an aborted [DELTA] request sends a last output without tokens, and
    with all the log probabilities again: [logprobs[-0:]] is the whole list. *)
Definition aborted_op : res (OutputProcessor unit) :=
  op ← op_add_request (λ _, tt) true 1 (stream_request "r" DELTA [] true) None 0 (Some 0%nat)
         {| op_request_states := ∅; op_parent_requests := ∅; op_external_req_ids := ∅; op_parents := ∅;
            op_queues := {[ 0%nat := Collector_init DELTA ]} |};
  r ← process_outputs pair_decoder
        [{| cor_output := cor_output (demo_output "r" [1020] None); cor_new_logprobs := Some [-7]; cor_pooling_output := None;
            cor_num_cached_tokens := None |}] op;
  Ok r.1.1.

Theorem abort_repeats_logprobs :
  (op ← aborted_op;
   q ← (match op_queues op !! 0%nat with Some q => Ok q | None => Raise KeyError end);
   let '(q, _) := collector_get_nowait q in
   r ← op_abort_requests id 2 ["x"] false (op_with_queues op (<[0%nat := q]> (op_queues op)));
   q ← (match op_queues r.1 !! 0%nat with Some q => Ok q | None => Raise KeyError end);
   o ← (collector_get_nowait q).2;
   Ok (option_map (λ o, (λ c, (co_token_ids c, co_logprobs c)) <$> out_completion o) o)) = Ok (Some [([], Some [-7])]).
Proof. vm_compute. reflexivity. Qed.

(** The samples of a request that are aborted by its external id leave the parent behind
    in [parent_requests]. *)
Theorem abort_leaks_parent :
  (r ← op_abort_requests id 2 ["x"] false demo_op;
   Ok (r.2, bool_decide (op_request_states r.1 = ∅), bool_decide ("r" ∈ op_parent_requests r.1))) = Ok (["0_r"; "1_r"], true, true).
Proof. vm_compute. reflexivity. Qed.

(** A pooling request and a stream interval do not go together: its only output fails an
    assertion on the detokenizer, which a pooling request does not have. *)
Theorem pooling_interval_raises {St} (s : RequestState St) data f stop parents :
  rs_detokenizer s = None → 1 < rs_stream_interval s →
  make_request_output [] (Some data) (Some f) stop s parents = Raise AssertionError.
Proof. intros Hd Hi. unfold make_request_output. cbn. by rewrite bool_decide_true // Hd. Qed.

(** ** The collector *)

(** The completions of the sample [i], and what they show, put together. *)
Definition sample (i : Z) (cs : list CompletionOutput) : list CompletionOutput := filter (λ c, co_index c = i) cs.
Definition pick {A} (f : CompletionOutput → list A) (i : Z) (cs : list CompletionOutput) : list A := concat (f <$> sample i cs).
Definition logs (c : CompletionOutput) := default [] (co_logprobs c).
Definition ending (c : CompletionOutput) := (co_finish_reason c, co_stop_reason c).

(** What a collector that holds [held] shows of all completions that were put for the
    sample [i]: merged into one, or only the last. *)
Definition shows (aggregate : bool) (i : Z) (held all : list CompletionOutput) : Prop :=
  if aggregate then
    pick co_token_ids i held = pick co_token_ids i all ∧ pick co_text i held = pick co_text i all ∧
    pick logs i held = pick logs i all ∧ ending <$> last (sample i held) = ending <$> last (sample i all)
  else sample i held = option_list (last (sample i all)).

Lemma sample_cons i c cs : sample i (c :: cs) = (if bool_decide (co_index c = i) then [c] else []) ++ sample i cs.
Proof. unfold sample. rewrite filter_cons. case_bool_decide; by [rewrite decide_True|rewrite decide_False]. Qed.
Lemma sample_app i cs ds : sample i (cs ++ ds) = sample i cs ++ sample i ds.
Proof. apply filter_app. Qed.
Lemma sample_none i cs : i ∉ co_index <$> cs → sample i cs = [].
Proof.
  induction cs as [|c cs IH]; [done|]. rewrite fmap_cons not_elem_of_cons. intros [Hne Hi]. rewrite sample_cons bool_decide_false; [by apply IH|congruence].
Qed.
Lemma sample_single i cs : NoDup (co_index <$> cs) → sample i cs = [] ∨ ∃ c, sample i cs = [c].
Proof.
  induction cs as [|c cs IH]; [by left|]. rewrite fmap_cons. intros [Hc Hnd]%NoDup_cons. rewrite sample_cons.
  case_bool_decide as Hi; [|by apply IH]. right. exists c. by rewrite sample_none // -Hi.
Qed.

(** With merging, every completion has log probabilities, or none has. *)
Definition uniform (aggregate wants : bool) (cs : list CompletionOutput) : Prop :=
  aggregate = true → Forall (λ c, is_some (co_logprobs c) = wants) cs.

(** The completion that replaces [c] when [next] comes. *)
Definition merged (aggregate : bool) (c next m : CompletionOutput) : Prop :=
  if aggregate then co_token_ids m = co_token_ids c ++ co_token_ids next ∧ co_text m = co_text c ++ co_text next ∧
    logs m = logs c ++ logs next ∧ ending m = ending next
  else m = next.

Lemma merge_ok aggregate wants c next :
  uniform aggregate wants [c; next] → co_index c = co_index next →
  ∃ m, merge_completion aggregate c next = Ok m ∧ co_index m = co_index next ∧ uniform aggregate wants [m] ∧ merged aggregate c next m.
Proof.
  intros Hu Hi. unfold merge_completion. destruct aggregate; [|by exists next].
  destruct (Forall_cons_1 _ _ _ (Hu eq_refl)) as [Hc [Hn _]%Forall_cons_1].
  unfold uniform, merged, logs. destruct (co_logprobs next) as [[|x l]|], (co_logprobs c) as [old|] eqn:El; cbn in *; try congruence;
    eexists; (split; [done|]); cbn; rewrite ?app_nil_r; split_and!; try done; intros _; by constructor.
Qed.

Lemma add_completion_ok aggregate wants cs next :
  NoDup (co_index <$> cs) → uniform aggregate wants cs → uniform aggregate wants [next] →
  ∃ cs', add_completion aggregate (Some <$> cs) next = Ok (Some <$> cs') ∧ uniform aggregate wants cs' ∧
    co_index <$> cs' = (co_index <$> cs) ++ (if bool_decide (co_index next ∈ co_index <$> cs) then [] else [co_index next]) ∧
    (∃ m, sample (co_index next) cs' = [m] ∧
       match sample (co_index next) cs with [] => m = next | c :: _ => merged aggregate c next m end) ∧
    ∀ i, i ≠ co_index next → sample i cs' = sample i cs.
Proof.
  intros Hnd Hu Hn. induction cs as [|c cs IH].
  { exists [next]. split_and!; [done|done|done| |].
    - exists next. by rewrite sample_cons bool_decide_true.
    - intros i Hi. by rewrite sample_cons bool_decide_false. }
  rewrite !fmap_cons in Hnd |- *. apply NoDup_cons in Hnd as [Hni Hnd]. cbn [add_completion].
  assert (uniform aggregate wants [c; next]) as Hc.
  { intros E. destruct (Forall_cons_1 _ _ _ (Hu E)), (Forall_cons_1 _ _ _ (Hn E)). by repeat constructor. }
  assert (uniform aggregate wants cs) as Hu' by (intros E; by destruct (Forall_cons_1 _ _ _ (Hu E))).
  assert (∀ m cs', uniform aggregate wants [m] → uniform aggregate wants cs' → uniform aggregate wants (m :: cs')) as Hcons.
  { intros m cs' H1 H2 E. constructor; [by destruct (Forall_cons_1 _ _ _ (H1 E))|by apply H2]. }
  destruct (decide (co_index c = co_index next)) as [Heq|Hne].
  - rewrite bool_decide_true //. destruct (merge_ok aggregate wants c next Hc Heq) as (m & -> & Hi & Hm & Hmerged). cbn [mbind res_bind].
    exists (m :: cs). split_and!; [done|by apply Hcons| | |].
    + rewrite fmap_cons Hi Heq bool_decide_true; [by rewrite app_nil_r|left].
    + exists m. rewrite !sample_cons Hi Heq !bool_decide_true // sample_none; [done|]. by rewrite -Heq.
    + intros i Hne. rewrite !sample_cons Hi Heq. by rewrite bool_decide_false.
  - rewrite bool_decide_false //. destruct (IH Hnd Hu') as (cs' & -> & Hu2 & Hidx & (m & Hm & Hmerged) & Hother). cbn [mbind res_bind].
    exists (c :: cs'). split_and!; [done| | | |].
    + apply Hcons; [|done]. intros E. destruct (Forall_cons_1 _ _ _ (Hc E)). by repeat constructor.
    + rewrite fmap_cons Hidx /=. f_equal. f_equal. destruct (bool_decide_reflect (co_index next ∈ co_index <$> cs)) as [H|H].
      * rewrite bool_decide_true //. by right.
      * rewrite bool_decide_false //. rewrite not_elem_of_cons. split; [congruence|done].
    + exists m. by rewrite !sample_cons bool_decide_false.
    + intros i Hi. by rewrite !sample_cons Hother.
Qed.

(** One more completion keeps what is shown. *)
Lemma shows_step aggregate cs cs' all next i :
  NoDup (co_index <$> cs) → shows aggregate i cs all →
  (∃ m, sample (co_index next) cs' = [m] ∧
     match sample (co_index next) cs with [] => m = next | c :: _ => merged aggregate c next m end) →
  (i ≠ co_index next → sample i cs' = sample i cs) → shows aggregate i cs' (all ++ [next]).
Proof.
  intros Hnd Hs (m & Hm & Hmerged) Hother. unfold shows, pick in *. rewrite sample_app sample_cons.
  destruct (bool_decide_reflect (co_index next = i)) as [<-|Hne]; [|by rewrite !app_nil_r Hother].
  rewrite Hm last_snoc. destruct (sample_single (co_index next) cs Hnd) as [E|[c E]]; rewrite E in Hs, Hmerged; destruct aggregate; cbn in *.
  - subst m. destruct Hs as (H1 & H2 & H3 & _). by rewrite !fmap_app !concat_app -H1 -H2 -H3 /= !app_nil_r.
  - by subst m.
  - destruct Hs as (H1 & H2 & H3 & _), Hmerged as (-> & -> & -> & ->). by rewrite !fmap_app !concat_app -H1 -H2 -H3 /= !app_nil_r.
  - by subst m.
Qed.

Lemma add_completions_ok aggregate wants next cs all :
  NoDup (co_index <$> cs) → uniform aggregate wants cs → uniform aggregate wants next → (∀ i, shows aggregate i cs all) →
  ∃ cs', foldM (λ outs c, match c with None => Raise AttributeError | Some c => add_completion aggregate outs c end) (Some <$> cs) (Some <$> next) = Ok (Some <$> cs') ∧
    NoDup (co_index <$> cs') ∧ uniform aggregate wants cs' ∧ ∀ i, shows aggregate i cs' (all ++ next).
Proof.
  revert cs all. induction next as [|c next IH]; intros cs all Hnd Hu Hn Hs; [exists cs; by rewrite app_nil_r|].
  destruct (add_completion_ok aggregate wants cs c Hnd Hu) as (cs1 & E & Hu1 & Hidx & Hm & Hother).
  { intros Ea. destruct (Forall_cons_1 _ _ _ (Hn Ea)). by repeat constructor. }
  rewrite fmap_cons. cbn [foldM]. rewrite E. cbn [mbind res_bind]. destruct (IH cs1 (all ++ [c])) as (cs2 & E2 & Hnd2 & Hu2 & Hs2); [|done| | |].
  - rewrite Hidx. case_bool_decide as Hin; [by rewrite app_nil_r|]. apply NoDup_app. split; [done|]. split; [|apply NoDup_singleton].
    intros i Hi ->%list_elem_of_singleton. done.
  - intros Ea. by destruct (Forall_cons_1 _ _ _ (Hn Ea)).
  - intros i. eapply shows_step; [exact Hnd|apply Hs|exact Hm|apply Hother].
  - exists cs2. by rewrite -app_assoc in Hs2.
Qed.

(** An output of a client: completions of samples, each at most once. *)
Definition client_output (aggregate wants : bool) (o : ROut) : Prop :=
  ∃ rid p cs f n, o = RequestOutput rid p (Some <$> cs) f n ∧ NoDup (co_index <$> cs) ∧ uniform aggregate wants cs.

Lemma out_completion_some rid p cs f n : out_completion (RequestOutput rid p (Some <$> cs) f n) = cs.
Proof. cbn. induction cs as [|c cs IH]; [done|]. cbn. by f_equal. Qed.

Lemma collector_run aggregate wants outs o all :
  client_output aggregate wants o → Forall (client_output aggregate wants) outs → (∀ i, shows aggregate i (out_completion o) all) →
  ∃ o', foldM (λ q o, collector_put (COutput o) q) {| rc_aggregate := aggregate; rc_output := Some (COutput o) |} outs =
    Ok {| rc_aggregate := aggregate; rc_output := Some (COutput o') |} ∧ client_output aggregate wants o' ∧
    out_finished o' = existsb out_finished (o :: outs) ∧ ∀ i, shows aggregate i (out_completion o') (all ++ (outs ≫= out_completion)).
Proof.
  revert o all. induction outs as [|next outs IH]; intros o all Ho Houts Hs.
  { exists o. split; [done|]. split; [done|]. split; [cbn; by rewrite orb_false_r|]. intros i. by rewrite app_nil_r. }
  apply Forall_cons in Houts as [(rid2 & p2 & cs2 & f2 & n2 & -> & Hnd2 & Hu2) Houts]. destruct Ho as (rid & p & cs & f & n & -> & Hnd & Hu).
  rewrite out_completion_some in Hs. destruct (add_completions_ok aggregate wants cs2 cs all Hnd Hu Hu2 Hs) as (cs3 & E & Hnd3 & Hu3 & Hs3).
  destruct (IH (RequestOutput rid p (Some <$> cs3) (f || f2) n) (all ++ cs2)) as (o' & E' & Ho' & Hf & Hs'); [by exists rid, p, cs3, (f || f2), n|done| |].
  { intros i. rewrite out_completion_some. apply Hs3. }
  exists o'. cbn [foldM]. unfold collector_put at 2. cbn [rc_output output_add rc_aggregate]. rewrite E. cbn [mbind res_bind].
  split; [exact E'|]. split; [done|]. split; [rewrite Hf; cbn; by rewrite orb_assoc|].
  intros i. cbn [list_bind]. rewrite out_completion_some app_assoc. apply Hs'.
Qed.

Lemma shows_refl aggregate i cs : NoDup (co_index <$> cs) → shows aggregate i cs cs.
Proof. intros Hnd. destruct aggregate; [done|]. cbn. by destruct (sample_single i cs Hnd) as [->|[c ->]]. Qed.

(** C17: the collector loses nothing.  Whatever outputs with completions are put into the
    collector of a request before its client reads, the client gets one output, finished if
    one of them was, with at most one completion per sample, and the collector is then
    empty.  A client that streams deltas finds there the tokens, the text and the log
    probabilities of all completions of the sample, in order, with the reasons of the last;
    any other client finds the last completion of the sample, unchanged ([shows]).  For
    deltas the completions have log probabilities in all outputs or in none. *)
Theorem collector_keeps_outputs kind wants outs :
  Forall (client_output (bool_decide (kind = DELTA)) wants) outs → outs ≠ [] →
  ∃ q o, foldM (λ q o, collector_put (COutput o) q) (Collector_init kind) outs = Ok q ∧
    collector_get_nowait q = (Collector_init kind, Ok (Some o)) ∧ out_finished o = existsb out_finished outs ∧
    NoDup (co_index <$> out_completion o) ∧
    ∀ i, shows (bool_decide (kind = DELTA)) i (out_completion o) (outs ≫= out_completion).
Proof.
  intros Hall Hne. destruct outs as [|o outs]; [done|]. apply Forall_cons in Hall as [Ho Houts].
  destruct (collector_run _ wants outs o (out_completion o) Ho Houts) as (o' & E & Ho' & Hf & Hs).
  { destruct Ho as (rid & p & cs & f & n & -> & Hnd & _). rewrite out_completion_some. intros i. by apply shows_refl. }
  eexists _, o'. split; [exact E|]. split_and!; [done|done| |exact Hs].
  destruct Ho' as (rid & p & cs & f & n & -> & Hnd & _). by rewrite out_completion_some.
Qed.

Definition sample_outputs : list ROut :=
  [RequestOutput "x" None [Some (sample_output 0 None)] false 0; RequestOutput "x" None [Some (sample_output 1 None)] false 0;
   RequestOutput "x" None [Some (sample_output 0 (Some STOP))] true 0].

Lemma sample_outputs_ok : Forall (client_output true false) sample_outputs.
Proof.
  repeat constructor.
  - exists "x", None, [sample_output 0 None], false, 0. split; [done|]. split; [apply NoDup_singleton|by constructor].
  - exists "x", None, [sample_output 1 None], false, 0. split; [done|]. split; [apply NoDup_singleton|by constructor].
  - exists "x", None, [sample_output 0 (Some STOP)], true, 0. split; [done|]. split; [apply NoDup_singleton|by constructor].
Qed.

Lemma collector_keeps_outputs_witness :
  ∃ q o, foldM (λ q o, collector_put (COutput o) q) (Collector_init DELTA) sample_outputs = Ok q ∧
    collector_get_nowait q = (Collector_init DELTA, Ok (Some o)) ∧ pick co_token_ids 0 (out_completion o) = [5; 5].
Proof.
  destruct (collector_keeps_outputs DELTA false sample_outputs sample_outputs_ok) as (q & o & E & Eg & _ & _ & Hp); [done|].
  exists q, o. split; [exact E|]. split; [exact Eg|]. apply (Hp 0).
Defined.
